(* ===== verification/_CoqProject ===== *)
-Q . S2P
Prelude.v
Arrays.v
ExchangeSorts.v
InsertionSorts.v
QuickSort.v
HeapSort.v
MergeSort.v
Sorts.v
DistributionSorts.v
CArray.v
Searching.v
Heap.v
HashTable.v
OSQueue.v
ProducerConsumer.v
Graphs.v
BST.v
LinkedLists.v
Stacks.v
Trie.v
Dictionary.v
Sudoku.v
Conversions.v
Numbers.v
Recursion.v
CStrings.v
ModeChange.v
XStrtol.v
IRing.v
RandInt.v
HashSizes.v
GnuHash.v
GnuHashSet.v
FileNames.v
Human.v
Signals.v
UserSpec.v
ArgMatch.v
FileSet.v
Stdio.v
Checksums.v
Sum.v
Fold.v
Echo.v
LineBuffer.v
Comm.v
Pwd.v
Isaac.v
Obstack.v
Dircolors.v
Savewd.v
MkDirs.v
Canonicalize.v
MkTemp.v
Permutations.v
Digits.v
Exercism.v
Rmdir.v
Tee.v
Kill.v
FtsCycle.v
Subsequence.v
Environment.v
Bmp.v
EchoKernel.v
Groups.v
Users.v
Chown.v
Remove.v
MsgQueue.v
