(* ===== verification/Prelude.v ===== *)
(** * Code365 in Rocq: the data structures and algorithms of the C sources

    Code365 is a collection of small C programs.  This library models the
    part of it that carries algorithms of its own: the programs of
    src/algorithms/c, the hash table, queue and producer/consumer program
    of src/os_lesson/exp_2, the message queue of src/os_lesson/exp_1, the echo
    server of src/os_lesson/echo/k_server, library files and commands of
    src/utils/coreutils, and the picture conversion of src/term-autotest.  Each C function is a Rocq function of the same
    name in a Module per source file, written in one execution model, and
    theorems state what the function computes, that it ends, and how it fails.

    ** The execution model (this file)

    A run returns [Ok v] or stops with a [fault]: an access outside an array
    or through a null or dangling pointer, signed overflow, division by zero,
    the use of an indeterminate value or of the value of a function that ran
    off its end, a failed assert, abort, exit, the end of the input.  [res] is
    the error monad with the notation [let*].  [int] and [long] check the range
    of signed arithmetic, [u32] and [u64] wrap, [s8] and [s32] convert.  C loops
    are the combinators [while], [for_up], [for_down], [for_exit] and [loop];
    their fuel is [NoFuel] when it is used up, and every theorem of the form
    [wp c Q] says that the run returns, so that fuel was enough.  [wp] is total
    correctness, [runs c F Q] allows the faults of [F]; the loop rules
    [wp_for_up], [wp_while], [wp_loop_idx], ... take an invariant and a
    measure.  [console] is the list of integers still to be read and of pieces
    printed so far.  Tactics: [code_lia], [code_nia], [div_lia] for ranges,
    [code_case] for tests, [wp_step] (Arrays.v) for one step of a program.

    ** Files and sources (paths below src/algorithms/c unless given)

    - Arrays.v: C arrays as lists indexed by Z with checked access, memory that
      is uninitialised, sortedness and permutations.
    - Heap.v: malloc with an oracle that may refuse, free, checked loads and
      stores.
    - ExchangeSorts.v: sorting/BubbleSort.c, shaker_sort.c, BogoSort.c (the
      random numbers are an argument).  InsertionSorts.v: InsertionSort.c,
      binary_insertion_sort.c, shellSort.c.  QuickSort.v, HeapSort.v,
      MergeSort.v: QuickSort.c, HeapSort.c, mergesort.c.  Sorts.v: their
      agreement.  DistributionSorts.v: BucketSort.c, countingSort.c.
    - CArray.v: data_structures/Array/CArray.c.
    - Searching.v: the seven programs of searching.
    - HashTable.v, OSQueue.v, ProducerConsumer.v: src/os_lesson/exp_2/hash.c,
      queue.c, exe.c.  The threads of exe.c are two program-counter machines
      whose steps interleave; the mutexes are part of the state.
    - MsgQueue.v: src/os_lesson/exp_1/main.c, two processes and a message queue,
      again as interleaving machines.
    - EchoKernel.v: src/os_lesson/echo/k_server/server.c, a kernel module whose
      handlers are functions of its table of clients; requests come in sequence.
    - Bmp.v: src/term-autotest/jpg_bmp.c, between scan lines and BMP files; what
      libjpeg reads and writes is an argument.
    - Graphs.v: data_structures/graphs (Bellman-Ford, Dijkstra,
      Floyd-Warshall), over walks in a weighted graph.
    - BST.v: data_structures/binary_trees.
    - LinkedLists.v: list/list.c, list/example.c and data_structures/linked_list.
    - Stacks.v: data_structures/stack/stack.c, stack/main.c, stack.c, queue.c;
      the class [StackLaws] is the interface two of them implement.
    - Trie.v: data_structures/trie/trie.c.
    - Dictionary.v: hash/2_imple/hash.c, data_structures/dictionary/dict.c.
    - Sudoku.v: misc/sudokusolver.c.
    - Conversions.v: the seven programs of conversions.
    - Numbers.v: project_euler (Problem 01, 02 and 03/sol2.c) and
      misc/TowerOfHanoi.c.  Recursion.v: misc/GCD.c, Factorial.c, Fibonacci.c,
      demonetization.c.  Permutations.v: misc/lexicographicPermutations.c.
      Digits.v: misc/isArmstrong.c, strongNumber.c, palindrome.c.
      Subsequence.v: misc/LongestSubSequence.c.
    - Exercism.v: exercism (isogram, rna-transcription, word-count).
    - CStrings.v: C strings, and the functions of string.h and ctype.h the
      coreutils files call.
    - ModeChange.v, XStrtol.v, IRing.v, RandInt.v: src/utils/coreutils/lib/
      modechange.c, xstrtol.c and inttostr.c, i-ring.c, randint.c.
    - HashSizes.v, GnuHash.v, GnuHashSet.v: src/utils/coreutils/lib/hash.c:
      its choice of sizes, its operations on buckets and a heap, and the
      refinement of a set; the class [LawfulHash] is what the table asks of its
      client's hasher and comparator.
    - FileNames.v: basename-lgpl.c, dirname-lgpl.c, filenamecat-lgpl.c and their
      callers in coreutils/lib, with the commands basename and dirname.
    - Human.v: coreutils/lib/human.c.  ArgMatch.v: coreutils/lib/argmatch.c.
      FileSet.v: coreutils/lib/file-set.c, a client of GnuHash.v.  FtsCycle.v:
      coreutils/lib/fts-cycle.c and cycle-check.c, another one.
    - Signals.v: coreutils/lib/sig2str.c, operand2sig.c.  UserSpec.v:
      coreutils/lib/userspec.c.  Isaac.v: coreutils/lib/rand-isaac.c and the
      reader of randread.c.
    - Obstack.v: coreutils/lib/obstack.c; the class [GrowingObject] is what its
      client Dircolors.v (coreutils/src/dircolors.c) uses.
    - Savewd.v: coreutils/lib/savewd.c over an explicit system; the class
      [WdClient] is what it asks of a callback.  MkDirs.v: mkancesdirs.c,
      dirchownmod.c, mkdir-p.c and src/mkdir.c of coreutils, its client.
    - Canonicalize.v: coreutils/lib/canonicalize.c, areadlink-with-size.c and
      src/readlink.c, over the links seen of FileSet.v.  MkTemp.v:
      coreutils/lib/tempname.c and src/mktemp.c, over RandInt.v and FileNames.v.
      Rmdir.v: src/rmdir.c, over FileNames.v.  Tee.v: src/tee.c.  Kill.v:
      src/kill.c, over Signals.v.  Environment.v: src/printenv.c, env.c.
    - Groups.v: coreutils/lib/mgetgroups.c, getugroups.c, group-list.c and
      src/groups.c, id.c, over the databases of the system.  Users.v:
      coreutils/lib/readutmp.c and src/users.c.
    - Chown.v: coreutils/lib/chown-core.c, xfts.c and src/chown.c, chgrp.c, over a
      file system in which other processes may move names at every system
      call; the entries of the walk are an argument.
    - Remove.v: coreutils/lib/remove.c, yesno.c, euidaccess-stat.c, file-type.c,
      write-any-file.c and src/rm.c, over the entries of a walk and the lines of
      the input; what happens is a trace.
    - Stdio.v, LineBuffer.v: files, streams and growing buffers: xalloc.h and
      linebuffer.c of coreutils/lib.
    - Checksums.v (cksum), Sum.v, Fold.v, Echo.v, Comm.v, Pwd.v: commands of
      coreutils/src.

    ** What the theorems show

    - Sorting: each program returns a sorted permutation of its input, for all
      inputs the code handles; where it does not sort (HeapSort.c on odd
      lengths, mergesort.c from six elements on) the theorem has the exact
      condition and a lemma shows a failing input.
    - Searching: agreement with membership and position, or the exact input on
      which a program reads outside its array or returns nothing.
    - Refinements: the hash table of exp_2 against a finite map for arbitrary
      request sequences, with failing allocation and freeing; its queue against
      a first-in first-out list; binary_search_tree.c against an ordered set
      over whole sessions, with every way in which a session can stop or never end; list.c and the menu programs against lists; two
      stacks against one interface; the dictionary against a map of its cells.
    - Concurrency: conservation of work items and mutual exclusion in every
      reachable state of the producer/consumer program, also when malloc and calloc
      fail after its table and queue are made, and safety for one
      consumer (two can crash, and so can a program without its table or queue; these are lemmas).
    - The message queue: in every state the two processes reach, their tables agree
      up to the messages on their way; MsgQueue.ending_hangs shows that they may
      wait for each other in the end.
    - The echo server: in every reachable state the table is well formed and the
      next polite request is handled without a fault; without quits, for requests that fit its buffers, it refines a
      map from clients to modes.  Lemmas show how quits and long requests break it.
    - Pictures: where every pixel of an image lies in the file that is written, and
      that the file is read back as the image.
    - Graphs: distances are the minima over all walks, negative cycles are
      reported exactly, no overflow below the stated weight bounds.
    - Coreutils: hash.c against a set as long as the table is not resized (the
      resizing code is modelled and shown to corrupt the table), its walks and
      its freeing; octal modes, and that symbolic modes do not compile;
      xstrtol's scaling and clamping, with inttostr as a round trip; the ring
      as a bounded stack; the fairness of randint_genmax over all byte strings;
      next_prime; what basename and dirname print and that joining it gives the
      name back; the correct rounding of human_readable inside its buffer, in its integer branch and without digit grouping; the
      CRC of cksum as a polynomial remainder, and the two checksums of sum;
      fold against an inductive folding of the text, comm against the merge of
      two multisets, pwd against the path in a tree, echo -e as the inverse of
      an octal encoding, argmatch against abbreviation up to synonyms; signal
      names and numbers as inverses; the reading of user:group arguments; the
      stream of ISAAC as one sequence however it is read, its refill as a
      permutation of states, and which seeds collide; object stacks inside
      their chunks; what dircolors prints, and that its quoting keeps entries apart; mkdir, which goes
      back to its directory whatever the system answers; canonical names as
      walks along their components, and as fixed points; mktemp, which makes
      names that match the template and did not exist; rmdir -p, which goes up
      by dirname; tee, whose destinations do not disturb each other
      unless SIGPIPE kills it; kill, which
      sends to exactly the process ids among its operands; the lazy detection of
      directory cycles, which with NDEBUG is sound and complete in a linear number of steps
      and with assertions stops at the first directory of every walk (the detection with a table
      faults there as well); what printenv prints, and the environment env runs a command in; the
      groups of a user and of a process, without loss and with a bounded number
      of calls, and what groups prints of them, also when names share a user number; the sorted login names of users;
      chown --from, which changes only files of the required owner whatever
      other processes do to the names, unless an entry is neither a regular file nor a directory,
      and --preserve-root; rm -i, which asks whether to remove an entry
      before it removes it, and rm -f.
    - Others: round trips (itochar, base conversions), overflow bounds of the
      string hashes, the listing order of the trie, soundness and completeness
      of the sudoku search, the largest prime factor, the moves of the tower of
      Hanoi, the number of ways to pay with coins, all permutations of a string
      in order, the digit programs, the counting of words, the subsequences of
      longestSub (non-decreasing, not always longest).

    Lemmas named in the manifest's findings show what the code does where it
    differs from its intent: overruns, missing returns, leaks, uninitialised
    reads.

    ** Fuel

    Loops that count get their number of turns from their bounds.  Other fuel
    is a bound that the theorems prove sufficient: the size of the heap for
    walks along links, the length of the input for menu loops, the number of
    decimal or binary digits of an int for digit loops, the number of empty
    cells for the sudoku search, the size of the range for divide and conquer.

    ** Not modelled

    Floating point (except the load factors of the two hash tables, IEEE
    numbers through the Standard Library's SpecFloat), time, signals' delivery,
    sockets and sleeping, and every program that is mainly calls of a library
    (audio, video, X11, most kernel modules).  The tree walk of coreutils
    (fts.c) rests on the cycle detection of FtsCycle.v, which faults on the
    first directory, and is left out: Chown.v and Remove.v take its entries as
    an argument; so are rselect.c of
    misc and the echo server of os_lesson/echo/u_server. *)

From stdpp Require Export base list gmap strings.

#[export] Set Warnings "-clear-no-such-hyp".
Open Scope Z_scope.

(** ** Outcomes of a C computation *)

(** What stops a C run before it produces a value.  [NoFuel] is the only
    constructor that belongs to the model and not to the program: every
    theorem that says a function returns shows that it does not occur. *)
Inductive fault :=
  | OutOfBounds
  | IntOverflow
  | DivByZero
  | NullDeref
  | Uninit
  | NoReturn
  | AssertFail
  | Aborted
  | Dangling
  | EndOfInput
  | ExitCall (code : Z)
  | NoFuel.

#[export] Instance fault_eq_dec : EqDecision fault.
Proof. solve_decision. Defined.

Inductive res (A : Type) : Type :=
  | Ok (a : A)
  | Fail (f : fault).
Arguments Ok {A} a.
Arguments Fail {A} f.

#[export] Instance res_eq_dec {A} `{EqDecision A} : EqDecision (res A).
Proof. solve_decision. Defined.

Definition bind {A B} (c : res A) (k : A -> res B) : res B :=
  match c with
  | Ok a => k a
  | Fail f => Fail f
  end.

Declare Scope code_scope.
Delimit Scope code_scope with code.
Open Scope code_scope.

Notation "'let*' x ':=' c 'in' k" := (bind c (fun x => k))
  (at level 10, x pattern, c at level 200, k at level 200,
   format "'[v' 'let*'  x  ':='  c  'in' '//' k ']'") : code_scope.

Lemma bind_assoc {A B C} (c : res A) (f : A -> res B) (g : B -> res C) :
  bind (bind c f) g = bind c (fun a => bind (f a) g).
Proof. by destruct c. Qed.

Lemma bind_Ok_r {A} (c : res A) : bind c Ok = c.
Proof. by destruct c. Qed.

Lemma bind_Ok_inv {A B} (c : res A) (k : A -> res B) b :
  bind c k = Ok b -> exists a, c = Ok a /\ k a = Ok b.
Proof. destruct c; simpl; [eauto | discriminate]. Qed.

Definition demand (b : bool) (f : fault) : res unit :=
  if b then Ok tt else Fail f.

(** ** Total-correctness weakest preconditions *)

(** [wp c Q]: the computation returns a value and the value satisfies
    [Q].  A fault of any kind, running out of fuel included, refutes it. *)
Definition wp {A} (c : res A) (Q : A -> Prop) : Prop :=
  match c with
  | Ok a => Q a
  | Fail _ => False
  end.

Lemma wp_bind {A B} (c : res A) (k : A -> res B) Q :
  wp c (fun a => wp (k a) Q) -> wp (bind c k) Q.
Proof. by destruct c. Qed.

Lemma wp_mono {A} (c : res A) (P Q : A -> Prop) :
  wp c P -> (forall a, P a -> Q a) -> wp c Q.
Proof. destruct c; simpl; eauto. Qed.

Lemma wp_Ok {A} (a : A) (Q : A -> Prop) : Q a -> wp (Ok a) Q.
Proof. done. Qed.

Lemma wp_exists {A} (c : res A) (Q : A -> Prop) :
  wp c Q <-> exists a, c = Ok a /\ Q a.
Proof. destruct c; simpl; split; [eauto | by intros (? & [= <-] & ?) | done | by intros (? & [=] & _)]. Qed.

Lemma wp_and {A} (c : res A) (P Q : A -> Prop) :
  wp c P -> wp c Q -> wp c (fun a => P a /\ Q a).
Proof. destruct c; simpl; eauto. Qed.

Lemma wp_eq {A} (c : res A) a (Q : A -> Prop) : c = Ok a -> Q a -> wp c Q.
Proof. by intros ->. Qed.

(** ** Machine integers *)

Definition INT_MIN : Z := -2147483648.
Definition INT_MAX : Z := 2147483647.

Definition is_int (z : Z) : Prop := INT_MIN <= z <= INT_MAX.

(** The value of a signed [int] expression: overflow is a fault. *)
Definition int (z : Z) : res Z :=
  if (INT_MIN <=? z) && (z <=? INT_MAX) then Ok z else Fail IntOverflow.

Definition LONG_MIN : Z := -9223372036854775808.
Definition LONG_MAX : Z := 9223372036854775807.

Definition is_long (z : Z) : Prop := LONG_MIN <= z <= LONG_MAX.

(** The value of a signed 64-bit [long] (or [long long]) expression. *)
Definition long (z : Z) : res Z :=
  if (LONG_MIN <=? z) && (z <=? LONG_MAX) then Ok z else Fail IntOverflow.

(** Unsigned arithmetic wraps. *)
Definition u32 (z : Z) : Z := z mod 4294967296.
Definition u64 (z : Z) : Z := z mod 18446744073709551616.

(** Conversion to [signed char] and from [unsigned int] to [int]. *)
Definition s8 (z : Z) : Z := (z + 128) mod 256 - 128.
Definition s32 (z : Z) : Z := (z + 2147483648) mod 4294967296 - 2147483648.

Lemma wp_int z (Q : Z -> Prop) : is_int z -> Q z -> wp (int z) Q.
Proof.
  unfold is_int, int. intros [? ?] ?.
  rewrite (proj2 (Z.leb_le _ _)), (proj2 (Z.leb_le _ _)) by done. done.
Qed.

Lemma int_Ok z : is_int z -> int z = Ok z.
Proof. intros H. pose proof (wp_int z (eq z) H eq_refl) as Hw.
  destruct (int z); simpl in Hw; [by subst | done]. Qed.

Lemma int_inv z z' : int z = Ok z' -> z' = z /\ is_int z.
Proof.
  unfold int, is_int. destruct (Z.leb_spec INT_MIN z), (Z.leb_spec z INT_MAX);
    simpl; naive_solver.
Qed.

Lemma wp_long z (Q : Z -> Prop) : is_long z -> Q z -> wp (long z) Q.
Proof.
  unfold is_long, long. intros [? ?] ?.
  rewrite (proj2 (Z.leb_le _ _)), (proj2 (Z.leb_le _ _)) by done. done.
Qed.

(** ** Loops *)

(** A loop body maps the loop's variables to the next iteration ([inl])
    or to the value the loop leaves with ([inr]). *)
Fixpoint loop {S R} (fuel : nat) (body : S -> res (S + R)) (s : S) : res R :=
  match fuel with
  | O => Fail NoFuel
  | Datatypes.S n =>
      let* x := body s in
      match x with
      | inl s' => loop n body s'
      | inr r => Ok r
      end
  end.

(** [while (cond) body] *)
Definition while {S} (fuel : nat) (cond : S -> res bool) (body : S -> res S)
    (s : S) : res S :=
  loop fuel (fun s =>
    let* b := cond s in
    if b then let* s' := body s in Ok (inl s') else Ok (inr s)) s.

(** [for (i = lo; i < hi; i++) body], where the body changes neither [i]
    nor the bound. *)
Fixpoint for_n {S} (n : nat) (i : Z) (body : Z -> S -> res S) (s : S) : res S :=
  match n with
  | O => Ok s
  | Datatypes.S n => let* s' := body i s in for_n n (i + 1) body s'
  end.

Definition for_up {S} (lo hi : Z) (body : Z -> S -> res S) (s : S) : res S :=
  for_n (Z.to_nat (hi - lo)) lo body s.

(** [for (i = hi; i >= lo; i--) body] *)
Fixpoint for_down_n {S} (n : nat) (i : Z) (body : Z -> S -> res S) (s : S)
    : res S :=
  match n with
  | O => Ok s
  | Datatypes.S n => let* s' := body i s in for_down_n n (i - 1) body s'
  end.

Definition for_down {S} (hi lo : Z) (body : Z -> S -> res S) (s : S) : res S :=
  for_down_n (Z.to_nat (hi - lo + 1)) hi body s.

(** [for (i = lo; i < hi; i++) body] whose body may leave the loop with a
    [break] or a [return]: [inr r] leaves it with [r], [inl s] is the
    normal exit. *)
Fixpoint for_exit_n {S R} (n : nat) (i : Z) (body : Z -> S -> res (S + R))
    (s : S) : res (S + R) :=
  match n with
  | O => Ok (inl s)
  | Datatypes.S n =>
      let* x := body i s in
      match x with
      | inl s' => for_exit_n n (i + 1) body s'
      | inr r => Ok (inr r)
      end
  end.

Definition for_exit {S R} (lo hi : Z) (body : Z -> S -> res (S + R)) (s : S)
    : res (S + R) :=
  for_exit_n (Z.to_nat (hi - lo)) lo body s.

(** *** Loop rules *)

(** A loop whose body keeps an indexed invariant and lowers the index
    returns, with any fuel above the index. *)
Lemma loop_step {S R} fuel (body : S -> res (S + R)) s :
  loop (Datatypes.S fuel) body s = let* x := body s in match x with inl s' => loop fuel body s' | inr r => Ok r end.
Proof. done. Qed.

Lemma wp_loop_idx {S R} (I : nat -> S -> Prop) (n fuel : nat)
    (body : S -> res (S + R)) (s : S) (Q : R -> Prop) :
  I n s -> (n < fuel)%nat ->
  (forall n s, I n s ->
     wp (body s) (fun x => match x with
                           | inl s' => exists n', (n' < n)%nat /\ I n' s'
                           | inr r => Q r
                           end)) ->
  wp (loop fuel body s) Q.
Proof.
  intros HI Hn Hbody. revert n s HI Hn.
  induction fuel as [|fuel IH]; intros n s HI Hn; [lia|].
  simpl. apply wp_bind. eapply wp_mono; [by apply Hbody|].
  intros [s'|r]; simpl; [|done]. intros (n' & Hn' & HI'). apply (IH n'); [done|lia].
Qed.

(** The same with the index as a measure of the loop's variables. *)
Lemma wp_loop {S R} (I : S -> Prop) (m : S -> Z) (fuel : nat)
    (body : S -> res (S + R)) (s : S) (Q : R -> Prop) :
  I s -> m s < Z.of_nat fuel ->
  (forall s, I s -> 0 <= m s) ->
  (forall s, I s ->
     wp (body s) (fun x => match x with
                           | inl s' => I s' /\ m s' < m s
                           | inr r => Q r
                           end)) ->
  wp (loop fuel body s) Q.
Proof.
  intros HI Hm Hpos Hbody.
  apply (wp_loop_idx (fun n s => I s /\ Z.to_nat (m s) = n) (Z.to_nat (m s))).
  - done.
  - specialize (Hpos s HI). lia.
  - intros n s' [HI' Hn]. eapply wp_mono; [by apply Hbody|].
    intros [s''|r]; simpl; [|done]. intros [HI'' Hm'']. exists (Z.to_nat (m s'')).
    split; [|done]. specialize (Hpos s'' HI''). lia.
Qed.

Lemma wp_while {S} (I : S -> Prop) (m : S -> Z) (fuel : nat)
    (cond : S -> res bool) (body : S -> res S) (s : S) (Q : S -> Prop) :
  I s -> m s < Z.of_nat fuel ->
  (forall s, I s -> 0 <= m s) ->
  (forall s, I s ->
     wp (cond s) (fun b =>
       if b : bool then wp (body s) (fun s' => I s' /\ m s' < m s) else Q s)) ->
  wp (while fuel cond body s) Q.
Proof.
  intros HI Hm Hpos Hb. unfold while.
  eapply (wp_loop I m); [done..|]. intros s' HI'.
  apply wp_bind. eapply wp_mono; [by apply Hb|]. intros [|]; simpl; [|done].
  intros Hw. apply wp_bind. eapply wp_mono; [done|]. done.
Qed.

Lemma wp_for_n {S} (I : Z -> S -> Prop) n i (body : Z -> S -> res S) s Q :
  I i s ->
  (forall j s, i <= j < i + Z.of_nat n -> I j s -> wp (body j s) (I (j + 1))) ->
  (forall s, I (i + Z.of_nat n) s -> Q s) ->
  wp (for_n n i body s) Q.
Proof.
  revert i s. induction n as [|n IH]; intros i s HI Hb HQ.
  { simpl. apply HQ. by rewrite Z.add_0_r. }
  simpl. apply wp_bind. eapply wp_mono; [apply Hb; [lia|done]|].
  intros s' HI'. apply IH; [done| |].
  - intros j s0 Hj. apply Hb. lia.
  - intros s0 H. apply HQ. by replace (i + Z.of_nat (Datatypes.S n)) with (i + 1 + Z.of_nat n) by lia.
Qed.

Lemma wp_for_up {S} (I : Z -> S -> Prop) lo hi (body : Z -> S -> res S) s
    (Q : S -> Prop) :
  I lo s ->
  (forall i s, lo <= i < hi -> I i s -> wp (body i s) (I (i + 1))) ->
  (forall s, I (Z.max lo hi) s -> Q s) ->
  wp (for_up lo hi body s) Q.
Proof.
  intros HI Hb HQ. unfold for_up. apply (wp_for_n I); [done| |].
  - intros j s' Hj. apply Hb. lia.
  - intros s' H. apply HQ. by replace (Z.max lo hi) with (lo + Z.of_nat (Z.to_nat (hi - lo))) by lia.
Qed.

Lemma wp_for_down_n {S} (I : Z -> S -> Prop) n i (body : Z -> S -> res S) s
    (Q : S -> Prop) :
  I i s ->
  (forall j s, i - Z.of_nat n < j <= i -> I j s -> wp (body j s) (I (j - 1))) ->
  (forall s, I (i - Z.of_nat n) s -> Q s) ->
  wp (for_down_n n i body s) Q.
Proof.
  revert i s. induction n as [|n IH]; intros i s HI Hb HQ.
  { simpl. apply HQ. by rewrite Z.sub_0_r. }
  simpl. apply wp_bind. eapply wp_mono; [apply Hb; [lia|done]|].
  intros s' HI'. apply IH; [done| |].
  - intros j s0 Hj. apply Hb. lia.
  - intros s0 H. apply HQ. by replace (i - Z.of_nat (Datatypes.S n)) with (i - 1 - Z.of_nat n) by lia.
Qed.

Lemma wp_for_down {S} (I : Z -> S -> Prop) hi lo (body : Z -> S -> res S) s
    (Q : S -> Prop) :
  I hi s ->
  (forall i s, lo <= i <= hi -> I i s -> wp (body i s) (I (i - 1))) ->
  (forall s, I (Z.min hi (lo - 1)) s -> Q s) ->
  wp (for_down hi lo body s) Q.
Proof.
  intros HI Hb HQ. unfold for_down. apply (wp_for_down_n I); [done| |].
  - intros j s' Hj. apply Hb. lia.
  - intros s' H. apply HQ.
    by replace (Z.min hi (lo - 1)) with (hi - Z.of_nat (Z.to_nat (hi - lo + 1))) by lia.
Qed.

Lemma wp_for_exit_n {S R} (I : Z -> S -> Prop) n i
    (body : Z -> S -> res (S + R)) s (Q : S + R -> Prop) :
  I i s ->
  (forall j s, i <= j < i + Z.of_nat n -> I j s ->
     wp (body j s) (fun x => match x with
                             | inl s' => I (j + 1) s'
                             | inr r => Q (inr r)
                             end)) ->
  (forall s, I (i + Z.of_nat n) s -> Q (inl s)) ->
  wp (for_exit_n n i body s) Q.
Proof.
  revert i s. induction n as [|n IH]; intros i s HI Hb HQ.
  { simpl. apply HQ. by rewrite Z.add_0_r. }
  simpl. apply wp_bind. eapply wp_mono; [apply Hb; [lia|done]|].
  intros [s'|r] HI'; [|done]. apply IH; [done| |].
  - intros j s0 Hj. apply Hb. lia.
  - intros s0 H. apply HQ. by replace (i + Z.of_nat (Datatypes.S n)) with (i + 1 + Z.of_nat n) by lia.
Qed.

Lemma wp_for_exit {S R} (I : Z -> S -> Prop) lo hi
    (body : Z -> S -> res (S + R)) s (Q : S + R -> Prop) :
  I lo s ->
  (forall i s, lo <= i < hi -> I i s ->
     wp (body i s) (fun x => match x with
                             | inl s' => I (i + 1) s'
                             | inr r => Q (inr r)
                             end)) ->
  (forall s, I (Z.max lo hi) s -> Q (inl s)) ->
  wp (for_exit lo hi body s) Q.
Proof.
  intros HI Hb HQ. unfold for_exit. apply (wp_for_exit_n I); [done| |].
  - intros j s' Hj. apply Hb. lia.
  - intros s' H. apply HQ. by replace (Z.max lo hi) with (lo + Z.of_nat (Z.to_nat (hi - lo))) by lia.
Qed.

(** A counting loop whose every turn either succeeds, which tells [P] of
    its index, or stops with the fault [f]. *)
Lemma for_up_faults {S} (I : S -> Prop) (P : Z -> Prop) (f : fault) lo hi
    (body : Z -> S -> res S) (s : S) :
  I s ->
  (forall i s, lo <= i < hi -> I s ->
     match body i s with Ok s' => I s' /\ P i | Fail g => g = f end) ->
  match for_up lo hi body s with
  | Ok s' => I s' /\ forall i, lo <= i < hi -> P i
  | Fail g => g = f
  end.
Proof.
  intros HI Hb. unfold for_up.
  assert (forall n i s, i + Z.of_nat n = Z.max lo hi -> lo <= i -> I s ->
    match for_n n i body s with
    | Ok s' => I s' /\ forall j, i <= j < hi -> P j
    | Fail g => g = f
    end) as H.
  { induction n as [|n IH]; intros i s0 Hn Hi HI0; simpl; [split; [done|intros; lia]|].
    pose proof (Hb i s0) as Hbi. destruct (body i s0) as [s1|g]; simpl in *; [|apply Hbi; [lia|done]].
    destruct Hbi as [HI1 HP]; [lia|done|]. specialize (IH (i + 1) s1).
    destruct (for_n n (i + 1) body s1); [|apply IH; [lia|lia|done]].
    destruct IH as [HI2 HP2]; [lia|lia|done|]. split; [done|]. intros j Hj.
    destruct (decide (j = i)) as [->|]; [done|]. apply HP2. lia. }
  apply H; [lia|lia|done].
Qed.

(** One turn of a [while]. *)
Lemma while_step {S} n (cond : S -> res bool) (body : S -> res S) s :
  while (Datatypes.S n) cond body s =
  let* b := cond s in
  if b : bool then let* s' := body s in while n cond body s' else Ok s.
Proof. unfold while. simpl. destruct (cond s) as [[|]|]; simpl; [|done..]. by destruct (body s). Qed.

(** *** Faults included *)

(** [runs c F Q]: the computation returns a value of [Q] or stops with a
    fault of [F]. *)
Definition runs {A} (c : res A) (F : fault -> Prop) (Q : A -> Prop) : Prop :=
  match c with
  | Ok a => Q a
  | Fail f => F f
  end.

Lemma runs_bind {A B} (c : res A) (k : A -> res B) F Q :
  runs c F (fun a => runs (k a) F Q) -> runs (bind c k) F Q.
Proof. by destruct c. Qed.

Lemma runs_mono {A} (c : res A) (F G : fault -> Prop) (P Q : A -> Prop) :
  runs c F P -> (forall f, F f -> G f) -> (forall a, P a -> Q a) -> runs c G Q.
Proof. destruct c; simpl; eauto. Qed.

Lemma wp_runs {A} (c : res A) F (Q : A -> Prop) : wp c Q -> runs c F Q.
Proof. by destruct c. Qed.

Lemma runs_wp {A} (c : res A) (F : fault -> Prop) (Q : A -> Prop) :
  runs c F Q -> (forall f, F f -> False) -> wp c Q.
Proof. destruct c; simpl; eauto. Qed.

Lemma runs_while {S} (I : S -> Prop) (m : S -> nat) (fuel : nat)
    (cond : S -> res bool) (body : S -> res S) (s : S) F (Q : S -> Prop) :
  I s -> (m s < fuel)%nat ->
  (forall s, I s ->
     runs (cond s) F (fun b =>
       if b : bool then runs (body s) F (fun s' => I s' /\ (m s' < m s)%nat) else Q s)) ->
  runs (while fuel cond body s) F Q.
Proof.
  intros HI Hm Hb. unfold while. revert s HI Hm. induction fuel as [|fuel IH]; intros s HI Hm; [lia|].
  simpl. apply runs_bind, runs_bind. eapply runs_mono; [by apply Hb|done|]. intros [|]; simpl; [|done].
  intros Hr. apply runs_bind. eapply runs_mono; [exact Hr|done|]. intros s' [HI' Hm']. simpl.
  apply IH; [done|lia].
Qed.

(** ** Input and output *)

(** A program's console: the integers [scanf("%d")] will still read and
    the pieces written so far, in order. *)
Inductive piece :=
  | PStr (s : string)
  | PInt (z : Z)
  | PChar (c : Z).

#[export] Instance piece_eq_dec : EqDecision piece.
Proof. solve_decision. Defined.

Record console := Console { input : list Z; output : list piece }.

(** [scanf("%d", &x)], whose result the programs do not check: with no
    integer left the variable keeps an indeterminate value, a fault. *)
Definition scanf (w : console) : res (Z * console) :=
  match input w with
  | z :: zs => Ok (z, Console zs (output w))
  | [] => Fail EndOfInput
  end.

Definition printf (ps : list piece) (w : console) : console :=
  Console (input w) (output w ++ ps).

(** ** Tactics and hints *)

Create HintDb code.

(** Closes the side conditions of the rules: bounds and int ranges. *)
Ltac code_lia :=
  unfold is_int, is_long, INT_MIN, INT_MAX, LONG_MIN, LONG_MAX in *; lia.

(** The same with products. *)
Ltac code_nia :=
  unfold is_int, is_long, INT_MIN, INT_MAX, LONG_MIN, LONG_MAX in *; nia.

(** The same in the presence of divisions and remainders. *)
Ltac div_lia := Z.to_euclidean_division_equations; code_lia.

(** Turns the boolean tests of the code into hypotheses on integers. *)
Ltac code_case :=
  match goal with
  | |- context [if ?b then _ else _] =>
      match b with
      | context [?x <? ?y] => destruct (Z.ltb_spec x y)
      | context [?x <=? ?y] => destruct (Z.leb_spec x y)
      | context [?x >? ?y] => rewrite (Z.gtb_ltb x y); destruct (Z.ltb_spec y x)
      | context [?x >=? ?y] => rewrite (Z.geb_leb x y); destruct (Z.leb_spec y x)
      | context [?x =? ?y] => destruct (Z.eqb_spec x y)
      end; simpl
  end.

(** ** Fibonacci numbers, the reference of several programs *)

Fixpoint fib (n : nat) : Z :=
  match n with
  | O => 0
  | S m => match m with O => 1 | S k => fib m + fib k end
  end.

Lemma fib_SS n : fib (S (S n)) = fib (S n) + fib n.
Proof. done. Qed.

Lemma fib_pos n : 0 <= fib n /\ 1 <= fib (S n).
Proof. induction n as [|n [IH1 IH2]]; [simpl; lia|]. rewrite fib_SS. lia. Qed.

#[global] Arguments fib n : simpl never.
