(* ===== verification/Arrays.v ===== *)
(** * Arrays: C arrays with checked access, sortedness and permutations

    A C array is a list; [rd] and [wr] are the accesses [a[i]] and
    [a[i] = v], which fault outside the array.  The rest of the file is the
    theory every sorting and searching component uses: reads after writes,
    sorted ranges, and permutations by exchanges. *)

From Stdlib Require Export Sorted Permutation.
From stdpp Require Export sorting list.
From S2P Require Import Prelude.
Open Scope Z_scope.

Definition zlen {A} (a : list A) : Z := Z.of_nat (length a).

Definition aget {A} `{Inhabited A} (a : list A) (i : Z) : A := a !!! Z.to_nat i.

Definition upd {A} (a : list A) (i : Z) (v : A) : list A := <[Z.to_nat i := v]> a.

Definition in_range {A} (a : list A) (i : Z) : bool := (0 <=? i) && (i <? zlen a).

(** [a[i]] *)
Definition rd {A} `{Inhabited A} (a : list A) (i : Z) : res A :=
  if in_range a i then Ok (aget a i) else Fail OutOfBounds.

(** [a[i] = v] *)
Definition wr {A} (a : list A) (i : Z) (v : A) : res (list A) :=
  if in_range a i then Ok (upd a i v) else Fail OutOfBounds.

(** Memory from [malloc] or an automatic array without initialiser: every
    cell is indeterminate until it is written. *)
Definition uninit (n : Z) : list (option Z) := replicate (Z.to_nat n) None.

(** A read of such memory faults on a cell not yet written. *)
Definition rdu (a : list (option Z)) (i : Z) : res Z :=
  let* o := rd a i in
  match o with
  | Some v => Ok v
  | None => Fail Uninit
  end.

(** The integers of a block every cell of which has been written. *)
Fixpoint contents (a : list (option Z)) : res (list Z) :=
  match a with
  | [] => Ok []
  | Some v :: a => let* vs := contents a in Ok (v :: vs)
  | None :: _ => Fail Uninit
  end.

Declare Scope array_scope.
Delimit Scope array_scope with array.
Open Scope array_scope.
Notation "a .[ i ]" := (aget a i) (at level 1, left associativity, format "a .[ i ]") : array_scope.

(** ** Reads and writes *)

Section access.
Context {A : Type} `{Inhabited A}.
Implicit Types (a : list A) (i j : Z) (v w : A).

Lemma in_range_spec a i : in_range a i = true <-> 0 <= i < zlen a.
Proof. unfold in_range. rewrite andb_true_iff, Z.leb_le, Z.ltb_lt. done. Qed.

Lemma zlen_nonneg a : 0 <= zlen a.
Proof. unfold zlen. lia. Qed.

Lemma zlen_upd a i v : zlen (upd a i v) = zlen a.
Proof. unfold zlen, upd. by rewrite length_insert. Qed.

Lemma aget_upd_eq a i v : 0 <= i < zlen a -> (upd a i v).[i] = v.
Proof.
  unfold zlen, upd, aget. intros Hi.
  rewrite list_lookup_total_insert_eq; [done | lia].
Qed.

Lemma aget_upd_ne a i j v : 0 <= i -> 0 <= j -> i <> j -> (upd a i v).[j] = a.[j].
Proof. unfold upd, aget. intros ???. rewrite list_lookup_total_insert_ne; [done | lia]. Qed.

Lemma aget_upd a i j v :
  0 <= i < zlen a -> 0 <= j -> (upd a i v).[j] = if decide (i = j) then v else a.[j].
Proof.
  intros Hi Hj. case_decide as E; [subst; by apply aget_upd_eq|].
  apply aget_upd_ne; lia.
Qed.

Lemma upd_upd_eq a i v w : upd (upd a i v) i w = upd a i w.
Proof. unfold upd. apply list_insert_insert_eq. Qed.

Lemma upd_comm a i j v w :
  0 <= i -> 0 <= j -> i <> j -> upd (upd a i v) j w = upd (upd a j w) i v.
Proof. unfold upd. intros ???. apply list_insert_insert_ne. lia. Qed.

Lemma upd_aget a i : upd a i a.[i] = a.
Proof.
  unfold upd, aget.
  destruct (decide (Z.to_nat i < length a)%nat) as [Hi|Hi].
  - apply list_insert_id. by apply list_lookup_lookup_total_lt.
  - apply list_insert_ge. lia.
Qed.

Lemma wp_rd a i (Q : A -> Prop) : 0 <= i < zlen a -> Q a.[i] -> wp (rd a i) Q.
Proof. intros Hi HQ. unfold rd. by rewrite (proj2 (in_range_spec a i) Hi). Qed.

Lemma wp_wr a i v (Q : list A -> Prop) : 0 <= i < zlen a -> Q (upd a i v) -> wp (wr a i v) Q.
Proof. intros Hi HQ. unfold wr. by rewrite (proj2 (in_range_spec a i) Hi). Qed.

Lemma rd_Ok a i : 0 <= i < zlen a -> rd a i = Ok a.[i].
Proof. intros Hi. unfold rd. by rewrite (proj2 (in_range_spec a i) Hi). Qed.

Lemma wr_Ok a i v : 0 <= i < zlen a -> wr a i v = Ok (upd a i v).
Proof. intros Hi. unfold wr. by rewrite (proj2 (in_range_spec a i) Hi). Qed.

Lemma aget_ext a b :
  zlen a = zlen b -> (forall i, 0 <= i < zlen a -> a.[i] = b.[i]) -> a = b.
Proof.
  unfold zlen, aget. intros Hl Hi. apply list_eq_same_length with (length a); [lia|done|].
  intros i x y Hlt Hx Hy.
  apply list_lookup_total_correct in Hx. apply list_lookup_total_correct in Hy.
  specialize (Hi (Z.of_nat i)). rewrite Nat2Z.id in Hi. rewrite <- Hx, <- Hy.
  apply Hi. lia.
Qed.

Lemma aget_elem a i : 0 <= i < zlen a -> a.[i] ∈ a.
Proof.
  unfold zlen, aget. intros Hi. apply list_elem_of_lookup_total_2. lia.
Qed.

Lemma elem_aget a x : x ∈ a -> exists i, 0 <= i < zlen a /\ a.[i] = x.
Proof.
  intros Hx. apply list_elem_of_lookup_total in Hx as (i & Hi & Hx).
  exists (Z.of_nat i). unfold zlen, aget. rewrite Nat2Z.id. split; [lia | done].
Qed.

Lemma Forall_aget (P : A -> Prop) a :
  Forall P a <-> forall i, 0 <= i < zlen a -> P a.[i].
Proof.
  rewrite Forall_forall. split.
  - intros HP i Hi. apply HP. by apply aget_elem.
  - intros HP x Hx. apply elem_aget in Hx as (i & Hi & <-). auto.
Qed.

Lemma Forall_aget_1 (P : A -> Prop) a i : Forall P a -> 0 <= i < zlen a -> P a.[i].
Proof. rewrite Forall_aget. auto. Qed.

Lemma zlen_cons x a : zlen (x :: a) = zlen a + 1.
Proof. unfold zlen. simpl. lia. Qed.

Lemma zlen_app a b : zlen (a ++ b) = zlen a + zlen b.
Proof. unfold zlen. rewrite length_app. lia. Qed.

Lemma zlen_snoc x a : zlen (a ++ [x]) = zlen a + 1.
Proof. by rewrite zlen_app. Qed.

Lemma zlen_replicate n v : 0 <= n -> zlen (replicate (Z.to_nat n) v) = n.
Proof. unfold zlen. rewrite length_replicate. lia. Qed.

Lemma aget_replicate n v i :
  0 <= i < n -> (replicate (Z.to_nat n) v).[i] = v.
Proof. intros Hi. unfold aget. apply lookup_total_replicate_2. lia. Qed.

Lemma aget_app_l a b i : 0 <= i < zlen a -> (a ++ b).[i] = a.[i].
Proof. unfold zlen, aget. intros Hi. apply lookup_total_app_l. lia. Qed.

Lemma aget_app_r a b i : zlen a <= i -> (a ++ b).[i] = b.[i - zlen a].
Proof.
  unfold zlen, aget. intros Hi. rewrite lookup_total_app_r by lia. f_equal. lia.
Qed.

(** *** Exchanges *)

Definition exchange a i j : list A := upd (upd a i a.[j]) j a.[i].

Lemma zlen_exchange a i j : zlen (exchange a i j) = zlen a.
Proof. unfold exchange. by rewrite !zlen_upd. Qed.

Lemma aget_exchange a i j k :
  0 <= i < zlen a -> 0 <= j < zlen a -> 0 <= k ->
  (exchange a i j).[k] =
    if decide (k = j) then a.[i] else if decide (k = i) then a.[j] else a.[k].
Proof.
  intros Hi Hj Hk. unfold exchange.
  rewrite aget_upd by (rewrite ?zlen_upd; lia).
  repeat case_decide; subst; try lia; try done.
  - by apply aget_upd_eq.
  - apply aget_upd_ne; lia.
Qed.

Lemma Permutation_exchange a i j :
  0 <= i < zlen a -> 0 <= j < zlen a -> Permutation (exchange a i j) a.
Proof.
  unfold exchange, zlen, upd, aget. intros Hi Hj.
  apply Permutation_insert_swap;
    apply list_lookup_lookup_total_lt; lia.
Qed.

Lemma zlen_Permutation a b : Permutation a b -> zlen a = zlen b.
Proof. intros Hp. unfold zlen. by rewrite (Permutation_length Hp). Qed.

#[global] Instance zlen_Permutation_proper : Proper (Permutation ==> eq) (@zlen A).
Proof. intros a b. apply zlen_Permutation. Qed.

(** The moves of an insertion: shifting the cell before the hole into
    the hole and taking the hole one cell down keeps the contents. *)
Lemma Permutation_shift a i j v :
  0 <= i < zlen a -> 0 <= j < zlen a -> i <> j ->
  Permutation (upd (upd a i a.[j]) j v) (upd a i v).
Proof.
  intros Hi Hj Hne.
  rewrite <- (Permutation_exchange (upd a i v) i j) by (rewrite zlen_upd; lia).
  unfold exchange. rewrite aget_upd_eq by lia. rewrite aget_upd_ne by lia.
  by rewrite upd_upd_eq.
Qed.
End access.

Lemma contents_Some (a : list Z) : contents (map Some a) = Ok a.
Proof. induction a as [|x a IH]; simpl; [done|]. by rewrite IH. Qed.

(** ** Sorted ranges of integer arrays *)

(** [a] is ascending on the half-open range [lo, hi). *)
Definition sorted_on (a : list Z) (lo hi : Z) : Prop :=
  forall i j, lo <= i -> i <= j -> j < hi -> a.[i] <= a.[j].

(** The whole array is ascending. *)
Definition ascending (a : list Z) : Prop := sorted_on a 0 (zlen a).

(** A sorted rearrangement of the input: what a sorting routine promises. *)
Definition sorts (a a' : list Z) : Prop := Permutation a a' /\ Sorted Z.le a'.

Lemma sorted_on_step a lo hi :
  0 <= lo -> (forall i, lo <= i -> i + 1 < hi -> a.[i] <= a.[i + 1]) ->
  sorted_on a lo hi.
Proof.
  intros Hlo Hs i j Hi Hij Hj.
  replace j with (i + Z.of_nat (Z.to_nat (j - i))) by lia.
  assert (i + Z.of_nat (Z.to_nat (j - i)) < hi) as Hb by lia. revert Hb.
  generalize (Z.to_nat (j - i)) as n. clear j Hij Hj.
  induction n as [|n IH]; intros Hb; [rewrite Z.add_0_r; lia|].
  replace (i + Z.of_nat (S n)) with (i + Z.of_nat n + 1) by lia.
  transitivity a.[i + Z.of_nat n]; [apply IH; lia | apply Hs; lia].
Qed.

Lemma sorted_on_weaken a lo hi lo' hi' :
  sorted_on a lo hi -> lo <= lo' -> hi' <= hi -> sorted_on a lo' hi'.
Proof. intros Hs ?? i j ???. apply Hs; lia. Qed.

Lemma sorted_on_ext a b lo hi :
  (forall i, lo <= i < hi -> a.[i] = b.[i]) -> sorted_on a lo hi -> sorted_on b lo hi.
Proof. intros He Hs i j ???. rewrite <- !He by lia. apply Hs; lia. Qed.

Lemma sorted_on_empty a lo hi : hi <= lo + 1 -> sorted_on a lo hi.
Proof. intros ? i j ???. by replace j with i by lia. Qed.

Lemma ascending_Sorted a : ascending a <-> Sorted Z.le a.
Proof.
  unfold ascending, sorted_on. split.
  - intros Hs. apply StronglySorted_Sorted.
    induction a as [|x a IH]; constructor.
    + apply IH. intros i j ???.
      specialize (Hs (i + 1) (j + 1)). rewrite zlen_cons in Hs. unfold aget in *.
      replace (Z.to_nat (i + 1)) with (S (Z.to_nat i)) in Hs by lia.
      replace (Z.to_nat (j + 1)) with (S (Z.to_nat j)) in Hs by lia.
      simpl in Hs. apply Hs; lia.
    + apply Forall_aget. intros i Hi.
      specialize (Hs 0 (i + 1)). rewrite zlen_cons in Hs. unfold aget in *.
      replace (Z.to_nat (i + 1)) with (S (Z.to_nat i)) in Hs by lia.
      simpl in Hs. apply Hs; lia.
  - intros Hs. apply Sorted_StronglySorted in Hs; [|intros ???; apply Z.le_trans].
    induction Hs as [|x a Hs IH Hx]; intros i j Hi Hij Hj; [unfold zlen in Hj; simpl in Hj; lia|].
    rewrite zlen_cons in Hj. unfold aget in *.
    destruct (decide (i = 0)) as [->|Hi0].
    + destruct (decide (j = 0)) as [->|]; [done|].
      replace (Z.to_nat j) with (S (Z.to_nat (j - 1))) by lia. simpl.
      apply (proj1 (Forall_aget _ _) Hx (j - 1)). lia.
    + replace (Z.to_nat j) with (S (Z.to_nat (j - 1))) by lia.
      replace (Z.to_nat i) with (S (Z.to_nat (i - 1))) by lia. simpl.
      apply IH; lia.
Qed.

Lemma sorts_intro a a' :
  Permutation a' a -> sorted_on a' 0 (zlen a') -> sorts a a'.
Proof. intros ??. split; [by symmetry | by apply ascending_Sorted]. Qed.

(** Two sorted rearrangements of the same array are equal, so any two
    routines with this contract agree. *)
Lemma sorts_unique a b c : sorts a b -> sorts a c -> b = c.
Proof.
  intros [Hb Sb] [Hc Sc].
  apply (Sorted_unique Z.le); [done..|]. by rewrite <- Hb.
Qed.

(** ** Rearrangements of a range *)

(** [a'] is [a] with the cells [l .. r] rearranged among themselves. *)
Definition rearranged (l r : Z) (a a' : list Z) : Prop :=
  Permutation a' a /\ zlen a' = zlen a /\
  (forall p, 0 <= p -> p < l \/ r < p -> a'.[p] = a.[p]) /\
  (forall p, l <= p <= r -> exists q, l <= q <= r /\ a'.[p] = a.[q]).

Lemma rearranged_refl l r a : rearranged l r a a.
Proof. split_and!; eauto. Qed.

Lemma rearranged_trans l r a b c :
  rearranged l r a b -> rearranged l r b c -> rearranged l r a c.
Proof.
  intros (Hp & Hl & Ho & Hi) (Hp' & Hl' & Ho' & Hi'). split_and!.
  - by rewrite Hp'.
  - lia.
  - intros p ??. rewrite Ho', Ho by done. done.
  - intros p Hq. destruct (Hi' p Hq) as (q & Hq1 & ->). by apply Hi.
Qed.

Lemma rearranged_exchange l r a i j :
  0 <= l -> l <= i <= r -> l <= j <= r -> r < zlen a -> rearranged l r a (exchange a i j).
Proof.
  intros Hl Hi Hj Hr. split_and!.
  - apply Permutation_exchange; lia.
  - apply zlen_exchange.
  - intros p ??. rewrite aget_exchange by lia. repeat case_decide; [lia..|done].
  - intros p Hp. rewrite aget_exchange by lia. repeat case_decide; eauto.
Qed.

Lemma rearranged_widen l r l' r' a a' :
  rearranged l r a a' -> 0 <= l' <= l -> r <= r' -> rearranged l' r' a a'.
Proof.
  intros (Hp & Hl & Ho & Hi) ??. split_and!; [done..| |].
  - intros p ??. apply Ho; lia.
  - intros p Hp'. destruct (decide (l <= p <= r)) as [Hin|Hout].
    + destruct (Hi p Hin) as (q & Hq & ->). exists q. split; [lia|done].
    + exists p. split; [done|]. apply Ho; lia.
Qed.

(** What holds of every cell of the range still does. *)
Lemma rearranged_forall l r a a' (P : Z -> Prop) :
  rearranged l r a a' -> (forall p, l <= p <= r -> P a.[p]) ->
  forall p, l <= p <= r -> P a'.[p].
Proof. intros (_ & _ & _ & Hi) HP p Hp. destruct (Hi p Hp) as (q & Hq & ->). auto. Qed.

(** ** The exchange of two cells, as the programs write it *)

(** [t = a[i]; a[i] = a[j]; a[j] = t;], inline or as [swap(&a[i], &a[j])]. *)
Definition swap {A} `{Inhabited A} (a : list A) (i j : Z) : res (list A) :=
  let* t := rd a i in
  let* x := rd a j in
  let* a := wr a i x in
  wr a j t.

Lemma wp_swap {A} `{Inhabited A} (a : list A) i j (Q : list A -> Prop) :
  0 <= i < zlen a -> 0 <= j < zlen a -> Q (exchange a i j) -> wp (swap a i j) Q.
Proof.
  intros Hi Hj HQ. unfold swap.
  rewrite rd_Ok by done. simpl. rewrite rd_Ok by done. simpl.
  rewrite wr_Ok by done. simpl. rewrite wr_Ok by (by rewrite zlen_upd). exact HQ.
Qed.

(** ** Reading and printing an array *)

(** [int a[n];]: an array of variable length needs a positive length. *)
Definition vla (n : Z) : res unit := demand (0 <? n) OutOfBounds.

(** [for (i = 0; i < n; i++) scanf("%d", &a[i]);] on an array of [n] cells:
    the cells read so far are the prefix of the array that has a value. *)
Definition read_array (n : Z) (w : console) : res (list Z * console) :=
  for_up 0 n (fun _ '(a, w) =>
    let* (v, w) := scanf w in Ok (a ++ [v], w)) ([], w).

(** [for (i = 0; i < n; i++) printf(fmt, a[i]);] *)
Definition print_array (fmt : Z -> list piece) (a : list Z) (n : Z) (w : console)
    : res console :=
  for_up 0 n (fun i w => let* v := rd a i in Ok (printf (fmt v) w)) w.

Lemma read_array_spec xs rest out n :
  zlen xs = n -> read_array n (Console (xs ++ rest) out) = Ok (xs, Console rest out).
Proof.
  intros <-. unfold read_array, for_up, zlen.
  replace (Z.to_nat (Z.of_nat (length xs) - 0)) with (length xs) by lia.
  assert (forall pre i,
    for_n (length xs) i (fun _ '(a, w) => let* (v, w) := scanf w in Ok (a ++ [v], w))
      (pre, Console (xs ++ rest) out) = Ok (pre ++ xs, Console rest out)) as H.
  { induction xs as [|x xs IH]; intros pre i; simpl; [by rewrite app_nil_r|].
    rewrite IH. by rewrite <- app_assoc. }
  apply (H []).
Qed.

Lemma print_array_spec fmt a inp out :
  print_array fmt a (zlen a) (Console inp out) =
    Ok (Console inp (out ++ concat (map fmt a))).
Proof.
  unfold print_array, for_up.
  assert (forall post pre out, a = pre ++ post ->
    for_n (length post) (zlen pre) (fun i w => let* v := rd a i in Ok (printf (fmt v) w))
      (Console inp out) = Ok (Console inp (out ++ concat (map fmt post)))) as H.
  { induction post as [|x post IH]; intros pre o Ha; simpl; [by rewrite app_nil_r|].
    rewrite rd_Ok by (rewrite Ha, zlen_app, zlen_cons; pose proof (zlen_nonneg pre);
      pose proof (zlen_nonneg post); lia). simpl.
    rewrite <- (zlen_snoc x pre). unfold printf at 2. simpl.
    rewrite (IH (pre ++ [x])) by (by rewrite <- app_assoc).
    rewrite Ha, aget_app_r, Z.sub_diag by lia. by rewrite <- app_assoc. }
  replace (Z.to_nat (zlen a - 0)) with (length a) by (unfold zlen; lia).
  apply (H a []). done.
Qed.

(** ** Tactics *)

Ltac arr_lia := rewrite ?zlen_upd, ?zlen_exchange in *; code_lia.

(** One step of the total-correctness calculus. *)
Ltac wp_step :=
  lazymatch goal with
  | |- wp (bind _ _) _ => apply wp_bind
  | |- wp (Ok _) _ => apply wp_Ok
  | |- wp (rd _ _) _ => apply wp_rd; [arr_lia|]
  | |- wp (wr _ _ _) _ => apply wp_wr; [arr_lia|]
  | |- wp (swap _ _ _) _ => apply wp_swap; [arr_lia|arr_lia|]
  | |- wp (int _) _ => apply wp_int; [arr_lia|]
  | |- wp (long _) _ => apply wp_long; [arr_lia|]
  | |- wp (if _ then _ else _) _ => code_case
  | |- wp (match ?p with (_, _) => _ end) _ => destruct p
  end.

Ltac wp_steps := repeat wp_step; simpl.

(** ** Splitting a list at an index *)

Section split.
Context {A : Type} `{Inhabited A}.
Implicit Types (a : list A).

Lemma aget_split a i :
  0 <= i < zlen a -> exists pre post, a = pre ++ a.[i] :: post /\ zlen pre = i.
Proof.
  intros Hi. unfold aget, zlen in *. exists (take (Z.to_nat i) a), (drop (S (Z.to_nat i)) a).
  split; [|rewrite length_take; lia]. symmetry. apply take_drop_middle.
  apply list_lookup_lookup_total_lt. lia.
Qed.

Lemma upd_split (pre : list A) x y post : upd (pre ++ x :: post) (zlen pre) y = pre ++ y :: post.
Proof. unfold upd, zlen. rewrite Nat2Z.id. rewrite insert_app_r_alt by lia. by rewrite Nat.sub_diag. Qed.

Lemma aget_middle (pre : list A) x post : (pre ++ x :: post).[zlen pre] = x.
Proof. rewrite aget_app_r by lia. by rewrite Z.sub_diag. Qed.

Lemma upd_map {B} `{Inhabited B} (f : A -> B) a i v : map f (upd a i v) = upd (map f a) i (f v).
Proof. unfold upd. apply list_fmap_insert. Qed.

Lemma aget_map {B} `{Inhabited B} (f : A -> B) a i : 0 <= i < zlen a -> (map f a).[i] = f a.[i].
Proof.
  intros Hi. unfold aget, zlen in *. apply list_lookup_total_correct.
  rewrite list_lookup_fmap, (list_lookup_lookup_total_lt a) by lia. done.
Qed.

Lemma zlen_map {B} (f : A -> B) a : zlen (map f a) = zlen a.
Proof. unfold zlen. by rewrite length_map. Qed.
End split.

(** ** Matrices *)

(** Row-major order: entry (i, j) is cell i * m + j of the flattened matrix. *)
Lemma aget_concat (mat : list (list Z)) m i j :
  Forall (fun row => zlen row = m) mat -> 0 <= i < zlen mat -> 0 <= j < m ->
  0 <= i * m + j < zlen (concat mat) /\ (concat mat).[i * m + j] = mat.[i].[j].
Proof.
  intros Hr. revert i. induction Hr as [|row mat Hrow Hr IH]; intros i Hi Hj.
  { unfold zlen in Hi. simpl in Hi. lia. }
  simpl. rewrite zlen_cons in Hi. rewrite zlen_app. destruct (decide (i = 0)) as [->|Hi0].
  - rewrite aget_app_l by lia. pose proof (zlen_nonneg (concat mat)). split; [lia|done].
  - destruct (IH (i - 1)) as [Hb E]; [lia..|]. split; [lia|].
    rewrite aget_app_r by nia. replace (i * m + j - zlen row) with ((i - 1) * m + j) by lia.
    rewrite E. unfold aget at 2 4.
    replace (Z.to_nat i) with (S (Z.to_nat (i - 1))) by lia. done.
Qed.

(** ** Cells in the middle of an array *)

Lemma rdu_middle pre v post i : zlen pre = i -> rdu (pre ++ Some v :: post) i = Ok v.
Proof.
  intros <-. unfold rdu. rewrite rd_Ok by (rewrite zlen_app, zlen_cons; pose proof (zlen_nonneg pre);
    pose proof (zlen_nonneg post); lia). by rewrite aget_middle.
Qed.

Lemma rd_middle {A} `{Inhabited A} (pre : list A) x post i : zlen pre = i -> rd (pre ++ x :: post) i = Ok x.
Proof.
  intros <-. pose proof (zlen_nonneg pre). pose proof (zlen_nonneg post).
  rewrite rd_Ok by (rewrite zlen_app, zlen_cons; lia). by rewrite aget_middle.
Qed.

Lemma wr_middle {A} (pre : list A) x post i v : zlen pre = i -> wr (pre ++ x :: post) i v = Ok (pre ++ v :: post).
Proof.
  intros <-. rewrite wr_Ok by (rewrite zlen_app, zlen_cons; pose proof (zlen_nonneg pre);
    pose proof (zlen_nonneg post); lia). by rewrite upd_split.
Qed.

Lemma zlen_reverse {A} (xs : list A) : zlen (reverse xs) = zlen xs.
Proof. unfold zlen. by rewrite length_reverse. Qed.

Lemma exists_last_or {A} (cs : list A) : cs = [] \/ exists cs1 c, cs = cs1 ++ [c].
Proof. induction cs as [|c cs1 _] using rev_ind; eauto. Qed.

Lemma zlen_split {A} (n : Z) (s : list A) : 0 <= n <= zlen s -> exists a b, s = a ++ b /\ zlen a = n /\ zlen b = zlen s - n.
Proof.
  intros Hn. exists (take (Z.to_nat n) s), (drop (Z.to_nat n) s). rewrite take_drop. unfold zlen in *. rewrite length_take, length_drop. split_and!; [done|lia|lia].
Qed.
