(* ===== verification/ExchangeSorts.v ===== *)
(** * Exchange sorts: BubbleSort.c, shaker_sort.c, OtherBubbleSort.c, BogoSort.c

    One Module per program of algorithms/c/sorting that sorts by exchanging
    neighbours (or at random).  The shared theory is a window of positions
    still to be settled: a pass over the window settles one more cell. *)

From S2P Require Import Prelude Arrays.
Open Scope Z_scope.

(** ** Settled windows *)

(** Every pair of positions that is not inside the window [lo, hi) is
    already in order. *)
Definition settled (a : list Z) (lo hi : Z) : Prop :=
  forall i j, 0 <= i -> i <= j -> j < zlen a -> (i < lo \/ hi <= j) -> a.[i] <= a.[j].

Lemma settled_start a : settled a 0 (zlen a).
Proof. intros i j ????. lia. Qed.

Lemma settled_sorted a lo hi : settled a lo hi -> hi <= lo + 1 -> ascending a.
Proof.
  intros Hs Hw i j ???. destruct (decide (i = j)) as [->|]; [done|]. apply Hs; lia.
Qed.

Lemma sorted_settled a lo hi : ascending a -> settled a lo hi.
Proof. intros Hs i j ????. apply Hs; lia. Qed.

Lemma settled_exchange a lo hi i :
  settled a lo hi -> 0 <= lo -> lo <= i -> i + 1 < hi -> hi <= zlen a ->
  settled (exchange a i (i + 1)) lo hi.
Proof.
  intros Hs Hlo Hi Hhi Hle p q Hp Hpq Hq Hw. rewrite zlen_exchange in Hq.
  rewrite !aget_exchange by lia.
  repeat case_decide; subst; try lia; try (apply Hs; lia).
Qed.

(** [if (a[i] > a[i+1]) swap] *)
Definition cmp_swap_up (i : Z) (a : list Z) : res (list Z) :=
  let* x := rd a i in
  let* y := rd a (i + 1) in
  if x >? y then swap a i (i + 1) else Ok a.

(** [if (a[i] < a[i-1]) swap] *)
Definition cmp_swap_down (i : Z) (a : list Z) : res (list Z) :=
  let* x := rd a i in
  let* y := rd a (i - 1) in
  if x <? y then swap a i (i - 1) else Ok a.

(** What one ascending comparison does, in the window [lo, hi), when
    position [i] holds the maximum of the positions up to it. *)
Lemma wp_cmp_swap_up a lo hi i :
  settled a lo hi -> 0 <= lo -> lo <= i -> i + 1 < zlen a -> hi <= zlen a ->
  (forall p, lo <= p <= Z.min i (hi - 1) -> a.[p] <= a.[Z.min i (hi - 1)]) ->
  wp (cmp_swap_up i a) (fun a' =>
    Permutation a' a /\ zlen a' = zlen a /\ settled a' lo hi /\
    (forall p, lo <= p <= Z.min (i + 1) (hi - 1) -> a'.[p] <= a'.[Z.min (i + 1) (hi - 1)])).
Proof.
  intros Hs Hlo Hi Hlen Hhi Hmax. unfold cmp_swap_up. wp_steps.
  - destruct (decide (i + 1 < hi)) as [Hin|Hout]; [|specialize (Hs i (i + 1)); lia].
    repeat split.
    + apply Permutation_exchange; lia.
    + apply zlen_exchange.
    + by apply settled_exchange; try lia.
    + intros p Hp. rewrite !aget_exchange by lia.
      rewrite Z.min_l in Hmax by lia. specialize (Hmax p).
      repeat case_decide; subst; lia.
  - repeat split; [done..|]. intros p Hp.
    destruct (decide (i + 1 < hi)) as [Hin|Hout].
    + rewrite Z.min_l in * by lia. specialize (Hmax p).
      destruct (decide (p = i + 1)) as [->|]; [done|]. lia.
    + rewrite Z.min_r in * by lia. apply Hmax. lia.
Qed.

(** A pass of ascending comparisons moves the maximum of the window to its
    end; positions past the window are already in order and stay. *)
Lemma wp_pass_up a lo hi m :
  settled a lo hi -> 0 <= lo < hi -> hi <= zlen a -> hi - 1 <= m -> m < zlen a ->
  wp (for_up lo m cmp_swap_up a) (fun a' =>
    Permutation a' a /\ zlen a' = zlen a /\ settled a' lo (hi - 1)).
Proof.
  intros Hs Hlo Hhi Hm Hlen.
  apply (wp_for_up (fun i a' =>
    Permutation a' a /\ zlen a' = zlen a /\ settled a' lo hi /\
    (forall p, lo <= p <= Z.min i (hi - 1) -> a'.[p] <= a'.[Z.min i (hi - 1)]))).
  - repeat split; [done..|]. intros p Hp. rewrite Z.min_l in * by lia.
    by replace p with lo by lia.
  - intros i a' Hi (Hp & Hl & Hs' & Hmax).
    eapply wp_mono; [apply (wp_cmp_swap_up a' lo hi); first [done | lia]|].
    intros a'' (Hp' & Hl' & Hs'' & Hmax'). repeat split; [by rewrite Hp' | lia | done..].
  - intros a' (Hp & Hl & Hs' & Hmax). repeat split; [done..|].
    rewrite Z.max_r, Z.min_r in Hmax by lia.
    intros i j Hi Hij Hj Hw.
    destruct (decide (lo <= i /\ j = hi - 1)) as [[H1 ->]|Hne]; [apply Hmax; lia|].
    apply Hs'; lia.
Qed.

(** The mirror image: a pass of descending comparisons moves the minimum
    of the window to its start. *)
Lemma wp_cmp_swap_down a lo hi i :
  settled a lo hi -> 0 <= lo -> lo < i -> i < hi -> hi <= zlen a ->
  (forall p, i <= p < hi -> a.[i] <= a.[p]) ->
  wp (cmp_swap_down i a) (fun a' =>
    Permutation a' a /\ zlen a' = zlen a /\ settled a' lo hi /\
    (forall p, i - 1 <= p < hi -> a'.[i - 1] <= a'.[p])).
Proof.
  intros Hs Hlo Hi Hlen Hhi Hmin. unfold cmp_swap_down. wp_steps.
  - assert (exchange a i (i - 1) = exchange a (i - 1) (i - 1 + 1)) as ->.
    { apply aget_ext; rewrite !zlen_exchange; [done|]. intros k Hk.
      rewrite !aget_exchange by lia. repeat case_decide; subst; try lia; try done;
      f_equal; lia. }
    repeat split.
    + apply Permutation_exchange; lia.
    + apply zlen_exchange.
    + apply settled_exchange; try done; lia.
    + intros p Hp. rewrite !aget_exchange by lia. specialize (Hmin p).
      repeat case_decide; subst; try lia;
        try replace (i - 1 + 1) with i in * by lia; lia.
  - repeat split; [done..|]. intros p Hp. specialize (Hmin p).
    destruct (decide (p = i - 1)) as [->|]; [done|]. lia.
Qed.

Lemma wp_pass_down a lo hi :
  settled a lo hi -> 0 <= lo < hi -> hi <= zlen a ->
  wp (for_down (hi - 1) (lo + 1) cmp_swap_down a) (fun a' =>
    Permutation a' a /\ zlen a' = zlen a /\ settled a' (lo + 1) hi).
Proof.
  intros Hs Hlo Hhi.
  apply (wp_for_down (fun i a' =>
    Permutation a' a /\ zlen a' = zlen a /\ settled a' lo hi /\
    (forall p, i <= p < hi -> a'.[i] <= a'.[p]))).
  - repeat split; [done..|]. intros p Hp. by replace p with (hi - 1) by lia.
  - intros i a' Hi (Hp & Hl & Hs' & Hmin).
    eapply wp_mono; [apply (wp_cmp_swap_down a' lo hi); first [done | lia]|].
    intros a'' (Hp' & Hl' & Hs'' & Hmin'). repeat split; [by rewrite Hp' | lia | done..].
  - intros a' (Hp & Hl & Hs' & Hmin). repeat split; [done..|].
    replace (Z.min (hi - 1) (lo + 1 - 1)) with lo in Hmin by lia.
    intros i j Hi Hij Hj Hw.
    destruct (decide (i = lo /\ j < hi)) as [[-> H1]|Hne]; [apply Hmin; lia|].
    apply Hs'; lia.
Qed.

(** ** BubbleSort.c *)

Module BubbleSort.

(** The body of the [for] of lines 25-32. *)
Definition step (i : Z) (s : list Z * bool) : res (list Z * bool) :=
  let '(ARRAY, isSorted) := s in
  let* x := rd ARRAY i in
  let* y := rd ARRAY (i + 1) in
  if x >? y then
    let* ARRAY := swap ARRAY i (i + 1) in
    Ok (ARRAY, false)
  else Ok (ARRAY, isSorted).

(** One turn of [while (!isSorted)]. *)
Definition pass (ARRAY : list Z) (ARRAY_LENGTH : Z) : res (list Z * bool) :=
  for_up 0 (ARRAY_LENGTH - 1) step (ARRAY, true).

(** The sorting loop of main, lines 23-33; isSorted is 0 before it. *)
Definition sort (fuel : nat) (ARRAY : list Z) (ARRAY_LENGTH : Z) : res (list Z) :=
  loop fuel (fun '(ARRAY, isSorted) =>
    if isSorted : bool then Ok (inr ARRAY)
    else let* s := pass ARRAY ARRAY_LENGTH in Ok (inl s)) (ARRAY, false).

Definition realloc (a : list (option Z)) (n : Z) : list (option Z) :=
  take (Z.to_nat n) a ++ replicate (Z.to_nat n - length a) None.

(** The filling loop, lines 12-19. *)
Definition fill (fuel : nat) (w : console)
    : res (list (option Z) * Z * console) :=
  loop fuel (fun '(ARRAY, ARRAY_LENGTH, ContinueFilling, w) =>
    if ContinueFilling =? 0 then Ok (inr (ARRAY, ARRAY_LENGTH, w))
    else
      let w := printf [PStr "Enter the value number "; PInt (ARRAY_LENGTH + 1); PStr " \n"] w in
      let ARRAY := realloc ARRAY ARRAY_LENGTH in
      let* (v, w) := scanf w in
      let* ARRAY := wr ARRAY ARRAY_LENGTH (Some v) in
      let ARRAY_LENGTH := ARRAY_LENGTH + 1 in
      let w := printf [PStr "would you enter an other value (1:Continue/0:Sort the actual array)?\n"] w in
      let* (c, w) := scanf w in
      Ok (inl (ARRAY, ARRAY_LENGTH, c, w))) ([], 0, 1, w).

Definition main (fuel : nat) (w : console) : res console :=
  let* (ARRAY, ARRAY_LENGTH, w) := fill fuel w in
  let* ARRAY := contents ARRAY in
  let* ARRAY := sort fuel ARRAY ARRAY_LENGTH in
  for_up 0 ARRAY_LENGTH (fun i w =>
    let* v := rd ARRAY i in
    Ok (printf [PInt v; PStr ", "] w)) w.

(** The exchange is [cmp_swap_up]; the flag records whether it fired. *)
Lemma wp_bubble_step i a f (Q : list Z -> Prop) :
  0 <= i -> i + 1 < zlen a -> wp (cmp_swap_up i a) Q ->
  wp (step i (a, f)) (fun '(a', f') =>
    Q a' /\ (f' = true -> f = true /\ a' = a /\ a.[i] <= a.[i + 1]) /\
    (a.[i] <= a.[i + 1] -> f' = f)).
Proof.
  intros Hi Hl. unfold step, cmp_swap_up. rewrite !rd_Ok by lia. simpl.
  rewrite Z.gtb_ltb. destruct (Z.ltb_spec a.[i + 1] a.[i]); [|done].
  destruct (swap a i (i + 1)); simpl; [|done]. intros ?. split_and!; [done|done|lia].
Qed.

(** A pass settles one more cell at the end, and leaves isSorted at 1
    only on a sorted array, and always on one that was settled. *)
Lemma wp_bubble_pass a hi :
  settled a 0 hi -> 0 < hi <= zlen a ->
  wp (pass a (zlen a)) (fun '(a', f) =>
    Permutation a' a /\ zlen a' = zlen a /\ settled a' 0 (hi - 1) /\
    (f = true -> ascending a') /\ (hi = 1 -> f = true)).
Proof.
  intros Hs Hhi. unfold pass.
  apply (wp_for_up (fun i '(a', f) =>
    (Permutation a' a /\ zlen a' = zlen a /\ settled a' 0 hi /\
     (forall p, 0 <= p <= Z.min i (hi - 1) -> a'.[p] <= a'.[Z.min i (hi - 1)])) /\
    (f = true -> forall p, 0 <= p < i -> a'.[p] <= a'.[p + 1]) /\
    (hi = 1 -> f = true))).
  - split_and!; [done|done|done| |lia|done]. intros p Hp. rewrite Z.min_l in * by lia.
    by replace p with 0 by lia.
  - intros i [a' f] Hi ((Hp & Hl & Hs' & Hmax) & Hf & H1).
    eapply wp_mono; [apply wp_bubble_step; [lia|lia|];
      apply (wp_cmp_swap_up a' 0 hi); first [done | lia]|].
    intros [a'' f'] ((Hp' & Hl' & Hs'' & Hmax') & Hf' & Hsame).
    split_and!; [by rewrite Hp' | lia | done | done | |].
    + intros Hf''. apply Hf' in Hf'' as (-> & -> & Hle). intros p Hpi.
      destruct (decide (p = i)) as [->|]; [done|]. apply Hf; [done|lia].
    + intros ->. rewrite Hsame by (apply Hs'; lia). auto.
  - intros [a' f] ((Hp & Hl & Hs' & Hmax) & Hf & H1). split_and!; try done.
    + rewrite Z.max_r, Z.min_r in Hmax by lia. intros i j ????.
      destruct (decide (j = hi - 1)) as [->|]; [apply Hmax; lia | apply Hs'; lia].
    + intros ->. apply sorted_on_step; [lia|]. intros i ??. apply Hf; [done|lia].
Qed.

Lemma wp_bubble_sort (fuel : nat) (a : list Z) :
  (length a + 1 < fuel)%nat -> wp (sort fuel a (zlen a)) (sorts a).
Proof.
  intros Hfuel. unfold sort.
  apply (wp_loop_idx (fun n '(a', f) =>
    Permutation a' a /\ zlen a' = zlen a /\
    if f : bool then ascending a'
    else exists hi, settled a' 0 hi /\ 0 <= hi <= zlen a /\ n = S (Z.to_nat hi))
    (S (length a))).
  - split_and!; [done|done|]. exists (zlen a).
    split_and!; [apply settled_start | unfold zlen; lia..].
  - lia.
  - intros n [a' f] (Hp & Hl & Hf). destruct f; [by apply sorts_intro|].
    destruct Hf as (hi & Hs & Hhi & ->). apply wp_bind. rewrite <- Hl.
    destruct (decide (hi = 0)) as [->|Hne].
    + destruct (decide (zlen a' = 0)) as [E|E].
      * rewrite E. simpl. exists O. split_and!; [lia|done|done|]. by apply settled_sorted with 0 0.
      * apply settled_sorted in Hs as Hasc; [|lia].
        eapply wp_mono; [apply (wp_bubble_pass a' 1); [by apply sorted_settled|unfold zlen in *; lia]|].
        intros [a'' f'] (Hp' & Hl' & _ & Hf' & H1). simpl. exists O.
        rewrite H1 in * by done. split_and!; [lia|by rewrite Hp'|lia|auto].
    + eapply wp_mono; [apply (wp_bubble_pass a' hi); [done|lia]|].
      intros [a'' f'] (Hp' & Hl' & Hs' & Hf' & H1). simpl. destruct f'.
      * exists O. split_and!; [lia|by rewrite Hp'|lia|auto].
      * exists (Z.to_nat hi). split_and!; [lia|by rewrite Hp'|lia|].
        exists (hi - 1). split_and!; [done|lia..].
Qed.

(** The bubble sort of BubbleSort.c, on an array of any length, ends
    and leaves a sorted rearrangement of the array: no access leaves the
    array and at most one pass per cell is made before the pass that
    finds nothing to exchange. *)
Theorem bubble_sort_correct (fuel : nat) (a : list Z) :
  (length a + 1 < fuel)%nat ->
  exists a', sort fuel a (zlen a) = Ok a' /\ sorts a a'.
Proof. intros Hfuel. by apply wp_exists, wp_bubble_sort. Qed.

Lemma bubble_sort_correct_witness :
  exists a', sort 6 [3; -1; 2] (zlen [3; -1; 2]) = Ok a' /\ sorts [3; -1; 2] a'.
Proof. apply bubble_sort_correct. simpl. lia. Defined.

(** main's filling loop asks [realloc] for ARRAY_LENGTH cells and then
    stores into cell ARRAY_LENGTH: the first value read is already
    written outside the block. *)
Theorem bubble_main_overruns (fuel : nat) (w : console) (z : Z) (zs : list Z) :
  input w = z :: zs -> main (S fuel) w = Fail OutOfBounds.
Proof. intros E. unfold main, fill, scanf. simpl. by rewrite E. Qed.
End BubbleSort.

(** ** shaker_sort.c *)

Module ShakerSort.

Definition shakersort (a : list Z) (n : Z) : res (list Z) :=
  for_up 1 (n `quot` 2 + 1) (fun p a =>
    let* a := for_up (p - 1) (n - p) cmp_swap_up a in
    for_down (n - p - 1) p cmp_swap_down a) a.

Definition main (w : console) : res console :=
  let* (n, w) := scanf w in
  let* _ := vla n in
  let* (arr, w) := read_array n w in
  let* arr := shakersort arr n in
  print_array (fun v => [PInt v; PStr " "]) arr n w.

Lemma wp_shakersort (a : list Z) : wp (shakersort a (zlen a)) (sorts a).
Proof.
  unfold shakersort. pose proof (zlen_nonneg a).
  apply (wp_for_up (fun p a' =>
    Permutation a' a /\ zlen a' = zlen a /\ settled a' (p - 1) (zlen a - p + 1))).
  - split_and!; [done|done|]. replace (zlen a - 1 + 1) with (zlen a) by lia.
    apply settled_start.
  - intros p a' Hp (Hp' & Hl & Hs). apply wp_bind.
    eapply wp_mono; [apply (wp_pass_up a' (p - 1) (zlen a - p + 1)); try done; div_lia|].
    intros a1 (Hp1 & Hl1 & Hs1). replace (zlen a - p + 1 - 1) with (zlen a - p) in Hs1 by lia.
    replace p with (p - 1 + 1) at 2 by lia.
    eapply wp_mono; [apply (wp_pass_down a1 (p - 1) (zlen a - p)); try done; div_lia|].
    intros a2 (Hp2 & Hl2 & Hs2). split_and!; [by rewrite Hp2, Hp1|lia|].
    replace (p + 1 - 1) with (p - 1 + 1) by lia.
    by replace (zlen a - (p + 1) + 1) with (zlen a - p) by lia.
  - intros a' (Hp & Hl & Hs). apply sorts_intro; [done|].
    eapply settled_sorted; [exact Hs|]. div_lia.
Qed.

(** shaker_sort.c as a program: given a positive count and that many
    integers, main sorts them in both directions at once and prints the
    sorted sequence, for every input; it reads nothing past them. *)
Theorem shaker_main_correct (xs rest : list Z) (out : list piece) :
  0 < zlen xs ->
  exists ys, sorts xs ys /\
    main (Console (zlen xs :: xs ++ rest) out) =
      Ok (Console rest (out ++ concat (map (fun v => [PInt v; PStr " "]) ys))).
Proof.
  intros Hn. destruct (proj1 (wp_exists _ _) (wp_shakersort xs)) as (ys & Hy & Hs).
  exists ys. split; [done|]. unfold main, scanf, vla, demand. simpl.
  rewrite (proj2 (Z.ltb_lt _ _) Hn). simpl. rewrite read_array_spec by done. simpl.
  rewrite Hy. simpl. rewrite (zlen_Permutation xs ys) by apply Hs.
  apply print_array_spec.
Qed.

Lemma shaker_main_correct_witness :
  exists ys, sorts [2; 7; -4] ys /\
    main (Console (zlen [2; 7; -4] :: [2; 7; -4] ++ [9]) []) =
      Ok (Console [9] ([] ++ concat (map (fun v => [PInt v; PStr " "]) ys))).
Proof. apply shaker_main_correct. reflexivity. Defined.
End ShakerSort.

(** ** BogoSort.c *)

Module BogoSort.

(** [while (--n >= 1) if (a[n] < a[n-1]) return false;] makes at most [n]
    decrements. *)
Definition check_sorted (a : list Z) (n : Z) : res bool :=
  loop (S (Z.to_nat n)) (fun n =>
    let n := n - 1 in
    if n >=? 1 then
      let* x := rd a n in
      let* y := rd a (n - 1) in
      if x <? y then Ok (inr false) else Ok (inl n)
    else Ok (inr true)) n.

Section random.
(** The results of the successive calls of [rand()]. *)
Variable rand : nat -> Z.

(** The state carries the number of calls made so far. *)
Definition shuffle (a : list Z) (n : Z) (calls : nat) : res (list Z * nat) :=
  for_up 0 n (fun i '(a, calls) =>
    let* t := rd a i in
    let r := rand calls `rem` n in
    let* x := rd a r in
    let* a := wr a i x in
    let* a := wr a r t in
    Ok (a, S calls)) (a, calls).

Definition sort (fuel : nat) (a : list Z) (n : Z) (calls : nat) : res (list Z * nat) :=
  while fuel
    (fun '(a, _) => let* b := check_sorted a n in Ok (negb b))
    (fun '(a, calls) => shuffle a n calls) (a, calls).

Definition main (fuel : nat) (w : console) : res console :=
  let w := printf [PStr "Enter 6 numbers unsorted \n\n"] w in
  let* (numbers, w) := read_array 6 w in
  let* (numbers, _) := sort fuel numbers 6 0 in
  let* w := print_array (fun v => [PInt v; PStr " "]) numbers 6 w in
  Ok (printf [PStr "\n"] w).
End random.

(** check_sorted decides sortedness. *)
Lemma wp_check_sorted a :
  wp (check_sorted a (zlen a)) (fun b => if b then ascending a else ~ ascending a).
Proof.
  unfold check_sorted. pose proof (zlen_nonneg a).
  apply (wp_loop (fun n => (n = 0 \/ 0 < n <= zlen a) /\
      forall p, n - 1 <= p -> 0 <= p -> p + 1 < zlen a -> a.[p] <= a.[p + 1])
    (fun n => n)); [split; [lia|intros; lia] | lia | lia |].
  intros n [Hn Hs]. rewrite Z.geb_leb. destruct (Z.leb_spec 1 (n - 1)); wp_steps.
  - intros Hasc. specialize (Hasc (n - 1 - 1) (n - 1)). lia.
  - split_and!; [lia| |lia]. intros p ???.
    destruct (decide (p = n - 1 - 1)) as [->|]; [|apply Hs; lia].
    by replace (n - 1 - 1 + 1) with (n - 1) by lia.
  - apply sorted_on_step; [lia|]. intros i ??. apply Hs; lia.
Qed.

(** The other half of its contract: with any outcome of the dice a
    shuffle keeps the elements. *)
Lemma wp_shuffle rand a calls :
  (forall k, 0 <= rand k) ->
  wp (shuffle rand a (zlen a) calls) (fun '(a', _) => Permutation a' a /\ zlen a' = zlen a).
Proof.
  intros Hr. unfold shuffle.
  apply (wp_for_up (fun _ '(a', _) => Permutation a' a /\ zlen a' = zlen a)); [done| |].
  - intros i [a' c] Hi [Hp Hl].
    assert (0 <= Z.rem (rand c) (zlen a) < zlen a)
      by (apply Z.rem_bound_pos; [apply Hr|lia]).
    wp_steps. rewrite !zlen_upd. split; [|done].
    etransitivity; [|exact Hp]. by apply Permutation_exchange; rewrite Hl.
  - by intros [a' c].
Qed.

(** The array after [m] shuffles. *)
Fixpoint shuffled (rand : nat -> Z) (m : nat) (a : list Z) (calls : nat)
    : res (list Z * nat) :=
  match m with
  | O => Ok (a, calls)
  | S m => let* (a, calls) := shuffle rand a (zlen a) calls in shuffled rand m a calls
  end.

Lemma bogo_sort_run rand fuel m a calls :
  (forall k, 0 <= rand k) ->
  match sort rand fuel a (zlen a) calls with
  | Ok (a', _) => sorts a a'
  | Fail f => f = NoFuel /\
      (forall b c, shuffled rand m a calls = Ok (b, c) -> ascending b -> (fuel <= m)%nat)
  end.
Proof.
  intros Hr. unfold sort, while. revert a calls m.
  induction fuel as [|fuel IH]; intros a calls m; simpl; [split; [done|intros; lia]|].
  pose proof (wp_check_sorted a) as Hc.
  destruct (check_sorted a (zlen a)) as [b|]; simpl in *; [|done].
  destruct b; simpl; [by apply sorts_intro|].
  pose proof (wp_shuffle rand a calls Hr) as Hw.
  destruct (shuffle rand a (zlen a) calls) as [[a1 c1]|] eqn:E; simpl in *; [|done].
  destruct Hw as [Hp Hl]. specialize (IH a1 c1 (pred m)). rewrite Hl in IH.
  destruct (loop fuel _ _) as [[a' c']|f].
  { destruct IH as [? ?]. split; [by rewrite <- Hp | done]. }
  destruct IH as [-> IH]. split; [done|]. destruct m as [|m]; simpl.
  - by intros b c [= -> ->] ?.
  - rewrite E. simpl. intros b c Hb Ha. specialize (IH b c Hb Ha). simpl in IH. lia.
Qed.

(** C40. BogoSort.c: for whatever [rand()] returns, if some number of shuffles
    brings up a sorted order, [sort] returns within as many turns, with a sorted
    rearrangement of its input and without leaving the array.  (That it
    never returns anything else is [bogo_sort_run].) *)
Theorem bogo_sort_live (rand : nat -> Z) (fuel m : nat) (a b : list Z) (calls c : nat) :
  (forall k, 0 <= rand k) ->
  shuffled rand m a calls = Ok (b, c) -> Sorted Z.le b -> (m < fuel)%nat ->
  exists a' c', sort rand fuel a (zlen a) calls = Ok (a', c') /\ sorts a a'.
Proof.
  intros Hr Hb Hs Hm. pose proof (bogo_sort_run rand fuel m a calls Hr) as H.
  destruct (sort rand fuel a (zlen a) calls) as [[a' c']|f]; [eauto|].
  destruct H as [_ H]. apply ascending_Sorted in Hs. specialize (H b c Hb Hs). lia.
Qed.

(** Two shuffles with the dice 1, 1, then 0, 1 sort the pair 5, 2. *)
Definition dice (k : nat) : Z := match k with 2%nat => 0 | _ => 1 end.

Lemma bogo_sort_live_witness :
  exists a' c', sort dice 5 [5; 2] (zlen [5; 2]) 0 = Ok (a', c') /\ sorts [5; 2] a'.
Proof.
  apply (bogo_sort_live dice 5 1 [5; 2] [2; 5] 0 2).
  - intros k. unfold dice. do 3 (destruct k as [|k]; [lia|]). lia.
  - reflexivity.
  - repeat constructor. lia.
  - lia.
Defined.
End BogoSort.
