(* ===== verification/InsertionSorts.v ===== *)
(** * Insertion sorts: InsertionSort.c, binary_insertion_sort.c, shellSort.c

    One Module per program.  The first two share the theory of a cell being
    carried down a sorted prefix (the [shifted] arrays); shellSort.c is the
    gapped form, proved gap by gap. *)

From S2P Require Import Prelude Arrays.
Open Scope Z_scope.

(** ** Carrying one cell down a sorted prefix *)

(** Starting from [a0], the cells [j+1 .. i-1] have been moved one place up
    and the hole is at [j+1]; the cell carried is [a0.[i]]. *)
Definition shifted (a0 : list Z) (i j : Z) (a : list Z) : Prop :=
  zlen a = zlen a0 /\
  (forall p, 0 <= p -> p <= j \/ i < p -> a.[p] = a0.[p]) /\
  (forall p, j + 1 < p <= i -> a.[p] = a0.[p - 1]) /\
  Permutation (upd a (j + 1) a0.[i]) a0.

Lemma shifted_init a0 i : 0 <= i < zlen a0 -> shifted a0 i (i - 1) a0.
Proof.
  intros Hi. split_and!; [done|done|intros; lia|].
  replace (i - 1 + 1) with i by lia. by rewrite upd_aget.
Qed.

Lemma shifted_step a0 i j a :
  0 <= j < i -> i < zlen a0 -> shifted a0 i j a ->
  shifted a0 i (j - 1) (upd a (j + 1) a.[j]).
Proof.
  intros Hj Hi (Hl & Hsame & Hmoved & Hp). split_and!.
  - by rewrite zlen_upd.
  - intros p ??. rewrite aget_upd_ne by lia. apply Hsame; lia.
  - intros p ?. rewrite aget_upd by lia. case_decide as E; [|apply Hmoved; lia].
    subst p. replace (j + 1 - 1) with j by lia. apply Hsame; lia.
  - replace (j - 1 + 1) with j by lia.
    rewrite Permutation_shift by lia. done.
Qed.

Lemma shifted_done a0 i j a :
  -1 <= j < i -> i < zlen a0 -> shifted a0 i j a -> sorted_on a0 0 i ->
  (forall p, 0 <= p <= j -> a0.[p] <= a0.[i]) ->
  (forall p, j < p < i -> a0.[i] <= a0.[p]) ->
  let a' := upd a (j + 1) a0.[i] in
  Permutation a' a0 /\ zlen a' = zlen a0 /\ sorted_on a' 0 (i + 1).
Proof.
  intros Hj Hi (Hl & Hsame & Hmoved & Hp) Hs Hlow Hhigh a'. subst a'.
  split_and!; [done|by rewrite zlen_upd|].
  apply sorted_on_step; [lia|]. intros p Hp0 Hp1.
  rewrite !aget_upd by lia. repeat case_decide; subst; try lia.
  - rewrite Hmoved by lia. replace (j + 1 + 1 - 1) with (j + 1) by lia. apply Hhigh. lia.
  - replace p with j by lia. rewrite Hsame by lia. apply Hlow. lia.
  - destruct (decide (p + 1 <= j)).
    + rewrite !Hsame by lia. apply Hs; lia.
    + rewrite !Hmoved by lia. apply Hs; lia.
Qed.

(** ** InsertionSort.c (and the insertion sort of CArray.c) *)

Module InsertionSort.

(** [while (j >= 0 && elmtToInsert < arraySort[j])
       { arraySort[j+1] = arraySort[j]; j--; }], which makes at most
    [j + 1] turns. *)
Definition shift (arraySort : list Z) (elmtToInsert j : Z) : res (list Z * Z) :=
  while (Z.to_nat (j + 2))
    (fun '(arraySort, j) =>
       if j >=? 0 then let* x := rd arraySort j in Ok (elmtToInsert <? x)
       else Ok false)
    (fun '(arraySort, j) =>
       let* x := rd arraySort j in
       let* arraySort := wr arraySort (j + 1) x in
       Ok (arraySort, j - 1)) (arraySort, j).

(** The body of the [for]: pick up cell [i] and insert it. *)
Definition insert_step (i : Z) (arraySort : list Z) : res (list Z) :=
  let* elmtToInsert := rd arraySort i in
  let* (arraySort, j) := shift arraySort elmtToInsert (i - 1) in
  wr arraySort (j + 1) elmtToInsert.

(** The [for] of main, lines 13-31, with MAX the length of the array. *)
Definition sort (arraySort : list Z) (MAX : Z) : res (list Z) :=
  for_up 1 MAX insert_step arraySort.

(** main sorts an array of 20 zeroes and returns EXIT_SUCCESS. *)
Definition main : res (list Z * Z) :=
  let* arraySort := sort (replicate 20 0) 20 in Ok (arraySort, 0).

Lemma wp_linear_insert_step a i :
  1 <= i < zlen a -> sorted_on a 0 i ->
  wp (insert_step i a) (fun a' =>
    Permutation a' a /\ zlen a' = zlen a /\ sorted_on a' 0 (i + 1)).
Proof.
  intros Hi Hs. unfold insert_step, shift. wp_step. wp_step. wp_step.
  apply (wp_while (fun '(a', j) => -1 <= j < i /\ shifted a i j a' /\
      forall p, j < p < i -> a.[i] <= a.[p]) (fun '(_, j) => j + 1)).
  - split_and!; [lia..| |intros; lia]. apply shifted_init. lia.
  - lia.
  - intros [a' j]. lia.
  - intros [a' j] (Hj & Hsh & Hhigh). pose proof Hsh as (Hl & Hsame & _).
    assert (a'.[j] = a.[j] \/ j = -1) as Hcell by (destruct (decide (j = -1)); [by right|left; apply Hsame; lia]).
    destruct (Z.geb_spec j 0); wp_steps.
    + destruct (Z.ltb_spec a.[i] a'.[j]); wp_steps.
      * split; [|lia]. split_and!; [lia..| |].
        -- by apply shifted_step; [lia..|].
        -- intros p Hp. destruct (decide (p = j)) as [->|]; [lia|]. apply Hhigh. lia.
      * apply shifted_done; [lia..|done|done| |done].
        intros p Hp. transitivity a.[j]; [apply Hs; lia | lia].
    + apply shifted_done; [lia..|done|done| |done]. intros; lia.
Qed.

Lemma wp_linear_insertion_sort a : wp (sort a (zlen a)) (sorts a).
Proof.
  unfold sort. pose proof (zlen_nonneg a).
  apply (wp_for_up (fun i a' =>
    Permutation a' a /\ zlen a' = zlen a /\ sorted_on a' 0 i)).
  - split_and!; [done..|]. apply sorted_on_empty. lia.
  - intros i a' Hi (Hp & Hl & Hs).
    eapply wp_mono; [by apply wp_linear_insert_step; [lia|]|].
    intros a'' (Hp' & Hl' & Hs'). split_and!; [by rewrite Hp'|lia|done].
  - intros a' (Hp & Hl & Hs). apply sorts_intro; [done|].
    eapply sorted_on_weaken; [done|lia..].
Qed.

(** The insertion sort of InsertionSort.c sorts any array in place. *)
Theorem linear_insertion_sort_correct (a : list Z) :
  exists a', sort a (zlen a) = Ok a' /\ sorts a a'.
Proof. apply wp_exists, wp_linear_insertion_sort. Qed.
End InsertionSort.

(** ** binary_insertion_sort.c *)

Module BinaryInsertionSort.

Fixpoint binarySearch (fuel : nat) (a : list Z) (item low high : Z) : res Z :=
  match fuel with
  | O => Fail NoFuel
  | S fuel =>
      if high <=? low then
        let* x := rd a low in
        Ok (if item >? x then low + 1 else low)
      else
        let* sum := int (low + high) in
        let mid := sum `quot` 2 in
        let* x := rd a mid in
        if item =? x then Ok (mid + 1)
        else if item >? x then binarySearch fuel a item (mid + 1) high
        else binarySearch fuel a item low (mid - 1)
  end.

Definition insert_step (fuel : nat) (i : Z) (a : list Z) : res (list Z) :=
  let* selected := rd a i in
  let* loc := binarySearch fuel a selected 0 (i - 1) in
  (* while (j >= loc) { a[j+1] = a[j]; j--; } *)
  let* (a, j) := while (Z.to_nat (i + 1))
    (fun '(_, j) => Ok (j >=? loc))
    (fun '(a, j) =>
       let* x := rd a j in
       let* a := wr a (j + 1) x in
       Ok (a, j - 1)) (a, i - 1) in
  wr a (j + 1) selected.

Definition insertionSort (fuel : nat) (a : list Z) (n : Z) : res (list Z) :=
  for_up 1 n (insert_step fuel) a.

Definition main (fuel : nat) (w : console) : res console :=
  let* (n, w) := scanf w in
  let* _ := vla n in
  let* (a, w) := read_array n w in
  let* a := insertionSort fuel a n in
  let w := printf [PStr "Sorted array: \n"] w in
  print_array (fun v => [PInt v; PStr " "]) a n w.

(** The insertion point: everything before it is at most [item],
    everything from it up to [top] is at least [item]. *)
Definition insertion_point (a : list Z) (item top loc : Z) : Prop :=
  0 <= loc <= top + 1 /\
  (forall p, 0 <= p < loc -> a.[p] <= item) /\
  (forall p, loc <= p <= top -> item <= a.[p]).

Lemma wp_binarySearch fuel a item low high top :
  0 <= low <= top -> low - 1 <= high <= top -> top < zlen a -> zlen a <= 2 ^ 30 ->
  high - low + 1 < Z.of_nat fuel -> sorted_on a 0 (top + 1) ->
  (forall p, 0 <= p < low -> a.[p] <= item) ->
  (forall p, high < p <= top -> item <= a.[p]) ->
  wp (binarySearch fuel a item low high) (insertion_point a item top).
Proof.
  revert low high. induction fuel as [|fuel IH]; intros low high Hlow Hhigh Htop Hlen Hfuel Hs Hb Ha;
    [lia|]. simpl. wp_step.
  - wp_steps. rewrite Z.gtb_ltb. destruct (Z.ltb_spec a.[low] item).
    + split_and!; [lia|lia|..]; intros p Hp.
      * destruct (decide (p = low)) as [->|]; [lia|]. apply Hb. lia.
      * apply Ha. lia.
    + split_and!; [lia|lia|..]; intros p Hp; [apply Hb; lia|].
      transitivity a.[low]; [lia|]. apply Hs; lia.
  - assert (low <= Z.quot (low + high) 2 < high) as Hmid by div_lia.
    wp_step. wp_step. wp_step. wp_step.
    set (mid := Z.quot (low + high) 2) in *. wp_steps.
    + subst item. split_and!; [lia|lia|..]; intros p Hp; apply Hs; lia.
    + apply IH; try done; try lia. intros p Hp.
      transitivity a.[mid]; [apply Hs; lia | lia].
    + apply IH; try done; try lia. intros p Hp.
      transitivity a.[mid]; [lia | apply Hs; lia].
Qed.

Lemma wp_binary_insert_step fuel a i :
  1 <= i < zlen a -> zlen a <= 2 ^ 30 -> zlen a < Z.of_nat fuel -> sorted_on a 0 i ->
  wp (insert_step fuel i a) (fun a' =>
    Permutation a' a /\ zlen a' = zlen a /\ sorted_on a' 0 (i + 1)).
Proof.
  intros Hi Hlen Hfuel Hs. unfold insert_step. wp_step. wp_step. wp_step.
  eapply wp_mono.
  { apply (wp_binarySearch _ _ _ _ _ (i - 1)); try lia; try (intros; lia).
    by replace (i - 1 + 1) with i by lia. }
  intros loc (Hloc & Hlow & Hhigh). wp_step.
  apply (wp_while (fun '(a', j) => loc - 1 <= j < i /\ shifted a i j a')
    (fun '(_, j) => j + 1)).
  - split_and!; [lia..|]. apply shifted_init. lia.
  - lia.
  - intros [a' j]. lia.
  - intros [a' j] (Hj & Hsh). pose proof Hsh as (Hl & _). simpl.
    rewrite Z.geb_leb. destruct (Z.leb_spec loc j); wp_steps.
    + split; [|lia]. split; [lia|]. by apply shifted_step; [lia..|].
    + apply shifted_done; [lia..|done|done| |]; intros p Hp; [apply Hlow | apply Hhigh]; lia.
Qed.

Lemma wp_insertionSort fuel a :
  zlen a <= 2 ^ 30 -> zlen a < Z.of_nat fuel ->
  wp (insertionSort fuel a (zlen a)) (sorts a).
Proof.
  intros Hlen Hfuel. unfold insertionSort. pose proof (zlen_nonneg a).
  apply (wp_for_up (fun i a' =>
    Permutation a' a /\ zlen a' = zlen a /\ sorted_on a' 0 i)).
  - split_and!; [done..|]. apply sorted_on_empty. lia.
  - intros i a' Hi (Hp & Hl & Hs).
    eapply wp_mono; [by apply wp_binary_insert_step; [lia..|]|].
    intros a'' (Hp' & Hl' & Hs'). split_and!; [by rewrite Hp'|lia|done].
  - intros a' (Hp & Hl & Hs). apply sorts_intro; [done|].
    eapply sorted_on_weaken; [done|lia..].
Qed.

(** binary_insertion_sort.c: for arrays of up to 2^30 cells (beyond
    that [low + high] may overflow) the binary search ends, finds an
    insertion point and the sort returns a sorted rearrangement. *)
Theorem binary_insertionSort_correct (fuel : nat) (a : list Z) :
  zlen a <= 2 ^ 30 -> zlen a < Z.of_nat fuel ->
  exists a', insertionSort fuel a (zlen a) = Ok a' /\ sorts a a'.
Proof. intros. by apply wp_exists, wp_insertionSort. Qed.

Lemma binary_insertionSort_correct_witness :
  exists a', insertionSort 8 [4; 1; 3; 1] (zlen [4; 1; 3; 1]) = Ok a' /\
    sorts [4; 1; 3; 1] a'.
Proof. apply binary_insertionSort_correct; vm_compute; done. Defined.
End BinaryInsertionSort.

(** ** shellSort.c *)

Module ShellSort.

(** The innermost loop (lines 10-19) for gap [i], started at [k = j - i]:
    [k] falls by the gap, at most [k + 1] times. *)
Definition sift (i : Z) (array : list Z) (k : Z) : res (list Z) :=
  loop (Z.to_nat (k + 2)) (fun '(array, k) =>
    if k >=? 0 then
      let* x := rd array (k + i) in
      let* y := rd array k in
      if x >=? y then Ok (inr array)
      else let* array := swap array k (k + i) in Ok (inl (array, k - i))
    else Ok (inr array)) (array, k).

Definition gap_pass (i : Z) (array : list Z) (value : Z) : res (list Z) :=
  for_up i value (fun j array => sift i array (j - i)) array.

Definition shellSort (fuel : nat) (array : list Z) (value : Z) : res (list Z) :=
  loop fuel (fun '(array, i) =>
    if i >? 0 then
      let* array := gap_pass i array value in
      Ok (inl (array, i `quot` 2))
    else Ok (inr array)) (array, value `quot` 2).

(** main declares 20 cells and fills 100. *)
Definition main (rand : nat -> Z) (fuel : nat) (w : console) : res console :=
  let range := 500 in
  let* array := for_up 0 100 (fun i array =>
    wr array i (Some (rand (Z.to_nat i) `rem` range + 1))) (uninit 20) in
  let size := 20 in
  let* _ := shellSort fuel (map (default 0) array) size in
  Ok (printf [PStr "Data Sorted\n"] w).

(** [a] is ordered along every chain of stride [g], up to position [hi]
    exclusive, except possibly between [k] and [k + g]. *)
Definition gap_sorted_but (g hi k : Z) (a : list Z) : Prop :=
  forall p, 0 <= p -> p + g < hi -> p <> k -> a.[p] <= a.[p + g].

Definition gap_sorted (g hi : Z) (a : list Z) : Prop :=
  forall p, 0 <= p -> p + g < hi -> a.[p] <= a.[p + g].

Lemma wp_sift g a j :
  0 < g -> g <= j < zlen a -> gap_sorted g j a ->
  wp (sift g a (j - g)) (fun a' =>
    Permutation a' a /\ zlen a' = zlen a /\ gap_sorted g (j + 1) a').
Proof.
  intros Hg Hj Hs. unfold sift.
  apply (wp_loop (fun '(a', k) => - g <= k <= j - g /\
      Permutation a' a /\ zlen a' = zlen a /\
      gap_sorted_but g (j + 1) k a' /\
      (0 <= k -> k + g + g < j + 1 -> a'.[k] <= a'.[k + g + g]))
    (fun '(_, k) => Z.max 0 (k + 1))).
  - split_and!; [lia..|done|done| |intros; lia]. intros p ???. apply Hs; lia.
  - lia.
  - intros [a' k]. lia.
  - intros [a' k] (Hk & Hp & Hl & Hbut & Hskip).
    rewrite Z.geb_leb. destruct (Z.leb_spec 0 k); wp_steps.
    + split_and!; [done..|]. intros p ??.
      destruct (decide (p = k)) as [->|]; [lia|]. by apply Hbut.
    + split; [|lia]. split_and!; [lia..| |by rewrite zlen_exchange| |].
      * etransitivity; [|exact Hp]. apply Permutation_exchange; lia.
      * intros p ???. rewrite !aget_exchange by lia. repeat case_decide; subst; try lia.
        all: first [apply Hskip; lia | apply Hbut; lia].
      * intros ??. rewrite !aget_exchange by lia. repeat case_decide; try lia.
        replace (k - g + g + g) with (k + g) by lia.
        specialize (Hbut (k - g)). replace (k - g + g) with k in Hbut by lia.
        repeat case_decide; try lia. 
    + split_and!; [done..|]. intros p ??. apply Hbut; lia.
Qed.

Lemma wp_gap_pass g a :
  0 < g -> wp (gap_pass g a (zlen a)) (fun a' =>
    Permutation a' a /\ zlen a' = zlen a /\ gap_sorted g (zlen a) a').
Proof.
  intros Hg. unfold gap_pass.
  apply (wp_for_up (fun j a' =>
    Permutation a' a /\ zlen a' = zlen a /\ gap_sorted g j a')).
  - split_and!; [done..|]. intros p ??. lia.
  - intros j a' Hj (Hp & Hl & Hs).
    eapply wp_mono; [by apply wp_sift; [lia..|]|].
    intros a'' (Hp' & Hl' & Hs'). split_and!; [by rewrite Hp'|lia|done].
  - intros a' (Hp & Hl & Hs). split_and!; [done..|].
    intros p ??. apply Hs; lia.
Qed.

Lemma wp_shellSort fuel a :
  zlen a < Z.of_nat fuel -> wp (shellSort fuel a (zlen a)) (sorts a).
Proof.
  intros Hfuel. unfold shellSort. pose proof (zlen_nonneg a).
  apply (wp_loop (fun '(a', i) => 0 <= i /\ Permutation a' a /\ zlen a' = zlen a /\
      (i = 0 -> gap_sorted 1 (zlen a) a')) (fun '(_, i) => i)).
  - split_and!; [div_lia|done..|]. intros E p ??.
    assert (zlen a <= 1) by div_lia. lia.
  - div_lia.
  - intros [a' i]. lia.
  - intros [a' i] (Hi & Hp & Hl & Hs). rewrite Z.gtb_ltb.
    destruct (Z.ltb_spec 0 i); wp_steps.
    + rewrite <- Hl. eapply wp_mono; [by apply wp_gap_pass|].
      intros a'' (Hp' & Hl' & Hs'). simpl.
      split_and!; [div_lia|by rewrite Hp'|lia| |div_lia].
      intros E. assert (i = 1) as -> by div_lia. done.
    + apply sorts_intro; [done|]. apply sorted_on_step; [lia|].
      intros p ??. apply Hs; lia.
Qed.

(** shellSort.c: with every gap of the sequence n/2, n/4, ..., 1 the
    pass orders all chains of that stride, so the last pass leaves the
    whole array sorted; the routine ends and keeps the elements. *)
Theorem shellSort_correct (fuel : nat) (a : list Z) :
  zlen a < Z.of_nat fuel ->
  exists a', shellSort fuel a (zlen a) = Ok a' /\ sorts a a'.
Proof. intros. by apply wp_exists, wp_shellSort. Qed.

Lemma shellSort_correct_witness :
  exists a', shellSort 6 [5; 4; 9; 1; 4] (zlen [5; 4; 9; 1; 4]) = Ok a' /\
    sorts [5; 4; 9; 1; 4] a'.
Proof. apply shellSort_correct. vm_compute. done. Defined.

(** The program's own main never reaches the sort: it stores 100 values
    into its 20 cells. *)
Theorem shell_main_overruns (rand : nat -> Z) (fuel : nat) (w : console) :
  main rand fuel w = Fail OutOfBounds.
Proof. reflexivity. Qed.
End ShellSort.
