(* ===== verification/QuickSort.v ===== *)
(** * QuickSort.c: quicksort with the last cell as pivot

    [swap], [partition], [quickSort], [display] and [main] of
    algorithms/c/sorting/QuickSort.c. *)

From S2P Require Import Prelude Arrays.
Open Scope Z_scope.

Definition display (arr : list Z) (n : Z) (w : console) : res console :=
  let* w := print_array (fun v => [PInt v; PStr " "]) arr n w in
  Ok (printf [PStr "\n"] w).

Definition partition (arr : list Z) (lower upper : Z) : res (list Z * Z) :=
  let i := lower - 1 in
  let* pivot := rd arr upper in
  let* (arr, i) := for_up lower upper (fun j '(arr, i) =>
    let* x := rd arr j in
    if x <=? pivot then
      let i := i + 1 in
      let* arr := swap arr i j in
      Ok (arr, i)
    else Ok (arr, i)) (arr, i) in
  let* arr := swap arr (i + 1) upper in
  Ok (arr, i + 1).

Fixpoint quickSort (fuel : nat) (arr : list Z) (lower upper : Z) : res (list Z) :=
  match fuel with
  | O => Fail NoFuel
  | S fuel =>
      if upper >? lower then
        let* (arr, partitionIndex) := partition arr lower upper in
        let* arr := quickSort fuel arr lower (partitionIndex - 1) in
        quickSort fuel arr (partitionIndex + 1) upper
      else Ok arr
  end.

Definition main (fuel : nat) (w : console) : res console :=
  let w := printf [PStr "Enter size of array:\n"] w in
  let* (n, w) := scanf w in
  let w := printf [PStr "Enter the elements of the array\n"] w in
  let* _ := vla n in
  let* (arr, w) := read_array n w in
  let w := printf [PStr "Original array: "] w in
  let* w := display arr n w in
  let* arr := quickSort fuel arr 0 (n - 1) in
  let w := printf [PStr "Sorted array: "] w in
  display arr n w.

(** ** Partition *)

(** The pivot is in its place: smaller or equal cells before it, greater
    cells after it. *)
Definition partitioned (a : list Z) (lower q upper : Z) : Prop :=
  lower <= q <= upper /\
  (forall p, lower <= p < q -> a.[p] <= a.[q]) /\
  (forall p, q < p <= upper -> a.[q] < a.[p]).

Lemma wp_partition a lower upper :
  0 <= lower < upper -> upper < zlen a ->
  wp (partition a lower upper) (fun '(a', q) =>
    rearranged lower upper a a' /\ partitioned a' lower q upper /\ a'.[q] = a.[upper]).
Proof.
  intros Hlo Hup. unfold partition. wp_step. wp_step. wp_step.
  apply (wp_for_up (fun j '(a', i) =>
    rearranged lower upper a a' /\ lower - 1 <= i < j /\ a'.[upper] = a.[upper] /\
    (forall p, lower <= p <= i -> a'.[p] <= a.[upper]) /\
    (forall p, i < p < j -> a.[upper] < a'.[p]))).
  - split_and!; [apply rearranged_refl|lia|lia|done|intros; lia..].
  - intros j [a' i] Hj (Hr & Hi & Hu & Hle & Hgt). pose proof Hr as (_ & Hl & _).
    wp_steps.
    + split_and!; [|lia|lia|..].
      * eapply rearranged_trans; [done|]. apply rearranged_exchange; lia.
      * rewrite aget_exchange by lia. repeat case_decide; lia.
      * intros p Hp. rewrite aget_exchange by lia. repeat case_decide; subst; try lia.
        -- destruct (decide (j = i + 1)) as [->|]; [done|lia].
        -- apply Hle. lia.
      * intros p Hp. rewrite aget_exchange by lia. repeat case_decide; subst; try lia.
        -- apply Hgt. lia.
        -- apply Hgt. lia.
    + split_and!; [done|lia|lia|done|done|]. intros p Hp.
      destruct (decide (p = j)) as [->|]; [done|]. apply Hgt. lia.
  - rewrite Z.max_r by lia. intros [a' i] (Hr & Hi & Hu & Hle & Hgt).
    pose proof Hr as (_ & Hl & _). wp_steps. split_and!.
    + eapply rearranged_trans; [done|]. apply rearranged_exchange; lia.
    + split_and!; [lia|lia|..]; intros p Hp; rewrite !aget_exchange by lia;
        repeat case_decide; subst; try lia; rewrite ?Hu;
        first [apply Hle; lia | apply Hgt; lia].
    + rewrite aget_exchange by lia. repeat case_decide; [congruence|done|lia].
Qed.

(** ** Quicksort *)

(** Sorting both sides of a partitioned range sorts the range. *)
Lemma sorted_on_combine a b c lower q upper :
  0 <= lower -> partitioned a lower q upper ->
  rearranged lower (q - 1) a b -> sorted_on b lower q ->
  rearranged (q + 1) upper b c -> sorted_on c (q + 1) (upper + 1) ->
  sorted_on c lower (upper + 1).
Proof.
  intros Hlo (Hq & Hle & Hgt) Hab Sb Hbc Sc.
  pose proof (rearranged_forall _ _ _ _ (fun v => v <= a.[q]) Hab) as HL.
  pose proof Hab as (_ & _ & Oab & _). pose proof Hbc as (_ & _ & Obc & _).
  assert (c.[q] = a.[q]) as Eq by (rewrite Obc, Oab; lia || done).
  pose proof (rearranged_forall _ _ _ _ (fun v => a.[q] < v) Hbc) as HR.
  assert (forall p, lower <= p <= q -> c.[p] <= a.[q]) as HL'.
  { intros p Hp. destruct (decide (p = q)) as [->|]; [lia|].
    rewrite Obc by lia. apply HL; [|lia]. intros; apply Hle; lia. }
  assert (forall p, q <= p <= upper -> a.[q] <= c.[p]) as HR'.
  { intros p Hp. destruct (decide (p = q)) as [->|]; [lia|].
    apply Z.lt_le_incl, HR; [|lia]. intros p' Hp'. rewrite Oab by lia. apply Hgt. lia. }
  intros i j Hi Hij Hj.
  destruct (decide (j < q)).
  - rewrite !Obc by lia. apply Sb; lia.
  - destruct (decide (q < i)); [apply Sc; lia|].
    transitivity a.[q]; [apply HL'|apply HR']; lia.
Qed.

Lemma wp_quickSort fuel a lower upper :
  0 <= lower -> upper < zlen a -> Z.max 0 (upper - lower + 1) < Z.of_nat fuel ->
  wp (quickSort fuel a lower upper) (fun a' =>
    rearranged lower upper a a' /\ sorted_on a' lower (upper + 1)).
Proof.
  revert a lower upper. induction fuel as [|fuel IH]; intros a lower upper Hlo Hup Hf; [lia|].
  simpl. rewrite Z.gtb_ltb. destruct (Z.ltb_spec lower upper) as [Hlt|Hge]; wp_steps.
  - eapply wp_mono; [by apply wp_partition|].
    intros [a1 q] (Hr1 & Hq & _). pose proof Hr1 as (_ & Hl1 & _). pose proof Hq as (Hb & _).
    wp_step. eapply wp_mono; [apply IH; lia|]. intros a2 (Hr2 & Hs2).
    pose proof Hr2 as (_ & Hl2 & _).
    eapply wp_mono; [apply IH; lia|]. intros a3 (Hr3 & Hs3). split.
    + eapply rearranged_trans; [exact Hr1|].
      eapply rearranged_trans; (eapply rearranged_widen; [eassumption|lia..]).
    + replace (q - 1 + 1) with q in Hs2 by lia. by eapply sorted_on_combine.
  - split; [apply rearranged_refl|]. apply sorted_on_empty. lia.
Qed.

(** QuickSort.c as a program: given a positive count and that many
    integers, main prints them and then prints a sorted rearrangement of
    them, ending for every input; the recursion stays inside the array and
    is at most as deep as the array is long. *)
Theorem quicksort_main_correct (fuel : nat) (xs rest : list Z) (out : list piece) :
  0 < zlen xs < Z.of_nat fuel ->
  exists ys, sorts xs ys /\
    main fuel (Console (zlen xs :: xs ++ rest) out) =
      Ok (Console rest (out ++
        [PStr "Enter size of array:\n"; PStr "Enter the elements of the array\n";
         PStr "Original array: "] ++
        concat (map (fun v => [PInt v; PStr " "]) xs) ++
        [PStr "\n"; PStr "Sorted array: "] ++
        concat (map (fun v => [PInt v; PStr " "]) ys) ++ [PStr "\n"])).
Proof.
  intros Hn.
  destruct (proj1 (wp_exists _ _) (wp_quickSort fuel xs 0 (zlen xs - 1) ltac:(lia) ltac:(lia) ltac:(lia)))
    as (ys & Hy & (Hp & Hl & _) & Hs).
  exists ys. split.
  { apply sorts_intro; [done|]. rewrite Hl. by replace (zlen xs - 1 + 1) with (zlen xs) in Hs by lia. }
  unfold main, scanf, vla, demand, display, printf. simpl.
  rewrite (proj2 (Z.ltb_lt _ _)) by lia. simpl. rewrite read_array_spec by done. simpl.
  rewrite print_array_spec. simpl. rewrite Hy. simpl. rewrite <- Hl.
  rewrite print_array_spec. simpl. repeat rewrite <- app_assoc. done.
Qed.

Lemma quicksort_main_correct_witness :
  exists ys, sorts [10; 9; 11] ys /\
    main 9 (Console (zlen [10; 9; 11] :: [10; 9; 11] ++ []) []) =
      Ok (Console [] ([] ++
        [PStr "Enter size of array:\n"; PStr "Enter the elements of the array\n";
         PStr "Original array: "] ++
        concat (map (fun v => [PInt v; PStr " "]) [10; 9; 11]) ++
        [PStr "\n"; PStr "Sorted array: "] ++
        concat (map (fun v => [PInt v; PStr " "]) ys) ++ [PStr "\n"])).
Proof. apply quicksort_main_correct. vm_compute. done. Defined.
