(* ===== verification/HeapSort.v ===== *)
(** * HeapSort.c: heap sort on a heap rooted at cell 0 with children 2i, 2i+1

    [heapify] and [heap_sort] of algorithms/c/sorting/HeapSort.c.  The
    children of cell [i] are [2 * i] and [2 * i + 1] although cells are
    numbered from 0, so cell 0 is its own left child and the parent of [i]
    is [i / 2].  The building loop starts at [n / 2 - 1], which is the last
    parent only when [n] is even. *)

From S2P Require Import Prelude Arrays.
Open Scope Z_scope.

Fixpoint heapify (fuel : nat) (unsorted : list Z) (index heap_size : Z) : res (list Z) :=
  match fuel with
  | O => Fail NoFuel
  | S fuel =>
      let largest := index in
      let* left_index := int (2 * index) in
      let* right_index := int (2 * index + 1) in
      let* largest :=
        if left_index <? heap_size then
          let* l := rd unsorted left_index in
          let* x := rd unsorted largest in
          Ok (if l >? x then left_index else largest)
        else Ok largest in
      let* largest :=
        if right_index <? heap_size then
          let* r := rd unsorted right_index in
          let* x := rd unsorted largest in
          Ok (if r >? x then right_index else largest)
        else Ok largest in
      if largest =? index then Ok unsorted
      else
        let* unsorted := swap unsorted largest index in
        heapify fuel unsorted largest heap_size
  end.

Definition heap_sort (fuel : nat) (unsorted : list Z) (n : Z) : res (list Z) :=
  let* unsorted := for_down (n `quot` 2 - 1) 0 (fun i unsorted =>
    heapify fuel unsorted i n) unsorted in
  for_down (n - 1) 1 (fun i unsorted =>
    let* unsorted := swap unsorted 0 i in
    heapify fuel unsorted 0 i) unsorted.

(** ** Heaps *)

(** Every cell of [1, m) whose parent is at least [s] is at most its parent. *)
Definition heap_from (s m : Z) (a : list Z) : Prop :=
  forall i, 1 <= i < m -> s <= i / 2 -> a.[i] <= a.[i / 2].

(** The same, except below [idx], whose children are still at most its parent:
    the state of a cell being sifted down. *)
Definition heap_but (s m idx : Z) (a : list Z) : Prop :=
  forall i, 1 <= i < m -> s <= i / 2 ->
    (i / 2 <> idx -> a.[i] <= a.[i / 2]) /\
    (i / 2 = idx -> 1 <= idx -> s <= idx / 2 -> a.[i] <= a.[idx / 2]).

Lemma heap_but_start s m a : heap_from (s + 1) m a -> heap_but s m s a.
Proof.
  intros Hh i Hi Hs. split; [intros; apply Hh; lia|].
  intros ???. assert (s / 2 < s) by (apply Z.div_lt; lia). lia.
Qed.

(** Sifting one level: the cell changes places with its largest child. *)
Lemma heap_but_exchange s m idx c a :
  0 <= s <= idx -> c / 2 = idx -> idx < c < m -> m <= zlen a ->
  heap_but s m idx a -> a.[idx] < a.[c] ->
  (forall i, 1 <= i < m -> i / 2 = idx -> a.[i] <= a.[c]) ->
  heap_but s m c (exchange a c idx).
Proof.
  intros Hs Hc Hlt Hm Hb Hgt Hmax i Hi Hsi.
  assert (0 <= i / 2 < i) by (split; [apply Z.div_pos; lia | apply Z.div_lt; lia]).
  split.
  - intros Hne. rewrite !aget_exchange by lia.
    destruct (decide (i / 2 = idx)) as [E|E].
    + repeat case_decide; subst; try lia; apply Hmax; lia.
    + repeat case_decide; subst; try lia; apply Hb; lia.
  - intros E _ _. rewrite Hc. rewrite !aget_exchange by lia.
    repeat case_decide; try lia.
    destruct (Hb i) as [Hpar _]; [lia|lia|]. rewrite <- E. apply Hpar. lia.
Qed.

(** The choice of [largest]: the cell itself or one of its children in the
    heap, whichever is greatest. *)
Definition largest_of (m index : Z) (a : list Z) (c : Z) : Prop :=
  (c = index \/ c = 2 * index \/ c = 2 * index + 1) /\ c < m /\
  (c <> index -> a.[index] < a.[c]) /\
  (forall i, 1 <= i < m -> i / 2 = index -> a.[i] <= a.[c]).

Lemma wp_largest m index a (Q : Z -> Prop) :
  0 <= index < m -> m <= zlen a ->
  (forall c, largest_of m index a c -> Q c) ->
  wp (let* largest :=
        if 2 * index <? m then
          let* l := rd a (2 * index) in
          let* x := rd a index in
          Ok (if l >? x then 2 * index else index)
        else Ok index in
      if 2 * index + 1 <? m then
        let* r := rd a (2 * index + 1) in
        let* x := rd a largest in
        Ok (if r >? x then 2 * index + 1 else largest)
      else Ok largest) Q.
Proof.
  intros Hi Hm HQ.
  apply wp_bind, wp_mono with (P := fun c =>
    (c = index \/ c = 2 * index) /\ c < m /\ a.[index] <= a.[c] /\
    (c <> index -> a.[index] < a.[c]) /\ (2 * index < m -> a.[2 * index] <= a.[c])).
  { destruct (Z.ltb_spec (2 * index) m); wp_steps; [|split_and!; lia].
    rewrite Z.gtb_ltb. destruct (Z.ltb_spec a.[index] a.[2 * index]); split_and!; lia. }
  intros c1 (Hc1 & Hc1m & Hc1i & Hc1g & Hc1l).
  apply wp_mono with (P := fun c =>
    (c = index \/ c = 2 * index \/ c = 2 * index + 1) /\ c < m /\
    (c <> index -> a.[index] < a.[c]) /\ (2 * index < m -> a.[2 * index] <= a.[c]) /\
    (2 * index + 1 < m -> a.[2 * index + 1] <= a.[c])).
  { destruct (Z.ltb_spec (2 * index + 1) m); wp_steps; [|split_and!; lia].
    rewrite Z.gtb_ltb. destruct (Z.ltb_spec a.[c1] a.[2 * index + 1]); split_and!; lia. }
  intros c (Hc & Hcm & Hcg & Hcl & Hcr). apply HQ. split_and!; [done..|].
  intros i Him E. assert (i = 2 * index \/ i = 2 * index + 1) as [-> | ->] by div_lia;
    [apply Hcl|apply Hcr]; lia.
Qed.

(** heapify always ends inside the heap and only rearranges it; started on
    the one cell that may be out of order it restores the heap. *)
Lemma wp_heapify fuel a index m :
  0 <= index < m -> m <= zlen a -> zlen a <= 2 ^ 30 -> m - index < Z.of_nat fuel ->
  wp (heapify fuel a index m) (fun a' =>
    rearranged 0 (m - 1) a a' /\
    forall s, 0 <= s <= index -> heap_but s m index a -> heap_from s m a').
Proof.
  revert a index. induction fuel as [|fuel IH]; intros a index Hi Hm Hlen Hf; [lia|].
  simpl. do 4 wp_step. rewrite <- bind_assoc. wp_step.
  apply wp_largest; [lia..|]. intros c (Hc & Hcm & Hcg & Hmax). wp_step.
  - subst c. split; [apply rearranged_refl|]. intros s Hs Hb i Him Hsi.
    destruct (decide (i / 2 = index)) as [E|E]; [rewrite E; auto|]. apply Hb; lia.
  - wp_steps. assert (index < c) by lia.
    eapply wp_mono; [apply IH; rewrite ?zlen_exchange; lia|].
    intros a' (Hr & Hh). split.
    + eapply rearranged_trans; [|done]. apply rearranged_exchange; lia.
    + intros s Hs Hb. apply Hh; [lia|].
      apply heap_but_exchange; try lia; try done. div_lia.
Qed.

(** The root of a heap is its maximum. *)
Lemma heap_root m a : heap_from 0 m a -> forall p, 0 <= p < m -> a.[p] <= a.[0].
Proof.
  intros Hh p Hp. assert (0 <= p) as H0 by lia. revert Hp. pattern p. revert p H0.
  apply Zlt_0_ind. intros p IH Hp0 Hp.
  destruct (decide (p = 0)) as [->|]; [done|].
  assert (0 <= p / 2 < p) by (split; [apply Z.div_pos; lia | apply Z.div_lt; lia]).
  transitivity a.[p / 2]; [apply Hh; lia | apply IH; lia].
Qed.

(** ** The two phases *)

(** Building: a heap over the whole array, when the last parent is visited. *)
Lemma wp_build fuel a :
  zlen a <= 2 ^ 30 -> zlen a < Z.of_nat fuel ->
  wp (for_down (Z.quot (zlen a) 2 - 1) 0 (fun i a' => heapify fuel a' i (zlen a)) a)
    (fun a' => rearranged 0 (zlen a - 1) a a' /\
       (Z.even (zlen a) = true -> heap_from 0 (zlen a) a')).
Proof.
  intros Hlen Hf. pose proof (zlen_nonneg a). set (n := zlen a) in *.
  apply (wp_for_down (fun i a' => rearranged 0 (n - 1) a a' /\
    (Z.even n = true -> heap_from (i + 1) n a'))).
  - split; [apply rearranged_refl|]. intros He i Hi Hs.
    apply Z.even_spec in He as [k ->]. div_lia.
  - intros i a' Hi [Hr Hh]. pose proof Hr as (_ & Hl & _).
    assert (i < n) by div_lia.
    eapply wp_mono; [apply wp_heapify; lia|]. intros a'' (Hr' & Hh'). split.
    + eapply rearranged_trans; eassumption.
    + intros He. replace (i - 1 + 1) with i by lia. apply Hh'; [lia|].
      apply heap_but_start. auto.
  - intros a' [Hr Hh]. split; [done|]. intros He i Hi Hs. apply Hh; [done..|]. div_lia.
Qed.

(** Emptying: each turn moves the maximum behind the heap. *)
Lemma wp_extract fuel a i :
  1 <= i < zlen a -> zlen a <= 2 ^ 30 -> zlen a < Z.of_nat fuel ->
  wp (let* a := swap a 0 i in heapify fuel a 0 i) (fun a' =>
    Permutation a' a /\ zlen a' = zlen a /\
    (heap_from 0 (i + 1) a -> sorted_on a (i + 1) (zlen a) ->
     (forall p q, 0 <= p <= i -> i < q < zlen a -> a.[p] <= a.[q]) ->
     heap_from 0 i a' /\ sorted_on a' i (zlen a) /\
     (forall p q, 0 <= p <= i - 1 -> i - 1 < q < zlen a -> a'.[p] <= a'.[q]))).
Proof.
  intros Hi Hlen Hf. wp_steps. 
  eapply wp_mono; [apply wp_heapify; rewrite ?zlen_exchange; lia|].
  intros a' (Hr & Hh). pose proof Hr as (Hp & Hl & Ho & _). rewrite zlen_exchange in Hl.
  split_and!; [rewrite Hp; apply Permutation_exchange; lia|done|].
  intros Hheap Hsort Hsep. pose proof (heap_root _ _ Hheap) as Hroot.
  assert (a'.[i] = a.[0]) as Ei.
  { rewrite Ho by lia. rewrite aget_exchange by lia. by rewrite decide_True. }
  assert (forall q, i < q < zlen a -> a'.[q] = a.[q]) as Eq.
  { intros q Hq. rewrite Ho by lia. rewrite aget_exchange by lia.
    by rewrite !decide_False by lia. }
  split_and!.
  - apply Hh; [lia|]. intros k Hk _. split; [|intros; lia].
    intros Hne. assert (0 <= k / 2 < k) by (split; [apply Z.div_pos; lia | apply Z.div_lt; lia]).
    rewrite !aget_exchange by lia. rewrite !decide_False by lia. apply Hheap; lia.
  - intros p q ???. destruct (decide (p = i)) as [->|].
    + rewrite Ei. destruct (decide (q = i)) as [->|]; [by rewrite Ei|].
      rewrite Eq by lia. apply Hsep; lia.
    + rewrite !Eq by lia. apply Hsort; lia.
  - intros p q Hpi Hqi. revert p Hpi.
    apply (rearranged_forall _ _ _ _ (fun v => v <= a'.[q]) Hr). intros p Hpi.
    rewrite aget_exchange by lia. rewrite (decide_False (P := p = i)) by lia.
    assert (a.[if decide (p = 0) then i else p] <= a'.[q]) as Hv.
    { destruct (decide (q = i)) as [->|]; [rewrite Ei; apply Hroot; case_decide; lia|].
      rewrite Eq by lia. apply Hsep; [case_decide; lia|lia]. }
    by case_decide.
Qed.

Lemma wp_heap_sort fuel a :
  zlen a <= 2 ^ 30 -> zlen a < Z.of_nat fuel ->
  wp (heap_sort fuel a (zlen a)) (fun a' =>
    Permutation a' a /\ (Z.even (zlen a) = true -> sorts a a')).
Proof.
  intros Hlen Hf. unfold heap_sort. wp_step.
  eapply wp_mono; [by apply wp_build|]. intros a1 (Hr1 & Hh1).
  pose proof Hr1 as (Hp1 & Hl1 & _).
  apply (wp_for_down (fun i a' => Permutation a' a /\ zlen a' = zlen a /\
    (Z.even (zlen a) = true -> heap_from 0 (i + 1) a' /\ sorted_on a' (i + 1) (zlen a) /\
      (forall p q, 0 <= p <= i -> i < q < zlen a -> a'.[p] <= a'.[q])))).
  - split_and!; [done..|]. intros He. replace (zlen a - 1 + 1) with (zlen a) by lia.
    split_and!; [auto|apply sorted_on_empty; lia|intros; lia].
  - intros i a' Hi (Hp & Hl & Hinv).
    eapply wp_mono; [apply wp_extract; lia|].
    intros a'' (Hp' & Hl' & Hinv'). split_and!; [by rewrite Hp'|lia|].
    intros He. destruct (Hinv He) as (H1 & H2 & H3). replace (i - 1 + 1) with i by lia.
    rewrite Hl in Hinv'. apply Hinv'; [done|done|]. exact H3.
  - intros a' (Hp & Hl & Hinv). split; [done|]. intros He. apply sorts_intro; [done|].
    destruct (Hinv He) as (_ & Hsort & Hsep). intros i j ???. rewrite Hl in *.
    destruct (decide (i = 0)) as [->|]; [|apply Hsort; lia].
    destruct (decide (j = 0)) as [->|]; [done|]. apply Hsep; lia.
Qed.

(** HeapSort.c: heap_sort returns for every array of up to 2^30 cells,
    stays inside it and keeps its elements, and it sorts every array of
    even length. *)
Theorem heap_sort_correct (fuel : nat) (a : list Z) :
  zlen a <= 2 ^ 30 -> zlen a < Z.of_nat fuel ->
  exists a', heap_sort fuel a (zlen a) = Ok a' /\ Permutation a' a /\
    (Z.even (zlen a) = true -> sorts a a').
Proof. intros. by apply wp_exists, wp_heap_sort. Qed.

Lemma heap_sort_correct_witness :
  exists a', heap_sort 9 [2; 8; 5; 3] (zlen [2; 8; 5; 3]) = Ok a' /\
    Permutation a' [2; 8; 5; 3] /\
    (Z.even (zlen [2; 8; 5; 3]) = true -> sorts [2; 8; 5; 3] a').
Proof. apply heap_sort_correct; vm_compute; done. Defined.

(** With an odd number of cells the last parent, cell (n - 1) / 2, is never
    sifted: the result need not be sorted. *)
Theorem heap_sort_odd_unsorted :
  heap_sort 9 [2; 1; 3] 3 = Ok [1; 3; 2] /\ ~ Sorted Z.le [1; 3; 2].
Proof.
  split; [reflexivity|]. intros H. apply ascending_Sorted in H.
  specialize (H 1 2). cbv in H. destruct H; done.
Qed.
