(* ===== verification/MergeSort.v ===== *)
(** * mergesort.c: merge sort with a scratch array

    [merge], [mergesort] and [main] of algorithms/c/sorting/mergesort.c.
    [merge] merges into a fresh block [b] and copies it back with
    [for (c = l; c < r-l+1; c++)], which reaches the end of the merged
    range only when [l] is 0. *)

From S2P Require Import Prelude Arrays.
Open Scope Z_scope.

(** The loop variables of [merge]. *)
Record merging := Merging { b : list (option Z); c : Z; p1 : Z; p2 : Z }.

(** [b[c++] = a[p1]; p1++;] *)
Definition take1 (a : list Z) (s : merging) : res merging :=
  let* x := rd a (p1 s) in
  let* b' := wr (b s) (c s) (Some x) in
  Ok (Merging b' (c s + 1) (p1 s + 1) (p2 s)).

(** [b[c++] = a[p2]; p2++;] *)
Definition take2 (a : list Z) (s : merging) : res merging :=
  let* x := rd a (p2 s) in
  let* b' := wr (b s) (c s) (Some x) in
  Ok (Merging b' (c s + 1) (p1 s) (p2 s + 1)).

Definition merge (a : list Z) (l r n : Z) : res (list Z) :=
  let* sum := int (l + r) in
  let half := sum `quot` 2 in
  let turns := Z.to_nat (r - l + 2) in
  let s := Merging (uninit n) l l (half + 1) in
  let* s := while turns
    (fun s => Ok ((p1 s <? half + 1) && (p2 s <? r + 1)))
    (fun s =>
       let* x := rd a (p1 s) in
       let* y := rd a (p2 s) in
       if x <=? y then take1 a s else take2 a s) s in
  let* s :=
    if p2 s =? r + 1
    then while turns (fun s => Ok (p1 s <? half + 1)) (take1 a) s
    else while turns (fun s => Ok (p2 s <? r + 1)) (take2 a) s in
  for_up l (r - l + 1) (fun c a =>
    let* x := rdu (b s) c in
    wr a c x) a.

Fixpoint mergesort (fuel : nat) (a : list Z) (n l r : Z) : res (list Z) :=
  match fuel with
  | O => Fail NoFuel
  | S fuel =>
      if r - l =? 1 then
        let* x := rd a l in
        let* y := rd a r in
        if x >? y then swap a l r else Ok a
      else if l =? r then Ok a
      else
        let* sum := int (l + r) in
        let half := sum `quot` 2 in
        let* a := mergesort fuel a n l half in
        let* a := mergesort fuel a n (half + 1) r in
        merge a l r n
  end.

(** ** The scratch block *)

(** A block of [n] cells whose cells from [l] on hold [out]. *)
Definition block (l n : Z) (out : list Z) : list (option Z) :=
  replicate (Z.to_nat l) None ++ (Some <$> out) ++
  replicate (Z.to_nat (n - l - zlen out)) None.

Lemma zlen_block l n out : 0 <= l -> l + zlen out <= n -> zlen (block l n out) = n.
Proof.
  intros Hl Hn. unfold block, zlen in *.
  rewrite !length_app, !length_replicate, length_fmap. lia.
Qed.

Lemma block_snoc l n out x :
  0 <= l -> l + zlen out < n -> upd (block l n out) (l + zlen out) (Some x) = block l n (out ++ [x]).
Proof.
  intros Hl Hn. unfold block, upd, zlen in *.
  replace (Z.to_nat (n - l - Z.of_nat (length out)))
    with (S (Z.to_nat (n - l - Z.of_nat (length (out ++ [x])))))
    by (rewrite length_app; simpl; lia).
  rewrite app_assoc, fmap_app, app_assoc. simpl.
  rewrite insert_app_r_alt by (rewrite length_app, length_replicate, length_fmap; lia).
  rewrite length_app, length_replicate, length_fmap.
  replace (_ - _)%nat with O by lia. simpl. by rewrite <- !app_assoc.
Qed.

Lemma rdu_block l n out i :
  0 <= l -> 0 <= i < zlen out -> l + zlen out <= n -> rdu (block l n out) (l + i) = Ok out.[i].
Proof.
  intros Hl Hi Hn. unfold rdu. rewrite rd_Ok by (rewrite zlen_block; lia).
  unfold block, aget, zlen in *. simpl.
  rewrite lookup_total_app_r, length_replicate by (rewrite length_replicate; lia).
  replace (Z.to_nat (l + i) - Z.to_nat l)%nat with (Z.to_nat i) by lia.
  rewrite lookup_total_app_l by (rewrite length_fmap; lia).
  by rewrite (list_lookup_total_fmap (A := Z) Some) by lia.
Qed.

(** ** Slices of the array *)

Definition slice (a : list Z) (i j : Z) : list Z :=
  take (Z.to_nat (j - i)) (drop (Z.to_nat i) a).

Lemma slice_empty a i : slice a i i = [].
Proof. unfold slice. by rewrite Z.sub_diag. Qed.

Lemma slice_snoc a i j :
  0 <= i <= j -> j < zlen a -> slice a i (j + 1) = slice a i j ++ [a.[j]].
Proof.
  intros Hi Hj. unfold slice, aget, zlen in *.
  replace (Z.to_nat (j + 1 - i)) with (S (Z.to_nat (j - i))) by lia.
  erewrite take_S_r; [done|]. rewrite lookup_drop.
  replace (Z.to_nat i + Z.to_nat (j - i))%nat with (Z.to_nat j) by lia.
  apply list_lookup_lookup_total_lt. lia.
Qed.

Lemma slice_split a i j k :
  0 <= i <= j -> j <= k -> slice a i j ++ slice a j k = slice a i k.
Proof.
  intros Hi Hk. unfold slice.
  replace (Z.to_nat j) with (Z.to_nat i + Z.to_nat (j - i))%nat by lia.
  rewrite <- drop_drop.
  replace (Z.to_nat (k - i)) with (Z.to_nat (j - i) + Z.to_nat (k - j))%nat by lia.
  by rewrite take_take_drop.
Qed.

Lemma Sorted_snoc out x : Sorted Z.le out -> Forall (fun y => y <= x) out -> Sorted Z.le (out ++ [x]).
Proof.
  induction 1 as [|y out Hs IH Hd]; intros Hf; simpl; [repeat constructor|].
  inversion Hf; subst. constructor; [by apply IH|].
  destruct out; simpl; constructor; [done|]. by inversion Hd.
Qed.

(** ** Merging *)

Section merge.
Context (a : list Z) (l mid r n : Z).

(** The cells merged so far, in order. *)
Definition merged_upto (s : merging) : Prop :=
  exists out, b s = block l n out /\ c s = l + zlen out /\
    l <= p1 s <= mid + 1 /\ mid + 1 <= p2 s <= r + 1 /\
    zlen out = p1 s - l + (p2 s - (mid + 1)) /\
    Permutation out (slice a l (p1 s) ++ slice a (mid + 1) (p2 s)) /\
    (sorted_on a l (mid + 1) -> sorted_on a (mid + 1) (r + 1) ->
     Sorted Z.le out /\
     (p1 s <= mid -> Forall (fun y => y <= a.[p1 s]) out) /\
     (p2 s <= r -> Forall (fun y => y <= a.[p2 s]) out)).

Hypothesis Hbounds : 0 <= l <= mid /\ mid < r /\ r < n /\ n = zlen a.

Lemma merged_start : merged_upto (Merging (uninit n) l l (mid + 1)).
Proof.
  exists []. split_and!; simpl; try lia.
  - unfold block, uninit. simpl. rewrite <- replicate_add. f_equal. unfold zlen. simpl. lia.
  - unfold zlen. simpl. lia.
  - unfold zlen. simpl. lia.
  - by rewrite !slice_empty.
  - intros _ _. split_and!; [constructor|intros; constructor..].
Qed.

Lemma wp_take1 s :
  merged_upto s -> p1 s <= mid -> (p2 s <= r -> a.[p1 s] <= a.[p2 s]) ->
  wp (take1 a s) (fun s' => merged_upto s' /\ p1 s' = p1 s + 1 /\ p2 s' = p2 s).
Proof.
  intros (out & Hb & Hc & H1 & H2 & Hl & Hp & Hs) Hle Hmin. unfold take1.
  assert (zlen (b s) = n) by (rewrite Hb; apply zlen_block; lia). wp_steps.
  split_and!; [|done..]. exists (out ++ [a.[p1 s]]). simpl. rewrite zlen_snoc.
  split_and!; try lia.
  - rewrite Hb, Hc. apply block_snoc; lia.
  - rewrite slice_snoc by lia. rewrite Hp. rewrite <- !app_assoc. f_equiv.
    by rewrite Permutation_app_comm.
  - intros S1 S2. destruct (Hs S1 S2) as (So & F1 & F2). split_and!.
    + apply Sorted_snoc; auto.
    + intros Hm. apply Forall_app. split; [|repeat constructor; apply S1; lia].
      eapply Forall_impl; [by apply F1|]. simpl. intros y ?.
      transitivity a.[p1 s]; [done|apply S1; lia].
    + intros Hm. apply Forall_app. split; [auto|repeat constructor; auto].
Qed.

Lemma wp_take2 s :
  merged_upto s -> p2 s <= r -> (p1 s <= mid -> a.[p2 s] <= a.[p1 s]) ->
  wp (take2 a s) (fun s' => merged_upto s' /\ p1 s' = p1 s /\ p2 s' = p2 s + 1).
Proof.
  intros (out & Hb & Hc & H1 & H2 & Hl & Hp & Hs) Hle Hmin. unfold take2.
  assert (zlen (b s) = n) by (rewrite Hb; apply zlen_block; lia). wp_steps.
  split_and!; [|done..]. exists (out ++ [a.[p2 s]]). simpl. rewrite zlen_snoc.
  split_and!; try lia.
  - rewrite Hb, Hc. apply block_snoc; lia.
  - rewrite (slice_snoc a (mid + 1)) by lia. rewrite Hp. by rewrite <- !app_assoc.
  - intros S1 S2. destruct (Hs S1 S2) as (So & F1 & F2). split_and!.
    + apply Sorted_snoc; auto.
    + intros Hm. apply Forall_app. split; [auto|repeat constructor; auto].
    + intros Hm. apply Forall_app. split; [|repeat constructor; apply S2; lia].
      eapply Forall_impl; [by apply F2|]. simpl. intros y ?.
      transitivity a.[p2 s]; [done|apply S2; lia].
Qed.

(** The three loops together merge everything. *)
Lemma wp_merge_loops (turns : nat) (Q : merging -> Prop) :
  r - l + 1 < Z.of_nat turns ->
  (forall s, merged_upto s -> p1 s = mid + 1 -> p2 s = r + 1 -> Q s) ->
  wp (let* s := while turns
        (fun s => Ok ((p1 s <? mid + 1) && (p2 s <? r + 1)))
        (fun s =>
           let* x := rd a (p1 s) in
           let* y := rd a (p2 s) in
           if x <=? y then take1 a s else take2 a s) (Merging (uninit n) l l (mid + 1)) in
      if p2 s =? r + 1
      then while turns (fun s => Ok (p1 s <? mid + 1)) (take1 a) s
      else while turns (fun s => Ok (p2 s <? r + 1)) (take2 a) s) Q.
Proof.
  intros Hturns HQ.
  set (m := fun s => (mid + 1 - p1 s) + (r + 1 - p2 s)).
  assert (forall s, merged_upto s -> 0 <= m s <= r - l + 1) as Hm.
  { intros s (out & _ & _ & ? & ? & _). subst m. simpl. lia. }
  wp_step. apply (wp_while merged_upto m); [apply merged_start| | |].
  { pose proof (Hm _ merged_start). lia. }
  { intros s Hs. apply Hm, Hs. }
  intros s Hs. pose proof Hs as (out & _ & _ & ? & ? & _). simpl.
  destruct (Z.ltb_spec (p1 s) (mid + 1)); simpl; [destruct (Z.ltb_spec (p2 s) (r + 1)); simpl|].
  - wp_steps; (eapply wp_mono; [first [apply wp_take1 | apply wp_take2]; try done; lia|]);
      intros s' (Hs' & E1 & E2); (split; [done|]); subst m; simpl; lia.
  - rewrite (proj2 (Z.eqb_eq _ _)) by lia.
    apply (wp_while (fun s => merged_upto s /\ p2 s = r + 1) m).
    + split; [done|lia].
    + pose proof (Hm _ Hs). lia.
    + intros s' [Hs' _]. apply Hm, Hs'.
    + intros s' [Hs' E2]. pose proof Hs' as (out' & _ & _ & ? & ? & _). simpl.
      destruct (Z.ltb_spec (p1 s') (mid + 1)); [|apply HQ; [done|lia|done]].
      eapply wp_mono; [apply wp_take1; try done; lia|].
      intros s'' (? & ? & ?). split_and!; [done|lia|subst m; simpl; lia].
  - destruct (Z.eqb_spec (p2 s) (r + 1)).
    + apply (wp_while (fun s' => s' = s) m); [done| | |].
      * pose proof (Hm _ Hs). lia.
      * intros ? ->. apply Hm, Hs.
      * intros ? ->. simpl. rewrite (proj2 (Z.ltb_ge _ _)) by lia. apply HQ; [done|lia|done].
    + apply (wp_while (fun s => merged_upto s /\ p1 s = mid + 1) m).
      * split; [done|lia].
      * pose proof (Hm _ Hs). lia.
      * intros s' [Hs' _]. apply Hm, Hs'.
      * intros s' [Hs' E1]. pose proof Hs' as (out' & _ & _ & ? & ? & _). simpl.
        destruct (Z.ltb_spec (p2 s') (r + 1)); [|apply HQ; [done|done|lia]].
        eapply wp_mono; [apply wp_take2; try done; lia|].
        intros s'' (? & ? & ?). split_and!; [done|lia|subst m; simpl; lia].
Qed.

End merge.

(** Copying back from cell 0 replaces the merged prefix. *)
Lemma wp_copy_back a m out n :
  0 <= m <= zlen a -> zlen out = m -> m <= n ->
  wp (for_up 0 m (fun c a => let* x := rdu (block 0 n out) c in wr a c x) a)
    (fun a' => a' = out ++ drop (Z.to_nat m) a).
Proof.
  intros Hm Hout Hn.
  apply (wp_for_up (fun i a' => zlen a' = zlen a /\
    (forall p, 0 <= p < i -> a'.[p] = out.[p]) /\ (forall p, i <= p -> a'.[p] = a.[p]))).
  - split_and!; [done|intros; lia|done].
  - intros i a' Hi (Hl & Hlow & Hhigh). wp_step.
    rewrite <- (Z.add_0_l i), rdu_block by lia. simpl. wp_step.
    rewrite zlen_upd. split_and!; [done|..]; intros p Hp; rewrite aget_upd by lia;
      case_decide; subst; try lia; auto; [apply Hlow | apply Hhigh]; lia.
  - rewrite Z.max_r by lia. intros a' (Hl & Hlow & Hhigh). apply aget_ext.
    + unfold zlen in *. rewrite length_app, length_drop. lia.
    + intros p Hp. destruct (decide (p < m)).
      * rewrite Hlow, aget_app_l by lia. done.
      * rewrite Hhigh, aget_app_r by lia. unfold aget. rewrite lookup_total_drop. f_equal. lia.
Qed.

Lemma slice_prefix a m : slice a 0 m ++ drop (Z.to_nat m) a = a.
Proof. unfold slice. rewrite Z.sub_0_r. apply take_drop. Qed.

(** merge from cell 0 merges the two halves; from a cell at least as far
    right as the range is long it copies nothing back. *)
Lemma wp_merge a l r :
  0 <= l < r -> r < zlen a -> zlen a <= 2 ^ 30 -> l = 0 \/ r - l + 1 <= l ->
  wp (merge a l r (zlen a)) (fun a' =>
    Permutation a' a /\ zlen a' = zlen a /\
    (forall p, 0 <= p -> p < l \/ r < p -> a'.[p] = a.[p]) /\
    (0 < l -> a' = a) /\
    (l = 0 -> sorted_on a 0 (r / 2 + 1) -> sorted_on a (r / 2 + 1) (r + 1) ->
     sorted_on a' 0 (r + 1))).
Proof.
  intros Hl Hr Hlen Hcase. unfold merge. wp_step. wp_step. rewrite <- bind_assoc. wp_step.
  assert (l <= Z.quot (l + r) 2 < r) as Hmid by div_lia.
  apply (wp_merge_loops a l (Z.quot (l + r) 2) r (zlen a)); [lia..|].
  intros s (out & Hb & _ & H1 & H2 & Hlo & Hp & Hs) E1 E2. rewrite Hb, E1, E2 in *.
  destruct (decide (l = 0)) as [->|Hne].
  - rewrite Z.sub_0_r. eapply wp_mono; [apply wp_copy_back; lia|]. intros a' ->.
    assert (Permutation out (slice a 0 (r + 1))) as Hp'.
    { by rewrite Hp, slice_split by lia. }
    split_and!; [..|intros; lia|].
    + rewrite Hp'. by rewrite slice_prefix.
    + unfold zlen in *. rewrite length_app, length_drop. lia.
    + intros p ??. rewrite aget_app_r by lia. unfold aget. rewrite lookup_total_drop. f_equal. lia.
    + intros _ S1 S2. replace (Z.quot (0 + r) 2) with (r / 2) in * by div_lia.
      destruct (Hs S1 S2) as (So & _). apply ascending_Sorted in So.
      unfold ascending in So. replace (zlen out) with (r + 1) in So by lia.
      eapply sorted_on_ext; [|exact So]. intros i Hi. rewrite aget_app_l by lia. done.
  - unfold for_up. replace (Z.to_nat (r - l + 1 - l)) with O by lia. simpl.
    split_and!; done || lia.
Qed.

(** ** Merge sort *)

Lemma wp_mergesort fuel a l r :
  0 <= l <= r -> r < zlen a -> zlen a <= 2 ^ 30 -> r - l + 1 < Z.of_nat fuel ->
  l = 0 \/ r - l + 1 <= l ->
  wp (mergesort fuel a (zlen a) l r) (fun a' =>
    Permutation a' a /\ zlen a' = zlen a /\
    (forall p, 0 <= p -> p < l \/ r < p -> a'.[p] = a.[p]) /\
    (r - l <= 1 \/ l = 0 /\ r <= 4 -> sorted_on a' l (r + 1))).
Proof.
  revert a l r. induction fuel as [|fuel IH]; intros a l r Hl Hr Hlen Hf Hcase; [lia|].
  simpl. destruct (Z.eqb_spec (r - l) 1) as [E1|E1].
  { wp_steps.
    - split_and!; [apply Permutation_exchange; lia|apply zlen_exchange|..].
      + intros p ??. rewrite aget_exchange by lia. by rewrite !decide_False by lia.
      + intros _. apply sorted_on_step; [lia|]. intros i ??. replace i with l by lia.
        replace (l + 1) with r by lia. rewrite !aget_exchange by lia.
        repeat case_decide; lia.
    - split_and!; [done..|]. intros _. apply sorted_on_step; [lia|]. intros i ??.
      replace i with l by lia. by replace (l + 1) with r by lia. }
  destruct (Z.eqb_spec l r) as [->|E2].
  { simpl. split_and!; [done..|]. intros _. apply sorted_on_empty. lia. }
  wp_step. wp_step. wp_step.
  assert (l <= Z.quot (l + r) 2 < r) as Hmid by div_lia.
  set (h := Z.quot (l + r) 2) in *.
  assert (l = 0 -> h = r / 2) as Hh by (intros ->; subst h; div_lia).
  assert (r - h <= h - l + 1) as Hbal by (subst h; div_lia).
  eapply wp_mono; [apply IH; lia|]. intros a1 (P1 & L1 & O1 & S1). rewrite <- L1. wp_step.
  eapply wp_mono; [apply IH; lia|]. intros a2 (P2 & L2 & O2 & S2). rewrite <- L2.
  eapply wp_mono; [apply wp_merge; lia|]. intros a3 (P3 & L3 & O3 & Hnop & S3).
  split_and!; [by rewrite P3, P2|lia| |].
  - intros p ??. rewrite O3, O2, O1 by lia. done.
  - intros [?|[-> Hr4]]; [lia|]. apply S3; [done|..]; rewrite <- Hh by done.
    + eapply sorted_on_ext; [|apply S1; lia]. intros p Hp. rewrite O2 by lia. done.
    + apply S2. subst h. div_lia.
Qed.

(** The whole array. *)
Lemma wp_mergesort_whole (fuel : nat) (a : list Z) :
  0 < zlen a <= 2 ^ 30 -> zlen a < Z.of_nat fuel ->
  wp (mergesort fuel a (zlen a) 0 (zlen a - 1)) (fun a' => Permutation a' a /\ (zlen a <= 5 -> sorts a a')).
Proof.
  intros Hlen Hf. eapply wp_mono; [apply wp_mergesort; lia|]. intros a' (Hp & Hl & _ & Hs). split; [done|].
  intros H5. apply sorts_intro; [done|]. rewrite Hl.
  eapply sorted_on_weaken; [apply Hs|..]; lia.
Qed.

(** mergesort.c: on a non-empty array of up to 2^30 cells mergesort
    ends, stays inside the array and its scratch block, never reads an
    unwritten scratch cell, and keeps the elements; up to five cells it
    sorts them. *)
Theorem mergesort_correct (fuel : nat) (a : list Z) :
  0 < zlen a <= 2 ^ 30 -> zlen a < Z.of_nat fuel ->
  exists a', mergesort fuel a (zlen a) 0 (zlen a - 1) = Ok a' /\ Permutation a' a /\
    (zlen a <= 5 -> sorts a a').
Proof. intros Hlen Hf. by apply wp_exists, wp_mergesort_whole. Qed.

Lemma mergesort_correct_witness :
  exists a', mergesort 9 [3; 9; 1; 7; 2] (zlen [3; 9; 1; 7; 2]) 0 (zlen [3; 9; 1; 7; 2] - 1) = Ok a' /\
    Permutation a' [3; 9; 1; 7; 2] /\
    (zlen [3; 9; 1; 7; 2] <= 5 -> sorts [3; 9; 1; 7; 2] a').
Proof. apply mergesort_correct; vm_compute; done. Defined.

(** From six cells on the right half's own merge is not copied back. *)
Theorem mergesort_six_unsorted :
  mergesort 9 [1; 2; 3; 6; 5; 4] 6 0 5 = Ok [1; 2; 3; 5; 6; 4] /\
  ~ Sorted Z.le [1; 2; 3; 5; 6; 4].
Proof.
  split; [reflexivity|]. intros H. apply ascending_Sorted in H.
  specialize (H 4 5). cbv in H. destruct H; done.
Qed.

(** On an empty array the recursion never ends: with l = 1, r = 0 the first
    recursive call has the same arguments. *)
Theorem mergesort_empty_diverges (fuel : nat) : mergesort fuel [] 0 0 (-1) = Fail NoFuel.
Proof.
  assert (forall k, mergesort (S k) [] 0 1 0 =
    bind (mergesort k [] 0 1 0) (fun a => bind (mergesort k a 0 1 0) (fun a => merge a 1 0 0))) as U by done.
  assert (forall k, mergesort (S k) [] 0 1 (-1) =
    bind (mergesort k [] 0 1 0) (fun a => bind (mergesort k a 0 1 (-1)) (fun a => merge a 1 (-1) 0))) as V by done.
  assert (forall k, mergesort k [] 0 1 0 = Fail NoFuel) as H.
  { induction k as [|k IH]; [done|]. by rewrite U, IH. }
  destruct fuel as [|[|fuel]]; [done..|].
  change (bind (mergesort (S fuel) [] 0 1 (-1)) (fun a => merge a 0 (-1) 0) = Fail NoFuel).
  by rewrite V, H.
Qed.
