(* ===== verification/Sorts.v ===== *)
(** * The array sorts agree

    The sorting routines of algorithms/c/sorting that sort an array in place,
    modelled each in its file, return one and the same array: the sorted one. *)

From S2P Require Import Prelude Arrays ExchangeSorts InsertionSorts QuickSort HeapSort MergeSort.
Open Scope Z_scope.

Lemma sorts_quickSort fuel a :
  zlen a < Z.of_nat fuel -> wp (quickSort fuel a 0 (zlen a - 1)) (sorts a).
Proof.
  intros Hf. pose proof (zlen_nonneg a). eapply wp_mono; [apply wp_quickSort; lia|].
  intros b [(Hp & Hl & _) Hs]. apply sorts_intro; [done|]. rewrite Hl.
  by replace (zlen a - 1 + 1) with (zlen a) in Hs by lia.
Qed.

Lemma sorts_eq a b (c : res (list Z)) : sorts a b -> wp c (sorts a) -> c = Ok b.
Proof. intros Hb Hc. apply wp_exists in Hc as (b' & -> & Hb'). by rewrite (sorts_unique a b b'). Qed.

(** The routines that sort every array, on the whole of [a]. *)
Definition routines (fuel : nat) (a : list Z) : list (res (list Z)) :=
  [ BubbleSort.sort fuel a (zlen a);
    ShakerSort.shakersort a (zlen a);
    InsertionSort.sort a (zlen a);
    BinaryInsertionSort.insertionSort fuel a (zlen a);
    ShellSort.shellSort fuel a (zlen a);
    quickSort fuel a 0 (zlen a - 1) ].

(** C39. On every array of up to 2^30 cells the bubble sort, the shaker sort, the
    insertion sort, the binary insertion sort, the shell sort and the quick sort
    all return the one sorted rearrangement of the array, without a fault; the
    heap sort does so for even lengths and the merge sort up to five
    elements. *)
Theorem sorting_routines_agree (fuel : nat) (a : list Z) :
  zlen a <= 2 ^ 30 -> zlen a + 1 < Z.of_nat fuel ->
  exists b, sorts a b /\ Forall (eq (Ok b)) (routines fuel a) /\
    (Z.even (zlen a) = true -> heap_sort fuel a (zlen a) = Ok b) /\
    (0 < zlen a <= 5 -> mergesort fuel a (zlen a) 0 (zlen a - 1) = Ok b).
Proof.
  intros Hn Hf. destruct (proj1 (wp_exists _ _) (ShakerSort.wp_shakersort a)) as (b & E & Hb).
  pose proof (fun c => sorts_eq a b c Hb) as Heq. exists b. split_and!; [done| |..].
  - repeat constructor; symmetry; try apply Heq.
    + apply BubbleSort.wp_bubble_sort. unfold zlen in Hf. lia.
    + apply ShakerSort.wp_shakersort.
    + apply InsertionSort.wp_linear_insertion_sort.
    + apply BinaryInsertionSort.wp_insertionSort; lia.
    + apply ShellSort.wp_shellSort. lia.
    + apply sorts_quickSort. lia.
  - intros He. apply Heq. eapply wp_mono; [apply wp_heap_sort; lia|]. intros c [_ Hc]. auto.
  - intros H5. apply Heq. eapply wp_mono; [apply wp_mergesort_whole; lia|]. intros c [_ Hc]. apply Hc. lia.
Qed.

Lemma sorting_routines_agree_witness :
  exists b, sorts [3; 1; 2; 1] b /\ Forall (eq (Ok b)) (routines 8 [3; 1; 2; 1]) /\
    (Z.even 4 = true -> heap_sort 8 [3; 1; 2; 1] 4 = Ok b) /\
    (0 < 4 <= 5 -> mergesort 8 [3; 1; 2; 1] 4 0 3 = Ok b).
Proof. apply (sorting_routines_agree 8 [3; 1; 2; 1]); [by vm_compute|by vm_compute]. Defined.
