(* ===== verification/DistributionSorts.v ===== *)
(** * Distribution sorts: BucketSort.c and countingSort.c

    One Module per program.  The chains of [struct Node] of BucketSort.c are
    owned by one bucket at a time and are modelled as lists, head first. *)

From S2P Require Import Prelude Arrays.
Open Scope Z_scope.

(** ** BucketSort.c *)

Module BucketSort.

Definition NARRAY : Z := 8.
Definition NBUCKET : Z := 5.
Definition INTERVAL : Z := 10.

Definition getBucketIndex (value : Z) : Z := value `quot` INTERVAL.

(** The search of lines 136-157: [ptr] stands on [x], the chain after it is
    [rest]; the node of [k] goes before the first greater successor or at
    the end. *)
Fixpoint insert_after (k x : Z) (rest : list Z) : list Z :=
  match rest with
  | [] => [x; k]
  | y :: ys => if y >? k then x :: k :: y :: ys else x :: insert_after k y ys
  end.

(** One turn of [while (k != NULL)]: insert before the first node or after
    the search. *)
Definition insert_node (k : Z) (nodeList : list Z) : res (list Z) :=
  match nodeList with
  | [] => Fail NullDeref
  | x :: rest => Ok (if x >? k then k :: x :: rest else insert_after k x rest)
  end.

Fixpoint insert_all (ks nodeList : list Z) : res (list Z) :=
  match ks with
  | [] => Ok nodeList
  | k :: ks => let* nodeList := insert_node k nodeList in insert_all ks nodeList
  end.

Definition InsertionSort (chain : list Z) : res (list Z) :=
  match chain with
  | [] => Ok []
  | x :: ks => match ks with [] => Ok [x] | _ => insert_all ks [x] end
  end.

Fixpoint printBuckets (chain : list Z) (w : console) : console :=
  match chain with
  | [] => w
  | x :: chain => printBuckets chain (printf [PInt x; PStr " "] w)
  end.

(** The loops of lines 52-57 and 68-73. *)
Definition printAll (buckets : list (list Z)) (w : console) : res console :=
  for_up 0 NBUCKET (fun i w =>
    let w := printf [PStr "Bucket["; PChar 34; PInt i; PChar 34; PStr "] : "] w in
    let* chain := rd buckets i in
    Ok (printf [PStr "\n"] (printBuckets chain w))) w.

(** Lines 41-49: each cell becomes the new head of its bucket's chain. *)
Definition distribute (arr : list Z) (buckets : list (list Z)) : res (list (list Z)) :=
  for_up 0 NARRAY (fun i buckets =>
    let* x := rd arr i in
    let pos := getBucketIndex x in
    let* chain := rd buckets pos in
    wr buckets pos (x :: chain)) buckets.

(** Lines 79-87: [while (node) { assert(j < NARRAY); arr[j++] = ...; }] *)
Fixpoint put_back (chain : list Z) (arr : list Z) (j : Z) : res (list Z * Z) :=
  match chain with
  | [] => Ok (arr, j)
  | x :: chain =>
      let* _ := demand (j <? NARRAY) AssertFail in
      let* arr := wr arr j x in
      put_back chain arr (j + 1)
  end.

Definition BucketSort (arr : list Z) (w : console) : res (list Z * console) :=
  let buckets := replicate (Z.to_nat NBUCKET) [] in
  let* buckets := distribute arr buckets in
  let* w := printAll buckets w in
  let* buckets := for_up 0 NBUCKET (fun i buckets =>
    let* chain := rd buckets i in
    let* chain := InsertionSort chain in
    wr buckets i chain) buckets in
  let w := printf [PStr "--------------\n"; PStr "Buckets after sorted\n"] w in
  let* w := printAll buckets w in
  let* (arr, _) := for_up 0 NBUCKET (fun i '(arr, j) =>
    let* chain := rd buckets i in
    put_back chain arr j) (arr, 0) in
  Ok (arr, w).

Definition print (ar : list Z) (w : console) : res console :=
  let* w := print_array (fun v => [PInt v; PStr " "]) ar NARRAY w in
  Ok (printf [PStr "\n"] w).

Definition main (w : console) : res console :=
  let array := [29; 25; -1; 49; 9; 37; 21; 43] in
  let w := printf [PStr "Initial array\n"] w in
  let* w := print array w in
  let w := printf [PStr "------------\n"] w in
  let* (array, w) := BucketSort array w in
  let w := printf [PStr "------------\n"; PStr "Sorted array\n"] w in
  print array w.

(** *** The chains *)

Lemma insert_after_perm k x rest : Permutation (insert_after k x rest) (k :: x :: rest).
Proof.
  revert x. induction rest as [|y ys IH]; intros x; simpl; [by rewrite Permutation_swap|].
  destruct (y >? k); [by rewrite Permutation_swap|]. rewrite IH. by rewrite Permutation_swap.
Qed.

Lemma insert_after_sorted k x rest :
  x <= k -> Sorted Z.le (x :: rest) -> Sorted Z.le (insert_after k x rest).
Proof.
  revert x. induction rest as [|y ys IH]; intros x Hx Hs; simpl; [repeat constructor; done|].
  apply Sorted_inv in Hs as [Hs Hd]. inversion Hd; subst.
  rewrite Z.gtb_ltb. destruct (Z.ltb_spec k y).
  - repeat constructor; [by apply Sorted_inv in Hs as []|by apply Sorted_inv in Hs as []|lia|done].
  - constructor; [by apply IH|]. destruct ys as [|z zs]; simpl; [by constructor|].
    by destruct (z >? k); constructor.
Qed.

Lemma insert_all_spec ks nodeList :
  nodeList <> [] -> Sorted Z.le nodeList ->
  wp (insert_all ks nodeList) (fun l => Permutation l (ks ++ nodeList) /\ Sorted Z.le l).
Proof.
  revert nodeList. induction ks as [|k ks IH]; intros l Hne Hs; simpl; [done|].
  destruct l as [|x rest]; [done|]. simpl. rewrite Z.gtb_ltb.
  destruct (Z.ltb_spec k x).
  - eapply wp_mono; [apply IH; [done|constructor; [done|constructor; lia]]|].
    intros l' [Hp Hs']. split; [|done]. by rewrite Hp, <- Permutation_middle.
  - eapply wp_mono; [apply IH; [|by apply insert_after_sorted]|].
    { intros E. pose proof (insert_after_perm k x rest) as Hp. rewrite E in Hp.
      by apply Permutation_nil_cons in Hp. }
    intros l' [Hp Hs']. split; [|done].
    rewrite Hp, insert_after_perm. by rewrite <- Permutation_middle.
Qed.

(** InsertionSort sorts a chain. *)
Lemma wp_InsertionSort l : wp (InsertionSort l) (sorts l).
Proof.
  destruct l as [|x [|y ks]]; simpl; [split; [done|constructor] | split; [done|repeat constructor] |].
  change (wp (insert_all (y :: ks) [x]) (sorts (x :: y :: ks))).
  eapply wp_mono; [apply insert_all_spec; [done|repeat constructor]|].
  intros l [Hp Hs]. split; [|done]. by rewrite Hp, <- Permutation_cons_append.
Qed.

(** *** The buckets *)

(** Bucket [i] holds only values whose index is [i]. *)
Definition in_buckets (buckets : list (list Z)) : Prop :=
  forall i, 0 <= i < zlen buckets -> Forall (fun v => getBucketIndex v = i) buckets.[i].

(** The values the five buckets can hold. *)
Definition in_bucket_range (v : Z) : Prop := -10 < v < 50.

Lemma bucket_index_range v : in_bucket_range v <-> 0 <= getBucketIndex v < NBUCKET.
Proof. unfold in_bucket_range, getBucketIndex, INTERVAL, NBUCKET. split; div_lia. Qed.

Lemma concat_upd_perm (bs : list (list Z)) i (b : list Z) :
  0 <= i < zlen bs -> Permutation (concat (upd bs i b) ++ bs.[i]) (concat bs ++ b).
Proof.
  unfold zlen, upd, aget. intros Hi. set (n := Z.to_nat i). set (x := bs !!! n).
  assert (bs !! n = Some x) as Hx by (apply list_lookup_lookup_total_lt; lia).
  assert (concat bs = concat (take n bs) ++ x ++ concat (drop (S n) bs)) as ->.
  { rewrite <- (take_drop_middle bs n x Hx) at 1. by rewrite concat_app. }
  rewrite insert_take_drop by lia. rewrite concat_app. simpl.
  rewrite <- !app_assoc. apply Permutation_app_head.
  rewrite (Permutation_app_comm (concat _) x), (Permutation_app_comm (concat _) b).
  rewrite !app_assoc. by rewrite (Permutation_app_comm b x).
Qed.

Lemma wp_distribute arr :
  zlen arr = NARRAY -> Forall in_bucket_range arr ->
  wp (distribute arr (replicate (Z.to_nat NBUCKET) [])) (fun bs =>
    zlen bs = NBUCKET /\ Permutation (concat bs) arr /\ in_buckets bs).
Proof.
  intros Hl Hr. unfold distribute.
  apply (wp_for_up (fun i bs => zlen bs = NBUCKET /\
    Permutation (concat bs) (take (Z.to_nat i) arr) /\ in_buckets bs)).
  - split_and!; [done|done|]. intros i Hi. unfold NBUCKET in *. rewrite aget_replicate; [done|].
    by rewrite zlen_replicate in Hi.
  - intros i bs Hi (Hlb & Hp & Hb). wp_step. wp_step.
    assert (in_bucket_range arr.[i]) as Hv by (apply (Forall_aget _ arr); [done|lia]).
    apply bucket_index_range in Hv. wp_steps. split_and!; [by rewrite zlen_upd| |].
    + replace (Z.to_nat (i + 1)) with (S (Z.to_nat i)) by lia.
      rewrite (take_S_r _ _ arr.[i]) by (apply list_lookup_lookup_total_lt; unfold zlen in *; lia).
      apply (Permutation_app_inv_r bs.[getBucketIndex arr.[i]]).
      rewrite concat_upd_perm by lia. rewrite Hp, <- app_assoc. apply Permutation_app_head.
      done.
    + intros j Hj. rewrite zlen_upd in Hj. rewrite aget_upd by lia. case_decide; [|by apply Hb].
      subst j. constructor; [done|]. apply Hb. lia.
  - unfold NARRAY in *. intros bs (Hlb & Hp & Hb). split_and!; [done| |done].
    rewrite Hp, take_ge; [done|]. unfold zlen in *. lia.
Qed.

(** Sorting every bucket keeps the buckets and orders each of them. *)
Lemma wp_sort_buckets bs :
  zlen bs = NBUCKET -> in_buckets bs ->
  wp (for_up 0 NBUCKET (fun i buckets =>
        let* chain := rd buckets i in
        let* chain := InsertionSort chain in
        wr buckets i chain) bs) (fun bs' =>
    zlen bs' = NBUCKET /\ Permutation (concat bs') (concat bs) /\ in_buckets bs' /\
    forall i, 0 <= i < NBUCKET -> Sorted Z.le bs'.[i]).
Proof.
  intros Hl Hb.
  apply (wp_for_up (fun k bs' =>
    zlen bs' = NBUCKET /\ Permutation (concat bs') (concat bs) /\ in_buckets bs' /\
    forall i, 0 <= i < k -> Sorted Z.le bs'.[i])).
  - split_and!; [done..|intros; lia].
  - intros k bs' Hk (Hl' & Hp & Hb' & Hs). wp_steps.
    eapply wp_mono; [apply wp_InsertionSort|]. intros chain [Hpc Hsc]. wp_steps.
    split_and!; [by rewrite zlen_upd|..].
    + apply (Permutation_app_inv_r bs'.[k]). rewrite concat_upd_perm by lia. by rewrite Hp, Hpc.
    + intros i Hi. rewrite zlen_upd in Hi. rewrite aget_upd by lia. case_decide; [|by apply Hb'].
      subst i. rewrite <- Hpc. apply Hb'. lia.
    + intros i Hi. rewrite aget_upd by lia. case_decide; [done|]. apply Hs. lia.
  - unfold NBUCKET in *. intros bs' (? & ? & ? & Hs). split_and!; [done..|].
    intros i Hi. apply Hs. lia.
Qed.

(** Buckets in order, each sorted, are sorted end to end. *)
Lemma concat_sorted bs :
  in_buckets bs -> (forall i, 0 <= i < zlen bs -> Sorted Z.le bs.[i]) ->
  Sorted Z.le (concat bs).
Proof.
  intros Hb Hs.
  assert (forall suf pre, bs = pre ++ suf ->
    Sorted Z.le (concat suf) /\ Forall (fun v => zlen pre <= getBucketIndex v) (concat suf)) as H.
  { induction suf as [|x suf IH]; intros pre E; simpl; [split; constructor|].
    destruct (IH (pre ++ [x])) as [IHs IHf]; [by rewrite <- app_assoc|].
    rewrite zlen_snoc in IHf.
    assert (0 <= zlen pre < zlen bs) as Hr.
    { rewrite E, zlen_app, zlen_cons. pose proof (zlen_nonneg pre). pose proof (zlen_nonneg suf). lia. }
    assert (bs.[zlen pre] = x) as Ex by (rewrite E, aget_app_r, Z.sub_diag by lia; done).
    specialize (Hb _ Hr). specialize (Hs _ Hr). rewrite Ex in Hb, Hs. split.
    - clear IH E Ex Hr. induction Hs as [|v l Hs IHl Hd]; [done|]. simpl.
      apply Forall_cons in Hb as [Hv Hb]. constructor; [by apply IHl|].
      destruct l as [|v' l]; simpl; [|by inversion Hd; constructor].
      destruct (concat suf) as [|u us]; constructor.
      apply Forall_cons in IHf as [Hu _]. unfold getBucketIndex, INTERVAL in *. div_lia.
    - apply Forall_app. split; [eapply Forall_impl; [done|simpl; lia]|].
      eapply Forall_impl; [done|]. simpl. lia. }
  by apply (H bs []).
Qed.

Lemma put_back_spec chain arr j :
  0 <= j -> j + zlen chain <= NARRAY -> zlen arr = NARRAY ->
  put_back chain arr j =
    Ok (take (Z.to_nat j) arr ++ chain ++ drop (Z.to_nat (j + zlen chain)) arr, j + zlen chain).
Proof.
  revert arr j. induction chain as [|x chain IH]; intros arr j Hj Hl Ha; simpl.
  - rewrite Z.add_0_r, take_drop. done.
  - rewrite zlen_cons in Hl. pose proof (zlen_nonneg chain). unfold demand.
    rewrite (proj2 (Z.ltb_lt j NARRAY)) by lia. simpl.
    rewrite wr_Ok by lia. simpl. rewrite IH by (rewrite ?zlen_upd; lia).
    rewrite zlen_cons. f_equal. f_equal; [|lia].
    unfold upd, zlen in *. replace (Z.to_nat (j + 1)) with (S (Z.to_nat j)) by lia.
    rewrite (take_S_r _ _ x) by (apply list_lookup_insert_eq; lia).
    rewrite take_insert_ge by lia. rewrite drop_insert_lt by lia.
    rewrite <- app_assoc. simpl. do 5 f_equal. lia.
Qed.

Lemma wp_put_back_all bs arr :
  zlen bs = NBUCKET -> zlen (concat bs) = NARRAY -> zlen arr = NARRAY ->
  wp (for_up 0 NBUCKET (fun i '(arr, j) =>
        let* chain := rd bs i in put_back chain arr j) (arr, 0)) (fun '(arr', _) => arr' = concat bs).
Proof.
  intros Hb Hc Ha. set (pre := fun i => concat (take (Z.to_nat i) bs)).
  assert (forall i, 0 <= i < NBUCKET -> pre (i + 1) = pre i ++ bs.[i]) as Hstep.
  { intros i Hi. subst pre. simpl. replace (Z.to_nat (i + 1)) with (S (Z.to_nat i)) by lia.
    rewrite (take_S_r _ _ bs.[i]) by (apply list_lookup_lookup_total_lt; unfold zlen in *; lia).
    rewrite concat_app. simpl. by rewrite app_nil_r. }
  assert (forall i, zlen (pre i) <= NARRAY) as Hle.
  { intros i. rewrite <- Hc. rewrite <- (take_drop (Z.to_nat i) bs).
    rewrite concat_app, zlen_app. pose proof (zlen_nonneg (concat (drop (Z.to_nat i) bs))). subst pre. simpl. lia. }
  apply (wp_for_up (fun i '(arr', j) => j = zlen (pre i) /\
    arr' = pre i ++ drop (Z.to_nat j) arr)).
  - split; [done|]. simpl. by rewrite drop_0.
  - intros i [arr' j] Hi (-> & ->). wp_steps.
    specialize (Hle (i + 1)). rewrite Hstep, zlen_app in Hle by lia.
    pose proof (zlen_nonneg (pre i)). pose proof (zlen_nonneg bs.[i]).
    rewrite put_back_spec; [|lia..|]; simpl.
    + rewrite Hstep, zlen_app by lia. split; [done|].
      rewrite take_app_length' by (unfold zlen; lia). rewrite <- app_assoc. do 2 f_equal.
      rewrite drop_app_ge by (unfold zlen; lia). rewrite drop_drop. f_equal. unfold zlen; lia.
    + rewrite zlen_app. unfold zlen in *. rewrite length_drop. lia.
  - unfold NBUCKET in *. intros [arr' j] (-> & ->).
    assert (pre (Z.max 0 5) = concat bs) as E
      by (subst pre; simpl; rewrite take_ge; [done|unfold zlen in *; lia]).
    rewrite E, Hc, drop_ge; [by rewrite app_nil_r|]. unfold zlen in *. lia.
Qed.

Lemma wp_printAll bs w : zlen bs = NBUCKET -> wp (printAll bs w) (fun w' => input w' = input w).
Proof.
  intros Hl. unfold printAll.
  assert (forall l w, input (printBuckets l w) = input w) as Hin.
  { induction l as [|x l IH]; intros w0; simpl; [done|]. by rewrite IH. }
  apply (wp_for_up (fun _ w' => input w' = input w)); [done| |done].
  intros i w' Hi Hw. wp_steps. by rewrite Hin.
Qed.

Lemma wp_BucketSort arr w :
  zlen arr = NARRAY -> Forall in_bucket_range arr ->
  wp (BucketSort arr w) (fun '(arr', w') => sorts arr arr' /\ input w' = input w).
Proof.
  intros Hl Hr. unfold BucketSort. wp_step.
  eapply wp_mono; [by apply wp_distribute|]. intros bs (Hlb & Hp & Hb). wp_step.
  eapply wp_mono; [by apply wp_printAll|]. intros w1 Hw1. wp_step.
  eapply wp_mono; [by apply wp_sort_buckets|]. intros bs' (Hlb' & Hp' & Hb' & Hs'). wp_step.
  eapply wp_mono; [by apply wp_printAll|]. intros w2 Hw2. wp_step.
  eapply wp_mono; [apply wp_put_back_all; [done| |done]|].
  { rewrite Hp', Hp. done. }
  intros [arr' j] ->. wp_steps. split; [|by rewrite Hw2].
  split; [by rewrite Hp', Hp|]. apply concat_sorted; [done|]. rewrite Hlb'. exact Hs'.
Qed.

Lemma distribute_faults arr :
  zlen arr = NARRAY -> ~ Forall in_bucket_range arr ->
  distribute arr (replicate (Z.to_nat NBUCKET) []) = Fail OutOfBounds.
Proof.
  intros Hl Hr.
  pose proof (for_up_faults (fun bs : list (list Z) => zlen bs = NBUCKET)
    (fun i => in_bucket_range arr.[i]) OutOfBounds 0 NARRAY
    (fun i buckets =>
      let* x := rd arr i in
      let* chain := rd buckets (getBucketIndex x) in
      wr buckets (getBucketIndex x) (x :: chain)) (replicate (Z.to_nat NBUCKET) [])) as H.
  unfold distribute. destruct (for_up _ _ _ _) as [bs|g].
  - exfalso. apply Hr, Forall_aget. rewrite Hl. apply H; [done|].
    intros i bs' Hi Hb. rewrite rd_Ok by lia. simpl. unfold rd, wr.
    destruct (in_range bs' (getBucketIndex arr.[i])) eqn:E; [|done]. simpl.
    apply in_range_spec in E. rewrite zlen_upd. rewrite bucket_index_range. lia.
  - f_equal. apply H; [done|]. intros i bs' Hi Hb. rewrite rd_Ok by lia. simpl. unfold rd, wr.
    destruct (in_range bs' (getBucketIndex arr.[i])) eqn:E; [|done]. simpl.
    apply in_range_spec in E. rewrite zlen_upd. rewrite bucket_index_range. lia.
Qed.

(** BucketSort.c: an array of NARRAY values, all of which have a bucket
    (between -9 and 49), is sorted; the asserted bound of the copying loop
    holds and no access leaves an array.  A value without a bucket makes
    the program write outside the array of buckets. *)
Theorem BucketSort_correct (arr : list Z) (w : console) :
  zlen arr = NARRAY ->
  (Forall in_bucket_range arr ->
     exists arr' w', BucketSort arr w = Ok (arr', w') /\ sorts arr arr') /\
  (~ Forall in_bucket_range arr -> BucketSort arr w = Fail OutOfBounds).
Proof.
  intros Hl. split.
  - intros Hr. destruct (proj1 (wp_exists _ _) (wp_BucketSort arr w Hl Hr))
      as ([arr' w'] & E & Hs & _). eauto.
  - intros Hr. unfold BucketSort. by rewrite distribute_faults.
Qed.

Lemma BucketSort_correct_witness :
  exists arr' w', BucketSort [29; 25; -1; 49; 9; 37; 21; 43] (Console [] []) = Ok (arr', w') /\
    sorts [29; 25; -1; 49; 9; 37; 21; 43] arr'.
Proof.
  apply (proj1 (BucketSort_correct [29; 25; -1; 49; 9; 37; 21; 43] (Console [] []) eq_refl)).
  repeat constructor; lia.
Defined.

End BucketSort.

(** ** countingSort.c *)

Module CountingSort.

Definition fmt (v : Z) : list piece := [PInt v; PStr " "].

(** Lines 7-12: read the cells and keep the greatest (or 0) in [l]. *)
Definition read_max (n : Z) (w : console) : res (list Z * Z * console) :=
  for_up 0 n (fun _ '(a, l, w) =>
    let* (v, w) := scanf w in
    Ok (a ++ [v], if v >? l then v else l, w)) ([], 0, w).

(** Lines 14-15: [b[a[i]]++] *)
Definition count (a b : list Z) (n : Z) : res (list Z) :=
  for_up 0 n (fun i b =>
    let* x := rd a i in
    let* k := rd b x in
    let* k := int (k + 1) in
    wr b x k) b.

(** Lines 18-25: print [i] as often as it was counted. *)
Definition emit (i : Z) (s : list Z * console) : res (list Z * console) :=
  let '(b, w) := s in
  let* k := rd b i in
  if k >? 0 then
    loop (S (Z.to_nat k)) (fun '(b, w) =>
      let* k := rd b i in
      if k =? 0 then Ok (inr (b, w))
      else
        let w := printf (fmt i) w in
        let* b := wr b i (k - 1) in
        Ok (inl (b, w))) (b, w)
  else Ok (b, w).

Definition main (w : console) : res console :=
  let* (n, w) := scanf w in
  let* _ := vla n in
  let* (a, l, w) := read_max n w in
  let* size := int (l + 1) in
  let* b := count a (replicate (Z.to_nat size) 0) n in
  let* (_, w) := for_up 0 size emit (b, w) in
  Ok w.

Lemma read_max_spec xs rest out :
  exists l, read_max (zlen xs) (Console (xs ++ rest) out) = Ok (xs, l, Console rest out) /\
    0 <= l /\ Forall (fun x => x <= l) xs /\ (l = 0 \/ l ∈ xs).
Proof.
  unfold read_max, for_up. replace (Z.to_nat (zlen xs - 0)) with (length xs) by (unfold zlen; lia).
  assert (forall pre l0 i, 0 <= l0 -> Forall (fun x => x <= l0) pre -> l0 = 0 \/ l0 ∈ pre ->
    exists l, for_n (length xs) i (fun _ '(a, l, w) =>
      let* (v, w) := scanf w in Ok (a ++ [v], if v >? l then v else l, w))
      (pre, l0, Console (xs ++ rest) out) = Ok (pre ++ xs, l, Console rest out) /\
    0 <= l /\ Forall (fun x => x <= l) (pre ++ xs) /\ (l = 0 \/ l ∈ pre ++ xs)) as H.
  { induction xs as [|x xs IH]; intros pre l0 i Hl Hf Hm; simpl.
    { exists l0. rewrite app_nil_r. done. }
    rewrite Z.gtb_ltb.
    destruct (IH (pre ++ [x]) (if l0 <? x then x else l0) (i + 1)) as (l & E & Hl' & Hf' & Hm').
    - destruct (Z.ltb_spec l0 x); lia.
    - apply Forall_app. destruct (Z.ltb_spec l0 x); (split; [|repeat constructor; lia]); [|done].
      eapply Forall_impl; [done|simpl; lia].
    - destruct (Z.ltb_spec l0 x); [right; apply elem_of_app; right; by left|].
      destruct Hm as [->|]; [by left|right; apply elem_of_app; by left].
    - rewrite <- app_assoc in *. eauto. }
  destruct (H [] 0 0) as (l & ?); [done|constructor|by left|]. eauto.
Qed.

Lemma wp_count xs l :
  Forall (fun x => 0 <= x <= l) xs -> 0 <= l -> zlen xs <= INT_MAX ->
  wp (count xs (replicate (Z.to_nat (l + 1)) 0) (zlen xs)) (fun b =>
    zlen b = l + 1 /\
    forall v, 0 <= v <= l -> b.[v] = Z.of_nat (count_occ Z.eq_dec xs v)).
Proof.
  intros Hx Hl Hn. unfold count.
  apply (wp_for_up (fun i b => zlen b = l + 1 /\
    forall v, 0 <= v <= l -> b.[v] = Z.of_nat (count_occ Z.eq_dec (take (Z.to_nat i) xs) v))).
  - rewrite zlen_replicate by lia. split; [done|]. intros v Hv. by rewrite aget_replicate by lia.
  - intros i b Hi (Hb & Hc). wp_step. wp_step.
    assert (0 <= xs.[i] <= l) as Hv by (by apply (Forall_aget_1 (fun x => 0 <= x <= l))).
    assert (Z.of_nat (count_occ Z.eq_dec (take (Z.to_nat i) xs) xs.[i]) <= i) as Hle.
    { pose proof (count_occ_bound Z.eq_dec xs.[i] (take (Z.to_nat i) xs)) as Hb'.
      rewrite length_take in Hb'. lia. }
    wp_step. wp_step. wp_step. rewrite Hc by lia. wp_steps. rewrite zlen_upd. split; [done|].
    intros v Hv'. replace (Z.to_nat (i + 1)) with (S (Z.to_nat i)) by lia.
    rewrite (take_S_r _ _ xs.[i]) by (apply list_lookup_lookup_total_lt; unfold zlen in *; lia).
    rewrite count_occ_app. simpl. rewrite aget_upd by lia.
    destruct (Z.eq_dec xs.[i] v), (decide (xs.[i] = v)); subst; try done; [lia|].
    rewrite Hc by lia. lia.
  - intros b (Hb & Hc). split; [done|]. intros v Hv. rewrite Hc by done.
    rewrite Z.max_r by apply zlen_nonneg. rewrite take_ge; [done|unfold zlen; lia].
Qed.

Lemma wp_emit b w i :
  0 <= i < zlen b -> 0 <= b.[i] ->
  wp (emit i (b, w)) (fun s =>
    s = (upd b i 0, printf (concat (map fmt (replicate (Z.to_nat b.[i]) i))) w)).
Proof.
  intros Hi Hk. unfold emit. wp_step. wp_step. rewrite Z.gtb_ltb.
  destruct (Z.ltb_spec 0 b.[i]).
  - apply (wp_loop (fun '(b', w') => exists k, 0 <= k <= b.[i] /\ b' = upd b i k /\
        w' = printf (concat (map fmt (replicate (Z.to_nat (b.[i] - k)) i))) w)
      (fun '(b', _) => b'.[i])).
    + exists b.[i]. rewrite upd_aget, Z.sub_diag. unfold printf. simpl. rewrite app_nil_r.
      destruct w. split_and!; [lia|lia|done|done].
    + lia.
    + intros [b' w'] (k & Hk' & -> & _). rewrite aget_upd_eq by lia. lia.
    + intros [b' w'] (k & Hk' & -> & ->). wp_step. wp_step. rewrite aget_upd_eq by lia. wp_steps.
      * subst k. by rewrite Z.sub_0_r.
      * rewrite upd_upd_eq. rewrite !aget_upd_eq by lia. split; [|lia]. exists (k - 1).
        split_and!; [lia|lia|done|]. unfold printf. simpl. f_equal. rewrite <- app_assoc. f_equal.
        replace (Z.to_nat (b.[i] - (k - 1))) with (Z.to_nat (b.[i] - k) + 1)%nat by lia.
        rewrite replicate_add, map_app, concat_app. done.
  - wp_step. replace b.[i] with 0 by lia. simpl. f_equal.
    + rewrite <- (upd_aget b i) at 1. f_equal. lia.
    + unfold printf. simpl. rewrite app_nil_r. by destruct w.
Qed.

Lemma count_replicate (n : nat) (i v : Z) :
  count_occ Z.eq_dec (replicate n i) v = if Z.eq_dec i v then n else O.
Proof.
  induction n as [|n IH]; simpl; [by destruct (Z.eq_dec i v)|].
  rewrite IH. by destruct (Z.eq_dec i v).
Qed.

Lemma Sorted_app_replicate ys (n : nat) i :
  Sorted Z.le ys -> Forall (fun y => y < i) ys -> Sorted Z.le (ys ++ replicate n i).
Proof.
  intros Hs Hf. induction Hs as [|y ys Hs IH Hd]; simpl.
  - induction n as [|n IH]; simpl; [constructor|]. constructor; [done|].
    destruct n; simpl; constructor; lia.
  - apply Forall_cons in Hf as [Hy Hf]. constructor; [by apply IH|].
    destruct ys as [|y' ys]; simpl; [|by inversion Hd; constructor].
    destruct n; simpl; constructor; lia.
Qed.

Lemma wp_emit_all xs l b rest out :
  0 <= l -> Forall (fun x => 0 <= x <= l) xs -> zlen b = l + 1 ->
  (forall v, 0 <= v <= l -> b.[v] = Z.of_nat (count_occ Z.eq_dec xs v)) ->
  wp (for_up 0 (l + 1) emit (b, Console rest out)) (fun '(_, w) =>
    exists ys, sorts xs ys /\ w = Console rest (out ++ concat (map fmt ys))).
Proof.
  intros Hl Hx Hb Hc.
  apply (wp_for_up (fun i '(b', w) => zlen b' = l + 1 /\
    (forall v, i <= v <= l -> b'.[v] = Z.of_nat (count_occ Z.eq_dec xs v)) /\
    exists ys, w = Console rest (out ++ concat (map fmt ys)) /\
      Sorted Z.le ys /\ Forall (fun y => y < i) ys /\
      forall v, count_occ Z.eq_dec ys v =
        if decide (0 <= v < i) then count_occ Z.eq_dec xs v else O)).
  - split_and!; [done|intros; apply Hc; lia|]. exists []. simpl. rewrite app_nil_r.
    split_and!; [done|constructor|constructor|]. intros v. by rewrite decide_False by lia.
  - intros i [b' w] Hi (Hb' & Hc' & ys & -> & Hs & Hf & Hcnt).
    eapply wp_mono; [apply wp_emit; [lia|rewrite Hc' by lia; lia]|].
    intros [b'' w'] [= -> ->]. split_and!; [by rewrite zlen_upd| |].
    + intros v Hv. rewrite aget_upd_ne by lia. apply Hc'. lia.
    + rewrite Hc', Nat2Z.id by lia. set (n := count_occ Z.eq_dec xs i).
      exists (ys ++ replicate n i). unfold printf. simpl. split_and!.
      * rewrite map_app, concat_app. by rewrite <- app_assoc.
      * by apply Sorted_app_replicate.
      * apply Forall_app. split; [eapply Forall_impl; [done|simpl; lia]|].
        apply Forall_replicate. lia.
      * intros v. rewrite count_occ_app, Hcnt, count_replicate.
        destruct (Z.eq_dec i v); repeat case_decide; subst; try lia; done.
  - intros [b' w] (_ & _ & ys & -> & Hs & Hf & Hcnt). exists ys. split; [|done].
    split; [|done]. apply (Permutation_count_occ Z.eq_dec). intros v. rewrite Hcnt.
    case_decide as Hv; [done|]. apply count_occ_not_In. intros Hin.
    rewrite List.Forall_forall in Hx. specialize (Hx v Hin). lia.
Qed.

(** countingSort.c: given a positive count and that many values between
    0 and INT_MAX - 1, main prints the values in order; each count fits an
    int and every index is inside the array of counters. *)
Theorem counting_main_correct (xs rest : list Z) (out : list piece) :
  0 < zlen xs <= INT_MAX -> Forall (fun x => 0 <= x < INT_MAX) xs ->
  exists ys, sorts xs ys /\
    main (Console (zlen xs :: xs ++ rest) out) =
      Ok (Console rest (out ++ concat (map fmt ys))).
Proof.
  intros Hn Hx. cut (wp (main (Console (zlen xs :: xs ++ rest) out)) (fun w =>
    exists ys, sorts xs ys /\ w = Console rest (out ++ concat (map fmt ys)))).
  { intros Hw. apply wp_exists in Hw as (w & E & ys & Hs & ->). eauto. }
  unfold main, vla, demand. simpl. rewrite (proj2 (Z.ltb_lt _ _)) by lia. simpl.
  destruct (read_max_spec xs rest out) as (l & -> & Hl & Hle & Hm). simpl.
  assert (l < INT_MAX).
  { destruct Hm as [->|Hm]; [done|]. rewrite Forall_forall in Hx. apply Hx in Hm. lia. }
  assert (Forall (fun x => 0 <= x <= l) xs) as Hx'.
  { apply Forall_forall. intros x Hin. rewrite Forall_forall in Hx, Hle.
    specialize (Hx x Hin). specialize (Hle x Hin). lia. }
  wp_step. wp_step. wp_step. eapply wp_mono; [apply wp_count; done || lia|].
  intros b (Hb & Hc). wp_step. eapply wp_mono; [by apply (wp_emit_all xs)|].
  intros [b' w] (ys & Hs & ->). simpl. eauto.
Qed.

Lemma counting_main_correct_witness :
  exists ys, sorts [4; 0; 4; 2] ys /\
    main (Console (zlen [4; 0; 4; 2] :: [4; 0; 4; 2] ++ []) []) =
      Ok (Console [] ([] ++ concat (map fmt ys))).
Proof.
  apply counting_main_correct; [vm_compute; done|].
  unfold INT_MAX. repeat constructor; lia.
Defined.

End CountingSort.
