(* ===== verification/CArray.v ===== *)
(** * CArray.c: the integer array with a size and return codes

    Every function of algorithms/c/data_structures/Array/CArray.c over the
    [struct CArray] of CArray.h, the operations as one step relation on the
    structure, and their properties: what each does to the contents, that
    the size is an invariant, and that the three sorts agree. *)

From S2P Require Import Prelude Arrays ExchangeSorts InsertionSorts.
Open Scope Z_scope.

Record CArray := MkCArray { array : list Z; size : Z }.

(** Return codes (CArray.h). *)
Definition SUCCESS : Z := 0.
Definition INVALID_POSITION : Z := 1.
Definition POSITION_INIT : Z := 2.
Definition POSITION_NOT_INIT : Z := 3.
Definition POSITION_EMPTY : Z := 4.
Definition ARRAY_FULL : Z := 5.

Definition set_array (c : CArray) (a : list Z) : CArray := MkCArray a (size c).

(** [position >= 0 && position < array->size] *)
Definition valid (c : CArray) (position : Z) : bool :=
  (position >=? 0) && (position <? size c).

Definition getCArray (size : Z) : res CArray :=
  let* a := for_up 0 size (fun i a => wr a i (Some 0)) (uninit size) in
  let* a := contents a in
  Ok (MkCArray a size).

Definition insertValueCArray (c : CArray) (position value : Z) : res (CArray * Z) :=
  if valid c position then
    let* x := rd (array c) position in
    if x =? 0 then
      let* a := wr (array c) position value in
      Ok (set_array c a, SUCCESS)
    else Ok (c, POSITION_INIT)
  else Ok (c, INVALID_POSITION).

(** A successful removal falls through to the last [return]. *)
Definition removeValueCArray (c : CArray) (position : Z) : res (CArray * Z) :=
  if valid c position then
    let* x := rd (array c) position in
    if negb (x =? 0) then
      let* a := wr (array c) position 0 in
      Ok (set_array c a, INVALID_POSITION)
    else Ok (c, POSITION_EMPTY)
  else Ok (c, INVALID_POSITION).

Definition pushValueCArray (c : CArray) (value : Z) : res (CArray * Z) :=
  let* x := for_exit 0 (size c) (fun i _ =>
    let* x := rd (array c) i in
    if x =? 0 then
      let* a := wr (array c) i value in
      Ok (inr a)
    else Ok (inl tt)) tt in
  match x with
  | inr a => Ok (set_array c a, SUCCESS)
  | inl _ => Ok (c, ARRAY_FULL)
  end.

(** The branch for an initialised position is empty. *)
Definition updateValueCArray (c : CArray) (position value : Z) : res (CArray * Z) :=
  if valid c position then
    let* x := rd (array c) position in
    if negb (x =? 0) then Ok (c, INVALID_POSITION)
    else Ok (c, POSITION_NOT_INIT)
  else Ok (c, INVALID_POSITION).

Definition eraseCArray (c : CArray) : res (CArray * Z) :=
  let* a := for_up 0 (size c) (fun i a => wr a i 0) (array c) in
  Ok (set_array c a, 0).

Definition switchValuesCArray (c : CArray) (position1 position2 : Z) : res (CArray * Z) :=
  if valid c position1 && valid c position2 then
    let* a := swap (array c) position1 position2 in
    Ok (set_array c a, INVALID_POSITION)
  else Ok (c, INVALID_POSITION).

Definition reverseCArray (c : CArray) : res (CArray * Z) :=
  let* a := for_up 0 (size c `quot` 2) (fun i a => swap a i (size c - i - 1)) (array c) in
  Ok (set_array c a, SUCCESS).

Definition displayCArray (c : CArray) (w : console) : res (console * Z) :=
  let w := printf [PStr "\nC ARRAY\n"] w in
  let* w := print_array (fun v => [PInt v; PStr " "]) (array c) (size c) w in
  Ok (printf [PStr "\n"] w, 0).

(** [rand] gives the results of the successive calls; the two calls of one
    [swap] are taken in this order. *)
Definition blenderCArray (rand : nat -> Z) (c : CArray) : res (CArray * Z) :=
  let* total := int (size c * 100) in
  let* a := for_up 0 total (fun i a =>
    let k := Z.to_nat (2 * i) in
    swap a (rand k `rem` size c) (rand (S k) `rem` size c)) (array c) in
  Ok (set_array c a, 0).

Definition getCopyCArray (arr : CArray) : res CArray :=
  let* a := for_up 0 (size arr) (fun i out =>
    let* x := rd (array arr) i in Ok (out ++ [x])) [] in
  Ok (MkCArray a (size arr)).

Definition bubbleSortCArray (c : CArray) : res (CArray * Z) :=
  let* a := for_up 0 (size c - 1) (fun i a =>
    for_up 0 (size c - i - 1) cmp_swap_up a) (array c) in
  Ok (set_array c a, 0).

(** The inner [for] of the selection sort: the index of the minimum. *)
Definition find_min (a : list Z) (i size : Z) : res Z :=
  for_up (i + 1) size (fun j min =>
    let* x := rd a j in
    let* y := rd a min in
    Ok (if x <? y then j else min)) i.

Definition selectionSortCArray (c : CArray) : res (CArray * Z) :=
  let* a := for_up 0 (size c - 1) (fun i a =>
    let* min := find_min a i (size c) in
    swap a min i) (array c) in
  Ok (set_array c a, 0).

(** Its loop body is that of InsertionSort.c (with the operands of the
    comparison written the other way round). *)
Definition insertionSortCArray (c : CArray) : res (CArray * Z) :=
  let* a := for_up 1 (size c) InsertionSort.insert_step (array c) in
  Ok (set_array c a, 0).

Definition valueOcurranceCArray (c : CArray) (value : Z) : res Z :=
  for_up 0 (size c) (fun i total =>
    let* x := rd (array c) i in
    Ok (if x =? value then total + 1 else total)) 0.

Definition valuePositionsCArray (c : CArray) (value : Z) : res CArray :=
  let* total := valueOcurranceCArray c value in
  let* result := getCArray total in
  let* (a, _) := for_up 0 (size c) (fun i '(a, j) =>
    let* x := rd (array c) i in
    if x =? value then
      let* a := wr a j i in
      Ok (a, j + 1)
    else Ok (a, j)) (array result, 0) in
  Ok (set_array result a).

Definition findMinCArray (c : CArray) : res Z :=
  let* min := rd (array c) 0 in
  for_up 1 (size c) (fun i min =>
    let* x := rd (array c) i in Ok (if x <? min then x else min)) min.

Definition findMaxCArray (c : CArray) : res Z :=
  let* max := rd (array c) 0 in
  for_up 1 (size c) (fun i max =>
    let* x := rd (array c) i in Ok (if x >? max then x else max)) max.

(** ** The operations as one step function *)

Inductive op :=
  | Insert (position value : Z)
  | Remove (position : Z)
  | Push (value : Z)
  | Update (position value : Z)
  | Erase
  | Switch (position1 position2 : Z)
  | Reverse
  | BubbleSort
  | SelectionSort
  | InsertionSort.

Definition run (o : op) (c : CArray) : res (CArray * Z) :=
  match o with
  | Insert p v => insertValueCArray c p v
  | Remove p => removeValueCArray c p
  | Push v => pushValueCArray c v
  | Update p v => updateValueCArray c p v
  | Erase => eraseCArray c
  | Switch p q => switchValuesCArray c p q
  | Reverse => reverseCArray c
  | BubbleSort => bubbleSortCArray c
  | SelectionSort => selectionSortCArray c
  | InsertionSort => insertionSortCArray c
  end.

(** The representation invariant: [size] cells are allocated. *)
Definition wf (c : CArray) : Prop := zlen (array c) = size c.

Lemma valid_spec c p : valid c p = true <-> 0 <= p < size c.
Proof. unfold valid. rewrite andb_true_iff, Z.geb_le, Z.ltb_lt. lia. Qed.

Ltac valid_case c p := let E := fresh "E" in
  destruct (valid c p) eqn:E; [apply valid_spec in E | simpl].

(** ** Filling loops *)

(** [for (i = 0; i < n; i++) a[i] = v;] over [n] cells. *)
Lemma wp_fill {A} `{Inhabited A} (a : list A) (v : A) :
  wp (for_up 0 (zlen a) (fun i a => wr a i v) a) (fun a' => a' = replicate (length a) v).
Proof.
  apply (wp_for_up (fun i a' => zlen a' = zlen a /\ forall p, 0 <= p < i -> a'.[p] = v)).
  - split; [done|intros; lia].
  - intros i a' Hi [Hl Hp]. wp_step. rewrite zlen_upd. split; [done|]. intros p Hp'.
    rewrite aget_upd by lia. case_decide; [done|]. apply Hp. lia.
  - intros a' [Hl Hp]. pose proof (zlen_nonneg a). rewrite Z.max_r in Hp by lia.
    apply aget_ext; unfold zlen in *; [by rewrite length_replicate|].
    intros i Hi. rewrite Hp by lia. unfold aget. by rewrite lookup_total_replicate_2 by lia.
Qed.

(** A loop that appends [f i] for each [i] builds the list of them. *)
Lemma wp_collect n (c : Z -> res Z) (f : Z -> Z) :
  0 <= n -> (forall i, 0 <= i < n -> c i = Ok (f i)) ->
  wp (for_up 0 n (fun i out => let* x := c i in Ok (out ++ [x])) []) (fun out =>
    zlen out = n /\ forall i, 0 <= i < n -> out.[i] = f i).
Proof.
  intros Hn Hc.
  apply (wp_for_up (fun i out => zlen out = i /\ forall p, 0 <= p < i -> out.[p] = f p)).
  - split; [done|intros; lia].
  - intros i out Hi [Hl Hp]. rewrite Hc by lia. simpl. rewrite zlen_snoc. split; [lia|].
    intros p Hp'. destruct (decide (p < i)).
    + rewrite aget_app_l by lia. apply Hp. lia.
    + rewrite aget_app_r by lia. replace p with i by lia. by rewrite Hl, Z.sub_diag.
  - rewrite Z.max_r by lia. done.
Qed.

Lemma wp_getCArray n :
  0 <= n -> wp (getCArray n) (fun c => c = MkCArray (replicate (Z.to_nat n) 0) n).
Proof.
  intros Hn. unfold getCArray.
  assert (zlen (uninit n) = n) as Hu by (by apply zlen_replicate).
  wp_step. rewrite <- Hu at 1. eapply wp_mono; [apply wp_fill|]. intros a ->.
  replace (length (uninit n)) with (Z.to_nat n) by (unfold zlen in Hu; lia).
  replace (replicate (Z.to_nat n) (Some 0)) with (map Some (replicate (Z.to_nat n) 0))
    by apply fmap_replicate.
  by rewrite contents_Some.
Qed.

Lemma getCopy_eq c : wf c -> getCopyCArray c = Ok c.
Proof.
  intros Hw. unfold wf in Hw. destruct c as [a n]. simpl in Hw.
  cut (wp (getCopyCArray (MkCArray a n)) (eq (MkCArray a n))).
  { intros H. destruct (getCopyCArray _); simpl in H; [by subst|done]. }
  unfold getCopyCArray. simpl. wp_step.
  eapply wp_mono; [apply (wp_collect n _ (fun i => a.[i])); [pose proof (zlen_nonneg a); lia|]|].
  - intros i Hi. by rewrite rd_Ok by lia.
  - intros out [Hl Ho]. wp_step. f_equal. apply aget_ext; [lia|]. intros i Hi. by rewrite Ho by lia.
Qed.

(** ** The sorts *)

Lemma wp_bubbleSortCArray c :
  wf c -> wp (bubbleSortCArray c) (fun '(c', code) =>
    code = 0 /\ size c' = size c /\ sorts (array c) (array c')).
Proof.
  intros Hw. unfold bubbleSortCArray, wf in *. wp_step.
  pose proof (zlen_nonneg (array c)).
  apply (wp_for_up (fun i a => Permutation a (array c) /\ zlen a = size c /\
    settled a 0 (size c - i))).
  - split_and!; [done..|]. rewrite Z.sub_0_r, <- Hw. apply settled_start.
  - intros i a Hi (Hp & Hl & Hs).
    eapply wp_mono; [apply (wp_pass_up a 0 (size c - i)); done || lia|].
    intros a' (Hp' & Hl' & Hs'). split_and!; [by rewrite Hp'|lia|].
    by replace (size c - (i + 1)) with (size c - i - 1) by lia.
  - intros a (Hp & Hl & Hs). wp_step. split_and!; [done..|]. apply sorts_intro; [done|].
    eapply settled_sorted; [exact Hs|]. lia.
Qed.

Lemma wp_find_min a i n (Q : Z -> Prop) :
  0 <= i < n -> n <= zlen a ->
  (forall m, i <= m < n -> (forall p, i <= p < n -> a.[m] <= a.[p]) -> Q m) ->
  wp (find_min a i n) Q.
Proof.
  intros Hi Hn HQ. unfold find_min.
  apply (wp_for_up (fun j m => i <= m < j /\ forall p, i <= p < j -> a.[m] <= a.[p])).
  - split; [lia|]. intros p Hp. by replace p with i by lia.
  - intros j m Hj [Hm Hmin]. wp_steps. destruct (Z.ltb_spec a.[j] a.[m]).
    + split; [lia|]. intros p Hp. destruct (decide (p = j)) as [->|]; [done|].
      transitivity a.[m]; [lia|apply Hmin; lia].
    + split; [lia|]. intros p Hp. destruct (decide (p = j)) as [->|]; [done|]. apply Hmin. lia.
  - rewrite Z.max_r by lia. intros m [Hm Hmin]. by apply HQ.
Qed.

(** Exchanging the minimum of the rest into place settles one more cell. *)
Lemma settled_select a i m :
  settled a i (zlen a) -> 0 <= i <= m -> m < zlen a ->
  (forall p, i <= p < zlen a -> a.[m] <= a.[p]) ->
  settled (exchange a m i) (i + 1) (zlen a).
Proof.
  intros Hs Hi Hm Hmin p q Hp Hpq Hq Hw. rewrite zlen_exchange in Hq.
  rewrite !aget_exchange by lia. repeat case_decide; subst; try lia;
    first [apply Hmin; lia | apply Hs; lia].
Qed.

Lemma wp_selectionSortCArray c :
  wf c -> wp (selectionSortCArray c) (fun '(c', code) =>
    code = 0 /\ size c' = size c /\ sorts (array c) (array c')).
Proof.
  intros Hw. unfold selectionSortCArray, wf in *. wp_step.
  pose proof (zlen_nonneg (array c)).
  apply (wp_for_up (fun i a => Permutation a (array c) /\ zlen a = size c /\
    settled a i (size c))).
  - split_and!; [done..|]. rewrite <- Hw. apply settled_start.
  - intros i a Hi (Hp & Hl & Hs). wp_step. apply wp_find_min; [lia..|].
    intros m Hm Hmin. wp_step. split_and!; [|by rewrite zlen_exchange|].
    + etransitivity; [|exact Hp]. apply Permutation_exchange; lia.
    + rewrite <- Hl in *. apply settled_select; done || lia.
  - intros a (Hp & Hl & Hs). wp_step. split_and!; [done..|]. apply sorts_intro; [done|].
    rewrite <- Hl in Hs. eapply settled_sorted; [exact Hs|]. lia.
Qed.

Lemma wp_insertionSortCArray c :
  wf c -> wp (insertionSortCArray c) (fun '(c', code) =>
    code = 0 /\ size c' = size c /\ sorts (array c) (array c')).
Proof.
  intros Hw. unfold insertionSortCArray. wp_step. rewrite <- Hw.
  eapply wp_mono; [apply InsertionSort.wp_linear_insertion_sort|].
  intros a Hs. wp_step. done.
Qed.

(** The three sorts of CArray.c are interchangeable: on every
    well-formed array each returns code 0 and the same sorted
    rearrangement, so bubble, selection and insertion sort agree. *)
Theorem CArray_sorts_agree (c : CArray) :
  wf c ->
  exists c', sorts (array c) (array c') /\ wf c' /\
    bubbleSortCArray c = Ok (c', 0) /\
    selectionSortCArray c = Ok (c', 0) /\
    insertionSortCArray c = Ok (c', 0).
Proof.
  intros Hw.
  destruct (proj1 (wp_exists _ _) (wp_bubbleSortCArray c Hw)) as ([c1 k1] & E1 & -> & Z1 & S1).
  destruct (proj1 (wp_exists _ _) (wp_selectionSortCArray c Hw)) as ([c2 k2] & E2 & -> & Z2 & S2).
  destruct (proj1 (wp_exists _ _) (wp_insertionSortCArray c Hw)) as ([c3 k3] & E3 & -> & Z3 & S3).
  assert (c2 = c1) as -> by (destruct c1, c2; simpl in *; f_equal; [by eapply sorts_unique|lia]).
  assert (c3 = c1) as -> by (destruct c1, c3; simpl in *; f_equal; [by eapply sorts_unique|lia]).
  exists c1. split_and!; [done| |done..]. unfold wf in *.
  rewrite Z1, <- Hw. symmetry. apply zlen_Permutation, S1.
Qed.

Lemma CArray_sorts_agree_witness :
  exists c', sorts [3; 1; 2] (array c') /\ wf c' /\
    bubbleSortCArray (MkCArray [3; 1; 2] 3) = Ok (c', 0) /\
    selectionSortCArray (MkCArray [3; 1; 2] 3) = Ok (c', 0) /\
    insertionSortCArray (MkCArray [3; 1; 2] 3) = Ok (c', 0).
Proof. apply (CArray_sorts_agree (MkCArray [3; 1; 2] 3)). reflexivity. Defined.

(** ** Reversal *)

Lemma aget_reverse (a : list Z) i : 0 <= i < zlen a -> (reverse a).[i] = a.[zlen a - 1 - i].
Proof.
  intros Hi. unfold aget, zlen in *. apply list_lookup_total_correct.
  rewrite reverse_lookup by lia. rewrite (list_lookup_lookup_total_lt a) by lia.
  f_equal. f_equal. lia.
Qed.

Lemma wp_reverseCArray c :
  wf c -> wp (reverseCArray c) (fun '(c', code) =>
    code = SUCCESS /\ c' = MkCArray (reverse (array c)) (size c)).
Proof.
  intros Hw. unfold reverseCArray, wf in *. wp_step. set (a0 := array c) in *.
  pose proof (zlen_nonneg a0).
  apply (wp_for_up (fun i a => zlen a = size c /\
    (forall p, 0 <= p < size c -> p < i \/ size c - i <= p -> a.[p] = a0.[size c - 1 - p]) /\
    (forall p, i <= p < size c - i -> a.[p] = a0.[p]))).
  - split_and!; [done|intros; lia|done].
  - intros i a Hi (Hl & Hdone & Hrest). assert (i < size c - i - 1) by div_lia.
    wp_step. rewrite zlen_exchange. split_and!; [done|..].
    + intros p Hp Hc. rewrite aget_exchange by lia. repeat case_decide; subst; try lia.
      * rewrite Hrest by lia. f_equal. lia.
      * rewrite Hrest by lia. f_equal. lia.
      * apply Hdone; lia.
    + intros p Hp. rewrite aget_exchange by lia. repeat case_decide; try lia. apply Hrest. lia.
  - intros a (Hl & Hdone & Hrest). wp_step. split; [done|]. unfold set_array. f_equal.
    apply aget_ext; [unfold zlen in *; rewrite length_reverse; lia|].
    intros i Hi. rewrite aget_reverse by lia. fold a0. rewrite Hw.
    destruct (decide (i = size c - 1 - i)) as [E|E].
    + rewrite <- E. apply Hrest. div_lia.
    + apply Hdone; [lia|]. div_lia.
Qed.

(** ** Every operation is total on well-formed arrays *)

Lemma wp_run o c :
  wf c -> wp (run o c) (fun '(c', _) => wf c' /\ size c' = size c).
Proof.
  intros Hw. pose proof Hw as Hw0. unfold wf in Hw. pose proof (zlen_nonneg (array c)).
  destruct o as [p v|p|v|p v| |p q| | | |]; simpl.
  - unfold insertValueCArray. valid_case c p; [|done]. wp_steps; [|done].
    unfold wf; simpl. by rewrite zlen_upd.
  - unfold removeValueCArray. valid_case c p; [|done]. wp_steps; [done|].
    unfold wf; simpl. by rewrite zlen_upd.
  - unfold pushValueCArray. wp_step.
    apply (wp_for_exit (fun _ _ => True)); [done| |done].
    intros i _ Hi _. wp_steps; [|done]. unfold wf; simpl. by rewrite zlen_upd.
  - unfold updateValueCArray. valid_case c p; [|done]. by wp_steps.
  - unfold eraseCArray. rewrite <- Hw. wp_step. eapply wp_mono; [apply wp_fill|].
    intros a ->. wp_step. unfold wf; simpl. split; [|done].
    unfold zlen in *. by rewrite length_replicate.
  - unfold switchValuesCArray. valid_case c p; [|done]. simpl.
    valid_case c q; [|done]. wp_steps. unfold wf; simpl. by rewrite zlen_exchange.
  - eapply wp_mono; [by apply wp_reverseCArray|]. intros [c' k] [_ ->]. unfold wf; simpl.
    unfold zlen in *. by rewrite length_reverse.
  - eapply wp_mono; [by apply wp_bubbleSortCArray|]. intros [c' k] (_ & E & Hs & _).
    unfold wf. rewrite E. split; [|done]. by rewrite <- Hs.
  - eapply wp_mono; [by apply wp_selectionSortCArray|]. intros [c' k] (_ & E & Hs & _).
    unfold wf. rewrite E. split; [|done]. by rewrite <- Hs.
  - eapply wp_mono; [by apply wp_insertionSortCArray|]. intros [c' k] (_ & E & Hs & _).
    unfold wf. rewrite E. split; [|done]. by rewrite <- Hs.
Qed.

(** A client's sequence of calls, with the codes they returned. *)
Fixpoint run_all (os : list op) (c : CArray) : res (CArray * list Z) :=
  match os with
  | [] => Ok (c, [])
  | o :: os =>
      let* (c, code) := run o c in
      let* (c, codes) := run_all os c in
      Ok (c, code :: codes)
  end.

(** An array obtained from getCArray stays well formed: any sequence
    of the structure's operations runs to its end without leaving the
    array, whatever positions and values it is called with, and never
    changes the size. *)
Theorem CArray_ops_safe (n : Z) (os : list op) :
  0 <= n ->
  exists c c' codes, getCArray n = Ok c /\ run_all os c = Ok (c', codes) /\
    wf c' /\ size c' = n /\ length codes = length os.
Proof.
  intros Hn. destruct (proj1 (wp_exists _ _) (wp_getCArray n Hn)) as (c & E & Hc).
  exists c. assert (wf c /\ size c = n) as [Hw Hs].
  { subst c. unfold wf. simpl. by rewrite zlen_replicate. }
  clear Hc. cut (wp (run_all os c) (fun '(c', codes) =>
    wf c' /\ size c' = n /\ length codes = length os)).
  { intros H. apply wp_exists in H as ([c' codes] & ? & ?). eauto 6. }
  clear E. revert c Hw Hs. induction os as [|o os IH]; intros c Hw Hs; simpl; [done|].
  wp_step. eapply wp_mono; [by apply wp_run|]. intros [c1 k] [Hw1 Hs1]. wp_step.
  eapply wp_mono; [apply IH; [done|lia]|]. intros [c' codes] (? & ? & ?). simpl. auto.
Qed.

Lemma CArray_ops_safe_witness :
  exists c c' codes, getCArray 4 = Ok c /\
    run_all [Insert 2 7; Insert 9 1; Push 3; Remove 2; Reverse; SelectionSort] c = Ok (c', codes) /\
    wf c' /\ size c' = 4 /\
    length codes = length [Insert 2 7; Insert 9 1; Push 3; Remove 2; Reverse; SelectionSort].
Proof. apply CArray_ops_safe. lia. Defined.

(** A removal that happens reports INVALID_POSITION, the code of one that
    does not; and an update of an initialised cell changes nothing. *)
Theorem removeValue_code (c : CArray) (position : Z) :
  wf c -> 0 <= position < size c -> (array c).[position] <> 0 ->
  removeValueCArray c position = Ok (set_array c (upd (array c) position 0), INVALID_POSITION).
Proof.
  intros Hw Hp Hx. unfold removeValueCArray, wf in *.
  rewrite (proj2 (valid_spec c position) Hp), rd_Ok by lia. simpl.
  rewrite (proj2 (Z.eqb_neq _ _) Hx). simpl. by rewrite wr_Ok by lia.
Qed.

Theorem updateValue_noop (c : CArray) (position value : Z) :
  wf c -> exists code, updateValueCArray c position value = Ok (c, code) /\ code <> SUCCESS.
Proof.
  intros Hw. unfold updateValueCArray, wf in *. destruct (valid c position) eqn:E; [|eexists; split; done].
  apply valid_spec in E. rewrite rd_Ok by lia. simpl.
  destruct (_ =? 0); eexists; split; done.
Qed.
