(* ===== verification/Searching.v ===== *)
(** * The searching programs of algorithms/c/searching

    LinearSearch.c, interpolation_search.c (whose loop is a linear scan),
    Binary_Search.c, Other_Binary_Search.c, Jump_Search.c and
    fibonacciSearch.c over arrays, and modifiedBinarySearch.c over a sorted
    matrix.  [Search] is the contract the array searches share; each is an
    instance of it on its own domain, and a client is proved against it. *)

From S2P Require Import Prelude Arrays.
Open Scope Z_scope.

(** ** The contract of a search *)

(** [r] is the answer for [x] in [a]: an index that holds [x], or -1 when no
    cell does. *)
Definition found (a : list Z) (x r : Z) : Prop :=
  (0 <= r < zlen a /\ a.[r] = x) \/ (r = -1 /\ x ∉ a).

Class Search (search : list Z -> Z -> res Z) (dom : list Z -> Z -> Prop) : Prop :=
  search_found a x : dom a x -> wp (search a x) (found a x).

Lemma found_iff a x r : found a x r -> (x ∈ a <-> r <> -1).
Proof.
  intros [[Hr <-]|[-> Hn]]; split; try done; [lia|]. intros _. by apply aget_elem.
Qed.

(** Any two searches give the same verdict where both apply. *)
Lemma search_agree `{Search f P, Search g Q} a x :
  P a x -> Q a x ->
  exists r r', f a x = Ok r /\ g a x = Ok r' /\ (r = -1 <-> r' = -1) /\
    (x ∈ a <-> r <> -1).
Proof.
  intros HP HQ.
  destruct (proj1 (wp_exists _ _) (search_found (search := f) a x HP)) as (r & Ef & Hr).
  destruct (proj1 (wp_exists _ _) (search_found (search := g) a x HQ)) as (r' & Eg & Hr').
  exists r, r'. apply found_iff in Hr. apply found_iff in Hr'.
  split_and!; [done..| |done]. destruct (decide (x ∈ a)) as [Hx|Hx]; [tauto|].
  destruct (decide (r = -1)), (decide (r' = -1)); tauto.
Qed.

Lemma not_elem a (x : Z) : (forall p, 0 <= p < zlen a -> a.[p] <> x) -> x ∉ a.
Proof. intros H Hx. apply elem_aget in Hx as (i & Hi & E). by apply (H i). Qed.

(** ** LinearSearch.c and interpolation_search.c *)

Module LinearSearch.

Definition linearsearch (arr : list Z) (size val : Z) : res Z :=
  let* x := for_exit 0 size (fun i _ =>
    let* v := rd arr i in
    Ok (if v =? val then inr 1 else inl tt)) tt in
  match x with
  | inr r => Ok r
  | inl _ => Ok 0
  end.

Definition main (w : console) : res console :=
  let w := printf [PStr "Enter the size of the array:\n"] w in
  let* (s, w) := scanf w in
  let* _ := vla s in
  let w := printf [PStr "Enter the contents for an array of size "; PInt s; PStr ":\n"] w in
  let* (a, w) := read_array s w in
  let w := printf [PStr "Enter the value to be searched:\n"] w in
  let* (v, w) := scanf w in
  let* b := linearsearch a s v in
  Ok (if negb (b =? 0)
      then printf [PStr "Value "; PInt v; PStr " is in the array.\n"] w
      else printf [PStr "Value "; PInt v; PStr " is not in the array.\n"] w).

Lemma wp_linearsearch a x :
  wp (linearsearch a (zlen a) x) (fun r => r = if decide (x ∈ a) then 1 else 0).
Proof.
  unfold linearsearch. wp_step. pose proof (zlen_nonneg a).
  apply (wp_for_exit (fun i _ => forall p, 0 <= p < i -> a.[p] <> x)).
  - intros; lia.
  - intros i _ Hi Hp. wp_steps. destruct (Z.eqb_spec a.[i] x) as [E|E].
    + simpl. rewrite decide_True; [done|]. rewrite <- E. by apply aget_elem.
    + intros p Hp'. destruct (decide (p = i)) as [->|]; [done|]. apply Hp. lia.
  - intros _ Hp. simpl. rewrite decide_False; [done|]. apply not_elem.
    intros p Hp'. apply Hp. lia.
Qed.

End LinearSearch.

Module InterpolationSearch.

(** [while (q < n) { if (arr[q] == x) return q; q++; }] *)
Definition interpolationSearch (arr : list Z) (n x : Z) : res Z :=
  loop (S (Z.to_nat n)) (fun q =>
    if q <? n then
      let* v := rd arr q in
      if v =? x then Ok (inr q) else
      let* q := int (q + 1) in Ok (inl q)
    else Ok (inr (-1))) 0.

Definition table : list Z := [10; 12; 13; 16; 18; 19; 20; 21; 22; 23; 24; 33; 35; 42; 47].

Definition main (w : console) : res console :=
  let w := printf [PStr "Enter the no, to be searched"] w in
  let* (x, w) := scanf w in
  let* index := interpolationSearch table (zlen table) x in
  if negb (index =? -1) then
    let* p := int (index + 1) in
    Ok (printf [PStr "Element found at position "; PInt p] w)
  else Ok (printf [PStr "Element not found."] w).

#[export] Instance interpolation_Search :
  Search (fun a => interpolationSearch a (zlen a)) (fun a _ => zlen a <= INT_MAX).
Proof.
  intros a x Hn. unfold interpolationSearch. pose proof (zlen_nonneg a).
  apply (wp_loop (fun q => 0 <= q <= zlen a /\ forall p, 0 <= p < q -> a.[p] <> x)
                 (fun q => zlen a - q)); [split; [lia|intros; lia]|lia|intros q [? _]; lia|].
  intros q [Hq Hp]. wp_steps.
  - left. split; [lia|done].
  - split; [|lia]. split; [lia|]. intros p Hp'.
    destruct (decide (p = q)) as [->|]; [done|]. apply Hp. lia.
  - right. split; [done|]. apply not_elem. intros p Hp'. apply Hp. lia.
Qed.

End InterpolationSearch.

(** ** Binary_Search.c and Other_Binary_Search.c *)

Module BinarySearch.

Fixpoint binarysearch (fuel : nat) (arr : list Z) (l r x : Z) : res Z :=
  match fuel with
  | O => Fail NoFuel
  | S fuel =>
      if r >=? l then
        let* d := int (r - l) in
        let* mid := int (l + d `quot` 2) in
        let* v := rd arr mid in
        if v =? x then Ok mid else
        let* v := rd arr mid in
        if v >? x then binarysearch fuel arr l (mid - 1) x
        else binarysearch fuel arr (mid + 1) r x
      else Ok (-1)
  end.

(** The call of [main]: [binarysearch(arr, 0, n-1, x)]. *)
Definition search (arr : list Z) (x : Z) : res Z :=
  binarysearch (S (length arr)) arr 0 (zlen arr - 1) x.

Definition main (w : console) : res console :=
  let* result := search [2; 3; 4; 10; 40] 10 in
  Ok (if result =? -1 then printf [PStr "Element is not in the array\n"] w
      else printf [PStr "Element is present at index "; PInt result; PStr "\n"] w).

(** Halving keeps the cells that can hold [x] inside the range. *)
Lemma wp_binarysearch fuel a l r x :
  ascending a -> zlen a <= INT_MAX -> 0 <= l -> r < zlen a -> Z.max 0 (r - l + 1) < Z.of_nat fuel ->
  (forall p, 0 <= p < zlen a -> a.[p] = x -> l <= p <= r) ->
  wp (binarysearch fuel a l r x) (found a x).
Proof.
  intros Ha Hn. revert l r.
  induction fuel as [|fuel IH]; intros l r Hl Hr Hf Hx; [lia|]. simpl. code_case.
  - wp_step. apply wp_int; [code_lia|]. assert (l <= l + (r - l) `quot` 2 <= r) as Hm by div_lia.
    set (mid := l + (r - l) `quot` 2) in *. wp_steps.
    + left. split; [lia|done].
    + apply IH; [lia..|]. intros p Hp E. specialize (Hx p Hp E).
      destruct (decide (p <= mid - 1)); [lia|]. specialize (Ha mid p). lia.
    + apply IH; [lia..|]. intros p Hp E. specialize (Hx p Hp E).
      destruct (decide (mid + 1 <= p)); [lia|]. specialize (Ha p mid). lia.
  - right. split; [done|]. apply not_elem. intros p Hp E. specialize (Hx p Hp E). lia.
Qed.

#[export] Instance binary_Search :
  Search search (fun a _ => ascending a /\ zlen a <= INT_MAX).
Proof.
  intros a x [Ha Hn]. apply wp_binarysearch; [done..|lia| |intros; lia]; unfold zlen; lia.
Qed.

End BinarySearch.

Module OtherBinarySearch.

(** The [for] counts to the length whether or not the range is empty, and
    the function ends without a [return] when it does. *)
Definition binarySearch (array : list Z) (leng searchX : Z) : res Z :=
  let* right' := int (leng - 1) in
  let* x := for_exit 0 leng (fun _ '(left', right') =>
    let* s := int (left' + right') in
    let pos := s `quot` 2 in
    let* v := rd array pos in
    if v =? searchX then Ok (inr pos) else
    let* v := rd array pos in
    if v <? searchX then Ok (inl (pos + 1, right'))
    else Ok (inl (left', pos - 1))) (0, right') in
  match x with
  | inr pos => Ok pos
  | inl _ => Fail NoReturn
  end.

Definition main (w : console) : res console :=
  let* position := binarySearch [5; 8; 10; 14; 16] 5 5 in
  Ok (if position <? 0 then printf [PStr "The number "; PInt 5; PStr " doesnt exist in array\n"] w
      else printf [PStr "The number "; PInt 5; PStr " exist in array at position : ";
                   PInt position; PStr " \n"] w).

(** The range after [i] turns: it still holds every cell equal to [x], and
    it is empty or has at most [leng - i] cells; the midpoint never leaves
    the array, even when the range is empty. *)
Definition range (a : list Z) (x i : Z) '(left', right') : Prop :=
  0 <= left' <= zlen a /\ -1 <= right' < zlen a /\ left' <= right' + 1 /\
  (right' - left' + 1 <= zlen a - i \/ left' = right' + 1) /\
  (forall p, 0 <= p < left' -> a.[p] < x) /\ (forall p, right' < p < zlen a -> x < a.[p]).

Lemma range_step a x i l r :
  ascending a -> zlen a <= 1073741824 -> 0 < zlen a -> range a x i (l, r) ->
  0 <= (l + r) `quot` 2 < zlen a /\
  (a.[(l + r) `quot` 2] < x -> range a x (i + 1) ((l + r) `quot` 2 + 1, r)) /\
  (x < a.[(l + r) `quot` 2] -> range a x (i + 1) (l, (l + r) `quot` 2 - 1)).
Proof.
  intros Ha Hn Hpos (Hl & Hr & Hlr & Hw & Hlo & Hhi).
  assert (0 <= (l + r) `quot` 2 < zlen a /\
    (l <= r -> l <= (l + r) `quot` 2 <= r) /\
    (l = r + 1 -> (l + r) `quot` 2 = r \/ r = -1 /\ (l + r) `quot` 2 = 0)) as (Hm & Hin & Hout)
    by div_lia.
  set (m := (l + r) `quot` 2) in *. split; [done|]. split; intros Hx; unfold range.
  - destruct (decide (l = r + 1)) as [E|E].
    + destruct (Hout E) as [->|[-> ->]]; [|specialize (Hhi 0); lia].
      split_and!; try lia; intros p Hp; first [apply Hlo; lia | apply Hhi; lia].
    + split_and!; try lia; intros p Hp; [specialize (Ha p m); lia | apply Hhi; lia].
  - destruct (decide (l = r + 1)) as [E|E].
    + destruct (Hout E) as [Em|[-> ->]]; [specialize (Hlo m); lia|].
      split_and!; try lia; intros p Hp; first [apply Hlo; lia | apply Hhi; lia].
    + split_and!; try lia; intros p Hp; [apply Hlo; lia | specialize (Ha m p); lia].
Qed.

Lemma wp_other_binarySearch a x :
  ascending a -> zlen a <= 1073741824 -> x ∈ a ->
  wp (binarySearch a (zlen a) x) (fun r => 0 <= r < zlen a /\ a.[r] = x).
Proof.
  intros Ha Hn Hx. unfold binarySearch. apply elem_aget in Hx as (q & Hq & Eq).
  wp_steps. apply (wp_for_exit (range a x)).
  - unfold range. split_and!; try lia; intros; lia.
  - intros i [l r] Hi HI. pose proof HI as (?&?&?&?&?&?).
    destruct (range_step a x i l r) as (Hm & Hright & Hleft); [done..|lia|done|]. wp_steps.
    + split; [lia|done].
    + by apply Hright.
    + apply Hleft. lia.
  - intros [l r] (?&?&?& Hw & Hlo & Hhi). exfalso. specialize (Hlo q). specialize (Hhi q). lia.
Qed.

(** For a value that is not in the array the loop runs out and control
    reaches the end of the function. *)
Lemma other_binarySearch_absent a x :
  ascending a -> 0 < zlen a <= 1073741824 -> x ∉ a ->
  binarySearch a (zlen a) x = Fail NoReturn.
Proof.
  intros Ha Hn Hx. unfold binarySearch. rewrite int_Ok by code_lia. simpl.
  match goal with |- context [for_exit ?lo ?hi ?b ?s] =>
    cut (wp (for_exit lo hi b s) (fun o => exists s', o = inl s')) end.
  { intros H. apply wp_exists in H as (o & -> & s' & ->). done. }
  apply (wp_for_exit (range a x)); [|..|eauto].
  - unfold range. split_and!; try lia; intros; lia.
  - intros i [l r] Hi HI. pose proof HI as (?&?&?&?&?&?).
    destruct (range_step a x i l r) as (Hm & Hright & Hleft); [done|lia..|done|]. wp_steps.
    + exfalso. apply Hx. subst x. apply aget_elem. lia.
    + by apply Hright.
    + apply Hleft. lia.
Qed.

End OtherBinarySearch.

(** ** Jump_Search.c *)

Module JumpSearch.

(** [floor(sqrt(n))] for an [int] [n]: the double square root is correctly
    rounded, so its floor is the integer square root. *)
Definition floor_sqrt (n : Z) : Z := Z.sqrt n.

(** The first [while]: jump until the block's last cell is not below [x].
    [None] is the [return -1] inside it. *)
Definition jump (arr : list Z) (n x : Z) : res (option (Z * Z)) :=
  loop (S (Z.to_nat n)) (fun '(prev, step) =>
    let* v := rd arr (Z.min step n - 1) in
    if v <? x then
      let prev := step in
      let* step := int (step + floor_sqrt n) in
      if prev >=? n then Ok (inr None) else Ok (inl (prev, step))
    else Ok (inr (Some (prev, step)))) (0, floor_sqrt n).

(** The second [while]: walk through the block. *)
Definition walk (arr : list Z) (n x prev step : Z) : res (option Z) :=
  loop (S (Z.to_nat n)) (fun prev =>
    let* v := rd arr prev in
    if v <? x then
      let* prev := int (prev + 1) in
      if prev =? Z.min step n then Ok (inr None) else Ok (inl prev)
    else Ok (inr (Some prev))) prev.

(** The global [n] is the length of the array. *)
Definition jump_search (arr : list Z) (n x : Z) : res Z :=
  let* o := jump arr n x in
  match o with
  | None => Ok (-1)
  | Some (prev, step) =>
      let* o := walk arr n x prev step in
      match o with
      | None => Ok (-1)
      | Some prev =>
          let* v := rd arr prev in
          Ok (if v =? x then prev else -1)
      end
  end.

Definition main (w : console) : res console :=
  let arr := [0; 1; 1; 2; 3; 5; 8; 13; 21; 34; 55; 89; 144; 233; 377; 610] in
  let* index := jump_search arr (zlen arr) 55 in
  Ok (printf [PStr "\nNumber "; PInt 55; PStr " is at index "; PInt index; PStr "\n"] w).

Section jump_search.
Context (a : list Z) (x : Z).
Context (Ha : ascending a) (Hn : 0 < zlen a <= 1073741824).

Lemma floor_sqrt_bounds : 1 <= floor_sqrt (zlen a) <= 32768.
Proof.
  unfold floor_sqrt. destruct (Z.sqrt_spec (zlen a)) as [H1 H2]; [lia|].
  pose proof (Z.sqrt_nonneg (zlen a)). nia.
Qed.

Lemma wp_jump :
  wp (jump a (zlen a) x) (fun o =>
    match o with
    | None => forall p, 0 <= p < zlen a -> a.[p] < x
    | Some (prev, step) =>
        0 <= prev < Z.min step (zlen a) /\ (forall p, 0 <= p < prev -> a.[p] < x) /\
        x <= a.[Z.min step (zlen a) - 1]
    end).
Proof.
  pose proof floor_sqrt_bounds as Hs. unfold jump. set (s := floor_sqrt (zlen a)) in *.
  apply (wp_loop (fun '(prev, step) => 0 <= prev < zlen a /\ step = prev + s /\
    forall p, 0 <= p < prev -> a.[p] < x) (fun '(prev, _) => zlen a - prev)).
  - split_and!; [lia..|intros; lia].
  - lia.
  - intros [prev step] (? & ? & ?). lia.
  - intros [prev step] (Hp & -> & Hlt).
    assert (forall p, 0 <= p < Z.min (prev + s) (zlen a) ->
      a.[Z.min (prev + s) (zlen a) - 1] < x -> a.[p] < x) as Hblk.
    { intros p Hp' Hx. specialize (Ha p (Z.min (prev + s) (zlen a) - 1)). lia. }
    wp_steps.
    + intros p Hp'. apply Hblk; [lia|done].
    + split_and!; [lia..| |lia]. intros p Hp'. apply Hblk; [lia|done].
    + split_and!; [lia..|done|lia].
Qed.

Lemma wp_walk prev step :
  0 <= prev < Z.min step (zlen a) -> (forall p, 0 <= p < prev -> a.[p] < x) ->
  x <= a.[Z.min step (zlen a) - 1] ->
  wp (walk a (zlen a) x prev step) (fun o =>
    exists q, o = Some q /\ 0 <= q < zlen a /\ x <= a.[q] /\ forall p, 0 <= p < q -> a.[p] < x).
Proof.
  intros Hp Hlt Hge. unfold walk.
  apply (wp_loop (fun q => 0 <= q < Z.min step (zlen a) /\ forall p, 0 <= p < q -> a.[p] < x)
                 (fun q => zlen a - q)); [done|lia|intros q [? _]; lia|].
  intros q [Hq Hlt']. wp_steps.
  - exfalso. replace q with (Z.min step (zlen a) - 1) in * by lia. lia.
  - split; [|lia]. split; [lia|]. intros p Hp'.
    destruct (decide (p = q)) as [->|]; [done|]. apply Hlt'. lia.
  - exists q. split_and!; [done|lia..|done].
Qed.
End jump_search.

#[export] Instance jump_Search :
  Search (fun a => jump_search a (zlen a)) (fun a _ => ascending a /\ 0 < zlen a <= 1073741824).
Proof.
  intros a x [Ha Hn]. unfold jump_search. wp_step.
  eapply wp_mono; [by apply wp_jump|]. intros [[prev step]|] Ho.
  - destruct Ho as (Hp & Hlt & Hge). wp_step. eapply wp_mono; [by apply wp_walk|].
    intros o (q & -> & Hq & Hge' & Hlt'). wp_steps. destruct (Z.eqb_spec a.[q] x) as [E|E].
    + by left.
    + right. split; [done|]. apply not_elem. intros p Hp' E'.
      destruct (decide (p < q)); [specialize (Hlt' p); lia|]. specialize (Ha q p). lia.
  - right. split; [done|]. apply not_elem. intros p Hp E. specialize (Ho p Hp). lia.
Qed.

End JumpSearch.

(** ** fibonacciSearch.c *)

Module FibonacciSearch.

Record window := Window { fibMMm2 : Z; fibMMm1 : Z; fibM : Z; offset : Z }.

(** The first [while]: the smallest Fibonacci number not below [n]. *)
Definition grow (n : Z) : res (Z * Z * Z) :=
  while (S (Z.to_nat n)) (fun '(_, _, fibM) => Ok (fibM <? n))
    (fun '(fibMMm2, fibMMm1, fibM) =>
       let fibMMm2 := fibMMm1 in
       let fibMMm1 := fibM in
       let* fibM := int (fibMMm2 + fibMMm1) in
       Ok (fibMMm2, fibMMm1, fibM)) (0, 1, 1).

(** One turn of the second [while]; [inr (inr i)] is its [return i]. *)
Definition probe (arr : list Z) (x n : Z) (s : window) : res (window + (window + Z)) :=
  if fibM s >? 1 then
    let* i := int (offset s + fibMMm2 s) in
    let i := if i <? n - 1 then i else n - 1 in
    let* v := rd arr i in
    if v <? x then
      let fibM := fibMMm1 s in
      let fibMMm1 := fibMMm2 s in
      Ok (inl (Window (fibM - fibMMm1) fibMMm1 fibM i))
    else
      let* v := rd arr i in
      if v >? x then
        let fibM := fibMMm2 s in
        let fibMMm1 := fibMMm1 s - fibMMm2 s in
        Ok (inl (Window (fibM - fibMMm1) fibMMm1 fibM (offset s)))
      else Ok (inr (inr i))
  else Ok (inr (inl s)).

Definition fibMonaccianSearch (arr : list Z) (x n : Z) : res Z :=
  let* (fibMMm2, fibMMm1, fibM) := grow n in
  let* o := loop (S (Z.to_nat fibM)) (probe arr x n) (Window fibMMm2 fibMMm1 fibM (-1)) in
  match o with
  | inr i => Ok i
  | inl (Window _ fibMMm1 _ offset) =>
      if negb (fibMMm1 =? 0) then
        let* v := rd arr (offset + 1) in
        Ok (if v =? x then offset + 1 else -1)
      else Ok (-1)
  end.

Definition table : list Z := [10; 22; 35; 40; 45; 50; 80; 82; 85; 90; 100].

Definition main (w : console) : res console :=
  let* index := fibMonaccianSearch table 85 (zlen table) in
  Ok (printf [PStr "Found at index: "; PInt index] w).

(** Three consecutive Fibonacci numbers, or the triple 1, 0, 1 that a step
    to the left from 1, 1, 2 gives. *)
Definition fib_triple (f2 f1 f : Z) : Prop :=
  f = f1 + f2 /\ ((exists k, f2 = fib k /\ f1 = fib (S k)) \/ (f2 = 1 /\ f1 = 0)).

Lemma fib_triple_pos f2 f1 f : fib_triple f2 f1 f -> 0 <= f2 /\ 0 <= f1 /\ 1 <= f.
Proof. intros [-> [(k & -> & ->)|[-> ->]]]; [pose proof (fib_pos k); lia|lia]. Qed.

Lemma fib_triple_step f2 f1 f :
  fib_triple f2 f1 f -> 1 < f ->
  1 <= f2 /\ 1 <= f1 /\ fib_triple (f1 - f2) f2 f1 /\ fib_triple (f2 - (f1 - f2)) (f1 - f2) f2.
Proof.
  intros [-> [(k & -> & ->)|[-> ->]]] Hf; [|lia]. unfold fib_triple.
  destruct k as [|[|k]]; [change (1 < 1 + 0) in Hf; lia|..].
  - change (fib 2) with 1. change (fib 1) with 1. split_and!; try lia; left; by exists O.
  - rewrite (fib_SS (S k)), (fib_SS k). pose proof (fib_pos k). pose proof (fib_pos (S k)).
    split_and!; try lia; left; [exists (S k)|exists k]; rewrite ?fib_SS; lia.
Qed.

Lemma fib_triple_zero f2 f : fib_triple f2 0 f -> f2 = 1.
Proof. intros [_ [(k & _ & E)|[-> _]]]; [pose proof (fib_pos k); lia|done]. Qed.

Lemma fib_triple_end f2 f1 f : fib_triple f2 f1 f -> f <= 1 -> f = 1 /\ (f1 = 0 \/ f1 = 1).
Proof. intros H Hf. pose proof (fib_triple_pos _ _ _ H). destruct H as [-> _]. lia. Qed.

Lemma wp_grow n :
  0 < n <= 1073741824 -> wp (grow n) (fun '(f2, f1, f) => fib_triple f2 f1 f /\ n <= f <= INT_MAX /\ 0 < f1).
Proof.
  intros Hn. unfold grow.
  apply (wp_while (fun '(f2, f1, f) => f <= INT_MAX /\ exists k, f2 = fib k /\ f1 = fib (S k) /\
    f = fib (S (S k))) (fun '(_, _, f) => Z.max 0 (n - f))).
  - split; [code_lia|]. by exists O.
  - lia.
  - intros [[f2 f1] f] _. lia.
  - intros [[f2 f1] f] (Hf & k & -> & -> & ->). pose proof (fib_pos k). pose proof (fib_pos (S k)).
    rewrite fib_SS in *. simpl. code_case.
    + wp_steps. split; [|lia]. split; [code_lia|]. exists (S k). rewrite !fib_SS. split_and!; lia.
    + split; [|lia]. split; [lia|]. left. by exists k.
Qed.

(** Every cell equal to [x] lies in the [fibM] cells after [offset], and
    [offset] is before a cell that is not below [x]. *)
Definition window_ok (a : list Z) (x : Z) (s : window) : Prop :=
  fib_triple (fibMMm2 s) (fibMMm1 s) (fibM s) /\ fibM s <= INT_MAX /\
  -1 <= offset s < zlen a - 1 /\ (forall p, 0 <= p <= offset s -> a.[p] < x) /\
  (forall p, 0 <= p < zlen a -> a.[p] = x ->
     p <= offset s + fibM s /\ (fibMMm1 s = 0 -> p <= offset s)).

Lemma wp_probe a x s :
  ascending a -> 0 < zlen a <= 1073741824 -> x <= a.[zlen a - 1] -> window_ok a x s ->
  wp (probe a x (zlen a) s) (fun o =>
    match o with
    | inl s' => window_ok a x s' /\ fibM s' < fibM s
    | inr (inl s') => s' = s /\ fibM s <= 1
    | inr (inr i) => 0 <= i < zlen a /\ a.[i] = x
    end).
Proof.
  intros Ha Hn Hlast (Ht & Hmax & Ho & Hlo & Hhi). unfold probe. code_case; [|split; [done|lia]].
  destruct (fib_triple_step _ _ _ Ht) as (H2 & H1 & HR & HL); [lia|].
  pose proof (proj1 Ht) as Hsum. pose proof (fib_triple_pos _ _ _ HR). wp_step. apply wp_int; [code_lia|].
  set (i := if _ <? _ then _ else _).
  assert (offset s < i < zlen a /\ i <= offset s + fibMMm2 s /\
    (i < zlen a - 1 -> i = offset s + fibMMm2 s)) as (Hi & Hle & Heq)
    by (unfold i; code_case; lia).
  clearbody i. wp_steps; unfold window_ok; simpl.
  - split; [|lia]. assert (i < zlen a - 1) by (destruct (decide (i = zlen a - 1)) as [->|]; lia).
    rewrite (Heq ltac:(done)) in *.
    split_and!; [done|lia..| |intros p Hp E; specialize (Hhi p Hp E); lia].
    intros p Hp. specialize (Ha p (offset s + fibMMm2 s)). lia.
  - split; [|lia]. split_and!; [done|lia..|done|].
    intros p Hp E. destruct (decide (p < i)); [|specialize (Ha i p); lia]. split; [lia|].
    intros E0. rewrite E0 in HL. apply fib_triple_zero in HL. lia.
  - split; lia.
Qed.

#[export] Instance fibonacci_Search :
  Search (fun a x => fibMonaccianSearch a x (zlen a))
    (fun a x => ascending a /\ 0 < zlen a <= 1073741824 /\ x <= a.[zlen a - 1]).
Proof.
  intros a x (Ha & Hn & Hlast). unfold fibMonaccianSearch. wp_step.
  eapply wp_mono; [by apply wp_grow|]. intros [[f2 f1] f] (Ht & Hf & Hf1). wp_step.
  apply (wp_mono _ (fun o =>
    match o with
    | inl s => window_ok a x s /\ fibM s <= 1
    | inr i => 0 <= i < zlen a /\ a.[i] = x
    end)).
  - apply (wp_loop (window_ok a x) fibM); simpl.
    + unfold window_ok. simpl. split_and!; [done|lia..|intros; lia|intros; lia].
    + lia.
    + intros s Hs. pose proof (fib_triple_pos _ _ _ (proj1 Hs)). lia.
    + intros s Hs. eapply wp_mono; [by apply wp_probe|]. intros [s'|[s'|i]]; [done| |done].
      intros [-> ?]. done.
  - intros [s|i] Ho; [|by left]. destruct s as [g2 g1 g o]. destruct Ho as [(Hg & _ & Ho & Hlo & Hhi) Hend].
    simpl in *. destruct (fib_triple_end _ _ _ Hg Hend) as [-> Hg1]. wp_steps.
    + subst g1. right. split; [done|]. apply not_elem. intros p Hp E.
      destruct (Hhi p Hp E) as [_ Hno]. specialize (Hno eq_refl). specialize (Hlo p). lia.
    + destruct (Z.eqb_spec a.[o + 1] x) as [E|E]; [left; split; [lia|done]|right].
      split; [done|]. apply not_elem. intros p Hp Ep. specialize (Hhi p Hp Ep).
      destruct (decide (p <= o)); [specialize (Hlo p); lia|]. by replace p with (o + 1) in Ep by lia.
Qed.

(** A value above every cell takes the last comparison one cell past the
    end (here on the array of [main]). *)
Lemma fibonacci_overruns : fibMonaccianSearch table 200 (zlen table) = Fail OutOfBounds.
Proof. reflexivity. Qed.

End FibonacciSearch.

(** ** modifiedBinarySearch.c: a matrix sorted in row-major order *)

Module MatrixSearch.

(** [mat[i][j]] *)
Definition rd2 (mat : list (list Z)) (i j : Z) : res Z :=
  let* row := rd mat i in rd row j.

Definition at_ (i j : Z) : list piece :=
  [PStr "Found at ("; PInt i; PStr ","; PInt j; PStr ")\n"].

Definition binarySearch (fuel : nat) (mat : list (list Z)) (i j_low j_high x : Z) (w : console)
    : res console :=
  loop fuel (fun '(j_low, j_high) =>
    if j_low <=? j_high then
      let* s := int (j_low + j_high) in
      let j_mid := s `quot` 2 in
      let* v := rd2 mat i j_mid in
      if v =? x then Ok (inr (printf (at_ i j_mid) w)) else
      let* v := rd2 mat i j_mid in
      if v >? x then Ok (inl (j_low, j_mid - 1))
      else Ok (inl (j_mid + 1, j_high))
    else Ok (inr (printf [PStr "element not found\n"] w))) (j_low, j_high).

(** The search for the pair of rows; [inr] is the [return] inside it. *)
Definition find_rows (mat : list (list Z)) (n j_mid x : Z) (w : console)
    : res (Z * Z + console) :=
  loop (S (Z.to_nat n)) (fun '(i_low, i_high) =>
    if i_low + 1 <? i_high then
      let* s := int (i_low + i_high) in
      let i_mid := s `quot` 2 in
      let* v := rd2 mat i_mid j_mid in
      if v =? x then Ok (inr (inr (printf (at_ i_mid j_mid) w))) else
      let* v := rd2 mat i_mid j_mid in
      if v >? x then Ok (inl (i_low, i_mid)) else Ok (inl (i_mid, i_high))
    else Ok (inr (inl (i_low, i_high)))) (0, n - 1).

Definition modifiedBinarySearch (mat : list (list Z)) (n m x : Z) (w : console) : res console :=
  let fuel := S (Z.to_nat m) in
  if n =? 1 then binarySearch fuel mat 0 0 (m - 1) x w else
  let j_mid := m `quot` 2 in
  let* o := find_rows mat n j_mid x w in
  match o with
  | inr w => Ok w
  | inl (i_low, _) =>
      let* v := rd2 mat i_low j_mid in
      if v =? x then Ok (printf (at_ i_low j_mid) w) else
      let* v := rd2 mat (i_low + 1) j_mid in
      if v =? x then Ok (printf (at_ (i_low + 1) j_mid) w) else
      let* v := rd2 mat i_low (j_mid - 1) in
      if x <=? v then binarySearch fuel mat i_low 0 (j_mid - 1) x w else
      let* v := rd2 mat i_low (j_mid + 1) in
      let* both := (if x >=? v then let* l := rd2 mat i_low (m - 1) in Ok (x <=? l)
                    else Ok false) in
      if (both : bool) then binarySearch fuel mat i_low (j_mid + 1) (m - 1) x w else
      let* v := rd2 mat (i_low + 1) (j_mid - 1) in
      if x <=? v then binarySearch fuel mat (i_low + 1) 0 (j_mid - 1) x w
      else binarySearch fuel mat (i_low + 1) (j_mid + 1) (m - 1) x w
  end.

Definition main (w : console) : res console :=
  let* (n, w) := scanf w in
  let* (m, w) := scanf w in
  let* (x, w) := scanf w in
  let* _ := vla n in
  let* _ := vla m in
  let* (mat, w) := for_up 0 n (fun _ '(mat, w) =>
    let* (row, w) := read_array m w in Ok (mat ++ [row], w)) ([], w) in
  modifiedBinarySearch mat n m x w.

Section matrix.
Context (mat : list (list Z)) (n m x : Z) (w : console).
Context (Hn : 1 <= n <= 1073741824) (Hm : 3 <= m <= 1073741824).
Context (Hlen : zlen mat = n) (Hrows : forall i, 0 <= i < n -> zlen mat.[i] = m).

Definition inside (i j : Z) : Prop := 0 <= i < n /\ 0 <= j < m.

Context (Hsorted : forall i j i' j', inside i j -> inside i' j' ->
  i < i' \/ (i = i' /\ j <= j') -> mat.[i].[j] <= mat.[i'].[j']).

(** What the program prints: a position of [x], or that there is none. *)
Definition located (w' : console) : Prop :=
  (exists i j, inside i j /\ mat.[i].[j] = x /\ w' = printf (at_ i j) w) \/
  ((forall i j, inside i j -> mat.[i].[j] <> x) /\ w' = printf [PStr "element not found\n"] w).

Lemma wp_rd2 i j (Q : Z -> Prop) : inside i j -> Q mat.[i].[j] -> wp (rd2 mat i j) Q.
Proof.
  intros [Hi Hj] HQ. unfold rd2. wp_step. apply wp_rd; [lia|]. apply wp_rd; [|done].
  rewrite Hrows by lia. lia.
Qed.

(** Searching part of a row is enough when every [x] of the matrix makes
    one in that part. *)
Lemma wp_row_search i lo hi :
  0 <= i < n -> 0 <= lo -> hi < m ->
  (forall i' j', inside i' j' -> mat.[i'].[j'] = x -> exists j, lo <= j <= hi /\ mat.[i].[j] = x) ->
  wp (binarySearch (S (Z.to_nat m)) mat i lo hi x w) located.
Proof.
  intros Hi Hlo Hhi Hx. unfold binarySearch.
  apply (wp_loop (fun '(l, h) => 0 <= l /\ h < m /\
    forall i' j', inside i' j' -> mat.[i'].[j'] = x -> exists j, l <= j <= h /\ mat.[i].[j] = x)
    (fun '(l, h) => Z.max 0 (h - l + 1))); [done|lia|intros [l h] _; lia|].
  intros [l h] (Hl & Hh & Hin). code_case.
  - wp_step. apply wp_int; [code_lia|]. set (mid := (l + h) `quot` 2).
    assert (l <= mid <= h) as Hmid by (unfold mid; div_lia). clearbody mid.
    wp_step. apply wp_rd2; [unfold inside; lia|]. code_case.
    { left. exists i, mid. unfold inside. split_and!; done || lia. }
    wp_step. apply wp_rd2; [unfold inside; lia|]. code_case; (split; [|lia]).
    + split_and!; [lia..|]. intros i' j' Hij E. destruct (Hin i' j' Hij E) as (j & Hj & Ej).
      exists j. split; [|done]. specialize (Hsorted i mid i j). unfold inside in *. lia.
    + split_and!; [lia..|]. intros i' j' Hij E. destruct (Hin i' j' Hij E) as (j & Hj & Ej).
      exists j. split; [|done]. specialize (Hsorted i j i mid). unfold inside in *. lia.
  - right. split; [|done]. intros i' j' Hij E. destruct (Hin i' j' Hij E) as (j & Hj & _). lia.
Qed.

Lemma wp_find_rows j :
  2 <= n -> 0 <= j < m ->
  wp (find_rows mat n j x w) (fun o =>
    match o with
    | inr w' => located w'
    | inl (l, h) => 0 <= l /\ h = l + 1 /\ h < n /\
        (l = 0 \/ mat.[l].[j] < x) /\ (h = n - 1 \/ x < mat.[h].[j])
    end).
Proof.
  intros Hn2 Hj. unfold find_rows.
  apply (wp_loop (fun '(l, h) => 0 <= l < h /\ h < n /\
    (l = 0 \/ mat.[l].[j] < x) /\ (h = n - 1 \/ x < mat.[h].[j]))
    (fun '(l, h) => h - l)); [lia..|intros [l h] ?; lia|].
  intros [l h] (Hlh & Hh & Hlo & Hhi). code_case; [|lia].
  wp_step. apply wp_int; [code_lia|]. set (mid := (l + h) `quot` 2).
  assert (l < mid < h) as Hmid by (unfold mid; div_lia). clearbody mid.
  wp_step. apply wp_rd2; [unfold inside; lia|]. code_case.
  { left. exists mid, j. unfold inside. split_and!; done || lia. }
  wp_step. apply wp_rd2; [unfold inside; lia|]. code_case; lia.
Qed.

(** A smaller entry comes earlier. *)
Lemma earlier i j i' j' :
  inside i j -> inside i' j' -> mat.[i].[j] < mat.[i'].[j'] -> i < i' \/ (i = i' /\ j < j').
Proof. intros H H' Hlt. specialize (Hsorted i' j' i j H' H). lia. Qed.

(** Part of row [l] holds an [x] if any row does, when none comes before
    the part, and none after it or the part's last entry is not below [x]. *)
Lemma part_enough l lo hi :
  0 <= l < n -> 0 <= lo -> lo <= hi < m ->
  (forall i j, inside i j -> mat.[i].[j] = x -> l < i \/ (l = i /\ lo <= j)) ->
  x <= mat.[l].[hi] \/ (forall i j, inside i j -> mat.[i].[j] = x -> i < l \/ (i = l /\ j <= hi)) ->
  forall i' j', inside i' j' -> mat.[i'].[j'] = x -> exists j, lo <= j <= hi /\ mat.[l].[j] = x.
Proof.
  intros Hl Hlo Hhi Hbefore Hafter i j Hij E. specialize (Hbefore i j Hij E).
  destruct (decide (i = l /\ j <= hi)) as [[-> Hj]|Hout]; [exists j; split; [lia|done]|].
  destruct Hafter as [Hx|Hafter]; [|specialize (Hafter i j Hij E); lia].
  exists hi. split; [lia|]. specialize (Hsorted l hi i j). unfold inside in *. lia.
Qed.

(** The last two cases: every [x] is in the second row or below. *)
Lemma wp_second_row h c :
  0 <= h < n -> 1 <= c -> c + 1 < m -> mat.[h].[c] <> x ->
  (h = n - 1 \/ x < mat.[h].[c]) ->
  (forall i j, inside i j -> mat.[i].[j] = x -> h <= i) ->
  wp (let* v := rd2 mat h (c - 1) in
      if x <=? v then binarySearch (S (Z.to_nat m)) mat h 0 (c - 1) x w
      else binarySearch (S (Z.to_nat m)) mat h (c + 1) (m - 1) x w) located.
Proof.
  intros Hh Hc1 Hc2 Hne Hlast Hbefore. wp_step. apply wp_rd2; [unfold inside; lia|]. code_case.
  - apply wp_row_search; [lia..|]. apply part_enough; [lia..| |by left].
    intros i j Hij E. specialize (Hbefore i j Hij E). unfold inside in *. lia.
  - apply wp_row_search; [lia..|]. apply part_enough; [lia..| |right]; intros i j Hij E.
    + pose proof (earlier h (c - 1) i j) as He. specialize (Hbefore i j Hij E).
      unfold inside in *. destruct (decide (h < i)); [by left|].
      assert (i = h) as -> by lia. right. split; [done|].
      assert (j <> c) by (intros ->; done). lia.
    + specialize (Hbefore i j Hij E). pose proof (earlier i j h c) as He. unfold inside in *. lia.
Qed.

Lemma wp_modifiedBinarySearch : wp (modifiedBinarySearch mat n m x w) located.
Proof.
  unfold modifiedBinarySearch. code_case.
  { apply wp_row_search; [lia..|]. intros i' j' [Hi Hj] E. exists j'. split; [lia|].
    by replace 0 with i' by lia. }
  set (c := m `quot` 2). assert (1 <= c /\ c + 1 < m) as Hc by (unfold c; div_lia). clearbody c.
  wp_step. eapply wp_mono; [apply wp_find_rows; lia|].
  intros [[l h]|w']; [|done]. intros (Hl & -> & Hh & Hlo & Hhi).
  do 4 try (wp_step; apply wp_rd2; [unfold inside; lia|]; code_case).
  - left. exists l, c. unfold inside. split_and!; done || lia.
  - left. exists (l + 1), c. unfold inside. split_and!; done || lia.
  - apply wp_row_search; [lia..|]. apply part_enough; [lia..| |by left].
    intros i j Hij E. unfold inside in *.
    destruct Hlo as [->|Hlo]; [lia|]. specialize (Hsorted l (c - 1) l c). unfold inside in *. lia.
  - assert (mat.[l].[c] <= mat.[l].[c + 1]) as Hcc by (apply Hsorted; unfold inside; lia).
    do 2 wp_step. apply wp_rd2; [unfold inside; lia|]. wp_step. code_case.
    + apply wp_row_search; [lia..|]. apply part_enough; [lia..| |by left]. intros i j Hij E.
      pose proof (earlier l c i j). unfold inside in *. lia.
    + apply wp_second_row; [lia..|done|]. intros i j Hij E.
      pose proof (earlier l (m - 1) i j). unfold inside in *. lia.
  - apply wp_second_row; [lia..|done|]. intros i j Hij E.
    pose proof (earlier l (c - 1) i j) as He. pose proof (earlier i j l (c + 1)) as He'.
    unfold inside in *. destruct (decide (i = l)) as [->|]; [|lia].
    assert (j <> c) by (intros ->; done). lia.
Qed.
End matrix.

Lemma read_rows mat m rest out :
  Forall (fun row => zlen row = m) mat ->
  for_up 0 (zlen mat) (fun _ '(mat, w) =>
    let* (row, w) := read_array m w in Ok (mat ++ [row], w)) ([], Console (concat mat ++ rest) out)
  = Ok (mat, Console rest out).
Proof.
  intros Hr. unfold for_up, zlen.
  replace (Z.to_nat (Z.of_nat (length mat) - 0)) with (length mat) by lia.
  assert (forall pre i,
    for_n (length mat) i (fun _ '(mat, w) =>
      let* (row, w) := read_array m w in Ok (mat ++ [row], w)) (pre, Console (concat mat ++ rest) out)
    = Ok (pre ++ mat, Console rest out)) as H.
  { induction Hr as [|row mat Hrow Hr IH]; intros pre i; simpl; [by rewrite app_nil_r|].
    rewrite <- app_assoc, read_array_spec by done. simpl. rewrite IH. by rewrite <- app_assoc. }
  apply (H []).
Qed.

(** modifiedBinarySearch.c finds its number: given a matrix of at
    least three columns whose rows follow each other in ascending order,
    the program stays inside the matrix and prints the indices of an entry
    equal to x, or that the element was not found when no entry is. *)
Theorem modifiedBinarySearch_main_correct (mat : list (list Z)) (m x : Z) rest out :
  1 <= zlen mat <= 1073741824 -> 3 <= m <= 1073741824 ->
  Forall (fun row => zlen row = m) mat -> Sorted Z.le (concat mat) ->
  exists ps,
    main (Console (zlen mat :: m :: x :: concat mat ++ rest) out) = Ok (Console rest (out ++ ps)) /\
    ((exists i j, 0 <= i < zlen mat /\ 0 <= j < m /\ mat.[i].[j] = x /\ ps = at_ i j) \/
     ((forall i j, 0 <= i < zlen mat -> 0 <= j < m -> mat.[i].[j] <> x) /\
      ps = [PStr "element not found\n"])).
Proof.
  intros Hn Hm Hrows Hs. apply ascending_Sorted in Hs. unfold main, vla, demand. simpl.
  rewrite (proj2 (Z.ltb_lt _ _)) by lia. simpl. rewrite (proj2 (Z.ltb_lt _ _)) by lia. simpl.
  rewrite read_rows by done. simpl.
  destruct (proj1 (wp_exists _ _) (wp_modifiedBinarySearch mat (zlen mat) m x (Console rest out)
    Hn Hm eq_refl (fun i Hi => Forall_aget_1 _ _ i Hrows Hi)
    ltac:(intros i j i' j' [Hi Hj] [Hi' Hj'] Hle;
      destruct (aget_concat mat m i j) as [? <-]; [done..|];
      destruct (aget_concat mat m i' j') as [? <-]; [done..|];
      apply Hs; nia))) as (w' & -> & Hw).
  destruct Hw as [(i & j & [Hi Hj] & E & ->)|[Hno ->]]; eexists; (split; [reflexivity|]).
  - left. by exists i, j.
  - right. split; [|done]. intros i j Hi Hj. by apply Hno.
Qed.

Lemma modifiedBinarySearch_main_correct_witness :
  exists ps,
    main (Console (2 :: 3 :: 9 :: concat [[1; 4; 5]; [7; 9; 11]] ++ []) []) =
      Ok (Console [] ([] ++ ps)) /\
    ((exists i j, 0 <= i < 2 /\ 0 <= j < 3 /\
        ([[1; 4; 5]; [7; 9; 11]] : list (list Z)).[i].[j] = 9 /\ ps = at_ i j) \/
     ((forall i j, 0 <= i < 2 -> 0 <= j < 3 ->
        ([[1; 4; 5]; [7; 9; 11]] : list (list Z)).[i].[j] <> 9) /\
      ps = [PStr "element not found\n"])).
Proof.
  apply (modifiedBinarySearch_main_correct [[1; 4; 5]; [7; 9; 11]] 3 9 [] []).
  - unfold zlen; simpl; lia.
  - lia.
  - repeat constructor.
  - simpl. repeat constructor; lia.
Defined.

(** With two columns the comparison with [mat[i_low][j_mid + 1]] leaves the
    row. *)
Lemma two_columns_overrun :
  main (Console [2; 2; 4; 1; 2; 3; 5] []) = Fail OutOfBounds.
Proof. reflexivity. Qed.

End MatrixSearch.

(** ** What the searches have in common *)

(** The searches agree: on a sorted array of 1 to 2^30 cells whose
    last cell is not below x, Binary_Search.c, Jump_Search.c,
    fibonacciSearch.c and interpolation_search.c all return, without
    leaving the array or overflowing, an index that holds x, or -1 when no
    cell does. *)
Theorem sorted_searches_correct (a : list Z) (x : Z) :
  Sorted Z.le a -> 0 < zlen a <= 1073741824 -> x <= a.[zlen a - 1] ->
  exists r1 r2 r3 r4,
    BinarySearch.search a x = Ok r1 /\ found a x r1 /\
    JumpSearch.jump_search a (zlen a) x = Ok r2 /\ found a x r2 /\
    FibonacciSearch.fibMonaccianSearch a x (zlen a) = Ok r3 /\ found a x r3 /\
    InterpolationSearch.interpolationSearch a (zlen a) x = Ok r4 /\ found a x r4.
Proof.
  intros Ha Hn Hx. apply ascending_Sorted in Ha.
  destruct (proj1 (wp_exists _ _) (search_found (Search := BinarySearch.binary_Search) a x
    ltac:(split; [done|code_lia]))) as (r1 & E1 & H1).
  destruct (proj1 (wp_exists _ _) (search_found (Search := JumpSearch.jump_Search) a x
    (conj Ha Hn))) as (r2 & E2 & H2).
  destruct (proj1 (wp_exists _ _) (search_found (Search := FibonacciSearch.fibonacci_Search) a x
    (conj Ha (conj Hn Hx)))) as (r3 & E3 & H3).
  destruct (proj1 (wp_exists _ _) (search_found (Search := InterpolationSearch.interpolation_Search)
    a x ltac:(code_lia))) as (r4 & E4 & H4).
  by exists r1, r2, r3, r4.
Qed.

Lemma sorted_searches_correct_witness :
  exists r1 r2 r3 r4,
    BinarySearch.search [2; 3; 4; 10; 40] 10 = Ok r1 /\ found [2; 3; 4; 10; 40] 10 r1 /\
    JumpSearch.jump_search [2; 3; 4; 10; 40] 5 10 = Ok r2 /\ found [2; 3; 4; 10; 40] 10 r2 /\
    FibonacciSearch.fibMonaccianSearch [2; 3; 4; 10; 40] 10 5 = Ok r3 /\
    found [2; 3; 4; 10; 40] 10 r3 /\
    InterpolationSearch.interpolationSearch [2; 3; 4; 10; 40] 5 10 = Ok r4 /\
    found [2; 3; 4; 10; 40] 10 r4.
Proof.
  apply (sorted_searches_correct [2; 3; 4; 10; 40] 10).
  - repeat constructor; lia.
  - unfold zlen; simpl; lia.
  - vm_compute. discriminate.
Defined.

(** Other_Binary_Search.c on a sorted, non-empty array of up to 2^30
    cells: a value that is present is found, within the loop's fixed count
    and inside the array; for one that is absent the function ends without
    returning a value. *)
Theorem other_binarySearch_correct (a : list Z) (x : Z) :
  Sorted Z.le a -> 0 < zlen a <= 1073741824 ->
  (x ∈ a -> exists r, OtherBinarySearch.binarySearch a (zlen a) x = Ok r /\
     0 <= r < zlen a /\ a.[r] = x) /\
  (x ∉ a -> OtherBinarySearch.binarySearch a (zlen a) x = Fail NoReturn).
Proof.
  intros Ha Hn. apply ascending_Sorted in Ha. split; intros Hx.
  - apply wp_exists. apply OtherBinarySearch.wp_other_binarySearch; [done|lia|done].
  - by apply OtherBinarySearch.other_binarySearch_absent.
Qed.

Lemma other_binarySearch_correct_witness :
  (8 ∈ [5; 8; 10] -> exists r, OtherBinarySearch.binarySearch [5; 8; 10] 3 8 = Ok r /\
     0 <= r < 3 /\ [5; 8; 10].[r] = 8) /\
  (8 ∉ [5; 8; 10] -> OtherBinarySearch.binarySearch [5; 8; 10] 3 8 = Fail NoReturn).
Proof.
  apply (other_binarySearch_correct [5; 8; 10] 8); [repeat constructor; lia|].
  unfold zlen; simpl; lia.
Defined.
