(* ===== verification/Heap.v ===== *)
(** * The heap: malloc, free and the blocks pointers lead to

    Linked structures live in a finite map from locations to blocks.  Every
    access through a pointer is checked: a null pointer and a block that was
    freed (or never allocated) are faults.  Whether the n-th call of malloc
    succeeds is decided by an oracle, so the error paths of the programs are
    part of the model. *)

From S2P Require Import Prelude.
Open Scope Z_scope.

Abbreviation loc := positive.

(** [None] is NULL. *)
Definition ptr : Type := option loc.

Definition is_null (p : ptr) : bool := match p with None => true | Some _ => false end.

Record heap (B : Type) := Heap { cells : gmap loc B; calls : nat }.
Arguments Heap {B} cells calls.
Arguments cells {B} h.
Arguments calls {B} h.

Section heap.
Context {B : Type} (malloc_ok : nat -> bool).
Implicit Types (h : heap B) (m : gmap loc B).

(** A location above every one in use. *)
Definition fresh_loc m : loc := Pos.succ (map_fold (fun l _ acc => Pos.max l acc) 1%positive m).

Lemma fresh_loc_above m l b : m !! l = Some b -> (l < fresh_loc m)%positive.
Proof.
  unfold fresh_loc.
  cut (forall l b, m !! l = Some b -> (l <= map_fold (fun l _ acc => Pos.max l acc) 1 m)%positive).
  { intros H Hl. specialize (H l b Hl). lia. }
  clear l b. apply (map_fold_weak_ind (fun r m => forall l b, m !! l = Some b -> (l <= r)%positive)).
  - intros l b. by rewrite lookup_empty.
  - intros i x m' r Hi IH l b. rewrite lookup_insert_Some.
    intros [[-> ->]|[_ Hl]]; [lia|]. specialize (IH l b Hl). lia.
Qed.

Lemma fresh_loc_fresh m : m !! fresh_loc m = None.
Proof.
  destruct (m !! fresh_loc m) eqn:E; [|done]. apply fresh_loc_above in E. lia.
Qed.

(** [malloc]: the block starts with the given contents, which stand for
    whatever the memory held. *)
Definition malloc (b : B) h : ptr * heap B :=
  if malloc_ok (calls h) then
    let l := fresh_loc (cells h) in
    (Some l, Heap (<[l := b]> (cells h)) (S (calls h)))
  else (None, Heap (cells h) (S (calls h))).

(** [*p] *)
Definition load (p : ptr) h : res B :=
  match p with
  | None => Fail NullDeref
  | Some l => match cells h !! l with
              | Some b => Ok b
              | None => Fail Dangling
              end
  end.

(** [*p = b] *)
Definition store (p : ptr) (b : B) h : res (heap B) :=
  match p with
  | None => Fail NullDeref
  | Some l => match cells h !! l with
              | Some _ => Ok (Heap (<[l := b]> (cells h)) (calls h))
              | None => Fail Dangling
              end
  end.

(** [free(p)]: nothing for NULL, a fault for a block freed before. *)
Definition free (p : ptr) h : res (heap B) :=
  match p with
  | None => Ok h
  | Some l => match cells h !! l with
              | Some _ => Ok (Heap (delete l (cells h)) (calls h))
              | None => Fail Dangling
              end
  end.

Lemma load_Ok l b h : cells h !! l = Some b -> load (Some l) h = Ok b.
Proof. unfold load. by intros ->. Qed.

Lemma store_Ok l b b' h :
  cells h !! l = Some b ->
  store (Some l) b' h = Ok (Heap (<[l := b']> (cells h)) (calls h)).
Proof. unfold store. by intros ->. Qed.

Lemma free_Ok l b h :
  cells h !! l = Some b -> free (Some l) h = Ok (Heap (delete l (cells h)) (calls h)).
Proof. unfold free. by intros ->. Qed.
End heap.

#[global] Arguments load {B} p h : simpl never.
#[global] Arguments store {B} p b h : simpl never.
#[global] Arguments free {B} p h : simpl never.

(** ** Ownership

    [owns h L]: the heap consists of the cells listed in [L], each once.  The
    order does not matter, so a proof brings the cell in question to the front
    and leaves the others alone. *)
Section owns.
Context {B : Type} (malloc_ok : nat -> bool).
Implicit Types (h : heap B) (L : list (loc * B)).

Definition owns h L : Prop := NoDup L.*1 /\ cells h = list_to_map L.

#[export] Instance owns_proper h : Proper ((≡ₚ) ==> iff) (owns h).
Proof.
  assert (forall L L', L ≡ₚ L' -> owns h L -> owns h L') as H.
  { intros L L' HL [Hn Hc]. split; [by rewrite <- HL|]. rewrite Hc. by apply list_to_map_proper. }
  intros L L' HL. split; [by apply H|]. apply H. by symmetry.
Qed.

Lemma owns_lookup h L l b : owns h L -> (l, b) ∈ L -> cells h !! l = Some b.
Proof. intros [Hn ->] Hin. by apply elem_of_list_to_map. Qed.

Lemma owns_load h L l b : owns h L -> (l, b) ∈ L -> load (Some l) h = Ok b.
Proof. intros Ho Hin. eapply load_Ok, owns_lookup; done. Qed.

Lemma owns_store h L l b b' :
  owns h ((l, b) :: L) ->
  exists h', store (Some l) b' h = Ok h' /\ owns h' ((l, b') :: L) /\ calls h' = calls h.
Proof.
  intros Ho. pose proof (owns_lookup h _ l b Ho ltac:(by left)) as Hl. rewrite (store_Ok l b b' h Hl).
  eexists. split_and!; [done| |done]. destruct Ho as [Hn Hc]. split; [done|]. cbn [cells].
  rewrite Hc. simpl. by rewrite insert_insert_eq.
Qed.

Lemma owns_free h L l b :
  owns h ((l, b) :: L) -> exists h', free (Some l) h = Ok h' /\ owns h' L /\ calls h' = calls h.
Proof.
  intros Ho. pose proof (owns_lookup h _ l b Ho ltac:(by left)) as Hl. rewrite (free_Ok l b h Hl).
  eexists. split_and!; [done| |done]. destruct Ho as [Hn Hc]. apply NoDup_cons in Hn as [Hn1 Hn]. split; [done|].
  cbn [cells]. rewrite Hc. simpl. rewrite delete_insert_id; [done|]. by apply not_elem_of_list_to_map_1.
Qed.

Lemma owns_malloc h L b :
  owns h L -> malloc_ok (calls h) = true ->
  exists l h', malloc malloc_ok b h = (Some l, h') /\ owns h' ((l, b) :: L).
Proof.
  intros [Hn Hc] Hok. unfold malloc. rewrite Hok. eexists _, _. split; [done|]. split; [|cbn [cells]; by rewrite Hc].
  simpl. constructor; [|done]. apply not_elem_of_list_to_map. rewrite <- Hc. apply fresh_loc_fresh.
Qed.

Lemma owns_malloc_refused h L b :
  owns h L -> malloc_ok (calls h) = false ->
  exists h', malloc malloc_ok b h = (None, h') /\ owns h' L.
Proof. intros Ho Hok. unfold malloc. rewrite Hok. eexists. split; [done|]. exact Ho. Qed.

Lemma owns_size h L : owns h L -> size (cells h) = length L.
Proof. intros [Hn ->]. by apply map_size_list_to_map. Qed.
End owns.
