(* ===== verification/HashTable.v ===== *)
(** * The chained hash table of os_lesson/exp_2/hash.c

    The same code serves os_lesson/echo/u_server/hash.c and
    algorithms/c/hash/1_imple/hash.c with another value struct.  The table,
    its entries and the copies of the keys are blocks of the heap; every
    malloc may fail.  [table_at] ties the heap to a finite map, and each
    operation is shown to be the map's, to touch nothing else, and
    hash_delete to give back exactly the blocks the table owned. *)

From Stdlib Require Import SpecFloat.
From S2P Require Import Prelude Arrays Heap.
Open Scope Z_scope.

(** ** Data *)

(** common.h *)
Record work_record := WorkRecord { tag : Z; p_count : Z; c_count : Z }.

Record hash_entry := Entry { key : ptr; value : work_record; next : ptr }.

(** [double] is IEEE 754 binary64. *)
Definition double : Type := spec_float.
Definition double_of_Z (z : Z) : double := binary_normalize 53 1024 z 0 false.
Definition add_d : double -> double -> double := SFadd 53 1024.
Definition sub_d : double -> double -> double := SFsub 53 1024.
Definition div_d : double -> double -> double := SFdiv 53 1024.

Record hash_table :=
  Table { load_factor : double; bucket_count : Z; buckets : list ptr }.

Inductive block :=
  | BTable (t : hash_table)
  | BEntry (e : hash_entry)
  | BStr (s : string).

Definition MIN_BUCKET_COUNT : Z := 100.

(** Typed loads. *)
Definition load_table (p : ptr) (h : heap block) : res hash_table :=
  let* b := load p h in
  match b with BTable t => Ok t | _ => Fail Dangling end.

Definition load_entry (p : ptr) (h : heap block) : res hash_entry :=
  let* b := load p h in
  match b with BEntry e => Ok e | _ => Fail Dangling end.

Definition load_str (p : ptr) (h : heap block) : res string :=
  let* b := load p h in
  match b with BStr s => Ok s | _ => Fail Dangling end.

(** ** Operations *)

(** A [char] read into an [int]; a C string is modelled by the characters
    before its terminator. *)
Definition char_val (c : Ascii.ascii) : Z := s8 (Z.of_N (Ascii.N_of_ascii c)).

(** djb2: [hash = ((hash << 5) + hash) + c] in unsigned long. *)
Fixpoint hash_from (h : Z) (key : string) : Z :=
  match key with
  | EmptyString => h
  | String c key => hash_from (u64 (u64 (u64 (Z.shiftl h 5) + h) + char_val c)) key
  end.

Definition hash (key : string) : Z := hash_from 5381 key.

Section operations.
Context (malloc_ok : nat -> bool).
Implicit Types (h : heap block) (self : ptr).

Definition make_hash (count : Z) h : res (ptr * heap block) :=
  let '(p, h) :=
    malloc malloc_ok (BTable (Table S754_nan 0 (replicate (Z.to_nat count) (Some 1%positive)))) h in
  if is_null p then Ok (None, h) else
  let* t := load_table p h in
  let* bs := for_up 0 count (fun i bs => wr bs i None) (buckets t) in
  let* h := store p (BTable (Table (S754_zero false) count bs)) h in
  Ok (p, h).

Definition hash_new h : res (ptr * heap block) := make_hash MIN_BUCKET_COUNT h.

(** Enough turns for any acyclic chain. *)
Definition chain_fuel h : nat := S (size (cells h)).

Definition delete_bucket (head : ptr) h : res (heap block) :=
  let* (_, h) := while (chain_fuel h) (fun '(head, _) => Ok (negb (is_null head)))
    (fun '(head, h) =>
       let* e := load_entry head h in
       let* h := free (key e) h in
       let* h := free head h in
       Ok (next e, h)) (head, h) in
  Ok h.

Definition hash_delete self h : res (heap block) :=
  if is_null self then Ok h else
  let* t := load_table self h in
  let* h := for_up 0 (bucket_count t) (fun i h =>
    let* head := rd (buckets t) i in
    delete_bucket head h) h in
  free self h.

(** [None] is the path through [error:]. *)
Definition make_entry (k : string) (v : work_record) h : res (ptr * heap block) :=
  let '(p, h) := malloc malloc_ok (BEntry (Entry None (WorkRecord 0 0 0) None)) h in
  if is_null p then
    let* h := free p h in Ok (None, h)
  else
    let '(kp, h) := malloc malloc_ok (BStr EmptyString) h in
    if is_null kp then
      let* h := free p h in Ok (None, h)
    else
      let* h := store kp (BStr k) h in
      let* h := store p (BEntry (Entry kp v None)) h in
      Ok (p, h).

(** [size_t i = hash(key) % self->bucket_count] *)
Definition bucket_of (t : hash_table) (k : string) : res Z :=
  let* _ := demand (negb (bucket_count t =? 0)) DivByZero in
  Ok (hash k mod bucket_count t).

(** [while (entry && strcmp(key, entry->key) != 0) entry = entry->next;] *)
Definition find_entry (k : string) (entry : ptr) h : res ptr :=
  loop (chain_fuel h) (fun entry =>
    if is_null entry then Ok (inr None) else
    let* e := load_entry entry h in
    let* s := load_str (key e) h in
    if bool_decide (k = s) then Ok (inr entry) else Ok (inl (next e))) entry.

Definition try_set self (k : string) (v : work_record) h : res (Z * heap block) :=
  let* t := load_table self h in
  let* i := bucket_of t k in
  let* head := rd (buckets t) i in
  let* entry := find_entry k head h in
  if negb (is_null entry) then
    let* e := load_entry entry h in
    let* h := store entry (BEntry (Entry (key e) v (next e))) h in
    Ok (1, h)
  else
    let* (entry, h) := make_entry k v h in
    if is_null entry then Ok (0, h) else
    let* e := load_entry entry h in
    let* head := rd (buckets t) i in
    let* h := store entry (BEntry (Entry (key e) (value e) head)) h in
    let* bs := wr (buckets t) i entry in
    let lf := add_d (load_factor t) (div_d (double_of_Z 1) (double_of_Z (bucket_count t))) in
    let* h := store self (BTable (Table lf (bucket_count t) bs)) h in
    Ok (1, h).

Definition hash_set self (k : string) (v : work_record) h : res (heap block) :=
  let* _ := demand (negb (is_null self)) AssertFail in
  let* (ok, h) := try_set self k v h in
  if ok =? 0 then Fail Aborted else Ok h.

(** The result and [*value_out]. *)
Definition hash_get self (k : string) h : res (Z * option work_record) :=
  let* _ := demand (negb (is_null self)) AssertFail in
  let* t := load_table self h in
  let* i := bucket_of t k in
  let* head := rd (buckets t) i in
  let* entry := find_entry k head h in
  if negb (is_null entry) then
    let* e := load_entry entry h in Ok (1, Some (value e))
  else Ok (0, None).

(** [struct hash_entry **entryp]: a bucket of the table or the next field of
    an entry. *)
Inductive slot := Bucket (i : Z) | Next (p : ptr).

Definition read_slot self (s : slot) h : res ptr :=
  match s with
  | Bucket i => let* t := load_table self h in rd (buckets t) i
  | Next p => let* e := load_entry p h in Ok (next e)
  end.

Definition write_slot self (s : slot) (q : ptr) h : res (heap block) :=
  match s with
  | Bucket i =>
      let* t := load_table self h in
      let* bs := wr (buckets t) i q in
      store self (BTable (Table (load_factor t) (bucket_count t) bs)) h
  | Next p =>
      let* e := load_entry p h in
      store p (BEntry (Entry (key e) (value e) q)) h
  end.

Definition find_slot self (k : string) (s : slot) h : res slot :=
  loop (chain_fuel h) (fun s =>
    let* p := read_slot self s h in
    if is_null p then Ok (inr s) else
    let* e := load_entry p h in
    let* str := load_str (key e) h in
    if bool_decide (k = str) then Ok (inr s) else Ok (inl (Next p))) s.

Definition hash_remove self (k : string) h : res (heap block) :=
  let* _ := demand (negb (is_null self)) AssertFail in
  let* t := load_table self h in
  let* i := bucket_of t k in
  let* entryp := find_slot self k (Bucket i) h in
  let* entry := read_slot self entryp h in
  if negb (is_null entry) then
    let* e := load_entry entry h in
    let* h := write_slot self entryp (next e) h in
    let* h := free (key e) h in
    let* h := free entry h in
    let* t := load_table self h in
    let lf := sub_d (load_factor t) (div_d (double_of_Z 1) (double_of_Z (bucket_count t))) in
    store self (BTable (Table lf (bucket_count t) (buckets t))) h
  else Ok h.

Definition record_line (v : work_record) : list piece :=
  [PStr "e->value.tag = "; PInt (tag v); PStr " e->value.p_count = "; PInt (p_count v);
   PStr " e->value.c_count = "; PInt (c_count v); PStr "\n"].

Definition hash_foreach self h (w : console) : res console :=
  let* t := load_table self h in
  let* (num, w) := for_up 0 (bucket_count t) (fun i '(num, w) =>
    let* head := rd (buckets t) i in
    let* (_, num, w) := while (chain_fuel h) (fun '(e, _, _) => Ok (negb (is_null e)))
      (fun '(p, num, w) =>
         let* e := load_entry p h in
         let* num := int (num + 1) in
         Ok (next e, num, printf (record_line (value e)) w)) (head, num, w) in
    Ok (num, w)) (0, w) in
  Ok (printf [PStr "the product num = "; PInt num; PStr "\n"] w).
End operations.

(** ** The invariant: which blocks are the table's *)

(** An entry with the address of its block, of its key's copy, and what
    they hold. *)
Record node := Node { addr : loc; kaddr : loc; nkey : string; nval : work_record }.

Definition head_ptr (ns : list node) : ptr :=
  match ns with [] => None | n :: _ => Some (addr n) end.

(** The blocks of a chain, in the heap. *)
Fixpoint linked (m : gmap loc block) (ns : list node) : Prop :=
  match ns with
  | [] => True
  | n :: ns =>
      m !! addr n = Some (BEntry (Entry (Some (kaddr n)) (nval n) (head_ptr ns))) /\
      m !! kaddr n = Some (BStr (nkey n)) /\
      linked m ns
  end.

Definition node_locs (n : node) : list loc := [addr n; kaddr n].
Definition chain_locs (ns : list node) : list loc := concat (map node_locs ns).

(** All the locations of the table. *)
Definition table_locs (self : loc) (nss : list (list node)) : list loc :=
  self :: chain_locs (concat nss).

Record table_inv (m : gmap loc block) (self : loc) (t : hash_table) (nss : list (list node))
    : Prop := {
  inv_table : m !! self = Some (BTable t);
  inv_count : zlen nss = bucket_count t;
  inv_pos : 0 < bucket_count t;
  inv_heads : buckets t = map head_ptr nss;
  inv_linked : forall i, 0 <= i < zlen nss -> linked m nss.[i];
  inv_locs : NoDup (table_locs self nss);
  inv_place : forall i n, 0 <= i < zlen nss -> n ∈ nss.[i] -> hash (nkey n) mod bucket_count t = i;
  inv_keys : forall i, 0 <= i < zlen nss -> NoDup (map nkey nss.[i])
}.

(** The finite map a table stands for. *)
Definition pairs (ns : list node) : list (string * work_record) :=
  map (fun n => (nkey n, nval n)) ns.

Definition contents_of (nss : list (list node)) : gmap string work_record :=
  list_to_map (pairs (concat nss)).

(** ** Chains *)

Lemma linked_ext m m' ns :
  (forall l, l ∈ chain_locs ns -> m' !! l = m !! l) -> linked m ns -> linked m' ns.
Proof.
  induction ns as [|n ns IH]; simpl; [done|]. intros Hm (Ha & Hk & Hns).
  rewrite (Hm (addr n)) by (by left). rewrite (Hm (kaddr n)) by (right; by left).
  split_and!; [done..|]. apply IH; [|done]. intros l Hl. apply Hm. by do 2 right.
Qed.

Lemma chain_locs_app ns ns' : chain_locs (ns ++ ns') = chain_locs ns ++ chain_locs ns'.
Proof. unfold chain_locs. by rewrite map_app, concat_app. Qed.

Lemma linked_app m ns ns' :
  linked m (ns ++ ns') -> linked m ns' /\
  match last ns with
  | None => True
  | Some n => m !! addr n = Some (BEntry (Entry (Some (kaddr n)) (nval n) (head_ptr ns')))
  end.
Proof.
  induction ns as [|n ns IH]; simpl; [done|]. intros (Ha & _ & Hns).
  destruct (IH Hns) as [Hl Hlast]. split; [done|]. by destruct ns.
Qed.

(** A chain of distinct blocks is not longer than the heap is large. *)
Lemma linked_length m ns : linked m ns -> NoDup (chain_locs ns) -> (length ns <= size m)%nat.
Proof.
  intros Hl Hnd.
  assert (NoDup (map addr ns)) as Hna.
  { clear Hl. induction ns as [|n ns IH]; simpl in *; [constructor|].
    apply NoDup_cons in Hnd as [Hn Hnd]. apply NoDup_cons in Hnd as [_ Hnd].
    constructor; [|by apply IH]. intros Hin. apply Hn. apply list_elem_of_In, in_map_iff in Hin as (n' & <- & Hin).
    right. unfold chain_locs. apply list_elem_of_In, in_concat. exists (node_locs n').
    split; [by apply in_map|by left]. }
  assert (forall l, l ∈ map addr ns -> l ∈ dom m) as Hdom.
  { clear Hna Hnd. induction ns as [|n ns IH]; simpl in *; [set_solver|].
    destruct Hl as (Ha & _ & Hl). intros l. rewrite list_elem_of_In. simpl. intros [<-|Hin].
    - by apply elem_of_dom_2 in Ha.
    - apply IH; [done|by apply list_elem_of_In]. }
  replace (length ns) with (length (map addr ns)) by apply length_map.
  rewrite <- size_dom. rewrite <- (size_list_to_set (C := gset loc)) by done.
  apply subseteq_size. intros l Hl'. apply Hdom. by apply elem_of_list_to_set in Hl'.
Qed.

Definition chain_map (ns : list node) : gmap string work_record := list_to_map (pairs ns).

Lemma chain_map_app ns ns' : chain_map (ns ++ ns') = chain_map ns ∪ chain_map ns'.
Proof. unfold chain_map, pairs. by rewrite map_app, list_to_map_app. Qed.

Lemma chain_map_None ns k : chain_map ns !! k = None <-> k ∉ map nkey ns.
Proof.
  unfold chain_map, pairs. rewrite <- not_elem_of_list_to_map.
  replace (map (fun n => (nkey n, nval n)) ns).*1 with (map nkey ns); [done|].
  induction ns as [|n ns IH]; simpl; [done|by rewrite IH].
Qed.

(** ** Looking a key up in the whole table *)

Lemma contents_lookup m self t nss k :
  table_inv m self t nss ->
  contents_of nss !! k = chain_map nss.[hash k mod bucket_count t] !! k.
Proof.
  intros Ht. set (i := hash k mod bucket_count t).
  assert (0 <= i < zlen nss) as Hi.
  { rewrite (inv_count _ _ _ _ Ht). apply Z.mod_pos_bound. apply (inv_pos _ _ _ _ Ht). }
  destruct (aget_split nss i Hi) as (pre & post & E & Hpre).
  assert (forall ns, ns ∈ pre \/ ns ∈ post -> chain_map ns !! k = None) as Hother.
  { intros ns Hns. apply chain_map_None. intros Hk.
    apply list_elem_of_In, in_map_iff in Hk as (n & <- & Hn). apply list_elem_of_In in Hn.
    assert (exists j, 0 <= j < zlen nss /\ j <> i /\ nss.[j] = ns) as (j & Hj & Hji & Ej).
    { rewrite E. destruct Hns as [Hns|Hns]; apply elem_aget in Hns as (j & Hj & <-).
      - exists j. rewrite zlen_app, zlen_cons. pose proof (zlen_nonneg post).
        split_and!; [lia..|]. by apply aget_app_l.
      - exists (i + 1 + j). rewrite zlen_app, zlen_cons. pose proof (zlen_nonneg pre).
        split_and!; [lia..|]. rewrite aget_app_r by lia. rewrite Hpre. unfold aget.
        by replace (Z.to_nat (i + 1 + j - i)) with (S (Z.to_nat j)) by lia. }
    subst ns. pose proof (inv_place _ _ _ _ Ht j n Hj Hn) as Hp. unfold i in Hji. lia. }
  assert (forall nss', (forall ns, ns ∈ nss' -> chain_map ns !! k = None) ->
    chain_map (concat nss') !! k = None) as Hnone.
  { induction nss' as [|ns nss' IH]; simpl; [done|]. intros Hn.
    rewrite chain_map_app, lookup_union_None. split; [apply Hn; by left|].
    apply IH. intros ns' Hin. apply Hn. by right. }
  change (chain_map (concat nss) !! k = chain_map nss.[i] !! k).
  rewrite E at 1. rewrite concat_app. simpl. rewrite !chain_map_app.
  rewrite lookup_union_r by (apply Hnone; auto).
  rewrite lookup_union_l by (apply Hnone; auto). done.
Qed.

(** Replacing one chain. *)
Record chain_ok (m : gmap loc block) (self : loc) (t : hash_table) (nss : list (list node))
    (i : Z) (ns : list node) : Prop := {
  ok_linked : linked m ns;
  ok_nodup : NoDup (chain_locs ns);
  ok_locs : forall l, l ∈ chain_locs ns -> l ∈ chain_locs nss.[i] \/ l ∉ table_locs self nss;
  ok_place : forall n, n ∈ ns -> hash (nkey n) mod bucket_count t = i;
  ok_keys : NoDup (map nkey ns)
}.

Lemma table_locs_split self pre ns post :
  table_locs self (pre ++ ns :: post) =
    self :: chain_locs (concat pre) ++ chain_locs ns ++ chain_locs (concat post).
Proof. unfold table_locs. rewrite concat_app. simpl. by rewrite !chain_locs_app. Qed.

Lemma chain_locs_in nss i l : 0 <= i < zlen nss -> l ∈ chain_locs nss.[i] -> l ∈ chain_locs (concat nss).
Proof.
  intros Hi Hl. destruct (aget_split nss i Hi) as (pre & post & E & _).
  rewrite E, concat_app. simpl. rewrite !chain_locs_app, !elem_of_app. auto.
Qed.

(** Different chains have different blocks, and none is the table's own. *)
Lemma chains_disjoint self nss i j l :
  NoDup (table_locs self nss) -> 0 <= i < zlen nss -> 0 <= j < zlen nss -> i <> j ->
  l ∈ chain_locs nss.[i] -> (l ∉ chain_locs nss.[j]) /\ l <> self.
Proof.
  intros Hnd Hi Hj Hij Hl. split.
  - intros Hl'. destruct (aget_split nss i Hi) as (pre & post & E & Hpre).
    rewrite E in Hnd. rewrite table_locs_split in Hnd.
    apply NoDup_cons in Hnd as [_ Hnd]. apply NoDup_app in Hnd as (_ & Hd1 & Hnd).
    apply NoDup_app in Hnd as (_ & Hd2 & _).
    destruct (decide (j < i)).
    + apply (Hd1 l); [|apply elem_of_app; auto]. apply (chain_locs_in pre j); [lia|].
      rewrite E, aget_app_l in Hl' by lia. done.
    + apply (Hd2 l Hl). rewrite E in Hj. rewrite zlen_app, zlen_cons in Hj.
      apply (chain_locs_in post (j - i - 1)); [lia|].
      rewrite E, aget_app_r in Hl' by lia. unfold aget in *.
      by replace (Z.to_nat (j - zlen pre)) with (S (Z.to_nat (j - i - 1))) in Hl' by lia.
  - intros ->. apply NoDup_cons in Hnd as [Hn _]. apply Hn. by apply (chain_locs_in nss i).
Qed.

Lemma table_locs_upd self nss i ns l :
  NoDup (table_locs self nss) -> 0 <= i < zlen nss ->
  (forall l, l ∈ chain_locs ns -> l ∈ chain_locs nss.[i] \/ l ∉ table_locs self nss) ->
  (l ∈ table_locs self (upd nss i ns)) <->
  (l ∈ table_locs self nss /\ l ∉ chain_locs nss.[i]) \/ l ∈ chain_locs ns.
Proof.
  intros Hnd Hi Hns. destruct (aget_split nss i Hi) as (pre & post & E & Hpre).
  remember nss.[i] as old eqn:Hold. rewrite E in *. subst i. rewrite upd_split.
  rewrite !table_locs_split in *.
  apply NoDup_cons in Hnd as [Hs Hnd]. apply NoDup_app in Hnd as (_ & Hd1 & Hnd).
  apply NoDup_app in Hnd as (_ & Hd2 & _). specialize (Hns l). specialize (Hd1 l). specialize (Hd2 l).
  rewrite !elem_of_cons, !elem_of_app in *.
  destruct (decide (l = self)) as [->|]; [|tauto]. tauto.
Qed.

Lemma table_locs_upd_NoDup self nss i ns :
  NoDup (table_locs self nss) -> 0 <= i < zlen nss -> NoDup (chain_locs ns) ->
  (forall l, l ∈ chain_locs ns -> l ∈ chain_locs nss.[i] \/ l ∉ table_locs self nss) ->
  NoDup (table_locs self (upd nss i ns)).
Proof.
  intros Hnd Hi Hn Hns. destruct (aget_split nss i Hi) as (pre & post & E & Hpre).
  remember nss.[i] as old eqn:Hold. rewrite E in *. subst i. rewrite upd_split.
  rewrite !table_locs_split in *.
  apply NoDup_cons in Hnd as [Hs Hnd]. apply NoDup_app in Hnd as (H1 & Hd1 & Hnd).
  apply NoDup_app in Hnd as (H2 & Hd2 & H3).
  rewrite NoDup_cons, !NoDup_app, !elem_of_app.
  split_and!; [|done| |done| |done].
  - intros Hin. specialize (Hns self). rewrite !elem_of_cons, !elem_of_app in *. tauto.
  - intros l Hl. specialize (Hns l). specialize (Hd1 l). specialize (Hd2 l).
    rewrite !elem_of_cons, !elem_of_app in *. tauto.
  - intros l Hl. specialize (Hns l). specialize (Hd1 l). specialize (Hd2 l).
    rewrite !elem_of_cons, !elem_of_app in *. tauto.
Qed.

Section with_table.
Context (m : gmap loc block) (self : loc) (t : hash_table) (nss : list (list node)).
Context (Ht : table_inv m self t nss).

Lemma bucket_index k : 0 <= hash k mod bucket_count t < zlen nss.
Proof.
  rewrite (inv_count _ _ _ _ Ht). apply Z.mod_pos_bound. apply (inv_pos _ _ _ _ Ht).
Qed.

Lemma bucket_of_Ok k : bucket_of t k = Ok (hash k mod bucket_count t).
Proof.
  unfold bucket_of, demand. pose proof (inv_pos _ _ _ _ Ht).
  by rewrite (proj2 (Z.eqb_neq _ _)) by lia.
Qed.

Lemma rd_bucket i : 0 <= i < zlen nss -> rd (buckets t) i = Ok (head_ptr nss.[i]).
Proof.
  intros Hi. rewrite (inv_heads _ _ _ _ Ht). rewrite rd_Ok by (by rewrite zlen_map).
  by rewrite aget_map.
Qed.

Lemma chain_NoDup i : 0 <= i < zlen nss -> NoDup (chain_locs nss.[i]).
Proof.
  intros Hi. pose proof (inv_locs _ _ _ _ Ht) as Hnd.
  destruct (aget_split nss i Hi) as (pre & post & E & _).
  rewrite E, table_locs_split in Hnd. apply NoDup_cons in Hnd as [_ Hnd].
  apply NoDup_app in Hnd as (_ & _ & Hnd). by apply NoDup_app in Hnd as (H & _ & _).
Qed.

(** The table after one chain has been replaced. *)
Lemma table_upd m' t' i ns :
  0 <= i < zlen nss -> chain_ok m' self t nss i ns ->
  m' !! self = Some (BTable t') -> bucket_count t' = bucket_count t ->
  buckets t' = upd (buckets t) i (head_ptr ns) ->
  (forall l, l ∈ table_locs self nss -> l <> self -> l ∉ chain_locs nss.[i] -> m' !! l = m !! l) ->
  table_inv m' self t' (upd nss i ns).
Proof.
  intros Hi [Hlk Hnd Hlocs Hplace Hkeys] Hself Hcount Hbs Hframe.
  pose proof (inv_locs _ _ _ _ Ht) as Hall.
  assert (forall j, 0 <= j < zlen nss -> j <> i -> linked m' nss.[j]) as Hothers.
  { intros j Hj Hji. eapply linked_ext; [|apply (inv_linked _ _ _ _ Ht j Hj)].
    intros l Hl. destruct (chains_disjoint self nss j i l Hall Hj Hi Hji Hl) as [Hl1 Hl2].
    apply Hframe; [|done..]. right. by apply (chain_locs_in nss j). }
  split; rewrite ?zlen_upd.
  - done.
  - rewrite Hcount. apply (inv_count _ _ _ _ Ht).
  - rewrite Hcount. apply (inv_pos _ _ _ _ Ht).
  - rewrite Hbs, (inv_heads _ _ _ _ Ht). by rewrite upd_map.
  - intros j Hj. rewrite aget_upd by lia. case_decide; [done|]. apply Hothers; lia.
  - by apply table_locs_upd_NoDup.
  - intros j n Hj. rewrite aget_upd, Hcount by lia. case_decide; [subst; apply Hplace|].
    by apply (inv_place _ _ _ _ Ht).
  - intros j Hj. rewrite aget_upd by lia. case_decide; [done|]. by apply (inv_keys _ _ _ _ Ht).
Qed.

Lemma contents_upd m' t' k ns :
  table_inv m' self t' (upd nss (hash k mod bucket_count t) ns) ->
  bucket_count t' = bucket_count t ->
  (forall k', k' <> k -> chain_map ns !! k' = chain_map nss.[hash k mod bucket_count t] !! k') ->
  forall k', contents_of (upd nss (hash k mod bucket_count t) ns) !! k' =
    if decide (k' = k) then chain_map ns !! k else contents_of nss !! k'.
Proof.
  intros Ht' Hc Hns k'. rewrite (contents_lookup _ _ _ _ k' Ht'), Hc.
  rewrite (contents_lookup _ _ _ _ k' Ht).
  rewrite aget_upd by (apply bucket_index || apply (bucket_index k')).
  destruct (decide (k' = k)) as [->|Hne]; [by rewrite decide_True|].
  case_decide as E; [|done]. rewrite <- E. by apply Hns.
Qed.
End with_table.

(** What the search loop of hash_get and try_set finds. *)
Definition found_in (ns : list node) (k : string) (p : ptr) : Prop :=
  match p with
  | None => k ∉ map nkey ns
  | Some a => exists pre n post, ns = pre ++ n :: post /\ (k ∉ map nkey pre) /\ nkey n = k /\ addr n = a
  end.

Lemma wp_find_entry h ns k :
  linked (cells h) ns -> NoDup (chain_locs ns) ->
  wp (find_entry k (head_ptr ns) h) (found_in ns k).
Proof.
  intros Hl Hnd. unfold find_entry. pose proof (linked_length _ _ Hl Hnd) as Hlen.
  apply (wp_loop_idx (fun i p => exists pre post, ns = pre ++ post /\ length post = i /\
    p = head_ptr post /\ k ∉ map nkey pre) (length ns)).
  - exists [], ns. split_and!; try done. apply not_elem_of_nil.
  - unfold chain_fuel. lia.
  - intros i p (pre & post & -> & <- & -> & Hk). apply linked_app in Hl as [Hl _].
    destruct post as [|n post]; simpl.
    { by rewrite app_nil_r. }
    destruct Hl as (Ha & Hs & Hl). unfold load_entry, load_str. rewrite (load_Ok _ _ _ Ha). simpl.
    rewrite (load_Ok _ _ _ Hs). simpl. case_bool_decide as E; simpl.
    + exists pre, n, post. done.
    + exists (length post). split; [lia|]. exists (pre ++ [n]), post.
      rewrite <- app_assoc. split_and!; [done..|]. rewrite map_app, elem_of_app. simpl.
      rewrite list_elem_of_singleton. intros [?|?]; [by apply Hk|by apply E].
Qed.

(** ** The refinement relation *)

(** [table_at h self M F]: the blocks of the table at [self] are disjoint
    from the rest [F] of the heap, and hold the map [M]. *)
Definition table_at (h : heap block) (self : loc) (M : gmap string work_record)
    (F : gmap loc block) : Prop :=
  exists t nss, table_inv (cells h) self t nss /\ contents_of nss = M /\
    forall l, F !! l = if decide (l ∈ table_locs self nss) then None else cells h !! l.

Lemma chain_map_middle pre n post :
  nkey n ∉ map nkey pre -> chain_map (pre ++ n :: post) !! nkey n = Some (nval n).
Proof.
  intros Hn. rewrite chain_map_app, lookup_union_r by (by apply chain_map_None).
  unfold chain_map. simpl. by rewrite lookup_insert_eq.
Qed.

Lemma wp_hash_get h self M F k :
  table_at h self M F ->
  hash_get (Some self) k h =
    Ok (match M !! k with Some v => (1, Some v) | None => (0, None) end).
Proof.
  intros (t & nss & Ht & <- & _).
  set (i := hash k mod bucket_count t). pose proof (bucket_index _ _ _ _ Ht k : 0 <= i < zlen nss) as Hi.
  unfold hash_get, load_table. simpl. rewrite (load_Ok _ _ _ (inv_table _ _ _ _ Ht)). simpl.
  rewrite (bucket_of_Ok _ _ _ _ Ht). simpl. fold i. rewrite (rd_bucket _ _ _ _ Ht) by done. simpl.
  pose proof (inv_linked _ _ _ _ Ht i Hi) as Hl.
  destruct (proj1 (wp_exists _ _) (wp_find_entry h nss.[i] k Hl (chain_NoDup _ _ _ _ Ht i Hi)))
    as (p & -> & Hp). simpl.
  rewrite (contents_lookup _ _ _ _ k Ht). fold i. destruct p as [a|]; simpl in *.
  - destruct Hp as (pre & n & post & E & Hk & <- & <-). rewrite E in *.
    rewrite chain_map_middle by done. apply linked_app in Hl as [(Ha & _ & _) _].
    unfold load_entry. by rewrite (load_Ok _ _ _ Ha).
  - apply chain_map_None in Hp. by rewrite Hp.
Qed.

(** ** hash_set *)

Lemma chain_locs_middle pre n v post :
  chain_locs (pre ++ Node (addr n) (kaddr n) (nkey n) v :: post) = chain_locs (pre ++ n :: post).
Proof. rewrite !chain_locs_app. done. Qed.

Lemma linked_set m pre n v post :
  linked m (pre ++ n :: post) -> NoDup (chain_locs (pre ++ n :: post)) ->
  linked (<[addr n := BEntry (Entry (Some (kaddr n)) v (head_ptr post))]> m)
    (pre ++ Node (addr n) (kaddr n) (nkey n) v :: post).
Proof.
  induction pre as [|p pre IH]; intros Hl Hnd; simpl in *; destruct Hl as (Ha & Hk & Hl);
    apply NoDup_cons in Hnd as [Hn1 Hnd]; apply NoDup_cons in Hnd as [Hn2 Hnd].
  - split_and!; [by rewrite lookup_insert_eq| |].
    + rewrite lookup_insert_ne; [done|]. intros E. apply Hn1. rewrite E. by left.
    + eapply linked_ext; [|done]. intros l Hl'. rewrite lookup_insert_ne; [done|].
      intros <-. apply Hn1. by right.
  - assert (addr n ∈ chain_locs (pre ++ n :: post)) as Hin
      by (rewrite chain_locs_app; apply elem_of_app; right; by left).
    split_and!; [| |by apply IH].
    + rewrite lookup_insert_ne by (intros E; apply Hn1; right; by rewrite <- E).
      rewrite Ha. do 3 f_equal. by destruct pre.
    + rewrite lookup_insert_ne by (intros E; apply Hn2; by rewrite <- E). done.
Qed.

Section set_and_remove.
Context (malloc_ok : nat -> bool).

(** Whether the next two calls of malloc succeed. *)
Definition room (h : heap block) : bool := malloc_ok (calls h) && malloc_ok (S (calls h)).

Lemma wp_make_entry k v h :
  wp (make_entry malloc_ok k v h) (fun '(p, h') =>
    if room h then
      exists l1 l2, p = Some l1 /\ l1 <> l2 /\ cells h !! l1 = None /\ cells h !! l2 = None /\
        cells h' = <[l1 := BEntry (Entry (Some l2) v None)]> (<[l2 := BStr k]> (cells h))
    else p = None /\ cells h' = cells h).
Proof.
  unfold room, make_entry, malloc. destruct (malloc_ok (calls h)); simpl; [|done].
  set (l1 := fresh_loc (cells h)). set (b := BEntry _).
  pose proof (fresh_loc_fresh (cells h)) as Hf1. fold l1 in Hf1.
  destruct (malloc_ok (S (calls h))); simpl.
  - set (l2 := fresh_loc (<[l1:=b]> (cells h))).
    pose proof (fresh_loc_fresh (<[l1:=b]> (cells h))) as Hf2. fold l2 in Hf2.
    assert (l1 <> l2) as Hne by (intros E; rewrite <- E, lookup_insert_eq in Hf2; done).
    rewrite lookup_insert_ne in Hf2 by done.
    erewrite store_Ok by (simpl; apply lookup_insert_eq). simpl.
    erewrite store_Ok by (simpl; rewrite insert_insert_eq, lookup_insert_ne by done;
      apply lookup_insert_eq). simpl.
    exists l1, l2. split_and!; try done.
    simpl. rewrite insert_insert_eq, (insert_insert_ne _ l2 l1), insert_insert_eq by done. done.
  - erewrite free_Ok by (simpl; apply lookup_insert_eq). simpl.
    split; [done|]. simpl. rewrite delete_insert_id by done. done.
Qed.

(** The search of a key's bucket, as try_set and hash_get begin. *)
Lemma find_in_bucket h self t nss k :
  table_inv (cells h) self t nss ->
  exists p, find_entry k (head_ptr nss.[hash k mod bucket_count t]) h = Ok p /\
    found_in nss.[hash k mod bucket_count t] k p.
Proof.
  intros Ht. pose proof (bucket_index _ _ _ _ Ht k) as Hi. apply wp_exists.
  apply wp_find_entry; [by apply (inv_linked _ _ _ _ Ht)|by apply (chain_NoDup _ _ _ _ Ht)].
Qed.

(** One bucket's chain is replaced by [ns], which changes at most what the
    table holds for [k]: the new heap stands for the changed map and leaves
    the rest of the heap alone. *)
Lemma table_at_upd h h' self t t' nss k ns F :
  table_inv (cells h) self t nss ->
  (forall l, F !! l = if decide (l ∈ table_locs self nss) then None else cells h !! l) ->
  let i := hash k mod bucket_count t in
  chain_ok (cells h') self t nss i ns ->
  cells h' !! self = Some (BTable t') -> bucket_count t' = bucket_count t ->
  buckets t' = upd (buckets t) i (head_ptr ns) ->
  (forall l, l <> self -> (l ∉ chain_locs nss.[i]) -> (l ∉ chain_locs ns) ->
     cells h' !! l = cells h !! l) ->
  (forall l, l ∈ chain_locs nss.[i] -> (l ∉ chain_locs ns) -> cells h' !! l = None) ->
  (forall l, l ∈ chain_locs ns -> (l ∉ chain_locs nss.[i]) -> cells h !! l = None) ->
  (forall k', k' <> k -> chain_map ns !! k' = chain_map nss.[i] !! k') ->
  table_at h' self (partial_alter (fun _ => chain_map ns !! k) k (contents_of nss)) F.
Proof.
  intros Ht HF i Hok Hself Hcount Hbs Hframe Hgone Hnew Hmap.
  pose proof (bucket_index _ _ _ _ Ht k : 0 <= i < zlen nss) as Hi.
  pose proof (inv_locs _ _ _ _ Ht) as Hall.
  assert (table_inv (cells h') self t' (upd nss i ns)) as Ht'.
  { apply (table_upd _ _ _ _ Ht); try done. intros l Hl Hls Hli.
    destruct (decide (l ∈ chain_locs ns)) as [Hin|Hin]; [|by apply Hframe].
    destruct (ok_locs _ _ _ _ _ _ Hok l Hin); done. }
  exists t', (upd nss i ns). split_and!; [done| |].
  - apply map_eq. intros k'. rewrite (contents_upd _ _ _ _ Ht _ _ _ _ Ht') by done.
    case_decide; [subst; by rewrite lookup_partial_alter_eq|by rewrite lookup_partial_alter_ne].
  - intros l. rewrite HF.
    pose proof (table_locs_upd self nss i ns l Hall Hi (ok_locs _ _ _ _ _ _ Hok)) as Hloc.
    destruct (decide (l ∈ table_locs self (upd nss i ns))) as [Hin|Hin],
      (decide (l ∈ table_locs self nss)) as [Hin'|Hin']; try done.
    + apply Hloc in Hin as [[? _]|Hin]; [done|]. apply Hnew; [done|]. intros Hl.
      apply Hin'. right. by apply (chain_locs_in nss i).
    + symmetry. apply Hgone; [|tauto]. destruct (decide (l ∈ chain_locs nss.[i])); tauto.
    + symmetry. apply Hframe; [|intros Hl; apply Hin'; right; by apply (chain_locs_in nss i)|tauto].
      intros ->. apply Hin'. by left.
Qed.

(** No block of a chain is the table's own. *)
Lemma chain_not_self m self t nss i l :
  table_inv m self t nss -> 0 <= i < zlen nss -> l ∈ chain_locs nss.[i] -> l <> self.
Proof.
  intros Ht Hi Hl ->. pose proof (inv_locs _ _ _ _ Ht) as Hall.
  apply NoDup_cons in Hall as [Hs _]. apply Hs. by apply (chain_locs_in nss i).
Qed.

(** Overwriting the value of an entry that is there. *)
Lemma table_set_old h self t nss k v pre n post F :
  table_inv (cells h) self t nss ->
  nss.[hash k mod bucket_count t] = pre ++ n :: post -> nkey n = k -> (k ∉ map nkey pre) ->
  (forall l, F !! l = if decide (l ∈ table_locs self nss) then None else cells h !! l) ->
  table_at (Heap (<[addr n := BEntry (Entry (Some (kaddr n)) v (head_ptr post))]> (cells h)) (calls h))
    self (<[k := v]> (contents_of nss)) F.
Proof.
  intros Ht E Hk Hpre HF. set (i := hash k mod bucket_count t) in *.
  pose proof (bucket_index _ _ _ _ Ht k : 0 <= i < zlen nss) as Hi.
  pose proof (inv_linked _ _ _ _ Ht i Hi) as Hl. pose proof (chain_NoDup _ _ _ _ Ht i Hi) as Hnd.
  pose proof (inv_place _ _ _ _ Ht i) as Hplace. pose proof (inv_keys _ _ _ _ Ht i Hi) as Hkeys.
  set (n' := Node (addr n) (kaddr n) (nkey n) v). set (ns' := pre ++ n' :: post).
  assert (chain_locs ns' = chain_locs nss.[i]) as Hlocs by (rewrite E; apply chain_locs_middle).
  assert (addr n ∈ chain_locs nss.[i]) as Hin
    by (rewrite E, chain_locs_app; apply elem_of_app; right; by left).
  pose proof (chain_not_self _ _ _ _ _ _ Ht Hi Hin) as Hns.
  rewrite E in Hl, Hnd, Hkeys, Hplace. rewrite map_app in Hkeys.
  assert (chain_map ns' !! k = Some v) as Hv.
  { rewrite <- Hk. apply (chain_map_middle pre n' post). by rewrite <- Hk in Hpre. }
  replace (<[k:=v]> (contents_of nss)) with
    (partial_alter (fun _ => chain_map ns' !! k) k (contents_of nss)) by (by rewrite Hv).
  eapply (table_at_upd h _ self t t nss k ns' F Ht HF); fold i; simpl.
  - split; rewrite ?Hlocs; [by apply linked_set|by rewrite E|auto| |by unfold ns'; rewrite map_app].
    intros x Hx. unfold ns' in Hx. rewrite elem_of_app, elem_of_cons in Hx.
    destruct Hx as [Hx|[->|Hx]]; [apply (Hplace x Hi)|apply (Hplace n Hi)|apply (Hplace x Hi)];
      rewrite elem_of_app, elem_of_cons; auto.
  - rewrite lookup_insert_ne by done. apply (inv_table _ _ _ _ Ht).
  - done.
  - replace (head_ptr ns') with (map head_ptr nss).[i]
      by (rewrite aget_map by done; rewrite E; by destruct pre).
    by rewrite (inv_heads _ _ _ _ Ht), upd_aget.
  - intros l _ Hl' _. rewrite lookup_insert_ne; [done|]. by intros <-.
  - intros l Hl' Hl''. by rewrite Hlocs in Hl''.
  - intros l Hl' Hl''. by rewrite Hlocs in Hl'.
  - intros k' Hne. rewrite E. unfold ns'. rewrite !chain_map_app, !lookup_union.
    f_equal. unfold chain_map. simpl. rewrite !lookup_insert_ne by congruence. done.
Qed.

Lemma chain_locs_cons n ns : chain_locs (n :: ns) = addr n :: kaddr n :: chain_locs ns.
Proof. done. Qed.

Lemma linked_locs m ns l : linked m ns -> l ∈ chain_locs ns -> is_Some (m !! l).
Proof.
  induction ns as [|n ns IH]; simpl; [by rewrite elem_of_nil|]. intros (Ha & Hk & Hl) Hin.
  rewrite chain_locs_cons, !elem_of_cons in Hin. destruct Hin as [->|[->|Hin]]; eauto.
Qed.

Lemma chain_locs_concat nss l :
  l ∈ chain_locs (concat nss) -> exists i, 0 <= i < zlen nss /\ l ∈ chain_locs nss.[i].
Proof.
  induction nss as [|ns nss IH]; simpl; [by rewrite elem_of_nil|].
  rewrite chain_locs_app, elem_of_app, zlen_cons. pose proof (zlen_nonneg nss).
  intros [Hl|Hl]; [exists 0; split; [lia|done]|].
  destruct (IH Hl) as (i & Hi & Hl'). exists (i + 1). split; [lia|]. unfold aget in *.
  by replace (Z.to_nat (i + 1)) with (S (Z.to_nat i)) by lia.
Qed.

Lemma table_locs_alloc m self t nss l :
  table_inv m self t nss -> l ∈ table_locs self nss -> is_Some (m !! l).
Proof.
  intros Ht Hl. apply elem_of_cons in Hl as [->|Hl]; [rewrite (inv_table _ _ _ _ Ht); eauto|].
  apply chain_locs_concat in Hl as (i & Hi & Hl).
  eapply linked_locs; [|done]. by apply (inv_linked _ _ _ _ Ht).
Qed.

(** Linking in a new entry at the head of its bucket. *)
Lemma table_set_new h h1 self t t' nss k v l1 l2 F :
  table_inv (cells h) self t nss -> (k ∉ map nkey nss.[hash k mod bucket_count t]) ->
  l1 <> l2 -> cells h !! l1 = None -> cells h !! l2 = None ->
  cells h1 = <[l1 := BEntry (Entry (Some l2) v None)]> (<[l2 := BStr k]> (cells h)) ->
  bucket_count t' = bucket_count t ->
  buckets t' = upd (buckets t) (hash k mod bucket_count t) (Some l1) ->
  (forall l, F !! l = if decide (l ∈ table_locs self nss) then None else cells h !! l) ->
  table_at (Heap (<[self := BTable t']>
      (<[l1 := BEntry (Entry (Some l2) v (head_ptr nss.[hash k mod bucket_count t]))]> (cells h1)))
      (calls h1)) self (<[k := v]> (contents_of nss)) F.
Proof.
  intros Ht Hk Hne H1 H2 Hh1 Hc Hbs HF. set (i := hash k mod bucket_count t) in *.
  pose proof (bucket_index _ _ _ _ Ht k : 0 <= i < zlen nss) as Hi.
  pose proof (inv_linked _ _ _ _ Ht i Hi) as Hl. pose proof (chain_NoDup _ _ _ _ Ht i Hi) as Hnd.
  pose proof (inv_table _ _ _ _ Ht) as Hself.
  assert (forall l, l ∈ table_locs self nss -> l <> l1 /\ l <> l2) as Hold.
  { intros l Hl'. destruct (table_locs_alloc _ _ _ _ l Ht Hl'). split; congruence. }
  destruct (Hold self ltac:(by left)) as [Hs1 Hs2].
  assert (forall l, l ∈ chain_locs nss.[i] -> l <> l1 /\ l <> l2 /\ l <> self) as Hch.
  { intros l Hl'. pose proof (chain_not_self _ _ _ _ _ _ Ht Hi Hl').
    destruct (Hold l); [right; by apply (chain_locs_in nss i)|done]. }
  set (n := Node l1 l2 k v). set (ns' := n :: nss.[i]).
  assert (chain_map ns' !! k = Some v) as Hv by (by apply (chain_map_middle [] n); apply not_elem_of_nil).
  replace (<[k:=v]> (contents_of nss)) with
    (partial_alter (fun _ => chain_map ns' !! k) k (contents_of nss)) by (by rewrite Hv).
  eapply (table_at_upd h _ self t t' nss k ns' F Ht HF); fold i; simpl; try done;
    rewrite ?Hh1, ?insert_insert_eq.
  - split.
    + split_and!.
      * by rewrite lookup_insert_ne, lookup_insert_eq by done.
      * by rewrite lookup_insert_ne, lookup_insert_ne, lookup_insert_eq by done.
      * eapply linked_ext; [|done]. intros l Hl'. destruct (Hch l Hl') as (? & ? & ?).
        by rewrite !lookup_insert_ne by done.
    + unfold ns'. rewrite chain_locs_cons, !NoDup_cons, !elem_of_cons. simpl.
      split_and!; [|intros Hin; naive_solver|done].
      intros [?|Hin]; [done|]. naive_solver.
    + intros l Hl'. unfold ns' in Hl'. rewrite chain_locs_cons, !elem_of_cons in Hl'. simpl in Hl'.
      destruct Hl' as [->|[->|Hl']]; [right|right|by left]; intros Hin; naive_solver.
    + intros n' Hn'. apply elem_of_cons in Hn' as [->|Hn']; [done|].
      by apply (inv_place _ _ _ _ Ht i).
    + simpl. apply NoDup_cons. split; [done|]. by apply (inv_keys _ _ _ _ Ht).
  - by rewrite lookup_insert_eq.
  - intros l Hls Hl' Hl''. unfold ns' in Hl''. rewrite chain_locs_cons, !elem_of_cons in Hl''. simpl in Hl''.
    by rewrite !lookup_insert_ne by naive_solver.
  - intros l Hl' Hl''. exfalso. apply Hl''. by do 2 right.
  - intros l Hl' Hl''. unfold ns' in Hl'. rewrite chain_locs_cons, !elem_of_cons in Hl'.
    by destruct Hl' as [->|[->|Hl']].
  - intros k' Hk'. unfold ns', chain_map. simpl. by rewrite lookup_insert_ne by congruence.
Qed.

Lemma hash_set_spec h self M F k v :
  table_at h self M F ->
  match hash_set malloc_ok (Some self) k v h with
  | Ok h' => table_at h' self (<[k := v]> M) F /\ (is_Some (M !! k) \/ room h = true)
  | Fail f => f = Aborted /\ M !! k = None /\ room h = false
  end.
Proof.
  intros (t & nss & Ht & <- & HF). set (i := hash k mod bucket_count t).
  pose proof (bucket_index _ _ _ _ Ht k : 0 <= i < zlen nss) as Hi.
  unfold hash_set, try_set, load_table. simpl.
  rewrite (load_Ok _ _ _ (inv_table _ _ _ _ Ht)). simpl.
  rewrite (bucket_of_Ok _ _ _ _ Ht). simpl. fold i. rewrite (rd_bucket _ _ _ _ Ht) by done. simpl.
  destruct (find_in_bucket h self t nss k Ht) as (p & Ep & Hp). fold i in Ep, Hp. rewrite Ep. simpl.
  pose proof (inv_linked _ _ _ _ Ht i Hi) as Hl. destruct p as [a|]; simpl in *.
  - destruct Hp as (pre & n & post & E & Hk & Hn & <-). rewrite E in Hl.
    apply linked_app in Hl as [(Ha & _ & _) _]. unfold load_entry.
    rewrite (load_Ok _ _ _ Ha). simpl. rewrite (store_Ok _ _ _ _ Ha). simpl.
    split; [by apply (table_set_old h self t nss k v pre n post F)|left].
    rewrite (contents_lookup _ _ _ _ k Ht). fold i. rewrite E, <- Hn, chain_map_middle; [eauto|by rewrite Hn].
  - pose proof (wp_make_entry k v h) as Hm. destruct (make_entry malloc_ok k v h) as [[q h1]|]; [|done].
    simpl in *. destruct (room h) eqn:Hroom.
    + destruct Hm as (l1 & l2 & -> & Hne & H1 & H2 & Hh1). simpl.
      assert (cells h1 !! l1 = Some (BEntry (Entry (Some l2) v None))) as Hl1
        by (by rewrite Hh1, lookup_insert_eq).
      unfold load_entry. rewrite (load_Ok _ _ _ Hl1). simpl.
      rewrite (store_Ok _ _ _ _ Hl1). simpl.
      rewrite wr_Ok by (rewrite (inv_heads _ _ _ _ Ht), zlen_map; done). simpl.
      pose proof (inv_table _ _ _ _ Ht) as Hself.
      erewrite store_Ok; simpl.
      * split; [by apply (table_set_new h h1 self t _ nss k v l1 l2 F)|by right].
      * rewrite lookup_insert_ne by congruence. rewrite Hh1, !lookup_insert_ne by congruence. done.
    + destruct Hm as [-> Hh1]. simpl. split_and!; [done| |done].
      rewrite (contents_lookup _ _ _ _ k Ht). by apply chain_map_None.
Qed.

(** ** hash_remove *)

(** The slot the search has reached after the entries [pre] of bucket [i]. *)
Definition slot_after (i : Z) (pre : list node) : slot :=
  match last pre with
  | None => Bucket i
  | Some p => Next (Some (addr p))
  end.

Lemma read_slot_after h self t nss i pre post :
  table_inv (cells h) self t nss -> 0 <= i < zlen nss -> nss.[i] = pre ++ post ->
  read_slot (Some self) (slot_after i pre) h = Ok (head_ptr post).
Proof.
  intros Ht Hi E. pose proof (inv_linked _ _ _ _ Ht i Hi) as Hl. rewrite E in Hl.
  apply linked_app in Hl as [_ Hlast]. unfold slot_after. destruct (last pre) as [p|] eqn:Ep; simpl.
  - unfold load_entry. by rewrite (load_Ok _ _ _ Hlast).
  - unfold load_table. rewrite (load_Ok _ _ _ (inv_table _ _ _ _ Ht)). simpl.
    rewrite (rd_bucket _ _ _ _ Ht), E by done. apply last_None in Ep. by subst.
Qed.

Lemma wp_find_slot h self t nss k :
  table_inv (cells h) self t nss ->
  let i := hash k mod bucket_count t in
  wp (find_slot (Some self) k (Bucket i) h) (fun s =>
    exists pre post, nss.[i] = pre ++ post /\ s = slot_after i pre /\ (k ∉ map nkey pre) /\
      match post with [] => True | n :: _ => nkey n = k end).
Proof.
  intros Ht i. pose proof (bucket_index _ _ _ _ Ht k : 0 <= i < zlen nss) as Hi.
  pose proof (inv_linked _ _ _ _ Ht i Hi) as Hl.
  pose proof (linked_length _ _ Hl (chain_NoDup _ _ _ _ Ht i Hi)) as Hlen.
  apply (wp_loop_idx (fun j s => exists pre post, nss.[i] = pre ++ post /\ length post = j /\
    s = slot_after i pre /\ (k ∉ map nkey pre)) (length nss.[i])).
  - exists [], nss.[i]. split_and!; try done. apply not_elem_of_nil.
  - unfold chain_fuel. lia.
  - intros j s (pre & post & E & <- & -> & Hk). rewrite (read_slot_after _ _ _ _ _ _ _ Ht Hi E). simpl.
    destruct post as [|n post]; simpl.
    { exists pre, []. done. }
    rewrite E in Hl. pose proof (linked_app _ _ _ Hl) as [(Ha & Hs & _) _].
    unfold load_entry, load_str. rewrite (load_Ok _ _ _ Ha). simpl.
    rewrite (load_Ok _ _ _ Hs). simpl. case_bool_decide as Ek; simpl.
    + exists pre, (n :: post). done.
    + exists (length post). split; [lia|]. exists (pre ++ [n]), post. rewrite <- app_assoc.
      split_and!; [done..| |].
      * unfold slot_after. by rewrite last_snoc.
      * rewrite map_app, elem_of_app. simpl. rewrite list_elem_of_singleton.
        intros [?|?]; [by apply Hk|by apply Ek].
Qed.

Lemma linked_unlink m pre p n post :
  linked m ((pre ++ [p]) ++ n :: post) -> NoDup (chain_locs ((pre ++ [p]) ++ n :: post)) ->
  linked (<[addr p := BEntry (Entry (Some (kaddr p)) (nval p) (head_ptr post))]> m)
    ((pre ++ [p]) ++ post).
Proof.
  induction pre as [|q pre IH]; intros Hl Hnd; simpl in *; destruct Hl as (Ha & Hk & Hl);
    apply NoDup_cons in Hnd as [Hn1 Hnd]; apply NoDup_cons in Hnd as [Hn2 Hnd].
  - destruct Hl as (_ & _ & Hl). split_and!; [by rewrite lookup_insert_eq| |].
    + rewrite lookup_insert_ne; [done|]. intros E. apply Hn1. rewrite E. by left.
    + eapply linked_ext; [|done]. intros l Hl'. rewrite lookup_insert_ne; [done|].
      intros <-. apply Hn1. by do 3 right.
  - assert (addr p ∈ chain_locs ((pre ++ [p]) ++ n :: post)) as Hin.
    { rewrite !chain_locs_app, !elem_of_app. left. right. by left. }
    split_and!; [| |by apply IH].
    + rewrite lookup_insert_ne by (intros E; apply Hn1; right; by rewrite <- E).
      rewrite Ha. do 3 f_equal. by destruct pre.
    + rewrite lookup_insert_ne by (intros E; apply Hn2; by rewrite <- E). done.
Qed.

Lemma wp_write_slot h self t nss i pre n post :
  table_inv (cells h) self t nss -> 0 <= i < zlen nss -> nss.[i] = pre ++ n :: post ->
  wp (write_slot (Some self) (slot_after i pre) (head_ptr post) h) (fun h' =>
    linked (cells h') (pre ++ post) /\
    (exists t', cells h' !! self = Some (BTable t') /\ bucket_count t' = bucket_count t /\
       buckets t' = upd (buckets t) i (head_ptr (pre ++ post))) /\
    forall l, l <> self -> (l ∉ chain_locs pre) -> cells h' !! l = cells h !! l).
Proof.
  intros Ht Hi E. pose proof (inv_linked _ _ _ _ Ht i Hi) as Hl.
  pose proof (chain_NoDup _ _ _ _ Ht i Hi) as Hnd.
  assert (forall l, l ∈ chain_locs nss.[i] -> l <> self) as Hns
    by (intros l; by apply (chain_not_self _ _ _ _ _ _ Ht Hi)).
  pose proof (inv_table _ _ _ _ Ht) as Hself. pose proof (inv_heads _ _ _ _ Ht) as Hheads.
  pose proof (@aget_map _ _ _ _ head_ptr nss i Hi) as Hhead.
  rewrite E in *. unfold slot_after. destruct (last pre) as [p|] eqn:Ep; simpl.
  - apply last_Some in Ep as (pre' & ->). pose proof (linked_app _ _ _ Hl) as [_ Hlast].
    rewrite last_snoc in Hlast. unfold load_entry. rewrite (load_Ok _ _ _ Hlast). simpl.
    rewrite (store_Ok _ _ _ _ Hlast). simpl. split_and!.
    + by apply (linked_unlink _ _ _ n).
    + exists t. rewrite lookup_insert_ne.
      * split_and!; [done..|]. replace (head_ptr ((pre' ++ [p]) ++ post)) with (map head_ptr nss).[i].
        { by rewrite Hheads, upd_aget. }
        rewrite Hhead. by destruct pre'.
      * apply Hns. rewrite !chain_locs_app, !elem_of_app. left. right. by left.
    + intros l Hls Hlp. rewrite lookup_insert_ne; [done|]. intros <-. apply Hlp.
      rewrite chain_locs_app, elem_of_app. right. by left.
  - apply last_None in Ep. subst pre. simpl in *. destruct Hl as (_ & _ & Hl).
    unfold load_table. rewrite (load_Ok _ _ _ Hself). simpl.
    rewrite wr_Ok by (by rewrite Hheads, zlen_map). simpl. rewrite (store_Ok _ _ _ _ Hself). simpl.
    split_and!.
    + eapply linked_ext; [|done]. intros l Hl'. rewrite lookup_insert_ne; [done|]. apply not_eq_sym, Hns.
      by do 2 right.
    + eexists. by rewrite lookup_insert_eq.
    + intros l Hls _. by rewrite lookup_insert_ne.
Qed.

(** The table once the entry after [pre] is out of its chain and freed. *)
Lemma table_unlink h h1 self t t1 lf nss k pre n post F :
  table_inv (cells h) self t nss ->
  let i := hash k mod bucket_count t in
  nss.[i] = pre ++ n :: post -> nkey n = k -> (k ∉ map nkey pre) ->
  linked (cells h1) (pre ++ post) ->
  bucket_count t1 = bucket_count t -> buckets t1 = upd (buckets t) i (head_ptr (pre ++ post)) ->
  (forall l, l <> self -> (l ∉ chain_locs pre) -> cells h1 !! l = cells h !! l) ->
  (forall l, F !! l = if decide (l ∈ table_locs self nss) then None else cells h !! l) ->
  table_at (Heap (<[self := BTable (Table lf (bucket_count t1) (buckets t1))]>
    (delete (addr n) (delete (kaddr n) (cells h1)))) (calls h1)) self (delete k (contents_of nss)) F.
Proof.
  intros Ht i E Hpost Hpre Hl1 Hc1 Hb1 Hframe1 HF.
  pose proof (bucket_index _ _ _ _ Ht k : 0 <= i < zlen nss) as Hi.
  pose proof (chain_NoDup _ _ _ _ Ht i Hi) as Hnd. pose proof (inv_keys _ _ _ _ Ht i Hi) as Hkeys.
  pose proof (fun n => inv_place _ _ _ _ Ht i n Hi) as Hplace.
  assert (forall l, l ∈ chain_locs nss.[i] -> l <> self) as Hns
    by (intros l; by apply (chain_not_self _ _ _ _ _ _ Ht Hi)).
  rewrite E, map_app in Hkeys. apply NoDup_app in Hkeys as (Hk1 & Hk2 & Hk3).
  apply NoDup_cons in Hk3 as [Hk3 Hk4]. rewrite E in Hnd, Hns, Hplace.
  rewrite chain_locs_app, chain_locs_cons in Hnd, Hns. apply NoDup_app in Hnd as (Hnd1 & Hd & Hnd2).
  apply NoDup_cons in Hnd2 as [Hn1 Hnd2]. apply NoDup_cons in Hnd2 as [Hn2 Hnd2].
  rewrite elem_of_cons in Hn1.
  setoid_rewrite elem_of_app in Hns. setoid_rewrite elem_of_cons in Hns.
  setoid_rewrite elem_of_cons in Hns. setoid_rewrite elem_of_cons in Hd. setoid_rewrite elem_of_cons in Hd.
  assert (chain_map (pre ++ post) !! k = None) as Hgone.
  { apply chain_map_None. rewrite map_app, elem_of_app. rewrite Hpost in Hk3. tauto. }
  replace (delete k (contents_of nss)) with
    (partial_alter (fun _ => chain_map (pre ++ post) !! k) k (contents_of nss)) by (by rewrite Hgone).
  eapply (table_at_upd h _ self t (Table lf (bucket_count t1) (buckets t1)) nss k (pre ++ post) F Ht HF);
    fold i; simpl; try done;
    rewrite ?E, ?chain_locs_app, ?chain_locs_cons.
  - split; rewrite ?E, ?chain_locs_app, ?chain_locs_cons.
    + eapply linked_ext; [|exact Hl1]. intros l. rewrite chain_locs_app, elem_of_app. intros Hl.
      specialize (Hd l). specialize (Hns l).
      rewrite lookup_insert_ne, !lookup_delete_ne by (intros <-; tauto). done.
    + apply NoDup_app. split_and!; [done| |done]. intros l Hl Hl'. apply (Hd l Hl). tauto.
    + intros l. rewrite !elem_of_app, !elem_of_cons. tauto.
    + intros x Hx. apply Hplace. rewrite elem_of_app in *. rewrite elem_of_cons. tauto.
    + rewrite map_app. apply NoDup_app. split_and!; [done| |done]. intros x Hx Hx'.
      apply (Hk2 x Hx). by right.
  - by rewrite lookup_insert_eq.
  - intros l Hls. rewrite elem_of_app, !elem_of_cons. intros Hl _.
    rewrite lookup_insert_ne, !lookup_delete_ne by (intros <-; tauto). apply Hframe1; tauto.
  - intros l. rewrite !elem_of_app, !elem_of_cons. intros Hl Hl'. specialize (Hns l).
    rewrite lookup_insert_ne by (intros <-; tauto).
    destruct Hl as [Hl|[->|[->|Hl]]]; [tauto|by rewrite lookup_delete_eq| |tauto].
    rewrite lookup_delete_ne by (intros E'; apply Hn1; by left). by rewrite lookup_delete_eq.
  - intros l. rewrite !elem_of_app, !elem_of_cons. tauto.
  - intros k' Hk'. rewrite !chain_map_app, !lookup_union. f_equal.
    unfold chain_map. simpl. by rewrite lookup_insert_ne by congruence.
Qed.

Lemma wp_hash_remove h self M F k :
  table_at h self M F ->
  wp (hash_remove (Some self) k h) (fun h' => table_at h' self (delete k M) F).
Proof.
  intros (t & nss & Ht & <- & HF). set (i := hash k mod bucket_count t).
  pose proof (bucket_index _ _ _ _ Ht k : 0 <= i < zlen nss) as Hi.
  unfold hash_remove, load_table. simpl. rewrite (load_Ok _ _ _ (inv_table _ _ _ _ Ht)). simpl.
  rewrite (bucket_of_Ok _ _ _ _ Ht). simpl. fold i. wp_step.
  eapply wp_mono; [apply (wp_find_slot _ _ _ _ _ Ht)|]. fold i. intros s (pre & post & E & -> & Hpre & Hpost).
  rewrite (read_slot_after _ _ _ _ _ _ _ Ht Hi E). simpl. destruct post as [|n post]; simpl.
  - rewrite delete_id; [by exists t, nss|].
    rewrite (contents_lookup _ _ _ _ k Ht). fold i. apply chain_map_None. rewrite E, app_nil_r. done.
  - pose proof (inv_linked _ _ _ _ Ht i Hi) as Hl. pose proof (chain_NoDup _ _ _ _ Ht i Hi) as Hnd.
    assert (forall l, l ∈ chain_locs nss.[i] -> l <> self) as Hns
      by (intros l; by apply (chain_not_self _ _ _ _ _ _ Ht Hi)).
    rewrite E in Hl, Hnd, Hns. apply linked_app in Hl as [(Ha & Hs & _) _].
    rewrite chain_locs_app, chain_locs_cons in Hnd, Hns. apply NoDup_app in Hnd as (_ & Hd & Hnd).
    apply NoDup_cons in Hnd as [Hn1 _].
    unfold load_entry. rewrite (load_Ok _ _ _ Ha). simpl.
    wp_step. eapply wp_mono; [by apply (wp_write_slot _ _ _ _ _ _ n _ Ht Hi E)|].
    intros h1 (Hl1 & (t1 & Hself1 & Hc1 & Hb1) & Hframe1).
    assert (addr n <> self /\ kaddr n <> self) as [Hs1 Hs2]
      by (split; apply Hns; rewrite elem_of_app, !elem_of_cons; auto).
    rewrite <- Hframe1 in Ha, Hs
      by (done || intros Hin; apply (Hd _ Hin); rewrite !elem_of_cons; auto).
    rewrite (free_Ok _ _ _ Hs). simpl.
    erewrite free_Ok by (simpl; rewrite lookup_delete_ne; [exact Ha|intros E'; apply Hn1; rewrite E'; by left]).
    simpl. erewrite load_Ok by (simpl; rewrite !lookup_delete_ne by done; exact Hself1). simpl.
    erewrite store_Ok by (simpl; rewrite !lookup_delete_ne by done; exact Hself1). simpl.
    by apply (table_unlink h h1 self t t1 _ nss k pre n post F Ht E).
Qed.

(** ** hash_new and hash_delete *)

Definition no_chains : list (list node) := replicate 100 [].

Lemma aget_no_chains i : 0 <= i < 100 -> no_chains.[i] = [].
Proof. apply (aget_replicate 100 []). Qed.

Lemma wp_hash_new h :
  wp (hash_new malloc_ok h) (fun '(p, h') =>
    if malloc_ok (calls h)
    then exists self, p = Some self /\ table_at h' self ∅ (cells h)
    else p = None /\ cells h' = cells h).
Proof.
  unfold hash_new, make_hash, malloc. destruct (malloc_ok (calls h)); cbv beta iota delta [is_null]; [|done].
  set (self := fresh_loc (cells h)). pose proof (fresh_loc_fresh (cells h)) as Hf. fold self in Hf.
  unfold load_table. erewrite load_Ok by apply lookup_insert_eq. cbn [bind buckets].
  set (junk := replicate _ _). assert (zlen junk = MIN_BUCKET_COUNT) as Hj by done. clearbody junk.
  wp_step. apply (wp_mono _ (fun bs => bs = map head_ptr no_chains)).
  - apply (wp_for_up (fun i (bs : list ptr) => zlen bs = MIN_BUCKET_COUNT /\
      forall j, 0 <= j < i -> bs.[j] = None)).
    + split; [done|intros; lia].
    + intros i bs Hi [Hl Hb]. wp_step. rewrite zlen_upd. split; [done|]. intros j Hj'.
      rewrite aget_upd by lia. case_decide; [done|]. apply Hb. lia.
    + intros bs [Hl Hb]. apply aget_ext; [done|]. rewrite Hl. intros j Hj'.
      rewrite Hb by (unfold MIN_BUCKET_COUNT in *; lia). rewrite aget_map by done.
      by rewrite aget_no_chains by (unfold MIN_BUCKET_COUNT in *; lia).
  - intros bs ->. wp_step. erewrite store_Ok by apply lookup_insert_eq. simpl.
    exists self. split; [done|]. rewrite insert_insert_eq.
    assert (zlen no_chains = 100) as Hz by done.
    eexists _, no_chains. split; [split|split; [done|]]; rewrite ?Hz.
    + apply lookup_insert_eq.
    + done.
    + done.
    + done.
    + intros i Hi. by rewrite aget_no_chains.
    + apply NoDup_singleton.
    + intros i n Hi. rewrite aget_no_chains by done. by rewrite elem_of_nil.
    + intros i Hi. rewrite aget_no_chains by done. apply NoDup_nil_2.
    + intros l. change (table_locs self no_chains) with [self]. simpl. case_decide as Hl.
      * apply list_elem_of_singleton in Hl. by subst.
      * rewrite lookup_insert_ne; [done|]. intros <-. apply Hl. by left.
Qed.

(** The heap without the blocks of [ls]. *)
Definition freed (h h' : heap block) (ls : list loc) : Prop :=
  forall l, cells h' !! l = if decide (l ∈ ls) then None else cells h !! l.

Lemma wp_delete_bucket h ns :
  linked (cells h) ns -> NoDup (chain_locs ns) ->
  wp (delete_bucket (head_ptr ns) h) (fun h' => freed h h' (chain_locs ns)).
Proof.
  intros Hl Hnd. unfold delete_bucket, while. pose proof (linked_length _ _ Hl Hnd) as Hlen.
  wp_step. apply (wp_loop_idx (fun i '(p, h') => exists pre post, ns = pre ++ post /\
    length post = i /\ p = head_ptr post /\ freed h h' (chain_locs pre)) (length ns)).
  - exists [], ns. split_and!; try done.
  - unfold chain_fuel. lia.
  - intros i [p h'] (pre & post & -> & <- & -> & Hfr). pose proof (linked_app _ _ _ Hl) as [Hpost _].
    destruct post as [|n post]; simpl; [by rewrite app_nil_r|].
    rewrite chain_locs_app, chain_locs_cons in Hnd. apply NoDup_app in Hnd as (_ & Hd & Hnd).
    apply NoDup_cons in Hnd as [Hn1 _].
    destruct Hpost as (Ha & Hs & _). assert (cells h' !! addr n = cells h !! addr n) as Ea.
    { rewrite Hfr, decide_False; [done|]. intros Hin. apply (Hd _ Hin). by left. }
    assert (cells h' !! kaddr n = cells h !! kaddr n) as Es.
    { rewrite Hfr, decide_False; [done|]. intros Hin. apply (Hd _ Hin). right. by left. }
    rewrite <- Ea in Ha. rewrite <- Es in Hs. unfold load_entry. rewrite (load_Ok _ _ _ Ha). simpl.
    rewrite (free_Ok _ _ _ Hs). simpl.
    erewrite free_Ok by (simpl; rewrite lookup_delete_ne; [exact Ha|intros E; apply Hn1; rewrite E; by left]).
    simpl. exists (length post). split; [lia|]. exists (pre ++ [n]), post. rewrite <- app_assoc.
    split_and!; try done. intros l. simpl.
    rewrite chain_locs_app. change (chain_locs [n]) with [addr n; kaddr n].
    destruct (decide (l = addr n)) as [->|H1];
      [rewrite lookup_delete_eq, decide_True; [done|]; rewrite elem_of_app, !elem_of_cons; auto|].
    destruct (decide (l = kaddr n)) as [->|H2];
      [rewrite lookup_delete_ne by done; rewrite lookup_delete_eq, decide_True; [done|];
       rewrite elem_of_app, !elem_of_cons; auto|].
    rewrite !lookup_delete_ne, Hfr by done. apply decide_ext.
    rewrite elem_of_app, !elem_of_cons, elem_of_nil. tauto.
Qed.

Lemma wp_hash_delete h self M F :
  table_at h self M F -> wp (hash_delete (Some self) h) (fun h' => cells h' = F).
Proof.
  intros (t & nss & Ht & _ & HF). unfold hash_delete, load_table. simpl.
  rewrite (load_Ok _ _ _ (inv_table _ _ _ _ Ht)). simpl. wp_step.
  rewrite <- (inv_count _ _ _ _ Ht). pose proof (inv_locs _ _ _ _ Ht) as Hall.
  apply (wp_for_up (fun i h' => freed h h' (chain_locs (concat (take (Z.to_nat i) nss))))).
  - intros l. done.
  - intros i h' Hi Hfr. rewrite (rd_bucket _ _ _ _ Ht) by done. simpl.
    assert (forall l, l ∈ chain_locs nss.[i] -> l ∉ chain_locs (concat (take (Z.to_nat i) nss))) as Hdis.
    { intros l Hl Hl'. destruct (aget_split nss i Hi) as (pre & post & E & Hp).
      rewrite E, table_locs_split in Hall. apply NoDup_cons in Hall as [_ Hall].
      apply NoDup_app in Hall as (_ & Hd & _). apply (Hd l); [|apply elem_of_app; by left].
      rewrite E in Hl'. rewrite take_app_le in Hl' by (unfold zlen in Hp; lia).
      rewrite take_ge in Hl' by (unfold zlen in Hp; lia). done. }
    eapply wp_mono; [apply (wp_delete_bucket h' nss.[i])|].
    + eapply linked_ext; [|apply (inv_linked _ _ _ _ Ht i Hi)]. intros l Hl.
      rewrite Hfr, decide_False; [done|]. by apply Hdis.
    + by apply (chain_NoDup _ _ _ _ Ht).
    + intros h'' Hfr' l. rewrite Hfr', Hfr.
      replace (Z.to_nat (i + 1)) with (S (Z.to_nat i)) by lia.
      rewrite (take_S_r nss (Z.to_nat i) nss.[i]) by
        (unfold aget, zlen in *; apply list_lookup_lookup_total_lt; lia).
      rewrite concat_app, chain_locs_app. simpl. rewrite app_nil_r.
      repeat case_decide; try done; rewrite elem_of_app in *; tauto.
  - intros h' Hfr. pose proof (zlen_nonneg nss). rewrite Z.max_r in Hfr by lia.
    rewrite take_ge in Hfr by (unfold zlen; lia).
    apply NoDup_cons in Hall as [Hs _].
    erewrite free_Ok by (rewrite Hfr, decide_False by done; apply (inv_table _ _ _ _ Ht)). simpl.
    apply map_eq. intros l. rewrite HF. destruct (decide (l = self)) as [->|Hne].
    + rewrite lookup_delete_eq, decide_True; [done|by left].
    + rewrite lookup_delete_ne, Hfr by done. apply decide_ext. unfold table_locs.
      rewrite elem_of_cons. tauto.
Qed.

(** ** hash_foreach *)

Definition records (ns : list node) : list piece := concat (map (fun n => record_line (nval n)) ns).

Lemma records_app ns ns' : records (ns ++ ns') = records ns ++ records ns'.
Proof. unfold records. by rewrite map_app, concat_app. Qed.

Lemma wp_foreach_bucket h ns num inp out :
  linked (cells h) ns -> NoDup (chain_locs ns) -> 0 <= num -> num + zlen ns <= INT_MAX ->
  wp (while (chain_fuel h) (fun '(e, _, _) => Ok (negb (is_null e)))
      (fun '(p, num, w) =>
         let* e := load_entry p h in
         let* num := int (num + 1) in
         Ok (next e, num, printf (record_line (value e)) w)) (head_ptr ns, num, Console inp out))
    (fun '(_, num', w) => num' = num + zlen ns /\ w = Console inp (out ++ records ns)).
Proof.
  intros Hl Hnd Hnum Hmax. unfold while. pose proof (linked_length _ _ Hl Hnd) as Hlen.
  apply (wp_loop_idx (fun i '(p, num', w) => exists pre post, ns = pre ++ post /\ length post = i /\
    p = head_ptr post /\ num' = num + zlen pre /\ w = Console inp (out ++ records pre)) (length ns)).
  - exists [], ns. rewrite app_nil_r, Z.add_0_r. done.
  - unfold chain_fuel. lia.
  - intros i [[p num'] w] (pre & post & -> & <- & -> & -> & ->).
    pose proof (linked_app _ _ _ Hl) as [Hpost _]. destruct post as [|n post]; simpl.
    { by rewrite app_nil_r. }
    destruct Hpost as (Ha & _ & _). unfold load_entry. rewrite (load_Ok _ _ _ Ha). simpl.
    rewrite zlen_app, zlen_cons in Hmax. pose proof (zlen_nonneg pre). pose proof (zlen_nonneg post).
    rewrite int_Ok by code_lia. simpl. exists (length post). split; [lia|].
    exists (pre ++ [n]), post. rewrite <- app_assoc, zlen_snoc, records_app.
    split_and!; [done..|lia|]. unfold printf, records. simpl. by rewrite app_assoc.
Qed.

Lemma wp_hash_foreach h self t nss inp out :
  table_inv (cells h) self t nss -> zlen (concat nss) <= INT_MAX ->
  hash_foreach (Some self) h (Console inp out) =
    Ok (Console inp (out ++ records (concat nss) ++
      [PStr "the product num = "; PInt (zlen (concat nss)); PStr "\n"])).
Proof.
  intros Ht Hmax.
  match goal with |- _ = ?r => cut (wp (hash_foreach (Some self) h (Console inp out)) (fun w => Ok w = r)) end.
  { intros H. apply wp_exists in H as (w & -> & H). done. }
  unfold hash_foreach, load_table. rewrite (load_Ok _ _ _ (inv_table _ _ _ _ Ht)). simpl.
  rewrite <- (inv_count _ _ _ _ Ht). wp_step.
  apply (wp_for_up (fun i '(num, w) => num = zlen (concat (take (Z.to_nat i) nss)) /\
    w = Console inp (out ++ records (concat (take (Z.to_nat i) nss))))).
  - simpl. by rewrite app_nil_r.
  - intros i [num w] Hi [-> ->]. rewrite (rd_bucket _ _ _ _ Ht) by done. simpl.
    set (a := concat (take _ nss)).
    assert (concat (take (Z.to_nat (i + 1)) nss) = a ++ nss.[i]) as E.
    { replace (Z.to_nat (i + 1)) with (S (Z.to_nat i)) by lia.
      rewrite (take_S_r nss (Z.to_nat i) nss.[i]) by
        (unfold aget, zlen in *; apply list_lookup_lookup_total_lt; lia).
      rewrite concat_app. simpl. by rewrite app_nil_r. }
    wp_step. eapply wp_mono; [apply (wp_foreach_bucket h nss.[i])|].
    + by apply (inv_linked _ _ _ _ Ht).
    + by apply (chain_NoDup _ _ _ _ Ht).
    + apply zlen_nonneg.
    + rewrite <- zlen_app, <- E. etransitivity; [|exact Hmax].
      rewrite <- (take_drop (Z.to_nat (i + 1)) nss) at 2. rewrite concat_app, zlen_app.
      pose proof (zlen_nonneg (concat (drop (Z.to_nat (i + 1)) nss))). lia.
    + intros [[p num] w] [-> ->]. simpl. by rewrite E, zlen_app, records_app, app_assoc.
  - intros [num w]. pose proof (zlen_nonneg nss). rewrite Z.max_r by lia.
    rewrite take_ge by (unfold zlen; lia). intros [-> ->]. simpl. unfold printf. simpl.
    by rewrite <- app_assoc.
Qed.

(** No key occurs twice in the whole table. *)
Lemma table_keys m self t nss : table_inv m self t nss -> NoDup (map nkey (concat nss)).
Proof.
  intros Ht. pose proof (inv_place _ _ _ _ Ht) as Hp. pose proof (inv_keys _ _ _ _ Ht) as Hk.
  clear Ht. assert (forall c off,
    (forall i n, 0 <= i < zlen nss -> n ∈ nss.[i] -> hash (nkey n) mod c = off + i) ->
    NoDup (map nkey (concat nss))) as H; [|by apply (H (bucket_count t) 0)].
  intros c. clear Hp. induction nss as [|ns nss IH]; intros off Hp; simpl; [constructor|].
  rewrite zlen_cons in *. pose proof (zlen_nonneg nss).
  assert (forall i, 0 <= i -> (ns :: nss).[i + 1] = nss.[i]) as Hs.
  { intros i Hi. unfold aget. by replace (Z.to_nat (i + 1)) with (S (Z.to_nat i)) by lia. }
  rewrite map_app. apply NoDup_app. split_and!.
  - apply (Hk 0). lia.
  - intros k Hk0 Hk1. apply list_elem_of_In, in_map_iff in Hk0 as (n & <- & Hn).
    apply list_elem_of_In in Hn. apply list_elem_of_In, in_map_iff in Hk1 as (n' & E & Hn').
    apply in_concat in Hn' as (ns' & Hns' & Hn'). apply list_elem_of_In, elem_aget in Hns' as (j & Hj & <-).
    apply list_elem_of_In in Hn'. pose proof (Hp 0 n ltac:(lia) Hn) as H0.
    pose proof (Hp (j + 1) n' ltac:(lia)) as H1. rewrite Hs in H1 by lia. specialize (H1 Hn').
    rewrite E in H1. lia.
  - apply (IH ltac:(intros i Hi; rewrite <- Hs by lia; apply Hk; lia) (off + 1)).
    intros i n Hi Hn. rewrite (Hp (i + 1) n); [lia|lia|]. by rewrite Hs by lia.
Qed.

(** ** The table as a server of requests *)

Inductive request :=
  | Set_ (k : string) (v : work_record)
  | Get (k : string)
  | Remove (k : string).

(** The reply of a Get; the other requests have none. *)
Definition serve (self : ptr) (r : request) (h : heap block)
    : res (heap block * option work_record) :=
  match r with
  | Set_ k v => let* h := hash_set malloc_ok self k v h in Ok (h, None)
  | Get k => let* (_, o) := hash_get self k h in Ok (h, o)
  | Remove k => let* h := hash_remove self k h in Ok (h, None)
  end.

Fixpoint serve_all (self : ptr) (rs : list request) (h : heap block)
    : res (heap block * list (option work_record)) :=
  match rs with
  | [] => Ok (h, [])
  | r :: rs =>
      let* (h, o) := serve self r h in
      let* (h, os) := serve_all self rs h in
      Ok (h, o :: os)
  end.

(** The specification: a finite map. *)
Definition spec_serve (r : request) (M : gmap string work_record)
    : gmap string work_record * option work_record :=
  match r with
  | Set_ k v => (<[k := v]> M, None)
  | Get k => (M, M !! k)
  | Remove k => (delete k M, None)
  end.

Fixpoint spec_all (rs : list request) (M : gmap string work_record)
    : gmap string work_record * list (option work_record) :=
  match rs with
  | [] => (M, [])
  | r :: rs =>
      let '(M, o) := spec_serve r M in
      let '(M, os) := spec_all rs M in (M, o :: os)
  end.

(** One request is simulated by the map's operation. *)
Lemma wp_serve self r h M F :
  (forall n, malloc_ok n = true) -> table_at h self M F ->
  wp (serve (Some self) r h) (fun '(h', o) =>
    o = (spec_serve r M).2 /\ table_at h' self (spec_serve r M).1 F).
Proof.
  intros Hm Hat. destruct r as [k v|k|k]; simpl.
  - pose proof (hash_set_spec h self M F k v Hat) as Hs.
    destruct (hash_set malloc_ok (Some self) k v h) as [h'|f]; simpl; [naive_solver|].
    destruct Hs as (_ & _ & Hr). unfold room in Hr. by rewrite !Hm in Hr.
  - rewrite (wp_hash_get h self M F k Hat). simpl. by destruct (M !! k).
  - wp_step. eapply wp_mono; [by apply wp_hash_remove|]. done.
Qed.

Lemma wp_serve_all self rs h M F :
  (forall n, malloc_ok n = true) -> table_at h self M F ->
  wp (serve_all (Some self) rs h) (fun '(h', os) =>
    os = (spec_all rs M).2 /\ table_at h' self (spec_all rs M).1 F).
Proof.
  intros Hm. revert h M. induction rs as [|r rs IH]; intros h M Hat; simpl; [done|].
  wp_step. eapply wp_mono; [by apply wp_serve|]. intros [h1 o]. destruct (spec_serve r M) as [M1 o1].
  simpl. intros [-> Hat1]. wp_step. eapply wp_mono; [by apply IH|]. intros [h2 os].
  destruct (spec_all rs M1) as [M2 os2]. simpl. by intros [-> ?].
Qed.
End set_and_remove.

(** C1. The hash table implements a finite map and leaks nothing: while
    malloc succeeds, a table from hash_new answers any sequence of
    hash_set, hash_get and hash_remove calls exactly as a finite map from
    strings does, without touching a freed or foreign block, and
    hash_delete then leaves the heap as it was before hash_new. *)
Theorem hash_table_refines_map (malloc_ok : nat -> bool) (h : heap block) (rs : list request) :
  (forall n, malloc_ok n = true) ->
  exists self h1 h2 h3,
    hash_new malloc_ok h = Ok (Some self, h1) /\
    serve_all malloc_ok (Some self) rs h1 = Ok (h2, (spec_all rs ∅).2) /\
    hash_delete (Some self) h2 = Ok h3 /\ cells h3 = cells h.
Proof.
  intros Hm.
  destruct (proj1 (wp_exists _ _) (wp_hash_new malloc_ok h)) as ([p h1] & E1 & H1).
  rewrite Hm in H1. destruct H1 as (self & -> & Hat).
  destruct (proj1 (wp_exists _ _) (wp_serve_all malloc_ok self rs h1 ∅ _ Hm Hat))
    as ([h2 os] & E2 & -> & Hat2).
  destruct (proj1 (wp_exists _ _) (wp_hash_delete h2 self _ _ Hat2)) as (h3 & E3 & H3).
  by exists self, h1, h2, h3.
Qed.

Lemma hash_table_refines_map_witness :
  exists self h1 h2 h3,
    hash_new (fun _ => true) (Heap ∅ 0) = Ok (Some self, h1) /\
    serve_all (fun _ => true) (Some self)
      [Set_ "7" (WorkRecord 7 1 0); Get "7"; Remove "7"; Get "7"] h1 =
      Ok (h2, (spec_all [Set_ "7" (WorkRecord 7 1 0); Get "7"; Remove "7"; Get "7"] ∅).2) /\
    hash_delete (Some self) h2 = Ok h3 /\ cells h3 = ∅.
Proof. apply (hash_table_refines_map (fun _ => true) (Heap ∅ 0)). intros n. reflexivity. Defined.

(** The error path of hash_set: on a table that holds the map M,
    hash_set aborts exactly when the key is new and one of the two mallocs
    of make_entry fails; in every other case it returns with the map
    updated at that key only and the rest of the heap unchanged. *)
Theorem hash_set_outcome (malloc_ok : nat -> bool) h self M F k v :
  table_at h self M F ->
  (M !! k = None /\ room malloc_ok h = false /\
   hash_set malloc_ok (Some self) k v h = Fail Aborted) \/
  ((is_Some (M !! k) \/ room malloc_ok h = true) /\
   exists h', hash_set malloc_ok (Some self) k v h = Ok h' /\ table_at h' self (<[k := v]> M) F).
Proof.
  intros Hat. pose proof (hash_set_spec malloc_ok h self M F k v Hat) as Hs.
  destruct (hash_set malloc_ok (Some self) k v h) as [h'|f].
  - right. destruct Hs as [Hs Hc]. eauto.
  - left. destruct Hs as (-> & Hk & Hr). done.
Qed.

(** A table with no entries, at location 1 of an otherwise empty heap. *)
Definition sample : heap block :=
  Heap {[1%positive := BTable (Table (S754_zero false) 1 [None])]} 0.

Lemma sample_table : table_at sample 1%positive ∅ ∅.
Proof.
  exists (Table (S754_zero false) 1 [None]), [[]]. split; [split|split]; simpl.
  - reflexivity.
  - reflexivity.
  - lia.
  - reflexivity.
  - intros i Hi. assert (i = 0) as -> by (unfold zlen in Hi; simpl in Hi; lia). exact I.
  - apply NoDup_singleton.
  - intros i n Hi. assert (i = 0) as -> by (unfold zlen in Hi; simpl in Hi; lia). simpl.
    by rewrite elem_of_nil.
  - intros i Hi. assert (i = 0) as -> by (unfold zlen in Hi; simpl in Hi; lia). apply NoDup_nil_2.
  - reflexivity.
  - intros l. unfold table_locs, sample. simpl. case_decide as Hl; [by rewrite lookup_empty|].
    rewrite lookup_empty, lookup_singleton_ne; [done|]. intros <-. apply Hl. by left.
Qed.

Lemma hash_set_outcome_witness :
  ((∅ : gmap string work_record) !! "a" = None /\ room (fun n => bool_decide (n = 0%nat)) sample = false /\
   hash_set (fun n => bool_decide (n = 0%nat)) (Some 1%positive) "a" (WorkRecord 1 1 0) sample =
     Fail Aborted) \/
  ((is_Some ((∅ : gmap string work_record) !! "a") \/
    room (fun n => bool_decide (n = 0%nat)) sample = true) /\
   exists h', hash_set (fun n => bool_decide (n = 0%nat)) (Some 1%positive) "a" (WorkRecord 1 1 0)
     sample = Ok h' /\ table_at h' 1%positive (<["a" := WorkRecord 1 1 0]> ∅) ∅).
Proof. apply hash_set_outcome. apply sample_table. Defined.

(** hash_foreach reports the table: it prints one line for each record
    of the map, each exactly once, and then how many there are. *)
Theorem hash_foreach_reports h self M F inp out :
  table_at h self M F -> Z.of_nat (size M) <= INT_MAX ->
  exists vs, Permutation vs (map_to_list M).*2 /\
    hash_foreach (Some self) h (Console inp out) =
      Ok (Console inp (out ++ concat (map record_line vs) ++
        [PStr "the product num = "; PInt (Z.of_nat (size M)); PStr "\n"])).
Proof.
  intros (t & nss & Ht & HM & _) Hmax. exists (map nval (concat nss)).
  pose proof (table_keys _ _ _ _ Ht) as Hk.
  assert (Permutation (map_to_list M) (pairs (concat nss))) as Hp.
  { rewrite <- HM. apply map_to_list_to_map. unfold pairs.
    replace (map (fun n => (nkey n, nval n)) (concat nss)).*1 with (map nkey (concat nss)); [done|].
    clear. induction (concat nss) as [|n ns IH]; simpl; [done|by rewrite IH]. }
  assert (Z.of_nat (size M) = zlen (concat nss)) as Hsz.
  { unfold zlen. rewrite <- (length_map_to_list M). rewrite (Permutation_length Hp).
    unfold pairs. by rewrite length_map. }
  split.
  - rewrite Hp. unfold pairs. clear. induction (concat nss) as [|n ns IH]; simpl; [done|by rewrite IH].
  - rewrite (wp_hash_foreach h self t nss) by (done || lia). rewrite Hsz. unfold records.
    by rewrite map_map.
Qed.

Lemma hash_foreach_reports_witness :
  exists vs, Permutation vs (map_to_list (∅ : gmap string work_record)).*2 /\
    hash_foreach (Some 1%positive) sample (Console [] []) =
      Ok (Console [] ([] ++ concat (map record_line vs) ++
        [PStr "the product num = "; PInt (Z.of_nat (size (∅ : gmap string work_record))); PStr "\n"])).
Proof.
  apply (hash_foreach_reports sample 1%positive ∅ ∅ [] []); [apply sample_table|].
  vm_compute. discriminate.
Defined.

(** ** What the table promises its clients *)

(** A store of records: get and set on a state that stands for a map.  Setting a
    key that is not there may abort the program. *)
Class RecordStore (T : Type) := {
  store_rep : T -> gmap string work_record -> Prop;
  store_get : string -> T -> res (Z * option work_record);
  store_set : string -> work_record -> T -> res T;
  store_get_ok : forall s M k, store_rep s M ->
    store_get k s = Ok (match M !! k with Some v => (1, Some v) | None => (0, None) end);
  store_set_ok : forall s M k v, store_rep s M ->
    match store_set k v s with
    | Ok s' => store_rep s' (<[k := v]> M)
    | Fail f => f = Aborted /\ M !! k = None
    end
}.

(** The hash table at [self] is one, whichever calls of malloc fail. *)
#[export] Instance table_store (malloc_ok : nat -> bool) (self : ptr) : RecordStore (heap block).
Proof.
  refine {|
    store_rep h M := exists l, self = Some l /\ table_at h l M ∅;
    store_get k h := hash_get self k h;
    store_set k v h := hash_set malloc_ok self k v h
  |}.
  - intros h M k (l & -> & Hat). by apply (wp_hash_get h l M ∅).
  - intros h M k v (l & -> & Hat). pose proof (hash_set_spec malloc_ok h l M ∅ k v Hat) as Hs.
    destruct (hash_set malloc_ok (Some l) k v h); naive_solver.
Defined.
