(* ===== verification/OSQueue.v ===== *)
(** * The work queue of os_lesson/exp_2/queue.c

    New items are linked in at the head and taken from the tail.  This file
    models what the functions do to the list between their mutex calls; the
    mutexes and the interleavings are in ProducerConsumer.v. *)

From S2P Require Import Prelude Arrays Heap.
Open Scope Z_scope.

(** [char action[20]] holds the characters before the terminator. *)
Record QUEUE_ITEM := Item { action : string; data : Z; sz : Z; next : ptr }.

Record QUEUE := Queue { numitems : Z; items : ptr }.

(** NULL when calloc fails, else the zeroed struct and the mutexes' initial
    states: modify_mutex free, read_mutex locked. *)
Definition Initialize_Queue (calloc_ok : bool) : option (QUEUE * bool * bool) :=
  if calloc_ok then Some (Queue 0 None, false, true) else None.

(** Returns 0 for the empty queue and 1 otherwise. *)
Definition is_Queue_empty (queue : QUEUE) : Z := if numitems queue =? 0 then 0 else 1.

Section queue.
Context (malloc_ok : nat -> bool).

(** Add_Queue_Item up to the lock: a failed calloc returns at once. *)
Definition new_item (act : string) (dat size : Z) (h : heap QUEUE_ITEM)
    : res (ptr * heap QUEUE_ITEM) :=
  let '(qi, h) := malloc malloc_ok (Item EmptyString 0 0 None) h in
  if is_null qi then Ok (None, h) else
  let* _ := demand (Z.of_nat (String.length act) <? 20) OutOfBounds in
  let* h := store qi (Item act dat size None) h in
  Ok (qi, h).

(** Add_Queue_Item between lock and unlock. *)
Definition link_item (queue : QUEUE) (qi : ptr) (h : heap QUEUE_ITEM)
    : res (QUEUE * heap QUEUE_ITEM) :=
  let* it := load qi h in
  let* h := store qi (Item (action it) (data it) (sz it) (items queue)) h in
  Ok (Queue (u64 (numitems queue + 1)) qi, h).

(** Get_Queue_Item between lock and unlock: the item, NULL when there is
    none, and the remaining queue. *)
Definition unlink_item (queue : QUEUE) (h : heap QUEUE_ITEM)
    : res (ptr * QUEUE * heap QUEUE_ITEM) :=
  if is_null (items queue) then Ok (None, queue, h) else
  let* (qi, pqi) := loop (S (size (cells h))) (fun '(qi, pqi) =>
    let* it := load qi h in
    if negb (is_null (next it)) then Ok (inl (next it, qi)) else Ok (inr (qi, pqi)))
    (items queue, items queue) in
  let* p := load pqi h in
  let* h := store pqi (Item (action p) (data p) (sz p) None) h in
  let head := if numitems queue =? 1 then None else items queue in
  Ok (qi, Queue (u64 (numitems queue - 1)) head, h).

(** [free(queue_item->action); free(queue_item);]: [action] is an array, the
    first member of the struct, so both calls get the same address. *)
Definition Free_Queue_Item (queue_item : ptr) (h : heap QUEUE_ITEM) : res (heap QUEUE_ITEM) :=
  let* _ := load queue_item h in
  let* h := free queue_item h in
  free queue_item h.

Definition item_line (it : QUEUE_ITEM) : list piece :=
  [PStr "[*] action["; PStr (action it); PStr "]: "; PInt (data it); PStr " ("; PInt (sz it); PStr ")\n"].

(** Print_Queue_Items: the loop over Get_Queue_Item and Free_Queue_Item. *)
Definition Print_Queue_Items (queue : QUEUE) (h : heap QUEUE_ITEM) (w : console)
    : res (QUEUE * heap QUEUE_ITEM * console) :=
  while (S (size (cells h))) (fun '(queue, _, _) => Ok (negb (is_null (items queue))))
    (fun '(queue, h, w) =>
       let* (item, queue, h) := unlink_item queue h in
       let* it := load item h in
       let w := printf (item_line it) w in
       let* h := Free_Queue_Item item h in
       Ok (queue, h, w)) (queue, h, w).
End queue.

(** ** The list a queue stands for *)

Record cell := Cell { at_ : loc; act : string; dat : Z; csz : Z }.

Definition head_of (cs : list cell) : ptr := match cs with [] => None | c :: _ => Some (at_ c) end.

Fixpoint chain (m : gmap loc QUEUE_ITEM) (cs : list cell) : Prop :=
  match cs with
  | [] => True
  | c :: cs => m !! at_ c = Some (Item (act c) (dat c) (csz c) (head_of cs)) /\ chain m cs
  end.

Record queue_inv (q : QUEUE) (h : heap QUEUE_ITEM) (cs : list cell) : Prop := {
  q_items : items q = head_of cs;
  q_count : numitems q = zlen cs;
  q_room : zlen cs < 18446744073709551615;
  q_chain : chain (cells h) cs;
  q_nodup : NoDup (map at_ cs)
}.

(** The contents, newest first. *)
Definition queue_at (q : QUEUE) (h : heap QUEUE_ITEM) (l : list (string * Z)) : Prop :=
  exists cs, queue_inv q h cs /\ map (fun c => (act c, dat c)) cs = l.

Lemma chain_ext m m' cs :
  (forall l, l ∈ map at_ cs -> m' !! l = m !! l) -> chain m cs -> chain m' cs.
Proof.
  induction cs as [|c cs IH]; simpl; [done|]. intros Hm [Hc Hcs].
  rewrite Hm by (by left). split; [done|]. apply IH; [|done]. intros l Hl. apply Hm. by right.
Qed.

Lemma chain_alloc m cs l : chain m cs -> l ∈ map at_ cs -> is_Some (m !! l).
Proof.
  induction cs as [|c cs IH]; simpl; [by rewrite elem_of_nil|]. intros [Hc Hcs].
  rewrite elem_of_cons. intros [->|Hl]; eauto.
Qed.

Lemma chain_length m cs : chain m cs -> NoDup (map at_ cs) -> (length cs <= size m)%nat.
Proof.
  intros Hc Hnd. rewrite <- (length_map at_ cs), <- size_dom.
  rewrite <- (size_list_to_set (C := gset loc)) by done. apply subseteq_size.
  intros l Hl. apply elem_of_list_to_set in Hl. apply elem_of_dom. by eapply chain_alloc.
Qed.

Lemma chain_app m cs cs' :
  chain m (cs ++ cs') -> chain m cs' /\
  match last cs with
  | None => True
  | Some c => m !! at_ c = Some (Item (act c) (dat c) (csz c) (head_of cs'))
  end.
Proof.
  induction cs as [|c cs IH]; simpl; [done|]. intros [Hc Hcs].
  destruct (IH Hcs) as [H1 H2]. split; [done|]. by destruct cs.
Qed.

(** Cutting the chain before its last item. *)
Lemma chain_cut m cs c e :
  chain m ((cs ++ [c]) ++ [e]) -> NoDup (map at_ ((cs ++ [c]) ++ [e])) ->
  chain (<[at_ c := Item (act c) (dat c) (csz c) None]> m) (cs ++ [c]).
Proof.
  induction cs as [|d cs IH]; simpl; intros Hc Hnd.
  - by rewrite lookup_insert_eq.
  - destruct Hc as [Hd Hc]. apply NoDup_cons in Hnd as [Hn Hnd]. split; [|by apply IH].
    rewrite lookup_insert_ne.
    + rewrite Hd. f_equal. f_equal. by destruct cs.
    + intros E. apply Hn. rewrite <- E, !map_app, !elem_of_app. left. right. by left.
Qed.

Section queue_specs.
Context (malloc_ok : nat -> bool).

(** An item that calloc gave and that is not linked yet. *)
Definition item_at (h : heap QUEUE_ITEM) (cs : list cell) (p : loc) (a : string) (d size : Z) : Prop :=
  cells h !! p = Some (Item a d size None) /\ p ∉ map at_ cs.

(** Add_Queue_Item up to the lock: nothing but the new item changes. *)
Lemma wp_new_item q h cs a d size :
  queue_inv q h cs -> (String.length a < 20)%nat ->
  wp (new_item malloc_ok a d size h) (fun '(qi, h1) => queue_inv q h1 cs /\ calls h1 = S (calls h) /\
    match qi with
    | Some p => malloc_ok (calls h) = true /\ item_at h1 cs p a d size
    | None => malloc_ok (calls h) = false
    end).
Proof.
  intros [Hi Hn Hr Hc Hnd] Ha. unfold new_item, malloc. destruct (malloc_ok (calls h)) eqn:Hm; simpl; [|by repeat split].
  set (p := fresh_loc (cells h)). pose proof (fresh_loc_fresh (cells h)) as Hf. fold p in Hf.
  unfold demand. rewrite (proj2 (Z.ltb_lt _ _)) by lia. simpl.
  erewrite store_Ok by (simpl; apply lookup_insert_eq). simpl. rewrite insert_insert_eq.
  assert (p ∉ map at_ cs) as Hp by (intros Hin; destruct (chain_alloc _ _ _ Hc Hin); congruence).
  split_and!; [split; simpl; try done|done|done|split; simpl; [by rewrite lookup_insert_eq|done]].
  eapply chain_ext; [|done]. intros l Hl. rewrite lookup_insert_ne; [done|]. by intros <-.
Qed.

(** Add_Queue_Item after the lock: the item is the newest of the queue. *)
Lemma wp_link_item q h cs p a d size :
  queue_inv q h cs -> item_at h cs p a d size -> zlen cs + 1 < 18446744073709551615 ->
  wp (link_item q (Some p) h) (fun '(q', h') => queue_inv q' h' (Cell p a d size :: cs) /\ calls h' = calls h).
Proof.
  intros [Hi Hn Hr Hc Hnd] [Hp Hnp] Hroom. unfold link_item. rewrite (load_Ok _ _ _ Hp). simpl.
  rewrite (store_Ok _ _ _ _ Hp). simpl. pose proof (zlen_nonneg cs). split; [|done]. split; simpl.
  - done.
  - rewrite zlen_cons, Hn. unfold u64. apply Z.mod_small. lia.
  - rewrite zlen_cons. lia.
  - rewrite lookup_insert_eq, Hi. split; [done|]. eapply chain_ext; [|done].
    intros l Hl. rewrite lookup_insert_ne; [done|]. by intros <-.
  - by constructor.
Qed.

(** The walk to the end of the chain. *)
Lemma wp_walk_to_last h cs e :
  chain (cells h) (cs ++ [e]) -> NoDup (map at_ (cs ++ [e])) ->
  wp (loop (S (size (cells h))) (fun '(qi, pqi) =>
    let* it := load qi h in
    if negb (is_null (next it)) then Ok (inl (next it, qi)) else Ok (inr (qi, pqi)))
    (head_of (cs ++ [e]), head_of (cs ++ [e])))
  (fun '(qi, pqi) => qi = Some (at_ e) /\
     pqi = match last cs with None => Some (at_ e) | Some c => Some (at_ c) end).
Proof.
  intros Hc Hnd. pose proof (chain_length _ _ Hc Hnd) as Hlen.
  apply (wp_loop_idx (fun i '(qi, pqi) => exists pre post, cs = pre ++ post /\ length post = i /\
    qi = head_of (post ++ [e]) /\
    pqi = match last pre with None => head_of (cs ++ [e]) | Some c => Some (at_ c) end) (length cs)).
  - exists [], cs. done.
  - rewrite length_app in Hlen. simpl in Hlen. lia.
  - intros i [qi pqi] (pre & post & -> & <- & -> & ->). rewrite <- app_assoc in Hc.
    pose proof (chain_app _ _ _ Hc) as [Hpost _]. destruct post as [|c post]; simpl in *.
    + destruct Hpost as [He _]. rewrite (load_Ok _ _ _ He). simpl. rewrite app_nil_r.
      split; [done|]. destruct (last pre) eqn:E; [done|]. apply last_None in E. by subst.
    + destruct Hpost as [He _]. rewrite (load_Ok _ _ _ He). simpl.
      destruct (post ++ [e]) as [|d ds] eqn:E; [by apply app_nil in E as [_ ?]|]. simpl.
      exists (length post). split; [lia|]. exists (pre ++ [c]), post. rewrite <- app_assoc, E, last_snoc.
      done.
Qed.

(** Taking an item gives the oldest one, which stays allocated; only the one before it changes. *)
Lemma wp_unlink_item q h cs :
  queue_inv q h cs ->
  wp (unlink_item q h) (fun '(p, q', h') => calls h' = calls h /\
    (forall l, l ∉ map at_ cs -> cells h' !! l = cells h !! l) /\
    match last cs with
    | None => p = None /\ q' = q /\ h' = h
    | Some e => queue_inv q' h' (removelast cs) /\
        exists it, load p h' = Ok it /\ action it = act e /\ data it = dat e
    end).
Proof.
  intros [Hi Hn Hr Hc Hnd]. unfold unlink_item. rewrite Hi.
  destruct (last cs) as [e|] eqn:El.
  2: { apply last_None in El. by subst cs. }
  apply last_Some in El as (cs' & ->). rewrite removelast_last.
  assert (exists a, head_of (cs' ++ [e]) = Some a) as (a & Ea) by (destruct cs'; simpl; eauto).
  rewrite Ea. simpl. rewrite <- Ea. wp_step.
  eapply wp_mono; [by apply wp_walk_to_last|]. intros [qi pqi] [-> ->].
  rewrite zlen_snoc in Hn, Hr. pose proof (zlen_nonneg cs'). simpl.
  destruct (last cs') as [c|] eqn:Elc.
  - apply last_Some in Elc as (cs & ->). rewrite <- app_assoc in Hc.
    pose proof (chain_app _ _ _ Hc) as [[Hcc [He _]] _]. rewrite (load_Ok _ _ _ Hcc). simpl.
    rewrite (store_Ok _ _ _ _ Hcc). simpl. rewrite app_assoc in Hc.
    rewrite zlen_snoc in *. pose proof (zlen_nonneg cs). rewrite (proj2 (Z.eqb_neq _ _)) by lia.
    pose proof Hnd as Hnd0. rewrite map_app in Hnd. apply NoDup_app in Hnd as (Hnd & Hd & _).
    split; [done|]. split.
    { intros l Hl. rewrite lookup_insert_ne; [done|]. intros <-. apply Hl. rewrite !map_app, !elem_of_app. left. right. by left. }
    split.
    + split; simpl; rewrite ?zlen_snoc.
      * by destruct cs.
      * rewrite Hn. unfold u64. rewrite Z.mod_small; lia.
      * lia.
      * by apply (chain_cut _ _ _ e).
      * done.
    + assert (at_ c <> at_ e) as Hce.
      { intros E. apply (Hd (at_ c)); [|rewrite E; by left]. rewrite map_app, elem_of_app. right. by left. }
      eexists. erewrite load_Ok by (simpl; rewrite lookup_insert_ne by done; exact He). done.
  - apply last_None in Elc. subst cs'. destruct Hc as [He _]. rewrite (load_Ok _ _ _ He). simpl.
    rewrite (store_Ok _ _ _ _ He). simpl. rewrite Hn. simpl. split; [done|]. split.
    { intros l Hl. rewrite lookup_insert_ne; [done|]. intros <-. apply Hl. by left. }
    split; [split; simpl; try done; apply NoDup_nil_2|].
    eexists. erewrite load_Ok by (simpl; apply lookup_insert_eq). done.
Qed.

Lemma removelast_map {A B} (f : A -> B) l : removelast (map f l) = map f (removelast l).
Proof. induction l as [|x [|y l] IH]; [done|done|]. cbn in *. by rewrite IH. Qed.

Lemma wp_unlink_at q h l :
  queue_at q h l ->
  wp (unlink_item q h) (fun '(p, q', h') =>
    match last l with
    | None => p = None /\ q' = q /\ h' = h
    | Some (a, d) => queue_at q' h' (removelast l) /\
        exists it, load p h' = Ok it /\ action it = a /\ data it = d
    end).
Proof.
  intros (cs & Hq & <-). eapply wp_mono; [by apply wp_unlink_item|]. intros [[p q'] h'] (_ & _ & H).
  rewrite fmap_last. destruct (last cs) as [e|] eqn:El; simpl.
  - destruct H as [Hq' Hit]. split; [|done]. exists (removelast cs). split; [done|]. by rewrite removelast_map.
  - done.
Qed.
End queue_specs.

(** The queue is first in, first out, whatever its history: on a queue
    that holds [l] (newest first), Add_Queue_Item puts its item in front
    (when calloc succeeds) and Get_Queue_Item detaches the last, oldest
    item, with its action and data, or returns NULL from an empty queue. *)
Theorem queue_fifo (malloc_ok : nat -> bool) q h l a d size :
  queue_at q h l -> (String.length a < 20)%nat -> Z.of_nat (length l) + 1 < 18446744073709551615 ->
  malloc_ok (calls h) = true ->
  (exists qi h1 q' h2, new_item malloc_ok a d size h = Ok (qi, h1) /\
     link_item q qi h1 = Ok (q', h2) /\ queue_at q' h2 ((a, d) :: l)) /\
  (exists p q' h', unlink_item q h = Ok (p, q', h') /\
     match last l with
     | None => p = None /\ q' = q /\ h' = h
     | Some (a', d') => queue_at q' h' (removelast l) /\
         exists it, load p h' = Ok it /\ action it = a' /\ data it = d'
     end).
Proof.
  intros Hat Ha Hroom Hm. split.
  - destruct Hat as (cs & Hq & <-). rewrite length_map in Hroom.
    destruct (proj1 (wp_exists _ _) (wp_new_item malloc_ok q h cs a d size Hq Ha)) as ([qi h1] & E1 & H1 & _ & H2).
    destruct qi as [p|]; [|by rewrite Hm in H2]. destruct H2 as [_ H2].
    destruct (proj1 (wp_exists _ _) (wp_link_item q h1 cs p a d size H1 H2 Hroom)) as ([q' h2] & E2 & H3 & _).
    exists (Some p), h1, q', h2. split; [done|]. split; [done|]. by exists (Cell p a d size :: cs).
  - destruct (proj1 (wp_exists _ _) (wp_unlink_at q h l Hat)) as ([[p q'] h'] & E & H).
    by exists p, q', h'.
Qed.

Lemma queue_fifo_witness :
  (exists qi h1 q' h2, new_item (fun _ => true) "07" 7 4 (Heap ∅ 0) = Ok (qi, h1) /\
     link_item (Queue 0 None) qi h1 = Ok (q', h2) /\ queue_at q' h2 [("07", 7)]) /\
  (exists p q' h', unlink_item (Queue 0 None) (Heap ∅ 0) = Ok (p, q', h') /\
     p = None /\ q' = Queue 0 None /\ h' = Heap ∅ 0).
Proof.
  apply (queue_fifo (fun _ => true) (Queue 0 None) (Heap ∅ 0) [] "07" 7 4).
  - exists []. split; [split|]; simpl; first [reflexivity | exact I | apply NoDup_nil_2].
  - simpl. lia.
  - simpl. lia.
  - reflexivity.
Defined.

(** Freeing an item frees its block twice. *)
Theorem Free_Queue_Item_double (p : loc) it h :
  cells h !! p = Some it -> Free_Queue_Item (Some p) h = Fail Dangling.
Proof.
  intros Hp. unfold Free_Queue_Item. rewrite (load_Ok _ _ _ Hp). simpl.
  rewrite (free_Ok _ _ _ Hp). simpl. unfold free. simpl. by rewrite lookup_delete_eq.
Qed.

(** ** What the queue promises its clients *)

(** The contents of a queue, newest first, and the item that is being added, between
    its calloc and its link.  [queue_refused] counts the items calloc refused. *)
Class ItemQueue (Q I : Type) := {
  queue_rep : Q -> list (string * Z) -> option (I * (string * Z)) -> Prop;
  queue_null : Q -> bool;
  queue_len : Q -> Z;
  queue_refused : Q -> nat;
  queue_new : string -> Z -> Q -> res (option I * Q);
  queue_link : I -> Q -> res Q;
  queue_take : Q -> res (option (string * Z) * Q);
  queue_null_ok : forall q l p, queue_rep q l p -> queue_null q = false;
  queue_len_ok : forall q l p, queue_rep q l p -> queue_len q = Z.of_nat (length l);
  queue_new_ok : forall q l a d, queue_rep q l None -> (String.length a < 20)%nat ->
    wp (queue_new a d q) (fun '(o, q') => match o with
      | Some i => queue_rep q' l (Some (i, (a, d))) /\ queue_refused q' = queue_refused q
      | None => queue_rep q' l None /\ queue_refused q' = S (queue_refused q)
      end);
  queue_link_ok : forall q l i a d, queue_rep q l (Some (i, (a, d))) ->
    Z.of_nat (length l) + 1 < 18446744073709551615 ->
    wp (queue_link i q) (fun q' => queue_rep q' ((a, d) :: l) None /\ queue_refused q' = queue_refused q);
  queue_take_ok : forall q l p, queue_rep q l p ->
    wp (queue_take q) (fun '(o, q') => o = last l /\ queue_rep q' (removelast l) p /\ queue_refused q' = queue_refused q)
}.

(** How many of the calls so far were refused. *)
Definition refused (malloc_ok : nat -> bool) {B} (h : heap B) : nat :=
  length (filter (fun n => malloc_ok n = false) (seq 0 (calls h))).

Lemma refused_more malloc_ok {B} (h h' : heap B) : calls h' = S (calls h) ->
  refused malloc_ok h' = ((if malloc_ok (calls h) then 0 else 1) + refused malloc_ok h)%nat.
Proof.
  intros E. unfold refused. rewrite E, seq_S, Nat.add_0_l, filter_app, length_app.
  destruct (malloc_ok (calls h)) eqn:Em; rewrite filter_cons; [rewrite decide_False by congruence|rewrite decide_True by done]; cbn; lia.
Qed.

(** What a queue at an address that may be NULL stands for. *)
Definition linked_rep (qh : option QUEUE * heap QUEUE_ITEM) (l : list (string * Z)) (p : option (loc * (string * Z))) : Prop :=
  exists q cs, qh.1 = Some q /\ queue_inv q qh.2 cs /\ map (fun c => (act c, dat c)) cs = l /\
    match p with Some (i, (a, d)) => item_at qh.2 cs i a d 4 | None => True end.

(** The linked queue is one, whichever calls of calloc fail.  A taken item is
    read through the pointer Get_Queue_Item returned. *)
#[export] Instance linked_queue (malloc_ok : nat -> bool) : ItemQueue (option QUEUE * heap QUEUE_ITEM) loc.
Proof.
  refine {|
    queue_rep := linked_rep;
    queue_null qh := match qh.1 with Some _ => false | None => true end;
    queue_len qh := match qh.1 with Some q => numitems q | None => 0 end;
    queue_refused qh := refused malloc_ok qh.2;
    queue_new a d qh := let* (qi, h) := new_item malloc_ok a d 4 qh.2 in Ok (qi, (qh.1, h));
    queue_link i qh :=
      match qh.1 with
      | Some q => let* (q, h) := link_item q (Some i) qh.2 in Ok (Some q, h)
      | None => Fail NullDeref
      end;
    queue_take qh :=
      match qh.1 with
      | Some q =>
          let* (p, q, h) := unlink_item q qh.2 in
          if is_null p then Ok (None, (Some q, h)) else
          let* it := load p h in Ok (Some (action it, data it), (Some q, h))
      | None => Fail NullDeref
      end
  |}.
  - intros [q h] l p (q' & cs & E & _). cbn in *. by subst.
  - intros [q h] l p (q' & cs & E & Hq & <- & _). cbn in *. subst q. rewrite length_map. apply (q_count _ _ _ Hq).
  - intros [q h] l a d (q' & cs & E & Hq & <- & _) Ha. cbn in *. subst q. wp_step.
    eapply wp_mono; [by apply (wp_new_item malloc_ok q' h cs a d 4)|]. intros [qi h1] (Hq' & Hc & H). cbn.
    pose proof (refused_more malloc_ok h h1 Hc) as Hr. destruct qi as [p|]; [destruct H as [Hm H]|rename H into Hm]; rewrite Hm in Hr; (split; [by exists q', cs|exact Hr]).
  - intros [q h] l i a d (q' & cs & E & Hq & <- & Hi) Hroom. cbn in *. subst q. rewrite length_map in Hroom. wp_step.
    eapply wp_mono; [by apply (wp_link_item q' h cs i a d 4)|]. intros [q1 h1] [Hq1 Hc]. cbn.
    split; [by exists q1, (Cell i a d 4 :: cs)|]. unfold refused. by rewrite Hc.
  - intros [q h] l p (q' & cs & E & Hq & <- & Hi). cbn in *. subst q. wp_step.
    eapply wp_mono; [by apply wp_unlink_item|]. intros [[r q1] h1] (Hc & Hk & H).
    assert (refused malloc_ok h1 = refused malloc_ok h) as Hr by (unfold refused; by rewrite Hc).
    destruct (last cs) as [e|] eqn:El.
    + destruct H as [Hq1 (it & Hit & Ha & Hd)]. destruct r as [r|]; [|done]. cbn [is_null]. rewrite Hit. cbn.
      apply last_Some in El as (cs' & ->). rewrite removelast_last in Hq1. rewrite map_app. cbn. rewrite last_snoc, removelast_last, Ha, Hd.
      split; [done|]. split; [|done]. exists q1, cs'. split_and!; [done|done|done|]. destruct p as [[i [a d]]|]; [|done]. destruct Hi as [Hi1 Hi2].
      split; [cbn; by rewrite (Hk i Hi2)|]. intros Hin. apply Hi2. rewrite map_app, elem_of_app. by left.
    + destruct H as (-> & -> & ->). apply last_None in El. subst cs. cbn. split; [done|]. split; [by exists q', []|done].
Defined.
