(* ===== verification/ProducerConsumer.v ===== *)
(** * The producer and its consumers: os_lesson/exp_2/exe.c

    One producer thread counts a tag in the hash table and queues it; any
    number of consumer threads take items from the queue and count them as
    consumed.  The threads share the table, the queue and three mutexes; a
    state of the program is one record and [exec] runs one step of one
    thread, between two synchronisation points.  The table and the queue
    are used through their interfaces [RecordStore] and [ItemQueue]. *)

From S2P Require Import Prelude Arrays Heap HashTable OSQueue.
Open Scope Z_scope.

(** ** itochar *)

(** The digits, least significant first, in [char sastr[10]]: the value of
    [i] when the loop is left, and the buffer. *)
Definition digits_loop (num : Z) : res (Z * list Z) :=
  let* x := for_exit 0 100 (fun i '(val1, sastr) =>
    let val0 := val1 `rem` 10 in
    let val1 := val1 `quot` 10 in
    let* sastr := wr sastr i (s8 (val0 + 48)) in
    if val1 <? 10 then
      let i := i + 1 in
      let* sastr := wr sastr i (s8 (val1 + 48)) in
      Ok (inr (i, sastr))
    else Ok (inl (val1, sastr))) (num, replicate 10 0) in
  match x with
  | inr r => Ok r
  | inl (_, sastr) => Ok (100, sastr)
  end.

(** [itochar(num, pstr)]: the buffer after the call. *)
Definition itochar (num : Z) (pstr : list Z) : res (list Z) :=
  let* (i, sastr) := digits_loop num in
  let* pstr := for_up 0 (i + 1) (fun j pstr =>
    let* c := rd sastr (i - j) in wr pstr j c) pstr in
  wr pstr (i + 1) 0.

(** The C string in a buffer: the bytes before the first NUL. *)
Fixpoint cstring (buf : list Z) : string :=
  match buf with
  | [] => EmptyString
  | c :: buf =>
      if c =? 0 then EmptyString
      else String (Ascii.ascii_of_N (Z.to_N (c mod 256))) (cstring buf)
  end.

(** [memset(key_tag, 0, 20); itochar(tag, key_tag)] *)
Definition key_of (tag : Z) : res string :=
  let* buf := itochar tag (replicate 20 0) in Ok (cstring buf).

(** The number a string of decimal digits denotes. *)
Fixpoint decimal_from (acc : Z) (s : string) : Z :=
  match s with
  | EmptyString => acc
  | String c s => decimal_from (acc * 10 + (char_val c - 48)) s
  end.

Definition decimal (s : string) : Z := decimal_from 0 s.

(** ** Threads *)

(** Where the producer is: what it does next; [qi] is the item calloc returned. *)
Inductive ppc {I : Type} :=
  | P_begin
  | P_get (tag : Z) (key : string)
  | P_set (tag : Z) (key : string) (workrecord : work_record)
  | P_calloc (tag : Z) (key : string)
  | P_lock_modify (tag : Z) (key : string) (qi : I)
  | P_link (tag : Z) (key : string) (qi : I)
  | P_unlock_modify
  | P_unlock_read
  | P_check
  | P_wait
  | P_wake
  | P_unlock
  | P_exit.
Arguments ppc : clear implicits.

(** Where a consumer is; [item] is what Get_Queue_Item returned. *)
Inductive cpc :=
  | C_spin
  | C_lock_read
  | C_lock_modify
  | C_take
  | C_unlock_modify (item : option (string * Z))
  | C_lock (item : option (string * Z))
  | C_get (item : option (string * Z))
  | C_set (item : string * Z) (workrecord : work_record)
  | C_signal.

(** A thread takes a step; SIGINT arrives; a condition wait ends on its own. *)
Inductive label :=
  | Producer (rand : Z)
  | Consumer (i : nat)
  | Sigint
  | Spurious.

Section program.
Context {T Q I : Type} `{RecordStore T} `{ItemQueue Q I}.

Record state := State {
  table : T;
  que : Q;
  mutex : bool;
  modify_mutex : bool;
  read_mutex : bool;
  producer : ppc I;
  consumers : list cpc;
  thread_kill_flag : bool;
  screen : list piece
}.

Definition set_producer (p : ppc I) (s : state) : state :=
  State (table s) (que s) (mutex s) (modify_mutex s) (read_mutex s) p (consumers s)
    (thread_kill_flag s) (screen s).

Definition set_consumer (i : nat) (c : cpc) (s : state) : state :=
  State (table s) (que s) (mutex s) (modify_mutex s) (read_mutex s) (producer s)
    (<[i := c]> (consumers s)) (thread_kill_flag s) (screen s).

Definition set_mutex (b : bool) (s : state) : state :=
  State (table s) (que s) b (modify_mutex s) (read_mutex s) (producer s) (consumers s)
    (thread_kill_flag s) (screen s).

Definition set_modify (b : bool) (s : state) : state :=
  State (table s) (que s) (mutex s) b (read_mutex s) (producer s) (consumers s)
    (thread_kill_flag s) (screen s).

Definition set_read (b : bool) (s : state) : state :=
  State (table s) (que s) (mutex s) (modify_mutex s) b (producer s) (consumers s)
    (thread_kill_flag s) (screen s).

Definition set_table (t : T) (s : state) : state :=
  State t (que s) (mutex s) (modify_mutex s) (read_mutex s) (producer s) (consumers s)
    (thread_kill_flag s) (screen s).

Definition set_que (q : Q) (s : state) : state :=
  State (table s) q (mutex s) (modify_mutex s) (read_mutex s) (producer s) (consumers s)
    (thread_kill_flag s) (screen s).

Definition print (ps : list piece) (s : state) : state :=
  State (table s) (que s) (mutex s) (modify_mutex s) (read_mutex s) (producer s) (consumers s)
    (thread_kill_flag s) (screen s ++ ps).

Definition kill (s : state) : state :=
  State (table s) (que s) (mutex s) (modify_mutex s) (read_mutex s) (producer s) (consumers s)
    true (screen s).

(** The outcome of a step: blocked, or done with a new state or a fault. *)
Definition outcome : Type := option (res state).

Definition lock (held : bool) (s : state) : outcome := if held then None else Some (Ok s).

(** [ret = hash_get(...)] and what the producer makes of it. *)
Definition produced (tag : Z) (ret : Z * option work_record) : res work_record :=
  if ret.1 =? 0 then Ok (WorkRecord tag 1 0)
  else match ret.2 with
       | Some r => let* p := int (p_count r + 1) in Ok (WorkRecord (HashTable.tag r) p (c_count r))
       | None => Fail Uninit
       end.

(** thread_producer_fun, with Add_Queue_Item inlined at its calloc, which may fail, and its
    mutex calls. *)
Definition exec_producer (rand : Z) (s : state) : outcome :=
  match producer s with
  | P_begin =>
      if (0 <=? rand) && (rand <=? INT_MAX) then
        let tag := rand `rem` 100 + 1 in
        match key_of tag with
        | Ok key => lock (mutex s) (set_mutex true (set_producer (P_get tag key) s))
        | Fail f => Some (Fail f)
        end
      else None
  | P_get tag key =>
      Some (let* ret := store_get key (table s) in
            let* r := produced tag ret in
            Ok (set_producer (P_set tag key r) s))
  | P_set tag key r =>
      Some (let* t := store_set key r (table s) in
            Ok (set_producer (P_calloc tag key) (set_table t s)))
  | P_calloc tag key =>
      Some (let* (qi, q) := queue_new key tag (que s) in
            Ok (set_producer (match qi with
                              | Some qi => P_lock_modify tag key qi
                              | None => P_check
                              end) (set_que q s)))
  | P_lock_modify tag key qi =>
      if queue_null (que s) then Some (Fail NullDeref)
      else lock (modify_mutex s) (set_modify true (set_producer (P_link tag key qi) s))
  | P_link _ _ qi =>
      Some (let* q := queue_link qi (que s) in
            Ok (set_producer P_unlock_modify (set_que q s)))
  | P_unlock_modify => Some (Ok (set_modify false (set_producer P_unlock_read s)))
  | P_unlock_read => Some (Ok (set_read false (set_producer P_check s)))
  | P_check =>
      if queue_null (que s) then Some (Fail NullDeref) else
      if queue_len (que s) =? 50
      then Some (Ok (set_mutex false (set_producer P_wait s)))
      else Some (Ok (set_producer P_unlock s))
  | P_wait => None
  | P_wake => lock (mutex s) (set_mutex true (set_producer P_unlock s))
  | P_unlock =>
      Some (Ok (set_mutex false
        (set_producer (if thread_kill_flag s then P_exit else P_begin) s)))
  | P_exit => None
  end.

(** thread_customer_fun, with Get_Queue_Item inlined at its mutex calls. *)
Definition exec_consumer (i : nat) (s : state) : outcome :=
  match consumers s !! i with
  | None => None
  | Some C_spin =>
      if queue_null (que s) then Some (Fail NullDeref) else
      if queue_len (que s) =? 0 then Some (Ok s) else Some (Ok (set_consumer i C_lock_read s))
  | Some C_lock_read => lock (read_mutex s) (set_read true (set_consumer i C_lock_modify s))
  | Some C_lock_modify => lock (modify_mutex s) (set_modify true (set_consumer i C_take s))
  | Some C_take =>
      Some (let* (item, q) := queue_take (que s) in
            let s' := set_consumer i (C_unlock_modify item) (set_que q s) in
            Ok (match item with
                | Some _ => if queue_len q >? 0 then set_read false s' else s'
                | None => s'
                end))
  | Some (C_unlock_modify item) => Some (Ok (set_modify false (set_consumer i (C_lock item) s)))
  | Some (C_lock item) => lock (mutex s) (set_mutex true (set_consumer i (C_get item) s))
  | Some (C_get None) => Some (Fail NullDeref)
  | Some (C_get (Some (key, d))) =>
      Some (let* ret := store_get key (table s) in
            if ret.1 =? 0 then
              Ok (set_consumer i C_signal (print [PStr "Not find in the hash table\n"] s))
            else match ret.2 with
                 | Some r =>
                     let* c := int (c_count r + 1) in
                     Ok (set_consumer i (C_set (key, d) (WorkRecord (HashTable.tag r) (p_count r) c)) s)
                 | None => Fail Uninit
                 end)
  | Some (C_set (key, d) r) =>
      Some (let* t := store_set key r (table s) in
            Ok (set_consumer i C_signal (set_table t s)))
  | Some C_signal =>
      let s := set_mutex false (set_consumer i C_spin s) in
      Some (Ok (match producer s with P_wait => set_producer P_wake s | _ => s end))
  end.

Definition exec (l : label) (s : state) : outcome :=
  match l with
  | Producer rand => exec_producer rand s
  | Consumer i => exec_consumer i s
  | Sigint => Some (Ok (kill s))
  | Spurious => match producer s with
                | P_wait => Some (Ok (set_producer P_wake s))
                | _ => None
                end
  end.

(** thread_control_fun up to the start of the threads: an empty table, an
    empty queue whose read_mutex is locked, [n] consumers. *)
Definition initial (t : T) (q : Q) (n : nat) : state :=
  State t q false false true P_begin (replicate n C_spin) false [].

(** One step of any thread, and the states the program can reach. *)
Inductive step : state -> state -> Prop :=
  | step_exec l s s' : exec l s = Some (Ok s') -> step s s'.

Inductive reachable (s0 : state) : state -> Prop :=
  | reach_init : reachable s0 s0
  | reach_step s s' : reachable s0 s -> step s s' -> reachable s0 s'.

(** A schedule, executed. *)
Fixpoint run (ls : list label) (s : state) : outcome :=
  match ls with
  | [] => Some (Ok s)
  | l :: ls => match exec l s with
               | Some (Ok s') => run ls s'
               | o => o
               end
  end.
End program.
Arguments state : clear implicits.

(** ** itochar writes the decimal digits *)

Definition is_digit (c : Z) : Prop := 48 <= c <= 57.

(** The number whose digits, least significant first, are [ds]. *)
Fixpoint value_of (ds : list Z) : Z :=
  match ds with
  | [] => 0
  | d :: ds => (d - 48) + 10 * value_of ds
  end.

Lemma value_of_app ds ds' : value_of (ds ++ ds') = value_of ds + 10 ^ zlen ds * value_of ds'.
Proof.
  induction ds as [|d ds IH]; cbn [app value_of]; [change (zlen []) with 0; lia|].
  rewrite IH, zlen_cons, Z.pow_add_r by (pose proof (zlen_nonneg ds); lia). lia.
Qed.

(** A written prefix: [i] digits that denote [v]. *)
Definition digits_upto (sastr : list Z) (i v : Z) : Prop :=
  zlen sastr = 10 /\ exists ds rest, sastr = ds ++ rest /\ zlen ds = i /\
    Forall is_digit ds /\ value_of ds = v.

Lemma digits_snoc sastr i v d :
  digits_upto sastr i v -> 0 <= i < 10 -> 0 <= d < 10 ->
  wp (wr sastr i (s8 (d + 48))) (fun sastr' => digits_upto sastr' (i + 1) (v + 10 ^ i * d)).
Proof.
  intros (Hl & ds & rest & -> & <- & Hds & <-) Hi Hd. apply wp_wr; [lia|].
  split; [by rewrite zlen_upd|]. rewrite zlen_app in Hl. destruct rest as [|x rest].
  { change (zlen []) with 0 in Hl. lia. }
  replace (s8 (d + 48)) with (d + 48) by (unfold s8; rewrite Z.mod_small; lia).
  rewrite upd_split. exists (ds ++ [d + 48]), rest. rewrite <- app_assoc, zlen_snoc. split_and!.
  - done.
  - done.
  - apply Forall_app. split; [done|]. repeat constructor; unfold is_digit; lia.
  - rewrite value_of_app. cbn [value_of]. lia.
Qed.

Lemma wp_digits_loop num :
  0 <= num <= INT_MAX ->
  wp (digits_loop num) (fun '(i, sastr) => 0 <= i < 10 /\ digits_upto sastr (i + 1) num).
Proof.
  intros Hn. unfold digits_loop. wp_step.
  apply (wp_for_exit (fun i '(val1, sastr) => exists v, digits_upto sastr i v /\ 0 <= val1 /\
    num = v + 10 ^ i * val1 /\ 0 <= v /\ (i = 0 \/ 10 <= val1))).
  - exists 0. split_and!; try lia. split; [done|]. by exists [], (replicate 10 0).
  - intros i [val1 sastr] Hi (v & Hd & Hv1 & E & Hv & Hbig).
    assert (i <= 8) as Hi8.
    { destruct Hbig as [->|Hbig]; [lia|]. destruct (decide (9 <= i)); [|lia].
      assert (10 ^ 9 <= 10 ^ i) by (apply Z.pow_le_mono_r; lia).
      change (10 ^ 9) with 1000000000 in *. unfold INT_MAX in Hn. nia. }
    set (d := val1 `rem` 10). set (q := val1 `quot` 10).
    assert (0 <= d < 10 /\ 0 <= q /\ val1 = 10 * q + d) as (Hd1 & Hq & Ev) by (unfold d, q; div_lia).
    assert (10 ^ (i + 1) = 10 * 10 ^ i) as Ep by (rewrite Z.pow_add_r; lia).
    assert (0 < 10 ^ i) by (apply Z.pow_pos_nonneg; lia).
    wp_step. eapply wp_mono; [apply (digits_snoc _ _ _ d Hd); lia|]. intros sa Hsa. code_case.
    + wp_step. eapply wp_mono; [apply (digits_snoc _ _ _ q Hsa); lia|]. intros sa' Hsa'.
      simpl. split; [lia|]. replace num with (v + 10 ^ i * d + 10 ^ (i + 1) * q); [done|].
      rewrite Ep, E, Ev. lia.
    + exists (v + 10 ^ i * d). split_and!; [done|done| |nia|by right]. rewrite Ep, E, Ev. lia.
  - intros [val1 sastr] (v & _ & _ & E & Hv & [?|Hb]); [done|]. exfalso.
    assert (10 ^ 10 <= 10 ^ Z.max 0 100) by (apply Z.pow_le_mono_r; lia).
    change (10 ^ 10) with 10000000000 in *. unfold INT_MAX in Hn. nia.
Qed.

(** The characters of a run of digits that a NUL ends. *)
Lemma cstring_digits ds rest acc :
  Forall is_digit ds ->
  decimal_from acc (cstring (ds ++ 0 :: rest)) = fold_left (fun a d => a * 10 + (d - 48)) ds acc /\
  String.length (cstring (ds ++ 0 :: rest)) = length ds.
Proof.
  intros Hd. revert acc. induction Hd as [|d ds Hd Hds IH]; intros acc; [done|]. unfold is_digit in Hd.
  cbn [app cstring]. rewrite (proj2 (Z.eqb_neq _ _)) by lia. cbn [decimal_from fold_left String.length length].
  assert (char_val (Ascii.ascii_of_N (Z.to_N (d mod 256))) = d) as ->.
  { unfold char_val. rewrite Z.mod_small, Ascii.N_ascii_embedding, Z2N.id by lia.
    unfold s8. rewrite Z.mod_small; lia. }
  destruct (IH (acc * 10 + (d - 48))) as [-> ->]. done.
Qed.

Lemma fold_reverse ds :
  fold_left (fun a d => a * 10 + (d - 48)) (reverse ds) 0 = value_of ds.
Proof.
  induction ds as [|d ds IH]; [done|]. rewrite reverse_cons, fold_left_app, IH.
  cbn [fold_left value_of]. lia.
Qed.

(** The copying loop of itochar reverses the digits into the buffer. *)
Lemma wp_copy_reversed (sastr : list Z) i pstr ds rest :
  sastr = ds ++ rest -> zlen ds = i + 1 -> 0 <= i -> i + 1 < zlen pstr ->
  wp (for_up 0 (i + 1) (fun j pstr => let* c := rd sastr (i - j) in wr pstr j c) pstr)
     (fun pstr' => zlen pstr' = zlen pstr /\ exists rest', pstr' = reverse ds ++ rest').
Proof.
  intros -> Hds Hi Hp.
  apply (wp_for_up (fun j p => zlen p = zlen pstr /\ forall q, 0 <= q < j -> p.[q] = ds.[i - q])).
  - split; [done|intros; lia].
  - intros j p Hj [Hl Hq]. pose proof (zlen_nonneg rest).
    wp_step. apply wp_rd; [rewrite zlen_app; lia|]. apply wp_wr; [lia|].
    rewrite zlen_upd. split; [done|]. intros q Hq'. rewrite aget_upd by lia. case_decide as E.
    + subst. rewrite aget_app_l by lia. done.
    + apply Hq. lia.
  - rewrite Z.max_r by lia. intros p [Hl Hq]. split; [done|].
    exists (drop (Z.to_nat (i + 1)) p). rewrite <- (take_drop (Z.to_nat (i + 1)) p) at 1. f_equal.
    assert (zlen (take (Z.to_nat (i + 1)) p) = i + 1) as Ht
      by (unfold zlen in *; rewrite length_take; lia).
    apply aget_ext; [rewrite Ht; unfold zlen in *; rewrite length_reverse; lia|].
    rewrite Ht. intros q Hq'.
    transitivity p.[q]; [unfold aget; rewrite lookup_total_take_lt by lia; done|].
    rewrite Hq by done. unfold aget, zlen in *. symmetry. apply list_lookup_total_correct.
    rewrite reverse_lookup by lia. rewrite list_lookup_lookup_total_lt by lia. f_equal. f_equal. lia.
Qed.

Lemma wp_key_of num :
  0 <= num <= INT_MAX ->
  wp (key_of num) (fun key => decimal key = num /\ (String.length key < 20)%nat).
Proof.
  intros Hn. unfold key_of, itochar. do 2 wp_step.
  eapply wp_mono; [by apply wp_digits_loop|]. intros [i sastr] (Hi & Hz & ds & rest & E & Hl & Hd & Hv).
  wp_step. eapply wp_mono; [apply (wp_copy_reversed _ _ _ _ _ E Hl); [lia|change (zlen (replicate 20 0)) with 20; lia]|].
  change (zlen (replicate 20 0)) with 20. intros p [Hp (rest' & ->)].
  assert (zlen (reverse ds) = i + 1) as Hrev by (unfold zlen in *; rewrite length_reverse; lia).
  apply wp_wr; [lia|]. rewrite zlen_app in Hp. destruct rest' as [|x rest'].
  { change (zlen []) with 0 in Hp. lia. }
  rewrite <- Hrev, upd_split. simpl. unfold decimal.
  destruct (cstring_digits (reverse ds) rest' 0) as [-> ->]; [by apply Forall_reverse|].
  rewrite fold_reverse. split; [done|]. unfold zlen in Hrev. lia.
Qed.

(** itochar is right: for every non-negative int the producer could
    pass, it stays inside its two buffers and leaves in pstr a C string of
    fewer than 20 characters that reads back, in decimal, as the number. *)
Theorem itochar_roundtrip (num : Z) :
  0 <= num <= INT_MAX ->
  exists key, key_of num = Ok key /\ decimal key = num /\ (String.length key < 20)%nat.
Proof. intros Hn. apply wp_exists. by apply wp_key_of. Qed.

Lemma itochar_roundtrip_witness :
  exists key, key_of 1207 = Ok key /\ decimal key = 1207 /\ (String.length key < 20)%nat.
Proof. apply (itochar_roundtrip 1207). unfold INT_MAX. lia. Defined.

(** ** The invariant of the program *)

(** The keys of the tags 1 .. 100. *)
Definition tag_keys : list string :=
  map (fun t => match key_of t with Ok k => k | Fail _ => EmptyString end) (seqZ 1 100).

Definition b2z (b : bool) : Z := if b then 1 else 0.

(** Who holds [parameter->mutex] and [queue->modify_mutex]. *)
Definition p_mutex {I} (p : ppc I) : Z :=
  match p with P_begin | P_wait | P_wake | P_exit => 0 | _ => 1 end.
Definition c_mutex (c : cpc) : Z :=
  match c with C_get _ | C_set _ _ | C_signal => 1 | _ => 0 end.
Definition p_modify {I} (p : ppc I) : Z :=
  match p with P_link _ _ _ | P_unlock_modify => 1 | _ => 0 end.
Definition c_modify (c : cpc) : Z :=
  match c with C_take | C_unlock_modify _ => 1 | _ => 0 end.

(** Items of key [k] a thread has between the table and the queue: counted
    as produced and not yet queued, or taken and not yet counted. *)
Definition same (k k' : string) : Z := if decide (k = k') then 1 else 0.
Definition p_pending {I} (k : string) (p : ppc I) : Z :=
  match p with P_calloc _ k' | P_lock_modify _ k' _ | P_link _ k' _ => same k k' | _ => 0 end.
Definition c_pending (k : string) (c : cpc) : Z :=
  match c with
  | C_unlock_modify (Some (k', _)) | C_lock (Some (k', _)) | C_get (Some (k', _))
  | C_set (k', _) _ => same k k'
  | _ => 0
  end.

Fixpoint total (f : cpc -> Z) (cs : list cpc) : Z :=
  match cs with [] => 0 | c :: cs => f c + total f cs end.

(** How many items of the queue have key [k]. *)
Fixpoint queued (k : string) (l : list (string * Z)) : Z :=
  match l with [] => 0 | (k', _) :: l => same k k' + queued k l end.

(** Produced minus consumed, by the table. *)
Definition balance (M : gmap string work_record) (k : string) : Z :=
  match M !! k with Some r => p_count r - c_count r | None => 0 end.

(** The item that the producer has and that is not linked yet. *)
Definition p_item {I} (p : ppc I) : option (I * (string * Z)) :=
  match p with P_lock_modify tag k qi | P_link tag k qi => Some (qi, (k, tag)) | _ => None end.

Definition p_key_ok {I} (p : ppc I) : Prop :=
  match p with
  | P_get _ k | P_set _ k _ | P_calloc _ k | P_lock_modify _ k _ | P_link _ k _ => k ∈ tag_keys
  | _ => True
  end.

(** The record about to be stored is the table's, with one more produced. *)
Definition p_set_ok {I} (M : gmap string work_record) (p : ppc I) : Prop :=
  match p with
  | P_set tag k r => is_int (p_count r) /\
      match M !! k with
      | None => r = WorkRecord tag 1 0
      | Some r0 => r = WorkRecord (HashTable.tag r0) (p_count r0 + 1) (c_count r0)
      end
  | _ => True
  end.

Definition c_set_ok (M : gmap string work_record) (c : cpc) : Prop :=
  match c with
  | C_set (k, _) r => exists r0, M !! k = Some r0 /\
      r = WorkRecord (HashTable.tag r0) (p_count r0) (c_count r0 + 1)
  | _ => True
  end.

Section totals.
Implicit Types (f : cpc -> Z) (cs : list cpc).

Lemma total_insert f cs i c c' :
  cs !! i = Some c -> total f (<[i := c']> cs) = total f cs - f c + f c'.
Proof.
  revert i. induction cs as [|d cs IH]; intros [|i]; simpl; intros E; simplify_eq; [lia|].
  rewrite IH by done. lia.
Qed.

Lemma total_nonneg f cs : (forall c, 0 <= f c) -> 0 <= total f cs.
Proof. intros Hf. induction cs as [|c cs IH]; simpl; [lia|]. specialize (Hf c). lia. Qed.

Lemma total_ge f cs i c : (forall c, 0 <= f c) -> cs !! i = Some c -> f c <= total f cs.
Proof.
  intros Hf. revert i. induction cs as [|d cs IH]; intros [|i]; simpl; intros E; simplify_eq.
  - pose proof (total_nonneg f cs Hf). lia.
  - specialize (IH i E). specialize (Hf d). lia.
Qed.

Lemma total_ge2 f cs i j c d :
  (forall c, 0 <= f c) -> cs !! i = Some c -> cs !! j = Some d -> i <> j ->
  f c + f d <= total f cs.
Proof.
  intros Hf. revert i j. induction cs as [|e cs IH]; intros [|i] [|j]; simpl; intros Ei Ej Hij;
    simplify_eq; try done.
  - pose proof (total_ge f cs j d Hf Ej). lia.
  - pose proof (total_ge f cs i c Hf Ei). lia.
  - specialize (IH i j Ei Ej ltac:(lia)). specialize (Hf e). lia.
Qed.
End totals.

Lemma c_mutex_nonneg c : 0 <= c_mutex c. Proof. by destruct c. Qed.
Lemma c_modify_nonneg c : 0 <= c_modify c. Proof. by destruct c. Qed.
Lemma same_nonneg k k' : 0 <= same k k'. Proof. unfold same. case_decide; lia. Qed.
Lemma same_eq k : same k k = 1. Proof. unfold same. by rewrite decide_True. Qed.
Lemma p_mutex_bound {I} (p : ppc I) : 0 <= p_mutex p <= 1. Proof. destruct p; simpl; lia. Qed.

Lemma p_pending_nonneg {I} k (p : ppc I) : 0 <= p_pending k p.
Proof. destruct p; simpl; try lia; apply same_nonneg. Qed.

Lemma c_pending_nonneg k c : 0 <= c_pending k c.
Proof. destruct c as [| | | |[[]|]|[[]|]|[[]|]|[]|]; simpl; try lia; apply same_nonneg. Qed.

Lemma queued_nonneg k l : 0 <= queued k l.
Proof. induction l as [|[k' d] l IH]; simpl; [lia|]. pose proof (same_nonneg k k'). lia. Qed.

Lemma queued_app k l l' : queued k (l ++ l') = queued k l + queued k l'.
Proof. induction l as [|[k' d] l IH]; simpl; [lia|]. rewrite IH. lia. Qed.

(** Taking the oldest item. *)
Lemma queued_removelast k l k' d :
  last l = Some (k', d) -> queued k l = queued k (removelast l) + same k k'.
Proof.
  intros Hl. apply last_Some in Hl as (l' & ->). rewrite removelast_last, queued_app. simpl. lia.
Qed.

(** A queue whose keys are all tags is not longer than what the tags'
    counts add up to. *)
Lemma length_queued (ks : list string) (l : list (string * Z)) (b : Z) :
  0 <= b -> (forall k d, (k, d) ∈ l -> k ∈ ks) -> (forall k, queued k l <= b) ->
  Z.of_nat (length l) <= Z.of_nat (length ks) * b.
Proof.
  intros Hb Hin Hq.
  assert (Z.of_nat (length l) <= foldr (fun k a => queued k l + a) 0 ks) as Hsum.
  { clear Hq. induction l as [|[k d] l IH]; cbn [length queued]; rewrite ?Nat2Z.inj_succ.
    - clear. induction ks as [|k ks IH]; simpl; lia.
    - assert (k ∈ ks) as Hk by (apply (Hin k d); by left).
      assert (Z.of_nat (length l) <= foldr (fun k a => queued k l + a) 0 ks) as IH'
        by (apply IH; intros k' d' H; apply (Hin k' d'); by right).
      clear IH Hin. revert IH' Hk. generalize (Z.of_nat (length l)) as n. intros n IH' Hk.
      assert (foldr (fun k0 a => queued k0 l + a) 0 ks + 1 <=
        foldr (fun k0 a => same k0 k + queued k0 l + a) 0 ks) as Hstep; [|lia].
      clear IH'. induction ks as [|k0 ks IHk]; [by apply elem_of_nil in Hk|]. simpl.
      apply elem_of_cons in Hk as [<-|Hk].
      + rewrite same_eq. assert (foldr (fun k0 a => queued k0 l + a) 0 ks <=
          foldr (fun k0 a => same k0 k + queued k0 l + a) 0 ks); [|lia].
        clear. induction ks as [|k0 ks IH]; simpl; [lia|]. pose proof (same_nonneg k0 k). lia.
      + specialize (IHk Hk). pose proof (same_nonneg k0 k). lia. }
  etransitivity; [exact Hsum|]. clear Hsum Hin.
  induction ks as [|k ks IH]; simpl; [lia|]. specialize (Hq k). lia.
Qed.

Lemma tag_keys_short k : k ∈ tag_keys -> (String.length k < 20)%nat.
Proof.
  intros Hk. assert (Forall (fun k => (String.length k < 20)%nat) tag_keys) as HF.
  { apply (bool_decide_unpack _). vm_compute. exact I. }
  rewrite Forall_forall in HF. by apply HF.
Qed.

Lemma key_of_tag tag key : 1 <= tag <= 100 -> key_of tag = Ok key -> key ∈ tag_keys.
Proof.
  intros Ht E. unfold tag_keys. apply list_elem_of_In, in_map_iff. exists tag. rewrite E.
  split; [done|]. apply list_elem_of_In, elem_of_seqZ. lia.
Qed.

Section invariant.
Context {T Q I : Type} `{RecordStore T} `{ItemQueue Q I}.
Implicit Types (s : state T Q I).

Definition c_key_ok (c : cpc) : Prop :=
  match c with
  | C_unlock_modify (Some (k, _)) | C_lock (Some (k, _)) | C_get (Some (k, _))
  | C_set (k, _) _ => k ∈ tag_keys
  | _ => True
  end.

(** Produced but not yet counted as consumed. *)
Definition outstanding (k : string) s (l : list (string * Z)) : Z :=
  queued k l + p_pending k (producer s) + total (c_pending k) (consumers s).

(** [lost] are the items for which calloc failed. *)
Record inv s (M : gmap string work_record) (l lost : list (string * Z)) : Prop := {
  i_table : store_rep (table s) M;
  i_queue : queue_rep (que s) l (p_item (producer s));
  i_lost : length lost = queue_refused (que s);
  i_balance : forall k, balance M k = outstanding k s l + queued k lost;
  i_range : forall k r, M !! k = Some r -> 0 <= c_count r /\ is_int (p_count r);
  i_keys : forall k d, (k, d) ∈ l -> k ∈ tag_keys;
  i_pkey : p_key_ok (producer s);
  i_mutex : p_mutex (producer s) + total c_mutex (consumers s) = b2z (mutex s);
  i_modify : p_modify (producer s) + total c_modify (consumers s) = b2z (modify_mutex s);
  i_pset : p_set_ok M (producer s);
  i_cset : forall i c, consumers s !! i = Some c -> c_set_ok M c /\ c_key_ok c
}.

Lemma queue_bound s M l lost : inv s M l lost -> Z.of_nat (length l) + 1 < 18446744073709551615.
Proof.
  intros Hi. assert (Z.of_nat (length l) <= Z.of_nat (length tag_keys) * INT_MAX) as Hb.
  { apply length_queued; [unfold INT_MAX; lia|apply (i_keys _ _ _ _ Hi)|]. intros k.
    pose proof (i_balance _ _ _ _ Hi k) as Hbal. unfold outstanding, balance in Hbal.
    pose proof (p_pending_nonneg k (producer s)). pose proof (queued_nonneg k lost).
    pose proof (total_nonneg (c_pending k) (consumers s) (c_pending_nonneg k)).
    destruct (M !! k) as [r|] eqn:E; [|unfold INT_MAX; lia].
    destruct (i_range _ _ _ _ Hi k r E) as [? ?]. code_lia. }
  change (Z.of_nat (length tag_keys)) with 100 in Hb. unfold INT_MAX in Hb. lia.
Qed.

(** A state reached by moving the producer, with table and queue untouched. *)
Lemma inv_producer s M l lost p mx md rd :
  inv s M l lost ->
  (forall k, p_pending k p = p_pending k (producer s)) -> p_item p = p_item (producer s) ->
  p_key_ok p -> p_set_ok M p ->
  p_mutex p - p_mutex (producer s) = b2z mx - b2z (mutex s) ->
  p_modify p - p_modify (producer s) = b2z md - b2z (modify_mutex s) ->
  forall kf sc, inv (State (table s) (que s) mx md rd p (consumers s) kf sc) M l lost.
Proof.
  intros [] Hpend Hitem Hkey Hset Hmx Hmd kf sc. split; simpl; try done; try lia.
  - by rewrite Hitem.
  - intros k. rewrite i_balance0. unfold outstanding. simpl. by rewrite Hpend.
Qed.

(** The same for a consumer. *)
Lemma inv_consumer s M l lost i c c' mx md rd p :
  inv s M l lost -> consumers s !! i = Some c ->
  (forall k, c_pending k c' = c_pending k c) -> c_key_ok c' -> c_set_ok M c' ->
  c_mutex c' - c_mutex c = b2z mx - b2z (mutex s) ->
  c_modify c' - c_modify c = b2z md - b2z (modify_mutex s) ->
  p = producer s \/ (producer s = P_wait /\ p = P_wake) ->
  forall kf sc, inv (State (table s) (que s) mx md rd p (<[i := c']> (consumers s)) kf sc) M l lost.
Proof.
  intros [] Hc Hpend Hkey Hset Hmx Hmd Hp kf sc.
  assert (p_mutex p = p_mutex (producer s) /\ p_modify p = p_modify (producer s) /\
    (forall k, p_pending k p = p_pending k (producer s)) /\ p_item p = p_item (producer s) /\ p_key_ok p /\ p_set_ok M p)
    as (Em & Ed & Epd & Ei & Ek & Es) by (destruct Hp as [->|[Ew ->]]; [done|by rewrite Ew]).
  split; simpl; try done; rewrite ?Em, ?Ed, ?Ei; try done.
  - intros k. rewrite i_balance0. unfold outstanding. simpl.
    rewrite (total_insert _ _ _ _ _ Hc), Hpend, Epd. lia.
  - rewrite (total_insert _ _ _ _ _ Hc). lia.
  - rewrite (total_insert _ _ _ _ _ Hc). lia.
  - intros j d. rewrite list_lookup_insert_Some. intros [(-> & -> & _)|[_ Hd]]; eauto.
Qed.

(** While one thread holds the mutex no other is about to store a record. *)
Lemma no_cset s M l lost i c :
  inv s M l lost -> p_mutex (producer s) = 1 -> consumers s !! i = Some c -> c_mutex c = 0.
Proof.
  intros Hi Hp Hc. pose proof (i_mutex _ _ _ _ Hi) as Hm.
  pose proof (total_ge c_mutex _ i c c_mutex_nonneg Hc). pose proof (c_mutex_nonneg c).
  destruct (mutex s); simpl in Hm; lia.
Qed.

Lemma no_pset s M l lost i c j d :
  inv s M l lost -> consumers s !! i = Some c -> c_mutex c = 1 ->
  p_mutex (producer s) = 0 /\ (consumers s !! j = Some d -> i <> j -> c_mutex d = 0).
Proof.
  intros Hi Hc Hm1. pose proof (i_mutex _ _ _ _ Hi) as Hm. pose proof (p_mutex_bound (producer s)).
  pose proof (total_ge c_mutex _ i c c_mutex_nonneg Hc). split; [destruct (mutex s); simpl in Hm; lia|].
  intros Hd Hij. pose proof (total_ge2 c_mutex _ i j c d c_mutex_nonneg Hc Hd Hij).
  pose proof (c_mutex_nonneg d). destruct (mutex s); simpl in Hm; lia.
Qed.

(** Storing a record changes the balance of its key only. *)
Lemma balance_insert M key r k :
  balance (<[key := r]> M) k = if decide (k = key) then p_count r - c_count r else balance M k.
Proof.
  unfold balance. case_decide as E; [subst; by rewrite lookup_insert_eq|].
  by rewrite lookup_insert_ne by congruence.
Qed.

(** The producer stores its record. *)
Lemma inv_pset s M l lost tag key r t :
  inv s M l lost -> producer s = P_set tag key r -> store_rep t (<[key := r]> M) ->
  inv (set_producer (P_calloc tag key) (set_table t s)) (<[key := r]> M) l lost.
Proof.
  intros Hi Hp Ht. pose proof (i_pset _ _ _ _ Hi) as Hs. pose proof (i_pkey _ _ _ _ Hi) as Hk.
  rewrite Hp in Hs, Hk. destruct Hs as [Hint Hs]. split; simpl.
  - done.
  - pose proof (i_queue _ _ _ _ Hi) as Hq. by rewrite Hp in Hq.
  - apply (i_lost _ _ _ _ Hi).
  - intros k. rewrite balance_insert. pose proof (i_balance _ _ _ _ Hi k) as Hb.
    unfold outstanding in *. simpl in *. rewrite Hp in Hb. simpl in Hb. unfold same, balance in *.
    case_decide as E; [|lia]. subst k. destruct (M !! key) as [r0|]; subst r; simpl; lia.
  - intros k r'. rewrite lookup_insert_Some. intros [[<- <-]|[_ Hr]]; [|by apply (i_range _ _ _ _ Hi k)].
    split; [|done]. destruct (M !! key) as [r0|] eqn:E; subst r; simpl; [|lia].
    apply (i_range _ _ _ _ Hi key r0 E).
  - apply (i_keys _ _ _ _ Hi).
  - done.
  - pose proof (i_mutex _ _ _ _ Hi) as Hm. by rewrite Hp in Hm.
  - pose proof (i_modify _ _ _ _ Hi) as Hm. by rewrite Hp in Hm.
  - done.
  - intros i c Hc. destruct (i_cset _ _ _ _ Hi i c Hc) as [_ Hck]. split; [|done].
    pose proof (no_cset _ _ _ _ i c Hi ltac:(by rewrite Hp) Hc) as Hc0. by destruct c.
Qed.

(** A consumer stores its record. *)
Lemma inv_cset s M l lost i key d r t :
  inv s M l lost -> consumers s !! i = Some (C_set (key, d) r) -> store_rep t (<[key := r]> M) ->
  inv (set_consumer i C_signal (set_table t s)) (<[key := r]> M) l lost.
Proof.
  intros Hi Hc Ht. destruct (i_cset _ _ _ _ Hi i _ Hc) as [(r0 & E0 & Er) Hk]. split; simpl.
  - done.
  - apply (i_queue _ _ _ _ Hi).
  - apply (i_lost _ _ _ _ Hi).
  - intros k. rewrite balance_insert. pose proof (i_balance _ _ _ _ Hi k) as Hb.
    unfold outstanding in *. simpl in *. rewrite (total_insert _ _ _ _ _ Hc). simpl.
    unfold same, balance in *. case_decide as E; [|lia]. subst k. rewrite E0 in Hb. subst r. simpl. lia.
  - intros k r'. rewrite lookup_insert_Some. intros [[<- <-]|[_ Hr]]; [|by apply (i_range _ _ _ _ Hi k)].
    destruct (i_range _ _ _ _ Hi key r0 E0). subst r. simpl. split; [lia|done].
  - apply (i_keys _ _ _ _ Hi).
  - apply (i_pkey _ _ _ _ Hi).
  - rewrite (total_insert _ _ _ _ _ Hc). simpl. pose proof (i_mutex _ _ _ _ Hi). lia.
  - rewrite (total_insert _ _ _ _ _ Hc). simpl. pose proof (i_modify _ _ _ _ Hi). lia.
  - destruct (no_pset _ _ _ _ i _ i C_spin Hi Hc eq_refl) as [Hp0 _]. by destruct (producer s).
  - intros j c. rewrite list_lookup_insert_Some. intros [(<- & <- & _)|[Hij Hcj]]; [done|].
    destruct (no_pset _ _ _ _ i _ j c Hi Hc eq_refl) as [_ Hc0]. specialize (Hc0 Hcj Hij).
    destruct (i_cset _ _ _ _ Hi j c Hcj) as [_ Hck]. split; [|done]. by destruct c.
Qed.

(** The producer gets memory for its item, or not. *)
Lemma inv_calloc s M l lost tag key q o :
  inv s M l lost -> producer s = P_calloc tag key ->
  match o with
  | Some i => queue_rep q l (Some (i, (key, tag))) /\ queue_refused q = queue_refused (que s)
  | None => queue_rep q l None /\ queue_refused q = S (queue_refused (que s))
  end ->
  inv (set_producer (match o with Some qi => P_lock_modify tag key qi | None => P_check end) (set_que q s)) M l
    (match o with Some _ => lost | None => (key, tag) :: lost end).
Proof.
  intros Hi Hp Hq. pose proof (i_pkey _ _ _ _ Hi) as Hk. rewrite Hp in Hk.
  pose proof (i_mutex _ _ _ _ Hi) as Hm. pose proof (i_modify _ _ _ _ Hi) as Hd. rewrite Hp in Hm, Hd.
  pose proof (i_lost _ _ _ _ Hi) as Hl. pose proof (i_table _ _ _ _ Hi). pose proof (i_range _ _ _ _ Hi).
  pose proof (i_keys _ _ _ _ Hi). pose proof (i_cset _ _ _ _ Hi). pose proof (i_balance _ _ _ _ Hi) as Hb.
  destruct o as [i|]; destruct Hq as [Hq Hr]; split; simpl; try done; try congruence.
  - intros k. rewrite Hb. unfold outstanding. by rewrite Hp.
  - intros k. rewrite Hb. unfold outstanding. rewrite Hp. simpl. lia.
Qed.

(** The producer links its item into the queue. *)
Lemma inv_link s M l lost tag key i q :
  inv s M l lost -> producer s = P_link tag key i -> queue_rep q ((key, tag) :: l) None ->
  queue_refused q = queue_refused (que s) ->
  inv (set_producer P_unlock_modify (set_que q s)) M ((key, tag) :: l) lost.
Proof.
  intros Hi Hp Hq Hr. pose proof (i_pkey _ _ _ _ Hi) as Hk. rewrite Hp in Hk.
  pose proof (i_mutex _ _ _ _ Hi) as Hm. pose proof (i_modify _ _ _ _ Hi) as Hd. rewrite Hp in Hm, Hd.
  split; simpl; try done.
  - apply (i_table _ _ _ _ Hi).
  - rewrite Hr. apply (i_lost _ _ _ _ Hi).
  - intros k. rewrite (i_balance _ _ _ _ Hi k). unfold outstanding. rewrite Hp. simpl. lia.
  - apply (i_range _ _ _ _ Hi).
  - intros k d. rewrite elem_of_cons. intros [[= -> ->]|Hin]; [done|by apply (i_keys _ _ _ _ Hi k d)].
  - apply (i_cset _ _ _ _ Hi).
Qed.

(** A consumer takes the oldest item. *)
Lemma inv_take s M l lost i q rd kf sc :
  inv s M l lost -> consumers s !! i = Some C_take -> queue_rep q (removelast l) (p_item (producer s)) ->
  queue_refused q = queue_refused (que s) ->
  inv (State (table s) q (mutex s) (modify_mutex s) rd (producer s)
    (<[i := C_unlock_modify (last l)]> (consumers s)) kf sc) M (removelast l) lost.
Proof.
  intros Hi Hc Hq Hr. split; simpl; try done.
  - apply (i_table _ _ _ _ Hi).
  - rewrite Hr. apply (i_lost _ _ _ _ Hi).
  - intros k. rewrite (i_balance _ _ _ _ Hi k). unfold outstanding. simpl.
    rewrite (total_insert _ _ _ _ _ Hc). simpl. destruct (last l) as [[k' d]|] eqn:El; simpl.
    + rewrite (queued_removelast k l k' d El). lia.
    + apply last_None in El. subst l. simpl. lia.
  - apply (i_range _ _ _ _ Hi).
  - intros k d Hin. apply (i_keys _ _ _ _ Hi k d). destruct (last l) as [x|] eqn:El.
    + apply last_Some in El as (l' & ->). rewrite removelast_last in Hin. apply elem_of_app. by left.
    + apply last_None in El. by subst l.
  - apply (i_pkey _ _ _ _ Hi).
  - rewrite (total_insert _ _ _ _ _ Hc). simpl. pose proof (i_mutex _ _ _ _ Hi). lia.
  - rewrite (total_insert _ _ _ _ _ Hc). simpl. pose proof (i_modify _ _ _ _ Hi). lia.
  - apply (i_pset _ _ _ _ Hi).
  - intros j c. rewrite list_lookup_insert_Some. intros [(<- & <- & _)|[_ Hcj]];
      [|by apply (i_cset _ _ _ _ Hi j c)].
    split; [done|]. simpl. destruct (last l) as [[k d]|] eqn:El; [|done].
    apply (i_keys _ _ _ _ Hi k d). apply last_Some in El as (l' & ->). apply elem_of_app. right. by left.
Qed.

(** A consumer that holds an item finds its record in the table. *)
Lemma held_item_recorded s M l lost i key d :
  inv s M l lost -> consumers s !! i = Some (C_get (Some (key, d))) -> exists r, M !! key = Some r.
Proof.
  intros Hi Hc. pose proof (i_balance _ _ _ _ Hi key) as Hb. unfold outstanding, balance in Hb.
  pose proof (queued_nonneg key l). pose proof (queued_nonneg key lost). pose proof (p_pending_nonneg key (producer s)).
  pose proof (total_ge (c_pending key) _ i _ (c_pending_nonneg key) Hc) as Hge. simpl in Hge.
  rewrite same_eq in Hge. destruct (M !! key) as [r|]; [eauto|lia].
Qed.

Lemma lock_inv (b : bool) s s' : lock b s = Some (Ok s') -> b = false /\ s' = s.
Proof. destruct b; simpl; [done|]. by intros [= ->]. Qed.

Lemma exec_producer_inv rand s s' M l lost :
  inv s M l lost -> exec_producer rand s = Some (Ok s') -> exists M' l' lost', inv s' M' l' lost'.
Proof.
  intros Hi. pose proof (i_pkey _ _ _ _ Hi) as Hk. unfold exec_producer.
  destruct (producer s) as [|tag key|tag key r|tag key|tag key i|tag key i| | | | | | |] eqn:Hp; intros E.
  - destruct ((0 <=? rand) && (rand <=? INT_MAX)) eqn:Hr; [|done].
    apply andb_true_iff in Hr as [Hr1 Hr2]. apply Z.leb_le in Hr1. apply Z.leb_le in Hr2.
    set (tag := rand `rem` 100 + 1) in *. assert (1 <= tag <= 100) as Ht by (unfold tag; div_lia).
    destruct (key_of tag) as [key|] eqn:Ek; [|done]. apply lock_inv in E as [Hm ->].
    exists M, l, lost. apply (inv_producer s M l lost); rewrite ?Hp, ?Hm; try done; [|simpl; lia].
    simpl. by apply (key_of_tag tag).
  - injection E as E. rewrite (store_get_ok _ M) in E by apply (i_table _ _ _ _ Hi). simpl in E.
    apply bind_Ok_inv in E as (r & Er & [= <-]). exists M, l, lost.
    apply (inv_producer s M l lost); rewrite ?Hp; try done; try (simpl; lia). simpl.
    unfold produced in Er. destruct (M !! key) as [r0|] eqn:E0; simpl in Er.
    + apply bind_Ok_inv in Er as (p & Ep & [= <-]). apply int_inv in Ep as [-> Hint]. done.
    + injection Er as <-. simpl. split; [code_lia|done].
  - injection E as E. apply bind_Ok_inv in E as (t & Et & [= <-]).
    pose proof (store_set_ok (table s) M key r (i_table _ _ _ _ Hi)) as Hset. rewrite Et in Hset.
    exists (<[key := r]> M), l, lost. by apply inv_pset.
  - injection E as E. apply bind_Ok_inv in E as ([o q] & Eq & [= <-]). pose proof (i_queue _ _ _ _ Hi) as Hq. rewrite Hp in Hq.
    pose proof (queue_new_ok (que s) l key tag Hq (tag_keys_short _ Hk)) as Hnew. rewrite Eq in Hnew.
    eexists M, l, _. by apply inv_calloc.
  - destruct (queue_null (que s)); [done|]. apply lock_inv in E as [Hm ->]. exists M, l, lost.
    apply (inv_producer s M l lost); rewrite ?Hp, ?Hm; done || (simpl; lia).
  - injection E as E. apply bind_Ok_inv in E as (q & Eq & [= <-]). pose proof (i_queue _ _ _ _ Hi) as Hq. rewrite Hp in Hq.
    pose proof (queue_link_ok (que s) l i key tag Hq (queue_bound _ _ _ _ Hi)) as Hadd. rewrite Eq in Hadd. destruct Hadd as [Hadd Hr].
    exists M, ((key, tag) :: l), lost. by apply (inv_link s M l lost tag key i).
  - injection E as <-. exists M, l, lost. pose proof (i_modify _ _ _ _ Hi) as Hd. rewrite Hp in Hd.
    pose proof (total_nonneg c_modify (consumers s) c_modify_nonneg). simpl in Hd.
    apply (inv_producer s M l lost); rewrite ?Hp; try done; simpl; destruct (modify_mutex s); simpl in *; lia.
  - injection E as <-. exists M, l, lost. apply (inv_producer s M l lost); rewrite ?Hp; try done; simpl; lia.
  - pose proof (i_mutex _ _ _ _ Hi) as Hm. rewrite Hp in Hm. simpl in Hm.
    pose proof (total_nonneg c_mutex (consumers s) c_mutex_nonneg).
    destruct (queue_null (que s)); [done|]. destruct (queue_len (que s) =? 50); injection E as <-; exists M, l, lost;
      apply (inv_producer s M l lost); rewrite ?Hp; try done; simpl; destruct (mutex s); simpl in *; lia.
  - done.
  - apply lock_inv in E as [Hm ->]. exists M, l, lost. apply (inv_producer s M l lost); rewrite ?Hp, ?Hm; done || (simpl; lia).
  - injection E as <-. exists M, l, lost. pose proof (i_mutex _ _ _ _ Hi) as Hm. rewrite Hp in Hm. simpl in Hm.
    pose proof (total_nonneg c_mutex (consumers s) c_mutex_nonneg).
    apply (inv_producer s M l lost); rewrite ?Hp; destruct (thread_kill_flag s); try done; simpl;
      destruct (mutex s); simpl in *; lia.
  - done.
Qed.

Lemma exec_consumer_inv i s s' M l lost :
  inv s M l lost -> exec_consumer i s = Some (Ok s') -> exists M' l' lost', inv s' M' l' lost'.
Proof.
  intros Hi. unfold exec_consumer. destruct (consumers s !! i) as [c|] eqn:Hc; [|done].
  destruct (i_cset _ _ _ _ Hi i c Hc) as [Hset Hkey].
  pose proof (total_ge c_mutex _ i c c_mutex_nonneg Hc) as Hge.
  pose proof (total_ge c_modify _ i c c_modify_nonneg Hc) as Hgd.
  pose proof (i_mutex _ _ _ _ Hi) as Hm. pose proof (i_modify _ _ _ _ Hi) as Hd.
  pose proof (p_mutex_bound (producer s)) as Hpb.
  assert (0 <= p_modify (producer s)) as Hpd by (destruct (producer s); simpl; lia).
  destruct c as [| | | |item|item|[[key d]|]|[key d] r|]; intros E.
  - destruct (queue_null (que s)); [done|]. destruct (queue_len (que s) =? 0); injection E as <-; exists M, l, lost; [done|].
    apply (inv_consumer s M l lost i C_spin); done || (simpl; lia) || auto.
  - apply lock_inv in E as [Hr ->]. exists M, l, lost. apply (inv_consumer s M l lost i C_lock_read); done || (simpl; lia) || auto.
  - apply lock_inv in E as [Hr ->]. exists M, l, lost.
    apply (inv_consumer s M l lost i C_lock_modify); rewrite ?Hr; done || (simpl; lia) || auto.
  - injection E as E. apply bind_Ok_inv in E as ([item q] & Eq & E).
    pose proof (queue_take_ok (que s) l _ (i_queue _ _ _ _ Hi)) as Htake. rewrite Eq in Htake.
    destruct Htake as (-> & Hq & Hr). exists M, (removelast l), lost. injection E as <-.
    pose proof (fun rd => inv_take s M l lost i q rd (thread_kill_flag s) (screen s) Hi Hc Hq Hr) as HT.
    destruct (last l) as [x|] eqn:El; [destruct (queue_len q >? 0)|]; apply HT.
  - injection E as <-. exists M, l, lost. simpl in *.
    apply (inv_consumer s M l lost i (C_unlock_modify item)); try done; simpl; auto; try lia.
    destruct (modify_mutex s); simpl in *; lia.
  - apply lock_inv in E as [Hr ->]. exists M, l, lost.
    apply (inv_consumer s M l lost i (C_lock item)); rewrite ?Hr; done || (simpl; lia) || auto.
  - injection E as E. rewrite (store_get_ok _ M) in E by apply (i_table _ _ _ _ Hi). simpl in E.
    destruct (held_item_recorded _ _ _ _ _ _ _ Hi Hc) as (r & Er). rewrite Er in E. simpl in E.
    apply bind_Ok_inv in E as (cnt & Ep & [= <-]). apply int_inv in Ep as [-> Hint].
    exists M, l, lost. apply (inv_consumer s M l lost i (C_get (Some (key, d)))); try done; simpl; eauto; lia.
  - done.
  - injection E as E. apply bind_Ok_inv in E as (t & Et & [= <-]).
    pose proof (store_set_ok (table s) M key r (i_table _ _ _ _ Hi)) as Hst. rewrite Et in Hst.
    exists (<[key := r]> M), l, lost. by apply (inv_cset s M l lost i key d).
  - injection E as <-. exists M, l, lost. simpl in *.
    destruct (producer s) eqn:Hp; simpl; apply (inv_consumer s M l lost i C_signal); rewrite ?Hp; try done;
      simpl; auto; destruct (mutex s); simpl in *; lia.
Qed.

Lemma inv_initial t q n : store_rep t ∅ -> queue_rep q [] None -> queue_refused q = 0%nat -> inv (initial t q n) ∅ [] [].
Proof.
  intros Ht Hq Hr.
  assert (forall f, f C_spin = 0 -> total f (replicate n C_spin) = 0) as Hz.
  { intros f Hf. induction n as [|n IH]; simpl; [done|]. lia. }
  split; simpl; rewrite ?Hz by done; try done.
  - intros k. unfold outstanding. simpl. by rewrite Hz.
  - intros k d Hin. by apply elem_of_nil in Hin.
  - intros i c Hc. apply lookup_replicate in Hc as [-> _]. done.
Qed.

Lemma step_inv s s' M l lost : inv s M l lost -> step s s' -> exists M' l' lost', inv s' M' l' lost'.
Proof.
  intros Hi Hs. inversion Hs as [lb s0 s1 E]; subst s0 s1. destruct lb as [rand|i| |]; simpl in E.
  - by apply (exec_producer_inv rand s s' M l lost).
  - by apply (exec_consumer_inv i s s' M l lost).
  - injection E as <-. exists M, l, lost. apply (inv_producer s M l lost); try done; try lia; apply Hi.
  - destruct (producer s) eqn:Hp; try done. injection E as <-. exists M, l, lost.
    apply (inv_producer s M l lost); rewrite ?Hp; done || (simpl; lia).
Qed.

Lemma reachable_inv t q n s :
  store_rep t ∅ -> queue_rep q [] None -> queue_refused q = 0%nat -> reachable (initial t q n) s -> exists M l lost, inv s M l lost.
Proof.
  intros Ht Hq Hr. induction 1 as [|s s' _ IH Hs]; [eauto using inv_initial|].
  destruct IH as (M & l & lost & Hi). by apply (step_inv s s' M l lost).
Qed.

(** A run can only stop on the overflow of a counter, on the item a consumer did
    not get, or in the abort of hash_set for a tag that is new to the table. *)
Lemma exec_faults lb s M l lost f :
  inv s M l lost -> exec lb s = Some (Fail f) ->
  f = IntOverflow \/ (f = Aborted /\ exists rand tag key r, lb = Producer rand /\ producer s = P_set tag key r /\ M !! key = None) \/
  exists i, consumers s !! i = Some (C_get None).
Proof.
  intros Hi. assert (forall z g, int z = Fail g -> g = IntOverflow) as Hint.
  { intros z g. unfold int. destruct (_ && _); [done|]. by intros [= <-]. }
  pose proof (queue_null_ok _ _ _ (i_queue _ _ _ _ Hi)) as Hnull.
  destruct lb as [rand|i| |]; simpl; intros E; [| |done|by destruct (producer s)].
  - unfold exec_producer in E. pose proof (i_pkey _ _ _ _ Hi) as Hk. pose proof (i_queue _ _ _ _ Hi) as Hq.
    destruct (producer s) as [|tag key|tag key r|tag key|tag key i|tag key i| | | | | | |] eqn:Hp;
      rewrite ?Hnull in E; unfold lock in E; try by repeat case_match.
    + destruct ((0 <=? rand) && (rand <=? INT_MAX)) eqn:Hr; [|done].
      apply andb_true_iff in Hr as [Hr1 Hr2]. apply Z.leb_le in Hr1. apply Z.leb_le in Hr2.
      destruct (proj1 (wp_exists _ _) (wp_key_of (rand `rem` 100 + 1) ltac:(div_lia))) as (key & Ek & _).
      rewrite Ek in E. by destruct (mutex s).
    + injection E as E. rewrite (store_get_ok _ M) in E by apply (i_table _ _ _ _ Hi). simpl in E.
      unfold produced in E. destruct (M !! key); simpl in E; [|done].
      destruct (int _) eqn:Ep; simpl in E; [done|]. injection E as <-. left. by eapply Hint.
    + injection E as E. pose proof (store_set_ok (table s) M key r (i_table _ _ _ _ Hi)) as Hset.
      destruct (store_set key r (table s)); [done|]. injection E as <-. right. left. destruct Hset as [-> HM]. split; [done|]. by exists rand, tag, key, r.
    + injection E as E. pose proof (queue_new_ok (que s) l key tag Hq (tag_keys_short _ Hk)) as Hnew.
      by destruct (queue_new key tag (que s)) as [[]|].
    + injection E as E. pose proof (queue_link_ok (que s) l i key tag Hq (queue_bound _ _ _ _ Hi)) as Hadd.
      by destruct (queue_link i (que s)).
  - unfold exec_consumer in E. destruct (consumers s !! i) as [c|] eqn:Hc; [|done].
    destruct c as [| | | |item|item|[[key d]|]|[key d] r|]; rewrite ?Hnull in E; unfold lock in E;
      try by repeat case_match.
    + injection E as E. pose proof (queue_take_ok (que s) l _ (i_queue _ _ _ _ Hi)) as Htake.
      by destruct (queue_take (que s)) as [[[] ?]|].
    + injection E as E. rewrite (store_get_ok _ M) in E by apply (i_table _ _ _ _ Hi). simpl in E.
      destruct (held_item_recorded _ _ _ _ _ _ _ Hi Hc) as (r & Er). rewrite Er in E. simpl in E.
      destruct (int _) eqn:Ep; simpl in E; [done|]. injection E as <-. left. by eapply Hint.
    + right. right. by exists i.
    + injection E as E. pose proof (store_set_ok (table s) M key r (i_table _ _ _ _ Hi)) as Hset.
      destruct (store_set key r (table s)); [done|]. destruct Hset as [_ Hnone].
      destruct (i_cset _ _ _ _ Hi i _ Hc) as [(r0 & E0 & _) _]. congruence.
Qed.

(** With one consumer, an item is waiting from the moment the spin loop
    ends until Get_Queue_Item takes it. *)
Definition single s : Prop :=
  exists c, consumers s = [c] /\
    match c with
    | C_lock_read | C_lock_modify | C_take => 0 < queue_len (que s)
    | C_unlock_modify None | C_lock None | C_get None => False
    | _ => True
    end.

Lemma exec_producer_que rand s s' M l lost :
  inv s M l lost -> exec_producer rand s = Some (Ok s') ->
  consumers s' = consumers s /\ (0 < queue_len (que s) -> 0 < queue_len (que s')).
Proof.
  intros Hi E. unfold exec_producer in E. pose proof (i_pkey _ _ _ _ Hi) as Hk. pose proof (i_queue _ _ _ _ Hi) as Hq0. pose proof (queue_len_ok _ _ _ Hq0) as Hlen.
  destruct (producer s) as [|tag key|tag key r|tag key|tag key i|tag key i| | | | | | |] eqn:Hp;
    try (unfold lock in E; repeat case_match; simplify_eq; by auto).
  - injection E as E. apply bind_Ok_inv in E as (? & _ & E). apply bind_Ok_inv in E as (? & _ & [= <-]). auto.
  - injection E as E. apply bind_Ok_inv in E as (? & _ & [= <-]). auto.
  - injection E as E. apply bind_Ok_inv in E as ([o q] & Eq & [= <-]). simpl. split; [done|]. rewrite Hlen.
    pose proof (queue_new_ok (que s) l key tag Hq0 (tag_keys_short _ Hk)) as Hnew. rewrite Eq in Hnew.
    destruct o; destruct Hnew as [Hnew _]; by rewrite (queue_len_ok _ _ _ Hnew).
  - injection E as E. apply bind_Ok_inv in E as (q & Eq & [= <-]). simpl. split; [done|intros _].
    pose proof (queue_link_ok (que s) l i key tag Hq0 (queue_bound _ _ _ _ Hi)) as Hadd. rewrite Eq in Hadd. destruct Hadd as [Hadd _]. rewrite (queue_len_ok _ _ _ Hadd). simpl. lia.
Qed.

Lemma single_step s s' M l lost : inv s M l lost -> single s -> step s s' -> single s'.
Proof.
  intros Hi (c & Ec & Hc) Hs. inversion Hs as [lb s0 s1 E]; subst s0 s1. destruct lb as [rand|i| |]; simpl in E.
  - destruct (exec_producer_que _ _ _ _ _ _ Hi E) as [Ecs Hq]. exists c. rewrite Ecs. split; [done|].
    destruct c as [| | | |[]|[]|[]| |]; try done; by apply Hq.
  - unfold exec_consumer in E. rewrite Ec in E. destruct i as [|i]; [simpl in E|done].
    destruct c as [| | | |item|item|[[key d]|]|[key d] r|]; unfold lock in E; try done.
    + pose proof (queue_len_ok _ _ _ (i_queue _ _ _ _ Hi)) as Hl.
      rewrite (queue_null_ok _ _ _ (i_queue _ _ _ _ Hi)) in E. destruct (Z.eqb_spec (queue_len (que s)) 0); injection E as <-; [by exists C_spin|].
      exists C_lock_read. simpl. rewrite Ec. split; [done|lia].
    + case_match; [done|]. injection E as <-. exists C_lock_modify. simpl. by rewrite Ec.
    + case_match; [done|]. injection E as <-. exists C_take. simpl. by rewrite Ec.
    + injection E as E. apply bind_Ok_inv in E as ([item q] & Eq & [= <-]).
      pose proof (queue_take_ok (que s) l _ (i_queue _ _ _ _ Hi)) as Ht. rewrite Eq in Ht. destruct Ht as [-> _].
      rewrite (queue_len_ok _ _ _ (i_queue _ _ _ _ Hi)) in Hc.
      destruct (last l) as [x|] eqn:El; [|apply last_None in El; subst l; simpl in Hc; lia].
      exists (C_unlock_modify (Some x)). destruct (queue_len q >? 0); simpl; by rewrite Ec.
    + injection E as <-. exists (C_lock item). simpl. rewrite Ec. by destruct item.
    + case_match; [done|]. injection E as <-. exists (C_get item). simpl. rewrite Ec. by destruct item.
    + injection E as E. apply bind_Ok_inv in E as ([ret o] & _ & E). simpl in E. case_match.
      * injection E as <-. exists C_signal. simpl. by rewrite Ec.
      * destruct o as [r|]; [|done]. apply bind_Ok_inv in E as (cnt & _ & [= <-]).
        eexists. simpl. rewrite Ec. split; [done|]. done.
    + injection E as E. apply bind_Ok_inv in E as (t & _ & [= <-]). exists C_signal. simpl. by rewrite Ec.
    + injection E as <-. exists C_spin. destruct (producer s); simpl; by rewrite Ec.
  - injection E as <-. by exists c.
  - destruct (producer s); try done. injection E as <-. by exists c.
Qed.
End invariant.

(** ** The program with its hash table and its linked queue *)

(** Which allocations succeed: the array of thread ids, the blocks of the table, in the
    order of their calls, the queue, and its items in the order of their calls. *)
Record memory := Memory { pids_ok : bool; table_ok : nat -> bool; que_ok : bool; item_ok : nat -> bool }.

Definition exe_state : Type := state (heap block) (option QUEUE * heap QUEUE_ITEM) loc.

(** thread_control_fun up to the loop that starts the consumers: [None] when it returns for
    want of memory for the thread ids.  Whether the table and the queue are NULL is not
    looked at. *)
Definition start (mem : memory) (thread_num : nat) : res (option (ptr * exe_state)) :=
  if negb (pids_ok mem) then Ok None else
  let* (hash_table, h) := hash_new (table_ok mem) (Heap ∅ 0) in
  let '(q, modify, read) :=
    match Initialize_Queue (que_ok mem) with
    | Some (q, modify, read) => (Some q, modify, read)
    | None => (None, false, false)
    end in
  Ok (Some (hash_table, State h (q, Heap ∅ 0) false modify read P_begin
                          (replicate thread_num C_spin) false [])).

Definition exe_exec (mem : memory) (self : ptr) : label -> exe_state -> outcome :=
  @exec _ _ _ (table_store (table_ok mem) self) (linked_queue (item_ok mem)).

Definition exe_reachable (mem : memory) (self : ptr) : exe_state -> exe_state -> Prop :=
  @reachable _ _ _ (table_store (table_ok mem) self) (linked_queue (item_ok mem)).

Definition exe_run (mem : memory) (self : ptr) : list label -> exe_state -> outcome :=
  @run _ _ _ (table_store (table_ok mem) self) (linked_queue (item_ok mem)).

(** The invariant of the program, with what its components promise. *)
Definition exe_inv (mem : memory) (self : ptr) : exe_state -> gmap string work_record -> list (string * Z) -> list (string * Z) -> Prop :=
  @inv _ _ _ (table_store (table_ok mem) self) (linked_queue (item_ok mem)).

Lemma start_initial mem n self s0 :
  start mem n = Ok (Some (Some self, s0)) -> is_Some (que s0).1 ->
  exists h, s0 = initial h (Some (Queue 0 None), Heap ∅ 0) n /\ table_at h self ∅ ∅.
Proof.
  unfold start. destruct (pids_ok mem); [|done]. cbn [negb]. pose proof (wp_hash_new (table_ok mem) (Heap ∅ 0)) as Hn.
  destruct (hash_new (table_ok mem) (Heap ∅ 0)) as [[p h]|]; [|done]. unfold Initialize_Queue. cbn [wp bind] in *.
  destruct (que_ok mem); intros [= -> <-]; [intros _|by intros []]. exists h. split; [done|].
  destruct (table_ok mem _); [by destruct Hn as (self' & [= <-] & Hat)|by destruct Hn].
Qed.

Lemma exe_reachable_inv mem n self s0 s :
  start mem n = Ok (Some (Some self, s0)) -> is_Some (que s0).1 -> exe_reachable mem (Some self) s0 s ->
  exists M l lost, exe_inv mem (Some self) s M l lost.
Proof.
  intros Hs Hq Hr. destruct (start_initial mem n self s0 Hs Hq) as (h & -> & Ht).
  apply (reachable_inv h (Some (Queue 0 None), Heap ∅ 0) n s); [by exists self| |done|exact Hr].
  exists (Queue 0 None), []. split_and!; [done|split; simpl; try done; apply NoDup_nil_2|done|done].
Qed.

(** C2. Conservation of work, for any number of consumers, any
    interleaving and any failures of malloc and calloc after the table and the queue are there:
    for every tag, p_count - c_count
    is the number of its items in the queue, plus those a thread holds
    between the table and the queue, plus the items that
    Add_Queue_Item dropped because calloc failed, of which there are as many as failed calls; so
    c_count never exceeds p_count, no item is counted twice, and none is lost
    as long as calloc succeeds; parameter->mutex
    and modify_mutex have at most one holder. *)
Theorem exe_conservation mem n self s0 s :
  start mem n = Ok (Some (Some self, s0)) -> is_Some (que s0).1 -> exe_reachable mem (Some self) s0 s ->
  exists M q l lost, table_at (table s) self M ∅ /\ (que s).1 = Some q /\ queue_at q (que s).2 l /\
    (forall k r, M !! k = Some r ->
       0 <= c_count r <= p_count r /\ p_count r - c_count r = outstanding k s l + queued k lost) /\
    (forall k, M !! k = None -> outstanding k s l + queued k lost = 0) /\
    length lost = refused (item_ok mem) (que s).2 /\
    p_mutex (producer s) + total c_mutex (consumers s) <= 1 /\
    p_modify (producer s) + total c_modify (consumers s) <= 1.
Proof.
  intros Hs Hq Hr. destruct (exe_reachable_inv _ _ _ _ _ Hs Hq Hr) as (M & l & lost & Hi).
  destruct (i_table _ _ _ _ Hi) as (? & [= <-] & Ht). destruct (i_queue _ _ _ _ Hi) as (q & cs & Eq & Hcs & El & _).
  exists M, q, l, lost. split_and!.
  - done.
  - done.
  - by exists cs.
  - intros k r E. pose proof (i_balance _ _ _ _ Hi k) as Hb. unfold balance in Hb. rewrite E in Hb.
    pose proof (i_range _ _ _ _ Hi k r E) as [? _]. unfold outstanding in *.
    pose proof (queued_nonneg k l). pose proof (queued_nonneg k lost). pose proof (p_pending_nonneg k (producer s)).
    pose proof (total_nonneg (c_pending k) (consumers s) (c_pending_nonneg k)). lia.
  - intros k E. pose proof (i_balance _ _ _ _ Hi k) as Hb. unfold balance in Hb. by rewrite E in Hb.
  - apply (i_lost _ _ _ _ Hi).
  - rewrite (i_mutex _ _ _ _ Hi). unfold b2z. case_match; lia.
  - rewrite (i_modify _ _ _ _ Hi). unfold b2z. case_match; lia.
Qed.

Lemma single_reachable mem self s0 s :
  start mem 1 = Ok (Some (Some self, s0)) -> is_Some (que s0).1 -> exe_reachable mem (Some self) s0 s ->
  @single _ _ _ (linked_queue (item_ok mem)) s.
Proof.
  intros Hs Hq. destruct (start_initial mem 1 self s0 Hs Hq) as (h & E0 & Ht).
  induction 1 as [|s s' Hr IH Hstep]; [rewrite E0; by exists C_spin|].
  destruct (exe_reachable_inv _ _ _ _ _ Hs Hq Hr) as (M & l & lost & Hi).
  by apply (single_step _ _ _ _ _ Hi IH Hstep).
Qed.

(** C38. With one consumer the program has no memory fault, whichever
    calls of malloc and calloc fail after the table and the queue are there: whatever state
    it reaches, Get_Queue_Item has not returned NULL, and the only faults the next step can raise are the overflow of a
    tag's int counter and the abort of hash_set when malloc refuses memory for
    the entry of a tag that is not in the table. *)
Theorem one_consumer_safe mem self s0 s :
  start mem 1 = Ok (Some (Some self, s0)) -> is_Some (que s0).1 -> exe_reachable mem (Some self) s0 s ->
  (forall i, consumers s !! i <> Some (C_get None)) /\
  forall lb f, exe_exec mem (Some self) lb s = Some (Fail f) ->
    f = IntOverflow \/
    (f = Aborted /\ exists tag key r, producer s = P_set tag key r /\
       hash_get (Some self) key (table s) = Ok (0, None) /\ room (table_ok mem) (table s) = false).
Proof.
  intros Hs Hq Hr. destruct (exe_reachable_inv _ _ _ _ _ Hs Hq Hr) as (M & l & lost & Hi).
  destruct (single_reachable _ _ _ _ Hs Hq Hr) as (c & Ec & Hc).
  assert (forall i, consumers s !! i <> Some (C_get None)) as Hno by (intros i Hci; rewrite Ec in Hci; destruct i; [injection Hci as ->; exact Hc|done]).
  split; [done|]. intros lb f Hf. destruct (exec_faults _ _ _ _ _ _ Hi Hf) as [?|[(-> & rand & tag & key & r & -> & Hp & HM)|(i & Hci)]]; [by left| |by apply Hno in Hci].
  right. split; [done|]. exists tag, key, r. split; [done|]. destruct (i_table _ _ _ _ Hi) as (? & [= <-] & Ht).
  split; [by rewrite (wp_hash_get _ _ _ _ key Ht), HM|]. pose proof (hash_set_spec (table_ok mem) (table s) self M ∅ key r Ht) as Hset.
  unfold exe_exec, exec, exec_producer in Hf. rewrite Hp in Hf.
  change (store_set key r (table s)) with (hash_set (table_ok mem) (Some self) key r (table s)) in Hf.
  destruct (hash_set (table_ok mem) (Some self) key r (table s)); [done|]. apply Hset.
Qed.

(** *** Schedules *)

(** A schedule leads to a state that is reached. *)
Lemma run_reachable mem self ls s0 s s' :
  exe_reachable mem self s0 s -> exe_run mem self ls s = Some (Ok s') -> exe_reachable mem self s0 s'.
Proof.
  revert s. unfold exe_run. induction ls as [|l ls IH]; intros s Hr; cbn [run]; [by intros [= <-]|].
  destruct (exec l s) as [[s1|]|] eqn:E; try done. apply IH. by apply (reach_step _ s); [|apply (step_exec l)].
Qed.

(** The program from its start, by a schedule. *)
Definition exe_from_start (mem : memory) (thread_num : nat) (ls : list label) : option outcome :=
  match start mem thread_num with
  | Ok (Some (self, s)) => Some (exe_run mem self ls s)
  | _ => None
  end.

Definition times (n : nat) (l : label) : list label := replicate n l.

(** The producer's ten steps for one item (a consumer has nine). *)
Definition produce : list label := times 10 (Producer 6).

Definition enough : memory := Memory true (fun _ => true) true (fun _ => true).

(** Two consumers: the second passes read_mutex while one item is left, the
    first takes that item, and the second gets NULL. *)
Definition crash_schedule : list label :=
  produce ++ produce ++ times 9 (Consumer 0) ++ times 2 (Consumer 1) ++ produce ++
  times 9 (Consumer 0) ++ times 5 (Consumer 0) ++ times 5 (Consumer 1).

(** One consumer holds an item while the queue fills to 50 and the producer
    waits; its signal lets the producer go on past the limit. *)
Definition overfill_schedule : list label :=
  produce ++ times 5 (Consumer 0) ++ concat (replicate 49 produce) ++ times 9 (Producer 6) ++
  times 4 (Consumer 0) ++ times 2 (Producer 6) ++ produce.

Theorem two_consumers_crash : exe_from_start enough 2 crash_schedule = Some (Some (Fail NullDeref)).
Proof. vm_compute. reflexivity. Qed.

Theorem queue_limit_exceeded :
  exists s q, exe_from_start enough 1 overfill_schedule = Some (Some (Ok s)) /\ (que s).1 = Some q /\ numitems q = 51.
Proof. eexists. eexists. split; [vm_compute; reflexivity|]. done. Qed.

(** Without memory for the table or the queue the threads run into NULL. *)
Theorem null_table_asserts : exe_from_start (Memory true (fun _ => false) true (fun _ => true)) 1 (times 2 (Producer 6)) = Some (Some (Fail AssertFail)).
Proof. vm_compute. reflexivity. Qed.

Theorem null_queue_faults : exe_from_start (Memory true (fun _ => true) false (fun _ => true)) 1 [Consumer 0] = Some (Some (Fail NullDeref)).
Proof. vm_compute. reflexivity. Qed.

(** An item for which calloc fails is counted as produced and never consumed. *)
Definition second_refused : memory := Memory true (fun _ => true) true (fun n => negb (Nat.eqb n 1)).

Definition lossy_schedule : list label := produce ++ times 8 (Producer 6) ++ times 5 (Consumer 0).

(** The state after a schedule, for the witnesses. *)
Definition started (mem : memory) : loc * exe_state :=
  match start mem 1 with
  | Ok (Some (Some self, s)) => (self, s)
  | _ => (1%positive, State (Heap ∅ 0) (None, Heap ∅ 0) false false true P_begin [] false [])
  end.

Definition after (mem : memory) (ls : list label) : exe_state :=
  match exe_run mem (Some (started mem).1) ls (started mem).2 with
  | Some (Ok s) => s
  | _ => (started mem).2
  end.

Lemma exe_conservation_witness :
  let s := after second_refused lossy_schedule in
  refused (item_ok second_refused) (que s).2 = 1%nat /\
  exists M q l lost, table_at (table s) (started second_refused).1 M ∅ /\ (que s).1 = Some q /\ queue_at q (que s).2 l /\
    (forall k r, M !! k = Some r ->
       0 <= c_count r <= p_count r /\ p_count r - c_count r = outstanding k s l + queued k lost) /\
    (forall k, M !! k = None -> outstanding k s l + queued k lost = 0) /\
    length lost = refused (item_ok second_refused) (que s).2 /\
    p_mutex (producer s) + total c_mutex (consumers s) <= 1 /\
    p_modify (producer s) + total c_modify (consumers s) <= 1.
Proof.
  split; [vm_compute; reflexivity|].
  apply (exe_conservation second_refused 1 (started second_refused).1 (started second_refused).2).
  - vm_compute. reflexivity.
  - exists (Queue 0 None). vm_compute. reflexivity.
  - apply (run_reachable _ _ lossy_schedule _ (started second_refused).2); [apply reach_init|vm_compute; reflexivity].
Defined.

(** No memory for the entry of the first tag. *)
Definition entry_refused : memory := Memory true (fun n => Nat.eqb n 0) true (fun _ => true).

Lemma one_consumer_safe_witness :
  let s := after entry_refused (times 2 (Producer 6)) in
  exe_exec entry_refused (Some (started entry_refused).1) (Producer 6) s = Some (Fail Aborted) /\
  (forall i, consumers s !! i <> Some (C_get None)) /\
  forall lb f, exe_exec entry_refused (Some (started entry_refused).1) lb s = Some (Fail f) ->
    f = IntOverflow \/
    (f = Aborted /\ exists tag key r, producer s = P_set tag key r /\
       hash_get (Some (started entry_refused).1) key (table s) = Ok (0, None) /\ room (table_ok entry_refused) (table s) = false).
Proof.
  split; [vm_compute; reflexivity|].
  apply (one_consumer_safe entry_refused (started entry_refused).1 (started entry_refused).2).
  - vm_compute. reflexivity.
  - exists (Queue 0 None). vm_compute. reflexivity.
  - apply (run_reachable _ _ (times 2 (Producer 6)) _ (started entry_refused).2); [apply reach_init|vm_compute; reflexivity].
Defined.
