(* ===== verification/Graphs.v ===== *)
(** * Shortest paths: Bellman-Ford.c, Dijkstra.c and Floyd-Warshall.c

    The three programs of algorithms/c/data_structures/graphs.  The first
    part is the theory they share: weighted walks over an edge relation, and
    the removal of cycles from a walk.  Each program then has a Module with
    its functions as written and the theorem that the distances it prints
    are those of shortest walks. *)

From Stdlib Require Import ListDec.
From S2P Require Import Prelude Arrays.
Open Scope Z_scope.

(** ** Walks *)

Section walks.
(** [E u v w]: there is an edge from [u] to [v] of weight [w]. *)
Context (E : Z -> Z -> Z -> Prop).

(** A walk from [s] to [t] through the vertices [vs] (the last one is [t])
    of total weight [x]. *)
Inductive walk : Z -> Z -> list Z -> Z -> Prop :=
  | walk_nil s : walk s s [] 0
  | walk_cons s u t vs w x : E s u w -> walk u t vs x -> walk s t (u :: vs) (w + x).

Lemma walk_app s u t vs vs' x y :
  walk s u vs x -> walk u t vs' y -> walk s t (vs ++ vs') (x + y).
Proof.
  induction 1 as [|s v u vs w x He Hw IH]; intros Ht; simpl; [done|].
  rewrite <- Z.add_assoc. econstructor; [done|]. by apply IH.
Qed.

Lemma walk_snoc s u t vs x w : walk s u vs x -> E u t w -> walk s t (vs ++ [t]) (x + w).
Proof.
  intros Hw He. eapply walk_app; [done|]. replace w with (w + 0) by lia.
  econstructor; [done|constructor].
Qed.

(** A walk split at a vertex it visits. *)
Lemma walk_split s t vs v vs' z :
  walk s t (vs ++ v :: vs') z ->
  exists x y, walk s v (vs ++ [v]) x /\ walk v t vs' y /\ z = x + y.
Proof.
  revert s z. induction vs as [|u vs IH]; intros s z Hw; simpl in *.
  - inversion Hw as [|? ? ? ? w x He Ht]; subst. exists (w + 0), x. split_and!; [|done|lia].
    econstructor; [done|constructor].
  - inversion Hw as [|? ? ? ? w x0 He Ht]; subst.
    destruct (IH _ _ Ht) as (x & y & Hx & Hy & ->). exists (w + x), y.
    split_and!; [by econstructor|done|lia].
Qed.

(** The last edge of a walk. *)
Lemma walk_snoc_inv s t vs v z :
  walk s t (vs ++ [v]) z -> exists u x w, walk s u vs x /\ E u t w /\ z = x + w /\ v = t.
Proof.
  revert s z. induction vs as [|a vs IH]; intros s z Hw; simpl in *;
    inversion Hw as [|? ? ? ? w x He Ht]; subst.
  - inversion Ht; subst. exists s, 0, w. split_and!; [constructor|done|lia|done].
  - destruct (IH _ _ Ht) as (u & x' & w' & Hx & He' & -> & ->). exists u, (w + x'), w'.
    split_and!; [by econstructor|done|lia|done].
Qed.

Lemma walk_inv_nil s t x : walk s t [] x -> s = t /\ x = 0.
Proof. by inversion 1. Qed.

(** A walk that leaves a set crosses its border. *)
Lemma walk_crossing (l : list Z) s t vs x :
  walk s t vs x -> s ∈ l -> (t ∉ l) -> exists a b w, a ∈ l /\ (b ∉ l) /\ E a b w.
Proof.
  induction 1 as [|s u t vs w x He Hw IH]; intros Hs Ht; [done|].
  destruct (decide (u ∈ l)) as [Hu|Hu]; [by apply IH|]. by exists s, u, w.
Qed.

(** Long walks repeat a vertex; without the cycle in between they get
    shorter, or that cycle has negative weight. *)
Lemma walk_shorten (V : nat) s t vs x :
  walk s t vs x -> (forall v, v ∈ s :: vs -> 0 <= v < Z.of_nat V) ->
  (exists vs' x', walk s t vs' x' /\ (length vs' < V)%nat /\ x' <= x /\ vs' ⊆ vs) \/
  (exists c v1 y1 vc y, walk s c v1 y1 /\ walk c c vc y /\ y < 0).
Proof.
  remember (length vs) as n eqn:Hn. revert vs x Hn.
  induction n as [n IH] using lt_wf_ind. intros vs x Hn Hw Hv.
  destruct (decide (length vs < V)%nat) as [|Hlong]; [left; by exists vs, x|].
  assert (~ NoDup (s :: vs)) as Hdup.
  { intros Hnd. assert (length (s :: vs) <= V)%nat as Hle; [|simpl in Hle; lia].
    assert ((s :: vs) ⊆ seqZ 0 (Z.of_nat V)) as Hsub.
    { intros v Hin. apply elem_of_seqZ. specialize (Hv v Hin). lia. }
    apply NoDup_submseteq, submseteq_length in Hsub; [|done]. rewrite length_seqZ in Hsub. lia. }
  assert (exists a l1 l2 l3, s :: vs = l1 ++ a :: l2 ++ a :: l3) as (a & l1 & l2 & l3 & E0).
  { apply not_NoDup; [intros u v; unfold Decidable.decidable; destruct (decide (u = v)); auto|]. intros Hnd. apply Hdup. by apply NoDup_ListNoDup. }
  destruct l1 as [|s' l1]; simpl in E0; injection E0 as Es Evs; subst.
  - destruct (walk_split _ _ _ _ _ _ Hw) as (x1 & y & Hc & Hr & ->).
    destruct (decide (x1 < 0)); [right; exists a, [], 0, (l2 ++ [a]), x1; split_and!; [constructor|done..]|].
    destruct (IH (length l3)) with (vs := l3) (x := y) as [(vs' & x' & Hw' & Hl & Hle & Hsub)|Hneg];
      [rewrite length_app; simpl; lia|done|done| |left|by right].
    + intros v Hin. apply Hv. apply elem_of_cons in Hin as [->|Hin]; [by left|].
      right. apply elem_of_app. right. by right.
    + exists vs', x'. split_and!; [done..|lia|]. intros v Hin. apply elem_of_app. right. right. by apply Hsub.
  - destruct (walk_split _ _ _ _ _ _ Hw) as (x1 & y & H1 & Hr & ->).
    destruct (walk_split _ _ _ _ _ _ Hr) as (y1 & y2 & Hc & H2 & ->).
    destruct (decide (y1 < 0)); [right; by exists a, (l1 ++ [a]), x1, (l2 ++ [a]), y1|].
    pose proof (walk_app _ _ _ _ _ _ _ H1 H2) as H12. rewrite <- app_assoc in H12. simpl in H12.
    assert (forall v, v ∈ l1 ++ a :: l3 -> v ∈ l1 ++ a :: l2 ++ a :: l3) as Hsub0.
    { intros v. rewrite !elem_of_app, !elem_of_cons, elem_of_app, elem_of_cons. tauto. }
    destruct (IH (length (l1 ++ a :: l3))) with (vs := l1 ++ a :: l3) (x := x1 + y2)
      as [(vs' & x' & Hw' & Hl & Hle & Hsub)|Hneg];
      [rewrite !length_app; simpl; rewrite length_app; simpl; lia|done|done| |left|by right].
    + intros v Hin. apply Hv. apply elem_of_cons in Hin as [->|Hin]; [by left|]. right. auto.
    + exists vs', x'. split_and!; [done..|lia|]. intros v Hin. auto.
Qed.
End walks.

(** [d] is the table of distances from [s]: INT_MAX for a vertex no walk
    reaches, else the least weight of a walk to it. *)
Definition distances (E : Z -> Z -> Z -> Prop) (V s : Z) (d : list Z) : Prop :=
  zlen d = V /\ forall v, 0 <= v < V ->
    (d.[v] = INT_MAX /\ forall vs x, ~ walk E s v vs x) \/
    (d.[v] <> INT_MAX /\ (exists vs, walk E s v vs d.[v]) /\
     forall vs x, walk E s v vs x -> d.[v] <= x).

(** A cycle of negative weight that [s] reaches. *)
Definition negative_cycle (E : Z -> Z -> Z -> Prop) (s : Z) : Prop :=
  exists c v1 y1 vc y, walk E s c v1 y1 /\ walk E c c vc y /\ y < 0.

(** [print(dist, V)] of Bellman-Ford.c and Dijkstra.c *)
Definition dist_line (i d : Z) : list piece :=
  if negb (d =? INT_MAX) then [PInt i; PStr "\t"; PInt d; PStr "\n"] else [PInt i; PStr "\tINF"].

Definition print (dist : list Z) (V : Z) (w : console) : res console :=
  let w := printf [PStr "\nVertex  Distance\n"] w in
  for_up 0 V (fun i w => let* d := rd dist i in Ok (printf (dist_line i d) w)) w.

(** What [print] adds to the output. *)
Definition dist_table (dist : list Z) : list piece :=
  PStr "\nVertex  Distance\n" :: concat (imap (fun i d => dist_line (Z.of_nat i) d) dist).

Lemma print_spec dist inp out :
  print dist (zlen dist) (Console inp out) = Ok (Console inp (out ++ dist_table dist)).
Proof.
  unfold print, printf, dist_table. simpl.
  match goal with |- _ = ?r => cut (wp (for_up 0 (zlen dist) (fun i w => let* d := rd dist i in
    Ok (Console (input w) (output w ++ dist_line i d)))
    (Console inp (out ++ [PStr "\nVertex  Distance\n"]))) (fun w => Ok w = r)) end.
  { intros H. apply wp_exists in H as (w & -> & H). done. }
  pose proof (zlen_nonneg dist).
  apply (wp_for_up (fun i w => w = Console inp (out ++ PStr "\nVertex  Distance\n" ::
    concat (imap (fun i d => dist_line (Z.of_nat i) d) (take (Z.to_nat i) dist))))).
  - done.
  - intros i w Hi ->. rewrite rd_Ok by lia. simpl. f_equal.
    replace (Z.to_nat (i + 1)) with (S (Z.to_nat i)) by lia.
    rewrite (take_S_r dist (Z.to_nat i) dist.[i]) by
      (unfold aget, zlen in *; apply list_lookup_lookup_total_lt; lia).
    rewrite imap_app, concat_app. simpl. rewrite length_take, Nat.add_0_r, app_nil_r.
    unfold zlen in *. rewrite Nat.min_l, Z2Nat.id by lia. by rewrite <- app_assoc.
  - intros w ->. rewrite Z.max_r by lia. rewrite take_ge by (unfold zlen; lia). done.
Qed.

(** ** Bellman-Ford.c *)

Module BellmanFord.

Record Edge := MkEdge { src : Z; dst : Z; weight : Z }.

#[export] Instance Edge_inhabited : Inhabited Edge := populate (MkEdge 0 0 0).

(** The edges are malloc'ed: a cell has a value once addEdge wrote it. *)
Record Graph := MkGraph { vertexNum : Z; edgeNum : Z; edges : list (option Edge) }.

Definition createGraph (V E : Z) : Graph := MkGraph V E (replicate (Z.to_nat E) None).

(** [ind] is the function's static counter. *)
Definition addEdge (G : Graph) (ind src dst weight : Z) : res (Graph * Z) :=
  let* es := wr (edges G) ind (Some (MkEdge src dst weight)) in
  Ok (MkGraph (vertexNum G) (edgeNum G) es, ind + 1).

Definition edge (G : Graph) (j : Z) : res Edge :=
  let* o := rd (edges G) j in
  match o with Some e => Ok e | None => Fail Uninit end.

(** [dist[u] != INT_MAX && dist[u] + w < dist[v]]: the new distance. *)
Definition improves (dist : list Z) (e : Edge) : res (option Z) :=
  let* du := rd dist (src e) in
  if negb (du =? INT_MAX) then
    let* s := int (du + weight e) in
    let* dv := rd dist (dst e) in
    Ok (if s <? dv then Some s else None)
  else Ok None.

Definition relax (G : Graph) (j : Z) (dist : list Z) : res (list Z) :=
  let* e := edge G j in
  let* o := improves dist e in
  match o with
  | Some d => wr dist (dst e) d
  | None => Ok dist
  end.

Definition message : list piece :=
  [PStr "Graph contains negative weight cycle. Hence, shortest distance not guaranteed."].

(** [int dist[V]], filled with INT_MAX, and [dist[src] = 0]. *)
Definition init_dist (V src : Z) : res (list Z) :=
  let* _ := vla V in
  let* dist := for_up 0 V (fun i d => wr d i (Some INT_MAX)) (uninit V) in
  let* dist := contents dist in
  wr dist src 0.

Definition BellmanFord (graph : Graph) (src : Z) (w : console) : res console :=
  let V := vertexNum graph in
  let E := edgeNum graph in
  let* dist := init_dist V src in
  let* dist := for_up 0 V (fun _ dist => for_up 0 E (relax graph) dist) dist in
  let* x := for_exit 0 E (fun j _ =>
    let* e := edge graph j in
    let* o := improves dist e in
    match o with
    | Some _ => Ok (inr (printf message w))
    | None => Ok (inl tt)
    end) tt in
  match x with
  | inr w => Ok w
  | inl _ => print dist V w
  end.

Definition main (w : console) : res console :=
  let w := printf [PStr "Enter number of vertices: "] w in
  let* (V, w) := scanf w in
  let w := printf [PStr "Enter number of edges: "] w in
  let* (E, w) := scanf w in
  let* (G, _, w) := for_up 0 E (fun i '(G, ind, w) =>
    let w := printf [PStr "\nEdge "; PInt (i + 1); PStr " \nEnter source: "] w in
    let* (src, w) := scanf w in
    let w := printf [PStr "Enter destination: "] w in
    let* (dst, w) := scanf w in
    let w := printf [PStr "Enter weight: "] w in
    let* (weight, w) := scanf w in
    let* (G, ind) := addEdge G ind src dst weight in
    Ok (G, ind, w)) (createGraph V E, 0, w) in
  let w := printf [PStr "\nEnter source:"] w in
  let* (gsrc, w) := scanf w in
  BellmanFord G gsrc w.

(** The graph the program has read. *)
Definition graph_of (V : Z) (es : list Edge) : Graph := MkGraph V (zlen es) (map Some es).

Definition edge_rel (es : list Edge) (u v w : Z) : Prop :=
  exists e, e ∈ es /\ src e = u /\ dst e = v /\ weight e = w.

Section correctness.
Context (V s W : Z) (es : list Edge).
Context (HV : 0 < V) (Hs : 0 <= s < V) (HW : 0 <= W).
Context (Hes : forall e, e ∈ es ->
  0 <= src e < V /\ 0 <= dst e < V /\ - W <= weight e <= W).
Context (Hmax : (V * zlen es + 1) * W < INT_MAX).

Abbreviation E := (edge_rel es).

Lemma walk_range u v vs x : walk E u v vs x -> 0 <= u < V -> forall a, a ∈ u :: vs -> 0 <= a < V.
Proof.
  induction 1 as [|u b v vs w x He Hw IH]; intros Hu a Ha.
  - apply list_elem_of_singleton in Ha. by subst.
  - apply elem_of_cons in Ha as [->|Ha]; [done|]. apply IH; [|done].
    destruct He as (e & Hin & _ & <- & _). apply (Hes e Hin).
Qed.

Lemma walk_weight u v vs x :
  walk E u v vs x -> - (Z.of_nat (length vs) * W) <= x <= Z.of_nat (length vs) * W.
Proof.
  induction 1 as [|u b v vs w x He Hw IH]; simpl length; [lia|].
  destruct He as (e & Hin & _ & _ & <-). destruct (Hes e Hin) as (_ & _ & ?). lia.
Qed.

(** The distances so far: each is INT_MAX or the weight of a walk of at
    most [k] edges. *)
Definition realised (k : Z) (d : list Z) : Prop :=
  zlen d = V /\ d.[s] <= 0 /\
  forall v, 0 <= v < V -> d.[v] = INT_MAX \/
    exists vs, walk E s v vs d.[v] /\ Z.of_nat (length vs) <= k.

Lemma realised_bound k d v :
  realised k d -> k <= V * zlen es -> 0 <= v < V -> d.[v] <> INT_MAX -> - (k * W) <= d.[v] <= k * W.
Proof.
  intros (_ & _ & Hr) Hk Hv Hd. destruct (Hr v Hv) as [?|(vs & Hw & Hl)]; [done|].
  pose proof (walk_weight _ _ _ _ Hw). nia.
Qed.

(** Whether an edge improves the distances. *)
Lemma wp_improves k d e :
  realised k d -> k <= V * zlen es -> e ∈ es ->
  wp (improves d e) (fun o =>
    match o with
    | Some x => x = d.[src e] + weight e /\ d.[src e] <> INT_MAX /\ x < d.[dst e]
    | None => d.[src e] = INT_MAX \/ d.[dst e] <= d.[src e] + weight e
    end).
Proof.
  intros Hr Hk He. destruct (Hes e He) as (Hu & Hv & Hw). pose proof Hr as (Hl & _ & _).
  unfold improves. wp_step. apply wp_rd; [lia|]. code_case; [by left|].
  pose proof (realised_bound k d (src e) Hr Hk Hu n).
  assert (k * W <= V * zlen es * W) by (apply Z.mul_le_mono_nonneg_r; lia). wp_step. apply wp_int; [code_lia|].
  wp_step. apply wp_rd; [lia|]. wp_step. code_case; [done|right; lia].
Qed.

Lemma rd_edge j : 0 <= j < zlen es -> edge (graph_of V es) j = Ok es.[j] /\ es.[j] ∈ es.
Proof.
  intros Hj. unfold edge, graph_of. simpl. rewrite rd_Ok by (by rewrite zlen_map).
  simpl. rewrite aget_map by done. split; [done|]. by apply aget_elem.
Qed.

(** One relaxation: distances only fall, and the edge's own bound holds. *)
Lemma wp_relax k j d :
  realised k d -> k + 1 <= V * zlen es -> 0 <= j < zlen es ->
  wp (relax (graph_of V es) j d) (fun d' =>
    realised (k + 1) d' /\ (forall v, 0 <= v < V -> d'.[v] <= d.[v]) /\
    (d.[src es.[j]] <> INT_MAX -> d'.[dst es.[j]] <= d.[src es.[j]] + weight es.[j])).
Proof.
  intros Hr Hk Hj. unfold relax. destruct (rd_edge j Hj) as [-> Hin]. simpl.
  set (e := es.[j]) in *. destruct (Hes e Hin) as (Hu & Hv & _). wp_step.
  eapply wp_mono; [apply (wp_improves k d e Hr); [lia|done]|].
  pose proof Hr as (Hl & Hs0 & Hw). intros [x|] Ho.
  - destruct Ho as (-> & Hne & Hlt). wp_step. split_and!.
    + split_and!.
      * by rewrite zlen_upd.
      * rewrite aget_upd by lia. case_decide as Ev; [|done]. rewrite Ev in Hlt. lia.
      * intros v Hv'. rewrite aget_upd by lia. case_decide as Ev.
        { right. subst v. destruct (Hw (src e) Hu) as [?|(vs & Hws & Hlen)]; [done|].
          exists (vs ++ [dst e]). rewrite length_app. simpl. split; [|lia].
          eapply walk_snoc; [exact Hws|]. by exists e. }
        { destruct (Hw v Hv') as [?|(vs & Hws & Hlen)]; [by left|]. right. exists vs. split; [done|lia]. }
    + intros v Hv'. rewrite aget_upd by lia. case_decide as Ev; [subst v; lia|lia].
    + intros _. by rewrite aget_upd_eq by lia.
  - wp_step. split_and!; [|done|intros Hne; destruct Ho; [done|done]].
    split_and!; [done..|]. intros v Hv'. destruct (Hw v Hv') as [?|(vs & Hws & Hlen)]; [by left|].
    right. exists vs. split; [done|lia].
Qed.

(** [d] is below the weight of every walk of at most [i] edges. *)
Definition settled_upto (i : Z) (d : list Z) : Prop :=
  forall v vs x, walk E s v vs x -> Z.of_nat (length vs) <= i -> d.[v] <= x.

(** One pass over the edges lengthens the walks taken into account by one. *)
Lemma wp_pass i d :
  0 <= i < V -> realised (i * zlen es) d -> settled_upto i d ->
  wp (for_up 0 (zlen es) (relax (graph_of V es)) d) (fun d' =>
    realised ((i + 1) * zlen es) d' /\ settled_upto (i + 1) d').
Proof.
  intros Hi Hr Hset. pose proof (zlen_nonneg es) as Hn.
  apply (wp_for_up (fun j d' => realised (i * zlen es + j) d' /\
    (forall v, 0 <= v < V -> d'.[v] <= d.[v]) /\
    forall q, 0 <= q < j -> d.[src es.[q]] <> INT_MAX ->
      d'.[dst es.[q]] <= d.[src es.[q]] + weight es.[q])).
  - split_and!; [by rewrite Z.add_0_r|lia|intros; lia].
  - intros j d' Hj (Hr' & Hle & Hq). eapply wp_mono; [apply (wp_relax (i * zlen es + j)); [done|nia|done]|].
    intros d'' (Hr'' & Hle' & Hj'). split_and!.
    + by rewrite Z.add_assoc.
    + intros v Hv. etransitivity; [by apply Hle'|by apply Hle].
    + intros q Hq' Hne. destruct (rd_edge q) as [_ Hin]; [lia|]. destruct (Hes _ Hin) as (Hu & Hv & _).
      destruct (decide (q = j)) as [->|].
      * pose proof (Hle (src es.[j]) Hu). destruct (decide (d'.[src es.[j]] = INT_MAX)) as [Einf|];
          [|specialize (Hj' n); lia].
        exfalso. pose proof (realised_bound _ _ _ Hr ltac:(nia) Hu Hne).
        assert (i * zlen es * W <= V * zlen es * W) by (apply Z.mul_le_mono_nonneg_r; nia). lia.
      * etransitivity; [by apply Hle'|]. apply Hq; [lia|done].
  - rewrite Z.max_r by lia. intros d' (Hr' & Hle & Hq). split; [by rewrite Z.mul_add_distr_r, Z.mul_1_l|].
    intros v vs x Hw Hlen. destruct vs as [|a vs _] using rev_ind.
    { apply walk_inv_nil in Hw as [<- ->]. apply Hr'. }
    destruct (walk_snoc_inv _ _ _ _ _ _ Hw) as (u & y & wt & Hy & He & -> & _).
    rewrite length_app in Hlen. simpl in Hlen. pose proof (Hset u vs y Hy ltac:(lia)) as Hu.
    destruct He as (e & Hin & <- & <- & <-). destruct (elem_aget es e Hin) as (q & Hq' & <-).
    assert (d.[src es.[q]] <> INT_MAX) as Hne; [|specialize (Hq q Hq' Hne); lia].
    pose proof (walk_weight _ _ _ _ Hy). destruct (decide (zlen es = 0)); [lia|].
    assert (Z.of_nat (length vs) * W <= V * zlen es * W) by (apply Z.mul_le_mono_nonneg_r; nia). lia.
Qed.

Lemma wp_init_dist :
  wp (init_dist V s) (fun d => realised 0 d /\ settled_upto 0 d).
Proof.
  unfold init_dist, vla, demand. rewrite (proj2 (Z.ltb_lt _ _)) by lia. simpl.
  assert (zlen (uninit V) = V) as Hu by (apply zlen_replicate; lia). wp_step.
  apply (wp_mono _ (fun a => a = map Some (replicate (Z.to_nat V) INT_MAX))).
  { apply (wp_for_up (fun i a => zlen a = V /\ forall p, 0 <= p < i -> a.[p] = Some INT_MAX)).
    - split; [done|intros; lia].
    - intros i a Hi [Hl Hp]. wp_step. rewrite zlen_upd. split; [done|]. intros p Hp'.
      rewrite aget_upd by lia. case_decide; [done|]. apply Hp. lia.
    - rewrite Z.max_r by lia. intros a [Hl Hp].
      apply aget_ext; [rewrite zlen_map, zlen_replicate by lia; done|]. rewrite Hl. intros p Hp'.
      rewrite Hp, aget_map, aget_replicate by (rewrite ?zlen_replicate; lia). done. }
  intros a ->. rewrite contents_Some. simpl.
  assert (zlen (replicate (Z.to_nat V) INT_MAX) = V) as Hz by (apply zlen_replicate; lia).
  apply wp_wr; [lia|]. split; [split_and!|].
  - by rewrite zlen_upd.
  - rewrite aget_upd_eq by lia. lia.
  - intros v Hv. rewrite aget_upd by lia. case_decide as Ev.
    + right. subst v. exists []. split; [constructor|done].
    + left. by rewrite aget_replicate by lia.
  - intros v vs x Hw Hl. destruct vs; [|simpl in Hl; lia]. apply walk_inv_nil in Hw as [<- ->].
    rewrite aget_upd_eq by lia. lia.
Qed.

(** When no edge improves the distances they are the least. *)
Lemma stable_distances k d :
  realised k d -> k <= V * zlen es ->
  (forall j, 0 <= j < zlen es -> d.[src es.[j]] = INT_MAX \/
     d.[dst es.[j]] <= d.[src es.[j]] + weight es.[j]) ->
  distances E V s d /\ ~ negative_cycle E s.
Proof.
  intros Hr Hk Hst. pose proof Hr as (Hl & Hs0 & Hw).
  assert (forall u v vs x, walk E u v vs x -> 0 <= u < V -> d.[u] <> INT_MAX ->
    d.[v] <= d.[u] + x /\ d.[v] <> INT_MAX) as Hle.
  { induction 1 as [|u b v vs w x He Hwk IH]; intros Hu Hne; [split; [lia|done]|].
    destruct He as (e & Hin & <- & <- & <-). destruct (Hes e Hin) as (_ & Hb & Hwt).
    destruct (elem_aget es e Hin) as (j & Hj & <-). destruct (Hst j Hj) as [?|Hj']; [done|].
    assert (d.[dst es.[j]] <> INT_MAX) as Hnb.
    { pose proof (realised_bound k d _ Hr Hk Hu Hne).
      assert (k * W <= V * zlen es * W) by (apply Z.mul_le_mono_nonneg_r; lia). lia. }
    destruct (IH Hb Hnb) as [IH1 IH2]. split; [lia|done]. }
  assert (d.[s] <> INT_MAX) as Hsne by (unfold INT_MAX; lia).
  split.
  - split; [done|]. intros v Hv. destruct (Hw v Hv) as [Einf|(vs & Hvs & _)].
    + left. split; [done|]. intros vs x Hwk. by destruct (Hle _ _ _ _ Hwk Hs Hsne).
    + destruct (decide (d.[v] = INT_MAX)) as [Einf|Hne].
      { left. split; [done|]. intros vs' x Hwk. by destruct (Hle _ _ _ _ Hwk Hs Hsne). }
      right. split_and!; [done|by exists vs|]. intros vs' x Hwk.
      destruct (Hle _ _ _ _ Hwk Hs Hsne). lia.
  - intros (c & v1 & y1 & vc & y & H1 & Hc & Hneg). destruct (Hle _ _ _ _ H1 Hs Hsne) as [_ Hcne].
    pose proof (walk_range _ _ _ _ H1 Hs c) as Hcr.
    assert (0 <= c < V) as Hc0.
    { apply Hcr. destruct v1 as [|a v1 _] using rev_ind; [apply walk_inv_nil in H1 as [-> _]; by left|].
      destruct (walk_snoc_inv _ _ _ _ _ _ H1) as (_ & _ & _ & _ & _ & _ & ->).
      right. apply elem_of_app. right. by left. }
    destruct (Hle _ _ _ _ Hc Hc0 Hcne). lia.
Qed.

(** An improvement after V passes comes from a negative cycle. *)
Lemma improvable_cycle d e :
  realised (V * zlen es) d -> settled_upto V d -> e ∈ es ->
  d.[src e] <> INT_MAX -> d.[src e] + weight e < d.[dst e] -> negative_cycle E s.
Proof.
  intros (_ & _ & Hr) Hset Hin Hne Hlt. destruct (Hes e Hin) as (Hu & Hv & _).
  destruct (Hr _ Hu) as [?|(vs & Hw & _)]; [done|].
  assert (walk E s (dst e) (vs ++ [dst e]) (d.[src e] + weight e)) as Hwk.
  { eapply walk_snoc; [exact Hw|]. by exists e. }
  destruct (walk_shorten E (Z.to_nat V) _ _ _ _ Hwk) as [(vs' & x' & Hw' & Hl & Hle & _)|Hneg].
  - intros v Hv'. rewrite Z2Nat.id by lia. by apply (walk_range _ _ _ _ Hwk Hs).
  - specialize (Hset _ _ _ Hw' ltac:(lia)). lia.
  - done.
Qed.
End correctness.

(** C7. Bellman-Ford.c is correct: for a graph of V > 0 vertices whose
    edges join vertices of the graph and have weights small enough that
    sums along V * E edges fit an int, the program ends without a fault;
    it reports a negative cycle exactly when the source reaches one, and
    otherwise prints for each vertex the least weight of a walk from the
    source, or INF when there is none. *)
Theorem bellman_ford_correct (V s W : Z) (es : list Edge) inp out :
  0 <= s < V -> 0 <= W -> (V * zlen es + 1) * W < INT_MAX ->
  (forall e, e ∈ es -> 0 <= src e < V /\ 0 <= dst e < V /\ - W <= weight e <= W) ->
  exists ps,
    BellmanFord (graph_of V es) s (Console inp out) = Ok (Console inp (out ++ ps)) /\
    ((negative_cycle (edge_rel es) s /\ ps = message) \/
     (~ negative_cycle (edge_rel es) s /\
      exists d, distances (edge_rel es) V s d /\ ps = dist_table d)).
Proof.
  intros Hs HW Hmax Hes. assert (0 < V) as HV by lia.
  cut (wp (BellmanFord (graph_of V es) s (Console inp out)) (fun w =>
    exists ps, w = Console inp (out ++ ps) /\
    ((negative_cycle (edge_rel es) s /\ ps = message) \/
     (~ negative_cycle (edge_rel es) s /\
      exists d, distances (edge_rel es) V s d /\ ps = dist_table d)))).
  { intros H. apply wp_exists in H as (w & Ew & ps & -> & H). eauto. }
  unfold BellmanFord. simpl. wp_step.
  eapply wp_mono; [by apply wp_init_dist|]. intros d0 [Hr0 Hset0]. wp_step.
  apply (wp_for_up (fun i d => realised V s es (i * zlen es) d /\ settled_upto s es i d)); [done| |].
  { intros i d Hi [Hr Hset]. by apply (wp_pass V s W). }
  rewrite Z.max_r by lia. intros d [Hr Hset]. wp_step.
  apply (wp_for_exit (fun j _ => forall q, 0 <= q < j -> d.[src es.[q]] = INT_MAX \/
     d.[dst es.[q]] <= d.[src es.[q]] + weight es.[q])); [intros; lia| |].
  - intros j _ Hj Hq. destruct (rd_edge V es j Hj) as [-> Hin]. simpl. wp_step.
    eapply wp_mono; [by eapply (wp_improves V s W es) with (k := V * zlen es)|].
    intros [x|] Ho; simpl.
    + destruct Ho as (-> & Hne & Hlt). exists message. split; [done|]. left. split; [|done].
      by apply (improvable_cycle V s W es) with (d := d) (e := es.[j]).
    + intros q Hq'. destruct (decide (q = j)) as [->|]; [done|]. apply Hq. lia.
  - intros _ Hq. pose proof (zlen_nonneg es). rewrite Z.max_r in Hq by lia.
    destruct (stable_distances V s W es) with (k := V * zlen es) (d := d) as [Hd Hn]; try done.
    pose proof (proj1 Hd) as Hl. rewrite <- Hl. rewrite print_spec. simpl.
    exists (dist_table d). split; [done|right]. rewrite Hl. eauto.
Qed.
End BellmanFord.

Lemma bellman_ford_correct_witness :
  exists ps,
    BellmanFord.BellmanFord (BellmanFord.graph_of 3
      [BellmanFord.MkEdge 0 1 4; BellmanFord.MkEdge 1 2 (-2)]) 0 (Console [] []) =
      Ok (Console [] ([] ++ ps)) /\
    ((negative_cycle (BellmanFord.edge_rel
        [BellmanFord.MkEdge 0 1 4; BellmanFord.MkEdge 1 2 (-2)]) 0 /\ ps = BellmanFord.message) \/
     (~ negative_cycle (BellmanFord.edge_rel
        [BellmanFord.MkEdge 0 1 4; BellmanFord.MkEdge 1 2 (-2)]) 0 /\
      exists d, distances (BellmanFord.edge_rel
        [BellmanFord.MkEdge 0 1 4; BellmanFord.MkEdge 1 2 (-2)]) 3 0 d /\ ps = dist_table d)).
Proof.
  apply (BellmanFord.bellman_ford_correct 3 0 4).
  - lia.
  - lia.
  - vm_compute. reflexivity.
  - intros e He. rewrite !elem_of_cons, elem_of_nil in He.
    destruct He as [->|[->|[]]]; simpl; lia.
Defined.

(** ** Graphs as matrices *)

(** [int** edges] with [V] rows of [V] cells; INT_MAX means no edge. *)
Record MGraph := MkMGraph { vertexNum : Z; edges : list (list Z) }.

(** createGraph of Dijkstra.c and Floyd-Warshall.c *)
Definition createGraph (V : Z) : res MGraph :=
  let* rows := for_up 0 V (fun i rows =>
    let* row := for_up 0 V (fun j row => wr row j (Some INT_MAX)) (uninit V) in
    let* row := wr row i (Some 0) in
    let* row := contents row in
    Ok (rows ++ [row])) [] in
  Ok (MkMGraph V rows).

Definition addEdge (G : MGraph) (src dst weight : Z) : res MGraph :=
  let* row := rd (edges G) src in
  let* row := wr row dst weight in
  let* rows := wr (edges G) src row in
  Ok (MkMGraph (vertexNum G) rows).

(** [graph->edges[u][v]] *)
Definition cell (m : list (list Z)) (u v : Z) : res Z := let* row := rd m u in rd row v.

(** The loop of both mains that reads the edges. *)
Definition read_edges (E : Z) (G : MGraph) (w : console) : res (MGraph * console) :=
  for_up 0 E (fun i '(G, w) =>
    let w := printf [PStr "\nEdge "; PInt (i + 1); PStr " \nEnter source: "] w in
    let* (src, w) := scanf w in
    let w := printf [PStr "Enter destination: "] w in
    let* (dst, w) := scanf w in
    let w := printf [PStr "Enter weight: "] w in
    let* (weight, w) := scanf w in
    let* G := addEdge G src dst weight in
    Ok (G, w)) (G, w).

(** A square matrix of [V] rows whose entries are INT_MAX or 0 .. [W]. *)
Record matrix_ok (V W : Z) (m : list (list Z)) : Prop := {
  m_rows : zlen m = V;
  m_cols : forall u, 0 <= u < V -> zlen m.[u] = V;
  m_weights : forall u v, 0 <= u < V -> 0 <= v < V ->
    m.[u].[v] = INT_MAX \/ 0 <= m.[u].[v] <= W
}.

Definition matrix_rel (V : Z) (m : list (list Z)) (u v w : Z) : Prop :=
  0 <= u < V /\ 0 <= v < V /\ m.[u].[v] = w /\ w <> INT_MAX.

Lemma wp_cell V m u v (Q : Z -> Prop) :
  zlen m = V -> (forall u, 0 <= u < V -> zlen m.[u] = V) ->
  0 <= u < V -> 0 <= v < V -> Q m.[u].[v] -> wp (cell m u v) Q.
Proof.
  intros Hr Hc Hu Hv HQ. unfold cell. wp_step. apply wp_rd; [lia|]. apply wp_rd; [|done].
  rewrite Hc by done. lia.
Qed.

Lemma matrix_walk V W m s v vs x :
  matrix_ok V W m -> walk (matrix_rel V m) s v vs x -> 0 <= s < V ->
  0 <= v < V /\ 0 <= x <= Z.of_nat (length vs) * W.
Proof.
  intros Hm Hw. induction Hw as [|s b v vs w x He Hw IH]; intros Hs; [simpl; lia|].
  destruct He as (Hu & Hb & Hc & Hne). destruct (IH Hb) as [Hv Hx].
  destruct (m_weights _ _ _ Hm s b Hu Hb) as [?|?]; [congruence|]. simpl length. split; [done|]. nia.
Qed.

(** A list of distinct vertices has at most [V] of them. *)
Lemma distinct_vertices V l :
  NoDup l -> (forall v, v ∈ l -> 0 <= v < V) -> Z.of_nat (length l) <= Z.max 0 V.
Proof.
  intros Hnd Hl. assert (l ⊆ seqZ 0 V) as Hsub.
  { intros v Hin. apply elem_of_seqZ. specialize (Hl v Hin). lia. }
  apply NoDup_submseteq, submseteq_length in Hsub; [|done]. rewrite length_seqZ in Hsub. lia.
Qed.

(** ** Dijkstra.c *)

Module Dijkstra.

(** [minInd] is not initialised: the function's value is indeterminate when
    no vertex is found. *)
Definition minDistance (mdist vset : list Z) (V : Z) : res (option Z) :=
  let* (_, minInd) := for_up 0 V (fun i '(minVal, minInd) =>
    let* b := rd vset i in
    if b =? 0 then
      let* d := rd mdist i in
      Ok (if d <? minVal then (d, Some i) else (minVal, minInd))
    else Ok (minVal, minInd)) (INT_MAX, None) in
  Ok minInd.

(** [!vset[v] && edges[u][v] != INT_MAX && mdist[u] + edges[u][v] < mdist[v]] *)
Definition update (graph : MGraph) (u v : Z) (mdist vset : list Z) : res (list Z) :=
  let* b := rd vset v in
  if b =? 0 then
    let* e := cell (edges graph) u v in
    if negb (e =? INT_MAX) then
      let* du := rd mdist u in
      let* s := int (du + e) in
      let* dv := rd mdist v in
      if s <? dv then wr mdist v s else Ok mdist
    else Ok mdist
  else Ok mdist.

(** One turn of the main loop; an indeterminate [u] is a fault. *)
Definition visit (graph : MGraph) (V : Z) (st : list Z * list Z) : res (list Z * list Z) :=
  let '(mdist, vset) := st in
  let* o := minDistance mdist vset V in
  match o with
  | None => Fail Uninit
  | Some u =>
      let* vset := wr vset u 1 in
      let* mdist := for_up 0 V (fun v mdist => update graph u v mdist vset) mdist in
      Ok (mdist, vset)
  end.

Definition init (V src : Z) : res (list Z * list Z) :=
  let* _ := vla V in
  let* (mdist, vset) := for_up 0 V (fun i '(mdist, vset) =>
    let* mdist := wr mdist i (Some INT_MAX) in
    let* vset := wr vset i (Some 0) in
    Ok (mdist, vset)) (uninit V, uninit V) in
  let* mdist := contents mdist in
  let* vset := contents vset in
  let* mdist := wr mdist src 0 in
  Ok (mdist, vset).

Definition Dijkstra (graph : MGraph) (src : Z) (w : console) : res console :=
  let V := vertexNum graph in
  let* st := init V src in
  let* (mdist, _) := for_up 0 (V - 1) (fun _ => visit graph V) st in
  print mdist V w.

Definition main (w : console) : res console :=
  let w := printf [PStr "Enter number of vertices: "] w in
  let* (V, w) := scanf w in
  let w := printf [PStr "Enter number of edges: "] w in
  let* (E, w) := scanf w in
  let* G := createGraph V in
  let* (G, w) := read_edges E G w in
  let w := printf [PStr "\nEnter source:"] w in
  let* (gsrc, w) := scanf w in
  Dijkstra G gsrc w.

Section correctness.
Context (V s W : Z) (m : list (list Z)).
Context (Hs : 0 <= s < V) (HW : 0 <= W) (Hm : matrix_ok V W m) (Hmax : V * W < INT_MAX).
Context (Hreach : forall v, 0 <= v < V -> exists vs x, walk (matrix_rel V m) s v vs x).

Abbreviation E := (matrix_rel V m).

Definition unvisited (vset : list Z) (v : Z) : Prop := vset.[v] = 0.

(** After [c] turns: [l] are the visited vertices, whose distances are
    final; the others have the best distance through [l]. *)
Record progress (c : Z) (l : list Z) (mdist vset : list Z) : Prop := {
  p_len : zlen mdist = V /\ zlen vset = V;
  p_visited : NoDup l /\ Z.of_nat (length l) = c /\
    forall v, v ∈ l <-> (0 <= v < V /\ vset.[v] <> 0);
  p_source : mdist.[s] = 0;
  p_walk : forall v, 0 <= v < V -> mdist.[v] = INT_MAX \/
    exists vs, walk E s v vs mdist.[v] /\ Z.of_nat (length vs) <= c;
  p_final : forall u, u ∈ l -> mdist.[u] <> INT_MAX;
  p_edges : forall u v w, u ∈ l -> E u v w -> mdist.[v] <= mdist.[u] + w;
  p_order : forall u v, u ∈ l -> 0 <= v < V -> v ∉ l -> mdist.[u] <= mdist.[v]
}.

Lemma progress_bound c l mdist vset v :
  progress c l mdist vset -> c <= V - 1 -> 0 <= v < V -> mdist.[v] <> INT_MAX ->
  0 <= mdist.[v] <= (V - 1) * W.
Proof.
  intros Hp Hc Hv Hne. destruct (p_walk _ _ _ _ Hp v Hv) as [?|(vs & Hw & Hl)]; [done|].
  destruct (matrix_walk _ _ _ _ _ _ _ Hm Hw Hs) as [_ Hx]. split; [lia|].
  etransitivity; [apply Hx|]. apply Z.mul_le_mono_nonneg_r; lia.
Qed.

(** While a vertex is unvisited, one has a finite distance. *)
Lemma next_exists c l mdist vset :
  progress c l mdist vset -> c < V ->
  exists u, 0 <= u < V /\ (u ∉ l) /\ mdist.[u] <> INT_MAX.
Proof.
  intros Hp Hc. pose proof (p_visited _ _ _ _ Hp) as (Hnd & Hlen & Hvis).
  destruct (decide (s ∈ l)) as [Hsl|Hsl].
  2: { exists s. rewrite (p_source _ _ _ _ Hp). done. }
  assert (exists v, 0 <= v < V /\ (v ∉ l)) as (v & Hv & Hvl).
  { destruct (decide (Forall (fun v => v ∈ l) (seqZ 0 V))) as [Hall|Hnot].
    - exfalso. rewrite Forall_forall in Hall. assert (seqZ 0 V ⊆ l) as Hsub by exact Hall.
      apply NoDup_submseteq, submseteq_length in Hsub; [|apply NoDup_seqZ].
      rewrite length_seqZ in Hsub. lia.
    - apply not_Forall_Exists, Exists_exists in Hnot; [|solve_decision].
      destruct Hnot as (v & Hin & Hv). apply elem_of_seqZ in Hin. exists v. split; [lia|done]. }
  destruct (Hreach v Hv) as (vs & x & Hw).
  destruct (walk_crossing _ _ _ _ _ _ Hw Hsl Hvl) as (a & b & w & Ha & Hb & He). exists b.
  pose proof He as (Hra & Hrb & Hcell & Hne). split_and!; [lia|lia|done|].
  pose proof (p_edges _ _ _ _ Hp a b w Ha He). pose proof (p_final _ _ _ _ Hp a Ha) as Hfin.
  destruct (m_weights _ _ _ Hm a b Hra Hrb) as [?|?]; [congruence|].
  pose proof (progress_bound _ _ _ _ a Hp ltac:(lia) Hra Hfin). lia.
Qed.

Lemma wp_minDistance c l mdist vset :
  progress c l mdist vset -> c < V ->
  wp (minDistance mdist vset V) (fun o => exists u, o = Some u /\
    0 <= u < V /\ (u ∉ l) /\ mdist.[u] <> INT_MAX /\
    forall v, 0 <= v < V -> (v ∉ l) -> mdist.[u] <= mdist.[v]).
Proof.
  intros Hp Hc. pose proof (p_len _ _ _ _ Hp) as [Hl1 Hl2].
  pose proof (p_visited _ _ _ _ Hp) as (_ & _ & Hvis). unfold minDistance. wp_step.
  apply (wp_for_up (fun i '(minVal, minInd) => minVal <= INT_MAX /\
    (forall v, 0 <= v < i -> (v ∉ l) -> minVal <= mdist.[v]) /\
    match minInd with
    | None => minVal = INT_MAX
    | Some u => 0 <= u < V /\ (u ∉ l) /\ mdist.[u] = minVal /\ minVal <> INT_MAX
    end)).
  - split_and!; [lia|intros; lia|done].
  - intros i [minVal minInd] Hi (Hle & Hmin & Hind). wp_step. apply wp_rd; [lia|]. code_case.
    + assert (i ∉ l) as Hil by (intros Hin; apply Hvis in Hin as [_ ?]; done).
      wp_step. apply wp_rd; [lia|]. wp_step. code_case.
      * split_and!; [lia| |lia|lia|done|done|lia]. intros v Hv Hvl.
        destruct (decide (v = i)) as [->|]; [done|]. specialize (Hmin v ltac:(lia) Hvl). lia.
      * split_and!; [lia| |done]. intros v Hv Hvl.
        destruct (decide (v = i)) as [->|]; [done|]. apply Hmin; [lia|done].
    + split_and!; [done| |done]. intros v Hv Hvl. destruct (decide (v = i)) as [->|]; [|apply Hmin; [lia|done]].
      exfalso. apply Hvl. apply Hvis. split; [lia|done].
  - rewrite Z.max_r by lia. intros [minVal minInd] (Hle & Hmin & Hind). wp_step.
    destruct minInd as [u|].
    + destruct Hind as (Hu & Hul & <- & Hne). exists u. split_and!; [done|lia|lia|done|done|done].
    + exfalso. destruct (next_exists _ _ _ _ Hp Hc) as (u & Hu & Hul & Hne).
      specialize (Hmin u Hu Hul). destruct (p_walk _ _ _ _ Hp u Hu) as [?|_]; [done|].
      pose proof (progress_bound _ _ _ _ u Hp ltac:(lia) Hu Hne). nia.
Qed.

(** [x] is the distance of [v] once the edges from [u] are accounted for. *)
Definition updated (l mdist : list Z) (u v x : Z) : Prop :=
  if decide (v = u \/ v ∈ l) then x = mdist.[v]
  else x <= mdist.[v] /\ (forall w, E u v w -> x <= mdist.[u] + w) /\
       (x = mdist.[v] \/ exists w, E u v w /\ x = mdist.[u] + w).

Section turn.
Context (c : Z) (l mdist vset : list Z) (u : Z).
Context (Hp : progress c l mdist vset) (Hc : c < V).
Context (Hu : 0 <= u < V) (Hul : u ∉ l) (Hne : mdist.[u] <> INT_MAX).

Lemma wp_update i d :
  0 <= i < V -> zlen d = V -> d.[i] = mdist.[i] -> d.[u] = mdist.[u] ->
  wp (update (MkMGraph V m) u i d (upd vset u 1)) (fun d' =>
    zlen d' = V /\ (forall v, 0 <= v < V -> v <> i -> d'.[v] = d.[v]) /\ updated l mdist u i d'.[i]).
Proof.
  intros Hi Hl Hdi Hdu. pose proof (p_len _ _ _ _ Hp) as [Hl1 Hl2].
  pose proof (p_visited _ _ _ _ Hp) as (_ & _ & Hvis).
  pose proof (progress_bound _ _ _ _ u Hp ltac:(lia) Hu Hne) as Hub.
  unfold update. wp_step. apply wp_rd; [rewrite zlen_upd; lia|]. rewrite aget_upd by lia.
  destruct (decide (u = i)) as [<-|Hui].
  { simpl. split_and!; [done..|]. unfold updated. by rewrite decide_True by (by left). }
  code_case.
  2: { split_and!; [done..|]. unfold updated.
       by rewrite decide_True by (right; apply Hvis; split; [lia|done]). }
  assert (~ (i = u \/ i ∈ l)) as Hnot.
  { intros [?|Hin]; [done|]. apply Hvis in Hin as [_ ?]. done. }
  assert (forall x, x <= mdist.[i] -> (forall w, E u i w -> x <= mdist.[u] + w) ->
    (x = mdist.[i] \/ exists w, E u i w /\ x = mdist.[u] + w) -> updated l mdist u i x) as Hupd.
  { intros x H1 H2 H3. unfold updated. by rewrite decide_False. }
  wp_step. apply (wp_cell V); [apply Hm|apply Hm|lia|lia|]. code_case.
  { rewrite Hdi. split_and!; [done..|]. apply Hupd; [lia| |by left]. intros w (_ & _ & Hcell & Hnw). congruence. }
  destruct (m_weights _ _ _ Hm u i Hu Hi) as [?|Hwt]; [done|].
  wp_step. apply wp_rd; [lia|]. rewrite Hdu. wp_step. apply wp_int; [code_lia|].
  wp_step. apply wp_rd; [lia|]. rewrite Hdi. code_case.
  - apply wp_wr; [lia|]. rewrite zlen_upd, aget_upd_eq by lia. split_and!; [done| |].
    + intros v Hv Hvi. by rewrite aget_upd_ne by lia.
    + apply Hupd; [lia| |right; by exists m.[u].[i]]. intros w (_ & _ & Hcell & _). lia.
  - apply wp_Ok. rewrite Hdi. split_and!; [done..|]. apply Hupd; [done| |by left].
    intros w (_ & _ & Hcell & _). lia.
Qed.

(** The inner loop brings every distance through [u] up to date. *)
Lemma wp_updates :
  wp (for_up 0 V (fun v d => update (MkMGraph V m) u v d (upd vset u 1)) mdist) (fun d =>
    zlen d = V /\ forall v, 0 <= v < V -> updated l mdist u v d.[v]).
Proof.
  pose proof (p_len _ _ _ _ Hp) as [Hl1 Hl2].
  apply (wp_for_up (fun i d => zlen d = V /\ forall v, 0 <= v < V ->
    if decide (v < i) then updated l mdist u v d.[v] else d.[v] = mdist.[v])).
  - split; [done|]. intros v Hv. by rewrite decide_False by lia.
  - intros i d Hi [Hl Hd]. eapply wp_mono; [apply (wp_update i d Hi Hl)|].
    + specialize (Hd i Hi). by rewrite decide_False in Hd by lia.
    + specialize (Hd u Hu). revert Hd. case_decide; [|done]. unfold updated. rewrite decide_True; auto.
    + intros d' (Hl' & Hother & Hii). split; [done|]. intros v Hv. specialize (Hd v Hv).
      destruct (decide (v = i)) as [->|Hvi]; [by rewrite decide_True by lia|].
      rewrite (Hother v Hv Hvi). revert Hd.
      destruct (decide (v < i)), (decide (v < i + 1)); try lia; done.
  - rewrite Z.max_r by lia. intros d [Hl Hd]. split; [done|]. intros v Hv. specialize (Hd v Hv).
    by rewrite decide_True in Hd by lia.
Qed.

(** One turn keeps the invariant, with [u] among the visited. *)
Lemma progress_step d :
  (forall v, 0 <= v < V -> (v ∉ l) -> mdist.[u] <= mdist.[v]) ->
  zlen d = V -> (forall v, 0 <= v < V -> updated l mdist u v d.[v]) ->
  progress (c + 1) (u :: l) d (upd vset u 1).
Proof.
  intros Hmin Hl Hd. pose proof (p_len _ _ _ _ Hp) as [Hl1 Hl2].
  pose proof (p_visited _ _ _ _ Hp) as (Hnd & Hlen & Hvis).
  assert (forall v, v ∈ u :: l -> 0 <= v < V /\ d.[v] = mdist.[v]) as Hold.
  { intros v Hv. apply elem_of_cons in Hv. assert (0 <= v < V) as Hr.
    { destruct Hv as [->|Hv]; [done|]. apply Hvis in Hv. tauto. }
    split; [done|]. specialize (Hd v Hr). unfold updated in Hd. by rewrite decide_True in Hd. }
  assert (forall v, 0 <= v < V -> (v ∉ u :: l) -> d.[v] <= mdist.[v] /\
    (forall w, E u v w -> d.[v] <= mdist.[u] + w) /\
    (d.[v] = mdist.[v] \/ exists w, E u v w /\ d.[v] = mdist.[u] + w)) as Hnew.
  { intros v Hr Hv. rewrite elem_of_cons in Hv. specialize (Hd v Hr). unfold updated in Hd.
    by rewrite decide_False in Hd. }
  assert (forall v w, E u v w -> 0 <= w) as Hpos.
  { intros v w (H1 & H2 & <- & Hnw). destruct (m_weights _ _ _ Hm u v H1 H2); [done|lia]. }
  assert (forall v, v ∈ l -> mdist.[v] <= mdist.[u]) as Hbefore
    by (intros v Hv; by apply (p_order _ _ _ _ Hp)).
  split.
  - by rewrite zlen_upd.
  - split_and!; [by constructor|simpl; lia|]. intros v. rewrite elem_of_cons, Hvis.
    split; [intros [->|[Hr Hv]]|intros [Hr Hv]]; rewrite aget_upd in * by lia.
    + rewrite decide_True by done. lia.
    + case_decide; [lia|done].
    + case_decide; [by left|by right].
  - destruct (decide (s ∈ u :: l)) as [Hin|Hin].
    + destruct (Hold s Hin) as [_ ->]. apply (p_source _ _ _ _ Hp).
    + destruct (Hnew s Hs Hin) as (Hle & _ & [->|(w & Hw & Hds)]); [apply (p_source _ _ _ _ Hp)|].
      pose proof (p_source _ _ _ _ Hp). specialize (Hpos _ _ Hw).
      pose proof (progress_bound _ _ _ _ u Hp ltac:(lia) Hu Hne). lia.
  - intros v Hr. destruct (decide (v ∈ u :: l)) as [Hin|Hin].
    + destruct (Hold v Hin) as [_ ->]. destruct (p_walk _ _ _ _ Hp v Hr) as [?|(vs & Hw & Hlw)]; [by left|].
      right. exists vs. split; [done|lia].
    + destruct (Hnew v Hr Hin) as (_ & _ & [->|(w & Hw & ->)]).
      * destruct (p_walk _ _ _ _ Hp v Hr) as [?|(vs & Hwk & Hlw)]; [by left|].
        right. exists vs. split; [done|lia].
      * destruct (p_walk _ _ _ _ Hp u Hu) as [?|(vs & Hwk & Hlw)]; [done|]. right.
        exists (vs ++ [v]). rewrite length_app. simpl. split; [|lia]. by eapply walk_snoc.
  - intros v Hv. destruct (Hold v Hv) as [_ ->]. apply elem_of_cons in Hv as [->|Hv]; [done|].
    by apply (p_final _ _ _ _ Hp).
  - intros a v w Ha He. destruct (Hold a Ha) as [Hra Ea]. rewrite Ea. pose proof He as (_ & Hrv & _).
    destruct (decide (v ∈ u :: l)) as [Hin|Hin].
    + destruct (Hold v Hin) as [_ ->]. apply elem_of_cons in Ha as [->|Ha];
        [|by apply (p_edges _ _ _ _ Hp a v w)].
      specialize (Hpos v w He). apply elem_of_cons in Hin as [->|Hin]; [lia|]. specialize (Hbefore v Hin). lia.
    + destruct (Hnew v Hrv Hin) as (Hle & Hedge & _).
      apply elem_of_cons in Ha as [->|Ha]; [by apply Hedge|].
      pose proof (p_edges _ _ _ _ Hp a v w Ha He). lia.
  - intros a v Ha Hr Hv. destruct (Hold a Ha) as [_ ->].
    assert (mdist.[u] <= d.[v]) as Huv.
    { destruct (Hnew v Hr Hv) as (_ & _ & [->|(w & Hw & ->)]).
      - apply Hmin; [done|]. intros Hin. apply Hv. by right.
      - specialize (Hpos v w Hw). lia. }
    apply elem_of_cons in Ha as [->|Ha]; [done|]. specialize (Hbefore a Ha). lia.
Qed.
End turn.

Lemma wp_visit c l mdist vset :
  progress c l mdist vset -> c < V ->
  wp (visit (MkMGraph V m) V (mdist, vset)) (fun '(d, vs) => exists u, progress (c + 1) (u :: l) d vs).
Proof.
  intros Hp Hc. pose proof (p_len _ _ _ _ Hp) as [Hl1 Hl2]. unfold visit. wp_step.
  eapply wp_mono; [by apply (wp_minDistance c l)|]. intros o (u & -> & Hu & Hul & Hne & Hmin).
  wp_step. apply wp_wr; [lia|]. wp_step. eapply wp_mono; [by apply (wp_updates c l)|].
  intros d [Hl Hd]. wp_step. exists u. by apply (progress_step c l mdist).
Qed.

Lemma wp_init : wp (init V s) (fun '(d, vset) => progress 0 [] d vset).
Proof.
  unfold init, vla, demand. rewrite (proj2 (Z.ltb_lt _ _)) by lia. simpl.
  assert (zlen (uninit V) = V) as Hu by (apply zlen_replicate; lia). wp_step.
  assert (forall x : Z, zlen (replicate (Z.to_nat V) x) = V) as Hz by (intros; apply zlen_replicate; lia).
  apply (wp_mono _ (fun '(a, b) => a = map Some (replicate (Z.to_nat V) INT_MAX) /\
    b = map Some (replicate (Z.to_nat V) 0))).
  { apply (wp_for_up (fun i '(a, b) => zlen a = V /\ zlen b = V /\
      forall p, 0 <= p < i -> a.[p] = Some INT_MAX /\ b.[p] = Some 0)).
    - split_and!; [done..|intros; lia].
    - intros i [a b] Hi (Hla & Hlb & Hp). wp_step. apply wp_wr; [lia|]. wp_step. apply wp_wr; [lia|].
      wp_step. rewrite !zlen_upd. split_and!; [done..|]. intros p Hp'.
      rewrite !aget_upd by lia. case_decide; [done|]. apply Hp. lia.
    - rewrite Z.max_r by lia. intros [a b] (Hla & Hlb & Hp). split.
      + apply aget_ext; [by rewrite zlen_map, Hz|]. rewrite Hla. intros p Hp'.
        rewrite (proj1 (Hp p Hp')), aget_map, aget_replicate by (rewrite ?Hz; lia). done.
      + apply aget_ext; [by rewrite zlen_map, Hz|]. rewrite Hlb. intros p Hp'.
        rewrite (proj2 (Hp p Hp')), aget_map, aget_replicate by (rewrite ?Hz; lia). done. }
  intros [a b] [-> ->]. rewrite !contents_Some. simpl. wp_step. apply wp_wr; [by rewrite Hz|]. wp_step.
  split.
  - by rewrite zlen_upd, !Hz.
  - split_and!; [constructor|done|]. intros v. rewrite elem_of_nil. split; [done|].
    intros [Hr Hv]. by rewrite aget_replicate in Hv by lia.
  - by rewrite aget_upd_eq by (by rewrite Hz).
  - intros v Hr. rewrite aget_upd by (rewrite ?Hz; lia). case_decide as Ev; [|left; by rewrite aget_replicate].
    subst v. right. exists []. split; [constructor|done].
  - intros u Hin. by apply elem_of_nil in Hin.
  - intros u v w Hin. by apply elem_of_nil in Hin.
  - intros u v Hin. by apply elem_of_nil in Hin.
Qed.

(** With all vertices but one visited the distances are the least. *)
Lemma progress_distances l mdist vset :
  progress (V - 1) l mdist vset -> distances E V s mdist.
Proof.
  intros Hp. pose proof (p_len _ _ _ _ Hp) as [Hl1 Hl2].
  pose proof (p_visited _ _ _ _ Hp) as (Hnd & Hlen & Hvis).
  assert (forall a b, 0 <= a < V -> 0 <= b < V -> (a ∉ l) -> (b ∉ l) -> a = b) as Hlast.
  { intros a b Ha Hb Hal Hbl. destruct (decide (a = b)) as [|Hab]; [done|]. exfalso.
    assert (NoDup (a :: b :: l)) as Hnd'.
    { apply NoDup_cons. rewrite elem_of_cons. split; [tauto|]. by constructor. }
    pose proof (distinct_vertices V _ Hnd' ltac:(intros v; rewrite !elem_of_cons, Hvis; naive_solver)) as Hd.
    simpl length in Hd. lia. }
  assert (forall v vs x, walk E s v vs x -> mdist.[v] <= x) as Hle.
  { intros v vs. revert v. induction vs as [|b vs IH] using rev_ind; intros v x Hw.
    - apply walk_inv_nil in Hw as [<- ->]. rewrite (p_source _ _ _ _ Hp). lia.
    - destruct (walk_snoc_inv _ _ _ _ _ _ Hw) as (u & y & wt & Hy & He & -> & _).
      specialize (IH u y Hy). pose proof He as (Hru & Hrv & Hcell & Hnw).
      destruct (m_weights _ _ _ Hm u v Hru Hrv) as [?|Hpos]; [congruence|].
      destruct (decide (u ∈ l)) as [Hin|Hin]; [pose proof (p_edges _ _ _ _ Hp u v wt Hin He); lia|].
      destruct (decide (v ∈ l)) as [Hvl|Hvl].
      + pose proof (p_order _ _ _ _ Hp v u Hvl Hru Hin). lia.
      + rewrite (Hlast v u) by done. lia. }
  split; [done|]. intros v Hv. right. destruct (Hreach v Hv) as (vs & x & Hw).
  assert (mdist.[v] <> INT_MAX) as Hne.
  { destruct (walk_shorten E (Z.to_nat V) _ _ _ _ Hw) as [(vs' & x' & Hw' & Hl' & _)|(a & ? & ? & ? & y & H1 & H2 & Hneg)].
    - assert (forall u v vs x, walk E u v vs x -> 0 <= u < V -> forall a, a ∈ u :: vs -> 0 <= a < V) as Hrange.
      { induction 1 as [|u b t us w y He Hwk IH]; intros Hur a Ha.
        - apply list_elem_of_singleton in Ha. by subst.
        - apply elem_of_cons in Ha as [->|Ha]; [done|]. apply IH; [|done]. apply He. }
      intros a Ha. rewrite Z2Nat.id by lia. by apply (Hrange _ _ _ _ Hw Hs).
    - pose proof (Hle _ _ _ Hw'). destruct (matrix_walk _ _ _ _ _ _ _ Hm Hw' Hs) as [_ Hx'].
      assert (Z.of_nat (length vs') * W <= V * W) by (apply Z.mul_le_mono_nonneg_r; lia). lia.
    - exfalso. destruct (matrix_walk _ _ _ _ _ _ _ Hm H1 Hs) as [Ha _].
      destruct (matrix_walk _ _ _ _ _ _ _ Hm H2 Ha). lia. }
  split_and!; [done| |by apply Hle]. destruct (p_walk _ _ _ _ Hp v Hv) as [?|(vs' & Hw' & _)]; [done|eauto].
Qed.
End correctness.

(** C8. Dijkstra.c is correct: for a graph of V vertices with weights
    between 0 and W, V * W below INT_MAX, all of whose vertices the source
    reaches, the program ends without a fault and prints for each vertex the
    least weight of a walk from the source. *)
Theorem dijkstra_correct (V s W : Z) (m : list (list Z)) inp out :
  0 <= s < V -> 0 <= W -> matrix_ok V W m -> V * W < INT_MAX ->
  (forall v, 0 <= v < V -> exists vs x, walk (matrix_rel V m) s v vs x) ->
  exists d,
    Dijkstra (MkMGraph V m) s (Console inp out) = Ok (Console inp (out ++ dist_table d)) /\
    distances (matrix_rel V m) V s d.
Proof.
  intros Hs HW Hm Hmax Hreach.
  cut (wp (Dijkstra (MkMGraph V m) s (Console inp out)) (fun w =>
    exists d, w = Console inp (out ++ dist_table d) /\ distances (matrix_rel V m) V s d)).
  { intros H. apply wp_exists in H as (w & Ew & d & -> & H). eauto. }
  unfold Dijkstra. simpl. wp_step. eapply wp_mono; [by apply (wp_init V s m)|].
  intros [d0 vs0] H0. wp_step.
  apply (wp_for_up (fun i '(d, vs) => exists l, progress V s m i l d vs)); [eauto| |].
  - intros i [d vs] Hi (l & Hp). eapply wp_mono; [apply (wp_visit V s W m) with (c := i) (l := l); try done; lia|].
    intros [d' vs'] (u & Hp'). eauto.
  - rewrite Z.max_r by lia. intros [d vs] (l & Hp).
    assert (distances (matrix_rel V m) V s d) as Hdist
      by (eapply (progress_distances V s W); eauto).
    pose proof (proj1 Hdist) as Hl. rewrite <- Hl at 1. rewrite print_spec. simpl. eauto.
Qed.
End Dijkstra.

Lemma dijkstra_correct_witness :
  exists d,
    Dijkstra.Dijkstra (MkMGraph 2 [[0; 7]; [INT_MAX; 0]]) 0 (Console [] []) =
      Ok (Console [] ([] ++ dist_table d)) /\
    distances (matrix_rel 2 [[0; 7]; [INT_MAX; 0]]) 2 0 d.
Proof.
  apply (Dijkstra.dijkstra_correct 2 0 7).
  - lia.
  - lia.
  - split; [reflexivity|..].
    + intros u Hu. assert (u = 0 \/ u = 1) as [->| ->] by lia; reflexivity.
    + intros u v Hu Hv. assert (u = 0 \/ u = 1) as [->| ->] by lia;
        assert (v = 0 \/ v = 1) as [->| ->] by lia; vm_compute; intuition congruence.
  - vm_compute. reflexivity.
  - intros v Hv. assert (v = 0 \/ v = 1) as [->| ->] by lia.
    + exists [], 0. apply walk_nil.
    + exists [1], (7 + 0). apply (walk_cons _ _ 1 _ _ 7); [|apply walk_nil].
      split_and!; [lia..|reflexivity|vm_compute; discriminate].
Defined.

(** With two vertices the source does not reach, minDistance returns an
    indeterminate index. *)
Theorem dijkstra_unreachable :
  Dijkstra.Dijkstra (MkMGraph 3
    [[0; INT_MAX; INT_MAX]; [INT_MAX; 0; INT_MAX]; [INT_MAX; INT_MAX; 0]]) 0 (Console [] []) =
  Fail Uninit.
Proof. vm_compute. reflexivity. Qed.

(** ** Floyd-Warshall.c *)

Module FloydWarshall.

(** [dist[i][j] = d] *)
Definition set_cell (dist : list (list Z)) (i j d : Z) : res (list (list Z)) :=
  let* row := rd dist i in
  let* row := wr row j d in
  wr dist i row.

(** The body of the innermost loop. *)
Definition through (k i j : Z) (dist : list (list Z)) : res (list (list Z)) :=
  let* ik := cell dist i k in
  if negb (ik =? INT_MAX) then
    let* kj := cell dist k j in
    if negb (kj =? INT_MAX) then
      let* s := int (ik + kj) in
      let* ij := cell dist i j in
      if s <? ij then set_cell dist i j s else Ok dist
    else Ok dist
  else Ok dist.

(** The distance matrix starts as a copy of the edges. *)
Definition copy_edges (graph : MGraph) : res (list (list Z)) :=
  let V := vertexNum graph in
  for_up 0 V (fun i rows =>
    let* row := for_up 0 V (fun j row => let* e := cell (edges graph) i j in Ok (row ++ [e])) [] in
    Ok (rows ++ [row])) [].

Definition entry (d : Z) : list piece :=
  if negb (d =? INT_MAX) then [PInt d; PStr "\t"] else [PStr "INF\t"].

(** [print(dist1d, V)] *)
Definition print1d (dist : list Z) (V : Z) (w : console) : res console :=
  let w := printf [PStr "\nThe Distance matrix for Floyd - Warshall\n"] w in
  for_up 0 V (fun i w =>
    let* w := for_up 0 V (fun j w =>
      let* p := int (i * V + j) in
      let* d := rd dist p in
      Ok (printf (entry d) w)) w in
    Ok (printf [PStr "\n"] w)) w.

Definition FloydWarshall (graph : MGraph) (w : console) : res console :=
  let V := vertexNum graph in
  let* _ := vla V in
  let* dist := copy_edges graph in
  let* dist := for_up 0 V (fun k dist =>
    for_up 0 V (fun i dist => for_up 0 V (fun j dist => through k i j dist) dist) dist) dist in
  let* size := int (V * V) in
  let* dist1d := for_up 0 V (fun i d1 =>
    for_up 0 V (fun j d1 =>
      let* d := cell dist i j in
      wr d1 (i * V + j) (Some d)) d1) (uninit size) in
  let* dist1d := contents dist1d in
  print1d dist1d V w.

Definition main (w : console) : res console :=
  let w := printf [PStr "Enter number of vertices: "] w in
  let* (V, w) := scanf w in
  let w := printf [PStr "Enter number of edges: "] w in
  let* (E, w) := scanf w in
  let* G := createGraph V in
  let* (G, w) := read_edges E G w in
  FloydWarshall G w.

(** What the program prints for a matrix. *)
Definition matrix_table (D : list (list Z)) : list piece :=
  PStr "\nThe Distance matrix for Floyd - Warshall\n" ::
  concat (map (fun row => concat (map entry row) ++ [PStr "\n"]) D).

(** *** Walks through a set of vertices *)

(** A walk whose inner vertices [us] repeat none. *)
Lemma walk_distinct (E : Z -> Z -> Z -> Prop) i j us x :
  walk E i j (us ++ [j]) x ->
  exists us' x', walk E i j (us' ++ [j]) x' /\ NoDup us' /\ us' ⊆ us.
Proof.
  remember (length us) as n eqn:Hn. revert us x Hn.
  induction n as [n IH] using lt_wf_ind. intros us x Hn Hw.
  destruct (decide (NoDup us)) as [Hnd|Hdup]; [by exists us, x|].
  assert (exists a l1 l2 l3, us = l1 ++ a :: l2 ++ a :: l3) as (a & l1 & l2 & l3 & ->).
  { apply not_NoDup; [intros u v; unfold Decidable.decidable; destruct (decide (u = v)); auto|].
    intros Hnd. apply Hdup. by apply NoDup_ListNoDup. }
  rewrite <- app_assoc in Hw. simpl in Hw.
  destruct (walk_split _ _ _ _ _ _ _ Hw) as (x1 & y & H1 & Hr & _).
  rewrite <- app_assoc in Hr. simpl in Hr.
  destruct (walk_split _ _ _ _ _ _ _ Hr) as (y1 & y2 & _ & H2 & _).
  pose proof (walk_app _ _ _ _ _ _ _ _ H1 H2) as H12.
  assert ((l1 ++ [a]) ++ l3 ++ [j] = (l1 ++ a :: l3) ++ [j]) as El by (by rewrite <- !app_assoc).
  rewrite El in H12.
  destruct (IH (length (l1 ++ a :: l3))) with (us := l1 ++ a :: l3) (x := x1 + y2)
    as (us' & x' & Hw' & Hnd & Hsub); [|done|done|].
  { rewrite Hn, !length_app. simpl. rewrite length_app. simpl. lia. }
  exists us', x'. split_and!; [done..|]. intros v Hv. specialize (Hsub v Hv).
  rewrite !elem_of_app, !elem_of_cons, ?elem_of_app, ?elem_of_cons in *. tauto.
Qed.

Section correctness.
Context (V W : Z) (m : list (list Z)).
Context (HV : 0 < V) (HW : 0 <= W) (Hm : matrix_ok V W m) (Hmax : 2 * (V * W) < INT_MAX).
Context (Hdiag : forall i, 0 <= i < V -> m.[i].[i] = 0).

Abbreviation E := (matrix_rel V m).

(** The matrix before round [k]: each entry is the least weight of a walk
    with inner vertices below [k], INT_MAX when there is none. *)
Record round (k : Z) (D : list (list Z)) : Prop := {
  r_rows : zlen D = V;
  r_cols : forall i, 0 <= i < V -> zlen D.[i] = V;
  r_walk : forall i j, 0 <= i < V -> 0 <= j < V -> D.[i].[j] = INT_MAX \/
    exists us, walk E i j (us ++ [j]) D.[i].[j] /\ Forall (fun u => 0 <= u < k) us;
  r_least : forall i j us x, 0 <= i < V -> walk E i j (us ++ [j]) x ->
    Forall (fun u => 0 <= u < k) us -> D.[i].[j] <> INT_MAX /\ D.[i].[j] <= x
}.

Lemma round_bound k D i j :
  round k D -> k < V -> 0 <= i < V -> 0 <= j < V -> D.[i].[j] <> INT_MAX ->
  0 <= D.[i].[j] <= V * W.
Proof.
  intros Hr Hk Hi Hj Hne. destruct (r_walk _ _ Hr i j Hi Hj) as [?|(us & Hw & Hus)]; [done|].
  destruct (matrix_walk _ _ _ _ _ _ _ Hm Hw Hi) as [_ [Hpos _]]. split; [done|].
  destruct (walk_distinct _ _ _ _ _ Hw) as (us' & x' & Hw' & Hnd & Hsub).
  rewrite Forall_forall in Hus.
  assert (Forall (fun u => 0 <= u < k) us') as Hus' by (apply Forall_forall; auto).
  destruct (r_least _ _ Hr i j us' x' Hi Hw' Hus') as [_ Hle].
  destruct (matrix_walk _ _ _ _ _ _ _ Hm Hw' Hi) as [_ [_ Hx']].
  rewrite length_app in Hx'. simpl in Hx'. rewrite Forall_forall in Hus'.
  pose proof (distinct_vertices k us' Hnd Hus') as Hlen.
  assert (Z.of_nat (length us' + 1) * W <= V * W) by (apply Z.mul_le_mono_nonneg_r; lia). lia.
Qed.

(** A walk through [k] goes from its source to [k] and from [k] to its end. *)
Lemma round_diag k D : round k D -> 0 <= k < V -> D.[k].[k] = 0.
Proof.
  intros Hr Hk.
  assert (walk E k k ([] ++ [k]) (0 + 0)) as Hw.
  { simpl. econstructor; [|constructor]. split_and!; [lia..|by apply Hdiag|done]. }
  destruct (r_least _ _ Hr k k [] _ ltac:(lia) Hw ltac:(constructor)) as [Hne Hle].
  pose proof (round_bound k D k k Hr ltac:(lia) Hk Hk Hne). lia.
Qed.

(** Entry (i, j) once round [k] has treated it. *)
Definition combine (D : list (list Z)) (k i j : Z) : Z :=
  if decide (D.[i].[k] = INT_MAX \/ D.[k].[j] = INT_MAX) then D.[i].[j]
  else Z.min D.[i].[j] (D.[i].[k] + D.[k].[j]).

Lemma round_next k D D' :
  round k D -> 0 <= k < V -> zlen D' = V -> (forall i, 0 <= i < V -> zlen D'.[i] = V) ->
  (forall i j, 0 <= i < V -> 0 <= j < V -> D'.[i].[j] = combine D k i j) ->
  round (k + 1) D'.
Proof.
  intros Hr Hk Hl Hl' Hc. split; [done..| |].
  - intros i j Hi Hj. rewrite Hc by done. unfold combine.
    assert (D.[i].[j] = INT_MAX \/ exists us, walk E i j (us ++ [j]) D.[i].[j] /\
      Forall (fun u => 0 <= u < k + 1) us) as Hij.
    { destruct (r_walk _ _ Hr i j Hi Hj) as [?|(us & Hw & Hus)]; [by left|right]. exists us.
      split; [done|]. eapply Forall_impl; [exact Hus|]. simpl. lia. }
    case_decide as Ed; [done|]. destruct (Z.min_spec D.[i].[j] (D.[i].[k] + D.[k].[j])) as [[_ ->]|[_ ->]]; [done|].
    right. destruct (r_walk _ _ Hr i k Hi Hk) as [?|(us1 & H1 & Hus1)]; [tauto|].
    destruct (r_walk _ _ Hr k j Hk Hj) as [?|(us2 & H2 & Hus2)]; [tauto|].
    exists (us1 ++ k :: us2). split.
    + replace ((us1 ++ k :: us2) ++ [j]) with ((us1 ++ [k]) ++ us2 ++ [j]) by (by rewrite <- !app_assoc).
      by eapply walk_app.
    + apply Forall_app. split; [eapply Forall_impl; [exact Hus1|simpl; lia]|].
      constructor; [lia|]. eapply Forall_impl; [exact Hus2|simpl; lia].
  - intros i j us x Hi Hw Hus. destruct (matrix_walk _ _ _ _ _ _ _ Hm Hw Hi) as [Hj _].
    rewrite Hc by done. unfold combine. rewrite Forall_forall in Hus.
    destruct (decide (k ∈ us)) as [Hin|Hin].
    + destruct (list_elem_of_split_l us k Hin) as (l1 & l2 & -> & Hl1).
      rewrite <- app_assoc in Hw. simpl in Hw.
      destruct (walk_split _ _ _ _ _ _ _ Hw) as (x1 & y & H1 & H2 & ->).
      assert (exists l3 y', walk E k j (l3 ++ [j]) y' /\ y' <= y /\ (k ∉ l3) /\ l3 ⊆ l2)
        as (l3 & y' & H3 & Hy & Hl3 & Hsub).
      { destruct (decide (k ∈ l2)) as [Hin2|Hin2]; [|exists l2, y; split_and!; [done|lia|done|done]].
        destruct (list_elem_of_split_r l2 k Hin2) as (l4 & l3 & -> & Hl3).
        rewrite <- app_assoc in H2. simpl in H2.
        destruct (walk_split _ _ _ _ _ _ _ H2) as (y1 & y2 & Hc1 & Hc2 & ->).
        destruct (matrix_walk _ _ _ _ _ _ _ Hm Hc1 Hk) as [_ ?]. exists l3, y2.
        split_and!; [done|lia|done|]. intros v Hv. apply elem_of_app. right. by right. }
      assert (Forall (fun u => 0 <= u < k) l1) as F1.
      { apply Forall_forall. intros v Hv. assert (v <> k) by (intros ->; done).
        specialize (Hus v). rewrite elem_of_app in Hus. specialize (Hus (or_introl Hv)). lia. }
      assert (Forall (fun u => 0 <= u < k) l3) as F3.
      { apply Forall_forall. intros v Hv. assert (v <> k) by (intros ->; done).
        specialize (Hus v). rewrite elem_of_app, elem_of_cons in Hus.
        specialize (Hus (or_intror (or_intror (Hsub v Hv)))). lia. }
      destruct (r_least _ _ Hr i k l1 x1 Hi H1 F1) as [N1 L1].
      destruct (r_least _ _ Hr k j l3 y' Hk H3 F3) as [N3 L3].
      rewrite decide_False by tauto.
      pose proof (round_bound _ _ i k Hr ltac:(lia) Hi Hk N1).
      pose proof (round_bound _ _ k j Hr ltac:(lia) Hk Hj N3). lia.
    + assert (Forall (fun u => 0 <= u < k) us) as F.
      { apply Forall_forall. intros v Hv. assert (v <> k) by (intros ->; done). specialize (Hus v Hv). lia. }
      destruct (r_least _ _ Hr i j us x Hi Hw F) as [N L]. case_decide as Ed; [done|].
      assert (D.[i].[k] <> INT_MAX /\ D.[k].[j] <> INT_MAX) as [Nik Nkj] by tauto.
      pose proof (round_bound _ _ i k Hr ltac:(lia) Hi Hk Nik).
      pose proof (round_bound _ _ k j Hr ltac:(lia) Hk Hj Nkj). lia.
Qed.

Lemma combine_row k D b : round k D -> 0 <= k < V -> 0 <= b < V -> combine D k k b = D.[k].[b].
Proof.
  intros Hr Hk Hb. unfold combine. rewrite (round_diag k D Hr Hk). case_decide; [done|]. lia.
Qed.

Lemma combine_col k D a : round k D -> 0 <= k < V -> 0 <= a < V -> combine D k a k = D.[a].[k].
Proof.
  intros Hr Hk Ha. unfold combine. rewrite (round_diag k D Hr Hk). case_decide; [done|]. lia.
Qed.

(** In the middle of round [k], before entry (i, j). *)
Definition midway (D : list (list Z)) (k i j : Z) (X : list (list Z)) : Prop :=
  zlen X = V /\ (forall a, 0 <= a < V -> zlen X.[a] = V) /\
  forall a b, 0 <= a < V -> 0 <= b < V ->
    X.[a].[b] = if decide (a < i \/ (a = i /\ b < j)) then combine D k a b else D.[a].[b].

Lemma wp_set_cell X i j d (Q : list (list Z) -> Prop) :
  zlen X = V -> (forall a, 0 <= a < V -> zlen X.[a] = V) -> 0 <= i < V -> 0 <= j < V ->
  (forall X', zlen X' = V -> (forall a, 0 <= a < V -> zlen X'.[a] = V) ->
     (forall a b, 0 <= a < V -> 0 <= b < V ->
        X'.[a].[b] = if decide (a = i /\ b = j) then d else X.[a].[b]) -> Q X') ->
  wp (set_cell X i j d) Q.
Proof.
  intros Hl Hc Hi Hj HQ. unfold set_cell. wp_step. apply wp_rd; [lia|]. wp_step.
  apply wp_wr; [rewrite Hc by done; lia|]. apply wp_wr; [lia|]. apply HQ.
  - by rewrite zlen_upd.
  - intros a Ha. rewrite aget_upd by lia. case_decide; [subst; rewrite zlen_upd|]; by apply Hc.
  - intros a b Ha Hb. rewrite aget_upd by lia. case_decide as Ea.
    + subst a. rewrite aget_upd by (rewrite ?Hc by done; lia).
      destruct (decide (j = b)), (decide (i = i /\ b = j)); try tauto; naive_solver.
    + rewrite decide_False by naive_solver. done.
Qed.

Lemma wp_through D k i j X :
  round k D -> 0 <= k < V -> 0 <= i < V -> 0 <= j < V -> midway D k i j X ->
  wp (through k i j X) (midway D k i (j + 1)).
Proof.
  intros Hr Hk Hi Hj (Hl & Hc & HX).
  assert (X.[i].[k] = D.[i].[k]) as Eik
    by (rewrite HX by done; case_decide; [by apply combine_col|done]).
  assert (X.[k].[j] = D.[k].[j]) as Ekj
    by (rewrite HX by done; case_decide; [by apply combine_row|done]).
  assert (X.[i].[j] = D.[i].[j]) as Eij by (rewrite HX by done; rewrite decide_False; [done|lia]).
  assert (forall X', zlen X' = V -> (forall a, 0 <= a < V -> zlen X'.[a] = V) ->
    (forall a b, 0 <= a < V -> 0 <= b < V ->
      X'.[a].[b] = if decide (a = i /\ b = j) then combine D k i j else X.[a].[b]) ->
    midway D k i (j + 1) X') as Hdone.
  { intros X' Hl' Hc' HX'. split_and!; [done..|]. intros a b Ha Hb. rewrite HX' by done.
    destruct (decide (a = i /\ b = j)) as [[-> ->]|Hne]; [rewrite decide_True; [done|lia]|].
    rewrite HX by done. apply decide_ext. lia. }
  assert (combine D k i j = D.[i].[j] -> midway D k i (j + 1) X) as Hsame.
  { intros Ec. apply Hdone; [done..|]. intros a b Ha Hb. case_decide as Eab; [|done].
    destruct Eab as [-> ->]. by rewrite Ec. }
  unfold through. wp_step. apply (wp_cell V); [done..|]. rewrite Eik.
  destruct (Z.eqb_spec D.[i].[k] INT_MAX) as [Ei|Ni]; simpl.
  { apply Hsame. unfold combine. rewrite decide_True; [done|by left]. }
  wp_step. apply (wp_cell V); [done..|]. rewrite Ekj.
  destruct (Z.eqb_spec D.[k].[j] INT_MAX) as [Ej|Nj]; simpl.
  { apply Hsame. unfold combine. rewrite decide_True; [done|by right]. }
  pose proof (round_bound _ _ i k Hr ltac:(lia) Hi Hk Ni).
  pose proof (round_bound _ _ k j Hr ltac:(lia) Hk Hj Nj).
  wp_step. apply wp_int; [code_lia|]. wp_step. apply (wp_cell V); [done..|]. rewrite Eij.
  destruct (Z.ltb_spec (D.[i].[k] + D.[k].[j]) D.[i].[j]).
  - apply wp_set_cell; [done..|]. intros X' Hl' Hc' HX'. apply Hdone; [done..|].
    unfold combine. rewrite decide_False by tauto. by rewrite Z.min_r by lia.
  - apply wp_Ok. apply Hsame. unfold combine. rewrite decide_False by tauto. lia.
Qed.

Lemma wp_round k D :
  round k D -> 0 <= k < V ->
  wp (for_up 0 V (fun i D => for_up 0 V (fun j D => through k i j D) D) D) (round (k + 1)).
Proof.
  intros Hr Hk.
  apply (wp_for_up (fun i X => midway D k i 0 X)).
  - split_and!; [apply (r_rows _ _ Hr)|apply (r_cols _ _ Hr)|]. intros a b Ha Hb.
    rewrite decide_False by lia. done.
  - intros i X Hi HX. apply (wp_for_up (fun j X => midway D k i j X)); [done|..].
    + intros j X' Hj HX'. by apply wp_through.
    + rewrite Z.max_r by lia. intros X' (Hl & Hc & HX'). split_and!; [done..|]. intros a b Ha Hb.
      rewrite HX' by done. apply decide_ext. lia.
  - rewrite Z.max_r by lia. intros X (Hl & Hc & HX). apply (round_next k D X Hr Hk Hl Hc).
    intros i j Hi Hj. rewrite HX by done. rewrite decide_True; [done|lia].
Qed.

Lemma round_start : round 0 m.
Proof.
  split; [apply Hm|apply Hm|..].
  - intros i j Hi Hj. destruct (decide (m.[i].[j] = INT_MAX)) as [|Hne]; [by left|right].
    exists []. split; [|constructor]. simpl.
    pose proof (walk_cons E i j j [] m.[i].[j] 0) as Hw. rewrite Z.add_0_r in Hw.
    apply Hw; [unfold matrix_rel; tauto|constructor].
  - intros i j us x Hi Hw Hus. destruct us as [|u us].
    + inversion Hw as [|? ? ? ? w y He Hw']; subst. apply walk_inv_nil in Hw' as [_ ->].
      destruct He as (_ & _ & <- & Hne). split; [done|lia].
    + apply Forall_cons in Hus as [Hu _]. lia.
Qed.

(** After the last round every row is the distances from its vertex. *)
Lemma round_distances D i : round V D -> 0 <= i < V -> distances E V i D.[i].
Proof.
  intros Hr Hi. split; [by apply (r_cols _ _ Hr)|]. intros j Hj.
  assert (forall vs x, walk E i j vs x -> D.[i].[j] <> INT_MAX /\ D.[i].[j] <= x) as Hle.
  { intros vs x Hw. destruct vs as [|b us _] using rev_ind.
    - apply walk_inv_nil in Hw as [<- ->].
      assert (walk E i i ([] ++ [i]) (0 + 0)) as Hw0.
      { simpl. econstructor; [|constructor]. split_and!; [lia..|by apply Hdiag|done]. }
      destruct (r_least _ _ Hr i i [] _ ltac:(lia) Hw0 ltac:(constructor)). split; [done|lia].
    - destruct (walk_snoc_inv _ _ _ _ _ _ Hw) as (_ & _ & _ & _ & _ & _ & ->).
      apply (r_least _ _ Hr i j us x Hi Hw). apply Forall_forall. intros v Hv.
      destruct (list_elem_of_split us v Hv) as (l1 & l2 & ->). rewrite <- app_assoc in Hw. simpl in Hw.
      destruct (walk_split _ _ _ _ _ _ _ Hw) as (? & ? & H1 & _ & _).
      by destruct (matrix_walk _ _ _ _ _ _ _ Hm H1 Hi). }
  destruct (decide (D.[i].[j] = INT_MAX)) as [Einf|Hne].
  - left. split; [done|]. intros vs x Hw. by destruct (Hle vs x Hw).
  - right. split_and!; [done| |intros vs x Hw; by apply (Hle vs x)].
    destruct (r_walk _ _ Hr i j Hi Hj) as [?|(us & Hw & _)]; [done|eauto].
Qed.
End correctness.

(** *** Copying and printing *)

Lemma wp_copy_edges V m :
  zlen m = V -> (forall i, 0 <= i < V -> zlen m.[i] = V) ->
  copy_edges (MkMGraph V m) = Ok m.
Proof.
  intros Hl Hc. pose proof (zlen_nonneg m).
  cut (wp (copy_edges (MkMGraph V m)) (eq m)).
  { intros H'. apply wp_exists in H' as (D & -> & <-). done. }
  unfold copy_edges. simpl. apply (wp_for_up (fun i rows => rows = take (Z.to_nat i) m)); [done|..].
  - intros i rows Hi ->. wp_step.
    apply (wp_mono _ (fun row => row = m.[i])).
    + apply (wp_for_up (fun j row => row = take (Z.to_nat j) m.[i])); [done|..].
      * intros j row Hj ->. wp_step. apply (wp_cell V); [done..|]. apply wp_Ok.
        specialize (Hc i Hi). replace (Z.to_nat (j + 1)) with (S (Z.to_nat j)) by lia.
        symmetry. apply take_S_r. unfold aget, zlen in *. apply list_lookup_lookup_total_lt. lia.
      * intros row ->. specialize (Hc i Hi). rewrite Z.max_r by lia.
        apply take_ge. unfold zlen in Hc. lia.
    + intros row ->. apply wp_Ok. replace (Z.to_nat (i + 1)) with (S (Z.to_nat i)) by lia.
      symmetry. apply take_S_r. unfold aget, zlen in *. apply list_lookup_lookup_total_lt. lia.
  - intros rows ->. rewrite Z.max_r by lia. symmetry. apply take_ge. unfold zlen in Hl. lia.
Qed.

Lemma zlen_concat V (D : list (list Z)) :
  zlen D = V -> (forall i, 0 <= i < V -> zlen D.[i] = V) ->
  Forall (fun row => zlen row = V) D /\ zlen (concat D) = V * V.
Proof.
  intros Hl Hc. assert (Forall (fun row => zlen row = V) D) as HF.
  { apply Forall_aget. intros i Hi. apply Hc. lia. }
  split; [done|]. rewrite <- Hl at 1. clear Hl Hc. induction HF as [|row D Hrow HF IH]; [done|].
  simpl. rewrite zlen_app, zlen_cons, IH. lia.
Qed.

(** The one-dimensional copy is the rows one after the other. *)
Lemma wp_flatten V D :
  0 < V -> zlen D = V -> (forall i, 0 <= i < V -> zlen D.[i] = V) ->
  wp (for_up 0 V (fun i d1 =>
    for_up 0 V (fun j d1 =>
      let* d := cell D i j in
      wr d1 (i * V + j) (Some d)) d1) (uninit (V * V))) (fun d1 => contents d1 = Ok (concat D)).
Proof.
  intros HV Hl Hc. destruct (zlen_concat V D Hl Hc) as [HF Hlen].
  assert (zlen (uninit (V * V)) = V * V) as Hu by (apply zlen_replicate; nia).
  set (C := concat D) in *.
  assert (forall i j, 0 <= i < V -> 0 <= j < V -> 0 <= i * V + j < V * V /\ C.[i * V + j] = D.[i].[j]) as HC.
  { intros i j Hi Hj. rewrite <- Hlen. apply aget_concat; [done|lia|done]. }
  apply (wp_for_up (fun i d1 => zlen d1 = V * V /\ forall p, 0 <= p < i * V -> d1.[p] = Some C.[p])).
  - split; [done|intros; lia].
  - intros i d1 Hi [Hd1 Hp]. apply (wp_for_up (fun j d1 => zlen d1 = V * V /\
      forall p, 0 <= p < i * V + j -> d1.[p] = Some C.[p])).
    + by rewrite Z.add_0_r.
    + intros j d2 Hj [Hd2 Hp2]. wp_step. apply (wp_cell V); [done..|].
      destruct (HC i j Hi Hj) as [Hr Ec]. apply wp_wr; [lia|]. rewrite zlen_upd. split; [done|].
      intros p Hp'. rewrite aget_upd by lia. case_decide as Ep; [subst p; by rewrite Ec|].
      apply Hp2. lia.
    + rewrite Z.max_r by lia. intros d2 [Hd2 Hp2]. split; [done|]. intros p Hp'. apply Hp2. lia.
  - rewrite Z.max_r by lia. intros d1 [Hd1 Hp]. replace d1 with (map Some C); [apply contents_Some|].
    apply aget_ext; [rewrite zlen_map; lia|]. rewrite zlen_map, Hlen. intros p Hp'.
    rewrite Hp by done. by rewrite aget_map by lia.
Qed.

Lemma wp_print1d V D inp out :
  0 < V -> V * V <= INT_MAX -> zlen D = V -> (forall i, 0 <= i < V -> zlen D.[i] = V) ->
  wp (print1d (concat D) V (Console inp out)) (fun w => w = Console inp (out ++ matrix_table D)).
Proof.
  intros HV Hmax Hl Hc. destruct (zlen_concat V D Hl Hc) as [HF Hlen].
  set (line := fun row => concat (map entry row) ++ [PStr "\n"]).
  set (h := PStr "\nThe Distance matrix for Floyd - Warshall\n").
  assert (forall i j, 0 <= i < V -> 0 <= j < V ->
    0 <= i * V + j < V * V /\ (concat D).[i * V + j] = D.[i].[j]) as HC.
  { intros i j Hi Hj. rewrite <- Hlen. apply aget_concat; [done|lia|done]. }
  unfold print1d. apply (wp_for_up (fun i w => w = Console inp (out ++ h ::
    concat (map line (take (Z.to_nat i) D))))); [done|..].
  - intros i w Hi ->. wp_step. specialize (Hc i Hi).
    apply (wp_mono _ (fun w => w = Console inp ((out ++ h :: concat (map line (take (Z.to_nat i) D))) ++
      concat (map entry D.[i])))).
    + apply (wp_for_up (fun j w => w = Console inp ((out ++ h :: concat (map line (take (Z.to_nat i) D))) ++
        concat (map entry (take (Z.to_nat j) D.[i]))))).
      * by rewrite app_nil_r.
      * intros j w Hj ->. destruct (HC i j Hi Hj) as [Hr Ec]. wp_step. apply wp_int; [code_lia|].
        wp_step. apply wp_rd; [lia|]. rewrite Ec. apply wp_Ok. unfold printf. simpl.
        replace (Z.to_nat (j + 1)) with (S (Z.to_nat j)) by lia.
        rewrite (take_S_r D.[i] (Z.to_nat j) D.[i].[j]) by
          (unfold aget, zlen in *; apply list_lookup_lookup_total_lt; lia).
        rewrite map_app, concat_app. simpl. by rewrite app_nil_r, <- !app_assoc.
      * intros w ->. rewrite Z.max_r by lia. rewrite (take_ge D.[i]) by (unfold zlen in Hc; lia). done.
    + intros w ->. apply wp_Ok. unfold printf. simpl. f_equal.
      replace (Z.to_nat (i + 1)) with (S (Z.to_nat i)) by lia.
      rewrite (take_S_r D (Z.to_nat i) D.[i]) by
        (unfold aget, zlen in *; apply list_lookup_lookup_total_lt; lia).
      rewrite map_app, concat_app. simpl. unfold line at 3. by rewrite app_nil_r, <- !app_assoc.
  - intros w ->. rewrite Z.max_r by lia. rewrite take_ge by (unfold zlen in Hl; lia). done.
Qed.

(** C9. Floyd-Warshall.c is correct: for a graph of V > 0 vertices with
    weights between 0 and W and 0 on the diagonal, where 2 * V * W and
    V * V fit an int, the program ends without a fault and prints the matrix
    whose entry (i, j) is the least weight of a walk from i to j, or INF
    when there is none. *)
Theorem floyd_warshall_correct (V W : Z) (m : list (list Z)) inp out :
  0 < V -> 0 <= W -> V * V <= INT_MAX -> 2 * (V * W) < INT_MAX ->
  matrix_ok V W m -> (forall i, 0 <= i < V -> m.[i].[i] = 0) ->
  exists D,
    FloydWarshall (MkMGraph V m) (Console inp out) = Ok (Console inp (out ++ matrix_table D)) /\
    zlen D = V /\ forall i, 0 <= i < V -> distances (matrix_rel V m) V i D.[i].
Proof.
  intros HV HW HVV Hmax Hm Hdiag.
  cut (wp (FloydWarshall (MkMGraph V m) (Console inp out)) (fun w => exists D,
    w = Console inp (out ++ matrix_table D) /\ zlen D = V /\
    forall i, 0 <= i < V -> distances (matrix_rel V m) V i D.[i])).
  { intros H. apply wp_exists in H as (w & Ew & D & -> & H). eauto. }
  unfold FloydWarshall, vla, demand. cbn [vertexNum]. rewrite (proj2 (Z.ltb_lt _ _)) by lia. cbn [bind].
  rewrite wp_copy_edges by apply Hm. cbn [bind]. wp_step.
  apply (wp_for_up (fun k D => round V m k D)); [apply (round_start V W m); done|..].
  { intros k D Hk Hr. by apply (wp_round V W). }
  rewrite Z.max_r by lia. intros D Hr. pose proof (r_rows _ _ _ _ Hr) as Hl.
  pose proof (r_cols _ _ _ _ Hr) as Hc.
  wp_step. apply wp_int; [code_lia|]. wp_step. eapply wp_mono; [by apply wp_flatten|].
  intros d1 ->. cbn [bind]. eapply wp_mono; [by apply wp_print1d|].
  intros w ->. exists D. split_and!; [done..|]. intros i Hi. by apply (round_distances V W).
Qed.
End FloydWarshall.

Lemma floyd_warshall_correct_witness :
  exists D,
    FloydWarshall.FloydWarshall (MkMGraph 2 [[0; 7]; [INT_MAX; 0]]) (Console [] []) =
      Ok (Console [] ([] ++ FloydWarshall.matrix_table D)) /\
    zlen D = 2 /\ forall i, 0 <= i < 2 -> distances (matrix_rel 2 [[0; 7]; [INT_MAX; 0]]) 2 i D.[i].
Proof.
  apply (FloydWarshall.floyd_warshall_correct 2 7).
  - lia.
  - lia.
  - vm_compute. discriminate.
  - vm_compute. reflexivity.
  - split; [reflexivity|..].
    + intros u Hu. assert (u = 0 \/ u = 1) as [->| ->] by lia; reflexivity.
    + intros u v Hu Hv. assert (u = 0 \/ u = 1) as [->| ->] by lia;
        assert (v = 0 \/ v = 1) as [->| ->] by lia; vm_compute; intuition congruence.
  - intros i Hi. assert (i = 0 \/ i = 1) as [->| ->] by lia; reflexivity.
Defined.
