(* ===== verification/BST.v ===== *)
(** * Binary search trees

    algorithms/c/data_structures/binary_trees: binary_search_tree.c with its
    menu, and the traversals of recursive_traversals.c over the nodes of
    create_node.c.  A tree owns its nodes and no two pointers share one, so it
    is an inductive value whose [Leaf] is NULL.  Whether a malloc succeeds is
    an argument, since newNode uses its result unchecked. *)

From S2P Require Import Prelude Arrays.
From Stdlib Require Import Sorted.
Open Scope Z_scope.

Module BinarySearchTree.

Inductive node :=
  | Leaf
  | Node (left' right' : node) (data : Z).

#[export] Instance node_eq_dec : EqDecision node.
Proof. solve_decision. Defined.

Definition newNode (malloc_ok : bool) (data : Z) : res node :=
  if malloc_ok then Ok (Node Leaf Leaf data) else Fail NullDeref.

Fixpoint insert (malloc_ok : bool) (root : node) (data : Z) : res node :=
  match root with
  | Leaf => newNode malloc_ok data
  | Node l r d =>
      if data >? d then let* r := insert malloc_ok r data in Ok (Node l r d)
      else if data <? d then let* l := insert malloc_ok l data in Ok (Node l r d)
      else Ok root
  end.

(** The data of the node getMax returns.  The branch that recurs returns
    nothing, and every caller uses the result. *)
Definition getMax (root : node) : res Z :=
  match root with
  | Leaf => Fail NullDeref
  | Node _ Leaf d => Ok d
  | Node _ _ _ => Fail NoReturn
  end.

Fixpoint delete (root : node) (data : Z) : res node :=
  match root with
  | Leaf => Ok Leaf
  | Node l r d =>
      if data >? d then let* r := delete r data in Ok (Node l r d)
      else if data <? d then let* l := delete l data in Ok (Node l r d)
      else
        match l, r with
        | Leaf, Leaf => Ok Leaf
        | Leaf, _ => Ok r
        | _, Leaf => Ok l
        | _, _ =>
            let* max := getMax l in
            let* l := delete l max in
            Ok (Node l r max)
        end
  end.

Fixpoint find (root : node) (data : Z) : Z :=
  match root with
  | Leaf => 0
  | Node l r d => if data >? d then find r data else if data <? d then find l data else 1
  end.

Fixpoint height (root : node) : res Z :=
  match root with
  | Leaf => Ok 0
  | Node l r _ =>
      let* right_h := height r in
      let* left_h := height l in
      if right_h >? left_h then int (right_h + 1) else int (left_h + 1)
  end.

(** The nodes purge frees, by their data, in the order of the calls of
    [free]. *)
Fixpoint purge (root : node) : list Z :=
  match root with
  | Leaf => []
  | Node l r d => purge l ++ purge r ++ [d]
  end.

Definition line (d : Z) : list piece := [PStr "\t[ "; PInt d; PStr " ]\t"].

Fixpoint inOrder (root : node) (w : console) : console :=
  match root with
  | Leaf => w
  | Node l r d =>
      let w := inOrder l w in
      let w := printf (line d) w in
      inOrder r w
  end.

Definition menu : list piece :=
  [PStr "\n\n[1] Insert Node\n[2] Delete Node\n[3] Find a Node\n[4] Get current Height\n[5] Print Tree in Crescent Order\n[0] Quit\n"].

(** [scanf("%d", &x)]: at the end of the input the variable keeps its value. *)
Definition scan (x : Z) (w : console) : Z * console :=
  match input w with
  | z :: zs => (z, Console zs (output w))
  | [] => (x, w)
  end.

(** The [switch] of the event loop; [malloc_ok] is for the node of this turn. *)
Definition choose (malloc_ok : bool) (opt data : Z) (root : node) (w : console)
    : res (Z * node * console) :=
  if opt =? 1 then
    let w := printf [PStr "Enter the new node's value:\n"] w in
    let '(data, w) := scan data w in
    let* root := insert malloc_ok root data in
    Ok (data, root, w)
  else if opt =? 2 then
    let w := printf [PStr "Enter the value to be removed:\n"] w in
    match root with
    | Leaf => Ok (data, root, printf [PStr "Tree is already empty!\n"] w)
    | _ =>
        let '(data, w) := scan data w in
        let* root := delete root data in
        Ok (data, root, w)
    end
  else if opt =? 3 then
    let w := printf [PStr "Enter the searched value:\n"] w in
    let '(data, w) := scan data w in
    Ok (data, root, if negb (find root data =? 0) then printf [PStr "The value is in the tree.\n"] w
                    else printf [PStr "The value is not in the tree.\n"] w)
  else if opt =? 4 then
    let* h := height root in
    Ok (data, root, printf [PStr "Current height of the tree is: "; PInt h; PStr "\n"] w)
  else if opt =? 5 then Ok (data, root, inOrder root w)
  else Ok (data, root, w).

(** The event loop; its turns are counted, which tells the allocations apart. *)
Definition event_loop (malloc_ok : nat -> bool) (fuel : nat) : Z * Z * node * nat * console -> res (Z * Z * node * nat * console) :=
  while fuel (fun '(opt, _, _, _, _) => Ok (negb (opt =? 0)))
    (fun '(opt, data, root, turn, w) =>
       let w := printf menu w in
       let '(opt, w) := scan opt w in
       let* (data, root, w) := choose (malloc_ok turn) opt data root w in
       Ok (opt, data, root, S turn, w)).

(** At most [fuel] turns of the program.  The result is the console and the nodes freed at the end. *)
Definition main (malloc_ok : nat -> bool) (fuel : nat) (w : console) : res (console * list Z) :=
  let* (_, _, root, _, w) := event_loop malloc_ok fuel (-1, 0, Leaf, O, w) in
  Ok (w, purge root).

(** ** The set a tree stands for *)



(** The keys from left to right. *)
Fixpoint in_order (t : node) : list Z :=
  match t with
  | Leaf => []
  | Node l r d => in_order l ++ d :: in_order r
  end.

(** *** Insertion, search and deletion *)








(** *** Traversals and the height *)








(** ** The sessions of an ordered set *)



Section session.
Context (malloc_ok : nat -> bool) (typed : list Z).









End session.







(** With the input at its end the menu is printed forever. *)
Lemma end_of_input_loops malloc_ok fuel : main malloc_ok fuel (Console [] []) = Fail NoFuel.
Proof.
  unfold main. enough (forall n o, event_loop malloc_ok fuel (-1, 0, Leaf, n, Console [] o) = Fail NoFuel) as -> by done.
  induction fuel as [|fuel IH]; intros n o; [done|]. unfold event_loop. rewrite while_step. cbn [bind negb Z.eqb scan printf input output choose]. apply IH.
Qed.

(** Four keys are enough to meet the missing return: 5 has two children and
    the left one, 3, has 4 on its right. *)
Lemma delete_no_return :
  (let* t := insert true Leaf 5 in
   let* t := insert true t 3 in
   let* t := insert true t 4 in
   let* t := insert true t 8 in
   delete t 5) = Fail NoReturn.
Proof. reflexivity. Qed.

End BinarySearchTree.

(** * Traversals *)

Module Traversals.

(** struct node of create_node.c. *)
Inductive node :=
  | Leaf
  | Node (leftNode : node) (data : Z) (rightNode : node).

Definition newNode (malloc_ok : bool) (data : Z) : res node :=
  if malloc_ok then Ok (Node Leaf data Leaf) else Fail NullDeref.

Definition show (data : Z) : list piece := [PStr "\t"; PInt data; PStr "\t"].

Fixpoint inOrderTraversal (node : node) (w : console) : console :=
  match node with
  | Leaf => w
  | Node l d r => inOrderTraversal r (printf (show d) (inOrderTraversal l w))
  end.

Fixpoint preOrderTraversal (node : node) (w : console) : console :=
  match node with
  | Leaf => w
  | Node l d r => preOrderTraversal r (preOrderTraversal l (printf (show d) w))
  end.

Fixpoint postOrderTraversal (node : node) (w : console) : console :=
  match node with
  | Leaf => w
  | Node l d r => printf (show d) (postOrderTraversal r (postOrderTraversal l w))
  end.

(** The orders themselves. *)
Fixpoint in_order (t : node) : list Z :=
  match t with Leaf => [] | Node l d r => in_order l ++ d :: in_order r end.

Fixpoint pre_order (t : node) : list Z :=
  match t with Leaf => [] | Node l d r => d :: pre_order l ++ pre_order r end.

Fixpoint post_order (t : node) : list Z :=
  match t with Leaf => [] | Node l d r => post_order l ++ post_order r ++ [d] end.

Lemma printf_app p q w : printf q (printf p w) = printf (p ++ q) w.
Proof. unfold printf. simpl. by rewrite <- app_assoc. Qed.

Lemma inOrderTraversal_spec t w : inOrderTraversal t w = printf (in_order t ≫= show) w.
Proof.
  revert w. induction t as [|l IHl d r IHr]; intros [i o]; simpl;
    [unfold printf; simpl; by rewrite app_nil_r|].
  rewrite IHl, IHr, !printf_app, bind_app. simpl. by rewrite <- ?app_assoc.
Qed.

Lemma preOrderTraversal_spec t w : preOrderTraversal t w = printf (pre_order t ≫= show) w.
Proof.
  revert w. induction t as [|l IHl d r IHr]; intros [i o]; simpl;
    [unfold printf; simpl; by rewrite app_nil_r|].
  rewrite IHl, IHr, !printf_app, bind_app. simpl. by rewrite <- ?app_assoc.
Qed.

Lemma postOrderTraversal_spec t w : postOrderTraversal t w = printf (post_order t ≫= show) w.
Proof.
  revert w. induction t as [|l IHl d r IHr]; intros [i o]; simpl;
    [unfold printf; simpl; by rewrite app_nil_r|].
  rewrite IHl, IHr, !printf_app, !bind_app. simpl. by rewrite <- ?app_assoc.
Qed.

Lemma length_orders t : length (pre_order t) = length (in_order t).
Proof. induction t as [|l IHl d r IHr]; simpl; [done|]. rewrite !length_app. simpl. lia. Qed.

Lemma show_inj l k : l ≫= show = k ≫= show -> l = k.
Proof. revert k. induction l as [|x l IH]; intros [|y k]; simpl; [done..|]. intros [= -> H]. f_equal. auto. Qed.

(** With distinct keys, the in-order and the pre-order lists determine the
    tree: the first of the pre-order splits the in-order. *)
Lemma orders_determine t u :
  NoDup (in_order t) -> in_order t = in_order u -> pre_order t = pre_order u -> t = u.
Proof.
  revert u. induction t as [|l IHl d r IHr]; intros [|l' d' r']; simpl; intros Hnd Hin Hpre; [done..|].
  injection Hpre as <- Hpre. apply NoDup_app in Hnd as (Hl & Hdis & Hnd).
  assert (d ∉ in_order l) as Hdl by (intros H; apply (Hdis d H); set_solver).
  apply NoDup_cons in Hnd as [Hdr Hr].
  assert (in_order l = in_order l' /\ in_order r = in_order r') as [El Er].
  { clear -Hin Hdl Hdr. revert Hin Hdl. generalize (in_order l'). induction (in_order l) as [|x a IH];
      intros [|y b]; simpl; intros E Hx; injection E.
    - by intros ->.
    - intros E2 _. destruct Hdr. rewrite E2. set_solver.
    - intros _ ->. destruct Hx. set_solver.
    - intros E' ->. destruct (IH b) as [-> ->]; [done| |done]. set_solver. }
  assert (length (pre_order l) = length (pre_order l')) as Elen by (by rewrite !length_orders, El).
  apply app_inj_1 in Hpre as [Pl Pr]; [|done]. f_equal; auto.
Qed.

(** The traversals of recursive_traversals.c print each node once, in
    left-root-right, root-left-right and left-right-root order; and for a tree
    without duplicates the in-order and pre-order printouts together
    determine the tree. *)
Theorem traversals_print_orders t w :
  inOrderTraversal t w = printf (in_order t ≫= show) w /\
  preOrderTraversal t w = printf (pre_order t ≫= show) w /\
  postOrderTraversal t w = printf (post_order t ≫= show) w /\
  (NoDup (in_order t) -> forall u,
     inOrderTraversal t w = inOrderTraversal u w ->
     preOrderTraversal t w = preOrderTraversal u w -> t = u).
Proof.
  split_and!; [apply inOrderTraversal_spec|apply preOrderTraversal_spec|apply postOrderTraversal_spec|].
  intros Hnd u. rewrite !inOrderTraversal_spec, !preOrderTraversal_spec. unfold printf.
  intros [= Hi] [= Hp]. apply app_inv_head, show_inj in Hi, Hp. by apply orders_determine.
Qed.

Lemma traversals_print_orders_witness :
  NoDup (in_order (Node (Node Leaf 1 Leaf) 2 (Node Leaf 3 Leaf))) /\
  postOrderTraversal (Node (Node Leaf 1 Leaf) 2 (Node Leaf 3 Leaf)) (Console [] []) =
    printf ([1; 3; 2] ≫= show) (Console [] []) /\
  forall u,
    inOrderTraversal (Node (Node Leaf 1 Leaf) 2 (Node Leaf 3 Leaf)) (Console [] []) =
      inOrderTraversal u (Console [] []) ->
    preOrderTraversal (Node (Node Leaf 1 Leaf) 2 (Node Leaf 3 Leaf)) (Console [] []) =
      preOrderTraversal u (Console [] []) ->
    Node (Node Leaf 1 Leaf) 2 (Node Leaf 3 Leaf) = u.
Proof.
  destruct (traversals_print_orders (Node (Node Leaf 1 Leaf) 2 (Node Leaf 3 Leaf)) (Console [] []))
    as (_ & _ & Hpost & Hdet).
  assert (NoDup (in_order (Node (Node Leaf 1 Leaf) 2 (Node Leaf 3 Leaf)))) as Hnd
    by (apply (bool_decide_unpack _); vm_compute; exact I).
  split; [exact Hnd|]. split; [exact Hpost|]. exact (Hdet Hnd).
Defined.

End Traversals.
