(* ===== verification/LinkedLists.v ===== *)
(** * Singly linked lists

    The four programs of algorithms/c on nodes with one link: list/list.c
    with its example, and mergeLinkedLists.c, singly_link_list_deletion.c and
    stack_using_linkedlists.c of data_structures/linked_list.  Nodes live in
    the heap of Heap.v, so the programs' pointer surgery, the sharing of nodes
    and the freed blocks are those of the code.  malloc may fail; none of
    these programs checks it. *)

From S2P Require Import Prelude Arrays Heap.
Open Scope Z_scope.

(** A node of any of the programs: the integer and the link. *)
Record node := MkNode { data : Z; next : ptr }.

(** ** The list between two pointers *)

(** [seg m p cs q]: following the links from [p] visits the nodes [cs] (their
    addresses and integers) and then arrives at [q]. *)
Fixpoint seg (m : gmap loc node) (p : ptr) (cs : list (loc * Z)) (q : ptr) : Prop :=
  match cs with
  | [] => p = q
  | (l, x) :: cs => p = Some l /\ exists n, m !! l = Some (MkNode x n) /\ seg m n cs q
  end.

(** The distinct nodes of a whole list. *)
Definition list_at (m : gmap loc node) (p : ptr) (cs : list (loc * Z)) : Prop :=
  seg m p cs None /\ NoDup cs.*1.

Lemma seg_ext m m' p cs q :
  (forall l, l ∈ cs.*1 -> m' !! l = m !! l) -> seg m p cs q -> seg m' p cs q.
Proof.
  revert p. induction cs as [|[l x] cs IH]; intros p Hm; simpl; [done|].
  intros (-> & n & Hl & Hs). split; [done|]. exists n. rewrite Hm by (simpl; left).
  split; [done|]. apply IH; [|done]. intros k Hk. apply Hm. by right.
Qed.

Lemma seg_insert m p cs q l b : l ∉ cs.*1 -> seg m p cs q -> seg (<[l := b]> m) p cs q.
Proof.
  intros Hl. apply seg_ext. intros k Hk. apply lookup_insert_ne. by intros ->.
Qed.

Lemma seg_delete m p cs q l : l ∉ cs.*1 -> seg m p cs q -> seg (delete l m) p cs q.
Proof.
  intros Hl. apply seg_ext. intros k Hk. apply lookup_delete_ne. by intros ->.
Qed.

Lemma seg_app m p cs cs' q : seg m p (cs ++ cs') q <-> exists n, seg m p cs n /\ seg m n cs' q.
Proof.
  revert p. induction cs as [|[l x] cs IH]; intros p; simpl.
  - split; [intros H; by exists p|]. by intros (n & -> & H).
  - split.
    + intros (-> & n & Hl & Hs). apply IH in Hs as (k & H1 & H2). exists k. split; [|done].
      split; [done|]. by exists n.
    + intros (k & (-> & n & Hl & H1) & H2). split; [done|]. exists n. split; [done|].
      apply IH. by exists k.
Qed.

Lemma seg_alloc m p cs q l : seg m p cs q -> l ∈ cs.*1 -> is_Some (m !! l).
Proof.
  revert p. induction cs as [|[k x] cs IH]; intros p; simpl; [by rewrite elem_of_nil|].
  intros (-> & n & Hk & Hs). rewrite elem_of_cons. intros [->|Hl]; eauto.
Qed.

Lemma seg_fresh m p cs q : seg m p cs q -> fresh_loc m ∉ cs.*1.
Proof. intros Hs Hin. destruct (seg_alloc _ _ _ _ _ Hs Hin). by rewrite fresh_loc_fresh in H. Qed.

(** A list has no more nodes than the heap has blocks: the fuel of the
    traversals is enough. *)
Lemma list_at_length m p cs : list_at m p cs -> (length cs <= size m)%nat.
Proof.
  intros [Hs Hnd]. rewrite <- (length_fmap fst cs), <- size_dom.
  rewrite <- (size_list_to_set (C := gset loc)) by done. apply subseteq_size.
  intros l Hl. apply elem_of_list_to_set in Hl. apply elem_of_dom. by eapply seg_alloc.
Qed.

Lemma list_at_nil m p : list_at m p [] <-> p = None.
Proof. split; [by intros [H _]|]. intros ->. by split; [|constructor]. Qed.

Lemma list_at_null m p cs : list_at m p cs -> is_null p = true -> cs = [].
Proof. destruct cs as [|[l x] cs]; [done|]. by intros [[-> _] _]. Qed.

Lemma list_at_cons m p cs : list_at m p cs -> is_null p = false ->
  exists l x n cs', p = Some l /\ cs = (l, x) :: cs' /\ m !! l = Some (MkNode x n) /\ list_at m n cs' /\ (l ∉ cs'.*1).
Proof.
  destruct cs as [|[l x] cs]; [by intros [-> _]|].
  intros [(-> & n & Hl & Hs) Hnd] _. apply NoDup_cons in Hnd as [Hn Hnd]. by exists l, x, n, cs.
Qed.

(** Linking a fresh node in front. *)
Lemma list_at_push m p cs x :
  list_at m p cs ->
  list_at (<[fresh_loc m := MkNode x p]> m) (Some (fresh_loc m)) ((fresh_loc m, x) :: cs).
Proof.
  intros [Hs Hnd]. pose proof (seg_fresh _ _ _ _ Hs) as Hf. split.
  - split; [done|]. exists p. rewrite lookup_insert_eq. split; [done|]. by apply seg_insert.
  - by constructor.
Qed.

(** Freeing the first node. *)
Lemma list_at_pop m l x n cs :
  m !! l = Some (MkNode x n) -> list_at m n cs -> l ∉ cs.*1 -> list_at (delete l m) n cs.
Proof. intros Hl [Hs Hnd] Hn. split; [by apply seg_delete|done]. Qed.

(** A traversal that prints each node. *)
Definition walk (show : Z -> list piece) (h : heap node) (p : ptr) (w : console) : res console :=
  loop (S (size (cells h))) (fun '(p, w) =>
    if is_null p then Ok (inr w) else
    let* n := load p h in
    Ok (inl (next n, printf (show (data n)) w))) (p, w).

Lemma walk_spec show h p cs w :
  list_at (cells h) p cs -> walk show h p w = Ok (printf (cs.*2 ≫= show) w).
Proof.
  intros Hl. unfold walk. pose proof (list_at_length _ _ _ Hl) as Hlen.
  assert (forall k, (length cs < k)%nat -> loop k (fun '(p, w) =>
    if is_null p then Ok (inr w) else
    let* n := load p h in
    Ok (inl (next n, printf (show (data n)) w))) (p, w) = Ok (printf (cs.*2 ≫= show) w)) as H.
  2: { apply H. lia. }
  clear Hlen. destruct Hl as [Hs _]. revert p w Hs.
  induction cs as [|[l x] cs IH]; intros p [i o] Hs k Hk; (destruct k as [|k]; [simpl in Hk; lia|]).
  - simpl in Hs. subst. unfold printf. simpl. by rewrite app_nil_r.
  - destruct Hs as (-> & n & Hl & Hs). simpl. rewrite (load_Ok _ _ _ Hl). simpl.
    rewrite IH; [|done|simpl in Hk; lia]. unfold printf. simpl. by rewrite <- app_assoc.
Qed.

(** * list/list.c *)

Module LinkList.

Definition OK : Z := 0.
Definition ERROR : Z := -1.

Section ops.
Context (malloc_ok : nat -> bool).

(** The heap, [*ppHead] and the console. *)
Record state := State { hp : heap node; head : ptr; con : console }.

(** The search loop: the node at [location], NULL past the end, and the
    counter. *)
Definition seek (h : heap node) (p : ptr) (location : Z) : res (ptr * Z) :=
  while (S (size (cells h))) (fun '(p, i) => Ok (negb (is_null p) && (i <? location)))
    (fun '(p, i) => let* n := load p h in let* i := int (i + 1) in Ok (next n, i)) (p, 1).

Definition insert (eVal location : Z) (st : state) : res (Z * state) :=
  let* (p, i) := seek (hp st) (head st) location in
  if is_null p || (i >? location) then
    Ok (ERROR, State (hp st) (head st) (printf [PStr "the element is inexistence \n"] (con st)))
  else
    let '(buf, h) := malloc malloc_ok (MkNode 0 None) (hp st) in
    let* n := load p h in
    let* h := store buf (MkNode eVal (next n)) h in
    let* n := load p h in
    let* h := store p (MkNode (data n) buf) h in
    Ok (OK, State h (head st) (con st)).

Definition addToTail (eVal : Z) (st : state) : res (Z * state) :=
  let '(new, h) := malloc malloc_ok (MkNode 0 None) (hp st) in
  let* h := store new (MkNode eVal None) h in
  if is_null (head st) then
    Ok (OK, State h new (printf [PStr "it's the head of list \n"] (con st)))
  else
    let* buf := loop (S (size (cells h))) (fun buf =>
      let* n := load buf h in
      if negb (is_null (next n)) then Ok (inl (next n)) else Ok (inr buf)) (head st) in
    let* n := load buf h in
    let* h := store buf (MkNode (data n) new) h in
    Ok (OK, State h (head st) (con st)).

(** main of example.c. *)
Definition main (w : console) : res console :=
  let* (st, _) := for_up 0 5 (fun _ '(st, elem) =>
    let* (_, st) := addToTail elem st in
    let* elem := int (elem + 5) in
    Ok (st, elem)) (State (Heap ∅ 0) None w, 10) in
  let* (_, w) := for_up 0 5 (fun i '(list, w) =>
    let* n := load list (hp st) in
    Ok (next n, printf [PStr "the list["; PInt i; PStr "] val:"; PInt (data n); PStr " \n"] w))
    (head st, con st) in
  Ok w.

(** ** The list the operations work on *)

Inductive request := Insert (eVal location : Z) | AddToTail (eVal : Z).

Definition serve (r : request) (st : state) : res (Z * state) :=
  match r with
  | Insert v k => insert v k st
  | AddToTail v => addToTail v st
  end.

Fixpoint serve_all (rs : list request) (st : state) : res (list Z * state) :=
  match rs with
  | [] => Ok ([], st)
  | r :: rs =>
      let* (c, st) := serve r st in
      let* (cs, st) := serve_all rs st in
      Ok (c :: cs, st)
  end.

(** The same on the list of integers: the code returned, the message printed
    and the new list.  [Insert v k] puts [v] behind the k-th element, counted
    from one. *)
Definition answer (r : request) (xs : list Z) : Z * list piece * list Z :=
  match r with
  | Insert v k =>
      if (1 <=? k) && (k <=? zlen xs)
      then (OK, [], take (Z.to_nat k) xs ++ v :: drop (Z.to_nat k) xs)
      else (ERROR, [PStr "the element is inexistence \n"], xs)
  | AddToTail v =>
      (OK, match xs with [] => [PStr "it's the head of list \n"] | _ => [] end, xs ++ [v])
  end.

Fixpoint answer_all (rs : list request) (xs : list Z) : list Z * list piece * list Z :=
  match rs with
  | [] => ([], [], xs)
  | r :: rs =>
      let '(c, out, xs) := answer r xs in
      let '(cs, out', xs) := answer_all rs xs in
      (c :: cs, out ++ out', xs)
  end.

(** The state holds the list. *)
Definition holds (st : state) (xs : list Z) : Prop :=
  exists cs, list_at (cells (hp st)) (head st) cs /\ cs.*2 = xs.

(** The two steps of an insertion behind a node. *)
Lemma list_at_insert m p cs1 l x cs2 v n :
  list_at m p (cs1 ++ (l, x) :: cs2) -> m !! l = Some (MkNode x n) ->
  list_at (<[l := MkNode x (Some (fresh_loc m))]> (<[fresh_loc m := MkNode v n]> m)) p
    (cs1 ++ (l, x) :: (fresh_loc m, v) :: cs2).
Proof.
  intros [Hs Hnd] Hl. pose proof (seg_fresh _ _ _ _ Hs) as Hf.
  assert (fresh_loc m <> l) as Hfl by (intros E; rewrite <- E, fresh_loc_fresh in Hl; done).
  rewrite fmap_app in Hf, Hnd. simpl in Hf, Hnd. rewrite not_elem_of_app, not_elem_of_cons in Hf.
  apply NoDup_app in Hnd as (Hn1 & Hdis & Hn2). apply NoDup_cons in Hn2 as [Hn2 Hnd2].
  assert (l ∉ cs1.*1) as Hl1 by (intros H; apply (Hdis _ H); left).
  apply seg_app in Hs as (q & Hs1 & -> & n' & Hl' & Hs2). rewrite Hl in Hl'. injection Hl' as <-.
  split.
  - apply seg_app. exists (Some l). split; [apply seg_insert, seg_insert; tauto|].
    split; [done|]. eexists. rewrite lookup_insert_eq. split; [done|]. simpl. split; [done|].
    exists n. rewrite lookup_insert_ne, lookup_insert_eq by done. split; [done|].
    apply seg_insert, seg_insert; tauto.
  - rewrite fmap_app. simpl. apply NoDup_app. split_and!; [done| |].
    + intros k Hk. specialize (Hdis k Hk). rewrite !not_elem_of_cons in *.
      split_and!; [tauto| |tauto]. intros ->. tauto.
    + repeat constructor; [rewrite not_elem_of_cons; split; [done|tauto]|tauto|done].
Qed.

(** Where the search loop stops. *)
Lemma wp_seek h p cs k :
  list_at (cells h) p cs -> zlen cs < INT_MAX ->
  wp (seek h p k) (fun '(q, i) =>
    if decide (1 <= k <= zlen cs) then
      exists cs1 l x cs2, cs = cs1 ++ (l, x) :: cs2 /\ zlen cs1 = k - 1 /\ q = Some l /\ i = k
    else q = None \/ k < i).
Proof.
  intros Hl Hlen. pose proof (list_at_length _ _ _ Hl) as Hsz. destruct Hl as [Hs Hnd].
  apply (wp_while (fun '(q, i) => exists cs1 cs2, cs = cs1 ++ cs2 /\ zlen cs1 = i - 1 /\
    seg (cells h) q cs2 None /\ (i <= k \/ i = 1)) (fun '(q, i) => zlen cs - i + 1)).
  - exists [], cs. split_and!; [done..|by right].
  - unfold zlen. lia.
  - intros [q i] (cs1 & cs2 & -> & Hi & _). rewrite zlen_app. pose proof (zlen_nonneg cs2). lia.
  - intros [q i] (cs1 & cs2 & -> & Hi & Hq & Hik). simpl. pose proof (zlen_nonneg cs1).
    rewrite zlen_app in Hlen |- *. destruct cs2 as [|[l x] cs2].
    + simpl in Hq. subst q. simpl. change (zlen (@nil (loc * Z))) with 0.
      rewrite decide_False by lia. by left.
    + destruct Hq as (-> & n & Hq & Hs2). simpl. rewrite zlen_cons in *. pose proof (zlen_nonneg cs2).
      destruct (Z.ltb_spec i k); simpl.
      * rewrite (load_Ok _ _ _ Hq). simpl. wp_step. wp_step. split; [|lia].
        exists (cs1 ++ [(l, x)]), cs2. rewrite <- app_assoc, zlen_app.
        change (zlen [(l, x)]) with 1. split_and!; [done|lia|done|lia].
      * case_decide; [|right; lia]. exists cs1, l, x, cs2. split_and!; [done|lia|done|lia].
Qed.

(** What a request must do to a state that holds [xs]. *)
Definition answers (ans : Z * list piece * list Z) (st st' : state) (c : Z) : Prop :=
  let '(c0, out, xs) := ans in c = c0 /\ con st' = printf out (con st) /\ holds st' xs.

(** The only way to fail: malloc returned NULL. *)
Definition no_memory (f : fault) : Prop := f = NullDeref /\ exists n, malloc_ok n = false.

Lemma printf_nil w : printf [] w = w.
Proof. destruct w. unfold printf. simpl. by rewrite app_nil_r. Qed.

Lemma answer_inside v k cs1 x cs2 :
  zlen cs1 = k - 1 -> answer (Insert v k) (cs1 ++ x :: cs2) = (OK, [], cs1 ++ x :: v :: cs2).
Proof.
  intros Hk. simpl. rewrite zlen_app, zlen_cons. pose proof (zlen_nonneg cs1). pose proof (zlen_nonneg cs2).
  rewrite (proj2 (Z.leb_le 1 k)), (proj2 (Z.leb_le k _)) by lia. simpl.
  replace (Z.to_nat k) with (length (cs1 ++ [x])) by (rewrite length_app; unfold zlen in *; simpl; lia).
  replace (cs1 ++ x :: cs2) with ((cs1 ++ [x]) ++ cs2) by (by rewrite <- app_assoc).
  rewrite take_app_length, drop_app_length. by rewrite <- app_assoc.
Qed.

Lemma answer_outside v k xs :
  ~ (1 <= k <= zlen xs) -> answer (Insert v k) xs = (ERROR, [PStr "the element is inexistence \n"], xs).
Proof. intros Hk. simpl. destruct (Z.leb_spec 1 k), (Z.leb_spec k (zlen xs)); simpl; [lia|done..]. Qed.

#[local] Arguments answer r xs : simpl never.

Lemma runs_insert v k st xs :
  holds st xs -> zlen xs < INT_MAX ->
  runs (insert v k st) no_memory (fun '(c, st') => answers (answer (Insert v k) xs) st st' c).
Proof.
  destruct st as [h p w]. intros (cs & Hl & <-) Hlen. simpl in Hl.
  assert (zlen cs.*2 = zlen cs) as Hz by apply zlen_map. rewrite Hz in Hlen.
  unfold insert. apply runs_bind, wp_runs. simpl.
  eapply wp_mono; [by apply (wp_seek h p cs k)|]. intros [q i] Hq. case_decide as Hk.
  - destruct Hq as (cs1 & l & x & cs2 & -> & Hc & -> & ->).
    rewrite fmap_app, fmap_cons, answer_inside by (rewrite <- Hc; apply zlen_map).
    rewrite Z.gtb_ltb, Z.ltb_irrefl. simpl.
    destruct Hl as [Hs Hnd]. pose proof Hs as Hs'. apply seg_app in Hs' as (? & _ & -> & n & Hn & _).
    unfold malloc. destruct (malloc_ok (calls h)) eqn:Em; simpl.
    2: { erewrite load_Ok by (simpl; exact Hn). split; [done|]. eauto. }
    assert (fresh_loc (cells h) <> l) as Hfl by (intros E; rewrite <- E, fresh_loc_fresh in Hn; done).
    erewrite load_Ok by (simpl; rewrite lookup_insert_ne by done; exact Hn). simpl.
    erewrite store_Ok by (simpl; apply lookup_insert_eq). simpl. rewrite insert_insert_eq.
    erewrite load_Ok by (simpl; rewrite lookup_insert_ne by done; exact Hn). simpl.
    erewrite store_Ok by (simpl; rewrite lookup_insert_ne by done; exact Hn). simpl.
    split_and!; [done|by rewrite printf_nil|]. eexists. split; [by apply list_at_insert|].
    by rewrite fmap_app.
  - rewrite answer_outside by (by rewrite Hz). replace (is_null q || (i >? k)) with true.
    + split_and!; [done..|]. by exists cs.
    + destruct Hq as [->|Hq]; [done|]. rewrite Z.gtb_ltb, (proj2 (Z.ltb_lt _ _)) by done.
      by rewrite orb_true_r.
Qed.

(** The last node of a list that has one. *)
Lemma wp_last (h : heap node) p cs l x fuel :
  seg (cells h) p (cs ++ [(l, x)]) None -> (length cs < fuel)%nat ->
  loop fuel (fun buf =>
    let* n := load buf h in
    if negb (is_null (next n)) then Ok (inl (next n)) else Ok (inr buf)) p = Ok (Some l).
Proof.
  revert p fuel. induction cs as [|[k y] cs IH]; intros p [|fuel] Hs Hf; simpl in Hf; try lia.
  - destruct Hs as (-> & n & Hl & Hn). simpl in Hn. subst n. simpl. by rewrite (load_Ok _ _ _ Hl).
  - destruct Hs as (-> & n & Hk & Hs). simpl. rewrite (load_Ok _ _ _ Hk). simpl.
    replace (is_null n) with false by (destruct cs as [|[]]; by destruct Hs as [-> _]). simpl.
    apply IH; [done|lia].
Qed.

Lemma runs_addToTail v st xs :
  holds st xs ->
  runs (addToTail v st) no_memory (fun '(c, st') => answers (answer (AddToTail v) xs) st st' c).
Proof.
  destruct st as [h p w]. intros (cs & Hl & <-). simpl in Hl.
  unfold addToTail, malloc. cbn [hp head con].
  destruct (malloc_ok (calls h)) eqn:Em; cbn [cells calls].
  2: { split; [done|]. eauto. }
  pose proof (list_at_length _ _ _ Hl) as Hsz. destruct Hl as [Hs Hnd].
  erewrite store_Ok by (simpl; apply lookup_insert_eq). cbn [bind cells calls]. rewrite insert_insert_eq.
  destruct (is_null p) eqn:Ep.
  - rewrite (list_at_null _ _ _ (conj Hs Hnd) Ep) in *. split_and!; [done..|].
    exists [(fresh_loc (cells h), v)]. split; [|done]. apply list_at_push. by apply list_at_nil.
  - destruct (exists_last_or cs) as [->|(cs1 & [l x] & ->)]; [simpl in Hs; by subst p|].
    assert (forall k, k ∈ (cs1 ++ [(l, x)]).*1 -> k <> fresh_loc (cells h)) as Hf.
    { intros k Hk ->. by apply (seg_fresh _ _ _ _ Hs). }
    assert (seg (<[fresh_loc (cells h) := MkNode v None]> (cells h)) p (cs1 ++ [(l, x)]) None) as Hs'.
    { apply seg_insert; [|done]. by apply seg_fresh in Hs. }
    rewrite (wp_last (Heap (<[fresh_loc (cells h) := MkNode v None]> (cells h)) (S (calls h))) p cs1 l x);
      [|done|rewrite map_size_insert_None by apply fresh_loc_fresh; rewrite length_app in Hsz; simpl in *; lia].
    pose proof Hs as Hl. apply seg_app in Hl as (? & _ & -> & n & Hl & [= ->]).
    assert (l <> fresh_loc (cells h)) as Hfl by (apply Hf; rewrite fmap_app; set_solver).
    simpl. erewrite load_Ok by (simpl; rewrite lookup_insert_ne by done; exact Hl). simpl.
    erewrite store_Ok by (simpl; rewrite lookup_insert_ne by done; exact Hl). simpl.
    unfold answers, answer.
    split_and!; [done|by destruct cs1; simpl; rewrite printf_nil|].
    exists (cs1 ++ [(l, x); (fresh_loc (cells h), v)]).
    split; [by apply list_at_insert|]. by rewrite !fmap_app, <- app_assoc.
Qed.

Lemma answer_length r xs : zlen (answer r xs).2 <= zlen xs + 1.
Proof.
  destruct r as [v k|v]; simpl.
  - unfold answer. destruct (_ && _) eqn:E; simpl; [|lia]. unfold zlen.
    rewrite length_app, length_take, length_cons, length_drop. lia.
  - unfold answer. simpl. rewrite zlen_app. change (zlen [v]) with 1. lia.
Qed.

Lemma runs_serve_all rs st xs :
  holds st xs -> zlen xs + zlen rs <= INT_MAX ->
  runs (serve_all rs st) no_memory (fun '(cs, st') =>
    let '(cs0, out, xs') := answer_all rs xs in
    cs = cs0 /\ con st' = printf out (con st) /\ holds st' xs').
Proof.
  revert st xs. induction rs as [|r rs IH]; intros st xs Hst Hlen.
  { simpl. by rewrite printf_nil. }
  rewrite zlen_cons in Hlen. pose proof (zlen_nonneg rs). pose proof (answer_length r xs) as Hans.
  cbn [serve_all answer_all]. apply runs_bind.
  eapply runs_mono with (P := fun '(c, st') => answers (answer r xs) st st' c); [|done|].
  { destruct r; [apply runs_insert; [done|lia]|by apply runs_addToTail]. }
  intros [c st1]. destruct (answer r xs) as [[c0 out] xs1]. simpl in Hans. intros (-> & Hcon & Hst1).
  apply runs_bind. eapply runs_mono; [apply IH; [exact Hst1|lia]|done|]. intros [cs st2].
  destruct (answer_all rs xs1) as [[cs0 out'] xs2]. intros (-> & Hcon2 & Hst2). simpl.
  split_and!; [done| |done]. rewrite Hcon2, Hcon. unfold printf. simpl. by rewrite <- app_assoc.
Qed.
End ops.

(** list.c implements insertion behind a position and appending: any
    sequence of calls on an empty list returns the codes, prints the messages
    and leaves the list that the same requests give on a plain list, location
    errors included, unless a malloc fails, which is the only fault. *)
Theorem list_requests_correct malloc_ok rs w :
  zlen rs <= INT_MAX ->
  runs (serve_all malloc_ok rs (State (Heap ∅ 0) None w)) (no_memory malloc_ok) (fun '(cs, st) =>
    let '(cs0, out, xs) := answer_all rs [] in
    cs = cs0 /\ con st = printf out w /\
    exists nodes, list_at (cells (hp st)) (head st) nodes /\ nodes.*2 = xs).
Proof.
  intros Hlen. apply (runs_serve_all malloc_ok rs (State (Heap ∅ 0) None w) []); [|exact Hlen].
  exists []. split; [|done]. by apply list_at_nil.
Qed.

Lemma list_requests_correct_witness :
  answer_all [AddToTail 1; AddToTail 3; Insert 2 1; Insert 9 7] [] =
    ([0; 0; 0; -1], [PStr "it's the head of list \n"; PStr "the element is inexistence \n"], [1; 2; 3]) /\
  runs (serve_all (fun _ => true) [AddToTail 1; AddToTail 3; Insert 2 1; Insert 9 7]
          (State (Heap ∅ 0) None (Console [] []))) (no_memory (fun _ => true)) (fun '(cs, st) =>
    cs = [0; 0; 0; -1] /\
    con st = Console [] [PStr "it's the head of list \n"; PStr "the element is inexistence \n"] /\
    exists nodes, list_at (cells (hp st)) (head st) nodes /\ nodes.*2 = [1; 2; 3]).
Proof.
  split; [reflexivity|].
  apply (list_requests_correct (fun _ => true) [AddToTail 1; AddToTail 3; Insert 2 1; Insert 9 7]
           (Console [] [])).
  vm_compute. discriminate.
Defined.

(** The example prints 10, 15, 20, 25, 30. *)
Lemma list_example_prints :
  main (fun _ => true) (Console [] []) =
  Ok (Console [] (PStr "it's the head of list \n" ::
    (zip [0; 1; 2; 3; 4] [10; 15; 20; 25; 30] ≫= fun '(i, v) =>
       [PStr "the list["; PInt i; PStr "] val:"; PInt v; PStr " \n"]))).
Proof. vm_compute. reflexivity. Qed.

End LinkList.

(** * mergeLinkedLists.c *)

Module MergeLinkedLists.

(** One turn of the loop of merge on temp1, temp2 and holder2, which keeps its
    old value when the first list ends. *)
Definition turn : heap node * ptr * ptr * ptr -> res (heap node * ptr * ptr * ptr) :=
  fun '(h, temp1, temp2, holder2) =>
    let* n1 := load temp1 h in
    let holder1 := next n1 in
    let* h := store temp1 (MkNode (data n1) temp2) h in
    let* (h, holder2) :=
      if negb (is_null holder1) then
        let* n2 := load temp2 h in
        let holder2 := next n2 in
        let* h := store temp2 (MkNode (data n2) holder1) h in
        Ok (h, holder2)
      else Ok (h, holder2) in
    Ok (h, holder1, holder2, holder2).

Definition merge (head1 head2 : ptr) (h : heap node) : res (heap node) :=
  let* (h, _, _, _) := while (S (size (cells h)))
    (fun '(_, temp1, temp2, _) => Ok (negb (is_null temp1) && negb (is_null temp2)))
    turn (h, head1, head2, None) in
  Ok h.

Definition printlist (h : heap node) (temp : ptr) (w : console) : res console :=
  let* n := load temp h in
  let w := printf [PInt (data n)] w in
  let* w := walk (fun x => [PStr "->"; PInt x]) h (next n) w in
  Ok (printf [PStr "\n"] w).

(** [p->data = d; p->next = n;] *)
Definition fill (p : ptr) (d : Z) (n : ptr) (h : heap node) : res (heap node) :=
  let* b := load p h in
  let* h := store p (MkNode d (next b)) h in
  let* b := load p h in
  store p (MkNode (data b) n) h.

Definition main (malloc_ok : nat -> bool) (w : console) : res console :=
  let new h := malloc malloc_ok (MkNode 0 None) h in
  let '(one, h) := new (Heap ∅ 0) in
  let '(two, h) := new h in
  let '(three, h) := new h in
  let '(four, h) := new h in
  let '(five, h) := new h in
  let '(six, h) := new h in
  let '(seven, h) := new h in
  let head1 := one in
  let head2 := two in
  let* h := fill one 1 three h in
  let* h := fill two 2 four h in
  let* h := fill three 3 five h in
  let* h := fill four 4 six h in
  let* h := fill five 5 seven h in
  let* h := fill six 6 None h in
  let* h := fill seven 7 None h in
  let w := printf [PStr "Linked List 1: "] w in
  let* w := printlist h head1 w in
  let w := printf [PStr "\nLinked List 2: "] w in
  let* w := printlist h head2 w in
  let* h := merge head1 head2 h in
  let w := printf [PStr "\nMerged Linked List: "] w in
  printlist h head1 w.

(** The two lists taken in turns, then what is left of the longer one. *)
Fixpoint interleave {A} (xs ys : list A) : list A :=
  match xs, ys with
  | [], _ => ys
  | _, [] => xs
  | x :: xs, y :: ys => x :: y :: interleave xs ys
  end.

Lemma fmap_interleave {A B} (f : A -> B) xs ys :
  f <$> interleave xs ys = interleave (f <$> xs) (f <$> ys).
Proof. revert ys. induction xs as [|x xs IH]; intros [|y ys]; simpl; [done..|]. by rewrite IH. Qed.

Lemma interleave_Permutation {A} (xs ys : list A) : interleave xs ys ≡ₚ xs ++ ys.
Proof.
  revert ys. induction xs as [|x xs IH]; intros [|y ys]; simpl; [done..|by rewrite app_nil_r|].
  rewrite IH. by rewrite <- Permutation_middle.
Qed.

(** The loop weaves the lists, writing to their nodes only. *)
Lemma wp_weave fuel m k t1 t2 hold cs1 cs2 :
  (length cs1 < fuel)%nat -> cs1 <> [] ->
  seg m t1 cs1 None -> seg m t2 cs2 None -> NoDup (cs1 ++ cs2).*1 ->
  wp (while fuel (fun '(_, t1, t2, _) => Ok (negb (is_null t1) && negb (is_null t2))) turn
        (Heap m k, t1, t2, hold)) (fun '(h', _, _, _) =>
    seg (cells h') t1 (interleave cs1 cs2) None /\
    forall l, l ∉ (cs1 ++ cs2).*1 -> cells h' !! l = m !! l).
Proof.
  unfold while.
  revert m t1 t2 hold cs2 fuel. induction cs1 as [|[l1 x1] cs1 IH]; [done|].
  intros m t1 t2 hold cs2 [|fuel] Hf _ H1 H2 Hnd; [lia|].
  destruct H1 as (-> & n1 & Hl1 & H1). cbn [loop bind is_null negb andb].
  destruct cs2 as [|[l2 x2] cs2].
  { simpl in H2. subst t2. simpl. split; [|done]. split; [done|]. by exists n1. }
  destruct H2 as (-> & n2 & Hl2 & H2). cbn [bind is_null negb andb].
  rewrite fmap_app in Hnd. simpl in Hnd. apply NoDup_cons in Hnd as [Hn1 Hnd].
  rewrite not_elem_of_app, not_elem_of_cons in Hn1. destruct Hn1 as (Hn1 & Hne & Hn1').
  apply NoDup_app in Hnd as (Hnd1 & Hdis & Hnd2). apply NoDup_cons in Hnd2 as [Hn2 Hnd2].
  assert (l2 ∉ cs1.*1) as Hn2' by (intros H; apply (Hdis _ H); left).
  unfold turn at 1. rewrite (load_Ok l1 (MkNode x1 n1)) by done. cbn [bind next data].
  rewrite (store_Ok l1 (MkNode x1 n1)) by done. cbn [bind cells calls].
  destruct cs1 as [|[l1' x1'] cs1].
  { simpl in H1. subst n1. cbn [is_null negb bind]. destruct fuel as [|fuel]; [simpl in Hf; lia|].
    simpl. split.
    - split; [done|]. eexists. rewrite lookup_insert_eq. split; [done|]. split; [done|].
      exists n2. rewrite lookup_insert_ne by done. split; [done|]. by apply seg_insert.
    - intros l Hl. apply lookup_insert_ne. set_solver. }
  assert (is_null n1 = false) as Hnn by (by destruct H1 as [-> _]). rewrite Hnn. cbn [negb].
  rewrite (load_Ok l2 (MkNode x2 n2)) by (simpl; by rewrite lookup_insert_ne). cbn [bind next data].
  rewrite (store_Ok l2 (MkNode x2 n2)) by (simpl; by rewrite lookup_insert_ne). cbn [bind cells calls].
  eapply wp_mono; [apply IH|].
  - simpl in *. lia.
  - done.
  - apply seg_insert; [exact Hn2'|]. apply seg_insert; [exact Hn1|exact H1].
  - apply seg_insert; [exact Hn2|]. apply seg_insert; [exact Hn1'|exact H2].
  - rewrite fmap_app. apply NoDup_app. split_and!; [done| |done]. intros l Hl Hl2'. apply (Hdis _ Hl). by right.
  - intros [[[h' a] b] c] [Hs Hframe]. split.
    + split; [done|]. exists (Some l2). rewrite Hframe, lookup_insert_ne, lookup_insert_eq by
        (rewrite ?fmap_app; set_solver). split; [done|]. split; [done|]. exists n1.
      rewrite Hframe, lookup_insert_eq by (rewrite fmap_app; set_solver). done.
    + intros l Hl. rewrite Hframe, !lookup_insert_ne by (rewrite ?fmap_app in *; set_solver). done.
Qed.

(** merge interleaves: after it the first list holds the nodes of both
    lists in turns, followed by what is left of the longer one, no node lost
    or copied; the second head now points into the first list, one node on;
    and no other block of the heap has changed. *)
Theorem merge_interleaves (h : heap node) head1 head2 cs1 cs2 :
  cs1 <> [] -> list_at (cells h) head1 cs1 -> list_at (cells h) head2 cs2 ->
  NoDup (cs1 ++ cs2).*1 ->
  wp (merge head1 head2 h) (fun h' =>
    list_at (cells h') head1 (interleave cs1 cs2) /\
    (cs2 <> [] -> list_at (cells h') head2 (tail (interleave cs1 cs2))) /\
    (interleave cs1 cs2).*2 = interleave cs1.*2 cs2.*2 /\
    forall l, l ∉ (cs1 ++ cs2).*1 -> cells h' !! l = cells h !! l).
Proof.
  intros Hne Hl1 Hl2 Hnd. pose proof (list_at_length _ _ _ Hl1) as Hlen. destruct h as [m k].
  unfold merge. apply wp_bind. eapply wp_mono.
  { apply (wp_weave _ m k head1 head2 None cs1 cs2); [simpl in *; lia|done|apply Hl1|apply Hl2|done]. }
  intros [[[h' a] b] c] [Hs Hframe]. simpl.
  assert (NoDup (interleave cs1 cs2).*1) as Hnd' by (by rewrite interleave_Permutation).
  split_and!; [done| |apply fmap_interleave|done].
  intros Hne2. destruct cs1 as [|[l1 x1] cs1], cs2 as [|[l2 x2] cs2]; [done..|].
  destruct Hl2 as [[-> _] _]. simpl in *. destruct Hs as (_ & n & _ & Hs).
  apply NoDup_cons in Hnd' as [_ Hnd']. split; [|done]. by destruct Hs as [-> Hs].
Qed.

Definition two_lists : heap node :=
  Heap (<[1%positive := MkNode 1 (Some 2%positive)]> (<[2%positive := MkNode 3 None]>
       (<[3%positive := MkNode 2 None]> ∅))) 3.

Lemma merge_interleaves_witness :
  wp (merge (Some 1%positive) (Some 3%positive) two_lists) (fun h' =>
    list_at (cells h') (Some 1%positive) [(1%positive, 1); (3%positive, 2); (2%positive, 3)] /\
    (interleave [(1%positive, 1); (2%positive, 3)] [(3%positive, 2)]).*2 = [1; 2; 3]).
Proof.
  eapply wp_mono; [apply (merge_interleaves two_lists _ _ [(1%positive, 1); (2%positive, 3)] [(3%positive, 2)])|].
  - discriminate.
  - split; [|apply (bool_decide_unpack _); vm_compute; exact I].
    split; [reflexivity|]. eexists. split; [reflexivity|]. split; [reflexivity|]. eexists. split; reflexivity.
  - split; [|apply (bool_decide_unpack _); vm_compute; exact I].
    split; [reflexivity|]. eexists. split; reflexivity.
  - apply (bool_decide_unpack _); vm_compute; exact I.
  - intros h' (H1 & _ & _ & _). split; [exact H1|reflexivity].
Defined.

(** With an empty first list nothing happens: head1 stays NULL. *)
Lemma merge_empty_first h head2 : merge None head2 h = Ok h.
Proof. done. Qed.

(** The demonstration prints 1 to 7 in order. *)
Lemma merge_main_prints :
  main (fun _ => true) (Console [] []) = Ok (Console [] (
    [PStr "Linked List 1: "; PInt 1] ++ ([3; 5; 7] ≫= fun x => [PStr "->"; PInt x]) ++ [PStr "\n"] ++
    [PStr "\nLinked List 2: "; PInt 2] ++ ([4; 6] ≫= fun x => [PStr "->"; PInt x]) ++ [PStr "\n"] ++
    [PStr "\nMerged Linked List: "; PInt 1] ++
      ([2; 3; 4; 5; 6; 7] ≫= fun x => [PStr "->"; PInt x]) ++ [PStr "\n"])).
Proof. vm_compute. reflexivity. Qed.

End MergeLinkedLists.

(** * The two menu programs that work at the head of a list *)

(** What they share: a node linked in front, the front node freed. *)
Section front.
Context (malloc_ok : nat -> bool).

Record front := Front { hp : heap node; start : ptr; con : console }.

(** createnode() or the malloc of push; the block is written later. *)
Definition createnode (h : heap node) : ptr * heap node := malloc malloc_ok (MkNode 0 None) h.

(** singly_link_list_deletion.c: insert, deleteion, viewlist *)
Definition insert (st : front) : res front :=
  let '(p, h) := createnode (hp st) in
  let w := printf [PStr "\nenter the number to insert"] (con st) in
  let* _ := load p h in
  let* (x, w) := scanf w in
  let* h := store p (MkNode x None) h in
  if is_null (start st) then Ok (Front h p w)
  else
    let* n := load p h in
    let* h := store p (MkNode (data n) (start st)) h in
    Ok (Front h p w).

Definition deleteion (st : front) : res front :=
  if is_null (start st) then Ok (Front (hp st) (start st) (printf [PStr "\nlist is empty"] (con st)))
  else
    let p := start st in
    let* n := load p (hp st) in
    let* h := free p (hp st) in
    Ok (Front h (next n) (con st)).

Definition viewlist (st : front) : res front :=
  if is_null (start st) then Ok (Front (hp st) (start st) (printf [PStr "\nlist is empty"] (con st)))
  else
    let* w := walk (fun x => [PInt x; PStr " "]) (hp st) (start st) (con st) in
    Ok (Front (hp st) (start st) w).

Definition list_menu : list piece :=
  [PStr "\n1.add value at first location"; PStr "\n2.delete value from first location";
   PStr "\n3.view value"; PStr "\nenter your choice"].

(** One turn of its endless loop. *)
Definition list_turn (st : front) : res front :=
  let w := printf list_menu (con st) in
  let* (n, w) := scanf w in
  let st := Front (hp st) (start st) w in
  if n =? 1 then insert st
  else if n =? 2 then deleteion st
  else if n =? 3 then viewlist st
  else Ok (Front (hp st) (start st) (printf [PStr "\ninvalid choice"] w)).

(** stack_using_linkedlists.c: push, pop, display *)
Definition push (st : front) : res front :=
  let '(temp, h) := createnode (hp st) in
  let w := printf [PStr "enter element to be inserted\n"] (con st) in
  let* (item, w) := scanf w in
  let* n := load temp h in
  let* h := store temp (MkNode item (next n)) h in
  let* h := store temp (MkNode item (start st)) h in
  Ok (Front h temp (printf [PStr "inserted succesfully\n"] w)).

Definition pop (st : front) : res front :=
  if is_null (start st) then Ok (Front (hp st) (start st) (printf [PStr "stack is empty\n"] (con st)))
  else
    let* n := load (start st) (hp st) in
    let temp := start st in
    let* h := free temp (hp st) in
    Ok (Front h (next n) (printf [PStr "Element popped is"; PInt (data n); PStr "\n"] (con st))).

Definition display (st : front) : res front :=
  if is_null (start st) then Ok (Front (hp st) (start st) (printf [PStr "stack is empty\n"] (con st)))
  else
    let w := printf [PStr "Elements in the stack are\n"] (con st) in
    let* w := walk (fun x => [PInt x; PStr "\n"]) (hp st) (start st) w in
    Ok (Front (hp st) (start st) w).

Definition stack_menu : list piece :=
  [PStr "enter your choice"; PStr "\n1.push\n2.pop\n3.display\n4.exit\n"].

(** The turns of the loop; [inr] is the [return] of choice 4. *)
Definition stack_turn (st : front) : res (front + front) :=
  let w := printf stack_menu (con st) in
  let* (x, w) := scanf w in
  let st := Front (hp st) (start st) w in
  if x =? 1 then let* st := push st in Ok (inl st)
  else if x =? 2 then let* st := pop st in Ok (inl st)
  else if x =? 3 then let* st := display st in Ok (inl st)
  else if x =? 4 then Ok (inr st)
  else Ok (inl st).

(** Each turn reads a number, so the input bounds the turns.  main of the
    first program never returns: it ends with its input. *)
Definition list_main (w : console) : res front :=
  loop (S (length (input w))) (fun st => let* st := list_turn st in Ok (inl st))
    (Front (Heap ∅ 0) None w).

Definition stack_main (w : console) : res front :=
  loop (S (length (input w))) stack_turn
    (Front (Heap ∅ 0) None (printf [PStr "\t****stack using linked list****\n"] w)).
End front.

(** ** The sessions on a plain list *)

(** A turn as a list serves it: what is printed, the new list and the numbers
    left; nothing when the input ends within the turn. *)
Definition list_answer (xs typed : list Z) : option (list piece * list Z * list Z) :=
  match typed with
  | [] => None
  | n :: rest =>
      if n =? 1 then
        match rest with
        | [] => None
        | v :: rest => Some (list_menu ++ [PStr "\nenter the number to insert"], v :: xs, rest)
        end
      else if n =? 2 then
        Some (list_menu ++ match xs with [] => [PStr "\nlist is empty"] | _ => [] end, tail xs, rest)
      else if n =? 3 then
        Some (list_menu ++ match xs with
                           | [] => [PStr "\nlist is empty"]
                           | _ => xs ≫= fun x => [PInt x; PStr " "]
                           end, xs, rest)
      else Some (list_menu ++ [PStr "\ninvalid choice"], xs, rest)
  end.

(** The same for the stack program; the flag tells that it exits. *)
Definition stack_answer (xs typed : list Z) : option (bool * list piece * list Z * list Z) :=
  match typed with
  | [] => None
  | n :: rest =>
      if n =? 1 then
        match rest with
        | [] => None
        | v :: rest =>
            Some (false, stack_menu ++ [PStr "enter element to be inserted\n"; PStr "inserted succesfully\n"],
                  v :: xs, rest)
        end
      else if n =? 2 then
        Some (false, stack_menu ++ match xs with
                                   | [] => [PStr "stack is empty\n"]
                                   | x :: _ => [PStr "Element popped is"; PInt x; PStr "\n"]
                                   end, tail xs, rest)
      else if n =? 3 then
        Some (false, stack_menu ++ match xs with
                                   | [] => [PStr "stack is empty\n"]
                                   | _ => PStr "Elements in the stack are\n" ::
                                            (xs ≫= fun x => [PInt x; PStr "\n"])
                                   end, xs, rest)
      else Some (n =? 4, stack_menu, xs, rest)
  end.

(** [n] turns of the list program, and the abstract turns. *)
Fixpoint list_run (malloc_ok : nat -> bool) (n : nat) (st : front) : res front :=
  match n with
  | O => Ok st
  | S n => let* st := list_turn malloc_ok st in list_run malloc_ok n st
  end.

Fixpoint list_answers (n : nat) (xs typed : list Z) : option (list piece * list Z * list Z) :=
  match n with
  | O => Some ([], xs, typed)
  | S n => '(out, xs, rest) ← list_answer xs typed;
           '(out', xs, rest) ← list_answers n xs rest;
           Some (out ++ out', xs, rest)
  end.

Fixpoint stack_answers (fuel : nat) (xs typed : list Z) : option (list piece * list Z * list Z) :=
  match fuel with
  | O => None
  | S n => '(stop, out, xs, rest) ← stack_answer xs typed;
           if stop : bool then Some (out, xs, rest) else
           '(out', xs, rest) ← stack_answers n xs rest;
           Some (out ++ out', xs, rest)
  end.

(** The program's state holds [xs], and its heap nothing else. *)
Definition front_holds (st : front) (xs : list Z) : Prop :=
  exists cs, list_at (cells (hp st)) (start st) cs /\ cs.*2 = xs /\
             dom (cells (hp st)) = list_to_set cs.*1.

Section front_specs.
Context (malloc_ok : nat -> bool) (memory : forall n, malloc_ok n = true).

Lemma front_push h p w xs x k :
  front_holds (Front h p w) xs ->
  front_holds (Front (Heap (<[fresh_loc (cells h) := MkNode x p]> (cells h)) k)
                     (Some (fresh_loc (cells h))) w) (x :: xs).
Proof.
  intros (cs & Hl & <- & Hd). exists ((fresh_loc (cells h), x) :: cs). simpl in *.
  split_and!; [by apply list_at_push|done|]. by rewrite dom_insert_L, Hd.
Qed.

Lemma front_pop h p w xs :
  front_holds (Front h p w) xs ->
  match xs with
  | [] => p = None
  | x :: xs' => exists l n, p = Some l /\ cells h !! l = Some (MkNode x n) /\
      forall w k, front_holds (Front (Heap (delete l (cells h)) k) n w) xs'
  end.
Proof.
  intros (cs & Hl & <- & Hd). simpl in *. destruct cs as [|[l x] cs]; simpl; [by apply list_at_nil in Hl|].
  destruct Hl as [(-> & n & Hn & Hs) Hnd]. simpl in Hnd, Hd. apply NoDup_cons in Hnd as [Hnl Hnd].
  exists l, n. split_and!; [done..|]. intros w' k. exists cs. simpl.
  split_and!; [by apply (list_at_pop _ _ x)|done|]. rewrite dom_delete_L, Hd. set_solver.
Qed.

Lemma front_walk show h p w xs :
  front_holds (Front h p w) xs -> walk show h p w = Ok (printf (xs ≫= show) w).
Proof. intros (cs & Hl & <- & _). by apply walk_spec. Qed.

Lemma front_null h p w xs : front_holds (Front h p w) xs -> is_null p = bool_decide (xs = []).
Proof.
  intros (cs & Hl & <- & _). destruct cs as [|[l x] cs]; simpl.
  - apply list_at_nil in Hl. simpl in Hl. by subst.
  - destruct Hl as [[H _] _]. simpl in H. by subst.
Qed.

(** The outcome of one turn against the abstract one. *)
Definition follows {R} (pick : R -> front * bool) (st : front) (r : res R)
    (a : option (bool * list piece * list Z * list Z)) : Prop :=
  match a with
  | None => r = Fail EndOfInput
  | Some (stop, out, xs, rest) =>
      wp r (fun x => let '(st', stop') := pick x in
        stop' = stop /\ con st' = Console rest (output (con st) ++ out) /\ front_holds st' xs)
  end.

Lemma list_turn_follows st xs :
  front_holds st xs ->
  follows (fun st => (st, false)) st (list_turn malloc_ok st)
    ('(out, xs, rest) ← list_answer xs (input (con st)); Some (false, out, xs, rest)).
Proof.
  destruct st as [h p [i o]]. intros Hst. pose proof (front_null _ _ _ _ Hst) as Hp.
  pose proof (front_pop _ _ _ _ Hst) as Hpop.
  unfold list_turn. simpl. destruct i as [|n i]; [done|]. simpl.
  destruct (n =? 1); [|destruct (n =? 2); [|destruct (n =? 3)]]; simpl.
  - unfold insert, createnode, malloc. simpl. rewrite memory.
    destruct i as [|v i]; simpl; (erewrite load_Ok by (simpl; apply lookup_insert_eq)); simpl; [done|].
    erewrite store_Ok by (simpl; apply lookup_insert_eq). simpl. rewrite insert_insert_eq, Hp.
    apply (front_push _ _ _ _ v (S (calls h))) in Hst. destruct xs as [|x xs]; simpl.
    + subst p. split_and!; [done|by rewrite <- app_assoc|done].
    + erewrite load_Ok by (simpl; apply lookup_insert_eq). simpl.
      erewrite store_Ok by (simpl; apply lookup_insert_eq). simpl. rewrite insert_insert_eq.
      split_and!; [done|by rewrite <- app_assoc|done].
  - unfold deleteion. simpl. rewrite Hp. destruct xs as [|x xs]; simpl.
    + split_and!; [done|unfold printf; simpl; by rewrite <- app_assoc|done].
    + destruct Hpop as (l & m & -> & Hl & Hpop). rewrite (load_Ok _ _ _ Hl), (free_Ok _ _ _ Hl). simpl.
      by rewrite ?app_nil_r.
  - unfold viewlist. simpl. rewrite Hp. destruct xs as [|x xs]; simpl.
    + split_and!; [done|unfold printf; simpl; by rewrite <- app_assoc|done].
    + erewrite front_walk by exact Hst. simpl. split_and!; [done| |done]. unfold printf. simpl.
      by rewrite <- app_assoc.
  - split_and!; [done|unfold printf; simpl; by rewrite <- app_assoc|done].
Qed.

Lemma stack_turn_follows st xs :
  front_holds st xs ->
  follows (fun x => match x with inl st => (st, false) | inr st => (st, true) end) st
    (stack_turn malloc_ok st) (stack_answer xs (input (con st))).
Proof.
  destruct st as [h p [i o]]. intros Hst. pose proof (front_null _ _ _ _ Hst) as Hp.
  pose proof (front_pop _ _ _ _ Hst) as Hpop.
  unfold stack_turn. simpl. destruct i as [|n i]; [done|]. simpl.
  destruct (n =? 1); [|destruct (n =? 2); [|destruct (n =? 3); [|destruct (n =? 4)]]]; simpl.
  - unfold push, createnode, malloc. simpl. rewrite memory. destruct i as [|v i]; simpl; [done|].
    erewrite load_Ok by (simpl; apply lookup_insert_eq). simpl.
    erewrite store_Ok by (simpl; apply lookup_insert_eq). simpl. rewrite insert_insert_eq.
    erewrite store_Ok by (simpl; apply lookup_insert_eq). simpl. rewrite insert_insert_eq.
    split_and!; [done|unfold printf; simpl; by rewrite <- !app_assoc|by eapply front_push].
  - unfold pop. simpl. rewrite Hp. destruct xs as [|x xs]; simpl.
    + split_and!; [done|unfold printf; simpl; by rewrite <- app_assoc|done].
    + destruct Hpop as (l & m & -> & Hl & Hpop). rewrite (load_Ok _ _ _ Hl). simpl.
      rewrite (free_Ok _ _ _ Hl). simpl.
      split_and!; [done|unfold printf; simpl; by rewrite <- app_assoc|apply Hpop].
  - unfold display. simpl. rewrite Hp. destruct xs as [|x xs]; simpl.
    + split_and!; [done|unfold printf; simpl; by rewrite <- app_assoc|done].
    + erewrite front_walk by exact Hst. simpl. split_and!; [done| |done]. unfold printf. simpl.
      by rewrite <- !app_assoc.
  - done.
  - done.
Qed.

Lemma list_run_follows n st xs :
  front_holds st xs ->
  match list_answers n xs (input (con st)) with
  | None => list_run malloc_ok n st = Fail EndOfInput
  | Some (out, xs', rest) =>
      wp (list_run malloc_ok n st) (fun st' =>
        con st' = Console rest (output (con st) ++ out) /\ front_holds st' xs')
  end.
Proof.
  revert st xs. induction n as [|n IH]; intros st xs Hst.
  { simpl. split; [|done]. rewrite app_nil_r. by destruct st as [? ? []]. }
  cbn [list_run list_answers]. pose proof (list_turn_follows st xs Hst) as Ht.
  destruct (list_answer xs (input (con st))) as [[[out xs1] rest]|]; simpl in *; [|by rewrite Ht].
  apply wp_exists in Ht as (st1 & -> & _ & Hcon & Hst1). simpl.
  specialize (IH st1 xs1 Hst1). rewrite Hcon in IH. simpl in IH.
  destruct (list_answers n xs1 rest) as [[[out' xs2] rest']|]; simpl; [|done].
  by rewrite (assoc_L (++)).
Qed.

Lemma stack_loop_follows fuel st xs :
  front_holds st xs -> (length (input (con st)) < fuel)%nat ->
  match stack_answers fuel xs (input (con st)) with
  | None => loop fuel (stack_turn malloc_ok) st = Fail EndOfInput
  | Some (out, xs', rest) =>
      wp (loop fuel (stack_turn malloc_ok) st) (fun st' =>
        con st' = Console rest (output (con st) ++ out) /\ front_holds st' xs')
  end.
Proof.
  revert st xs. induction fuel as [|fuel IH]; intros st xs Hst Hf; [lia|].
  cbn [loop stack_answers]. pose proof (stack_turn_follows st xs Hst) as Ht.
  assert (forall b out xs' rest, stack_answer xs (input (con st)) = Some (b, out, xs', rest) ->
    (length rest < length (input (con st)))%nat) as Hdec.
  { intros b out xs' rest. unfold stack_answer. destruct (input (con st)) as [|n [|v i]]; [done|..];
      repeat case_match; intros; simplify_eq; simpl; lia. }
  destruct (stack_answer xs (input (con st))) as [[[[stop out] xs1] rest]|]; simpl in *; [|by rewrite Ht].
  specialize (Hdec _ _ _ _ eq_refl).
  apply wp_exists in Ht as (x & -> & Ht). destruct x as [st1|st1]; destruct Ht as (<- & Hcon & Hst1); simpl; [|done].
  specialize (IH st1 xs1 Hst1). rewrite Hcon in IH. simpl in IH.
  destruct (stack_answers fuel xs1 rest) as [[[out' xs2] rest']|]; simpl; [|apply IH; lia].
  rewrite (assoc_L (++)). apply IH. lia.
Qed.
End front_specs.

(** The two menu programs on a linked list, while memory lasts, behave as
    their abstract sessions on a plain list for every input: the list program
    after any number of turns, the stack program until its exit; what was
    printed, the input left and the list agree, no block outside the list is
    left in the heap (every popped node was freed once), and the only way to
    stop early is the end of the input. *)
Theorem list_programs_follow malloc_ok (w : console) :
  (forall n, malloc_ok n = true) ->
  (forall n,
     match list_answers n [] (input w) with
     | None => list_run malloc_ok n (Front (Heap ∅ 0) None w) = Fail EndOfInput
     | Some (out, xs, rest) =>
         wp (list_run malloc_ok n (Front (Heap ∅ 0) None w)) (fun st =>
           con st = Console rest (output w ++ out) /\ front_holds st xs)
     end) /\
  match stack_answers (S (length (input w))) [] (input w) with
  | None => stack_main malloc_ok w = Fail EndOfInput
  | Some (out, xs, rest) =>
      wp (stack_main malloc_ok w) (fun st =>
        con st = Console rest (output w ++ PStr "\t****stack using linked list****\n" :: out) /\
        front_holds st xs)
  end.
Proof.
  intros Hm. assert (forall w, front_holds (Front (Heap ∅ 0) None w) []) as Hnil.
  { intros w'. exists []. split_and!; [by apply list_at_nil|done|apply dom_empty_L]. }
  split.
  - intros n. apply (list_run_follows malloc_ok Hm n (Front (Heap ∅ 0) None w)). apply Hnil.
  - unfold stack_main.
    pose proof (stack_loop_follows malloc_ok Hm (S (length (input w)))
      (Front (Heap ∅ 0) None (printf [PStr "\t****stack using linked list****\n"] w)) [] (Hnil _)) as H.
    cbn [con printf input output] in H. specialize (H ltac:(lia)).
    destruct (stack_answers _ _ _) as [[[out xs] rest]|]; [|done].
    by rewrite <- (assoc_L (++)) in H.
Qed.

Lemma list_programs_follow_witness :
  stack_answers 9 [] [1; 7; 1; 8; 2; 3; 4; 9] =
    Some (stack_menu ++ [PStr "enter element to be inserted\n"; PStr "inserted succesfully\n"] ++
          stack_menu ++ [PStr "enter element to be inserted\n"; PStr "inserted succesfully\n"] ++
          stack_menu ++ [PStr "Element popped is"; PInt 8; PStr "\n"] ++
          stack_menu ++ [PStr "Elements in the stack are\n"; PInt 7; PStr "\n"] ++ stack_menu, [7], [9]) /\
  wp (stack_main (fun _ => true) (Console [1; 7; 1; 8; 2; 3; 4; 9] [])) (fun st => front_holds st [7]).
Proof.
  split; [vm_compute; reflexivity|].
  eapply wp_mono;
    [apply (proj2 (list_programs_follow (fun _ => true) (Console [1; 7; 1; 8; 2; 3; 4; 9] [])
                     (fun _ => eq_refl)))|].
  intros st [_ H]. exact H.
Defined.
