(* ===== verification/Stacks.v ===== *)
(** * Stacks

    Three of the stacks of algorithms/c/data_structures: the growing array of
    stack/stack.c, the doubly linked nodes of stack.c and the menu program on
    an array of stack/main.c; with the unfinished queue of queue.c.  What a
    client may expect of a stack is the class [StackLaws]; the first two
    implement it, and the theorem on scripts of calls is proved from the class
    alone. *)

From S2P Require Import Prelude Arrays Heap LinkedLists.
Open Scope Z_scope.

(** ** The interface *)

Record stack_ops (St : Type) := StackOps {
  op_push : Z -> St -> res St;
  op_pop : St -> res (Z * St);
  op_peek : St -> res Z;
  op_size : St -> Z;
  op_isEmpty : St -> Z
}.
Arguments StackOps {St}.
Arguments op_push {St} s.
Arguments op_pop {St} s.
Arguments op_peek {St} s.
Arguments op_size {St} s.
Arguments op_isEmpty {St} s.

(** [rep st xs]: the state stands for the stack [xs], its top first. [fits] are
    the values it can hold, [cap] how many. *)
Class StackLaws {St : Type} (ops : stack_ops St) (rep : St -> list Z -> Prop)
    (fits : Z -> Prop) (cap : Z) : Prop := {
  law_push st xs x : rep st xs -> fits x -> zlen xs < cap ->
    wp (op_push ops x st) (fun st' => rep st' (x :: xs));
  law_pop st x xs : rep st (x :: xs) ->
    wp (op_pop ops st) (fun '(y, st') => y = x /\ rep st' xs);
  law_pop_empty st : rep st [] -> exists f, op_pop ops st = Fail f;
  law_peek st x xs : rep st (x :: xs) -> op_peek ops st = Ok x;
  law_size st xs : rep st xs -> op_size ops st = zlen xs;
  law_isEmpty st xs : rep st xs -> op_isEmpty ops st = (if zlen xs =? 0 then 1 else 0)
}.

Inductive request := Push (x : Z) | Pop | Peek | Size | IsEmpty.

(** A script of calls, with what the calls return. *)
Definition serve {St} (ops : stack_ops St) (r : request) (st : St) : res (list Z * St) :=
  match r with
  | Push x => let* st := op_push ops x st in Ok ([], st)
  | Pop => let* (x, st) := op_pop ops st in Ok ([x], st)
  | Peek => let* x := op_peek ops st in Ok ([x], st)
  | Size => Ok ([op_size ops st], st)
  | IsEmpty => Ok ([op_isEmpty ops st], st)
  end.

Fixpoint script {St} (ops : stack_ops St) (rs : list request) (st : St) : res (list Z * St) :=
  match rs with
  | [] => Ok ([], st)
  | r :: rs =>
      let* (out, st) := serve ops r st in
      let* (out', st) := script ops rs st in
      Ok (out ++ out', st)
  end.

(** The same calls on a list; [None] when a call needs an element and there is
    none. *)
Definition expect (r : request) (xs : list Z) : option (list Z * list Z) :=
  match r, xs with
  | Push x, _ => Some ([], x :: xs)
  | Pop, x :: xs => Some ([x], xs)
  | Peek, x :: _ => Some ([x], xs)
  | Pop, [] | Peek, [] => None
  | Size, _ => Some ([zlen xs], xs)
  | IsEmpty, _ => Some ([if zlen xs =? 0 then 1 else 0], xs)
  end.

Fixpoint expect_all (rs : list request) (xs : list Z) : option (list Z * list Z) :=
  match rs with
  | [] => Some ([], xs)
  | r :: rs => '(out, xs) ← expect r xs; '(out', xs) ← expect_all rs xs; Some (out ++ out', xs)
  end.

(** The pushed values. *)
Definition pushed (rs : list request) : list Z :=
  rs ≫= fun r => match r with Push x => [x] | _ => [] end.

Lemma pushed_cons r rs :
  pushed (r :: rs) = match r with Push x => x :: pushed rs | _ => pushed rs end.
Proof. by destruct r. Qed.

#[global] Arguments pushed rs : simpl never.

Section client.
Context {St : Type} {ops : stack_ops St} {rep : St -> list Z -> Prop} {fits : Z -> Prop} {cap : Z}.
Context `{!StackLaws ops rep fits cap}.

Lemma wp_script rs st xs out xs' :
  rep st xs -> expect_all rs xs = Some (out, xs') ->
  Forall fits (pushed rs) -> zlen xs + zlen (pushed rs) <= cap ->
  wp (script ops rs st) (fun '(out', st') => out' = out /\ rep st' xs').
Proof.
  revert st xs out. induction rs as [|r rs IH]; intros st xs out Hst He Hfit Hcap.
  { simpl in *. by simplify_eq. }
  cbn [script expect_all] in *. rewrite pushed_cons in Hfit, Hcap. wp_step.
  destruct (expect r xs) as [[o1 xs1]|] eqn:E1; [|done]. simpl in He.
  destruct (expect_all rs xs1) as [[o2 xs2]|] eqn:E2; [|done]. simpl in He. simplify_eq.
  assert (wp (serve ops r st) (fun '(o, st') => o = o1 /\ rep st' xs1 /\ zlen xs1 + zlen (pushed rs) <= cap
    /\ Forall fits (pushed rs))) as Hs.
  { destruct r as [x| | | |]; simpl in *.
    - simplify_eq. apply Forall_cons in Hfit as [Hx Hfit]. rewrite !zlen_cons in *.
      pose proof (zlen_nonneg (pushed rs)). wp_step.
      eapply wp_mono; [apply law_push; [exact Hst|done|lia]|].
      intros st' Hst'. split_and!; [done..|lia|done].
    - destruct xs as [|x xs]; [done|]. simplify_eq. wp_step. eapply wp_mono; [by apply law_pop|].
      intros [y st'] [-> Hst']. rewrite zlen_cons in Hcap. split_and!; [done..|lia|done].
    - destruct xs as [|x xs]; [done|]. simplify_eq. by rewrite (law_peek _ _ _ Hst).
    - simplify_eq. by rewrite (law_size _ _ Hst).
    - simplify_eq. by rewrite (law_isEmpty _ _ Hst). }
  eapply wp_mono; [exact Hs|]. intros [o st1] (-> & Hst1 & Hc1 & Hf1).
  wp_step. eapply wp_mono; [by eapply IH|]. intros [o' st2] [-> Hst2]. done.
Qed.
End client.

(** * stack/stack.c: the growing array *)

Module GrowingStack.
Section growing.
Context (malloc_ok : nat -> bool).

(** The globals; a [void *] is an integer, NULL is 0, and a cell that was
    never written is [None].  [allocs] counts the calls of malloc. *)
Record globals := Globals {
  array : option (list (option Z));
  max : Z;
  counter : Z;
  offset : Z;
  allocs : nat
}.

(** Before initStack: the array is NULL. *)
Definition initial : globals := Globals None 10 0 (-1) 0.

(** [malloc(sizeof(void * ) * n)] *)
Definition malloc_cells (n : Z) (k : nat) : option (list (option Z)) :=
  if malloc_ok k then Some (replicate (Z.to_nat n) None) else None.

Definition deref (p : option (list (option Z))) : res (list (option Z)) :=
  match p with Some a => Ok a | None => Fail NullDeref end.

Definition initStack (g : globals) : res globals :=
  let array := malloc_cells (max g) (allocs g) in
  let* _ := demand (match array with Some _ => true | None => false end) AssertFail in
  Ok (Globals array (max g) (counter g) (offset g) (S (allocs g))).

Definition grow (g : globals) : res globals :=
  let* max := int (max g + 10) in
  let tmp := malloc_cells max (allocs g) in
  let* tmp := for_up 0 (max - 10) (fun i tmp =>
    let* a := deref (array g) in
    let* v := rdu a i in
    let* t := deref tmp in
    let* t := wr t i (Some v) in
    Ok (Some t)) tmp in
  Ok (Globals tmp max (counter g) (offset g) (S (allocs g))).

(** The recursion: each growth adds ten cells. *)
Fixpoint push_rec (fuel : nat) (object : Z) (g : globals) : res globals :=
  match fuel with
  | O => Fail NoFuel
  | S fuel =>
      let* _ := demand (negb (object =? 0)) AssertFail in
      if counter g <? max g then
        let* offset := int (offset g + 1) in
        let* a := deref (array g) in
        let* a := wr a offset (Some object) in
        let* counter := int (counter g + 1) in
        Ok (Globals (Some a) (max g) counter offset (allocs g))
      else
        let* g := grow g in
        push_rec fuel object g
  end.

Definition push (object : Z) (g : globals) : res globals :=
  push_rec (S (S (Z.to_nat (counter g - max g)))) object g.

Definition isEmpty (g : globals) : Z := if counter g =? 0 then 1 else 0.

Definition pop (g : globals) : res (Z * globals) :=
  let* a := deref (array g) in
  let* top := rdu a (offset g) in
  let* _ := demand (negb (top =? 0)) AssertFail in
  let* _ := demand (isEmpty g =? 0) AssertFail in
  let* offset := int (offset g - 1) in
  let* counter := int (counter g - 1) in
  Ok (top, Globals (array g) (max g) counter offset (allocs g)).

Definition size (g : globals) : Z := counter g.

Definition top (g : globals) : res Z :=
  let* a := deref (array g) in
  rdu a (offset g).

Definition ops : stack_ops globals := StackOps push pop top size isEmpty.

(** ** What the globals stand for *)

(** The first [counter] cells hold the stack from the bottom up, the rest is
    free. *)
Definition rep (g : globals) (xs : list Z) : Prop :=
  Forall (fun x => x <> 0) xs /\ counter g = zlen xs /\ offset g = zlen xs - 1 /\
  zlen xs <= INT_MAX - 10 /\
  exists junk, array g = Some (map Some (reverse xs) ++ junk) /\
    max g = zlen xs + zlen junk /\ max g <= INT_MAX.

Context (memory : forall k, malloc_ok k = true).

(** grow copies a full array into one with ten more cells. *)
Lemma wp_stack_grow g (xs : list Z) :
  array g = Some (map Some xs) -> max g = zlen xs -> max g <= INT_MAX - 10 ->
  wp (grow g) (fun g' =>
    g' = Globals (Some (map Some xs ++ replicate 10 None)) (max g + 10) (counter g) (offset g)
           (S (allocs g))).
Proof.
  intros Ha Hm Hmax. pose proof (zlen_nonneg xs). unfold grow. wp_step. wp_step.
  unfold malloc_cells. rewrite memory. wp_step.
  apply (wp_for_up (fun i tmp =>
    tmp = Some (map Some (take (Z.to_nat i) xs) ++ replicate (Z.to_nat (max g + 10 - i)) None))).
  - simpl. by rewrite Z.sub_0_r.
  - intros i tmp Hi ->. rewrite Ha. simpl.
    destruct (aget_split xs i) as (pre & post & E & Hpre); [lia|].
    assert (Z.to_nat i = length pre) as Hn by (unfold zlen in Hpre; lia).
    rewrite E at 1. rewrite map_app. simpl. rewrite rdu_middle by (by rewrite zlen_map). simpl.
    assert (take (Z.to_nat i) xs = pre) as Htake by (rewrite E, Hn; apply take_app_length).
    rewrite Htake. replace (Z.to_nat (max g + 10 - i)) with (S (Z.to_nat (max g + 10 - (i + 1)))) by lia.
    simpl. rewrite wr_middle by (by rewrite zlen_map). simpl.
    replace (take (Z.to_nat (i + 1)) xs) with (pre ++ [xs.[i]]).
    + rewrite map_app, <- app_assoc. done.
    + replace (Z.to_nat (i + 1)) with (length (pre ++ [xs.[i]])) by (rewrite length_app; simpl; lia).
      rewrite E at 3. change (xs.[i] :: post) with ([xs.[i]] ++ post).
      by rewrite (assoc_L (++)), take_app_length.
  - intros tmp ->. wp_step.
    rewrite Z.max_r by lia. replace (max g + 10 - 10) with (zlen xs) by lia.
    rewrite take_ge by (unfold zlen; lia). by replace (max g + 10 - zlen xs) with 10 by lia.
Qed.

(** With a free cell, push writes it. *)
Lemma wp_push_room fuel g xs junk x :
  rep g xs -> x <> 0 -> zlen xs < INT_MAX - 10 ->
  array g = Some (map Some (reverse xs) ++ junk) -> junk <> [] -> max g = zlen xs + zlen junk ->
  wp (push_rec (S fuel) x g) (fun g' => rep g' (x :: xs)).
Proof.
  intros (Hnz & Hc & Ho & _ & _ & _ & _ & Hmi) Hx Hlen Ha Hj Hm. destruct junk as [|c junk]; [done|].
  rewrite zlen_cons in Hm. pose proof (zlen_nonneg junk). pose proof (zlen_nonneg xs).
  cbn [push_rec]. unfold demand. rewrite (proj2 (Z.eqb_neq _ _) Hx). simpl.
  rewrite (proj2 (Z.ltb_lt _ _)) by lia. wp_step. wp_step. rewrite Ha. simpl.
  rewrite wr_middle by (rewrite zlen_map, zlen_reverse; lia). simpl. wp_step. wp_step.
  apply wp_Ok. unfold rep. cbn [counter offset array max]. rewrite zlen_cons, reverse_cons, map_app.
  split_and!; [by constructor|lia|lia|lia|]. exists junk. simpl. rewrite <- app_assoc.
  split_and!; [done|lia|lia].
Qed.

Lemma wp_push g xs x :
  rep g xs -> x <> 0 -> zlen xs < INT_MAX - 10 ->
  wp (push x g) (fun g' => rep g' (x :: xs)).
Proof.
  intros Hg Hx Hlen. pose proof Hg as (Hnz & Hc & Ho & Hl & junk & Ha & Hm & Hmi).
  pose proof (zlen_nonneg junk). pose proof (zlen_nonneg xs). unfold push.
  destruct junk as [|c junk]; [|by eapply wp_push_room].
  change (zlen (@nil (option Z))) with 0 in Hm. rewrite app_nil_r in Ha.
  remember (S (Z.to_nat (counter g - max g))) as fuel eqn:Ef.
  cbn [push_rec]. unfold demand. rewrite (proj2 (Z.eqb_neq _ _) Hx). simpl.
  rewrite (proj2 (Z.ltb_ge _ _)) by lia. wp_step.
  eapply wp_mono; [apply (wp_stack_grow g (reverse xs)); [done|rewrite zlen_reverse; lia|lia]|].
  intros g' ->. subst fuel.
  eapply (wp_push_room _ _ xs (replicate 10 None)); [|done..|]; cbn [max counter offset array].
  - unfold rep. cbn [counter offset array max]. split_and!; [done..|]. exists (replicate 10 None).
    change (zlen (replicate 10 (@None Z))) with 10. split_and!; [done|lia|lia].
  - change (zlen (replicate 10 (@None Z))) with 10. lia.
Qed.

Lemma wp_pop g x xs : rep g (x :: xs) -> wp (pop g) (fun '(y, g') => y = x /\ rep g' xs).
Proof.
  intros (Hnz & Hc & Ho & Hl & junk & Ha & Hm & Hmi). apply Forall_cons in Hnz as [Hx Hnz].
  rewrite zlen_cons in *. pose proof (zlen_nonneg xs). unfold pop. rewrite Ha. simpl.
  rewrite reverse_cons, map_app, <- app_assoc. simpl.
  rewrite rdu_middle by (rewrite zlen_map, zlen_reverse; lia). unfold demand. simpl.
  rewrite (proj2 (Z.eqb_neq _ _) Hx). unfold isEmpty. rewrite Hc, (proj2 (Z.eqb_neq (zlen xs + 1) 0)) by lia. simpl.
  wp_step. wp_step. wp_step. wp_step. apply wp_Ok. split; [done|].
  unfold rep. cbn [counter offset array max]. split_and!; [done|lia|lia|lia|].
  exists (Some x :: junk). rewrite zlen_cons. split_and!; [done|lia|lia].
Qed.

#[export] Instance growing_laws : StackLaws ops rep (fun x => x <> 0) (INT_MAX - 10).
Proof.
  split.
  - intros g xs x. apply wp_push.
  - intros g x xs. apply wp_pop.
  - intros g (_ & _ & Ho & _ & junk & Ha & _). exists OutOfBounds. simpl. unfold pop. rewrite Ha. simpl.
    unfold rdu, rd, in_range. rewrite Ho. simpl. done.
  - intros g x xs (_ & _ & Ho & _ & junk & Ha & _). simpl. unfold top. rewrite Ha. simpl.
    rewrite reverse_cons, map_app, <- app_assoc. simpl. rewrite rdu_middle; [done|].
    rewrite zlen_map, zlen_reverse, Ho, zlen_cons. lia.
  - intros g xs (_ & Hc & _). done.
  - intros g xs (_ & Hc & _). simpl. unfold isEmpty. by rewrite Hc.
Qed.

(** After initStack the stack is empty. *)
Lemma wp_initStack : wp (initStack initial) (fun g => rep g []).
Proof.
  unfold initStack, malloc_cells. rewrite memory. simpl. unfold rep. simpl.
  split_and!; [constructor|done..|]. exists (replicate 10 None). done.
Qed.
End growing.
End GrowingStack.

(** * stack.c: linked nodes *)

Module LinkedStack.

(** struct node; [next] of the source is [nxt] here. *)
Record node := MkNode { data : Z; nxt : ptr; pre : ptr }.

(** The globals head, tmp and count. *)
Record globals := Globals { hp : heap node; head : ptr; tmp : ptr; count : Z; con : console }.

Section linked.
Context (malloc_ok : nat -> bool).

Definition create (g : globals) : globals := Globals (hp g) None (tmp g) (count g) (con g).

Definition push (x : Z) (g : globals) : res globals :=
  let '(p, h) := malloc malloc_ok (MkNode 0 None None) (hp g) in
  if is_null (head g) then
    let* h := store p (MkNode x None None) h in
    let* count := int (count g + 1) in
    Ok (Globals h p (tmp g) count (con g))
  else
    let* h := store p (MkNode x None (head g)) h in
    let* count := int (count g + 1) in
    Ok (Globals h p p count (con g)).

Definition pop (g : globals) : res (Z * globals) :=
  if is_null (head g) then Fail (ExitCall 1)
  else
    let* n := load (head g) (hp g) in
    let returnData := data n in
    let* (h, head) :=
      if is_null (pre n) then Ok (hp g, None)
      else
        let head := pre n in
        let* n' := load head (hp g) in
        let* h := free (nxt n') (hp g) in
        Ok (h, head) in
    let* count := int (count g - 1) in
    Ok (returnData, Globals h head (tmp g) count (con g)).

Definition peek (g : globals) : res Z :=
  if negb (is_null (head g)) then let* n := load (head g) (hp g) in Ok (data n)
  else Fail (ExitCall 1).

Definition size (g : globals) : Z := count g.

Definition isEmpty (g : globals) : Z := if count g =? 0 then 1 else 0.

Definition say (ps : list piece) (g : globals) : globals :=
  Globals (hp g) (head g) (tmp g) (count g) (printf ps (con g)).

Definition state_line (g : globals) : list piece :=
  [PStr ".\t\tCount: "; PInt (size g); PStr ".\tEmpty: "; PInt (isEmpty g); PStr ".\n"].

Definition main (w : console) : res globals :=
  let g := create (Globals (Heap ∅ 0) None None 0 w) in
  let* g := push 4 g in
  let* (x, g) := pop g in
  let g := say (PInt x :: state_line g) g in
  let* g := push 1 g in
  let* g := push 2 g in
  let* g := push 3 g in
  let* (x, g) := pop g in
  let* (y, g) := pop g in
  let g := say ([PInt x; PStr ", "; PInt y] ++ state_line g) g in
  let* (_, g) := pop g in
  let* g := push 5 g in
  let* g := push 6 g in
  let* x := peek g in
  let* g := push 7 g in
  let* (y, g) := pop g in
  let* g := push 8 g in
  let* (z, g) := pop g in
  Ok (say [PInt x; PStr ", "; PInt y; PStr ", "; PInt z; PStr ".\tCount: "; PInt (size g);
           PStr ".\tEmpty: "; PInt (isEmpty g); PStr ".\n"] g).

Definition ops : stack_ops globals := StackOps push pop peek size isEmpty.

(** ** What the globals stand for *)

(** Seen through [pre], the nodes are a singly linked list. *)
Definition back (n : node) : LinkedLists.node := LinkedLists.MkNode (data n) (pre n).

Definition rep (g : globals) (xs : list Z) : Prop :=
  count g = zlen xs /\ zlen xs <= INT_MAX /\
  (forall l n, cells (hp g) !! l = Some n -> nxt n = None) /\
  exists cs, list_at (back <$> cells (hp g)) (head g) cs /\ cs.*2 = xs.

Context (memory : forall k, malloc_ok k = true).

Lemma fresh_loc_fmap (m : gmap loc node) : fresh_loc (back <$> m) = fresh_loc m.
Proof. unfold fresh_loc. by rewrite map_fold_fmap. Qed.

Lemma wp_linked_push g xs x :
  rep g xs -> zlen xs < INT_MAX ->
  wp (push x g) (fun g' => rep g' (x :: xs) /\
    base.size (cells (hp g')) = S (base.size (cells (hp g)))).
Proof.
  destruct g as [h p t c w]. intros (Hc & Hl & Hn & cs & Hcs & <-) Hlt. simpl in *.
  pose proof (zlen_nonneg cs.*2).
  unfold push, malloc. simpl. rewrite memory.
  assert (forall k t', rep (Globals (Heap (<[fresh_loc (cells h) := MkNode x None p]> (cells h)) k)
            (Some (fresh_loc (cells h))) t' (c + 1) w) (x :: cs.*2)) as Hrep.
  { intros k t'. split_and!; simpl.
    - rewrite zlen_cons. lia.
    - rewrite zlen_cons. lia.
    - intros l n. rewrite lookup_insert_Some. intros [[<- <-]|[_ ?]]; [done|eauto].
    - exists ((fresh_loc (cells h), x) :: cs). split; [|done].
      rewrite fmap_insert. rewrite <- fresh_loc_fmap. by apply list_at_push. }
  destruct (is_null p) eqn:Ep.
  - destruct p; [done|]. erewrite store_Ok by (simpl; apply lookup_insert_eq). simpl.
    rewrite insert_insert_eq. wp_step. wp_step. apply wp_Ok.
    split; [apply Hrep|]. simpl. by rewrite map_size_insert_None by apply fresh_loc_fresh.
  - erewrite store_Ok by (simpl; apply lookup_insert_eq). simpl.
    rewrite insert_insert_eq. wp_step. wp_step. apply wp_Ok.
    split; [apply Hrep|]. simpl. by rewrite map_size_insert_None by apply fresh_loc_fresh.
Qed.

Lemma list_at_tail m p l x cs :
  list_at m p ((l, x) :: cs) ->
  p = Some l /\ exists n, m !! l = Some (LinkedLists.MkNode x n) /\ list_at m n cs.
Proof. intros [(-> & n & Hl & Hs) Hnd]. apply NoDup_cons in Hnd as [_ Hnd]. split; [done|]. by exists n. Qed.

(** pop frees nothing: the [next] it passes to free is always NULL. *)
Lemma wp_linked_pop g x xs :
  rep g (x :: xs) ->
  wp (pop g) (fun '(y, g') => y = x /\ rep g' xs /\ cells (hp g') = cells (hp g)).
Proof.
  destruct g as [h p t c w]. intros (Hc & Hl & Hn & cs & Hcs & Exs). simpl in *.
  rewrite zlen_cons in *. pose proof (zlen_nonneg xs).
  destruct cs as [|[l y] cs]; [done|]. simpl in Exs. injection Exs as -> <-.
  apply list_at_tail in Hcs as [-> (q & Hq & Hcs)].
  rewrite lookup_fmap_Some in Hq. destruct Hq as ([d nx pr] & [= -> ->] & Hlk).
  unfold pop. cbn [is_null head hp]. rewrite (load_Ok _ _ _ Hlk). cbn [bind pre data].
  destruct (is_null q) eqn:Eq.
  - destruct q; [done|]. simpl. wp_step. wp_step. apply wp_Ok. split; [done|]. split; [|done].
    split_and!; simpl; [lia|lia|done|by exists cs].
  - pose proof Hcs as Hcs'. destruct cs as [|[k z] cs]; [by apply list_at_nil in Hcs'; subst|].
    apply list_at_tail in Hcs' as [-> (q' & Hq' & _)].
    rewrite lookup_fmap_Some in Hq'. destruct Hq' as ([d' nx' pr'] & [= -> ->] & Hlk').
    rewrite (load_Ok _ _ _ Hlk'). cbn [bind nxt]. rewrite (Hn _ _ Hlk' : nx' = None).
    simpl. unfold free. simpl. wp_step. wp_step. apply wp_Ok. split; [done|]. split; [|done].
    split_and!; simpl in *; [lia|lia|done|by eexists].
Qed.

#[export] Instance linked_laws : StackLaws ops rep (fun _ => True) INT_MAX.
Proof.
  split.
  - intros g xs x Hg _ Hl. eapply wp_mono; [by apply wp_linked_push|]. by intros g' [? _].
  - intros g x xs Hg. eapply wp_mono; [by apply wp_linked_pop|]. intros [y g']. tauto.
  - intros g (_ & _ & _ & cs & Hcs & Exs). apply fmap_nil_inv in Exs as ->. apply list_at_nil in Hcs.
    exists (ExitCall 1). simpl. unfold pop. by rewrite Hcs.
  - intros g x xs (_ & _ & _ & cs & Hcs & Exs). destruct cs as [|[l y] cs]; [done|].
    simpl in Exs. injection Exs as -> <-. apply list_at_tail in Hcs as [Hp (q & Hq & _)].
    rewrite lookup_fmap_Some in Hq. destruct Hq as (n & [= <- _] & Hlk). simpl.
    unfold peek. rewrite Hp. simpl. by rewrite (load_Ok _ _ _ Hlk).
  - intros g xs (Hc & _). done.
  - intros g xs (Hc & _). simpl. unfold isEmpty. by rewrite Hc.
Qed.

(** Nodes are never freed: a script leaves one block for every push. *)
Lemma script_leaks rs g xs out xs' :
  rep g xs -> expect_all rs xs = Some (out, xs') -> zlen xs + zlen (pushed rs) <= INT_MAX ->
  wp (script ops rs g) (fun '(_, g') =>
    base.size (cells (hp g')) = (base.size (cells (hp g)) + length (pushed rs))%nat).
Proof.
  revert g xs out. induction rs as [|r rs IH]; intros g xs out Hg He Hcap; [simpl; lia|].
  cbn [script expect_all] in *. rewrite pushed_cons in *.
  destruct (expect r xs) as [[o1 xs1]|] eqn:E1; [|done]. simpl in He.
  destruct (expect_all rs xs1) as [[o2 xs2]|] eqn:E2; [|done]. simpl in He. simplify_eq.
  assert (wp (serve ops r g) (fun '(_, g') => rep g' xs1 /\ zlen xs1 + zlen (pushed rs) <= INT_MAX /\
    (base.size (cells (hp g')) + length (pushed rs) =
     base.size (cells (hp g)) + length (match r with Push x => x :: pushed rs | _ => pushed rs end))%nat)) as Hs.
  { destruct r as [x| | | |]; simpl in *.
    - simplify_eq. rewrite !zlen_cons in *. pose proof (zlen_nonneg (pushed rs)).
      wp_step. eapply wp_mono; [apply wp_linked_push; [exact Hg|lia]|]. intros g' [Hg' Hsz]. simpl.
      split_and!; [done|lia|lia].
    - destruct xs as [|x xs]; [done|]. simplify_eq. rewrite zlen_cons in Hcap. wp_step.
      eapply wp_mono; [by apply wp_linked_pop|]. intros [y g'] (_ & Hg' & Hc). simpl. rewrite Hc.
      split_and!; [done|lia|lia].
    - destruct xs as [|x xs]; [done|]. simplify_eq. wp_step.
      pose proof (law_peek (ops := ops) _ _ _ Hg) as Hp. simpl in Hp. by rewrite Hp.
    - by simplify_eq.
    - by simplify_eq. }
  wp_step. eapply wp_mono; [exact Hs|]. intros [o1' g1] (Hg1 & Hc1 & Hsz). wp_step.
  eapply wp_mono; [by eapply IH|]. intros [o2' g2] Hsz2. simpl. lia.
Qed.
End linked.

Definition initial (w : console) : globals := create (Globals (Heap ∅ 0) None None 0 w).

Lemma initial_rep w : rep (initial w) [].
Proof.
  split_and!; [done..| |].
  - intros l n. simpl. by rewrite lookup_empty.
  - exists []. split; [|done]. by apply list_at_nil.
Qed.

(** What main prints: the numbers its comments promise. *)
Lemma linked_main_prints :
  (let* g := main (fun _ => true) (Console [] []) in Ok (output (con g))) = Ok
    ([PInt 4; PStr ".\t\tCount: "; PInt 0; PStr ".\tEmpty: "; PInt 1; PStr ".\n"] ++
     [PInt 3; PStr ", "; PInt 2; PStr ".\t\tCount: "; PInt 1; PStr ".\tEmpty: "; PInt 0; PStr ".\n"] ++
     [PInt 6; PStr ", "; PInt 7; PStr ", "; PInt 8; PStr ".\tCount: "; PInt 2; PStr ".\tEmpty: "; PInt 0;
      PStr ".\n"]).
Proof. vm_compute. reflexivity. Qed.
End LinkedStack.

(** The growing array of stack/stack.c and the linked nodes of stack.c are
    both stacks: on every script of push, pop, top, size and isEmpty that never
    takes from an empty stack, both return, call by call, the results of a
    plain list (so they agree with each other), through any number of growths;
    and the linked stack leaves one block behind for every push, because what
    its pop passes to free is always NULL. *)
Theorem stacks_agree malloc_ok rs out xs w :
  (forall k, malloc_ok k = true) ->
  expect_all rs [] = Some (out, xs) ->
  Forall (fun x => x <> 0) (pushed rs) -> zlen (pushed rs) <= INT_MAX - 10 ->
  wp (let* g := GrowingStack.initStack malloc_ok GrowingStack.initial in
      script (GrowingStack.ops malloc_ok) rs g) (fun '(out', g) =>
    out' = out /\ GrowingStack.rep g xs) /\
  wp (script (LinkedStack.ops malloc_ok) rs (LinkedStack.initial w)) (fun '(out', g) =>
    out' = out /\ LinkedStack.rep g xs /\
    base.size (cells (LinkedStack.hp g)) = length (pushed rs)).
Proof.
  intros Hm He Hnz Hlen.
  pose proof (GrowingStack.growing_laws malloc_ok Hm). pose proof (LinkedStack.linked_laws malloc_ok Hm).
  split.
  - wp_step. eapply wp_mono; [by apply GrowingStack.wp_initStack|]. intros g Hg.
    apply (wp_script (ops := GrowingStack.ops malloc_ok) (rep := GrowingStack.rep)
             (fits := fun x => x <> 0) (cap := INT_MAX - 10) rs g []); [exact Hg|done..].
  - eapply wp_mono; [apply wp_and|].
    + apply (wp_script (ops := LinkedStack.ops malloc_ok) (rep := LinkedStack.rep)
               (fits := fun _ => True) (cap := INT_MAX) rs _ []);
        [apply LinkedStack.initial_rep|exact He|by apply Forall_true|unfold zlen in *; simpl; lia].
    + eapply LinkedStack.script_leaks; [done|apply LinkedStack.initial_rep|exact He|].
      unfold zlen in *. simpl. lia.
    + intros [out' g]. simpl. tauto.
Qed.

Lemma stacks_agree_witness :
  wp (let* g := GrowingStack.initStack (fun _ => true) GrowingStack.initial in
      script (GrowingStack.ops (fun _ => true)) [Push 4; Push 5; Pop; Size; Peek] g) (fun '(out, g) =>
    out = [5; 1; 4] /\ GrowingStack.rep g [4]) /\
  wp (script (LinkedStack.ops (fun _ => true)) [Push 4; Push 5; Pop; Size; Peek]
        (LinkedStack.initial (Console [] []))) (fun '(out, g) =>
    out = [5; 1; 4] /\ LinkedStack.rep g [4] /\ base.size (cells (LinkedStack.hp g)) = 2%nat).
Proof.
  apply (stacks_agree (fun _ => true) [Push 4; Push 5; Pop; Size; Peek] [5; 1; 4] [4] (Console [] [])).
  - intros k. reflexivity.
  - vm_compute. reflexivity.
  - repeat constructor; discriminate.
  - vm_compute. discriminate.
Defined.

(** * stack/main.c: the menu on an array *)

Module ArrayStack.

(** [int n, a[100], top = 0;] *)
Record state := State { a : list (option Z); top : Z; con : console }.

Definition push (st : state) : res state :=
  let w := printf [PStr "\nenter the value to insert"] (con st) in
  let* (n, w) := scanf w in
  let* top := int (top st + 1) in
  let* a := wr (a st) top (Some n) in
  Ok (State a top w).

Definition pop (st : state) : res state :=
  if top st =? 0 then Ok (State (a st) (top st) (printf [PStr "\nstack is empty"] (con st)))
  else
    let* item := rdu (a st) (top st) in
    let* top := int (top st - 1) in
    Ok (State (a st) top (printf [PStr "\npoped item is "; PInt item; PStr " "] (con st))).

(** The index a position from the top stands for. *)
Definition place (st : state) (i : Z) : res Z :=
  let* d := int (top st - i) in int (d + 1).

Definition peep (st : state) : res state :=
  let w := printf [PStr "\nenter the element position to view from top"] (con st) in
  let* (i, w) := scanf w in
  let* k := place st i in
  if k <? 0 then Ok (State (a st) (top st) (printf [PStr "\nunderflow condition"] w))
  else
    let* x := rdu (a st) k in
    Ok (State (a st) (top st)
          (printf [PStr "\nthe "; PInt i; PStr "th element from top is "; PInt x] w)).

Definition update (st : state) : res state :=
  let w := printf [PStr "\nenter the position to update"] (con st) in
  let* (i, w) := scanf w in
  let w := printf [PStr "\nenter the item to insert"] w in
  let* (n, w) := scanf w in
  let* k := place st i in
  if k <? 0 then Ok (State (a st) (top st) (printf [PStr "\nunderflow condition"] w))
  else
    let* a := wr (a st) k (Some n) in
    Ok (State a (top st) w).

Definition menu : list piece :=
  [PStr "\n1.push"; PStr "\n2.pop"; PStr "\n3.peep"; PStr "\n4.update"; PStr "\nenter your choice"].

(** One turn of the endless loop. *)
Definition turn (st : state) : res state :=
  let w := printf menu (con st) in
  let* (x, w) := scanf w in
  let st := State (a st) (top st) w in
  if x =? 1 then push st
  else if x =? 2 then pop st
  else if x =? 3 then peep st
  else if x =? 4 then update st
  else Ok (State (a st) (top st) (printf [PStr "\ninvalid choice"] w)).

(** The loop reads a number each turn and has no exit. *)
Definition main (w : console) : res state :=
  loop (S (length (input w))) (fun st => let* st := turn st in Ok (inl st)) (State (uninit 100) 0 w).

(** ** What the array stands for *)

(** Cell 0 is never used by push; the stack is above it. *)
Definition rep (st : state) (xs : list Z) : Prop :=
  top st = zlen xs /\ exists c junk,
    a st = c :: map Some (reverse xs) ++ junk /\ 1 + zlen xs + zlen junk = 100.

(** Popping returns what was pushed last, for up to 99 elements; the next
    push writes past the array. *)
Lemma array_push_spec st xs x i :
  rep st xs -> input (con st) = x :: i ->
  match push st with
  | Ok st' => zlen xs < 99 /\ rep st' (x :: xs) /\ input (con st') = i
  | Fail f => zlen xs = 99 /\ f = OutOfBounds
  end.
Proof.
  intros (Ht & c & junk & Ha & Hlen) Hi. pose proof (zlen_nonneg xs). pose proof (zlen_nonneg junk).
  unfold push, scanf. simpl. rewrite Hi. simpl. rewrite int_Ok by code_lia. simpl.
  destruct junk as [|d junk].
  - change (zlen (@nil (option Z))) with 0 in Hlen. unfold wr, in_range.
    rewrite Ha, Ht, zlen_cons, zlen_app, zlen_map, zlen_reverse.
    change (zlen (@nil (option Z))) with 0.
    rewrite (proj2 (Z.ltb_ge _ _)) by lia. rewrite andb_false_r. simpl. split; [lia|done].
  - rewrite zlen_cons in Hlen. pose proof (zlen_nonneg junk). rewrite Ha. rewrite (app_comm_cons (map Some (reverse xs)) (d :: junk) c).
    rewrite wr_middle by (rewrite zlen_cons, zlen_map, zlen_reverse; lia). simpl.
    split_and!; [lia| |done]. split; [simpl; rewrite zlen_cons; lia|]. exists c, junk. simpl.
    rewrite reverse_cons, map_app, <- app_assoc, zlen_cons. split; [done|lia].
Qed.

Lemma array_pop_spec st xs :
  rep st xs ->
  match xs with
  | [] => pop st = Ok (State (a st) 0 (printf [PStr "\nstack is empty"] (con st)))
  | x :: xs' =>
      wp (pop st) (fun st' => rep st' xs' /\
        con st' = printf [PStr "\npoped item is "; PInt x; PStr " "] (con st))
  end.
Proof.
  intros (Ht & c & junk & Ha & Hlen). unfold pop. destruct xs as [|x xs]; [by rewrite Ht|].
  rewrite zlen_cons in Ht, Hlen. pose proof (zlen_nonneg xs). pose proof (zlen_nonneg junk).
  rewrite (proj2 (Z.eqb_neq (top st) 0)) by lia. rewrite Ha, reverse_cons, map_app, <- app_assoc. simpl.
  rewrite app_comm_cons. rewrite rdu_middle by (rewrite zlen_cons, zlen_map, zlen_reverse; lia).
  simpl. wp_step. wp_step. apply wp_Ok. split; [|done]. split; [simpl; lia|].
  exists c, (Some x :: junk). rewrite zlen_cons. split; [done|lia].
Qed.

(** Position [i] from the top is the i-th element of the stack. *)
Lemma array_peep_spec st xs i rest :
  rep st xs -> input (con st) = i :: rest -> 1 <= i <= zlen xs ->
  wp (peep st) (fun st' => rep st' xs /\ output (con st') = output (con st) ++
    [PStr "\nenter the element position to view from top";
     PStr "\nthe "; PInt i; PStr "th element from top is "; PInt xs.[i - 1]]).
Proof.
  intros (Ht & c & junk & Ha & Hlen) Hi Hr.
  destruct (aget_split xs (i - 1)) as (pre & post & E & Hpre); [lia|].
  assert (zlen xs = zlen pre + 1 + zlen post) as Hl by (rewrite E, zlen_app, zlen_cons; lia).
  pose proof (zlen_nonneg post). pose proof (zlen_nonneg junk).
  unfold peep, scanf, place. simpl. rewrite Hi. simpl. rewrite int_Ok by code_lia. simpl.
  rewrite int_Ok by code_lia. simpl. rewrite (proj2 (Z.ltb_ge _ 0)) by lia.
  assert (a st = (c :: map Some (reverse post)) ++ Some xs.[i - 1] :: map Some (reverse pre) ++ junk) as Ha'.
  { rewrite Ha. revert E. generalize (xs.[i - 1]). intros v ->. rewrite reverse_app, reverse_cons, !map_app.
    simpl. by rewrite <- !app_assoc. }
  rewrite Ha' at 1. rewrite rdu_middle by (rewrite zlen_cons, zlen_map, zlen_reverse; lia). simpl.
  split; [|by rewrite <- app_assoc]. split; [done|]. exists c, junk. split; [done|lia].
Qed.

(** Position top + 1 is accepted by the underflow test and reads the cell
    that no push writes. *)
Lemma array_peep_bottom :
  peep (State (uninit 100) 0 (Console [1] [])) = Fail Uninit.
Proof. vm_compute. reflexivity. Qed.

End ArrayStack.

(** * queue.c *)

Module UnfinishedQueue.

(** The nodes; a field that enque leaves unwritten is indeterminate. *)
Record node := MkNode { data : Z; nxt : option ptr; pre : option ptr }.

Record globals := Globals { hp : heap node; head : ptr; tail : ptr; tmp : ptr; count : Z }.

Section queue.
Context (malloc_ok : nat -> bool).

Definition create (g : globals) : globals := Globals (hp g) None None (tmp g) (count g).

Definition enque (x : Z) (g : globals) : res globals :=
  let '(p, h) := malloc malloc_ok (MkNode 0 None None) (hp g) in
  if is_null (head g) then
    let* h := store p (MkNode x None (Some None)) h in
    Ok (Globals h p p (tmp g) (count g))
  else
    let* h := store p (MkNode x (Some (tail g)) None) h in
    Ok (Globals h (head g) p p (count g)).

(** No path of deque returns a value. *)
Definition deque (g : globals) : res (Z * globals) :=
  if is_null (head g) then Fail (ExitCall 1)
  else
    let* n := load (head g) (hp g) in
    let* p := match pre n with Some p => Ok p | None => Fail Uninit end in
    let head := if is_null p then None else p in
    let* n' := load head (hp g) in
    let* h := store head (MkNode (data n') (Some None) (pre n')) (hp g) in
    Fail NoReturn.

Definition size (g : globals) : Z := count g.

Definition main : res globals :=
  let g := create (Globals (Heap ∅ 0) None None None 0) in
  enque 5 g.

Fixpoint enque_all (xs : list Z) (g : globals) : res globals :=
  match xs with [] => Ok g | x :: xs => let* g := enque x g in enque_all xs g end.

Context (memory : forall k, malloc_ok k = true).

(** The head stays the first node, whose [pre] is NULL. *)
Lemma enque_all_head xs g l y p :
  count g = 0 -> head g = Some l -> cells (hp g) !! l = Some (MkNode y p (Some None)) ->
  wp (enque_all xs g) (fun g => size g = 0 /\ deque g = Fail NullDeref).
Proof.
  revert g. induction xs as [|z xs IH]; intros g Hc Hh Hl.
  - simpl. split; [done|]. unfold deque. rewrite Hh. simpl. rewrite (load_Ok _ _ _ Hl). done.
  - cbn [enque_all]. wp_step. unfold enque, malloc. rewrite memory, Hh. simpl.
    erewrite store_Ok by (simpl; apply lookup_insert_eq). simpl. apply IH; [done..|]. simpl.
    rewrite insert_insert_eq, lookup_insert_ne; [done|]. intros E. by rewrite <- E, fresh_loc_fresh in Hl.
Qed.

(** Whatever was put in, nothing comes out: an empty queue exits, any other
    one dereferences NULL; and the size stays 0. *)
Lemma deque_never_returns xs :
  wp (enque_all xs (create (Globals (Heap ∅ 0) None None None 0))) (fun g =>
    size g = 0 /\ deque g = Fail (match xs with [] => ExitCall 1 | _ => NullDeref end)).
Proof.
  destruct xs as [|x xs]; [done|]. cbn [enque_all]. wp_step. unfold enque, malloc. simpl.
  rewrite memory. erewrite store_Ok by (simpl; apply lookup_insert_eq). cbn [bind cells calls wp].
  eapply enque_all_head; [done..|]. simpl. apply lookup_insert_eq.
Qed.
End queue.
End UnfinishedQueue.
