(* ===== verification/Trie.v ===== *)
(** * The dictionary trie of data_structures/trie/trie.c

    Nodes are never shared and never freed, so a trie is an inductive value;
    a word is the list of its characters.  fgets leaves the newline at the end
    of each word of the dictionary, and insert marks the node it reaches one
    character before the end of its argument. *)

From S2P Require Import Prelude Arrays.
From Stdlib Require Import Sorted.
Open Scope Z_scope.
#[local] Set Warnings "-register-all".

Definition ALPHABET_SIZE : Z := 26.
Definition NUMBER_OF_WORDS : Z := 354935.
Definition INPUT_WORD_SIZE : Z := 100.

(** [character] is indeterminate until it is written; NULL is [None]. *)
Inductive TrieNode :=
  | MkTrie (children : list (option TrieNode)) (character : option Z) (isEndOfWord : bool).

Definition children (t : TrieNode) := match t with MkTrie ch _ _ => ch end.
Definition character (t : TrieNode) := match t with MkTrie _ c _ => c end.
Definition isEndOfWord (t : TrieNode) := match t with MkTrie _ _ e => e end.

(** Which calls of malloc succeed; the calls are counted.  No result is
    tested, so that a failed call ends at the next access through NULL. *)
Section malloc.
Context (malloc_ok : nat -> bool).

(** A node after [createTrieNode]. *)
Definition new_node : TrieNode := MkTrie (replicate (Z.to_nat ALPHABET_SIZE) None) None false.

Definition createTrieNode (n : nat) : res (TrieNode * nat) :=
  if malloc_ok n then Ok (new_node, S n) else Fail NullDeref.

(** [root->children[character-97]] *)
Definition child (root : TrieNode) (character : Z) : res (option TrieNode) :=
  rd (children root) (character - 97).

(** Only a word of one character ends the recursion; the empty word has
    strlen(word)-1 != 0 as well and goes on with its terminator, whose cell
    children[-97] does not exist. *)
Fixpoint insert (root : TrieNode) (word : list Z) (n : nat) : res (TrieNode * nat) :=
  match word with
  | [] => Fail OutOfBounds
  | [_] => Ok (MkTrie (children root) (character root) true, n)
  | letter :: word =>
      let* c := child root letter in
      let* (node, n) := match c with
                        | None =>
                            let* (node, n) := createTrieNode n in
                            Ok (MkTrie (children node) (Some letter) (isEndOfWord node), n)
                        | Some node => Ok (node, n)
                        end in
      let* (node, n) := insert node word n in
      let* ch := wr (children root) (letter - 97) (Some node) in
      Ok (MkTrie ch (character root) (isEndOfWord root), n)
  end.

Fixpoint search (root : TrieNode) (word : list Z) (w : console) : res (option TrieNode * console) :=
  match word with
  | [] => Ok (Some root, w)
  | character :: word =>
      let* c := child root character in
      match c with
      | Some temp => search temp word w
      | None => Ok (None, printf [PStr "No possible words!!\n"] w)
      end
  end.

Definition printArray (chars : list (option Z)) (len : Z) (w : console) : res console :=
  let* w := for_up 0 len (fun i w =>
    let* c := rdu chars i in
    Ok (printf [PChar c] w)) w in
  Ok (printf [PStr "\n"] w).

(** [for (i = 0; i < ALPHABET_SIZE; i++) printPathsRecur(node->children[i], ...)]
    over the cells of the array; for a NULL child the call returns at once. *)
Definition print_children
    (printPathsRecur : TrieNode -> list (option Z) -> console -> res (list (option Z) * console)) :
    list (option TrieNode) -> list (option Z) -> console -> res (list (option Z) * console) :=
  fix print_children cs prefix w :=
    match cs with
    | [] => Ok (prefix, w)
    | None :: cs => print_children cs prefix w
    | Some n :: cs =>
        let* (prefix, w) := printPathsRecur n prefix w in
        print_children cs prefix w
    end.

Fixpoint printPathsRecur (node : TrieNode) (prefix : list (option Z)) (filledLen : Z) (w : console)
    : res (list (option Z) * console) :=
  match node with
  | MkTrie ch character isEnd =>
      let* c := match character with Some c => Ok c | None => Fail Uninit end in
      let* prefix := wr prefix filledLen (Some c) in
      let* filledLen := int (filledLen + 1) in
      let* w := if isEnd : bool then printArray prefix filledLen w else Ok w in
      print_children (fun n prefix w => printPathsRecur n prefix filledLen w) ch prefix w
  end.

(** The characters before the terminator. *)
Fixpoint cstr (s : list (option Z)) : res (list Z) :=
  match s with
  | [] => Fail OutOfBounds
  | None :: _ => Fail Uninit
  | Some c :: s => if c =? 0 then Ok [] else let* cs := cstr s in Ok (c :: cs)
  end.

Definition traverse (prefix : list (option Z)) (root : TrieNode) (w : console)
    : res (list (option Z) * console) :=
  let* word := cstr prefix in
  let* (temp, w) := search root word w in
  let j := zlen word in
  match temp with
  | None => Ok (prefix, w)
  | Some node => printPathsRecur node prefix (j - 1) w
  end.

(** A cell of the array of words: not written, a fresh buffer, a buffer with
    a line. *)
Definition words_cell : Type := option (option (list Z)).

(** [words[word_count] = malloc(INPUT_WORD_SIZE)]; the call of fgets that follows
    takes the buffer. *)
Definition new_word (word_count : Z) (words : list words_cell) (n : nat) : res (list words_cell * nat) :=
  let* words := wr words word_count (Some None) in
  if malloc_ok n then Ok (words, S n) else Fail NullDeref.

(** The reading loop: the lines are what fgets returns. *)
Fixpoint read_words (lines : list (list Z)) (word_count : Z) (words : list words_cell) (n : nat)
    : res (list words_cell * nat) :=
  match lines with
  | [] => Ok (words, n)
  | line :: lines =>
      let* words := wr words word_count (Some (Some line)) in
      let* (words, n) := new_word (word_count + 1) words n in
      read_words lines (word_count + 1) words n
  end.

Definition load_words (lines : list (list Z)) : res TrieNode :=
  let words := replicate (Z.to_nat NUMBER_OF_WORDS) None in
  let* (words, n) := new_word 0 words 0 in
  let* (words, n) := read_words lines 0 words n in
  let* (root, n) := createTrieNode n in
  let* (root, _) := for_up 0 NUMBER_OF_WORDS (fun i '(root, n) =>
    let* c := rd words i in
    match c with
    | Some (Some word) => insert root word n
    | _ => Fail Uninit
    end) (root, n) in
  Ok root.

(** One turn of the endless loop, for a keyword read by [scanf("%99s")]: the
    rest of the buffer is not written. *)
Definition answer (root : TrieNode) (str : list Z) (w : console) : res console :=
  let w := printf [PStr "Enter keyword: "] w in
  let w := printf [PStr "\n==========================================================\n";
                   PStr "\n********************* Possible Words ********************\n"] w in
  let buf := map Some str ++ Some 0 :: replicate (99 - length str) None in
  let* (_, w) := traverse buf root w in
  Ok (printf [PStr "\n==========================================================\n"] w).

(** The turns; the session ends with the keywords. *)
Fixpoint answer_all (root : TrieNode) (strs : list (list Z)) (w : console) : res console :=
  match strs with
  | [] => Ok w
  | str :: strs => let* w := answer root str w in answer_all root strs w
  end.

Definition main (fp : option (list (list Z))) (strs : list (list Z)) (w : console) : res console :=
  match fp with
  | None => Fail (ExitCall 1)
  | Some lines =>
      let* root := load_words lines in
      answer_all root strs w
  end.
End malloc.

(** A fault of a failed call of malloc. *)
Definition no_memory (malloc_ok : nat -> bool) (f : fault) : Prop := f = NullDeref /\ exists n, malloc_ok n = false.

(** ** The set of words *)

Definition lower (c : Z) : Prop := 97 <= c <= 122.

(** The node a path leads to. *)
Fixpoint follow (t : TrieNode) (v : list Z) : option TrieNode :=
  match v with
  | [] => Some t
  | c :: v => match children t !! Z.to_nat (c - 97) with
              | Some (Some n) => follow n v
              | _ => None
              end
  end.

Definition is_word (t : TrieNode) (v : list Z) : Prop :=
  Forall lower v /\ exists n, follow t v = Some n /\ isEndOfWord n = true.

(** A trie of depth at most [d]: 26 cells at each node, each child labelled
    with its letter and leading to a word. *)
Fixpoint wf (d : nat) (t : TrieNode) : Prop :=
  length (children t) = 26%nat /\
  forall i n, children t !! i = Some (Some n) ->
    character n = Some (97 + Z.of_nat i) /\ (exists v, is_word n v) /\
    match d with O => False | S d => wf d n end.

Lemma wf_mono d d' t : wf d t -> (d <= d')%nat -> wf d' t.
Proof.
  revert d' t. induction d as [|d IH]; intros [|d'] t; simpl; try lia; try done.
  - intros [H1 H2] _. split; [done|]. intros i n Hi. by destruct (H2 i n Hi) as (_ & _ & []).
  - intros [H1 H2] Hd. split; [done|]. intros i n Hi. destruct (H2 i n Hi) as (? & ? & Hn).
    split_and!; [done..|]. apply IH; [done|lia].
Qed.

Lemma wf_length d t : wf d t -> zlen (children t) = 26.
Proof. unfold zlen. destruct d; simpl; intros [-> _]; done. Qed.

Lemma wf_child d t i n :
  wf d t -> children t !! i = Some (Some n) ->
  character n = Some (97 + Z.of_nat i) /\ (exists v, is_word n v) /\ exists d', d = S d' /\ wf d' n.
Proof. destruct d; simpl; intros [_ H] Hi; destruct (H i n Hi) as (? & ? & Hn); [done|]. eauto. Qed.

Lemma create_children i n : children new_node !! i = Some (Some n) -> False.
Proof. intros Hi. change (replicate 26 None !! i = Some (Some n)) in Hi. by apply lookup_replicate in Hi as [[=] _]. Qed.

Lemma wf_create c : wf 0 (MkTrie (children new_node) c false).
Proof.
  split; [done|]. intros i n Hi. by apply create_children in Hi.
Qed.

Lemma child_Ok d t c : wf d t -> lower c -> exists o, child t c = Ok o /\ children t !! Z.to_nat (c - 97) = Some o.
Proof.
  intros Hw Hc. pose proof (wf_length _ _ Hw) as Hl. unfold lower in Hc. unfold child.
  exists (children t).[c - 97]. split; [apply rd_Ok; lia|]. unfold aget.
  apply list_lookup_lookup_total_lt. unfold zlen in Hl. lia.
Qed.

Lemma lower_index c c' : lower c -> lower c' -> Z.to_nat (c - 97) = Z.to_nat (c' - 97) -> c = c'.
Proof. unfold lower. lia. Qed.

Lemma is_word_cons t c v : is_word t (c :: v) <->
  lower c /\ exists n, children t !! Z.to_nat (c - 97) = Some (Some n) /\ is_word n v.
Proof.
  unfold is_word. rewrite Forall_cons. simpl. split.
  - intros ([Hc Hv] & n & Hf & He). split; [done|]. repeat case_match; try done. eauto 6.
  - intros (Hc & m & Hm & Hv & n & Hf & He). rewrite Hm. eauto.
Qed.

(** Inserting a word and its last character adds the word, and only it. *)
Lemma runs_trie_insert malloc_ok v x t d n :
  wf d t -> Forall lower v ->
  runs (insert malloc_ok t (v ++ [x]) n) (no_memory malloc_ok) (fun '(t', _) =>
    wf (max d (length v)) t' /\ character t' = character t /\
    forall u, is_word t' u <-> u = v \/ is_word t u).
Proof.
  revert t d n. induction v as [|c v IH]; intros t d n0 Hw Hv.
  - simpl. split_and!; [|done|].
    + rewrite Nat.max_0_r. destruct d; exact Hw.
    + intros [|c u].
      * split; [by left|]. intros _. split; [constructor|]. by eexists.
      * rewrite !is_word_cons. simpl. naive_solver.
  - apply Forall_cons in Hv as [Hc Hv]. destruct (child_Ok _ _ _ Hw Hc) as (o & Ho & Hl).
    assert (insert malloc_ok t ((c :: v) ++ [x]) n0 =
      let* c0 := child t c in
      let* (node, n) := match c0 with
                        | None => let* (node, n) := createTrieNode malloc_ok n0 in Ok (MkTrie (children node) (Some c) (isEndOfWord node), n)
                        | Some n => Ok (n, n0)
                        end in
      let* (node, n) := insert malloc_ok node (v ++ [x]) n in
      let* ch := wr (children t) (c - 97) (Some node) in
      Ok (MkTrie ch (character t) (isEndOfWord t), n)) as -> by (by destruct v).
    rewrite Ho. cbn [bind]. apply runs_bind. set (node := match o with None => MkTrie (children new_node) (Some c) false | Some n => n end).
    assert (runs (match o with
                  | None => let* (node, n) := createTrieNode malloc_ok n0 in Ok (MkTrie (children node) (Some c) (isEndOfWord node), n)
                  | Some n => Ok (n, n0)
                  end) (no_memory malloc_ok) (fun '(m, _) => m = node)) as Hm.
    { subst node. destruct o; [done|]. unfold createTrieNode. destruct (malloc_ok n0) eqn:Em; [done|]. split; [done|]. by exists n0. }
    eapply runs_mono; [exact Hm|done|]. intros [m n1] ->. clear Hm.
    assert (character node = Some c /\ exists d', wf d' node /\ (d' <= pred d)%nat) as (Hch & d' & Hwn & Hd').
    { unfold lower in Hc. destruct o as [n|]; subst node.
      - destruct (wf_child _ _ _ _ Hw Hl) as (-> & _ & d' & -> & Hn). split; [f_equal; lia|]. eauto.
      - split; [done|]. exists 0%nat. split; [apply wf_create|lia]. }
    apply runs_bind. eapply runs_mono; [by apply (IH node d')|done|]. intros [n' n2] (Hwn' & Hcn & Hin).
    pose proof (wf_length _ _ Hw). unfold lower in Hc. rewrite wr_Ok by lia. simpl.
    assert (forall u, is_word node u -> is_word t (c :: u)) as Hnode.
    { intros u Hu. apply is_word_cons. split; [done|]. subst node. destruct o as [n|]; [eauto|].
      destruct u as [|k u]; [by destruct Hu as (_ & m & [= <-] & He)|].
      apply is_word_cons in Hu as (_ & m & Hm & _). by apply create_children in Hm. }
    assert (forall i, upd (children t) (c - 97) (Some n') !! i =
      if decide (i = Z.to_nat (c - 97)) then Some (Some n') else children t !! i) as Hupd.
    { intros i. unfold upd. unfold zlen in *. case_decide as Hi; [subst i|by apply list_lookup_insert_ne].
      apply list_lookup_insert_eq. lia. }
    split_and!; [|done|].
    + replace (Nat.max d (S (length v))) with (S (Nat.max (pred d) (length v))) by lia.
      split; [simpl; unfold upd; rewrite length_insert; unfold zlen in *; lia|].
      intros i n. cbn [children]. rewrite Hupd. case_decide as Hi.
      * intros [= <-]. subst i. split_and!; [rewrite Hcn, Hch; f_equal; lia| |].
        { exists v. apply Hin. by left. }
        apply (wf_mono _ _ _ Hwn'). lia.
      * intros Hn. destruct (wf_child _ _ _ _ Hw Hn) as (? & ? & d2 & -> & Hwn2).
        split_and!; [done..|]. apply (wf_mono _ _ _ Hwn2). lia.
    + intros [|k u].
      * split; [|intros [[=]|(Hu & m & [= <-] & He)]; split; [done|by eexists]]. intros (Hu & m & [= <-] & He). right. split; [done|]. by exists t.
      * rewrite is_word_cons. cbn [children]. setoid_rewrite Hupd. split.
        { intros (Hk & m & Hm & Hu). case_decide as Hi.
          - injection Hm as <-. apply lower_index in Hi as ->; [|done..].
            apply Hin in Hu as [->|Hu]; [by left|right; by apply Hnode].
          - right. apply is_word_cons. eauto. }
        intros [[= -> ->]|Hu].
        { split; [done|]. exists n'. rewrite decide_True by done. split; [done|]. apply Hin. by left. }
        apply is_word_cons in Hu as (Hk & m & Hm & Hu). split; [done|]. case_decide as Hi; [|by exists m].
        apply lower_index in Hi as ->; [|done..]. rewrite Hl in Hm. injection Hm as ->.
        exists n'. split; [done|]. apply Hin. by right.
Qed.

(** ** Searching *)

Lemma search_follow d t p w :
  wf d t -> Forall lower p ->
  search t p w = Ok (follow t p, match follow t p with
                                 | Some _ => w
                                 | None => printf [PStr "No possible words!!\n"] w
                                 end).
Proof.
  revert d t. induction p as [|c p IH]; intros d t Hw Hp; simpl; [done|].
  apply Forall_cons in Hp as [Hc Hp]. destruct (child_Ok _ _ _ Hw Hc) as (o & -> & Hl). simpl.
  rewrite Hl. destruct o as [n|]; [|done].
  destruct (wf_child _ _ _ _ Hw Hl) as (_ & _ & d' & -> & Hn). by apply (IH d').
Qed.

Lemma follow_wf d t p n :
  wf d t -> Forall lower p -> follow t p = Some n ->
  exists d', wf d' n /\ (d' + length p <= d)%nat /\
    (p <> [] -> (exists v, is_word n v) /\ character n = last p).
Proof.
  revert d t. induction p as [|c p IH]; intros d t Hw Hp; simpl.
  { intros [= ->]. exists d. split_and!; [done|lia|done]. }
  apply Forall_cons in Hp as [Hc Hp]. destruct (child_Ok _ _ _ Hw Hc) as (o & _ & Hl).
  rewrite Hl. destruct o as [m|]; [|done].
  destruct (wf_child _ _ _ _ Hw Hl) as (Hch & Hv & d1 & -> & Hm). intros Hf.
  destruct (IH d1 m Hm Hp Hf) as (d2 & Hn & Hd & Hne). exists d2. split_and!; [done|lia|]. intros _.
  destruct p as [|k p]; [|destruct Hne as [? Hlast]; [done|]; split; [done|]; by rewrite Hlast].
  simpl in Hf. injection Hf as ->. split; [done|]. rewrite Hch. unfold lower in Hc. simpl. f_equal. lia.
Qed.

Lemma follow_words t p v :
  Forall lower p -> is_word t (p ++ v) <-> exists n, follow t p = Some n /\ is_word n v.
Proof.
  revert t. induction p as [|c p IH]; intros t Hp; simpl.
  { split; [eauto|]. by intros (n & [= ->] & ?). }
  apply Forall_cons in Hp as [Hc Hp]. rewrite is_word_cons. split.
  - intros (_ & n & -> & Hn). by apply IH.
  - intros (n & Hf & Hn). split; [done|]. repeat case_match; try done. eexists. split; [done|].
    apply IH; eauto.
Qed.

(** ** Listing *)

(** Dictionary order. *)
Fixpoint lex (u v : list Z) : Prop :=
  match u, v with
  | _, [] => False
  | [], _ :: _ => True
  | x :: u, y :: v => x < y \/ x = y /\ lex u v
  end.

(** The words below a node in the order of the recursion. *)
Fixpoint words (d : nat) (t : TrieNode) : list (list Z) :=
  (if isEndOfWord t then [[]] else []) ++
  match d with
  | O => []
  | S d => concat (imap (fun i o => match o with
                                    | None => []
                                    | Some n => cons (97 + Z.of_nat i) <$> words d n
                                    end) (children t))
  end.

Lemma elem_of_words d t v : wf d t -> v ∈ words d t <-> is_word t v.
Proof.
  revert t v. induction d as [|d IH]; intros t v Hw.
  - cbn [words]. rewrite app_nil_r. destruct v as [|c v].
    + unfold is_word. simpl. destruct (isEndOfWord t) eqn:E.
      * split; [|set_solver]. intros _. split; [done|]. eauto.
      * split; [set_solver|]. intros (_ & n & [= <-] & H). congruence.
    + split; [destruct (isEndOfWord t); set_solver|]. rewrite is_word_cons.
      intros (_ & n & Hn & _). by destruct (wf_child _ _ _ _ Hw Hn) as (_ & _ & d' & [=] & _).
  - cbn [words]. rewrite elem_of_app.
    assert (v ∈ concat (imap (fun i o => match o with None => [] | Some n => cons (97 + Z.of_nat i) <$> words d n end)
      (children t)) <-> exists c u, v = c :: u /\ is_word t v) as ->.
    { rewrite list_elem_of_In, in_concat. split.
      - intros (l & Hl & Hv). apply list_elem_of_In in Hl, Hv.
        apply list_elem_of_lookup in Hl as [i Hi]. rewrite list_lookup_imap in Hi.
        destruct (children t !! i) as [[n|]|] eqn:Hc; simpl in Hi; try done; simplify_eq; [|set_solver].
        apply list_elem_of_fmap in Hv as (u & -> & Hu).
        destruct (wf_child _ _ _ _ Hw Hc) as (_ & _ & d' & [= <-] & Hn).
        do 2 eexists. split; [done|]. apply is_word_cons. apply lookup_lt_Some in Hc as Hlt.
        pose proof (wf_length _ _ Hw) as Hlen. unfold zlen in Hlen.
        split; [unfold lower; lia|]. exists n. replace (Z.to_nat (97 + Z.of_nat i - 97)) with i by lia.
        split; [done|]. by apply IH.
      - intros (c & u & -> & Hv). apply is_word_cons in Hv as (Hc & n & Hn & Hu).
        destruct (wf_child _ _ _ _ Hw Hn) as (_ & _ & d' & [= <-] & Hwn).
        exists (cons c <$> words d n). split.
        + apply list_elem_of_In, list_elem_of_lookup. exists (Z.to_nat (c - 97)).
          rewrite list_lookup_imap, Hn. simpl. unfold lower in Hc. do 3 f_equal. lia.
        + apply list_elem_of_In, list_elem_of_fmap. exists u. split; [done|]. by apply IH. }
    destruct v as [|c v].
    + unfold is_word at 1. simpl. destruct (isEndOfWord t) eqn:E.
      * split; [|set_solver]. intros _. split; [constructor|]. eauto.
      * split; [|intros (_ & n & [= <-] & H); congruence]. intros [H|(? & ? & [=] & _)]. set_solver.
    + split; [intros [H|(? & ? & _ & ?)]; [destruct (isEndOfWord t); set_solver|done]|]. eauto 6.
Qed.

Lemma sorted_concat {A} (R : relation A) (ls : list (list A)) :
  (forall i l, ls !! i = Some l -> StronglySorted R l) ->
  (forall i j l k x y, (i < j)%nat -> ls !! i = Some l -> ls !! j = Some k -> x ∈ l -> y ∈ k -> R x y) ->
  StronglySorted R (concat ls).
Proof.
  induction ls as [|l ls IH]; intros Hs Hc; simpl; [constructor|]. apply StronglySorted_app_2.
  - intros x y Hx Hy. rewrite list_elem_of_In, in_concat in Hy. destruct Hy as (k & Hk & Hy).
    apply list_elem_of_In, list_elem_of_lookup in Hk as [j Hj]. apply list_elem_of_In in Hy.
    by apply (Hc 0%nat (S j) l k x y ltac:(lia)).
  - by apply (Hs 0%nat).
  - apply IH; [intros i; apply (Hs (S i))|]. intros i j l' k x y Hij. apply (Hc (S i) (S j)). lia.
Qed.

Lemma words_sorted d t : StronglySorted lex (words d t).
Proof.
  revert t. induction d as [|d IH]; intros t; cbn [words].
  { rewrite app_nil_r. destruct (isEndOfWord t); repeat constructor. }
  apply StronglySorted_app_2.
  - intros x y Hx Hy. destruct (isEndOfWord t); [|set_solver]. apply list_elem_of_singleton in Hx as ->.
    rewrite list_elem_of_In, in_concat in Hy. destruct Hy as (k & Hk & Hy).
    apply list_elem_of_In, list_elem_of_lookup in Hk as [j Hj]. apply list_elem_of_In in Hy.
    rewrite list_lookup_imap in Hj. destruct (children t !! j) as [[n|]|]; simpl in Hj; simplify_eq; [|set_solver].
    by apply list_elem_of_fmap in Hy as (u & -> & _).
  - destruct (isEndOfWord t); repeat constructor.
  - apply sorted_concat.
    + intros i l. rewrite list_lookup_imap. destruct (children t !! i) as [[n|]|]; simpl; intros [= <-]; [|constructor].
      specialize (IH n). induction IH as [|x l Hl IHl Hf]; simpl; constructor; [done|].
      apply Forall_fmap. eapply Forall_impl; [exact Hf|]. intros y Hy. by right.
    + intros i j l k x y Hij. rewrite !list_lookup_imap.
      destruct (children t !! i) as [[n|]|], (children t !! j) as [[m|]|]; simpl; intros [= <-] [= <-];
        try set_solver.
      intros Hx Hy. apply list_elem_of_fmap in Hx as (u & -> & _), Hy as (v & -> & _). simpl. lia.
Qed.

(** *** What the listing prints *)

Definition line (v : list Z) : list piece := map PChar v ++ [PStr "\n"].

Lemma wp_printArray v junk w :
  wp (printArray (map Some v ++ junk) (zlen v) w) (fun w' => w' = printf (line v) w).
Proof.
  unfold printArray. wp_step.
  apply (wp_for_up (fun i w' => w' = printf (map PChar (take (Z.to_nat i) v)) w)).
  - unfold printf. simpl. rewrite app_nil_r. by destruct w.
  - intros i w' Hi ->. destruct (aget_split v i Hi) as (pre & post & E & Hpre).
    assert (Z.to_nat i = length pre) as Hn by (unfold zlen in Hpre; lia).
    revert E. generalize (v.[i]). intros x ->.
    rewrite map_app, <- app_assoc. simpl. rewrite rdu_middle by (by rewrite zlen_map). simpl.
    replace (Z.to_nat (i + 1)) with (length (pre ++ [x])) by (rewrite length_app; simpl; lia).
    rewrite Hn, take_app_length. replace (pre ++ x :: post) with ((pre ++ [x]) ++ post) by (by rewrite <- app_assoc).
    rewrite take_app_length, map_app. unfold printf. simpl. by rewrite <- app_assoc.
  - intros w' ->. simpl. pose proof (zlen_nonneg v). rewrite Z.max_r by lia.
    rewrite take_ge by (unfold zlen; lia). unfold printf, line. simpl. by rewrite <- app_assoc.
Qed.

(** The words below the cells from [i] on. *)
Fixpoint below (d : nat) (i : nat) (cs : list (option TrieNode)) : list (list Z) :=
  match cs with
  | [] => []
  | o :: cs => match o with
               | None => []
               | Some n => cons (97 + Z.of_nat i) <$> words d n
               end ++ below d (S i) cs
  end.

Lemma words_below d t :
  words (S d) t = (if isEndOfWord t then [[]] else []) ++ below d 0 (children t).
Proof.
  cbn [words]. f_equal. change (fun i o => _) with (fun i o => match o with
    | None => [] | Some n => cons (97 + Z.of_nat (0 + i)) <$> words d n end).
  generalize 0%nat. induction (children t) as [|o cs IH]; intros k; simpl; [done|]. f_equal.
  - destruct o; [|done]. do 3 f_equal. lia.
  - rewrite <- (IH (S k)). f_equal. apply imap_ext. intros i o' _. simpl. destruct o'; [|done]. do 3 f_equal. lia.
Qed.

Lemma printf_compose p q w : printf q (printf p w) = printf (p ++ q) w.
Proof. unfold printf. simpl. by rewrite <- app_assoc. Qed.

Lemma printf_none w : printf [] w = w.
Proof. destruct w. unfold printf. simpl. by rewrite app_nil_r. Qed.

(** The loop over the children, given what the calls for them do: they keep
    the letters [ps] and the size of the buffer. *)
Lemma wp_print_children rec ps (len : nat) d cs i w junk :
  (forall k n junk w, cs !! k = Some (Some n) -> length junk = len ->
     wp (rec n (map Some ps ++ junk) w) (fun '(buf, w') =>
       (exists junk', buf = map Some ps ++ junk' /\ length junk' = len) /\
       w' = printf (words d n ≫= fun v => line (ps ++ (97 + Z.of_nat (i + k)) :: v)) w)) ->
  length junk = len ->
  wp (print_children rec cs (map Some ps ++ junk) w) (fun '(buf, w') =>
    (exists junk', buf = map Some ps ++ junk' /\ length junk' = len) /\
    w' = printf (below d i cs ≫= fun v => line (ps ++ v)) w).
Proof.
  revert i junk w. induction cs as [|o cs IH]; intros i junk w Hrec Hlen.
  { simpl. split; [eauto|]. by rewrite printf_none. }
  assert (forall k n junk w, cs !! k = Some (Some n) -> length junk = len ->
     wp (rec n (map Some ps ++ junk) w) (fun '(buf, w') =>
       (exists junk', buf = map Some ps ++ junk' /\ length junk' = len) /\
       w' = printf (words d n ≫= fun v => line (ps ++ (97 + Z.of_nat (S i + k)) :: v)) w)) as Hrest.
  { intros k n junk' w' Hk Hj. specialize (Hrec (S k) n junk' w' Hk Hj).
    by rewrite Nat.add_succ_r in Hrec. }
  cbn [print_children below]. destruct o as [n|].
  2: { apply (IH (S i)); done. }
  apply wp_bind. eapply wp_mono; [by apply (Hrec 0%nat)|]. intros [buf w1] [(junk1 & -> & Hl1) ->].
  eapply wp_mono; [apply (IH (S i)); [exact Hrest|exact Hl1]|]. intros [buf w2] [Hbuf ->].
  split; [done|]. rewrite printf_compose, bind_app. f_equal. f_equal.
  by rewrite Nat.add_0_r, list_fmap_bind.
Qed.

Lemma below_none d i cs : (forall k n, cs !! k = Some (Some n) -> False) -> below d i cs = [].
Proof.
  revert i. induction cs as [|[n|] cs IH]; intros i Hcs; simpl; [done|by destruct (Hcs 0%nat n)|].
  apply IH. intros k. apply (Hcs (S k)).
Qed.

(** The recursion prints the words below a node in order, each behind the
    letters on the way to the node, and keeps those letters in the buffer. *)
Lemma wp_printPaths d t ps c junk w :
  wf d t -> character t = Some c -> (d < length junk)%nat -> zlen ps + zlen junk <= INT_MAX ->
  wp (printPathsRecur t (map Some ps ++ junk) (zlen ps) w) (fun '(buf, w') =>
    (exists junk', buf = map Some (ps ++ [c]) ++ junk' /\ S (length junk') = length junk) /\
    w' = printf (words d t ≫= fun v => line (ps ++ c :: v)) w).
Proof.
  revert t ps c junk w. induction d as [|d IH]; intros [ch o e] ps c junk w Hw Hc Hd Hint; simpl in Hc; subst o;
    (destruct junk as [|j junk]; [simpl in Hd; lia|]).
  all: cbn [printPathsRecur bind]; rewrite wr_middle by (by rewrite zlen_map); cbn [bind].
  all: pose proof (zlen_nonneg ps); pose proof (zlen_nonneg junk); rewrite zlen_cons in Hint.
  all: rewrite int_Ok by code_lia; cbn [bind].
  all: replace (map Some ps ++ Some c :: junk) with (map Some (ps ++ [c]) ++ junk)
    by (by rewrite map_app, <- app_assoc).
  all: replace (zlen ps + 1) with (zlen (ps ++ [c])) by (rewrite zlen_app; done).
  all: apply wp_bind; apply (wp_mono _ (fun w' => w' = printf (if e then line (ps ++ [c]) else []) w));
    [destruct e; [apply wp_printArray|simpl; by rewrite printf_none]|intros w' ->].
  - assert (forall k n, ch !! k = Some (Some n) -> False) as Hnone.
    { intros k n Hk. by destruct (wf_child _ _ _ _ Hw Hk) as (_ & _ & d' & [=] & _). }
    eapply wp_mono; [apply (wp_print_children _ (ps ++ [c]) (length junk) 0 ch 0); [|done]|].
    { intros k n ? ? Hk. by destruct (Hnone k n). }
    intros [buf w'] [(junk' & -> & Hl) ->]. split; [exists junk'; simpl; auto|].
    rewrite below_none by done. simpl. rewrite printf_none, app_nil_r. destruct e; simpl; [|done].
    by rewrite app_nil_r.
  - eapply wp_mono; [apply (wp_print_children _ (ps ++ [c]) (length junk) d ch 0); [|done]|].
    + intros k n junk1 w1 Hk Hj. destruct (wf_child _ _ _ _ Hw Hk) as (Hck & _ & d' & [= <-] & Hn).
      eapply wp_mono; [apply (IH n (ps ++ [c]) _ junk1 w1 Hn Hck)|].
      * simpl in Hd. lia.
      * rewrite zlen_app. change (zlen [c]) with 1. unfold zlen in *. lia.
      * intros [buf w2] [(junk2 & -> & Hl2) ->]. split; [|done].
        exists (Some (97 + Z.of_nat k) :: junk2). rewrite map_app, <- app_assoc. simpl. split; [done|lia].
    + intros [buf w'] [(junk' & -> & Hl) ->]. split; [exists junk'; simpl; auto|].
      rewrite printf_compose, words_below, bind_app. f_equal. cbn [isEndOfWord children].
      f_equal; [destruct e; simpl; by rewrite ?app_nil_r|].
      apply list_bind_ext; [|done]. intros v. by rewrite <- app_assoc.
Qed.

(** ** The whole program *)

Fixpoint insert_all (malloc_ok : nat -> bool) (t : TrieNode) (ls : list (list Z)) (n : nat) : res (TrieNode * nat) :=
  match ls with [] => Ok (t, n) | l :: ls => let* (t, n) := insert malloc_ok t l n in insert_all malloc_ok t ls n end.

Lemma runs_insert_all malloc_ok (ws : list (list Z)) (nl : Z) t d n :
  wf d t -> Forall (Forall lower) ws -> Forall (fun v => (length v <= d)%nat) ws ->
  runs (insert_all malloc_ok t (map (fun v => v ++ [nl]) ws) n) (no_memory malloc_ok) (fun '(t', _) =>
    wf d t' /\ forall u, is_word t' u <-> u ∈ ws \/ is_word t u).
Proof.
  revert t n. induction ws as [|v ws IH]; intros t n Hw Hlow Hlen; [simpl; set_solver|].
  apply Forall_cons in Hlow as [Hv Hlow], Hlen as [Hvl Hlen]. cbn [map insert_all]. apply runs_bind.
  eapply runs_mono; [by apply (runs_trie_insert malloc_ok v nl t d)|done|]. intros [t1 n1] (Hw1 & _ & Hin1).
  rewrite Nat.max_l in Hw1 by done. eapply runs_mono; [by apply IH|done|]. intros [t2 n2] [Hw2 Hin2].
  split; [done|]. intros u. rewrite Hin2, Hin1, elem_of_cons. tauto.
Qed.

Lemma cstr_spec s rest : Forall lower s -> cstr (map Some s ++ Some 0 :: rest) = Ok s.
Proof.
  induction s as [|c s IH]; intros Hs; simpl; [done|]. apply Forall_cons in Hs as [Hc Hs].
  unfold lower in Hc. rewrite (proj2 (Z.eqb_neq c 0)) by lia. by rewrite IH.
Qed.

Lemma lex_app p u v : lex u v -> lex (p ++ u) (p ++ v).
Proof. induction p as [|c p IH]; simpl; [done|]. intros H. right. auto. Qed.

Lemma sorted_app_map p vs : StronglySorted lex vs -> StronglySorted lex (app p <$> vs).
Proof.
  induction 1 as [|v vs Hs IH Hf]; simpl; constructor; [done|]. apply Forall_fmap.
  eapply Forall_impl; [exact Hf|]. intros u. apply lex_app.
Qed.

(** traverse on a trie whose words are [ws]. *)
Lemma wp_traverse t (ws : list (list Z)) p w :
  wf 98 t -> (forall u, is_word t u <-> u ∈ ws) -> Forall lower p -> (0 < length p <= 99)%nat ->
  wp (traverse (map Some p ++ Some 0 :: replicate (99 - length p) None) t w) (fun '(_, w') =>
    exists found,
      StronglySorted lex found /\ (forall v, v ∈ found <-> v ∈ ws /\ p `prefix_of` v) /\
      w' = printf (match found with
                   | [] => [PStr "No possible words!!\n"]
                   | _ => found ≫= line
                   end) w).
Proof.
  intros Hw Hws Hp Hlen. unfold traverse. rewrite cstr_spec by done. cbn [bind].
  rewrite (search_follow 98) by done. cbn [bind].
  assert (forall u, p ++ u ∈ ws <-> exists n, follow t p = Some n /\ is_word n u) as Hpre.
  { intros u. rewrite <- Hws. by apply follow_words. }
  destruct (follow t p) as [n|] eqn:Ef.
  - destruct (follow_wf _ _ _ _ Hw Hp Ef) as (d & Hn & Hd & Hne).
    destruct (exists_last_or p) as [->|(q & c & ->)]; [simpl in Hlen; lia|].
    destruct Hne as [[u0 Hu0] Hch]; [by destruct q|]. rewrite last_snoc in Hch. rewrite length_app in *. simpl in *.
    replace (zlen (q ++ [c]) - 1) with (zlen q) by (rewrite zlen_app; change (zlen [c]) with 1; lia).
    rewrite map_app, <- app_assoc. simpl.
    eapply wp_mono; [apply (wp_printPaths d n q c); [done..|cbn [length]; rewrite length_replicate; lia|]|].
    { rewrite !zlen_cons. unfold zlen. rewrite length_replicate. code_lia. }
    intros [buf w'] [_ ->]. exists (app (q ++ [c]) <$> words d n). split_and!.
    + apply sorted_app_map, words_sorted.
    + intros v. rewrite list_elem_of_fmap. split.
      * intros (u & -> & Hu). apply elem_of_words in Hu; [|done]. split; [apply Hpre; eauto|]. by exists u.
      * intros [Hv [u ->]]. exists u. split; [done|]. apply elem_of_words; [done|].
        apply Hpre in Hv as (n' & [= <-] & ?). done.
    + apply (elem_of_words d n u0 Hn) in Hu0. destruct (words d n) as [|v vs] eqn:E; [by apply elem_of_nil in Hu0|].
      f_equal. transitivity ((app (q ++ [c]) <$> v :: vs) ≫= line); [|done]. rewrite list_fmap_bind.
      apply list_bind_ext; [|done]. intros x. simpl. by rewrite <- app_assoc.
  - exists []. split_and!; [constructor| |done]. intros v. split; [intros Hv; by apply elem_of_nil in Hv|].
    intros [Hv [u ->]]. by apply Hpre in Hv as (n & [=] & _).
Qed.

(** C11. The trie answers a keyword with the dictionary: after the words
    [ws] (lower-case letters, at most 98 of them, each read with its newline)
    have been inserted in any order, with repetitions or not, traverse prints
    for a keyword of letters exactly the words of [ws] that begin with it,
    each once, in alphabetical order, one to a line; and the message that
    there are none exactly when there are none.  The buffer of 100 characters
    is never exceeded.  The only fault is an access through NULL, and only if a call of malloc fails. *)
Theorem trie_lists_dictionary (malloc_ok : nat -> bool) (ws : list (list Z)) (p : list Z) (w : console) :
  Forall (Forall lower) ws -> Forall (fun v => (length v <= 98)%nat) ws ->
  Forall lower p -> (0 < length p <= 99)%nat ->
  runs (let* (root, n) := createTrieNode malloc_ok 0 in
        let* (root, _) := insert_all malloc_ok root (map (fun v => v ++ [10]) ws) n in
        traverse (map Some p ++ Some 0 :: replicate (99 - length p) None) root w) (no_memory malloc_ok) (fun '(_, w') =>
    exists found,
      StronglySorted lex found /\ (forall v, v ∈ found <-> v ∈ ws /\ p `prefix_of` v) /\
      w' = printf (match found with
                   | [] => [PStr "No possible words!!\n"]
                   | _ => found ≫= line
                   end) w).
Proof.
  intros Hlow Hlen Hp Hpl. unfold createTrieNode. destruct (malloc_ok 0%nat) eqn:E0; [|split; [done|by exists 0%nat]]. cbn [bind]. apply runs_bind.
  eapply runs_mono; [apply (runs_insert_all malloc_ok ws 10 new_node 98); [|done..]|done|].
  { apply (wf_mono 0); [apply wf_create|lia]. }
  intros [t k] [Hw Hin]. apply wp_runs, wp_traverse; [done| |done..]. intros u. rewrite Hin. split; [|by left].
  intros [Hu|Hu]; [done|]. destruct u as [|c u]; [by destruct Hu as (_ & n & [= <-] & [=])|].
  apply is_word_cons in Hu as (_ & n & Hn & _). by apply create_children in Hn.
Qed.

Definition sample_words : list (list Z) := [[97; 98]; [99]; [97]; [97; 98; 99]].

Lemma trie_lists_dictionary_witness :
  (let* (root, n) := createTrieNode (fun _ => true) 0 in
   let* (root, _) := insert_all (fun _ => true) root (map (fun v => v ++ [10]) sample_words) n in
   let* (_, w) := traverse (map Some [97; 98] ++ Some 0 :: replicate 97 None) root (Console [] []) in
   Ok (output w)) =
    Ok [PChar 97; PChar 98; PStr "\n"; PChar 97; PChar 98; PChar 99; PStr "\n"] /\
  runs (let* (root, n) := createTrieNode (fun _ => true) 0 in
        let* (root, _) := insert_all (fun _ => true) root (map (fun v => v ++ [10]) sample_words) n in
        traverse (map Some [97; 98] ++ Some 0 :: replicate 97 None) root (Console [] [])) (no_memory (fun _ => true)) (fun '(_, w') =>
    exists found,
      StronglySorted lex found /\ (forall v, v ∈ found <-> v ∈ sample_words /\ [97; 98] `prefix_of` v) /\
      w' = printf (match found with
                   | [] => [PStr "No possible words!!\n"]
                   | _ => found ≫= line
                   end) (Console [] [])).
Proof.
  split; [vm_compute; reflexivity|].
  apply (trie_lists_dictionary (fun _ => true) sample_words [97; 98] (Console [] [])).
  - repeat constructor; vm_compute; discriminate.
  - repeat constructor.
  - repeat constructor; vm_compute; discriminate.
  - simpl. lia.
Defined.

(** *** main *)

Lemma for_n_inv {S} n i (body : Z -> S -> res S) s s' :
  for_n n i body s = Ok s' -> forall j, i <= j < i + Z.of_nat n -> exists s1 s2, body j s1 = Ok s2.
Proof.
  revert i s. induction n as [|n IH]; intros i s; simpl; [intros _ j Hj; lia|].
  intros H. apply bind_Ok_inv in H as (s1 & H1 & H2). intros j Hj.
  destruct (decide (j = i)) as [->|]; [eauto|]. apply (IH (i + 1) s1 H2). lia.
Qed.

(** The reading loop has written [lines] and one fresh buffer behind them,
    and it runs past the array when there are as many lines as cells. *)
Lemma read_words_inv malloc_ok lines k ws n ws' n' :
  read_words malloc_ok lines k ws n = Ok (ws', n') -> 0 <= k < zlen ws -> ws.[k] = Some None ->
  k + zlen lines < zlen ws' /\ ws'.[k + zlen lines] = Some None /\ zlen ws' = zlen ws.
Proof.
  revert k ws n. induction lines as [|l lines IH]; intros k ws n; simpl.
  { intros [= <- _] Hk E. change (zlen (@nil (list Z))) with 0. rewrite Z.add_0_r. split_and!; [lia|done|done]. }
  intros H Hk _. rewrite wr_Ok in H by lia. simpl in H. unfold new_word, wr, in_range in H.
  rewrite zlen_upd in H. destruct (Z.leb_spec 0 (k + 1)); [|lia].
  destruct (Z.ltb_spec (k + 1) (zlen ws)); simpl in H; [|done]. destruct (malloc_ok n); [|done]. cbn [bind] in H.
  apply IH in H.
  - rewrite zlen_cons, !zlen_upd in *. replace (k + (zlen lines + 1)) with (k + 1 + zlen lines) by lia.
    destruct H as (? & ? & ?). split_and!; [lia|done|lia].
  - rewrite !zlen_upd. lia.
  - apply aget_upd_eq. rewrite zlen_upd. lia.
Qed.

(** No dictionary gets past the loading: the loop that inserts goes over all
    NUMBER_OF_WORDS cells, so every cell must hold a line, and then the
    buffer allocated for the next line has no cell. *)
Lemma load_words_fails malloc_ok lines : exists f, load_words malloc_ok lines = Fail f.
Proof.
  destruct (load_words malloc_ok lines) as [t|f] eqn:E; [|eauto]. exfalso. unfold load_words, new_word in E.
  rewrite wr_Ok in E by (rewrite zlen_replicate; unfold NUMBER_OF_WORDS; lia). cbn [bind] in E. destruct (malloc_ok 0%nat); [|done]. cbn [bind] in E.
  apply bind_Ok_inv in E as ([ws n] & Hr & E).
  apply read_words_inv in Hr as (Hlt & Hcell & Hz).
  - rewrite zlen_upd, zlen_replicate in Hz by (unfold NUMBER_OF_WORDS; lia).
    pose proof (zlen_nonneg lines). apply bind_Ok_inv in E as ([root n1] & _ & E). apply bind_Ok_inv in E as ([root2 n2] & E & _). unfold for_up in E.
    apply (for_n_inv _ _ _ _ _) with (j := zlen lines) in E as ([s1 m1] & s2 & E).
    + rewrite Z.add_0_l in Hcell. rewrite rd_Ok in E by lia. cbn [bind] in E. by rewrite Hcell in E.
    + unfold NUMBER_OF_WORDS in *. lia.
  - rewrite zlen_upd, zlen_replicate; unfold NUMBER_OF_WORDS; lia.
  - apply aget_upd_eq. rewrite zlen_replicate; unfold NUMBER_OF_WORDS; lia.
Qed.
