(* ===== verification/Dictionary.v ===== *)
(** * String hashes and the dictionary

    algorithms/c/hash/2_imple/hash.c and data_structures/dictionary/dict.c.
    A C string is the list of its characters before the terminator; [char] is
    signed. *)

From S2P Require Import Prelude Arrays.
Open Scope Z_scope.

(** * hash/2_imple/hash.c *)

Module HashFunctions.

(** [h << k] on a long long: undefined for a negative or too large value. *)
Definition shl (h k : Z) : res Z :=
  let* _ := demand (0 <=? h) IntOverflow in long (Z.shiftl h k).

Fixpoint sdbm_loop (s : list Z) (hash : Z) : res Z :=
  match s with
  | [] => Ok hash
  | c :: s =>
      let* h6 := shl hash 6 in
      let* t := long (c + h6) in
      let* h16 := shl hash 16 in
      let* t := long (t + h16) in
      let* hash := long (t - hash) in
      sdbm_loop s hash
  end.

Definition sdbm (s : list Z) : res Z := sdbm_loop s 0.

Fixpoint djb2_loop (s : list Z) (hash : Z) : res Z :=
  match s with
  | [] => Ok hash
  | c :: s =>
      let* h5 := shl hash 5 in
      let* t := long (h5 + hash) in
      let* hash := long (t + c) in
      djb2_loop s hash
  end.

Definition djb2 (s : list Z) : res Z := djb2_loop s 5381.

Fixpoint xor8_loop (s : list Z) (hash : Z) : res Z :=
  match s with
  | [] => Ok hash
  | c :: s =>
      let* t := int (hash + c) in
      xor8_loop s (Z.land t 255)
  end.

(** The result is converted to [char]. *)
Definition xor8 (s : list Z) : res Z :=
  let* hash := xor8_loop s 0 in
  Ok (s8 (Z.land (Z.lxor hash 255 + 1) 255)).

Definition MODADLER : Z := 65521.

Fixpoint adler_loop (s : list Z) (a b : Z) : res (Z * Z) :=
  match s with
  | [] => Ok (a, b)
  | c :: s =>
      let* t := int (a + c) in
      let a := Z.rem t MODADLER in
      let* t := int (b + a) in
      let b := Z.rem t MODADLER in
      adler_loop s a b
  end.

(** [b << 16] is an int shift. *)
Definition adler_32 (s : list Z) : res Z :=
  let* (a, b) := adler_loop s 1 0 in
  let* _ := demand (0 <=? b) IntOverflow in
  let* hi := int (Z.shiftl b 16) in
  Ok (Z.lor hi a).

(** ** What they compute *)

Definition ascii (c : Z) : Prop := 0 < c < 128.

(** The string as the digits of a number in base [B], behind [h]. *)
Definition poly (B h : Z) (s : list Z) : Z := fold_left (fun h c => h * B + c) s h.

Definition sum (s : list Z) : Z := fold_right Z.add 0 s.

(** Adler's two sums. *)
Definition adler_a (s : list Z) : Z := (1 + sum s) mod MODADLER.

Fixpoint adler_b (s : list Z) (a b : Z) : Z :=
  match s with [] => b mod MODADLER | c :: s => adler_b s (a + c) (b + (a + c)) end.

Lemma wp_shl h k (Q : Z -> Prop) :
  0 <= h -> 0 <= k -> h * 2 ^ k <= LONG_MAX -> Q (h * 2 ^ k) -> wp (shl h k) Q.
Proof.
  intros Hh Hk Hm HQ. unfold shl, demand. rewrite (proj2 (Z.leb_le 0 h)) by done. simpl.
  rewrite Z.shiftl_mul_pow2 by done. apply wp_long; [|done].
  assert (0 <= h * 2 ^ k) by (apply Z.mul_nonneg_nonneg; [lia|apply Z.pow_nonneg; lia]). code_lia.
Qed.

(** With room for the digits still to come, the loops do not overflow. *)
Lemma wp_djb2_loop s h :
  Forall ascii s -> 0 <= h -> (32 * h + 127) * 33 ^ Z.of_nat (length s) <= 32 * LONG_MAX + 127 ->
  wp (djb2_loop s h) (fun r => r = poly 33 h s).
Proof.
  revert h. induction s as [|c s IH]; intros h Hs Hh Hb; [done|].
  apply Forall_cons in Hs as [Hc Hs]. unfold ascii in Hc. cbn [length] in Hb.
  rewrite Nat2Z.inj_succ, Z.pow_succ_r in Hb by lia.
  assert (1 <= 33 ^ Z.of_nat (length s)) by (apply (Z.pow_le_mono_r 33 0); lia).
  assert (h * 33 + c <= LONG_MAX) by (unfold LONG_MAX in *; nia).
  cbn [djb2_loop]. wp_step. apply wp_shl; [lia|lia|code_lia|]. wp_step. wp_step. wp_step. wp_step.
  change (poly 33 h (c :: s)) with (poly 33 (h * 33 + c) s).
  replace (h * 2 ^ 5 + h + c) with (h * 33 + c) by lia. apply IH; [done|lia|].
  transitivity ((32 * h + 127) * 33 * 33 ^ Z.of_nat (length s)); [|lia].
  apply Z.mul_le_mono_nonneg_r; lia.
Qed.

Lemma wp_sdbm_loop s h :
  Forall ascii s -> 0 <= h ->
  (65598 * h + 127) * 65599 ^ Z.of_nat (length s) <= 65597 * LONG_MAX ->
  wp (sdbm_loop s h) (fun r => r = poly 65599 h s).
Proof.
  revert h. induction s as [|c s IH]; intros h Hs Hh Hb; [done|].
  apply Forall_cons in Hs as [Hc Hs]. unfold ascii in Hc. cbn [length] in Hb.
  rewrite Nat2Z.inj_succ, Z.pow_succ_r in Hb by lia.
  assert (1 <= 65599 ^ Z.of_nat (length s)) by (apply (Z.pow_le_mono_r 65599 0); lia).
  assert (h * 65600 + c <= LONG_MAX) by (unfold LONG_MAX in *; nia).
  cbn [sdbm_loop]. wp_step. apply wp_shl; [lia|lia|code_lia|]. wp_step. wp_step.
  wp_step. apply wp_shl; [lia|lia|code_lia|]. wp_step. wp_step. wp_step. wp_step.
  change (poly 65599 h (c :: s)) with (poly 65599 (h * 65599 + c) s).
  replace (c + h * 2 ^ 6 + h * 2 ^ 16 - h) with (h * 65599 + c) by lia. apply IH; [done|lia|].
  transitivity ((65598 * h + 127) * 65599 * 65599 ^ Z.of_nat (length s)); [|lia].
  apply Z.mul_le_mono_nonneg_r; lia.
Qed.

Definition is_char (c : Z) : Prop := -128 <= c <= 127.

Lemma xor8_loop_spec s h :
  Forall is_char s -> 0 <= h < 256 -> xor8_loop s h = Ok ((h + sum s) mod 256).
Proof.
  revert h. induction s as [|c s IH]; intros h Hs Hh.
  { simpl. rewrite Z.add_0_r, Z.mod_small by done. done. }
  apply Forall_cons in Hs as [Hc Hs]. unfold is_char in Hc. cbn [xor8_loop].
  rewrite int_Ok by code_lia. cbn [bind]. change 255 with (Z.ones 8). rewrite Z.land_ones by lia.
  rewrite IH; [|done|apply Z.mod_pos_bound; lia]. f_equal. change (2 ^ 8) with 256.
  rewrite Z.add_mod_idemp_l by lia. f_equal. simpl. lia.
Qed.

Lemma lxor_255 h : 0 <= h < 256 -> Z.lxor h 255 = 255 - h.
Proof.
  intros Hh. assert (Forall (fun h => Z.lxor h 255 = 255 - h) (seqZ 0 256)) as H.
  { apply (bool_decide_unpack _). vm_compute. exact I. }
  rewrite Forall_forall in H. apply H. apply elem_of_seqZ. lia.
Qed.

Lemma s8_mod z : s8 z mod 256 = z mod 256.
Proof. unfold s8. div_lia. Qed.

Lemma xor8_spec s :
  Forall is_char s -> wp (xor8 s) (fun r => is_char r /\ (sum s + r) mod 256 = 0).
Proof.
  intros Hs. unfold xor8. rewrite xor8_loop_spec by (done || lia). simpl.
  set (h := sum s mod 256). assert (0 <= h < 256) as Hh by (apply Z.mod_pos_bound; lia).
  rewrite lxor_255 by done. split; [unfold s8, is_char; div_lia|].
  rewrite <- Z.add_mod_idemp_r, s8_mod by lia. change 255 with (Z.ones 8) at 2.
  rewrite Z.land_ones by lia. change (2 ^ 8) with 256. subst h. div_lia.
Qed.

Lemma wp_adler_loop s A B :
  Forall ascii s ->
  wp (adler_loop s (A mod MODADLER) (B mod MODADLER)) (fun '(a, b) =>
    a = (A + sum s) mod MODADLER /\ b = adler_b s A B).
Proof.
  revert A B. induction s as [|c s IH]; intros A B Hs.
  { simpl. by rewrite Z.add_0_r. }
  apply Forall_cons in Hs as [Hc Hs]. unfold ascii in Hc. cbn [adler_loop adler_b]. unfold MODADLER in *.
  assert (0 <= A mod 65521 < 65521) by (apply Z.mod_pos_bound; lia).
  assert (0 <= B mod 65521 < 65521) by (apply Z.mod_pos_bound; lia).
  wp_step. wp_step. rewrite Z.rem_mod_nonneg by lia. rewrite Z.add_mod_idemp_l by lia.
  assert (0 <= (A + c) mod 65521 < 65521) by (apply Z.mod_pos_bound; lia).
  wp_step. wp_step. rewrite Z.rem_mod_nonneg by lia. rewrite <- Z.add_mod by lia.
  eapply wp_mono; [by apply IH|]. intros [a b] [-> ->]. split; [|done]. f_equal. simpl. lia.
Qed.

Lemma lor_shift b a : 0 <= a < 65536 -> Z.lor (Z.shiftl b 16) a = b * 65536 + a.
Proof.
  intros Ha. assert (Z.land (Z.shiftl b 16) a = 0) as Hz.
  { apply Z.bits_inj'. intros n Hn. rewrite Z.land_spec, Z.bits_0.
    destruct (Z.ltb_spec n 16); [by rewrite Z.shiftl_spec_low|].
    rewrite (Z.bits_above_log2 a n); [by rewrite andb_false_r|lia|].
    destruct (decide (a = 0)) as [->|]; [simpl; lia|]. apply Z.log2_lt_pow2; [lia|].
    apply Z.lt_le_trans with (2 ^ 16); [lia|]. apply Z.pow_le_mono_r; lia. }
  rewrite <- Z.lxor_lor by done. rewrite <- Z.add_nocarry_lxor by done.
  rewrite Z.shiftl_mul_pow2 by lia. done.
Qed.

Lemma adler_b_range s A B : 0 <= adler_b s A B < MODADLER.
Proof. revert A B. induction s as [|c s IH]; intros A B; simpl; [apply Z.mod_pos_bound; done|]. apply IH. Qed.

Lemma adler_32_spec s :
  Forall ascii s ->
  adler_32 s = if adler_b s 1 0 <? 32768 then Ok (adler_b s 1 0 * 65536 + adler_a s) else Fail IntOverflow.
Proof.
  intros Hs. unfold adler_32. pose proof (wp_adler_loop s 1 0 Hs) as Hw.
  change (1 mod MODADLER) with 1 in Hw. change (0 mod MODADLER) with 0 in Hw.
  apply wp_exists in Hw as ([a b] & -> & -> & ->). cbn [bind].
  pose proof (adler_b_range s 1 0) as Hb. unfold demand, MODADLER in *.
  rewrite (proj2 (Z.leb_le 0 _)) by lia. cbn [bind].
  assert (0 <= (1 + sum s) mod 65521 < 65521) by (apply Z.mod_pos_bound; lia).
  unfold int. rewrite Z.shiftl_mul_pow2 by lia. change (2 ^ 16) with 65536. unfold INT_MIN, INT_MAX.
  rewrite (proj2 (Z.leb_le (-2147483648) _)) by lia. simpl andb.
  destruct (Z.ltb_spec (adler_b s 1 0) 32768), (Z.leb_spec (adler_b s 1 0 * 65536) 2147483647);
    try lia; [|done]. cbn [bind]. change 65536 with (2 ^ 16) at 1. rewrite <- Z.shiftl_mul_pow2 by lia.
  by rewrite lor_shift by lia.
Qed.

(** The hash functions of hash.c on ASCII strings.  djb2 of at most ten
    characters and sdbm of at most four read the string as a number in base
    33 behind 5381, and in base 65599, without overflow; xor8 is the longitudinal checksum, which
    makes the sum of all characters and the checksum a multiple of 256, for
    any characters; adler_32 is Adler's checksum, high word b and low word a,
    as long as b is below 2^15, and the shift overflows otherwise. *)
Theorem hash_functions_correct s :
  (Forall ascii s -> (length s <= 4)%nat -> wp (sdbm s) (fun r => r = poly 65599 0 s)) /\
  (Forall ascii s -> (length s <= 10)%nat -> wp (djb2 s) (fun r => r = poly 33 5381 s)) /\
  (Forall is_char s -> wp (xor8 s) (fun r => is_char r /\ (sum s + r) mod 256 = 0)) /\
  (Forall ascii s ->
   adler_32 s = if adler_b s 1 0 <? 32768 then Ok (adler_b s 1 0 * 65536 + adler_a s)
                else Fail IntOverflow).
Proof.
  split_and!.
  - intros Hs Hl. apply wp_sdbm_loop; [done|lia|].
    assert (65599 ^ Z.of_nat (length s) <= 65599 ^ 4) by (apply Z.pow_le_mono_r; lia).
    unfold LONG_MAX. change (65599 ^ 4) with 18517778113755897601 in *. lia.
  - intros Hs Hl. apply wp_djb2_loop; [done|lia|].
    assert (33 ^ Z.of_nat (length s) <= 33 ^ 10) by (apply Z.pow_le_mono_r; lia).
    unfold LONG_MAX. change (33 ^ 10) with 1531578985264449 in *. lia.
  - apply xor8_spec.
  - apply adler_32_spec.
Qed.

(** "Wiki": Adler's checksum is 0x03da0195 and the others follow. *)
Lemma hash_functions_correct_witness :
  Forall ascii [87; 105; 107; 105] /\
  wp (sdbm [87; 105; 107; 105]) (fun r => r = poly 65599 0 [87; 105; 107; 105]) /\
  wp (djb2 [87; 105; 107; 105]) (fun r => r = poly 33 5381 [87; 105; 107; 105]) /\
  adler_32 [87; 105; 107; 105] = Ok 64618901.
Proof.
  assert (Forall ascii [87; 105; 107; 105]) as Hs by (repeat constructor; vm_compute; reflexivity).
  destruct (hash_functions_correct [87; 105; 107; 105]) as (H1 & H2 & _ & H4).
  split; [exact Hs|]. split; [apply H1; [exact Hs|simpl; lia]|]. split; [apply H2; [exact Hs|simpl; lia]|].
  rewrite (H4 Hs). vm_compute. reflexivity.
Defined.

(** Five characters are enough for sdbm to overflow, eleven for djb2. *)
Lemma long_strings_overflow :
  sdbm [122; 122; 122; 122; 122] = Fail IntOverflow /\
  djb2 [122; 122; 122; 122; 122; 122; 122; 122; 122; 122; 122] = Fail IntOverflow.
Proof. split; vm_compute; reflexivity. Qed.

End HashFunctions.

(** * data_structures/dictionary/dict.c *)

Module Dict.

Definition MAXELEMENTS : Z := 1000.

(** The items are [void *]: integers, with 0 for NULL. *)
Record Dictionary := MkDict { elements : list Z; number_of_elements : Z }.

Definition new_dict : Dictionary := MkDict (replicate (Z.to_nat MAXELEMENTS) 0) 0.

(** The first result is NULL when malloc fails. *)
Definition create_dict (malloc_ok : bool) (w : console) : option Dictionary * console :=
  if malloc_ok then (Some new_dict, w)
  else (None, printf [PStr "unable to create a dictionary\n"] w).

(** unsigned int arithmetic throughout. *)
Fixpoint hash_loop (s : list Z) (hash_code : Z) : Z :=
  match s with
  | [] => hash_code
  | c :: s =>
      hash_loop s (u32 (u32 (u32 (c + u32 (Z.shiftl hash_code 6)) + u32 (Z.shiftl hash_code 16)) - hash_code))
  end.

Definition get_hash (s : list Z) : Z := hash_loop s 0 mod MAXELEMENTS.

Definition add_item_label (dic : Dictionary) (label : list Z) (item : Z) : res (Z * Dictionary) :=
  let index := get_hash label in
  if index <? MAXELEMENTS then
    let* e := wr (elements dic) index item in
    Ok (0, MkDict e (number_of_elements dic))
  else Ok (-1, dic).

Definition add_item_index (dic : Dictionary) (index item : Z) : res (Z * Dictionary) :=
  let* e := rd (elements dic) index in
  if e =? 0 then
    let* e := wr (elements dic) index item in
    Ok (0, MkDict e (number_of_elements dic))
  else Ok (-1, dic).

Definition get_element_label (dict : Dictionary) (s : list Z) (w : console) : res (Z * console) :=
  let index := get_hash s in
  let* e := rd (elements dict) index in
  if negb (e =? 0) then Ok (e, w)
  else Ok (0, printf [PStr "None entry at given label\n"] w).

Definition get_element_index (dict : Dictionary) (index : Z) (w : console) : res (Z * console) :=
  if (0 <=? index) && (index <? MAXELEMENTS) then
    let* e := rd (elements dict) index in
    Ok (e, w)
  else Ok (0, printf [PStr "index out of bounds!\n"] w).

(** The dictionary is gone after [free]. *)
Definition destroy (dict : Dictionary) : option Dictionary := None.

(** ** The dictionary as a map of its cells *)

Inductive request :=
  | AddLabel (label : list Z) (item : Z)
  | AddIndex (index item : Z)
  | GetLabel (label : list Z)
  | GetIndex (index : Z).

Definition serve (r : request) (d : Dictionary) (w : console) : res (Z * Dictionary * console) :=
  match r with
  | AddLabel l x => let* (c, d) := add_item_label d l x in Ok (c, d, w)
  | AddIndex i x => let* (c, d) := add_item_index d i x in Ok (c, d, w)
  | GetLabel l => let* (x, w) := get_element_label d l w in Ok (x, d, w)
  | GetIndex i => let* (x, w) := get_element_index d i w in Ok (x, d, w)
  end.

Fixpoint serve_all (rs : list request) (d : Dictionary) (w : console)
    : res (list Z * Dictionary * console) :=
  match rs with
  | [] => Ok ([], d, w)
  | r :: rs =>
      let* (x, d, w) := serve r d w in
      let* (xs, d, w) := serve_all rs d w in
      Ok (x :: xs, d, w)
  end.

(** The requests on a finite map: labels address the cell of their hash,
    storing NULL empties a cell. *)
Definition set_item (k x : Z) (m : gmap Z Z) : gmap Z Z :=
  if decide (x = 0) then delete k m else <[k := x]> m.

Definition expect (r : request) (m : gmap Z Z) : Z * list piece * gmap Z Z :=
  match r with
  | AddLabel l x => (0, [], set_item (get_hash l) x m)
  | AddIndex i x => match m !! i with
                    | None => (0, [], set_item i x m)
                    | Some _ => (-1, [], m)
                    end
  | GetLabel l => match m !! get_hash l with
                  | Some x => (x, [], m)
                  | None => (0, [PStr "None entry at given label\n"], m)
                  end
  | GetIndex i => if decide (0 <= i < MAXELEMENTS) then (default 0 (m !! i), [], m)
                  else (0, [PStr "index out of bounds!\n"], m)
  end.

Fixpoint expect_all (rs : list request) (m : gmap Z Z) : list Z * list piece * gmap Z Z :=
  match rs with
  | [] => ([], [], m)
  | r :: rs =>
      let '(x, out, m) := expect r m in
      let '(xs, out', m) := expect_all rs m in
      (x :: xs, out ++ out', m)
  end.

Definition rep (d : Dictionary) (m : gmap Z Z) : Prop :=
  zlen (elements d) = MAXELEMENTS /\ (forall k x, m !! k = Some x -> x <> 0) /\
  forall i, 0 <= i < MAXELEMENTS -> (elements d).[i] = default 0 (m !! i).

(** The hash is the base-65599 number of the label, modulo 2^32 and then the
    number of cells. *)
Lemma hash_loop_spec s h :
  hash_loop s (u32 h) = HashFunctions.poly 65599 h s mod 4294967296.
Proof.
  revert h. induction s as [|c s IH]; intros h; [done|]. cbn [hash_loop].
  change (HashFunctions.poly 65599 h (c :: s)) with (HashFunctions.poly 65599 (h * 65599 + c) s).
  rewrite <- IH. f_equal. rewrite !Z.shiftl_mul_pow2 by lia. unfold u32.
  change (2 ^ 6) with 64. change (2 ^ 16) with 65536. div_lia.
Qed.

Lemma get_hash_spec s : get_hash s = HashFunctions.poly 65599 0 s mod 4294967296 mod MAXELEMENTS.
Proof. unfold get_hash. change 0 with (u32 0) at 1. by rewrite hash_loop_spec. Qed.

Lemma get_hash_range s : 0 <= get_hash s < MAXELEMENTS.
Proof. apply Z.mod_pos_bound. done. Qed.

Lemma rep_set d m k x :
  rep d m -> 0 <= k < MAXELEMENTS ->
  rep (MkDict (upd (elements d) k x) (number_of_elements d)) (set_item k x m).
Proof.
  intros (Hl & Hnz & Hm) Hk. unfold set_item, rep. simpl. split_and!.
  - by rewrite zlen_upd.
  - intros k' x'. case_decide; [rewrite lookup_delete_Some|rewrite lookup_insert_Some]; naive_solver.
  - intros i Hi. destruct (decide (i = k)) as [->|Hne].
    + rewrite aget_upd_eq by lia. case_decide; [by rewrite lookup_delete_eq|by rewrite lookup_insert_eq].
    + rewrite aget_upd_ne by lia. rewrite Hm by done.
      case_decide; [by rewrite lookup_delete_ne by done|by rewrite lookup_insert_ne by done].
Qed.

Lemma rep_zero d m i : rep d m -> 0 <= i < MAXELEMENTS -> ((elements d).[i] =? 0) = bool_decide (m !! i = None).
Proof.
  intros (_ & Hnz & Hm) Hi. rewrite Hm by done. destruct (m !! i) as [x|] eqn:E; simpl; [|done].
  apply Hnz in E. by apply Z.eqb_neq.
Qed.

Definition bad_index (rs : list request) (f : fault) : Prop :=
  f = OutOfBounds /\ exists i x, AddIndex i x ∈ rs /\ ~ (0 <= i < MAXELEMENTS).

Lemma runs_serve r d m w :
  rep d m ->
  runs (serve r d w) (bad_index [r]) (fun '(x, d', w') =>
    let '(x0, out, m') := expect r m in x = x0 /\ rep d' m' /\ w' = printf out w).
Proof.
  intros Hd. pose proof Hd as (Hl & _ & Hm).
  assert (printf [] w = w) as Hw by (unfold printf; destruct w; simpl; by rewrite app_nil_r).
  destruct r as [l x|i x|l|i]; cbn [serve expect].
  - pose proof (get_hash_range l) as Hh. unfold add_item_label. rewrite (proj2 (Z.ltb_lt _ _)) by lia.
    rewrite wr_Ok by lia. simpl. split_and!; [done|by apply rep_set|done].
  - unfold add_item_index. destruct (decide (0 <= i < MAXELEMENTS)) as [Hi|Hi].
    + rewrite rd_Ok by lia. simpl. rewrite (rep_zero d m) by done. rewrite wr_Ok by lia.
      destruct (m !! i) as [y|]; simpl; (split_and!; [done| |done]); [done|by apply rep_set].
    + unfold rd, in_range. rewrite Hl. destruct (Z.leb_spec 0 i), (Z.ltb_spec i MAXELEMENTS); try lia; simpl;
        (split; [done|]); exists i, x; (split; [by apply list_elem_of_singleton|done]).
  - pose proof (get_hash_range l) as Hh. unfold get_element_label. rewrite rd_Ok by lia. simpl.
    rewrite (rep_zero d m), Hm by done. destruct (m !! get_hash l) as [y|]; simpl; done.
  - unfold get_element_index. case_decide as Hi.
    + destruct Hi as [H1 H2]. rewrite (proj2 (Z.leb_le _ _) H1), (proj2 (Z.ltb_lt _ _) H2). simpl.
      rewrite rd_Ok by lia. simpl. rewrite Hm by done. done.
    + destruct (Z.leb_spec 0 i), (Z.ltb_spec i MAXELEMENTS); try lia; simpl; done.
Qed.

(** The dictionary is a map from its 1000 cells, a label standing for the
    cell of its hash: every sequence of the four operations on a new
    dictionary returns the codes and items and prints the messages of that
    map, and the only fault is add_item_index with an index outside the
    array, which it does not test. *)
Theorem dict_refines_map rs w :
  runs (match create_dict true w with
        | (Some d, w) => serve_all rs d w
        | (None, w) => Fail NullDeref
        end) (bad_index rs) (fun '(xs, d, w') =>
    let '(xs0, out, m) := expect_all rs ∅ in xs = xs0 /\ rep d m /\ w' = printf out w).
Proof.
  unfold create_dict. assert (rep new_dict ∅) as Hd.
  { split_and!.
    - by apply zlen_replicate.
    - intros k x. by rewrite lookup_empty.
    - intros i Hi. rewrite lookup_empty. by apply aget_replicate. }
  revert Hd w. generalize new_dict, (∅ : gmap Z Z).
  induction rs as [|r rs IH]; intros d m Hd w.
  { simpl. split_and!; [done..|]. unfold printf. destruct w. simpl. by rewrite app_nil_r. }
  cbn [serve_all expect_all]. apply runs_bind. eapply runs_mono; [by apply (runs_serve r d m w)| |].
  { intros f (-> & i & x & Hin & Hi). split; [done|]. exists i, x. split; [|done].
    apply list_elem_of_singleton in Hin as <-. left. }
  intros [[x d1] w1]. destruct (expect r m) as [[x0 out] m1]. intros (-> & Hd1 & ->).
  apply runs_bind. eapply runs_mono; [by apply (IH d1 m1)| |].
  { intros f (-> & i & x & Hin & Hi). split; [done|]. exists i, x. split; [by right|done]. }
  intros [[xs d2] w2]. destruct (expect_all rs m1) as [[xs0 out'] m2]. intros (-> & Hd2 & ->). simpl.
  split_and!; [done..|]. unfold printf. simpl. by rewrite <- app_assoc.
Qed.

(** Labels are not compared: storing under "ff" replaces the item of "aa". *)
Lemma labels_collide :
  get_hash [97; 97] = get_hash [102; 102] /\
  expect_all [AddLabel [97; 97] 1; AddLabel [102; 102] 2; GetLabel [97; 97]] ∅ =
    ([0; 0; 2], [], {[get_hash [97; 97] := 2]}).
Proof. split; vm_compute; reflexivity. Qed.

End Dict.
