(* ===== verification/Sudoku.v ===== *)
(** * The sudoku solver of misc/sudokusolver.c

    The grid is an array of M = 144 cells of which the first N*N are used, by
    rows; boxes have R rows and C columns; 0 is an empty cell.  The search is
    the backtracking of the source, with the number of empty cells as its
    fuel. *)

From S2P Require Import Prelude Arrays.
Open Scope Z_scope.

Section sudoku.
Context (N R C : Z).

Definition M : Z := 144.

(** The tests return as soon as they meet the value. *)
Definition OKrow (a : list Z) (x y v : Z) : res bool :=
  let* r := for_exit 0 N (fun j (_ : unit) =>
    let* c := rd a (x * N + j) in
    if c =? v then Ok (inr false) else Ok (inl tt)) tt in
  match r with inl _ => Ok true | inr b => Ok b end.

Definition OKcol (a : list Z) (x y v : Z) : res bool :=
  let* r := for_exit 0 N (fun i (_ : unit) =>
    let* c := rd a (i * N + y) in
    if c =? v then Ok (inr false) else Ok (inl tt)) tt in
  match r with inl _ => Ok true | inr b => Ok b end.

Definition OKbox (a : list Z) (x y v : Z) : res bool :=
  let* _ := demand (negb (R =? 0) && negb (C =? 0)) DivByZero in
  let bi := Z.quot x R in
  let bj := Z.quot y C in
  let* r := for_exit 0 R (fun i (_ : unit) =>
    for_exit 0 C (fun j (_ : unit) =>
      let* c := rd a ((i + bi * R) * N + (j + bj * C)) in
      if c =? v then Ok (inr false) else Ok (inl tt)) tt) tt in
  match r with inl _ => Ok true | inr b => Ok b end.

Definition OK (a : list Z) (x y v : Z) : res bool :=
  let* r := OKrow a x y v in
  if negb r then Ok false else
  let* c := OKcol a x y v in
  if negb c then Ok false else
  OKbox a x y v.

Definition print (a : list Z) (w : console) : res console :=
  for_up 0 N (fun i w =>
    for_up 0 N (fun j w =>
      let* c := rd a (i * N + j) in
      Ok (printf [PInt c; PStr (if j =? N - 1 then "\n" else " ")] w)) w) w.

(** The loop over the values of one empty cell, given the recursive call;
    [inr] is the [return 1]. *)
Definition try_values (solve : list Z -> res (bool * list Z)) (i j : Z) (a : list Z)
    : res (list Z + list Z) :=
  for_exit 1 (N + 1) (fun v a =>
    let* ok := OK a i j v in
    if ok : bool then
      let* a := wr a (i * N + j) v in
      let* (solved, a) := solve a in
      if solved : bool then Ok (inr a) else
      let* a := wr a (i * N + j) 0 in
      Ok (inl a)
    else Ok (inl a)) a.

Fixpoint solve (fuel : nat) (a : list Z) : res (bool * list Z) :=
  match fuel with
  | O => Fail NoFuel
  | S fuel =>
      let* r := for_exit 0 N (fun i '(a, rem) =>
        for_exit 0 N (fun j '(a, rem) =>
          let* c := rd a (i * N + j) in
          if c =? 0 then
            let* r := try_values (solve fuel) i j a in
            match r with
            | inl a => Ok (inl (a, true))
            | inr a => Ok (inr a)
            end
          else Ok (inl (a, rem))) (a, rem)) (a, false) in
      match r with
      | inr a => Ok (true, a)
      | inl (a, rem) => Ok (negb rem, a)
      end
  end.

(** ** Grids *)

(** The cells of the grid, as indices. *)
Definition inside (x y : Z) : Prop := 0 <= x < N /\ 0 <= y < N.

Definition cell (a : list Z) (x y : Z) : Z := a.[x * N + y].

(** Two cells see each other in a row, a column or a box. *)
Definition peers (x y x' y' : Z) : Prop :=
  x = x' \/ y = y' \/ (x / R = x' / R /\ y / C = y' / C).

(** No two filled cells that see each other are equal. *)
Definition consistent (a : list Z) : Prop :=
  forall x y x' y', inside x y -> inside x' y' -> peers x y x' y' -> (x, y) <> (x', y') ->
    cell a x y <> 0 -> cell a x y <> cell a x' y'.

(** [s] completes [a] by the rules. *)
Definition solution (s a : list Z) : Prop :=
  zlen s = zlen a /\ consistent s /\
  (forall x y, inside x y -> 1 <= cell s x y <= N) /\
  (forall x y, inside x y -> cell a x y <> 0 -> cell s x y = cell a x y) /\
  (forall k, N * N <= k < zlen a -> s.[k] = a.[k]).

(** The number of empty cells. *)
Definition empties (a : list Z) : nat := length (filter (fun k => a.[k] = 0) (seqZ 0 (N * N))).

Context (HN : 0 < N <= 12) (HR : 0 < R) (HC : 0 < C) (HRN : (R | N)) (HCN : (C | N)).

Lemma index_inside x y : inside x y -> 0 <= x * N + y < N * N.
Proof.
  intros [Hx Hy]. assert (x * N <= (N - 1) * N) by (apply Z.mul_le_mono_nonneg_r; lia).
  assert (0 <= x * N) by (apply Z.mul_nonneg_nonneg; lia). lia.
Qed.

Lemma index_inj x y x' y' : inside x y -> inside x' y' -> x * N + y = x' * N + y' -> x = x' /\ y = y'.
Proof.
  intros [Hx Hy] [Hx' Hy'] E.
  assert (x = x') as ->; [|lia].
  assert ((x * N + y) / N = (x' * N + y') / N) as D by (by rewrite E).
  rewrite !Z.div_add_l, !Z.div_small, !Z.add_0_r in D by lia. done.
Qed.

Lemma index_bound x y (a : list Z) : inside x y -> N * N <= zlen a -> 0 <= x * N + y < zlen a.
Proof. intros H1 H2. apply index_inside in H1. lia. Qed.

(** A search through a range for a value. *)
Lemma wp_scan lo hi (f : Z -> Z) a v :
  lo <= hi -> (forall j, lo <= j < hi -> 0 <= f j < zlen a) ->
  wp (for_exit lo hi (fun j (_ : unit) =>
        let* c := rd a (f j) in if c =? v then Ok (inr false) else Ok (inl tt)) tt) (fun r =>
    match r with
    | inl _ => forall j, lo <= j < hi -> a.[f j] <> v
    | inr b => b = false /\ exists j, lo <= j < hi /\ a.[f j] = v
    end).
Proof.
  intros Hlh Hf. apply (wp_for_exit (fun i _ => forall j, lo <= j < i -> a.[f j] <> v)).
  - intros; lia.
  - intros i [] Hi HI. wp_step. rewrite rd_Ok by auto. simpl. code_case.
    + split; [done|]. exists i. auto.
    + intros j Hj. destruct (decide (j = i)) as [->|]; [done|]. apply HI. lia.
  - intros [] HI. by rewrite Z.max_r in HI by lia.
Qed.

(** The rows (or columns) of a box are those with its quotient. *)
Lemma box_span x i D : 0 < D -> (D | N) -> 0 <= x < N -> 0 <= i < D ->
  0 <= i + x / D * D < N /\ (i + x / D * D) / D = x / D.
Proof.
  intros HD [q Hq] Hx Hi. rewrite Z.div_add, (Z.div_small i D) by lia. split; [|lia].
  assert (x / D < q) by (apply Z.div_lt_upper_bound; [lia|]; rewrite Z.mul_comm; lia).
  assert (0 <= x / D) by (apply Z.div_pos; lia).
  assert (x / D * D <= (q - 1) * D) by (apply Z.mul_le_mono_nonneg_r; lia).
  assert (0 <= x / D * D) by (apply Z.mul_nonneg_nonneg; lia). lia.
Qed.

Lemma box_member x x' D : 0 < D -> x / D = x' / D -> x' = x' mod D + x / D * D.
Proof. intros HD E. rewrite E. pose proof (Z.div_mod x' D). lia. Qed.

Lemma wp_OKbox a x y v :
  inside x y -> N * N <= zlen a ->
  wp (OKbox a x y v) (fun b =>
    b = true <-> forall x' y', inside x' y' -> x / R = x' / R -> y / C = y' / C -> cell a x' y' <> v).
Proof.
  intros [Hx Hy] Hlen. unfold OKbox, demand.
  rewrite (proj2 (Z.eqb_neq R 0)), (proj2 (Z.eqb_neq C 0)) by lia. cbn [negb andb bind].
  rewrite !Z.quot_div_nonneg by lia.
  set (there i j := cell a (i + x / R * R) (j + y / C * C)).
  assert (forall i j, 0 <= i < R -> 0 <= j < C -> inside (i + x / R * R) (j + y / C * C)) as Hin.
  { intros i j Hi Hj. by split; apply box_span. }
  wp_step. apply (wp_mono _ (fun r => match r with
    | inl _ => forall i j, 0 <= i < R -> 0 <= j < C -> there i j <> v
    | inr b => b = false /\ exists i j, 0 <= i < R /\ 0 <= j < C /\ there i j = v
    end)).
  - apply (wp_for_exit (fun k _ => forall i j, 0 <= i < k -> 0 <= j < C -> there i j <> v)).
    + intros; lia.
    + intros i [] Hi HI.
      eapply wp_mono; [apply (wp_scan 0 C (fun j => (i + x / R * R) * N + (j + y / C * C))); [lia|]|].
      * intros j Hj. apply index_bound; [by apply Hin|done].
      * intros [[]|b].
        { intros HI2 i' j Hi' Hj. destruct (decide (i' = i)) as [->|]; [by apply HI2|apply HI; lia]. }
        intros [-> (j & Hj & E)]. split; [done|]. by exists i, j.
    + intros [] HI. by rewrite Z.max_r in HI by lia.
  - intros [[]|b]; simpl.
    + intros Hall. split; [|done]. intros _ x' y' [Hx' Hy'] Ex Ey E.
      apply (Hall (x' mod R) (y' mod C)); [apply Z.mod_pos_bound; lia..|]. unfold there.
      by rewrite <- (box_member x x' R), <- (box_member y y' C) by done.
    + intros [-> (i & j & Hi & Hj & E)]. split; [done|]. intros H. exfalso.
      apply (H (i + x / R * R) (j + y / C * C)); [by apply Hin| | |exact E].
      * symmetry. by apply box_span.
      * symmetry. by apply box_span.
Qed.

(** The cells OK looks at are those that see (x, y). *)
Lemma wp_OK a x y v :
  inside x y -> N * N <= zlen a ->
  wp (OK a x y v) (fun b =>
    b = true <-> forall x' y', inside x' y' -> peers x y x' y' -> cell a x' y' <> v).
Proof.
  intros Hxy Hlen. pose proof Hxy as [Hx Hy]. unfold OK. wp_step.
  apply (wp_mono _ (fun b => b = true <-> forall y', 0 <= y' < N -> cell a x y' <> v)).
  { unfold OKrow. wp_step. eapply wp_mono; [apply (wp_scan 0 N (fun j => x * N + j)); [lia|]|].
    - intros j Hj. apply index_bound; [split; lia|done].
    - intros [u|b]; simpl; [done|]. intros [-> (j & Hj & E)]. split; [done|]. intros H. by apply H in Hj. }
  intros [|] Hrow; simpl.
  2: { split; [done|]. intros H. apply Hrow. intros y' Hy'. apply H; [done|]. by left. }
  wp_step. apply (wp_mono _ (fun b => b = true <-> forall x', 0 <= x' < N -> cell a x' y <> v)).
  { unfold OKcol. wp_step. eapply wp_mono; [apply (wp_scan 0 N (fun i => i * N + y)); [lia|]|].
    - intros j Hj. apply index_bound; [split; lia|done].
    - intros [u|b]; simpl; [done|]. intros [-> (j & Hj & E)]. split; [done|]. intros H. by apply H in Hj. }
  intros [|] Hcol; simpl.
  2: { split; [done|]. intros H. apply Hcol. intros x' Hx'. apply H; [done|]. right. by left. }
  eapply wp_mono; [by apply wp_OKbox|]. intros b ->. split.
  - intros Hbox x' y' [Hx' Hy'] [<-|[<-|[E1 E2]]].
    + by apply Hrow.
    + by apply Hcol.
    + by apply Hbox.
  - intros H x' y' Hin E1 E2. apply H; [done|]. right. by right.
Qed.

(** ** Placing a value *)

Definition place (a : list Z) (x y v : Z) : list Z := upd a (x * N + y) v.

Definition grid (a : list Z) : Prop :=
  N * N <= zlen a /\ consistent a /\ forall x y, inside x y -> 0 <= cell a x y <= N.

Lemma cell_place a i j v x y :
  N * N <= zlen a -> inside i j -> inside x y ->
  cell (place a i j v) x y = if decide (x = i /\ y = j) then v else cell a x y.
Proof.
  intros Hlen Hij Hxy. unfold cell, place. case_decide as E.
  - destruct E as [-> ->]. apply aget_upd_eq. by apply index_bound.
  - pose proof (index_inside _ _ Hij). pose proof (index_inside _ _ Hxy).
    apply aget_upd_ne; [lia|lia|]. intros E'. apply E. symmetry in E'. by apply index_inj in E'.
Qed.

Lemma filter_length_lt {A} (P P' : A -> Prop) `{!forall x, Decision (P x), !forall x, Decision (P' x)}
    (l : list A) x :
  (forall y, y ∈ l -> P' y -> P y) -> x ∈ l -> P x -> ~ P' x ->
  (length (filter P' l) < length (filter P l))%nat.
Proof.
  intros Himp Hx HP HP'. induction l as [|y l IH]; [by apply elem_of_nil in Hx|].
  assert (length (filter P' l) <= length (filter P l))%nat as Hle.
  { clear IH Hx. assert (forall y, y ∈ l -> P' y -> P y) as Hl by (intros z Hz; apply Himp; by right).
    clear Himp. induction l as [|z l IH]; [done|]. rewrite !filter_cons.
    assert (P' z -> P z) by (apply Hl; left).
    assert (length (filter P' l) <= length (filter P l))%nat by (apply IH; intros u Hu; apply Hl; by right).
    repeat case_decide; simpl; try lia. tauto. }
  rewrite !filter_cons. apply elem_of_cons in Hx as [<-|Hx].
  - rewrite decide_False, decide_True by done. simpl. lia.
  - assert (P' y -> P y) by (apply Himp; left).
    assert (length (filter P' l) < length (filter P l))%nat by (apply IH; [intros z Hz; apply Himp; by right|done]).
    repeat case_decide; simpl; try lia. tauto.
Qed.

Lemma empties_place a i j v :
  N * N <= zlen a -> inside i j -> cell a i j = 0 -> v <> 0 ->
  (empties (place a i j v) < empties a)%nat.
Proof.
  intros Hlen Hij Hz Hv. unfold empties. pose proof (index_inside _ _ Hij) as Hk.
  apply (filter_length_lt _ _ _ (i * N + j)).
  - intros k Hin. apply elem_of_seqZ in Hin. unfold place. intros Hk0. destruct (decide (k = i * N + j)) as [->|Hne]; [done|].
    by rewrite aget_upd_ne in Hk0 by lia.
  - apply elem_of_seqZ. lia.
  - done.
  - unfold place. rewrite aget_upd_eq by lia. done.
Qed.

(** Peers are symmetric. *)
Lemma peers_sym x y x' y' : peers x y x' y' -> peers x' y' x y.
Proof. unfold peers. intros [->|[->|[-> ->]]]; auto. Qed.

Lemma grid_place a i j v :
  grid a -> inside i j -> cell a i j = 0 -> 1 <= v <= N ->
  (forall x' y', inside x' y' -> peers i j x' y' -> cell a x' y' <> v) -> grid (place a i j v).
Proof.
  intros (Hlen & Hc & Hr) Hij Hz Hv Hok. unfold grid. split_and!.
  - unfold place. by rewrite zlen_upd.
  - intros x y x' y' Hxy Hxy' Hp Hne. rewrite !cell_place by done.
    case_decide as E1; case_decide as E2.
    + destruct E1 as [-> ->], E2 as [-> ->]. done.
    + destruct E1 as [-> ->]. intros _ E. by apply (Hok x' y').
    + destruct E2 as [-> ->]. intros _ E. apply (Hok x y); [done|by apply peers_sym|done].
    + by apply Hc.
  - intros x y Hxy. rewrite cell_place by done. case_decide; [lia|auto].
Qed.

Lemma solution_unplace s a i j v :
  N * N <= zlen a -> inside i j -> cell a i j = 0 ->
  solution s (place a i j v) -> solution s a.
Proof.
  intros Hlen Hij Hz (Hl & Hc & Hr & He & Ht). unfold place in Hl, Ht. rewrite zlen_upd in Hl, Ht.
  split_and!; [done..| |].
  - intros x y Hxy Hnz. assert (~ (x = i /\ y = j)) as Hne by (by intros [-> ->]).
    specialize (He x y Hxy). rewrite cell_place, decide_False in He by done. auto.
  - intros k Hk. rewrite Ht by done. pose proof (index_inside _ _ Hij). apply aget_upd_ne; lia.
Qed.

Lemma solution_place s a i j :
  N * N <= zlen a -> inside i j -> solution s a -> solution s (place a i j (cell s i j)).
Proof.
  intros Hlen Hij (Hl & Hc & Hr & He & Ht). unfold solution. unfold place at 1 4 5. rewrite !zlen_upd.
  split_and!; [done..| |].
  - intros x y Hxy. rewrite cell_place by done. case_decide as E; [by destruct E as [-> ->]|auto].
  - intros k Hk. rewrite Ht by done. symmetry. pose proof (index_inside _ _ Hij). apply aget_upd_ne; lia.
Qed.

(** What a solution puts into an empty cell passes the test. *)
Lemma solution_OK s a i j :
  inside i j -> cell a i j = 0 -> solution s a ->
  forall x' y', inside x' y' -> peers i j x' y' -> cell a x' y' <> cell s i j.
Proof.
  intros Hij Hz (_ & Hc & Hr & He & _) x' y' Hin Hp E.
  pose proof (Hr _ _ Hij). destruct (decide ((i, j) = (x', y'))) as [[= <- <-]|Hne]; [lia|].
  apply (Hc i j x' y'); [done..|lia|]. rewrite (He x' y'); [by symmetry|done|lia].
Qed.

(** ** The search *)

(** What [solve] promises on a grid. *)
Definition solves (a : list Z) (out : bool * list Z) : Prop :=
  if out.1 then solution out.2 a else out.2 = a /\ forall s, ~ solution s a.

Lemma wp_try_values rec i j a :
  grid a -> inside i j -> cell a i j = 0 ->
  (forall v, 1 <= v <= N -> grid (place a i j v) -> wp (rec (place a i j v)) (solves (place a i j v))) ->
  wp (try_values rec i j a) (fun r =>
    match r with
    | inl a' => a' = a /\ forall s, ~ solution s a
    | inr a' => solution a' a
    end).
Proof.
  intros Hg Hij Hz Hrec. pose proof Hg as (Hlen & _).
  pose proof (index_bound i j a Hij Hlen) as Hk. unfold try_values.
  apply (wp_for_exit (fun v a' => a' = a /\ forall s, solution s a -> cell s i j < v -> False)).
  - split; [done|]. intros s (_ & _ & Hr & _) Hlt. specialize (Hr i j Hij). lia.
  - intros v a' Hv [-> Hno]. wp_step. eapply wp_mono; [by apply (wp_OK a i j v)|]. intros [|] Hok; simpl.
    + rewrite wr_Ok by done. simpl. wp_step. fold (place a i j v).
      assert (grid (place a i j v)) as Hg' by (apply grid_place; [done..|lia|by apply Hok]).
      eapply wp_mono; [apply Hrec; [lia|done]|]. intros [solved a1]. unfold solves. simpl.
      destruct solved; [apply solution_unplace; done|]. intros [-> Hnone].
      rewrite wr_Ok by (unfold place; rewrite zlen_upd; done). simpl. unfold place at 1.
      rewrite upd_upd_eq. unfold cell in Hz. rewrite <- Hz, upd_aget by done. split; [done|].
      intros s Hs Hlt. destruct (decide (cell s i j = v)) as [E|]; [|apply (Hno s Hs); lia].
      apply (Hnone s). rewrite <- E. by apply solution_place.
    + split; [done|]. intros s Hs Hlt. destruct (decide (cell s i j = v)) as [E|]; [|apply (Hno s Hs); lia].
      enough (false = true) by done. apply Hok. rewrite <- E. by apply solution_OK.
  - intros a' [-> Hno]. split; [done|]. intros s Hs. apply (Hno s Hs). destruct Hs as (_ & _ & Hr & _).
    specialize (Hr i j Hij). lia.
Qed.
Lemma wp_solve fuel a :
  grid a -> (empties a < fuel)%nat -> wp (solve fuel a) (solves a).
Proof.
  revert a. induction fuel as [|fuel IH]; intros a Hg Hf; [lia|]. pose proof Hg as (Hlen & Hcons & Hr).
  cbn [solve]. wp_step.
  set (Inv := fun (p : Z -> Z -> Prop) (st : list Z * bool) =>
    st.1 = a /\ if st.2 then forall s, ~ solution s a
                else forall x y, p x y -> inside x y -> cell a x y <> 0).
  apply (wp_mono _ (fun r => match r with
    | inl st => Inv (fun _ _ => True) st
    | inr a' => solution a' a
    end)).
  - apply (wp_for_exit (fun i => Inv (fun x _ => x < i))).
    + split; [done|]. intros x y Hx [? _]. lia.
    + intros i [a' rem] Hi HI.
      apply (wp_for_exit (fun j => Inv (fun x y => x < i \/ x = i /\ y < j))).
      * destruct HI as [E HI]. simpl in E. subst a'. split; [done|]. simpl in *. destruct rem; [done|].
        intros x y [Hx|[-> Hy]] Hin; [by apply HI|]. destruct Hin. lia.
      * intros j [a1 rem1] Hj [E HI1]. simpl in E. subst a1. assert (inside i j) as Hij by (split; lia).
        rewrite rd_Ok by (by apply index_bound). simpl. code_case.
        { wp_step. eapply wp_mono; [apply (wp_try_values (solve fuel) i j a Hg Hij); [done|]|].
          - intros v Hv Hgv. apply IH; [done|].
            pose proof (empties_place a i j v Hlen Hij). unfold cell in *. lia.
          - intros [a2|a2]; simpl; [|done]. intros [-> Hno]. by split. }
        split; [done|]. simpl in *. destruct rem1; [done|].
        intros x y [Hx|[-> Hy]] Hin; [apply HI1; auto|].
        destruct (decide (y = j)) as [->|]; [done|]. apply HI1; [right; lia|done].
      * intros [a1 rem1] [E HI1]. split; [done|]. simpl in *. destruct rem1; [done|].
        intros x y Hx Hin. apply HI1; [|done]. destruct (decide (x = i)) as [->|]; [|lia].
        right. destruct Hin. lia.
    + intros [a1 rem1] [E HI1]. split; [done|]. simpl in *. destruct rem1; [done|].
      intros x y _ Hin. apply HI1; [|done]. destruct Hin. lia.
  - intros [[a1 rem1]|a1]; [|done]. intros [E HI]. simpl in E. subst a1. simpl in *.
    unfold solves. destruct rem1; simpl; [done|]. split_and!; [done|done| |done|done].
    intros x y Hin. specialize (Hr x y Hin). specialize (HI x y I Hin). lia.
Qed.

End sudoku.

(** main: the three numbers, the grid, and the answer. *)
Definition read_grid (N : Z) (a : list (option Z)) (w : console) : res (list (option Z) * console) :=
  for_up 0 N (fun i '(a, w) =>
    for_up 0 N (fun j '(a, w) =>
      let* (x, w) := scanf w in
      let* a := wr a (i * N + j) (Some x) in
      Ok (a, w)) (a, w)) (a, w).

(** When the boxes tile the grid the search only looks at the cells that were
    read; the others stay as they were, and are given the value 0 here. *)
Definition main (w : console) : res console :=
  let* (N, w) := scanf w in
  let* (R, w) := scanf w in
  let* (C, w) := scanf w in
  let* (a, w) := read_grid N (uninit M) w in
  let a := map (fun o => match o with Some x => x | None => 0 end) a in
  let* (solved, a) := solve N R C (S (empties N a)) a in
  if solved : bool then print N a w else Ok (printf [PStr "Invalid\n"] w).

(** C13. The solver is sound and complete.  On a grid of at most 12 by 12
    cells, cut into boxes of R by C, whose given numbers do not contradict
    each other, solve returns, with fuel for one call more than there are empty
    cells; it returns 1 with a grid that keeps the givens and obeys the rules
    of row, column and box, if there is one; and it returns 0 and the grid
    unchanged exactly when there is none. *)
Theorem sudoku_solve_correct (N R C : Z) (a : list Z) :
  0 < N <= 12 -> 0 < R -> 0 < C -> (R | N) -> (C | N) -> grid N R C a ->
  wp (solve N R C (S (empties N a)) a) (fun '(solved, a') =>
    if solved : bool then solution N R C a' a
    else a' = a /\ forall s, ~ solution N R C s a).
Proof.
  intros HN HR HC HRN HCN Hg.
  eapply wp_mono; [apply (wp_solve N R C HN HR HC HRN HCN _ a Hg); lia|]. by intros [[|] a'].
Qed.

(** The hypothesis on the grid, decided by looking at all pairs of cells. *)
Definition gridb (N R C : Z) (a : list Z) : bool :=
  (N * N <=? zlen a) &&
  forallb (fun x => forallb (fun y =>
    (0 <=? cell N a x y) && (cell N a x y <=? N) &&
    forallb (fun x' => forallb (fun y' =>
      negb ((x =? x') || (y =? y') || ((x / R =? x' / R) && (y / C =? y' / C))) ||
      ((x =? x') && (y =? y')) || (cell N a x y =? 0) || negb (cell N a x y =? cell N a x' y'))
      (seqZ 0 N)) (seqZ 0 N)) (seqZ 0 N)) (seqZ 0 N).

Lemma gridb_sound N R C a : gridb N R C a = true -> grid N R C a.
Proof.
  unfold gridb. rewrite andb_true_iff, Z.leb_le. intros [Hlen H].
  assert (forall x y, inside N x y -> 0 <= cell N a x y <= N /\
    forall x' y', inside N x' y' -> negb ((x =? x') || (y =? y') || ((x / R =? x' / R) && (y / C =? y' / C))) ||
      ((x =? x') && (y =? y')) || (cell N a x y =? 0) || negb (cell N a x y =? cell N a x' y') = true) as Hall.
  { rewrite forallb_forall in H. intros x y [Hx Hy].
    specialize (H x). rewrite forallb_forall in H. specialize (H ltac:(apply list_elem_of_In, elem_of_seqZ; lia) y
      ltac:(apply list_elem_of_In, elem_of_seqZ; lia)).
    rewrite !andb_true_iff, !Z.leb_le in H. destruct H as [[H1 H2] H]. split; [lia|].
    intros x' y' [Hx' Hy']. rewrite forallb_forall in H. specialize (H x'). rewrite forallb_forall in H.
    apply H; apply list_elem_of_In, elem_of_seqZ; lia. }
  split_and!; [done| |intros x y Hin; by apply Hall].
  intros x y x' y' Hin Hin' Hp Hne Hnz E. destruct (Hall x y Hin) as [_ Hc]. specialize (Hc x' y' Hin').
  rewrite !orb_true_iff, !negb_true_iff, !orb_false_iff, andb_true_iff, andb_false_iff, !Z.eqb_eq, !Z.eqb_neq in Hc.
  unfold peers in Hp. destruct Hc as [[[[Hc1 Hc2]|[-> ->]]|]|]; [|done..]. naive_solver.
Qed.

Definition sample_grid : list Z := [1; 3; 2; 4; 4; 2; 0; 1; 2; 0; 1; 3; 3; 1; 4; 0].

Lemma sudoku_solve_correct_witness :
  grid 4 2 2 sample_grid /\
  (let* (_, a) := solve 4 2 2 4 sample_grid in Ok a) =
    Ok [1; 3; 2; 4; 4; 2; 3; 1; 2; 4; 1; 3; 3; 1; 4; 2] /\
  wp (solve 4 2 2 (S (empties 4 sample_grid)) sample_grid) (fun '(solved, a') =>
    if solved : bool then solution 4 2 2 a' sample_grid
    else a' = sample_grid /\ forall s, ~ solution 4 2 2 s sample_grid).
Proof.
  assert (grid 4 2 2 sample_grid) as Hg by (apply gridb_sound; vm_compute; reflexivity).
  split; [exact Hg|]. split; [vm_compute; reflexivity|].
  apply (sudoku_solve_correct 4 2 2 sample_grid); [lia|lia|lia|exists 2; reflexivity|exists 2; reflexivity|exact Hg].
Defined.

(** Givens that contradict each other are not noticed: the program prints a
    grid with two ones in its first row. *)
Lemma contradiction_unnoticed :
  (let* w := main (Console [2; 1; 2; 1; 1; 0; 0] []) in Ok (output w)) =
    Ok [PStr "Invalid\n"] /\
  (let* w := main (Console [2; 1; 2; 1; 1; 2; 2] []) in Ok (output w)) =
    Ok [PInt 1; PStr " "; PInt 1; PStr "\n"; PInt 2; PStr " "; PInt 2; PStr "\n"].
Proof. split; vm_compute; reflexivity. Qed.
