(* ===== verification/Conversions.v ===== *)
(** * Conversions between bases

    The programs of algorithms/c/conversions.  The binary and octal numbers
    they read or print as one number are written in decimal digits, as in the
    source; [rebase] says what that means. *)

From S2P Require Import Prelude Arrays.
Open Scope Z_scope.

(** ** Reading the digits of a number in another base *)

(** The digits of [n] in base [k], read in base [B]. *)
Fixpoint rebase (fuel : nat) (k B n : Z) : Z :=
  match fuel with
  | O => 0
  | S fuel => if n <=? 0 then 0 else n mod k + B * rebase fuel k B (n / k)
  end.

(** The digits, highest first. *)
Fixpoint digits (fuel : nat) (k n : Z) : list Z :=
  match fuel with
  | O => []
  | S fuel => if n <=? 0 then [] else digits fuel k (n / k) ++ [n mod k]
  end.

(** * decimal _to_binary.c *)

Module DecimalToBinary.

Definition MAXBITS : Z := 100.

(** The dividing loop: at most 31 turns for an int. *)
Definition split_bits (inputNumber : Z) : res (list (option Z) * Z) :=
  let* (_, bits, i) := while 32 (fun '(n, _, _) => Ok (n >? 0)) (fun '(n, bits, i) =>
    let re := Z.rem n 2 in
    let n := Z.quot n 2 in
    let* bits := wr bits i (Some re) in
    let* i := int (i + 1) in
    Ok (n, bits, i)) (inputNumber, uninit MAXBITS, 0) in
  Ok (bits, i).

(** The exit code and the console. *)
Definition main (w : console) : res (Z * console) :=
  let w := printf [PStr "\t\tConverter decimal --> binary\n\n"] w in
  let w := printf [PStr "\nenter a positive integer number: "] w in
  let* (inputNumber, w) := scanf w in
  if inputNumber <? 0 then Ok (1, printf [PStr "only positive integers >= 0\n"] w) else
  let* (bits, i) := split_bits inputNumber in
  let w := printf [PStr "\n the number in binary is: "] w in
  let* w := for_down (i - 1) 0 (fun j w =>
    let* b := rdu bits j in
    Ok (printf [PInt b] w)) w in
  let w := if i =? 0 then printf [PStr "0"] w else w in
  Ok (0, w).

End DecimalToBinary.

(** * binary_to_decimal.c *)

Module BinaryToDecimal.

Definition convert (number : Z) : res Z :=
  let* (_, decimal_number, _) := while 11 (fun '(number, _, _) => Ok (number >? 0))
    (fun '(number, decimal_number, temp) =>
       let remainder := Z.rem number 10 in
       let number := Z.quot number 10 in
       let* t := int (remainder * temp) in
       let* decimal_number := int (decimal_number + t) in
       let* temp := int (temp * 2) in
       Ok (number, decimal_number, temp)) (number, 0, 1) in
  Ok decimal_number.

Definition main (w : console) : res console :=
  let w := printf [PStr "Enter any binary number= "] w in
  let* (number, w) := scanf w in
  let* decimal_number := convert number in
  Ok (printf [PInt decimal_number; PStr "\n"] w).

End BinaryToDecimal.

(** * binary_to_hexa.c: the same in long int, printed with %lX *)

Module BinaryToHexa.

Definition convert (binary : Z) : res Z :=
  let* (_, hexa, _) := while 20 (fun '(binary, _, _) => Ok (negb (binary =? 0)))
    (fun '(binary, hexa, i) =>
       let remainder := Z.rem binary 10 in
       let* t := long (remainder * i) in
       let* hexa := long (hexa + t) in
       let* i := long (i * 2) in
       let binary := Z.quot binary 10 in
       Ok (binary, hexa, i)) (binary, 0, 1) in
  Ok hexa.

(** [%lX]: the digits of the value as an unsigned long. *)
Definition hex_digit (d : Z) : piece := PChar (if d <? 10 then 48 + d else 55 + d).

Definition percent_lX (z : Z) : list piece :=
  match digits 16 16 (u64 z) with [] => [PChar 48] | ds => map hex_digit ds end.

Definition main (w : console) : res console :=
  let w := printf [PStr "Enter the binary number: "] w in
  let* (binary, w) := scanf w in
  let* hexa := convert binary in
  Ok (printf (PStr "THe Equivalent hexadecimal value: " :: percent_lX hexa) w).

End BinaryToHexa.

(** * binary2octal.c *)

Module BinaryToOctal.

(** r, d, p and n of three_digits. *)
Definition three_digits (n : Z) : res Z :=
  let* (d, _, _) := for_up 0 3 (fun _ '(d, p, n) =>
    let r := Z.rem n 10 in
    let* t := int (r * p) in
    let* d := int (d + t) in
    let* p := int (p * 10) in
    Ok (d, p, Z.quot n 10)) (0, 1, n) in
  Ok d.

(** The inner loop on three digits. *)
Definition group (td : Z) : res Z :=
  let* (_, d, _) := while 4 (fun '(td, _, _) => Ok (td >? 0)) (fun '(td, d, base) =>
    let remainder := Z.rem td 10 in
    let td := Z.quot td 10 in
    let* t := int (base * remainder) in
    let* d := int (d + t) in
    let* base := int (base * 2) in
    Ok (td, d, base)) (td, 0, 1) in
  Ok d.

Definition convert (binary_num : Z) : res Z :=
  let* (_, r, _) := while 5 (fun '(binary_num, _, _) => Ok (binary_num >? 0))
    (fun '(binary_num, r, ord) =>
       let* td := if binary_num >? 111 then three_digits binary_num else Ok binary_num in
       let binary_num := Z.quot binary_num 1000 in
       let* d := group td in
       let* t := int (d * ord) in
       let* r := int (r + t) in
       let* ord := int (ord * 10) in
       Ok (binary_num, r, ord)) (binary_num, 0, 1) in
  Ok r.

Definition main (w : console) : res console :=
  let w := printf [PStr "Enter the binary no: "] w in
  let* (binary_num, w) := scanf w in
  let* r := convert binary_num in
  Ok (printf [PStr "\nOctal equivalent is: "; PInt r] w).

End BinaryToOctal.

(** * decimal_to_octal.c *)

Module DecimalToOctal.

(** The digits go to octalNumber[1], [2], ...; a long has at most 21. *)
Definition decimal2Octal (decimalnum : Z) (w : console) : res console :=
  let* (_, octalNumber, i) := while 23 (fun '(quotient, _, _) => Ok (negb (quotient =? 0)))
    (fun '(quotient, octalNumber, i) =>
       let* octalNumber := wr octalNumber i (Some (Z.rem quotient 8)) in
       let* i := int (i + 1) in
       Ok (Z.quot quotient 8, octalNumber, i)) (decimalnum, uninit 100, 1) in
  let* w := for_down (i - 1) 1 (fun j w =>
    let* d := rdu octalNumber j in
    Ok (printf [PInt d] w)) w in
  Ok (printf [PStr "\n"] w).

Definition main (w : console) : res console :=
  let w := printf [PStr "Enter the decimal number: "] w in
  let* (decimalnum, w) := scanf w in
  decimal2Octal decimalnum w.

End DecimalToOctal.

(** * decimal_to_hexa.c *)

Module DecimalToHexa.

Definition decimal2Hexadecimal (num : Z) (w : console) : res console :=
  let* (_, hexadecimalnum, j) := while 17 (fun '(quotient, _, _) => Ok (negb (quotient =? 0)))
    (fun '(quotient, hexadecimalnum, j) =>
       let remainder := Z.rem quotient 16 in
       let c := if remainder <? 10 then 48 + remainder else 55 + remainder in
       let* hexadecimalnum := wr hexadecimalnum j (Some c) in
       let* j := int (j + 1) in
       Ok (Z.quot quotient 16, hexadecimalnum, j)) (num, uninit 100, 0) in
  let* w := for_down j 0 (fun i w =>
    let* c := rdu hexadecimalnum i in
    Ok (printf [PChar c] w)) w in
  Ok (printf [PStr "\n"] w).

Definition main (w : console) : res console :=
  let w := printf [PStr "Enter decimal number: "] w in
  let* (decimalnum, w) := scanf w in
  decimal2Hexadecimal decimalnum w.

End DecimalToHexa.

(** * toDecimal.c *)

Module ToDecimal.

Definition isdigit (c : Z) : bool := (48 <=? c) && (c <=? 57).
Definition isupper (c : Z) : bool := (65 <=? c) && (c <=? 90).
Definition islower (c : Z) : bool := (97 <=? c) && (c <=? 122).

(** The value that replaces a character, converted to [char]. *)
Definition digit (base c : Z) : res Z :=
  if isdigit c then Ok (s8 (c - 48))
  else if isupper c then Ok (s8 (c - (65 - 10)))
  else if islower c then Ok (s8 (c - (97 - 10)))
  else let* b := int (base + 1) in Ok (s8 b).

(** The first loop; the message does not stop it. *)
Fixpoint to_digits (base : Z) (number : list Z) (w : console) : res (list Z * console) :=
  match number with
  | [] => Ok ([], w)
  | c :: number =>
      let* d := digit base c in
      let w := if d >? base then printf [PStr "invalid number\n"] w else w in
      let* (ds, w) := to_digits base number w in
      Ok (d :: ds, w)
  end.

(** unsigned long arithmetic. *)
Definition accumulate (base : Z) (ds : list Z) : Z :=
  fold_left (fun decimal d => u64 (u64 (decimal * base) + d)) ds 0.

(** [number] is the word read by [scanf("%s")], which must fit its buffer. *)
Definition main (number : list Z) (w : console) : res console :=
  let w := printf [PStr "Enter the base: "] w in
  let* (base, w) := scanf w in
  let w := printf [PStr "Enter the number: "] w in
  let* _ := demand (zlen number <? 100) OutOfBounds in
  let* (ds, w) := to_digits base number w in
  Ok (printf [PInt (accumulate base ds); PStr "\n"] w).

End ToDecimal.

(** * What the loops compute *)

Lemma rebase_0 f k B n : n <= 0 -> rebase f k B n = 0.
Proof. intros Hn. destruct f; simpl; [done|]. by rewrite (proj2 (Z.leb_le n 0)). Qed.

Lemma rebase_S f k B n : 0 < k -> 0 <= n -> rebase (S f) k B n = n mod k + B * rebase f k B (n / k).
Proof.
  intros Hk Hn. simpl. destruct (Z.leb_spec n 0); [|done]. assert (n = 0) as -> by lia.
  rewrite Z.div_0_l, rebase_0, Z.mod_0_l by lia. lia.
Qed.

Lemma pow_S k f : 0 <= k -> k ^ Z.of_nat (S f) = k * k ^ Z.of_nat f.
Proof. intros Hk. rewrite Nat2Z.inj_succ, Z.pow_succ_r by lia. done. Qed.

(** One digit less. *)
Lemma div_below k f n : 0 < k -> 0 <= n < k ^ Z.of_nat (S f) -> 0 <= n / k < k ^ Z.of_nat f.
Proof.
  intros Hk [H1 H2]. rewrite pow_S in H2 by lia. split; [apply Z.div_pos; lia|].
  apply Z.div_lt_upper_bound; lia.
Qed.

Lemma rebase_bound f k B n :
  0 < k -> 1 < B -> 0 <= rebase f k B n /\ (B - 1) * rebase f k B n <= (k - 1) * (B ^ Z.of_nat f - 1).
Proof.
  intros Hk HB. revert n. induction f as [|f IH]; intros n; [simpl; lia|].
  assert (1 <= B ^ Z.of_nat f) by (apply (Z.pow_le_mono_r B 0); lia).
  rewrite pow_S by lia. simpl. destruct (Z.leb_spec n 0); [nia|].
  specialize (IH (n / k)). pose proof (Z.mod_pos_bound n k Hk). nia.
Qed.

(** More fuel than digits changes nothing. *)
Lemma rebase_fuel f f' k B n :
  0 < k -> 0 <= n < k ^ Z.of_nat f -> (f <= f')%nat -> rebase f' k B n = rebase f k B n.
Proof.
  intros Hk. revert f' n. induction f as [|f IH]; intros f' n Hn Hf.
  { simpl in *. rewrite rebase_0 by lia. done. }
  destruct f' as [|f']; [lia|]. rewrite !rebase_S by lia. rewrite IH; [done|by apply div_below|lia].
Qed.

(** Reading the digits back. *)
Lemma rebase_inverse f k B n :
  1 < k -> k <= B -> 0 <= n < k ^ Z.of_nat f -> rebase f B k (rebase f k B n) = n.
Proof.
  intros Hk HkB. revert n. induction f as [|f IH]; intros n Hn; [simpl in *; lia|].
  rewrite (rebase_S f k B n) by lia. pose proof (rebase_bound f k B (n / k)) as [Hm _]; [lia|lia|].
  pose proof (Z.mod_pos_bound n k ltac:(lia)).
  assert (0 <= B * rebase f k B (n / k)) by (apply Z.mul_nonneg_nonneg; lia). rewrite rebase_S by lia.
  assert ((n mod k + B * rebase f k B (n / k)) / B = rebase f k B (n / k)) as ->.
  { rewrite Z.mul_comm, Z.div_add, (Z.div_small (n mod k) B) by lia. lia. }
  assert ((n mod k + B * rebase f k B (n / k)) mod B = n mod k) as ->.
  { rewrite Z.mul_comm, Z.mod_add, (Z.mod_small (n mod k) B) by lia. done. }
  rewrite IH by (apply div_below; lia). pose proof (Z.div_mod n k ltac:(lia)). lia.
Qed.

(** ** The two readers of binary numbers *)

Lemma binary_to_decimal_loop f number dec temp :
  0 <= number < 10 ^ Z.of_nat f -> (f <= 10)%nat -> temp = 2 ^ (10 - Z.of_nat f) ->
  0 <= dec <= 9 * (temp - 1) ->
  wp (while (S f) (fun '(number, _, _) => Ok (number >? 0))
    (fun '(number, decimal_number, temp) =>
       let remainder := Z.rem number 10 in
       let number := Z.quot number 10 in
       let* t := int (remainder * temp) in
       let* decimal_number := int (decimal_number + t) in
       let* temp := int (temp * 2) in
       Ok (number, decimal_number, temp)) (number, dec, temp))
  (fun '(_, d, _) => d = dec + temp * rebase f 10 2 number).
Proof.
  revert number dec temp. induction f as [|f IH]; intros number dec temp Hn Hf Ht Hd; rewrite while_step; cbn [bind];
    rewrite Z.gtb_ltb; destruct (Z.ltb_spec 0 number).
  - simpl in Hn. lia.
  - simpl. lia.
  - assert (2 ^ (10 - Z.of_nat f) = 2 * temp) as Hp.
    { subst temp. rewrite <- Z.pow_succ_r by lia. f_equal. lia. }
    assert (temp <= 512) by (subst temp; apply (Z.pow_le_mono_r 2 _ 9); lia).
    assert (1 <= temp) by (subst temp; apply (Z.pow_le_mono_r 2 0); lia).
    rewrite Z.rem_mod_nonneg, Z.quot_div_nonneg by lia. pose proof (Z.mod_pos_bound number 10 ltac:(lia)).
    wp_step. wp_step. apply wp_int; [code_nia|]. wp_step. apply wp_int; [code_nia|]. wp_step. wp_step. wp_step.
    eapply wp_mono; [apply IH; [by apply div_below|lia|lia|nia]|].
    intros [[a d] b] ->. rewrite rebase_S by lia. lia.
  - simpl. rewrite (proj2 (Z.leb_le number 0)) by lia. lia.
Qed.

Lemma wp_binary_to_decimal number :
  0 <= number <= INT_MAX -> wp (BinaryToDecimal.convert number) (fun d => d = rebase 10 10 2 number).
Proof.
  intros Hn. unfold BinaryToDecimal.convert. wp_step.
  eapply wp_mono; [apply (binary_to_decimal_loop 10 number 0 1); [unfold INT_MAX in Hn; lia|lia|done|lia]|].
  intros [[a d] b] ->. simpl. lia.
Qed.

Lemma wp_group_loop f td d base :
  0 <= td < 10 ^ Z.of_nat f -> (f <= 3)%nat -> base = 2 ^ (3 - Z.of_nat f) -> 0 <= d <= 9 * (base - 1) ->
  wp (while (S f) (fun '(td, _, _) => Ok (td >? 0)) (fun '(td, d, base) =>
    let remainder := Z.rem td 10 in
    let td := Z.quot td 10 in
    let* t := int (base * remainder) in
    let* d := int (d + t) in
    let* base := int (base * 2) in
    Ok (td, d, base)) (td, d, base))
  (fun '(_, d', _) => d' = d + base * rebase f 10 2 td).
Proof.
  revert td d base. induction f as [|f IH]; intros td d base Hn Hf Ht Hd; rewrite while_step; cbn [bind];
    rewrite Z.gtb_ltb; destruct (Z.ltb_spec 0 td).
  - simpl in Hn. lia.
  - simpl. lia.
  - assert (2 ^ (3 - Z.of_nat f) = 2 * base) as Hp.
    { subst base. rewrite <- Z.pow_succ_r by lia. f_equal. lia. }
    assert (base <= 4) by (subst base; apply (Z.pow_le_mono_r 2 _ 2); lia).
    assert (1 <= base) by (subst base; apply (Z.pow_le_mono_r 2 0); lia).
    rewrite Z.rem_mod_nonneg, Z.quot_div_nonneg by lia. pose proof (Z.mod_pos_bound td 10 ltac:(lia)).
    wp_step. wp_step. apply wp_int; [code_nia|]. wp_step. apply wp_int; [code_nia|]. wp_step. wp_step. wp_step.
    eapply wp_mono; [apply IH; [by apply div_below|lia|lia|nia]|].
    intros [[a d'] b] ->. rewrite rebase_S by lia. lia.
  - simpl. rewrite (proj2 (Z.leb_le td 0)) by lia. lia.
Qed.

Lemma wp_group td : 0 <= td < 1000 -> wp (BinaryToOctal.group td) (fun d => d = rebase 3 10 2 td).
Proof.
  intros Htd. unfold BinaryToOctal.group. wp_step.
  eapply wp_mono; [apply (wp_group_loop 3 td 0 1); [lia|lia|done|lia]|].
  intros [[a d] b] ->. cbn [wp]. lia.
Qed.

Lemma wp_three_digits n : 0 <= n <= INT_MAX -> wp (BinaryToOctal.three_digits n) (fun d => d = n mod 1000).
Proof.
  intros Hn. unfold BinaryToOctal.three_digits, for_up. cbn [Z.sub Z.to_nat].
  change (Z.to_nat (3 - 0)) with 3%nat. cbn [for_n].
  assert (0 <= n / 10) by (apply Z.div_pos; lia). assert (0 <= n / 10 / 10) by (apply Z.div_pos; lia).
  rewrite !Z.quot_div_nonneg, !Z.rem_mod_nonneg by lia.
  pose proof (Z.mod_pos_bound n 10 ltac:(lia)). pose proof (Z.mod_pos_bound (n / 10) 10 ltac:(lia)).
  pose proof (Z.mod_pos_bound (n / 10 / 10) 10 ltac:(lia)).
  repeat first [rewrite Z.quot_div_nonneg by lia | rewrite Z.rem_mod_nonneg by lia | wp_step].
  clear. div_lia.
Qed.

(** Groups of three digits, each read in base 2, the groups in base 10. *)
Fixpoint groups (fuel : nat) (n : Z) : Z :=
  match fuel with
  | O => 0
  | S fuel => if n <=? 0 then 0 else rebase 3 10 2 (n mod 1000) + 10 * groups fuel (n / 1000)
  end.

Lemma rebase3_bound t : 0 <= rebase 3 10 2 t <= 63.
Proof. pose proof (rebase_bound 3 10 2 t ltac:(lia) ltac:(lia)) as [H1 H2]. simpl (2 ^ Z.of_nat 3) in H2. lia. Qed.

Lemma wp_octal_loop f n r ord :
  0 <= n < 1000 ^ Z.of_nat f -> n <= INT_MAX -> (f <= 4)%nat -> ord = 10 ^ (4 - Z.of_nat f) ->
  0 <= r <= 7 * (ord - 1) ->
  wp (while (S f) (fun '(binary_num, _, _) => Ok (binary_num >? 0))
    (fun '(binary_num, r, ord) =>
       let* td := if binary_num >? 111 then BinaryToOctal.three_digits binary_num else Ok binary_num in
       let binary_num := Z.quot binary_num 1000 in
       let* d := BinaryToOctal.group td in
       let* t := int (d * ord) in
       let* r := int (r + t) in
       let* ord := int (ord * 10) in
       Ok (binary_num, r, ord)) (n, r, ord))
  (fun '(_, r', _) => r' = r + ord * groups f n).
Proof.
  revert n r ord. induction f as [|f IH]; intros n r ord Hn Hmax Hf Ho Hr; rewrite while_step; cbn [bind];
    rewrite Z.gtb_ltb; destruct (Z.ltb_spec 0 n).
  - simpl in Hn. lia.
  - simpl. lia.
  - assert (10 ^ (4 - Z.of_nat f) = 10 * ord) as Hp.
    { subst ord. rewrite <- Z.pow_succ_r by lia. f_equal. lia. }
    assert (ord <= 1000) by (subst ord; apply (Z.pow_le_mono_r 10 _ 3); lia).
    assert (1 <= ord) by (subst ord; apply (Z.pow_le_mono_r 10 0); lia).
    wp_step. wp_step. apply (wp_mono _ (fun td => td = n mod 1000)).
    { rewrite Z.gtb_ltb. destruct (Z.ltb_spec 111 n); [apply wp_three_digits; lia|].
      simpl. by rewrite Z.mod_small by lia. }
    intros td ->. pose proof (Z.mod_pos_bound n 1000 ltac:(lia)). wp_step.
    eapply wp_mono; [by apply wp_group|]. intros d ->. pose proof (rebase3_bound (n mod 1000)).
    wp_step. apply wp_int; [code_nia|]. wp_step. apply wp_int; [code_nia|]. wp_step. wp_step. wp_step.
    rewrite Z.quot_div_nonneg by lia.
    eapply wp_mono; [apply IH; [by apply div_below|apply Z.div_le_upper_bound; lia|lia|lia|nia]|].
    intros [[a r'] b] ->. cbn [groups]. rewrite (proj2 (Z.leb_gt n 0)) by lia. lia.
  - simpl. rewrite (proj2 (Z.leb_le n 0)) by lia. lia.
Qed.

Lemma wp_binary_to_octal n :
  0 <= n <= INT_MAX -> wp (BinaryToOctal.convert n) (fun r => r = groups 4 n).
Proof.
  intros Hn. unfold BinaryToOctal.convert. wp_step.
  eapply wp_mono; [apply (wp_octal_loop 4 n 0 1); [unfold INT_MAX in Hn; lia|lia|lia|done|lia]|].
  intros [[a r] b] ->. cbn [wp]. lia.
Qed.

(** Three binary digits make an octal one. *)
Lemma groups_octal f n :
  0 <= n < 8 ^ Z.of_nat f -> groups f (rebase (3 * f) 2 10 n) = rebase f 8 10 n.
Proof.
  revert n. induction f as [|f IH]; intros n Hn; [done|].
  replace (3 * S f)%nat with (S (S (S (3 * f)))) by lia.
  assert (0 <= n / 2) by (apply Z.div_pos; lia). assert (0 <= n / 2 / 2) by (apply Z.div_pos; lia).
  rewrite (rebase_S _ 2 10 n), (rebase_S _ 2 10 (n / 2)), (rebase_S _ 2 10 (n / 2 / 2)) by lia.
  rewrite !Z.div_div by lia. change (2 * 2) with 4. change (2 * (2 * 2)) with 8. change (4 * 2) with 8.
  pose proof (div_below 8 f n ltac:(lia) Hn) as Hn8.
  rewrite (rebase_S f 8 10 n) by lia. rewrite <- (IH (n / 8) Hn8).
  pose proof (rebase_bound (3 * f) 2 10 (n / 8) ltac:(lia) ltac:(lia)) as [Hm _].
  set (m := rebase (3 * f) 2 10 (n / 8)) in *.
  pose proof (Z.mod_pos_bound n 2 ltac:(lia)) as Hb0. pose proof (Z.mod_pos_bound (n / 2) 2 ltac:(lia)) as Hb1.
  pose proof (Z.mod_pos_bound (n / 4) 2 ltac:(lia)) as Hb2.
  assert (n mod 8 = n mod 2 + 2 * ((n / 2) mod 2) + 4 * ((n / 4) mod 2)) as ->.
  { clear. div_lia. }
  revert Hb0 Hb1 Hb2. generalize (n mod 2), ((n / 2) mod 2), ((n / 4) mod 2). intros b0 b1 b2 Hb0 Hb1 Hb2.
  replace (b0 + 10 * (b1 + 10 * (b2 + 10 * m))) with ((b0 + 10 * b1 + 100 * b2) + m * 1000) by lia.
  cbn [groups]. destruct (Z.leb_spec (b0 + 10 * b1 + 100 * b2 + m * 1000) 0).
  { assert (m = 0) as -> by lia. assert (b0 = 0 /\ b1 = 0 /\ b2 = 0) as (-> & -> & ->) by lia.
    destruct f; simpl; lia. }
  rewrite Z.mod_add, Z.div_add, Z.mod_small, (Z.div_small (_ + _)) by lia.
  rewrite Z.add_0_l. f_equal.
  assert (b0 = 0 \/ b0 = 1) as [-> | ->] by lia; assert (b1 = 0 \/ b1 = 1) as [-> | ->] by lia;
    assert (b2 = 0 \/ b2 = 1) as [-> | ->] by lia; reflexivity.
Qed.

(** ** Splitting into digits and printing them *)

Lemma digits_S f k n : 0 < n -> digits (S f) k n = digits f k (n / k) ++ [n mod k].
Proof. intros Hn. simpl. by rewrite (proj2 (Z.leb_gt n 0)). Qed.

Lemma digits_0 f k n : n <= 0 -> digits f k n = [].
Proof. intros Hn. destruct f; simpl; [done|]. by rewrite (proj2 (Z.leb_le n 0)). Qed.

Lemma length_digits f k n : (length (digits f k n) <= f)%nat.
Proof.
  revert n. induction f as [|f IH]; intros n; simpl; [done|]. destruct (n <=? 0); simpl; [lia|].
  rewrite length_app. simpl. specialize (IH (n / k)). lia.
Qed.

Definition value (B : Z) (ds : list Z) : Z := fold_left (fun v d => v * B + d) ds 0.

(** The digits read in another base. *)
Lemma value_digits f k B n : 0 < k -> 0 <= n -> value B (digits f k n) = rebase f k B n.
Proof.
  intros Hk. unfold value. revert n. induction f as [|f IH]; intros n Hn; simpl; [done|].
  destruct (Z.leb_spec n 0); [done|]. rewrite fold_left_app. simpl.
  rewrite IH by (apply Z.div_pos; lia). lia.
Qed.

Lemma rebase_same f k n : 0 < k -> 0 <= n < k ^ Z.of_nat f -> rebase f k k n = n.
Proof.
  intros Hk. revert n. induction f as [|f IH]; intros n Hn; [simpl in *; lia|].
  rewrite rebase_S, IH by (lia || by apply div_below). pose proof (Z.div_mod n k ltac:(lia)). lia.
Qed.

(** The digits of an array printed from its last cell down. *)
Lemma print_down show (pre : list (option Z)) ds junk w :
  for_down (zlen pre + zlen ds - 1) (zlen pre) (fun j w =>
    let* d := rdu (pre ++ map Some ds ++ junk) j in Ok (printf (show d) w)) w =
  Ok (printf (reverse ds ≫= show) w).
Proof.
  unfold for_down. replace (Z.to_nat (zlen pre + zlen ds - 1 - zlen pre + 1)) with (length ds)
    by (unfold zlen; lia).
  revert junk w. induction ds as [|d ds IH] using rev_ind; intros junk w.
  { simpl. unfold printf. rewrite app_nil_r. by destruct w. }
  rewrite length_app, zlen_app. simpl. rewrite Nat.add_comm. cbn [Nat.add for_down_n].
  change (zlen [d]) with 1.
  rewrite map_app, <- app_assoc. simpl. rewrite (app_assoc pre). rewrite rdu_middle
    by (rewrite zlen_app, zlen_map; lia). cbn [bind].
  replace (zlen pre + (zlen ds + 1) - 1 - 1) with (zlen pre + zlen ds - 1) by lia.
  rewrite <- (app_assoc pre). rewrite IH. rewrite reverse_app. simpl. f_equal. unfold printf. simpl.
  by rewrite <- app_assoc.
Qed.

(** The loop of decimal_to_binary puts the digits in, lowest first. *)
Lemma wp_split_loop f n ds m :
  0 <= n < 2 ^ Z.of_nat f -> (f <= m)%nat -> zlen ds + Z.of_nat f < INT_MAX ->
  wp (while (S f) (fun '(n, _, _) => Ok (n >? 0)) (fun '(n, bits, i) =>
    let re := Z.rem n 2 in
    let n := Z.quot n 2 in
    let* bits := wr bits i (Some re) in
    let* i := int (i + 1) in
    Ok (n, bits, i)) (n, map Some ds ++ replicate m None, zlen ds))
  (fun '(_, bits, i) =>
    i = zlen (ds ++ reverse (digits f 2 n)) /\
    exists junk, bits = map Some (ds ++ reverse (digits f 2 n)) ++ junk).
Proof.
  revert n ds m. induction f as [|f IH]; intros n ds m Hn Hm Hi; rewrite while_step; cbn [bind];
    rewrite Z.gtb_ltb; destruct (Z.ltb_spec 0 n).
  - simpl in Hn. lia.
  - simpl. rewrite app_nil_r. eauto.
  - pose proof (zlen_nonneg ds). rewrite Z.rem_mod_nonneg, Z.quot_div_nonneg by lia.
    destruct m as [|m]; [lia|]. cbn [replicate]. wp_step. rewrite wr_middle by (by rewrite zlen_map). cbn [bind].
    wp_step. wp_step. wp_step. rewrite digits_S, reverse_app by done. cbn [reverse rev_append].
    replace (map Some ds ++ Some (n mod 2) :: replicate m None)
      with (map Some (ds ++ [n mod 2]) ++ replicate m None) by (by rewrite map_app, <- app_assoc).
    replace (zlen ds + 1) with (zlen (ds ++ [n mod 2])) by (rewrite zlen_app; done).
    eapply wp_mono; [apply IH; [by apply div_below|lia|rewrite zlen_app; change (zlen [n mod 2]) with 1; lia]|].
    intros [[a bits] i]. rewrite <- app_assoc. done.
  - rewrite digits_0 by lia. simpl. rewrite app_nil_r. eauto.
Qed.

Definition binary_banner : list piece :=
  [PStr "\t\tConverter decimal --> binary\n\n"; PStr "\nenter a positive integer number: "].

Lemma wp_decimal_to_binary n rest out :
  0 <= n <= INT_MAX ->
  wp (DecimalToBinary.main (Console (n :: rest) out)) (fun '(code, w) =>
    code = 0 /\ input w = rest /\ output w = out ++ binary_banner ++ PStr "\n the number in binary is: " ::
      (if n =? 0 then [PStr "0"] else map PInt (digits 31 2 n))).
Proof.
  intros Hn. unfold DecimalToBinary.main. cbn [printf scanf input bind].
  rewrite (proj2 (Z.ltb_ge n 0)) by lia. wp_step. unfold DecimalToBinary.split_bits. wp_step.
  eapply wp_mono; [apply (wp_split_loop 31 n [] 100); [unfold INT_MAX in Hn; lia|lia|done]|].
  intros [[a bits] i] [-> (junk & ->)]. cbn [wp app].
  pose proof (print_down (fun d => [PInt d]) [] (reverse (digits 31 2 n)) junk) as Hp. cbn [app] in Hp.
  change (zlen (@nil (option Z))) with 0 in Hp. rewrite Z.add_0_l in Hp.
  wp_step. rewrite Hp. cbn [wp]. rewrite reverse_involutive. rewrite zlen_reverse.
  assert ((digits 31 2 n ≫= fun d => [PInt d]) = map PInt (digits 31 2 n)) as Hb.
  { clear. induction (digits 31 2 n) as [|d l IH]; simpl; [done|]. by rewrite <- IH. }
  rewrite Hb. apply wp_Ok. destruct (Z.eqb_spec n 0) as [->|Hne].
  - simpl. split_and!; [done..|]. by rewrite <- !app_assoc.
  - assert ((zlen (digits 31 2 n) =? 0) = false) as ->.
    { apply Z.eqb_neq. rewrite digits_S, zlen_app by lia. change (zlen [n mod 2]) with 1.
      pose proof (zlen_nonneg (digits 30 2 (n / 2))). lia. }
    split_and!; [done..|]. unfold printf. cbn [output]. by rewrite <- !app_assoc.
Qed.

(** The conversion programs agree.  decimal_to_binary prints, for every
    int that is not negative, its binary digits, highest first.  For a number
    below 1024, whose binary digits form an int, typing those digits into
    binary_to_decimal gives the number back, and typing them into binary2octal
    gives its octal digits: in both cases the digits are read as one decimal
    number, and nothing overflows. *)
Theorem conversions_agree n rest out :
  0 <= n <= INT_MAX ->
  wp (DecimalToBinary.main (Console (n :: rest) out)) (fun '(code, w) =>
    code = 0 /\ input w = rest /\
    output w = out ++ binary_banner ++ PStr "\n the number in binary is: " ::
      (if n =? 0 then [PStr "0"] else map PInt (digits 31 2 n))) /\
  value 2 (digits 31 2 n) = n /\
  (n < 1024 ->
   wp (BinaryToDecimal.convert (value 10 (digits 31 2 n))) (fun d => d = n) /\
   wp (BinaryToOctal.convert (value 10 (digits 31 2 n))) (fun o =>
     o = value 10 (digits 11 8 n) /\ value 8 (digits 11 8 n) = n)).
Proof.
  intros Hn. unfold INT_MAX in Hn.
  assert (0 <= n < 2 ^ Z.of_nat 31) by lia. assert (0 <= n < 8 ^ Z.of_nat 11) by lia.
  split_and!; [by apply wp_decimal_to_binary|rewrite value_digits by lia; by apply rebase_same|].
  intros Hlt. assert (0 <= n < 2 ^ Z.of_nat 10) as H10 by lia.
  rewrite value_digits, (rebase_fuel 10 31) by lia.
  pose proof (rebase_bound 10 2 10 n ltac:(lia) ltac:(lia)) as [Hb1 Hb2].
  change (10 ^ Z.of_nat 10) with 10000000000 in Hb2. split.
  - eapply wp_mono; [apply wp_binary_to_decimal; unfold INT_MAX; lia|]. intros d ->.
    apply rebase_inverse; lia.
  - eapply wp_mono; [apply wp_binary_to_octal; unfold INT_MAX; lia|]. intros o ->.
    rewrite !value_digits by lia. rewrite (rebase_same 11 8) by lia. split; [|done].
    rewrite <- (rebase_fuel 10 12 2 10 n) by lia. change 12%nat with (3 * 4)%nat.
    rewrite groups_octal by lia. symmetry. apply rebase_fuel; lia.
Qed.

Lemma conversions_agree_witness :
  digits 31 2 13 = [1; 1; 0; 1] /\
  wp (BinaryToDecimal.convert 1101) (fun d => d = 13) /\
  wp (BinaryToOctal.convert 1101) (fun o => o = 15 /\ value 8 (digits 11 8 13) = 13).
Proof.
  split; [vm_compute; reflexivity|].
  destruct (conversions_agree 13 [] []) as (_ & _ & H); [unfold INT_MAX; lia|]. apply H. lia.
Defined.

(** decimal_to_hexa prints hexadecimalnum[j] first, the cell behind the last
    digit, which was never written. *)
Lemma hexa_reads_unwritten :
  DecimalToHexa.decimal2Hexadecimal 255 (Console [] []) = Fail Uninit /\
  DecimalToHexa.decimal2Hexadecimal 0 (Console [] []) = Fail Uninit.
Proof. split; vm_compute; reflexivity. Qed.

(** decimal_to_octal prints no digit for 0. *)
Lemma octal_of_zero :
  DecimalToOctal.decimal2Octal 0 (Console [] []) = Ok (Console [] [PStr "\n"]).
Proof. vm_compute. reflexivity. Qed.

(** toDecimal accepts the digit 2 in base 2: the test is > instead of >=. *)
Lemma toDecimal_accepts_base :
  (let* w := ToDecimal.main [50; 49] (Console [2] []) in Ok (output w)) =
    Ok [PStr "Enter the base: "; PStr "Enter the number: "; PInt 5; PStr "\n"].
Proof. vm_compute. reflexivity. Qed.
