(* ===== verification/Numbers.v ===== *)
(** * Number programs

    algorithms/c/project_euler (problem 1, problem 2 and the second solution
    of problem 3) and misc/TowerOfHanoi.c.  The recursion of hanoi takes fuel;
    for a negative number of disks it never ends, which here is [NoFuel]. *)

From S2P Require Import Prelude Arrays.
From Stdlib Require Import Znumtheory.
Open Scope Z_scope.

(** * Project Euler, problem 1 *)

Module MultiplesOf3And5.

Definition sol1 (w : console) : res console :=
  let* (n, w) := scanf w in
  let* sum := for_up 0 n (fun a sum =>
    if (Z.rem a 3 =? 0) || (Z.rem a 5 =? 0) then int (sum + a) else Ok sum) 0 in
  Ok (printf [PInt sum; PStr "\n"] w).

(** [((terms)*(2k + (terms - 1) * k)) / 2] *)
Definition progression (terms k : Z) : res Z :=
  let* t := int (terms - 1) in
  let* t := int (t * k) in
  let* t := int (2 * k + t) in
  let* t := int (terms * t) in
  Ok (Z.quot t 2).

Definition sol2 (w : console) : res console :=
  let* (n, w) := scanf w in
  let* m := int (n - 1) in
  let* p := progression (Z.quot m 3) 3 in
  let* sum := int (0 + p) in
  let* p := progression (Z.quot m 5) 5 in
  let* sum := int (sum + p) in
  let* p := progression (Z.quot m 15) 15 in
  let* sum := int (sum - p) in
  Ok (printf [PInt sum; PStr "\n"] w).

(** [num += d; if (num >= n) break; sum += num;] *)
Definition stage (n d : Z) (st : Z * Z) : res ((Z * Z) + Z) :=
  let '(num, sum) := st in
  let* num := int (num + d) in
  if num >=? n then Ok (inr sum) else
  let* sum := int (sum + num) in
  Ok (inl (num, sum)).

Fixpoint stages (n : Z) (ds : list Z) (st : Z * Z) : res ((Z * Z) + Z) :=
  match ds with
  | [] => Ok (inl st)
  | d :: ds =>
      let* x := stage n d st in
      match x with inl st => stages n ds st | inr r => Ok (inr r) end
  end.

(** The loop adds 15 to num each turn. *)
Definition sol3 (w : console) : res console :=
  let* (n, w) := scanf w in
  let* sum := loop (S (Z.to_nat n)) (stages n [3; 2; 1; 3; 1; 2; 3]) (0, 0) in
  Ok (printf [PInt sum; PStr "\n"] w).

(** ** The sum of the multiples *)

Definition multiple (a : Z) : bool := (a mod 3 =? 0) || (a mod 5 =? 0).

(** Of the multiples below [n]. *)
Fixpoint sum35 (n : nat) : Z :=
  match n with
  | O => 0
  | S k => sum35 k + (if multiple (Z.of_nat k) then Z.of_nat k else 0)
  end.

Lemma sum35_bound n : 0 <= 2 * sum35 n <= Z.of_nat n * (Z.of_nat n - 1).
Proof.
  induction n as [|n IH]; [simpl; lia|]. cbn [sum35]. rewrite Nat2Z.inj_succ. destruct (multiple _); nia.
Qed.

Lemma wp_sol1 n rest out :
  0 <= n <= 65536 ->
  wp (sol1 (Console (n :: rest) out)) (fun w =>
    w = Console rest (out ++ [PInt (sum35 (Z.to_nat n)); PStr "\n"])).
Proof.
  intros Hn. unfold sol1. cbn [scanf input bind output]. wp_step.
  apply (wp_for_up (fun a sum => sum = sum35 (Z.to_nat a))).
  - done.
  - intros a sum Ha ->. rewrite !Z.rem_mod_nonneg by lia.
    replace (Z.to_nat (a + 1)) with (S (Z.to_nat a)) by lia. cbn [sum35]. rewrite Z2Nat.id by lia.
    pose proof (sum35_bound (Z.to_nat a)). rewrite Z2Nat.id in * by lia. fold (multiple a).
    destruct (multiple a); [|simpl; lia]. apply wp_int; [|done]. code_nia.
  - intros sum ->. simpl. by rewrite Z.max_r by lia.
Qed.

(** The closed form. *)
Lemma sum35_closed n :
  2 * sum35 (S n) =
    3 * (Z.of_nat n / 3 * (Z.of_nat n / 3 + 1)) + 5 * (Z.of_nat n / 5 * (Z.of_nat n / 5 + 1)) -
    15 * (Z.of_nat n / 15 * (Z.of_nat n / 15 + 1)).
Proof.
  induction n as [|n IH]; [done|]. remember (S n) as n1 eqn:En1. cbn [sum35].
  rewrite Z.mul_add_distr_l, IH. subst n1.
  rewrite Nat2Z.inj_succ, <- Z.add_1_r. set (m := Z.of_nat n). assert (0 <= m) as Hm by (subst m; lia).
  clearbody m. clear IH n.
  unfold multiple.
  destruct (Z.eqb_spec ((m + 1) mod 3) 0) as [E3|E3], (Z.eqb_spec ((m + 1) mod 5) 0) as [E5|E5]; simpl.
  - replace ((m + 1) / 3) with (m / 3 + 1) by div_lia. replace ((m + 1) / 5) with (m / 5 + 1) by div_lia.
    replace ((m + 1) / 15) with (m / 15 + 1) by div_lia.
    assert (m + 1 = 3 * (m / 3 + 1)) by div_lia. assert (m + 1 = 5 * (m / 5 + 1)) by div_lia.
    assert (m + 1 = 15 * (m / 15 + 1)) by div_lia. lia.
  - replace ((m + 1) / 3) with (m / 3 + 1) by div_lia. replace ((m + 1) / 5) with (m / 5) by div_lia.
    replace ((m + 1) / 15) with (m / 15) by div_lia. assert (m + 1 = 3 * (m / 3 + 1)) by div_lia. lia.
  - replace ((m + 1) / 3) with (m / 3) by div_lia. replace ((m + 1) / 5) with (m / 5 + 1) by div_lia.
    replace ((m + 1) / 15) with (m / 15) by div_lia. assert (m + 1 = 5 * (m / 5 + 1)) by div_lia. lia.
  - replace ((m + 1) / 3) with (m / 3) by div_lia. replace ((m + 1) / 5) with (m / 5) by div_lia.
    replace ((m + 1) / 15) with (m / 15) by div_lia. lia.
Qed.

Lemma wp_progression t k :
  0 <= t -> 3 <= k <= 15 -> t * k <= 65535 ->
  wp (progression t k) (fun r => 2 * r = k * (t * (t + 1)) /\ 0 <= r <= 715846005).
Proof.
  intros Ht Hk Htk. unfold progression.
  assert (t * (2 * k + (t - 1) * k) = k * (t * (t + 1))) as E by lia.
  assert (0 <= t * (t + 1)) by (apply Z.mul_nonneg_nonneg; lia).
  assert (exists h, t * (t + 1) = 2 * h) as [h Hh].
  { exists (t * (t + 1) / 2). pose proof (Z.div_mod (t * (t + 1)) 2 ltac:(lia)).
    assert (t * (t + 1) mod 2 = 0); [|lia]. rewrite Z.mul_mod, Z.add_mod by lia.
    pose proof (Z.mod_pos_bound t 2 ltac:(lia)). assert (t mod 2 = 0 \/ t mod 2 = 1) as [-> | ->] by lia; done. }
  assert (t <= 21845) by nia. assert (t * k * (t + 1) <= 65535 * 21846) by (apply Z.mul_le_mono_nonneg; nia).
  assert (0 <= k * (t * (t + 1)) <= 1431692010) by (split; [apply Z.mul_nonneg_nonneg; lia|lia]).
  assert (0 <= t * k) by (apply Z.mul_nonneg_nonneg; lia).
  wp_step. wp_step. wp_step. apply wp_int; [code_lia|]. wp_step. apply wp_int; [code_lia|].
  wp_step. rewrite E. apply wp_int; [code_lia|]. simpl. rewrite Hh, Z.quot_div_nonneg by lia.
  replace (k * (2 * h)) with (k * h * 2) by lia. rewrite Z.div_mul by lia. rewrite Hh in *. lia.
Qed.

Lemma wp_sol2 n rest out :
  0 <= n <= 65536 ->
  wp (sol2 (Console (n :: rest) out)) (fun w =>
    w = Console rest (out ++ [PInt (sum35 (Z.to_nat n)); PStr "\n"])).
Proof.
  intros Hn. unfold sol2. cbn [scanf input bind output]. wp_step. wp_step.
  destruct (decide (n = 0)) as [->|Hn0]; [vm_compute; reflexivity|].
  rewrite !Z.quot_div_nonneg by lia.
  assert (forall k, 0 < k -> 0 <= (n - 1) / k /\ (n - 1) / k * k <= n - 1) as Hd.
  { intros k Hk. split; [apply Z.div_pos; lia|]. rewrite Z.mul_comm. apply Z.mul_div_le. done. }
  pose proof (Hd 3 ltac:(lia)). pose proof (Hd 5 ltac:(lia)). pose proof (Hd 15 ltac:(lia)).
  wp_step. eapply wp_mono; [apply wp_progression; lia|]. intros p3 [H3 B3].
  wp_step. wp_step.
  wp_step. eapply wp_mono; [apply wp_progression; lia|]. intros p5 [H5 B5].
  wp_step. wp_step.
  wp_step. eapply wp_mono; [apply wp_progression; lia|]. intros p15 [H15 B15].
  wp_step. wp_step. apply wp_Ok.
  pose proof (sum35_closed (Z.to_nat (n - 1))) as Hc.
  replace (S (Z.to_nat (n - 1))) with (Z.to_nat n) in Hc by lia. rewrite Z2Nat.id in Hc by lia.
  replace (0 + p3 + p5 - p15) with (sum35 (Z.to_nat n)) by lia. done.
Qed.

(** From one multiple to the next: nothing lies between, so the running sum is
    that of the multiples up to num. *)
Lemma sum35_gap num d :
  0 <= num -> 0 < d -> (forall x, num < x < num + d -> multiple x = false) ->
  forall n, num < n <= num + d -> sum35 (Z.to_nat n) = sum35 (Z.to_nat (num + 1)).
Proof.
  intros Hnum Hd Hgap n Hn. replace n with (num + 1 + Z.of_nat (Z.to_nat (n - num - 1))) by lia.
  assert (Z.of_nat (Z.to_nat (n - num - 1)) < d) as Hk by lia. revert Hk.
  induction (Z.to_nat (n - num - 1)) as [|k IH]; intros Hk; [by rewrite Z.add_0_r|].
  replace (Z.to_nat (num + 1 + Z.of_nat (S k))) with (S (Z.to_nat (num + 1 + Z.of_nat k))) by lia.
  cbn [sum35]. rewrite Z2Nat.id, Hgap by lia. rewrite IH by lia. lia.
Qed.

Lemma wp_stage n d num :
  0 <= num < n -> n <= 65536 -> 0 < d <= 3 -> multiple (num + d) = true ->
  (forall x, num < x < num + d -> multiple x = false) ->
  wp (stage n d (num, sum35 (Z.to_nat (num + 1)))) (fun x =>
    match x with
    | inl st => num + d < n /\ st = (num + d, sum35 (Z.to_nat (num + d + 1)))
    | inr r => r = sum35 (Z.to_nat n)
    end).
Proof.
  intros Hnum Hn Hd Hm Hgap. unfold stage. wp_step. wp_step.
  pose proof (sum35_gap num d ltac:(lia) ltac:(lia) Hgap) as Hg.
  rewrite Z.geb_leb. destruct (Z.leb_spec n (num + d)).
  - simpl. symmetry. apply Hg. lia.
  - rewrite <- (Hg (num + d)) by lia.
    assert (sum35 (Z.to_nat (num + d + 1)) = sum35 (Z.to_nat (num + d)) + (num + d)) as Hs.
    { replace (Z.to_nat (num + d + 1)) with (S (Z.to_nat (num + d))) by lia. cbn [sum35].
      by rewrite Z2Nat.id, Hm by lia. }
    pose proof (sum35_bound (Z.to_nat (num + d + 1))) as Hb. rewrite Z2Nat.id in Hb by lia.
    pose proof (sum35_bound (Z.to_nat (num + d))) as Hb2. rewrite Z2Nat.id in Hb2 by lia.
    assert ((num + d + 1) * (num + d + 1 - 1) <= 65536 * 65535) by (apply Z.mul_le_mono_nonneg; lia).
    wp_step. apply wp_int; [code_lia|simpl; split; [done|by rewrite Hs]].
Qed.

(** One increment [d] from the residue [r]. *)
Ltac next_stage Hst r d :=
  wp_step; eapply wp_mono; [apply (Hst r d); [lia|lia|reflexivity| |lia]|];
  [intros y Hy; assert (y = r + 1 \/ y = r + 2) as [-> | ->] by lia; first [lia | reflexivity]|];
  intros [st|r']; [intros [? ->]; cbn [Z.add Pos.add Pos.succ]|done].

(** The increments 3, 2, 1, 3, 1, 2, 3 step through the multiples of one
    period of 15. *)
Lemma wp_stages n q :
  0 <= q -> 15 * q < n -> n <= 65536 ->
  wp (stages n [3; 2; 1; 3; 1; 2; 3] (15 * q, sum35 (Z.to_nat (15 * q + 1)))) (fun x =>
    match x with
    | inl st => 15 * (q + 1) < n /\ st = (15 * (q + 1), sum35 (Z.to_nat (15 * (q + 1) + 1)))
    | inr r => r = sum35 (Z.to_nat n)
    end).
Proof.
  intros Hq Hqn Hn. cbn [stages].
  assert (forall r, multiple (15 * q + r) = multiple r) as Hper.
  { intros r. unfold multiple. f_equal; [replace (15 * q + r) with (r + 5 * q * 3) by lia|
      replace (15 * q + r) with (r + 3 * q * 5) by lia]; by rewrite Z.mod_add. }
  assert (forall r d, 0 <= r -> 0 < d <= 3 -> multiple (r + d) = true ->
    (forall y, r < y < r + d -> multiple y = false) -> 15 * q + r < n ->
    wp (stage n d (15 * q + r, sum35 (Z.to_nat (15 * q + r + 1)))) (fun x =>
      match x with
      | inl st => 15 * q + (r + d) < n /\ st = (15 * q + (r + d), sum35 (Z.to_nat (15 * q + (r + d) + 1)))
      | inr s => s = sum35 (Z.to_nat n)
      end)) as Hst.
  { intros r d Hr Hd Hm Hgap Hlt. rewrite (Z.add_assoc (15 * q) r d). apply wp_stage; [lia|lia|lia| |].
    - rewrite <- Z.add_assoc. by rewrite Hper.
    - intros x Hx. replace x with (15 * q + (x - 15 * q)) by lia. rewrite Hper. apply Hgap. lia. }
  replace (15 * q, sum35 (Z.to_nat (15 * q + 1))) with (15 * q + 0, sum35 (Z.to_nat (15 * q + 0 + 1)))
    by (by rewrite Z.add_0_r).
  next_stage Hst 0 3. next_stage Hst 3 2. next_stage Hst 5 1. next_stage Hst 6 3.
  next_stage Hst 9 1. next_stage Hst 10 2. next_stage Hst 12 3.
  simpl. replace (15 * (q + 1)) with (15 * q + 15) by lia. done.
Qed.

Lemma wp_sol3 n rest out :
  0 <= n <= 65536 ->
  wp (sol3 (Console (n :: rest) out)) (fun w =>
    w = Console rest (out ++ [PInt (sum35 (Z.to_nat n)); PStr "\n"])).
Proof.
  intros Hn. unfold sol3. cbn [scanf input bind output]. wp_step.
  destruct (decide (n = 0)) as [->|Hn0]; [vm_compute; reflexivity|].
  apply (wp_loop (fun st => exists q, 0 <= q /\ 15 * q < n /\ st = (15 * q, sum35 (Z.to_nat (15 * q + 1))))
    (fun '(num, _) => n - num - 1)).
  - exists 0. split_and!; [lia|lia|done].
  - lia.
  - intros st (q & Hq & Hlt & ->). lia.
  - intros st (q & Hq & Hlt & ->). eapply wp_mono; [by apply wp_stages; [|..|lia]|].
    intros [st|r]; [|intros ->; done]. intros [Hlt' ->]. split; [|lia]. exists (q + 1). split_and!; [lia|lia|done].
Qed.

(** The three solutions of problem 1 agree: the loop over all numbers, the
    closed formula with three arithmetic progressions and the stepping
    through the period of 15 all print the sum of the multiples of 3 or 5
    below n, for 0 <= n <= 65536, where no intermediate result overflows. *)
Theorem euler1_solutions_agree n rest out :
  0 <= n <= 65536 ->
  let answer := Console rest (out ++ [PInt (sum35 (Z.to_nat n)); PStr "\n"]) in
  sol1 (Console (n :: rest) out) = Ok answer /\
  sol2 (Console (n :: rest) out) = Ok answer /\
  sol3 (Console (n :: rest) out) = Ok answer.
Proof.
  intros Hn answer. split_and!.
  - pose proof (wp_sol1 n rest out Hn) as H. by apply wp_exists in H as (w & -> & ->).
  - pose proof (wp_sol2 n rest out Hn) as H. by apply wp_exists in H as (w & -> & ->).
  - pose proof (wp_sol3 n rest out Hn) as H. by apply wp_exists in H as (w & -> & ->).
Qed.

(** Below 1000 the sum is 233168. *)
Lemma euler1_solutions_agree_witness :
  sol1 (Console [1000] []) = Ok (Console [] [PInt 233168; PStr "\n"]) /\
  sol2 (Console [1000] []) = Ok (Console [] [PInt 233168; PStr "\n"]) /\
  sol3 (Console [1000] []) = Ok (Console [] [PInt 233168; PStr "\n"]).
Proof.
  assert (sum35 (Z.to_nat 1000) = 233168) as E by (vm_compute; reflexivity). rewrite <- E.
  apply (euler1_solutions_agree 1000 [] []). lia.
Defined.

(** For a negative n the formula of sol2 does not give 0. *)
Lemma euler1_negative :
  sol1 (Console [-5] []) = Ok (Console [] [PInt 0; PStr "\n"]) /\
  sol2 (Console [-5] []) = Ok (Console [] [PInt 3; PStr "\n"]).
Proof. split; vm_compute; reflexivity. Qed.

End MultiplesOf3And5.

(** * Project Euler, problem 2 *)

Module EvenFibonacci.

(** 46 Fibonacci numbers fit in an int. *)
Definition main (w : console) : res console :=
  let* (n, w) := scanf w in
  let* (sum, _, _) := while 47 (fun '(_, _, j) => Ok (j <=? n)) (fun '(sum, i, j) =>
    let* sum := if Z.land j 1 =? 0 then int (sum + j) else Ok sum in
    let temp := i in
    let i := j in
    let* j := int (temp + i) in
    Ok (sum, i, j)) (0, 1, 2) in
  Ok (printf [PInt sum; PStr "\n"] w).

(** Up to four million, as in the problem. *)
Lemma even_fibonacci_answer :
  main (Console [4000000] []) = Ok (Console [] [PInt 4613732; PStr "\n"]).
Proof. vm_compute. reflexivity. Qed.

End EvenFibonacci.

(** * Project Euler, problem 3, second solution *)

Module LargestPrimeFactor.

(** [while (n%i == 0) { prime = i; n /= i; }]: an int has at most 31
    factors. *)
Definition divide_out (i : Z) (st : Z * Z) : res (Z * Z) :=
  while 32 (fun '(n, _) => Ok (Z.rem n i =? 0)) (fun '(n, _) => Ok (Z.quot n i, i)) st.

(** The square root of an int is at most 46340. *)
Definition factor (n : Z) : res Z :=
  let* (n, prime, _) := while (Z.to_nat 46342)
    (fun '(n, _, i) => let* sq := int (i * i) in Ok (sq <=? n))
    (fun '(n, prime, i) =>
       let* (n, prime) := divide_out i (n, prime) in
       let* i := int (i + 1) in
       Ok (n, prime, i)) (n, 1, 2) in
  Ok (if n >? 1 then n else prime).

Definition main (w : console) : res console :=
  let* (n, w) := scanf w in
  let* prime := factor n in
  Ok (printf [PInt prime; PStr "\n"] w).

(** ** Prime factors *)

Lemma prime_factor_exists n : 2 <= n -> exists p, Z.prime p /\ (p | n).
Proof.
  intros Hn. replace n with (Z.of_nat (Z.to_nat n)) in * by lia. revert Hn. generalize (Z.to_nat n). clear n.
  intros n. induction (lt_wf n) as [n _ IH]. intros Hn.
  destruct (prime_dec (Z.of_nat n)) as [Hp|Hp]; [exists (Z.of_nat n); split; [by apply prime_alt|apply Z.divide_refl]|].
  apply not_prime_divide in Hp as (m & Hm & Hd); [|lia].
  destruct (IH (Z.to_nat m)) as (p & Hp & Hpm); [lia|lia|]. rewrite Z2Nat.id in Hpm by lia.
  exists p. split; [done|]. by apply (Z.divide_trans _ m).
Qed.

(** Every prime factor of [n] is at least [i]. *)
Definition rough (i n : Z) : Prop := forall p, Z.prime p -> (p | n) -> i <= p.

(** A divisor at the bound is prime. *)
Lemma rough_divisor_prime i n : 2 <= i -> rough i n -> (i | n) -> Z.prime i.
Proof.
  intros Hi Hr Hd. destruct (prime_factor_exists i Hi) as (p & Hp & Hpi).
  assert (i <= p) by (apply Hr; [done|by apply (Z.divide_trans _ i)]).
  assert (p <= i) by (apply Z.divide_pos_le; [lia|done]). by replace i with p by lia.
Qed.

(** What is left when the square exceeds it is prime. *)
Lemma rough_prime i n : 2 <= i -> rough i n -> n < i * i -> 1 < n -> Z.prime n.
Proof.
  intros Hi Hr Hlt Hn. destruct (prime_factor_exists n ltac:(lia)) as (p & Hp & [m Hm]).
  assert (i <= p) as Hip by (apply Hr; [done|by exists m]).
  destruct (decide (m <= 1)) as [Hm1|Hm1].
  - assert (m = 1) as -> by nia. by replace n with p by lia.
  - destruct (prime_factor_exists m ltac:(lia)) as (q & Hq & Hqm).
    assert (i <= q) by (apply Hr; [done|]; rewrite Hm; by apply Z.divide_mul_l).
    assert (q <= m) by (apply Z.divide_pos_le; [lia|done]). nia.
Qed.

Section largest.
Context (n0 : Z) (Hn0 : 2 <= n0).

(** [p] is the largest prime factor found so far: it covers the factors of
    [n0] that are not left in [n]. *)
Definition covers (n p : Z) : Prop :=
  1 <= n /\ (n | n0) /\ (p = 1 \/ Z.prime p /\ (p | n0)) /\
  forall q, Z.prime q -> (q | n0) -> (q | n) \/ q <= p.

Lemma wp_divide_out i n p :
  2 <= i -> n < 2 ^ 31 -> covers n p -> rough i n -> p < i ->
  wp (divide_out i (n, p)) (fun '(n', p') =>
    n' <= n /\ covers n' p' /\ rough (i + 1) n' /\ p' <= i).
Proof.
  intros Hi Hn. unfold divide_out. assert (n < 2 ^ Z.of_nat 31) as Hb by lia. clear Hn. revert Hb.
  enough (forall f n p, n < 2 ^ Z.of_nat f -> covers n p -> rough i n -> p <= i ->
    wp (while (S f) (fun '(n, _) => Ok (Z.rem n i =? 0)) (fun '(n, _) => Ok (Z.quot n i, i)) (n, p))
      (fun '(n', p') => n' <= n /\ covers n' p' /\ rough (i + 1) n' /\ p' <= i)) as H.
  { intros Hb Hc Hr Hp. apply H; [done..|lia]. }
  clear n p. induction f as [|f IH]; intros n p Hb (Hn1 & Hdn & Hp & Hcov) Hr Hpi; rewrite while_step; cbn [bind];
    rewrite Z.rem_mod_nonneg by lia; destruct (Z.eqb_spec (n mod i) 0) as [E|E].
  - simpl in Hb. lia.
  - simpl in Hb. lia.
  - apply Z.mod_divide in E; [|lia]. pose proof (rough_divisor_prime i n Hi Hr E) as Hpi'.
    assert (n = i * (n / i)) as Hni by (apply Z.div_exact; [lia|by apply Z.mod_divide; [lia|]]).
    assert (1 <= n / i) by nia. cbn [bind]. rewrite Z.quot_div_nonneg by lia.
    assert (n / i <= n) by nia.
    eapply wp_mono; [apply IH|].
    + rewrite Nat2Z.inj_succ, Z.pow_succ_r in Hb by lia. nia.
    + split_and!; [lia| | |].
      * apply (Z.divide_trans _ n); [|done]. exists i. lia.
      * right. split; [done|]. by apply (Z.divide_trans _ n).
      * intros q Hq Hqn. destruct (Hcov q Hq Hqn) as [Hqd|Hqp]; [|right; lia].
        rewrite Hni in Hqd. apply (Z.divide_prime_mul i (n / i) q Hq) in Hqd as [Hqd|Hqd]; [|by left].
        right. apply Z.divide_pos_le; [lia|done].
    + intros q Hq Hqd. apply Hr; [done|]. rewrite Hni. by apply Z.divide_mul_r.
    + lia.
    + intros [n' p'] (? & ? & ? & ?). split_and!; [lia|done..].
  - cbn [wp]. split_and!; [lia|done| |done]. intros q Hq Hqd. specialize (Hr q Hq Hqd) as Hiq.
    destruct (decide (q = i)) as [->|]; [|lia]. exfalso. apply E. by apply Z.mod_divide; [lia|].
Qed.

Lemma wp_factor :
  n0 < 46340 * 46340 ->
  wp (factor n0) (fun r => Z.prime r /\ (r | n0) /\ forall q, Z.prime q -> (q | n0) -> q <= r).
Proof.
  intros Hmax. unfold factor. wp_step.
  apply (wp_while (fun '(n, p, i) => 2 <= i <= 46340 /\ n <= n0 /\ covers n p /\ rough i n /\ p < i)
    (fun '(_, _, i) => 46340 - i)).
  - split_and!; [lia|lia|lia| | |lia].
    + split_and!; [lia|apply Z.divide_refl|by left|]. intros q Hq Hqn. by left.
    + intros q Hq _. by apply Z.prime_ge_2 in Hq.
  - lia.
  - intros [[n p] i] (Hi & _). lia.
  - intros [[n p] i] (Hi & Hn & Hcov & Hr & Hp).
    assert (i * i <= 46340 * 46340) by (apply Z.mul_le_mono_nonneg; lia).
    wp_step. apply wp_int; [code_nia|]. cbn [wp]. destruct (Z.leb_spec (i * i) n).
    + assert (i < 46340) by nia. wp_step. eapply wp_mono; [apply wp_divide_out; [lia|lia|done..]|].
      intros [n' p'] (Hn' & Hcov' & Hr' & Hp'). wp_step. wp_step. cbn [wp].
      split_and!; [lia|lia|lia|done|done|lia|lia].
    + cbn [wp]. destruct Hcov as (Hn1 & Hdn & Hpp & Hcov). rewrite Z.gtb_ltb.
      destruct (Z.ltb_spec 1 n).
      * assert (Z.prime n) as Hpn by (apply (rough_prime i); [lia|done|lia|lia]). split_and!; [done..|].
        intros q Hq Hqn. destruct (Hcov q Hq Hqn) as [Hqd|Hqp]; [by apply Z.divide_pos_le; [lia|]|].
        assert (i <= n) by (apply Hr; [done|apply Z.divide_refl]). lia.
      * assert (n = 1) as -> by lia.
        assert (forall q, Z.prime q -> (q | n0) -> q <= p) as Hall.
        { intros q Hq Hqn. destruct (Hcov q Hq Hqn) as [Hqd|]; [|done].
          apply Z.prime_ge_2 in Hq. apply Z.divide_pos_le in Hqd; lia. }
        destruct (prime_factor_exists n0 Hn0) as (q & Hq & Hqn). specialize (Hall q Hq Hqn) as Hqp.
        apply Z.prime_ge_2 in Hq. destruct Hpp as [->|[Hpr Hpd]]; [lia|]. done.
Qed.
End largest.

(** sol2.c of problem 3 is right: for every n from 2 to 46340^2 - 1 it
    prints a prime that divides n, and no larger prime divides n.  (From
    46340^2 on the test i*i <= n can overflow.) *)
Theorem largest_prime_factor_correct n rest out :
  2 <= n < 46340 * 46340 ->
  wp (main (Console (n :: rest) out)) (fun w =>
    exists r, w = Console rest (out ++ [PInt r; PStr "\n"]) /\
      Z.prime r /\ (r | n) /\ forall q, Z.prime q -> (q | n) -> q <= r).
Proof.
  intros Hn. unfold main. cbn [scanf input output bind]. wp_step.
  eapply wp_mono; [apply wp_factor; lia|]. intros r Hr. by exists r.
Qed.

Lemma largest_prime_factor_correct_witness :
  main (Console [13195] []) = Ok (Console [] [PInt 29; PStr "\n"]) /\
  wp (main (Console [13195] [])) (fun w =>
    exists r, w = Console [] ([] ++ [PInt r; PStr "\n"]) /\
      Z.prime r /\ (r | 13195) /\ forall q, Z.prime q -> (q | 13195) -> q <= r).
Proof.
  split; [vm_compute; reflexivity|]. apply (largest_prime_factor_correct 13195 [] []). lia.
Defined.

(** The largest int is prime, and the loop squares 46341 on the way. *)
Lemma largest_int_overflows : main (Console [2147483647] []) = Fail IntOverflow.
Proof. vm_compute. reflexivity. Qed.
End LargestPrimeFactor.

(** * misc/TowerOfHanoi.c *)

Module TowerOfHanoi.

Definition move_line (disk where_ to : Z) : list piece :=
  [PStr "Move disk : "; PInt disk; PStr " from "; PChar where_; PStr " to "; PChar to; PStr "\n"].

Fixpoint hanoi (fuel : nat) (noOfDisks where_ to extra : Z) (w : console) : res console :=
  match fuel with
  | O => Fail NoFuel
  | S fuel =>
      if noOfDisks =? 0 then Ok w
      else
        let* n := int (noOfDisks - 1) in
        let* w := hanoi fuel n where_ extra to w in
        let w := printf (move_line noOfDisks where_ to) w in
        hanoi fuel n extra to where_ w
  end.

Definition main (w : console) : res console :=
  let w := printf [PStr "Number of disks: \n"] w in
  let* (noOfDisks, w) := scanf w in
  hanoi (S (Z.to_nat noOfDisks)) noOfDisks 65 66 67 w.

(** ** Playing the printed moves *)

(** The disks on each peg, topmost first. *)
Definition pegs : Type := Z -> list Z.

Definition set_peg (p : pegs) (k : Z) (ds : list Z) : pegs := fun x => if decide (x = k) then ds else p x.

(** A move is legal when the disk is on top of its peg and goes onto a larger
    one or an empty peg. *)
Definition play1 (p : pegs) (mv : Z * Z * Z) : option pegs :=
  let '(d, a, b) := mv in
  match p a with
  | [] => None
  | x :: rest =>
      if decide (x = d) then
        match p b with
        | y :: _ => if decide (d < y) then Some (set_peg (set_peg p a rest) b (d :: p b)) else None
        | [] => Some (set_peg (set_peg p a rest) b [d])
        end
      else None
  end.

Fixpoint play (p : pegs) (mvs : list (Z * Z * Z)) : option pegs :=
  match mvs with
  | [] => Some p
  | mv :: mvs => p ← play1 p mv; play p mvs
  end.

(** The moves the recursion makes. *)
Fixpoint moves (n : nat) (a b c : Z) : list (Z * Z * Z) :=
  match n with
  | O => []
  | S k => moves k a c b ++ (Z.of_nat n, a, b) :: moves k c b a
  end.

Definition disks (n : nat) : list Z := seqZ 1 (Z.of_nat n).

Definition above (n : nat) (ds : list Z) : Prop := Forall (fun d => Z.of_nat n < d) ds.

Lemma disks_S n : disks (S n) = disks n ++ [Z.of_nat (S n)].
Proof. unfold disks. rewrite seqZ_S. do 2 f_equal. lia. Qed.

Lemma play_app p m1 m2 : play p (m1 ++ m2) = p' ← play p m1; play p' m2.
Proof.
  revert p. induction m1 as [|mv m1 IH]; intros p; simpl; [done|].
  destruct (play1 p mv); simpl; [apply IH|done].
Qed.

Lemma above_mono n m ds : (n <= m)%nat -> above m ds -> above n ds.
Proof. intros Hnm Hds. eapply Forall_impl; [exact Hds|]. cbn. intros d Hd. lia. Qed.

Lemma set_peg_eq p k ds : set_peg p k ds k = ds.
Proof. unfold set_peg. by rewrite decide_True. Qed.

Lemma set_peg_ne p k ds x : x <> k -> set_peg p k ds x = p x.
Proof. intros Hx. unfold set_peg. by rewrite decide_False. Qed.

(** The tower of the [n] smallest disks goes from [a] to [b]; whatever lies
    below, all larger, stays. *)
Lemma play_moves n p a b c ra :
  a <> b -> a <> c -> b <> c -> p a = disks n ++ ra -> above n ra -> above n (p b) -> above n (p c) ->
  exists p', play p (moves n a b c) = Some p' /\
    p' a = ra /\ p' b = disks n ++ p b /\ p' c = p c /\ forall x, x <> a -> x <> b -> x <> c -> p' x = p x.
Proof.
  revert p a b c ra. induction n as [|n IH]; intros p a b c ra Hab Hac Hbc Hpa Ha Hb Hc.
  { exists p. simpl. split_and!; [done..|]. done. }
  assert (n <= S n)%nat as Hle by lia. cbn [moves]. rewrite play_app.
  rewrite disks_S, <- app_assoc in Hpa. simpl in Hpa.
  destruct (IH p a c b (Z.of_nat (S n) :: ra)) as (p1 & -> & Ha1 & Hc1 & Hb1 & Ho1); [done..| | | |].
  { constructor; [lia|by apply (above_mono n (S n))]. }
  { by apply (above_mono n (S n)). }
  { by apply (above_mono n (S n)). }
  cbn [mbind option_bind play play1]. rewrite Ha1, decide_True by done.
  set (p2 := set_peg (set_peg p1 a ra) b (Z.of_nat (S n) :: p b)).
  assert (match p1 b with
          | y :: _ => if decide (Z.of_nat (S n) < y) then
                        Some (set_peg (set_peg p1 a ra) b (Z.of_nat (S n) :: p1 b)) else None
          | [] => Some (set_peg (set_peg p1 a ra) b [Z.of_nat (S n)])
          end = Some p2) as ->.
  { subst p2. rewrite Hb1. destruct (p b) as [|y ys]; [done|]. apply Forall_cons in Hb as [Hy _].
    by rewrite decide_True. }
  cbn [mbind option_bind].
  assert (p2 a = ra) as Ha2 by (subst p2; by rewrite set_peg_ne, set_peg_eq).
  assert (p2 b = Z.of_nat (S n) :: p b) as Hb2 by (subst p2; by rewrite set_peg_eq).
  assert (p2 c = disks n ++ p c) as Hc2 by (subst p2; by rewrite !set_peg_ne by done).
  destruct (IH p2 c b a (p c)) as (p3 & Hp3 & Hc3 & Hb3 & Ha3 & Ho3); [done..| | | |].
  { by apply (above_mono n (S n)). }
  { rewrite Hb2. constructor; [lia|by apply (above_mono n (S n))]. }
  { rewrite Ha2. by apply (above_mono n (S n)). }
  exists p3. rewrite disks_S, <- app_assoc. simpl. rewrite <- Hb2. split_and!; [done|by rewrite Ha3|done..|].
  intros x Hxa Hxb Hxc. rewrite Ho3 by done. subst p2. rewrite !set_peg_ne by done. by apply Ho1.
Qed.

Lemma length_moves n a b c : Z.of_nat (length (moves n a b c)) = 2 ^ Z.of_nat n - 1.
Proof.
  revert a b c. induction n as [|n IH]; intros a b c; [done|]. cbn [moves].
  rewrite length_app. simpl length. rewrite Nat2Z.inj_add, !Nat2Z.inj_succ, !IH, Z.pow_succ_r by lia. lia.
Qed.

Lemma hanoi_prints n fuel a b c w :
  (n < fuel)%nat -> Z.of_nat n <= INT_MAX ->
  hanoi fuel (Z.of_nat n) a b c w = Ok (printf (moves n a b c ≫= fun '(d, x, y) => move_line d x y) w).
Proof.
  revert fuel a b c w. induction n as [|n IH]; intros [|fuel] a b c w Hf Hn; try lia.
  { cbn [hanoi]. simpl. unfold printf. rewrite app_nil_r. by destruct w. }
  cbn [hanoi]. rewrite (proj2 (Z.eqb_neq (Z.of_nat (S n)) 0)) by lia. rewrite int_Ok by code_lia. cbn [bind].
  replace (Z.of_nat (S n) - 1) with (Z.of_nat n) by lia. rewrite IH by lia. cbn [bind]. rewrite IH by lia.
  cbn [moves]. rewrite bind_app. unfold printf. cbn [input output]. do 2 f_equal.
  rewrite <- !app_assoc. done.
Qed.

(** TowerOfHanoi.c solves the puzzle: for n >= 0 disks on peg A and the
    other pegs empty, main prints 2^n - 1 moves; played in order every move is
    legal (it takes the top disk of a peg and never puts it on a smaller one),
    and in the end all disks are on peg B in order. *)
Theorem hanoi_solves n rest out :
  0 <= n <= INT_MAX ->
  exists mvs p,
    main (Console (n :: rest) out) =
      Ok (Console rest (out ++ PStr "Number of disks: \n" :: (mvs ≫= fun '(d, x, y) => move_line d x y))) /\
    Z.of_nat (length mvs) = 2 ^ n - 1 /\
    play (set_peg (fun _ => []) 65 (seqZ 1 n)) mvs = Some p /\
    p 65 = [] /\ p 66 = seqZ 1 n /\ p 67 = [].
Proof.
  intros Hn. exists (moves (Z.to_nat n) 65 66 67).
  destruct (play_moves (Z.to_nat n) (set_peg (fun _ => []) 65 (seqZ 1 n)) 65 66 67 [])
    as (p & Hp & Ha & Hb & Hc & _); [done..| |constructor|constructor|constructor|].
  { rewrite set_peg_eq, app_nil_r. unfold disks. by rewrite Z2Nat.id by lia. }
  exists p. split_and!; [|rewrite length_moves, Z2Nat.id by lia; done|done|done| |].
  - unfold main. cbn [scanf printf input output bind].
    rewrite <- (Z2Nat.id n) at 2 by lia. rewrite hanoi_prints by lia. unfold printf. cbn [input output].
    by rewrite <- app_assoc.
  - rewrite Hb. rewrite set_peg_ne, app_nil_r by done. unfold disks. by rewrite Z2Nat.id by lia.
  - rewrite Hc. by rewrite set_peg_ne.
Qed.

Lemma hanoi_solves_witness :
  main (Console [2] []) = Ok (Console [] (PStr "Number of disks: \n" ::
    move_line 1 65 67 ++ move_line 2 65 66 ++ move_line 1 67 66)) /\
  exists mvs p,
    main (Console [2] []) =
      Ok (Console [] ([] ++ PStr "Number of disks: \n" :: (mvs ≫= fun '(d, x, y) => move_line d x y))) /\
    Z.of_nat (length mvs) = 2 ^ 2 - 1 /\
    play (set_peg (fun _ => []) 65 (seqZ 1 2)) mvs = Some p /\
    p 65 = [] /\ p 66 = seqZ 1 2 /\ p 67 = [].
Proof. split; [vm_compute; reflexivity|]. apply (hanoi_solves 2 [] []). unfold INT_MAX. lia. Defined.

End TowerOfHanoi.
