(* ===== verification/Recursion.v ===== *)
(** * Recursive programs

    misc/GCD.c, Factorial.c, Fibonacci.c and demonetization.c.  The C
    functions recur on values without a structural order, so each takes fuel;
    the mains give enough of it for every argument on which the C function
    returns, and where it never returns the lemmas say so for every fuel. *)

From S2P Require Import Prelude Arrays.
Open Scope Z_scope.

Lemma int_nonneg r : 0 <= r -> int r = if r <=? INT_MAX then Ok r else Fail IntOverflow.
Proof. intros Hr. unfold int. by rewrite (proj2 (Z.leb_le INT_MIN r)) by code_lia. Qed.

(** * misc/GCD.c *)

Module GCD.

(** [x%y] is undefined when the quotient is no int: INT_MIN % -1. *)
Fixpoint GCD (fuel : nat) (x y : Z) : res Z :=
  match fuel with
  | O => Fail NoFuel
  | S fuel =>
      if y =? 0 then Ok x
      else
        let* _ := int (Z.quot x y) in
        GCD fuel y (Z.rem x y)
  end.

Lemma GCD_S fuel x y :
  GCD (S fuel) x y =
  if y =? 0 then Ok x else let* _ := int (Z.quot x y) in GCD fuel y (Z.rem x y).
Proof. done. Qed.

(** Two calls halve the second argument: 64 are enough for ints. *)
Definition main (w : console) : res console :=
  let w := printf [PStr "Input two numbers:\n"] w in
  let* (a, w) := scanf w in
  let* (b, w) := scanf w in
  let* g := GCD 64 a b in
  Ok (printf [PStr "Greatest common divisor: "; PInt g; PStr "\n"] w).

Lemma gcd_rem x y : y <> 0 -> Z.gcd y (Z.rem x y) = Z.gcd x y.
Proof.
  intros Hy. rewrite (Z.gcd_comm x y). rewrite (Z.quot_rem' x y) at 2.
  replace (y * Z.quot x y + Z.rem x y) with (Z.rem x y + Z.quot x y * y) by lia.
  by rewrite Z.gcd_add_mult_diag_r.
Qed.

Lemma quot_int x y : is_int x -> y <> 0 -> ~ (x = INT_MIN /\ y = -1) -> is_int (Z.quot x y).
Proof.
  intros Hx Hy Hne. destruct (decide (y = -1)) as [->|]; [|destruct (decide (y = 1)) as [->|]; [by rewrite Z.quot_1_r|]].
  2:{ unfold is_int, INT_MIN, INT_MAX in *. Z.to_euclidean_division_equations. nia. }
  replace (Z.quot x (-1)) with (- x) by (Z.to_euclidean_division_equations; lia). code_lia.
Qed.

Lemma rem_halves y r : r <> 0 -> Z.abs r < Z.abs y -> 2 * Z.abs (Z.rem y r) < Z.abs y.
Proof.
  intros Hr Hlt. rewrite <- Z.rem_abs by done. pose proof (proj2 (Z.abs_pos r) Hr) as Hb.
  revert Hlt Hb. generalize (Z.abs y), (Z.abs r). intros a b Hab Hb. rewrite Z.rem_mod_nonneg by lia.
  pose proof (Z.mod_pos_bound a b Hb). pose proof (Z.div_mod a b ltac:(lia)).
  assert (1 <= a / b) by (apply Z.div_le_lower_bound; lia). nia.
Qed.

(** The second argument of a nested call is smaller than the first. *)
Lemma GCD_run k : forall x y,
  is_int x -> is_int y -> Z.abs y < 2 ^ Z.of_nat k -> Z.abs y < Z.abs x -> ~ (x = INT_MIN /\ y = -1) ->
  wp (GCD (2 * k + 1) x y) (fun g => Z.abs g = Z.gcd x y /\ (0 <= x -> 0 <= y -> 0 <= g)).
Proof.
  induction k as [|k IH]; intros x y Hx Hy Hk Hxy Hne.
  { simpl in Hk. assert (y = 0) as -> by lia. simpl. by rewrite Z.gcd_0_r. }
  rewrite Nat2Z.inj_succ, Z.pow_succ_r in Hk by lia.
  replace (2 * S k + 1)%nat with (S (S (2 * k + 1))) by lia. rewrite GCD_S.
  destruct (Z.eqb_spec y 0) as [->|Hy0]; [simpl; by rewrite Z.gcd_0_r|].
  wp_step. apply wp_int; [by apply quot_int|]. rewrite <- (gcd_rem x y) by done.
  pose proof (Z.rem_bound_abs x y Hy0). set (r := Z.rem x y) in *.
  assert (0 <= x -> 0 <= r) by (intros; subst r; Z.to_euclidean_division_equations; lia).
  rewrite GCD_S. destruct (Z.eqb_spec r 0) as [->|Hr0]; [simpl; rewrite Z.gcd_0_r; split; [done|intros; lia]|].
  assert (~ (y = INT_MIN /\ r = -1)) as Hne2.
  { intros [-> ?]. code_lia. }
  wp_step. apply wp_int; [by apply quot_int|]. rewrite <- (gcd_rem y r) by done.
  pose proof (Z.rem_bound_abs y r Hr0).
  assert (2 * Z.abs (Z.rem y r) < Z.abs y) by (apply rem_halves; [done|lia]).
  assert (0 <= y -> 0 <= Z.rem y r) by (intros; Z.to_euclidean_division_equations; lia).
  eapply wp_mono; [apply IH|].
  - code_lia.
  - code_lia.
  - lia.
  - lia.
  - intros [-> ?]. code_lia.
  - intros g [Hg Hpos]. split; [done|]. intros. apply Hpos; lia.
Qed.

Definition answer (g : Z) (out : list piece) : list piece :=
  out ++ [PStr "Input two numbers:\n"; PStr "Greatest common divisor: "; PInt g; PStr "\n"].

(** GCD.c prints a greatest common divisor of any two ints up to its sign,
    and the non-negative one for non-negative arguments. *)
Lemma gcd_main_correct a b rest out :
  is_int a -> is_int b -> ~ (a = INT_MIN /\ b = -1) -> ~ (a = -1 /\ b = INT_MIN) ->
  wp (main (Console (a :: b :: rest) out)) (fun w =>
    exists g, w = Console rest (answer g out) /\ Z.abs g = Z.gcd a b /\ (0 <= a -> 0 <= b -> 0 <= g)).
Proof.
  intros Ha Hb Hab Hba. unfold main. cbn [scanf printf input output bind]. wp_step.
  enough (wp (GCD 64 a b) (fun g => Z.abs g = Z.gcd a b /\ (0 <= a -> 0 <= b -> 0 <= g))) as H.
  { eapply wp_mono; [exact H|]. intros g [Hg Hp]. exists g. unfold answer, printf. cbn [input output]. by rewrite <- app_assoc. }
  replace 64%nat with (S (2 * 31 + 1)) by lia. rewrite GCD_S.
  destruct (Z.eqb_spec b 0) as [->|Hb0]; [simpl; by rewrite Z.gcd_0_r|].
  wp_step. apply wp_int; [by apply quot_int|]. rewrite <- (gcd_rem a b) by done.
  pose proof (Z.rem_bound_abs a b Hb0).
  eapply wp_mono; [apply GCD_run|].
  - done.
  - code_lia.
  - code_lia.
  - lia.
  - intros [-> Hr]. apply Hba. split; [|done].
    pose proof (Z.quot_rem' a INT_MIN). pose proof (Z.rem_nonneg a INT_MIN Hb0). code_lia.
  - intros g [Hg Hp]. split; [done|]. intros. apply Hp; [done|]. Z.to_euclidean_division_equations; lia.
Qed.

(** The two pairs left out divide INT_MIN by -1. *)
Lemma gcd_overflows out :
  main (Console [INT_MIN; -1] out) = Fail IntOverflow /\ main (Console [-1; INT_MIN] out) = Fail IntOverflow.
Proof. split; vm_compute; reflexivity. Qed.

(** The sign is that of the last divisor. *)
Lemma gcd_negative : main (Console [4; -2] []) = Ok (Console [] (answer (-2) [])).
Proof. vm_compute. reflexivity. Qed.

End GCD.

(** * misc/Factorial.c *)

Module Factorial.

Fixpoint fat (fuel : nat) (number : Z) : res Z :=
  match fuel with
  | O => Fail NoFuel
  | S fuel =>
      if (number =? 1) || (number =? 0) then Ok 1
      else
        let* n := int (number - 1) in
        let* f := fat fuel n in
        int (number * f)
  end.

Definition main (w : console) : res console :=
  let w := printf [PStr "Number: "] w in
  let* (number, w) := scanf w in
  let* f := fat (S (Z.to_nat number)) number in
  Ok (printf [PInt f; PStr "\n"] w).

Fixpoint factorial (n : nat) : Z :=
  match n with
  | O => 1
  | S m => Z.of_nat n * factorial m
  end.

(** 12! is the last factorial that is an int; from 13 on the product
    overflows. *)
Lemma fat_correct n fuel :
  (n < fuel)%nat -> Z.of_nat n <= INT_MAX ->
  fat fuel (Z.of_nat n) = if (n <=? 12)%nat then Ok (factorial n) else Fail IntOverflow.
Proof.
  revert fuel. induction n as [|n IH]; intros [|fuel] Hf Hn; try lia; [done|]. cbn [fat].
  destruct (decide (n = 0%nat)) as [->|Hn0]; [done|].
  rewrite (proj2 (Z.eqb_neq (Z.of_nat (S n)) 1)), (proj2 (Z.eqb_neq (Z.of_nat (S n)) 0)) by lia. cbn [orb].
  rewrite int_Ok by code_lia. cbn [bind]. replace (Z.of_nat (S n) - 1) with (Z.of_nat n) by lia.
  rewrite IH by lia. destruct (Nat.leb_spec n 12); cbn [bind].
  - do 13 (destruct n as [|n]; [vm_compute; reflexivity|]). lia.
  - by rewrite (proj2 (Nat.leb_gt (S n) 12)) by lia.
Qed.

(** A negative number is never reached by counting down. *)
Lemma fat_negative fuel n r : n < 0 -> fat fuel n <> Ok r.
Proof.
  revert n r. induction fuel as [|fuel IH]; intros n r Hn; [done|]. cbn [fat].
  rewrite (proj2 (Z.eqb_neq n 1)), (proj2 (Z.eqb_neq n 0)) by lia. cbn [orb]. intros H.
  apply bind_Ok_inv in H as (m & Hm & H). apply int_inv in Hm as [-> _].
  apply bind_Ok_inv in H as (f & Hf & _). by apply (IH (n - 1) f); [lia|].
Qed.

End Factorial.

(** * misc/Fibonacci.c *)

Module Fibonacci.

Fixpoint fib (fuel : nat) (number : Z) : res Z :=
  match fuel with
  | O => Fail NoFuel
  | S fuel =>
      if (number =? 1) || (number =? 2) then Ok 1
      else
        let* n1 := int (number - 1) in
        let* a := fib fuel n1 in
        let* n2 := int (number - 2) in
        let* b := fib fuel n2 in
        int (a + b)
  end.

Definition main (w : console) : res console :=
  let w := printf [PStr "Number: "] w in
  let* (number, w) := scanf w in
  let* f := fib (Z.to_nat number) number in
  Ok (printf [PInt f; PStr " \n"] w).

Lemma fib_mono n m : (n <= m)%nat -> Prelude.fib n <= Prelude.fib m.
Proof.
  induction 1 as [|m Hm IH]; [done|]. destruct m as [|m]; [change (Prelude.fib 0) with 0 in *; pose proof (fib_pos 0); lia|].
  rewrite fib_SS. pose proof (fib_pos m). lia.
Qed.

(** fib(n) is the n-th Fibonacci number while it is an int, up to n = 46, and
    overflows after that. *)
Lemma fib_correct n : forall fuel,
  (1 <= n <= fuel)%nat -> Z.of_nat n <= INT_MAX -> fib fuel (Z.of_nat n) = int (Prelude.fib n).
Proof.
  induction (lt_wf n) as [n _ IH]. intros [|fuel] Hf Hn; [lia|]. cbn [fib].
  destruct (decide (n = 1%nat)) as [->|]; [done|]. destruct (decide (n = 2%nat)) as [->|]; [done|].
  rewrite (proj2 (Z.eqb_neq (Z.of_nat n) 1)), (proj2 (Z.eqb_neq (Z.of_nat n) 2)) by lia. cbn [orb].
  destruct n as [|[|n]]; [lia..|]. rewrite (int_Ok (_ - 1)) by code_lia. cbn [bind].
  replace (Z.of_nat (S (S n)) - 1) with (Z.of_nat (S n)) by lia. rewrite (IH (S n)) by lia.
  rewrite (int_Ok (_ - 2)) by code_lia. cbn [bind].
  replace (Z.of_nat (S (S n)) - 2) with (Z.of_nat n) by lia. rewrite (IH n) by lia. rewrite fib_SS.
  pose proof (fib_pos n). pose proof (fib_pos (S n)). rewrite !int_nonneg by lia.
  destruct (Z.leb_spec (Prelude.fib (S n)) INT_MAX); cbn [bind].
  - destruct (Z.leb_spec (Prelude.fib n) INT_MAX); [by rewrite <- int_nonneg by lia|].
    pose proof (fib_mono n (S n)). lia.
  - by rewrite (proj2 (Z.leb_gt (_ + _) _)) by lia.
Qed.

(** Position 0 and the negative ones recur for ever. *)
Lemma fib_nonpositive fuel n r : n <= 0 -> fib fuel n <> Ok r.
Proof.
  revert n r. induction fuel as [|fuel IH]; intros n r Hn; [done|]. cbn [fib].
  rewrite (proj2 (Z.eqb_neq n 1)), (proj2 (Z.eqb_neq n 2)) by lia. cbn [orb]. intros H.
  apply bind_Ok_inv in H as (m & Hm & H). apply int_inv in Hm as [-> _].
  apply bind_Ok_inv in H as (f & Hf & _). by apply (IH (n - 1) f); [lia|].
Qed.

End Fibonacci.

(** * misc/demonetization.c *)

Module Demonetization.
Open Scope array_scope.

Fixpoint ways (fuel : nat) (n : Z) (a : list Z) (k : Z) : res Z :=
  match fuel with
  | O => Fail NoFuel
  | S fuel =>
      if (n <? 0) || (k <? 0) then Ok 0
      else if n =? 0 then Ok 1
      else if k =? 0 then Ok 0
      else
        let* k1 := int (k - 1) in
        let* x := ways fuel n a k1 in
        let* c := rd a k1 in
        let* n1 := int (n - c) in
        let* y := ways fuel n1 a k in
        int (x + y)
  end.

Definition ways_fuel (n k : Z) : nat := S (Z.to_nat n + Z.to_nat k).

Definition read_coins (m : Z) (w : console) : res (list Z * console) :=
  for_up 0 m (fun i '(coin, w) =>
    let w := printf [PStr "coin? "] w in
    let* (c, w) := scanf w in
    let* coin := wr coin i c in
    Ok (coin, w)) (replicate (Z.to_nat m) 0, w).

(** One turn of the request loop, which ends with the amount 0. *)
Definition request (coin : list Z) (m : Z) (w : console) : res (console + console) :=
  let w := printf [PStr "amount? exit(0) "] w in
  let* (n, w) := scanf w in
  if n =? 0 then Ok (inr w)
  else
    let* r := ways (ways_fuel n m) n coin m in
    Ok (inl (printf [PInt r; PStr "\n"] w)).

Definition main (w : console) : res console :=
  let w := printf [PStr "Number of coins? "] w in
  let* (m, w) := scanf w in
  let* _ := vla m in
  let* (coin, w) := read_coins m w in
  let w := printf [PStr "---- your requests --- \n"] w in
  loop (S (length (input w))) (request coin m) w.

(** ** Counting the payments *)

(** [cs] says how many of each coin are handed out; together they make [n]. *)
Fixpoint total (coins cs : list Z) : Z :=
  match coins, cs with
  | x :: coins, c :: cs => x * c + total coins cs
  | _, _ => 0
  end.

Definition pays (coins : list Z) (n : Z) (cs : list Z) : Prop :=
  length cs = length coins /\ Forall (fun c => 0 <= c) cs /\ total coins cs = n.

(** [r] payments, each listed once. *)
Definition counts (coins : list Z) (n r : Z) : Prop :=
  exists ps, NoDup ps /\ (forall cs, cs ∈ ps <-> pays coins n cs) /\ r = zlen ps.

Definition positive_coins (coins : list Z) : Prop := Forall (fun x => 0 < x) coins.

Lemma coins_nonneg coins cs : positive_coins coins -> Forall (fun c => 0 <= c) cs -> 0 <= total coins cs.
Proof.
  intros Hc. revert cs. induction Hc as [|x coins Hx Hc IH]; intros [|c cs] Hcs; simpl; try lia.
  apply Forall_cons in Hcs as [? Hcs]. specialize (IH cs Hcs). nia.
Qed.

Lemma total_zero coins cs :
  positive_coins coins -> length cs = length coins -> Forall (fun c => 0 <= c) cs ->
  total coins cs = 0 -> cs = replicate (length coins) 0.
Proof.
  intros Hc. revert cs. induction Hc as [|x coins Hx Hc IH]; intros [|c cs] Hl Hcs H0; simpl in *; try done.
  apply Forall_cons in Hcs as [? Hcs]. pose proof (coins_nonneg coins cs Hc Hcs).
  assert (c = 0) as -> by nia. f_equal. apply IH; [lia|done|lia].
Qed.

Lemma total_replicate_0 coins : total coins (replicate (length coins) 0) = 0.
Proof. induction coins as [|x coins IH]; simpl; [done|]. lia. Qed.

Lemma counts_negative coins n : positive_coins coins -> n < 0 -> counts coins n 0.
Proof.
  intros Hc Hn. exists []. split_and!; [constructor| |done]. intros cs. split; [by intros ?%not_elem_of_nil|].
  intros (_ & Hcs & Ht). pose proof (coins_nonneg coins cs Hc Hcs). lia.
Qed.

Lemma counts_zero coins : positive_coins coins -> counts coins 0 1.
Proof.
  intros Hc. exists [replicate (length coins) 0]. split_and!; [apply NoDup_singleton| |done].
  intros cs. rewrite list_elem_of_singleton. split.
  - intros ->. split_and!; [by rewrite length_replicate|by apply Forall_replicate|apply total_replicate_0].
  - intros (Hl & Hcs & Ht). by apply total_zero.
Qed.

Lemma counts_no_coins n : 0 < n -> counts [] n 0.
Proof.
  intros Hn. exists []. split_and!; [constructor| |done]. intros cs. split; [by intros ?%not_elem_of_nil|].
  intros (Hl & _ & Ht). destruct cs; [|done]. simpl in Ht. lia.
Qed.

(** Either the first coin is not used, or one of it is handed out. *)
Lemma counts_step x coins n r1 r2 :
  counts coins n r1 -> counts (x :: coins) (n - x) r2 -> counts (x :: coins) n (r1 + r2).
Proof.
  intros (ps1 & Hn1 & Hp1 & ->) (ps2 & Hn2 & Hp2 & ->).
  set (bump := fun cs => match cs with c :: cs => (c + 1) :: cs | [] => [] end).
  assert (forall c cs, c :: cs ∈ ps2 -> 0 <= c) as Hpos2.
  { intros c cs (_ & Hcs & _)%Hp2. by apply Forall_cons in Hcs as [? _]. }
  exists (map (cons 0) ps1 ++ map bump ps2). split_and!.
  - apply NoDup_app. split_and!.
    + by apply (NoDup_fmap_2 (cons 0)).
    + intros cs (cs1 & -> & _)%list_elem_of_fmap (cs2 & E & Hcs2)%list_elem_of_fmap.
      destruct cs2 as [|c cs2]; simpl in E; [done|]. specialize (Hpos2 c cs2 Hcs2). injection E. lia.
    + apply (NoDup_fmap_2_strong bump); [|done]. intros [|a l] [|b m] (Ha & _)%Hp2 (Hb & _)%Hp2; try done.
      simpl. intros [= E ->]. f_equal. lia.
  - intros cs. rewrite elem_of_app. split.
    + intros [(cs1 & -> & H%Hp1)%list_elem_of_fmap|(cs2 & -> & H)%list_elem_of_fmap].
      * destruct H as (Hl & Hcs & Ht). split_and!; simpl; [by rewrite Hl|by constructor|lia].
      * pose proof H as (Hl & Hcs & Ht)%Hp2. destruct cs2 as [|c cs2]; [done|]. simpl in *.
        apply Forall_cons in Hcs as [? Hcs]. split_and!; [done|constructor; [lia|done]|simpl; lia].
    + intros (Hl & Hcs & Ht). destruct cs as [|c cs]; [done|]. apply Forall_cons in Hcs as [Hc Hcs]. simpl in Hl, Ht.
      destruct (decide (c = 0)) as [->|].
      * left. apply list_elem_of_fmap. exists cs. split; [done|]. apply Hp1. split_and!; [lia|done|lia].
      * right. apply list_elem_of_fmap. exists ((c - 1) :: cs). split; [simpl; f_equal; lia|].
        apply Hp2. split_and!; [done|constructor; [lia|done]|simpl; lia].
  - by rewrite zlen_app, !zlen_map.
Qed.

Lemma counts_nonneg coins n r : counts coins n r -> 0 <= r.
Proof. intros (ps & _ & _ & ->). apply zlen_nonneg. Qed.

(** The count does not depend on the order of the coins. *)
Lemma total_rev coins cs : length cs = length coins -> total (reverse coins) (reverse cs) = total coins cs.
Proof.
  assert (forall xs cs x c, length xs = length cs -> total (xs ++ [x]) (cs ++ [c]) = total xs cs + x * c) as Hs.
  { induction xs as [|y xs IH]; intros [|d ds] x c Hl; simpl in *; try lia. rewrite IH by lia. lia. }
  revert cs. induction coins as [|x coins IH]; intros [|c cs] Hl; simpl in *; try lia.
  rewrite !reverse_cons, Hs by (rewrite !length_reverse; lia). rewrite IH by lia. lia.
Qed.

Lemma counts_rev coins n r : counts (reverse coins) n r -> counts coins n r.
Proof.
  intros (ps & Hnd & Hp & ->). exists (map reverse ps). split_and!.
  - apply (NoDup_fmap_2 reverse). done.
  - intros cs. rewrite list_elem_of_fmap. split.
    + intros (cs' & -> & (Hl & Hcs & Ht)%Hp). rewrite length_reverse in Hl. split_and!.
      * by rewrite length_reverse.
      * by apply Forall_reverse.
      * rewrite <- (reverse_involutive coins). rewrite total_rev by (by rewrite length_reverse). done.
    + intros (Hl & Hcs & Ht). exists (reverse cs). split; [by rewrite reverse_involutive|]. apply Hp. split_and!.
      * by rewrite !length_reverse.
      * by apply Forall_reverse.
      * by rewrite total_rev.
  - by rewrite zlen_map.
Qed.

(** ** The program counts them *)

Lemma take_snoc_aget (a : list Z) k :
  0 < k <= zlen a -> take (Z.to_nat k) a = take (Z.to_nat (k - 1)) a ++ [a.[k - 1]].
Proof.
  intros Hk. replace (Z.to_nat k) with (S (Z.to_nat (k - 1))) by lia. apply take_S_r.
  unfold aget, zlen in *. apply list_lookup_lookup_total_lt. lia.
Qed.

(** Either the count or, when it is no int, an overflow. *)
Lemma ways_run a : positive_coins a -> Forall is_int a -> forall fuel n k,
  is_int n -> 0 <= k <= zlen a -> is_int k -> (Z.to_nat n + Z.to_nat k < fuel)%nat ->
  exists r, counts (reverse (take (Z.to_nat k) a)) n r /\ ways fuel n a k = int r.
Proof.
  intros Ha Hai. induction fuel as [|fuel IH]; intros n k Hn Hk Hki Hf; [lia|]. cbn [ways].
  assert (positive_coins (reverse (take (Z.to_nat k) a))) as Hpk by (apply Forall_reverse, Forall_take, Ha).
  rewrite (proj2 (Z.ltb_ge k 0)), orb_false_r by lia. destruct (Z.ltb_spec n 0).
  { exists 0. split; [by apply counts_negative|done]. }
  destruct (Z.eqb_spec n 0) as [->|]; [exists 1; split; [by apply counts_zero|done]|].
  destruct (Z.eqb_spec k 0) as [->|]; [exists 0; split; [apply counts_no_coins; lia|done]|].
  rewrite (int_Ok (k - 1)) by code_lia. cbn [bind].
  pose proof (Forall_aget_1 (fun x => 0 < x) a (k - 1) Ha ltac:(lia)) as Hc. cbn beta in Hc.
  pose proof (Forall_aget_1 is_int a (k - 1) Hai ltac:(lia)) as Hci.
  destruct (IH n (k - 1)) as (r1 & Hr1 & ->); [done|lia|code_lia|lia|].
  destruct (IH (n - a.[k - 1]) k) as (r2 & Hr2 & E2); [code_lia|done|done|lia|].
  exists (r1 + r2). split.
  { rewrite take_snoc_aget, reverse_app in * by lia. by apply counts_step. }
  pose proof (counts_nonneg _ _ _ Hr1). pose proof (counts_nonneg _ _ _ Hr2).
  rewrite (int_nonneg (r1 + r2)), (int_nonneg r1) by lia. destruct (Z.leb_spec r1 INT_MAX); cbn [bind].
  - rewrite rd_Ok by lia. cbn [bind]. rewrite (int_Ok (n - _)) by code_lia. cbn [bind].
    rewrite E2, int_nonneg by lia. destruct (Z.leb_spec r2 INT_MAX); cbn [bind].
    + by rewrite int_nonneg by lia.
    + by rewrite (proj2 (Z.leb_gt _ _)) by lia.
  - by rewrite (proj2 (Z.leb_gt _ _)) by lia.
Qed.

Lemma ways_counts coins n :
  positive_coins coins -> Forall is_int coins -> zlen coins <= INT_MAX -> is_int n ->
  exists r, counts coins n r /\ ways (ways_fuel n (zlen coins)) n coins (zlen coins) = int r.
Proof.
  intros Hp Hi Hl Hn. pose proof (zlen_nonneg coins).
  destruct (ways_run coins Hp Hi (ways_fuel n (zlen coins)) n (zlen coins)) as (r & Hr & E);
    [done|lia|code_lia|unfold ways_fuel; lia|].
  exists r. split; [|done]. apply counts_rev. unfold zlen in Hr. by rewrite Nat2Z.id, firstn_all in Hr.
Qed.

(** A count is unique. *)
Lemma counts_unique coins n r1 r2 : counts coins n r1 -> counts coins n r2 -> r1 = r2.
Proof.
  intros (ps1 & Hn1 & Hp1 & ->) (ps2 & Hn2 & Hp2 & ->). unfold zlen. f_equal.
  apply Permutation_length. apply NoDup_Permutation; [done..|]. intros cs. by rewrite Hp1, Hp2.
Qed.

Definition reply (r : Z) : list piece := [PStr "amount? exit(0) "; PInt r; PStr "\n"].

Lemma requests_run coins qs rs : forall fuel rest out,
  positive_coins coins -> Forall is_int coins -> zlen coins <= INT_MAX ->
  Forall (fun q => q <> 0 /\ is_int q) qs -> Forall2 (counts coins) qs rs -> Forall (fun r => r <= INT_MAX) rs ->
  (length qs < fuel)%nat ->
  loop fuel (request coins (zlen coins)) (Console (qs ++ 0 :: rest) out) =
  Ok (Console rest (out ++ (rs ≫= reply) ++ [PStr "amount? exit(0) "])).
Proof.
  intros fuel rest out Hp Hi Hl Hqs Hqr Hrs Hf. revert fuel out Hqs Hrs Hf.
  induction Hqr as [|q r qs rs Hr Hqr IH]; intros [|fuel] out Hqs Hrs Hf; simpl in Hf; try lia; [done|].
  apply Forall_cons in Hqs as [[Hq0 Hq] Hqs]. apply Forall_cons in Hrs as [Hr1 Hrs].
  destruct (ways_counts coins q) as (r' & Hr' & E); [done..|].
  rewrite (counts_unique coins q r' r) in E by done. pose proof (counts_nonneg _ _ _ Hr).
  rewrite int_Ok in E by code_lia.
  cbn [loop app]. unfold request at 1. cbn [printf scanf input output bind].
  rewrite (proj2 (Z.eqb_neq q 0)) by done. rewrite E. cbn [bind].
  unfold printf. cbn [input output]. rewrite IH by (done || lia). do 2 f_equal.
  rewrite bind_cons. unfold reply at 2. rewrite <- !app_assoc. done.
Qed.

(** The coins are read. *)
Lemma coins_read coins rest out :
  wp (read_coins (zlen coins) (Console (coins ++ rest) out))
  (eq (coins, Console rest (out ++ replicate (length coins) (PStr "coin? ")))).
Proof.
  pose proof (zlen_nonneg coins) as Hl0. unfold read_coins.
  apply (wp_for_up (fun i '(coin, w) => exists pre post, coins = pre ++ post /\ zlen pre = i /\
    coin = pre ++ replicate (length post) 0 /\
    w = Console (post ++ rest) (out ++ replicate (length pre) (PStr "coin? ")))).
  - exists [], coins. split_and!; [done|done| |simpl; by rewrite app_nil_r]. unfold zlen. by rewrite Nat2Z.id.
  - intros i [coin w] Hi (pre & post & E & Hpre & -> & ->). destruct post as [|c post].
    { rewrite app_nil_r in E. subst. lia. }
    cbn [printf scanf input output app bind]. simpl (replicate (length (c :: post)) 0). wp_step.
    rewrite (wr_middle pre 0 _ i c Hpre). cbn [wp bind]. exists (pre ++ [c]), post. split_and!.
    + by rewrite <- app_assoc.
    + rewrite zlen_snoc. lia.
    + by rewrite <- app_assoc.
    + unfold printf. cbn [input output]. rewrite length_app. simpl.
      rewrite <- !app_assoc, replicate_add. done.
  - intros [coin w] (pre & post & E & Hpre & -> & ->). rewrite Z.max_r in Hpre by lia.
    assert (post = []) as ->. { destruct post; [done|]. subst coins. rewrite zlen_app, zlen_cons in Hpre.
      pose proof (zlen_nonneg post). lia. }
    rewrite !app_nil_r in *. by subst.
Qed.

(** demonetization.c answers every request with the number of ways to pay the
    amount in the given coins: for each amount the list of all payments (how
    many of each coin, in total the amount) has that length. *)
Lemma demonetization_answers coins qs rs rest out :
  0 < zlen coins <= INT_MAX -> positive_coins coins -> Forall is_int coins ->
  Forall (fun q => q <> 0 /\ is_int q) qs -> Forall2 (counts coins) qs rs -> Forall (fun r => r <= INT_MAX) rs ->
  main (Console (zlen coins :: coins ++ qs ++ 0 :: rest) out) =
  Ok (Console rest (out ++ PStr "Number of coins? " :: replicate (length coins) (PStr "coin? ") ++
    PStr "---- your requests --- \n" :: (rs ≫= reply) ++ [PStr "amount? exit(0) "])).
Proof.
  intros Hl Hp Hi Hqs Hqr Hrs. unfold main. cbn [printf scanf input output bind].
  unfold vla, demand. rewrite (proj2 (Z.ltb_lt 0 _)) by lia. cbn [bind].
  destruct (proj1 (wp_exists _ _) (coins_read coins (qs ++ 0 :: rest) (out ++ [PStr "Number of coins? "])))
    as (st & -> & <-). cbn [bind]. unfold printf. cbn [input output].
  rewrite requests_run with (rs := rs) by (done || lia || (rewrite length_app; lia)).
  do 2 f_equal. rewrite <- !app_assoc. done.
Qed.

(** A coin of value 0 is handed out for ever. *)
Lemma ways_zero_coin fuel n r : 0 < n -> ways fuel n [0] 1 <> Ok r.
Proof.
  intros Hn. revert r. induction fuel as [|fuel IH]; intros r; [done|]. cbn [ways].
  rewrite (proj2 (Z.ltb_ge n 0)), (proj2 (Z.eqb_neq n 0)) by lia. cbn [orb Z.ltb Z.eqb Z.compare].
  intros H. apply bind_Ok_inv in H as (k1 & [-> _]%int_inv & H). apply bind_Ok_inv in H as (x & _ & H).
  simpl in H. apply bind_Ok_inv in H as (n1 & [-> _]%int_inv & H). rewrite Z.sub_0_r in H.
  apply bind_Ok_inv in H as (y & Hy & _). by apply (IH y).
Qed.

End Demonetization.
