(* ===== verification/CStrings.v ===== *)
(** * C strings

    A string in memory is an array of bytes, as [char] values, with its
    terminator; a pointer into it is an index.  Reading is [rd] of Arrays.v, so
    that a step outside the array is a fault.  [ch] is a character constant;
    the functions of string.h and ctype.h the sources call are here too. *)

From Stdlib Require Import Ascii String.
From S2P Require Import Prelude Arrays.
Open Scope Z_scope.

Definition first_char (s : string) : Z :=
  match s with String c _ => Z.of_N (N_of_ascii c) | EmptyString => 0 end.

Abbreviation ch s := (ltac:(let v := eval vm_compute in (first_char s) in exact v)) (only parsing).

(** A string literal. *)
Definition bytes (s : string) : list Z := map (fun c => Z.of_N (N_of_ascii c)) (String.list_ascii_of_string s).

(** The array that holds the string. *)
Definition cstr (s : list Z) : list Z := s ++ [0].

Definition byte (b : Z) : Prop := 0 <= b < 256.

Definition nul_free (s : list Z) : Prop := Forall (fun c => c <> 0) s.

(** Conversion to [unsigned char]. *)
Definition u8 (z : Z) : Z := z mod 256.

(** [strlen(s + p)] and [strchr(s + p, c)], the latter as an offset. *)
Fixpoint strlen_from (s : list Z) : res Z :=
  match s with
  | [] => Fail OutOfBounds
  | c :: s => if c =? 0 then Ok 0 else let* n := strlen_from s in Ok (n + 1)
  end.

Definition strlen (s : list Z) (p : Z) : res Z :=
  let* _ := demand ((0 <=? p) && (p <=? zlen s)) OutOfBounds in
  strlen_from (drop (Z.to_nat p) s).

Fixpoint strchr (s : list Z) (c : Z) : res (option Z) :=
  match s with
  | [] => Fail OutOfBounds
  | x :: s =>
      if x =? c then Ok (Some 0)
      else if x =? 0 then Ok None
      else let* r := strchr s c in Ok (Z.succ <$> r)
  end.

(** [isspace] and [isdigit] of the C locale, for an unsigned char. *)
Definition isspace (c : Z) : bool := (c =? 32) || ((9 <=? c) && (c <=? 13)).

Section reading.
Implicit Types (s pre post : list Z).

Lemma zlen_cstr s : zlen (cstr s) = zlen s + 1.
Proof. unfold cstr. by rewrite zlen_snoc. Qed.

Lemma rd_cstr_mid pre c post i : zlen pre = i -> rd (cstr (pre ++ c :: post)) i = Ok c.
Proof.
  intros <-. unfold cstr. rewrite <- app_assoc. simpl. pose proof (zlen_nonneg pre).
  rewrite rd_Ok; [by rewrite aget_middle|]. rewrite zlen_app, zlen_cons. pose proof (zlen_nonneg (post ++ [0])). lia.
Qed.

Lemma rd_cstr_end s i : zlen s = i -> rd (cstr s) i = Ok 0.
Proof.
  intros <-. unfold cstr. pose proof (zlen_nonneg s). rewrite rd_Ok; [by rewrite aget_middle|].
  rewrite zlen_snoc. lia.
Qed.

Lemma rd_cstr_before s i : i < 0 -> rd (cstr s) i = Fail OutOfBounds.
Proof. intros Hi. unfold rd, in_range. by rewrite (proj2 (Z.leb_gt 0 i)). Qed.

(** The character at the head of what is left, the terminator at the end. *)
Definition head_char post : Z := match post with c :: _ => c | [] => 0 end.

Lemma rd_cstr pre post i : zlen pre = i -> rd (cstr (pre ++ post)) i = Ok (head_char post).
Proof.
  intros Hi. destruct post as [|c post]; [|by apply rd_cstr_mid]. rewrite app_nil_r. by apply rd_cstr_end.
Qed.

Lemma rd_cstr_first s : rd (cstr s) 0 = Ok (head_char s).
Proof. by apply (rd_cstr []). Qed.

Lemma strlen_from_cstr s : nul_free s -> strlen_from (cstr s) = Ok (zlen s).
Proof.
  induction 1 as [|c s Hc Hs IH]; [done|]. simpl. rewrite (proj2 (Z.eqb_neq c 0) Hc).
  unfold cstr in IH. rewrite IH. simpl. by rewrite zlen_cons.
Qed.

Lemma strlen_cstr pre post :
  nul_free post -> strlen (cstr (pre ++ post)) (zlen pre) = Ok (zlen post).
Proof.
  intros Hn. unfold strlen, demand. pose proof (zlen_nonneg pre). pose proof (zlen_nonneg post).
  rewrite (proj2 (Z.leb_le 0 _)), (proj2 (Z.leb_le _ (zlen (cstr _)))) by (rewrite ?zlen_cstr, ?zlen_app; lia).
  simpl. unfold cstr, zlen. rewrite Nat2Z.id, <- app_assoc, drop_app_length. by apply strlen_from_cstr.
Qed.

Lemma strchr_cstr s c :
  nul_free s -> c <> 0 -> strchr (cstr s) c = Ok (Z.of_nat ∘ fst <$> list_find (fun x => x = c) s).
Proof.
  intros Hn Hc. induction Hn as [|x s Hx Hs IH]; unfold cstr in *; cbn [app strchr list_find].
  { by rewrite (proj2 (Z.eqb_neq 0 c)) by done. }
  destruct (Z.eqb_spec x c) as [->|Hxc]; [by rewrite decide_True|].
  rewrite decide_False by done. rewrite (proj2 (Z.eqb_neq x 0) Hx). rewrite IH. simpl.
  destruct (list_find (fun x => x = c) s) as [[i y]|]; simpl; [|done]. do 2 f_equal. lia.
Qed.
End reading.

(** Reads at the head of what is left of a string. *)
Ltac rd_step :=
  match goal with
  | H : zlen ?pre = ?i |- context [rd (cstr (?pre ++ ?post)) ?i] => rewrite (rd_cstr pre post i H); cbn [bind head_char]
  end.

(** Case analysis on the tests of a character in the goal, closing the cases
    [tac] can. *)
Ltac char_cases c tac :=
  repeat match goal with
  | |- context [c =? ?x] => destruct (Z.eqb_spec c x) as [->|]; [try solve [tac]|]
  end.
