(* ===== verification/ModeChange.v ===== *)
(** * File modes: utils/coreutils/lib/modechange.c

    mode_compile turns the argument of [mkdir -m] and its like into an array of
    changes, mode_adjust applies the array to a mode.  The string is indexed as
    in the C code, so a step before its start is a fault; the array of changes
    has the size the code allocates.  [mode_t] is a 32-bit unsigned int.
    [mem] says whether the allocation of the call succeeds. *)

From S2P Require Import Prelude Arrays CStrings.
Open Scope Z_scope.

(** ** Constants *)

(** modechange.h: the traditional octal values. *)
Definition SUID : Z := 2048.
Definition SGID : Z := 1024.
Definition SVTX : Z := 512.
Definition RUSR : Z := 256.
Definition WUSR : Z := 128.
Definition XUSR : Z := 64.
Definition RGRP : Z := 32.
Definition WGRP : Z := 16.
Definition XGRP : Z := 8.
Definition ROTH : Z := 4.
Definition WOTH : Z := 2.
Definition XOTH : Z := 1.
Definition ALLM : Z := 4095.

(** sys/stat.h of the host. *)
Definition S_ISUID : Z := 2048.
Definition S_ISGID : Z := 1024.
Definition S_ISVTX : Z := 512.
Definition S_IRUSR : Z := 256.
Definition S_IWUSR : Z := 128.
Definition S_IXUSR : Z := 64.
Definition S_IRGRP : Z := 32.
Definition S_IWGRP : Z := 16.
Definition S_IXGRP : Z := 8.
Definition S_IROTH : Z := 4.
Definition S_IWOTH : Z := 2.
Definition S_IXOTH : Z := 1.
Definition S_IRWXU : Z := 448.
Definition S_IRWXG : Z := 56.
Definition S_IRWXO : Z := 7.

Infix ".|" := Z.lor (at level 50, left associativity) : code_scope.
Infix ".&" := Z.land (at level 40, left associativity) : code_scope.

(** [~x] of a mode_t *)
Definition compl (x : Z) : Z := u32 (Z.lnot x).

Definition S_IRWXUGO : Z := S_IRWXU .| S_IRWXG .| S_IRWXO.
Definition CHMOD_MODE_BITS : Z := S_ISUID .| S_ISGID .| S_ISVTX .| S_IRWXU .| S_IRWXG .| S_IRWXO.

Definition R_ALL : Z := S_IRUSR .| S_IRGRP .| S_IROTH.
Definition W_ALL : Z := S_IWUSR .| S_IWGRP .| S_IWOTH.
Definition X_ALL : Z := S_IXUSR .| S_IXGRP .| S_IXOTH.

Inductive change_flag := MODE_DONE | MODE_ORDINARY_CHANGE | MODE_X_IF_ANY_X | MODE_COPY_EXISTING.

Record mode_change :=
  Change { op : Z; flag : change_flag; affected : Z; value : Z; mentioned : Z }.

(** The array of changes; [None] is a cell not yet written. *)
Definition changes_t : Type := list (option mode_change).

(** [mc[used].flag = MODE_DONE]: the other fields of the sentinel are not
    read. *)
Definition sentinel : mode_change := Change 0 MODE_DONE 0 0 0.

(** [octal & bit ? mode : 0] *)
Definition bit_to (octal bit mode : Z) : Z := if negb (octal .& bit =? 0) then mode else 0.

Definition octal_to_mode (octal : Z) : Z :=
  if (S_ISUID =? SUID) && (S_ISGID =? SGID) && (S_ISVTX =? SVTX)
     && (S_IRUSR =? RUSR) && (S_IWUSR =? WUSR) && (S_IXUSR =? XUSR)
     && (S_IRGRP =? RGRP) && (S_IWGRP =? WGRP) && (S_IXGRP =? XGRP)
     && (S_IROTH =? ROTH) && (S_IWOTH =? WOTH) && (S_IXOTH =? XOTH)
  then octal
  else bit_to octal SUID S_ISUID .| bit_to octal SGID S_ISGID .| bit_to octal SVTX S_ISVTX
       .| bit_to octal RUSR S_IRUSR .| bit_to octal WUSR S_IWUSR .| bit_to octal XUSR S_IXUSR
       .| bit_to octal RGRP S_IRGRP .| bit_to octal WGRP S_IWGRP .| bit_to octal XGRP S_IXGRP
       .| bit_to octal ROTH S_IROTH .| bit_to octal WOTH S_IWOTH .| bit_to octal XOTH S_IXOTH.

(** ** mode_compile *)

(** xmalloc leaves the program when there is no memory. *)
Definition xmalloc (mem : bool) : res unit := demand mem (ExitCall 1).

Definition make_node_op_equals (mem : bool) (new_mode mentioned : Z) : res changes_t :=
  let* _ := xmalloc mem in
  Ok [Some (Change (ch "=") MODE_ORDINARY_CHANGE CHMOD_MODE_BITS new_mode mentioned); Some sentinel].

Definition is_octal (c : Z) : bool := (ch "0" <=? c) && (c <? ch "8").
Definition is_op (c : Z) : bool := (c =? ch "=") || (c =? ch "+") || (c =? ch "-").

(** The octal number at [p]: [inr None] when it is above ALLM. *)
Definition octal_turn (s : list Z) (st : Z * Z) : res (Z * Z + option (Z * Z)) :=
  let '(octal_mode, p) := st in
  let* c := rd s p in
  let octal_mode := u32 (8 * octal_mode + c - ch "0") in
  let p := p + 1 in
  if ALLM <? octal_mode then Ok (inr None)
  else
    let* c := rd s p in
    if is_octal c then Ok (inl (octal_mode, p)) else Ok (inr (Some (octal_mode, p))).

Definition scan_octal (s : list Z) (p : Z) : res (option (Z * Z)) :=
  loop (length s) (octal_turn s) (0, p).

(** The groups at [p] up to an operator; [None] is [goto invalid]. *)
Definition affected_turn (s : list Z) (st : Z * Z) : res (Z * Z + option (Z * Z)) :=
  let '(affected, p) := st in
  let* c := rd s p in
  if c =? ch "u" then Ok (inl (affected .| (S_ISUID .| S_IRWXU), p + 1))
  else if c =? ch "g" then Ok (inl (affected .| (S_ISGID .| S_IRWXG), p + 1))
  else if c =? ch "o" then Ok (inl (affected .| (S_ISVTX .| S_IRWXO), p + 1))
  else if c =? ch "a" then Ok (inl (affected .| CHMOD_MODE_BITS, p + 1))
  else if is_op c then Ok (inr (Some (affected, p)))
  else Ok (inr None).

Definition scan_affected (s : list Z) (p : Z) : res (option (Z * Z)) :=
  loop (length s) (affected_turn s) (0, p).

(** The permissions from [p] on. *)
Definition value_turn (s : list Z) (st : Z * change_flag * Z)
    : res (Z * change_flag * Z + Z * change_flag * Z) :=
  let '(value, flag, p) := st in
  let* c := rd s p in
  if c =? ch "r" then Ok (inl (value .| R_ALL, flag, p + 1))
  else if c =? ch "w" then Ok (inl (value .| W_ALL, flag, p + 1))
  else if c =? ch "x" then Ok (inl (value .| X_ALL, flag, p + 1))
  else if c =? ch "X" then Ok (inl (value, MODE_X_IF_ANY_X, p + 1))
  else if c =? ch "s" then Ok (inl (value .| (S_ISUID .| S_ISGID), flag, p + 1))
  else if c =? ch "t" then Ok (inl (value .| S_ISVTX, flag, p + 1))
  else Ok (inr (value, flag, p)).

Definition scan_value (s : list Z) (p : Z) : res (Z * change_flag * Z) :=
  loop (S (length s)) (value_turn s) (0, MODE_ORDINARY_CHANGE, p).

(** One turn of the do loop: the change written at [p] and where it ends. *)
Definition one_change (s : list Z) (affected p : Z) : res (mode_change * Z) :=
  let* op := rd s p in
  let* c := rd s p in
  let* (value, flag, p) :=
    if c =? ch "u" then Ok (S_IRWXU, MODE_COPY_EXISTING, p)
    else if c =? ch "g" then Ok (S_IRWXG, MODE_COPY_EXISTING, p)
    else if c =? ch "o" then Ok (S_IRWXO, MODE_COPY_EXISTING, p)
    else scan_value s (p - 1) in
  let mentioned := if negb (affected =? 0) then affected .& value else value in
  Ok (Change op flag affected value mentioned, p).

(** The array, the cells in use and the position. *)
Definition scan_state : Type := changes_t * Z * Z.

(** The do loop; every turn fills a cell of [mc]. *)
Definition changes_turn (s : list Z) (affected : Z) (st : scan_state) : res (scan_state + scan_state) :=
  let '(mc, used, p) := st in
  let* (change, p) := one_change s affected p in
  let* mc := wr mc used (Some change) in
  let used := used + 1 in
  let* c := rd s p in
  if is_op c then Ok (inl (mc, used, p)) else Ok (inr (mc, used, p)).

Definition scan_changes (s : list Z) (affected : Z) (st : scan_state) : res scan_state :=
  loop (S (length (fst (fst st)))) (changes_turn s affected) st.

(** The outer loop; [inr None] is [goto invalid]. *)
Definition clause_turn (s : list Z) (st : scan_state) : res (scan_state + option scan_state) :=
  let '(mc, used, p) := st in
  let* a := scan_affected s p in
  match a with
  | None => Ok (inr None)
  | Some (affected, p) =>
      let* (mc, used, p) := scan_changes s affected (mc, used, p) in
      let* c := rd s p in
      if c =? ch "," then Ok (inl (mc, used, p + 1)) else Ok (inr (Some (mc, used, p)))
  end.

Definition scan_clauses (s : list Z) (mc : changes_t) : res (option scan_state) :=
  loop (S (length mc)) (clause_turn s) (mc, 0, 0).

(** [needed]: one cell per operator and one for the sentinel. *)
Fixpoint count_ops (s : list Z) : nat :=
  match s with
  | [] => 0
  | c :: s => if c =? 0 then 0 else (if is_op c then 1 else 0) + count_ops s
  end.

(** [None] is the NULL result. *)
Definition mode_compile (mem : bool) (s : list Z) : res (option changes_t) :=
  let* c := rd s 0 in
  if is_octal c then
    let* o := scan_octal s 0 in
    match o with
    | None => Ok None
    | Some (octal_mode, p) =>
        let* c := rd s p in
        if negb (c =? 0) then Ok None
        else
          let mode := octal_to_mode octal_mode in
          let mentioned := (mode .& (S_ISUID .| S_ISGID)) .| S_ISVTX .| S_IRWXUGO in
          let* mc := make_node_op_equals mem mode mentioned in
          Ok (Some mc)
    end
  else
    let* _ := xmalloc mem in
    let* r := scan_clauses s (replicate (1 + count_ops s) None) in
    match r with
    | None => Ok None
    | Some (mc, used, p) =>
        let* c := rd s p in
        if c =? 0 then
          let* mc := wr mc used (Some sentinel) in
          Ok (Some mc)
        else Ok None
    end.

(** ** mode_adjust *)

(** [changes[i]] *)
Definition change_at (changes : changes_t) (i : Z) : res mode_change :=
  let* c := rd changes i in
  match c with Some c => Ok c | None => Fail Uninit end.

Definition b2z (b : bool) : Z := if b then 1 else 0.

(** One change applied to newmode and mode_bits. *)
Definition apply_change (dir : bool) (umask_value : Z) (c : mode_change) (newmode mode_bits : Z) : Z * Z :=
  let aff := affected c in
  let omit_change := (if dir then S_ISUID .| S_ISGID else 0) .& compl (mentioned c) in
  let v := match flag c with
           | MODE_COPY_EXISTING =>
               let v := value c .& newmode in
               v .| (bit_to v R_ALL R_ALL .| bit_to v W_ALL W_ALL .| bit_to v X_ALL X_ALL)
           | MODE_X_IF_ANY_X =>
               if negb ((newmode .& X_ALL) .| b2z dir =? 0) then value c .| X_ALL else value c
           | _ => value c
           end in
  let v := v .& ((if negb (aff =? 0) then aff else compl umask_value) .& compl omit_change) in
  if op c =? ch "=" then
    let preserved := (if negb (aff =? 0) then compl aff else 0) .| omit_change in
    ((newmode .& preserved) .| v, mode_bits .| (CHMOD_MODE_BITS .& compl preserved))
  else if op c =? ch "+" then (v, mode_bits .| v)
  else if op c =? ch "-" then (newmode .& compl v, mode_bits .| v)
  else (newmode, mode_bits).

Definition adjust_turn (dir : bool) (umask_value : Z) (changes : changes_t) (st : Z * Z * Z)
    : res (Z * Z * Z + Z * Z) :=
  let '(i, newmode, mode_bits) := st in
  let* c := change_at changes i in
  match flag c with
  | MODE_DONE => Ok (inr (newmode, mode_bits))
  | _ =>
      let '(newmode, mode_bits) := apply_change dir umask_value c newmode mode_bits in
      Ok (inl (i + 1, newmode, mode_bits))
  end.

(** The new mode and the mask stored through PMODE_BITS. *)
Definition mode_adjust (oldmode : Z) (dir : bool) (umask_value : Z) (changes : changes_t) : res (Z * Z) :=
  loop (length changes) (adjust_turn dir umask_value changes) (0, oldmode .& CHMOD_MODE_BITS, 0).

(** ** Applying a list of changes *)

(** A compiled array: changes, the sentinel, cells that were not needed. *)
Definition array_of (cs : list mode_change) (junk : changes_t) : changes_t := map Some cs ++ Some sentinel :: junk.

Definition apply_all (dir : bool) (um : Z) (cs : list mode_change) (mb : Z * Z) : Z * Z :=
  fold_left (fun '(m, b) c => apply_change dir um c m b) cs mb.

Lemma change_at_mid pre c post i : zlen pre = i -> change_at (pre ++ Some c :: post) i = Ok c.
Proof.
  intros <-. unfold change_at. pose proof (zlen_nonneg pre). pose proof (zlen_nonneg post).
  rewrite rd_Ok; [by rewrite aget_middle|]. rewrite zlen_app, zlen_cons. lia.
Qed.

Lemma adjust_run dir um junk cs : Forall (fun c => flag c <> MODE_DONE) cs -> forall pre fuel m b,
  (length cs < fuel)%nat ->
  loop fuel (adjust_turn dir um (pre ++ array_of cs junk)) (zlen pre, m, b) = Ok (apply_all dir um cs (m, b)).
Proof.
  unfold array_of. induction 1 as [|c cs Hc Hcs IH]; intros pre [|fuel] m b Hf; simpl in Hf; try lia;
    cbn [loop map app]; unfold adjust_turn at 1; rewrite change_at_mid by done; cbn [bind]; [done|].
  unfold apply_all. cbn [fold_left]. destruct (apply_change dir um c m b) as [m' b'].
  destruct (flag c); try done; cbn [bind];
    replace (pre ++ Some c :: map Some cs ++ Some sentinel :: junk)
      with ((pre ++ [Some c]) ++ map Some cs ++ Some sentinel :: junk) by (by rewrite <- app_assoc);
    rewrite <- (zlen_snoc (Some c)); apply IH; lia.
Qed.

Lemma mode_adjust_fold old dir um cs junk :
  Forall (fun c => flag c <> MODE_DONE) cs ->
  mode_adjust old dir um (array_of cs junk) = Ok (apply_all dir um cs (old .& CHMOD_MODE_BITS, 0)).
Proof.
  intros Hcs. unfold mode_adjust. apply (adjust_run dir um junk cs Hcs []).
  unfold array_of. rewrite length_app, length_map. simpl. lia.
Qed.

(** ** Octal modes *)

Definition octal_value (acc : Z) (ds : list Z) : Z := fold_left (fun a c => 8 * a + c - ch "0") ds acc.

Lemma is_octal_spec c : is_octal c = true <-> 48 <= c < 56.
Proof. unfold is_octal. rewrite andb_true_iff, Z.leb_le, Z.ltb_lt. done. Qed.

Lemma octal_value_ge ds : Forall (fun c => is_octal c = true) ds -> forall acc, 0 <= acc -> acc <= octal_value acc ds.
Proof.
  induction 1 as [|c ds Hc Hds IH]; intros acc Hacc; [simpl; lia|]. apply is_octal_spec in Hc.
  cbn [octal_value fold_left]. specialize (IH (8 * acc + c - 48)). unfold octal_value in IH. lia.
Qed.

Lemma scan_octal_run rest : is_octal (head_char rest) = false -> forall ds c pre fuel acc,
  Forall (fun c => is_octal c = true) (c :: ds) -> 0 <= acc <= ALLM -> (length ds < fuel)%nat ->
  loop fuel (octal_turn (cstr (pre ++ (c :: ds) ++ rest))) (acc, zlen pre) =
  Ok (if ALLM <? octal_value acc (c :: ds) then None
      else Some (octal_value acc (c :: ds), zlen (pre ++ c :: ds))).
Proof.
  intros Hrest. induction ds as [|d ds IH]; intros c pre [|fuel] acc Hds Hacc Hf; simpl in Hf; try lia;
    apply Forall_cons in Hds as [Hc Hds]; apply is_octal_spec in Hc; cbn [loop]; unfold octal_turn at 1;
    rewrite rd_cstr by done; cbn [bind head_char app];
    unfold u32; rewrite Z.mod_small by (unfold ALLM in *; lia).
  - cbn [octal_value fold_left]. destruct (Z.ltb_spec ALLM (8 * acc + c - 48)); [done|].
    replace (pre ++ c :: rest) with ((pre ++ [c]) ++ rest) by (by rewrite <- app_assoc).
    rewrite rd_cstr by (by rewrite zlen_snoc). cbn [bind]. rewrite Hrest. cbn [bind]. by rewrite zlen_snoc.
  - set (acc' := 8 * acc + c - 48).
    change (octal_value acc (c :: d :: ds)) with (octal_value acc' (d :: ds)).
    pose proof (octal_value_ge (d :: ds) Hds acc' ltac:(lia)).
    destruct (Z.ltb_spec ALLM acc').
    { rewrite (proj2 (Z.ltb_lt ALLM (octal_value _ _))) by lia. done. }
    replace (pre ++ c :: d :: ds ++ rest) with ((pre ++ [c]) ++ (d :: ds) ++ rest) by (by rewrite <- app_assoc).
    rewrite rd_cstr by (by rewrite zlen_snoc). cbn [bind head_char app].
    pose proof (proj1 (proj1 (Forall_cons _ _ _) Hds)) as Hd. cbn beta in Hd. rewrite Hd. cbn [bind].
    rewrite <- (zlen_snoc c). change (d :: ds ++ rest) with ((d :: ds) ++ rest). rewrite IH by (done || lia). rewrite <- app_assoc. done.
Qed.

Definition octal_change (v : Z) : mode_change :=
  Change (ch "=") MODE_ORDINARY_CHANGE CHMOD_MODE_BITS v ((v .& (S_ISUID .| S_ISGID)) .| S_ISVTX .| S_IRWXUGO).

Lemma mode_compile_octal ds rest :
  ds <> [] -> Forall (fun c => is_octal c = true) ds -> is_octal (head_char rest) = false -> nul_free rest ->
  mode_compile true (cstr (ds ++ rest)) =
  Ok (if decide (rest = [] /\ octal_value 0 ds <= ALLM) then Some (array_of [octal_change (octal_value 0 ds)] []) else None).
Proof.
  intros Hne Hds Hrest Hnf. destruct ds as [|c ds]; [done|]. unfold mode_compile.
  pose proof (proj1 (proj1 (Forall_cons _ _ _) Hds)) as Hc.
  change ((c :: ds) ++ rest) with ([] ++ (c :: ds) ++ rest). rewrite rd_cstr by done. cbn [bind head_char app].
  rewrite Hc. unfold scan_octal.
  rewrite (scan_octal_run rest Hrest ds c []) by (done || (unfold ALLM; lia) || (unfold cstr; simpl; rewrite !length_app; lia)).
  cbn [bind app]. destruct (Z.ltb_spec ALLM (octal_value 0 (c :: ds))).
  { rewrite decide_False by lia. done. }
  change (c :: ds ++ rest) with ((c :: ds) ++ rest). rewrite rd_cstr by done. cbn [bind].
  destruct rest as [|d rest].
  - rewrite decide_True by done. done.
  - rewrite decide_False by naive_solver. cbn [head_char]. apply Forall_cons in Hnf as [Hd _].
    by rewrite (proj2 (Z.eqb_neq d 0) Hd).
Qed.

(** The set-id bits a directory keeps: those the mode does not mention. *)
Definition kept (dir : bool) (v : Z) : Z := if dir then (S_ISUID .| S_ISGID) .& compl v else 0.

(** A fact on every mode, by evaluation. *)
Lemma every_mode (P : Z -> bool) : forallb P (seqZ 0 4096) = true -> forall v, 0 <= v <= ALLM -> P v = true.
Proof. intros H v Hv. rewrite forallb_forall in H. apply H, list_elem_of_In, elem_of_seqZ. unfold ALLM in *. lia. Qed.

Lemma octal_omitted (dir : bool) v : 0 <= v <= ALLM ->
  ((if dir then S_ISUID .| S_ISGID else 0) .& compl ((v .& (S_ISUID .| S_ISGID)) .| S_ISVTX .| S_IRWXUGO)) = kept dir v.
Proof.
  intros Hv. destruct dir; [|done]. apply Z.eqb_eq.
  apply (every_mode (fun v => (S_ISUID .| S_ISGID) .& compl ((v .& (S_ISUID .| S_ISGID)) .| S_ISVTX .| S_IRWXUGO)
    =? kept true v)); [vm_compute; reflexivity|done].
Qed.

Lemma octal_value_kept dir v : 0 <= v <= ALLM -> v .& (CHMOD_MODE_BITS .& compl (kept dir v)) = v.
Proof.
  intros Hv. apply Z.eqb_eq.
  apply (every_mode (fun v => v .& (CHMOD_MODE_BITS .& compl (kept dir v)) =? v)); [|done].
  destruct dir; vm_compute; reflexivity.
Qed.

Lemma kept_bits dir v : 0 <= v <= ALLM ->
  CHMOD_MODE_BITS .& kept dir v = kept dir v /\
  CHMOD_MODE_BITS .& compl (compl CHMOD_MODE_BITS .| kept dir v) = CHMOD_MODE_BITS .& compl (kept dir v).
Proof.
  intros Hv. split; apply Z.eqb_eq.
  - apply (every_mode (fun v => CHMOD_MODE_BITS .& kept dir v =? kept dir v)); [|done].
    destruct dir; vm_compute; reflexivity.
  - apply (every_mode (fun v => CHMOD_MODE_BITS .& compl (compl CHMOD_MODE_BITS .| kept dir v) =?
      CHMOD_MODE_BITS .& compl (kept dir v))); [|done].
    destruct dir; vm_compute; reflexivity.
Qed.

Lemma mode_adjust_octal old dir um v : 0 <= v <= ALLM ->
  mode_adjust old dir um (array_of [octal_change v] []) =
  Ok (v .| (old .& kept dir v), CHMOD_MODE_BITS .& compl (kept dir v)).
Proof.
  intros Hv. rewrite mode_adjust_fold by (by constructor). f_equal. unfold apply_all. cbn [fold_left].
  unfold apply_change, octal_change. cbn [affected op value mentioned flag]. rewrite octal_omitted by done.
  change (CHMOD_MODE_BITS =? 0) with false. change (ch "=" =? ch "=") with true. cbn [negb].
  rewrite octal_value_kept by done. destruct (kept_bits dir v Hv) as [Hk1 Hk2].
  rewrite Hk2, Z.lor_0_l. f_equal. rewrite Z.land_lor_distr_r, <- !Z.land_assoc, Hk1.
  change (CHMOD_MODE_BITS .& compl CHMOD_MODE_BITS) with 0. rewrite Z.land_0_r, Z.lor_0_l. apply Z.lor_comm.
Qed.

(** ** Symbolic modes *)

Definition is_group (c : Z) : bool := (c =? ch "u") || (c =? ch "g") || (c =? ch "o") || (c =? ch "a").

(** A group is skipped, anything else but an operator is invalid. *)
Lemma affected_turn_group s aff p c :
  rd s p = Ok c -> is_group c = true -> exists aff', affected_turn s (aff, p) = Ok (inl (aff', p + 1)).
Proof.
  intros Hc Hg. unfold affected_turn, is_group in *. rewrite Hc. cbn [bind].
  char_cases c ltac:(by eexists). done.
Qed.

Lemma affected_turn_stop s aff p c :
  rd s p = Ok c -> is_group c = false ->
  affected_turn s (aff, p) = Ok (inr (if is_op c then Some (aff, p) else None)).
Proof.
  intros Hc Hg. unfold affected_turn, is_group in *. rewrite Hc. cbn [bind].
  apply orb_false_iff in Hg as [[[-> ->]%orb_false_iff ->]%orb_false_iff ->]. by destruct (is_op c).
Qed.

Lemma scan_affected_run rest : is_group (head_char rest) = false -> forall g pre fuel aff,
  Forall (fun c => is_group c = true) g -> (length g < fuel)%nat ->
  exists aff', loop fuel (affected_turn (cstr (pre ++ g ++ rest))) (aff, zlen pre) =
    Ok (if is_op (head_char rest) then Some (aff', zlen (pre ++ g)) else None).
Proof.
  intros Hrest. induction g as [|c g IH]; intros pre [|fuel] aff Hg Hf; simpl in Hf; try lia; cbn [loop app].
  - exists aff. rewrite affected_turn_stop with (c := head_char rest) by (done || by apply rd_cstr).
    cbn [bind]. by rewrite app_nil_r.
  - apply Forall_cons in Hg as [Hc Hg].
    destruct (affected_turn_group (cstr (pre ++ c :: g ++ rest)) aff (zlen pre) c) as [aff' ->];
      [by apply rd_cstr_mid|done|]. cbn [bind].
    destruct (IH (pre ++ [c]) fuel aff' Hg) as [aff'' H]; [lia|]. rewrite zlen_snoc, <- !app_assoc in H. by exists aff''.
Qed.

(** The permissions are looked for from the character before the operator. *)
Lemma one_change_before s aff p o :
  rd s p = Ok o -> is_op o = true ->
  one_change s aff p =
  let* (value, flag, p) := scan_value s (p - 1) in
  Ok (Change o flag aff value (if negb (aff =? 0) then aff .& value else value), p).
Proof.
  intros Ho Hop. unfold one_change. rewrite Ho. cbn [bind]. unfold is_op in Hop. revert Hop.
  char_cases o ltac:(done). done.
Qed.

Lemma scan_value_group s p c :
  rd s p = Ok c -> is_group c = true -> scan_value s p = Ok (0, MODE_ORDINARY_CHANGE, p).
Proof.
  intros Hc Hg. unfold scan_value. cbn [loop]. unfold value_turn at 1. rewrite Hc. cbn [bind]. char_cases c ltac:(done). done.
Qed.

Lemma group_not c : is_group c = true -> is_op c = false /\ (c =? ch ",") = false /\ (c =? 0) = false.
Proof.
  unfold is_group, is_op. char_cases c ltac:(done). done.
Qed.

Lemma count_ops_cstr s : count_ops (cstr s) = count_ops s.
Proof.
  unfold cstr. induction s as [|c s IH]; [done|]. cbn [app count_ops]. rewrite IH. done.
Qed.

Lemma span_groups s :
  exists g rest, s = g ++ rest /\ Forall (fun c => is_group c = true) g /\ is_group (head_char rest) = false.
Proof.
  induction s as [|c s (g & rest & -> & Hg & Hr)]; [by exists [], []|].
  destruct (is_group c) eqn:Hc; [exists (c :: g), rest | exists [], (c :: g ++ rest)]; split_and!; auto.
Qed.

(** No symbolic mode is ever compiled. *)
Lemma mode_compile_symbolic s :
  is_octal (head_char s) = false ->
  mode_compile true (cstr s) = if is_op (head_char s) then Fail OutOfBounds else Ok None.
Proof.
  intros Hoct. unfold mode_compile. change s with ([] ++ s) at 1. rewrite rd_cstr by done. cbn [bind].
  rewrite Hoct. cbn [bind xmalloc demand]. unfold scan_clauses. cbn [replicate Nat.add length loop].
  destruct (span_groups s) as (g & rest & -> & Hg & Hrest). unfold clause_turn at 1. unfold scan_affected.
  destruct (scan_affected_run rest Hrest g [] (length (cstr (g ++ rest))) 0 Hg) as [aff Ha].
  { unfold cstr. rewrite !length_app. simpl. lia. }
  cbn [app] in Ha. change (zlen []) with 0 in Ha. rewrite Ha. cbn [bind]. clear Ha.
  destruct (exists_last_or g) as [->|(g' & c & ->)].
  - cbn [app]. destruct (is_op (head_char rest)) eqn:Hop; [|done]. cbn [bind]. change (zlen []) with 0.
    unfold scan_changes. cbn [loop fst length]. unfold changes_turn at 1.
    rewrite (one_change_before _ _ _ (head_char rest)) by (done || by apply (rd_cstr [])).
    unfold scan_value. cbn [loop]. unfold value_turn at 1. by rewrite rd_cstr_before by lia.
  - assert (is_op (head_char ((g' ++ [c]) ++ rest)) = false) as ->.
    { apply group_not. destruct g' as [|d g']; apply Forall_cons in Hg as [Hd _]; exact Hd. }
    apply Forall_app in Hg as [_ [Hc _]%Forall_cons]. destruct (group_not c Hc) as (Hc1 & Hc2 & Hc3).
    destruct (is_op (head_char rest)) eqn:Hop; [|done]. cbn [bind].
    assert (rd (cstr ((g' ++ [c]) ++ rest)) (zlen g') = Ok c) as Hrd.
    { rewrite <- app_assoc. by apply rd_cstr_mid. }
    unfold scan_changes. cbn [loop fst length]. unfold changes_turn at 1.
    rewrite (one_change_before _ _ _ (head_char rest)) by (done || by apply rd_cstr). rewrite zlen_snoc, Z.add_simpl_r.
    rewrite (scan_value_group _ _ c) by done. cbn [bind]. 
    rewrite wr_Ok by (pose proof (zlen_nonneg (replicate (count_ops (cstr ((g' ++ [c]) ++ rest))) (@None mode_change)));
      rewrite zlen_cons; lia). cbn [bind].
    rewrite Hrd. cbn [bind]. rewrite Hc1. cbn [bind]. rewrite Hrd. cbn [bind]. rewrite Hc2. cbn [bind].
    rewrite Hrd. cbn [bind]. by rewrite Hc3.
Qed.

(** ** What mode_adjust touches *)

Lemma compl_bit x i : 0 <= i < 32 -> Z.testbit (compl x) i = negb (Z.testbit x i).
Proof.
  intros Hi. unfold compl, u32. change 4294967296 with (2 ^ 32). rewrite Z.mod_pow2_bits_low by lia.
  apply Z.lnot_spec. lia.
Qed.

(** Only file mode bits. *)
Definition file_bits (x : Z) : Prop := x .& CHMOD_MODE_BITS = x.

Lemma file_bits_land x y : file_bits x -> file_bits (x .& y).
Proof. unfold file_bits. intros Hx. by rewrite <- Z.land_assoc, (Z.land_comm y), Z.land_assoc, Hx. Qed.

Lemma file_bits_land_r x y : file_bits y -> file_bits (x .& y).
Proof. rewrite Z.land_comm. apply file_bits_land. Qed.

Lemma file_bits_lor x y : file_bits x -> file_bits y -> file_bits (x .| y).
Proof. unfold file_bits. intros Hx Hy. by rewrite Z.land_lor_distr_l, Hx, Hy. Qed.

Lemma file_bits_bit_to v m : file_bits m -> file_bits (bit_to v m m).
Proof. intros Hm. unfold bit_to. by destruct (negb _). Qed.

#[local] Hint Resolve file_bits_land file_bits_lor file_bits_bit_to : code.
#[local] Hint Extern 1 (file_bits ?m) => (unify m R_ALL + unify m W_ALL + unify m X_ALL + unify m CHMOD_MODE_BITS + unify m 0); reflexivity : code.

Lemma apply_change_bits dir um c m b :
  file_bits (value c) -> file_bits m -> file_bits b ->
  file_bits (apply_change dir um c m b).1 /\ file_bits (apply_change dir um c m b).2.
Proof.
  intros Hv Hm Hb. unfold apply_change.
  match goal with |- context [?v .& ((if negb (affected c =? 0) then affected c else _) .& _)] =>
    assert (file_bits v) as Hv' by (destruct (flag c); try destruct (negb _); eauto 8 with code); revert Hv'; generalize v end.
  intros v Hv'. repeat destruct (op c =? _); simpl; split; eauto with code.
Qed.

(** Outside the reported bits the two modes agree. *)
Definition agree (b m0 m : Z) : Prop :=
  forall i, 0 <= i < 12 -> Z.testbit b i = false -> Z.testbit m i = Z.testbit m0 i.

Lemma apply_change_agree dir um c m0 m b :
  op c <> ch "+" -> agree b m0 m -> agree (apply_change dir um c m b).2 m0 (apply_change dir um c m b).1.
Proof.
  intros Hop Hag. unfold apply_change.
  match goal with |- context [?v .& ((if negb (affected c =? 0) then affected c else _) .& _)] => generalize v end.
  intros v i Hi. rewrite (proj2 (Z.eqb_neq _ _) Hop).
  assert (Z.testbit CHMOD_MODE_BITS i = true) as Hall.
  { assert (i = 0 \/ i = 1 \/ i = 2 \/ i = 3 \/ i = 4 \/ i = 5 \/ i = 6 \/ i = 7 \/ i = 8 \/ i = 9 \/ i = 10 \/ i = 11)
      as Hcs by lia. by repeat destruct Hcs as [->|Hcs]; subst. }
  specialize (Hag i Hi).
  destruct (op c =? ch "="); [|destruct (op c =? ch "-")]; simpl.
  - rewrite ?Z.lor_spec, ?Z.land_spec, ?compl_bit, ?Hall by lia. intros [Hb Hp]%orb_false_iff. rewrite Hag by done. simpl in Hp. apply negb_false_iff in Hp. revert Hp.
    destruct (negb (affected c =? 0)); rewrite ?Z.lor_spec, ?Z.land_spec, ?compl_bit, ?Z.bits_0 by lia; simpl;
      repeat match goal with |- context [Z.testbit ?x i] => destruct (Z.testbit x i) end; done.
  - rewrite Z.lor_spec, (Z.land_spec m), compl_bit by lia. intros [Hb Hv]%orb_false_iff. rewrite Hag, Hv by done. by rewrite andb_true_r.
  - done.
Qed.

Lemma apply_all_ok dir um cs : forall m0 m b,
  Forall (fun c => file_bits (value c)) cs -> Forall (fun c => op c <> ch "+") cs ->
  file_bits m -> file_bits b -> agree b m0 m ->
  let '(m', b') := apply_all dir um cs (m, b) in file_bits m' /\ file_bits b' /\ agree b' m0 m'.
Proof.
  induction cs as [|c cs IH]; intros m0 m b Hv Hop Hm Hb Hag; [done|].
  apply Forall_cons in Hv as [Hvc Hv]. apply Forall_cons in Hop as [Hopc Hop]. unfold apply_all. cbn [fold_left].
  destruct (apply_change_bits dir um c m b Hvc Hm Hb) as [H1 H2].
  pose proof (apply_change_agree dir um c m0 m b Hopc Hag) as H3.
  destruct (apply_change dir um c m b) as [m1 b1]. by apply IH.
Qed.

(** ** Properties *)

(** Octal modes work: a string of octal digits with a value v up to 07777
    compiles, and applying the result to any old mode sets exactly the bits of
    v; a directory keeps its set-id bits that v does not have, and the mask of
    changed bits says so.  A larger value, or a digit string with something
    after it, is rejected with NULL. *)
Theorem octal_modes_apply ds rest :
  ds <> [] -> Forall (fun c => is_octal c = true) ds -> is_octal (head_char rest) = false -> nul_free rest ->
  let v := octal_value 0 ds in
  (rest = [] -> v <= ALLM -> exists changes,
     mode_compile true (cstr (ds ++ rest)) = Ok (Some changes) /\
     forall old dir um, mode_adjust old dir um changes =
       Ok (v .| (old .& kept dir v), CHMOD_MODE_BITS .& compl (kept dir v))) /\
  (rest <> [] \/ ALLM < v -> mode_compile true (cstr (ds ++ rest)) = Ok None).
Proof.
  intros Hne Hds Hrest Hnf v. rewrite mode_compile_octal by done. fold v. split.
  - intros -> Hv. exists (array_of [octal_change v] []). rewrite decide_True by done. split; [done|].
    intros old dir um. apply mode_adjust_octal. split; [|done]. by apply octal_value_ge.
  - intros Hor. by rewrite decide_False by (intros [??]; destruct Hor; [done|lia]).
Qed.

Lemma octal_modes_apply_witness :
  mode_compile true (cstr (bytes "2755")) = Ok (Some (array_of [octal_change 1517] [])) /\
  let v := octal_value 0 (bytes "2755") in
  (@nil Z = [] -> v <= ALLM -> exists changes,
     mode_compile true (cstr (bytes "2755" ++ [])) = Ok (Some changes) /\
     forall old dir um, mode_adjust old dir um changes =
       Ok (v .| (old .& kept dir v), CHMOD_MODE_BITS .& compl (kept dir v))) /\
  (@nil Z <> [] \/ ALLM < v -> mode_compile true (cstr (bytes "2755" ++ [])) = Ok None).
Proof.
  split; [vm_compute; reflexivity|]. apply (octal_modes_apply (bytes "2755") []); [done| |done|constructor].
  repeat constructor.
Defined.

(** C35. Symbolic modes never work: mode_compile looks for the permissions
    before the operator instead of after it.  Every string that does not start
    with an octal digit is rejected with NULL, and one that starts with an
    operator, like +x, makes it read in front of the string.  In both cases it
    ends, within the array it allocated. *)
Theorem symbolic_modes_fail s :
  is_octal (head_char s) = false ->
  mode_compile true (cstr s) = if is_op (head_char s) then Fail OutOfBounds else Ok None.
Proof. apply mode_compile_symbolic. Qed.

Lemma symbolic_modes_fail_witness :
  mode_compile true (cstr (bytes "u+x")) = Ok None /\
  mode_compile true (cstr (bytes "+x")) =
    if is_op (head_char (bytes "+x")) then Fail OutOfBounds else Ok None.
Proof. split; [vm_compute; reflexivity|]. apply (symbolic_modes_fail (bytes "+x")). reflexivity. Defined.

(** For changes with the operators = and -, mode_adjust returns for every
    compiled array; the mode and the mask are file mode bits only, and outside
    the mask the mode is the old one. *)
Theorem mode_adjust_reports cs junk old dir um :
  Forall (fun c => flag c <> MODE_DONE) cs -> Forall (fun c => file_bits (value c)) cs ->
  Forall (fun c => op c <> ch "+") cs ->
  exists m b, mode_adjust old dir um (array_of cs junk) = Ok (m, b) /\
    file_bits m /\ file_bits b /\ agree b (old .& CHMOD_MODE_BITS) m.
Proof.
  intros Hf Hv Hop. rewrite mode_adjust_fold by done.
  pose proof (apply_all_ok dir um cs (old .& CHMOD_MODE_BITS) (old .& CHMOD_MODE_BITS) 0 Hv Hop) as H.
  destruct (apply_all dir um cs (old .& CHMOD_MODE_BITS, 0)) as [m b]. exists m, b. split; [done|].
  apply H; [by apply file_bits_land_r|done|done].
Qed.

Lemma mode_adjust_reports_witness :
  mode_adjust 511 false 0 (array_of [Change (ch "-") MODE_ORDINARY_CHANGE 0 18 18] []) = Ok (493, 18) /\
  exists m b, mode_adjust 511 false 0 (array_of [Change (ch "-") MODE_ORDINARY_CHANGE 0 18 18] []) = Ok (m, b) /\
    file_bits m /\ file_bits b /\ agree b (511 .& CHMOD_MODE_BITS) m.
Proof.
  split; [vm_compute; reflexivity|].
  apply (mode_adjust_reports [Change (ch "-") MODE_ORDINARY_CHANGE 0 18 18] [] 511 false 0); repeat constructor; done.
Defined.

(** u+x on 0644: the plus operator replaces the mode, and the bits it clears
    are not in the mask. *)
Lemma plus_replaces_mode :
  mode_adjust 420 false 18 (array_of [Change (ch "+") MODE_ORDINARY_CHANGE 2496 73 64] []) = Ok (64, 64).
Proof. vm_compute. reflexivity. Qed.
