(* ===== verification/XStrtol.v ===== *)
(** * Numbers in strings: utils/coreutils/lib/xstrtol.c and inttostr.c

    xstrtol.c is compiled three times, for long (xstrtol), unsigned long
    (xstrtoul) and uintmax_t (xstrtoumax); the type is a record here.
    inttostr.c is compiled as umaxtostr.  strtol and its variants are modelled
    after the C standard, in the C locale. *)

From S2P Require Import Prelude Arrays CStrings.
Open Scope Z_scope.

(** ** The types the file is compiled for *)

Record strtol_t := MkType { TYPE_SIGNED : bool; T_MINIMUM : Z; T_MAXIMUM : Z }.

Definition t_long : strtol_t := MkType true LONG_MIN LONG_MAX.
Definition t_ulong : strtol_t := MkType false 0 18446744073709551615.
Definition t_uintmax : strtol_t := MkType false 0 18446744073709551615.

Definition in_type (t : strtol_t) (z : Z) : bool := (T_MINIMUM t <=? z) && (z <=? T_MAXIMUM t).

(** Multiplication: signed overflow is a fault, unsigned wraps. *)
Definition mul_t (t : strtol_t) (x y : Z) : res Z :=
  if TYPE_SIGNED t then let* _ := demand (in_type t (x * y)) IntOverflow in Ok (x * y)
  else Ok ((x * y) mod (T_MAXIMUM t + 1)).

(** enum strtol_error, combined with bitwise or. *)
Definition LONGINT_OK : Z := 0.
Definition LONGINT_OVERFLOW : Z := 1.
Definition LONGINT_INVALID_SUFFIX_CHAR : Z := 2.
Definition LONGINT_INVALID : Z := 4.

(** ** strtol, strtoul and strtoumax *)

Inductive errno := E_OK | E_RANGE.

Definition digit_of (c : Z) : option Z :=
  if (48 <=? c) && (c <=? 57) then Some (c - 48)
  else if (97 <=? c) && (c <=? 122) then Some (c - 87)
  else if (65 <=? c) && (c <=? 90) then Some (c - 55)
  else None.

Definition is_digit_in (base c : Z) : bool :=
  match digit_of c with Some d => d <? base | None => false end.

(** The value of the longest digit string at the head, and its length. *)
Fixpoint digits_value (base acc : Z) (s : list Z) : Z * Z :=
  match s with
  | [] => (acc, 0)
  | c :: s' =>
      match digit_of c with
      | Some d =>
          if d <? base then let '(v, n) := digits_value base (acc * base + d) s' in (v, n + 1) else (acc, 0)
      | None => (acc, 0)
      end
  end.

Fixpoint skip_spaces (s : list Z) : list Z * Z :=
  match s with
  | c :: s' => if isspace (u8 c) then let '(r, n) := skip_spaces s' in (r, n + 1) else (s, 0)
  | [] => ([], 0)
  end.

Definition read_sign (s : list Z) : bool * list Z * Z :=
  match s with
  | c :: s' => if c =? ch "-" then (true, s', 1) else if c =? ch "+" then (false, s', 1) else (false, s, 0)
  | [] => (false, [], 0)
  end.

(** [0x] counts when a hexadecimal digit follows. *)
Definition hex_prefix (s : list Z) : bool :=
  match s with
  | c0 :: x :: d :: _ => (c0 =? ch "0") && ((x =? ch "x") || (x =? ch "X")) && is_digit_in 16 d
  | _ => false
  end.

Definition read_prefix (base : Z) (s : list Z) : Z * list Z * Z :=
  if ((base =? 0) || (base =? 16)) && hex_prefix s then (16, drop 2 s, 2)
  else if base =? 0 then (if head_char s =? ch "0" then 8 else 10, s, 0)
  else (base, s, 0).

(** The value, the offset where it ends (0 without a number) and errno.  Base
    1 is not supported: the end is not stored. *)
Definition strtol (t : strtol_t) (s : list Z) (base : Z) : res (Z * Z * errno) :=
  let* _ := demand (negb (base =? 1)) Uninit in
  let '(s1, n1) := skip_spaces s in
  let '(neg, s2, n2) := read_sign s1 in
  let '(base, s3, n3) := read_prefix base s2 in
  let '(v, n4) := digits_value base 0 s3 in
  if n4 =? 0 then Ok (0, 0, E_OK)
  else
    let pos := n1 + n2 + n3 + n4 in
    if TYPE_SIGNED t then
      let v := if neg then - v else v in
      if v <? T_MINIMUM t then Ok (T_MINIMUM t, pos, E_RANGE)
      else if T_MAXIMUM t <? v then Ok (T_MAXIMUM t, pos, E_RANGE)
      else Ok (v, pos, E_OK)
    else if T_MAXIMUM t <? v then Ok (T_MAXIMUM t, pos, E_RANGE)
    else Ok (if neg then (- v) mod (T_MAXIMUM t + 1) else v, pos, E_OK).

(** ** xstrtol.c *)

Definition bkm_scale (t : strtol_t) (x scale_factor : Z) : res (Z * Z) :=
  if TYPE_SIGNED t && (x <? Z.quot (T_MINIMUM t) scale_factor) then Ok (T_MINIMUM t, LONGINT_OVERFLOW)
  else if Z.quot (T_MAXIMUM t) scale_factor <? x then Ok (T_MAXIMUM t, LONGINT_OVERFLOW)
  else let* x := mul_t t x scale_factor in Ok (x, LONGINT_OK).

Fixpoint scale_loop (t : strtol_t) (x base : Z) (power : nat) (err : Z) : res (Z * Z) :=
  match power with
  | O => Ok (x, err)
  | S power =>
      let* (x, e) := bkm_scale t x base in
      scale_loop t x base power (Z.lor err e)
  end.

Definition bkm_scale_by_power (t : strtol_t) (x base : Z) (power : nat) : res (Z * Z) :=
  scale_loop t x base power LONGINT_OK.

(** The second suffix: the base and the number of suffix characters. *)
Definition second_suffix (s : list Z) (p : Z) : res (Z * Z) :=
  let* c1 := rd s (p + 1) in
  if c1 =? ch "i" then
    let* c2 := rd s (p + 2) in
    Ok (1024, if c2 =? ch "B" then 3 else 1)
  else if (c1 =? ch "B") || (c1 =? ch "D") then Ok (1000, 2)
  else Ok (1024, 1).

(** The switch on the suffix; [None] is its default. *)
Definition scale_suffix (t : strtol_t) (c tmp base : Z) : res (option (Z * Z)) :=
  let some r := let* p := r in Ok (Some p) in
  if c =? ch "b" then some (bkm_scale t tmp 512)
  else if c =? ch "B" then some (bkm_scale t tmp 1024)
  else if c =? ch "c" then Ok (Some (tmp, 0))
  else if c =? ch "E" then some (bkm_scale_by_power t tmp base 6)
  else if (c =? ch "G") || (c =? ch "g") then some (bkm_scale_by_power t tmp base 3)
  else if (c =? ch "k") || (c =? ch "K") then
    (* no break: the next case follows, and assigns overflow again *)
    let* (tmp, _) := bkm_scale_by_power t tmp base 1 in
    some (bkm_scale_by_power t tmp base 2)
  else if (c =? ch "M") || (c =? ch "m") then some (bkm_scale_by_power t tmp base 2)
  else if c =? ch "P" then some (bkm_scale_by_power t tmp base 5)
  else if (c =? ch "T") || (c =? ch "t") then some (bkm_scale_by_power t tmp base 4)
  else if c =? ch "w" then some (bkm_scale t tmp 2)
  else if c =? ch "Y" then some (bkm_scale_by_power t tmp base 8)
  else if c =? ch "Z" then some (bkm_scale_by_power t tmp base 7)
  else Ok None.

(** The error, [*val] ([None]: not stored) and [*ptr]. *)
Definition xresult : Type := Z * option Z * Z.

(** From the suffix on. *)
Definition read_suffix (t : strtol_t) (s : list Z) (valid : list Z) (err tmp p : Z) : res xresult :=
  let* c := rd (cstr s) p in
  if c =? 0 then Ok (err, Some tmp, p)
  else
    let* v := strchr (cstr valid) c in
    match v with
    | None => Ok (Z.lor err LONGINT_INVALID_SUFFIX_CHAR, Some tmp, p)
    | Some _ =>
        let* zero := strchr (cstr valid) (ch "0") in
        let* (base, suffixes) :=
          match zero with Some _ => second_suffix (cstr s) p | None => Ok (1024, 1) end in
        let* r := scale_suffix t c tmp base in
        match r with
        | None => Ok (Z.lor err LONGINT_INVALID_SUFFIX_CHAR, Some tmp, p)
        | Some (tmp, overflow) =>
            let err := Z.lor err overflow in
            let p := p + suffixes in
            let* c := rd (cstr s) p in
            let err := if negb (c =? 0) then Z.lor err LONGINT_INVALID_SUFFIX_CHAR else err in
            Ok (err, Some tmp, p)
        end
    end.

Definition xstrtol (t : strtol_t) (s : list Z) (strtol_base : Z) (valid_suffixes : option (list Z)) : res xresult :=
  let* _ := demand ((0 <=? strtol_base) && (strtol_base <=? 36)) AssertFail in
  if negb (TYPE_SIGNED t) && (head_char (fst (skip_spaces s)) =? ch "-") then Ok (LONGINT_INVALID, None, 0)
  else
    let* (tmp, p, e) := strtol t s strtol_base in
    let* start :=
      if p =? 0 then
        match valid_suffixes with
        | Some valid =>
            let* c := rd (cstr s) p in
            if c =? 0 then Ok None
            else
              let* v := strchr (cstr valid) c in
              match v with Some _ => Ok (Some (1, LONGINT_OK)) | None => Ok None end
        | None => Ok None
        end
      else Ok (Some (tmp, match e with E_RANGE => LONGINT_OVERFLOW | E_OK => LONGINT_OK end)) in
    match start with
    | None => Ok (LONGINT_INVALID, None, p)
    | Some (tmp, err) =>
        match valid_suffixes with
        | None => Ok (err, Some tmp, p)
        | Some valid => read_suffix t s valid err tmp p
        end
    end.

(** ** inttostr.c as umaxtostr *)

(** INT_STRLEN_BOUND (uintmax_t): 64 * 146 / 485 + 1. *)
Definition INT_STRLEN_BOUND : Z := 20.

(** [do *--p = '0' + i % 10; while ((i /= 10) != 0);] *)
Definition digit_turn (st : Z * Z * list Z) : res (Z * Z * list Z + list Z * Z) :=
  let '(i, p, buf) := st in
  let p := p - 1 in
  let* buf := wr buf p (ch "0" + i mod 10) in
  let i := i / 10 in
  if negb (i =? 0) then Ok (inl (i, p, buf)) else Ok (inr (buf, p)).

(** The buffer has INT_BUFSIZE_BOUND cells; the result is the buffer and the
    index of the string in it. *)
Definition inttostr (i : Z) (buf : list Z) : res (list Z * Z) :=
  let p := INT_STRLEN_BOUND in
  let* buf := wr buf p 0 in
  loop 20 digit_turn (i, p, buf).

(** ** Scaling saturates *)

Definition type_ok (t : strtol_t) : Prop :=
  T_MINIMUM t <= 0 < T_MAXIMUM t /\ (TYPE_SIGNED t = false -> T_MINIMUM t = 0).

Definition clamp (t : strtol_t) (z : Z) : Z := Z.max (T_MINIMUM t) (Z.min (T_MAXIMUM t) z).

(** The error of a result that should be [z]. *)
Definition range_error (t : strtol_t) (z : Z) : Z := if in_type t z then LONGINT_OK else LONGINT_OVERFLOW.

Lemma in_type_spec t z : in_type t z = true <-> T_MINIMUM t <= z <= T_MAXIMUM t.
Proof. unfold in_type. by rewrite andb_true_iff, !Z.leb_le. Qed.

Lemma clamp_in t z : in_type t z = true -> clamp t z = z.
Proof. rewrite in_type_spec. unfold clamp. lia. Qed.

Lemma range_error_in t z : in_type t z = true -> range_error t z = LONGINT_OK.
Proof. unfold range_error. by intros ->. Qed.

Lemma range_error_out t z : in_type t z = false -> range_error t z = LONGINT_OVERFLOW.
Proof. unfold range_error. by intros ->. Qed.

Lemma in_type_false t z : in_type t z = false <-> z < T_MINIMUM t \/ T_MAXIMUM t < z.
Proof. rewrite <- not_true_iff_false, in_type_spec. lia. Qed.

Lemma in_type_clamp t z : type_ok t -> in_type t (clamp t z) = true.
Proof. intros [? _]. apply in_type_spec. unfold clamp. lia. Qed.

Lemma bkm_scale_ok t x f :
  type_ok t -> in_type t x = true -> 0 < f ->
  bkm_scale t x f = Ok (clamp t (x * f), range_error t (x * f)).
Proof.
  intros [Hb Hu] Hx%in_type_spec Hf. unfold bkm_scale.
  assert (x < Z.quot (T_MINIMUM t) f <-> x * f < T_MINIMUM t) as Hmin by (Z.to_euclidean_division_equations; nia).
  assert (Z.quot (T_MAXIMUM t) f < x <-> T_MAXIMUM t < x * f) as Hmax by (Z.to_euclidean_division_equations; nia).
  destruct (TYPE_SIGNED t && (x <? Z.quot (T_MINIMUM t) f)) eqn:E1.
  { apply andb_true_iff in E1 as [_ E1%Z.ltb_lt%Hmin]. rewrite range_error_out by (apply in_type_false; lia).
    unfold clamp. do 2 f_equal. lia. }
  destruct (Z.ltb_spec (Z.quot (T_MAXIMUM t) f) x) as [E2%Hmax|E2].
  { rewrite range_error_out by (apply in_type_false; lia). unfold clamp. do 2 f_equal. lia. }
  assert (in_type t (x * f) = true) as Hin.
  { apply in_type_spec. destruct (TYPE_SIGNED t); simpl in E1; [apply Z.ltb_ge in E1; lia|].
    rewrite Hu in * by done. nia. }
  rewrite range_error_in, clamp_in by done. unfold mul_t. rewrite Hin. destruct (TYPE_SIGNED t); [done|].
  apply in_type_spec in Hin. rewrite Hu in Hin by done. simpl. rewrite Z.mod_small by lia. done.
Qed.

(** An overflow stays one under further scaling. *)
Lemma clamp_scale t z g :
  type_ok t -> 0 < g ->
  clamp t (clamp t z * g) = clamp t (z * g) /\
  Z.lor (range_error t z) (range_error t (clamp t z * g)) = range_error t (z * g).
Proof.
  intros [Hb Hu] Hg. destruct (in_type t z) eqn:E.
  { by rewrite (clamp_in t z), (range_error_in t z) by done. }
  rewrite (range_error_out t z) by done. apply in_type_false in E.
  assert (in_type t (z * g) = false) as E2 by (apply in_type_false; nia).
  rewrite (range_error_out _ _ E2). split.
  - unfold clamp. apply in_type_false in E2. destruct E as [E|E].
    + assert (z * g < T_MINIMUM t) by nia. rewrite (Z.min_r _ z) by lia.
      rewrite (Z.max_l _ z) by lia. assert (T_MINIMUM t * g <= T_MINIMUM t) by nia. lia.
    + assert (T_MAXIMUM t < z * g) by nia. rewrite (Z.min_l _ z) by lia.
      rewrite (Z.max_r _ (T_MAXIMUM t)) by lia. assert (T_MAXIMUM t <= T_MAXIMUM t * g) by nia. lia.
  - unfold range_error. by destruct (in_type t (clamp t z * g)).
Qed.

Lemma scale_loop_ok t base power : type_ok t -> 0 < base -> forall x err,
  in_type t x = true ->
  scale_loop t x base power err = Ok (clamp t (x * base ^ Z.of_nat power), Z.lor err (range_error t (x * base ^ Z.of_nat power))).
Proof.
  intros Ht Hb. induction power as [|power IH]; intros x err Hx; cbn [scale_loop].
  { rewrite Z.mul_1_r, clamp_in, range_error_in by done. by rewrite Z.lor_0_r. }
  rewrite bkm_scale_ok by done. cbn [bind]. rewrite IH by (by apply in_type_clamp).
  destruct (clamp_scale t (x * base) (base ^ Z.of_nat power)) as [-> Herr]; [done|lia|].
  by rewrite <- Z.lor_assoc, Herr, Nat2Z.inj_succ, Z.pow_succ_r, Z.mul_assoc by lia.
Qed.

Lemma bkm_scale_by_power_ok t x base power :
  type_ok t -> 0 < base -> in_type t x = true ->
  bkm_scale_by_power t x base power =
  Ok (clamp t (x * base ^ Z.of_nat power), range_error t (x * base ^ Z.of_nat power)).
Proof. intros Ht Hb Hx. unfold bkm_scale_by_power. by rewrite scale_loop_ok. Qed.

(** The factor a suffix stands for in this code; that of k is the one of M
    times the one of k, for want of a break. *)
Definition suffix_factor (c base : Z) : option Z :=
  if c =? ch "b" then Some 512
  else if c =? ch "B" then Some 1024
  else if c =? ch "c" then Some 1
  else if c =? ch "E" then Some (base ^ 6)
  else if (c =? ch "G") || (c =? ch "g") then Some (base ^ 3)
  else if (c =? ch "k") || (c =? ch "K") then Some (base ^ 1 * base ^ 2)
  else if (c =? ch "M") || (c =? ch "m") then Some (base ^ 2)
  else if c =? ch "P" then Some (base ^ 5)
  else if (c =? ch "T") || (c =? ch "t") then Some (base ^ 4)
  else if c =? ch "w" then Some 2
  else if c =? ch "Y" then Some (base ^ 8)
  else if c =? ch "Z" then Some (base ^ 7)
  else None.

(** Scaling further makes an overflow again. *)
Lemma clamp_out t x f g :
  type_ok t -> in_type t x = true -> 0 < f -> 1 < g -> in_type t (x * f) = false ->
  in_type t (clamp t (x * f) * g) = false.
Proof.
  intros [Hb Hu] Hx%in_type_spec Hf Hg [E|E]%in_type_false; apply in_type_false; unfold clamp.
  - rewrite Z.min_r, Z.max_l by lia. left. assert (T_MINIMUM t < 0) by nia. nia.
  - rewrite Z.min_l, Z.max_r by lia. right. nia.
Qed.

Lemma scale_suffix_ok t c x base :
  type_ok t -> in_type t x = true -> 1 < base ->
  scale_suffix t c x base =
  Ok (match suffix_factor c base with
      | Some f => Some (clamp t (x * f), range_error t (x * f))
      | None => None
      end).
Proof.
  intros Ht Hx Hb. unfold scale_suffix, suffix_factor.
  repeat match goal with
  | |- (if ?b then _ else _) = _ => destruct b
  end; rewrite ?bkm_scale_ok, ?bkm_scale_by_power_ok by (done || lia); cbn [bind]; try done.
  - by rewrite Z.mul_1_r, clamp_in, range_error_in by done.
  - change (Z.of_nat 1) with 1. assert (0 < base ^ 1 /\ 1 < base ^ 2) as [Hb1 Hb2] by (rewrite Z.pow_1_r, Z.pow_2_r; nia).
    destruct (clamp_scale t (x * base ^ 1) (base ^ 2)) as [E1 E2]; [done|lia|]. rewrite Z.mul_assoc.
    rewrite bkm_scale_by_power_ok by (lia || done || by apply in_type_clamp). cbn [bind].
    change (Z.of_nat 2) with 2. rewrite E1, <- E2. do 3 f_equal. destruct (in_type t (x * base ^ 1)) eqn:Ein.
    + by rewrite (range_error_in t (x * base ^ 1)).
    + by rewrite (range_error_out t (_ * base ^ 2)) by (by apply clamp_out); rewrite (range_error_out t (x * base ^ 1)).
Qed.

(** ** Decimal strings *)

Definition is_decimal (c : Z) : Prop := 48 <= c <= 57.

Definition dec (acc : Z) (ds : list Z) : Z := fold_left (fun a c => a * 10 + (c - 48)) ds acc.

Lemma dec_snoc acc ds c : dec acc (ds ++ [c]) = dec acc ds * 10 + (c - 48).
Proof. unfold dec. by rewrite fold_left_app. Qed.

Lemma dec_nonneg ds : Forall is_decimal ds -> forall acc, 0 <= acc -> 0 <= dec acc ds.
Proof.
  induction 1 as [|c ds Hc Hds IH]; intros acc Hacc; [done|]. apply IH. unfold is_decimal in Hc. lia.
Qed.

Lemma digit_of_decimal c : is_decimal c -> digit_of c = Some (c - 48).
Proof.
  intros [H1 H2]. unfold digit_of. by rewrite (proj2 (Z.leb_le 48 c)), (proj2 (Z.leb_le c 57)) by done.
Qed.

(** What stops a decimal number. *)
Definition no_decimal (c : Z) : Prop := is_digit_in 10 c = false.

Lemma digits_value_dec rest : no_decimal (head_char rest) -> forall ds acc,
  Forall is_decimal ds -> digits_value 10 acc (ds ++ rest) = (dec acc ds, zlen ds).
Proof.
  intros Hrest ds acc Hds. revert acc. induction Hds as [|c ds Hc Hds IH]; intros acc; cbn [app digits_value].
  - destruct rest as [|c rest]; [done|]. unfold no_decimal, is_digit_in in Hrest. cbn [head_char digits_value] in *.
    destruct (digit_of c); [|done]. by rewrite Hrest.
  - rewrite digit_of_decimal by done. rewrite (proj2 (Z.ltb_lt (c - 48) 10)) by (unfold is_decimal in Hc; lia).
    rewrite IH. by rewrite zlen_cons.
Qed.

Lemma decimal_not_space c : is_decimal c -> isspace (u8 c) = false.
Proof.
  intros [H1 H2]. unfold isspace, u8. rewrite Z.mod_small by lia.
  destruct (Z.eqb_spec c 32), (Z.leb_spec 9 c), (Z.leb_spec c 13); simpl; lia || done.
Qed.

(** Strings are split at their blanks and after their digits. *)
Definition decimal_char (c : Z) : bool := (48 <=? c) && (c <=? 57).

Lemma decimal_char_spec c : decimal_char c = true <-> is_decimal c.
Proof. unfold decimal_char, is_decimal. lia. Qed.

Lemma decimal_char_digit c : decimal_char c = is_digit_in 10 c.
Proof.
  unfold decimal_char, is_digit_in, digit_of.
  destruct (Z.leb_spec 48 c), (Z.leb_spec c 57), (Z.leb_spec 97 c), (Z.leb_spec c 122), (Z.leb_spec 65 c), (Z.leb_spec c 90); cbn [andb]; lia.
Qed.

Lemma split_decimals s : exists ds rest, s = ds ++ rest /\ Forall is_decimal ds /\ no_decimal (head_char rest).
Proof.
  induction s as [|c s (ds & rest & -> & Hds & Hr)]; [by exists [], []|].
  destruct (decimal_char c) eqn:E.
  - exists (c :: ds), rest. split_and!; [done| |done]. constructor; [by apply decimal_char_spec|done].
  - exists [], (c :: ds ++ rest). split_and!; [done|constructor|]. unfold no_decimal. cbn [head_char]. by rewrite <- decimal_char_digit.
Qed.

Lemma skip_spaces_split s : exists sp, s = sp ++ fst (skip_spaces s) /\ snd (skip_spaces s) = zlen sp.
Proof.
  induction s as [|c s (sp & E & Hn)]; [by exists []|]. cbn [skip_spaces]. destruct (isspace (u8 c)); [|by exists []].
  destruct (skip_spaces s) as [r n]. cbn [fst snd] in *. exists (c :: sp). split; [by rewrite E at 1|]. rewrite zlen_cons. lia.
Qed.

Lemma forallb_decimals ds rest : Forall is_decimal ds -> forallb decimal_char (ds ++ rest) = forallb decimal_char rest.
Proof. induction 1 as [|c ds Hc _ IH]; [done|]. cbn [app forallb]. by rewrite (proj2 (decimal_char_spec c) Hc), IH. Qed.

(** An optional minus sign, for signed types. *)
Definition sign_str (neg : bool) : list Z := if neg then [ch "-"] else [].
Definition signed_value (neg : bool) (v : Z) : Z := if neg then - v else v.

Lemma strtol_decimal t neg ds rest :
  type_ok t -> (neg = true -> TYPE_SIGNED t = true) -> ds <> [] -> Forall is_decimal ds -> no_decimal (head_char rest) ->
  let v := signed_value neg (dec 0 ds) in
  head_char (fst (skip_spaces (sign_str neg ++ ds ++ rest))) = (if neg then ch "-" else head_char ds) /\
  strtol t (sign_str neg ++ ds ++ rest) 10 =
  Ok (clamp t v, zlen (sign_str neg ++ ds), if in_type t v then E_OK else E_RANGE).
Proof.
  intros [Hb Hu] Hneg Hne Hds Hrest v. destruct ds as [|c ds]; [done|].
  pose proof (proj1 (proj1 (Forall_cons _ _ _) Hds)) as Hc.
  pose proof (dec_nonneg (c :: ds) Hds 0 ltac:(lia)) as Hd.
  assert (skip_spaces (sign_str neg ++ (c :: ds) ++ rest) = (sign_str neg ++ (c :: ds) ++ rest, 0)) as Hskip.
  { destruct neg; cbn [sign_str app skip_spaces]; [done|]. by rewrite decimal_not_space. }
  rewrite Hskip. split; [by destruct neg|]. unfold strtol. cbn [bind demand negb Z.eqb Pos.eqb]. rewrite Hskip.
  assert (read_sign (sign_str neg ++ (c :: ds) ++ rest) = (neg, (c :: ds) ++ rest, zlen (sign_str neg))) as ->.
  { destruct neg; cbn [sign_str app read_sign]; [done|]. unfold is_decimal in Hc.
    rewrite (proj2 (Z.eqb_neq c 45)), (proj2 (Z.eqb_neq c 43)) by lia. done. }
  change (read_prefix 10 ?s) with (10, s, 0). cbv iota. rewrite digits_value_dec by done.
  pose proof (zlen_nonneg ds). rewrite (zlen_app (sign_str neg)), zlen_cons.
  rewrite (proj2 (Z.eqb_neq (zlen ds + 1) 0)) by lia. unfold in_type.
  destruct (TYPE_SIGNED t) eqn:Hs.
  - change (if neg then - dec 0 (c :: ds) else dec 0 (c :: ds)) with v. unfold clamp.
    destruct (Z.ltb_spec v (T_MINIMUM t)), (Z.ltb_spec (T_MAXIMUM t) v); try lia.
    + rewrite (proj2 (Z.leb_gt (T_MINIMUM t) v)) by lia. cbn [andb]. do 3 f_equal; lia.
    + rewrite (proj2 (Z.leb_gt v (T_MAXIMUM t))), andb_false_r by lia. cbn [andb]. do 3 f_equal; lia.
    + rewrite !(proj2 (Z.leb_le _ _)) by lia. cbn [andb]. do 3 f_equal; lia.
  - destruct neg; [by specialize (Hneg eq_refl)|]. unfold v. cbn [signed_value]. rewrite Hu in * by done.
    unfold clamp. rewrite Hu by done. rewrite (proj2 (Z.leb_le 0 _)) by lia.
    destruct (Z.ltb_spec (T_MAXIMUM t) (dec 0 (c :: ds))).
    + rewrite (proj2 (Z.leb_gt _ (T_MAXIMUM t))) by lia. cbn [andb]. do 3 f_equal; lia.
    + rewrite (proj2 (Z.leb_le _ (T_MAXIMUM t))) by lia. cbn [andb]. do 3 f_equal; lia.
Qed.

(** xstrtol reads the number and goes on with the suffix. *)
Lemma xstrtol_decimal t neg ds rest valid :
  type_ok t -> (neg = true -> TYPE_SIGNED t = true) -> ds <> [] -> Forall is_decimal ds -> no_decimal (head_char rest) ->
  let v := signed_value neg (dec 0 ds) in
  let p := zlen (sign_str neg ++ ds) in
  xstrtol t (sign_str neg ++ ds ++ rest) 10 valid =
  match valid with
  | None => Ok (range_error t v, Some (clamp t v), p)
  | Some valid => read_suffix t (sign_str neg ++ ds ++ rest) valid (range_error t v) (clamp t v) p
  end.
Proof.
  intros Ht Hneg Hne Hds Hrest v p.
  destruct (strtol_decimal t neg ds rest Ht Hneg Hne Hds Hrest) as [Hh Hv]. unfold xstrtol. cbn [bind demand].
  change ((0 <=? 10) && (10 <=? 36)) with true. cbn [bind]. rewrite Hh, Hv. clear Hh Hv. fold v p.
  assert (negb (TYPE_SIGNED t) && ((if neg then 45 else head_char ds) =? 45) = false) as ->.
  { destruct neg; [by rewrite Hneg|]. destruct ds as [|c ds]; [done|]. apply Forall_cons in Hds as [Hc _].
    cbn [head_char]. unfold is_decimal in Hc. rewrite (proj2 (Z.eqb_neq c 45)) by lia. apply andb_false_r. }
  cbn [bind]. assert (p <> 0) as Hp.
  { unfold p. rewrite zlen_app. destruct ds as [|c ds]; [done|]. rewrite zlen_cons.
    pose proof (zlen_nonneg (sign_str neg)). pose proof (zlen_nonneg ds). lia. }
  rewrite (proj2 (Z.eqb_neq p 0) Hp). cbn [bind]. unfold range_error. by destruct (in_type t v).
Qed.

(** ** Suffixes *)

(** The base after the first suffix character, when the tail is one of those
    the code knows. *)
Definition suffix_base (zero : bool) (tail : list Z) : option Z :=
  if decide (tail = []) then Some 1024
  else if zero then
    if decide (tail = bytes "iB") then Some 1024
    else if decide (tail = bytes "B" \/ tail = bytes "D") then Some 1000
    else None
  else None.

Lemma strchr_found s c : nul_free s -> c <> 0 ->
  exists r, strchr (cstr s) c = Ok r /\ (c ∈ s <-> is_Some r).
Proof.
  intros Hn Hc. rewrite strchr_cstr by done. eexists. split; [done|].
  destruct (list_find (fun x => x = c) s) as [[i x]|] eqn:E; simpl.
  - apply list_find_Some in E as (Hi & -> & _). split; [done|]. intros _. by eapply list_elem_of_lookup_2.
  - apply list_find_None in E. rewrite Forall_forall in E. split; [|intros [? ?]; done]. intros Hin. by destruct (E c Hin).
Qed.

Lemma suffix_factor_letter c b f : suffix_factor c b = Some f -> c <> 0 /\ no_decimal c /\ c <> 45.
Proof.
  unfold suffix_factor. intros H. split_and!; [|unfold no_decimal|]; try (intros ->; done).
  destruct (is_digit_in 10 c) eqn:E; [|done]. exfalso. revert H.
  assert (48 <= c <= 57).
  { unfold is_digit_in, digit_of in E.
    destruct ((48 <=? c) && (c <=? 57)) eqn:A; [lia|]. destruct ((97 <=? c) && (c <=? 122)) eqn:B; [lia|].
    destruct ((65 <=? c) && (c <=? 90)) eqn:C; [lia|done]. }
  repeat match goal with |- context [c =? ?x] => rewrite (proj2 (Z.eqb_neq c x)) by lia end. done.
Qed.

Lemma suffix_base_gt zero tail b : suffix_base zero tail = Some b -> 1 < b.
Proof. unfold suffix_base. intros H. repeat case_decide; destruct zero; naive_solver lia. Qed.

Lemma second_suffix_ok pre c tail b :
  suffix_base true tail = Some b ->
  second_suffix (cstr (pre ++ c :: tail)) (zlen pre) = Ok (b, 1 + zlen tail).
Proof.
  intros Hb. unfold second_suffix.
  replace (pre ++ c :: tail) with ((pre ++ [c]) ++ tail) by (by rewrite <- app_assoc).
  rewrite rd_cstr by (by rewrite zlen_snoc). cbn [bind]. unfold suffix_base in Hb.
  destruct (decide (tail = [])) as [->|Hne]; [by simplify_eq|].
  destruct (decide (tail = bytes "iB")) as [->|].
  { simplify_eq. change (bytes "iB") with ([ch "i"] ++ [ch "B"]). rewrite app_assoc. cbn [head_char app Z.eqb Pos.eqb].
    rewrite rd_cstr by (rewrite !zlen_app; change (zlen [_]) with 1; lia). done. }
  destruct (decide (tail = bytes "B" \/ tail = bytes "D")) as [[->| ->]|]; [|..]; by simplify_eq.
Qed.

Lemma read_suffix_ok t body c tail valid err tmp b f :
  type_ok t -> in_type t tmp = true -> nul_free valid -> c ∈ valid ->
  suffix_base (bool_decide (ch "0" ∈ valid)) tail = Some b -> suffix_factor c b = Some f ->
  read_suffix t (body ++ c :: tail) valid err tmp (zlen body) =
  Ok (Z.lor err (range_error t (tmp * f)), Some (clamp t (tmp * f)), zlen (body ++ c :: tail)).
Proof.
  intros Ht Htmp Hvn Hcv Hb Hf. destruct (suffix_factor_letter c b f Hf) as (Hc0 & _ & _). unfold read_suffix.
  rewrite rd_cstr by done. cbn [bind head_char]. rewrite (proj2 (Z.eqb_neq c 0) Hc0).
  destruct (strchr_found valid c Hvn Hc0) as (r & -> & [Hr _]). cbn [bind]. destruct (Hr Hcv) as [i ->].
  destruct (strchr_found valid (ch "0") Hvn ltac:(done)) as (z & -> & Hz). cbn [bind].
  assert ((match z with Some _ => second_suffix (cstr (body ++ c :: tail)) (zlen body) | None => Ok (1024, 1) end) =
          Ok (b, 1 + zlen tail)) as ->.
  { destruct z as [i'|].
    - rewrite bool_decide_true in Hb by (by apply Hz). by apply second_suffix_ok.
    - rewrite bool_decide_false in Hb by (rewrite Hz; intros [? ?]; done). unfold suffix_base in Hb.
      case_decide as Ht0; [|done]. subst tail. by simplify_eq. }
  cbn [bind]. rewrite scale_suffix_ok by (done || by eapply suffix_base_gt). rewrite Hf. cbn [bind].
  assert (zlen body + (1 + zlen tail) = zlen (body ++ c :: tail)) as -> by (rewrite zlen_app, zlen_cons; lia).
  rewrite rd_cstr_end by done. done.
Qed.

(** ** Printing *)

Lemma inttostr_loop : forall fuel i p junk post,
  (0 < fuel)%nat -> 0 <= i < 10 ^ Z.of_nat fuel -> zlen junk = p -> Z.of_nat fuel <= p ->
  exists junk' ds, loop fuel digit_turn (i, p, junk ++ post) =
    Ok (junk' ++ ds ++ post, zlen junk') /\ ds <> [] /\ Forall is_decimal ds /\ dec 0 ds = i.
Proof.
  induction fuel as [|fuel IH]; intros i p junk post Hf Hi Hp Hfp; [lia|]. cbn [loop].
  destruct (exists_last_or junk) as [->|(junk' & x & ->)]; [change (zlen []) with 0 in Hp; lia|].
  rewrite zlen_snoc in Hp. rewrite <- app_assoc. cbn [app]. unfold digit_turn at 1.
  rewrite (wr_middle junk' x post (p - 1)) by lia. cbn [bind].
  assert (is_decimal (48 + i mod 10)) as Hdig.
  { pose proof (Z.mod_pos_bound i 10 ltac:(lia)). unfold is_decimal. lia. }
  destruct (Z.eqb_spec (i / 10) 0) as [E|E]; cbn [negb bind].
  - exists junk', [48 + i mod 10]. split_and!; [by replace (p - 1) with (zlen junk') by lia|done|by constructor|].
    cbn. rewrite Z.mod_small by (apply Z.div_small_iff in E; lia). lia.
  - destruct fuel as [|fuel].
    { simpl in Hi. rewrite Z.div_small in E by lia. done. }
    destruct (IH (i / 10) (p - 1) junk' ((48 + i mod 10) :: post)) as (j' & ds & -> & Hne & Hds & Hv); [lia| |lia|lia|].
    { rewrite Nat2Z.inj_succ, Z.pow_succ_r in Hi by lia. split; [apply Z.div_pos; lia|]. apply Z.div_lt_upper_bound; lia. }
    exists j', (ds ++ [48 + i mod 10]). split_and!.
    + rewrite <- app_assoc. done.
    + by destruct ds.
    + apply Forall_app. split; [done|]. by constructor.
    + rewrite dec_snoc, Hv. pose proof (Z.div_mod i 10 ltac:(lia)). lia.
Qed.

(** The loop writes in place. *)
Lemma inttostr_loop_len : forall fuel i p buf r,
  loop fuel digit_turn (i, p, buf) = Ok r -> zlen (fst r) = zlen buf.
Proof.
  induction fuel as [|fuel IH]; intros i p buf r H; [done|]. cbn [loop] in H. unfold digit_turn at 1 in H.
  destruct (in_range buf (p - 1)) eqn:Hr; unfold wr in H; rewrite Hr in H; [|done]. cbn [bind] in H.
  destruct (negb (i / 10 =? 0)); cbn [bind] in H.
  - apply IH in H. by rewrite H, zlen_upd.
  - injection H as <-. simpl. apply zlen_upd.
Qed.

Lemma suffix_factor_pos c b f : 1 < b -> suffix_factor c b = Some f -> 0 < f.
Proof.
  intros Hb. unfold suffix_factor.
  repeat match goal with |- (if ?x then _ else _) = _ -> _ => destruct x end; intros [= <-]; try lia;
    try (apply Z.mul_pos_pos); apply Z.pow_pos_nonneg; lia.
Qed.

(** ** Properties *)

(** Reading an optional minus sign (signed types only), decimal digits and
    an accepted suffix gives the number times the factor of the suffix, cut off
    at the ends of the type, with LONGINT_OVERFLOW exactly when it was cut off,
    and the end of the string; nothing overflows on the way.  Without a suffix
    the factor is 1. *)
Theorem xstrtol_scales t neg ds valid :
  type_ok t -> (neg = true -> TYPE_SIGNED t = true) -> ds <> [] -> Forall is_decimal ds -> nul_free valid ->
  let v := signed_value neg (dec 0 ds) in
  let body := sign_str neg ++ ds in
  xstrtol t body 10 (Some valid) = Ok (range_error t v, Some (clamp t v), zlen body) /\
  forall c tail b f,
    c ∈ valid -> suffix_base (bool_decide (ch "0" ∈ valid)) tail = Some b -> suffix_factor c b = Some f ->
    xstrtol t (body ++ c :: tail) 10 (Some valid) =
    Ok (range_error t (v * f), Some (clamp t (v * f)), zlen (body ++ c :: tail)).
Proof.
  intros Ht Hneg Hne Hds Hvn v body. split.
  - unfold body. rewrite <- (app_nil_r ds) at 1. rewrite xstrtol_decimal by done. unfold read_suffix.
    rewrite app_nil_r, rd_cstr_end by done. done.
  - intros c tail b f Hcv Hb Hf. unfold body. rewrite <- app_assoc.
    rewrite xstrtol_decimal by (done || by destruct (suffix_factor_letter c b f Hf) as (_ & ? & _)).
    rewrite app_assoc, (read_suffix_ok t _ c tail valid _ _ b f) by (done || by apply in_type_clamp).
    assert (0 < f) as Hf0 by (revert Hf; apply suffix_factor_pos; by eapply suffix_base_gt).
    fold v. by destruct (clamp_scale t v f Ht Hf0) as [-> ->].
Qed.

Lemma xstrtol_scales_witness :
  xstrtol t_long (bytes "-7MB") 10 (Some (bytes "M0")) = Ok (LONGINT_OK, Some (-7000000), 4) /\
  let v := signed_value true (dec 0 (bytes "7")) in
  let body := sign_str true ++ bytes "7" in
  xstrtol t_long body 10 (Some (bytes "M0")) = Ok (range_error t_long v, Some (clamp t_long v), zlen body) /\
  forall c tail b f,
    c ∈ bytes "M0" -> suffix_base (bool_decide (ch "0" ∈ bytes "M0")) tail = Some b -> suffix_factor c b = Some f ->
    xstrtol t_long (body ++ c :: tail) 10 (Some (bytes "M0")) =
    Ok (range_error t_long (v * f), Some (clamp t_long (v * f)), zlen (body ++ c :: tail)).
Proof.
  split; [vm_compute; reflexivity|].
  apply (xstrtol_scales t_long true (bytes "7") (bytes "M0")); [split; [simpl; code_lia|done]|done|done| |].
  - change (Forall is_decimal [55]). constructor; [unfold is_decimal; lia|constructor].
  - change (nul_free [77; 48]). constructor; [lia|constructor; [lia|constructor]].
Defined.

(** umaxtostr and xstrtoumax are inverse: for every uintmax_t n, umaxtostr
    fills the end of its buffer of INT_BUFSIZE_BOUND bytes with the decimal
    digits of n and the terminator, inside the buffer, and xstrtoumax reads n
    back from the string it returns, with no error and at its end. *)
Theorem umaxtostr_roundtrip n buf :
  0 <= n <= T_MAXIMUM t_uintmax -> zlen buf = INT_STRLEN_BOUND + 1 ->
  exists junk ds, inttostr n buf = Ok (junk ++ cstr ds, zlen junk) /\ zlen (junk ++ cstr ds) = zlen buf /\
    Forall is_decimal ds /\ xstrtol t_uintmax ds 10 (Some []) = Ok (LONGINT_OK, Some n, zlen ds).
Proof.
  intros Hn Hbuf. unfold INT_STRLEN_BOUND in *. unfold inttostr.
  destruct (exists_last_or buf) as [->|(junk & x & ->)]; [done|]. rewrite zlen_snoc in Hbuf.
  rewrite (wr_middle junk x [] INT_STRLEN_BOUND) by (unfold INT_STRLEN_BOUND; lia). cbn [bind].
  destruct (inttostr_loop 20 n INT_STRLEN_BOUND junk [0]) as (junk' & ds & E & Hne & Hds & Hv);
    [lia|simpl in *; lia|unfold INT_STRLEN_BOUND; lia|unfold INT_STRLEN_BOUND; lia|].
  exists junk', ds. split_and!; [done| |done|].
  - rewrite zlen_snoc. apply inttostr_loop_len in E. simpl in E. by rewrite zlen_snoc in E.
  - assert (type_ok t_uintmax) as Ht by done. rewrite <- (app_nil_r ds) at 1.
    pose proof (xstrtol_decimal t_uintmax false ds [] (Some []) Ht) as Hx. cbn [sign_str app] in Hx.
    rewrite Hx by done. unfold read_suffix.
    rewrite app_nil_r, rd_cstr_end by done. cbn [signed_value]. rewrite Hv.
    by rewrite range_error_in, clamp_in by (apply in_type_spec; simpl in *; lia).
Qed.

Lemma umaxtostr_roundtrip_witness :
  inttostr 42 (replicate 21 7) = Ok (replicate 18 7 ++ cstr (bytes "42"), 18) /\
  exists junk ds, inttostr 42 (replicate 21 7) = Ok (junk ++ cstr ds, zlen junk) /\
    zlen (junk ++ cstr ds) = zlen (replicate 21 7) /\
    Forall is_decimal ds /\ xstrtol t_uintmax ds 10 (Some []) = Ok (LONGINT_OK, Some 42, zlen ds).
Proof.
  split; [vm_compute; reflexivity|]. apply (umaxtostr_roundtrip 42 (replicate 21 7)); [simpl; lia|reflexivity].
Defined.

(** 1K is read as 2^30. *)
Lemma kilo_is_giga :
  xstrtol t_long (bytes "1K") 10 (Some (bytes "KG")) = Ok (LONGINT_OK, Some (1024 * 1024 * 1024), 2).
Proof. vm_compute. reflexivity. Qed.
