(* ===== verification/IRing.v ===== *)
(** * The ring buffer of utils/coreutils/lib/i-ring.c

    A ring of I_RING_SIZE ints that forgets its oldest value when it is full.
    It is shown to be a bounded stack: pushing puts a value on top and gives
    back the one that falls off the bottom, popping takes the top. *)

From S2P Require Import Prelude Arrays.
Open Scope Z_scope.

Definition I_RING_SIZE : Z := 4.

Record I_ring := Ring {
  ir_data : list Z;
  ir_default_val : Z;
  ir_front : Z;
  ir_back : Z;
  ir_empty : bool
}.

(** The fields of [ir] are overwritten; its array keeps its size. *)
Definition i_ring_init (ir : I_ring) (default_val : Z) : res I_ring :=
  let* data := for_up 0 I_RING_SIZE (fun i data => wr data i default_val) (ir_data ir) in
  Ok (Ring data default_val 0 0 true).

(** [!b] as an operand of [+] *)
Definition not_int (b : bool) : Z := if b then 0 else 1.

Definition i_ring_push (ir : I_ring) (val : Z) : res (Z * I_ring) :=
  let dest_idx := u32 (ir_front ir + not_int (ir_empty ir)) mod I_RING_SIZE in
  let* old_val := rd (ir_data ir) dest_idx in
  let* data := wr (ir_data ir) dest_idx val in
  let back :=
    if dest_idx =? ir_back ir then u32 (ir_back ir + not_int (ir_empty ir)) mod I_RING_SIZE
    else ir_back ir in
  Ok (old_val, Ring data (ir_default_val ir) dest_idx back false).

Definition i_ring_empty (ir : I_ring) : bool := ir_empty ir.

Definition i_ring_pop (ir : I_ring) : res (Z * I_ring) :=
  if i_ring_empty ir then Fail Aborted
  else
    let* top_val := rd (ir_data ir) (ir_front ir) in
    let* data := wr (ir_data ir) (ir_front ir) (ir_default_val ir) in
    if ir_front ir =? ir_back ir
    then Ok (top_val, Ring data (ir_default_val ir) (ir_front ir) (ir_back ir) true)
    else Ok (top_val, Ring data (ir_default_val ir) (u32 (u32 (ir_front ir + I_RING_SIZE) - 1) mod I_RING_SIZE)
                        (ir_back ir) (ir_empty ir)).

(** ** The stack it stands for *)

(** The ring with front [f] that holds the stack [xs], top first: every other
    cell has the default value. *)
Definition ring_of (f : Z) (xs : list Z) (d : Z) : I_ring :=
  Ring (map (fun j => nth (Z.to_nat ((f - j) mod I_RING_SIZE)) xs d) [0; 1; 2; 3]) d
    f ((f - Z.max 1 (zlen xs) + 1) mod I_RING_SIZE) (bool_decide (xs = [])).

Inductive ring_op := Push (v : Z) | Pop.

(** A bounded stack: what an operation returns and the stack after it. *)
Definition stack_step (d : Z) (xs : list Z) (o : ring_op) : res (Z * list Z) :=
  match o, xs with
  | Push v, _ => Ok (nth 3 xs d, take 4 (v :: xs))
  | Pop, [] => Fail Aborted
  | Pop, x :: xs => Ok (x, xs)
  end.

Definition ring_step (ir : I_ring) (o : ring_op) : res (Z * I_ring) :=
  match o with Push v => i_ring_push ir v | Pop => i_ring_pop ir end.

(** A session: the returned values in order, up to an abort. *)
Fixpoint session {S} (step : S -> ring_op -> res (Z * S)) (s : S) (os : list ring_op) : res (list Z * S) :=
  match os with
  | [] => Ok ([], s)
  | o :: os =>
      let* (r, s) := step s o in
      let* (rs, s) := session step s os in
      Ok (r :: rs, s)
  end.

(** The four positions of the front and the five fill levels. *)
Ltac ring_cases f xs :=
  assert (f = 0 \/ f = 1 \/ f = 2 \/ f = 3) as [-> | [-> | [-> | -> ]]] by (unfold I_RING_SIZE in *; lia);
  destruct xs as [|?x1 [|?x2 [|?x3 [|?x4 [|?x5 xs]]]]]; simpl in *; try lia; try done.

Lemma push_ok f xs d v :
  0 <= f < I_RING_SIZE -> (length xs <= 4)%nat ->
  exists f', 0 <= f' < I_RING_SIZE /\
    i_ring_push (ring_of f xs d) v = Ok (nth 3 xs d, ring_of f' (take 4 (v :: xs)) d).
Proof.
  intros Hf Hl. exists ((f + not_int (bool_decide (xs = []))) mod I_RING_SIZE).
  split; [by apply Z.mod_pos_bound|]. ring_cases f xs.
Qed.

Lemma pop_ok f x xs d :
  0 <= f < I_RING_SIZE -> (length (x :: xs) <= 4)%nat ->
  exists f', 0 <= f' < I_RING_SIZE /\ i_ring_pop (ring_of f (x :: xs) d) = Ok (x, ring_of f' xs d).
Proof.
  intros Hf Hl. exists (if bool_decide (xs = []) then f else (f + 3) mod I_RING_SIZE).
  split; [case_bool_decide; [done|by apply Z.mod_pos_bound]|]. ring_cases f xs.
Qed.

Lemma init_ok ir d : zlen (ir_data ir) = I_RING_SIZE -> i_ring_init ir d = Ok (ring_of 0 [] d).
Proof.
  destruct ir as [data ? ? ? ?]. simpl. intros Hl. unfold zlen, I_RING_SIZE in Hl.
  destruct data as [|? [|? [|? [|? [|? ?]]]]]; simpl in Hl; try lia. done.
Qed.

Lemma session_ok os : forall f xs d,
  0 <= f < I_RING_SIZE -> (length xs <= 4)%nat ->
  match session (stack_step d) xs os with
  | Ok (rs, xs') => (length xs' <= 4)%nat /\
      exists f', 0 <= f' < I_RING_SIZE /\ session ring_step (ring_of f xs d) os = Ok (rs, ring_of f' xs' d)
  | Fail e => session ring_step (ring_of f xs d) os = Fail e
  end.
Proof.
  induction os as [|o os IH]; intros f xs d Hf Hl; cbn [session]; [split; [done|]; by exists f|].
  assert (forall r xs', stack_step d xs o = Ok (r, xs') ->
    (length xs' <= 4)%nat /\ exists f', 0 <= f' < I_RING_SIZE /\ ring_step (ring_of f xs d) o = Ok (r, ring_of f' xs' d))
    as Hstep.
  { destruct o as [v|]; cbn [stack_step ring_step].
    - intros r xs' [= <- <-]. split; [apply (firstn_le_length 4 (v :: xs))|]. by apply push_ok.
    - destruct xs as [|x xs]; [done|]. intros r xs' [= <- <-]. split; [simpl in Hl; lia|]. by apply pop_ok. }
  destruct (stack_step d xs o) as [[r xs']|e] eqn:E; cbn [bind].
  - destruct (Hstep r xs' eq_refl) as (Hl' & f' & Hf' & ->). cbn [bind]. specialize (IH f' xs' d Hf' Hl').
    destruct (session (stack_step d) xs' os) as [[rs xs'']|e]; cbn [bind]; [|by rewrite IH].
    destruct IH as (Hl'' & f'' & Hf'' & ->). split; [done|]. by exists f''.
  - assert (ring_step (ring_of f xs d) o = Fail e) as ->; [|done].
    destruct o as [v|]; [done|]. destruct xs; [|done]. by injection E as <-.
Qed.

(** Any sequence of pushes and pops on a ring after i_ring_init returns
    what a stack of at most four values returns: a push gives back the value
    that falls off a full stack and the default value otherwise, a pop the
    top; popping an empty ring aborts, nothing else faults, and at the end the
    cells hold exactly the stack, all others the default value. *)
Theorem ring_is_bounded_stack ir d os :
  zlen (ir_data ir) = I_RING_SIZE ->
  exists ir0, i_ring_init ir d = Ok ir0 /\
  match session (stack_step d) [] os with
  | Ok (rs, xs) => (length xs <= 4)%nat /\ exists f, 0 <= f < I_RING_SIZE /\
      session ring_step ir0 os = Ok (rs, ring_of f xs d)
  | Fail e => session ring_step ir0 os = Fail e
  end.
Proof.
  intros Hl. exists (ring_of 0 [] d). split; [by apply init_ok|]. apply session_ok; [unfold I_RING_SIZE; lia|simpl; lia].
Qed.

Lemma ring_is_bounded_stack_witness :
  session (stack_step 9) [] [Push 1; Push 2; Push 3; Push 4; Push 5; Pop; Pop] = Ok ([9; 9; 9; 9; 1; 5; 4], [3; 2]) /\
  exists ir0, i_ring_init (Ring [0; 0; 0; 0] 0 7 7 false) 9 = Ok ir0 /\
  match session (stack_step 9) [] [Push 1; Push 2; Push 3; Push 4; Push 5; Pop; Pop] with
  | Ok (rs, xs) => (length xs <= 4)%nat /\ exists f, 0 <= f < I_RING_SIZE /\
      session ring_step ir0 [Push 1; Push 2; Push 3; Push 4; Push 5; Pop; Pop] = Ok (rs, ring_of f xs 9)
  | Fail e => session ring_step ir0 [Push 1; Push 2; Push 3; Push 4; Push 5; Pop; Pop] = Fail e
  end.
Proof.
  split; [vm_compute; reflexivity|].
  apply (ring_is_bounded_stack (Ring [0; 0; 0; 0] 0 7 7 false) 9 [Push 1; Push 2; Push 3; Push 4; Push 5; Pop; Pop]).
  reflexivity.
Defined.
