(* ===== verification/RandInt.v ===== *)
(** * Random integers: utils/coreutils/lib/randint.c

    randint_genmax draws a number from 0 to GENMAX out of a source of random
    bytes, keeping what is left of the randomness for the next call.  The
    source is a file (randread.c, readsource): the bytes it still holds, whose
    end leaves the program.  The theorem is about fairness: among all equally
    likely states and byte strings each number is returned equally often. *)

From S2P Require Import Prelude Arrays.
Open Scope Z_scope.

Definition UCHAR_MAX : Z := 255.

(** [source] is what is left of the file. *)
Record randint_source := Source { source : list Z; randnum : Z; randmax : Z }.

Definition randint_new (source : list Z) : randint_source := Source source 0 0.

(** [randread] on a file: at its end the error handler exits. *)
Definition randread (source : list Z) (size : Z) : res (list Z * list Z) :=
  if size <=? zlen source then Ok (take (Z.to_nat size) source, drop (Z.to_nat size) source)
  else Fail (ExitCall 1).

(** [x << CHAR_BIT] of a 64-bit randint; HUGE_BYTES is 0. *)
Definition shift_left (x : Z) : Z := u64 (Z.shiftl x 8).

(** [do { rmax = shift_left(rmax) + UCHAR_MAX; i++; } while (rmax < genmax);]
    Nine turns fill 64 bits whatever the start. *)
Definition needed_turn (genmax : Z) (st : Z * Z) : res (Z * Z + Z) :=
  let '(i, rmax) := st in
  let rmax := u64 (shift_left rmax + UCHAR_MAX) in
  let i := i + 1 in
  if rmax <? genmax then Ok (inl (i, rmax)) else Ok (inr i).

Definition bytes_needed (genmax rmax : Z) : res Z := loop 9 (needed_turn genmax) (0, rmax).

(** The bytes are appended to randnum. *)
Definition append_turn (genmax : Z) (buf : list Z) (st : Z * Z * Z) : res (Z * Z * Z + Z * Z) :=
  let '(i, randnum, randmax) := st in
  let* b := rd buf i in
  let randnum := u64 (shift_left randnum + b) in
  let randmax := u64 (shift_left randmax + UCHAR_MAX) in
  let i := i + 1 in
  if randmax <? genmax then Ok (inl (i, randnum, randmax)) else Ok (inr (randnum, randmax)).

Definition append_bytes (genmax : Z) (buf : list Z) (randnum randmax : Z) : res (Z * Z) :=
  loop 9 (append_turn genmax buf) (0, randnum, randmax).

(** One turn of the loop: a new state to retry with, or the result and the
    source after the call. *)
Definition genmax_turn (genmax : Z) (st : randint_source) : res (randint_source + Z * randint_source) :=
  let '(Source src randnum randmax) := st in
  let choices := u64 (genmax + 1) in
  let* (src, randnum, randmax) :=
    if randmax <? genmax then
      let* i := bytes_needed genmax randmax in
      let* (buf, src) := randread src i in
      let* (randnum, randmax) := append_bytes genmax buf randnum randmax in
      Ok (src, randnum, randmax)
    else Ok (src, randnum, randmax) in
  if randmax =? genmax then Ok (inr (randnum, Source src 0 0))
  else
    let* _ := demand (negb (choices =? 0)) DivByZero in
    let excess_choices := u64 (randmax - genmax) in
    let unusable_choices := excess_choices mod choices in
    let last_usable_choice := u64 (randmax - unusable_choices) in
    let reduced_randnum := randnum mod choices in
    if randnum <=? last_usable_choice then
      Ok (inr (reduced_randnum, Source src (randnum / choices) (excess_choices / choices)))
    else Ok (inl (Source src reduced_randnum (u64 (unusable_choices - 1)))).

(** Every retry needs a byte. *)
Definition randint_genmax (s : randint_source) (genmax : Z) : res (Z * randint_source) :=
  loop (S (S (length (source s)))) (genmax_turn genmax) s.

(** ** One byte at a time *)

Section draw.
Context (genmax : Z).

(** What is done with a number [x] that is uniform in 0 .. [m], when
    [genmax <= m]: a result with what is left, or a smaller number. *)
Definition settle (x m : Z) : Z * Z * Z + Z * Z :=
  let c := genmax + 1 in
  if m =? genmax then inl (x, 0, 0)
  else
    let u := (m - genmax) mod c in
    if x <=? m - u then inl (x mod c, x / c, (m - genmax) / c) else inr (x mod c, u - 1).

(** The same algorithm, reading a byte when the number is too small. *)
Fixpoint draw (x m : Z) (bs : list Z) : option (Z * randint_source) :=
  match (if m <? genmax then inr (x, m) else settle x m) with
  | inl (r, x', m') => Some (r, Source bs x' m')
  | inr (x', m') =>
      match bs with
      | [] => None
      | b :: bs => draw (256 * x' + b) (256 * m' + 255) bs
      end
  end.

Definition byte (b : Z) : Prop := 0 <= b <= UCHAR_MAX.

Context (Hg : 0 <= genmax < 2 ^ 56).

Lemma draw_small x m b bs : m < genmax -> draw x m (b :: bs) = draw (256 * x + b) (256 * m + 255) bs.
Proof. intros Hm. cbn [draw]. by rewrite (proj2 (Z.ltb_lt m genmax)). Qed.

Lemma draw_settle x m bs : genmax <= m ->
  draw x m bs =
  match settle x m with
  | inl (r, x', m') => Some (r, Source bs x' m')
  | inr (x', m') => match bs with [] => None | b :: bs => draw (256 * x' + b) (256 * m' + 255) bs end
  end.
Proof. intros Hm. destruct bs; cbn [draw]; by rewrite (proj2 (Z.ltb_ge m genmax)). Qed.

Lemma push_byte x b : 0 <= x < 2 ^ 56 -> byte b -> u64 (shift_left x + b) = 256 * x + b.
Proof.
  intros Hx Hb. unfold shift_left, u64, byte, UCHAR_MAX in *. rewrite Z.shiftl_mul_pow2 by lia.
  rewrite (Z.mod_small (x * 2 ^ 8)) by lia. rewrite Z.mod_small by lia. lia.
Qed.

(** The number of bytes read is the number the other loop appends; [draw] is
    at the same number after them. *)
Lemma append_draw : forall f m j, (0 < f)%nat -> 0 <= m < genmax -> genmax <= 256 ^ Z.of_nat f * (m + 1) - 1 ->
  exists i m', 0 < i /\ loop f (needed_turn genmax) (j, m) = Ok (j + i) /\ genmax <= m' < 2 ^ 64 /\
  forall x, 0 <= x <= m ->
    (forall bs, zlen bs < i -> Forall byte bs -> draw x m bs = None) /\
    forall pre bs, zlen pre = j -> zlen bs = i -> Forall byte bs ->
      exists x', 0 <= x' <= m' /\ loop f (append_turn genmax (pre ++ bs)) (j, x, m) = Ok (x', m') /\
        forall rest, draw x m (bs ++ rest) = draw x' m' rest.
Proof.
  induction f as [|f IH]; intros m j Hf Hm Hpow; [lia|]. cbn [loop]. unfold needed_turn at 1.
  rewrite push_byte by (unfold byte, UCHAR_MAX in *; lia). unfold UCHAR_MAX.
  destruct (Z.ltb_spec (256 * m + 255) genmax) as [Hlt|Hge]; cbn [bind].
  - rewrite Nat2Z.inj_succ, Z.pow_succ_r in Hpow by lia.
    destruct (IH (256 * m + 255) (j + 1)) as (i & m' & Hi & -> & Hm' & Hall); [|lia|nia|].
    { destruct f; [simpl in Hpow; lia|lia]. }
    exists (i + 1), m'. split_and!; [lia|f_equal; lia|lia|lia|]. intros x Hx. split.
    + intros [|b bs] Hl Hbs; [cbn [draw]; by rewrite (proj2 (Z.ltb_lt m genmax)) by lia|]. rewrite zlen_cons in Hl.
      apply Forall_cons in Hbs as [Hb Hbs]. rewrite draw_small by lia.
      apply Hall; [unfold byte, UCHAR_MAX in Hb; lia|lia|done].
    + intros pre [|b bs] Hpre Hl Hbs; [change (zlen []) with 0 in Hl; lia|]. rewrite zlen_cons in Hl.
      apply Forall_cons in Hbs as [Hb Hbs]. unfold append_turn at 1. rewrite rd_middle by done. cbn [bind].
      rewrite !push_byte by (done || lia || (unfold byte, UCHAR_MAX; lia)). unfold UCHAR_MAX.
      rewrite (proj2 (Z.ltb_lt (256 * m + 255) genmax)) by done. cbn [bind].
      destruct (Hall (256 * x + b)) as [_ H]; [unfold byte, UCHAR_MAX in Hb; lia|].
      destruct (H (pre ++ [b]) bs) as (x' & Hx' & E & Hd); [rewrite zlen_snoc; lia|lia|done|].
      rewrite <- app_assoc in E. exists x'. split_and!; [lia|lia|done|]. intros rest. cbn [app].
      rewrite draw_small by lia. apply Hd.
  - exists 1, (256 * m + 255). split_and!; [lia|done|lia|lia|]. intros x Hx. split.
    + intros bs Hl Hbs. pose proof (zlen_nonneg bs). destruct bs; [|rewrite zlen_cons in *; pose proof (zlen_nonneg bs); lia].
      cbn [draw]. by rewrite (proj2 (Z.ltb_lt m genmax)) by lia.
    + intros pre [|b [|b' bs]] Hpre Hl Hbs; [done| |rewrite !zlen_cons in Hl; pose proof (zlen_nonneg bs); lia].
      apply Forall_cons in Hbs as [Hb Hbs]. unfold append_turn at 1. rewrite rd_middle by done. cbn [bind].
      rewrite !push_byte by (done || lia || (unfold byte, UCHAR_MAX; lia)). unfold UCHAR_MAX.
      rewrite (proj2 (Z.ltb_ge (256 * m + 255) genmax)) by done. cbn [bind].
      exists (256 * x + b). unfold byte, UCHAR_MAX in Hb. split_and!; [lia|lia|done|].
      intros rest. cbn [app]. by rewrite draw_small by lia.
Qed.

(** What the code does with a number that is large enough. *)
Lemma settle_code x m : 0 <= x <= m -> genmax <= m < 2 ^ 64 ->
  match settle x m with
  | inl (r, x', m') => 0 <= r <= genmax /\ 0 <= x' <= m' /\ m' < 2 ^ 64
  | inr (x', m') => 0 <= x' <= m' /\ m' < genmax
  end.
Proof.
  intros Hx Hm. unfold settle. destruct (Z.eqb_spec m genmax) as [->|Hne]; [lia|].
  pose proof (Z.mod_pos_bound (m - genmax) (genmax + 1) ltac:(lia)) as Hu.
  pose proof (Z.mod_pos_bound x (genmax + 1) ltac:(lia)) as Hr.
  pose proof (Z.div_mod (m - genmax) (genmax + 1) ltac:(lia)) as Hdm.
  pose proof (Z.div_mod x (genmax + 1) ltac:(lia)) as Hdx.
  assert (0 <= (m - genmax) / (genmax + 1)) by (apply Z.div_pos; lia).
  set (u := (m - genmax) mod (genmax + 1)) in *. set (k := (m - genmax) / (genmax + 1)) in *.
  destruct (Z.leb_spec x (m - u)).
  - split_and!; [lia|lia|apply Z.div_pos; lia| |nia].
    assert (x < (genmax + 1) * (k + 1)) by lia. apply Z.lt_succ_r. apply Z.div_lt_upper_bound; lia.
  - assert (x / (genmax + 1) = k + 1) as Hk.
    { symmetry. apply (Z.div_unique x (genmax + 1) (k + 1) (x - (genmax + 1) * (k + 1))); [|lia]. left. nia. }
    rewrite Hk in Hdx. nia.
Qed.

(** Without the reading part. *)
Lemma genmax_turn_large x m src : genmax <= m ->
  genmax_turn genmax (Source src x m) =
  if m =? genmax then Ok (inr (x, Source src 0 0))
  else
    let* _ := demand (negb (u64 (genmax + 1) =? 0)) DivByZero in
    let excess_choices := u64 (m - genmax) in
    let unusable_choices := excess_choices mod u64 (genmax + 1) in
    if x <=? u64 (m - unusable_choices) then
      Ok (inr (x mod u64 (genmax + 1), Source src (x / u64 (genmax + 1)) (excess_choices / u64 (genmax + 1))))
    else Ok (inl (Source src (x mod u64 (genmax + 1)) (u64 (unusable_choices - 1)))).
Proof. intros Hm. unfold genmax_turn. by rewrite (proj2 (Z.ltb_ge m genmax)). Qed.

Lemma genmax_turn_settle x m src :
  0 <= x <= m -> genmax <= m < 2 ^ 64 ->
  genmax_turn genmax (Source src x m) =
  Ok (match settle x m with
      | inl (r, x', m') => inr (r, Source src x' m')
      | inr (x', m') => inl (Source src x' m')
      end).
Proof.
  intros Hx Hm. rewrite genmax_turn_large by lia. unfold settle.
  destruct (Z.eqb_spec m genmax) as [->|Hne]; [done|]. pose proof (settle_code x m Hx Hm) as Hs. unfold settle in Hs.
  rewrite (proj2 (Z.eqb_neq m genmax) Hne) in Hs.
  pose proof (Z.mod_pos_bound (m - genmax) (genmax + 1) ltac:(lia)) as Hu.
  assert ((m - genmax) mod (genmax + 1) <= m - genmax) as Hum by (apply Z.mod_le; lia).
  unfold u64. rewrite (Z.mod_small (genmax + 1)) by lia. rewrite (Z.mod_small (m - genmax)) by lia.
  rewrite (Z.mod_small (m - _ mod _)) by lia. rewrite (proj2 (Z.eqb_neq (genmax + 1) 0)) by lia. cbn [bind demand negb].
  destruct (Z.leb_spec x (m - (m - genmax) mod (genmax + 1))); [done|].
  rewrite (Z.mod_small (_ - 1)) by lia. done.
Qed.

Lemma draw_range : forall bs x m, 0 <= x <= m -> m < 2 ^ 64 -> Forall byte bs ->
  match draw x m bs with
  | Some (r, s) => 0 <= r <= genmax /\ 0 <= randnum s <= randmax s /\ randmax s < 2 ^ 64 /\
      exists used, bs = used ++ source s
  | None => True
  end.
Proof.
  induction bs as [|b bs IH]; intros x m Hx Hm Hbs; cbn [draw].
  - destruct (Z.ltb_spec m genmax); [done|]. pose proof (settle_code x m Hx ltac:(lia)) as Hs.
    destruct (settle x m) as [[[r x'] m']|[x' m']]; [|done]. cbn. split_and!; try lia. by exists [].
  - apply Forall_cons in Hbs as [Hb Hbs]. unfold byte, UCHAR_MAX in Hb.
    assert (forall x' m', 0 <= x' <= m' -> m' < genmax ->
      match draw (256 * x' + b) (256 * m' + 255) bs with
      | Some (r, s) => 0 <= r <= genmax /\ 0 <= randnum s <= randmax s /\ randmax s < 2 ^ 64 /\
          exists used, b :: bs = used ++ source s
      | None => True
      end) as Hread.
    { intros x' m' Hx' Hm'. specialize (IH (256 * x' + b) (256 * m' + 255) ltac:(lia) ltac:(lia) Hbs).
      destruct (draw (256 * x' + b) (256 * m' + 255) bs) as [[r s]|]; [|done].
      destruct IH as (? & ? & ? & used & ->). split_and!; try lia. by exists (b :: used). }
    destruct (Z.ltb_spec m genmax); [by apply Hread|]. pose proof (settle_code x m Hx ltac:(lia)) as Hs.
    destruct (settle x m) as [[[r x'] m']|[x' m']]; [|apply Hread; lia]. cbn. split_and!; try lia. by exists [].
Qed.

Lemma genmax_draw : forall f src x m,
  (length src + (if (m <? genmax)%Z then 1 else 2) <= f)%nat -> 0 <= x <= m -> m < 2 ^ 64 -> Forall byte src ->
  loop f (genmax_turn genmax) (Source src x m) =
  match draw x m src with Some (r, s) => Ok (r, s) | None => Fail (ExitCall 1) end.
Proof.
  induction f as [|f IH]; intros src x m Hf Hx Hm Hsrc; [destruct (m <? genmax); lia|]. cbn [loop].
  assert (forall src x m, (length src + 1 <= f)%nat -> 0 <= x <= m -> genmax <= m < 2 ^ 64 -> Forall byte src ->
    (let* r := genmax_turn genmax (Source src x m) in
     match r with inl s' => loop f (genmax_turn genmax) s' | inr r => Ok r end) =
    match draw x m src with Some (r, s) => Ok (r, s) | None => Fail (ExitCall 1) end) as Hbig.
  { clear src x m Hf Hx Hm Hsrc. intros src x m Hf Hx Hm Hsrc. rewrite genmax_turn_settle by done. cbn [bind].
    rewrite draw_settle by lia. pose proof (settle_code x m Hx Hm) as Hs.
    destruct (settle x m) as [[[r x'] m']|[x' m']]; [done|].
    rewrite IH; [|rewrite (proj2 (Z.ltb_lt m' genmax)) by lia; lia|lia|lia|done].
    destruct src as [|b src]; [cbn [draw]|rewrite draw_small by lia]; [|done].
    by rewrite (proj2 (Z.ltb_lt m' genmax)) by lia. }
  destruct (Z.ltb_spec m genmax) as [Hlt|Hge]; [|apply Hbig; [lia|lia|lia|done]].
  unfold genmax_turn at 1. rewrite (proj2 (Z.ltb_lt m genmax)) by done.
  destruct (append_draw 9 m 0) as (i & m' & Hi & Hn & Hm' & Hall); [lia|lia| |].
  { assert (2 ^ 56 <= 256 ^ Z.of_nat 9) by done. nia. }
  unfold bytes_needed. rewrite Hn. cbn [bind]. destruct (Hall x Hx) as [Hnone Hsome].
  unfold randread. destruct (Z.leb_spec (0 + i) (zlen src)) as [Hl|Hl]; cbn [bind]; [|by rewrite Hnone by (done || lia)].
  rewrite <- (take_drop (Z.to_nat (0 + i)) src) in Hsrc. apply Forall_app in Hsrc as [Ht Hd].
  destruct (Hsome [] (take (Z.to_nat (0 + i)) src)) as (x' & Hx' & Ha & Hdraw);
    [done|unfold zlen in *; rewrite length_take; lia|done|].
  unfold append_bytes. cbn [app] in Ha. rewrite Ha. cbn [bind].
  assert (draw x m src = draw x' m' (drop (Z.to_nat (0 + i)) src)) as -> by (by rewrite <- Hdraw, take_drop).
  rewrite <- Hbig; [|rewrite length_drop; unfold zlen in Hl; lia|lia|lia|done].
  by rewrite (genmax_turn_large x' m' (drop (Z.to_nat (0 + i)) src)) by lia.
Qed.

Lemma randint_genmax_draw src x m :
  0 <= x <= m -> m < 2 ^ 64 -> Forall byte src ->
  randint_genmax (Source src x m) genmax =
  match draw x m src with Some (r, s) => Ok (r, s) | None => Fail (ExitCall 1) end.
Proof.
  intros Hx Hm Hsrc. unfold randint_genmax. apply genmax_draw; [|done..]. cbn [source]. destruct (m <? genmax); lia.
Qed.
End draw.

(** ** Counting *)

(** The sum of [f] over 0 .. [n] - 1, and over the byte strings of length
    [n]. *)
Fixpoint below (n : nat) (f : Z -> Z) : Z :=
  match n with
  | O => 0
  | S k => below k f + f (Z.of_nat k)
  end.

Fixpoint over_bytes (n : nat) (f : list Z -> Z) : Z :=
  match n with
  | O => f []
  | S k => below 256 (fun b => over_bytes k (fun bs => f (b :: bs)))
  end.

Lemma below_S n f : below (S n) f = below n f + f (Z.of_nat n).
Proof. done. Qed.

Lemma below_ext n f g : (forall i, 0 <= i < Z.of_nat n -> f i = g i) -> below n f = below n g.
Proof.
  induction n as [|n IH]; intros H; [done|]. cbn [below]. rewrite IH by (intros; apply H; lia).
  by rewrite H by lia.
Qed.

Lemma over_bytes_ext n : forall f g,
  (forall bs, length bs = n -> Forall byte bs -> f bs = g bs) -> over_bytes n f = over_bytes n g.
Proof.
  induction n as [|n IH]; intros f g H; [by apply H|]. cbn [over_bytes]. apply below_ext. intros b Hb. apply IH.
  intros bs Hl Hbs. apply H; [simpl; lia|]. constructor; [|done]. unfold byte, UCHAR_MAX. lia.
Qed.

Lemma below_const n c : below n (fun _ => c) = Z.of_nat n * c.
Proof. induction n as [|n IH]; [done|]. cbn [below]. rewrite IH. lia. Qed.

Lemma over_bytes_const n c : over_bytes n (fun _ => c) = 256 ^ Z.of_nat n * c.
Proof.
  induction n as [|n IH]; [simpl; lia|]. cbn [over_bytes]. rewrite (below_ext _ _ (fun _ => 256 ^ Z.of_nat n * c)) by done.
  rewrite below_const, (Nat2Z.inj_succ n), Z.pow_succ_r by lia. lia.
Qed.

Lemma below_add a b f : below (a + b) f = below a f + below b (fun i => f (Z.of_nat a + i)).
Proof.
  induction b as [|b IH]; [rewrite Nat.add_0_r; simpl; lia|]. rewrite Nat.add_succ_r. cbn [below]. rewrite IH, Nat2Z.inj_add. lia.
Qed.

(** Appending a byte to every number below [n] gives every number below
    [256 * n]. *)
Lemma below_byte n f : below n (fun x => below 256 (fun b => f (256 * x + b))) = below (n * 256) f.
Proof.
  induction n as [|n IH]; [done|]. rewrite below_S, IH. replace (S n * 256)%nat with (n * 256 + 256)%nat by lia.
  rewrite below_add. f_equal. apply below_ext. intros i Hi. f_equal. lia.
Qed.

Lemma below_one n r w : 0 <= r < Z.of_nat n -> below n (fun i => if i =? r then w else 0) = w.
Proof.
  induction n as [|n IH]; intros Hr; [lia|]. cbn [below]. destruct (Z.eqb_spec (Z.of_nat n) r) as [<-|].
  - rewrite (below_ext _ _ (fun _ => 0)); [rewrite below_const; lia|]. intros i Hi.
    by rewrite (proj2 (Z.eqb_neq i _)) by lia.
  - rewrite IH by lia. lia.
Qed.

Lemma below_mod k c r w : (0 < c)%nat -> 0 <= r < Z.of_nat c ->
  below (k * c) (fun x => if x mod Z.of_nat c =? r then w else 0) = Z.of_nat k * w.
Proof.
  intros Hc Hr. induction k as [|k IH]; [done|]. cbn [Nat.mul]. rewrite Nat.add_comm, below_add, IH.
  rewrite (below_ext c _ (fun i => if i =? r then w else 0)); [rewrite below_one by done; lia|].
  intros i Hi. replace (Z.of_nat (k * c) + i) with (i + Z.of_nat k * Z.of_nat c) by lia.
  by rewrite Z.mod_add, Z.mod_small by lia.
Qed.

(** ** Fairness *)

(** 1 when the call returns [r]. *)
Definition returns (r : Z) (o : res (Z * randint_source)) : Z :=
  match o with Ok (r', _) => if r' =? r then 1 else 0 | Fail _ => 0 end.

(** The number of states (a number in 0 .. [m]) and byte strings of length [n]
    for which the call returns [r]. *)
Definition chances (genmax m : Z) (n : nat) (r : Z) : Z :=
  below (Z.to_nat (m + 1)) (fun x => over_bytes n (fun bs => returns r (randint_genmax (Source bs x m) genmax))).

Section fair.
Context (genmax : Z) (Hg : 0 <= genmax < 2 ^ 56).

Definition hit (r : Z) (o : option (Z * randint_source)) : Z :=
  match o with Some (r', _) => if r' =? r then 1 else 0 | None => 0 end.

Definition hits (m : Z) (n : nat) (r : Z) : Z :=
  below (Z.to_nat (m + 1)) (fun x => over_bytes n (fun bs => hit r (draw genmax x m bs))).

Lemma chances_hits m n r : 0 <= m < 2 ^ 64 -> chances genmax m n r = hits m n r.
Proof.
  intros Hm. apply below_ext. intros x Hx. apply over_bytes_ext. intros bs Hl Hbs.
  rewrite randint_genmax_draw by (done || lia). by destruct (draw genmax x m bs) as [[? ?]|].
Qed.

(** Reading a byte. *)
Lemma hits_read m n r : 0 <= m < genmax -> hits m (S n) r = hits (256 * m + 255) n r.
Proof.
  intros Hm. unfold hits. cbn [over_bytes].
  replace (Z.to_nat (256 * m + 255 + 1)) with (Z.to_nat (m + 1) * 256)%nat by lia. rewrite <- below_byte.
  apply below_ext. intros x Hx. apply below_ext. intros b Hb. apply over_bytes_ext. intros bs _ _.
  by rewrite draw_small by lia.
Qed.

Lemma hits_no_bytes m r : 0 <= m < genmax -> hits m 0 r = 0.
Proof.
  intros Hm. unfold hits. cbn [over_bytes].
  rewrite (below_ext _ _ (fun _ => 0)); [rewrite below_const; lia|]. intros x Hx.
  cbn [draw]. by rewrite (proj2 (Z.ltb_lt m genmax)) by lia.
Qed.

(** How often a large enough number gives each result, and how many of its
    values are left over. *)
Definition quota (m : Z) : Z := (m - genmax) / (genmax + 1) + 1.
Definition leftover (m : Z) : Z := (m - genmax) mod (genmax + 1).

Lemma hits_settle m n r : genmax <= m -> 0 <= r <= genmax ->
  hits m n r = quota m * 256 ^ Z.of_nat n + (if leftover m =? 0 then 0 else hits (leftover m - 1) n r).
Proof.
  intros Hm Hr. set (c := genmax + 1). set (u := leftover m). set (k := quota m).
  pose proof (Z.mod_pos_bound (m - genmax) c ltac:(lia)) as Hu.
  pose proof (Z.div_mod (m - genmax) c ltac:(lia)) as Hdm. change ((m - genmax) mod c) with u in Hu, Hdm.
  assert (0 <= (m - genmax) / c) by (apply Z.div_pos; lia).
  assert (k = (m - genmax) / c + 1) as Hk by done. unfold hits.
  replace (Z.to_nat (m + 1)) with (Z.to_nat k * Z.to_nat c + Z.to_nat u)%nat by nia. rewrite below_add. f_equal.
  - rewrite (below_ext _ _ (fun x => if x mod Z.of_nat (Z.to_nat c) =? r then 256 ^ Z.of_nat n else 0)).
    + rewrite below_mod by lia. lia.
    + intros x Hx. rewrite Z2Nat.id by lia.
      rewrite (over_bytes_ext _ _ (fun _ => if x mod c =? r then 1 else 0)).
      { rewrite over_bytes_const. destruct (x mod c =? r); lia. }
      intros bs _ _. rewrite draw_settle by done. unfold settle. fold c. change ((m - genmax) mod c) with u.
      destruct (Z.eqb_spec m genmax) as [->|].
      * cbn [hit]. rewrite Z.mod_small; [done|]. assert (u = 0) by (unfold u, leftover; by rewrite Z.sub_diag). nia.
      * rewrite (proj2 (Z.leb_le x (m - u))) by nia. done.
  - destruct (Z.eqb_spec u 0) as [->|Hu0]; [done|]. replace (u - 1 + 1) with u by lia. apply below_ext. intros y Hy.
    apply over_bytes_ext. intros bs _ _. rewrite draw_settle by done. unfold settle. fold c. change ((m - genmax) mod c) with u.
    assert (m <> genmax) by (intros ->; apply Hu0; unfold u, leftover; by rewrite Z.sub_diag).
    rewrite (proj2 (Z.eqb_neq m genmax)), (proj2 (Z.leb_gt _ (m - u))) by (done || nia).
    replace (Z.of_nat (Z.to_nat k * Z.to_nat c) + y) with (y + k * c) by nia.
    rewrite Z.mod_add, Z.mod_small by lia. destruct bs as [|b bs]; [cbn [draw]|rewrite draw_small by lia]; [|done].
    by rewrite (proj2 (Z.ltb_lt (u - 1) genmax)) by lia.
Qed.

Lemma hits_fair n : forall m r1 r2,
  0 <= m -> 0 <= r1 <= genmax -> 0 <= r2 <= genmax -> hits m n r1 = hits m n r2.
Proof.
  assert (forall n m r1 r2, 0 <= r1 <= genmax -> 0 <= r2 <= genmax ->
    (forall m, 0 <= m < genmax -> hits m n r1 = hits m n r2) -> 0 <= m -> hits m n r1 = hits m n r2) as Hlarge.
  { clear n. intros n m r1 r2 H1 H2 Hs Hm. destruct (decide (m < genmax)); [apply Hs; lia|].
    rewrite (hits_settle m n r1), (hits_settle m n r2) by lia.
    destruct (Z.eqb_spec (leftover m) 0); [done|]. rewrite Hs; [done|].
    pose proof (Z.mod_pos_bound (m - genmax) (genmax + 1) ltac:(lia)). unfold leftover in *. lia. }
  induction n as [|n IH]; intros m r1 r2 Hm H1 H2; apply Hlarge; try done; clear m Hm; intros m Hm.
  - by rewrite !hits_no_bytes by lia.
  - rewrite !hits_read by lia. apply IH; lia.
Qed.
End fair.

(** ** Properties *)

(** C12. randint_genmax is fair.  When the number kept in the source is uniform
    in 0 .. RANDMAX and so are the next n bytes, every result from 0 to GENMAX
    is returned for the same number of states and byte strings, for every n
    and every GENMAX below 2^56. *)
Theorem randint_fair genmax m n r1 r2 :
  0 <= genmax < 2 ^ 56 -> 0 <= m < 2 ^ 64 -> 0 <= r1 <= genmax -> 0 <= r2 <= genmax ->
  chances genmax m n r1 = chances genmax m n r2.
Proof. intros Hg Hm H1 H2. rewrite !chances_hits by done. apply hits_fair; (done || lia). Qed.

Lemma randint_fair_witness :
  chances 5 0 1 3 = 42 /\ chances 5 0 1 0 = chances 5 0 1 5.
Proof. split; [vm_compute; reflexivity|]. apply (randint_fair 5 0 1 0 5); lia. Defined.

(** randint_genmax always ends: it exits at the end of the file, or it
    returns a number from 0 to GENMAX and leaves the source with a number in
    the range it says. *)
Theorem randint_in_range genmax src x m :
  0 <= genmax < 2 ^ 56 -> 0 <= x <= m -> m < 2 ^ 64 -> Forall byte src ->
  runs (randint_genmax (Source src x m) genmax) (eq (ExitCall 1)) (fun '(r, s) =>
    0 <= r <= genmax /\ 0 <= randnum s <= randmax s /\ randmax s < 2 ^ 64 /\ exists used, src = used ++ source s).
Proof.
  intros Hg Hx Hm Hsrc. rewrite randint_genmax_draw by done. unfold runs.
  pose proof (draw_range genmax Hg src x m Hx Hm Hsrc) as H. by destruct (draw genmax x m src) as [[r s]|].
Qed.

Lemma randint_in_range_witness :
  randint_genmax (Source [200; 7] 0 0) 5 = Ok (2, Source [7] 33 41) /\
  runs (randint_genmax (Source [200; 7] 0 0) 5) (eq (ExitCall 1)) (fun '(r, s) =>
    0 <= r <= 5 /\ 0 <= randnum s <= randmax s /\ randmax s < 2 ^ 64 /\ exists used, [200; 7] = used ++ source s).
Proof.
  split; [vm_compute; reflexivity|]. apply (randint_in_range 5 [200; 7] 0 0); [lia|lia|lia|].
  constructor; [|constructor; [|constructor]]; unfold byte, UCHAR_MAX; lia.
Defined.
