(* ===== verification/HashSizes.v ===== *)
(** * Sizes and tuning of the hash table: utils/coreutils/lib/hash.c

    The part of the file that chooses the number of buckets: is_prime and
    next_prime, the tuning values and compute_bucket_size, and the hash
    functions hash_string and raw_hasher.  [size_t] has 64 bits; the tuning
    values are IEEE 754 binary32 through the Standard Library's SpecFloat. *)

From Stdlib Require Import SpecFloat.
From S2P Require Import Prelude Arrays CStrings.
Open Scope Z_scope.

Definition SIZE_MAX : Z := 18446744073709551615.

(** ** Hash functions *)

(** [for (; (ch = *string); string++) value = (value * 31 + ch) % n_buckets;]
    over the characters before the terminator *)
Fixpoint hash_string_loop (s : list Z) (n_buckets value : Z) : res Z :=
  match s with
  | [] => Ok value
  | c :: s =>
      let* _ := demand (negb (n_buckets =? 0)) DivByZero in
      hash_string_loop s n_buckets (u64 (u64 (value * 31) + u8 c) mod n_buckets)
  end.

Definition hash_string (s : list Z) (n_buckets : Z) : res Z := hash_string_loop s n_buckets 0.

(** bitrotate.h *)
Definition rotr_sz (x n : Z) : Z :=
  Z.land (Z.lor (Z.shiftr x n) (u64 (Z.shiftl x (64 - n)))) SIZE_MAX.

Definition raw_hasher (data n : Z) : res Z :=
  let val := rotr_sz data 3 in
  let* _ := demand (negb (n =? 0)) DivByZero in
  Ok (val mod n).

Definition raw_comparator (a b : Z) : res bool := Ok (a =? b).

(** ** Primes *)

Definition is_prime (candidate : Z) : res bool :=
  let* (divisor, _) := while (S (Z.to_nat (Z.sqrt candidate)))
    (fun '(divisor, square) => Ok ((square <? candidate) && negb (candidate mod divisor =? 0)))
    (fun '(divisor, square) =>
       let divisor := u64 (divisor + 1) in
       let square := u64 (square + u64 (4 * divisor)) in
       let divisor := u64 (divisor + 1) in
       Ok (divisor, square)) (3, 9) in
  Ok (negb (candidate mod divisor =? 0)).

(** [fuel] bounds the number of candidates tried. *)
Definition next_prime (fuel : nat) (candidate : Z) : res Z :=
  let candidate := if candidate <? 10 then 10 else candidate in
  let candidate := Z.lor candidate 1 in
  while fuel
    (fun candidate =>
       if candidate =? SIZE_MAX then Ok false
       else let* p := is_prime candidate in Ok (negb p))
    (fun candidate => Ok (u64 (candidate + 2))) candidate.

(** ** Tuning *)

Definition float : Type := spec_float.
Definition float_of_Z (z : Z) : float := binary_normalize 24 128 z 0 false.
Definition add_f : float -> float -> float := SFadd 24 128.
Definition sub_f : float -> float -> float := SFsub 24 128.
Definition mul_f : float -> float -> float := SFmul 24 128.
Definition div_f : float -> float -> float := SFdiv 24 128.

(** Conversion to size_t: the fraction is dropped. *)
Definition size_of_float (f : float) : Z :=
  match f with
  | S754_finite false m e => if 0 <=? e then Z.pos m * 2 ^ e else Z.pos m / 2 ^ (- e)
  | _ => 0
  end.

Record Hash_tuning := Tuning {
  shrink_threshold : float;
  shrink_factor : float;
  growth_threshold : float;
  growth_factor : float;
  is_n_buckets : bool
}.

(** 0.0, 1.0, 0.8 and 1.414 as floats. *)
Definition default_tuning : Hash_tuning :=
  Tuning (S754_zero false) (S754_finite false 8388608 (-23)) (S754_finite false 13421773 (-24))
    (S754_finite false 11861492 (-23)) false.

(** The test of check_tuning, for a tuning that is not the default one. *)
Definition tuning_ok (t : Hash_tuning) : bool :=
  let epsilon := S754_finite false 13421773 (-27) in
  let one := float_of_Z 1 in
  SFltb epsilon (growth_threshold t)
  && SFltb (growth_threshold t) (sub_f one epsilon)
  && SFltb (add_f one epsilon) (growth_factor t)
  && SFleb (float_of_Z 0) (shrink_threshold t)
  && SFltb (add_f (shrink_threshold t) epsilon) (shrink_factor t)
  && SFleb (shrink_factor t) one
  && SFltb (add_f (shrink_threshold t) epsilon) (growth_threshold t).

(** [xalloc_oversized(n, s)] *)
Definition xalloc_oversized (n s : Z) : bool := SIZE_MAX / s <? n.

(** 0 stands for no possible size; a pointer has 8 bytes. *)
Definition compute_bucket_size (fuel : nat) (candidate : Z) (tuning : Hash_tuning) : res Z :=
  let* candidate :=
    if negb (is_n_buckets tuning) then
      let new_candidate := div_f (float_of_Z candidate) (growth_threshold tuning) in
      if SFleb (float_of_Z SIZE_MAX) new_candidate then Ok None
      else Ok (Some (size_of_float new_candidate))
    else Ok (Some candidate) in
  match candidate with
  | None => Ok 0
  | Some candidate =>
      let* candidate := next_prime fuel candidate in
      if xalloc_oversized candidate 8 then Ok 0 else Ok candidate
  end.

(** ** hash_string and raw_hasher stay in range *)

Lemma hash_string_range s n : 0 < n <= SIZE_MAX -> wp (hash_string s n) (fun v => 0 <= v < n).
Proof.
  intros Hn. unfold hash_string. enough (forall v, 0 <= v < n -> wp (hash_string_loop s n v) (fun v => 0 <= v < n)) as H by (apply H; lia).
  induction s as [|c s IH]; intros v Hv; cbn [hash_string_loop]; [done|]. wp_step. unfold demand.
  rewrite (proj2 (Z.eqb_neq n 0)) by lia. cbn [negb wp]. apply IH. apply Z.mod_pos_bound. lia.
Qed.

Lemma raw_hasher_range d n : 0 < n -> wp (raw_hasher d n) (fun v => 0 <= v < n).
Proof.
  intros Hn. unfold raw_hasher. wp_step. unfold demand. rewrite (proj2 (Z.eqb_neq n 0)) by lia. cbn [negb wp bind].
  by apply Z.mod_pos_bound.
Qed.

(** ** The prime test *)

(** Below this, squares of the divisors tried do not wrap. *)
Definition PRIME_MAX : Z := 2 ^ 64 - 2 ^ 35.

(** No divisor from 2 up to [d]. *)
Definition no_divisor (c d : Z) : Prop := forall q, 1 < q < d -> ~ (q | c).

Lemma no_divisor_step c d :
  Z.odd c = true -> Z.odd d = true -> no_divisor c d -> ~ (d | c) -> no_divisor c (d + 2).
Proof.
  intros Hc Hd Hno Hdc q Hq Hqc. destruct (decide (q < d)); [apply (Hno q); [lia|done]|].
  destruct (decide (q = d)) as [->|]; [done|]. assert (q = d + 1) as -> by lia.
  assert (2 | c) as [k ->].
  { apply (Z.divide_trans _ (d + 1)); [|done]. apply Z.odd_spec in Hd as [k ->]. exists (k + 1). lia. }
  rewrite Z.odd_mul in Hc. by rewrite andb_comm in Hc.
Qed.

Lemma no_divisor_prime c d : 1 < c -> no_divisor c d -> c <= d * d -> 0 < d -> ~ (d | c) -> Z.prime c.
Proof.
  intros Hc Hno Hsq Hd Hdc. split; [done|]. intros m Hm [k ->].
  assert (m <> d) by (intros ->; apply Hdc; by exists k).
  destruct (decide (m < d)); [apply (Hno m); [lia|by exists k]|].
  assert (1 < k) by nia. assert (k < d) by nia. apply (Hno k); [lia|]. exists m. lia.
Qed.

Lemma is_prime_correct c :
  11 <= c <= PRIME_MAX -> Z.odd c = true -> wp (is_prime c) (fun b => b = true <-> Z.prime c).
Proof.
  intros Hc Hodd. unfold is_prime. wp_step. pose proof (Z.sqrt_spec c ltac:(lia)) as Hs. cbv zeta in Hs.
  assert (3 <= Z.sqrt c) by (apply Z.sqrt_le_square; lia).
  apply (wp_while (fun '(d, q) => q = d * d /\ 3 <= d <= Z.sqrt c + 2 /\ Z.odd d = true /\ no_divisor c d)
    (fun '(d, _) => Z.sqrt c + 2 - d)).
  - split_and!; [done|lia|lia|done|]. intros q Hq [k ->]. assert (q = 2) as -> by lia.
    rewrite Z.odd_mul in Hodd. by rewrite andb_comm in Hodd.
  - lia.
  - intros [d q] (_ & Hd & _). lia.
  - intros [d q] (-> & Hd & Hdo & Hno). cbn [wp]. destruct (Z.ltb_spec (d * d) c) as [Hlt|Hge]; cbn [andb].
    + assert (d <= Z.sqrt c) by (apply Z.sqrt_le_square; lia).
      assert (d < 2 ^ 32) by (unfold PRIME_MAX in Hc; apply Z.square_lt_simpl_nonneg; lia).
      destruct (Z.eqb_spec (c mod d) 0) as [E|E]; cbn [negb wp].
      * split; [done|]. intros [_ Hp]. exfalso. apply Z.mod_divide in E; [|lia].
        apply (Hp d); [nia|done].
      * unfold u64, PRIME_MAX in *. rewrite (Z.mod_small (d + 1)) by lia. rewrite (Z.mod_small (4 * (d + 1))) by lia.
        rewrite !Z.mod_small by lia. split_and!; try lia.
        -- rewrite Z.odd_add, Z.odd_add, Hdo. done.
        -- replace (d + 1 + 1) with (d + 2) by lia. apply no_divisor_step; [done..|].
           intros Hdc. apply E. by apply Z.mod_divide; [lia|].
    + assert (~ (d | c) -> Z.prime c) as Hpr by (intros Hdc; apply (no_divisor_prime c d); [lia|done|lia|lia|done]).
      assert (d < c) by nia. destruct (Z.eqb_spec (c mod d) 0) as [E|E]; cbn [negb].
      * split; [done|]. intros [_ Hp]. apply Z.mod_divide in E; [|lia]. by destruct (Hp d); [lia|].
      * split; [|done]. intros _. apply Hpr. intros Hdc. apply E. by apply Z.mod_divide; [lia|].
Qed.

(** ** next_prime *)

(** The least prime from [c] on, among those the code can return. *)
Definition least_prime_from (c p : Z) : Prop :=
  Z.prime p /\ c <= p /\ 11 <= p /\ forall q, Z.prime q -> c <= q -> 11 <= q -> p <= q.

Lemma prime_odd p : Z.prime p -> 2 < p -> Z.odd p = true.
Proof.
  intros [_ Hp] H2. destruct (Z.odd p) eqn:E; [done|]. exfalso. apply (Hp 2); [lia|].
  rewrite Zodd_even_bool in E. apply negb_false_iff, Z.even_spec in E as [k ->]. exists k. lia.
Qed.

Lemma lor_1 c : 0 <= c -> Z.lor c 1 = if Z.odd c then c else c + 1.
Proof.
  intros Hc. assert (forall k b, Z.lor (2 * k + Z.b2z b) 1 = 2 * k + 1) as H.
  { intros k b. apply Z.bits_inj'. intros i Hi. rewrite Z.lor_spec.
    destruct (decide (i = 0)) as [->|]; [by rewrite Z.testbit_odd_0, orb_true_r|].
    replace i with (Z.succ (Z.pred i)) by lia. rewrite Z.testbit_odd_succ by lia.
    change 1 with (2 * 0 + 1) at 1. rewrite Z.testbit_odd_succ, Z.bits_0, orb_false_r by lia.
    destruct b; simpl Z.b2z; [by rewrite Z.testbit_odd_succ by lia|].
    rewrite Z.add_0_r. by rewrite Z.testbit_even_succ by lia. }
  rewrite (Z.div2_odd c) at 1. rewrite H. pose proof (Z.div2_odd c) as Hd. destruct (Z.odd c); simpl in Hd; lia.
Qed.

(** For a candidate below the range where squares wrap, next_prime returns
    the least prime that is below neither the candidate nor 10, after at most
    half the distance to it in turns. *)
Theorem next_prime_correct fuel c p :
  0 <= c -> least_prime_from c p -> p <= PRIME_MAX -> p - c < 2 * Z.of_nat fuel ->
  next_prime fuel c = Ok p.
Proof.
  intros Hc (Hp & Hcp & Hp11 & Hleast) Hmax Hf. unfold next_prime.
  set (c0 := Z.lor (if c <? 10 then 10 else c) 1).
  assert (Z.odd c0 = true /\ 11 <= c0 <= p /\ c <= c0 <= Z.max 11 (c + 1)) as (Hodd & Hc0 & Hcc).
  { unfold c0. destruct (Z.ltb_spec c 10); [change (Z.lor 10 1) with 11; split; [done|lia]|]. rewrite lor_1 by lia.
    pose proof (prime_odd p Hp ltac:(lia)) as Hpo. destruct (Z.odd c) eqn:E; [destruct (decide (c = 10)); subst; [done|split; [done|lia]]|].
    assert (c <> p) by (intros ->; congruence). rewrite Z.odd_add, E. simpl. split; [done|lia]. }
  cut (wp (while fuel (fun candidate => if candidate =? SIZE_MAX then Ok false
       else let* p := is_prime candidate in Ok (negb p)) (fun candidate => Ok (u64 (candidate + 2))) c0) (eq p)).
  { intros Hw. destruct (while _ _ _ c0); simpl in Hw; [by subst|done]. }
  apply (wp_while (fun x => Z.odd x = true /\ 11 <= x <= p /\ c <= x) (fun x => (p - x) / 2)).
  - split_and!; [done|lia|lia|lia].
  - apply Z.div_lt_upper_bound; lia.
  - intros x (_ & Hx & _). apply Z.div_pos; lia.
  - intros x (Hxo & Hx & Hcx). rewrite (proj2 (Z.eqb_neq x SIZE_MAX)) by (unfold SIZE_MAX, PRIME_MAX in *; lia).
    wp_step. eapply wp_mono; [apply is_prime_correct; [lia|done]|]. intros b Hb. cbn [wp].
    destruct b; cbn [negb wp].
    + destruct Hb as [Hb _]. pose proof (Hleast x (Hb eq_refl) Hcx ltac:(lia)). lia.
    + assert (x <> p) by (intros ->; by destruct Hb as [_ Hb]; specialize (Hb Hp)).
      assert (x + 1 <> p). { intros E. pose proof (prime_odd p Hp ltac:(lia)) as Hpo. rewrite <- E, Z.odd_add, Hxo in Hpo. done. }
      unfold u64. unfold PRIME_MAX in Hmax. rewrite Z.mod_small by lia.
      split; [split_and!; [by rewrite Z.odd_add, Hxo|lia|lia|lia]|].
      replace (p - x) with (p - (x + 2) + 1 * 2) by lia. rewrite Z.div_add by lia. lia.
Qed.

Lemma next_prime_correct_witness : next_prime 1 12 = Ok 13.
Proof.
  apply (next_prime_correct 1 12 13); [done| |done|done]. split_and!; try done.
  - split; [done|]. intros n Hn [k Hk]. assert (n * k = 13) as H by lia. assert (1 < k < 13) by nia.
    assert (n = 2 \/ n = 3 \/ n = 4 \/ n = 5 \/ n = 6 \/ 7 <= n) as [->|[->|[->|[->|[->|Hge]]]]] by lia; lia || nia.
  - intros q Hq Hcq _. destruct (decide (q = 12)) as [->|]; [|lia]. destruct Hq as [_ Hq]. exfalso.
    apply (Hq 2); [lia|]. by exists 6.
Defined.

(** A size is never negative. *)
Lemma while_inv {S} (I : S -> Prop) fuel (cond : S -> res bool) (body : S -> res S) s s' :
  I s -> (forall s s', I s -> body s = Ok s' -> I s') -> while fuel cond body s = Ok s' -> I s'.
Proof.
  intros HI Hb. revert s HI. induction fuel as [|fuel IH]; intros s HI E; [done|]. rewrite while_step in E.
  apply bind_Ok_inv in E as ([|] & _ & E); [|by simplify_eq].
  apply bind_Ok_inv in E as (s1 & E1 & E). eauto.
Qed.

Lemma compute_bucket_size_nonneg fuel c tn n : 0 <= c -> compute_bucket_size fuel c tn = Ok n -> 0 <= n.
Proof.
  intros Hc E. unfold compute_bucket_size in E. apply bind_Ok_inv in E as ([k|] & Ek & E); [|by simplify_eq].
  assert (0 <= k) as Hk.
  { destruct (is_n_buckets tn); cbn [negb] in Ek; [by simplify_eq|]. destruct (SFleb _ _); simplify_eq.
    unfold size_of_float. destruct (div_f _ _) as [| | |[] m e]; try done. destruct (Z.leb_spec 0 e); [lia|].
    apply Z.div_pos; lia. }
  apply bind_Ok_inv in E as (p & Ep & E). destruct (xalloc_oversized p 8); simplify_eq; [done|]. unfold next_prime in Ep.
  eapply (while_inv (fun x => 0 <= x)); [| |exact Ep].
  - apply Z.lor_nonneg. destruct (Z.ltb_spec k 10); lia.
  - intros s s' _ [= <-]. unfold u64. apply Z.mod_pos_bound. lia.
Qed.
