(* ===== verification/GnuHash.v ===== *)
(** * The hash table of utils/coreutils/lib/hash.c

    The table's buckets are an array of entries; the other entries of a bucket
    (its overflow) and the list of free entries are blocks of the heap.  The struct and
    the array of buckets have blocks of the heap too, whose contents
    are the fields of [Hash_table].  The
    hasher, the comparator and the oracle that says which allocations succeed
    are parameters; [0] is the NULL pointer among user data.  Every call of the
    file that changes the table is here, with the rehashing code; the choice of
    sizes is in HashSizes.v and the theorems are in GnuHashSet.v. *)

From Stdlib Require Import SpecFloat.
From S2P Require Import Prelude Arrays CStrings Heap HashSizes.
Open Scope Z_scope.

Record hash_entry := Entry { data : Z; next : ptr }.

#[export] Instance hash_entry_inhabited : Inhabited hash_entry := populate (Entry 0 None).

(** The pointer [table->tuning]. *)
Inductive tuning_ptr := DefaultTuning | UserTuning (t : Hash_tuning).

Definition tuning_of (p : tuning_ptr) : Hash_tuning :=
  match p with DefaultTuning => default_tuning | UserTuning t => t end.

Record Hash_table := Table {
  bucket : list hash_entry;
  n_buckets : Z;
  n_buckets_used : Z;
  n_entries : Z;
  tuning : tuning_ptr;
  free_entry_list : ptr;
  self_block : ptr;
  bucket_block : ptr
}.

Definition set_bucket (b : list hash_entry) (t : Hash_table) : Hash_table :=
  Table b (n_buckets t) (n_buckets_used t) (n_entries t) (tuning t) (free_entry_list t) (self_block t) (bucket_block t).
Definition set_used (u : Z) (t : Hash_table) : Hash_table :=
  Table (bucket t) (n_buckets t) u (n_entries t) (tuning t) (free_entry_list t) (self_block t) (bucket_block t).
Definition set_entries (n : Z) (t : Hash_table) : Hash_table :=
  Table (bucket t) (n_buckets t) (n_buckets_used t) n (tuning t) (free_entry_list t) (self_block t) (bucket_block t).
Definition set_tuning (p : tuning_ptr) (t : Hash_table) : Hash_table :=
  Table (bucket t) (n_buckets t) (n_buckets_used t) (n_entries t) p (free_entry_list t) (self_block t) (bucket_block t).
Definition set_free (p : ptr) (t : Hash_table) : Hash_table :=
  Table (bucket t) (n_buckets t) (n_buckets_used t) (n_entries t) (tuning t) p (self_block t) (bucket_block t).

Section operations.
Context (malloc_ok : nat -> bool) (prime_fuel : nat).
Context (hasher : Z -> Z -> res Z) (comparator : Z -> Z -> res bool).
Implicit Types (h : heap hash_entry) (t : Hash_table).

(** An acyclic chain is not longer than the heap is large. *)
Definition chain_fuel h : nat := S (S (size (cells h))).

(** [malloc] or [calloc] of the struct or the array. *)
Definition request h : ptr * heap hash_entry := malloc malloc_ok (Entry 0 None) h.

(** ** Information *)

Definition hash_get_n_buckets t : Z := n_buckets t.
Definition hash_get_n_buckets_used t : Z := n_buckets_used t.
Definition hash_get_n_entries t : Z := n_entries t.

(** The number of entries after the first: [while (cursor = cursor->next,
    cursor)] *)
Definition length_turn h (st : ptr * Z) : res (ptr * Z) :=
  let '(p, n) := st in
  let* e := load p h in Ok (next e, n + 1).

Definition overflow_length (p : ptr) h : res Z :=
  let* (_, n) := while (chain_fuel h) (fun '(p, _) => Ok (negb (is_null p))) (length_turn h) (p, 0) in
  Ok n.

Definition hash_get_max_bucket_length t h : res Z :=
  for_up 0 (n_buckets t) (fun i m =>
    let* b := rd (bucket t) i in
    if data b =? 0 then Ok m
    else
      let* n := overflow_length (next b) h in
      Ok (if m <? 1 + n then 1 + n else m)) 0.

Definition count_bucket t h (i : Z) (st : Z * Z) : res (Z * Z) :=
  let '(used, entries) := st in
  let* b := rd (bucket t) i in
  if data b =? 0 then Ok (used, entries)
  else
    let* n := overflow_length (next b) h in
    Ok (u64 (used + 1), u64 (entries + 1 + n)).

Definition hash_table_ok t h : res bool :=
  let* (used, entries) := for_up 0 (n_buckets t) (count_bucket t h) (0, 0) in
  Ok ((used =? n_buckets_used t) && (entries =? n_entries t)).

(** ** Lookup *)

(** [entry == d || table->comparator(entry, d)] *)
Definition matches (entry d : Z) : res bool := if entry =? d then Ok true else comparator entry d.

(** The slot of [entry], with the test against bucket_limit. *)
Definition slot_of t (entry : Z) : res Z :=
  let* i := hasher entry (n_buckets t) in
  let* _ := demand (i <? n_buckets t) Aborted in
  Ok i.

Definition hash_lookup t (entry : Z) h : res Z :=
  let* i := slot_of t entry in
  let* b := rd (bucket t) i in
  if data b =? 0 then Ok 0
  else
    loop (chain_fuel h) (fun e =>
      let* m := matches entry (data e) in
      if m then Ok (inr (data e))
      else
        if is_null (next e) then Ok (inr 0)
        else let* e := load (next e) h in Ok (inl e)) b.

(** ** Walking *)

(** The first bucket in use from [i] on; [None] at the limit. *)
Definition first_turn t (i : Z) : res (Z + option Z) :=
  if negb (i <? n_buckets t) then Ok (inr None)
  else
    let* b := rd (bucket t) i in
    if negb (data b =? 0) then Ok (inr (Some (data b))) else Ok (inl (i + 1)).

Definition first_used t (i : Z) : res (option Z) := loop (S (Z.to_nat (n_buckets t))) (first_turn t) i.

Definition hash_get_first t : res Z :=
  if n_entries t =? 0 then Ok 0
  else
    let* d := first_used t 0 in
    match d with Some d => Ok d | None => Fail Aborted end.

(** The entry after [entry] in its bucket. *)
Definition next_turn (entry : Z) h (e : hash_entry) : res (hash_entry + option Z) :=
  if is_null (next e) then Ok (inr None)
  else
    let* e' := load (next e) h in
    if data e =? entry then Ok (inr (Some (data e'))) else Ok (inl e').

Definition hash_get_next t (entry : Z) h : res Z :=
  let* i := slot_of t entry in
  let* b := rd (bucket t) i in
  let* found := loop (chain_fuel h) (next_turn entry h) b in
  match found with
  | Some d => Ok d
  | None =>
      let* d := first_used t (i + 1) in
      match d with Some d => Ok d | None => Ok 0 end
  end.

(** The walk of hash_get_entries, hash_do_for_each and hash_free over all
    entries: [visit] sees each entry's data and may end the walk. *)
Definition walk_turn {S} h (visit : Z -> S -> res (S + S)) (st : hash_entry * S) : res (hash_entry * S + (S + S)) :=
  let '(e, s) := st in
  let* r := visit (data e) s in
  match r with
  | inr s => Ok (inr (inr s))
  | inl s =>
      if is_null (next e) then Ok (inr (inl s))
      else let* e := load (next e) h in Ok (inl (e, s))
  end.

Definition walk_bucket {S} t h (visit : Z -> S -> res (S + S)) (i : Z) (s : S) : res (S + S) :=
  let* b := rd (bucket t) i in
  if data b =? 0 then Ok (inl s) else loop (chain_fuel h) (walk_turn h visit) (b, s).

Definition walk {S} t h (visit : Z -> S -> res (S + S)) (s : S) : res S :=
  let* r := for_exit 0 (n_buckets t) (walk_bucket t h visit) s in
  match r with inl s => Ok s | inr s => Ok s end.

(** The count and the buffer. *)
Definition fill_buffer (buffer_size : Z) (d : Z) (st : Z * list Z) : res (Z * list Z + Z * list Z) :=
  let '(counter, buffer) := st in
  if counter >=? buffer_size then Ok (inr (counter, buffer))
  else
    let* buffer := wr buffer counter d in
    Ok (inl (counter + 1, buffer)).

Definition hash_get_entries t (buffer : list Z) (buffer_size : Z) h : res (Z * list Z) :=
  walk t h (fill_buffer buffer_size) (0, buffer).

(** The count and the data the processor was called with. *)
Definition call_processor (processor : Z -> bool) (d : Z) (st : Z * list Z) : res (Z * list Z + Z * list Z) :=
  let '(counter, seen) := st in
  if processor d then Ok (inl (counter + 1, seen ++ [d])) else Ok (inr (counter, seen ++ [d])).

Definition hash_do_for_each t (processor : Z -> bool) h : res (Z * list Z) :=
  walk t h (call_processor processor) (0, []).

(** ** Allocation and clean-up *)

Definition check_tuning t : bool * Hash_table :=
  match tuning t with
  | DefaultTuning => (true, t)
  | UserTuning tn => if tuning_ok tn then (true, t) else (false, set_tuning DefaultTuning t)
  end.

(** [None] is the NULL result; the struct is freed on the path through [fail:]. *)
Definition hash_initialize (candidate : Z) (tn : option Hash_tuning) h : res (option Hash_table * heap hash_entry) :=
  let '(table, h) := request h in
  if is_null table then Ok (None, h)
  else
    let p := match tn with None => DefaultTuning | Some tn => UserTuning tn end in
    let '(ok, _) := check_tuning (Table [] 0 0 0 p None table None) in
    if negb ok then let* h := free table h in Ok (None, h)
    else
      let* n := compute_bucket_size prime_fuel candidate (tuning_of p) in
      if n =? 0 then let* h := free table h in Ok (None, h)
      else
        let '(array, h) := request h in
        if is_null array then let* h := free table h in Ok (None, h)
        else Ok (Some (Table (replicate (Z.to_nat n) (Entry 0 None)) n 0 0 p None table array), h).

(** What data_freer (when there is one) is called with. *)
Definition freer_call (data_freer : bool) (d : Z) (log : list Z) : list Z :=
  if data_freer then log ++ [d] else log.

(** An overflow entry goes to the free list. *)
Definition clear_turn (data_freer : bool) (st : ptr * Hash_table * heap hash_entry * list Z)
    : res (ptr * Hash_table * heap hash_entry * list Z) :=
  let '(cursor, t, h, log) := st in
  let* e := load cursor h in
  let log := freer_call data_freer (data e) log in
  let* h := store cursor (Entry 0 (free_entry_list t)) h in
  Ok (next e, set_free cursor t, h, log).

Definition clear_bucket (data_freer : bool) (i : Z) (st : Hash_table * heap hash_entry * list Z)
    : res (Hash_table * heap hash_entry * list Z) :=
  let '(t, h, log) := st in
  let* b := rd (bucket t) i in
  if data b =? 0 then Ok (t, h, log)
  else
    let* (_, t, h, log) := while (chain_fuel h) (fun '(cursor, _, _, _) => Ok (negb (is_null cursor)))
      (clear_turn data_freer) (next b, t, h, log) in
    let log := freer_call data_freer (data b) log in
    let* bs := wr (bucket t) i (Entry 0 None) in
    Ok (set_bucket bs t, h, log).

Definition hash_clear (data_freer : bool) t h : res (Hash_table * heap hash_entry * list Z) :=
  let* (t, h, log) := for_up 0 (n_buckets t) (clear_bucket data_freer) (t, h, []) in
  Ok (set_entries 0 (set_used 0 t), h, log).

(** Frees a chain of entries. *)
Definition free_chain (p : ptr) h : res (heap hash_entry) :=
  let* (_, h) := while (chain_fuel h) (fun '(cursor, _) => Ok (negb (is_null cursor)))
    (fun '(cursor, h) =>
       let* e := load cursor h in
       let* h := free cursor h in
       Ok (next e, h)) (p, h) in
  Ok h.

Definition free_bucket t (i : Z) h : res (heap hash_entry) :=
  let* b := rd (bucket t) i in
  free_chain (next b) h.

Definition hash_free (data_freer : bool) t h : res (heap hash_entry * list Z) :=
  let* log :=
    if data_freer && negb (n_entries t =? 0) then walk t h (fun d log => Ok (inl (log ++ [d]))) [] else Ok [] in
  let* h := for_up 0 (n_buckets t) (free_bucket t) h in
  let* h := free_chain (free_entry_list t) h in
  let* h := free (bucket_block t) h in
  let* h := free (self_block t) h in
  Ok (h, log).

(** ** Entries *)

(** A fresh block holds whatever the memory held. *)
Definition allocate_entry t h : res (ptr * Hash_table * heap hash_entry) :=
  if negb (is_null (free_entry_list t)) then
    let new := free_entry_list t in
    let* e := load new h in
    Ok (new, set_free (next e) t, h)
  else
    let '(new, h) := malloc malloc_ok (Entry 0 None) h in
    Ok (new, t, h).

Definition free_entry t (entry : ptr) h : res (Hash_table * heap hash_entry) :=
  let* h := store entry (Entry 0 (free_entry_list t)) h in
  Ok (set_free entry t, h).

(** [struct hash_entry* cursor]: a bucket of the table or an overflow entry. *)
Inductive cursor := InBucket (i : Z) | InHeap (l : ptr).

Definition load_cursor t h (c : cursor) : res hash_entry :=
  match c with InBucket i => rd (bucket t) i | InHeap p => load p h end.

Definition store_cursor t h (c : cursor) (e : hash_entry) : res (Hash_table * heap hash_entry) :=
  match c with
  | InBucket i => let* bs := wr (bucket t) i e in Ok (set_bucket bs t, h)
  | InHeap p => let* h := store p e h in Ok (t, h)
  end.

(** One turn of the loop over a bucket: the entry after the cursor is compared
    and, when it is to be deleted, taken out of the chain. *)
Definition find_turn t (entry : Z) (delete : bool) h (c : cursor)
    : res (cursor + Z * Hash_table * heap hash_entry) :=
  let* e := load_cursor t h c in
  if is_null (next e) then Ok (inr (0, t, h))
  else
    let* e' := load (next e) h in
    let* m := matches entry (data e') in
    if m then
      let* (t, h) :=
        if delete then
          let* (t, h) := store_cursor t h c (Entry (data e) (next e')) in
          free_entry t (next e) h
        else Ok (t, h) in
      Ok (inr (data e', t, h))
    else Ok (inl (InHeap (next e))).

(** The data found (or 0), the slot stored through bucket_head, and the
    table. *)
Definition hash_find_entry t (entry : Z) (delete : bool) h : res (Z * Z * Hash_table * heap hash_entry) :=
  let* i := slot_of t entry in
  let* b := rd (bucket t) i in
  let* m := matches entry (data b) in
  if m then
    let* (t, h) :=
      if delete then
        if negb (is_null (next b)) then
          let* e := load (next b) h in
          let* bs := wr (bucket t) i e in
          free_entry (set_bucket bs t) (next b) h
        else
          let* bs := wr (bucket t) i (Entry 0 (next b)) in
          Ok (set_bucket bs t, h)
      else Ok (t, h) in
    Ok (data b, i, t, h)
  else
    let* (d, t, h) := loop (chain_fuel h) (find_turn t entry delete h) (InBucket i) in
    Ok (d, i, t, h).

(** ** Rehashing *)

(** One overflow entry of src is moved to dst: the next one. *)
Definition transfer_overflow (dst : Hash_table) h (cursor : ptr) : res (Hash_table * heap hash_entry * ptr) :=
  let* e := load cursor h in
  let* j := slot_of dst (data e) in
  let* nb := rd (bucket dst) j in
  if negb (data nb =? 0) then
    let* h := store cursor (Entry (data e) (next nb)) h in
    let* bs := wr (bucket dst) j (Entry (data nb) cursor) in
    Ok (set_bucket bs dst, h, next e)
  else
    let* bs := wr (bucket dst) j (Entry (data e) (next nb)) in
    let dst := set_used (u64 (n_buckets_used dst + 1)) (set_bucket bs dst) in
    let* (dst, h) := free_entry dst cursor h in
    Ok (dst, h, next e).

(** One bucket of src; [inr] is the failed allocation. *)
Definition transfer_bucket (safe : bool) (i : Z) (st : Hash_table * Hash_table * heap hash_entry)
    : res (Hash_table * Hash_table * heap hash_entry + Hash_table * Hash_table * heap hash_entry) :=
  let '(dst, src, h) := st in
  let* b := rd (bucket src) i in
  let* (dst, h, _) := while (chain_fuel h) (fun '(_, _, cursor) => Ok (negb (is_null cursor)))
    (fun '(dst, h, cursor) => transfer_overflow dst h cursor) (dst, h, next b) in
  let d := data b in
  let* bs := wr (bucket src) i (Entry d None) in
  let src := set_bucket bs src in
  if safe then Ok (inl (dst, src, h))
  else
    let* j := slot_of dst d in
    let* nb := rd (bucket dst) j in
    let* r :=
      if negb (data nb =? 0) then
        let* (new_entry, dst, h) := allocate_entry dst h in
        if is_null new_entry then Ok (inr (dst, h))
        else
          let* h := store new_entry (Entry d (next nb)) h in
          let* bs := wr (bucket dst) j (Entry (data nb) new_entry) in
          Ok (inl (set_bucket bs dst, h))
      else
        let* bs := wr (bucket dst) j (Entry d (next nb)) in
        Ok (inl (set_used (u64 (n_buckets_used dst + 1)) (set_bucket bs dst), h)) in
    match r with
    | inr (dst, h) => Ok (inr (dst, src, h))
    | inl (dst, h) =>
        let* bs := wr (bucket src) i (Entry 0 None) in
        Ok (inl (dst, set_used (u64 (n_buckets_used src - 1)) (set_bucket bs src), h))
    end.

Definition transfer_entries (dst src : Hash_table) (safe : bool) h
    : res (bool * Hash_table * Hash_table * heap hash_entry) :=
  let* r := for_exit 0 (n_buckets src) (transfer_bucket safe) (dst, src, h) in
  match r with
  | inl (dst, src, h) => Ok (true, dst, src, h)
  | inr (dst, src, h) => Ok (false, dst, src, h)
  end.

Definition hash_rehash t (candidate : Z) h : res (bool * Hash_table * heap hash_entry) :=
  let* new_size := compute_bucket_size prime_fuel candidate (tuning_of (tuning t)) in
  if new_size =? 0 then Ok (false, t, h)
  else if (if new_size =? 0 then 1 else 0) =? n_buckets t then Ok (true, t, h)
  else
    let '(array, h) := request h in
    if is_null array then Ok (false, t, h)
    else
      let new_table :=
        Table (replicate (Z.to_nat new_size) (Entry 0 None)) new_size 0 0 (tuning t) (free_entry_list t) None array in
      let* (ok, new_table, t, h) := transfer_entries new_table t false h in
      if ok then
        let* h := free (bucket_block t) h in
        Ok (true, Table (bucket new_table) (n_buckets new_table) (n_buckets_used new_table) (n_entries t)
                    (tuning t) (free_entry_list new_table) (self_block t) (bucket_block new_table), h)
      else
        let t := set_free (free_entry_list new_table) t in
        let* (ok, t, new_table, h) := transfer_entries t new_table true h in
        let* _ := demand ok Aborted in
        let* (ok, t, new_table, h) := transfer_entries t new_table false h in
        let* _ := demand ok Aborted in
        let* h := free (bucket_block new_table) h in
        Ok (false, t, h).

(** ** Insertion and deletion *)

Definition over_growth t : bool :=
  SFltb (mul_f (growth_threshold (tuning_of (tuning t))) (float_of_Z (n_buckets t))) (float_of_Z (n_buckets_used t)).

Definition under_shrink t : bool :=
  SFltb (float_of_Z (n_buckets_used t)) (mul_f (shrink_threshold (tuning_of (tuning t))) (float_of_Z (n_buckets t))).

(** [factor * n_buckets], times growth_threshold unless is_n_buckets *)
Definition resize_candidate t (factor : float) : float :=
  let f := mul_f (float_of_Z (n_buckets t)) factor in
  if is_n_buckets (tuning_of (tuning t)) then f else mul_f f (growth_threshold (tuning_of (tuning t))).

(** The growing part of hash_insert: [None] is [return NULL], else the slot of
    the entry. *)
Definition grow t (entry i : Z) h : res (option Z * Hash_table * heap hash_entry) :=
  if over_growth t then
    let '(_, t) := check_tuning t in
    if over_growth t then
      let candidate := resize_candidate t (growth_factor (tuning_of (tuning t))) in
      if SFleb (float_of_Z SIZE_MAX) candidate then Ok (None, t, h)
      else
        let* (ok, t, h) := hash_rehash t (size_of_float candidate) h in
        if negb ok then Ok (None, t, h)
        else
          let* (d, i, t, h) := hash_find_entry t entry false h in
          let* _ := demand (d =? 0) Aborted in
          Ok (Some i, t, h)
    else Ok (Some i, t, h)
  else Ok (Some i, t, h).

(** The result (0 for NULL) and the table. *)
Definition hash_insert t (entry : Z) h : res (Z * Hash_table * heap hash_entry) :=
  let* _ := demand (negb (entry =? 0)) Aborted in
  let* (d, i, t, h) := hash_find_entry t entry false h in
  if negb (d =? 0) then Ok (d, t, h)
  else
    let* (i, t, h) := grow t entry i h in
    match i with
    | None => Ok (0, t, h)
    | Some i =>
        let* b := rd (bucket t) i in
        if negb (data b =? 0) then
          let* (new_entry, t, h) := allocate_entry t h in
          if is_null new_entry then Ok (0, t, h)
          else
            let* h := store new_entry (Entry entry (next b)) h in
            let* bs := wr (bucket t) i (Entry (data b) new_entry) in
            Ok (entry, set_entries (u64 (n_entries t + 1)) (set_bucket bs t), h)
        else
          let* bs := wr (bucket t) i (Entry entry (next b)) in
          Ok (entry, set_used (u64 (n_buckets_used t + 1)) (set_entries (u64 (n_entries t + 1)) (set_bucket bs t)), h)
    end.

(** The shrinking part of hash_delete. *)
Definition shrink t h : res (Hash_table * heap hash_entry) :=
  if under_shrink t then
    let '(_, t) := check_tuning t in
    if under_shrink t then
      let candidate := size_of_float (resize_candidate t (shrink_factor (tuning_of (tuning t)))) in
      let* (ok, t, h) := hash_rehash t candidate h in
      if negb ok then
        let* h := free_chain (free_entry_list t) h in
        Ok (set_free None t, h)
      else Ok (t, h)
    else Ok (t, h)
  else Ok (t, h).

(** The part of hash_delete after an entry was found and taken out of slot
    [i]. *)
Definition account_deletion t (d i : Z) h : res (Z * Hash_table * heap hash_entry) :=
  let t := set_entries (u64 (n_entries t - 1)) t in
  let* b := rd (bucket t) i in
  if data b =? 0 then
    let t := set_used (u64 (n_buckets_used t - 1)) t in
    let* (t, h) := shrink t h in
    Ok (d, t, h)
  else Ok (d, t, h).

Definition hash_delete t (entry : Z) h : res (Z * Hash_table * heap hash_entry) :=
  let* (d, i, t, h) := hash_find_entry t entry true h in
  if d =? 0 then Ok (0, t, h) else account_deletion t d i h.
End operations.

(** An insertion into an empty table calls the comparator on NULL. *)
Lemma insert_empty_faults malloc_ok prime_fuel hasher comparator t entry h i f :
  entry <> 0 -> hasher entry (n_buckets t) = Ok i -> 0 <= i < n_buckets t -> zlen (bucket t) = n_buckets t -> Forall (fun b => data b = 0) (bucket t) -> comparator entry 0 = Fail f ->
  hash_insert malloc_ok prime_fuel hasher comparator t entry h = Fail f.
Proof.
  intros H0 Eh Hi Hl He Hc. unfold hash_insert. rewrite (proj2 (Z.eqb_neq _ _) H0). cbn [negb demand bind]. unfold hash_find_entry, slot_of. rewrite Eh. cbn [bind]. rewrite (proj2 (Z.ltb_lt i _)) by lia. cbn [bind negb demand].
  rewrite rd_Ok by lia. cbn [bind]. assert (data (bucket t).[i] = 0) as -> by (apply (Forall_aget_1 _ _ _ He); lia). unfold matches. by rewrite (proj2 (Z.eqb_neq _ _) H0), Hc.
Qed.

(** A table that hash_initialize has made. *)
Lemma initialize_made malloc_ok prime_fuel candidate tn h t h' : hash_initialize malloc_ok prime_fuel candidate tn h = Ok (Some t, h') ->
  exists n p ls lb, compute_bucket_size prime_fuel candidate (tuning_of p) = Ok n /\ n <> 0 /\ t = Table (replicate (Z.to_nat n) (Entry 0 None)) n 0 0 p None (Some ls) (Some lb).
Proof.
  unfold hash_initialize, request. destruct (malloc malloc_ok _ h) as [[ls|] h1]; [|done]. cbn [is_null]. destruct (check_tuning _) as [[] ?]; cbn [negb]; [|by intros (? & _ & [=])%bind_Ok_inv].
  intros (n & En & E)%bind_Ok_inv. destruct (Z.eqb_spec n 0) as [|Hn]; [by apply bind_Ok_inv in E as (? & _ & [=])|]. destruct (malloc malloc_ok _ h1) as [[lb|] h2]; cbn [is_null] in E; [|by apply bind_Ok_inv in E as (? & _ & [=])].
  injection E as <- <-. by exists n, (match tn with None => DefaultTuning | Some tn => UserTuning tn end), ls, lb.
Qed.
