(* ===== verification/GnuHashSet.v ===== *)
(** * The hash table of hash.c is a set

    A table in use stands for the collection of its entries.  The hasher and
    the comparator are those of any client that satisfies [LawfulHash]; the
    functions hash.c uses when the client gives none are an instance.  As long
    as the table is not resized, insertion, deletion and lookup are those of a
    set, whatever allocations fail; the walks see every entry once; clearing
    and freeing give back every block.  Resizing breaks the table, which the
    last section shows on examples. *)

From S2P Require Import Prelude Arrays CStrings Heap HashSizes GnuHash.
Open Scope Z_scope.

(** ** The client's functions *)

(** [same] is an equivalence of entries that the hash respects.  Both
    functions return for all arguments: hash_find_entry calls the comparator
    on the NULL of an empty bucket. *)
Class LawfulHash (hasher : Z -> Z -> res Z) (comparator : Z -> Z -> res bool)
    (slot : Z -> Z -> Z) (same : Z -> Z -> bool) : Prop := {
  lawful_hasher d n : 0 < n -> hasher d n = Ok (slot d n);
  lawful_slot d n : 0 < n -> 0 <= slot d n < n;
  lawful_comparator a b : comparator a b = Ok (same a b);
  lawful_null a : a <> 0 -> same a 0 = false;
  lawful_refl a : same a a = true;
  lawful_sym a b : same a b = same b a;
  lawful_trans a b c : same a b = true -> same b c = true -> same a c = true;
  lawful_respects a b n : same a b = true -> slot a n = slot b n
}.

Definition raw_slot (d n : Z) : Z := rotr_sz d 3 mod n.

#[export] Instance raw_lawful : LawfulHash raw_hasher raw_comparator raw_slot Z.eqb.
Proof.
  split.
  - intros d n Hn. unfold raw_hasher, demand. by rewrite (proj2 (Z.eqb_neq n 0)) by lia.
  - intros d n Hn. by apply Z.mod_pos_bound.
  - done.
  - intros a Ha. by apply Z.eqb_neq.
  - apply Z.eqb_refl.
  - apply Z.eqb_sym.
  - intros a b c. rewrite !Z.eqb_eq. congruence.
  - intros a b n Hab%Z.eqb_eq. by subst.
Qed.

(** ** Chains *)

(** An overflow entry: its block and its data. *)
Abbreviation node := (loc * Z)%type.

Definition head_ptr (ns : list node) (tail : ptr) : ptr :=
  match ns with [] => tail | (l, _) :: _ => Some l end.

(** The cells of a chain that ends in [tail]. *)
Fixpoint seg (ns : list node) (tail : ptr) : list (loc * hash_entry) :=
  match ns with
  | [] => []
  | (l, d) :: ns => (l, Entry d (head_ptr ns tail)) :: seg ns tail
  end.

Lemma head_ptr_app ns ns' tail : head_ptr (ns ++ ns') tail = head_ptr ns (head_ptr ns' tail).
Proof. by destruct ns as [|[]]. Qed.

Lemma seg_append ns ns' tail : seg (ns ++ ns') tail = seg ns (head_ptr ns' tail) ++ seg ns' tail.
Proof. induction ns as [|[l d] ns IH]; [done|]. cbn [seg app]. by rewrite IH, head_ptr_app. Qed.

Lemma length_seg ns tail : length (seg ns tail) = length ns.
Proof. induction ns as [|[l d] ns IH]; simpl; [done|]. by rewrite IH. Qed.

(** A bucket: empty, or its head and its overflow. *)
Definition bnode : Type := option (Z * list node).

Definition bhead (b : bnode) : hash_entry :=
  match b with None => Entry 0 None | Some (d, ns) => Entry d (head_ptr ns None) end.
Definition bcells (b : bnode) : list (loc * hash_entry) :=
  match b with None => [] | Some (_, ns) => seg ns None end.
Definition bdata (b : bnode) : list Z :=
  match b with None => [] | Some (d, ns) => d :: ns.*2 end.

Definition cells_of (bs : list bnode) : list (loc * hash_entry) := bs ≫= bcells.
Definition data_of (bs : list bnode) : list Z := bs ≫= bdata.

(** The number of buckets in use. *)
Definition busy (b : bnode) : Z := match b with Some _ => 1 | None => 0 end.
Definition used_of (bs : list bnode) : Z := foldr (fun b n => busy b + n) 0 bs.

(** The list of free entries: their data is NULL. *)
Definition fnodes (fl : list loc) : list node := map (fun l => (l, 0)) fl.

Lemma NoDup_split_eq {A} (xs : list A) x ys us vs :
  NoDup (xs ++ x :: ys) -> xs ++ x :: ys = us ++ x :: vs -> us = xs /\ vs = ys.
Proof.
  revert us. induction xs as [|y xs IH]; intros [|u us] Hn E; simpl in *; simplify_eq.
  - done.
  - apply NoDup_cons in Hn as [Hn _]. destruct Hn. apply elem_of_app. right. by left.
  - apply NoDup_cons in Hn as [Hn _]. destruct Hn. apply elem_of_app. right. by left.
  - apply NoDup_cons in Hn as [_ Hn]. naive_solver.
Qed.

Section set.
Context (malloc_ok : nat -> bool) (prime_fuel : nat).
Context (hasher : Z -> Z -> res Z) (comparator : Z -> Z -> res bool).
Context (slot : Z -> Z -> Z) (same : Z -> Z -> bool).
Context `{!LawfulHash hasher comparator slot same}.
Implicit Types (h : heap hash_entry) (t : Hash_table) (bs pre post : list bnode) (fl : list loc).

(** No two entries are the same. *)
Definition distinct (xs : list Z) : Prop :=
  NoDup xs /\ forall a b, a ∈ xs -> b ∈ xs -> same a b = true -> a = b.

(** The buckets [bs] and the free entries [fl] are what the table's array and
    the heap hold; [F] are other cells of the heap. *)
Record shape t h bs fl (F : list (loc * hash_entry)) : Prop := {
  shape_bucket : bucket t = map bhead bs;
  shape_size : n_buckets t = zlen bs;
  shape_free : free_entry_list t = head_ptr (fnodes fl) None;
  shape_owns : owns h (cells_of bs ++ seg (fnodes fl) None ++ F)
}.

(** Every entry is in its slot. *)
Definition placed bs : Prop :=
  forall i d, 0 <= i < zlen bs -> d ∈ bdata bs.[i] -> d <> 0 /\ slot d (zlen bs) = i.

Record table_inv t h bs fl (F : list (loc * hash_entry)) : Prop := {
  inv_shape : shape t h bs fl F;
  inv_pos : 0 < zlen bs;
  inv_used : n_buckets_used t = used_of bs;
  inv_entries : n_entries t = zlen (data_of bs);
  inv_placed : placed bs;
  inv_distinct : distinct (data_of bs)
}.

(** The entry of the collection that matches, or 0. *)
Definition found (entry : Z) (xs : list Z) : Z :=
  match list_find (fun x => same entry x = true) xs with Some (_, x) => x | None => 0 end.

(** ** Buckets *)

Lemma elem_cells bs i c : 0 <= i < zlen bs -> c ∈ bcells bs.[i] -> c ∈ cells_of bs.
Proof. intros Hi Hc. apply list_elem_of_bind. exists bs.[i]. split; [done|]. by apply aget_elem. Qed.

Lemma elem_data bs d : d ∈ data_of bs <-> exists i, 0 <= i < zlen bs /\ d ∈ bdata bs.[i].
Proof.
  unfold data_of. rewrite list_elem_of_bind. split.
  - intros (b & Hd & Hb). apply elem_aget in Hb as (i & Hi & <-). by exists i.
  - intros (i & Hi & Hd). exists bs.[i]. split; [done|]. by apply aget_elem.
Qed.

Lemma bind_split {A} (f : bnode -> list A) pre b post :
  (pre ++ b :: post) ≫= f = (pre ≫= f) ++ f b ++ (post ≫= f).
Proof. rewrite bind_app. done. Qed.

Lemma shape_rd t h bs fl F i : table_inv t h bs fl F -> 0 <= i < zlen bs -> rd (bucket t) i = Ok (bhead bs.[i]).
Proof.
  intros Hinv Hi. rewrite (shape_bucket _ _ _ _ _ (inv_shape _ _ _ _ _ Hinv)). rewrite rd_Ok by (by rewrite zlen_map). by rewrite aget_map.
Qed.

Lemma slot_of_ok t h bs fl F e :
  table_inv t h bs fl F -> 0 <= slot e (zlen bs) < zlen bs /\ slot_of hasher t e = Ok (slot e (zlen bs)).
Proof.
  intros Hinv. pose proof (inv_pos _ _ _ _ _ Hinv) as Hp. pose proof (lawful_slot e (zlen bs) Hp) as Hs.
  split; [done|]. unfold slot_of. rewrite (shape_size _ _ _ _ _ (inv_shape _ _ _ _ _ Hinv)), lawful_hasher by done. cbn [bind].
  unfold demand. by rewrite (proj2 (Z.ltb_lt _ _)) by lia.
Qed.

Lemma matches_ok e d : matches comparator e d = Ok (same e d).
Proof.
  unfold matches. destruct (Z.eqb_spec e d) as [->|]; [by rewrite lawful_refl|]. apply lawful_comparator.
Qed.

Lemma found_cons e x xs : found e (x :: xs) = if same e x then x else found e xs.
Proof.
  unfold found. cbn [list_find]. destruct (same e x) eqn:E; [by rewrite decide_True|]. rewrite decide_False by done.
  by destruct (list_find _ xs) as [[]|].
Qed.

Lemma found_None e xs : (forall x, x ∈ xs -> same e x = false) -> found e xs = 0.
Proof.
  induction xs as [|x xs IH]; intros H; [done|]. rewrite found_cons, H by (by left). apply IH. intros y Hy. apply H. by right.
Qed.

Lemma found_unique e xs x : distinct xs -> x ∈ xs -> same e x = true -> found e xs = x.
Proof.
  intros [_ Hd] Hx Hs. unfold found. destruct (list_find (fun x => same e x = true) xs) as [[i y]|] eqn:E.
  - apply list_find_Some in E as (Hi & Hy & _). apply Hd; [by eapply list_elem_of_lookup_2|done|].
    apply (lawful_trans _ e); [by rewrite lawful_sym|done].
  - apply list_find_None in E. rewrite Forall_forall in E. by destruct (E x Hx).
Qed.

Lemma found_elem e xs : (forall x, x ∈ xs -> x <> 0) -> found e xs <> 0 -> found e xs ∈ xs /\ same e (found e xs) = true.
Proof.
  intros H0 Hf. unfold found in *. destruct (list_find (fun x => same e x = true) xs) as [[i y]|] eqn:E; [|done].
  apply list_find_Some in E as (Hi & Hy & _). split; [by eapply list_elem_of_lookup_2|done].
Qed.

(** An entry is found in the table when it is found in its bucket. *)
Lemma found_bucket t h bs fl F e :
  table_inv t h bs fl F -> found e (data_of bs) = found e (bdata bs.[slot e (zlen bs)]).
Proof.
  intros Hinv. destruct (slot_of_ok t h bs fl F e Hinv) as [Hi _]. set (i := slot e (zlen bs)) in *.
  destruct (list_find (fun x => same e x = true) (bdata bs.[i])) as [[j y]|] eqn:E.
  - unfold found at 2. rewrite E. apply list_find_Some in E as (Hj & Hy & _). apply found_unique; [apply Hinv| |done].
    apply elem_data. exists i. split; [done|]. by eapply list_elem_of_lookup_2.
  - unfold found at 2. rewrite E. apply found_None. intros x Hx. apply elem_data in Hx as (k & Hk & Hx).
    destruct (same e x) eqn:Es; [|done]. exfalso. apply list_find_None in E. rewrite Forall_forall in E. apply (E x); [|done].
    destruct (inv_placed _ _ _ _ _ Hinv k x Hk Hx) as [_ Hkx]. rewrite <- (lawful_respects e x) in Hkx by done.
    by replace i with k.
Qed.

(** ** Lookup *)

(** Enough fuel for any chain of owned cells. *)
Lemma chain_fuel_seg h L ns tail :
  owns h L -> seg ns tail ⊆ L -> NoDup (seg ns tail).*1 -> (length ns + 1 < chain_fuel h)%nat.
Proof.
  intros Ho Hsub Hnd. unfold chain_fuel. rewrite (owns_size h L Ho).
  assert (length ns <= length L)%nat; [|lia]. rewrite <- (length_seg ns tail), <- !(length_fmap fst).
  apply submseteq_length, NoDup_submseteq; [done|]. intros l (c & -> & Hc)%list_elem_of_fmap. apply list_elem_of_fmap.
  exists c. split; [done|]. by apply Hsub.
Qed.

Lemma bucket_cells t h bs fl F i :
  table_inv t h bs fl F -> 0 <= i < zlen bs ->
  bcells bs.[i] ⊆ cells_of bs ++ seg (fnodes fl) None ++ F /\ NoDup (bcells bs.[i]).*1.
Proof.
  intros Hinv Hi. split; [intros c Hc; apply elem_of_app; left; by eapply elem_cells|].
  destruct (shape_owns _ _ _ _ _ (inv_shape _ _ _ _ _ Hinv)) as [Hnd _]. destruct (aget_split bs i Hi) as (pre & post & E & _).
  unfold cells_of in Hnd. rewrite E, bind_split in Hnd. rewrite !fmap_app in Hnd.
  apply NoDup_app in Hnd as (Hnd & _). apply NoDup_app in Hnd as (_ & _ & Hnd). by apply NoDup_app in Hnd as (Hnd & _).
Qed.

Lemma lookup_chain h L e ns : owns h L -> seg ns None ⊆ L -> forall d fuel, (length ns < fuel)%nat ->
  loop fuel (fun x =>
      let* m := matches comparator e (data x) in
      if m then Ok (inr (data x))
      else if is_null (next x) then Ok (inr 0)
      else let* x := load (next x) h in Ok (inl x)) (Entry d (head_ptr ns None)) = Ok (found e (d :: ns.*2)).
Proof.
  intros Ho. induction ns as [|[l d'] ns IH]; intros Hsub d [|fuel] Hf; simpl in Hf; try lia;
    cbn [loop data next head_ptr]; rewrite matches_ok, found_cons; cbn [bind]; destruct (same e d); try done.
  cbn [is_null]. rewrite (owns_load h L l (Entry d' (head_ptr ns None)) Ho) by (apply Hsub; by left). cbn [bind].
  rewrite IH by (lia || (intros c Hc; apply Hsub; by right)). done.
Qed.

Lemma hash_lookup_ok t h bs fl F e :
  table_inv t h bs fl F -> hash_lookup hasher comparator t e h = Ok (found e (data_of bs)).
Proof.
  intros Hinv. unfold hash_lookup. destruct (slot_of_ok t h bs fl F e Hinv) as [Hi ->]. cbn [bind].
  rewrite (shape_rd _ _ _ _ _ _ Hinv Hi), (found_bucket _ _ _ _ _ _ Hinv). cbn [bind].
  pose proof (bucket_cells _ _ _ _ _ _ Hinv Hi) as [Hsub Hnd].
  pose proof (fun d => inv_placed _ _ _ _ _ Hinv _ d Hi) as Hpl.
  destruct bs.[slot e (zlen bs)] as [[d ns]|] eqn:E; cbn [bhead data]; [|done]. cbn [bcells bdata] in *.
  destruct (Hpl d) as [Hd _]; [by left|]. rewrite (proj2 (Z.eqb_neq d 0) Hd).
  apply (lookup_chain h _ e ns (shape_owns _ _ _ _ _ (inv_shape _ _ _ _ _ Hinv)) Hsub).
  pose proof (chain_fuel_seg h _ ns None (shape_owns _ _ _ _ _ (inv_shape _ _ _ _ _ Hinv)) Hsub Hnd). lia.
Qed.

(** ** One bucket among the others *)

(** The cells outside the bucket between [pre] and [post]. *)
Definition rest (pre post : list bnode) fl (F : list (loc * hash_entry)) : list (loc * hash_entry) :=
  cells_of pre ++ cells_of post ++ seg (fnodes fl) None ++ F.

Lemma rest_free pre post k fl F :
  rest pre post (k :: fl) F ≡ₚ (k, Entry 0 (head_ptr (fnodes fl) None)) :: rest pre post fl F.
Proof.
  unfold rest. change (fnodes (k :: fl)) with ((k, 0) :: fnodes fl). cbn [seg app].
  rewrite !(app_assoc (cells_of pre)). by rewrite <- Permutation_middle.
Qed.

Lemma cells_split pre b post fl F :
  cells_of (pre ++ b :: post) ++ seg (fnodes fl) None ++ F ≡ₚ bcells b ++ rest pre post fl F.
Proof. unfold rest, cells_of. rewrite bind_split, <- !app_assoc. apply Permutation_app_swap_app. Qed.

Lemma shape_cells t h pre b post fl F : shape t h (pre ++ b :: post) fl F -> owns h (bcells b ++ rest pre post fl F).
Proof. intros Hs. rewrite <- cells_split. apply Hs. Qed.

Lemma shape_read t h pre b post fl F :
  shape t h (pre ++ b :: post) fl F -> rd (bucket t) (zlen pre) = Ok (bhead b).
Proof.
  intros Hs. rewrite (shape_bucket _ _ _ _ _ Hs), map_app. cbn [map]. apply rd_middle. apply zlen_map.
Qed.

Lemma shape_write t h pre b b' x post fl F :
  shape t h (pre ++ b :: post) fl F -> x = bhead b' ->
  wr (bucket t) (zlen pre) x = Ok (map bhead (pre ++ b' :: post)).
Proof.
  intros Hs ->. rewrite (shape_bucket _ _ _ _ _ Hs), !map_app. cbn [map]. apply wr_middle. apply zlen_map.
Qed.

Lemma shape_replace t h pre b b' post fl F t' h' fl' :
  shape t h (pre ++ b :: post) fl F -> bucket t' = map bhead (pre ++ b' :: post) -> n_buckets t' = n_buckets t ->
  free_entry_list t' = head_ptr (fnodes fl') None -> owns h' (bcells b' ++ rest pre post fl' F) ->
  shape t' h' (pre ++ b' :: post) fl' F.
Proof.
  intros Hs Hb Hn Hf Ho. split; [done| |done|by rewrite cells_split].
  rewrite Hn, (shape_size _ _ _ _ _ Hs), !zlen_app, !zlen_cons. done.
Qed.

(** ** Finding an entry *)

Lemma find_read_chain t h L e ns : owns h L -> seg ns None ⊆ L -> forall c d fuel, (length ns < fuel)%nat ->
  load_cursor t h c = Ok (Entry d (head_ptr ns None)) ->
  loop fuel (find_turn comparator t e false h) c = Ok (found e ns.*2, t, h).
Proof.
  intros Ho. induction ns as [|[l d'] ns IH]; intros Hsub c d [|fuel] Hf Hc; simpl in Hf; try lia;
    cbn [loop]; unfold find_turn at 1; rewrite Hc; cbn [bind next head_ptr is_null]; [done|].
  assert (load (Some l) h = Ok (Entry d' (head_ptr ns None))) as Hl.
  { apply (owns_load h L l (Entry d' (head_ptr ns None)) Ho). apply Hsub. by left. }
  rewrite Hl. cbn [bind data]. rewrite matches_ok. cbn [bind fmap list_fmap snd].
  rewrite found_cons. destruct (same e d'); [done|]. apply IH with d'; [|lia|done].
  intros x Hx. apply Hsub. by right.
Qed.

(** Deletion after the cursor: an entry leaves the chain for the free list. *)
Lemma find_delete_chain t e : forall ns l x h R fuel,
  Forall (fun n => n.2 <> 0) ns -> owns h (seg ((l, x) :: ns) None ++ R) -> (length ns < fuel)%nat ->
  (found e ns.*2 = 0 /\ loop fuel (find_turn comparator t e true h) (InHeap (Some l)) = Ok (0, t, h)) \/
  exists k ns' h',
    loop fuel (find_turn comparator t e true h) (InHeap (Some l)) = Ok (found e ns.*2, set_free (Some k) t, h') /\
    ns.*2 ≡ₚ found e ns.*2 :: ns'.*2 /\
    owns h' (seg ((l, x) :: ns') None ++ (k, Entry 0 (free_entry_list t)) :: R).
Proof.
  induction ns as [|[k d] ns IH]; intros l x h R [|fuel] Hnz Ho Hf; simpl in Hf; try lia; cbn [loop];
    unfold find_turn at 1 3; cbn [load_cursor]; rewrite (owns_load h _ l _ Ho) by (by left);
    cbn [bind next head_ptr is_null]; [by left|].
  rewrite (owns_load h _ k (Entry d (head_ptr ns None)) Ho) by (by right; left).
  cbn [bind data next]. rewrite matches_ok. cbn [bind fmap list_fmap snd]. rewrite found_cons. destruct (same e d).
  - right. cbn [store_cursor seg app] in *.
    destruct (owns_store h _ l _ (Entry x (head_ptr ns None)) Ho) as (h1 & -> & Ho1 & _). cbn [bind].
    rewrite perm_swap in Ho1. unfold free_entry.
    destruct (owns_store h1 _ k _ (Entry 0 (free_entry_list t)) Ho1) as (h2 & -> & Ho2 & _). cbn [bind].
    exists k, ns, h2. split; [done|]. split; [done|]. cbn [seg app].
    rewrite perm_swap in Ho2. by rewrite <- Permutation_middle.
  - apply Forall_cons in Hnz as [_ Hnz]. cbn [seg app] in Ho. rewrite perm_swap in Ho.
    rewrite Permutation_middle in Ho.
    destruct (IH k d h ((l, Entry x (Some k)) :: R) fuel Hnz Ho) as [[E1 E2]|(k' & ns' & h' & E1 & E2 & Ho')]; [lia| |].
    { left. by split. }
    right. exists k', ((k, d) :: ns'), h'. split; [done|]. split.
    { cbn [fmap list_fmap snd]. rewrite E2 at 1. apply perm_swap. }
    cbn [seg head_ptr app] in Ho' |- *. rewrite perm_swap, Permutation_middle. 
    eapply owns_proper; [|exact Ho']. constructor. apply Permutation_app_head. apply perm_swap.
Qed.

(** The bucket of an entry, taken out of the table. *)
Lemma inv_bucket t h bs fl F e :
  table_inv t h bs fl F ->
  exists pre b post, bs = pre ++ b :: post /\ slot e (zlen bs) = zlen pre /\
    slot_of hasher t e = Ok (zlen pre) /\ found e (data_of bs) = found e (bdata b) /\
    Forall (fun d => d <> 0) (bdata b) /\ (length (bdata b) < chain_fuel h)%nat.
Proof.
  intros Hinv. destruct (slot_of_ok _ _ _ _ _ e Hinv) as [Hi Hs]. pose proof (found_bucket _ _ _ _ _ e Hinv) as Hf.
  pose proof (bucket_cells _ _ _ _ _ _ Hinv Hi) as [Hsub Hnd].
  destruct (aget_split bs _ Hi) as (pre & post & E & Hp). exists pre, bs.[slot e (zlen bs)], post.
  rewrite Hp. split_and!; try done.
  - apply Forall_forall. intros d Hd. by destruct (inv_placed _ _ _ _ _ Hinv _ d Hi Hd).
  - destruct bs.[slot e (zlen bs)] as [[d ns]|]; simpl; [|unfold chain_fuel; lia].
    pose proof (chain_fuel_seg h _ ns None (shape_owns _ _ _ _ _ (inv_shape _ _ _ _ _ Hinv)) Hsub Hnd) as Hl.
    rewrite length_fmap. lia.
Qed.

Lemma find_ok t h bs fl F e :
  table_inv t h bs fl F -> e <> 0 ->
  hash_find_entry hasher comparator t e false h = Ok (found e (data_of bs), slot e (zlen bs), t, h).
Proof.
  intros Hinv He. destruct (inv_bucket _ _ _ _ _ e Hinv) as (pre & b & post & -> & -> & Hs & -> & Hnz & Hf).
  pose proof (inv_shape _ _ _ _ _ Hinv) as Hsh. pose proof (shape_cells _ _ _ _ _ _ _ Hsh) as Ho.
  unfold hash_find_entry. rewrite Hs. cbn [bind]. rewrite (shape_read _ _ _ _ _ _ _ Hsh). cbn [bind].
  rewrite matches_ok. cbn [bind].
  assert (load_cursor t h (InBucket (zlen pre)) = Ok (bhead b)) as Hc by apply (shape_read _ _ _ _ _ _ _ Hsh).
  destruct b as [[d ns]|]; cbn [bhead data bdata] in *.
  - rewrite found_cons. destruct (same e d); [done|].
    rewrite (find_read_chain t h _ e ns Ho (λ x H, proj2 (elem_of_app _ _ _) (or_introl H)) _ d); [done| |done].
    simpl in Hf. rewrite length_fmap in Hf. lia.
  - rewrite lawful_null by done. rewrite (find_read_chain t h _ e [] Ho (λ x H, proj2 (elem_of_app _ _ _) (or_introl H)) _ 0); done.
Qed.

(** Deletion after the head of a bucket. *)
Lemma find_delete_overflow t h pre d (ns : list node) post fl F e :
  shape t h (pre ++ (Some (d, ns) : bnode) :: post) fl F -> Forall (fun n => n.2 <> 0) ns -> (S (length ns) < chain_fuel h)%nat ->
  exists t' h' (b' : bnode) fl',
    loop (chain_fuel h) (find_turn comparator t e true h) (InBucket (zlen pre)) = Ok (found e ns.*2, t', h') /\
    shape t' h' (pre ++ b' :: post) fl' F /\
    n_buckets_used t' = n_buckets_used t /\ n_entries t' = n_entries t /\ (tuning t' = tuning t /\ self_block t' = self_block t /\ bucket_block t' = bucket_block t) /\
    (if found e ns.*2 =? 0 then b' = Some (d, ns) else d :: ns.*2 ≡ₚ found e ns.*2 :: bdata b').
Proof.
  intros Hsh Hnz Hf. pose proof (shape_cells _ _ _ _ _ _ _ Hsh) as Ho. cbn [bcells] in Ho.
  revert Hf. generalize (chain_fuel h). intros [|fuel] Hf; [lia|]. cbn [loop]. unfold find_turn at 1. cbn [load_cursor].
  rewrite (shape_read _ _ _ _ _ _ _ Hsh). cbn [bind bhead next].
  destruct ns as [|[k d'] ns]; cbn [head_ptr is_null]; [by eexists t, h, _, fl; split_and!|].
  rewrite (owns_load _ _ k (Entry d' (head_ptr ns None)) Ho) by (by left).
  cbn [bind data next]. rewrite matches_ok. cbn [bind fmap list_fmap snd]. rewrite found_cons.
  apply Forall_cons in Hnz as [Hd Hnz]. simpl in Hd. destruct (same e d').
  - cbn [store_cursor]. rewrite (shape_write _ _ _ _ (Some (d, ns)) _ _ _ _ Hsh) by done. cbn [bind]. unfold free_entry.
    cbn [seg app] in Ho. destruct (owns_store _ _ _ _ (Entry 0 (free_entry_list t)) Ho) as (h' & E & Ho' & _).
    cbn [free_entry_list set_bucket]. rewrite E. cbn [bind]. rewrite (proj2 (Z.eqb_neq d' 0) Hd).
    eexists _, _, (Some (d, ns)), (k :: fl). split_and!; try done; [|apply perm_swap].
    apply (shape_replace _ _ _ _ _ _ _ _ _ _ _ Hsh); try done. cbn [bcells]. rewrite rest_free, <- Permutation_middle.
    by rewrite <- (shape_free _ _ _ _ _ Hsh).
  - cbn [bind]. simpl in Hf. destruct (find_delete_chain t e ns k d' h _ fuel Hnz Ho) as [[E1 E2]|(k' & ns' & h' & E1 & E2 & Ho')]; [lia| |].
    { exists t, h, (Some (d, (k, d') :: ns)), fl. rewrite E2, E1. by split_and!. }
    rewrite E1. cbn [bind]. eexists _, _, (Some (d, (k, d') :: ns')), (k' :: fl). split_and!; try done.
    + apply (shape_replace _ _ _ _ _ _ _ _ _ _ _ Hsh); try done.
      { cbn [set_free bucket]. rewrite (shape_bucket _ _ _ _ _ Hsh), !map_app. done. }
      cbn [bcells]. rewrite rest_free.
      by rewrite <- (shape_free _ _ _ _ _ Hsh).
    + destruct (Z.eqb_spec (found e ns.*2) 0) as [E0|_].
      * exfalso. rewrite E0 in E2. assert (0 ∈ ns.*2) as (n & Hn & Hin)%list_elem_of_fmap by (rewrite E2; by left).
        rewrite Forall_forall in Hnz. by apply (Hnz n Hin).
      * cbn [bdata fmap list_fmap snd]. rewrite E2 at 1. rewrite (perm_swap _ d'). apply perm_swap.
Qed.

(** What a deletion does to the table's bucket; the counts are left to the
    caller. *)
Lemma find_delete t h pre b post fl F e :
  shape t h (pre ++ b :: post) fl F -> slot_of hasher t e = Ok (zlen pre) -> e <> 0 ->
  Forall (fun d => d <> 0) (bdata b) -> (length (bdata b) < chain_fuel h)%nat ->
  exists t' h' (b' : bnode) fl',
    hash_find_entry hasher comparator t e true h = Ok (found e (bdata b), zlen pre, t', h') /\
    shape t' h' (pre ++ b' :: post) fl' F /\
    n_buckets_used t' = n_buckets_used t /\ n_entries t' = n_entries t /\ (tuning t' = tuning t /\ self_block t' = self_block t /\ bucket_block t' = bucket_block t) /\
    (if found e (bdata b) =? 0 then b' = b else bdata b ≡ₚ found e (bdata b) :: bdata b').
Proof.
  intros Hsh Hs He Hnz Hf. pose proof (shape_cells _ _ _ _ _ _ _ Hsh) as Ho.
  unfold hash_find_entry. rewrite Hs. cbn [bind]. rewrite (shape_read _ _ _ _ _ _ _ Hsh). cbn [bind].
  rewrite matches_ok. cbn [bind].
  destruct b as [[d ns]|]; cbn [bhead data next bdata bcells] in *.
  2:{ rewrite lawful_null by done. exists t, h, None, fl. split_and!; try done. unfold chain_fuel. cbn [loop].
      unfold find_turn at 1. cbn [load_cursor]. rewrite (shape_read _ _ _ _ _ _ _ Hsh). done. }
  apply Forall_cons in Hnz as [Hd Hnz]. rewrite found_cons. destruct (same e d).
  - rewrite (proj2 (Z.eqb_neq d 0) Hd). destruct ns as [|[k d'] ns]; cbn [head_ptr is_null negb].
    + rewrite (shape_write _ _ _ _ None _ _ _ _ Hsh) by done. cbn [bind]. eexists _, _, None, fl. split_and!; try done.
      apply (shape_replace _ _ _ _ _ _ _ _ _ _ _ Hsh); done || apply Hsh.
    + cbn [seg app] in Ho. rewrite (owns_load _ _ _ _ Ho) by (by left). cbn [bind].
      rewrite (shape_write _ _ _ _ (Some (d', ns)) _ _ _ _ Hsh) by done. cbn [bind]. unfold free_entry.
      destruct (owns_store _ _ _ _ (Entry 0 (free_entry_list t)) Ho) as (h' & E & Ho' & _). cbn [free_entry_list set_bucket].
      rewrite E. cbn [bind]. eexists _, _, (Some (d', ns)), (k :: fl). split_and!; try done.
      apply (shape_replace _ _ _ _ _ _ _ _ _ _ _ Hsh); try done. cbn [bcells]. rewrite rest_free.
      rewrite <- Permutation_middle. by rewrite <- (shape_free _ _ _ _ _ Hsh).
  - destruct (find_delete_overflow _ _ _ _ _ _ _ _ e Hsh) as (t' & h' & b' & fl' & E & H).
    + by apply (Forall_fmap _ _ ns) in Hnz.
    + simpl in Hf. rewrite length_fmap in Hf. lia.
    + rewrite E. cbn [bind]. by exists t', h', b', fl'.
Qed.

(** ** Collections *)

Lemma distinct_perm xs ys : xs ≡ₚ ys -> distinct xs -> distinct ys.
Proof.
  intros Hp [Hn Hd]. split; [by rewrite <- Hp|]. intros a b Ha Hb. apply Hd; by rewrite Hp.
Qed.

Lemma distinct_tail x xs : distinct (x :: xs) -> distinct xs.
Proof. intros [[_ Hn]%NoDup_cons Hd]. split; [done|]. intros a b Ha Hb. apply Hd; by right. Qed.

Lemma found_zero e xs x : Forall (fun d => d <> 0) xs -> found e xs = 0 -> x ∈ xs -> same e x = false.
Proof.
  intros Hnz Hf Hx. destruct (same e x) eqn:E; [|done]. exfalso. unfold found in Hf.
  rewrite Forall_forall in Hnz. destruct (list_find (fun x => same e x = true) xs) as [[i y]|] eqn:El.
  - apply list_find_Some in El as (Hi & _ & _). apply (Hnz y); [by eapply list_elem_of_lookup_2|done].
  - apply list_find_None in El. rewrite Forall_forall in El. by apply (El x Hx).
Qed.

Lemma distinct_insert e xs : Forall (fun d => d <> 0) xs -> distinct xs -> found e xs = 0 -> distinct (e :: xs).
Proof.
  intros Hnz [Hn Hd] Hf. pose proof (fun x => found_zero e xs x Hnz Hf) as Hne. split.
  - constructor; [|done]. intros Hx. apply Hne in Hx. by rewrite lawful_refl in Hx.
  - intros a b [->|Ha]%elem_of_cons [->|Hb]%elem_of_cons Hs; try done; [..|by apply Hd].
    + by rewrite Hne in Hs.
    + by rewrite lawful_sym, Hne in Hs.
Qed.

(** The entry found does not depend on the order of the collection. *)
Lemma found_perm e xs ys : distinct xs -> Forall (fun d => d <> 0) xs -> xs ≡ₚ ys -> found e xs = found e ys.
Proof.
  intros Hd Hnz Hp. destruct (decide (found e xs = 0)) as [Hf|Hf].
  - rewrite Hf. symmetry. apply found_None. intros x Hx. apply (found_zero e xs x Hnz Hf). by rewrite Hp.
  - rewrite Forall_forall in Hnz. destruct (found_elem e xs Hnz Hf) as [Hin Hs]. symmetry.
    apply found_unique; [by apply (distinct_perm xs)|by rewrite <- Hp|done].
Qed.

Lemma used_split pre b post : used_of (pre ++ b :: post) = used_of pre + busy b + used_of post.
Proof.
  induction pre as [|b' pre IH]; [done|]. simpl in *. rewrite IH. lia.
Qed.

Lemma data_split pre b post : data_of (pre ++ b :: post) ≡ₚ bdata b ++ data_of pre ++ data_of post.
Proof. unfold data_of. rewrite bind_split. apply Permutation_app_swap_app. Qed.

Lemma busy_data (b : bnode) : 0 <= busy b <= zlen (bdata b).
Proof. destruct b as [[]|]; simpl; [rewrite zlen_cons; unfold zlen|unfold zlen]; lia. Qed.

(** At most as many buckets are in use as there are entries. *)
Lemma used_bound bs : 0 <= used_of bs <= zlen (data_of bs).
Proof.
  induction bs as [|b bs IH]; [done|]. change (b :: bs) with ([] ++ b :: bs). rewrite used_split, data_split.
  rewrite !zlen_app. pose proof (busy_data b). change (used_of []) with 0. change (zlen (data_of [])) with 0. lia.
Qed.

Lemma placed_nonzero bs : placed bs -> Forall (fun d => d <> 0) (data_of bs).
Proof. intros Hp. apply Forall_forall. intros d (i & Hi & Hd)%elem_data. by destruct (Hp i d Hi Hd). Qed.

(** A table with one bucket replaced. *)
Lemma inv_replace t h pre b b' post fl F t' h' fl' :
  table_inv t h (pre ++ b :: post) fl F -> shape t' h' (pre ++ b' :: post) fl' F ->
  n_buckets_used t' = n_buckets_used t - busy b + busy b' ->
  n_entries t' = n_entries t - zlen (bdata b) + zlen (bdata b') ->
  Forall (fun d => d <> 0 /\ slot d (zlen (pre ++ b :: post)) = zlen pre) (bdata b') ->
  distinct (bdata b' ++ data_of pre ++ data_of post) ->
  table_inv t' h' (pre ++ b' :: post) fl' F.
Proof.
  intros Hinv Hsh Hu He Hpl Hd.
  assert (zlen (pre ++ b' :: post) = zlen (pre ++ b :: post)) as Hl by (by rewrite !zlen_app, !zlen_cons).
  split; [done|..].
  - rewrite Hl. apply Hinv.
  - rewrite Hu, (inv_used _ _ _ _ _ Hinv), !used_split. lia.
  - rewrite He, (inv_entries _ _ _ _ _ Hinv), !data_split, !zlen_app. lia.
  - intros i d Hi Hid. rewrite Hl in *. destruct (decide (i = zlen pre)) as [->|Hne].
    + rewrite aget_middle in Hid. rewrite Forall_forall in Hpl. by apply Hpl.
    + apply (inv_placed _ _ _ _ _ Hinv); [done|]. rewrite <- (upd_split pre b b' post) in Hid.
      rewrite aget_upd_ne in Hid by (try apply zlen_nonneg; lia). done.
  - eapply distinct_perm, Hd. symmetry. apply data_split.
Qed.

(** ** The table as a collection *)

(** The table holds the entries [xs], in any order. *)
Definition holds t h (F : list (loc * hash_entry)) (xs : list Z) : Prop :=
  exists bs fl, table_inv t h bs fl F /\ data_of bs ≡ₚ xs.

(** What resizing depends on. *)
Definition same_size t t' : Prop := (tuning t' = tuning t /\ n_buckets t' = n_buckets t) /\ self_block t' = self_block t /\ bucket_block t' = bucket_block t.

Lemma holds_nonzero t h F xs : holds t h F xs -> Forall (fun d => d <> 0) xs.
Proof. intros (bs & fl & Hinv & Hp). rewrite <- Hp. apply placed_nonzero, Hinv. Qed.

Lemma holds_distinct t h F xs : holds t h F xs -> distinct xs.
Proof. intros (bs & fl & Hinv & Hp). eapply distinct_perm; [done|apply Hinv]. Qed.

Lemma holds_found t h bs fl F xs e :
  table_inv t h bs fl F -> data_of bs ≡ₚ xs -> found e (data_of bs) = found e xs.
Proof. intros Hinv Hp. apply found_perm; [apply Hinv|apply placed_nonzero, Hinv|done]. Qed.

Lemma holds_used t h F xs : holds t h F xs -> 0 <= n_buckets_used t <= zlen xs.
Proof. intros (bs & fl & Hinv & Hp). rewrite (inv_used _ _ _ _ _ Hinv), <- Hp. apply used_bound. Qed.

Lemma lookup_holds t h F xs e : holds t h F xs -> hash_lookup hasher comparator t e h = Ok (found e xs).
Proof. intros (bs & fl & Hinv & Hp). rewrite (hash_lookup_ok _ _ _ _ _ _ Hinv). by rewrite (holds_found _ _ _ _ _ xs e Hinv). Qed.

Lemma add_entry t h pre b b' post fl F t' h' fl' e :
  table_inv t h (pre ++ b :: post) fl F -> slot e (zlen (pre ++ b :: post)) = zlen pre -> e <> 0 ->
  found e (data_of (pre ++ b :: post)) = 0 -> shape t' h' (pre ++ b' :: post) fl' F ->
  bdata b' ≡ₚ e :: bdata b -> n_buckets_used t' = n_buckets_used t - busy b + 1 -> busy b' = 1 ->
  n_entries t' = n_entries t + 1 ->
  table_inv t' h' (pre ++ b' :: post) fl' F /\ data_of (pre ++ b' :: post) ≡ₚ e :: data_of (pre ++ b :: post).
Proof.
  intros Hinv Hs He Hf Hsh Hb Hu Hb1 Hn. split; [|by rewrite !data_split, Hb].
  apply (inv_replace _ _ _ _ _ _ _ _ _ _ _ Hinv Hsh).
  - lia.
  - rewrite Hb, zlen_cons. lia.
  - rewrite Hb. constructor; [done|]. apply Forall_forall. intros d Hd.
    apply (inv_placed _ _ _ _ _ Hinv); [|by rewrite aget_middle]. pose proof (lawful_slot e _ (inv_pos _ _ _ _ _ Hinv)).
    by rewrite <- Hs.
  - eapply distinct_perm; [|apply distinct_insert; [apply placed_nonzero, Hinv|apply Hinv|exact Hf]].
    by rewrite Hb, data_split.
Qed.

(** An allocation reuses a free entry, asks for a new one, or fails. *)
Lemma allocate_ok t h pre b post fl F :
  shape t h (pre ++ b :: post) fl F ->
  (exists h', allocate_entry malloc_ok t h = Ok (None, t, h') /\ shape t h' (pre ++ b :: post) fl F /\
     malloc_ok (calls h) = false) \/
  exists k x h' fl', allocate_entry malloc_ok t h = Ok (Some k, set_free (head_ptr (fnodes fl') None) t, h') /\
    owns h' ((k, x) :: bcells b ++ rest pre post fl' F).
Proof.
  intros Hsh. pose proof (shape_cells _ _ _ _ _ _ _ Hsh) as Ho. unfold allocate_entry.
  rewrite (shape_free _ _ _ _ _ Hsh). destruct fl as [|k fl]; cbn [fnodes map head_ptr is_null negb].
  - destruct (malloc_ok (calls h)) eqn:Em.
    + right. destruct (owns_malloc malloc_ok h _ (Entry 0 None) Ho Em) as (k & h' & -> & Ho').
      exists k, (Entry 0 None), h', []. split; [|done]. pose proof (shape_free _ _ _ _ _ Hsh) as Hfr.
      do 3 f_equal. destruct t. cbn in *. by rewrite Hfr.
    + left. destruct (owns_malloc_refused malloc_ok h _ (Entry 0 None) Ho Em) as (h' & -> & Ho').
      exists h'. split_and!; [done| |done]. apply (shape_replace _ _ _ _ _ _ _ _ _ _ _ Hsh); done || apply Hsh.
  - right. rewrite rest_free, <- Permutation_middle in Ho. rewrite (owns_load _ _ _ _ Ho) by (by left).
    cbn [bind next]. by exists k, (Entry 0 (head_ptr (fnodes fl) None)), h, fl.
Qed.

(** The new entry goes into an empty bucket, or after the head of its bucket. *)
Lemma insert_fresh t h bs fl F e :
  table_inv t h bs fl F -> e <> 0 -> over_growth t = false -> zlen (data_of bs) + 1 < 2 ^ 64 ->
  found e (data_of bs) = 0 ->
  exists r t' h', hash_insert malloc_ok prime_fuel hasher comparator t e h = Ok (r, t', h') /\ same_size t t' /\
    ((r = e /\ holds t' h' F (e :: data_of bs)) \/
     (r = 0 /\ holds t' h' F (data_of bs) /\ malloc_ok (calls h) = false)).
Proof.
  intros Hinv He Hg Hlt E0. unfold hash_insert, demand.
  rewrite (proj2 (Z.eqb_neq e 0) He). cbn [negb bind]. rewrite (find_ok _ _ _ _ _ _ Hinv He). cbn [bind].
  rewrite E0. cbn [negb Z.eqb]. unfold grow. rewrite Hg. cbn [bind].
  pose proof (used_bound bs) as Hub. rewrite <- (inv_used _ _ _ _ _ Hinv) in Hub.
  assert (u64 (n_entries t + 1) = n_entries t + 1) as Hn.
  { rewrite (inv_entries _ _ _ _ _ Hinv). unfold u64. apply Z.mod_small. lia. }
  assert (u64 (n_buckets_used t + 1) = n_buckets_used t + 1) as Hu by (unfold u64; apply Z.mod_small; lia).
  destruct (inv_bucket _ _ _ _ _ e Hinv) as (pre & b & post & -> & Hs & _ & _ & Hnz & _).
  pose proof (inv_shape _ _ _ _ _ Hinv) as Hsh. rewrite Hs, (shape_read _ _ _ _ _ _ _ Hsh). cbn [bind].
  destruct b as [[d ns]|]; cbn [bhead data next].
  - apply Forall_cons in Hnz as [Hd _]. rewrite (proj2 (Z.eqb_neq d 0) Hd). cbn [negb].
    destruct (allocate_ok _ _ _ _ _ _ _ Hsh) as [(h' & -> & Hsh' & Hm)|(k & x & h' & fl' & -> & Ho')]; cbn [bind is_null].
    { exists 0, t, h'. split_and!; try done. right. split_and!; try done. eexists _, _. split; [|done].
      destruct Hinv. by split. }
    destruct (owns_store _ _ _ _ (Entry e (head_ptr ns None)) Ho') as (h2 & -> & Ho2 & _). cbn [bind set_free bucket].
    rewrite (shape_write _ _ _ _ (Some (d, (k, e) :: ns)) _ _ _ _ Hsh) by done. cbn [bind].
    eexists _, _, _. split_and!; try done. left. split; [done|]. exists (pre ++ Some (d, (k, e) :: ns) :: post), fl'.
    eapply add_entry; try done; cbn [n_buckets_used set_entries set_bucket set_free n_entries busy].
    + apply (shape_replace _ _ _ _ _ _ _ _ _ _ _ Hsh); done.
    + apply perm_swap.
    + lia.
  - rewrite Z.eqb_refl. cbn [negb]. rewrite (shape_write _ _ _ _ (Some (e, [])) _ _ _ _ Hsh) by done. cbn [bind].
    eexists _, _, _. split_and!; try done. left. split; [done|]. exists (pre ++ Some (e, []) :: post), fl.
    eapply add_entry; try done; cbn [n_buckets_used set_used set_entries set_bucket set_free n_entries busy].
    + apply (shape_replace _ _ _ _ _ _ _ _ _ _ _ Hsh); try done; [apply Hsh|]. apply (shape_cells _ _ _ _ _ _ _ Hsh).
    + lia.
Qed.

Lemma holds_perm t h F xs ys : xs ≡ₚ ys -> holds t h F xs -> holds t h F ys.
Proof. intros Hp (bs & fl & Hinv & Hx). exists bs, fl. split; [done|]. by rewrite Hx. Qed.

Lemma insert_holds t h F xs e :
  holds t h F xs -> e <> 0 -> over_growth t = false -> zlen xs + 1 < 2 ^ 64 ->
  exists r t' h', hash_insert malloc_ok prime_fuel hasher comparator t e h = Ok (r, t', h') /\ same_size t t' /\
    if negb (found e xs =? 0) then r = found e xs /\ holds t' h' F xs
    else (r = e /\ holds t' h' F (e :: xs)) \/ (r = 0 /\ holds t' h' F xs /\ malloc_ok (calls h) = false).
Proof.
  intros Hx He Hg Hlt. destruct Hx as (bs & fl & Hinv & Hp).
  rewrite <- (holds_found _ _ _ _ _ xs e Hinv Hp). destruct (Z.eqb_spec (found e (data_of bs)) 0) as [E0|E0]; cbn [negb].
  - destruct (insert_fresh _ _ _ _ _ _ Hinv He Hg) as (r & t' & h' & E & Hs & Hr); [by rewrite Hp|done|].
    exists r, t', h'. split_and!; [done|done|]. destruct Hr as [[-> Hr]|(-> & Hr & Hm)]; [left|right].
    + split; [done|]. eapply holds_perm; [|exact Hr]. by rewrite Hp.
    + split_and!; [done| |done]. by eapply holds_perm.
  - exists (found e (data_of bs)), t, h. unfold hash_insert, demand. rewrite (proj2 (Z.eqb_neq e 0) He). cbn [negb bind].
    rewrite (find_ok _ _ _ _ _ _ Hinv He). cbn [bind]. rewrite (proj2 (Z.eqb_neq _ 0) E0). split_and!; try done. by exists bs, fl.
Qed.

(** ** Deletion *)

(** The entries other than [e]. *)
Definition without (e : Z) (xs : list Z) : list Z := filter (fun x => same e x = false) xs.

Lemma without_id e xs : (forall x, x ∈ xs -> same e x = false) -> without e xs = xs.
Proof.
  unfold without. induction xs as [|x xs IH]; intros H; [done|]. rewrite filter_cons_True by (apply H; by left).
  f_equal. apply IH. intros y Hy. apply H. by right.
Qed.

Lemma without_cons e x xs : distinct (x :: xs) -> same e x = true -> without e (x :: xs) = xs.
Proof.
  intros Hd Hs. unfold without. rewrite filter_cons_False by (by rewrite Hs). apply without_id.
  intros y Hy. destruct (same e y) eqn:E; [|done]. exfalso. destruct Hd as [[Hx _]%NoDup_cons Hd]. apply Hx.
  rewrite (Hd x y); [done|by left|by right|]. apply (lawful_trans _ e); [by rewrite lawful_sym|done].
Qed.

(** The table is not resized while it has at most [cap] buckets in use. *)
Definition steady t (cap : Z) : Prop :=
  forall u, 0 <= u <= cap -> over_growth (set_used u t) = false /\ under_shrink (set_used u t) = false.

Lemma steady_same t t' cap : same_size t t' -> steady t cap -> steady t' cap.
Proof.
  intros [[Ht Hn] _] Hs u Hu. destruct (Hs u Hu) as [Hg Hk]. unfold over_growth, under_shrink in *.
  cbn [set_used tuning n_buckets n_buckets_used] in *. by rewrite Ht, Hn.
Qed.

Lemma steady_growth t h F xs cap : holds t h F xs -> steady t cap -> zlen xs <= cap -> over_growth t = false.
Proof.
  intros Hx Hs Hc. pose proof (holds_used _ _ _ _ Hx). destruct (Hs (n_buckets_used t)) as [Hg _]; [lia|].
  by destruct t.
Qed.

Lemma remove_entry t h pre b b' post fl F t' h' fl' x :
  table_inv t h (pre ++ b :: post) fl F -> shape t' h' (pre ++ b' :: post) fl' F ->
  bdata b ≡ₚ x :: bdata b' -> n_buckets_used t' = n_buckets_used t - busy b + busy b' ->
  n_entries t' = n_entries t - 1 ->
  table_inv t' h' (pre ++ b' :: post) fl' F /\ data_of (pre ++ b :: post) ≡ₚ x :: data_of (pre ++ b' :: post).
Proof.
  intros Hinv Hsh Hb Hu Hn. split; [|by rewrite !data_split, Hb].
  apply (inv_replace _ _ _ _ _ _ _ _ _ _ _ Hinv Hsh); [done| |..].
  - rewrite Hb, zlen_cons. lia.
  - apply Forall_forall. intros d Hd. apply (inv_placed _ _ _ _ _ Hinv).
    + rewrite zlen_app, zlen_cons. pose proof (zlen_nonneg pre). pose proof (zlen_nonneg post). lia.
    + rewrite aget_middle, Hb. by right.
  - apply (distinct_tail x). eapply distinct_perm, Hinv. by rewrite data_split, Hb.
Qed.

Lemma account_ok t h pre b b' post fl F t' h' fl' x cap :
  table_inv t h (pre ++ b :: post) fl F -> shape t' h' (pre ++ b' :: post) fl' F -> same_size t t' ->
  n_buckets_used t' = n_buckets_used t -> n_entries t' = n_entries t -> bdata b ≡ₚ x :: bdata b' ->
  Forall (fun d => d <> 0) (bdata b) -> steady t cap -> zlen (data_of (pre ++ b :: post)) <= cap < 2 ^ 64 ->
  exists t2, account_deletion malloc_ok prime_fuel hasher t' x (zlen pre) h' = Ok (x, t2, h') /\ same_size t t2 /\
    table_inv t2 h' (pre ++ b' :: post) fl' F /\ data_of (pre ++ b :: post) ≡ₚ x :: data_of (pre ++ b' :: post).
Proof.
  intros Hinv Hsh' Hss Hu Hn Hb Hnz Hst Hc. pose proof (used_bound (pre ++ b :: post)) as Hub.
  rewrite <- (inv_used _ _ _ _ _ Hinv) in Hub.
  assert (busy b = 1) as Hbusy. { destruct b as [[]|]; [done|]. by apply Permutation_nil_cons in Hb. }
  assert (1 <= n_buckets_used t) as Hu1.
  { rewrite (inv_used _ _ _ _ _ Hinv), used_split, Hbusy. pose proof (used_bound pre). pose proof (used_bound post). lia. }
  assert (u64 (n_entries t' - 1) = n_entries t - 1) as Hn1.
  { rewrite Hn. pose proof (inv_entries _ _ _ _ _ Hinv). unfold u64. apply Z.mod_small. lia. }
  unfold account_deletion. cbn [set_entries bucket]. rewrite (shape_read _ _ _ _ _ _ _ Hsh'). cbn [bind]. rewrite Hn1.
  destruct b' as [[d ns]|]; cbn [bhead data].
  - assert (d <> 0) as Hd. { rewrite Forall_forall in Hnz. apply Hnz. rewrite Hb. right. by left. }
    rewrite (proj2 (Z.eqb_neq d 0) Hd). eexists. split; [done|]. split; [done|].
    eapply (remove_entry _ _ _ _ _ _ _ _ _ _ _ _ Hinv); [|done|..]; [destruct Hsh'; by split| |done].
    cbn [busy]. rewrite Hbusy. cbn. lia.
  - assert (u64 (n_buckets_used t' - 1) = n_buckets_used t - 1) as Hu2.
    { rewrite Hu. unfold u64. apply Z.mod_small. lia. }
    rewrite Z.eqb_refl. cbn [set_entries n_buckets_used]. rewrite Hu2. unfold shrink.
    destruct (steady_same t t' cap Hss Hst (n_buckets_used t - 1)) as [_ Hk]; [lia|].
    unfold under_shrink in *. cbn [set_used set_entries n_buckets n_buckets_used tuning] in *. rewrite Hk. cbn [bind].
    eexists. split; [done|]. split; [done|].
    eapply (remove_entry _ _ _ _ _ _ _ _ _ _ _ _ Hinv); [|done|..]; [destruct Hsh'; by split| |done].
    cbn [busy]. rewrite Hbusy. cbn. lia.
Qed.

Lemma delete_holds t h F xs cap e :
  holds t h F xs -> e <> 0 -> steady t cap -> zlen xs <= cap < 2 ^ 64 ->
  exists t' h', hash_delete malloc_ok prime_fuel hasher comparator t e h = Ok (found e xs, t', h') /\
    same_size t t' /\ holds t' h' F (without e xs).
Proof.
  intros Hx He Hst Hc. pose proof (holds_distinct _ _ _ _ Hx) as Hdx. pose proof (holds_nonzero _ _ _ _ Hx) as Hnx.
  destruct Hx as (bs & fl & Hinv & Hp).
  pose proof (inv_shape _ _ _ _ _ Hinv) as Hsh. pose proof (holds_found _ _ _ _ _ xs e Hinv Hp) as Hfx.
  destruct (inv_bucket _ _ _ _ _ e Hinv) as (pre & b & post & -> & Hs & Hso & Hfb & Hnz & Hfu).
  destruct (find_delete _ _ _ _ _ _ _ e Hsh Hso He Hnz Hfu) as (t' & h' & b' & fl' & E & Hsh' & Hu' & Hn' & Ht' & Hb').
  unfold hash_delete. rewrite E, <- Hfb, Hfx. cbn [bind]. rewrite <- Hfb, Hfx in Hb'.
  assert (same_size t t') as Hss.
  { split; [split; [apply Ht'|]|apply Ht']. by rewrite (shape_size _ _ _ _ _ Hsh), (shape_size _ _ _ _ _ Hsh'), !zlen_app, !zlen_cons. }
  destruct (Z.eqb_spec (found e xs) 0) as [E0|E0].
  - subst b'. exists t', h'. rewrite E0. split_and!; [done..|]. exists (pre ++ b :: post), fl'. split.
    + destruct Hinv. split; [done|done|congruence|congruence|done..].
    + rewrite Hp, without_id; [done|]. intros x Hx. by apply (found_zero e xs).
  - destruct (account_ok _ _ _ _ _ _ _ _ _ _ _ _ cap Hinv Hsh' Hss Hu' Hn' Hb' Hnz Hst) as (t2 & E2 & Hs2 & Hinv2 & Hd2).
    { by rewrite Hp. }
    exists t2, h'. split_and!; [done..|]. exists (pre ++ b' :: post), fl'. split; [done|]. rewrite Hp in Hd2.
    rewrite Forall_forall in Hnx. pose proof (found_elem e xs Hnx E0) as [_ Hse]. unfold without. rewrite Hd2 at 1.
    rewrite <- (without_cons e (found e xs) (data_of (pre ++ b' :: post))) at 1; [done| |done]. by eapply distinct_perm.
Qed.

(** ** Walking *)

(** [visit] on one entry after the other, until it ends the walk. *)
Fixpoint visit_all {S} (visit : Z -> S -> res (S + S)) (xs : list Z) (s : S) : res (S + S) :=
  match xs with
  | [] => Ok (inl s)
  | x :: xs =>
      let* r := visit x s in
      match r with inl s => visit_all visit xs s | inr s => Ok (inr s) end
  end.

Lemma visit_app {S} (visit : Z -> S -> res (S + S)) xs ys s :
  visit_all visit (xs ++ ys) s =
  let* r := visit_all visit xs s in match r with inl s => visit_all visit ys s | inr s => Ok (inr s) end.
Proof. revert s. induction xs as [|x xs IH]; intros s; [done|]. simpl. by destruct (visit x s) as [[]|]; simpl. Qed.

Lemma walk_chain {S} (visit : Z -> S -> res (S + S)) h L ns : owns h L -> seg ns None ⊆ L ->
  forall d s fuel, (length ns < fuel)%nat ->
  loop fuel (walk_turn h visit) (Entry d (head_ptr ns None), s) = visit_all visit (d :: ns.*2) s.
Proof.
  intros Ho. induction ns as [|[l d'] ns IH]; intros Hsub d s [|fuel] Hf; simpl in Hf; try lia;
    cbn [loop walk_turn data next head_ptr]; cbn [visit_all fmap list_fmap snd];
    destruct (visit d s) as [[s'|s']|]; cbn [bind is_null]; try done.
  rewrite (owns_load h L l (Entry d' (head_ptr ns None)) Ho) by (apply Hsub; by left). cbn [bind].
  rewrite IH by (lia || (intros c Hc; apply Hsub; by right)). done.
Qed.

(** A property of all buckets, from the last to the first. *)
Lemma buckets_ind t h bs fl F (P : list bnode -> list bnode -> Prop) :
  table_inv t h bs fl F -> P bs [] ->
  (forall pre b post, bs = pre ++ b :: post -> rd (bucket t) (zlen pre) = Ok (bhead b) ->
     Forall (fun d => d <> 0) (bdata b) -> bcells b ⊆ cells_of bs ++ seg (fnodes fl) None ++ F ->
     (length (bdata b) < chain_fuel h)%nat -> P (pre ++ [b]) post -> P pre (b :: post)) ->
  P [] bs.
Proof.
  intros Hinv H0 Hs. assert (forall post pre, bs = pre ++ post -> P pre post) as H; [|by apply H].
  induction post as [|b post IH]; intros pre E; [rewrite app_nil_r in E; by subst|].
  assert (0 <= zlen pre < zlen bs) as Hi.
  { rewrite E, zlen_app, zlen_cons. pose proof (zlen_nonneg pre). pose proof (zlen_nonneg post). lia. }
  assert (bs.[zlen pre] = b) as Eb by (rewrite E; apply aget_middle).
  pose proof (bucket_cells _ _ _ _ _ _ Hinv Hi) as [Hsub Hnd]. rewrite Eb in *. apply Hs; try done.
  - apply (shape_read _ h _ _ post fl F). rewrite <- E. apply Hinv.
  - apply Forall_forall. intros d Hd. rewrite <- Eb in Hd. by destruct (inv_placed _ _ _ _ _ Hinv _ d Hi Hd).
  - destruct b as [[d ns]|]; simpl; [|unfold chain_fuel; lia].
    pose proof (chain_fuel_seg h _ ns None (shape_owns _ _ _ _ _ (inv_shape _ _ _ _ _ Hinv)) Hsub Hnd) as Hl.
    rewrite length_fmap. lia.
  - apply IH. by rewrite E, <- app_assoc.
Qed.

Lemma walk_ok {S} (visit : Z -> S -> res (S + S)) t h bs fl F s :
  table_inv t h bs fl F ->
  walk t h visit s = let* r := visit_all visit (data_of bs) s in match r with inl s => Ok s | inr s => Ok s end.
Proof.
  intros Hinv. unfold walk, for_exit. rewrite (shape_size _ _ _ _ _ (inv_shape _ _ _ _ _ Hinv)), Z.sub_0_r.
  unfold zlen. rewrite Nat2Z.id. f_equal. revert s.
  apply (buckets_ind t h bs fl F (fun pre post => forall s,
    for_exit_n (length post) (zlen pre) (walk_bucket t h visit) s = visit_all visit (data_of post) s) Hinv); [done|].
  intros pre b post E Hrd Hnz Hsub Hf IH s. cbn [length for_exit_n]. unfold walk_bucket at 1. rewrite Hrd. cbn [bind].
  change (data_of (b :: post)) with (bdata b ++ data_of post). rewrite visit_app.
  rewrite zlen_snoc in IH. destruct b as [[d ns]|]; cbn [bhead data bdata] in *; [|apply IH].
  apply Forall_cons in Hnz as [Hd _]. rewrite (proj2 (Z.eqb_neq d 0) Hd).
  rewrite (walk_chain visit h _ ns (shape_owns _ _ _ _ _ (inv_shape _ _ _ _ _ Hinv)) Hsub).
  - destruct (visit_all visit (d :: ns.*2) s) as [[s'|s']|]; cbn [bind]; [apply IH|done..].
  - simpl in Hf. rewrite length_fmap in Hf. lia.
Qed.

Lemma fill_all n xs : forall done buffer, zlen done <= n <= zlen done + zlen buffer ->
  exists r, visit_all (fill_buffer n) xs (zlen done, done ++ buffer) = Ok r /\
  exists others, (match r with inl s => s | inr s => s end) =
    (Z.min n (zlen done + zlen xs), done ++ take (Z.to_nat (n - zlen done)) xs ++ others) /\
    zlen (done ++ take (Z.to_nat (n - zlen done)) xs ++ others) = zlen done + zlen buffer.
Proof.
  induction xs as [|x xs IH]; intros done buffer Hn; cbn [visit_all].
  - eexists. split; [done|]. exists buffer. rewrite take_nil, zlen_app. split; [|done]. f_equal.
    change (zlen (@nil Z)) with 0. lia.
  - unfold fill_buffer at 1. destruct (Z.geb_spec (zlen done) n) as [Hg|Hg]; cbn [bind].
    + eexists. split; [done|]. exists buffer. replace (Z.to_nat (n - zlen done)) with 0%nat by lia.
      rewrite take_0, zlen_app. split; [|done]. f_equal. rewrite zlen_cons. pose proof (zlen_nonneg xs). lia.
    + destruct buffer as [|y buffer]; [change (zlen (@nil Z)) with 0 in Hn; lia|]. rewrite wr_middle by done. cbn [bind].
      rewrite zlen_cons in Hn. destruct (IH (done ++ [x]) buffer) as (r & E & others & Er & Hl); [rewrite zlen_snoc; lia|].
      rewrite zlen_snoc in *. rewrite <- app_assoc in E. cbn [app] in E. exists r. split; [done|]. exists others. rewrite Er.
      replace (Z.to_nat (n - zlen done)) with (S (Z.to_nat (n - (zlen done + 1)))) by lia.
      cbn [take app]. rewrite <- app_assoc in *. cbn [app] in *. rewrite !zlen_cons. split; [f_equal|]; lia.
Qed.

(** hash_get_entries fills the buffer up to its size. *)
Lemma get_entries_ok t h bs fl F buffer n :
  table_inv t h bs fl F -> 0 <= n <= zlen buffer ->
  exists others, hash_get_entries t buffer n h =
    Ok (Z.min n (zlen (data_of bs)), take (Z.to_nat n) (data_of bs) ++ others) /\
    zlen (take (Z.to_nat n) (data_of bs) ++ others) = zlen buffer.
Proof.
  intros Hinv Hn. unfold hash_get_entries. rewrite (walk_ok _ _ _ _ _ _ _ Hinv).
  destruct (fill_all n (data_of bs) [] buffer) as (r & E & others & Er & Hl); [done|]. cbn [app] in *.
  change (zlen (@nil Z)) with 0 in *. rewrite E, Z.sub_0_r in *. exists others. split; [|done]. rewrite Z.add_0_l in Er.
  cbn [bind]. by destruct r; rewrite Er.
Qed.

(** hash_do_for_each stops at the first entry the processor refuses. *)
Fixpoint processed (processor : Z -> bool) (xs : list Z) : Z * list Z :=
  match xs with
  | [] => (0, [])
  | x :: xs => if processor x then let '(n, seen) := processed processor xs in (n + 1, x :: seen) else (0, [x])
  end.

Lemma do_for_each_ok t h bs fl F processor :
  table_inv t h bs fl F -> hash_do_for_each t processor h = Ok (processed processor (data_of bs)).
Proof.
  intros Hinv. unfold hash_do_for_each. rewrite (walk_ok _ _ _ _ _ _ _ Hinv). generalize (data_of bs). intros xs.
  assert (forall xs n seen, (let* r := visit_all (call_processor processor) xs (n, seen) in match r with inl s => Ok s | inr s => Ok s end) =
    Ok (n + (processed processor xs).1, seen ++ (processed processor xs).2)) as H.
  { clear. induction xs as [|x xs IH]; intros n seen; cbn [visit_all processed].
    - cbn [bind fst snd]. by rewrite Z.add_0_r, app_nil_r.
    - unfold call_processor at 1. destruct (processor x); cbn [bind].
      + rewrite IH. destruct (processed processor xs) as [k s]. cbn [fst snd]. rewrite <- app_assoc. do 2 f_equal. lia.
      + cbn [fst snd]. by rewrite Z.add_0_r. }
  rewrite H. by destruct (processed processor xs).
Qed.

(** ** Counting *)

Lemma overflow_length_ok h L ns : owns h L -> seg ns None ⊆ L -> (length ns < chain_fuel h)%nat ->
  overflow_length (head_ptr ns None) h = Ok (zlen ns).
Proof.
  intros Ho Hsub Hf. unfold overflow_length.
  assert (forall ns fuel n, seg ns None ⊆ L -> (length ns < fuel)%nat ->
    while fuel (fun '(p, _) => Ok (negb (is_null p))) (length_turn h) (head_ptr ns None, n) = Ok (None, n + zlen ns)) as H.
  { clear Hf Hsub ns. induction ns as [|[l d] ns IH]; intros [|fuel] n Hsub Hf; simpl in Hf; try lia;
      rewrite while_step; cbn [bind head_ptr is_null negb].
    - by rewrite Z.add_0_r.
    - unfold length_turn at 1. rewrite (owns_load h L l (Entry d (head_ptr ns None)) Ho) by (apply Hsub; by left). cbn [bind next].
      rewrite IH by (lia || (intros c Hc; apply Hsub; by right)). rewrite zlen_cons. do 2 f_equal. lia. }
  by rewrite H.
Qed.

(** The table passes its own consistency check. *)
Lemma table_ok_ok t h bs fl F :
  table_inv t h bs fl F -> zlen (data_of bs) < 2 ^ 64 -> hash_table_ok t h = Ok true.
Proof.
  intros Hinv Hlt. unfold hash_table_ok, for_up. rewrite (shape_size _ _ _ _ _ (inv_shape _ _ _ _ _ Hinv)), Z.sub_0_r.
  assert (forall u n, 0 <= u -> 0 <= n -> u + used_of bs <= n + zlen (data_of bs) < 2 ^ 64 ->
    for_n (length bs) 0 (count_bucket t h) (u, n) = Ok (u + used_of bs, n + zlen (data_of bs))) as H.
  { apply (buckets_ind t h bs fl F (fun pre post => forall u n, 0 <= u -> 0 <= n ->
      u + used_of post <= n + zlen (data_of post) < 2 ^ 64 ->
      for_n (length post) (zlen pre) (count_bucket t h) (u, n) = Ok (u + used_of post, n + zlen (data_of post))) Hinv).
    { intros u n _ _ _. cbn. by rewrite !Z.add_0_r. }
    intros pre b post E Hrd Hnz Hsub Hf IH u n Hu Hn Hb. cbn [length for_n]. unfold count_bucket at 1. rewrite Hrd. cbn [bind].
    change (data_of (b :: post)) with (bdata b ++ data_of post) in *. change (used_of (b :: post)) with (busy b + used_of post) in *.
    rewrite zlen_app in *. rewrite zlen_snoc in IH. pose proof (used_bound post) as Hub.
    destruct b as [[d ns]|]; cbn [bhead data next bdata busy] in *; [|cbn [Z.eqb bind]; change (zlen (@nil Z)) with 0 in *; rewrite IH by lia; do 2 f_equal; lia].
    apply Forall_cons in Hnz as [Hd _]. rewrite (proj2 (Z.eqb_neq d 0) Hd). simpl length in Hf. rewrite length_fmap in Hf.
    rewrite (overflow_length_ok h _ ns (shape_owns _ _ _ _ _ (inv_shape _ _ _ _ _ Hinv)) Hsub) by lia. cbn [bind].
    rewrite zlen_cons in *. assert (zlen ns.*2 = zlen ns) as Hns by (unfold zlen; by rewrite length_fmap). rewrite Hns in *.
    pose proof (zlen_nonneg ns). unfold u64. rewrite !Z.mod_small by lia. rewrite IH by lia. do 2 f_equal; lia. }
  unfold zlen at 1. rewrite Nat2Z.id. pose proof (used_bound bs). rewrite H by lia. cbn [bind].
  by rewrite (inv_used _ _ _ _ _ Hinv), (inv_entries _ _ _ _ _ Hinv), !Z.add_0_l, !Z.eqb_refl.
Qed.

(** ** Iteration with hash_get_first and hash_get_next *)

Lemma first_used_ok t h bs fl F pre post :
  table_inv t h bs fl F -> bs = pre ++ post -> first_used t (zlen pre) = Ok (head (data_of post)).
Proof.
  intros Hinv E. pose proof (shape_size _ _ _ _ _ (inv_shape _ _ _ _ _ Hinv)) as Hsz. unfold first_used.
  assert (length post < S (Z.to_nat (n_buckets t)))%nat as Hf.
  { rewrite Hsz, E. unfold zlen. rewrite length_app. lia. }
  revert Hf. generalize (S (Z.to_nat (n_buckets t))). intros fuel. revert pre E fuel.
  induction post as [|b post IH]; intros pre E [|fuel] Hf; simpl in Hf; try lia; cbn [loop]; unfold first_turn at 1; rewrite Hsz, E.
  - rewrite app_nil_r, Z.ltb_irrefl. done.
  - rewrite (proj2 (Z.ltb_lt _ _)) by (rewrite zlen_app, zlen_cons; pose proof (zlen_nonneg post); lia). cbn [negb].
    rewrite (shape_read t h pre b post fl F) by (rewrite <- E; apply Hinv). cbn [bind].
    destruct b as [[d ns]|]; cbn [bhead data].
    + destruct (inv_placed _ _ _ _ _ Hinv (zlen pre) d) as [Hd _].
      { rewrite E, zlen_app, zlen_cons. pose proof (zlen_nonneg pre). pose proof (zlen_nonneg post). lia. }
      { rewrite E, aget_middle. by left. }
      by rewrite (proj2 (Z.eqb_neq d 0) Hd).
    + cbn [Z.eqb negb]. cbn [bind]. rewrite <- (zlen_snoc (None : bnode) pre). apply IH; [|lia]. by rewrite E, <- app_assoc.
Qed.

Lemma get_first_ok t h bs fl F :
  table_inv t h bs fl F -> hash_get_first t = Ok (default 0 (head (data_of bs))).
Proof.
  intros Hinv. unfold hash_get_first. rewrite (inv_entries _ _ _ _ _ Hinv).
  assert (first_used t 0 = Ok (head (data_of bs))) as -> by apply (first_used_ok t h bs fl F [] bs Hinv eq_refl).
  destruct (data_of bs) as [|x xs]; [done|]. rewrite zlen_cons, (proj2 (Z.eqb_neq _ 0)) by (pose proof (zlen_nonneg xs); lia). done.
Qed.

Lemma next_chain h L us x : owns h L -> forall ns d vs fuel, seg ns None ⊆ L -> (length ns < fuel)%nat ->
  x ∉ us -> d :: ns.*2 = us ++ x :: vs -> loop fuel (next_turn x h) (Entry d (head_ptr ns None)) = Ok (head vs).
Proof.
  intros Ho. induction us as [|u us IH]; intros ns d vs [|fuel] Hsub Hf Hx [= Hd Hns]; try lia; cbn [loop]; unfold next_turn at 1;
    cbn [next data].
  - subst d. destruct ns as [|[l d'] ns]; cbn [head_ptr is_null]; [by rewrite <- Hns|].
    rewrite (owns_load h L l (Entry d' (head_ptr ns None)) Ho) by (apply Hsub; by left). cbn [bind data].
    rewrite Z.eqb_refl. cbn in Hns. by rewrite <- Hns.
  - subst u. apply not_elem_of_cons in Hx as [Hxd Hx]. destruct ns as [|[l d'] ns]; [by destruct us|]. cbn [head_ptr is_null].
    rewrite (owns_load h L l (Entry d' (head_ptr ns None)) Ho) by (apply Hsub; by left). cbn [bind data].
    rewrite (proj2 (Z.eqb_neq d x)) by congruence. simpl in Hf. apply IH; [|lia|done|done]. intros c Hc. apply Hsub. by right.
Qed.

(** hash_get_next returns the entry that follows in the order of the walk. *)
Lemma get_next_ok t h bs fl F xs x ys :
  table_inv t h bs fl F -> data_of bs = xs ++ x :: ys -> hash_get_next hasher t x h = Ok (default 0 (head ys)).
Proof.
  intros Hinv E. unfold hash_get_next. pose proof (proj1 (inv_distinct _ _ _ _ _ Hinv)) as Hnd.
  assert (x ∈ data_of bs) as (i & Hi & Hxi)%elem_data by (rewrite E; apply elem_of_app; right; by left).
  destruct (inv_placed _ _ _ _ _ Hinv i x Hi Hxi) as [_ Hsi].
  destruct (inv_bucket _ _ _ _ _ x Hinv) as (pre & b & post & Ebs & Hs & Hso & _ & _ & Hf).
  assert (bs.[i] = b) as Eb by (rewrite <- Hsi, Hs, Ebs; apply aget_middle). rewrite Eb in Hxi.
  pose proof (bucket_cells _ _ _ _ _ _ Hinv Hi) as [Hsub _]. rewrite Eb in Hsub.
  rewrite Hso. cbn [bind]. rewrite (shape_read t h pre b post fl F) by (rewrite <- Ebs; apply Hinv). cbn [bind].
  apply list_elem_of_split in Hxi as (us & vs & Exi). destruct b as [[d ns]|]; [|by destruct us].
  assert (data_of bs = (data_of pre ++ us) ++ x :: (vs ++ data_of post)) as E2.
  { unfold data_of at 1. rewrite Ebs, bind_split, Exi. rewrite <- !app_assoc. done. }
  rewrite E2 in E, Hnd. assert (ys = vs ++ data_of post) as ->.
  { pose proof (NoDup_split_eq _ _ _ _ _ Hnd E) as [_ ?]. done. }
  apply NoDup_app in Hnd as (_ & Hnd & _).
  rewrite (next_chain h _ us x (shape_owns _ _ _ _ _ (inv_shape _ _ _ _ _ Hinv)) ns d vs); try done.
  - cbn [bind]. destruct vs as [|v vs]; [|done]. cbn [head].
    rewrite <- (zlen_snoc (Some (d, ns) : bnode) pre). rewrite (first_used_ok t h bs fl F _ post Hinv) by by rewrite Ebs, <- app_assoc.
    cbn [bind app]. by destruct (data_of post).
  - simpl in Hf. rewrite length_fmap in Hf. lia.
  - intros Hu. apply (Hnd x); [apply elem_of_app; by right|by left].
Qed.

(** ** Clearing and freeing *)

Lemma free_chain_ok h ns R :
  owns h (seg ns None ++ R) -> exists h', free_chain (head_ptr ns None) h = Ok h' /\ owns h' R.
Proof.
  intros Ho. unfold free_chain. assert (length ns < chain_fuel h)%nat as Hf.
  { unfold chain_fuel. rewrite (owns_size h _ Ho), length_app, length_seg. lia. }
  revert Hf. generalize (chain_fuel h). intros fuel. revert h Ho fuel.
  induction ns as [|[l d] ns IH]; intros h Ho [|fuel] Hf; simpl in Hf; try lia; rewrite while_step;
    cbn [bind head_ptr is_null negb]; [by exists h|].
  cbn [seg app] in Ho. rewrite (owns_load _ _ _ _ Ho) by (by left). cbn [bind].
  destruct (owns_free _ _ _ _ Ho) as (h1 & -> & Ho1 & _). cbn [bind next]. apply (IH h1 Ho1). lia.
Qed.

Lemma free_buckets_ok t post : forall pre h R,
  bucket t = map bhead (pre ++ post) -> owns h (cells_of post ++ R) ->
  exists h', for_n (length post) (zlen pre) (free_bucket t) h = Ok h' /\ owns h' R.
Proof.
  induction post as [|b post IH]; intros pre h R Hb Ho; cbn [length for_n]; [by exists h|].
  unfold free_bucket at 1. rewrite Hb, map_app. cbn [map]. rewrite rd_middle by apply zlen_map. cbn [bind].
  change (cells_of (b :: post)) with (bcells b ++ cells_of post) in Ho. rewrite <- app_assoc in Ho.
  assert (exists h', free_chain (next (bhead b)) h = Ok h' /\ owns h' (cells_of post ++ R)) as (h' & -> & Ho').
  { destruct b as [[d ns]|]; [by apply free_chain_ok|]. by apply (free_chain_ok h []). }
  cbn [bind]. rewrite <- (zlen_snoc b pre). apply IH; [|done]. by rewrite <- app_assoc.
Qed.

(** The blocks of the struct and of the array. *)
Definition own_blocks t (L : list (loc * hash_entry)) : Prop :=
  exists ls lb, self_block t = Some ls /\ bucket_block t = Some lb /\ L = [(lb, Entry 0 None); (ls, Entry 0 None)].

(** hash_free gives back every block of the table and hands each entry to the
    data freer once. *)
Lemma free_ok t h bs fl L F freer :
  table_inv t h bs fl (L ++ F) -> own_blocks t L ->
  exists h', hash_free freer t h = Ok (h', if freer then data_of bs else []) /\ owns h' F.
Proof.
  intros Hinv (ls & lb & Els & Elb & EL). pose proof (inv_shape _ _ _ _ _ Hinv) as Hsh. unfold hash_free.
  assert ((if freer && negb (n_entries t =? 0) then walk t h (fun d log => Ok (inl (log ++ [d]))) [] else Ok []) =
    Ok (if freer then data_of bs else [])) as ->.
  { destruct freer; [|done]. rewrite (inv_entries _ _ _ _ _ Hinv), (walk_ok _ _ _ _ _ _ _ Hinv). cbn [andb].
    generalize (data_of bs). intros [|x xs]; [done|]. rewrite zlen_cons, (proj2 (Z.eqb_neq _ 0)) by (pose proof (zlen_nonneg xs); lia).
    cbn [negb]. assert (forall xs log, visit_all (fun d log => Ok (inl (log ++ [d]))) xs log = Ok (inl (log ++ xs))) as ->; [|done].
    clear. induction xs as [|x xs IH]; intros log; cbn [visit_all bind]; [by rewrite app_nil_r|]. by rewrite IH, <- app_assoc. }
  cbn [bind]. unfold for_up. rewrite (shape_size _ _ _ _ _ Hsh), Z.sub_0_r. unfold zlen. rewrite Nat2Z.id.
  destruct (free_buckets_ok t bs [] h (seg (fnodes fl) None ++ L ++ F)) as (h1 & E1 & Ho1); [apply Hsh..|].
  change (zlen []) with 0 in E1. rewrite E1. cbn [bind]. rewrite (shape_free _ _ _ _ _ Hsh).
  destruct (free_chain_ok h1 (fnodes fl) (L ++ F) Ho1) as (h2 & -> & Ho2). cbn [bind]. subst L. cbn [app] in Ho2.
  rewrite Elb. destruct (owns_free _ _ _ _ Ho2) as (h3 & -> & Ho3 & _). cbn [bind].
  rewrite Els. destruct (owns_free _ _ _ _ Ho3) as (h4 & -> & Ho4 & _). by exists h4.
Qed.

(** The overflow of a bucket goes to the free list. *)
Lemma clear_chain_ok freer ns : forall t h log fl R fuel, (length ns < fuel)%nat ->
  free_entry_list t = head_ptr (fnodes fl) None -> owns h (seg ns None ++ seg (fnodes fl) None ++ R) ->
  exists fl' h', while fuel (fun '(cursor, _, _, _) => Ok (negb (is_null cursor))) (clear_turn freer)
      (head_ptr ns None, t, h, log) =
    Ok (None, set_free (head_ptr (fnodes fl') None) t, h', log ++ if freer then ns.*2 else []) /\
    owns h' (seg (fnodes fl') None ++ R).
Proof.
  induction ns as [|[l d] ns IH]; intros t h log fl R [|fuel] Hf Hfr Ho; simpl in Hf; try lia; rewrite while_step;
    cbn [bind head_ptr is_null negb].
  - exists fl, h. split; [|done]. rewrite <- Hfr. assert (set_free (free_entry_list t) t = t) as -> by by destruct t.
    by destruct freer; rewrite app_nil_r.
  - unfold clear_turn at 1. cbn [seg app] in Ho. rewrite (owns_load _ _ _ _ Ho) by (by left). cbn [bind data next].
    destruct (owns_store _ _ _ _ (Entry 0 (free_entry_list t)) Ho) as (h1 & -> & Ho1 & _). cbn [bind].
    destruct (IH (set_free (Some l) t) h1 (freer_call freer d log) (l :: fl) R fuel) as (fl' & h' & E & Ho'); [lia|done| |].
    { change (fnodes (l :: fl)) with ((l, 0) :: fnodes fl). cbn [seg app]. rewrite <- Hfr, <- Permutation_middle. done. }
    exists fl', h'. rewrite E. split; [|done]. destruct freer; cbn [freer_call]; rewrite <- ?app_assoc; done.
Qed.

Lemma clear_bucket_ok freer t h log pre b post fl F :
  shape t h (pre ++ b :: post) fl F -> Forall (fun d => d <> 0) (bdata b) ->
  exists t' h' log' fl', clear_bucket freer (zlen pre) (t, h, log) = Ok (t', h', log') /\
    shape t' h' (pre ++ None :: post) fl' F /\ same_size t t' /\
    log' ≡ₚ log ++ if freer then bdata b else [].
Proof.
  intros Hsh Hnz. unfold clear_bucket. rewrite (shape_read _ _ _ _ _ _ _ Hsh). cbn [bind].
  pose proof (shape_cells _ _ _ _ _ _ _ Hsh) as Ho. destruct b as [[d ns]|]; cbn [bhead data next bcells bdata] in *.
  2:{ exists t, h, log, fl. split_and!; try done. by destruct freer; rewrite app_nil_r. }
  apply Forall_cons in Hnz as [Hd _]. rewrite (proj2 (Z.eqb_neq d 0) Hd).
  destruct (clear_chain_ok freer ns t h log fl (cells_of pre ++ cells_of post ++ F) (chain_fuel h)) as (fl' & h' & E & Ho').
  - unfold chain_fuel. rewrite (owns_size h _ Ho), length_app, length_seg. lia.
  - apply Hsh.
  - eapply owns_proper; [|exact Ho]. apply Permutation_app_head. unfold rest.
    rewrite (Permutation_app_swap_app (cells_of post)). apply Permutation_app_swap_app.
  - rewrite E. cbn [bind set_free bucket]. rewrite (shape_write _ _ _ _ None _ _ _ _ Hsh) by done. cbn [bind].
    eexists _, _, _, fl'. split; [done|]. split; [|split; [done|]].
    + apply (shape_replace _ _ _ _ _ _ _ _ _ _ _ Hsh); try done. cbn [bcells app]. eapply owns_proper; [|exact Ho'].
      unfold rest. rewrite (Permutation_app_swap_app (cells_of post)). apply Permutation_app_swap_app.
    + destruct freer; cbn [freer_call]; [|by rewrite app_nil_r]. rewrite <- app_assoc. apply Permutation_app_head.
      by rewrite <- Permutation_cons_append.
Qed.

Lemma clear_buckets_ok freer post : forall pre t h log fl F,
  shape t h (pre ++ post) fl F -> Forall (fun d => d <> 0) (data_of post) ->
  exists t' h' log' fl', for_n (length post) (zlen pre) (clear_bucket freer) (t, h, log) = Ok (t', h', log') /\
    shape t' h' (pre ++ replicate (length post) None) fl' F /\ same_size t t' /\
    log' ≡ₚ log ++ if freer then data_of post else [].
Proof.
  induction post as [|b post IH]; intros pre t h log fl F Hsh Hnz; cbn [length for_n].
  { exists t, h, log, fl. split_and!; try done. by destruct freer; rewrite app_nil_r. }
  change (data_of (b :: post)) with (bdata b ++ data_of post) in *. apply Forall_app in Hnz as [Hnb Hnz].
  destruct (clear_bucket_ok freer t h log pre b post fl F Hsh Hnb) as (t1 & h1 & log1 & fl1 & -> & Hsh1 & [Hs1 Hs1'] & Hl1).
  cbn [bind]. rewrite <- (zlen_snoc (None : bnode) pre).
  destruct (IH (pre ++ [None : bnode]) t1 h1 log1 fl1 F) as (t2 & h2 & log2 & fl2 & -> & Hsh2 & [Hs2 Hs2'] & Hl2);
    [by rewrite <- app_assoc|done|].
  exists t2, h2, log2, fl2. split_and!; [done| |split; destruct_and?; split_and?; congruence|].
  - by rewrite <- app_assoc in Hsh2.
  - rewrite Hl2, Hl1. destruct freer; rewrite <- app_assoc; done.
Qed.

Lemma empty_inv t h n fl F :
  (0 < n)%nat -> shape t h (replicate n None) fl F -> n_buckets_used t = 0 -> n_entries t = 0 ->
  table_inv t h (replicate n None) fl F /\ data_of (replicate n None) = [].
Proof.
  intros Hn Hsh Hu He.
  assert (data_of (replicate n None) = []) as Hd by (clear; induction n; done).
  assert (used_of (replicate n None) = 0) as Hu0 by (clear; induction n; done).
  split; [|done]. split; rewrite ?Hd, ?Hu0; try done.
  - unfold zlen. rewrite length_replicate. lia.
  - intros i d Hi Hin. assert (d ∈ data_of (replicate n None)) as H by (apply elem_data; eauto).
    rewrite Hd in H. by apply elem_of_nil in H.
  - split; [constructor|]. intros a b Ha. by apply elem_of_nil in Ha.
Qed.

(** hash_clear empties the table, keeps its blocks for later, and hands each
    entry to the data freer once. *)
Lemma clear_ok t h F xs freer :
  holds t h F xs ->
  exists t' h' log, hash_clear freer t h = Ok (t', h', log) /\ holds t' h' F [] /\ same_size t t' /\
    log ≡ₚ if freer then xs else [].
Proof.
  intros (bs & fl & Hinv & Hp). pose proof (inv_shape _ _ _ _ _ Hinv) as Hsh. unfold hash_clear, for_up.
  rewrite (shape_size _ _ _ _ _ Hsh), Z.sub_0_r. unfold zlen. rewrite Nat2Z.id.
  destruct (clear_buckets_ok freer bs [] t h [] fl F Hsh) as (t' & h' & log & fl' & E & Hsh' & Hss & Hl).
  { apply placed_nonzero, Hinv. }
  change (zlen []) with 0 in E. rewrite E. cbn [bind]. eexists _, h', log. split; [done|]. split; [|split; [done|]].
  - pose proof (inv_pos _ _ _ _ _ Hinv) as Hpos. eexists _, fl'.
    destruct (empty_inv (set_entries 0 (set_used 0 t')) h' (length bs) fl' F) as [H1 H2]; [unfold zlen in Hpos; lia| |done|done|].
    + cbn [app] in Hsh'. destruct Hsh'. by split.
    + split; [done|]. by rewrite H2.
  - rewrite Hl. by destruct freer; [rewrite <- Hp|].
Qed.

(** ** Creation *)

Lemma initialize_holds candidate tn h F t h' :
  0 <= candidate -> owns h F ->
  hash_initialize malloc_ok prime_fuel candidate tn h = Ok (Some t, h') ->
  exists L, own_blocks t L /\ holds t h' (L ++ F) [].
Proof.
  intros Hc Ho E. unfold hash_initialize, request in E. destruct (malloc_ok (calls h)) eqn:Em; [|by unfold malloc in E; rewrite Em in E].
  destruct (owns_malloc malloc_ok h F (Entry 0 None) Ho Em) as (ls & h1 & E1 & Ho1). rewrite E1 in E. cbn [is_null] in E.
  destruct (check_tuning _) as [[] ?]; [|by apply bind_Ok_inv in E as (? & _ & [=])]. cbn [negb] in E. apply bind_Ok_inv in E as (n & En & E).
  pose proof (compute_bucket_size_nonneg _ _ _ _ Hc En) as Hn. destruct (Z.eqb_spec n 0) as [|Hn0]; [by apply bind_Ok_inv in E as (? & _ & [=])|].
  destruct (malloc_ok (calls h1)) eqn:Em1; [|unfold malloc in E; rewrite Em1 in E; by apply bind_Ok_inv in E as (? & _ & [=])].
  destruct (owns_malloc malloc_ok h1 _ (Entry 0 None) Ho1 Em1) as (lb & h2 & E2 & Ho2). rewrite E2 in E. cbn [is_null] in E. injection E as <- <-.
  exists [(lb, Entry 0 None); (ls, Entry 0 None)]. split; [by exists ls, lb|].
  destruct (empty_inv (Table (replicate (Z.to_nat n) (Entry 0 None)) n 0 0
    match tn with Some tn => UserTuning tn | None => DefaultTuning end None (Some ls) (Some lb)) h2 (Z.to_nat n) [] ([(lb, Entry 0 None); (ls, Entry 0 None)] ++ F))
    as [H1 H2]; [lia| |done|done|].
  - split; [symmetry; apply (fmap_replicate bhead (Z.to_nat n) None)| |done|].
    + unfold zlen. rewrite length_replicate. cbn. lia.
    + assert (cells_of (replicate (Z.to_nat n) None) = []) as -> by (generalize (Z.to_nat n); clear; induction n; done). exact Ho2.
  - eexists _, []. split; [done|]. by rewrite H2.
Qed.

(** ** Sessions *)

Inductive op := Insert (e : Z) | Delete (e : Z) | Lookup (e : Z) | Clear.

Definition run_op (o : op) t h : res (Z * Hash_table * heap hash_entry) :=
  match o with
  | Insert e => hash_insert malloc_ok prime_fuel hasher comparator t e h
  | Delete e => hash_delete malloc_ok prime_fuel hasher comparator t e h
  | Lookup e => let* d := hash_lookup hasher comparator t e h in Ok (d, t, h)
  | Clear => let* (t, h, _) := hash_clear false t h in Ok (0, t, h)
  end.

Fixpoint run_ops (os : list op) t h : res (list Z * Hash_table * heap hash_entry) :=
  match os with
  | [] => Ok ([], t, h)
  | o :: os =>
      let* (r, t, h) := run_op o t h in
      let* (rs, t, h) := run_ops os t h in
      Ok (r :: rs, t, h)
  end.

(** The same calls on a set of entries: an insertion may be refused when an
    allocation can fail. *)
Inductive set_step (xs : list Z) : op -> Z -> list Z -> Prop :=
| set_present e : found e xs <> 0 -> set_step xs (Insert e) (found e xs) xs
| set_new e : found e xs = 0 -> set_step xs (Insert e) e (e :: xs)
| set_refused e n : found e xs = 0 -> malloc_ok n = false -> set_step xs (Insert e) 0 xs
| set_delete e : set_step xs (Delete e) (found e xs) (without e xs)
| set_lookup e : set_step xs (Lookup e) (found e xs) xs
| set_clear : set_step xs Clear 0 [].

Inductive set_run : list Z -> list op -> list Z -> list Z -> Prop :=
| set_done xs : set_run xs [] [] xs
| set_next xs o r ys os rs zs : set_step xs o r ys -> set_run ys os rs zs -> set_run xs (o :: os) (r :: rs) zs.

(** Only entries other than NULL are inserted and deleted. *)
Definition op_ok (o : op) : Prop := match o with Insert e | Delete e => e <> 0 | _ => True end.

Fixpoint inserts (os : list op) : Z :=
  match os with [] => 0 | Insert _ :: os => 1 + inserts os | _ :: os => inserts os end.

Lemma inserts_cons o os : inserts (o :: os) = inserts [o] + inserts os.
Proof. by destruct o. Qed.

Lemma inserts_nonneg os : 0 <= inserts os.
Proof. induction os as [|[] os IH]; simpl; lia. Qed.

Lemma zlen_without e xs : zlen (without e xs) <= zlen xs.
Proof. unfold zlen, without. pose proof (length_filter (fun x => same e x = false) xs). lia. Qed.

Lemma run_op_refines o t h F xs cap :
  holds t h F xs -> op_ok o -> steady t cap -> zlen xs + inserts [o] <= cap < 2 ^ 64 ->
  exists r t' h' ys, run_op o t h = Ok (r, t', h') /\ set_step xs o r ys /\ holds t' h' F ys /\ same_size t t' /\
    zlen ys <= zlen xs + inserts [o].
Proof.
  intros Hx Ho Hs Hc. pose proof (zlen_nonneg xs). destruct o as [e|e|e|]; cbn [run_op op_ok] in *.
  - change (inserts [Insert e]) with 1 in *.
    destruct (insert_holds t h F xs e Hx Ho) as (r & t' & h' & -> & Hss & Hr); [apply (steady_growth t h F xs cap); done || lia|lia|].
    exists r, t', h'. destruct (Z.eqb_spec (found e xs) 0) as [E|E]; cbn [negb] in Hr.
    + destruct Hr as [[-> Hr]|(-> & Hr & Hm)]; [exists (e :: xs)|exists xs]; split_and!; try done; [by constructor| |by econstructor|lia].
      rewrite zlen_cons. lia.
    + destruct Hr as [-> Hr]. exists xs. split_and!; try done; [by constructor|lia].
  - change (inserts [Delete e]) with 0 in *.
    destruct (delete_holds t h F xs cap e Hx Ho Hs) as (t' & h' & -> & Hss & Hr); [lia|].
    eexists _, t', h', _. split_and!; try done; [by constructor|]. pose proof (zlen_without e xs). lia.
  - rewrite (lookup_holds t h F xs e Hx). cbn [bind]. eexists _, t, h, xs. split_and!; try done; [by constructor|].
    change (inserts [Lookup e]) with 0. lia.
  - destruct (clear_ok t h F xs false Hx) as (t' & h' & log & -> & Hr & Hss & _). cbn [bind].
    eexists _, t', h', []. split_and!; try done; [constructor|]. change (zlen (@nil Z)) with 0. change (inserts [Clear]) with 0. lia.
Qed.

Lemma run_ops_refines os : forall t h F xs cap,
  holds t h F xs -> Forall op_ok os -> steady t cap -> zlen xs + inserts os <= cap < 2 ^ 64 ->
  exists rs t' h' ys, run_ops os t h = Ok (rs, t', h') /\ set_run xs os rs ys /\ holds t' h' F ys /\ same_size t t' /\ zlen ys <= cap.
Proof.
  induction os as [|o os IH]; intros t h F xs cap Hx Hos Hs Hc; cbn [run_ops].
  { eexists _, t, h, xs. split_and!; try done; [constructor|]. change (inserts []) with 0 in Hc. lia. }
  apply Forall_cons in Hos as [Ho Hos]. rewrite inserts_cons in Hc. pose proof (inserts_nonneg os).
  destruct (run_op_refines o t h F xs cap Hx Ho Hs) as (r & t1 & h1 & ys & -> & Hst & Hy & Hss & Hl); [lia|].
  cbn [bind]. destruct (IH t1 h1 F ys cap Hy Hos) as (rs & t2 & h2 & zs & -> & Hr & Hz & Hss2 & Hlz); [by eapply steady_same|lia|].
  eexists _, t2, h2, zs. split; [done|]. split; [by econstructor|]. split; [done|]. split; [|done].
  destruct Hss as ([? ?] & ? & ?), Hss2 as ([? ?] & ? & ?). repeat split; congruence.
Qed.

(** C4. A table made by hash_initialize and used with any hasher and comparator
    that agree (and do not fault) behaves as a set: every hash_insert,
    hash_delete, hash_lookup and hash_clear of a session returns what the set
    returns, an insertion fails only where an allocation does, and at the end
    the counts are right, hash_table_ok holds and every entry is in the set.
    This is as long as no resizing happens: no more insertions than [cap]. *)
Theorem gnu_hash_refines_set candidate tn h0 F t h os cap :
  0 <= candidate -> owns h0 F -> hash_initialize malloc_ok prime_fuel candidate tn h0 = Ok (Some t, h) ->
  steady t cap -> Forall op_ok os -> inserts os <= cap < 2 ^ 64 ->
  exists rs t' h' xs, run_ops os t h = Ok (rs, t', h') /\ set_run [] os rs xs /\
    hash_get_n_entries t' = zlen xs /\ hash_table_ok t' h' = Ok true /\
    forall e, hash_lookup hasher comparator t' e h' = Ok (found e xs).
Proof.
  intros Hc Ho E Hs Hos Hi. destruct (initialize_holds _ _ _ _ _ _ Hc Ho E) as (L & HL & Hx).
  destruct (run_ops_refines os t h (L ++ F) [] cap Hx Hos Hs) as (rs & t' & h' & xs & Er & Hr & Hy & Hss & Hl); [done|].
  exists rs, t', h', xs. split; [done|]. split; [done|]. pose proof Hy as (bs & fl & Hinv & Hp). split_and!.
  - unfold hash_get_n_entries. by rewrite (inv_entries _ _ _ _ _ Hinv), Hp.
  - apply (table_ok_ok _ _ _ _ _ Hinv). rewrite Hp. lia.
  - intros e. by apply (lookup_holds _ _ (L ++ F)).
Qed.

(** C15. After such a session the entries can be walked in three ways that
    agree: hash_get_entries into a buffer, hash_do_for_each, and hash_get_first
    with hash_get_next; each gives every entry of the set once.  hash_free then
    gives back every block the table took, the struct and the array of
    buckets too, so that the heap is as before hash_initialize, and hands every entry to the data
    freer once. *)
Theorem gnu_hash_walks_and_frees candidate tn h0 F t h os cap :
  0 <= candidate -> owns h0 F -> hash_initialize malloc_ok prime_fuel candidate tn h0 = Ok (Some t, h) ->
  steady t cap -> Forall op_ok os -> inserts os <= cap < 2 ^ 64 ->
  exists rs t' h' xs ys, run_ops os t h = Ok (rs, t', h') /\ set_run [] os rs xs /\ ys ≡ₚ xs /\
    (forall n, 0 <= n -> exists others,
       hash_get_entries t' (replicate (Z.to_nat n) 0) n h' = Ok (Z.min n (zlen ys), take (Z.to_nat n) ys ++ others)) /\
    (forall processor, hash_do_for_each t' processor h' = Ok (processed processor ys)) /\
    hash_get_first t' = Ok (default 0 (head ys)) /\
    (forall us x vs, ys = us ++ x :: vs -> hash_get_next hasher t' x h' = Ok (default 0 (head vs))) /\
    (forall freer, exists h2, hash_free freer t' h' = Ok (h2, if freer then ys else []) /\ owns h2 F).
Proof.
  intros Hc Ho E Hs Hos Hi. destruct (initialize_holds _ _ _ _ _ _ Hc Ho E) as (L & HL & Hx).
  destruct (run_ops_refines os t h (L ++ F) [] cap Hx Hos Hs) as (rs & t' & h' & xs & Er & Hr & Hy & Hss & Hl); [done|].
  destruct Hy as (bs & fl & Hinv & Hp). exists rs, t', h', xs, (data_of bs). split_and!; [done|done|done|..].
  - intros n Hn. destruct (get_entries_ok _ _ _ _ _ (replicate (Z.to_nat n) 0) n Hinv) as (others & E1 & _); [|by exists others].
    rewrite zlen_replicate by done. lia.
  - intros processor. apply (do_for_each_ok _ _ _ _ _ _ Hinv).
  - apply (get_first_ok _ _ _ _ _ Hinv).
  - intros us x vs Hus. by apply (get_next_ok _ _ _ _ _ _ _ _ Hinv Hus).
  - intros freer. apply (free_ok _ _ _ _ _ _ _ Hinv). destruct HL as (ls & lb & E1 & E2 & ->), Hss as (_ & E3 & E4). exists ls, lb. by rewrite E3, E4.
Qed.
End set.

(** ** A table with the default functions *)

Definition all_ok (n : nat) : bool := true.

(** The table of hash_initialize (8, NULL, ...): 11 buckets. *)
Definition table_11 : Hash_table := Table (replicate 11 (Entry 0 None)) 11 0 0 DefaultTuning None (Some 2%positive) (Some 3%positive).
Definition heap_11 : heap hash_entry := Heap {[2%positive := Entry 0 None; 3%positive := Entry 0 None]} 2.

Lemma made_11 : hash_initialize all_ok 4 8 None (Heap ∅ 0) = Ok (Some table_11, heap_11).
Proof. vm_compute. reflexivity. Qed.

Lemma steady_11 : steady table_11 8.
Proof.
  intros u Hu. assert (u = 0 \/ u = 1 \/ u = 2 \/ u = 3 \/ u = 4 \/ u = 5 \/ u = 6 \/ u = 7 \/ u = 8) as H by lia.
  destruct_or! H; subst u; by vm_compute.
Qed.

(** Two entries of one bucket, of which the first is deleted. *)
Definition session_11 : list op := [Insert 8; Insert 96; Insert 8; Delete 8; Lookup 96; Lookup 8].

Lemma gnu_hash_refines_set_witness :
  exists rs t' h' xs, run_ops all_ok 4 raw_hasher raw_comparator session_11 table_11 heap_11 = Ok (rs, t', h') /\
    set_run all_ok Z.eqb [] session_11 rs xs /\ hash_get_n_entries t' = zlen xs /\ hash_table_ok t' h' = Ok true /\
    forall e, hash_lookup raw_hasher raw_comparator t' e h' = Ok (found Z.eqb e xs).
Proof.
  apply (gnu_hash_refines_set all_ok 4 raw_hasher raw_comparator raw_slot Z.eqb 8 None (Heap ∅ 0) [] table_11 heap_11
    session_11 8); [done|by split; [constructor|]|exact made_11|apply steady_11|by repeat constructor|by vm_compute].
Defined.

Lemma gnu_hash_walks_and_frees_witness :
  exists rs t' h' xs ys, run_ops all_ok 4 raw_hasher raw_comparator session_11 table_11 heap_11 = Ok (rs, t', h') /\
    set_run all_ok Z.eqb [] session_11 rs xs /\ ys ≡ₚ xs /\
    (forall n, 0 <= n -> exists others,
       hash_get_entries t' (replicate (Z.to_nat n) 0) n h' = Ok (Z.min n (zlen ys), take (Z.to_nat n) ys ++ others)) /\
    (forall processor, hash_do_for_each t' processor h' = Ok (processed processor ys)) /\
    hash_get_first t' = Ok (default 0 (head ys)) /\
    (forall us x vs, ys = us ++ x :: vs -> hash_get_next raw_hasher t' x h' = Ok (default 0 (head vs))) /\
    (forall freer, exists h2, hash_free freer t' h' = Ok (h2, if freer then ys else []) /\ owns h2 []).
Proof.
  apply (gnu_hash_walks_and_frees all_ok 4 raw_hasher raw_comparator raw_slot Z.eqb 8 None (Heap ∅ 0) [] table_11 heap_11
    session_11 8); [done|by split; [constructor|]|exact made_11|apply steady_11|by repeat constructor|by vm_compute].
Defined.

(** ** Resizing

    The table the examples below start from is the one above. *)

Definition insert_all (ks : list Z) : list op := map (fun k => Insert (8 * k)) ks.

Definition run_raw (os : list op) : res (list Z * Hash_table * heap hash_entry) :=
  run_ops all_ok 40 raw_hasher raw_comparator os table_11 heap_11.

(** transfer_entries moves the heads of empty buckets too (the test of
    bucket->data is missing), so the counts are wrong after the first
    growth. *)
Lemma growth_corrupts :
  (let* (_, t, h) := run_raw (insert_all [1; 2; 3; 4; 5; 6; 7; 8; 9; 10]) in
   let* ok := hash_table_ok t h in Ok (ok, hash_get_n_buckets_used t, hash_get_n_entries t)) = Ok (false, 12, 10).
Proof. by vm_compute. Qed.

(** And an entry that was inserted, and never deleted, is lost. *)
Lemma growth_loses_entry :
  (let* (rs, _, _) := run_raw (insert_all [11; 34; 2; 3; 4; 5; 17; 7; 8; 9] ++ [Delete (8 * 34); Lookup (8 * 17)]) in
   Ok (drop 9 rs)) = Ok [8 * 9; 8 * 34; 0].
Proof. by vm_compute. Qed.

(** hash_find_entry compares the entry with the NULL data of an empty bucket
    (bucket_head is tested, not bucket->data): a comparator that reads through
    its arguments faults at the first insertion. *)
Definition reading_comparator (a b : Z) : res bool :=
  if (a =? 0) || (b =? 0) then Fail NullDeref else Ok (a =? b).

Lemma first_insertion_faults :
  hash_insert all_ok 40 raw_hasher reading_comparator table_11 8 heap_11 = Fail NullDeref.
Proof. by vm_compute. Qed.
