(* ===== verification/FileNames.v ===== *)
(** * File names: basename, dirname and concatenation

    basename-lgpl.c, lib-basename.c, dirname-lgpl.c, stripslash.h and
    filenamecat-lgpl.c of utils/coreutils/lib, with the commands src/basename.c
    and src/dirname.c that use them, as configured on a system without drive
    letters: FILE_SYSTEM_PREFIX_LEN and DOUBLE_SLASH_IS_DISTINCT_ROOT are 0.
    Names are C strings, pointers into them are indices. *)

From S2P Require Import Prelude Arrays CStrings.
Open Scope Z_scope.

Definition DIRECTORY_SEPARATOR : Z := ch "/".
Definition ISSLASH (c : Z) : bool := c =? DIRECTORY_SEPARATOR.

(** [IS_ABSOLUTE_FILE_NAME] of the string at [p]. *)
Definition IS_ABSOLUTE_FILE_NAME (s : list Z) (p : Z) : res bool :=
  let* c := rd s p in Ok (ISSLASH c).

(** Skips slashes. *)
Definition skip_slashes (s : list Z) (p : Z) : res Z :=
  while (S (length s)) (fun p => let* c := rd s p in Ok (ISSLASH c)) (fun p => Ok (p + 1)) p.

Definition component_turn (s : list Z) (st : Z * Z * bool) : res (Z * Z * bool + Z) :=
  let '(p, base, saw_slash) := st in
  let* c := rd s p in
  if c =? 0 then Ok (inr base)
  else if ISSLASH c then Ok (inl (p + 1, base, true))
  else if saw_slash then Ok (inl (p + 1, p, false))
  else Ok (inl (p + 1, base, saw_slash)).

Definition last_component (s : list Z) (name : Z) : res Z :=
  let* base := skip_slashes s name in
  loop (S (length s)) (component_turn s) (base, base, false).

Definition base_len (s : list Z) (name : Z) : res Z :=
  let* len := strlen s name in
  while (S (Z.to_nat len))
    (fun len => if len >? 1 then let* c := rd s (name + len - 1) in Ok (ISSLASH c) else Ok false)
    (fun len => Ok (len - 1)) len.

(** [strndup(s, n)]: at most [n] bytes of the string, and a terminator. *)
Fixpoint strndup (s : list Z) (n : nat) {struct n} : res (list Z) :=
  match n with
  | O => Ok [0]
  | S n =>
      match s with
      | [] => Fail OutOfBounds
      | c :: s => if c =? 0 then Ok [0] else let* r := strndup s n in Ok (c :: r)
      end
  end.

(** [mem] says whether the allocation succeeds; xalloc_die leaves with 1. *)
Definition xstrndup (mem : bool) (s : list Z) (p n : Z) : res (list Z) :=
  let* _ := demand mem (ExitCall 1) in
  strndup (drop (Z.to_nat p) s) (Z.to_nat n).

Definition base_name (mem : bool) (s : list Z) : res (list Z) :=
  let* base := last_component s 0 in
  let* c := rd s base in
  if c =? 0 then
    let* len := base_len s 0 in
    xstrndup mem s 0 len
  else
    let* length := base_len s base in
    let* c := rd s (base + length) in
    let length := if ISSLASH c then length + 1 else length in
    xstrndup mem s base length.

(** Whether a slash was removed, and the string with its terminator moved. *)
Definition strip_trailing_slashes (s : list Z) : res (bool * list Z) :=
  let* base := last_component s 0 in
  let* c := rd s base in
  let base := if c =? 0 then 0 else base in
  let* len := base_len s base in
  let base_lim := base + len in
  let* c := rd s base_lim in
  let* s := wr s base_lim 0 in
  Ok (negb (c =? 0), s).

(** The characters up to the terminator, as [puts] prints them. *)
Fixpoint text (s : list Z) : res (list Z) :=
  match s with
  | [] => Fail OutOfBounds
  | c :: s => if c =? 0 then Ok [] else let* r := text s in Ok (c :: r)
  end.

(** One turn compares the characters before [np] and [sp]. *)
Definition suffix_turn (name suffix : list Z) (st : Z * Z) : res (Z * Z + list Z) :=
  let '(np, sp) := st in
  if (np >? 0) && (sp >? 0) then
    let* a := rd name (np - 1) in
    let* b := rd suffix (sp - 1) in
    if negb (a =? b) then Ok (inr name) else Ok (inl (np - 1, sp - 1))
  else if np >? 0 then
    let* name := wr name np 0 in
    Ok (inr name)
  else Ok (inr name).

Definition remove_suffix (name suffix : list Z) : res (list Z) :=
  let* np := strlen name 0 in
  let* sp := strlen suffix 0 in
  loop (S (Z.to_nat np)) (suffix_turn name suffix) (np, sp).

(** What the command prints (before the newline) for one operand and an
    optional suffix. *)
Definition basename_main (mem : bool) (operand : list Z) (suffix : option (list Z)) : res (list Z) :=
  let* name := base_name mem operand in
  let* (_, name) := strip_trailing_slashes name in
  let* name :=
    match suffix with
    | Some suffix =>
        let* absolute := IS_ABSOLUTE_FILE_NAME name 0 in
        if negb absolute then remove_suffix name suffix else Ok name
    | None => Ok name
    end in
  text name.

Definition dir_len (s : list Z) : res Z :=
  let* c := rd s 0 in
  let prefix_length := if ISSLASH c then 1 else 0 in
  let* length := last_component s 0 in
  while (S (Z.to_nat length))
    (fun length => if prefix_length <? length then let* c := rd s (length - 1) in Ok (ISSLASH c) else Ok false)
    (fun length => Ok (length - 1)) length.

(** [fwrite(result, 1, len, stdout)] *)
Definition dirname_main (operand : list Z) : res (list Z) :=
  let* len := dir_len operand in
  if len =? 0 then Ok [ch "."] else Ok (take (Z.to_nat len) operand).

Definition longest_relative_suffix (s : list Z) : res Z := skip_slashes s 0.

(** [mempcpy(dst + i, src + p, n)] *)
Definition mempcpy (dst : list (option Z)) (i : Z) (src : list Z) (p n : Z) : res (list (option Z)) :=
  for_up 0 n (fun k dst =>
    let* c := rd src (p + k) in
    wr dst (i + k) (Some c)) dst.

(** The block and the offset of *base_in_result; [None] is NULL. *)
Definition mfile_name_concat (mem : bool) (dir abase : list Z) : res (option (list Z * Z)) :=
  let* dirbase := last_component dir 0 in
  let* dirbaselen := base_len dir dirbase in
  let dirlen := dirbase + dirbaselen in
  let* needs_separator :=
    if dirbaselen =? 0 then Ok 0
    else let* c := rd dir (dirbase + dirbaselen - 1) in Ok (if ISSLASH c then 0 else 1) in
  let* base := longest_relative_suffix abase in
  let* baselen := strlen abase base in
  if negb mem then Ok None
  else
    let p_concat := uninit (dirlen + needs_separator + baselen + 1) in
    let* p_concat := mempcpy p_concat 0 dir 0 dirlen in
    let* p_concat := wr p_concat dirlen (Some DIRECTORY_SEPARATOR) in
    let p := dirlen + needs_separator in
    let* absolute := IS_ABSOLUTE_FILE_NAME abase 0 in
    let base_in_result := p - (if absolute then 1 else 0) in
    let* p_concat := mempcpy p_concat p abase base baselen in
    let* p_concat := wr p_concat (p + baselen) (Some 0) in
    let* r := contents p_concat in
    Ok (Some (r, base_in_result)).

Definition file_name_concat (mem : bool) (dir abase : list Z) : res (list Z * Z) :=
  let* r := mfile_name_concat mem dir abase in
  match r with Some r => Ok r | None => Fail (ExitCall 1) end.

(** ** The parts of a name *)

Definition slashes (k : nat) : list Z := replicate k DIRECTORY_SEPARATOR.

Definition no_slash (s : list Z) : Prop := Forall (fun c => ISSLASH c = false) s.

(** Empty, or closed by a slash. *)
Definition dir_part (d : list Z) : Prop := d = [] \/ exists d', d = d' ++ slashes 1.

(** A name with at least one component, the last one being [comp]. *)
Record parts (n dir comp : list Z) (k : nat) : Prop := {
  parts_eq : n = dir ++ comp ++ slashes k;
  parts_dir : dir_part dir;
  parts_comp : no_slash comp;
  parts_some : comp <> []
}.

Lemma slashes_cons k : slashes (S k) = DIRECTORY_SEPARATOR :: slashes k.
Proof. done. Qed.

Lemma length_slashes k : length (slashes k) = k.
Proof. apply length_replicate. Qed.

Lemma zlen_slashes k : zlen (slashes k) = Z.of_nat k.
Proof. unfold zlen, slashes. by rewrite length_replicate. Qed.

Lemma slashes_snoc k : slashes (S k) = slashes k ++ slashes 1.
Proof. unfold slashes. rewrite <- replicate_add. f_equal. lia. Qed.

(** A name consists of slashes, or it has a last component. *)
Lemma parts_exist n : (exists k, n = slashes k) \/ exists dir comp k, parts n dir comp k.
Proof.
  induction n as [|c n [[k ->]|(dir & comp & k & [-> Hd Hc Hs])]] using rev_ind; [left; by exists 0%nat|..].
  - destruct (ISSLASH c) eqn:E.
    + apply Z.eqb_eq in E as ->. left. exists (S k). by rewrite slashes_snoc.
    + right. exists (slashes k), [c], 0%nat. split; [by rewrite app_nil_r| |by repeat constructor|done].
      destruct k as [|k]; [by left|]. right. exists (slashes k). apply slashes_snoc.
  - right. destruct (ISSLASH c) eqn:E.
    + apply Z.eqb_eq in E as ->. exists dir, comp, (S k). split; try done. rewrite slashes_snoc. by rewrite <- !app_assoc.
    + destruct k as [|k].
      * exists dir, (comp ++ [c]), 0%nat. split; try done.
        -- simpl. rewrite !app_nil_r. by rewrite <- app_assoc.
        -- apply Forall_app. split; [done|]. by constructor.
        -- by destruct comp.
      * exists (dir ++ comp ++ slashes (S k)), [c], 0%nat. split; [by rewrite app_nil_r| |by repeat constructor|done].
        right. exists (dir ++ comp ++ slashes k). rewrite slashes_snoc. by rewrite <- !app_assoc.
Qed.

(** ** The scan for the last component *)

Definition scan (st : Z * Z * bool) (c : Z) : Z * Z * bool :=
  let '(p, base, saw) := st in
  if ISSLASH c then (p + 1, base, true) else if saw then (p + 1, p, false) else (p + 1, base, saw).

Lemma scan_loop post : forall pre base saw fuel, nul_free post -> (length post < fuel)%nat ->
  loop fuel (component_turn (cstr (pre ++ post))) (zlen pre, base, saw) =
  Ok (fold_left scan post (zlen pre, base, saw)).1.2.
Proof.
  induction post as [|c post IH]; intros pre base saw [|fuel] Hn Hf; simpl in Hf; try lia; cbn [loop];
    unfold component_turn at 1; rewrite (rd_cstr pre _ _ eq_refl); cbn [bind head_char]; [done|].
  apply Forall_cons in Hn as [Hc Hn]. rewrite (proj2 (Z.eqb_neq c 0) Hc). cbn [fold_left]. unfold scan at 2.
  rewrite <- (zlen_snoc c pre). replace (pre ++ c :: post) with ((pre ++ [c]) ++ post) by by rewrite <- app_assoc.
  destruct (ISSLASH c), saw; cbn [bind]; apply IH; done || lia.
Qed.

Lemma scan_slashes k p base saw : exists saw', fold_left scan (slashes k) (p, base, saw) = (p + Z.of_nat k, base, saw').
Proof.
  revert p saw. induction k as [|k IH]; intros p saw; [exists saw; simpl; by rewrite Z.add_0_r|].
  rewrite slashes_cons. cbn [fold_left scan]. change (ISSLASH DIRECTORY_SEPARATOR) with true. cbn.
  destruct (IH (p + 1) true) as [saw' ->]. exists saw'. do 2 f_equal. lia.
Qed.

Lemma scan_component xs p base : no_slash xs -> fold_left scan xs (p, base, false) = (p + zlen xs, base, false).
Proof.
  intros Hx. revert p. induction Hx as [|x xs Hx _ IH]; intros p; [by rewrite Z.add_0_r|].
  cbn [fold_left scan]. rewrite Hx, IH, zlen_cons. do 2 f_equal. lia.
Qed.

Lemma scan_next xs p base : no_slash xs -> xs <> [] -> fold_left scan xs (p, base, true) = (p + zlen xs, p, false).
Proof.
  intros Hx Hn. destruct Hx as [|x xs Hx Hxs]; [done|]. cbn [fold_left scan]. rewrite Hx, scan_component by done.
  rewrite zlen_cons. do 2 f_equal. lia.
Qed.

Lemma scan_position xs st : (fold_left scan xs st).1.1 = st.1.1 + zlen xs.
Proof.
  revert st. induction xs as [|x xs IH]; intros [[p base] saw]; [simpl; by rewrite Z.add_0_r|].
  cbn [fold_left]. rewrite IH, zlen_cons. unfold scan. destruct (ISSLASH x), saw; simpl; lia.
Qed.

(** A directory part closed by a slash leaves the scan waiting for the next
    component. *)
Lemma scan_dir d p base saw : exists base', fold_left scan (d ++ slashes 1) (p, base, saw) = (p + zlen (d ++ slashes 1), base', true).
Proof.
  rewrite fold_left_app. pose proof (scan_position d (p, base, saw)) as Hp.
  destruct (fold_left scan d (p, base, saw)) as [[q b] sw]. cbn [fst] in Hp. subst q. exists b. cbn [fold_left slashes replicate scan].
  change (ISSLASH DIRECTORY_SEPARATOR) with true. rewrite zlen_app. change (zlen (slashes 1)) with 1. by rewrite Z.add_assoc.
Qed.

(** ** Leading slashes *)

Fixpoint leading (n : list Z) : nat :=
  match n with c :: n => if ISSLASH c then S (leading n) else 0 | [] => 0 end.

Lemma leading_split n : exists n', n = slashes (leading n) ++ n' /\ (match n' with c :: _ => ISSLASH c = false | [] => True end).
Proof.
  induction n as [|c n (n' & E & Hn')]; [by exists []|]. simpl. destruct (ISSLASH c) eqn:Ec; [|by exists (c :: n)].
  exists n'. rewrite slashes_cons. apply Z.eqb_eq in Ec as ->. split; [|done]. cbn [app]. by rewrite <- E.
Qed.

Lemma skip_slashes_ok k n : nul_free n -> match n with c :: _ => ISSLASH c = false | [] => True end ->
  skip_slashes (cstr (slashes k ++ n)) 0 = Ok (Z.of_nat k).
Proof.
  intros Hn Hh. unfold skip_slashes.
  assert (forall j i fuel, (j < fuel)%nat ->
    while fuel (fun p => let* c := rd (cstr (slashes (i + j) ++ n)) p in Ok (ISSLASH c)) (fun p => Ok (p + 1)) (Z.of_nat i) =
    Ok (Z.of_nat (i + j))) as H.
  { induction j as [|j IH]; intros i [|fuel] Hf; try lia; rewrite while_step.
    - rewrite Nat.add_0_r. rewrite (rd_cstr (slashes i) n (Z.of_nat i)) by apply zlen_slashes.
      cbn [bind]. destruct n as [|c n]; [done|]. cbn [head_char]. by rewrite Hh.
    - assert (slashes (i + S j) ++ n = slashes i ++ (slashes (S j) ++ n)) as E.
      { unfold slashes. by rewrite replicate_add, <- app_assoc. }
      rewrite E at 1. rewrite (rd_cstr (slashes i) _ (Z.of_nat i)) by apply zlen_slashes.
      rewrite slashes_cons. cbn [app bind head_char]. change (ISSLASH DIRECTORY_SEPARATOR) with true. cbn.
      replace (i + S j)%nat with (S i + j)%nat by lia. replace (Z.of_nat i + 1) with (Z.of_nat (S i)) by lia.
      apply IH. lia. }
  apply (H k 0%nat). unfold cstr. rewrite !length_app. unfold slashes. rewrite length_replicate. simpl. lia.
Qed.

Lemma nul_free_app xs ys : nul_free (xs ++ ys) <-> nul_free xs /\ nul_free ys.
Proof. apply Forall_app. Qed.

(** ** last_component and base_len *)

Lemma dir_part_leading d comp rest :
  dir_part d -> no_slash comp -> comp <> [] ->
  d = slashes (leading (d ++ comp ++ rest)) \/
  exists d', d = slashes (leading (d ++ comp ++ rest)) ++ d' ++ slashes 1 /\
    match d' with c :: _ => ISSLASH c = false | [] => False end.
Proof.
  intros Hd Hc Hn. assert (leading (comp ++ rest) = 0)%nat as Hl.
  { destruct Hc as [|c comp Hc _]; [done|]. simpl. by rewrite Hc. }
  destruct (leading_split d) as (d' & E & Hd').
  assert (leading (d ++ comp ++ rest) = leading d) as ->.
  { clear Hd Hd' E d'. induction d as [|c d IH]; [done|]. simpl. by rewrite IH. }
  destruct Hd as [->|[d0 Ed]]; [by left|]. destruct d' as [|c d'].
  { left. by rewrite app_nil_r in E. }
  right. destruct (exists_last_or (c :: d')) as [?|(d1 & x & E1)]; [done|]. exists d1. rewrite E1, app_assoc in E.
  assert (x = DIRECTORY_SEPARATOR) as ->. { rewrite Ed in E. by apply app_inj_2 in E as [_ [= <-]]. }
  split; [by rewrite E at 1; rewrite <- app_assoc|]. destruct d1 as [|y d1]; simplify_eq/=; done.
Qed.

Lemma last_component_parts n dir comp k :
  nul_free n -> parts n dir comp k -> last_component (cstr n) 0 = Ok (zlen dir).
Proof.
  intros Hn [-> Hd Hc Hs]. unfold last_component.
  pose proof (dir_part_leading dir comp (slashes k) Hd Hc Hs) as Hl. set (j := leading _) in Hl. clearbody j.
  assert (forall d', dir = slashes j ++ d' -> match d' ++ comp with c :: _ => ISSLASH c = false | [] => True end ->
    skip_slashes (cstr (dir ++ comp ++ slashes k)) 0 = Ok (Z.of_nat j) /\
    last_component (cstr (dir ++ comp ++ slashes k)) 0 =
    Ok (fold_left scan (d' ++ comp ++ slashes k) (Z.of_nat j, Z.of_nat j, false)).1.2) as H.
  { intros d' -> Hh. rewrite <- app_assoc in *. apply nul_free_app in Hn as [_ Hn].
    assert (match d' ++ comp ++ slashes k with c :: _ => ISSLASH c = false | [] => True end) as Hh'.
    { destruct d'; [|done]. by destruct comp. }
    pose proof (skip_slashes_ok j _ Hn Hh') as E. split; [done|]. unfold last_component. rewrite E. cbn [bind].
    pose proof (scan_loop (d' ++ comp ++ slashes k) (slashes j) (Z.of_nat j) false) as Hlp. rewrite zlen_slashes in Hlp.
    rewrite Hlp; [done|done|]. unfold cstr. rewrite !length_app. lia. }
  destruct Hl as [Ed|(d' & Ed & Hd')].
  - destruct (H []) as [_ E]; [by rewrite app_nil_r|by destruct Hc|]. unfold last_component in E. rewrite E. cbn [app].
    rewrite fold_left_app, scan_component by done. destruct (scan_slashes k (Z.of_nat j + zlen comp) (Z.of_nat j) false) as [saw ->].
    cbn [fst snd]. by rewrite Ed, zlen_slashes.
  - destruct (H (d' ++ slashes 1)) as [_ E]; [done|by destruct d'|]. unfold last_component in E. rewrite E.
    rewrite fold_left_app. destruct (scan_dir d' (Z.of_nat j) (Z.of_nat j) false) as [b ->].
    rewrite fold_left_app, scan_next by done. destruct (scan_slashes k (Z.of_nat j + zlen (d' ++ slashes 1) + zlen comp) (Z.of_nat j + zlen (d' ++ slashes 1)) false) as [saw ->].
    cbn [fst snd]. by rewrite Ed at 1; rewrite (zlen_app (slashes j)), zlen_slashes.
Qed.

Lemma last_component_root k : last_component (cstr (slashes k)) 0 = Ok (Z.of_nat k).
Proof.
  unfold last_component. pose proof (skip_slashes_ok k [] ltac:(constructor) I) as E. rewrite app_nil_r in E. rewrite E.
  cbn [bind]. pose proof (scan_loop [] (slashes k) (Z.of_nat k) false) as H. rewrite app_nil_r, zlen_slashes in H.
  rewrite H; [done|constructor|unfold cstr; rewrite length_app; simpl; lia].
Qed.

Lemma base_len_loop pre x k :
  nul_free (x ++ slashes k) -> (match last x with Some c => ISSLASH c = false | None => False end) ->
  base_len (cstr (pre ++ x ++ slashes k)) (zlen pre) = Ok (zlen x).
Proof.
  intros Hn Hx. unfold base_len. rewrite strlen_cstr by done. cbn [bind]. rewrite zlen_app, zlen_slashes.
  assert (0 < zlen x) as Hx0. { destruct x; [done|]. rewrite zlen_cons. pose proof (zlen_nonneg x). lia. }
  clear Hn. set (s := cstr _).
  assert (forall j fuel, (j <= k)%nat -> (j < fuel)%nat ->
    while fuel (fun len => if len >? 1 then let* c := rd s (zlen pre + len - 1) in Ok (ISSLASH c) else Ok false)
      (fun len => Ok (len - 1)) (zlen x + Z.of_nat j) = Ok (zlen x)) as H.
  { induction j as [|j IH]; intros [|fuel] Hj Hf; try lia; rewrite while_step.
    - rewrite Z.add_0_r. destruct (Z.gtb_spec (zlen x) 1); cbn [bind]; [|done].
      destruct (exists_last_or x) as [->|(y & c & ->)]; [done|]. rewrite last_snoc in Hx. unfold s.
      replace (pre ++ (y ++ [c]) ++ slashes k) with ((pre ++ y) ++ c :: slashes k) by (by rewrite <- !app_assoc).
      rewrite (rd_cstr (pre ++ y)) by (rewrite zlen_app, zlen_snoc; lia). cbn [bind head_char]. by rewrite Hx.
    - destruct (Z.gtb_spec (zlen x + Z.of_nat (S j)) 1); [|lia]. unfold s at 1.
      assert (slashes k = slashes j ++ slashes (k - j)) as Ek by (unfold slashes; rewrite <- replicate_add; f_equal; lia).
      replace (pre ++ x ++ slashes k) with ((pre ++ x ++ slashes j) ++ slashes (k - j)) by (by rewrite Ek, <- !app_assoc).
      rewrite (rd_cstr (pre ++ x ++ slashes j)) by (rewrite !zlen_app, zlen_slashes; lia).
      destruct (k - j)%nat as [|i] eqn:Ei; [lia|]. rewrite slashes_cons. cbn [bind head_char].
      change (ISSLASH DIRECTORY_SEPARATOR) with true. cbn [bind]. fold s.
      replace (zlen x + Z.of_nat (S j) - 1) with (zlen x + Z.of_nat j) by lia. apply IH; lia. }
  apply H; lia.
Qed.

(** The roots: the length of "///" counts one slash, that of "" none. *)
Lemma base_len_root k : base_len (cstr (slashes k)) 0 = Ok (Z.of_nat (min k 1)).
Proof.
  destruct k as [|k]; [done|]. assert (nul_free (slashes (S k))) as Hn by (apply Forall_replicate; done).
  unfold base_len. pose proof (strlen_cstr [] (slashes (S k)) Hn) as E. cbn [app] in E. change (zlen []) with 0 in E. rewrite E.
  cbn [bind]. rewrite zlen_slashes. clear E Hn. set (s := cstr _).
  assert (forall j fuel, (j <= k)%nat -> (j < fuel)%nat ->
    while fuel (fun len => if len >? 1 then let* c := rd s (0 + len - 1) in Ok (ISSLASH c) else Ok false)
      (fun len => Ok (len - 1)) (Z.of_nat (S j)) = Ok 1) as H.
  { induction j as [|j IH]; intros [|fuel] Hj Hf; try lia; rewrite while_step; [done|].
    destruct (Z.gtb_spec (Z.of_nat (S (S j))) 1); [|lia]. unfold s at 1.
    assert (slashes (S k) = slashes (S j) ++ slashes (k - j)) as -> by (unfold slashes; rewrite <- replicate_add; f_equal; lia).
    rewrite (rd_cstr (slashes (S j))) by (rewrite zlen_slashes; lia).
    destruct (k - j)%nat as [|i] eqn:Ei; [lia|]. rewrite slashes_cons. cbn [bind head_char].
    change (ISSLASH DIRECTORY_SEPARATOR) with true. cbn [bind]. fold s.
    replace (Z.of_nat (S (S j)) - 1) with (Z.of_nat (S j)) by lia. apply IH; lia. }
  rewrite H by lia. by rewrite Nat.min_r by lia.
Qed.

Lemma no_slash_last x : no_slash x -> x <> [] -> match last x with Some c => ISSLASH c = false | None => False end.
Proof.
  intros Hx Hn. destruct (exists_last_or x) as [->|(y & c & ->)]; [done|]. rewrite last_snoc.
  apply Forall_app in Hx as [_ Hx]. by apply Forall_cons in Hx as [Hx _].
Qed.

Lemma parts_nul_free n dir comp k : nul_free n -> parts n dir comp k -> nul_free comp /\ nul_free (comp ++ slashes k).
Proof. intros Hn [-> _ _ _]. apply nul_free_app in Hn as [_ Hn]. split; [by apply nul_free_app in Hn as [? _]|done]. Qed.

Lemma base_len_parts n dir comp k :
  nul_free n -> parts n dir comp k -> base_len (cstr n) (zlen dir) = Ok (zlen comp).
Proof.
  intros Hn Hp. destruct (parts_nul_free _ _ _ _ Hn Hp) as [_ Hnc]. destruct Hp as [-> Hd Hc Hs].
  apply base_len_loop; [done|]. by apply no_slash_last.
Qed.

(** ** base_name and the command basename *)

Lemma strndup_ok x rest : nul_free x -> strndup (x ++ rest) (length x) = Ok (cstr x).
Proof.
  induction 1 as [|c x Hc _ IH]; [done|]. cbn [length app strndup]. rewrite (proj2 (Z.eqb_neq c 0) Hc), IH. done.
Qed.

Lemma xstrndup_ok pre x rest n : nul_free x -> zlen x = n -> xstrndup true (pre ++ x ++ rest) (zlen pre) n = Ok (cstr x).
Proof.
  intros Hx <-. unfold xstrndup. cbn [demand bind]. unfold zlen. rewrite !Nat2Z.id, drop_app_length. by apply strndup_ok.
Qed.

Lemma base_name_parts n dir comp k :
  nul_free n -> parts n dir comp k -> base_name true (cstr n) = Ok (cstr (comp ++ slashes (min k 1))).
Proof.
  intros Hn Hp. unfold base_name. rewrite (last_component_parts _ _ _ _ Hn Hp). cbn [bind].
  pose proof (base_len_parts _ _ _ _ Hn Hp) as Hb. destruct (parts_nul_free _ _ _ _ Hn Hp) as [Hnc Hnk].
  destruct Hp as [-> Hd Hc Hs]. rewrite (rd_cstr dir) by done. destruct comp as [|c comp]; [done|].
  cbn [app bind head_char]. pose proof Hnc as Hnc'. apply Forall_cons in Hnc' as [Hc0 _]. rewrite (proj2 (Z.eqb_neq c 0) Hc0).
  cbn [app] in Hb. rewrite Hb. cbn [bind]. set (x := c :: comp) in *.
  change (dir ++ c :: comp ++ slashes k) with (dir ++ x ++ slashes k). rewrite (app_assoc dir x).
  rewrite (rd_cstr (dir ++ x)) by (by rewrite zlen_app). cbn [bind]. unfold cstr at 1. rewrite <- !app_assoc.
  destruct k as [|k]; [change (ISSLASH _) with false; rewrite app_nil_r; by apply xstrndup_ok|].
  rewrite slashes_cons. cbn [head_char]. change (ISSLASH DIRECTORY_SEPARATOR) with true.
  replace (x ++ (DIRECTORY_SEPARATOR :: slashes k) ++ [0]) with ((x ++ slashes 1) ++ slashes k ++ [0]) by (by rewrite <- app_assoc).
  replace (min (S k) 1) with 1%nat by lia. assert (zlen (x ++ slashes 1) = zlen x + 1) as Hl by (by rewrite zlen_app).
  apply (xstrndup_ok dir (x ++ slashes 1)); [|exact Hl].
  apply nul_free_app. split; [done|]. by repeat constructor.
Qed.

Lemma base_name_root k : base_name true (cstr (slashes k)) = Ok (cstr (slashes (min k 1))).
Proof.
  unfold base_name. rewrite last_component_root. cbn [bind]. rewrite rd_cstr_end by apply zlen_slashes. cbn [bind Z.eqb].
  rewrite base_len_root. cbn [bind]. unfold cstr at 1.
  replace (slashes k ++ [0]) with ([] ++ slashes (min k 1) ++ slashes (k - 1) ++ [0]).
  - apply (xstrndup_ok []); [|apply zlen_slashes]. by apply Forall_replicate.
  - cbn [app]. rewrite app_assoc. f_equal. unfold slashes. rewrite <- replicate_add. f_equal. lia.
Qed.

Lemma parts_self comp k : no_slash comp -> comp <> [] -> parts (comp ++ slashes k) [] comp k.
Proof. intros Hc Hn. split; try done. by left. Qed.

(** The copy of the last component loses its slash. *)
Lemma strip_component comp k :
  nul_free comp -> no_slash comp -> comp <> [] -> (k <= 1)%nat ->
  strip_trailing_slashes (cstr (comp ++ slashes k)) = Ok (negb (k =? 0)%nat, cstr comp ++ replicate k 0).
Proof.
  intros Hn Hc Hs Hk. assert (nul_free (comp ++ slashes k)) as Hnk by (apply nul_free_app; split; [done|]; by apply Forall_replicate).
  pose proof (parts_self comp k Hc Hs) as Hp. unfold strip_trailing_slashes.
  rewrite (last_component_parts _ _ _ _ Hnk Hp). cbn [bind]. change (zlen []) with 0.
  pose proof (base_len_parts _ _ _ _ Hnk Hp) as Hb. change (zlen []) with 0 in Hb.
  assert (exists c, rd (cstr (comp ++ slashes k)) 0 = Ok c) as [c Ec]. { eexists. by apply (rd_cstr []). }
  rewrite Ec. cbn [bind]. replace (if c =? 0 then 0 else 0) with 0 by (by destruct (c =? 0)). rewrite Hb. cbn [bind Z.add].
  rewrite (rd_cstr comp) by done. cbn [bind]. unfold cstr at 1. rewrite <- app_assoc.
  destruct k as [|[|k]]; [| |lia]; cbn [slashes replicate app head_char negb].
  - rewrite (wr_middle comp) by done. cbn [bind]. by rewrite app_nil_r.
  - rewrite (wr_middle comp) by done. cbn [bind]. unfold cstr. by rewrite <- app_assoc.
Qed.

Lemma strip_root k : (k <= 1)%nat -> strip_trailing_slashes (cstr (slashes k)) = Ok (false, cstr (slashes k)).
Proof. intros Hk. destruct k as [|[|k]]; [by vm_compute|by vm_compute|lia]. Qed.

Lemma text_ok x rest : nul_free x -> text (cstr x ++ rest) = Ok x.
Proof.
  induction 1 as [|c x Hc _ IH]; [done|]. cbn [cstr app text]. rewrite (proj2 (Z.eqb_neq c 0) Hc).
  unfold cstr in IH. by rewrite IH.
Qed.

(** [comp] without [suffix], unless that would leave nothing. *)
Definition strip_suffix (comp suffix : list Z) : list Z :=
  let n := (length comp - length suffix)%nat in
  if decide (drop n comp = suffix /\ (length suffix < length comp)%nat) then take n comp else comp.

Lemma suffix_loop suffix rest c : forall a b fuel, nul_free (a ++ c) -> nul_free (b ++ c) -> suffix = b ++ c -> (length a < fuel)%nat ->
  exists r, loop fuel (suffix_turn (cstr (a ++ c) ++ rest) (cstr suffix)) (zlen a, zlen b) = Ok r /\
    text r = Ok (strip_suffix (a ++ c) suffix).
Proof.
  intros a. revert c. induction a as [|x a IH] using rev_ind; intros c b [|fuel] Hna Hnb Eb Hf; try lia; cbn [loop];
    unfold suffix_turn at 1.
  - change (zlen []) with 0. cbn [Z.gtb Z.compare andb bind]. eexists. split; [done|]. rewrite text_ok by done.
    unfold strip_suffix. rewrite decide_False; [done|]. intros [_ Hl]. rewrite Eb, length_app in Hl. cbn [app] in Hl. lia.
  - rewrite zlen_snoc. destruct (Z.gtb_spec (zlen a + 1) 0) as [_|]; [|pose proof (zlen_nonneg a); lia].
    destruct (exists_last_or b) as [->|(b' & y & ->)].
    + change (zlen []) with 0. cbn [Z.gtb Z.compare andb]. cbn [app] in Eb. subst c.
      assert (cstr ((a ++ [x]) ++ suffix) ++ rest = (a ++ [x]) ++ (suffix ++ [0]) ++ rest) as -> by (unfold cstr; by rewrite <- !app_assoc).
      destruct (suffix ++ [0]) as [|z zs] eqn:Ez; [by destruct suffix|]. cbn [app].
      rewrite (wr_middle (a ++ [x])) by apply zlen_snoc. cbn [bind]. eexists. split; [done|].
      apply nul_free_app in Hna as [Hna _]. replace ((a ++ [x]) ++ 0 :: zs ++ rest) with (cstr (a ++ [x]) ++ zs ++ rest)
        by (unfold cstr; by rewrite <- !app_assoc). rewrite text_ok by done. unfold strip_suffix.
      assert (length ((a ++ [x]) ++ suffix) - length suffix = length (a ++ [x]))%nat as -> by (rewrite length_app; lia).
      rewrite drop_app_length, take_app_length, decide_True; [done|]. split; [done|]. rewrite !length_app. simpl. lia.
    + rewrite zlen_snoc. destruct (Z.gtb_spec (zlen b' + 1) 0) as [_|]; [|pose proof (zlen_nonneg b'); lia]. cbn [andb].
      unfold cstr at 1. replace (((a ++ [x]) ++ c) ++ [0]) with (a ++ x :: c ++ [0]) by (by rewrite <- !app_assoc).
      rewrite <- app_assoc. cbn [app]. rewrite (rd_middle a) by lia. cbn [bind].
      rewrite Eb. replace ((b' ++ [y]) ++ c) with (b' ++ y :: c) by by rewrite <- app_assoc. rewrite (rd_cstr b') by lia.
      cbn [bind head_char]. destruct (Z.eqb_spec x y) as [->|Hxy]; cbn [negb bind].
      * replace (a ++ y :: (c ++ [0]) ++ rest) with (cstr (a ++ y :: c) ++ rest) by (unfold cstr; by rewrite <- !app_assoc).
        rewrite length_app in Hf. simpl in Hf. replace (zlen a + 1 - 1) with (zlen a) by lia.
        replace (zlen b' + 1 - 1) with (zlen b') by lia. rewrite <- app_assoc in *. cbn [app] in *.
        rewrite <- Eb. apply IH; [done|by rewrite <- Eb in *|done|lia].
      * eexists. split; [done|]. rewrite <- !app_assoc in *. cbn [app] in *.
        replace (a ++ x :: c ++ 0 :: rest) with (cstr (a ++ x :: c) ++ rest) by (unfold cstr; by rewrite <- !app_assoc).
        rewrite text_ok by done. f_equal. unfold strip_suffix. rewrite decide_False; [done|]. intros [Hd _].
        pose proof (take_drop (length (a ++ x :: c) - length (b' ++ y :: c)) (a ++ x :: c)) as E. rewrite Hd in E.
        assert (forall z, z :: c = [z] ++ c) as Ez by done. rewrite (Ez x), (Ez y), !app_assoc in E.
        apply app_inj_2 in E as [E _]; [|done]. by apply app_inj_2 in E as [_ [= E]].
Qed.

Lemma remove_suffix_ok comp suffix rest :
  nul_free comp -> nul_free suffix ->
  exists r, remove_suffix (cstr comp ++ rest) (cstr suffix) = Ok r /\ text r = Ok (strip_suffix comp suffix).
Proof.
  intros Hc Hs. unfold remove_suffix.
  assert (strlen (cstr comp ++ rest) 0 = Ok (zlen comp)) as ->.
  { unfold strlen, demand. rewrite (proj2 (Z.leb_le 0 (zlen _))) by apply zlen_nonneg. cbn [andb Z.leb Z.compare bind].
    change (Z.to_nat 0) with 0%nat. rewrite drop_0. clear Hs. induction Hc as [|c comp Hc _ IH]; [done|]. cbn [cstr app strlen_from]. rewrite (proj2 (Z.eqb_neq c 0) Hc).
    unfold cstr in IH. rewrite IH. cbn [bind]. by rewrite zlen_cons. }
  pose proof (strlen_cstr [] suffix Hs) as E. cbn [app] in E. change (zlen []) with 0 in E. rewrite E. cbn [bind].
  pose proof (suffix_loop suffix rest [] comp suffix (S (Z.to_nat (zlen comp)))) as H. rewrite !app_nil_r in H.
  apply H; [done..|]. unfold zlen. lia.
Qed.

(** What the command prints for a name with components. *)
Definition base_output (comp : list Z) (suffix : option (list Z)) : list Z :=
  match suffix with None => comp | Some suffix => strip_suffix comp suffix end.

Lemma basename_parts n dir comp k suffix :
  nul_free n -> parts n dir comp k -> (forall s, suffix = Some s -> nul_free s) ->
  basename_main true (cstr n) (cstr <$> suffix) = Ok (base_output comp suffix).
Proof.
  intros Hn Hp Hs. destruct (parts_nul_free _ _ _ _ Hn Hp) as [Hnc _]. unfold basename_main.
  rewrite (base_name_parts _ _ _ _ Hn Hp). destruct Hp as [_ _ Hc Hne]. cbn [bind].
  rewrite strip_component by (done || lia). cbn [bind]. set (rest := replicate _ 0). destruct suffix as [suffix|]; cbn [fmap option_fmap option_map].
  - unfold IS_ABSOLUTE_FILE_NAME. destruct comp as [|c comp]; [done|].
    assert (rd (cstr (c :: comp) ++ rest) 0 = Ok c) as -> by (by apply (rd_middle [])).
    cbn [bind]. apply Forall_cons in Hc as [-> _]. cbn [negb].
    destruct (remove_suffix_ok (c :: comp) suffix rest Hnc) as (r & -> & Hr); [by apply Hs|]. done.
  - cbn [bind]. by apply text_ok.
Qed.

Lemma basename_root k suffix :
  (forall s, suffix = Some s -> nul_free s) ->
  basename_main true (cstr (slashes k)) (cstr <$> suffix) = Ok (slashes (min k 1)).
Proof.
  intros Hs. unfold basename_main. rewrite base_name_root. cbn [bind]. rewrite strip_root by lia. cbn [bind].
  destruct suffix as [suffix|]; cbn [fmap option_fmap option_map].
  - unfold IS_ABSOLUTE_FILE_NAME. destruct k as [|k].
    + cbn [Nat.min]. change (rd (cstr (slashes 0)) 0) with (Ok 0). cbn [bind]. change (ISSLASH 0) with false. cbn [negb].
      destruct (remove_suffix_ok [] suffix [] ltac:(constructor) (Hs _ eq_refl)) as (r & E & Hr). rewrite app_nil_r in E.
      change (slashes 0) with (@nil Z). rewrite E. cbn [bind]. rewrite Hr. unfold strip_suffix.
      rewrite decide_False; [done|]. intros [_ H]. simpl in H. lia.
    + replace (min (S k) 1) with 1%nat by lia. done.
  - cbn [bind]. rewrite <- (app_nil_r (cstr _)). apply text_ok. by apply Forall_replicate.
Qed.

(** ** dir_len and the command dirname *)

(** What the command prints for the directory part [x] and its slashes. *)
Definition dir_output (x : list Z) (j : nat) : list Z :=
  match x, j with
  | [], O => [ch "."]
  | [], _ => slashes 1
  | _, _ => x
  end.

Definition ends_open (x : list Z) : Prop := match last x with Some c => ISSLASH c = false | None => True end.

Lemma trailing_split d : exists x j, d = x ++ slashes j /\ ends_open x.
Proof.
  destruct (parts_exist d) as [[k ->]|(dir & comp & k & [-> _ Hc Hn])]; [by exists [], k|].
  exists (dir ++ comp), k. split; [by rewrite <- app_assoc|]. unfold ends_open.
  destruct (exists_last_or comp) as [->|(y & c & ->)]; [done|]. rewrite app_assoc, last_snoc.
  apply Forall_app in Hc as [_ Hc]. by apply Forall_cons in Hc as [Hc _].
Qed.

Lemma dir_loop s prefix_length : forall k x rest fuel,
  s = cstr (x ++ slashes k ++ rest) -> prefix_length <= zlen x ->
  (zlen x = prefix_length \/ match last x with Some c => ISSLASH c = false | None => False end) -> (k < fuel)%nat ->
  while fuel (fun length => if prefix_length <? length then let* c := rd s (length - 1) in Ok (ISSLASH c) else Ok false)
    (fun length => Ok (length - 1)) (zlen x + Z.of_nat k) = Ok (zlen x).
Proof.
  intros k x rest fuel -> Hp Hx. revert rest fuel. induction k as [|k IH]; intros rest [|fuel] Hf; try lia; rewrite while_step.
  - rewrite Z.add_0_r. destruct (Z.ltb_spec prefix_length (zlen x)) as [Hlt|]; cbn [bind]; [|done].
    destruct Hx as [Hx|Hx]; [lia|]. destruct (exists_last_or x) as [->|(y & c & ->)]; [done|]. rewrite last_snoc in Hx.
    rewrite <- app_assoc. cbn [app]. rewrite (rd_cstr y) by (rewrite zlen_snoc; lia). cbn [bind head_char]. by rewrite Hx.
  - rewrite (proj2 (Z.ltb_lt _ _)) by lia. rewrite slashes_snoc, <- app_assoc, (app_assoc x).
    rewrite (rd_cstr (x ++ slashes k)) by (rewrite zlen_app, zlen_slashes; lia). cbn [bind head_char slashes replicate app].
    change (ISSLASH DIRECTORY_SEPARATOR) with true. cbn [bind]. rewrite <- app_assoc.
    replace (zlen x + Z.of_nat (S k) - 1) with (zlen x + Z.of_nat k) by lia. apply IH. lia.
Qed.

Lemma take_prefix (x rest : list Z) : take (Z.to_nat (zlen x)) (cstr (x ++ rest)) = x.
Proof. unfold cstr, zlen. rewrite Nat2Z.id, <- app_assoc. apply take_app_length. Qed.

(** The directory part [x ++ slashes j], followed by what starts with no
    slash. *)
Lemma dirname_loop n x j rest :
  nul_free n -> n = x ++ slashes j ++ rest -> ends_open x -> (match rest with c :: _ => ISSLASH c = false | [] => True end) ->
  last_component (cstr n) 0 = Ok (zlen x + Z.of_nat j) -> dirname_main (cstr n) = Ok (dir_output x j).
Proof.
  intros Hn E Hx Hr Hl. unfold dirname_main, dir_len. destruct x as [|c x].
  - cbn [app] in E. change (zlen []) with 0 in Hl. destruct j as [|j].
    + cbn [slashes replicate app] in E. subst n. rewrite rd_cstr_first. cbn [bind]. rewrite Hl. cbn [bind]. change (0 + Z.of_nat 0) with 0.
      replace (ISSLASH (head_char rest)) with false by (by destruct rest). done.
    + rewrite rd_cstr_first. rewrite E at 1. rewrite slashes_cons. cbn [app head_char bind].
      change (ISSLASH DIRECTORY_SEPARATOR) with true. rewrite Hl. cbn [bind].
      replace (0 + Z.of_nat (S j)) with (zlen (slashes 1) + Z.of_nat j) by (rewrite zlen_slashes; lia).
      rewrite (dir_loop _ 1 j (slashes 1) rest); [| |done|by left|].
      * cbn [bind]. change (zlen (slashes 1)) with 1. cbn [Z.eqb]. rewrite E. done.
      * by rewrite E.
      * rewrite zlen_slashes. lia.
  - pose proof (zlen_nonneg x). assert (rd (cstr n) 0 = Ok c) as ->. { by rewrite rd_cstr_first, E. }
    cbn [bind]. rewrite Hl. cbn [bind]. rewrite (dir_loop _ _ j (c :: x) rest); [|by rewrite E| | |].
    + cbn [bind]. rewrite zlen_cons, (proj2 (Z.eqb_neq _ 0)) by lia. rewrite <- zlen_cons with (x := c), E, take_prefix. done.
    + rewrite zlen_cons. destruct (ISSLASH c); lia.
    + right. unfold ends_open in Hx. destruct (exists_last_or (c :: x)) as [?|(y & z & Ey)]; [done|]. rewrite Ey in *. by rewrite last_snoc in *.
    + rewrite zlen_cons. lia.
Qed.

Lemma dirname_parts n dir comp k x j :
  nul_free n -> parts n dir comp k -> dir = x ++ slashes j -> ends_open x -> dirname_main (cstr n) = Ok (dir_output x j).
Proof.
  intros Hn Hp Ed Hx. pose proof (last_component_parts _ _ _ _ Hn Hp) as Hl. destruct Hp as [E Hd Hc Hs].
  apply (dirname_loop n x j (comp ++ slashes k)); [done| |done| |].
  - by rewrite E, Ed, <- app_assoc.
  - by destruct Hc.
  - by rewrite Hl, Ed, zlen_app, zlen_slashes.
Qed.

Lemma dirname_root k : dirname_main (cstr (slashes k)) = Ok (dir_output [] k).
Proof.
  apply (dirname_loop _ [] k []); try done.
  - by apply Forall_replicate.
  - by rewrite app_nil_r.
  - rewrite last_component_root. done.
Qed.

(** ** Concatenation *)

Lemma mempcpy_loop (u v : list Z) : forall y y1 pre rest, (length y <= length rest)%nat ->
  for_n (length y) (zlen y1) (fun k dst =>
      let* c := rd (u ++ (y1 ++ y) ++ v) (zlen u + k) in wr dst (zlen pre + k) (Some c)) (map Some (pre ++ y1) ++ rest) =
  Ok (map Some (pre ++ y1 ++ y) ++ drop (length y) rest).
Proof.
  induction y as [|c y IH]; intros y1 pre rest Hl; cbn [length for_n].
  { by rewrite app_nil_r, drop_0. }
  destruct rest as [|o rest]; simpl in Hl; [lia|].
  replace (u ++ (y1 ++ c :: y) ++ v) with ((u ++ y1) ++ c :: y ++ v) at 1 by by rewrite <- !app_assoc.
  rewrite (rd_middle (u ++ y1)) by apply zlen_app. cbn [bind].
  rewrite (wr_middle (map Some (pre ++ y1))) by (rewrite zlen_map; apply zlen_app). cbn [bind].
  rewrite <- !app_assoc. cbn [drop]. specialize (IH (y1 ++ [c]) pre rest ltac:(lia)). rewrite zlen_snoc, <- !app_assoc in IH. cbn [app] in IH.
  replace (map Some (pre ++ y1 ++ [c]) ++ rest) with (map Some (pre ++ y1) ++ Some c :: rest) in IH; [exact IH|].
  by rewrite !map_app, <- !app_assoc.
Qed.

Lemma mempcpy_ok (u y v pre : list Z) rest :
  (length y <= length rest)%nat ->
  mempcpy (map Some pre ++ rest) (zlen pre) (u ++ y ++ v) (zlen u) (zlen y) = Ok (map Some (pre ++ y) ++ drop (length y) rest).
Proof.
  intros Hl. unfold mempcpy, for_up. rewrite Z.sub_0_r. unfold zlen at 1. rewrite Nat2Z.id.
  pose proof (mempcpy_loop u v y [] pre rest Hl) as E. rewrite app_nil_r in E. exact E.
Qed.

(** The directory with the separator it needs. *)
Definition joint (x : list Z) (j : nat) : list Z := match x with [] => slashes j | _ => x ++ slashes 1 end.

Lemma concat_sizes d x j :
  nul_free d -> d = x ++ slashes j -> ends_open x ->
  exists dirbase dirbaselen sep,
    last_component (cstr d) 0 = Ok dirbase /\ base_len (cstr d) dirbase = Ok dirbaselen /\
    (if dirbaselen =? 0 then Ok 0
     else let* c := rd (cstr d) (dirbase + dirbaselen - 1) in Ok (if ISSLASH c then 0 else 1)) = Ok sep /\
    dirbase + dirbaselen = zlen (match x with [] => slashes j | _ => x end) /\
    zlen (joint x j) = dirbase + dirbaselen + sep /\ 0 <= sep.
Proof.
  intros Hn -> Hx. destruct x as [|c0 x].
  - cbn [app] in *. exists (Z.of_nat j), 0, 0. rewrite last_component_root. cbn [joint]. rewrite !zlen_slashes.
    split_and!; try done; try lia. unfold base_len. pose proof (strlen_cstr (slashes j) [] ltac:(constructor)) as E.
    rewrite app_nil_r, zlen_slashes in E. rewrite E. done.
  - set (y := c0 :: x) in *. destruct (parts_exist y) as [[k Ey]|(dir & comp & k & [Ey Hd Hc Hs])].
    { exfalso. unfold ends_open in Hx. rewrite Ey in Hx. destruct k as [|k]; [done|]. rewrite slashes_snoc in Hx.
      change (slashes 1) with [DIRECTORY_SEPARATOR] in Hx. by rewrite last_snoc in Hx. }
    assert (k = 0%nat) as ->.
    { destruct k as [|k]; [done|]. exfalso. unfold ends_open in Hx. rewrite Ey, slashes_snoc, !app_assoc in Hx.
      change (slashes 1) with [DIRECTORY_SEPARATOR] in Hx. by rewrite last_snoc in Hx. }
    change (slashes 0) with (@nil Z) in Ey. rewrite app_nil_r in Ey.
    assert (parts (y ++ slashes j) dir comp j) as Hp by (split; try done; by rewrite Ey, <- app_assoc).
    exists (zlen dir), (zlen comp), 1. rewrite (last_component_parts _ _ _ _ Hn Hp), (base_len_parts _ _ _ _ Hn Hp).
    assert (0 < zlen comp). { destruct comp; [done|]. rewrite zlen_cons. pose proof (zlen_nonneg comp). lia. }
    assert (joint y j = y ++ slashes 1) as -> by done. rewrite zlen_app, zlen_slashes. change (match y with [] => _ | _ => y end) with y.
    rewrite Ey, zlen_app. split_and!; try done; try lia. rewrite (proj2 (Z.eqb_neq _ 0)) by lia.
    destruct (exists_last_or comp) as [->|(z & c & ->)]; [done|]. apply Forall_app in Hc as [_ Hc]. apply Forall_cons in Hc as [Hc _].
    replace ((dir ++ z ++ [c]) ++ slashes j) with ((dir ++ z) ++ c :: slashes j) by (by rewrite <- !app_assoc).
    rewrite (rd_cstr (dir ++ z)) by (rewrite !zlen_app; change (zlen [c]) with 1; lia). cbn [bind head_char]. by rewrite Hc.
Qed.

Lemma joint_written x j (rest : list (option Z)) sep :
  zlen (joint x j) = zlen (match x with [] => slashes j | _ => x end) + sep -> 0 <= sep -> sep < zlen rest ->
  exists rest', wr (map Some (match x with [] => slashes j | _ => x end) ++ rest)
      (zlen (match x with [] => slashes j | _ => x end)) (Some DIRECTORY_SEPARATOR) =
    Ok (map Some (joint x j) ++ rest') /\ zlen rest' = zlen rest - sep.
Proof.
  intros Hj Hs Hr. destruct rest as [|o rest]; [change (zlen []) with 0 in Hr; lia|].
  rewrite (wr_middle (map Some _)) by apply zlen_map. destruct x as [|c x].
  - exists (Some DIRECTORY_SEPARATOR :: rest). cbn [joint] in *. split; [done|]. rewrite !zlen_cons. lia.
  - exists rest. cbn [joint] in *. rewrite map_app, <- app_assoc. split; [done|].
    rewrite zlen_app, zlen_slashes in Hj. rewrite !zlen_cons. lia.
Qed.

Lemma concat_ok d x j a i a' :
  nul_free d -> d = x ++ slashes j -> ends_open x ->
  nul_free a -> a = slashes i ++ a' -> (match a' with c :: _ => ISSLASH c = false | [] => True end) ->
  mfile_name_concat true (cstr d) (cstr a) =
    Ok (Some (cstr (joint x j ++ a'), zlen (joint x j) - (if (i =? 0)%nat then 0 else 1))).
Proof.
  intros Hn Ed Hx Ha Ea Ha'. unfold mfile_name_concat.
  destruct (concat_sizes d x j Hn Ed Hx) as (dirbase & dirbaselen & sep & -> & E1 & E2 & Hdl & Hjl & Hsep). cbn [bind].
  rewrite E1. cbn [bind]. rewrite E2. cbn [bind]. rewrite Hdl in *. clear E1 E2.
  pose proof Ha as Han. rewrite Ea in Han. apply nul_free_app in Han as [_ Han].
  unfold longest_relative_suffix. rewrite Ea at 1. rewrite skip_slashes_ok by done. cbn [bind].
  pose proof (strlen_cstr (slashes i) a' Han) as El. rewrite zlen_slashes, <- Ea in El. rewrite El. cbn [bind negb].
  set (dx := match x with [] => slashes j | _ => x end) in *. pose proof (zlen_nonneg dx). pose proof (zlen_nonneg a').
  assert (exists v, cstr d = [] ++ dx ++ v) as [v Ev].
  { rewrite Ed. unfold cstr, dx. destruct x; eexists; cbn [app]; [done|]. rewrite <- app_assoc. done. }
  assert (zlen (uninit (zlen dx + sep + zlen a' + 1)) = zlen dx + sep + zlen a' + 1) as Hul by (unfold uninit; apply zlen_replicate; lia).
  assert (length dx <= length (uninit (zlen dx + sep + zlen a' + 1)))%nat as Hlen by (unfold zlen in *; lia).
  pose proof (mempcpy_ok [] dx v [] _ Hlen) as Em. cbn [map app] in Em. change (zlen []) with 0 in Em. cbn [app] in Ev. rewrite Ev, Em.
  cbn [bind]. clear Em. set (rest := drop _ _). assert (zlen rest = sep + zlen a' + 1) as Hrl.
  { unfold rest, zlen. rewrite length_drop. unfold zlen in *. lia. }
  destruct (joint_written x j rest sep Hjl Hsep) as (rest' & Ew & Hr'); [lia|]. fold dx in Ew. rewrite Ew. cbn [bind].
  assert (IS_ABSOLUTE_FILE_NAME (cstr a) 0 = Ok (negb (i =? 0)%nat)) as ->.
  { unfold IS_ABSOLUTE_FILE_NAME. rewrite rd_cstr_first, Ea. cbn [bind]. f_equal. destruct i as [|i]; [|done]. by destruct a'. }
  cbn [bind]. rewrite <- Hjl. assert (length a' <= length rest')%nat as Hl' by (unfold zlen in *; lia).
  pose proof (mempcpy_ok (slashes i) a' [0] (joint x j) rest' Hl') as Em. rewrite zlen_slashes in Em.
  assert (cstr a = slashes i ++ a' ++ [0]) as -> by (rewrite Ea; unfold cstr; by rewrite <- app_assoc). rewrite Em. cbn [bind].
  assert (length (drop (length a') rest') = 1)%nat as H1 by (rewrite length_drop; unfold zlen in *; lia).
  destruct (drop (length a') rest') as [|o [|]]; try done. rewrite (wr_middle (map Some _)) by (rewrite zlen_map, zlen_app; done).
  cbn [bind]. replace (map Some (joint x j ++ a') ++ [Some 0]) with (map Some (cstr (joint x j ++ a'))) by (unfold cstr; by rewrite map_app).
  rewrite contents_Some. cbn [bind]. by destruct (i =? 0)%nat.
Qed.

(** ** Components *)

(** The components of a name, cut at the slashes. *)
Definition flush (cur : list Z) (rest : list (list Z)) : list (list Z) := match cur with [] => rest | _ => cur :: rest end.

Fixpoint cut (cur n : list Z) : list (list Z) :=
  match n with
  | [] => flush cur []
  | c :: n => if ISSLASH c then flush cur (cut [] n) else cut (cur ++ [c]) n
  end.

Definition components (n : list Z) : list (list Z) := cut [] n.

Definition absolute (n : list Z) : bool := match n with c :: _ => ISSLASH c | [] => false end.

Lemma cut_slash n cur n' : cut cur (n ++ DIRECTORY_SEPARATOR :: n') = cut cur n ++ components n'.
Proof.
  revert cur. induction n as [|c n IH]; intros cur; cbn [app cut].
  - change (ISSLASH DIRECTORY_SEPARATOR) with true. cbn. unfold components. by destruct cur.
  - destruct (ISSLASH c); [|apply IH]. rewrite IH. by destruct cur.
Qed.

Lemma components_slashes k n : components (slashes k ++ n) = components n.
Proof. induction k as [|k IH]; [done|]. rewrite slashes_cons. cbn [app]. unfold components. cbn [cut]. exact IH. Qed.

Lemma components_dir d n : dir_part d -> components (d ++ n) = components d ++ components n.
Proof.
  intros [->|[d' ->]]; [done|]. rewrite <- app_assoc. cbn [slashes replicate app]. unfold components at 1. rewrite cut_slash.
  unfold components at 2. change (slashes 1) with [DIRECTORY_SEPARATOR]. rewrite cut_slash. by rewrite app_nil_r.
Qed.

Lemma components_one comp k : no_slash comp -> comp <> [] -> components (comp ++ slashes k) = [comp].
Proof.
  intros Hc Hn. assert (forall xs cur, no_slash xs -> cut cur (xs ++ slashes k) = flush (cur ++ xs) []) as H.
  { induction xs as [|c xs IH]; intros cur Hx.
    - rewrite app_nil_r. cbn [app]. destruct k as [|k]; [done|]. rewrite slashes_cons. cbn [cut].
      change (ISSLASH DIRECTORY_SEPARATOR) with true. cbn. pose proof (components_slashes k []) as E. rewrite app_nil_r in E.
      unfold components in E. by rewrite E.
    - apply Forall_cons in Hx as [Hx Hxs]. cbn [app cut]. rewrite Hx, IH by done. by rewrite <- app_assoc. }
  unfold components. rewrite H by done. cbn [app]. by destruct comp.
Qed.

Lemma components_parts n dir comp k : parts n dir comp k -> components n = components dir ++ [comp].
Proof. intros [-> Hd Hc Hn]. by rewrite components_dir, components_one. Qed.

(** ** Names that lead to the same file *)

(** Whether the name is absolute, and its components but for ".". *)
Definition resolve (n : list Z) : bool * list (list Z) := (absolute n, filter (fun c => c <> [ch "."]) (components n)).

(** The concatenation has the components of both names and starts as the
    first. *)
Lemma concat_components d a :
  nul_free d -> nul_free a ->
  exists r off, mfile_name_concat true (cstr d) (cstr a) = Ok (Some (cstr r, off)) /\
    components r = components d ++ components a /\ absolute r = absolute d.
Proof.
  intros Hd Ha. destruct (trailing_split d) as (x & j & Ed & Hx). destruct (leading_split a) as (a' & Ea & Ha').
  eexists _, _. split; [by apply (concat_ok d x j a (leading a) a')|]. rewrite Ea, components_slashes, Ed.
  destruct x as [|c x]; cbn [joint app].
  - rewrite components_dir; [split; [done|]|].
    + destruct j; [by destruct a'|done].
    + destruct j as [|j]; [by left|]. right. exists (slashes j). apply slashes_snoc.
  - split; [|done]. change (slashes 1) with [DIRECTORY_SEPARATOR]. rewrite (app_comm_cons x), <- app_assoc. cbn [app].
    change (c :: x ++ DIRECTORY_SEPARATOR :: a') with ((c :: x) ++ DIRECTORY_SEPARATOR :: a'). unfold components at 1. rewrite cut_slash.
    f_equal. destruct j as [|j]; [by rewrite app_nil_r|]. rewrite slashes_cons. rewrite (app_comm_cons x). unfold components.
    rewrite cut_slash. pose proof (components_slashes j []) as E. rewrite app_nil_r in E. by rewrite E, app_nil_r.
Qed.

Lemma dir_output_resolve x j comp :
  dir_part (x ++ slashes j) -> ends_open x -> comp <> [] -> no_slash comp ->
  absolute (dir_output x j) = absolute (x ++ slashes j ++ comp) /\
  filter (fun c => c <> [ch "."]) (components (dir_output x j)) = filter (fun c => c <> [ch "."]) (components (x ++ slashes j)).
Proof.
  intros Hd Hx Hn Hc. destruct x as [|c x]; cbn [app dir_output].
  - destruct j as [|j]; [split; [by destruct Hc|done]|]. split; [done|]. pose proof (components_slashes (S j) []) as E.
    rewrite app_nil_r in E. by rewrite E.
  - split; [done|]. destruct j as [|j]; [by rewrite app_nil_r|]. rewrite slashes_cons, (app_comm_cons x). unfold components.
    rewrite cut_slash. pose proof (components_slashes j []) as E. rewrite app_nil_r in E. by rewrite E, app_nil_r.
Qed.

(** C34. For every name with a component, basename prints its last component,
    and the concatenation of what dirname and basename print has the components
    of the name (but for "." components) and is absolute when the name is. *)
Theorem dirname_basename_rejoin n :
  nul_free n -> components n <> [] ->
  exists d b r off,
    dirname_main (cstr n) = Ok d /\ basename_main true (cstr n) None = Ok b /\ last (components n) = Some b /\
    mfile_name_concat true (cstr d) (cstr b) = Ok (Some (cstr r, off)) /\ resolve r = resolve n.
Proof.
  intros Hn Hne. destruct (parts_exist n) as [[k ->]|(dir & comp & k & Hp)].
  { pose proof (components_slashes k []) as E. rewrite app_nil_r in E. by rewrite E in Hne. }
  destruct (trailing_split dir) as (x & j & Ed & Hx). pose proof (dirname_parts _ _ _ _ x j Hn Hp Ed Hx) as Hdn.
  pose proof (basename_parts n dir comp k None Hn Hp ltac:(done)) as Hbn. destruct (parts_nul_free _ _ _ _ Hn Hp) as [Hnc _].
  pose proof (components_parts _ _ _ _ Hp) as Hcn. destruct Hp as [En Hd Hc Hs].
  assert (nul_free (dir_output x j)) as Hnd.
  { rewrite En, Ed, <- !app_assoc in Hn. apply nul_free_app in Hn as [Hnx _]. destruct x, j; done || by repeat constructor. }
  destruct (concat_components _ _ Hnd Hnc) as (r & off & Er & Hcr & Har).
  rewrite Ed in Hd. destruct (dir_output_resolve x j comp Hd Hx Hs Hc) as [Hra Hrc].
  exists (dir_output x j), comp, r, off. split_and!; try done.
  - by rewrite Hcn, last_snoc.
  - unfold resolve. rewrite Hcr, Har, Hra, Hcn, !filter_app, Hrc, <- Ed. f_equal.
    + rewrite En, Ed, <- !app_assoc. destruct x as [|? x]; [|done]. cbn [app]. destruct j; [|done]. by destruct comp.
    + f_equal. pose proof (components_one comp 0 Hc Hs) as E1. change (slashes 0) with (@nil Z) in E1. rewrite app_nil_r in E1. by rewrite E1.
Qed.

Lemma dirname_basename_rejoin_witness :
  exists d b r off,
    dirname_main (cstr (bytes "/usr//lib/")) = Ok d /\ basename_main true (cstr (bytes "/usr//lib/")) None = Ok b /\
    last (components (bytes "/usr//lib/")) = Some b /\
    mfile_name_concat true (cstr d) (cstr b) = Ok (Some (cstr r, off)) /\ resolve r = resolve (bytes "/usr//lib/").
Proof. apply dirname_basename_rejoin; [by repeat constructor|by vm_compute]. Defined.

(** The command basename prints, for a name made of slashes only, one slash
    (none for the empty name), and else the last component, without the suffix
    if it ends in the suffix and is longer; it leaves with an error when
    memory is exhausted. *)
Theorem basename_prints n suffix :
  nul_free n -> (forall s, suffix = Some s -> nul_free s) ->
  basename_main true (cstr n) (cstr <$> suffix) =
    Ok (match last (components n) with
        | None => slashes (min (length n) 1)
        | Some b => base_output b suffix
        end) /\
  basename_main false (cstr n) (cstr <$> suffix) = Fail (ExitCall 1).
Proof.
  intros Hn Hs. destruct (parts_exist n) as [[k ->]|(dir & comp & k & Hp)].
  - pose proof (components_slashes k []) as E. rewrite app_nil_r in E. rewrite E. cbn [components cut flush last].
    rewrite basename_root by done. rewrite length_slashes. split; [done|].
    unfold basename_main, base_name. rewrite last_component_root. cbn [bind]. rewrite rd_cstr_end by apply zlen_slashes.
    cbn [bind Z.eqb]. rewrite base_len_root. done.
  - rewrite (components_parts _ _ _ _ Hp), last_snoc. split; [by apply (basename_parts n dir comp k)|].
    unfold basename_main, base_name. rewrite (last_component_parts _ _ _ _ Hn Hp). cbn [bind].
    pose proof (base_len_parts _ _ _ _ Hn Hp) as Hb. destruct (parts_nul_free _ _ _ _ Hn Hp) as [Hnc _]. destruct Hp as [-> Hd Hc Hne].
    rewrite (rd_cstr dir) by done. destruct comp as [|c comp]; [done|]. apply Forall_cons in Hnc as [Hc0 _]. cbn [bind app head_char].
    rewrite (proj2 (Z.eqb_neq c 0) Hc0). cbn [app] in Hb. rewrite Hb. cbn [bind].
    change (dir ++ c :: comp ++ slashes k) with (dir ++ (c :: comp) ++ slashes k). rewrite (app_assoc dir).
    rewrite (rd_cstr (dir ++ c :: comp)) by apply zlen_app. done.
Qed.

Lemma basename_prints_witness :
  basename_main true (cstr (bytes "include/stdio.h")) (cstr <$> Some (bytes ".h")) = Ok (bytes "stdio") /\
  basename_main false (cstr (bytes "include/stdio.h")) (cstr <$> Some (bytes ".h")) = Fail (ExitCall 1).
Proof. apply (basename_prints (bytes "include/stdio.h") (Some (bytes ".h"))); [by repeat constructor|]. intros s [= <-]. by repeat constructor. Defined.

(** For an empty directory and an absolute name *base_in_result is one before
    the block. *)
Lemma base_before_block : mfile_name_concat true (cstr []) (cstr (bytes "/x")) = Ok (Some (cstr (bytes "x"), -1)).
Proof. by vm_compute. Qed.
