(* ===== verification/Human.v ===== *)
(** * Human readable sizes: utils/coreutils/lib/human.c

    The integer arithmetic of human_readable: the scaling with its tenths and
    its rounding class, the three rounding styles, the automatic choice of the
    unit, the digits and the suffix, written into the caller's buffer.  What
    [localeconv] returns is an argument.  The branch with long doubles, taken
    when the block sizes do not divide each other or the product overflows, is
    not modelled: it is the result [None]. *)

From S2P Require Import Prelude Arrays CStrings XStrtol.
Open Scope Z_scope.

Definition human_ceiling : Z := 0.
Definition human_round_to_nearest : Z := 1.
Definition human_floor : Z := 2.
Definition human_group_digits : Z := 4.
Definition human_suppress_point_zero : Z := 8.
Definition human_autoscale : Z := 16.
Definition human_base_1024 : Z := 32.
Definition human_space_before_unit : Z := 64.
Definition human_SI : Z := 128.
Definition human_B : Z := 256.

Definition MB_LEN_MAX : Z := 16.
Definition HUMAN_READABLE_SUFFIX_LENGTH_MAX : Z := 3.
Definition LONGEST_HUMAN_READABLE : Z := (2 * 8 * 8 * 146 / 485 + 1) * (MB_LEN_MAX + 1) - MB_LEN_MAX + 1 + 3.

Definition power_letter : list Z := [0; ch "K"; ch "M"; ch "G"; ch "T"; ch "P"; ch "E"; ch "Z"; ch "Y"].
Definition exponent_max : Z := zlen power_letter - 1.

(** [struct lconv]: strings without their terminators. *)
Record lconv := Locale { decimal_point : list Z; grouping : list Z; thousands_sep : list Z }.

Definition has (opts flag : Z) : bool := negb (Z.land opts flag =? 0).
Definition b2z (b : bool) : Z := if b then 1 else 0.

(** [memcpy(buf + p, s, n)] *)
Fixpoint memcpy (buf : list Z) (p : Z) (s : list Z) : res (list Z) :=
  match s with
  | [] => Ok buf
  | c :: s => let* buf := wr buf p c in memcpy buf (p + 1) s
  end.

(** The value in units of to_block_size as an integer, its tenths and its
    rounding class; [None] needs floating point. *)
Definition to_units (n from_block_size to_block_size : Z) : res (option (Z * Z * Z)) :=
  let* _ := demand (negb (to_block_size =? 0)) DivByZero in
  if to_block_size <=? from_block_size then
    if from_block_size mod to_block_size =? 0 then
      let multiplier := from_block_size / to_block_size in
      let amt := u64 (n * multiplier) in
      Ok (if amt / multiplier =? n then Some (amt, 0, 0) else None)
    else Ok None
  else if negb (from_block_size =? 0) && (to_block_size mod from_block_size =? 0) then
    let divisor := to_block_size / from_block_size in
    let r10 := u64 (n mod divisor * 10) in
    let r2 := u64 (r10 mod divisor * 2) in
    Ok (Some (n / divisor, r10 / divisor,
              if r2 <? divisor then b2z (0 <? r2) else 2 + b2z (divisor <? r2)))
  else Ok None.

(** One turn of the loop that divides by the base. *)
Definition scale_turn (base : Z) (st : Z * Z * Z * Z) : res (Z * Z * Z * Z + Z * Z * Z * Z) :=
  let '(amt, tenths, rounding, exponent) := st in
  let r10 := u32 (amt mod base * 10 + tenths) in
  let r2 := u32 (r10 mod base * 2 + Z.shiftr rounding 1) in
  let amt := amt / base in
  let tenths := r10 / base in
  let rounding :=
    if r2 <? base then b2z (negb (r2 + rounding =? 0)) else 2 + b2z (base <? r2 + rounding) in
  let exponent := exponent + 1 in
  if (base <=? amt) && (exponent <? exponent_max) then Ok (inl (amt, tenths, rounding, exponent))
  else Ok (inr (amt, tenths, rounding, exponent)).

(** The test for rounding the tenths up. *)
Definition tenths_up (style tenths rounding : Z) : bool :=
  if style =? human_round_to_nearest then 2 <? rounding + Z.land tenths 1
  else (style =? human_ceiling) && (0 <? rounding).

(** The test for rounding the integer up. *)
Definition amount_up (style amt tenths rounding : Z) : bool :=
  if style =? human_round_to_nearest then 5 <? tenths + b2z (0 <? rounding + Z.land amt 1)
  else (style =? human_ceiling) && (0 <? tenths + rounding).

(** [*--p = c; p -= decimal_pointlen; memcpy(p, decimal_point, ...)] *)
Definition put_tenths (l : lconv) (c : Z) (buf : list Z) (p : Z) : res (list Z * Z) :=
  let* buf := wr buf (p - 1) c in
  let p := p - 1 - zlen (decimal_point l) in
  let* buf := memcpy buf p (decimal_point l) in
  Ok (buf, p).

(** The block for amounts below ten: the tenths are rounded and printed. *)
Definition small_amount (l : lconv) (opts style amt tenths rounding : Z) (buf : list Z) (p : Z)
    : res (Z * Z * Z * list Z * Z) :=
  if amt <? 10 then
    let '(amt, tenths, rounding) :=
      if tenths_up style tenths rounding then
        let tenths := tenths + 1 in
        if tenths =? 10 then (amt + 1, 0, 0) else (amt, tenths, 0)
      else (amt, tenths, rounding) in
    if (amt <? 10) && (negb (tenths =? 0) || negb (has opts human_suppress_point_zero)) then
      let* (buf, p) := put_tenths l (ch "0" + tenths) buf p in
      Ok (amt, 0, 0, buf, p)
    else Ok (amt, tenths, rounding, buf, p)
  else Ok (amt, tenths, rounding, buf, p).

(** The automatic choice of the exponent. *)
Definition autoscale (l : lconv) (opts style base amt tenths rounding : Z) (buf : list Z) (p : Z)
    : res (Z * Z * Z * Z * list Z * Z) :=
  if has opts human_autoscale then
    if base <=? amt then
      let* (amt, tenths, rounding, exponent) := loop 9 (scale_turn base) (amt, tenths, rounding, 0) in
      let* (amt, tenths, rounding, buf, p) := small_amount l opts style amt tenths rounding buf p in
      Ok (amt, tenths, rounding, exponent, buf, p)
    else Ok (amt, tenths, rounding, 0, buf, p)
  else Ok (amt, tenths, rounding, -1, buf, p).

(** The rounding of the integer, with the step to the next unit. *)
Definition round_amount (l : lconv) (opts style base amt tenths rounding exponent : Z) (buf : list Z) (p : Z)
    : res (Z * Z * list Z * Z) :=
  if amount_up style amt tenths rounding then
    let amt := u64 (amt + 1) in
    if has opts human_autoscale && (amt =? base) && (exponent <? exponent_max) then
      let* (buf, p) :=
        if negb (has opts human_suppress_point_zero) then put_tenths l (ch "0") buf p else Ok (buf, p) in
      Ok (1, exponent + 1, buf, p)
    else Ok (amt, exponent, buf, p)
  else Ok (amt, exponent, buf, p).

(** group_number: one group, from the right. *)
Definition group_turn (sep number : list Z) (st : list Z * Z * Z * Z * list Z)
    : res (list Z * Z * Z * Z * list Z + list Z * Z) :=
  let '(grouping, grouplen, i, d, buf) := st in
  let g := match grouping with g :: _ => g | [] => 0 end in
  let '(grouplen, grouping) :=
    if negb (g =? 0) then (if g <? 127 then g else i, tail grouping) else (grouplen, grouping) in
  let grouplen := if i <? grouplen then i else grouplen in
  let d := d - grouplen in
  let i := i - grouplen in
  let* buf := memcpy buf d (take (Z.to_nat grouplen) (drop (Z.to_nat i) number)) in
  if i =? 0 then Ok (inr (buf, d))
  else
    let d := d - zlen sep in
    let* buf := memcpy buf d sep in
    Ok (inl (grouping, grouplen, i, d, buf)).

(** The number stands at [p] and has [numberlen] digits. *)
Definition group_number (l : lconv) (buf : list Z) (p numberlen : Z) : res (list Z * Z) :=
  let number := take (Z.to_nat numberlen) (drop (Z.to_nat p) buf) in
  loop (S (Z.to_nat numberlen)) (group_turn (thousands_sep l) number)
    (grouping l, 18446744073709551615, numberlen, p + numberlen, buf).

(** The exponent of to_block_size. *)
Definition power_turn (base to_block_size : Z) (st : Z * Z) : res (Z * Z + Z) :=
  let '(power, exponent) := st in
  if power <? to_block_size then
    let exponent := exponent + 1 in
    if exponent =? exponent_max then Ok (inr exponent) else Ok (inl (u64 (power * base), exponent))
  else Ok (inr exponent).

(** The suffix, from psuffix on. *)
Definition put_suffix (opts base exponent to_block_size : Z) (buf : list Z) (psuffix : Z) : res (list Z * Z) :=
  if has opts human_SI then
    let* exponent :=
      if exponent <? 0 then loop 10 (power_turn base to_block_size) (1, 0) else Ok exponent in
    let* (buf, psuffix) :=
      if negb (Z.lor exponent (Z.land opts human_B) =? 0) && has opts human_space_before_unit then
        let* buf := wr buf psuffix (ch " ") in Ok (buf, psuffix + 1)
      else Ok (buf, psuffix) in
    let* (buf, psuffix) :=
      if negb (exponent =? 0) then
        let* c := if negb (has opts human_base_1024) && (exponent =? 1) then Ok (ch "k") else rd power_letter exponent in
        let* buf := wr buf psuffix c in Ok (buf, psuffix + 1)
      else Ok (buf, psuffix) in
    if has opts human_B then
      let* (buf, psuffix) :=
        if has opts human_base_1024 && negb (exponent =? 0) then
          let* buf := wr buf psuffix (ch "i") in Ok (buf, psuffix + 1)
        else Ok (buf, psuffix) in
      let* buf := wr buf psuffix (ch "B") in Ok (buf, psuffix + 1)
    else Ok (buf, psuffix)
  else Ok (buf, psuffix).

(** The digits of [amt] before [p], their groups, the suffix and the terminator. *)
Definition write_number (l : lconv) (opts base exponent to_block_size amt : Z) (buf : list Z) (p psuffix : Z)
    : res (option (list Z * Z)) :=
  let integerlim := p in
  let* (buf, p) := loop 20 digit_turn (amt, p, buf) in
  let* (buf, p) := if has opts human_group_digits then group_number l buf p (integerlim - p) else Ok (buf, p) in
  let* (buf, psuffix) := put_suffix opts base exponent to_block_size buf psuffix in
  let* buf := wr buf psuffix 0 in
  Ok (Some (buf, p)).

(** What is used of the locale. *)
Definition usable_locale (l : lconv) : lconv :=
  Locale (if (0 <? zlen (decimal_point l)) && (zlen (decimal_point l) <=? MB_LEN_MAX) then decimal_point l else [ch "."])
    (grouping l) (if zlen (thousands_sep l) <=? MB_LEN_MAX then thousands_sep l else []).

Definition style_mask : Z := Z.lor human_round_to_nearest (Z.lor human_floor human_ceiling).

Definition base_of (opts : Z) : Z := if has opts human_base_1024 then 1024 else 1000.

(** The buffer and the index of the string in it. *)
Definition human_readable (l : lconv) (n : Z) (buf : list Z) (opts from_block_size to_block_size : Z)
    : res (option (list Z * Z)) :=
  let style := Z.land opts style_mask in
  let base := base_of opts in
  let l := usable_locale l in
  let psuffix := LONGEST_HUMAN_READABLE - HUMAN_READABLE_SUFFIX_LENGTH_MAX in
  let* units := to_units n from_block_size to_block_size in
  match units with
  | None => Ok None
  | Some (amt, tenths, rounding) =>
      let* (amt, tenths, rounding, exponent, buf, p) := autoscale l opts style base amt tenths rounding buf psuffix in
      let* (amt, exponent, buf, p) := round_amount l opts style base amt tenths rounding exponent buf p in
      write_number l opts base exponent to_block_size amt buf p psuffix
  end.

(** The string at an index of a buffer. *)
Definition string_at (buf : list Z) (p : Z) : list Z :=
  let s := drop (Z.to_nat p) buf in take (Z.to_nat (match strlen_from s with Ok n => n | Fail _ => 0 end)) s.

Definition C_locale : lconv := Locale [ch "."] [] [].

(** What is printed. *)
Definition human (n opts from to : Z) : option (list Z) :=
  match human_readable C_locale n (replicate 652 0) opts from to with
  | Ok (Some (buf, p)) => Some (string_at buf p)
  | _ => None
  end.

(** ** The scaled value *)

(** Where a remainder lies in the interval between two tenths: at its start, in
    its first half, at its middle, in its second half. *)
Definition rclass (rem den : Z) : Z :=
  if rem =? 0 then 0 else if 2 * rem <? den then 1 else if 2 * rem =? den then 2 else 3.

(** [amt], [tenths] and [rounding] stand for [num / den]. *)
Definition encodes (num den amt tenths rounding : Z) : Prop :=
  0 < den /\ 0 <= amt /\ 0 <= tenths < 10 /\
  exists rem, 10 * num = (10 * amt + tenths) * den + rem /\ 0 <= rem < den /\ rounding = rclass rem den.

(** Case analysis on every comparison of the goal. *)
Ltac tests :=
  repeat match goal with
  | |- context [?x =? ?y] => destruct (Z.eqb_spec x y)
  | |- context [?x <? ?y] => destruct (Z.ltb_spec x y)
  end.

Lemma rclass_scale k rem den : 0 < k -> rclass (k * rem) (k * den) = rclass rem den.
Proof.
  intros Hk. unfold rclass. destruct (Z.eqb_spec rem 0), (Z.eqb_spec (k * rem) 0); try nia.
  destruct (Z.ltb_spec (2 * rem) den), (Z.ltb_spec (2 * (k * rem)) (k * den)); try nia.
  destruct (Z.eqb_spec (2 * rem) den), (Z.eqb_spec (2 * (k * rem)) (k * den)); nia.
Qed.

Lemma rclass_pos rem den : rem <> 0 -> 0 < rclass rem den.
Proof. intros Hr. unfold rclass. tests; lia. Qed.

Lemma encodes_scale k num den amt tenths rounding :
  0 < k -> encodes num den amt tenths rounding -> encodes (k * num) (k * den) amt tenths rounding.
Proof.
  intros Hk (Hd & Ha & Ht & rem & E & Hr & ->). split_and!; [nia|lia|lia|lia|]. exists (k * rem).
  split_and!; [nia|nia|nia|]. by rewrite rclass_scale.
Qed.

(** The division by the base keeps the value. *)
Lemma encodes_step base num den amt tenths rounding :
  base = 1000 \/ base = 1024 -> encodes num den amt tenths rounding ->
  let r10 := amt mod base * 10 + tenths in
  let r2 := r10 mod base * 2 + Z.shiftr rounding 1 in
  encodes num (den * base) (amt / base) (r10 / base)
    (if r2 <? base then b2z (negb (r2 + rounding =? 0)) else 2 + b2z (base <? r2 + rounding)).
Proof.
  intros Hb (Hd & Ha & Ht & rem & E & Hr & Hc) r10 r2. assert (0 < base /\ exists h, base = 2 * h) as [Hb0 [h Hh]].
  { destruct Hb as [->| ->]; split; [lia|by exists 500|lia|by exists 512]. }
  pose proof (Z.div_mod amt base ltac:(lia)) as E1. pose proof (Z.mod_pos_bound amt base Hb0) as H1.
  pose proof (Z.div_mod r10 base ltac:(lia)) as E2. pose proof (Z.mod_pos_bound r10 base Hb0) as H2.
  assert (0 <= r10 < 10 * base) by (unfold r10; lia).
  split_and!; [nia|apply Z.div_pos; lia|apply Z.div_pos; lia|apply Z.div_lt_upper_bound; lia|].
  exists (r10 mod base * den + rem). set (m := r10 mod base) in *. set (q := r10 / base) in *. set (a := amt / base) in *.
  split_and!; [unfold r10 in E2; nia|nia|nia|].
  assert (Z.shiftr rounding 1 = b2z (den <=? 2 * rem)) as Hs.
  { rewrite Hc. unfold rclass. destruct (Z.eqb_spec rem 0), (Z.leb_spec den (2 * rem)), (Z.ltb_spec (2 * rem) den), (Z.eqb_spec (2 * rem) den); done || lia. }
  unfold r2. rewrite Hs. clear E E1 E2 Hs r2. clearbody m q a. unfold rclass in *.
  destruct (Z.leb_spec den (2 * rem)); cbn [b2z].
  - assert (rem <> 0) by lia. destruct (Z.eqb_spec rem 0); [lia|]. destruct (Z.ltb_spec (2 * rem) den); [lia|].
    assert (2 <= rounding) by (destruct (Z.eqb_spec (2 * rem) den); lia).
    destruct (Z.eqb_spec (m * den + rem) 0); [nia|]. destruct (Z.ltb_spec (m * 2 + 1) base).
    + destruct (Z.ltb_spec (2 * (m * den + rem)) (den * base)); [|nia]. destruct (Z.eqb_spec (m * 2 + 1 + rounding) 0); [lia|done].
    + destruct (Z.ltb_spec (2 * (m * den + rem)) (den * base)); [nia|]. destruct (Z.eqb_spec (2 * (m * den + rem)) (den * base)); [nia|].
      destruct (Z.ltb_spec base (m * 2 + 1 + rounding)); [done|lia].
  - assert (rounding = if rem =? 0 then 0 else 1) as Hr1.
    { rewrite Hc. destruct (Z.eqb_spec rem 0); [done|]. destruct (Z.ltb_spec (2 * rem) den); [done|lia]. }
    clear Hc. subst rounding. destruct (Z.ltb_spec (m * 2 + 0) base).
    + destruct (Z.ltb_spec (2 * (m * den + rem)) (den * base)); [|nia].
      destruct (decide (m = 0)) as [->|], (Z.eqb_spec rem 0); tests; cbn [negb b2z]; nia.
    + destruct (Z.eqb_spec (m * den + rem) 0); [nia|]. destruct (Z.ltb_spec (2 * (m * den + rem)) (den * base)); [nia|].
      destruct (decide (m * 2 = base)) as [Em|], (Z.eqb_spec rem 0); tests; cbn [negb b2z]; nia.
Qed.

(** [a] is [num / den] rounded in the given style; ties go to the even
    neighbour. *)
Definition rounds (style num den a : Z) : Prop :=
  if style =? human_round_to_nearest then 2 * Z.abs (num - a * den) <= den /\ (2 * Z.abs (num - a * den) = den -> Z.even a = true)
  else if style =? human_ceiling then (a - 1) * den < num <= a * den
  else a * den <= num < (a + 1) * den.

Lemma land_1 a : Z.land a 1 = b2z (negb (Z.even a)).
Proof.
  change 1 with (Z.ones 1) at 1. rewrite Z.land_ones by lia. change (2 ^ 1) with 2. rewrite Zmod_even. by destruct (Z.even a).
Qed.

Lemma even_succ a : Z.even (a + 1) = negb (Z.even a).
Proof. rewrite Z.even_add. by destruct (Z.even a). Qed.

(** The linear facts about [num / den] that decide the rounding. *)
Lemma encodes_linear num den amt tenths rounding :
  encodes num den amt tenths rounding ->
  exists d rem, num = amt * den + d /\ 0 <= rem < den /\ rounding = rclass rem den /\
    (10 * d = tenths * den + rem) /\ 0 <= d < den.
Proof.
  intros (Hd & Ha & Ht & rem & E & Hr & Hc). exists (num - amt * den), rem. split_and!; try lia; nia.
Qed.

Lemma nearest_rounds num den amt d (up : bool) :
  num = amt * den + d -> 0 <= d < den ->
  (up = true <-> den < 2 * d \/ (2 * d = den /\ Z.even amt = false)) -> rounds human_round_to_nearest num den (amt + b2z up).
Proof.
  intros -> Hd Hup. unfold rounds. cbn [Z.eqb human_round_to_nearest].
  destruct up; cbn [b2z].
  - replace (amt * den + d - (amt + 1) * den) with (d - den) by lia. destruct Hup as [Hup _]. specialize (Hup eq_refl).
    split; [lia|]. intros E. destruct Hup as [Hup|[_ He]]; [lia|]. by rewrite even_succ, He.
  - rewrite Z.add_0_r. replace (amt * den + d - amt * den) with d by lia.
    assert (~ (den < 2 * d \/ (2 * d = den /\ Z.even amt = false))) as Hn by (intros H; by apply Hup in H).
    split; [lia|]. intros E. destruct (Z.even amt); [done|]. exfalso. apply Hn. right. split; [lia|done].
Qed.

Lemma amount_rounds style num den amt tenths rounding :
  encodes num den amt tenths rounding -> rounds style num den (amt + b2z (amount_up style amt tenths rounding)).
Proof.
  intros He. pose proof He as (Hd & Ha & Ht & _). destruct (encodes_linear _ _ _ _ _ He) as (d & rem & E & Hr & -> & E10 & Hdd). clear He.
  unfold amount_up. destruct (Z.eqb_spec style human_round_to_nearest) as [->|Hs].
  - apply (nearest_rounds _ _ _ d); [done|done|]. rewrite land_1.
    assert (tenths <= 4 \/ tenths = 5 \/ 6 <= tenths) as [Ht'|[->|Ht']] by lia.
    + assert (10 * d < 5 * den) by nia. rewrite Z.ltb_lt. split; [|lia]. destruct (0 <? _); cbn [b2z]; lia.
    + rewrite Z.ltb_lt. destruct (decide (rem = 0)) as [->|].
      * destruct (Z.even amt); cbn [rclass Z.eqb negb b2z Z.add Z.ltb Z.compare].
        -- split; [done|]. intros [?|[_ ?]]; [lia|done].
        -- split; [|done]. intros _. right. split; [lia|done].
      * split; [intros _; left; lia|]. intros _. pose proof (rclass_pos rem den n).
        rewrite (proj2 (Z.ltb_lt 0 _)) by (destruct (Z.even amt); cbn [negb b2z]; lia). cbn [b2z]. lia.
    + assert (6 * den <= 10 * d) by nia. rewrite Z.ltb_lt. split; [lia|]. intros _. destruct (0 <? _); cbn [b2z]; lia.
  - unfold rounds. rewrite (proj2 (Z.eqb_neq _ _) Hs). destruct (Z.eqb_spec style human_ceiling) as [_|_]; cbn [andb b2z]; [|nia].
    destruct (decide (d = 0)) as [->|].
    + assert (tenths = 0) as -> by nia. assert (rem = 0) as -> by lia. change (0 <? 0 + rclass 0 den) with false. cbn [b2z]. nia.
    + assert (0 < tenths + rclass rem den) as Hpos.
      { destruct (decide (rem = 0)) as [->|Hr0]; [|pose proof (rclass_pos rem den Hr0); lia]. assert (tenths <> 0) by (intros ->; lia).
        change (rclass 0 den) with 0. lia. }
      rewrite (proj2 (Z.ltb_lt _ _) Hpos). cbn [b2z]. lia.
Qed.

Lemma tenths_rounds style num den amt tenths rounding :
  encodes num den amt tenths rounding ->
  rounds style (10 * num) den (10 * amt + tenths + b2z (tenths_up style tenths rounding)).
Proof.
  intros (Hd & Ha & Ht & rem & E & Hr & ->). set (a := 10 * amt + tenths) in *.
  assert (Z.even a = Z.even tenths) as Ea. { unfold a. rewrite Z.even_add, Z.even_mul. by destruct (Z.even tenths). }
  unfold tenths_up. destruct (Z.eqb_spec style human_round_to_nearest) as [->|Hs].
  - apply (nearest_rounds _ _ _ rem); [done|done|]. rewrite land_1, <- Ea. unfold rclass. rewrite Z.ltb_lt.
    destruct (Z.even a); cbn [negb b2z]; tests; intuition (try lia; try done).
  - unfold rounds. rewrite (proj2 (Z.eqb_neq _ _) Hs). destruct (Z.eqb_spec style human_ceiling) as [_|_]; cbn [andb b2z]; [|nia].
    destruct (decide (rem = 0)) as [->|Hr0]; [change (0 <? rclass 0 den) with false; cbn [b2z]; nia|].
    rewrite (proj2 (Z.ltb_lt _ _) (rclass_pos rem den Hr0)). cbn [b2z]. lia.
Qed.

(** ** From blocks to units *)

(** The block sizes for which integers are enough. *)
Definition exact_units (n from to : Z) : Prop :=
  0 <= n < 2 ^ 64 /\ 0 < from /\ 0 < to /\
  ((exists k, from = k * to /\ n * k < 2 ^ 64) \/ (exists k, to = k * from /\ 10 * k <= 2 ^ 64)).

(** Amounts that fit their type, also when they are rounded up. *)
Definition fits (amt tenths rounding : Z) : Prop :=
  0 <= amt < 2 ^ 64 /\ (amt = 2 ^ 64 - 1 -> tenths = 0 /\ rounding = 0).

Lemma to_units_ok n from to :
  exact_units n from to ->
  exists amt tenths rounding, to_units n from to = Ok (Some (amt, tenths, rounding)) /\
    encodes (n * from) to amt tenths rounding /\ fits amt tenths rounding.
Proof.
  intros (Hn & Hf & Ht & Hk). unfold to_units, demand. rewrite (proj2 (Z.eqb_neq to 0)) by lia. cbn [negb bind].
  assert (forall k, 0 < k -> from = k * to -> n * k < 2 ^ 64 ->
    from mod to = 0 /\ from / to = k /\ u64 (n * k) = n * k /\ n * k / k = n) as HA.
  { intros k Hk0 -> Hnk. rewrite Z.mod_mul, Z.div_mul by lia. unfold u64. rewrite Z.mod_small by nia. by rewrite Z.div_mul by lia. }
  destruct (Z.leb_spec to from) as [Hle|Hlt].
  - assert (exists k, 0 < k /\ from = k * to /\ n * k < 2 ^ 64) as (k & Hk0 & E & Hnk).
    { destruct Hk as [(k & E & Hnk)|(k & E & _)]; [exists k; split_and!; [nia|done|done]|]. exists 1. assert (k = 1) by nia. subst k. lia. }
    destruct (HA k Hk0 E Hnk) as (-> & -> & -> & ->). rewrite !Z.eqb_refl. eexists _, _, _. split; [done|]. split; [|split; [nia|done]].
    split_and!; [lia|nia|lia|lia|]. exists 0. split_and!; [nia|lia|lia|done].
  - destruct Hk as [(k & E & _)|(k & E & Hk10)]; [exfalso; destruct (decide (k <= 0)); nia|].
    assert (1 < k) by (destruct (decide (k <= 0)); nia).
    rewrite (proj2 (Z.eqb_neq from 0)) by lia. subst to. rewrite Z.mod_mul, Z.div_mul by lia. cbn [negb andb Z.eqb].
    pose proof (Z.div_mod n k ltac:(lia)) as E1. pose proof (Z.mod_pos_bound n k ltac:(lia)) as H1.
    unfold u64. rewrite (Z.mod_small (n mod k * 10)) by lia. set (r10 := n mod k * 10) in *.
    pose proof (Z.div_mod r10 k ltac:(lia)) as E2. pose proof (Z.mod_pos_bound r10 k ltac:(lia)) as H2.
    rewrite (Z.mod_small (r10 mod k * 2)) by lia. eexists _, _, _. split; [done|].
    assert (0 <= n / k < 2 ^ 63) as Ha. { split; [apply Z.div_pos; lia|]. apply Z.div_lt_upper_bound; [lia|]. nia. }
    split; [|split; [lia|lia]]. replace (n * from) with (from * n) by lia. replace (k * from) with (from * k) by lia. apply encodes_scale; [done|].
    split_and!; [lia|lia|apply Z.div_pos; lia|apply Z.div_lt_upper_bound; lia|]. exists (r10 mod k). split_and!; [unfold r10 in *; nia|lia|lia|].
    unfold rclass. tests; cbn [b2z]; lia.
Qed.

(** ** Scaling *)

Definition base_ok (base : Z) : Prop := base = 1000 \/ base = 1024.

Lemma scale_loop base num den : base_ok base -> forall fuel amt tenths rounding e,
  encodes num (den * base ^ e) amt tenths rounding -> base <= amt < 2 ^ 64 -> 0 <= e < 8 -> 8 - e <= Z.of_nat fuel ->
  exists amt' tenths' rounding' e', loop fuel (scale_turn base) (amt, tenths, rounding, e) = Ok (amt', tenths', rounding', e') /\
    encodes num (den * base ^ e') amt' tenths' rounding' /\ 1 <= amt' < 2 ^ 63 /\ 0 < e' <= 8 /\ (amt' < base \/ e' = 8).
Proof.
  intros Hb. assert (1000 <= base <= 1024) as Hbb by (destruct Hb as [->| ->]; lia).
  induction fuel as [|fuel IH]; intros amt tenths rounding e He Ha Hr Hf; [lia|]. cbn [loop]. unfold scale_turn at 1.
  pose proof He as (_ & _ & Ht & rem & _ & _ & Hc). assert (0 <= rounding <= 3) as Hrd by (subst rounding; unfold rclass; tests; lia).
  pose proof (Z.mod_pos_bound amt base ltac:(lia)) as H1. unfold u32. rewrite (Z.mod_small (amt mod base * 10 + tenths)) by lia.
  pose proof (Z.mod_pos_bound (amt mod base * 10 + tenths) base ltac:(lia)) as H2.
  assert (0 <= Z.shiftr rounding 1 <= 1) as Hsh.
  { rewrite Z.shiftr_div_pow2 by lia. change (2 ^ 1) with 2. split; [apply Z.div_pos; lia|]. apply Z.lt_succ_r, Z.div_lt_upper_bound; lia. }
  rewrite (Z.mod_small ((amt mod base * 10 + tenths) mod base * 2 + Z.shiftr rounding 1)) by lia.
  pose proof (encodes_step base num (den * base ^ e) amt tenths rounding Hb He) as Hn. cbv zeta in Hn.
  replace (den * base ^ e * base) with (den * base ^ (e + 1)) in Hn by (rewrite Z.pow_add_r by lia; lia).
  assert (1 <= amt / base < 2 ^ 63) as Hd.
  { split; [apply Z.div_le_lower_bound; lia|]. apply Z.div_lt_upper_bound; [lia|]. clear - Ha Hbb. nia. }
  change exponent_max with 8. destruct (Z.leb_spec base (amt / base)), (Z.ltb_spec (e + 1) 8); cbn [andb bind].
  - apply IH; [done|lia|lia|lia].
  - eexists _, _, _, _. split; [done|]. split; [exact Hn|]. lia.
  - eexists _, _, _, _. split; [done|]. split; [exact Hn|]. lia.
  - eexists _, _, _, _. split; [done|]. split; [exact Hn|]. lia.
Qed.

(** ** Writing *)

Lemma memcpy_ok s : forall pre old post, length old = length s -> memcpy (pre ++ old ++ post) (zlen pre) s = Ok (pre ++ s ++ post).
Proof.
  induction s as [|c s IH]; intros pre [|o old] post Hl; try done. cbn [memcpy app]. rewrite wr_middle by done. cbn [bind].
  rewrite <- (zlen_snoc c pre). replace (pre ++ c :: old ++ post) with ((pre ++ [c]) ++ old ++ post) by by rewrite <- app_assoc.
  rewrite IH by (simpl in Hl; lia). by rewrite <- app_assoc.
Qed.

Definition show_point (l : lconv) (pt : option Z) : list Z :=
  match pt with Some t => decimal_point l ++ [ch "0" + t] | None => [] end.

Lemma zlen_show_point l pt : zlen (show_point l pt) = match pt with Some _ => zlen (decimal_point l) + 1 | None => 0 end.
Proof. destruct pt; [apply zlen_snoc|done]. Qed.

Lemma put_tenths_ok l t junk rest :
  zlen (decimal_point l) < zlen junk ->
  exists junk', put_tenths l (ch "0" + t) (junk ++ rest) (zlen junk) = Ok (junk' ++ show_point l (Some t) ++ rest, zlen junk') /\
    zlen junk' + zlen (show_point l (Some t)) = zlen junk.
Proof.
  intros Hl. unfold put_tenths. pose proof (zlen_nonneg (decimal_point l)).
  destruct (exists_last_or junk) as [->|(j & x & ->)]; [change (zlen []) with 0 in Hl; lia|]. rewrite zlen_snoc in *. rewrite <- app_assoc. cbn [app].
  rewrite wr_middle by lia. cbn [bind]. set (n := Z.to_nat (zlen j - zlen (decimal_point l))).
  assert (j = take n j ++ drop n j) as Ej by (symmetry; apply take_drop).
  assert (zlen (take n j) = zlen j - zlen (decimal_point l)) as Ht by (unfold n; clear Ej n; unfold zlen in *; rewrite length_take; lia).
  exists (take n j). replace (zlen j + 1 - 1 - zlen (decimal_point l)) with (zlen (take n j)) by lia.
  rewrite Ej at 1. rewrite <- app_assoc. rewrite memcpy_ok by (unfold n; clear Ej Ht n; unfold zlen in *; rewrite length_drop; lia). cbn [bind].
  split; [|rewrite zlen_show_point; lia]. cbn [show_point]. rewrite <- app_assoc. done.
Qed.

(** [lia] with the length of what is shown. *)
Ltac szlia := rewrite ?zlen_show_point in *; lia.

(** ** What is shown *)

(** The integer and the tenth that are printed for the power [e] of the base,
    correctly rounded in the given style: to units, to tenths, or to units that
    make one of the next power. *)
Inductive shown (style num den base : Z) : Z -> Z -> option Z -> Prop :=
| shown_units e a : rounds style num (den * base ^ e) a -> shown style num den base e a None
| shown_tenths e a t : 0 <= t < 10 -> a < 10 -> rounds style (10 * num) (den * base ^ e) (10 * a + t) -> shown style num den base e a (Some t)
| shown_whole e a : rounds style (10 * num) (den * base ^ e) (10 * a) -> shown style num den base e a None
| shown_next e pt : rounds style num (den * base ^ e) base -> pt = Some 0 \/ pt = None -> shown style num den base (e + 1) 1 pt.

(** After the automatic scaling: a value still to be rounded, or one that is
    already shown. *)
Definition scaled (style num den base e amt tenths rounding : Z) (pt : option Z) : Prop :=
  (pt = None /\ encodes num (den * base ^ e) amt tenths rounding /\ fits amt tenths rounding) \/
  (shown style num den base e amt pt /\ amount_up style amt tenths rounding = false /\ 0 <= amt <= 10).

Lemma small_amount_ok l opts style base num den e amt tenths rounding junk rest :
  encodes num (den * base ^ e) amt tenths rounding -> amt < 2 ^ 63 -> zlen (decimal_point l) < zlen junk ->
  (style = human_ceiling \/ style = human_round_to_nearest \/ style = human_floor) ->
  exists amt' tenths' rounding' pt junk',
    small_amount l opts style amt tenths rounding (junk ++ rest) (zlen junk) =
      Ok (amt', tenths', rounding', junk' ++ show_point l pt ++ rest, zlen junk') /\
    scaled style num den base e amt' tenths' rounding' pt /\
    zlen junk' + zlen (show_point l pt) = zlen junk /\ amt <= amt' <= Z.max amt 10.
Proof.
  intros He Hmax Hl Hs. pose proof (zlen_nonneg (decimal_point l)). pose proof He as (_ & Ha & Ht & _).
  unfold small_amount. destruct (Z.ltb_spec amt 10) as [H10|H10].
  2:{ exists amt, tenths, rounding, None, junk. split; [done|]. split; [|szlia]. left. split_and!; [done|done|]. split; szlia. }
  pose proof (tenths_rounds style _ _ _ _ _ He) as Htr.
  set (st := if tenths_up style tenths rounding then _ else _).
  assert (exists a t r, st = (a, t, r) /\ 0 <= t < 10 /\ 0 <= a <= 10 /\ (a = 10 -> t = 0) /\ amt <= a /\
    rounds style (10 * num) (den * base ^ e) (10 * a + t) /\ (t = 0 -> amount_up style a 0 r = false)) as (a & t & r & -> & Ht' & Ha' & Ha10 & Haa & Hr & Hup).
  { unfold st. destruct (tenths_up style tenths rounding) eqn:Eu; cbn [b2z] in Htr.
    - destruct (Z.eqb_spec (tenths + 1) 10) as [E|E]; eexists _, _, _; (split; [done|]); split_and!; try szlia.
      + by replace (10 * (amt + 1) + 0) with (10 * amt + tenths + 1) by szlia.
      + intros _. unfold amount_up. destruct Hs as [->|[->| ->]]; cbn; by destruct (Z.land (amt + 1) 1).
      + by replace (10 * amt + (tenths + 1)) with (10 * amt + tenths + 1) by szlia.
    - eexists _, _, _. split; [done|]. rewrite Z.add_0_r in Htr. split_and!; try szlia; [done|]. intros ->.
      unfold amount_up, tenths_up in *. destruct Hs as [->|[->| ->]]; cbn in *; [done| |done]. destruct (0 <? rounding + Z.land amt 1); done. }
  destruct (Z.ltb_spec a 10) as [Hlt|]; cbn [andb]; [destruct (negb (t =? 0) || negb (has opts human_suppress_point_zero)) eqn:Ep|].
  - destruct (put_tenths_ok l t junk rest Hl) as (junk' & -> & Hj). cbn [bind]. exists a, 0, 0, (Some t), junk'. split; [done|]. split; [|szlia].
    right. split_and!; [by apply shown_tenths; [szlia|szlia|]| |szlia|szlia]. unfold amount_up. destruct Hs as [->|[->| ->]]; cbn; try done. by destruct (Z.land a 1).
  - apply orb_false_iff in Ep as [Ep _]. apply negb_false_iff, Z.eqb_eq in Ep as ->. exists a, 0, r, None, junk. split; [done|]. split; [|szlia].
    right. split_and!; [|by apply Hup|szlia|szlia]. apply shown_whole. by rewrite Z.add_0_r in Hr.
  - assert (a = 10) as -> by szlia. rewrite (Ha10 eq_refl) in *. exists 10, 0, r, None, junk. split; [done|]. split; [|szlia].
    right. split_and!; [|by apply Hup|szlia|szlia]. apply shown_whole. by rewrite Z.add_0_r in Hr.
Qed.

Lemma autoscale_ok l opts style base num den amt tenths rounding junk rest :
  base_ok base -> encodes num den amt tenths rounding -> fits amt tenths rounding -> zlen (decimal_point l) < zlen junk ->
  (style = human_ceiling \/ style = human_round_to_nearest \/ style = human_floor) ->
  exists amt' tenths' rounding' e pt junk',
    autoscale l opts style base amt tenths rounding (junk ++ rest) (zlen junk) =
      Ok (amt', tenths', rounding', (if has opts human_autoscale then e else -1), junk' ++ show_point l pt ++ rest, zlen junk') /\
    scaled style num den base e amt' tenths' rounding' pt /\
    zlen junk' + zlen (show_point l pt) = zlen junk /\ 0 <= e <= 8 /\ (0 < e -> 1 <= amt') /\
    (if has opts human_autoscale then amt' < base \/ e = 8 else e = 0 /\ pt = None).
Proof.
  intros Hb He Hf Hl Hs. pose proof (zlen_nonneg (decimal_point l)). pose proof Hf as [Ha _]. unfold autoscale.
  assert (encodes num (den * base ^ 0) amt tenths rounding) as He0 by (by rewrite Z.mul_1_r).
  assert (base = 1000 \/ base = 1024) as Hbb by exact Hb.
  destruct (has opts human_autoscale); [destruct (Z.leb_spec base amt)|].
  - destruct (scale_loop base num den Hb 9 amt tenths rounding 0 He0) as (a & t & r & e & -> & He' & Ha' & Hr & Hu); [szlia|szlia|szlia|]. cbn [bind].
    destruct (small_amount_ok l opts style base num den e a t r junk rest) as (a' & t' & r' & pt & junk' & -> & Hsc & Hj & Ha2); [done|szlia|done|done|].
    cbn [bind]. exists a', t', r', e, pt, junk'. split_and!; try done; szlia.
  - exists amt, tenths, rounding, 0, None, junk. split_and!; [done|by left|szlia|szlia|szlia|szlia|szlia].
  - exists amt, tenths, rounding, 0, None, junk. split_and!; [done|by left|szlia|szlia|szlia|szlia|szlia|done].
Qed.

Lemma round_amount_ok l opts style base num den e amt tenths rounding pt junk rest :
  base_ok base -> scaled style num den base e amt tenths rounding pt -> zlen (decimal_point l) < zlen junk ->
  0 <= e <= 8 -> (0 < e -> 1 <= amt) -> (if has opts human_autoscale then amt < base \/ e = 8 else e = 0 /\ pt = None) ->
  exists amt' e' pt' junk',
    round_amount l opts style base amt tenths rounding (if has opts human_autoscale then e else -1) (junk ++ show_point l pt ++ rest) (zlen junk) =
      Ok (amt', (if has opts human_autoscale then e' else -1), junk' ++ show_point l pt' ++ rest, zlen junk') /\
    shown style num den base e' amt' pt' /\ 0 <= amt' < 2 ^ 64 /\
    zlen junk' + zlen (show_point l pt') = zlen junk + zlen (show_point l pt) /\ 0 <= e' <= 8 /\ (0 < e' -> 1 <= amt') /\
    (if has opts human_autoscale then amt' < base \/ e' = 8 else e' = 0 /\ pt' = None).
Proof.
  intros Hb Hsc Hl Hr Hpos Hu. pose proof (zlen_nonneg (decimal_point l)). unfold round_amount. change exponent_max with 8.
  assert (base = 1000 \/ base = 1024) as Hbb by exact Hb.
  destruct Hsc as [(-> & He & Ha & Hmax)|(Hsh & -> & Ha)].
  2:{ exists amt, e, pt, junk. split_and!; try done; szlia. }
  pose proof (amount_rounds style _ _ _ _ _ He) as Hro. destruct (amount_up style amt tenths rounding) eqn:Eu; cbn [b2z] in Hro.
  2:{ rewrite Z.add_0_r in Hro. exists amt, e, None, junk. split_and!; try done; try szlia. by apply shown_units. }
  assert (amt <> 2 ^ 64 - 1) as Hne.
  { intros E. destruct (Hmax E) as [-> ->]. revert Eu. unfold amount_up. destruct (style =? human_round_to_nearest); [destruct (0 <? 0 + Z.land amt 1); done|].
    by destruct (style =? human_ceiling). }
  unfold u64. rewrite Z.mod_small by szlia. destruct (has opts human_autoscale); cbn [andb].
  2:{ exists (amt + 1), e, None, junk. split_and!; try done; try szlia. by apply shown_units. }
  destruct (Z.eqb_spec (amt + 1) base) as [Eb|Eb], (Z.ltb_spec e 8); cbn [andb];
    try (exists (amt + 1), e, None, junk; split_and!; try done; try szlia; by apply shown_units).
  rewrite Eb in Hro. destruct (has opts human_suppress_point_zero); cbn [negb bind].
  - exists 1, (e + 1), None, junk. split_and!; try done; try szlia. apply shown_next; [done|by right].
  - change (ch "0") with (ch "0" + 0). change (show_point l None ++ rest) with rest. destruct (put_tenths_ok l 0 junk rest Hl) as (junk' & -> & Hj). cbn [bind].
    exists 1, (e + 1), (Some 0), junk'. split_and!; try done; try szlia. apply shown_next; [done|by left].
Qed.

(** ** The suffix *)

(** The unit letters for a power of the base. *)
Definition unit_suffix (opts e : Z) : list Z :=
  if has opts human_SI then
    (if (negb (e =? 0) || has opts human_B) && has opts human_space_before_unit then [ch " "] else []) ++
    (if negb (e =? 0) then [if negb (has opts human_base_1024) && (e =? 1) then ch "k" else power_letter.[e]] else []) ++
    (if has opts human_B then (if has opts human_base_1024 && negb (e =? 0) then [ch "i"] else []) ++ [ch "B"] else [])
  else [].

(** The power of the base that a block size is named after. *)
Definition block_exponent (base to e : Z) : Prop := to <= base ^ e /\ forall k, 0 <= k < e -> base ^ k < to.

Lemma power_loop_ok base to : base_ok base -> to <= base ^ 6 -> forall fuel e,
  0 <= e <= 6 -> (forall k, 0 <= k < e -> base ^ k < to) -> 7 - e <= Z.of_nat fuel ->
  exists e', loop fuel (power_turn base to) (base ^ e, e) = Ok e' /\ 0 <= e' <= 6 /\ block_exponent base to e'.
Proof.
  intros Hb Hto. assert (1000 <= base <= 1024) as Hbb by (destruct Hb as [->| ->]; lia).
  induction fuel as [|fuel IH]; intros e He Hlow Hf; [lia|]. cbn [loop]. unfold power_turn at 1. change exponent_max with 8.
  destruct (Z.ltb_spec (base ^ e) to) as [Hlt|Hge]; cbn [bind].
  - assert (e <> 6) by (intros ->; lia). rewrite (proj2 (Z.eqb_neq (e + 1) 8)) by lia. cbn [bind].
    assert (base ^ e * base = base ^ (e + 1)) as Ep by (rewrite Z.pow_add_r by lia; lia).
    assert (0 <= base ^ (e + 1) < 2 ^ 64).
    { split; [apply Z.pow_nonneg; lia|]. apply Z.le_lt_trans with (1024 ^ 6); [|done].
      transitivity (base ^ 6); [apply Z.pow_le_mono_r; lia|apply Z.pow_le_mono_l; lia]. }
    unfold u64. rewrite Z.mod_small, Ep by lia. apply IH; [lia| |lia].
    intros k Hk. destruct (decide (k = e)) as [->|]; [done|]. apply Hlow. lia.
  - exists e. split_and!; [done|lia|lia|by split].
Qed.

Lemma has_B_lor opts e : 0 <= e -> negb (Z.lor e (Z.land opts human_B) =? 0) = negb (e =? 0) || has opts human_B.
Proof.
  intros He. unfold has. destruct (Z.eqb_spec (Z.lor e (Z.land opts human_B)) 0) as [E|E].
  - apply Z.lor_eq_0_iff in E as [-> ->]. done.
  - destruct (Z.eqb_spec e 0) as [->|]; [|done]. rewrite Z.lor_0_l in E. by rewrite (proj2 (Z.eqb_neq _ _) E).
Qed.

Lemma wr_next (front rest : list Z) c : 0 < zlen rest ->
  exists rest', wr (front ++ rest) (zlen front) c = Ok ((front ++ [c]) ++ rest') /\ zlen rest' = zlen rest - 1.
Proof.
  destruct rest as [|x rest]; [done|]. intros _. exists rest. rewrite zlen_cons. split; [|lia]. rewrite wr_middle by done. by rewrite <- app_assoc.
Qed.

(** A character that is there under a condition. *)
Definition when (b : bool) (c : Z) : list Z := if b then [c] else [].

Lemma zlen_when b c : zlen (when b c) = if b then 1 else 0.
Proof. by destruct b. Qed.

Lemma put_when (b : bool) (front rest : list Z) c : zlen (when b c) <= zlen rest ->
  exists rest', (if b then let* buf := wr (front ++ rest) (zlen front) c in Ok (buf, zlen front + 1) else Ok (front ++ rest, zlen front)) =
    Ok ((front ++ when b c) ++ rest', zlen (front ++ when b c)) /\ zlen rest' = zlen rest - zlen (when b c).
Proof.
  rewrite zlen_when. intros Hb. destruct b; [|exists rest; cbn [when]; rewrite app_nil_r; split; [done|lia]].
  destruct (wr_next front rest c) as (rest' & -> & Hr); [lia|]. exists rest'. split; [|lia]. cbn [bind when]. by rewrite zlen_snoc.
Qed.

Lemma put_suffix_ok opts base e exponent to front rest :
  base_ok base -> 0 <= e <= 8 -> zlen rest = 4 ->
  has opts human_space_before_unit && has opts human_base_1024 && has opts human_B = false ->
  (exponent = e \/ has opts human_SI = false \/ (exponent = -1 /\ loop 10 (power_turn base to) (1, 0) = Ok e)) ->
  exists rest', put_suffix opts base exponent to (front ++ rest) (zlen front) =
      Ok ((front ++ unit_suffix opts e) ++ rest', zlen (front ++ unit_suffix opts e)) /\
    0 < zlen rest' /\ zlen rest' = zlen rest - zlen (unit_suffix opts e).
Proof.
  intros Hb He Hrest Hsp Hx. unfold put_suffix, unit_suffix. destruct (has opts human_SI).
  2:{ exists rest. rewrite app_nil_r. split_and!; [done|lia|change (zlen (@nil Z)) with 0; lia]. }
  assert ((if exponent <? 0 then loop 10 (power_turn base to) (1, 0) else Ok exponent) = Ok e) as ->.
  { destruct Hx as [->|[?|[-> ?]]]; [by rewrite (proj2 (Z.ltb_ge e 0)) by lia|done|done]. }
  clear Hx. cbn [bind]. rewrite has_B_lor by lia.
  set (b1 := (negb (e =? 0) || has opts human_B) && has opts human_space_before_unit). set (b2 := negb (e =? 0)).
  set (b3 := has opts human_base_1024 && b2). set (b4 := has opts human_B).
  set (letter := if negb (has opts human_base_1024) && (e =? 1) then ch "k" else power_letter.[e]).
  assert ((if negb (has opts human_base_1024) && (e =? 1) then Ok (ch "k") else rd power_letter e) = Ok letter) as ->.
  { unfold letter. destruct (negb (has opts human_base_1024) && (e =? 1)); [done|]. apply rd_Ok. change (zlen power_letter) with 9. lia. }
  assert (b1 && b3 && b4 = false) as H134.
  { unfold b1, b3, b4. destruct (has opts human_space_before_unit), (has opts human_base_1024), (has opts human_B); try done; by rewrite ?andb_false_r. }
  change (if b1 then [ch " "] else []) with (when b1 (ch " ")). change (if b2 then [letter] else []) with (when b2 letter).
  change (if b3 then [ch "i"] else []) with (when b3 (ch "i")).
  clearbody b1 b2 b3 b4 letter. clear Hsp He Hb.
  destruct (put_when b1 front rest (ch " ")) as (r1 & -> & H1); [rewrite zlen_when; destruct b1; lia|]. cbn [bind]. rewrite zlen_when in H1.
  destruct (put_when b2 (front ++ when b1 (ch " ")) r1 letter) as (r2 & -> & H2); [rewrite zlen_when; destruct b1, b2; lia|]. cbn [bind]. rewrite zlen_when in H2.
  destruct b4.
  2:{ exists r2. rewrite app_nil_r, <- !app_assoc, !zlen_app, !zlen_when. split_and!; [done|destruct b1, b2; lia|destruct b1, b2; lia]. }
  destruct (put_when b3 ((front ++ when b1 (ch " ")) ++ when b2 letter) r2 (ch "i")) as (r3 & -> & H3); [rewrite zlen_when; destruct b1, b2, b3; lia|].
  cbn [bind]. rewrite zlen_when in H3.
  destruct (wr_next (((front ++ when b1 (ch " ")) ++ when b2 letter) ++ when b3 (ch "i")) r3 (ch "B")) as (r4 & -> & H4); [destruct b1, b2, b3; done || lia|].
  cbn [bind]. exists r4. rewrite <- !app_assoc, !zlen_app, !zlen_when. change (zlen [ch "B"]) with 1.
  split_and!; [do 2 f_equal; lia|destruct b1, b2, b3; done || lia|destruct b1, b2, b3; lia].
Qed.

(** ** The whole *)

(** Without groups in the locale the number stays as it is. *)
Lemma group_number_plain l junk ds post :
  grouping l = [] -> zlen ds < 2 ^ 64 - 1 ->
  group_number l (junk ++ ds ++ post) (zlen junk) (zlen ds) = Ok (junk ++ ds ++ post, zlen junk).
Proof.
  intros Hg Hd. unfold group_number. rewrite Hg.
  assert (take (Z.to_nat (zlen ds)) (drop (Z.to_nat (zlen junk)) (junk ++ ds ++ post)) = ds) as ->.
  { unfold zlen. by rewrite !Nat2Z.id, drop_app_length, take_app_length. }
  cbn [loop]. unfold group_turn at 1. cbn [Z.eqb negb].
  rewrite (proj2 (Z.ltb_lt (zlen ds) 18446744073709551615)) by lia.
  replace (zlen junk + zlen ds - zlen ds) with (zlen junk) by lia. rewrite Z.sub_diag. change (Z.to_nat 0) with 0%nat.
  rewrite drop_0. unfold zlen at 2. rewrite Nat2Z.id, firstn_all. rewrite memcpy_ok by done. done.
Qed.

Lemma string_at_ok junk body rest : nul_free body -> string_at (junk ++ body ++ 0 :: rest) (zlen junk) = body.
Proof.
  intros Hb. unfold string_at. unfold zlen at 1 2. rewrite Nat2Z.id, drop_app_length.
  assert (strlen_from (body ++ 0 :: rest) = Ok (zlen body)) as ->.
  { induction Hb as [|c body Hc _ IH]; [done|]. cbn [app strlen_from]. rewrite (proj2 (Z.eqb_neq c 0) Hc), IH. cbn [bind]. by rewrite zlen_cons. }
  unfold zlen. by rewrite Nat2Z.id, take_app_length.
Qed.

Lemma decimals_nul_free ds : Forall is_decimal ds -> nul_free ds.
Proof. intros H. eapply Forall_impl; [exact H|]. intros c Hc. unfold is_decimal in Hc. lia. Qed.

Lemma unit_suffix_nul_free opts e : 0 <= e <= 8 -> nul_free (unit_suffix opts e).
Proof.
  intros He. assert (power_letter.[e] <> 0 \/ e = 0) as Hl.
  { assert (e = 0 \/ e = 1 \/ e = 2 \/ e = 3 \/ e = 4 \/ e = 5 \/ e = 6 \/ e = 7 \/ e = 8) as Hc by lia.
    repeat destruct Hc as [->|Hc]; [by right|..]; subst; by left. }
  unfold unit_suffix, nul_free. destruct (has opts human_SI); [|constructor].
  rewrite !Forall_app. destruct (Z.eqb_spec e 0) as [->|], (has opts human_B), (has opts human_space_before_unit), (has opts human_base_1024); cbn [negb orb andb];
    split_and!; repeat constructor; try done; try (destruct Hl; done); destruct (e =? 1); done || (destruct Hl; done).
Qed.

Lemma usable_point l : nul_free (decimal_point l) ->
  nul_free (decimal_point (usable_locale l)) /\ zlen (decimal_point (usable_locale l)) <= 16.
Proof.
  intros Hl. unfold usable_locale, MB_LEN_MAX. cbn [decimal_point]. destruct (Z.ltb_spec 0 (zlen (decimal_point l))), (Z.leb_spec (zlen (decimal_point l)) 16);
    cbn [andb]; split; try done; by repeat constructor.
Qed.

Lemma show_point_nul_free l pt : nul_free (decimal_point l) -> (forall t, pt = Some t -> 0 <= t) -> nul_free (show_point l pt).
Proof.
  intros Hl Ht. destruct pt as [t|]; [|constructor]. apply Forall_app. split; [done|]. constructor; [|constructor].
  specialize (Ht t eq_refl). change (ch "0") with 48. lia.
Qed.

Lemma shown_tenth style num den base e a t : shown style num den base e a (Some t) -> 0 <= t.
Proof. intros H. inversion H as [|? ? ? Ht| |? ? ? Hp]; subst; [lia|]. destruct Hp as [Hp|Hp]; [injection Hp as ->; lia|done]. Qed.

Definition one_style (style : Z) : Prop := style = human_ceiling \/ style = human_round_to_nearest \/ style = human_floor.

Lemma human_readable_ok l n buf opts from to :
  exact_units n from to -> zlen buf = LONGEST_HUMAN_READABLE + 1 -> nul_free (decimal_point l) ->
  one_style (Z.land opts style_mask) -> (has opts human_group_digits = true -> grouping l = []) ->
  has opts human_space_before_unit && has opts human_base_1024 && has opts human_B = false ->
  (has opts human_SI = true -> has opts human_autoscale = false -> to <= base_of opts ^ 6) ->
  exists buf' p e a pt unit ds,
    human_readable l n buf opts from to = Ok (Some (buf', p)) /\ zlen buf' = zlen buf /\
    string_at buf' p = ds ++ show_point (usable_locale l) pt ++ unit_suffix opts unit /\
    ds <> [] /\ Forall is_decimal ds /\ dec 0 ds = a /\
    shown (Z.land opts style_mask) (n * from) to (base_of opts) e a pt /\
    (if has opts human_autoscale then unit = e /\ 0 <= e <= 8 /\ (0 < e -> 1 <= a) /\ (a < base_of opts \/ e = 8)
     else e = 0 /\ pt = None /\ (has opts human_SI = true -> block_exponent (base_of opts) to unit)).
Proof.
  intros Hx Hbuf Hdp Hst Hg Hsp Hto. destruct (usable_point l Hdp) as [Hnp Hlp]. unfold human_readable, write_number. cbv zeta.
  assert (grouping (usable_locale l) = grouping l) as Egr by done. revert Hnp Hlp Egr. generalize (usable_locale l). intros l' Hnp Hlp Egr.
  assert (base_ok (base_of opts)) as Hb by (unfold base_of; destruct (has opts human_base_1024); [by right|by left]).
  set (base := base_of opts) in *. set (style := Z.land opts style_mask) in *. clearbody base style.
  change (LONGEST_HUMAN_READABLE - HUMAN_READABLE_SUFFIX_LENGTH_MAX) with 648. change (LONGEST_HUMAN_READABLE + 1) with 652 in Hbuf.
  destruct (to_units_ok n from to Hx) as (amt & tenths & rounding & -> & He & Hf). cbn [bind].
  destruct (zlen_split 648 buf) as (junk & rest & -> & Hj & Hrest); [lia|]. assert (zlen rest = 4) as H4 by lia. clear Hrest.
  destruct (autoscale_ok l' opts style base (n * from) to amt tenths rounding junk rest) as (a1 & t1 & r1 & e1 & pt1 & j1 & Eas & Hsc & Hj1 & He1 & Hp1 & Hu1);
    [done|done|done|lia|done|]. rewrite Hj in *. rewrite Eas. cbn [bind].
  destruct (round_amount_ok l' opts style base (n * from) to e1 a1 t1 r1 pt1 j1 rest) as (a & e & pt & j2 & -> & Hsh & Ha & Hj2 & He2 & Hp2 & Hu2);
    [done|done|rewrite zlen_show_point in *; destruct pt1; lia|done|done|done|]. cbn [bind].
  assert (100 <= zlen j2) as Hj2'. { rewrite !zlen_show_point in *. destruct pt, pt1; lia. }
  destruct (inttostr_loop 20 a (zlen j2) j2 (show_point l' pt ++ rest)) as (j3 & ds & E & Hne & Hds & Hv); [lia|simpl; lia|done|simpl; lia|].
  rewrite E. pose proof (inttostr_loop_len _ _ _ _ _ E) as Hlen. cbn [fst] in Hlen. rewrite !zlen_app in Hlen. cbn [bind].
  assert ((if has opts human_group_digits then group_number l' (j3 ++ ds ++ show_point l' pt ++ rest) (zlen j3) (zlen j2 - zlen j3)
           else Ok (j3 ++ ds ++ show_point l' pt ++ rest, zlen j3)) = Ok (j3 ++ ds ++ show_point l' pt ++ rest, zlen j3)) as ->.
  { destruct (has opts human_group_digits); [|done]. replace (zlen j2 - zlen j3) with (zlen ds) by lia.
    apply group_number_plain; [rewrite Egr; by apply Hg|]. pose proof (zlen_nonneg j3). pose proof (zlen_nonneg (show_point l' pt1)). pose proof (zlen_nonneg (show_point l' pt)). lia. }
  cbn [bind].
  assert (exists unit, 0 <= unit <= 8 /\ ((if has opts human_autoscale then e else -1) = unit \/ has opts human_SI = false \/
      ((if has opts human_autoscale then e else -1) = -1 /\ loop 10 (power_turn base to) (1, 0) = Ok unit)) /\
    (if has opts human_autoscale then unit = e else has opts human_SI = true -> block_exponent base to unit)) as (unit & Hun & Hun1 & Hun2).
  { destruct (has opts human_autoscale); [exists e; by split_and!; [lia|lia|left|]|]. destruct (has opts human_SI); [|exists 0; split_and!; [lia|lia|by right; left|done]].
    destruct (power_loop_ok base to Hb (Hto eq_refl eq_refl) 10 0) as (u & Eu & Hu & Hbl); [lia|lia|lia|]. exists u. split_and!; [lia|lia|by right; right|done]. }
  replace (j3 ++ ds ++ show_point l' pt ++ rest) with ((j3 ++ ds ++ show_point l' pt) ++ rest) by (by rewrite <- !app_assoc).
  assert (zlen (j3 ++ ds ++ show_point l' pt) = 648) as Hfront by (rewrite !zlen_app; lia).
  destruct (put_suffix_ok opts base unit _ to (j3 ++ ds ++ show_point l' pt) rest Hb Hun H4 Hsp Hun1) as (r & Esuf & Hr0 & Hrl).
  rewrite Hfront in Esuf. rewrite Esuf. cbn [bind].
  destruct r as [|x r]; [done|]. rewrite wr_middle by done. cbn [bind]. rewrite zlen_cons in Hrl.
  eexists _, _, e, a, pt, unit, ds. split; [done|]. split; [rewrite !zlen_app in *; rewrite zlen_cons; lia|]. split_and!; try done.
  - replace (((j3 ++ ds ++ show_point l' pt) ++ unit_suffix opts unit) ++ 0 :: r) with (j3 ++ (ds ++ show_point l' pt ++ unit_suffix opts unit) ++ 0 :: r)
      by (by rewrite <- !app_assoc).
    apply string_at_ok. unfold nul_free. rewrite !Forall_app. split_and!; [by apply decimals_nul_free| |by apply unit_suffix_nul_free].
    apply show_point_nul_free; [done|]. intros t ->. by eapply shown_tenth.
  - destruct (has opts human_autoscale); [by split_and!; [|lia|lia|..]|]. by destruct Hu2.
Qed.

(** What the options of sum give: the number of blocks, rounded up. *)
Lemma human_ceiling_blocks l n buf to :
  0 <= n < 2 ^ 64 -> 0 < to -> 10 * to <= 2 ^ 64 -> zlen buf = LONGEST_HUMAN_READABLE + 1 -> nul_free (decimal_point l) ->
  exists buf' p a, human_readable l n buf human_ceiling 1 to = Ok (Some (buf', p)) /\
    Forall is_decimal (string_at buf' p) /\ dec 0 (string_at buf' p) = a /\ (a - 1) * to < n <= a * to.
Proof.
  intros Hn Ht Ht' Hbuf Hdp. assert (exact_units n 1 to) as Hx by (split_and!; [lia|lia|lia|lia|right; exists to; lia]).
  destruct (human_readable_ok l n buf human_ceiling 1 to) as (buf' & p & e & a & pt & unit & ds & E & _ & Es & _ & Hds & Hv & Hsh & He & -> & _);
    [done|done|done|by left|done|done|done|].
  change (unit_suffix human_ceiling unit) with (@nil Z) in Es. cbn [show_point app] in Es. rewrite app_nil_r in Es.
  exists buf', p, a. rewrite E, Es. split_and!; [done|done|done|..]; inversion Hsh as [? ? Hr| |? ? Hr|? ? Hr]; subst; unfold rounds in Hr;
    change (Z.land human_ceiling style_mask) with 0 in Hr; cbn [Z.eqb human_round_to_nearest human_ceiling] in Hr; change (base_of human_ceiling) with 1000 in *;
    try (change (1000 ^ 0) with 1 in Hr); nia || (assert (e0 = -1) as -> by lia; change (1000 ^ (-1)) with 0 in Hr; lia).
Qed.

(** C33. human_readable prints the correctly rounded value.  The theorem is about these calls only:
    - n times from is computed in integers, with one block size dividing the other and without
      overflow (exact_units); the branch in long double arithmetic, which the code takes for
      all other block sizes, is not covered;
    - the buffer has the documented size LONGEST_HUMAN_READABLE + 1, and the decimal point is a string;
    - one of the three rounding styles is chosen;
    - digits are not grouped: human_group_digits is not set, or the locale has an empty grouping;
    - a space before the unit, base 1024 and B are not all three set, since the three letters
      after a space overrun the buffer (space_overruns);
    - with human_SI and without human_autoscale the block size to is at most the sixth power of the
      base, since larger ones get a wrong letter (large_block_misnamed).
    Then it writes only inside the buffer and returns the decimal digits of a, the decimal point and a
    tenth where there is one, and the unit letters of the power e, where a and the
    tenth are n * from / to / base^e rounded in the style of the options
    (ceiling, floor, or to nearest with ties to even), with 1 <= a < base for
    an automatic power 0 < e < 8. *)
Theorem human_readable_rounds l n buf opts from to :
  exact_units n from to -> zlen buf = LONGEST_HUMAN_READABLE + 1 -> nul_free (decimal_point l) ->
  one_style (Z.land opts style_mask) -> (has opts human_group_digits = true -> grouping l = []) ->
  has opts human_space_before_unit && has opts human_base_1024 && has opts human_B = false ->
  (has opts human_SI = true -> has opts human_autoscale = false -> to <= base_of opts ^ 6) ->
  exists buf' p e a pt unit ds,
    human_readable l n buf opts from to = Ok (Some (buf', p)) /\ zlen buf' = zlen buf /\
    string_at buf' p = ds ++ show_point (usable_locale l) pt ++ unit_suffix opts unit /\
    ds <> [] /\ Forall is_decimal ds /\ dec 0 ds = a /\
    shown (Z.land opts style_mask) (n * from) to (base_of opts) e a pt /\
    (if has opts human_autoscale then unit = e /\ 0 <= e <= 8 /\ (0 < e -> 1 <= a) /\ (a < base_of opts \/ e = 8)
     else e = 0 /\ pt = None /\ (has opts human_SI = true -> block_exponent (base_of opts) to unit)).
Proof. apply human_readable_ok. Qed.

Lemma human_readable_rounds_witness :
  exact_units 1587 1 1 /\ human 1587 176 1 1 = Some (bytes "1.6K") /\
  exists buf' p e a pt unit ds,
    human_readable C_locale 1587 (replicate 652 0) 176 1 1 = Ok (Some (buf', p)) /\ zlen buf' = zlen (replicate 652 0) /\
    string_at buf' p = ds ++ show_point (usable_locale C_locale) pt ++ unit_suffix 176 unit /\
    ds <> [] /\ Forall is_decimal ds /\ dec 0 ds = a /\
    shown (Z.land 176 style_mask) (1587 * 1) 1 (base_of 176) e a pt /\
    (if has 176 human_autoscale then unit = e /\ 0 <= e <= 8 /\ (0 < e -> 1 <= a) /\ (a < base_of 176 \/ e = 8)
     else e = 0 /\ pt = None /\ (has 176 human_SI = true -> block_exponent (base_of 176) 1 unit)).
Proof.
  assert (exact_units 1587 1 1) as Hx by (split_and!; [lia|lia|lia|lia|left; exists 1; lia]).
  split; [exact Hx|]. split; [vm_compute; reflexivity|].
  apply (human_readable_rounds C_locale 1587 (replicate 652 0) 176 1 1); try done; [by repeat constructor|by left].
Defined.

(** The three styles, the step to the next unit, and the tie to even. *)
Example human_examples :
  human 1023999 (human_autoscale + human_SI + human_floor) 1 1 = Some (bytes "1.0M") /\
  human 999500 (human_autoscale + human_SI + human_round_to_nearest) 1 1 = Some (bytes "1.0M") /\
  human 10500 (human_autoscale + human_SI + human_round_to_nearest) 1 1 = Some (bytes "10k") /\
  human 1 (human_ceiling) 512 1024 = Some (bytes "1") /\
  human 18446744073709551615 (human_autoscale + human_SI + human_base_1024 + human_B) 1 1 = Some (bytes "16EiB").
Proof. split_and!; vm_compute; reflexivity. Qed.

(** With a space before a unit of three letters the terminator is written one
    byte past a buffer of LONGEST_HUMAN_READABLE + 1 bytes. *)
Lemma space_overruns :
  human_readable C_locale 2048 (replicate 652 0)
    (human_autoscale + human_base_1024 + human_space_before_unit + human_SI + human_B) 1 1 = Fail OutOfBounds.
Proof. vm_compute. reflexivity. Qed.

(** A block size above 1024^6 is named after the power 8, although the power 7
    is enough: the product with the base has wrapped to zero. *)
Lemma large_block_misnamed :
  human 1 (human_SI + human_base_1024) (2 ^ 61) (2 ^ 61) = Some (bytes "1Y") /\ 2 ^ 61 <= 1024 ^ 7.
Proof. split; [vm_compute; reflexivity|done]. Qed.
