(* ===== verification/Signals.v ===== *)
(** * Signal names: utils/coreutils/lib/sig2str.c and operand2sig.c

    The table for the signals of GNU/Linux on x86, whose numbers <signal.h>
    gives, and the conversions between names and numbers, through strtol. *)

From S2P Require Import Prelude Arrays CStrings XStrtol.
Open Scope Z_scope.

(** NUMNAME for the signals that are defined, the preferred name first. *)
Definition numname_table : list (Z * string) :=
  [(1, "HUP"); (2, "INT"); (3, "QUIT"); (4, "ILL"); (5, "TRAP"); (6, "ABRT"); (8, "FPE"); (9, "KILL"); (7, "BUS"); (11, "SEGV");
   (13, "PIPE"); (14, "ALRM"); (15, "TERM"); (10, "USR1"); (12, "USR2"); (17, "CHLD"); (23, "URG"); (19, "STOP"); (20, "TSTP"); (18, "CONT");
   (21, "TTIN"); (22, "TTOU"); (31, "SYS"); (29, "POLL"); (26, "VTALRM"); (27, "PROF"); (24, "XCPU"); (25, "XFSZ"); (6, "IOT"); (17, "CLD");
   (30, "PWR"); (28, "WINCH"); (29, "IO"); (16, "STKFLT"); (0, "EXIT")].

Definition SIGRTMIN : Z := 34.
Definition SIGRTMAX : Z := 64.
Definition SIGNUM_BOUND : Z := 64.
Definition SIG2STR_MAX : Z := 9 + 11 - 1.

Definition ISDIGIT (c : Z) : bool := u32 (c - 48) <=? 9.

(** The decimal digits [%d] prints for a number that is not negative. *)
Fixpoint decimal_from (fuel : nat) (n : Z) (acc : list Z) : list Z :=
  match fuel with
  | O => acc
  | S fuel => let acc := (48 + n mod 10) :: acc in if n / 10 =? 0 then acc else decimal_from fuel (n / 10) acc
  end.
Definition decimal (n : Z) : list Z := decimal_from 10 n [].

Fixpoint name_lookup (name : list Z) (t : list (Z * string)) : option Z :=
  match t with
  | [] => None
  | (num, n) :: t => if bool_decide (bytes n = name) then Some num else name_lookup name t
  end.

(** [strtol(s, &endp, 10)] and whether [*endp] is the end. *)
Definition whole_number (s : list Z) : res (Z * bool) :=
  let* (n, endp, _) := strtol t_long s 10 in
  let* c := rd (cstr s) endp in
  Ok (n, c =? 0).

Definition str2signum (signame : list Z) : res Z :=
  if ISDIGIT (head_char signame) then
    let* (n, ended) := whole_number signame in
    Ok (if ended && (n <=? SIGNUM_BOUND) then n else -1)
  else
    match name_lookup signame numname_table with
    | Some num => Ok num
    | None =>
        if (0 <? SIGRTMIN) && bool_decide (take 5 signame = bytes "RTMIN") then
          let* (n, ended) := whole_number (drop 5 signame) in
          Ok (if ended && (0 <=? n) && (n <=? SIGRTMAX - SIGRTMIN) then SIGRTMIN + n else -1)
        else if (0 <? SIGRTMAX) && bool_decide (take 5 signame = bytes "RTMAX") then
          let* (n, ended) := whole_number (drop 5 signame) in
          Ok (if ended && (SIGRTMIN - SIGRTMAX <=? n) && (n <=? 0) then SIGRTMAX + n else -1)
        else Ok (-1)
    end.

(** The result and [*signum]. *)
Definition str2sig (signame : list Z) : res (Z * Z) :=
  let* signum := str2signum signame in Ok (if signum <? 0 then -1 else 0, signum).

Fixpoint number_lookup (num : Z) (t : list (Z * string)) : option string :=
  match t with
  | [] => None
  | (k, n) :: t => if k =? num then Some n else number_lookup num t
  end.

(** The name stored in [signame]; [None] is the result -1. *)
Definition sig2str (signum : Z) : option (list Z) :=
  match number_lookup signum numname_table with
  | Some n => Some (bytes n)
  | None =>
      if negb ((SIGRTMIN <=? signum) && (signum <=? SIGRTMAX)) then None
      else if signum <=? SIGRTMIN + Z.quot (SIGRTMAX - SIGRTMIN) 2 then
        let delta := signum - SIGRTMIN in
        Some (if negb (delta =? 0) then bytes "RTMIN+" ++ decimal delta else bytes "RTMIN")
      else
        let delta := SIGRTMAX - signum in
        Some (if negb (delta =? 0) then bytes "RTMAX-" ++ decimal delta else bytes "RTMAX")
  end.

(** <sys/wait.h> *)
Definition WTERMSIG (i : Z) : Z := Z.land i 127.
Definition WIFSIGNALED (i : Z) : bool := 0 <? Z.shiftr (s8 (Z.land i 127 + 1)) 1.

(** One character in the C locale's upper case. *)
Definition upcase (c : Z) : Z := if (97 <=? c) && (c <=? 122) then c + (65 - 97) else c.

(** The signal number of the operand, or -1.  [i] is a long, so that the test
    [i != l] never holds. *)
Definition operand2sig (operand : list Z) : res Z :=
  let* signum :=
    if ISDIGIT (head_char operand) then
      let* (l, endp, e) := strtol t_long operand 10 in
      let i := l in
      let* c := rd (cstr operand) endp in
      Ok (if (endp =? 0) || negb (c =? 0) || (match e with E_RANGE => true | E_OK => false end) || negb (i =? l) then -1
          else s32 (if WIFSIGNALED i then WTERMSIG i else i))
    else
      let upcased := map upcase operand in
      let* (r, signum) := str2sig upcased in
      if r =? 0 then Ok signum
      else if bool_decide (take 3 upcased = bytes "SIG") then
        let* (r, signum) := str2sig (drop 3 upcased) in
        Ok (if r =? 0 then signum else -1)
      else Ok (-1) in
  Ok (if signum <? 0 then -1 else match sig2str signum with Some _ => signum | None => -1 end).

(** ** Names and numbers *)

Definition lowercase (s : list Z) : list Z := map (fun c => if (65 <=? c) && (c <=? 90) then c + 32 else c) s.

(** What one number has to satisfy, as a test. *)
Definition number_ok (n : Z) : bool :=
  match sig2str n with
  | None => (n =? 32) || (n =? 33)
  | Some name =>
      bool_decide (str2sig name = Ok (0, n)) && bool_decide (operand2sig name = Ok n) && bool_decide (operand2sig (bytes "SIG" ++ name) = Ok n) &&
      bool_decide (operand2sig (lowercase name) = Ok n) && bool_decide (operand2sig (decimal n) = Ok n) && (zlen name <? SIG2STR_MAX)
  end.

Lemma numbers_ok : forallb number_ok (seqZ 0 65) = true.
Proof. vm_compute. reflexivity. Qed.

Lemma number_lookup_elem n s t : number_lookup n t = Some s -> n ∈ map fst t.
Proof.
  induction t as [|[k m] t IH]; cbn [number_lookup map fst]; [done|]. destruct (Z.eqb_spec k n) as [->|]; [intros _; left|intros H; right; by apply IH].
Qed.

(** Only these numbers have names. *)
Lemma sig2str_range n name : sig2str n = Some name -> 0 <= n <= 64.
Proof.
  unfold sig2str. destruct (number_lookup n numname_table) as [s|] eqn:E.
  - apply number_lookup_elem in E. intros _. assert (Forall (fun k => 0 <= k <= 64) (map fst numname_table)) as HF by (vm_compute; repeat constructor; done).
    by apply (Forall_forall (fun k => 0 <= k <= 64) (map fst numname_table)) in E.
  - unfold SIGRTMIN, SIGRTMAX. destruct (Z.leb_spec 34 n), (Z.leb_spec n 64); cbn [andb negb]; done || lia.
Qed.

Lemma number_ok_all n : 0 <= n <= 64 -> number_ok n = true.
Proof.
  intros Hn. pose proof numbers_ok as H. rewrite forallb_forall in H. apply H. apply list_elem_of_In, elem_of_seqZ. lia.
Qed.

(** Signal names and numbers are inverse: exactly 0..31 and 34..64 have
    names; the name that sig2str stores fits SIG2STR_MAX bytes and str2sig gives
    the number back, and operand2sig gives it for the name, the name after
    "SIG", the name in lower case and the decimal number. *)
Theorem signals_roundtrip n :
  match sig2str n with
  | Some name =>
      (0 <= n <= 31 \/ 34 <= n <= 64) /\ zlen name < SIG2STR_MAX /\ str2sig name = Ok (0, n) /\
      operand2sig name = Ok n /\ operand2sig (bytes "SIG" ++ name) = Ok n /\ operand2sig (lowercase name) = Ok n /\ operand2sig (decimal n) = Ok n
  | None => ~ (0 <= n <= 31 \/ 34 <= n <= 64)
  end.
Proof.
  destruct (sig2str n) as [name|] eqn:E.
  - pose proof (sig2str_range n name E) as Hr. pose proof (number_ok_all n Hr) as H. unfold number_ok in H. rewrite E in H.
    rewrite !andb_true_iff, !bool_decide_eq_true, Z.ltb_lt in H. destruct H as (((((H1 & H2) & H3) & H4) & H5) & H6).
    split_and!; try done. destruct (decide (n = 32)) as [->|]; [done|]. destruct (decide (n = 33)) as [->|]; [done|]. lia.
  - intros Hn. pose proof (number_ok_all n ltac:(lia)) as H. unfold number_ok in H. rewrite E in H. lia.
Qed.

(** A number that does not fit an int is reduced: 2^32 + 9 is accepted as KILL. *)
Lemma wide_operand_accepted : operand2sig (bytes "4294967305") = Ok 9.
Proof. vm_compute. reflexivity. Qed.
