(* ===== verification/UserSpec.v ===== *)
(** * Users and groups: utils/coreutils/lib/userspec.c

    parse_user_spec reads "[user][:.][group]".  The databases of users and groups
    are arguments: getpwnam gives the numbers of a user, getgrnam the number of a
    group and getgrgid its name.  Strings are NUL-free lists; a NULL name is
    [None]. *)

From S2P Require Import Prelude Arrays CStrings XStrtol.
Open Scope Z_scope.

(** TYPE_MAXIMUM of uid_t and gid_t, which have 32 bits. *)
Definition MAXUID : Z := 4294967295.
Definition MAXGID : Z := 4294967295.

Inductive spec_error := E_invalid_user | E_invalid_group | E_bad_spec.

(** What the function stores, or the error it returns, leaving [*uid] and [*gid]. *)
Record ids := Ids { uid : Z; gid : Z; username : option (list Z); groupname : option (list Z) }.

Section userspec.
Variables (getpwnam : list Z -> option (Z * Z)) (getgrnam : list Z -> option Z) (getgrgid : Z -> option (list Z)).

(** [xstrtoul(s, NULL, 10, &tmp, "") == LONGINT_OK && tmp <= max && (id_t)tmp != -1] *)
Definition number_id (s : list Z) (max : Z) : res (option Z) :=
  let* (err, v, _) := xstrtol t_ulong s 10 (Some []) in
  Ok match v with
     | Some tmp => if (err =? LONGINT_OK) && (tmp <=? max) && negb (u32 tmp =? 4294967295) then Some tmp else None
     | None => None
     end.

(** [xstrdup(grp ? grp->gr_name : umaxtostr(gnum, buf))] *)
Definition group_label (n : Z) : res (list Z) :=
  match getgrgid n with
  | Some name => Ok name
  | None => let* (buf, p) := inttostr n (replicate 21 0) in
            Ok (take (Z.to_nat (INT_STRLEN_BOUND - p)) (drop (Z.to_nat p) buf))
  end.

(** [unum], [gnum], [gname] and [error_msg] after the user. *)
Definition user_part (u : option (list Z)) (login : bool) (unum gnum : Z) : res (Z * Z * option (list Z) * option spec_error) :=
  match u with
  | None => Ok (unum, gnum, None, None)
  | Some u =>
      match (if head_char u =? ch "+" then None else getpwnam u) with
      | None =>
          if login then Ok (unum, gnum, None, Some E_bad_spec)
          else
            let* n := number_id u MAXUID in
            Ok match n with Some n => (n, gnum, None, None) | None => (unum, gnum, None, Some E_invalid_user) end
      | Some (pw_uid, pw_gid) =>
          if login then let* name := group_label pw_gid in Ok (pw_uid, pw_gid, Some name, None)
          else Ok (pw_uid, gnum, None, None)
      end
  end.

(** [gnum], [gname] and [error_msg] after the group. *)
Definition group_part (g : option (list Z)) (gnum : Z) (gname : option (list Z)) (error_msg : option spec_error) : res (Z * option (list Z) * option spec_error) :=
  match g, error_msg with
  | Some g, None =>
      match (if head_char g =? ch "+" then None else getgrnam g) with
      | None =>
          let* n := number_id g MAXGID in
          Ok match n with Some n => (n, Some g, None) | None => (gnum, Some g, Some E_invalid_group) end
      | Some gr_gid => Ok (gr_gid, Some g, None)
      end
  | _, _ => Ok (gnum, gname, error_msg)
  end.

(** [separator]: its index, or NULL. *)
Definition parse_with_separator (spec : list Z) (separator : option Z) (uid0 gid0 : Z) : res (ids + spec_error) :=
  let u := match separator with
           | None => if head_char spec =? 0 then None else Some spec
           | Some ulen => if ulen =? 0 then None else Some (take (Z.to_nat ulen) spec)
           end in
  let g := match separator with
           | None => None
           | Some i => match drop (Z.to_nat i + 1) spec with [] => None | g => Some g end
           end in
  let login := match separator, g with Some _, None => true | _, _ => false end in
  let* (unum, gnum, gname, error_msg) := user_part u login uid0 gid0 in
  let* (gnum, gname, error_msg) := group_part g gnum gname error_msg in
  Ok match error_msg with
     | None => inl (Ids unum gnum u gname)
     | Some e => inr e
     end.

Definition parse_user_spec (spec : list Z) (uid0 gid0 : Z) : res (ids + spec_error) :=
  let* colon := strchr (cstr spec) (ch ":") in
  let* r := parse_with_separator spec colon uid0 gid0 in
  match colon, r with
  | None, inr e =>
      let* dot := strchr (cstr spec) (ch ".") in
      match dot with
      | None => Ok (inr e)
      | Some _ =>
          let* r := parse_with_separator spec dot uid0 gid0 in
          Ok match r with inl i => inl i | inr _ => inr e end
      end
  | _, r => Ok r
  end.
End userspec.

Definition db_user (s : list Z) : option (Z * Z) := if bool_decide (s = bytes "root") then Some (0, 0) else if bool_decide (s = bytes "a.b") then Some (7, 8) else None.
Definition db_group (s : list Z) : option Z := if bool_decide (s = bytes "wheel") then Some 10 else None.
Definition db_name (n : Z) : option (list Z) := if n =? 0 then Some (bytes "rootgrp") else None.

Example userspec_examples :
  let parse s := parse_user_spec db_user db_group db_name (bytes s) 100 200 in
  parse "root" = Ok (inl (Ids 0 200 (Some (bytes "root")) None)) /\
  parse "root:" = Ok (inl (Ids 0 0 (Some (bytes "root")) (Some (bytes "rootgrp")))) /\
  parse ":wheel" = Ok (inl (Ids 100 10 None (Some (bytes "wheel")))) /\
  parse "root.wheel" = Ok (inl (Ids 0 10 (Some (bytes "root")) (Some (bytes "wheel")))) /\
  parse "a.b:" = Ok (inl (Ids 7 8 (Some (bytes "a.b")) (Some (bytes "8")))) /\
  parse "a.b" = Ok (inl (Ids 7 200 (Some (bytes "a.b")) None)) /\
  parse "+5:6" = Ok (inl (Ids 5 6 (Some (bytes "+5")) (Some (bytes "6")))) /\
  parse "5:" = Ok (inr E_bad_spec) /\ parse "nobody:wheel" = Ok (inr E_invalid_user) /\ parse "root:4294967295" = Ok (inr E_invalid_group) /\
  parse "" = Ok (inl (Ids 100 200 None None)).
Proof. split_and!; vm_compute; reflexivity. Qed.

(** ** Numbers as ids *)

(** The id a string of digits stands for: blanks and a plus sign may come first,
    nothing may follow, and 2^32 - 1 is not an id. *)
Definition id_number (s : list Z) : option Z :=
  let s := fst (skip_spaces s) in
  let s := if head_char s =? ch "+" then drop 1 s else s in
  match s with
  | [] => None
  | _ => if forallb decimal_char s && (dec 0 s <? 4294967295) then Some (dec 0 s) else None
  end.

(** What xstrtoul finds after the blanks and the sign. *)
Lemma number_after s pre ds rest :
  nul_free s -> s = pre ++ ds ++ rest -> Forall is_decimal ds -> no_decimal (head_char rest) ->
  strtol t_ulong s 10 =
    Ok (if zlen ds =? 0 then (0, 0, E_OK)
        else (Z.min (T_MAXIMUM t_ulong) (dec 0 ds), zlen (pre ++ ds), if T_MAXIMUM t_ulong <? dec 0 ds then E_RANGE else E_OK)) ->
  (head_char (fst (skip_spaces s)) =? ch "-") = false ->
  number_id s 4294967295 = Ok (match ds ++ rest with [] => None | _ => if forallb decimal_char (ds ++ rest) && (dec 0 (ds ++ rest) <? 4294967295) then Some (dec 0 (ds ++ rest)) else None end).
Proof.
  intros Hn Es Hds Hrest Hs Hm. unfold number_id, xstrtol. cbn [bind demand]. change ((0 <=? 10) && (10 <=? 36)) with true. unfold demand. cbn [bind TYPE_SIGNED t_ulong negb andb].
  rewrite Hm, Hs. cbn [bind]. rewrite forallb_decimals by done.
  assert (forall x, head_char x <> 0 -> no_decimal (head_char x) -> forallb decimal_char x = false) as Hbad.
  { intros [|c x] Hx Hx'; [done|]. cbn [forallb]. rewrite decimal_char_digit. unfold no_decimal in Hx'. cbn [head_char] in Hx'. by rewrite Hx'. }
  assert (head_char rest = 0 <-> rest = []) as Hz.
  { split; [|by intros ->]. destruct rest as [|c rest]; [done|]. intros E. cbn in E. subst s. unfold nul_free in Hn.
    rewrite !Forall_app, Forall_cons in Hn. destruct Hn as (_ & _ & Hc & _). done. }
  destruct ds as [|d ds].
  - cbn [app]. change (zlen [] =? 0) with true. cbn [bind Z.eqb]. rewrite rd_cstr_first. cbn [bind].
    assert (strchr (cstr []) (head_char s) = Ok (if head_char s =? 0 then Some 0 else None)) as ->.
    { unfold cstr. cbn [app strchr]. rewrite (Z.eqb_sym 0). by destruct (head_char s =? 0). }
    destruct (head_char s =? 0); cbn [bind]; (destruct rest as [|c rest]; [done|rewrite (Hbad (c :: rest)); [done| |done]]; by rewrite Hz).
  - pose proof (zlen_nonneg ds) as Hl. pose proof (zlen_nonneg pre). rewrite zlen_cons, (proj2 (Z.eqb_neq (zlen ds + 1) 0)) by lia. cbn [bind].
    rewrite zlen_app, zlen_cons, (proj2 (Z.eqb_neq (zlen pre + _) 0)) by lia. cbn [bind]. unfold read_suffix.
    assert (rd (cstr s) (zlen pre + (zlen ds + 1)) = Ok (head_char rest)) as ->.
    { rewrite Es, app_assoc. apply rd_cstr. by rewrite zlen_app, zlen_cons. }
    cbn [bind]. destruct (Z.eqb_spec (head_char rest) 0) as [E0|E0].
    + apply Hz in E0 as ->. rewrite app_nil_r. cbn [app forallb andb bind]. set (v := dec 0 (d :: ds)).
      pose proof (dec_nonneg (d :: ds) Hds 0 ltac:(lia)) as Hv. fold v in Hv. cbn [T_MAXIMUM t_ulong].
      destruct (Z.ltb_spec 18446744073709551615 v).
      * change (LONGINT_OVERFLOW =? LONGINT_OK) with false. cbn [andb]. by rewrite (proj2 (Z.ltb_ge v 4294967295)) by lia.
      * rewrite Z.min_r by lia. change (LONGINT_OK =? LONGINT_OK) with true. cbn [andb]. unfold u32.
        destruct (Z.ltb_spec v 4294967295).
        -- rewrite Z.mod_small by (code_lia). by rewrite (proj2 (Z.leb_le v _)), (proj2 (Z.eqb_neq v _)) by lia.
        -- destruct (Z.leb_spec v 4294967295); [|done]. by replace v with 4294967295 by lia.
    + rewrite (Hbad rest) by done. rewrite andb_false_l.
      assert (strchr (cstr []) (head_char rest) = Ok None) as ->. { unfold cstr. cbn [app strchr]. by rewrite (proj2 (Z.eqb_neq 0 _)) by done. }
      cbn [bind app]. by destruct (T_MAXIMUM t_ulong <? _).
Qed.

Lemma strtol_split s sp sg s2 ds rest :
  s = sp ++ sg ++ s2 -> skip_spaces s = (sg ++ s2, zlen sp) -> read_sign (sg ++ s2) = (false, s2, zlen sg) ->
  s2 = ds ++ rest -> Forall is_decimal ds -> no_decimal (head_char rest) ->
  strtol t_ulong s 10 =
    Ok (if zlen ds =? 0 then (0, 0, E_OK)
        else (Z.min (T_MAXIMUM t_ulong) (dec 0 ds), zlen ((sp ++ sg) ++ ds), if T_MAXIMUM t_ulong <? dec 0 ds then E_RANGE else E_OK)).
Proof.
  intros Es Hsp Hsg E2 Hds Hrest. unfold strtol, demand. cbn [negb Z.eqb Pos.eqb bind]. rewrite Hsp, Hsg.
  change (read_prefix 10 ?x) with (10, x, 0). cbv iota. rewrite E2, digits_value_dec by done.
  destruct (zlen ds =? 0); [done|]. cbn [TYPE_SIGNED t_ulong]. rewrite !zlen_app.
  destruct (Z.ltb_spec (T_MAXIMUM t_ulong) (dec 0 ds)); do 3 f_equal; cbn [T_MAXIMUM t_ulong] in *; lia.
Qed.

Lemma number_id_correct s : nul_free s -> number_id s 4294967295 = Ok (id_number s).
Proof.
  intros Hn. destruct (skip_spaces_split s) as (sp & Es & Hl). unfold id_number.
  destruct (skip_spaces s) as [s1 n1] eqn:Esp. cbn [fst snd] in *. subst n1.
  destruct (Z.eqb_spec (head_char s1) (ch "-")) as [Em|Em].
  - destruct s1 as [|c s1]; [done|]. cbn [head_char] in *. subst c. unfold number_id, xstrtol, demand. cbn. by rewrite Esp.
  - set (s2 := if head_char s1 =? ch "+" then drop 1 s1 else s1). destruct (split_decimals s2) as (ds & rest & E2 & Hds & Hr).
    assert (exists sg, s1 = sg ++ s2 /\ read_sign s1 = (false, s2, zlen sg)) as (sg & E1 & Hsg).
    { unfold s2. destruct s1 as [|c s1]; [by exists []|]. cbn [head_char read_sign] in *. rewrite (proj2 (Z.eqb_neq c 45)) by done.
      destruct (c =? ch "+"); [by exists [c]|by exists []]. }
    rewrite E1 in Es, Esp, Hsg. rewrite E2. apply (number_after s (sp ++ sg)); try done.
    + by rewrite Es at 1; rewrite E2, app_assoc.
    + by apply (strtol_split s sp sg s2 ds rest).
    + rewrite Esp. cbn [fst]. rewrite <- E1. by apply Z.eqb_neq.
Qed.

(** ** What a spec stands for *)

Section spec.
Variables (getpwnam : list Z -> option (Z * Z)) (getgrnam : list Z -> option Z) (getgrgid : Z -> option (list Z)).
Variables (uid0 gid0 : Z).

(** A leading plus sign turns the look-up off. *)
Definition user_entry (u : list Z) : option (Z * Z) := if head_char u =? ch "+" then None else getpwnam u.
Definition user_id (u : list Z) : option Z := match user_entry u with Some (n, _) => Some n | None => id_number u end.
Definition group_id (g : list Z) : option Z :=
  match (if head_char g =? ch "+" then None else getgrnam g) with Some n => Some n | None => id_number g end.

(** The name of a login group: the database's, or the digits of its number. *)
Definition login_name (n : Z) (name : list Z) : Prop :=
  getgrgid n = Some name \/ getgrgid n = None /\ Forall is_decimal name /\ dec 0 name = n.

Definition given (s : list Z) : option (list Z) := match s with [] => None | _ => Some s end.

(** The user [u], a separator and the group [g]. *)
Inductive separated : list Z -> list Z -> ids + spec_error -> Prop :=
| sep_nothing : separated [] [] (inl (Ids uid0 gid0 None None))
| sep_login u n l name : u <> [] -> user_entry u = Some (n, l) -> login_name l name -> separated u [] (inl (Ids n l (Some u) (Some name)))
| sep_no_login u : u <> [] -> user_entry u = None -> separated u [] (inr E_bad_spec)
| sep_group g m : g <> [] -> group_id g = Some m -> separated [] g (inl (Ids uid0 m None (Some g)))
| sep_bad_user u g : u <> [] -> g <> [] -> user_id u = None -> separated u g (inr E_invalid_user)
| sep_bad_group u g : g <> [] -> (u <> [] -> user_id u <> None) -> group_id g = None -> separated u g (inr E_invalid_group)
| sep_both u g n m : u <> [] -> g <> [] -> user_id u = Some n -> group_id g = Some m -> separated u g (inl (Ids n m (Some u) (Some g))).

(** The whole argument: a colon separates; without one the argument is a user,
    and if that fails the part before the first dot may be. *)
Inductive spec_result : list Z -> ids + spec_error -> Prop :=
| spec_colon u g r : ch ":" ∉ u -> separated u g r -> spec_result (u ++ ch ":" :: g) r
| spec_empty : spec_result [] (inl (Ids uid0 gid0 None None))
| spec_user u n : u <> [] -> ch ":" ∉ u -> user_id u = Some n -> spec_result u (inl (Ids n gid0 (Some u) None))
| spec_no_user u : u <> [] -> ch ":" ∉ u -> ch "." ∉ u -> user_id u = None -> spec_result u (inr E_invalid_user)
| spec_dot u g r : ch ":" ∉ u ++ g -> ch "." ∉ u -> user_id (u ++ ch "." :: g) = None -> separated u g r ->
    spec_result (u ++ ch "." :: g) (match r with inl i => inl i | inr _ => inr E_invalid_user end).

Hypothesis gid_width : forall u n l, getpwnam u = Some (n, l) -> 0 <= l < 4294967296.
Let parse_sep := parse_with_separator getpwnam getgrnam getgrgid.
Let parse := parse_user_spec getpwnam getgrnam getgrgid.

Lemma umaxtostr_name l : 0 <= l < 4294967296 ->
  exists name, (let* (buf, p) := inttostr l (replicate 21 0) in Ok (take (Z.to_nat (INT_STRLEN_BOUND - p)) (drop (Z.to_nat p) buf))) = Ok name /\ Forall is_decimal name /\ dec 0 name = l.
Proof.
  intros Hl. unfold inttostr. change (replicate 21 0) with (replicate 20 0 ++ [0]).
  rewrite (wr_middle (replicate 20 0) 0 [] INT_STRLEN_BOUND) by done. cbn [bind].
  destruct (inttostr_loop 20 l INT_STRLEN_BOUND (replicate 20 0) [0]) as (junk & ds & E & Hne & Hds & Hv); [lia|lia|done|unfold INT_STRLEN_BOUND; lia|].
  pose proof (inttostr_loop_len _ _ _ _ _ E) as HL. rewrite E. cbn [bind fst] in *. exists ds. split_and!; [|done|done]. f_equal.
  rewrite !zlen_app in HL. change (zlen [0]) with 1 in HL. change (zlen (replicate 20 0)) with 20 in HL. unfold INT_STRLEN_BOUND.
  unfold zlen in *. rewrite Nat2Z.id, drop_app_length. apply take_app_length'. lia.
Qed.

Lemma group_label_ok l : 0 <= l < 4294967296 -> exists name, group_label getgrgid l = Ok name /\ login_name l name.
Proof.
  intros Hl. unfold login_name, group_label. destruct (getgrgid l) as [n|]; [exists n; auto|].
  destruct (umaxtostr_name l Hl) as (name & -> & Hd & Hv). exists name. auto.
Qed.

Lemma user_part_plain u a b : nul_free u ->
  user_part getpwnam getgrgid (Some u) false a b = Ok match user_id u with Some n => (n, b, None, None) | None => (a, b, None, Some E_invalid_user) end.
Proof.
  intros Hu. unfold user_part, user_id, user_entry. destruct (if _ =? _ then _ else _) as [[n l]|]; [done|].
  unfold MAXUID. by rewrite number_id_correct.
Qed.

Lemma user_part_login u a b : nul_free u ->
  match user_entry u with
  | Some (n, l) => exists name, login_name l name /\ user_part getpwnam getgrgid (Some u) true a b = Ok (n, l, Some name, None)
  | None => user_part getpwnam getgrgid (Some u) true a b = Ok (a, b, None, Some E_bad_spec)
  end.
Proof.
  intros Hu. unfold user_part, user_entry. destruct (head_char u =? ch "+"); [done|].
  destruct (getpwnam u) as [[n l]|] eqn:E; [|done]. apply gid_width in E. destruct (group_label_ok l E) as (name & -> & Hn). by exists name.
Qed.

Lemma group_part_some g b name : nul_free g ->
  group_part getgrnam (Some g) b name None = Ok match group_id g with Some m => (m, Some g, None) | None => (b, Some g, Some E_invalid_group) end.
Proof.
  intros Hg. unfold group_part, group_id. destruct (if _ =? _ then _ else _) as [m|]; [done|].
  unfold MAXGID. by rewrite number_id_correct.
Qed.

(** With a separator. *)
Lemma parse_separated u c g : nul_free u -> nul_free g ->
  exists r, parse_sep (u ++ c :: g) (Some (zlen u)) uid0 gid0 = Ok r /\ separated u g r.
Proof.
  intros Hu Hg. unfold parse_sep, parse_with_separator. cbv zeta. replace (Z.to_nat (zlen u)) with (length u) by (unfold zlen; lia). rewrite take_app_length.
  replace (drop (length u + 1) (u ++ c :: g)) with g by (by rewrite <- drop_drop, drop_app_length).
  assert ((if zlen u =? 0 then None else Some u) = given u) as -> by (by destruct u).
  destruct u as [|x u], g as [|d g]; cbn [given].
  - eexists; split; [done|constructor].
  - change (user_part _ _ None _ _ _) with (Ok (uid0, gid0, None (A:=list Z), None (A:=spec_error))). cbn [bind]. rewrite group_part_some by done. destruct (group_id (d :: g)) as [m|] eqn:E; cbn [bind]; eexists; (split; [done|by constructor]).
  - pose proof (user_part_login (x :: u) uid0 gid0 Hu) as H. destruct (user_entry (x :: u)) as [[n l]|] eqn:E.
    + destruct H as (name & Hl & ->). cbn [bind]. eexists; (split; [done|by constructor]).
    + rewrite H. cbn [bind]. eexists; (split; [done|by constructor]).
  - rewrite user_part_plain by done. destruct (user_id (x :: u)) as [n|] eqn:E; cbn [bind].
    + rewrite group_part_some by done. destruct (group_id (d :: g)) as [m|] eqn:E'; cbn [bind]; eexists; (split; [done|]); constructor; try done. by rewrite E.
    + eexists; (split; [done|by constructor]).
Qed.

(** Without one. *)
Lemma parse_plain u : nul_free u -> u <> [] ->
  parse_sep u None uid0 gid0 = Ok match user_id u with Some n => inl (Ids n gid0 (Some u) None) | None => inr E_invalid_user end.
Proof.
  intros Hu Hne. unfold parse_sep, parse_with_separator.
  assert ((head_char u =? 0) = false) as -> by (destruct u; [done|]; apply Forall_cons in Hu as [? _]; by apply Z.eqb_neq).
  rewrite user_part_plain by done. by destruct (user_id u).
Qed.

Lemma strchr_split s c : nul_free s -> c <> 0 ->
  (strchr (cstr s) c = Ok None /\ c ∉ s) \/ exists u g, s = u ++ c :: g /\ (c ∉ u) /\ strchr (cstr s) c = Ok (Some (zlen u)).
Proof.
  intros Hn Hc. rewrite strchr_cstr by done. destruct (list_find (fun x => x = c) s) as [[i x]|] eqn:E.
  - right. apply list_find_Some in E as (Hi & -> & Hfirst). exists (take i s), (drop (S i) s). pose proof (lookup_lt_Some _ _ _ Hi).
    split_and!; [by rewrite take_drop_middle| |].
    + intros (j & Hj)%list_elem_of_lookup. apply lookup_take_Some in Hj as [Hj Hlt]. by apply (Hfirst j c).
    + unfold zlen. cbn. rewrite length_take_le by lia. done.
  - left. split; [done|]. apply list_find_None in E. intros Hin. rewrite Forall_forall in E. by apply (E c Hin).
Qed.
End spec.

(** parse_user_spec does what its documentation says, for every argument and
    every user and group database: a colon separates user and group; without one
    the argument is a user, and when that fails the first dot may separate; names
    are looked up unless they start with a plus sign, and otherwise read as
    numbers, of which 2^32 - 1 and above are refused; a separator alone asks for
    the login group; an error is reported for an unknown user before an unknown
    group, and it always returns. *)
Theorem user_spec_correct getpwnam getgrnam getgrgid spec uid0 gid0 :
  (forall u n l, getpwnam u = Some (n, l) -> 0 <= l < 4294967296) -> nul_free spec ->
  exists r, parse_user_spec getpwnam getgrnam getgrgid spec uid0 gid0 = Ok r /\ spec_result getpwnam getgrnam getgrgid uid0 gid0 spec r.
Proof.
  intros Hw Hn. unfold parse_user_spec.
  destruct (strchr_split spec (ch ":") Hn ltac:(done)) as [[-> Hc]|(u & g & -> & Hu & ->)]; cbn [bind].
  - destruct (decide (spec = [])) as [->|Hne]; [eexists; split; [done|constructor]|].
    rewrite parse_plain by done. destruct (user_id getpwnam spec) as [n|] eqn:Eu; cbn [bind]; [eexists; split; [done|by constructor]|].
    destruct (strchr_split spec (ch ".") Hn ltac:(done)) as [[-> Hd]|(u & g & -> & Hu & ->)]; cbn [bind]; [eexists; split; [done|by constructor]|].
    apply Forall_app in Hn as [Hnu [_ Hng]%Forall_cons].
    destruct (parse_separated getpwnam getgrnam getgrgid uid0 gid0 Hw u (ch ".") g Hnu Hng) as (r & -> & Hr). cbn [bind].
    exists (match r with inl i => inl i | inr _ => inr E_invalid_user end). split; [by destruct r|].
    constructor; try done. set_solver.
  - apply Forall_app in Hn as [Hnu [_ Hng]%Forall_cons].
    destruct (parse_separated getpwnam getgrnam getgrgid uid0 gid0 Hw u (ch ":") g Hnu Hng) as (r & -> & Hr). cbn [bind].
    exists r. split; [done|by constructor].
Qed.

Lemma user_spec_correct_witness :
  parse_user_spec db_user db_group db_name (bytes "root.wheel") 100 200 = Ok (inl (Ids 0 10 (Some (bytes "root")) (Some (bytes "wheel")))) /\
  exists r, parse_user_spec db_user db_group db_name (bytes "root.wheel") 100 200 = Ok r /\ spec_result db_user db_group db_name 100 200 (bytes "root.wheel") r.
Proof.
  split; [vm_compute; reflexivity|]. apply (user_spec_correct db_user db_group db_name (bytes "root.wheel") 100 200).
  - intros u n l. unfold db_user. repeat case_bool_decide; intros [= <- <-]; lia.
  - unfold nul_free. vm_compute. repeat constructor; done.
Defined.
