(* ===== verification/ArgMatch.v ===== *)
(** * Matching option arguments: utils/coreutils/lib/argmatch.c

    An argument list is the list of its strings (the NULL at its end is the end of
    the list), a value list the list of its elements, which [memcmp] compares.
    The option --interactive of src/rm.c is the caller. *)

From S2P Require Import Prelude Arrays CStrings.
Open Scope Z_scope.

(** [!strncmp(a, arg, strlen(arg))] *)
Definition abbreviates (arg a : list Z) : bool := bool_decide (take (length arg) a = arg).

Section argmatch.
Context {V : Type} `{EqDecision V} `{Inhabited V}.

(** [vallist == NULL || memcmp(...)] *)
Definition differ (vallist : option (list V)) (matchind i : Z) : res bool :=
  match vallist with
  | None => Ok true
  | Some vs =>
      let* a := rd vs matchind in
      let* b := rd vs i in
      Ok (negb (bool_decide (a = b)))
  end.

(** The loop from index [i] on. *)
Fixpoint argmatch_from (arg : list Z) (arglist : list (list Z)) (vallist : option (list V)) (i matchind : Z) (ambiguous : bool) : res Z :=
  match arglist with
  | [] => Ok (if ambiguous then -2 else matchind)
  | a :: arglist =>
      if abbreviates arg a then
        if zlen a =? zlen arg then Ok i
        else if matchind =? -1 then argmatch_from arg arglist vallist (i + 1) i ambiguous
        else
          let* d := differ vallist matchind i in
          argmatch_from arg arglist vallist (i + 1) matchind (if d then true else ambiguous)
      else argmatch_from arg arglist vallist (i + 1) matchind ambiguous
  end.

Definition argmatch (arg : list Z) (arglist : list (list Z)) (vallist : option (list V)) : res Z :=
  argmatch_from arg arglist vallist 0 (-1) false.

(** __xargmatch_internal: after its messages a failure ends in [exit_fn]. *)
Definition xargmatch (arg : list Z) (arglist : list (list Z)) (vallist : list V) : res Z :=
  let* r := argmatch arg arglist (Some vallist) in
  if r >=? 0 then Ok r else Fail (ExitCall 1).

(** XARGMATCH: the value. *)
Definition XARGMATCH (arg : list Z) (arglist : list (list Z)) (vallist : list V) : res V :=
  let* r := xargmatch arg arglist vallist in rd vallist r.

(** ** What it finds *)

Implicit Types (vallist : option (list V)).

(** The positions, from [i] on, that the argument abbreviates. *)
Fixpoint matching (arg : list Z) (arglist : list (list Z)) (i : Z) : list Z :=
  match arglist with
  | [] => []
  | a :: arglist => if abbreviates arg a then i :: matching arg arglist (i + 1) else matching arg arglist (i + 1)
  end.

(** The first exact match. *)
Fixpoint exact (arg : list Z) (arglist : list (list Z)) (i : Z) : option Z :=
  match arglist with
  | [] => None
  | a :: arglist => if bool_decide (a = arg) then Some i else exact arg arglist (i + 1)
  end.

Definition same_value vallist (p i : Z) : bool :=
  match vallist with Some vs => bool_decide (vs.[p] = vs.[i]) | None => false end.

Definition verdict vallist (ambiguous : bool) (ms : list Z) : Z :=
  match ms with
  | [] => if ambiguous then -2 else -1
  | p :: ms => if ambiguous || existsb (fun i => negb (same_value vallist p i)) ms then -2 else p
  end.

Lemma abbreviates_exact arg a : abbreviates arg a = true -> (zlen a =? zlen arg) = bool_decide (a = arg).
Proof.
  unfold abbreviates. intros E%bool_decide_eq_true. destruct (Z.eqb_spec (zlen a) (zlen arg)) as [El|El]; symmetry.
  - apply bool_decide_eq_true_2. rewrite <- E. symmetry. apply take_ge. unfold zlen in El. lia.
  - apply bool_decide_eq_false_2. by intros ->.
Qed.

Lemma abbreviates_refl arg : abbreviates arg arg = true.
Proof. unfold abbreviates. apply bool_decide_eq_true_2. by apply firstn_all. Qed.

Lemma argmatch_from_ok arg vallist : forall arglist i mi amb,
  0 <= i -> mi = -1 \/ 0 <= mi < i -> (forall vs, vallist = Some vs -> i + zlen arglist <= zlen vs) ->
  argmatch_from arg arglist vallist i mi amb =
    Ok match exact arg arglist i with
       | Some k => k
       | None => verdict vallist amb (if mi =? -1 then matching arg arglist i else mi :: matching arg arglist i)
       end.
Proof.
  induction arglist as [|a arglist IH]; intros i mi amb Hi Hmi Hv; cbn [argmatch_from exact matching].
  - destruct Hmi as [->|Hmi]; [done|]. rewrite (proj2 (Z.eqb_neq mi (-1))) by lia. cbn [verdict existsb]. by rewrite orb_false_r.
  - assert (forall vs, vallist = Some vs -> i + 1 + zlen arglist <= zlen vs) as Hv' by (intros vs E; specialize (Hv vs E); rewrite zlen_cons in Hv; lia).
    pose proof (zlen_nonneg arglist). destruct (abbreviates arg a) eqn:Ea.
    + rewrite (abbreviates_exact _ _ Ea). destruct (bool_decide_reflect (a = arg)) as [->|]; [done|].
      destruct (Z.eqb_spec mi (-1)) as [->|Hm].
      * rewrite IH by (try done; lia). rewrite (proj2 (Z.eqb_neq i (-1))) by lia. done.
      * assert (differ vallist mi i = Ok (negb (same_value vallist mi i))) as ->.
        { unfold differ, same_value. destruct vallist as [vs|]; [|done]. specialize (Hv vs eq_refl). rewrite zlen_cons in Hv. by rewrite !rd_Ok by lia. }
        cbn [bind]. rewrite IH by (try done; lia). rewrite (proj2 (Z.eqb_neq mi (-1))) by lia. destruct (exact arg arglist (i + 1)); [done|].
        cbn [verdict existsb]. destruct (same_value vallist mi i); cbn [negb orb]; [done|]. by rewrite orb_true_r.
    + rewrite bool_decide_eq_false_2 by (intros ->; by rewrite abbreviates_refl in Ea). rewrite IH by (try done; lia). done.
Qed.

Lemma exact_None arg : forall arglist i, exact arg arglist i = None <-> arg ∉ arglist.
Proof.
  induction arglist as [|a arglist IH]; intros i; cbn [exact]; [set_solver|].
  destruct (bool_decide_reflect (a = arg)) as [->|Hne]; [set_solver|]. rewrite IH. set_solver.
Qed.

Lemma exact_Some arg : forall arglist i k, exact arg arglist i = Some k ->
  i <= k < i + zlen arglist /\ arglist.[k - i] = arg /\ forall j, i <= j < k -> arglist.[j - i] <> arg.
Proof.
  induction arglist as [|a arglist IH]; intros i k; cbn [exact]; [done|]. rewrite zlen_cons. pose proof (zlen_nonneg arglist).
  assert (forall j, i < j -> (a :: arglist).[j - i] = arglist.[j - (i + 1)]) as Hj.
  { intros j Hj. unfold aget. by replace (Z.to_nat (j - i)) with (S (Z.to_nat (j - (i + 1)))) by lia. }
  destruct (bool_decide_reflect (a = arg)) as [->|Hne].
  - intros [= ->]. rewrite Z.sub_diag. split_and!; done || lia.
  - intros (H1 & H2 & H3)%IH. split_and!; try lia; [by rewrite Hj by lia|]. intros j Hj'.
    destruct (decide (j = i)) as [->|]; [by rewrite Z.sub_diag|]. rewrite Hj by lia. apply H3. lia.
Qed.

Lemma elem_matching arg : forall arglist i k, k ∈ matching arg arglist i <-> i <= k < i + zlen arglist /\ abbreviates arg arglist.[k - i] = true.
Proof.
  induction arglist as [|a arglist IH]; intros i k; cbn [matching].
  { change (zlen (@nil (list Z))) with 0. split; [set_solver|lia]. }
  rewrite zlen_cons. pose proof (zlen_nonneg arglist).
  assert (forall j, i < j -> (a :: arglist).[j - i] = arglist.[j - (i + 1)]) as Hj.
  { intros j Hj. unfold aget. by replace (Z.to_nat (j - i)) with (S (Z.to_nat (j - (i + 1)))) by lia. }
  assert (k ∈ matching arg arglist (i + 1) <-> i < k < i + (zlen arglist + 1) /\ abbreviates arg (a :: arglist).[k - i] = true) as Hm.
  { rewrite IH. split; intros [H1 H2]; (split; [lia|]); [rewrite Hj by lia|rewrite Hj in H2 by lia]; done. }
  destruct (abbreviates arg a) eqn:Ea; rewrite ?elem_of_cons, Hm.
  - split; [intros [->|?]; [rewrite Z.sub_diag; by split; [lia|]|split; [lia|tauto]]|]. intros [H1 H2]. destruct (decide (k = i)); [by left|right; split; [lia|done]].
  - split; intros [H1 H2]; (split; [|done]); [lia|]. destruct (decide (k = i)) as [->|]; [|lia]. rewrite Z.sub_diag in H2. change (a :: arglist).[0] with a in H2. congruence.
Qed.

(** argmatch finds what it should: the first string equal to the argument;
    else the first one the argument abbreviates, when all that it abbreviates
    have the same value; else -1 when it abbreviates none, and -2 when it
    abbreviates two with different values (or two, without a value list). *)
Theorem argmatch_correct arg arglist vallist :
  (forall vs, vallist = Some vs -> zlen arglist <= zlen vs) ->
  exists r, argmatch arg arglist vallist = Ok r /\
    ((0 <= r < zlen arglist /\ arglist.[r] = arg /\ forall j, 0 <= j < r -> arglist.[j] <> arg) \/
     ((arg ∉ arglist) /\
      ((r = -1 /\ forall k, 0 <= k < zlen arglist -> abbreviates arg arglist.[k] = false) \/
       (0 <= r < zlen arglist /\ abbreviates arg arglist.[r] = true /\
        forall k, 0 <= k < zlen arglist -> abbreviates arg arglist.[k] = true -> k = r \/ same_value vallist r k = true) \/
       (r = -2 /\ exists j k, 0 <= j < zlen arglist /\ 0 <= k < zlen arglist /\ 
          abbreviates arg arglist.[j] = true /\ abbreviates arg arglist.[k] = true /\ same_value vallist j k = false)))).
Proof.
  intros Hv. unfold argmatch. rewrite argmatch_from_ok by (done || lia || by left). eexists. split; [done|].
  destruct (exact arg arglist 0) as [k|] eqn:Ee.
  - left. apply exact_Some in Ee as (H1 & H2 & H3). rewrite Z.sub_0_r in H2. split_and!; try lia; [done|]. intros j Hj. specialize (H3 j Hj). by rewrite Z.sub_0_r in H3.
  - right. split; [by apply (exact_None arg arglist 0)|]. change (-1 =? -1) with true. cbn [negb].
    assert (forall k, k ∈ matching arg arglist 0 <-> 0 <= k < zlen arglist /\ abbreviates arg arglist.[k] = true) as Hm.
    { intros k. rewrite elem_matching, Z.sub_0_r. done. }
    destruct (matching arg arglist 0) as [|p ms].
    + left. split; [done|]. intros k Hk. destruct (abbreviates arg arglist.[k]) eqn:Ea; [|done]. exfalso. apply (not_elem_of_nil k). by apply Hm.
    + right. assert (p ∈ p :: ms) as Hp by set_solver. apply Hm in Hp as [Hp Hpa]. cbn [verdict orb].
      destruct (existsb (fun i => negb (same_value vallist p i)) ms) eqn:Ex.
      * right. apply existsb_exists in Ex as (k & Hk & Hs). apply list_elem_of_In in Hk. destruct (proj1 (Hm k)) as [Hk1 Hk2]; [set_solver|].
        split; [done|]. exists p, k. split_and!; try lia; try done. by apply negb_true_iff.
      * left. split; [done|]. split; [done|]. intros k Hk Hka. assert (k ∈ p :: ms) as Hin by (by apply Hm). apply elem_of_cons in Hin as [->|Hin]; [by left|]. right.
        destruct (same_value vallist p k) eqn:Es; [done|]. exfalso. apply not_true_iff_false in Ex. apply Ex. apply existsb_exists. exists k.
        split; [by apply list_elem_of_In|]. by rewrite Es.
Qed.

End argmatch.

(** ** rm --interactive *)

Inductive interactive_type := interactive_never | interactive_once | interactive_always.

#[export] Instance interactive_type_eq_dec : EqDecision interactive_type.
Proof. solve_decision. Defined.
#[export] Instance interactive_type_inhabited : Inhabited interactive_type := populate interactive_never.

Definition interactive_args : list (list Z) := map bytes ["never"; "no"; "none"; "once"; "always"; "yes"].
Definition interactive_types : list interactive_type :=
  [interactive_never; interactive_never; interactive_never; interactive_once; interactive_always; interactive_always].

Inductive rm_interactive := RMI_ALWAYS | RMI_SOMETIMES | RMI_NEVER.

(** x.interactive, x.ignore_missing_files and prompt_once. *)
Definition interactive_option (optarg : option (list Z)) (st : rm_interactive * bool * bool) : res (rm_interactive * bool * bool) :=
  let '(_, ignore_missing_files, _) := st in
  let* i := match optarg with
            | Some arg => XARGMATCH arg interactive_args interactive_types
            | None => Ok interactive_always
            end in
  Ok match i with
     | interactive_never => (RMI_NEVER, ignore_missing_files, false)
     | interactive_once => (RMI_SOMETIMES, false, true)
     | interactive_always => (RMI_ALWAYS, false, false)
     end.

Lemma argmatch_correct_witness :
  argmatch (bytes "n") interactive_args (Some interactive_types) = Ok 0 /\
  exists r, argmatch (bytes "n") interactive_args (Some interactive_types) = Ok r /\
    ((0 <= r < zlen interactive_args /\ interactive_args.[r] = bytes "n" /\ forall j, 0 <= j < r -> interactive_args.[j] <> bytes "n") \/
     ((bytes "n" ∉ interactive_args) /\
      ((r = -1 /\ forall k, 0 <= k < zlen interactive_args -> abbreviates (bytes "n") interactive_args.[k] = false) \/
       (0 <= r < zlen interactive_args /\ abbreviates (bytes "n") interactive_args.[r] = true /\
        forall k, 0 <= k < zlen interactive_args -> abbreviates (bytes "n") interactive_args.[k] = true -> k = r \/ same_value (Some interactive_types) r k = true) \/
       (r = -2 /\ exists j k, 0 <= j < zlen interactive_args /\ 0 <= k < zlen interactive_args /\
          abbreviates (bytes "n") interactive_args.[j] = true /\ abbreviates (bytes "n") interactive_args.[k] = true /\
          same_value (Some interactive_types) j k = false)))).
Proof.
  split; [vm_compute; reflexivity|]. apply (argmatch_correct (bytes "n") interactive_args (Some interactive_types)). intros vs [= <-]. done.
Defined.

(** Abbreviations of synonyms are accepted, "o" is one of "once", and the empty
    argument is ambiguous. *)
Example interactive_examples :
  interactive_option (Some (bytes "no")) (RMI_ALWAYS, true, true) = Ok (RMI_NEVER, true, false) /\
  interactive_option (Some (bytes "o")) (RMI_ALWAYS, true, false) = Ok (RMI_SOMETIMES, false, true) /\
  interactive_option (Some (bytes "")) (RMI_ALWAYS, true, false) = Fail (ExitCall 1) /\
  interactive_option (Some (bytes "maybe")) (RMI_ALWAYS, true, false) = Fail (ExitCall 1).
Proof. split_and!; vm_compute; reflexivity. Qed.
