(* ===== verification/FileSet.v ===== *)
(** * Sets of files: utils/coreutils/lib/file-set.c, hash-triple.c, hash-pjw.c

    A client of the hash table of hash.c: entries are pointers to triples of a
    name, an inode and a device.  The memory of the triples is a map from
    addresses; the address 0 is NULL, and reading through it is a fault.  The
    hasher and the comparator given to the table read that memory. *)

From S2P Require Import Prelude Arrays CStrings Heap HashSizes GnuHash.
Open Scope Z_scope.

Record F_triple := Triple { name : list Z; st_ino : Z; st_dev : Z }.

#[export] Instance F_triple_eq_dec : EqDecision F_triple.
Proof. solve_decision. Defined.

Abbreviation triples := (gmap Z F_triple).

(** A read through a pointer. *)
Definition deref (m : triples) (p : Z) : res F_triple :=
  if p =? 0 then Fail NullDeref else match m !! p with Some t => Ok t | None => Fail Dangling end.

(** [h = *s + ((h << 9) | (h >> (SIZE_BITS - 9)))]: char is signed. *)
Definition pjw_step (h c : Z) : Z := u64 (s8 c + Z.lor (u64 (Z.shiftl h 9)) (Z.shiftr h 55)).

Definition hash_pjw (x : list Z) (tablesize : Z) : res Z :=
  let h := fold_left pjw_step x 0 in
  let* _ := demand (negb (tablesize =? 0)) DivByZero in
  Ok (h mod tablesize).

Definition triple_hash (m : triples) (x table_size : Z) : res Z :=
  let* p := deref m x in
  let* tmp := hash_pjw (name p) table_size in
  let* _ := demand (negb (table_size =? 0)) DivByZero in
  Ok (Z.lxor tmp (st_ino p) mod table_size).

Definition SAME_INODE (a b : F_triple) : bool := (st_ino a =? st_ino b) && (st_dev a =? st_dev b).

Definition triple_compare_ino_str (m : triples) (x y : Z) : res bool :=
  let* a := deref m x in
  let* b := deref m y in
  Ok (SAME_INODE a b && bool_decide (name a = name b)).

Definition triple_free (m : triples) (x : Z) : res triples :=
  let* _ := deref m x in Ok (delete x m).

(** [xmalloc]: an address that is not in use. *)
Definition new_address (m : triples) : Z := fresh ({[0]} ∪ dom m : gset Z).

Section file_set.
Context (malloc_ok : nat -> bool) (prime_fuel : nat).

(** [None] is the table NULL. *)
Definition record_file (ht : option Hash_table) (file : list Z) (ino dev : Z) (m : triples) (h : heap hash_entry)
    : res (option Hash_table * triples * heap hash_entry) :=
  match ht with
  | None => Ok (None, m, h)
  | Some t =>
      let ent := new_address m in
      let m := <[ent := Triple file ino dev]> m in
      let* (ent_from_table, t, h) := hash_insert malloc_ok prime_fuel (triple_hash m) (triple_compare_ino_str m) t ent h in
      let* _ := demand (negb (ent_from_table =? 0)) (ExitCall 1) in
      let* m := if negb (ent_from_table =? ent) then triple_free m ent else Ok m in
      Ok (Some t, m, h)
  end.

Definition seen_file (ht : option Hash_table) (file : list Z) (ino dev : Z) (m : triples) (h : heap hash_entry) : res bool :=
  match ht with
  | None => Ok false
  | Some t =>
      let new_ent := new_address m in
      let m := <[new_ent := Triple file ino dev]> m in
      let* d := hash_lookup (triple_hash m) (triple_compare_ino_str m) t new_ent h in
      Ok (negb (d =? 0))
  end.

End file_set.

(** ** The hasher and the comparator *)

Lemma new_address_ok m : new_address m <> 0 /\ m !! new_address m = None.
Proof.
  pose proof (is_fresh ({[0]} ∪ dom m : gset Z)) as Hf. fold (new_address m) in Hf. split; [set_solver|]. apply not_elem_of_dom. set_solver.
Qed.

Lemma deref_new m t : deref (<[new_address m := t]> m) (new_address m) = Ok t.
Proof. unfold deref. destruct (new_address_ok m) as [H0 _]. by rewrite (proj2 (Z.eqb_neq _ _) H0), lookup_insert_eq. Qed.

Lemma triple_hash_ok m x t n : deref m x = Ok t -> 0 < n ->
  exists i, triple_hash m x n = Ok i /\ 0 <= i < n.
Proof.
  intros E Hn. unfold triple_hash, hash_pjw. rewrite E. cbn [bind]. rewrite (proj2 (Z.eqb_neq n 0)) by lia. cbn [negb demand bind].
  eexists. split; [done|]. by apply Z.mod_pos_bound.
Qed.

(** On pointers to triples the comparator is an equivalence, the equality of
    name, inode and device, and the hasher respects it and stays inside the
    table. *)
Theorem triples_lawful m x y z a b c n :
  deref m x = Ok a -> deref m y = Ok b -> deref m z = Ok c -> 0 < n ->
  triple_compare_ino_str m x x = Ok true /\
  (triple_compare_ino_str m x y = Ok true <-> a = b) /\
  triple_compare_ino_str m x y = triple_compare_ino_str m y x /\
  (triple_compare_ino_str m x y = Ok true -> triple_compare_ino_str m y z = Ok true -> triple_compare_ino_str m x z = Ok true) /\
  (triple_compare_ino_str m x y = Ok true -> triple_hash m x n = triple_hash m y n) /\
  exists i, triple_hash m x n = Ok i /\ 0 <= i < n.
Proof.
  intros Ex Ey Ez Hn.
  assert (forall p q s t, deref m p = Ok s -> deref m q = Ok t -> triple_compare_ino_str m p q = Ok (bool_decide (s = t))) as Hc.
  { intros p q s t Ep Eq. unfold triple_compare_ino_str. rewrite Ep, Eq. cbn [bind]. f_equal. unfold SAME_INODE.
    destruct s as [n1 i1 d1], t as [n2 i2 d2]. cbn [name st_ino st_dev].
    destruct (Z.eqb_spec i1 i2), (Z.eqb_spec d1 d2), (bool_decide_reflect (n1 = n2)); subst; cbn [andb]; symmetry;
      (apply bool_decide_eq_true_2 || apply bool_decide_eq_false_2); congruence. }
  assert (triple_compare_ino_str m x y = Ok true <-> a = b) as Hxy.
  { rewrite (Hc _ _ _ _ Ex Ey). split; [intros [= E]; by apply bool_decide_eq_true in E|intros ->; by rewrite bool_decide_eq_true_2]. }
  split_and!; [by rewrite (Hc _ _ _ _ Ex Ex), bool_decide_eq_true_2|done| | | |by eapply triple_hash_ok].
  - rewrite (Hc _ _ _ _ Ex Ey), (Hc _ _ _ _ Ey Ex). f_equal. apply bool_decide_ext. by split.
  - intros ->%Hxy. rewrite (Hc _ _ _ _ Ey Ez), (Hc _ _ _ _ Ex Ez). done.
  - intros ->%Hxy. unfold triple_hash. by rewrite Ex, Ey.
Qed.

Lemma triples_lawful_witness :
  let m : triples := {[8 := Triple (bytes "a") 1 2; 16 := Triple (bytes "a") 1 2]} in
  triple_compare_ino_str m 8 8 = Ok true /\
  (triple_compare_ino_str m 8 16 = Ok true <-> Triple (bytes "a") 1 2 = Triple (bytes "a") 1 2) /\
  triple_compare_ino_str m 8 16 = triple_compare_ino_str m 16 8 /\
  (triple_compare_ino_str m 8 16 = Ok true -> triple_compare_ino_str m 16 8 = Ok true -> triple_compare_ino_str m 8 8 = Ok true) /\
  (triple_compare_ino_str m 8 16 = Ok true -> triple_hash m 8 11 = triple_hash m 16 11) /\
  exists i, triple_hash m 8 11 = Ok i /\ 0 <= i < 11.
Proof. intros m. apply (triples_lawful m 8 16 8 _ _ (Triple (bytes "a") 1 2) 11); (vm_compute; reflexivity) || lia. Defined.

(** ** The first file *)

(** The table calls the comparator on the NULL of an empty bucket, which
    triple_compare_ino_str reads through: recording a file in a table without
    entries is a fault, for every table size, name and state of the allocator,
    while looking for a file in such a table answers no. *)
Theorem first_record_faults malloc_ok prime_fuel t file ino dev m h :
  0 < n_buckets t -> zlen (bucket t) = n_buckets t -> Forall (fun b => data b = 0) (bucket t) ->
  record_file malloc_ok prime_fuel (Some t) file ino dev m h = Fail NullDeref /\
  seen_file (Some t) file ino dev m h = Ok false.
Proof.
  intros Hn Hl He. destruct (new_address_ok m) as [H0 _]. cbn [record_file seen_file].
  set (m' := <[new_address m := Triple file ino dev]> m). pose proof (deref_new m (Triple file ino dev)) as Hd. fold m' in Hd.
  destruct (triple_hash_ok m' (new_address m) _ (n_buckets t) Hd Hn) as (i & Ei & Hi).
  assert (slot_of (triple_hash m') t (new_address m) = Ok i) as Es.
  { unfold slot_of. rewrite Ei. cbn [bind]. by rewrite (proj2 (Z.ltb_lt _ _)) by lia. }
  assert (data (bucket t).[i] = 0) as Hb by (apply (Forall_aget_1 _ _ _ He); lia).
  split.
  - rewrite (insert_empty_faults _ _ _ _ _ _ _ i NullDeref); [done|done|done|lia|done|done|]. unfold triple_compare_ino_str. by rewrite Hd.
  - unfold hash_lookup. rewrite Es. cbn [bind]. rewrite rd_Ok by lia. cbn [bind]. by rewrite Hb.
Qed.

Lemma first_record_faults_witness :
  let t := Table (replicate 11 (Entry 0 None)) 11 0 0 DefaultTuning None None None in
  record_file (fun _ => true) 40 (Some t) (bytes "f") 3 4 ∅ (Heap ∅ 0) = Fail NullDeref /\ seen_file (Some t) (bytes "f") 3 4 ∅ (Heap ∅ 0) = Ok false.
Proof. apply (first_record_faults (fun _ => true) 40 (Table (replicate 11 (Entry 0 None)) 11 0 0 DefaultTuning None None None)); [done|done|by repeat constructor]. Defined.
