(* ===== verification/Stdio.v ===== *)
(** * Files and growing blocks

    What the commands of coreutils share: a file as the bytes it delivers and the
    errors that reading and closing it end in, and x2nrealloc of
    utils/coreutils/lib/xalloc.h, by which buffers grow.  [realloc] succeeds: a
    failure of it ends the program in [xalloc_die]. *)

From S2P Require Import Prelude Arrays.
Open Scope Z_scope.

(** What a name leads to: [None] cannot be opened. *)
Record file := File { file_bytes : list Z; read_error : bool; close_error : bool }.

(** A block of bytes, or NULL. *)
Definition block : Type := option (list (option Z)).

Definition cells (p : block) : list (option Z) := match p with Some cs => cs | None => [] end.

Definition realloc (p : block) (n : Z) : list (option Z) :=
  take (Z.to_nat n) (cells p) ++ uninit (n - zlen (cells p)).

Definition SIZE_MAX : Z := 18446744073709551615.

(** The new number of elements of [s] bytes. *)
Definition x2nrealloc_count (null : bool) (n s : Z) : res Z :=
  if null then
    Ok (if n =? 0 then let n := 64 / s in n + (if n =? 0 then 1 else 0) else n)
  else if SIZE_MAX / 3 * 2 / s <=? n then Fail (ExitCall 1)
  else Ok (u64 (n + (n + 1) / 2)).

(** For elements of one byte; the new block and its size. *)
Definition x2realloc (p : block) (n : Z) : res (list (option Z) * Z) :=
  let* n := x2nrealloc_count (match p with None => true | Some _ => false end) n 1 in
  Ok (realloc p n, n).

(** [memmove(p, p + from, n)] *)
Definition memmove_down (p : list (option Z)) (from n : Z) : res (list (option Z)) :=
  let* _ := demand ((0 <=? n) && (0 <=? from) && (from + n <=? zlen p)) OutOfBounds in
  Ok (take (Z.to_nat n) (drop (Z.to_nat from) p) ++ drop (Z.to_nat n) p).

(** What [fwrite(p, 1, n, stdout)] writes. *)
Definition fwrite (p : list (option Z)) (n : Z) : res (list Z) :=
  let* _ := demand ((0 <=? n) && (n <=? zlen p)) OutOfBounds in
  contents (take (Z.to_nat n) p).

(** ** A buffer that is filled from its start *)

Definition holds (p : list (option Z)) (s : list Z) : Prop := exists junk, p = map Some s ++ junk.

Lemma holds_len p s : holds p s -> zlen s <= zlen p.
Proof. intros [junk ->]. rewrite zlen_app, zlen_map. pose proof (zlen_nonneg junk). lia. Qed.

Lemma holds_put p s c : holds p s -> zlen s < zlen p ->
  exists p', wr p (zlen s) (Some c) = Ok p' /\ holds p' (s ++ [c]) /\ zlen p' = zlen p.
Proof.
  intros [[|x junk] ->] Hl; [rewrite app_nil_r, zlen_map in Hl; lia|].
  exists (map Some s ++ Some c :: junk). split_and!.
  - apply wr_middle, zlen_map.
  - exists junk. by rewrite map_app, <- app_assoc.
  - by rewrite !zlen_app, !zlen_cons.
Qed.

Lemma holds_rd p s1 c s2 : holds p (s1 ++ c :: s2) -> rdu p (zlen s1) = Ok c.
Proof. intros [junk ->]. rewrite map_app, <- app_assoc. cbn [map app]. apply rdu_middle, zlen_map. Qed.

Lemma holds_prefix p s1 s2 : holds p (s1 ++ s2) -> holds p s1.
Proof. intros [junk ->]. exists (map Some s2 ++ junk). by rewrite map_app, <- app_assoc. Qed.

Lemma holds_nil p : holds p [].
Proof. by exists p. Qed.

Lemma holds_fwrite p s1 s2 : holds p (s1 ++ s2) -> fwrite p (zlen s1) = Ok s1.
Proof.
  intros Hp. apply holds_prefix in Hp. pose proof (holds_len _ _ Hp). pose proof (zlen_nonneg s1). destruct Hp as [junk ->]. unfold fwrite.
  rewrite (proj2 (Z.leb_le 0 (zlen s1))), (proj2 (Z.leb_le (zlen s1) _)) by lia. cbn [andb demand bind].
  unfold zlen. rewrite Nat2Z.id, take_app_length' by (by rewrite length_map). apply contents_Some.
Qed.

Lemma holds_memmove p s1 s2 : holds p (s1 ++ s2) ->
  exists p', memmove_down p (zlen s1) (zlen s2) = Ok p' /\ holds p' s2 /\ zlen p' = zlen p.
Proof.
  intros Hp. pose proof (holds_len _ _ Hp) as Hl. rewrite zlen_app in Hl. pose proof (zlen_nonneg s1). pose proof (zlen_nonneg s2).
  unfold memmove_down. rewrite (proj2 (Z.leb_le 0 (zlen s2))), (proj2 (Z.leb_le 0 (zlen s1))), (proj2 (Z.leb_le (zlen s1 + zlen s2) _)) by lia.
  cbn [andb demand bind]. eexists. split; [done|]. destruct Hp as [junk ->].
  rewrite map_app, <- app_assoc.
  assert (drop (Z.to_nat (zlen s1)) (map Some s1 ++ map Some s2 ++ junk) = map Some s2 ++ junk) as ->
    by (unfold zlen; rewrite Nat2Z.id; by apply drop_app_length'; rewrite length_map).
  assert (take (Z.to_nat (zlen s2)) (map Some s2 ++ junk) = map Some s2) as ->
    by (unfold zlen; rewrite Nat2Z.id; by apply take_app_length'; rewrite length_map).
  split; [by eexists|]. unfold zlen in *. rewrite !length_app, length_drop, !length_app, !length_map. lia.
Qed.

(** Growing keeps what is held. *)
Lemma x2realloc_ok (p : block) s :
  holds (cells p) s -> p = None \/ 0 < zlen (cells p) -> zlen (cells p) < SIZE_MAX / 3 * 2 ->
  exists p' n, x2realloc p (zlen (cells p)) = Ok (p', n) /\ holds p' s /\ zlen p' = n /\
    zlen (cells p) < n <= 64 + 2 * zlen (cells p) /\ 3 * zlen (cells p) <= 2 * n /\ (p = None -> n = 64).
Proof.
  intros Hs Hp Hmax. assert (exists n, x2realloc p (zlen (cells p)) = Ok (realloc p n, n) /\
    zlen (cells p) < n <= 64 + 2 * zlen (cells p) /\ 3 * zlen (cells p) <= 2 * n /\ (p = None -> n = 64)) as (n & E & Hn & H3 & H0).
  { unfold x2realloc, x2nrealloc_count. destruct p as [cs|]; [|change (zlen (cells None)) with 0; by exists 64]. destruct Hp as [?|Hp]; [done|]. cbn [cells] in *.
    rewrite Z.div_1_r, (proj2 (Z.leb_gt _ (zlen cs))) by done. cbn [bind].
    pose proof (Z.div_mod (zlen cs + 1) 2 ltac:(lia)). pose proof (Z.mod_pos_bound (zlen cs + 1) 2 ltac:(lia)).
    change (SIZE_MAX / 3 * 2) with 12297829382473034410 in Hmax.
    unfold u64. rewrite Z.mod_small by lia. eexists. split; [done|]. split_and!; lia || done. }
  exists (realloc p n), n. pose proof (zlen_nonneg (cells p)).
  assert (take (Z.to_nat n) (cells p) = cells p) as Et by (apply take_ge; unfold zlen in *; lia).
  unfold realloc in *. rewrite Et in *. split; [done|]. split; [|split; [|done]].
  - destruct Hs as [junk ->]. eexists. by rewrite <- app_assoc.
  - rewrite zlen_app. unfold uninit. rewrite zlen_replicate; lia.
Qed.
