(* ===== verification/Checksums.v ===== *)
(** * The command cksum: utils/coreutils/src/cksum.c

    A file is the list of its bytes and
    whether reading it ends in an error; [fread] fills its buffer as long as
    there are bytes.  The CRC of cksum is shown to be the remainder of the
    message by the generator polynomial over GF(2), as POSIX has it. *)

From Stdlib Require Import Wf_nat.
From S2P Require Import Prelude Arrays CStrings Stdio.
Open Scope Z_scope.

Definition BUFLEN : Z := 65536.

Definition crctab : list Z :=
  [0x00000000; 0x04c11db7; 0x09823b6e; 0x0d4326d9; 0x130476dc; 0x17c56b6b; 0x1a864db2; 0x1e475005;
   0x2608edb8; 0x22c9f00f; 0x2f8ad6d6; 0x2b4bcb61; 0x350c9b64; 0x31cd86d3; 0x3c8ea00a; 0x384fbdbd;
   0x4c11db70; 0x48d0c6c7; 0x4593e01e; 0x4152fda9; 0x5f15adac; 0x5bd4b01b; 0x569796c2; 0x52568b75;
   0x6a1936c8; 0x6ed82b7f; 0x639b0da6; 0x675a1011; 0x791d4014; 0x7ddc5da3; 0x709f7b7a; 0x745e66cd;
   0x9823b6e0; 0x9ce2ab57; 0x91a18d8e; 0x95609039; 0x8b27c03c; 0x8fe6dd8b; 0x82a5fb52; 0x8664e6e5;
   0xbe2b5b58; 0xbaea46ef; 0xb7a96036; 0xb3687d81; 0xad2f2d84; 0xa9ee3033; 0xa4ad16ea; 0xa06c0b5d;
   0xd4326d90; 0xd0f37027; 0xddb056fe; 0xd9714b49; 0xc7361b4c; 0xc3f706fb; 0xceb42022; 0xca753d95;
   0xf23a8028; 0xf6fb9d9f; 0xfbb8bb46; 0xff79a6f1; 0xe13ef6f4; 0xe5ffeb43; 0xe8bccd9a; 0xec7dd02d;
   0x34867077; 0x30476dc0; 0x3d044b19; 0x39c556ae; 0x278206ab; 0x23431b1c; 0x2e003dc5; 0x2ac12072;
   0x128e9dcf; 0x164f8078; 0x1b0ca6a1; 0x1fcdbb16; 0x018aeb13; 0x054bf6a4; 0x0808d07d; 0x0cc9cdca;
   0x7897ab07; 0x7c56b6b0; 0x71159069; 0x75d48dde; 0x6b93dddb; 0x6f52c06c; 0x6211e6b5; 0x66d0fb02;
   0x5e9f46bf; 0x5a5e5b08; 0x571d7dd1; 0x53dc6066; 0x4d9b3063; 0x495a2dd4; 0x44190b0d; 0x40d816ba;
   0xaca5c697; 0xa864db20; 0xa527fdf9; 0xa1e6e04e; 0xbfa1b04b; 0xbb60adfc; 0xb6238b25; 0xb2e29692;
   0x8aad2b2f; 0x8e6c3698; 0x832f1041; 0x87ee0df6; 0x99a95df3; 0x9d684044; 0x902b669d; 0x94ea7b2a;
   0xe0b41de7; 0xe4750050; 0xe9362689; 0xedf73b3e; 0xf3b06b3b; 0xf771768c; 0xfa325055; 0xfef34de2;
   0xc6bcf05f; 0xc27dede8; 0xcf3ecb31; 0xcbffd686; 0xd5b88683; 0xd1799b34; 0xdc3abded; 0xd8fba05a;
   0x690ce0ee; 0x6dcdfd59; 0x608edb80; 0x644fc637; 0x7a089632; 0x7ec98b85; 0x738aad5c; 0x774bb0eb;
   0x4f040d56; 0x4bc510e1; 0x46863638; 0x42472b8f; 0x5c007b8a; 0x58c1663d; 0x558240e4; 0x51435d53;
   0x251d3b9e; 0x21dc2629; 0x2c9f00f0; 0x285e1d47; 0x36194d42; 0x32d850f5; 0x3f9b762c; 0x3b5a6b9b;
   0x0315d626; 0x07d4cb91; 0x0a97ed48; 0x0e56f0ff; 0x1011a0fa; 0x14d0bd4d; 0x19939b94; 0x1d528623;
   0xf12f560e; 0xf5ee4bb9; 0xf8ad6d60; 0xfc6c70d7; 0xe22b20d2; 0xe6ea3d65; 0xeba91bbc; 0xef68060b;
   0xd727bbb6; 0xd3e6a601; 0xdea580d8; 0xda649d6f; 0xc423cd6a; 0xc0e2d0dd; 0xcda1f604; 0xc960ebb3;
   0xbd3e8d7e; 0xb9ff90c9; 0xb4bcb610; 0xb07daba7; 0xae3afba2; 0xaafbe615; 0xa7b8c0cc; 0xa379dd7b;
   0x9b3660c6; 0x9ff77d71; 0x92b45ba8; 0x9675461f; 0x8832161a; 0x8cf30bad; 0x81b02d74; 0x857130c3;
   0x5d8a9099; 0x594b8d2e; 0x5408abf7; 0x50c9b640; 0x4e8ee645; 0x4a4ffbf2; 0x470cdd2b; 0x43cdc09c;
   0x7b827d21; 0x7f436096; 0x7200464f; 0x76c15bf8; 0x68860bfd; 0x6c47164a; 0x61043093; 0x65c52d24;
   0x119b4be9; 0x155a565e; 0x18197087; 0x1cd86d30; 0x029f3d35; 0x065e2082; 0x0b1d065b; 0x0fdc1bec;
   0x3793a651; 0x3352bbe6; 0x3e119d3f; 0x3ad08088; 0x2497d08d; 0x2056cd3a; 0x2d15ebe3; 0x29d4f654;
   0xc5a92679; 0xc1683bce; 0xcc2b1d17; 0xc8ea00a0; 0xd6ad50a5; 0xd26c4d12; 0xdf2f6bcb; 0xdbee767c;
   0xe3a1cbc1; 0xe760d676; 0xea23f0af; 0xeee2ed18; 0xf0a5bd1d; 0xf464a0aa; 0xf9278673; 0xfde69bc4;
   0x89b8fd09; 0x8d79e0be; 0x803ac667; 0x84fbdbd0; 0x9abc8bd5; 0x9e7d9662; 0x933eb0bb; 0x97ffad0c;
   0xafb010b1; 0xab710d06; 0xa6322bdf; 0xa2f33668; 0xbcb4666d; 0xb8757bda; 0xb5365d03; 0xb1f740b4].

(** [fread(buf, 1, n, fp)]: the bytes read and those left. *)
Definition fread (n : Z) (bs : list Z) : list Z * list Z := (take (Z.to_nat n) bs, drop (Z.to_nat n) bs).

(** uint_fast32_t has 64 bits. *)
Definition crc_step (crc b : Z) : res Z :=
  let* t := rd crctab (Z.land (Z.lxor (Z.shiftr crc 24) b) 255) in
  Ok (Z.lxor (u64 (Z.shiftl crc 8)) t).

Fixpoint crc_buffer (buf : list Z) (crc : Z) : res Z :=
  match buf with
  | [] => Ok crc
  | b :: buf => let* crc := crc_step crc b in crc_buffer buf crc
  end.

(** One turn of the reading loop; a short read sets the end-of-file mark. *)
Definition read_turn (buflen : Z) (st : list Z * Z * Z) : res (list Z * Z * Z + Z * Z) :=
  let '(bs, crc, length) := st in
  let '(buf, bs) := fread buflen bs in
  let bytes_read := zlen buf in
  if bytes_read >? 0 then
    let* _ := demand (negb (u64 (length + bytes_read) <? length)) (ExitCall 1) in
    let* crc := crc_buffer buf crc in
    let length := u64 (length + bytes_read) in
    if bytes_read <? buflen then Ok (inr (crc, length)) else Ok (inl (bs, crc, length))
  else Ok (inr (crc, length)).

(** [for (; length; length >>= 8)] *)
Definition crc_length (length crc : Z) : res Z :=
  let* (_, crc) := while 9 (fun '(length, _) => Ok (negb (length =? 0)))
    (fun '(length, crc) => let* crc := crc_step crc length in Ok (Z.shiftr length 8, crc)) (length, crc) in
  Ok crc.

(** The checksum and the length printed; [None] is the result false. *)
Definition cksum (f : option file) (is_stdin : bool) : res (option (Z * Z)) :=
  match f with
  | None => Ok None
  | Some f =>
      let* (crc, length) := loop (S (S (List.length (file_bytes f)))) (read_turn BUFLEN) (file_bytes f, 0, 0) in
      if read_error f then Ok None
      else if negb is_stdin && close_error f then Ok None
      else
        let* crc := crc_length length crc in
        Ok (Some (Z.land (Z.lnot crc) 4294967295, length))
  end.

(** ** The remainder by the generator *)

(** x^32 + x^26 + x^23 + x^22 + x^16 + x^12 + x^11 + x^10 + x^8 + x^7 + x^5 +
    x^4 + x^2 + x + 1; bit [i] of a number is its coefficient of x^i. *)
Definition G : Z := 0x104c11db7.

(** Multiplication by x. *)
Definition xtime (c : Z) : Z := if Z.testbit c 31 then Z.lxor (Z.shiftl c 1) G else Z.shiftl c 1.

(** The remainder of a polynomial, from its leading coefficient down. *)
Fixpoint pos_mod (p : positive) : Z :=
  match p with
  | xH => 1
  | xO p => xtime (pos_mod p)
  | xI p => Z.lxor 1 (xtime (pos_mod p))
  end.

Definition poly_mod (a : Z) : Z := match a with Zpos p => pos_mod p | _ => 0 end.

(** A message as one polynomial. *)
Definition message (bs : list Z) : Z := fold_left (fun m b => Z.lxor (Z.shiftl m 8) b) bs 0.

(** The length of a file as bytes, the least significant first, without
    leading zeros. *)
Fixpoint length_bytes (fuel : nat) (n : Z) : list Z :=
  match fuel with
  | O => []
  | S fuel => if n =? 0 then [] else (n mod 256) :: length_bytes fuel (n / 256)
  end.

Definition small (c : Z) : Prop := 0 <= c < 2 ^ 32.

(** Equations between exclusive ors, bit by bit. *)
Ltac xor_bits :=
  apply Z.bits_inj'; intros i _; rewrite ?Z.lxor_spec, ?Z.bits_0;
  repeat match goal with |- context [Z.testbit ?a ?i] => destruct (Z.testbit a i) end; done.

Lemma xtime_lxor a b : xtime (Z.lxor a b) = Z.lxor (xtime a) (xtime b).
Proof.
  unfold xtime. rewrite Z.lxor_spec, Z.shiftl_lxor.
  destruct (Z.testbit a 31), (Z.testbit b 31); cbn [xorb]; xor_bits.
Qed.

Definition n_mod (n : N) : Z := poly_mod (Z.of_N n).

Lemma n_mod_double n : n_mod (Pos.Ndouble n) = xtime (n_mod n).
Proof. by destruct n. Qed.

Lemma n_mod_succ_double n : n_mod (Pos.Nsucc_double n) = Z.lxor 1 (xtime (n_mod n)).
Proof. by destruct n. Qed.

#[local] Arguments Pos.lxor !p !q : simpl nomatch.

Lemma pos_mod_lxor p : forall q, n_mod (Pos.lxor p q) = Z.lxor (pos_mod p) (pos_mod q).
Proof.
  induction p as [p IH|p IH|]; intros [q|q|]; cbn [Pos.lxor pos_mod]; rewrite ?n_mod_double, ?n_mod_succ_double, ?IH, ?xtime_lxor;
    try (unfold n_mod; cbn [Z.of_N poly_mod pos_mod]);
    xor_bits.
Qed.

Lemma poly_mod_lxor a b : 0 <= a -> 0 <= b -> poly_mod (Z.lxor a b) = Z.lxor (poly_mod a) (poly_mod b).
Proof.
  intros Ha Hb. destruct a as [|p|p], b as [|q|q]; try lia; cbn [Z.lxor poly_mod]; rewrite ?Z.lxor_0_r; try done.
  apply pos_mod_lxor.
Qed.

Lemma small_bits c : small c <-> 0 <= c /\ forall i, 32 <= i -> Z.testbit c i = false.
Proof.
  unfold small. split.
  - intros Hc. split; [lia|]. intros i Hi. destruct (decide (c = 0)) as [->|]; [apply Z.bits_0|]. apply Z.bits_above_log2; [lia|].
    apply Z.log2_lt_pow2; [lia|]. apply Z.lt_le_trans with (2 ^ 32); [lia|]. apply Z.pow_le_mono_r; lia.
  - intros [H0 Hb]. split; [done|]. destruct (decide (c = 0)) as [->|]; [lia|]. apply Z.log2_lt_pow2; [lia|].
    destruct (decide (Z.log2 c < 32)) as [|Hl]; [done|]. exfalso. specialize (Hb (Z.log2 c) ltac:(lia)).
    rewrite Z.bit_log2 in Hb by lia. done.
Qed.

Lemma G_bits i : 33 <= i -> Z.testbit G i = false.
Proof. intros Hi. apply Z.bits_above_log2; [done|]. change (Z.log2 G) with 32. lia. Qed.

Lemma xtime_small c : small c -> small (xtime c).
Proof.
  intros Hc. apply small_bits in Hc as [H0 Hb]. unfold xtime. destruct (Z.testbit c 31) eqn:E; apply small_bits; split.
  - apply Z.lxor_nonneg. rewrite Z.shiftl_nonneg. done.
  - intros i Hi. rewrite Z.lxor_spec, Z.shiftl_spec by lia. destruct (decide (i = 32)) as [->|].
    + change (32 - 1) with 31. by rewrite E.
    + rewrite Hb, G_bits by lia. done.
  - by apply Z.shiftl_nonneg.
  - intros i Hi. rewrite Z.shiftl_spec by lia. destruct (decide (i = 32)) as [->|]; [done|]. apply Hb. lia.
Qed.

Lemma poly_mod_small a : small (poly_mod a).
Proof.
  destruct a as [|p|p]; [done| |done]. cbn [poly_mod].
  assert (forall c, small c -> small (Z.lxor 1 c)) as H1.
  { intros c [H0 Hb]%small_bits. apply small_bits. split; [apply Z.lxor_nonneg; lia|]. intros i Hi. rewrite Z.lxor_spec, Hb by done.
    rewrite (Z.bits_above_log2 1) by (simpl; lia). done. }
  induction p as [p IH|p IH|]; cbn [pos_mod]; [by apply H1, xtime_small|by apply xtime_small|done].
Qed.

(** A remainder is its own remainder. *)
Lemma poly_mod_id c : small c -> poly_mod c = c.
Proof.
  intros Hc. destruct c as [|p|p]; [done| |unfold small in Hc; lia]. cbn [poly_mod].
  assert (forall q, small (Zpos q~0) -> xtime (Zpos q) = Zpos q~0) as Hx.
  { intros q [_ Hb]%small_bits. unfold xtime. specialize (Hb 32 ltac:(lia)). rewrite (Z.testbit_even_succ (Zpos q) 31 ltac:(lia) : Z.testbit (Zpos q~0) 32 = _) in Hb.
    by rewrite Hb. }
  induction p as [p IH|p IH|]; cbn [pos_mod]; [| |done]; unfold small in *.
  - rewrite IH, Hx by lia. done.
  - rewrite IH, Hx by lia. done.
Qed.

Lemma poly_mod_shiftl a k : 0 <= a -> poly_mod (Z.shiftl a (Z.of_nat k)) = poly_mod (Z.shiftl (poly_mod a) (Z.of_nat k)).
Proof.
  intros Ha. induction k as [|k IH]; [rewrite !Z.shiftl_0_r; symmetry; apply poly_mod_id, poly_mod_small|].
  assert (forall b, 0 <= b -> poly_mod (Z.shiftl b (Z.of_nat (S k))) = xtime (poly_mod (Z.shiftl b (Z.of_nat k)))) as H.
  { intros b Hb. replace (Z.of_nat (S k)) with (Z.of_nat k + 1) by lia. rewrite <- Z.shiftl_shiftl by lia.
    apply (Z.shiftl_nonneg b (Z.of_nat k)) in Hb. destruct (Z.shiftl b (Z.of_nat k)); done. }
  rewrite H by done. rewrite H by apply poly_mod_small. by rewrite IH.
Qed.

(** ** The table *)

Lemma crctab_ok i : 0 <= i < 256 -> rd crctab i = Ok (poly_mod (Z.shiftl i 32)).
Proof.
  intros Hi. assert (crctab = map (fun i => poly_mod (Z.shiftl (Z.of_nat i) 32)) (seq 0 256)) as E by (by vm_compute).
  rewrite rd_Ok by done. rewrite E. unfold aget. f_equal. apply list_lookup_total_correct. rewrite list_lookup_fmap.
  rewrite (lookup_seq_lt 0 256) by lia. cbn [fmap option_fmap option_map]. rewrite Nat.add_0_l, Z2Nat.id by lia. done.
Qed.

(** One byte: the low half of the register is the remainder of the message so
    far. *)
Lemma crc_step_ok crc b :
  0 <= crc -> 0 <= b ->
  exists crc', crc_step crc b = Ok crc' /\ 0 <= crc' /\
    crc' mod 2 ^ 32 = poly_mod (Z.lxor (Z.shiftl (crc mod 2 ^ 32) 8) (Z.shiftl (b mod 256) 32)).
Proof.
  intros Hc Hb. unfold crc_step. set (i := Z.land _ 255).
  assert (0 <= i < 256) as Hi by (unfold i; change 255 with (Z.ones 8); rewrite Z.land_ones by lia; by apply Z.mod_pos_bound).
  rewrite (crctab_ok i Hi). cbn [bind]. pose proof (poly_mod_small (Z.shiftl i 32)) as Ht. eexists. split; [done|].
  assert (0 <= u64 (Z.shiftl crc 8)) by (unfold u64; apply Z.mod_pos_bound; lia).
  split; [apply Z.lxor_nonneg; unfold small in Ht; lia|].
  set (lo := Z.shiftl crc 8 mod 2 ^ 32). assert (small lo) as Hlo by (unfold small, lo; apply Z.mod_pos_bound; lia).
  assert (Z.lxor (Z.shiftl (crc mod 2 ^ 32) 8) (Z.shiftl (b mod 256) 32) = Z.lxor lo (Z.shiftl i 32)) as ->.
  { unfold lo, i. change 256 with (2 ^ 8). change 255 with (Z.ones 8). rewrite <- !Z.land_ones by lia.
    apply Z.bits_inj'. intros k Hk. rewrite !Z.lxor_spec, Z.land_spec, !Z.shiftl_spec, !Z.testbit_ones_nonneg by lia.
    destruct (decide (k < 32)).
    - rewrite (Z.testbit_neg_r _ (k - 32)) by lia. rewrite (Z.testbit_neg_r _ (k - 32)) by lia.
      destruct (decide (k < 8)); [rewrite !(Z.testbit_neg_r _ (k - 8)) by lia; done|].
      rewrite Z.land_spec, Z.testbit_ones_nonneg by lia. rewrite (proj2 (Z.ltb_lt (k - 8) 32)), (proj2 (Z.ltb_lt k 32)) by lia. done.
    - rewrite !Z.land_spec, Z.lxor_spec, !Z.testbit_ones_nonneg, Z.shiftr_spec by lia.
      replace (k - 32 + 24) with (k - 8) by lia. rewrite (proj2 (Z.ltb_ge k 32)) by lia. rewrite andb_false_r, xorb_false_l.
      destruct (Z.ltb_spec (k - 8) 32), (Z.ltb_spec (k - 32) 8); try lia; rewrite ?andb_true_r, ?andb_false_r; done. }
  rewrite poly_mod_lxor by (unfold small in Hlo; try apply Z.shiftl_nonneg; lia). rewrite (poly_mod_id lo Hlo).
  apply small_bits in Ht as [_ Ht]. unfold lo, u64. change 18446744073709551616 with (2 ^ 64). rewrite <- !Z.land_ones by lia.
  apply Z.bits_inj'. intros k Hk. rewrite Z.land_spec, !Z.lxor_spec, !Z.land_spec, !Z.testbit_ones_nonneg by lia.
  destruct (Z.ltb_spec k 32); [|rewrite Ht by lia; by rewrite !andb_false_r].
  rewrite (proj2 (Z.ltb_lt k 64)) by lia. by rewrite !andb_true_r.
Qed.

(** The register after the bytes of a message. *)
Definition registers (m crc : Z) : Prop := 0 <= crc /\ crc mod 2 ^ 32 = poly_mod (Z.shiftl m 32).

Lemma registers_step m crc b :
  0 <= m -> 0 <= b -> registers m crc ->
  exists crc', crc_step crc b = Ok crc' /\ registers (Z.lxor (Z.shiftl m 8) (b mod 256)) crc'.
Proof.
  intros Hm Hb [H0 Hr]. destruct (crc_step_ok crc b H0 Hb) as (crc' & E & H0' & Hr'). exists crc'. split; [done|]. split; [done|].
  assert (0 <= b mod 256) by (apply Z.mod_pos_bound; lia).
  rewrite Hr', Hr, Z.shiftl_lxor, Z.shiftl_shiftl by lia. replace (8 + 32) with (32 + 8) by lia. rewrite <- Z.shiftl_shiftl by lia.
  rewrite !poly_mod_lxor by (apply Z.shiftl_nonneg; try apply Z.shiftl_nonneg; try apply poly_mod_small; lia).
  f_equal. symmetry. apply (poly_mod_shiftl (Z.shiftl m 32) 8). by apply Z.shiftl_nonneg.
Qed.

(** [poly_mod a] differs from [a] by a multiple of the generator, so with
    [poly_mod_small] it is the remainder. *)
Inductive multiple : Z -> Prop :=
| multiple_0 : multiple 0
| multiple_add a k : multiple a -> 0 <= k -> multiple (Z.lxor a (Z.shiftl G k)).

Lemma multiple_double a : multiple a -> multiple (Z.shiftl a 1).
Proof.
  induction 1 as [|a k _ IH Hk]; [constructor|]. rewrite Z.shiftl_lxor, Z.shiftl_shiftl by lia. constructor; [done|lia].
Qed.

Lemma poly_mod_remainder a : 0 <= a -> multiple (Z.lxor a (poly_mod a)) /\ small (poly_mod a).
Proof.
  intros Ha. split; [|apply poly_mod_small]. destruct a as [|p|p]; [constructor| |lia]. cbn [poly_mod]. clear Ha.
  assert (forall a, multiple a -> multiple (Z.lxor a G)) as HG.
  { intros a Hm. rewrite <- (Z.shiftl_0_r G). by constructor. }
  assert (forall q, multiple (Z.lxor (Zpos q) (pos_mod q)) -> multiple (Z.lxor (Z.shiftl (Zpos q) 1) (xtime (pos_mod q)))) as Hx.
  { intros q Hq. unfold xtime. apply multiple_double in Hq. rewrite Z.shiftl_lxor in Hq.
    destruct (Z.testbit (pos_mod q) 31); [|done]. rewrite <- Z.lxor_assoc. by apply HG. }
  induction p as [p IH|p IH|]; cbn [pos_mod].
  - replace (Z.lxor (Zpos p~1) (Z.lxor 1 (xtime (pos_mod p)))) with (Z.lxor (Z.shiftl (Zpos p) 1) (xtime (pos_mod p))); [exact (Hx p IH)|].
    change (Zpos p~1) with (Z.lxor 1 (Z.shiftl (Zpos p) 1)). xor_bits.
  - exact (Hx p IH).
  - constructor.
Qed.

(** ** The whole file *)

Definition feed (m : Z) (bs : list Z) : Z := fold_left (fun m b => Z.lxor (Z.shiftl m 8) b) bs m.

Lemma feed_nonneg bs : forall m, 0 <= m -> Forall byte bs -> 0 <= feed m bs.
Proof.
  induction bs as [|b bs IH]; intros m Hm Hb; [done|]. apply Forall_cons in Hb as [Hb Hbs]. cbn. apply IH; [|done].
  apply Z.lxor_nonneg. rewrite Z.shiftl_nonneg. unfold byte in Hb. lia.
Qed.

Lemma crc_buffer_ok bs : forall m crc, 0 <= m -> Forall byte bs -> registers m crc ->
  exists crc', crc_buffer bs crc = Ok crc' /\ registers (feed m bs) crc'.
Proof.
  induction bs as [|b bs IH]; intros m crc Hm Hb Hr; [by exists crc|]. apply Forall_cons in Hb as [Hb Hbs]. unfold byte in Hb.
  cbn [crc_buffer]. destruct (registers_step m crc b Hm ltac:(lia) Hr) as (crc1 & -> & Hr1). cbn [bind].
  rewrite Z.mod_small in Hr1 by lia. apply (IH _ crc1); [|done|done]. apply Z.lxor_nonneg. rewrite Z.shiftl_nonneg. lia.
Qed.

Lemma read_loop n bs : 0 < n -> forall fuel m crc len, (length bs < fuel)%nat -> Forall byte bs -> 0 <= m -> registers m crc ->
  0 <= len -> len + zlen bs < 2 ^ 64 ->
  exists crc', loop fuel (read_turn n) (bs, crc, len) = Ok (crc', len + zlen bs) /\ registers (feed m bs) crc'.
Proof.
  intros Hn. induction (well_founded_ltof (list Z) (@length Z) bs) as [bs _ IH]. unfold ltof in IH.
  intros [|fuel] m crc len Hf Hb Hm Hr H0 Hl; [lia|]. cbn [loop]. unfold read_turn at 1, fread.
  set (buf := take _ bs). set (bs' := drop _ bs). assert (bs = buf ++ bs') as E by (symmetry; apply take_drop).
  destruct (Z.gtb_spec (zlen buf) 0) as [Hz|Hz].
  - pose proof (zlen_nonneg bs'). rewrite E, zlen_app in Hl. unfold u64. rewrite Z.mod_small by lia.
    rewrite (proj2 (Z.ltb_ge (len + zlen buf) len)) by lia. cbn [negb demand bind]. rewrite E in Hb. apply Forall_app in Hb as [Hb1 Hb2].
    destruct (crc_buffer_ok buf m crc Hm Hb1 Hr) as (crc1 & -> & Hr1). cbn [bind]. destruct (Z.ltb_spec (zlen buf) n) as [Hs|Hs]; cbn [bind].
    + exists crc1. assert (bs' = []) as Eb. { apply nil_length_inv. unfold bs', buf, zlen in *. rewrite length_take in Hs. rewrite length_drop. lia. }
      rewrite E, Eb, app_nil_r. done.
    + destruct (IH bs' ltac:(unfold bs'; rewrite length_drop; unfold buf, zlen in Hz; rewrite length_take in Hz; lia)
        fuel (feed m buf) crc1 (len + zlen buf)) as (crc2 & -> & Hr2); try done.
      * rewrite E, length_app in Hf. unfold zlen in Hz. lia.
      * by apply feed_nonneg.
      * lia.
      * lia.
      * exists crc2. rewrite E, zlen_app. split; [do 2 f_equal; lia|]. unfold feed in *. by rewrite fold_left_app.
  - assert (bs = []) as ->. { apply nil_length_inv. unfold buf, zlen in Hz. rewrite length_take in Hz. lia. }
    exists crc. cbn [bind]. by rewrite Z.add_0_r.
Qed.

Lemma length_loop fuel : forall n m crc, 0 <= n < 256 ^ Z.of_nat fuel -> 0 <= m -> registers m crc ->
  exists crc', while (S fuel) (fun '(length, _) => Ok (negb (length =? 0)))
      (fun '(length, crc) => let* crc := crc_step crc length in Ok (Z.shiftr length 8, crc)) (n, crc) = Ok (0, crc') /\
    registers (feed m (length_bytes fuel n)) crc'.
Proof.
  induction fuel as [|fuel IH]; intros n m crc Hn Hm Hr; rewrite while_step; cbn [bind length_bytes].
  - assert (n = 0) as -> by lia. cbn [Z.eqb negb]. by exists crc.
  - destruct (Z.eqb_spec n 0) as [->|Hn0]; cbn [negb]; [by exists crc|].
    destruct (registers_step m crc n Hm ltac:(lia) Hr) as (crc1 & -> & Hr1). cbn [bind].
    rewrite Z.shiftr_div_pow2 by lia. change (2 ^ 8) with 256. apply IH; [|apply Z.lxor_nonneg; rewrite Z.shiftl_nonneg|done].
    + split; [apply Z.div_pos; lia|]. apply Z.div_lt_upper_bound; [lia|]. rewrite Nat2Z.inj_succ, Z.pow_succ_r in Hn by lia. lia.
    + pose proof (Z.mod_pos_bound n 256). lia.
Qed.

Lemma lnot_low c m : c mod 2 ^ 32 = m -> Z.land (Z.lnot c) 4294967295 = 2 ^ 32 - 1 - m.
Proof.
  intros <-. change 4294967295 with (Z.ones 32). rewrite Z.land_ones by lia. unfold Z.lnot.
  rewrite <- (Z.mod_small (2 ^ 32 - 1 - c mod 2 ^ 32) (2 ^ 32)) by (pose proof (Z.mod_pos_bound c (2 ^ 32)); lia).
  pose proof (Z.div_mod c (2 ^ 32) ltac:(lia)) as E. rewrite E at 1.
  replace (Z.pred (- (2 ^ 32 * (c / 2 ^ 32) + c mod 2 ^ 32))) with (2 ^ 32 - 1 - c mod 2 ^ 32 + (- (c / 2 ^ 32) - 1) * 2 ^ 32) by lia.
  by rewrite Z.mod_add by lia.
Qed.

(** C32. For every readable file of less than 2^64 bytes cksum prints its length
    and the POSIX checksum: the complement of the remainder, by the generator
    polynomial over GF(2), of the bytes of the file followed by those of its
    length, times x^32.  The table-driven loop over 64-bit registers is the
    polynomial division. *)
Theorem cksum_is_crc bs is_stdin ce :
  Forall byte bs -> zlen bs < 2 ^ 64 -> is_stdin = true \/ ce = false ->
  let m := message (bs ++ length_bytes 8 (zlen bs)) in
  cksum (Some (File bs false ce)) is_stdin = Ok (Some (2 ^ 32 - 1 - poly_mod (Z.shiftl m 32), zlen bs)) /\
  multiple (Z.lxor (Z.shiftl m 32) (poly_mod (Z.shiftl m 32))) /\ small (poly_mod (Z.shiftl m 32)).
Proof.
  intros Hb Hl Hce m. assert (0 <= feed 0 bs) as Hm0 by (by apply feed_nonneg).
  assert (0 <= zlen bs < 256 ^ Z.of_nat 8) as Hlen by (pose proof (zlen_nonneg bs); change (256 ^ Z.of_nat 8) with (2 ^ 64); lia).
  assert (registers 0 0) as Hr0 by done. cbn [cksum file_bytes read_error close_error].
  destruct (read_loop BUFLEN bs ltac:(done) (S (S (length bs))) 0 0 0) as (crc & -> & Hr); try done; [lia|]. cbn [bind Z.add].
  assert (negb is_stdin && ce = false) as -> by (destruct Hce as [->| ->]; [done|apply andb_false_r]).
  destruct (length_loop 8 (zlen bs) _ crc Hlen Hm0 Hr) as (crc1 & E1 & [H1 Hr1]). unfold crc_length. rewrite Z.add_0_l, E1. cbn [bind].
  assert (feed (feed 0 bs) (length_bytes 8 (zlen bs)) = m) as Em by (unfold m, message, feed; by rewrite fold_left_app).
  rewrite Em in Hr1. split; [by rewrite (lnot_low crc1 _ Hr1)|]. apply poly_mod_remainder, Z.shiftl_nonneg. rewrite <- Em.
  apply feed_nonneg; [done|]. clear. generalize (zlen bs). generalize 8%nat. induction n as [|n IH]; intros z; cbn [length_bytes]; [constructor|].
  destruct (z =? 0); [constructor|]. constructor; [by apply Z.mod_pos_bound|apply IH].
Qed.

Lemma cksum_is_crc_witness :
  let m := message (bytes "hello" ++ length_bytes 8 (zlen (bytes "hello"))) in
  cksum (Some (File (bytes "hello") false false)) true = Ok (Some (2 ^ 32 - 1 - poly_mod (Z.shiftl m 32), zlen (bytes "hello"))) /\
  multiple (Z.lxor (Z.shiftl m 32) (poly_mod (Z.shiftl m 32))) /\ small (poly_mod (Z.shiftl m 32)).
Proof. apply cksum_is_crc; [by repeat constructor|done|by left]. Defined.

(** The checksum the POSIX utility prints for this file. *)
Example cksum_hello : cksum (Some (File (bytes "hello") false false)) true = Ok (Some (3287646509, 5)).
Proof. by vm_compute. Qed.
