(* ===== verification/Sum.v ===== *)
(** * The command sum: utils/coreutils/src/sum.c

    The BSD algorithm reads characters and rotates; the System V algorithm reads
    blocks and folds a 32-bit sum.  What [safe_read] delivers, block by block, is
    an argument, and so are the answers of the file system and of the locale.  A
    line "%05d %5s" is a record of its fields; the size is what human_readable
    wrote into the local buffer [hbuf]. *)

From S2P Require Import Prelude Arrays CStrings XStrtol Human Stdio Checksums.
Open Scope Z_scope.

(** One line of output. *)
Record line := Line { line_checksum : Z; line_size : list Z; line_name : option (list Z) }.

(** One character in bsd_sum_file. *)
Definition bsd_step (st : Z * Z) (ch : Z) : Z * Z :=
  let '(checksum, total_bytes) := st in
  let total_bytes := u64 (total_bytes + 1) in
  let checksum := Z.shiftr checksum 1 + Z.shiftl (Z.land checksum 1) 15 in
  let checksum := checksum + ch in
  (Z.land checksum 65535, total_bytes).

Definition bsd_sum_file (l : lconv) (hbuf : list Z) (name : list Z) (f : option file) (is_stdin : bool) (print_name : Z) : res (option line) :=
  match f with
  | None => Ok None
  | Some f =>
      let '(checksum, total_bytes) := fold_left bsd_step (file_bytes f) (0, 0) in
      if read_error f then Ok None
      else if negb is_stdin && close_error f then Ok None
      else
        let* h := human_readable l total_bytes hbuf human_ceiling 1 1024 in
        match h with
        | Some (hbuf, p) => Ok (Some (Line checksum (string_at hbuf p) (if 1 <? print_name then Some name else None)))
        | None => Ok None
        end
  end.

(** What [safe_read] delivers until it returns 0, or an error. *)
Record blocks := Blocks { delivered : list (list Z); block_error : bool; fd_close_error : bool }.

(** [for (i = 0; i < bytes_read; i++) s += buf[i]; total_bytes += bytes_read] *)
Definition sysv_step (st : Z * Z) (buf : list Z) : Z * Z :=
  let '(s, total_bytes) := st in
  (fold_left (fun s b => u32 (s + b)) buf s, u64 (total_bytes + zlen buf)).

(** The fold of the 32-bit sum to 16 bits. *)
Definition sysv_fold (s : Z) : Z :=
  let r := Z.land s 65535 + Z.shiftr (Z.land s 4294967295) 16 in
  Z.land r 65535 + Z.shiftr r 16.

Definition sysv_sum_file (l : lconv) (hbuf : list Z) (name : list Z) (f : option blocks) (is_stdin : bool) (print_name : Z) : res (option line) :=
  match f with
  | None => Ok None
  | Some f =>
      let '(s, total_bytes) := fold_left sysv_step (delivered f) (0, 0) in
      if block_error f then Ok None
      else if negb is_stdin && fd_close_error f then Ok None
      else
        let checksum := sysv_fold s in
        let* h := human_readable l total_bytes hbuf human_ceiling 1 512 in
        match h with
        | Some (hbuf, p) => Ok (Some (Line checksum (string_at hbuf p) (if negb (print_name =? 0) then Some name else None)))
        | None => Ok None
        end
  end.

(** ** BSD *)

(** Rotation of a 16-bit word to the right. *)
Definition ror16 (c : Z) : Z := c / 2 + c mod 2 * 32768.

(** The checksum as a function of the bytes: each one rotates, then adds mod 2^16. *)
Definition bsd_checksum (bs : list Z) : Z := fold_left (fun c b => (ror16 c + b) mod 65536) bs 0.

Lemma high_bits c k : 0 <= c < 65536 -> 16 <= k -> Z.testbit c k = false.
Proof.
  intros Hc Hk. destruct (decide (c = 0)) as [->|]; [apply Z.bits_0|]. apply Z.bits_above_log2; [lia|].
  apply Z.lt_le_trans with 16; [|done]. apply Z.log2_lt_pow2; simpl; lia.
Qed.

Lemma ror16_bits c i : 0 <= c < 65536 -> 0 <= i < 16 -> Z.testbit (ror16 c) i = Z.testbit c ((i + 1) mod 16).
Proof.
  intros Hc Hi. unfold ror16. change 32768 with (2 ^ 15). change 2 with (2 ^ 1) at 1. rewrite <- Z.shiftr_div_pow2, <- Z.shiftl_mul_pow2 by lia.
  assert (Z.land (Z.shiftr c 1) (Z.shiftl (c mod 2) 15) = 0) as Hd.
  { apply Z.bits_inj'. intros k Hk. rewrite Z.land_spec, Z.bits_0, Z.shiftr_spec by done. destruct (decide (k < 15)).
    - rewrite Z.shiftl_spec_low by done. apply andb_false_r.
    - by rewrite (high_bits c) by lia. }
  rewrite Z.add_nocarry_lxor by done. rewrite Z.lxor_spec, Z.shiftr_spec by lia. destruct (decide (i = 15)) as [->|].
  - change ((15 + 1) mod 16) with 0. rewrite Z.shiftl_spec, Z.sub_diag by lia.
    rewrite (high_bits c) by lia.
    rewrite <- (Z.mod_pow2_bits_low c 1 0) by lia. change (2 ^ 1) with 2. by destruct (Z.testbit (c mod 2) 0).
  - rewrite (Z.mod_small (i + 1)) by lia. rewrite Z.shiftl_spec_low by lia. apply xorb_false_r.
Qed.

Lemma bsd_loop bs : forall c t, 0 <= c < 65536 -> 0 <= t -> t + zlen bs < 2 ^ 64 ->
  fold_left bsd_step bs (c, t) = (fold_left (fun c b => (ror16 c + b) mod 65536) bs c, t + zlen bs) /\
  0 <= fold_left (fun c b => (ror16 c + b) mod 65536) bs c < 65536.
Proof.
  induction bs as [|b bs IH]; intros c t Hc Ht Hl; cbn [fold_left]; [by rewrite Z.add_0_r|].
  rewrite zlen_cons in *. pose proof (zlen_nonneg bs).
  assert (bsd_step (c, t) b = ((ror16 c + b) mod 65536, t + 1)) as ->.
  { unfold bsd_step. f_equal; [|unfold u64; rewrite Z.mod_small; lia].
    rewrite Z.shiftl_mul_pow2, Z.shiftr_div_pow2, land_1 by lia. change 65535 with (Z.ones 16). rewrite Z.land_ones by lia. unfold ror16.
    rewrite Zmod_even. by destruct (Z.even c). }
  destruct (IH ((ror16 c + b) mod 65536) (t + 1)) as [-> Hb]; [by apply Z.mod_pos_bound|lia|lia|]. split; [|done]. f_equal. lia.
Qed.

(** ** System V *)

Definition sum_of (bs : list Z) : Z := fold_right Z.add 0 bs.

Lemma sum_of_app a b : sum_of (a ++ b) = sum_of a + sum_of b.
Proof. induction a as [|x a IH]; [done|]. cbn. unfold sum_of in *. lia. Qed.

Lemma sum_of_nonneg bs : Forall byte bs -> 0 <= sum_of bs.
Proof. induction 1 as [|b bs Hb _ IH]; [done|]. unfold byte in Hb. cbn. unfold sum_of in IH. lia. Qed.

Lemma sysv_inner buf : forall s, 0 <= s < 2 ^ 32 -> fold_left (fun s b => u32 (s + b)) buf s = u32 (s + sum_of buf).
Proof.
  induction buf as [|b buf IH]; intros s Hs; cbn [fold_left sum_of fold_right]; unfold u32 in *.
  - by rewrite Z.add_0_r, Z.mod_small.
  - rewrite IH by (by apply Z.mod_pos_bound). rewrite Z.add_mod_idemp_l by done. f_equal. unfold sum_of. lia.
Qed.

Lemma sysv_loop bss : forall s t, 0 <= s < 2 ^ 32 -> 0 <= t -> t + zlen (concat bss) < 2 ^ 64 ->
  fold_left sysv_step bss (s, t) = (u32 (s + sum_of (concat bss)), t + zlen (concat bss)).
Proof.
  induction bss as [|buf bss IH]; intros s t Hs Ht Hl; cbn [fold_left concat] in *; unfold u32 in *.
  - by rewrite !Z.add_0_r, Z.mod_small.
  - rewrite zlen_app in *. pose proof (zlen_nonneg buf). pose proof (zlen_nonneg (concat bss)).
    unfold sysv_step at 2. rewrite sysv_inner by done. unfold u32, u64. rewrite (Z.mod_small (t + zlen buf)) by lia.
    rewrite IH by (try lia; by apply Z.mod_pos_bound). rewrite Z.add_mod_idemp_l, sum_of_app by done. f_equal; [f_equal; lia|lia].
Qed.

(** Folding the halves keeps the residue modulo 2^16 - 1. *)
Lemma sysv_fold_ok s : 0 <= s < 2 ^ 32 ->
  0 <= sysv_fold s <= 65535 /\ sysv_fold s mod 65535 = s mod 65535 /\ (sysv_fold s = 0 <-> s = 0).
Proof.
  intros Hs. assert (forall x, Z.land x 65535 = x mod 65536) as Hland by (intros x; change 65535 with (Z.ones 16); by rewrite Z.land_ones by lia).
  unfold sysv_fold. rewrite !Hland. change 4294967295 with (Z.ones 32). rewrite (Z.land_ones s 32), (Z.mod_small s (2 ^ 32)), !Z.shiftr_div_pow2 by lia.
  change (2 ^ 16) with 65536. set (r := s mod 65536 + s / 65536).
  pose proof (Z.div_mod s 65536 ltac:(lia)) as E1. pose proof (Z.mod_pos_bound s 65536 ltac:(lia)) as H1.
  pose proof (Z.div_mod r 65536 ltac:(lia)) as E2. pose proof (Z.mod_pos_bound r 65536 ltac:(lia)) as H2.
  assert (0 <= s / 65536 < 65536) by (split; [apply Z.div_pos; lia|apply Z.div_lt_upper_bound; lia]).
  assert (0 <= r / 65536 <= 1) by (split; [apply Z.div_pos; lia|apply Z.lt_succ_r, Z.div_lt_upper_bound; lia]).
  split_and!; [lia|lia| |lia].
  replace s with (r mod 65536 + r / 65536 + (s / 65536 + r / 65536) * 65535) at 1 by lia. by rewrite Z.mod_add by lia.
Qed.

(** The size printed: the decimal number of blocks, rounded up. *)
Definition prints_blocks (total block : Z) (size : list Z) : Prop :=
  Forall is_decimal size /\ (dec 0 size - 1) * block < total <= dec 0 size * block.

(** For every readable file of less than 2^64 bytes, and whatever blocks
    safe_read delivers it in, both algorithms of sum print a line.  BSD: the
    16-bit word that each byte rotates right and is added to, and the number of
    1024-byte blocks, rounded up, with the name when there is more than one.
    System V: a 16-bit word congruent to the sum of the bytes modulo 65535, zero
    only for a sum of zero (below 2^32), and the number of 512-byte blocks. *)
Theorem sum_programs_correct l hbuf name bss is_stdin ce print_name :
  let bs := concat bss in
  Forall byte bs -> zlen bs < 2 ^ 64 -> is_stdin = true \/ ce = false ->
  nul_free (decimal_point l) -> zlen hbuf = LONGEST_HUMAN_READABLE + 1 ->
  (exists size, bsd_sum_file l hbuf name (Some (File bs false ce)) is_stdin print_name =
      Ok (Some (Line (bsd_checksum bs) size (if 1 <? print_name then Some name else None))) /\
    0 <= bsd_checksum bs < 65536 /\ prints_blocks (zlen bs) 1024 size) /\
  (exists c size, sysv_sum_file l hbuf name (Some (Blocks bss false ce)) is_stdin print_name =
      Ok (Some (Line c size (if negb (print_name =? 0) then Some name else None))) /\
    0 <= c <= 65535 /\ prints_blocks (zlen bs) 512 size /\
    (sum_of bs < 2 ^ 32 -> c mod 65535 = sum_of bs mod 65535 /\ (c = 0 <-> sum_of bs = 0))).
Proof.
  intros bs Hb Hl Hce Hdp Hh. pose proof (zlen_nonneg bs). assert (negb is_stdin && ce = false) as Hc by (destruct Hce as [->| ->]; [done|apply andb_false_r]).
  split; unfold bsd_sum_file, sysv_sum_file; cbn [file_bytes read_error close_error delivered block_error fd_close_error]; rewrite Hc.
  - destruct (bsd_loop bs 0 0) as [-> Hr]; [lia|lia|lia|]. rewrite Z.add_0_l.
    destruct (human_ceiling_blocks l (zlen bs) hbuf 1024) as (buf' & p & a & -> & Hd & <- & Ha); [lia|lia|lia|done|done|].
    cbn [bind]. exists (string_at buf' p). split; [done|]. split; [done|]. by split.
  - rewrite sysv_loop by (try lia; done). rewrite !Z.add_0_l. fold bs.
    destruct (human_ceiling_blocks l (zlen bs) hbuf 512) as (buf' & p & a & -> & Hd & <- & Ha); [lia|lia|lia|done|done|].
    cbn [bind]. assert (0 <= u32 (sum_of bs) < 2 ^ 32) as Hs by (by apply Z.mod_pos_bound).
    destruct (sysv_fold_ok _ Hs) as (Hf & Hm & H0). eexists _, _. split; [done|]. split; [lia|]. split; [by split|].
    intros Hlt. pose proof (sum_of_nonneg bs Hb). assert (u32 (sum_of bs) = sum_of bs) as Eu by (unfold u32; apply Z.mod_small; lia).
    rewrite Eu in *. by split.
Qed.

Lemma sum_programs_correct_witness :
  let bs := concat [bytes "hel"; bytes "lo"] in
  (exists size, bsd_sum_file C_locale (replicate 652 0) (bytes "f") (Some (File bs false false)) false 2 =
      Ok (Some (Line (bsd_checksum bs) size (if 1 <? 2 then Some (bytes "f") else None))) /\
    0 <= bsd_checksum bs < 65536 /\ prints_blocks (zlen bs) 1024 size) /\
  (exists c size, sysv_sum_file C_locale (replicate 652 0) (bytes "f") (Some (Blocks [bytes "hel"; bytes "lo"] false false)) false 2 =
      Ok (Some (Line c size (if negb (2 =? 0) then Some (bytes "f") else None))) /\
    0 <= c <= 65535 /\ prints_blocks (zlen bs) 512 size /\
    (sum_of bs < 2 ^ 32 -> c mod 65535 = sum_of bs mod 65535 /\ (c = 0 <-> sum_of bs = 0))).
Proof.
  apply (sum_programs_correct C_locale (replicate 652 0) (bytes "f") [bytes "hel"; bytes "lo"] false false 2);
    [by repeat constructor|done|by right|by repeat constructor|reflexivity].
Defined.

(** What the utilities print for this file: 08403 and 532. *)
Example sum_hello :
  bsd_checksum (bytes "hello") = 8403 /\ sysv_fold (sum_of (bytes "hello")) = 532.
Proof. by vm_compute. Qed.
