(* ===== verification/Fold.v ===== *)
(** * The command fold: utils/coreutils/src/fold.c

    fold_file with its static line buffer: the buffer grows by X2REALLOC, lines
    are broken when the next character passes the width, after the last blank
    when there is one and -s is given, and every [goto rescan] is a turn of a
    loop.  The options are arguments; the width option is read by xstrtoul. *)

From S2P Require Import Prelude Arrays CStrings XStrtol Stdio.
Open Scope Z_scope.

Definition TAB_WIDTH : Z := 8.

Definition isblank (c : Z) : bool := (c =? 32) || (c =? 9).

Section fold.
Variables (count_bytes break_spaces : bool).

Definition adjust_column (column c : Z) : Z :=
  if negb count_bytes then
    if c =? 8 then (if column >? 0 then column - 1 else column)
    else if c =? 13 then 0
    else if c =? 9 then u64 (column + (TAB_WIDTH - column mod TAB_WIDTH))
    else u64 (column + 1)
  else u64 (column + 1).

(** The state of fold_file; [line_out] and its size are static. *)
Record fold_state := FoldState { column : Z; offset_out : Z; line_out : block; allocated_out : Z; printed : list Z }.

(** [while (logical_end) ...]: the index of the last blank. *)
Definition find_blank (line : list (option Z)) (logical_end : Z) : res (option Z) :=
  loop (S (Z.to_nat logical_end)) (fun logical_end =>
    if logical_end =? 0 then Ok (inr None)
    else
      let logical_end := logical_end - 1 in
      let* ch := rdu line logical_end in
      if isblank ch then Ok (inr (Some logical_end)) else Ok (inl logical_end)) logical_end.

(** [for (column = i = 0; i < offset_out; i++) column = adjust_column (column, line_out[i])] *)
Definition recount (line : list (option Z)) (offset : Z) : res Z :=
  for_up 0 offset (fun i column => let* ch := rdu line i in Ok (adjust_column column ch)) 0.

(** From the label rescan: either [goto rescan] or the next character. *)
Definition rescan (width c : Z) (st : Z * Z * list (option Z) * list Z)
    : res (Z * Z * list (option Z) * list Z + Z * Z * list (option Z) * list Z) :=
  let '(column, offset, line, out) := st in
  let column := adjust_column column c in
  if width <? column then
    let* blank := if break_spaces then find_blank line offset else Ok None in
    match blank with
    | Some logical_end =>
        let logical_end := logical_end + 1 in
        let* w := fwrite line logical_end in
        let out := out ++ w ++ [10] in
        let* line := memmove_down line logical_end (offset - logical_end) in
        let offset := offset - logical_end in
        let* column := recount line offset in
        Ok (inl (column, offset, line, out))
    | None =>
        if offset =? 0 then
          let* line := wr line offset (Some c) in
          Ok (inr (column, offset + 1, line, out))
        else
          let* line := wr line offset (Some 10) in
          let* w := fwrite line (offset + 1) in
          Ok (inl (0, 0, line, out ++ w))
    end
  else
    let* line := wr line offset (Some c) in
    Ok (inr (column, offset + 1, line, out)).

(** One character of the input. *)
Definition fold_char (width : Z) (s : fold_state) (c : Z) : res fold_state :=
  let* (line, allocated) :=
    if offset_out s + 1 >=? allocated_out s then x2realloc (line_out s) (allocated_out s)
    else Ok (cells (line_out s), allocated_out s) in
  if c =? 10 then
    let* line := wr line (offset_out s) (Some c) in
    let* w := fwrite line (offset_out s + 1) in
    Ok (FoldState 0 0 (Some line) allocated (printed s ++ w))
  else
    let* (column, offset, line, out) := loop 4 (rescan width c) (column s, offset_out s, line, printed s) in
    Ok (FoldState column offset (Some line) allocated out).

Fixpoint fold_chars (width : Z) (bs : list Z) (s : fold_state) : res fold_state :=
  match bs with
  | [] => Ok s
  | c :: bs => let* s := fold_char width s c in fold_chars width bs s
  end.

(** The result, what is printed, and the static buffer. *)
Definition fold_file (width : Z) (f : option file) (is_stdin : bool) (line : block) (allocated : Z)
    : res (bool * list Z * (block * Z)) :=
  match f with
  | None => Ok (false, [], (line, allocated))
  | Some f =>
      let* s := fold_chars width (file_bytes f) (FoldState 0 0 line allocated []) in
      let* w := if negb (offset_out s =? 0) then fwrite (cells (line_out s)) (offset_out s) else Ok [] in
      let ok := if read_error f then false else if negb is_stdin && close_error f then false else true in
      Ok (ok, printed s ++ w, (line_out s, allocated_out s))
  end.

(** The loop of main over its operands. *)
Fixpoint fold_operands (width : Z) (fs : list (option file * bool)) (ok : bool) (out : list Z) (statics : block * Z)
    : res (bool * list Z) :=
  match fs with
  | [] => Ok (ok, out)
  | (f, is_stdin) :: fs =>
      let* (r, w, statics) := fold_file width f is_stdin (fst statics) (snd statics) in
      fold_operands width fs (ok && r) (out ++ w) statics
  end.

End fold.

(** The width option. *)
Definition fold_width (optarg : list Z) : res Z :=
  let* (err, v, _) := xstrtol t_ulong optarg 10 (Some []) in
  match v with
  | Some tmp => if (err =? LONGINT_OK) && (0 <? tmp) && (tmp <? SIZE_MAX - TAB_WIDTH) then Ok tmp else Fail (ExitCall 1)
  | None => Fail (ExitCall 1)
  end.

Definition fold (count_bytes break_spaces : bool) (width : Z) (s : string) : res (list Z) :=
  let* (_, out, _) := fold_file count_bytes break_spaces width (Some (File (bytes s) false false)) true None 0 in Ok out.

Example fold_examples :
  fold false true 10 "the quick brown fox" = Ok (bytes "the quick " ++ [10] ++ bytes "brown fox") /\
  fold false false 5 "abcdefghijkl" = Ok (bytes "abcde" ++ [10] ++ bytes "fghij" ++ [10] ++ bytes "kl").
Proof. split; vm_compute; reflexivity. Qed.

(** ** The reference *)

Section spec.
Variables (count_bytes break_spaces : bool) (width : Z).

(** The cursor after one character, and after a line. *)
Definition advance (column c : Z) : Z :=
  if negb count_bytes then
    if c =? 8 then Z.max 0 (column - 1)
    else if c =? 13 then 0
    else if c =? 9 then (column / 8 + 1) * 8
    else column + 1
  else column + 1.

Definition cursor (l : list Z) : Z := fold_left advance l 0.

(** No character but a first one is printed past the width. *)
Definition fits (l : list Z) : Prop := forall p q, l = p ++ q -> 1 < zlen p -> cursor p <= width.

Definition no_newline (l : list Z) : Prop := Forall (fun c => c <> 10) l.

(** Where a line [l ++ w] that is too long is cut into [l] and [w]. *)
Definition cut (l w : list Z) : Prop :=
  if break_spaces && existsb isblank (l ++ w) then
    (exists l' b, l = l' ++ [b] /\ isblank b = true) /\ existsb isblank w = false
  else w = [] /\ l <> [].

(** The output for an input: lines that fit stay; a line that the next character
    makes too long is cut, and its rest starts the next one. *)
Inductive folds : list Z -> list Z -> Prop :=
| folds_last l : no_newline l -> fits l -> folds l l
| folds_line l rest out : no_newline l -> fits l -> folds rest out -> folds (l ++ 10 :: rest) (l ++ 10 :: out)
| folds_cut l w c rest out :
    no_newline (l ++ w) -> c <> 10 -> fits (l ++ w) -> width < cursor (l ++ w ++ [c]) -> cut l w ->
    folds (w ++ c :: rest) out -> folds (l ++ w ++ c :: rest) (l ++ 10 :: out).

Lemma advance_mono c x y : x <= y -> advance x c <= advance y c.
Proof.
  intros Hxy. unfold advance. pose proof (Z.div_le_mono x y 8 ltac:(lia) Hxy). destruct (negb count_bytes); [|lia].
  destruct (c =? 8), (c =? 13), (c =? 9); lia.
Qed.

Lemma advance_pos c x : 0 <= x -> 0 <= advance x c <= x + 8.
Proof.
  intros Hx. unfold advance. pose proof (Z.div_pos x 8 Hx ltac:(lia)). pose proof (Z.div_mod x 8 ltac:(lia)). pose proof (Z.mod_pos_bound x 8 ltac:(lia)).
  destruct (negb count_bytes); [|lia]. destruct (c =? 8), (c =? 13), (c =? 9); lia.
Qed.

Lemma cursor_from l : forall x, 0 <= x -> 0 <= fold_left advance l 0 <= fold_left advance l x.
Proof.
  assert (forall x y, 0 <= x <= y -> 0 <= fold_left advance l x <= fold_left advance l y) as H; [|intros x Hx; apply H; lia].
  induction l as [|c l IH]; intros x y Hxy; cbn [fold_left]; [done|]. apply IH.
  pose proof (advance_pos c x ltac:(lia)). pose proof (advance_mono c x y ltac:(lia)). lia.
Qed.

Lemma cursor_snoc l c : cursor (l ++ [c]) = advance (cursor l) c.
Proof. unfold cursor. by rewrite fold_left_app. Qed.

Lemma cursor_nonneg l : 0 <= cursor l.
Proof. apply (cursor_from l 0). done. Qed.

Lemma cursor_suffix l p : cursor p <= cursor (l ++ p).
Proof. unfold cursor. rewrite fold_left_app. apply cursor_from, cursor_nonneg. Qed.

Lemma fits_nil : fits [].
Proof. intros p q E Hp. symmetry in E. apply app_nil in E as [-> _]. done. Qed.

Lemma fits_snoc l c : fits l -> l = [] \/ cursor (l ++ [c]) <= width -> fits (l ++ [c]).
Proof.
  intros Hl Hc p q E Hp. destruct (exists_last_or q) as [->|(q' & x & ->)].
  - rewrite app_nil_r in E. subst p. destruct Hc as [->|Hc]; [done|done].
  - rewrite app_assoc in E. apply app_inj_tail in E as [-> _]. by apply (Hl p q').
Qed.

Lemma fits_one c : fits [c].
Proof. apply (fits_snoc [] c); [apply fits_nil|by left]. Qed.

Lemma fits_suffix l w : l <> [] -> fits (l ++ w) -> fits w.
Proof.
  intros Hl Hf p q -> Hp. pose proof (cursor_suffix l p). etransitivity; [done|]. apply (Hf (l ++ p) q); [by rewrite app_assoc|].
  rewrite zlen_app. pose proof (zlen_nonneg l). lia.
Qed.

Lemma fits_cursor l : fits l -> 0 <= cursor l <= Z.max width 8.
Proof.
  intros Hf. split; [apply cursor_nonneg|]. destruct l as [|a [|b l]].
  - unfold cursor. simpl. lia.
  - unfold cursor. cbn [fold_left]. pose proof (advance_pos a 0). lia.
  - pose proof (Hf (a :: b :: l) []) as H. rewrite app_nil_r in H. specialize (H eq_refl). rewrite !zlen_cons in H. pose proof (zlen_nonneg l). lia.
Qed.

Hypothesis Hwidth : 0 < width < SIZE_MAX - TAB_WIDTH.

Lemma adjust_column_ok column c : 0 <= column <= Z.max width 8 -> adjust_column count_bytes column c = advance column c.
Proof.
  intros Hc. unfold adjust_column, advance, TAB_WIDTH, SIZE_MAX, u64 in *. pose proof (Z.div_mod column 8 ltac:(lia)). pose proof (Z.mod_pos_bound column 8 ltac:(lia)).
  destruct (negb count_bytes); [|rewrite Z.mod_small by lia; done].
  destruct (c =? 8); [rewrite Z.gtb_ltb; destruct (Z.ltb_spec 0 column); lia|]. destruct (c =? 13); [done|].
  destruct (c =? 9); rewrite Z.mod_small by lia; lia.
Qed.

(** ** The code *)

Lemma find_blank_ok line cur : holds line cur ->
  if existsb isblank cur then
    exists l b w, cur = l ++ b :: w /\ isblank b = true /\ existsb isblank w = false /\ find_blank line (zlen cur) = Ok (Some (zlen l))
  else find_blank line (zlen cur) = Ok None.
Proof.
  intros Hh. unfold find_blank. assert (forall fuel, (length cur < fuel)%nat ->
    if existsb isblank cur then
      exists l b w, cur = l ++ b :: w /\ isblank b = true /\ existsb isblank w = false /\
        loop fuel (fun logical_end => if logical_end =? 0 then Ok (inr None) else let* ch := rdu line (logical_end - 1) in
          if isblank ch then Ok (inr (Some (logical_end - 1))) else Ok (inl (logical_end - 1))) (zlen cur) = Ok (Some (zlen l))
    else loop fuel (fun logical_end => if logical_end =? 0 then Ok (inr None) else let* ch := rdu line (logical_end - 1) in
          if isblank ch then Ok (inr (Some (logical_end - 1))) else Ok (inl (logical_end - 1))) (zlen cur) = Ok None) as H.
  { induction cur as [|c cur IH] using rev_ind; intros [|fuel] Hf; [lia|done|lia|]. rewrite existsb_app. cbn [loop existsb]. rewrite zlen_snoc.
    pose proof (zlen_nonneg cur). rewrite (proj2 (Z.eqb_neq (zlen cur + 1) 0)) by lia. replace (zlen cur + 1 - 1) with (zlen cur) by lia.
    rewrite (holds_rd line cur c []) by done. cbn [bind]. destruct (isblank c) eqn:Eb; rewrite ?orb_true_r, ?orb_false_r.
    - exists cur, c, []. by split_and!.
    - cbn [bind]. rewrite length_app in Hf. cbn [length] in Hf. specialize (IH (holds_prefix _ _ _ Hh) fuel ltac:(lia)).
      destruct (existsb isblank cur); [|done]. destruct IH as (l & b & w & -> & Hb & Hw & E). exists l, b, (w ++ [c]).
      split_and!; [by rewrite <- app_assoc|done| |done]. rewrite existsb_app, Hw. cbn [existsb]. by rewrite Eb. }
  apply H. unfold zlen. lia.
Qed.

Lemma fits_prefix p q : fits (p ++ q) -> fits p.
Proof. intros Hf p1 p2 -> Hp. apply (Hf p1 (p2 ++ q)); [by rewrite app_assoc|done]. Qed.

Lemma recount_ok line cur : holds line cur -> fits cur -> recount count_bytes line (zlen cur) = Ok (cursor cur).
Proof.
  intros Hh Hf. unfold recount.
  assert (wp (for_up 0 (zlen cur) (fun i column => let* ch := rdu line i in Ok (adjust_column count_bytes column ch)) 0) (fun r => r = cursor cur)) as Hw.
  { apply (wp_for_up (fun i col => exists p q, cur = p ++ q /\ zlen p = i /\ col = cursor p)).
    - by exists [], cur.
    - intros i col Hi (p & q & E & <- & ->). destruct q as [|c q]; [rewrite app_nil_r in E; subst; lia|].
      rewrite E in Hh. rewrite (holds_rd _ _ _ _ Hh). cbn [bind wp]. exists (p ++ [c]), q. rewrite <- app_assoc, zlen_snoc, cursor_snoc. split_and!; [done|lia|].
      apply adjust_column_ok, fits_cursor. rewrite E in Hf. by eapply fits_prefix.
    - intros col (p & q & -> & Hp & ->). rewrite zlen_app in Hp. pose proof (zlen_nonneg p). pose proof (zlen_nonneg q).
      destruct q as [|c q]; [by rewrite app_nil_r|]. rewrite zlen_cons in *. pose proof (zlen_nonneg q). lia. }
  apply wp_exists in Hw as (r & -> & ->). done.
Qed.

(** What the loop from rescan does with a character. *)
Definition placed (c : Z) (cur : list Z) (line : list (option Z)) (out : list Z) (r : res (Z * Z * list (option Z) * list Z)) : Prop :=
  exists line' cur' e, r = Ok (cursor cur', zlen cur', line', out ++ e) /\ holds line' cur' /\ zlen line' = zlen line /\
    fits cur' /\ no_newline cur' /\ zlen cur' <= zlen cur + 1 /\
    forall rest o, folds (cur' ++ rest) o -> folds (cur ++ c :: rest) (e ++ o).

Lemma no_blank_at_start line : (if break_spaces then find_blank line 0 else Ok None) = Ok None.
Proof. by destruct break_spaces. Qed.

(** On an empty line every character is stored. *)
Lemma rescan_empty c line out : 0 < zlen line ->
  exists line', rescan count_bytes break_spaces width c (0, 0, line, out) = Ok (inr (cursor [c], 1, line', out)) /\
    holds line' [c] /\ zlen line' = zlen line.
Proof.
  intros Hl. destruct (holds_put line [] c (holds_nil line) Hl) as (line' & E & Hh & Hz). exists line'. split; [|done].
  unfold rescan. change (zlen (@nil Z)) with 0 in E. rewrite adjust_column_ok by lia. change (advance 0 c) with (cursor [c]).
  destruct (width <? cursor [c]); [|by rewrite E]. rewrite no_blank_at_start. cbn [bind Z.eqb]. by rewrite E.
Qed.

Lemma no_newline_snoc l c : no_newline l -> c <> 10 -> no_newline (l ++ [c]).
Proof. intros Hl Hc. apply Forall_app. by repeat constructor. Qed.

(** A character that fits is stored. *)
Lemma rescan_fits fuel c cur line out :
  holds line cur -> zlen cur + 1 < zlen line -> fits cur -> no_newline cur -> c <> 10 -> cursor (cur ++ [c]) <= width ->
  placed c cur line out (loop (S fuel) (rescan count_bytes break_spaces width c) (cursor cur, zlen cur, line, out)).
Proof.
  intros Hh Hl Hf Hn Hc Hw. destruct (holds_put line cur c Hh ltac:(lia)) as (line' & E & Hh' & Hz). rewrite loop_step. unfold rescan at 1.
  rewrite adjust_column_ok, <- cursor_snoc by by apply fits_cursor. rewrite (proj2 (Z.ltb_ge _ _) Hw), E. cbn [bind].
  exists line', (cur ++ [c]), []. rewrite app_nil_r, zlen_snoc. split_and!; try done; try lia.
  - apply fits_snoc; [done|by right].
  - by apply no_newline_snoc.
  - intros rest o. by rewrite <- app_assoc.
Qed.

Lemma rescan_noblank fuel c cur line out :
  (2 <= fuel)%nat -> break_spaces = false \/ existsb isblank cur = false ->
  holds line cur -> zlen cur + 1 < zlen line -> fits cur -> no_newline cur -> c <> 10 ->
  placed c cur line out (loop fuel (rescan count_bytes break_spaces width c) (cursor cur, zlen cur, line, out)).
Proof.
  intros Hfuel Hb Hh Hl Hf Hn Hc. destruct fuel as [|[|fuel]]; [lia|lia|]. pose proof (zlen_nonneg cur).
  destruct (Z.leb_spec (cursor (cur ++ [c])) width) as [Hw|Hw]; [by apply rescan_fits|]. rewrite loop_step. unfold rescan at 1.
  rewrite adjust_column_ok, <- cursor_snoc by by apply fits_cursor. rewrite (proj2 (Z.ltb_lt _ _) Hw).
  assert ((if break_spaces then find_blank line (zlen cur) else Ok None) = Ok None) as ->.
    { destruct break_spaces; [|done]. destruct Hb as [?|Hb]; [done|]. pose proof (find_blank_ok line cur Hh) as H'. by rewrite Hb in H'. }
    cbn [bind]. destruct (Z.eqb_spec (zlen cur) 0) as [E0|E0].
    + assert (cur = []) as -> by (destruct cur; [done|]; rewrite zlen_cons in *; pose proof (zlen_nonneg cur); lia).
      destruct (holds_put line [] c Hh ltac:(lia)) as (line' & -> & Hh' & Hz). cbn [bind]. exists line', [c], []. rewrite app_nil_r.
      split_and!; try done. * apply fits_one. * by repeat constructor.
    + destruct (holds_put line cur 10 Hh ltac:(lia)) as (line1 & -> & Hh1 & Hz1). cbn [bind].
      rewrite <- (zlen_snoc 10 cur), (holds_fwrite line1 (cur ++ [10]) []) by (by rewrite app_nil_r). cbn [bind]. rewrite loop_step.
      destruct (rescan_empty c line1 (out ++ cur ++ [10])) as (line2 & -> & Hh2 & Hz2); [lia|]. cbn [bind].
      exists line2, [c], (cur ++ [10]). split_and!; try done; try lia.
      * apply fits_one.
      * by repeat constructor.
      * change (zlen [c]) with 1. lia.
      * intros rest o Ho. rewrite <- app_assoc. apply (folds_cut cur [] c rest o); rewrite ?app_nil_r; try done. unfold cut. rewrite app_nil_r.
        destruct Hb as [->| ->]; rewrite ?andb_false_r; (split; [done|]); by intros ->.
Qed.

Lemma rescan_ok fuel c cur line out :
  (3 <= fuel)%nat -> holds line cur -> zlen cur + 1 < zlen line -> fits cur -> no_newline cur -> c <> 10 ->
  placed c cur line out (loop fuel (rescan count_bytes break_spaces width c) (cursor cur, zlen cur, line, out)).
Proof.
  intros Hfuel Hh Hl Hf Hn Hc. destruct (decide (break_spaces = false \/ existsb isblank cur = false)) as [Hb|Hb]; [by apply rescan_noblank; [lia|..]|].
  destruct fuel as [|fuel]; [lia|].
  destruct (Z.leb_spec (cursor (cur ++ [c])) width) as [Hw|Hw]; [by apply rescan_fits|].
  assert (break_spaces = true /\ existsb isblank cur = true) as [Ebs Eb] by (destruct break_spaces, (existsb isblank cur); naive_solver).
  pose proof (find_blank_ok line cur Hh) as Hfb. rewrite Eb in Hfb. destruct Hfb as (l & b & w & Ecur & Hbb & Hbw & Efb).
  assert (cur = (l ++ [b]) ++ w) as Ecut by (rewrite Ecur, <- app_assoc; done). clear Ecur.
  assert (l ++ [b] <> []) as Hne by (by destruct l). rewrite loop_step. unfold rescan at 1.
  rewrite adjust_column_ok, <- cursor_snoc by by apply fits_cursor. rewrite (proj2 (Z.ltb_lt _ _) Hw).
  assert ((if break_spaces then find_blank line (zlen cur) else Ok None) = Ok (Some (zlen l))) as -> by by rewrite Ebs. cbn [bind].
  rewrite <- (zlen_snoc b l). set (l1 := l ++ [b]) in *. rewrite Ecut in Hh. rewrite (holds_fwrite _ _ _ Hh). cbn [bind].
  replace (zlen cur - zlen l1) with (zlen w) by (rewrite Ecut, zlen_app; lia).
  destruct (holds_memmove _ _ _ Hh) as (line1 & -> & Hh1 & Hz1). cbn [bind].
  assert (fits w) as Hfw by (apply (fits_suffix l1); [done|by rewrite <- Ecut]).
  rewrite recount_ok by done. cbn [bind]. assert (zlen w <= zlen cur) as Hzw by (rewrite Ecut, zlen_app; pose proof (zlen_nonneg l1); lia).
  assert (no_newline w) as Hnw by (rewrite Ecut in Hn; by apply Forall_app in Hn as [_ Hn]).
  destruct (rescan_noblank fuel c w line1 (out ++ l1 ++ [10])) as (line2 & cur' & e & -> & Hh2 & Hz2 & Hf2 & Hn2 & Hl2 & Hfo);
    [lia|by right|done|lia|done|done|done|].
  exists line2, cur', ((l1 ++ [10]) ++ e). rewrite <- !app_assoc. split_and!; try done; try lia.
  intros rest o Ho. rewrite Ecut, <- !app_assoc. cbn [app]. apply folds_cut; rewrite <- ?Ecut; try done.
  - rewrite app_assoc. by rewrite <- Ecut.
  - unfold cut. rewrite <- Ecut, Ebs, Eb. cbn [andb]. split; [by exists l, b|done].
  - by apply Hfo.
Qed.

(** The line that is being filled is [cur], and the buffer has grown to at most
    twice the [bound] on the lines. *)
Definition filling (bound : Z) (cur : list Z) (s : fold_state) : Prop :=
  column s = cursor cur /\ offset_out s = zlen cur /\ holds (cells (line_out s)) cur /\ allocated_out s = zlen (cells (line_out s)) /\
  ((line_out s = None /\ cur = []) \/ (64 <= allocated_out s /\ zlen cur < allocated_out s)) /\
  allocated_out s <= 66 + 2 * bound /\ fits cur /\ no_newline cur.

Lemma grow_ok bound cur s :
  filling bound cur s -> zlen cur <= bound -> bound < 2 ^ 62 ->
  exists line n, (if offset_out s + 1 >=? allocated_out s then x2realloc (line_out s) (allocated_out s)
      else Ok (cells (line_out s), allocated_out s)) = Ok (line, n) /\
    holds line cur /\ zlen line = n /\ 64 <= n <= 66 + 2 * bound /\ zlen cur + 1 < n.
Proof.
  intros (_ & -> & Hh & Ea & Hn & Hb & _ & _) Hcur Hbound. pose proof (zlen_nonneg cur). rewrite Z.geb_leb.
  destruct (Z.leb_spec (allocated_out s) (zlen cur + 1)) as [Hle|Hgt].
  - rewrite Ea in *. destruct (x2realloc_ok (line_out s) cur) as (p & n & -> & Hp & Hz & Hgr & H3 & H0);
      [done|destruct Hn as [[-> _]|Hn]; [by left|right; lia]|change (SIZE_MAX / 3 * 2) with 12297829382473034410; lia|].
    exists p, n. destruct Hn as [[E ->]|Hn]; [|split_and!; done || lia]. specialize (H0 E). change (zlen (@nil Z)) with 0 in *. split_and!; done || lia.
  - destruct Hn as [[E ->]|Hn]; [|eexists _, _; split; [done|]; split_and!; done || lia].
    rewrite E in Ea. change (zlen (cells None)) with 0 in Ea. lia.
Qed.

Lemma fold_char_ok bound cur s c :
  filling bound cur s -> zlen cur < bound -> bound < 2 ^ 62 ->
  exists s' cur' e, fold_char count_bytes break_spaces width s c = Ok s' /\ filling bound cur' s' /\ printed s' = printed s ++ e /\
    zlen cur' <= zlen cur + 1 /\ forall rest o, folds (cur' ++ rest) o -> folds (cur ++ c :: rest) (e ++ o).
Proof.
  intros Hs Hcur Hbound. destruct (grow_ok bound cur s Hs) as (line & n & E & Hh & Hz & Hn & Hl); [lia|done|].
  destruct Hs as (Ec & Eo & _ & _ & _ & _ & Hf & Hnl). pose proof (zlen_nonneg cur). unfold fold_char. rewrite E. cbn [bind]. rewrite Ec, Eo.
  destruct (Z.eqb_spec c 10) as [->|Hc].
  - destruct (holds_put line cur 10 Hh ltac:(lia)) as (line' & -> & Hh' & Hz'). cbn [bind].
    rewrite <- (zlen_snoc 10 cur), (holds_fwrite line' (cur ++ [10]) []) by (by rewrite app_nil_r). cbn [bind].
    eexists _, [], (cur ++ [10]). split; [done|]. split_and!; try done; [|change (zlen (@nil Z)) with 0; apply zlen_nonneg|].
    + unfold filling. cbn [column offset_out line_out allocated_out cells]. change (zlen (@nil Z)) with 0.
      split_and!; try done; [apply holds_nil|lia|right; lia|lia|apply fits_nil|constructor].
    + intros rest o Ho. rewrite <- app_assoc. by apply folds_line.
  - destruct (rescan_ok 4 c cur line (printed s)) as (line' & cur' & e & -> & Hh' & Hz' & Hf' & Hn' & Hl' & Hfo); [lia|done|lia|done|done|done|].
    cbn [bind]. eexists _, cur', e. split; [done|]. split_and!; try done.
    unfold filling. cbn [column offset_out line_out allocated_out cells]. split_and!; try done; [lia|right; lia|lia].
Qed.

Lemma fold_chars_ok bound bs : bound < 2 ^ 62 -> forall cur s, filling bound cur s -> zlen cur + zlen bs <= bound ->
  exists s' cur' e, fold_chars count_bytes break_spaces width bs s = Ok s' /\ filling bound cur' s' /\ printed s' = printed s ++ e /\
    folds (cur ++ bs) (e ++ cur').
Proof.
  intros Hb. induction bs as [|c bs IH]; intros cur s Hs Hl; cbn [fold_chars].
  - exists s, cur, []. rewrite !app_nil_r. split_and!; try done. apply folds_last; apply Hs.
  - rewrite zlen_cons in Hl. pose proof (zlen_nonneg bs).
    destruct (fold_char_ok bound cur s c Hs) as (s1 & cur1 & e1 & -> & Hs1 & Ep1 & Hl1 & Hfo); [lia|done|]. cbn [bind].
    destruct (IH cur1 s1 Hs1) as (s2 & cur2 & e2 & -> & Hs2 & Ep2 & Hfo2); [lia|]. exists s2, cur2, (e1 ++ e2).
    split_and!; [done|done|by rewrite Ep2, Ep1, app_assoc|]. rewrite <- app_assoc. by apply Hfo.
Qed.

(** The static buffer between two files. *)
Definition statics_ok (bound : Z) (st : block * Z) : Prop := filling bound [] (FoldState 0 0 (fst st) (snd st) []).

Lemma fold_file_ok bound f is_stdin st :
  statics_ok bound st -> zlen (file_bytes f) <= bound -> bound < 2 ^ 62 ->
  exists out st', fold_file count_bytes break_spaces width (Some f) is_stdin (fst st) (snd st) =
      Ok (negb (read_error f) && (is_stdin || negb (close_error f)), out, st') /\
    folds (file_bytes f) out /\ statics_ok bound st'.
Proof.
  intros Hst Hl Hb. cbn [fold_file]. destruct (fold_chars_ok bound (file_bytes f) Hb [] _ Hst) as (s & cur & e & -> & Hs & Ep & Hfo); [done|].
  cbn [bind app] in *. exists (e ++ cur), (line_out s, allocated_out s).
  assert ((if negb (offset_out s =? 0) then fwrite (cells (line_out s)) (offset_out s) else Ok []) = Ok cur) as ->.
  { destruct Hs as (_ & -> & Hh & _). destruct (Z.eqb_spec (zlen cur) 0) as [E|E]; cbn [negb].
    - destruct cur as [|x cur]; [done|]. rewrite zlen_cons in E. pose proof (zlen_nonneg cur). lia.
    - apply (holds_fwrite _ cur []). by rewrite app_nil_r. }
  cbn [bind]. rewrite Ep. cbn [printed app]. split_and!; [|done|].
  - by destruct (read_error f), is_stdin, (close_error f).
  - destruct Hs as (_ & _ & Hh & Ea & Hn & Hbd & _). split_and!; try done; cbn [fst snd line_out allocated_out]; [apply holds_nil| |apply fits_nil|constructor].
    change (zlen (@nil Z)) with 0. destruct Hn as [[? ?]|Hn]; [by left|right; lia].
Qed.

(** *** What the reference promises *)

(** The lines of a text. *)
Fixpoint lines (s : list Z) : list (list Z) :=
  match s with
  | [] => [[]]
  | c :: s => if c =? 10 then [] :: lines s else match lines s with l :: ls => (c :: l) :: ls | [] => [[c]] end
  end.

Lemma lines_newline l s : no_newline l -> lines (l ++ 10 :: s) = l :: lines s.
Proof. induction 1 as [|c l Hc _ IH]; [done|]. cbn [app lines]. by rewrite (proj2 (Z.eqb_neq c 10) Hc), IH. Qed.

Lemma lines_one l : no_newline l -> lines l = [l].
Proof. induction 1 as [|c l Hc _ IH]; [done|]. cbn [lines]. by rewrite (proj2 (Z.eqb_neq c 10) Hc), IH. Qed.

Definition letters (s : list Z) : list Z := filter (fun c => c <> 10) s.

(** Only newlines are added, and every line fits. *)
Lemma folds_sound inp out : folds inp out -> letters out = letters inp /\ Forall fits (lines out).
Proof.
  unfold letters. induction 1 as [l Hn Hf|l rest out Hn Hf _ [IHl IHf]|l w c rest out Hn Hc Hf _ _ _ [IHl IHf]].
  - split; [done|]. rewrite lines_one by done. by constructor.
  - rewrite !filter_app, !filter_cons, IHl, lines_newline by done. split; [done|]. by constructor.
  - apply Forall_app in Hn as [Hn _]. rewrite lines_newline by done. rewrite filter_app, filter_cons, IHl. split.
    + rewrite (filter_app _ l). f_equal.
    + constructor; [by eapply fits_prefix|done].
Qed.

(** What one operand contributes. *)
Definition operand_out (f : option file * bool) (out : list Z) : Prop :=
  match fst f with
  | Some f => folds (file_bytes f) out /\ letters out = letters (file_bytes f) /\ Forall fits (lines out)
  | None => out = []
  end.

Definition operand_ok (f : option file * bool) : bool :=
  match f with
  | (Some f, is_stdin) => negb (read_error f) && (is_stdin || negb (close_error f))
  | (None, _) => false
  end.

Lemma fold_operands_ok bound fs : bound < 2 ^ 62 ->
  Forall (fun f => match fst f with Some f => zlen (file_bytes f) <= bound | None => True end) fs ->
  forall ok out st, statics_ok bound st ->
  exists outs, fold_operands count_bytes break_spaces width fs ok out st = Ok (ok && forallb operand_ok fs, out ++ concat outs) /\
    Forall2 operand_out fs outs.
Proof.
  intros Hb. induction 1 as [|[f is_stdin] fs Hf _ IH]; intros ok out st Hst; cbn [fold_operands forallb].
  - exists []. by rewrite andb_true_r, app_nil_r.
  - destruct f as [f|].
    + destruct (fold_file_ok bound f is_stdin st Hst Hf Hb) as (o & st' & -> & Ho & Hst'). cbn [bind].
      destruct (IH (ok && (negb (read_error f) && (is_stdin || negb (close_error f)))) (out ++ o) st' Hst') as (outs & -> & HF).
      exists (o :: outs). cbn [concat operand_ok]. rewrite <- !andb_assoc, <- !app_assoc. split; [done|]. constructor; [|done].
      cbn [operand_out fst]. split; [done|by apply folds_sound].
    + cbn [fold_file bind]. destruct (IH (ok && false) (out ++ []) st) as (outs & E & HF); [done|]. exists ([] :: outs).
      rewrite <- surjective_pairing, E, app_nil_r. cbn [concat operand_ok app]. rewrite andb_assoc. split; [done|]. by constructor.
Qed.

End spec.

Lemma fold_width_bound optarg width : fold_width optarg = Ok width -> 0 < width < SIZE_MAX - TAB_WIDTH.
Proof.
  unfold fold_width. intros H. apply bind_Ok_inv in H as ([[err [v|]] p] & _ & H); [|done].
  destruct (err =? LONGINT_OK); [|done]. destruct (Z.ltb_spec 0 v); [|done]. destruct (Z.ltb_spec v (SIZE_MAX - TAB_WIDTH)); [|done].
  injection H as <-. done.
Qed.

(** A decimal number in range is accepted. *)
Lemma fold_width_decimal ds : ds <> [] -> Forall is_decimal ds -> 0 < dec 0 ds < SIZE_MAX - TAB_WIDTH -> fold_width ds = Ok (dec 0 ds).
Proof.
  intros Hne Hds Hr. unfold fold_width. pose proof (xstrtol_decimal t_ulong false ds [] (Some [])) as Hx. cbn [sign_str app] in Hx.
  rewrite app_nil_r in Hx. rewrite Hx by done. unfold read_suffix. rewrite rd_cstr_end by done. cbn [signed_value bind Z.eqb].
  unfold SIZE_MAX, TAB_WIDTH in *. rewrite range_error_in, clamp_in by (apply in_type_spec; simpl; lia). cbn [bind].
  rewrite Z.eqb_refl, (proj2 (Z.ltb_lt 0 _)), (proj2 (Z.ltb_lt (dec 0 ds) _)) by lia. done.
Qed.

(** C31. fold computes the folding of its files: for every width its option
    accepts and any number of files below 2^62 bytes, with one static buffer
    used for all of them, main prints for each readable file the text in which a
    line that the next character makes longer than the width is cut there, or
    after its last blank under -s; so only newlines are added and no line passes
    the width except by its first character.  It succeeds when every file could
    be opened, read and closed. *)
Theorem fold_correct count_bytes break_spaces optarg width bound fs :
  fold_width optarg = Ok width -> 0 <= bound < 2 ^ 62 ->
  Forall (fun f => match fst f with Some f => zlen (file_bytes f) <= bound | None => True end) fs ->
  exists outs, fold_operands count_bytes break_spaces width fs true [] (None, 0) = Ok (forallb operand_ok fs, concat outs) /\
    Forall2 (operand_out count_bytes break_spaces width) fs outs.
Proof.
  intros Hw [Hb0 Hb] Hf. apply (fold_operands_ok count_bytes break_spaces width (fold_width_bound _ _ Hw) bound fs Hb Hf true [] (None, 0)).
  split_and!; try done; [apply holds_nil|by left|cbn; lia|apply fits_nil|constructor].
Qed.

Lemma fold_correct_witness :
  exists outs, fold_operands false true 10 [(Some (File (bytes "the quick brown fox") false false), false); (None, false)] true [] (None, 0) =
      Ok (false, concat outs) /\
    Forall2 (operand_out false true 10) [(Some (File (bytes "the quick brown fox") false false), false); (None, false)] outs.
Proof.
  apply (fold_correct false true (bytes "10") 10 19); [vm_compute; reflexivity|done|by repeat constructor].
Defined.
