(* ===== verification/Echo.v ===== *)
(** * The command echo: utils/coreutils/src/echo.c

    The words of the command line are C strings without their terminator; what
    is printed is a list of bytes.  [POSIXLY_CORRECT] is an argument. *)

From S2P Require Import Prelude Arrays CStrings.
Open Scope Z_scope.

Definition DEFAULT_ECHO_TO_XPG : bool := false.

Definition isxdigit (c : Z) : bool :=
  ((48 <=? c) && (c <=? 57)) || ((65 <=? c) && (c <=? 70)) || ((97 <=? c) && (c <=? 102)).

Definition hextobin (c : Z) : Z :=
  if (c =? ch "a") || (c =? ch "A") then 10
  else if (c =? ch "b") || (c =? ch "B") then 11
  else if (c =? ch "c") || (c =? ch "C") then 12
  else if (c =? ch "d") || (c =? ch "D") then 13
  else if (c =? ch "e") || (c =? ch "E") then 14
  else if (c =? ch "f") || (c =? ch "F") then 15
  else c - 48.

Definition backslash : Z := 92.

Definition octal (c : Z) : bool := (48 <=? c) && (c <=? 55).

(** [if ('0' <= *s && *s <= '7') c = c * 8 + ( *s++ - '0')] *)
Definition octal_digit (st : Z * list Z) : Z * list Z :=
  let '(c, s) := st in
  if octal (head_char s) then (u8 (c * 8 + (head_char s - 48)), tail s) else (c, s).

(** [case '1': ... '7']: the digit read is in [c]. *)
Definition octal_escape (c : Z) (s : list Z) : Z * list Z := octal_digit (octal_digit (u8 (c - 48), s)).

(** The escape [c] after a backslash: what is printed and what is left of the
    string; [None] ends the program. *)
Definition escape (c : Z) (s : list Z) : option (list Z * list Z) :=
  if c =? ch "a" then Some ([7], s)
  else if c =? ch "b" then Some ([8], s)
  else if c =? ch "c" then None
  else if c =? ch "e" then Some ([27], s)
  else if c =? ch "f" then Some ([12], s)
  else if c =? ch "n" then Some ([10], s)
  else if c =? ch "r" then Some ([13], s)
  else if c =? ch "t" then Some ([9], s)
  else if c =? ch "v" then Some ([11], s)
  else if c =? ch "x" then
    if negb (isxdigit (head_char s)) then Some ([backslash; c], s)
    else
      let c := hextobin (head_char s) in
      let s := tail s in
      if isxdigit (head_char s) then Some ([u8 (c * 16 + hextobin (head_char s))], tail s) else Some ([c], s)
  else if c =? ch "0" then
    if negb (octal (head_char s)) then Some ([0], s)
    else let '(c, s) := octal_escape (head_char s) (tail s) in Some ([c], s)
  else if octal c then let '(c, s) := octal_escape c s in Some ([c], s)
  else if c =? backslash then Some ([c], s)
  else Some ([backslash; c], s).

(** [while ((c = *s++))]: what is printed and whether the program goes on. *)
Definition word_turn (st : list Z * list Z) : res (list Z * list Z + list Z * bool) :=
  let '(s, out) := st in
  match s with
  | [] => Ok (inr (out, true))
  | c :: s =>
      if (c =? backslash) && negb (head_char s =? 0) then
        match escape (head_char s) (tail s) with
        | None => Ok (inr (out, false))
        | Some (w, s) => Ok (inl (s, out ++ w))
        end
      else Ok (inl (s, out ++ [c]))
  end.

Definition echo_word (s : list Z) : res (list Z * bool) := loop (S (length s)) word_turn (s, []).

(** The loop over the words under -e. *)
Fixpoint echo_v9 (argv : list (list Z)) : res (list Z * bool) :=
  match argv with
  | [] => Ok ([], true)
  | s :: argv =>
      let* (w, go) := echo_word s in
      if go then
        let* (ws, go) := echo_v9 argv in
        Ok (w ++ (match argv with [] => [] | _ => [32] end) ++ ws, go)
      else Ok (w, false)
  end.

(** The loop over the words without -e. *)
Fixpoint echo_plain (argv : list (list Z)) : list Z :=
  match argv with
  | [] => []
  | s :: argv => s ++ (match argv with [] => [] | _ => [32] end) ++ echo_plain argv
  end.

(** The letters of one option word. *)
Definition option_letter (c : Z) : bool := (c =? ch "e") || (c =? ch "E") || (c =? ch "n").

Definition set_option (st : bool * bool) (c : Z) : bool * bool :=
  let '(do_v9, display_return) := st in
  if c =? ch "e" then (true, display_return) else if c =? ch "E" then (false, display_return) else (do_v9, false).

(** [while (argc > 0 && *argv[0] == '-')] *)
Fixpoint echo_options (argv : list (list Z)) (st : bool * bool) : list (list Z) * (bool * bool) :=
  match argv with
  | (c :: temp) :: rest =>
      if (c =? ch "-") && forallb option_letter temp && negb (zlen temp =? 0) then echo_options rest (fold_left set_option temp st)
      else (argv, st)
  | _ => (argv, st)
  end.

Inductive echo_result := Usage | Version | Printed (out : list Z).

(** [argv] without the program's name. *)
Definition echo_main (posixly_correct : bool) (argv : list (list Z)) : res echo_result :=
  let first_is s := match argv with a :: _ => bool_decide (a = bytes s) | [] => false end in
  let allow_options := negb posixly_correct || (negb DEFAULT_ECHO_TO_XPG && first_is "-n") in
  let one := match argv with [_] => true | _ => false end in
  if allow_options && one && first_is "--help" then Ok Usage
  else if allow_options && one && first_is "--version" then Ok Version
  else
    let '(argv, (do_v9, display_return)) :=
      if allow_options then echo_options argv (DEFAULT_ECHO_TO_XPG, true) else (argv, (DEFAULT_ECHO_TO_XPG, true)) in
    let* (out, go) := if do_v9 then echo_v9 argv else Ok (echo_plain argv, true) in
    Ok (Printed (out ++ if go && display_return then [10] else [])).

Example echo_examples :
  echo_main false [bytes "-n"; bytes "a"; bytes "b"] = Ok (Printed (bytes "a b")) /\
  echo_main false [bytes "-e"; bytes "a\tb\x41\0101\101\q\\"] = Ok (Printed (bytes "a" ++ [9] ++ bytes "bAAA\q\" ++ [10])) /\
  echo_main false [bytes "-ne"; bytes "x\cy"; bytes "z"] = Ok (Printed (bytes "x")) /\
  echo_main false [bytes "-x"] = Ok (Printed (bytes "-x" ++ [10])) /\
  echo_main true [bytes "-e"; bytes "a\n"] = Ok (Printed (bytes "-e a\n" ++ [10])).
Proof. split_and!; vm_compute; reflexivity. Qed.

(** ** Every string ends *)

Lemma octal_digit_len st : (length (snd (octal_digit st)) <= length (snd st))%nat.
Proof. destruct st as [c s]. unfold octal_digit. destruct (octal (head_char s)); [|done]. destruct s; simpl; lia. Qed.

Lemma escape_len c s w s' : escape c s = Some (w, s') -> (length s' <= length s)%nat.
Proof.
  assert (forall d t, (length (snd (octal_escape d t)) <= length t)%nat) as Ho.
  { intros d t. unfold octal_escape. etransitivity; [apply octal_digit_len|]. apply (octal_digit_len (u8 (d - 48), t)). }
  assert (forall t : list Z, (length (tail t) <= length t)%nat) as Ht by (intros [|? t]; simpl; lia).
  unfold escape. repeat match goal with |- (if ?b then _ else _) = _ -> _ => destruct b end; try (by intros [= _ <-]); try done; intros H.
  - injection H as _ <-. etransitivity; [apply (Ht (tail s))|apply Ht].
  - pose proof (Ho (head_char s) (tail s)) as H1. pose proof (Ht s). destruct (octal_escape _ _) as [c' s1]. injection H as _ <-. simpl in H1. lia.
  - pose proof (Ho c s) as H1. destruct (octal_escape c s) as [c' s1]. injection H as _ <-. done.
Qed.

Lemma echo_word_fuel : forall fuel s out, (length s < fuel)%nat -> exists r, loop fuel word_turn (s, out) = Ok r.
Proof.
  induction fuel as [|fuel IH]; intros s out Hl; [lia|]. rewrite loop_step. destruct s as [|c s]; [by eexists|]. cbn [word_turn]. simpl in Hl.
  destruct ((c =? backslash) && negb (head_char s =? 0)) eqn:Eb; [|apply IH; lia].
  destruct (escape (head_char s) (tail s)) as [[w s']|] eqn:Ee; [|by eexists]. cbn [bind]. apply IH.
  apply escape_len in Ee. destruct s; simpl in *; lia.
Qed.

Lemma echo_v9_total argv : exists r, echo_v9 argv = Ok r.
Proof.
  induction argv as [|s argv [[ws go] IH]]; [by eexists|]. cbn [echo_v9]. destruct (echo_word_fuel (S (length s)) s []) as [[w g] Hw]; [lia|].
  unfold echo_word. rewrite Hw. cbn [bind]. destruct g; [|by eexists]. rewrite IH. cbn [bind]. by eexists.
Qed.

(** ** Octal escapes *)

(** A byte as an escape of three octal digits, and a text of them. *)
Definition octal_of (b : Z) : list Z := [backslash; 48; 48 + b / 64; 48 + b / 8 mod 8; 48 + b mod 8].
Definition encode (s : list Z) : list Z := concat (map octal_of s).

Lemma octal_head d : 0 <= d < 8 -> octal (48 + d) = true.
Proof. intros Hd. unfold octal. apply andb_true_iff. rewrite !Z.leb_le. lia. Qed.

Lemma octal_of_escape b rest : 0 <= b < 256 ->
  escape 48 ([48 + b / 64; 48 + b / 8 mod 8; 48 + b mod 8] ++ rest) = Some ([b], rest).
Proof.
  intros Hb. pose proof (Z.mod_pos_bound (b / 8) 8 ltac:(lia)) as H1. pose proof (Z.mod_pos_bound b 8 ltac:(lia)) as H2.
  assert (0 <= b / 64 < 4) as H0 by (split; [apply Z.div_pos; lia|apply Z.div_lt_upper_bound; lia]).
  assert (b / 64 = b / 8 / 8) as E by (rewrite Z.div_div by lia; done).
  pose proof (Z.div_mod (b / 8) 8 ltac:(lia)). pose proof (Z.div_mod b 8 ltac:(lia)).
  unfold escape. cbn [app head_char tail Z.eqb Pos.eqb].
  rewrite (octal_head (b / 64)) by lia. cbn [negb]. unfold octal_escape. cbn [octal_digit head_char tail].
  rewrite (octal_head (b / 8 mod 8)) by lia. cbn [octal_digit head_char tail]. rewrite (octal_head (b mod 8)) by lia.
  assert (u8 (u8 (u8 (48 + b / 64 - 48) * 8 + (48 + b / 8 mod 8 - 48)) * 8 + (48 + b mod 8 - 48)) = b) as ->; [|done].
  unfold u8. rewrite (Z.mod_small (48 + b / 64 - 48)), (Z.mod_small (_ * 8 + (48 + b / 8 mod 8 - 48))), Z.mod_small; lia.
Qed.

(** An encoded byte is printed. *)
Lemma word_turn_octal b rest out : 0 <= b < 256 -> word_turn (octal_of b ++ rest, out) = Ok (inl (rest, out ++ [b])).
Proof.
  intros Hb. cbn [octal_of app word_turn head_char tail]. pose proof (octal_of_escape b rest Hb) as E. cbn [app] in E. by rewrite E.
Qed.

Lemma echo_encoded bs rest : Forall byte bs -> forall fuel out, (length bs <= fuel)%nat ->
  loop fuel word_turn (encode bs ++ rest, out) = loop (fuel - length bs) word_turn (rest, out ++ bs).
Proof.
  induction 1 as [|b bs Hb _ IH]; intros fuel out Hf; [by rewrite Nat.sub_0_r, app_nil_r|]. destruct fuel as [|fuel]; [simpl in Hf; lia|].
  unfold encode. cbn [map concat]. rewrite <- app_assoc, loop_step, word_turn_octal by done. cbn [bind length Nat.sub].
  fold (encode bs). rewrite IH by (simpl in Hf; lia). by rewrite <- app_assoc.
Qed.

Lemma encode_length bs : (length bs <= length (encode bs))%nat.
Proof. unfold encode. induction bs as [|b bs IH]; [done|]. cbn [map concat octal_of app length]. lia. Qed.

Lemma echo_word_encoded bs : Forall byte bs -> echo_word (encode bs) = Ok (bs, true).
Proof.
  intros Hb. unfold echo_word. rewrite <- (app_nil_r (encode bs)) at 2. pose proof (encode_length bs). rewrite echo_encoded by (done || lia).
  replace (S (length (encode bs)) - length bs)%nat with (S (length (encode bs) - length bs)) by lia. done.
Qed.

Lemma echo_v9_encoded ws : Forall (Forall byte) ws -> echo_v9 (map encode ws) = Ok (echo_plain ws, true).
Proof.
  induction 1 as [|w ws Hw _ IH]; [done|]. cbn [map echo_v9 echo_plain]. rewrite echo_word_encoded by done. cbn [bind]. rewrite IH. cbn [bind].
  by destruct ws.
Qed.

Lemma echo_word_stop w rest : Forall byte w -> echo_word (encode w ++ bytes "\c" ++ rest) = Ok (w, false).
Proof.
  intros Hw. unfold echo_word. pose proof (encode_length w). rewrite echo_encoded by (try done; rewrite length_app; lia).
  replace (S (length (encode w ++ bytes "\c" ++ rest)) - length w)%nat with (S (length (encode w ++ bytes "\c" ++ rest) - length w)) by (rewrite length_app; lia).
  done.
Qed.

(** A word that starts a list of options. *)
Definition is_option (w : list Z) : bool :=
  match w with c :: temp => (c =? ch "-") && forallb option_letter temp && negb (zlen temp =? 0) | [] => false end.

Lemma echo_options_stop argv st : match argv with w :: _ => is_option w = false | [] => True end -> echo_options argv st = (argv, st).
Proof. destruct argv as [|[|c temp] rest]; [done|done|]. cbn [is_option echo_options]. by intros ->. Qed.

Lemma encode_no_option ws : match map encode ws with w :: _ => is_option w = false | [] => True end.
Proof. by destruct ws as [|[|b w] ws]. Qed.

(** echo prints its words: on every command line it ends; words of which the
    first is no option (nor the only word --help or --version) are printed with
    blanks between them and a newline; and every list of byte strings, NUL bytes
    included, is printed so by echo -e of its octal escapes, where the escape \c
    stops the output at once and suppresses the newline. *)
Theorem echo_correct :
  (forall posix argv, exists r, echo_main posix argv = Ok r) /\
  (forall posix ws, match ws with w :: _ => is_option w = false | [] => True end ->
    ws <> [bytes "--help"] -> ws <> [bytes "--version"] -> echo_main posix ws = Ok (Printed (echo_plain ws ++ [10]))) /\
  (forall ws, Forall (Forall byte) ws -> echo_main false (bytes "-e" :: map encode ws) = Ok (Printed (echo_plain ws ++ [10]))) /\
  (forall w rest ws, Forall byte w ->
    echo_main false (bytes "-e" :: (encode w ++ bytes "\c" ++ rest) :: ws) = Ok (Printed w)).
Proof.
  split_and!.
  - intros posix argv. unfold echo_main. repeat match goal with |- context [if ?b then Ok _ else _] => destruct b; [by eexists|] end.
    destruct (if _ : bool then _ else _) as [argv' [v9 ret]]. destruct (echo_v9_total argv') as [[out go] E]. destruct v9; [rewrite E|]; by eexists.
  - intros posix ws Hw Hh Hv. unfold echo_main.
    assert (forall s, ws <> [bytes s] -> forall b, b && (match ws with [_] => true | _ => false end) &&
      (match ws with a :: _ => bool_decide (a = bytes s) | [] => false end) = false) as Hone.
    { intros s Hs b. destruct ws as [|a [|a' ws]]; rewrite ?andb_false_r; try done. rewrite bool_decide_eq_false_2, andb_false_r; [done|]. by intros ->. }
    rewrite (Hone "--help" Hh), (Hone "--version" Hv). rewrite echo_options_stop by done.
    match goal with |- context [if ?b then (ws, _) else _] => destruct b end; done.
  - intros ws Hws. unfold echo_main. cbn [negb orb andb].
    assert (echo_options (bytes "-e" :: map encode ws) (DEFAULT_ECHO_TO_XPG, true) = (map encode ws, (true, true))) as ->.
    { transitivity (echo_options (map encode ws) (true, true)); [done|]. apply echo_options_stop, encode_no_option. }
    rewrite echo_v9_encoded by done. by destruct ws.
  - intros w rest ws Hw. unfold echo_main. cbn [negb orb andb]. set (arg := encode w ++ bytes "\c" ++ rest).
    assert (echo_options (bytes "-e" :: arg :: ws) (DEFAULT_ECHO_TO_XPG, true) = (arg :: ws, (true, true))) as ->.
    { transitivity (echo_options (arg :: ws) (true, true)); [done|]. apply echo_options_stop. by destruct w. }
    cbn [echo_v9]. unfold arg. rewrite echo_word_stop by done. cbn [bind andb]. by rewrite app_nil_r.
Qed.
