(* ===== verification/LineBuffer.v ===== *)
(** * Reading lines: utils/coreutils/lib/linebuffer.c

    A stream is the bytes it still has to deliver, whether it then fails, and its
    two indicators.  The sentinel [end] starts at the length of the line that the
    buffer held before, not at the size of the buffer, as the source has it: a
    line is read correctly when it is not longer than that, or when the buffer was
    full; a lemma shows what happens otherwise. *)

From S2P Require Import Prelude Arrays CStrings Stdio.
Open Scope Z_scope.

Record stream := Stream { rest : list Z; fails : bool; feof : bool; ferror : bool }.

(** [getc]: [None] is EOF. *)
Definition getc (s : stream) : option Z * stream :=
  match rest s with
  | c :: bs => (Some c, Stream bs (fails s) (feof s) (ferror s))
  | [] => if fails s then (None, Stream [] true (feof s) true) else (None, Stream [] false true (ferror s))
  end.

Record linebuffer := LineBuf { lb_size : Z; lb_length : Z; lb_buffer : block }.

Definition initbuffer : linebuffer := LineBuf 0 0 None.

(** [if (p == end) ...; *p++ = c; while (c != delimiter)], on the buffer, [p],
    [end] and the size. *)
Definition store_char (delimiter c : Z) (st : block * Z * Z * Z) (s : stream)
    : res (block * Z * Z * Z * stream + bool * (block * Z * Z * stream)) :=
  let '(buffer, p, end_, size) := st in
  let* (buffer, p, end_, size) :=
    if p =? end_ then
      let oldsize := size in
      let* (b, size) := x2realloc buffer size in
      Ok (Some b, oldsize, size, size)
    else Ok (buffer, p, end_, size) in
  let* b := wr (cells buffer) p (Some c) in
  let p := p + 1 in
  if c =? delimiter then Ok (inr (true, (Some b, p, size, s))) else Ok (inl (Some b, p, end_, size, s)).

(** One turn of the do loop. *)
Definition line_turn (delimiter : Z) (st : block * Z * Z * Z * stream)
    : res (block * Z * Z * Z * stream + bool * (block * Z * Z * stream)) :=
  let '(buffer, p, end_, size, s) := st in
  let '(c, s) := getc s in
  match c with
  | None =>
      if (p =? 0) || ferror s then Ok (inr (false, (buffer, p, size, s)))
      else
        let* last := rdu (cells buffer) (p - 1) in
        if last =? delimiter then Ok (inr (true, (buffer, p, size, s)))
        else store_char delimiter delimiter (buffer, p, end_, size) s
  | Some c => store_char delimiter c (buffer, p, end_, size) s
  end.

(** The result is whether the pointer returned is not NULL. *)
Definition readlinebuffer_delim (lb : linebuffer) (s : stream) (delimiter : Z) : res (bool * linebuffer * stream) :=
  if feof s then Ok (false, lb, s)
  else
    let* (r, (buffer, p, size, s)) :=
      loop (S (S (length (rest s)))) (line_turn delimiter) (lb_buffer lb, 0, lb_length lb, lb_size lb, s) in
    if r then Ok (true, LineBuf size p buffer, s) else Ok (false, LineBuf size (lb_length lb) buffer, s).

Definition readlinebuffer (lb : linebuffer) (s : stream) : res (bool * linebuffer * stream) := readlinebuffer_delim lb s 10.

(** ** Lines *)

(** The lines of a text, each with its newline; a missing last one is added. *)
Fixpoint text_lines (bs : list Z) : list (list Z) :=
  match bs with
  | [] => []
  | c :: bs => if c =? 10 then [10] :: text_lines bs else match text_lines bs with l :: ls => (c :: l) :: ls | [] => [[c; 10]] end
  end.

(** What is left after a first line. *)
Fixpoint after_line (bs : list Z) : list Z :=
  match bs with [] => [] | c :: bs => if c =? 10 then bs else after_line bs end.

Fixpoint first_line (bs : list Z) : list Z :=
  match bs with [] => [10] | c :: bs => if c =? 10 then [10] else c :: first_line bs end.

Lemma text_lines_cons bs : bs <> [] -> text_lines bs = first_line bs :: text_lines (after_line bs).
Proof.
  induction bs as [|c bs IH]; intros Hne; [done|]. cbn [text_lines first_line after_line]. destruct (Z.eqb_spec c 10) as [->|Hc]; [done|].
  destruct bs as [|c' bs]; [done|]. by rewrite IH.
Qed.

Section reading.
(** A bound on the lines. *)
Variable (bound : Z).
Hypothesis Hbound : bound < 2 ^ 60.

Definition lb_wf (lb : linebuffer) : Prop :=
  lb_size lb = zlen (cells (lb_buffer lb)) /\ 0 <= lb_length lb <= lb_size lb /\ (lb_buffer lb = None \/ 0 < lb_size lb) /\ lb_size lb <= 64 + 2 * bound.

(** A buffer that holds a line, and one that a line is read into correctly. *)
Definition lb_holds (lb : linebuffer) (l : list Z) : Prop :=
  lb_wf lb /\ lb_length lb = zlen l /\ holds (cells (lb_buffer lb)) l.

Definition accepts (lb : linebuffer) (l : list Z) : Prop := lb_wf lb /\ (lb_length lb = lb_size lb \/ zlen l <= lb_length lb).

Lemma accepts_init l : 0 <= bound -> accepts initbuffer l.
Proof. intros Hb. split; [|by left]. split_and!; try done; [by left|cbn; lia]. Qed.

(** The stream stands before the lines [ls]. *)
Definition at_lines (s : stream) (ls : list (list Z)) : Prop :=
  fails s = false /\ ferror s = false /\ ls = text_lines (rest s) /\ (feof s = true -> rest s = []).

Lemma store_char_ok buffer pre end_ size c s n :
  holds (cells buffer) pre -> size = zlen (cells buffer) -> (buffer = None \/ 0 < size) -> size <= 64 + 2 * bound ->
  zlen pre <= end_ <= size -> 0 < n -> (end_ = size \/ zlen pre + n <= end_) -> zlen pre + n <= bound ->
  exists b end' size', store_char 10 c (buffer, zlen pre, end_, size) s =
      (if c =? 10 then Ok (inr (true, (Some b, zlen (pre ++ [c]), size', s))) else Ok (inl (Some b, zlen (pre ++ [c]), end', size', s))) /\
    holds b (pre ++ [c]) /\ size' = zlen b /\ 0 < size' <= 64 + 2 * bound /\ zlen (pre ++ [c]) <= end' <= size' /\
    (end' = size' \/ zlen (pre ++ [c]) + (n - 1) <= end').
Proof.
  intros Hh Hz Hn0 Hmax He Hn Hroom Hb. unfold store_char. pose proof (zlen_nonneg pre). rewrite zlen_snoc.
  destruct (Z.eqb_spec (zlen pre) end_) as [E|E].
  - assert (end_ = size) as -> by (destruct Hroom; lia).
    destruct (x2realloc_ok buffer pre Hh) as (b & size' & Er & Hh' & Hz' & Hgr & _ & _).
    { destruct Hn0; [by left|right; lia]. } { change (SIZE_MAX / 3 * 2) with 12297829382473034410. lia. }
    rewrite <- Hz in *. rewrite Er. cbn [bind cells]. destruct (holds_put b pre c Hh') as (b' & Ew & Hh2 & Hz2); [lia|].
    rewrite <- E, Ew. cbn [bind]. exists b', size', size'. destruct (c =? 10); split_and!; try done; lia.
  - cbn [bind]. destruct (holds_put (cells buffer) pre c Hh) as (b' & -> & Hh2 & Hz2); [lia|]. cbn [bind].
    exists b', end_, size. destruct (c =? 10); split_and!; try done; lia.
Qed.

Lemma first_line_pos bs : 0 < zlen (first_line bs).
Proof. destruct bs as [|c bs]; [done|]. cbn [first_line]. destruct (c =? 10); [done|]. rewrite zlen_cons. pose proof (zlen_nonneg (first_line bs)). lia. Qed.

Lemma line_loop bs : forall fuel buffer pre end_ size e,
  holds (cells buffer) pre -> size = zlen (cells buffer) -> (buffer = None \/ 0 < size) -> size <= 64 + 2 * bound ->
  zlen pre <= end_ <= size -> (end_ = size \/ zlen pre + zlen (first_line bs) <= end_) -> zlen pre + zlen (first_line bs) <= bound ->
  pre <> [] \/ bs <> [] -> Forall (fun c => c <> 10) pre -> (length bs + 1 < fuel)%nat ->
  exists b size' s', loop fuel (line_turn 10) (buffer, zlen pre, end_, size, Stream bs false e false) =
      Ok (true, (Some b, zlen (pre ++ first_line bs), size', s')) /\
    holds b (pre ++ first_line bs) /\ size' = zlen b /\ 0 < size' <= 64 + 2 * bound /\
    fails s' = false /\ ferror s' = false /\ rest s' = after_line bs /\ (feof s' = true -> e = true \/ rest s' = []).
Proof.
  induction bs as [|c bs IH]; intros fuel buffer pre end_ size e Hh Hz Hn Hmax He Hroom Hb Hne Hnl Hf; (destruct fuel as [|fuel]; [lia|]);
    rewrite loop_step; cbn [line_turn getc rest fails feof ferror].
  - destruct Hne as [Hne|Hne]; [|done]. destruct (exists_last_or pre) as [->|(pre' & x & ->)]; [done|]. pose proof (zlen_nonneg pre').
    rewrite (proj2 (Z.eqb_neq (zlen (pre' ++ [x])) 0)) by (rewrite zlen_snoc; lia). cbn [orb].
    replace (zlen (pre' ++ [x]) - 1) with (zlen pre') by (rewrite zlen_snoc; lia). rewrite (holds_rd (cells buffer) pre' x []) by done. cbn [bind].
    apply Forall_app in Hnl as [_ Hx]. apply Forall_cons in Hx as [Hx _]. rewrite (proj2 (Z.eqb_neq x 10) Hx).
    destruct (store_char_ok buffer (pre' ++ [x]) end_ size 10 (Stream [] false true false) 1) as (b & end' & size' & -> & Hh' & Hz' & Hs' & He' & Hr'); try done.
    cbn [Z.eqb bind first_line after_line]. eexists b, size', _. split; [done|]. split_and!; try done; try lia. intros _. by right.
  - cbn [first_line after_line] in *.
    destruct (store_char_ok buffer pre end_ size c (Stream bs false e false) (if c =? 10 then 1 else zlen (first_line bs) + 1)) as (b & end' & size' & -> & Hh' & Hz' & Hs' & He' & Hr');
      try done; [pose proof (first_line_pos bs); destruct (c =? 10); lia|destruct (c =? 10); rewrite ?zlen_cons in *; done|destruct (c =? 10); rewrite ?zlen_cons in *; done|].
    destruct (Z.eqb_spec c 10) as [->|Hc]; cbn [bind].
    + eexists b, size', _. split; [done|]. split_and!; try done; try lia. intros E. by left.
    + rewrite zlen_cons in *. destruct (IH fuel (Some b) (pre ++ [c]) end' size' e) as (b2 & size2 & s2 & E2 & H2); try done.
      * right. lia.
      * lia.
      * destruct Hr' as [?|Hr']; [by left|right; lia].
      * rewrite zlen_snoc. lia.
      * left. by destruct pre.
      * apply Forall_app. split; [done|]. by repeat constructor.
      * simpl in Hf. lia.
      * exists b2, size2, s2. rewrite <- app_assoc in *. split; [exact E2|exact H2].
Qed.

(** The next line, into a buffer that accepts it. *)
Lemma readlinebuffer_ok lb s l ls :
  at_lines s (l :: ls) -> accepts lb l -> zlen l <= bound ->
  exists lb' s', readlinebuffer lb s = Ok (true, lb', s') /\ lb_holds lb' l /\ at_lines s' ls.
Proof.
  intros (Hfs & Hfe & Hl & Heof) [(Hz & Hlen & Hn & Hmax) Hroom] Hb. destruct s as [bs fl eo er]. cbn [rest fails feof ferror] in *. subst fl er.
  assert (bs <> []) as Hne by (by intros ->). rewrite text_lines_cons in Hl by done. injection Hl as -> ->.
  unfold readlinebuffer, readlinebuffer_delim. cbn [feof rest]. destruct eo; [by rewrite Heof in Hne|].
  destruct (line_loop bs (S (S (length bs))) (lb_buffer lb) [] (lb_length lb) (lb_size lb) false) as (b & size & s' & E & Hh & Hs & Hr & H1 & H2 & H3 & H4);
    try done; [apply holds_nil|by right|lia|].
  change (zlen (@nil Z)) with 0 in E. rewrite E. cbn [bind app] in *. eexists _, s'. split; [done|]. split.
  - split; [|done]. pose proof (zlen_nonneg (first_line bs)). pose proof (holds_len _ _ Hh).
    unfold lb_wf. cbn [lb_size lb_length lb_buffer cells]. split_and!; try done; lia.
  - split_and!; try done; [by rewrite H3|]. intros He. by destruct (H4 He).
Qed.

(** After the last line, NULL. *)
Lemma readlinebuffer_end lb s : at_lines s [] -> exists s', readlinebuffer lb s = Ok (false, lb, s') /\ at_lines s' [].
Proof.
  intros (Hfs & Hfe & Hl & Heof). destruct s as [bs fl eo er]. cbn [rest fails feof ferror] in *. subst fl er.
  assert (bs = []) as -> by (destruct bs; [done|]; by rewrite text_lines_cons in Hl).
  unfold readlinebuffer, readlinebuffer_delim. cbn [feof rest]. destruct eo; [by eexists|]. cbn. eexists. split; [by destruct lb|]. done.
Qed.

End reading.

(** The sentinel: after a line of two bytes in a buffer of 64, the third byte of a
    longer line is stored behind the end of the old buffer, and the bytes between
    were never written. *)
Lemma longer_line_corrupts :
  match readlinebuffer initbuffer (Stream (bytes "a" ++ [10] ++ bytes "hello" ++ [10]) false false false) with
  | Ok (true, lb, s) =>
      lb_length lb = 2 /\ lb_size lb = 64 /\
      match readlinebuffer lb s with
      | Ok (true, lb, _) => lb_length lb = 68 /\ fwrite (cells (lb_buffer lb)) (lb_length lb) = Fail Uninit
      | _ => False
      end
  | _ => False
  end.
Proof. vm_compute. by split_and!. Qed.
