(* ===== verification/Comm.v ===== *)
(** * The command comm: utils/coreutils/src/comm.c

    The merge of two files of lines, over the line buffers of LineBuffer.v: each
    file has a ring of four, and the order of the lines is checked on the two
    before the current one.  The collation of the locale, when it is not the
    comparison of bytes, and the answers of the file system are arguments; what
    goes to stderr is left out.  [memcmp] is modelled by its sign. *)

From Stdlib Require Import Wf_nat.
From S2P Require Import Prelude Arrays CStrings Stdio LineBuffer.
Open Scope Z_scope.

#[export] Instance linebuffer_inhabited : Inhabited linebuffer := populate initbuffer.

Inductive order_check := CHECK_ORDER_DEFAULT | CHECK_ORDER_ENABLED | CHECK_ORDER_DISABLED.

#[export] Instance order_check_eq_dec : EqDecision order_check.
Proof. solve_decision. Defined.

(** The settings of main. [delimiter] is NULL until it is set. *)
Record settings := Settings {
  only_file_1 : bool; only_file_2 : bool; both : bool;
  check_input_order : order_check; delimiter : option (list Z) }.

Definition default_settings : settings := Settings true true true CHECK_ORDER_DEFAULT None.

(** The options getopt_long returns. *)
Inductive comm_option := Opt1 | Opt2 | Opt3 | NOCHECK_ORDER_OPTION | CHECK_ORDER_OPTION | OUTPUT_DELIMITER_OPTION (optarg : list Z) | OptOther.

Definition set_option (o : comm_option) (s : settings) : res settings :=
  match o with
  | Opt1 => Ok (Settings false (only_file_2 s) (both s) (check_input_order s) (delimiter s))
  | Opt2 => Ok (Settings (only_file_1 s) false (both s) (check_input_order s) (delimiter s))
  | Opt3 => Ok (Settings (only_file_1 s) (only_file_2 s) false (check_input_order s) (delimiter s))
  | NOCHECK_ORDER_OPTION => Ok (Settings (only_file_1 s) (only_file_2 s) (both s) CHECK_ORDER_DISABLED (delimiter s))
  | CHECK_ORDER_OPTION => Ok (Settings (only_file_1 s) (only_file_2 s) (both s) CHECK_ORDER_ENABLED (delimiter s))
  | OUTPUT_DELIMITER_OPTION optarg =>
      let* _ := demand (match delimiter s with Some d => bool_decide (d = optarg) | None => true end) (ExitCall 1) in
      let* _ := demand (negb (bool_decide (optarg = []))) (ExitCall 1) in
      Ok (Settings (only_file_1 s) (only_file_2 s) (both s) (check_input_order s) (Some optarg))
  | OptOther => Fail (ExitCall 1)
  end.

Fixpoint set_options (os : list comm_option) (s : settings) : res settings :=
  match os with
  | [] => Ok s
  | o :: os => let* s := set_option o s in set_options os s
  end.

(** The sign of [memcmp] on as many bytes as both have. *)
Fixpoint memcmp (a b : list Z) : Z :=
  match a, b with
  | x :: a, y :: b => if x =? y then memcmp a b else if x <? y then -1 else 1
  | _, _ => 0
  end.

Definition memcmp2 (s1 s2 : list Z) : Z :=
  let n1 := zlen s1 in
  let n2 := zlen s2 in
  let n := Z.to_nat (if n1 <=? n2 then n1 else n2) in
  let cmp := memcmp (take n s1) (take n s2) in
  if cmp =? 0 then if n1 <? n2 then -1 else if n1 >? n2 then 1 else cmp else cmp.

(** The first [n] bytes of a buffer. *)
Definition load (lb : linebuffer) (n : Z) : res (list Z) := fwrite (cells (lb_buffer lb)) n.

(** The static variables that change, and what is printed. *)
Record comm_state := CommState { seen_unpairable : bool; issued_1 : bool; issued_2 : bool; printed : list Z }.

Section comm.
(** [xmemcoll], when the locale is hard. *)
Variables (xmemcoll : option (list Z -> list Z -> Z)) (s : settings) (delim : list Z).

Definition writeline (line : linebuffer) (class : Z) : res (list Z) :=
  let d (b : bool) := if b then delim else [] in
  if class =? 1 then if only_file_1 s then load line (lb_length line) else Ok []
  else if class =? 2 then
    if only_file_2 s then let* l := load line (lb_length line) in Ok (d (only_file_1 s) ++ l) else Ok []
  else
    if both s then let* l := load line (lb_length line) in Ok (d (only_file_1 s) ++ d (only_file_2 s) ++ l) else Ok [].

Definition check_order (prev current : linebuffer) (whatfile : Z) (st : comm_state) : res comm_state :=
  if negb (bool_decide (check_input_order s = CHECK_ORDER_DISABLED)) &&
     (bool_decide (check_input_order s = CHECK_ORDER_ENABLED) || seen_unpairable st) then
    if negb (if whatfile =? 1 then issued_1 st else issued_2 st) then
      let* a := load prev (lb_length prev - 1) in
      let* b := load current (lb_length current - 1) in
      let order := match xmemcoll with Some f => f a b | None => memcmp2 a b end in
      if order >? 0 then
        if bool_decide (check_input_order s = CHECK_ORDER_ENABLED) then Fail (ExitCall 1)
        else Ok (if whatfile =? 1 then CommState (seen_unpairable st) true (issued_2 st) (printed st)
                 else CommState (seen_unpairable st) (issued_1 st) true (printed st))
      else Ok st
    else Ok st
  else Ok st.

(** What compare_files keeps for one file; [present] is [thisline != NULL], and
    then it points to the buffer [alt0]. *)
Record side := Side { bufs : list linebuffer; alt0 : Z; alt1 : Z; alt2 : Z; present : bool; input : stream }.

(** The order of the two current lines. *)
Definition line_order (l0 l1 : linebuffer) : res Z :=
  match xmemcoll with
  | Some f =>
      let* a := load l0 (lb_length l0 - 1) in
      let* b := load l1 (lb_length l1 - 1) in
      Ok (f a b)
  | None =>
      let len := Z.min (lb_length l0) (lb_length l1) - 1 in
      let* a := load l0 len in
      let* b := load l1 len in
      let order := memcmp a b in
      Ok (if order =? 0 then
            if lb_length l0 <? lb_length l1 then -1 else if negb (lb_length l0 =? lb_length l1) then 1 else 0
          else order)
  end.

(** [if (fill_up[i])]: the next line of file [i + 1]. *)
Definition fill (whatfile : Z) (sd : side) (st : comm_state) : res (side * comm_state) :=
  let a2 := alt1 sd in
  let a1 := alt0 sd in
  let a0 := Z.land (alt0 sd + 1) 3 in
  let* lb := rd (bufs sd) a0 in
  let* (r, lb, str) := readlinebuffer lb (input sd) in
  let* bs := wr (bufs sd) a0 lb in
  let* p1 := rd bs a1 in
  let* p2 := rd bs a2 in
  let* st :=
    if r then check_order p1 lb whatfile st
    else match lb_buffer p2 with Some _ => check_order p2 p1 whatfile st | None => Ok st end in
  let* _ := demand (negb (ferror str)) (ExitCall 1) in
  Ok (Side bs a0 a1 a2 r str, st).

(** One turn of the while. *)
Definition compare_turn (x : side * side * comm_state) : res (side * side * comm_state + side * side * comm_state) :=
  let '(s0, s1, st) := x in
  if present s0 || present s1 then
    let* l0 := rd (bufs s0) (alt0 s0) in
    let* l1 := rd (bufs s1) (alt0 s1) in
    let* order := if negb (present s0) then Ok 1 else if negb (present s1) then Ok (-1) else line_order l0 l1 in
    let* st :=
      if order =? 0 then
        let* w := writeline l1 3 in Ok (CommState (seen_unpairable st) (issued_1 st) (issued_2 st) (printed st ++ w))
      else if order <=? 0 then
        let* w := writeline l0 1 in Ok (CommState true (issued_1 st) (issued_2 st) (printed st ++ w))
      else
        let* w := writeline l1 2 in Ok (CommState true (issued_1 st) (issued_2 st) (printed st ++ w)) in
    let* (s0, st) := if order <=? 0 then fill 1 s0 st else Ok (s0, st) in
    let* (s1, st) := if order >=? 0 then fill 2 s1 st else Ok (s1, st) in
    Ok (inl (s0, s1, st))
  else Ok (inr x).

(** Opening a file and reading its first line. *)
Definition open_side (f : option stream) : res side :=
  match f with
  | None => Fail (ExitCall 1)
  | Some str =>
      let* (r, lb, str) := readlinebuffer initbuffer str in
      let* _ := demand (negb (ferror str)) (ExitCall 1) in
      Ok (Side [lb; initbuffer; initbuffer; initbuffer] 0 0 0 r str)
  end.

(** The two files, and whether closing them succeeds. *)
Definition compare_files (f0 f1 : option stream) (close0 close1 : bool) : res comm_state :=
  let* s0 := open_side f0 in
  let* s1 := open_side f1 in
  let fuel := S (S (length (rest (input s0)) + length (rest (input s1)) + 2)) in
  let* (s0, s1, st) := loop fuel compare_turn (s0, s1, CommState false false false []) in
  let* _ := demand (close0 && close1) (ExitCall 1) in
  Ok st.

End comm.

(** The output and the exit status, for the options and the two operands. *)
Definition comm_main (xmemcoll : option (list Z -> list Z -> Z)) (os : list comm_option) (f0 f1 : option stream) (close0 close1 : bool)
    : res (list Z * Z) :=
  let* s := set_options os default_settings in
  let delim := match delimiter s with Some d => d | None => [9] end in
  let* st := compare_files xmemcoll s delim f0 f1 close0 close1 in
  Ok (printed st, if issued_1 st || issued_2 st then 1 else 0).

Definition text (ls : list string) : list Z := concat (map (fun l => bytes l ++ [10]) ls).
Definition file_of (ls : list string) : option stream := Some (Stream (text ls) false false false).

Example comm_examples :
  comm_main None [] (file_of ["a"; "b"; "d"]) (file_of ["b"; "c"]) true true = Ok (bytes "a" ++ [10; 9; 9] ++ bytes "b" ++ [10; 9] ++ bytes "c" ++ [10] ++ bytes "d" ++ [10], 0) /\
  comm_main None [Opt1; Opt2] (file_of ["a"; "b"; "d"]) (file_of ["b"; "c"]) true true = Ok (bytes "b" ++ [10], 0) /\
  comm_main None [] (file_of ["b"; "a"]) (file_of ["c"]) true true = Ok (bytes "b" ++ [10] ++ bytes "a" ++ [10; 9] ++ bytes "c" ++ [10], 1) /\
  comm_main None [CHECK_ORDER_OPTION] (file_of ["b"; "a"]) (file_of ["c"]) true true = Fail (ExitCall 1).
Proof. split_and!; vm_compute; reflexivity. Qed.

(** ** The reference *)

(** A line without its newline. *)
Definition body (l : list Z) : list Z := take (length l - 1) l.

Definition compare_lines (xmemcoll : option (list Z -> list Z -> Z)) (a b : list Z) : Z :=
  match xmemcoll with Some f => f (body a) (body b) | None => memcmp2 (body a) (body b) end.

(** The lines of two files with their classes. *)
Fixpoint merge (cmp : list Z -> list Z -> Z) (xs : list (list Z)) : list (list Z) -> list (Z * list Z) :=
  fix inner ys :=
    match xs, ys with
    | [], [] => []
    | x :: xs, [] => (1, x) :: merge cmp xs []
    | [], y :: ys => (2, y) :: inner ys
    | x :: xs', y :: ys' =>
        let order := cmp x y in
        if order =? 0 then (3, y) :: merge cmp xs' ys'
        else if order <=? 0 then (1, x) :: merge cmp xs' ys
        else (2, y) :: inner ys'
    end.

(** The column of a class. *)
Definition show (s : settings) (delim : list Z) (cl : Z * list Z) : list Z :=
  let d (b : bool) := if b then delim else [] in
  let '(class, l) := cl in
  if class =? 1 then if only_file_1 s then l else []
  else if class =? 2 then if only_file_2 s then d (only_file_1 s) ++ l else []
  else if both s then d (only_file_1 s) ++ d (only_file_2 s) ++ l else [].

Section merging.
Variable (cmp : list Z -> list Z -> Z).

(** The class of the line that is printed next, and which files it steps. *)
Inductive next (xs ys : list (list Z)) : Z -> Z * list Z -> list (list Z) -> list (list Z) -> Prop :=
| next_1 x xs' order : xs = x :: xs' -> order < 0 -> next xs ys order (1, x) xs' ys
| next_2 y ys' order : ys = y :: ys' -> 0 < order -> next xs ys order (2, y) xs ys'
| next_3 x xs' y ys' : xs = x :: xs' -> ys = y :: ys' -> next xs ys 0 (3, y) xs' ys'.

Definition chosen (xs ys : list (list Z)) : Z :=
  match xs, ys with [], _ => 1 | _, [] => -1 | x :: _, y :: _ => cmp x y end.

Lemma merge_next xs ys : xs <> [] \/ ys <> [] ->
  exists cl xs' ys', next xs ys (chosen xs ys) cl xs' ys' /\ merge cmp xs ys = cl :: merge cmp xs' ys'.
Proof.
  intros Hne. destruct xs as [|x xs], ys as [|y ys]; [by destruct Hne| | |].
  - exists (2, y), [], ys. split; [by eapply next_2|done].
  - exists (1, x), xs, []. split; [by eapply next_1|done].
  - assert (merge cmp (x :: xs) (y :: ys) = if cmp x y =? 0 then (3, y) :: merge cmp xs ys
      else if cmp x y <=? 0 then (1, x) :: merge cmp xs (y :: ys) else (2, y) :: merge cmp (x :: xs) ys) as -> by done.
    cbn [chosen]. destruct (Z.eqb_spec (cmp x y) 0) as [E|E].
    + rewrite E. eexists _, _, _. split; [by eapply next_3|done].
    + destruct (Z.leb_spec (cmp x y) 0); eexists _, _, _; (split; [|done]); [eapply next_1|eapply next_2]; done || lia.
Qed.

Lemma merge_rule (P : list (list Z) -> list (list Z) -> list (Z * list Z) -> Prop) :
  P [] [] [] ->
  (forall xs ys cl xs' ys' m, next xs ys (chosen xs ys) cl xs' ys' -> P xs' ys' m -> P xs ys (cl :: m)) ->
  forall xs ys, P xs ys (merge cmp xs ys).
Proof.
  intros H0 Hstep xs ys. remember (length xs + length ys)%nat as n eqn:En. revert xs ys En.
  induction n as [n IH] using lt_wf_ind. intros xs ys En. destruct (decide (xs = [] /\ ys = [])) as [[-> ->]|Hne]; [done|].
  destruct (merge_next xs ys) as (cl & xs' & ys' & Hn & ->); [destruct xs; [right; intros ->; by apply Hne|by left]|].
  apply (Hstep _ _ _ _ _ _ Hn). eapply IH; [|done]. destruct Hn as [? ? ? -> _|? ? ? -> _|? ? ? ? -> ->]; simpl in *; lia.
Qed.

End merging.

Section proof.
Variables (xmemcoll : option (list Z -> list Z -> Z)) (s : settings) (delim : list Z) (bound : Z).
Hypothesis Hbound : 0 <= bound < 2 ^ 60.

Abbreviation cmp := (compare_lines xmemcoll).

Lemma load_line lb l : lb_holds bound lb l -> load lb (lb_length lb) = Ok l.
Proof. intros (_ & -> & Hh). apply (holds_fwrite _ l []). by rewrite app_nil_r. Qed.

Lemma load_prefix lb l n : lb_holds bound lb l -> 0 <= n <= zlen l -> load lb n = Ok (take (Z.to_nat n) l).
Proof.
  intros (_ & _ & Hh) Hn. rewrite <- (take_drop (Z.to_nat n) l) in Hh. unfold load.
  replace n with (zlen (take (Z.to_nat n) l)) at 1; [by eapply holds_fwrite|]. unfold zlen in *. rewrite length_take. lia.
Qed.

Lemma load_body lb l : lb_holds bound lb l -> l <> [] -> load lb (lb_length lb - 1) = Ok (body l).
Proof.
  intros Hl Hne. assert (1 <= zlen l) by (destruct l; [done|]; rewrite zlen_cons; pose proof (zlen_nonneg l); lia).
  pose proof Hl as (_ & E & _). rewrite E, (load_prefix lb l) by (done || lia). unfold body, zlen. do 2 f_equal. lia.
Qed.

Lemma writeline_ok lb l class : lb_holds bound lb l -> class = 1 \/ class = 2 \/ class = 3 -> writeline s delim lb class = Ok (show s delim (class, l)).
Proof.
  intros Hl Hc. unfold writeline, show. rewrite (load_line _ _ Hl). destruct Hc as [->|[->| ->]]; cbn [Z.eqb Pos.eqb].
  - by destruct (only_file_1 s).
  - by destruct (only_file_2 s).
  - by destruct (both s).
Qed.

Lemma line_order_ok lb0 lb1 l0 l1 : lb_holds bound lb0 l0 -> lb_holds bound lb1 l1 -> l0 <> [] -> l1 <> [] ->
  line_order xmemcoll lb0 lb1 = Ok (cmp l0 l1).
Proof.
  intros H0 H1 Hn0 Hn1. unfold line_order, compare_lines. destruct xmemcoll as [f|].
  { rewrite (load_body _ _ H0 Hn0), (load_body _ _ H1 Hn1). done. }
  pose proof H0 as (_ & E0 & _). pose proof H1 as (_ & E1 & _). rewrite E0, E1.
  assert (1 <= zlen l0) as Hz0 by (destruct l0; [done|]; rewrite zlen_cons; pose proof (zlen_nonneg l0); lia).
  assert (1 <= zlen l1) as Hz1 by (destruct l1; [done|]; rewrite zlen_cons; pose proof (zlen_nonneg l1); lia).
  rewrite (load_prefix lb0 l0), (load_prefix lb1 l1) by (done || lia). cbn [bind]. unfold memcmp2.
  assert (zlen (body l0) = zlen l0 - 1) as Eb0 by (unfold body, zlen in *; rewrite length_take; lia).
  assert (zlen (body l1) = zlen l1 - 1) as Eb1 by (unfold body, zlen in *; rewrite length_take; lia).
  assert (forall l, Z.min (zlen l0) (zlen l1) <= zlen l -> take (Z.to_nat (Z.min (zlen l0) (zlen l1) - 1)) l = take (Z.to_nat (Z.min (zlen l0) (zlen l1) - 1)) (body l)) as Et.
  { intros l Hl. unfold body. rewrite take_take. f_equal. unfold zlen in *. lia. }
  rewrite (Et l0), (Et l1) by lia. rewrite Eb0, Eb1.
  replace (if zlen l0 - 1 <=? zlen l1 - 1 then zlen l0 - 1 else zlen l1 - 1) with (Z.min (zlen l0) (zlen l1) - 1) by (destruct (Z.leb_spec (zlen l0 - 1) (zlen l1 - 1)); lia).
  f_equal. destruct (memcmp _ _ =? 0) eqn:Em; [|done]. apply Z.eqb_eq in Em. rewrite Em, Z.gtb_ltb.
  destruct (Z.ltb_spec (zlen l0) (zlen l1)), (Z.ltb_spec (zlen l0 - 1) (zlen l1 - 1)), (Z.ltb_spec (zlen l1 - 1) (zlen l0 - 1)), (Z.eqb_spec (zlen l0) (zlen l1)); done || lia.
Qed.

(** The check stays silent. *)
Lemma check_order_quiet lb0 lb1 l0 l1 w st :
  lb_holds bound lb0 l0 -> lb_holds bound lb1 l1 -> l0 <> [] -> l1 <> [] ->
  check_input_order s = CHECK_ORDER_DISABLED \/ cmp l0 l1 <= 0 -> check_order xmemcoll s lb0 lb1 w st = Ok st.
Proof.
  intros H0 H1 Hn0 Hn1 Hq. unfold check_order. destruct Hq as [->|Hq]; [done|].
  destruct (_ && _); [|done]. destruct (negb _); [|done]. rewrite (load_body _ _ H0 Hn0), (load_body _ _ H1 Hn1). cbn [bind].
  unfold compare_lines in Hq. rewrite Z.gtb_ltb, (proj2 (Z.ltb_ge 0 _) Hq). done.
Qed.

(** ** One file *)

(** Four lines on, a line is not longer, so that its buffer accepts it. *)
Definition reusable (ls : list (list Z)) : Prop := forall i, 0 <= i -> i + 4 < zlen ls -> zlen ls.[i + 4] <= zlen ls.[i].

(** Lines that the order check passes. *)
Definition in_order (ls : list (list Z)) : Prop :=
  check_input_order s = CHECK_ORDER_DISABLED \/
  (forall l, l ∈ ls -> cmp l l <= 0) /\ (forall i, 0 <= i -> i + 1 < zlen ls -> cmp ls.[i] ls.[i + 1] <= 0).

Definition good_lines (ls : list (list Z)) : Prop :=
  Forall (fun l => l <> [] /\ zlen l <= bound) ls /\ reusable ls /\ in_order ls.

(** The file has the lines [ls] and stands at line [n]. *)
Definition side_ok (ls : list (list Z)) (n : Z) (sd : side) : Prop :=
  0 <= n <= zlen ls /\ zlen (bufs sd) = 4 /\
  alt0 sd = n mod 4 /\ alt1 sd = Z.max 0 (n - 1) mod 4 /\ alt2 sd = Z.max 0 (n - 2) mod 4 /\
  present sd = (n <? zlen ls) /\ at_lines (input sd) (drop (Z.to_nat (n + 1)) ls) /\
  (forall i, n - 4 < i <= n -> 0 <= i < zlen ls -> lb_holds bound (bufs sd).[i mod 4] ls.[i]) /\
  (forall j, n < j < 4 -> (bufs sd).[j] = initbuffer).

Lemma land_3 a : Z.land a 3 = a mod 4.
Proof. change 3 with (Z.ones 2). by rewrite Z.land_ones by lia. Qed.

Lemma mod4_inj n i j : n - 4 < i <= n -> n - 4 < j <= n -> i mod 4 = j mod 4 -> i = j.
Proof.
  intros Hi Hj E. pose proof (Z.div_mod i 4 ltac:(lia)). pose proof (Z.div_mod j 4 ltac:(lia)). lia.
Qed.

Lemma next_accepts ls n sd : good_lines ls -> side_ok ls n sd -> n + 1 < zlen ls -> accepts bound (bufs sd).[(n + 1) mod 4] ls.[n + 1].
Proof.
  intros (Hg & Hre & _) (Hn & _ & _ & _ & _ & _ & _ & Hh & Hi) Hn1. destruct (decide (n + 1 < 4)).
  - rewrite Z.mod_small, Hi by lia. apply accepts_init. lia.
  - replace ((n + 1) mod 4) with ((n - 3) mod 4) by (replace (n + 1) with (n - 3 + 1 * 4) by lia; by rewrite Z.mod_add).
    destruct (Hh (n - 3)) as (Hwf & Hlen & _); [lia|lia|]. split; [done|]. right. rewrite Hlen.
    replace (n + 1) with (n - 3 + 4) by lia. apply Hre; lia.
Qed.

Lemma drop_next (ls : list (list Z)) n : 0 <= n < zlen ls -> drop (Z.to_nat n) ls = ls.[n] :: drop (Z.to_nat (n + 1)) ls.
Proof.
  intros Hn. replace (Z.to_nat (n + 1)) with (S (Z.to_nat n)) by lia. apply drop_S. unfold aget.
  apply list_lookup_lookup_total_lt. unfold zlen in Hn. lia.
Qed.

Lemma good_line ls i : good_lines ls -> 0 <= i < zlen ls -> ls.[i] <> [] /\ zlen ls.[i] <= bound.
Proof. intros (Hg & _) Hi. by apply (Forall_aget_1 _ _ _ Hg). Qed.

Lemma in_order_pair ls n : in_order ls -> 0 <= n < zlen ls -> check_input_order s = CHECK_ORDER_DISABLED \/ cmp ls.[Z.max 0 (n - 1)] ls.[n] <= 0.
Proof.
  intros [H|[Hr Hs]] Hn; [by left|]. right. destruct (decide (n = 0)) as [->|]; [apply Hr, aget_elem; simpl; lia|].
  replace (Z.max 0 (n - 1)) with (n - 1) by lia. replace n with (n - 1 + 1) at 2 by lia. apply Hs; lia.
Qed.

(** The ring after the next line has been read into it. *)
Lemma ring_next ls n (bs : list linebuffer) lb :
  zlen bs = 4 -> 0 <= n -> n + 1 < zlen ls ->
  (forall i, n - 4 < i <= n -> 0 <= i < zlen ls -> lb_holds bound bs.[i mod 4] ls.[i]) -> (forall j, n < j < 4 -> bs.[j] = initbuffer) ->
  lb_holds bound lb ls.[n + 1] ->
  (forall i, n + 1 - 4 < i <= n + 1 -> 0 <= i < zlen ls -> lb_holds bound (upd bs ((n + 1) mod 4) lb).[i mod 4] ls.[i]) /\
  (forall j, n + 1 < j < 4 -> (upd bs ((n + 1) mod 4) lb).[j] = initbuffer).
Proof.
  intros H4 Hn Hl Hh Hi Hlb. pose proof (Z.mod_pos_bound (n + 1) 4 ltac:(lia)) as Hm. split.
  - intros i Hr Hil. destruct (decide (i = n + 1)) as [->|]; [rewrite aget_upd_eq by lia; done|].
    pose proof (Z.mod_pos_bound i 4 ltac:(lia)). rewrite aget_upd_ne; [apply Hh; lia|lia|lia|].
    intros E. assert (n + 1 = i) by (apply (mod4_inj (n + 1)); lia). lia.
  - intros j Hj. rewrite Z.mod_small, aget_upd_ne by lia. apply Hi. lia.
Qed.

Lemma fill_ok ls n sd w st :
  good_lines ls -> side_ok ls n sd -> n < zlen ls -> exists sd', fill xmemcoll s w sd st = Ok (sd', st) /\ side_ok ls (n + 1) sd'.
Proof.
  intros Hg Hs Hlt. pose proof (next_accepts ls n sd Hg Hs) as Hacc. destruct Hs as (Hn & H4 & E0 & E1 & E2 & Ep & Hat & Hh & Hi).
  pose proof (Z.mod_pos_bound (n + 1) 4 ltac:(lia)) as Hm. pose proof (Z.mod_pos_bound n 4 ltac:(lia)). pose proof (Z.mod_pos_bound (Z.max 0 (n - 1)) 4 ltac:(lia)).
  unfold fill. rewrite land_3, E0, E1.
  replace ((n mod 4 + 1) mod 4) with ((n + 1) mod 4) by (by rewrite Z.add_mod_idemp_l). rewrite rd_Ok by lia. cbn [bind].
  assert (in_order ls) as Hord by apply Hg.
  destruct (decide (n + 1 < zlen ls)) as [Hn1|Hn1].
  - rewrite drop_next in Hat by lia. destruct (good_line ls (n + 1) Hg ltac:(lia)) as [Hne Hle].
    destruct (readlinebuffer_ok bound ltac:(lia) _ _ _ _ Hat (Hacc Hn1) Hle) as (lb & str & -> & Hlb & Hat'). cbn [bind].
    rewrite wr_Ok by lia. cbn [bind]. set (bs := upd (bufs sd) ((n + 1) mod 4) lb).
    assert (zlen bs = 4) as Hz by (unfold bs; by rewrite zlen_upd). rewrite !rd_Ok by lia. cbn [bind].
    destruct (ring_next ls n (bufs sd) lb H4 ltac:(lia) Hn1 Hh Hi Hlb) as [Hh' Hi']. fold bs in Hh', Hi'.
    rewrite (check_order_quiet _ _ ls.[n] ls.[n + 1]); [|apply Hh'; lia|done|apply (good_line ls n Hg); lia|done|].
    2:{ pose proof (in_order_pair ls (n + 1) Hord ltac:(lia)) as Hq. by replace (Z.max 0 (n + 1 - 1)) with n in Hq by lia. }
    cbn [bind]. rewrite (proj1 (proj2 Hat')). cbn [negb demand bind]. eexists. split; [done|].
    split_and!; cbn [bufs alt0 alt1 alt2 present input]; try done; try lia.
    + by replace (Z.max 0 (n + 1 - 1)) with n by lia.
    + by replace (n + 1 - 2) with (n - 1) by lia.
  - assert (n + 1 = zlen ls) as En by lia. rewrite drop_ge in Hat by (unfold zlen in En; lia).
    destruct (readlinebuffer_end (bufs sd).[(n + 1) mod 4] _ Hat) as (str & -> & Hat'). cbn [bind].
    rewrite wr_Ok, upd_aget by lia. cbn [bind]. rewrite !rd_Ok by lia. cbn [bind].
    assert ((match lb_buffer (bufs sd).[Z.max 0 (n - 1) mod 4] with
      | Some _ => check_order xmemcoll s (bufs sd).[Z.max 0 (n - 1) mod 4] (bufs sd).[n mod 4] w st | None => Ok st end) = Ok st) as ->.
    { rewrite (check_order_quiet _ _ ls.[Z.max 0 (n - 1)] ls.[n]); [by destruct (lb_buffer _)|apply Hh; lia|apply Hh; lia| | |by apply in_order_pair; [|lia]];
        apply (good_line ls _ Hg); lia. }
    cbn [bind]. rewrite (proj1 (proj2 Hat')). cbn [negb demand bind]. eexists. split; [done|].
    split_and!; cbn [bufs alt0 alt1 alt2 present input]; try done; try lia.
    + by replace (Z.max 0 (n + 1 - 1)) with n by lia.
    + by replace (n + 1 - 2) with (n - 1) by lia.
    + rewrite drop_ge by (unfold zlen in En; lia). done.
    + intros i Hr Hil. apply Hh; lia.
    + intros j Hj. apply Hi. lia.
Qed.

(** ** Both files *)

(** What is left of a file. *)
Definition left (ls : list (list Z)) (n : Z) : list (list Z) := drop (Z.to_nat n) ls.

Lemma side_line ls n sd : side_ok ls n sd ->
  exists lb, rd (bufs sd) (alt0 sd) = Ok lb /\ present sd = negb (bool_decide (left ls n = [])) /\
    (forall l xs, left ls n = l :: xs -> n < zlen ls /\ lb_holds bound lb l /\ xs = left ls (n + 1)).
Proof.
  intros (Hn & H4 & -> & _ & _ & -> & _ & Hh & _). pose proof (Z.mod_pos_bound n 4 ltac:(lia)). eexists. rewrite rd_Ok by lia. split; [done|].
  unfold left. destruct (decide (n < zlen ls)) as [Hlt|Hge].
  - rewrite drop_next by lia. split; [by rewrite (proj2 (Z.ltb_lt _ _) Hlt)|]. intros l xs [= <- <-]. split_and!; try done. apply Hh; lia.
  - rewrite drop_ge by (unfold zlen in *; lia). split; [by rewrite (proj2 (Z.ltb_ge _ _)) by lia|done].
Qed.

Lemma turn_ok ls0 n0 s0 ls1 n1 s1 st :
  good_lines ls0 -> good_lines ls1 -> side_ok ls0 n0 s0 -> side_ok ls1 n1 s1 -> left ls0 n0 <> [] \/ left ls1 n1 <> [] ->
  exists cl n0' s0' n1' s1' seen,
    compare_turn xmemcoll s delim (s0, s1, st) = Ok (inl (s0', s1', CommState seen (issued_1 st) (issued_2 st) (printed st ++ show s delim cl))) /\
    side_ok ls0 n0' s0' /\ side_ok ls1 n1' s1' /\ n0 <= n0' /\ n1 <= n1' /\ n0 + n1 < n0' + n1' /\
    merge cmp (left ls0 n0) (left ls1 n1) = cl :: merge cmp (left ls0 n0') (left ls1 n1').
Proof.
  intros Hg0 Hg1 Hs0 Hs1 Hne. destruct (merge_next cmp _ _ Hne) as (cl & xs' & ys' & Hnext & Hm).
  destruct (side_line _ _ _ Hs0) as (lb0 & R0 & P0 & L0). destruct (side_line _ _ _ Hs1) as (lb1 & R1 & P1 & L1).
  unfold compare_turn. rewrite R0, R1. cbn [bind].
  assert ((present s0 || present s1) = true) as ->.
  { rewrite P0, P1. destruct Hne as [Hne|Hne]; [rewrite (bool_decide_eq_false_2 _ Hne); done|]. rewrite (bool_decide_eq_false_2 _ Hne). apply orb_true_r. }
  assert ((if negb (present s0) then Ok 1 else if negb (present s1) then Ok (-1) else line_order xmemcoll lb0 lb1) = Ok (chosen cmp (left ls0 n0) (left ls1 n1))) as ->.
  { rewrite P0, P1. destruct (left ls0 n0) as [|x xs] eqn:Ex; [done|]. destruct (left ls1 n1) as [|y ys] eqn:Ey; [done|]. cbn [chosen].
    rewrite !bool_decide_eq_false_2 by done. cbn [negb]. destruct (L0 _ _ eq_refl) as (Hl0 & Hb0 & _). destruct (L1 _ _ eq_refl) as (Hl1 & Hb1 & _).
    assert (forall ls n l xs, good_lines ls -> side_ok ls n s0 \/ side_ok ls n s1 -> left ls n = l :: xs -> n < zlen ls -> l <> []) as Hnonempty.
    { intros ls n l zs Hg Hs E Hl. assert (0 <= n) by (destruct Hs as [[? _]|[? _]]; lia). unfold left in E. rewrite drop_next in E by lia. injection E as <- _.
      apply (good_line ls n Hg). lia. }
    apply line_order_ok; [done|done|apply (Hnonempty ls0 n0 x xs); auto|apply (Hnonempty ls1 n1 y ys); auto]. }
  cbn [bind]. destruct Hnext as [x xs' order Ex Ho|y ys' order Ey Ho|x xs' y ys' Ex Ey].
  - destruct (L0 _ _ Ex) as (Hl0 & Hb0 & ->). rewrite (proj2 (Z.eqb_neq order 0)), (proj2 (Z.leb_le order 0)), Z.geb_leb, (proj2 (Z.leb_gt 0 order)) by lia.
    rewrite (writeline_ok _ _ 1 Hb0) by by left. cbn [bind].
    destruct (fill_ok ls0 n0 s0 1 (CommState true (issued_1 st) (issued_2 st) (printed st ++ show s delim (1, x))) Hg0 Hs0 Hl0) as (s0' & -> & Hs0'). cbn [bind].
    exists (1, x), (n0 + 1), s0', n1, s1, true. split_and!; try done; lia.
  - destruct (L1 _ _ Ey) as (Hl1 & Hb1 & ->). rewrite (proj2 (Z.eqb_neq order 0)), (proj2 (Z.leb_gt order 0)), Z.geb_leb, (proj2 (Z.leb_le 0 order)) by lia.
    rewrite (writeline_ok _ _ 2 Hb1) by by right; left. cbn [bind].
    destruct (fill_ok ls1 n1 s1 2 (CommState true (issued_1 st) (issued_2 st) (printed st ++ show s delim (2, y))) Hg1 Hs1 Hl1) as (s1' & -> & Hs1'). cbn [bind].
    exists (2, y), n0, s0, (n1 + 1), s1', true. split_and!; try done; lia.
  - destruct (L0 _ _ Ex) as (Hl0 & Hb0 & ->). destruct (L1 _ _ Ey) as (Hl1 & Hb1 & ->). cbn [Z.eqb Z.leb Z.geb Z.compare].
    rewrite (writeline_ok _ _ 3 Hb1) by by right; right. cbn [bind].
    set (st' := CommState _ _ _ _). destruct (fill_ok ls0 n0 s0 1 st' Hg0 Hs0 Hl0) as (s0' & -> & Hs0'). cbn [bind].
    destruct (fill_ok ls1 n1 s1 2 st' Hg1 Hs1 Hl1) as (s1' & -> & Hs1'). cbn [bind].
    exists (3, y), (n0 + 1), s0', (n1 + 1), s1', (seen_unpairable st). split_and!; try done; lia.
Qed.

Lemma compare_loop : forall fuel ls0 n0 s0 ls1 n1 s1 st,
  good_lines ls0 -> good_lines ls1 -> side_ok ls0 n0 s0 -> side_ok ls1 n1 s1 -> zlen ls0 - n0 + (zlen ls1 - n1) < Z.of_nat fuel ->
  exists s0' s1' seen, loop fuel (compare_turn xmemcoll s delim) (s0, s1, st) =
    Ok (s0', s1', CommState seen (issued_1 st) (issued_2 st) (printed st ++ concat (map (show s delim) (merge cmp (left ls0 n0) (left ls1 n1))))).
Proof.
  induction fuel as [|fuel IH]; intros ls0 n0 s0 ls1 n1 s1 st Hg0 Hg1 Hs0 Hs1 Hf.
  { pose proof Hs0 as [? _]. pose proof Hs1 as [? _]. lia. }
  rewrite loop_step. destruct (decide (left ls0 n0 = [] /\ left ls1 n1 = [])) as [[E0 E1]|Hne].
  - destruct (side_line _ _ _ Hs0) as (lb0 & R0 & P0 & _). destruct (side_line _ _ _ Hs1) as (lb1 & R1 & P1 & _).
    unfold compare_turn. rewrite P0, P1, E0, E1. cbn. exists s0, s1, (seen_unpairable st). rewrite app_nil_r. by destruct st.
  - destruct (turn_ok ls0 n0 s0 ls1 n1 s1 st Hg0 Hg1 Hs0 Hs1) as (cl & n0' & s0' & n1' & s1' & seen & -> & Hs0' & Hs1' & Hn0 & Hn1 & Hn & Em).
    { destruct (left ls0 n0); [|by left]. right. intros E. by apply Hne. }
    cbn [bind]. destruct (IH ls0 n0' s0' ls1 n1' s1' (CommState seen (issued_1 st) (issued_2 st) (printed st ++ show s delim cl)) Hg0 Hg1 Hs0' Hs1' ltac:(lia)) as (s0'' & s1'' & seen' & ->). rewrite Em.
    eexists _, _, _. cbn [map concat issued_1 issued_2 printed]. by rewrite app_assoc.
Qed.

Lemma text_lines_nonempty bs : Forall (fun l => l <> []) (text_lines bs).
Proof.
  induction bs as [|c bs IH]; [constructor|]. cbn [text_lines]. destruct (c =? 10); [by constructor|].
  destruct (text_lines bs); [by repeat constructor|]. apply Forall_cons in IH as [_ IH]. by constructor.
Qed.

Lemma text_lines_len bs : zlen (text_lines bs) <= zlen bs.
Proof.
  induction bs as [|c bs IH]; [done|]. cbn [text_lines]. rewrite zlen_cons. destruct (c =? 10); [rewrite zlen_cons; lia|].
  pose proof (zlen_nonneg bs). destruct (text_lines bs); rewrite ?zlen_cons in *; [change (zlen (@nil (list Z))) with 0; lia|lia].
Qed.

(** A file after its first line has been read. *)
Lemma open_side_ok bs : good_lines (text_lines bs) ->
  exists sd, open_side (Some (Stream bs false false false)) = Ok sd /\ side_ok (text_lines bs) 0 sd /\ zlen (text_lines bs) <= zlen (rest (input sd)) + 1.
Proof.
  intros Hg. assert (at_lines (Stream bs false false false) (text_lines bs)) as Hat by done. cbn [open_side].
  set (ls := text_lines bs) in *. clearbody ls. destruct ls as [|l ls].
  - destruct (readlinebuffer_end initbuffer _ Hat) as (str & -> & Hat'). cbn [bind]. rewrite (proj1 (proj2 Hat')). cbn [negb demand bind].
    eexists. split; [done|]. split; [|change (zlen (@nil (list Z))) with 0; cbn [input]; pose proof (zlen_nonneg (rest str)); lia]. split_and!; try done.
    + intros i _ Hil. change (zlen (@nil (list Z))) with 0 in Hil. lia.
    + intros j Hj. assert (j = 1 \/ j = 2 \/ j = 3) as [->|[->| ->]] by lia; done.
  - destruct (good_line (l :: ls) 0 Hg) as [Hne Hle]; [rewrite zlen_cons; pose proof (zlen_nonneg ls); lia|].
    destruct (readlinebuffer_ok bound ltac:(lia) initbuffer _ l ls Hat) as (lb & str & -> & Hlb & Hat'); [apply accepts_init; lia|done|]. cbn [bind].
    rewrite (proj1 (proj2 Hat')). cbn [negb demand bind]. eexists. split; [done|]. pose proof (zlen_nonneg ls). split.
    + split_and!; cbn [bufs alt0 alt1 alt2 present input]; try done; try (rewrite zlen_cons; lia).
      * intros i Hi Hil. assert (i = 0) as -> by lia. done.
      * intros j Hj. assert (j = 1 \/ j = 2 \/ j = 3) as [->|[->| ->]] by lia; done.
    + cbn [input]. destruct Hat' as (_ & _ & -> & _). rewrite zlen_cons. pose proof (text_lines_len (rest str)). lia.
Qed.

Lemma compare_files_ok bs0 bs1 : good_lines (text_lines bs0) -> good_lines (text_lines bs1) ->
  exists seen, compare_files xmemcoll s delim (Some (Stream bs0 false false false)) (Some (Stream bs1 false false false)) true true =
    Ok (CommState seen false false (concat (map (show s delim) (merge cmp (text_lines bs0) (text_lines bs1))))).
Proof.
  intros Hg0 Hg1. unfold compare_files. destruct (open_side_ok bs0 Hg0) as (s0 & -> & Hs0 & Hl0). destruct (open_side_ok bs1 Hg1) as (s1 & -> & Hs1 & Hl1). cbn [bind].
  destruct (compare_loop (S (S (length (rest (input s0)) + length (rest (input s1)) + 2))) _ 0 s0 _ 0 s1 (CommState false false false []) Hg0 Hg1 Hs0 Hs1)
    as (s0' & s1' & seen & ->); [unfold zlen in *; lia|]. cbn [bind andb demand issued_1 issued_2 printed app]. by exists seen.
Qed.

End proof.

(** ** What the merge of sorted files is *)

(** memcmp2 compares lexicographically. *)
Lemma memcmp2_cons x a y b : memcmp2 (x :: a) (y :: b) = if x =? y then memcmp2 a b else if x <? y then -1 else 1.
Proof.
  unfold memcmp2. rewrite !zlen_cons. pose proof (zlen_nonneg a). pose proof (zlen_nonneg b).
  assert (Z.to_nat (if zlen a + 1 <=? zlen b + 1 then zlen a + 1 else zlen b + 1) = S (Z.to_nat (if zlen a <=? zlen b then zlen a else zlen b))) as ->.
  { destruct (Z.leb_spec (zlen a + 1) (zlen b + 1)), (Z.leb_spec (zlen a) (zlen b)); lia. }
  cbn [take memcmp]. destruct (x =? y); [|by destruct (x <? y)].
  rewrite !Z.gtb_ltb. destruct (Z.ltb_spec (zlen a + 1) (zlen b + 1)), (Z.ltb_spec (zlen a) (zlen b)), (Z.ltb_spec (zlen b + 1) (zlen a + 1)), (Z.ltb_spec (zlen b) (zlen a)); done || lia.
Qed.

Lemma memcmp2_nil_l b : memcmp2 [] b = if b is [] then 0 else -1.
Proof. destruct b as [|y b]; [done|]. unfold memcmp2. rewrite zlen_cons. pose proof (zlen_nonneg b). change (zlen (@nil Z)) with 0. rewrite (proj2 (Z.leb_le 0 _)), (proj2 (Z.ltb_lt 0 _)) by lia. done. Qed.

Lemma memcmp2_nil_r x a : memcmp2 (x :: a) [] = 1.
Proof.
  unfold memcmp2. rewrite zlen_cons. pose proof (zlen_nonneg a). change (zlen (@nil Z)) with 0.
  rewrite (proj2 (Z.leb_gt _ 0)), (proj2 (Z.ltb_ge _ 0)), Z.gtb_ltb, (proj2 (Z.ltb_lt 0 _)) by lia. done.
Qed.

Lemma memcmp2_zero a : forall b, memcmp2 a b = 0 <-> a = b.
Proof.
  induction a as [|x a IH]; intros [|y b]; rewrite ?memcmp2_nil_l, ?memcmp2_nil_r, ?memcmp2_cons; try done.
  destruct (Z.eqb_spec x y) as [->|Hne]; [rewrite IH; naive_solver|]. destruct (x <? y); split; try done; intros [= -> _]; done.
Qed.

Lemma memcmp2_flip a : forall b, memcmp2 b a = - memcmp2 a b.
Proof.
  induction a as [|x a IH]; intros [|y b]; rewrite ?memcmp2_nil_l, ?memcmp2_nil_r, ?memcmp2_cons; try done.
  rewrite (Z.eqb_sym y x). destruct (Z.eqb_spec x y); [apply IH|]. destruct (Z.ltb_spec x y), (Z.ltb_spec y x); done || lia.
Qed.

Lemma memcmp2_trans a : forall b c, memcmp2 a b <= 0 -> memcmp2 b c <= 0 -> memcmp2 a c <= 0.
Proof.
  induction a as [|x a IH]; intros [|y b] [|z c]; rewrite ?memcmp2_nil_l, ?memcmp2_nil_r, ?memcmp2_cons; try done.
  destruct (Z.eqb_spec x y) as [->|]; [destruct (Z.eqb_spec y z); [apply IH|destruct (y <? z); lia]|].
  destruct (Z.ltb_spec x y); [|lia]. destruct (Z.eqb_spec y z) as [->|].
  - rewrite (proj2 (Z.eqb_neq x z)), (proj2 (Z.ltb_lt x z)) by lia. lia.
  - destruct (Z.ltb_spec y z); [|lia]. rewrite (proj2 (Z.eqb_neq x z)), (proj2 (Z.ltb_lt x z)) by lia. lia.
Qed.

(** How often a line occurs, in a file and in a class of the output. *)
Definition occurs (l : list Z) (ls : list (list Z)) : nat := length (filter (fun x => x = l) ls).
Definition in_class (c : Z) (l : list Z) (m : list (Z * list Z)) : nat := length (filter (fun x => x = (c, l)) m).

Section merge.
Variable (cmp : list Z -> list Z -> Z).
Hypothesis cmp_zero : forall a b, cmp a b = 0 <-> a = b.
Hypothesis cmp_flip : forall a b, cmp b a = - cmp a b.
Hypothesis cmp_trans : forall a b c, cmp a b <= 0 -> cmp b c <= 0 -> cmp a c <= 0.

Definition line_le (a b : list Z) : Prop := cmp a b <= 0.

Lemma occurs_cons l x ls : occurs l (x :: ls) = ((if decide (x = l) then 1 else 0) + occurs l ls)%nat.
Proof. unfold occurs. rewrite filter_cons. by destruct (decide (x = l)). Qed.

Lemma in_class_cons c l k x m : in_class c l ((k, x) :: m) = ((if (k =? c)%Z then if decide (x = l) then 1 else 0 else 0) + in_class c l m)%nat.
Proof.
  unfold in_class. rewrite filter_cons. destruct (decide ((k, x) = (c, l))) as [[= -> ->]|Hne]; [by rewrite Z.eqb_refl, decide_True|].
  destruct (Z.eqb_spec k c) as [->|]; [|done]. rewrite decide_False; [done|]. by intros ->.
Qed.

(** A smaller line does not occur. *)
Lemma occurs_smaller x ys : StronglySorted line_le ys -> (forall y, head ys = Some y -> cmp x y < 0) -> occurs x ys = 0%nat.
Proof.
  intros Hs. induction Hs as [|y ys _ IH Hy]; intros Hx; [done|]. specialize (Hx y eq_refl) as Hxy. rewrite occurs_cons, decide_False.
  - apply IH. intros z Hz. destruct ys as [|w ys]; [done|]. injection Hz as ->. apply Forall_cons in Hy as [Hyz _]. unfold line_le in Hyz.
    pose proof (cmp_trans x y z ltac:(lia) Hyz). destruct (decide (cmp x z = 0)) as [E|]; [|lia]. apply cmp_zero in E as ->. rewrite cmp_flip in Hxy. lia.
  - intros ->. rewrite (proj2 (cmp_zero x x) eq_refl) in Hxy. lia.
Qed.

(** Every line of the output comes from a file, and the other way round. *)
Lemma merge_occurs l xs ys :
  (in_class 1 l (merge cmp xs ys) + in_class 3 l (merge cmp xs ys))%nat = occurs l xs /\
  (in_class 2 l (merge cmp xs ys) + in_class 3 l (merge cmp xs ys))%nat = occurs l ys.
Proof.
  apply (merge_rule cmp (fun xs ys m => (in_class 1 l m + in_class 3 l m)%nat = occurs l xs /\ (in_class 2 l m + in_class 3 l m)%nat = occurs l ys)); [done|].
  clear xs ys. intros xs ys cl xs' ys' m Hn [IH1 IH2].
  inversion Hn as [x xs1 o Ex Ho|y ys1 o Ey Ho|x xs1 y ys1 Ex Ey Ec]; subst; rewrite ?occurs_cons, !in_class_cons; cbn [Z.eqb Pos.eqb].
  - rewrite <- IH1, <- IH2. destruct (decide (x = l)); lia.
  - rewrite <- IH1, <- IH2. destruct (decide (y = l)); lia.
  - cbn [chosen] in Ec. symmetry in Ec. apply cmp_zero in Ec as ->. rewrite <- IH1, <- IH2.
    destruct (decide (y = l)); lia.
Qed.

(** The third column has each line as often as both files have it. *)
Lemma merge_both l xs ys : StronglySorted line_le xs -> StronglySorted line_le ys ->
  in_class 3 l (merge cmp xs ys) = Nat.min (occurs l xs) (occurs l ys).
Proof.
  apply (merge_rule cmp (fun xs ys m => StronglySorted line_le xs -> StronglySorted line_le ys -> in_class 3 l m = Nat.min (occurs l xs) (occurs l ys))); [done|].
  clear xs ys. intros xs ys cl xs' ys' m Hn IH Hx Hy.
  inversion Hn as [x xs1 o Ex Ho|y ys1 o Ey Ho|x xs1 y ys1 Ex Ey Ec]; subst; rewrite ?occurs_cons, in_class_cons; cbn [Z.eqb Pos.eqb Nat.add].
  - rewrite IH by (by inversion Hx). destruct (decide (x = l)) as [->|]; [|done]. rewrite (occurs_smaller l ys'); [lia|done|].
    intros y Ey. destruct ys'; [done|]. injection Ey as ->. done.
  - rewrite IH by (by inversion Hy). destruct (decide (y = l)) as [->|]; [|done]. rewrite (occurs_smaller l xs'); [lia|done|].
    intros x Ex. destruct xs' as [|x' xs']; [done|]. injection Ex as ->. cbn [chosen] in Ho. rewrite cmp_flip. lia.
  - cbn [chosen] in Ec. symmetry in Ec. apply cmp_zero in Ec as ->. rewrite IH by first [by inversion Hx|by inversion Hy].
    destruct (decide (y = l)); lia.
Qed.

(** The output is in order. *)
Lemma merge_sorted xs ys : StronglySorted line_le xs -> StronglySorted line_le ys ->
  StronglySorted line_le (map snd (merge cmp xs ys)) /\
  forall z, Forall (line_le z) xs -> Forall (line_le z) ys -> Forall (line_le z) (map snd (merge cmp xs ys)).
Proof.
  apply (merge_rule cmp (fun xs ys m => StronglySorted line_le xs -> StronglySorted line_le ys -> StronglySorted line_le (map snd m) /\
    forall z, Forall (line_le z) xs -> Forall (line_le z) ys -> Forall (line_le z) (map snd m))); [by repeat constructor|].
  clear xs ys. intros xs ys cl xs' ys' m Hn IH Hx Hy.
  assert (forall z zs w, StronglySorted line_le (z :: zs) -> cmp w z <= 0 -> Forall (line_le w) (z :: zs)) as Hlow.
  { intros z zs w Hz Hwz. inversion Hz as [|? ? ? Hf]; subst. constructor; [done|]. eapply Forall_impl; [exact Hf|]. intros v. by apply cmp_trans. }
  assert (forall a, cmp a a <= 0) as Hrefl by (intros a; by rewrite (proj2 (cmp_zero a a) eq_refl)).
  assert (StronglySorted line_le xs' /\ StronglySorted line_le ys' /\ Forall (line_le (snd cl)) xs' /\ Forall (line_le (snd cl)) ys' /\
    forall z, Forall (line_le z) xs -> Forall (line_le z) ys -> line_le z (snd cl) /\ Forall (line_le z) xs' /\ Forall (line_le z) ys') as (Hx' & Hy' & Hcx & Hcy & Hz).
  { inversion Hn as [x xs1 o Ex Ho|y ys1 o Ey Ho|x xs1 y ys1 Ex Ey Ec]; subst; cbn [snd].
    - inversion Hx; subst. split_and!; try done.
      + destruct ys' as [|y ys']; [constructor|]. apply Hlow; [done|]. cbn [chosen] in Ho. lia.
      + intros z Hzx Hzy. apply Forall_cons in Hzx as [? ?]. done.
    - inversion Hy; subst. split_and!; try done.
      + destruct xs' as [|x xs']; [constructor|]. apply Hlow; [done|]. cbn [chosen] in Ho. rewrite cmp_flip. lia.
      + intros z Hzx Hzy. apply Forall_cons in Hzy as [? ?]. done.
    - cbn [chosen] in Ec. symmetry in Ec. apply cmp_zero in Ec as ->. inversion Hx; inversion Hy; subst. split_and!; try done.
      intros z Hzx Hzy. apply Forall_cons in Hzx as [? ?]. apply Forall_cons in Hzy as [? ?]. done. }
  destruct (IH Hx' Hy') as [IH1 IH2]. cbn [map]. split; [constructor; [done|by apply IH2]|].
  intros z Hzx Hzy. destruct (Hz z Hzx Hzy) as (? & ? & ?). constructor; [done|by apply IH2].
Qed.

End merge.

(** ** comm *)

Lemma text_lines_body bs : Forall (fun l => l = body l ++ [10]) (text_lines bs).
Proof.
  induction bs as [|c bs IH]; [constructor|]. cbn [text_lines]. destruct (c =? 10); [by constructor|].
  pose proof (text_lines_nonempty bs) as Hne. destruct (text_lines bs) as [|l ls]; [by repeat constructor|].
  apply Forall_cons in IH as [El IH]. apply Forall_cons in Hne as [Hl _]. constructor; [|done]. destruct l as [|x l]; [done|].
  unfold body in *. cbn [length] in *. rewrite !Nat.sub_succ, !Nat.sub_0_r in *. cbn [take app]. by rewrite El at 1.
Qed.

Lemma merge_bodies xs : forall ys,
  merge memcmp2 (map body xs) (map body ys) = map (fun cl => (fst cl, body (snd cl))) (merge (compare_lines None) xs ys).
Proof.
  induction xs as [|x xs IHx]; intros ys; induction ys as [|y ys IHy]; try done.
  - cbn. cbn in IHy. by rewrite IHy.
  - cbn [map merge]. f_equal. apply (IHx []).
  - change (compare_lines None x y) with (memcmp2 (body x) (body y)) in *.
    assert (forall cmp (a : list Z) l (b : list Z) k, merge cmp (a :: l) (b :: k) = if cmp a b =? 0 then (3, b) :: merge cmp l k
      else if cmp a b <=? 0 then (1, a) :: merge cmp l (b :: k) else (2, b) :: merge cmp (a :: l) k) as Em by done.
    cbn [map]. rewrite !Em. change (compare_lines None x y) with (memcmp2 (body x) (body y)).
    destruct (memcmp2 (body x) (body y) =? 0); [cbn [map fst snd]; f_equal; apply IHx|].
    destruct (memcmp2 (body x) (body y) <=? 0); cbn [map fst snd]; f_equal; [apply (IHx (y :: ys))|exact IHy].
Qed.

Lemma merge_elem cmp xs ys : Forall (fun cl => snd cl ∈ xs \/ snd cl ∈ ys) (merge cmp xs ys).
Proof.
  apply (merge_rule cmp (fun xs ys m => Forall (fun cl => snd cl ∈ xs \/ snd cl ∈ ys) m)); [constructor|].
  clear xs ys. intros xs ys cl xs' ys' m Hn IH.
  assert ((snd cl ∈ xs \/ snd cl ∈ ys) /\ (forall l, l ∈ xs' -> l ∈ xs) /\ (forall l, l ∈ ys' -> l ∈ ys)) as (Hc & Hx & Hy).
  { inversion Hn; subst; set_solver. }
  constructor; [done|]. eapply Forall_impl; [exact IH|]. naive_solver.
Qed.

Lemma StronglySorted_aget {A} `{Inhabited A} (R : A -> A -> Prop) l : StronglySorted R l -> forall i, 0 <= i -> i + 1 < zlen l -> R l.[i] l.[i + 1].
Proof.
  induction 1 as [|x l Hs IH Hf]; intros i Hi Hl; [change (zlen (@nil A)) with 0 in Hl; lia|]. rewrite zlen_cons in Hl.
  destruct (decide (i = 0)) as [->|].
  - change (0 + 1) with 1. destruct l as [|y l]; [change (zlen (@nil A)) with 0 in Hl; lia|]. by apply Forall_cons in Hf as [? _].
  - specialize (IH (i - 1) ltac:(lia) ltac:(lia)). replace (i - 1 + 1) with i in IH by lia.
    assert (forall k, 0 < k -> (x :: l).[k] = l.[k - 1]) as Hk. { intros k Hk. unfold aget. replace (Z.to_nat k) with (S (Z.to_nat (k - 1))) by lia. done. }
    rewrite !Hk by lia. by replace (i + 1 - 1) with i by lia.
Qed.

Lemma sorted_good s bound bs :
  Forall (fun l => zlen l <= bound) (text_lines bs) -> reusable (text_lines bs) -> StronglySorted (line_le memcmp2) (map body (text_lines bs)) ->
  good_lines None s bound (text_lines bs).
Proof.
  intros Hb Hr Hs. split; [|split; [done|]].
  - pose proof (text_lines_nonempty bs). apply Forall_and. by split.
  - right. split.
    + intros l _. unfold compare_lines. by rewrite (proj2 (memcmp2_zero (body l) (body l)) eq_refl).
    + intros i Hi Hl. pose proof (StronglySorted_aget _ _ Hs i Hi) as H. rewrite zlen_map in H. specialize (H Hl).
      rewrite !aget_map in H by lia. exact H.
Qed.

Definition delim_of (s : settings) : list Z := match delimiter s with Some d => d | None => [9] end.

(** C30. comm on two sorted files, in the locale of bytes: whatever its options,
    it prints, in order, lines of three classes, each in its column, and exits
    with success; a line is in the first and the third class together as often
    as in the first file, in the second and the third as often as in the second
    file, and in the third as often as in both.  The lines must let the ring of
    buffers be reused: four lines on, a line is not longer. *)
Theorem comm_correct os s bound bs0 bs1 :
  let xs := map body (text_lines bs0) in
  let ys := map body (text_lines bs1) in
  set_options os default_settings = Ok s -> 0 <= bound < 2 ^ 60 ->
  Forall (fun l => zlen l <= bound) (text_lines bs0) -> Forall (fun l => zlen l <= bound) (text_lines bs1) ->
  reusable (text_lines bs0) -> reusable (text_lines bs1) ->
  StronglySorted (line_le memcmp2) xs -> StronglySorted (line_le memcmp2) ys ->
  exists m, comm_main None os (Some (Stream bs0 false false false)) (Some (Stream bs1 false false false)) true true =
      Ok (concat (map (fun cl => show s (delim_of s) (fst cl, snd cl ++ [10])) m), 0) /\
    StronglySorted (line_le memcmp2) (map snd m) /\
    forall l, (in_class 1 l m + in_class 3 l m)%nat = occurs l xs /\ (in_class 2 l m + in_class 3 l m)%nat = occurs l ys /\
      in_class 3 l m = Nat.min (occurs l xs) (occurs l ys).
Proof.
  intros xs ys Hopt Hbound Hb0 Hb1 Hr0 Hr1 Hx Hy. pose proof memcmp2_zero as Hz. pose proof memcmp2_flip as Hf. pose proof memcmp2_trans as Ht.
  exists (merge memcmp2 xs ys). split.
  - unfold comm_main. rewrite Hopt. cbn [bind]. fold (delim_of s).
    destruct (compare_files_ok None s (delim_of s) bound Hbound bs0 bs1) as (seen & ->); [by apply sorted_good|by apply sorted_good|].
    cbn [bind printed issued_1 issued_2 orb]. unfold xs, ys. rewrite merge_bodies, map_map. do 3 f_equal. apply map_ext_Forall.
    eapply Forall_impl; [apply merge_elem|]. intros [c l] Hl. cbn [fst snd] in *. f_equal. f_equal.
    destruct Hl as [Hl|Hl]; eapply (Forall_forall (fun l => l = body l ++ [10])) in Hl; [exact Hl|apply text_lines_body|exact Hl|apply text_lines_body].
  - split; [by apply merge_sorted|]. intros l. destruct (merge_occurs memcmp2 Hz l xs ys) as [H1 H2]. split_and!; [done|done|by apply merge_both].
Qed.

Lemma comm_correct_witness :
  let bs0 := text ["a"; "b"] in
  let bs1 := text ["b"; "c"] in
  let xs := map body (text_lines bs0) in
  let ys := map body (text_lines bs1) in
  exists m, comm_main None [Opt1] (Some (Stream bs0 false false false)) (Some (Stream bs1 false false false)) true true =
      Ok (concat (map (fun cl => show (Settings false true true CHECK_ORDER_DEFAULT None) [9] (fst cl, snd cl ++ [10])) m), 0) /\
    StronglySorted (line_le memcmp2) (map snd m) /\
    forall l, (in_class 1 l m + in_class 3 l m)%nat = occurs l xs /\ (in_class 2 l m + in_class 3 l m)%nat = occurs l ys /\
      in_class 3 l m = Nat.min (occurs l xs) (occurs l ys).
Proof.
  assert (forall ls : list (list Z), zlen ls <= 4 -> reusable ls) as Hr by (intros ls Hl i Hi Hi4; lia).
  apply (comm_correct [Opt1] (Settings false true true CHECK_ORDER_DEFAULT None) 100 (text ["a"; "b"]) (text ["b"; "c"]));
    [reflexivity|lia|by repeat constructor|by repeat constructor|by apply Hr|by apply Hr|by repeat constructor|by repeat constructor].
Defined.

(** The fifth line of a file, longer than its first: the program prints bytes
    that were never written. *)
Lemma fifth_line_corrupt :
  comm_main None [] (file_of ["a"; "b"; "c"; "d"; "eeee"]) (file_of []) true true = Fail Uninit.
Proof. vm_compute. reflexivity. Qed.
