(* ===== verification/Pwd.v ===== *)
(** * The command pwd: utils/coreutils/src/pwd.c

    The file name that grows to the left in its buffer, the check of $PWD, and
    the climb from the working directory to the root.  The system calls are
    arguments: [up k] is what the directory [k] levels above the start answers
    when it is opened, read and closed. *)

From S2P Require Import Prelude Arrays CStrings Stdio.
Open Scope Z_scope.

Definition slash : Z := 47.
Definition dot : Z := 46.

(** ** struct file_name *)

(** [n_alloc] is the length of [buf]. *)
Record file_name := FileName { buf : list (option Z); start : Z }.

Definition PATH_MAX : Z := 4096.

Definition file_name_init : res file_name :=
  let n_alloc := Z.min (2 * PATH_MAX) (32 * 1024) in
  let* b := wr (uninit n_alloc) (n_alloc - 1) (Some 0) in
  Ok (FileName b (n_alloc - 1)).

(** [xnmalloc(n, s)], in bytes. *)
Definition xnmalloc (n s : Z) : res (list (option Z)) :=
  let* _ := demand (negb (s =? 0)) DivByZero in
  let* _ := demand (negb (SIZE_MAX / s <? n)) (ExitCall 1) in
  Ok (uninit (u64 (n * s))).

(** [memcpy(q + at, p + from, n)] between two blocks. *)
Definition memcpy_at (q : list (option Z)) (at_ : Z) (bytes : list (option Z)) : res (list (option Z)) :=
  let* _ := demand ((0 <=? at_) && (at_ + zlen bytes <=? zlen q)) OutOfBounds in
  Ok (take (Z.to_nat at_) q ++ bytes ++ drop (Z.to_nat (at_ + zlen bytes)) q).

(** The bytes [from], ..., [from + n - 1] of a block. *)
Definition slice (p : list (option Z)) (from n : Z) : res (list (option Z)) :=
  let* _ := demand ((0 <=? from) && (0 <=? n) && (from + n <=? zlen p)) OutOfBounds in
  Ok (take (Z.to_nat n) (drop (Z.to_nat from) p)).

Definition file_name_prepend (p : file_name) (s : list Z) : res file_name :=
  let s_len := zlen s in
  let n_alloc := zlen (buf p) in
  let n_free := start p in
  let* p :=
    if n_free <? 1 + s_len then
      let half := u64 (n_alloc + 1 + s_len) in
      let* q := xnmalloc 2 half in
      let n_used := n_alloc - n_free in
      let start := 2 * half - n_used in
      let* used := slice (buf p) n_free n_used in
      let* q := memcpy_at q start used in
      Ok (FileName q start)
    else Ok p in
  let start := start p - (1 + s_len) in
  let* b := wr (buf p) start (Some slash) in
  let* b := memcpy_at b (start + 1) (map Some s) in
  Ok (FileName b start).

(** The string at [start]. *)
Fixpoint string_of (cs : list (option Z)) : res (list Z) :=
  match cs with
  | [] => Fail OutOfBounds
  | None :: _ => Fail Uninit
  | Some c :: cs => if c =? 0 then Ok [] else let* s := string_of cs in Ok (c :: s)
  end.

Definition file_name_string (p : file_name) : res (list Z) := string_of (drop (Z.to_nat (start p)) (buf p)).

(** ** $PWD *)

(** [strstr(p, "/.")]: the rest of the string from the first place on. *)
Fixpoint find_slash_dot (p : list Z) : option (list Z) :=
  match p with
  | [] => None
  | c :: t => if (c =? slash) && (head_char t =? dot) then Some p else find_slash_dot t
  end.

(** [!p[2] || p[2] == '/' || (p[2] == '.' && (!p[3] || p[3] == '/'))] *)
Definition dot_component (p : list Z) : bool :=
  let p2 := head_char (drop 2 p) in
  let p3 := head_char (drop 3 p) in
  (p2 =? 0) || (p2 =? slash) || ((p2 =? dot) && ((p3 =? 0) || (p3 =? slash))).

(** The while loop: true when no component is "." or "..". *)
Definition check_turn (p : list Z) : res (list Z + bool) :=
  match find_slash_dot p with
  | None => Ok (inr true)
  | Some p => if dot_component p then Ok (inr false) else Ok (inl (tail p))
  end.

Record stat := Stat { st_ino : Z; st_dev : Z }.

Definition SAME_INODE (a b : stat) : bool := (st_ino a =? st_ino b) && (st_dev a =? st_dev b).

(** [stat_wd] and [stat_dot]: what stat says of $PWD and of ".". *)
Definition logical_getcwd (pwd : option (list Z)) (stat_wd stat_dot : option stat) : res (option (list Z)) :=
  match pwd with
  | None => Ok None
  | Some wd =>
      if negb (head_char wd =? slash) then Ok None
      else
        let* ok := loop (S (length wd)) check_turn wd in
        if ok then
          match stat_wd, stat_dot with
          | Some st1, Some st2 => Ok (if SAME_INODE st1 st2 then Some wd else None)
          | _, _ => Ok None
          end
        else Ok None
  end.

(** ** The climb *)

Record dirent := Dirent { d_name : list Z; d_ino : Z; lstat_of : option stat }.

(** The parent directory [..] as it answers: opendir, fchdir, fstat, readdir (an
    error of it ends the listing), closedir. *)
Record level := Level {
  opens : bool; enters : bool; parent_stat : option stat;
  listing : list dirent; closes : bool }.

Definition NOT_AN_INODE_NUMBER : Z := 0.

Definition dot_or_dotdot (name : list Z) : bool :=
  if head_char name =? dot then
    let sep := head_char (drop (if head_char (drop 1 name) =? dot then 2 else 1) name) in
    (sep =? 0) || (sep =? slash)
  else false.

(** The while loop: the name of the entry that is the directory [dot_sb]. *)
Fixpoint scan_entries (dot_sb : stat) (use_lstat : bool) (es : list dirent) : option (list Z) :=
  match es with
  | [] => None
  | dp :: es =>
      if dot_or_dotdot (d_name dp) then scan_entries dot_sb use_lstat es
      else
        let look (ino : Z) (dev : option Z) :=
          if negb (ino =? st_ino dot_sb) then scan_entries dot_sb use_lstat es
          else if negb use_lstat || bool_decide (dev = Some (st_dev dot_sb)) then Some (d_name dp)
          else scan_entries dot_sb use_lstat es in
        if (d_ino dp =? NOT_AN_INODE_NUMBER) || use_lstat then
          match lstat_of dp with
          | None => scan_entries dot_sb use_lstat es
          | Some ent_sb => look (st_ino ent_sb) (Some (st_dev ent_sb))
          end
        else look (d_ino dp) None
  end.

(** The new [*dot_sb] and the file name; every failure exits. *)
Definition find_dir_entry (dot_sb : stat) (p : file_name) (l : level) : res (stat * file_name) :=
  let* _ := demand (opens l) (ExitCall 1) in
  let* _ := demand (enters l) (ExitCall 1) in
  match parent_stat l with
  | None => Fail (ExitCall 1)
  | Some parent_sb =>
      let use_lstat := negb (st_dev parent_sb =? st_dev dot_sb) in
      match scan_entries dot_sb use_lstat (listing l) with
      | Some name =>
          let* p := file_name_prepend p name in
          let* _ := demand (closes l) (ExitCall 1) in
          Ok (parent_sb, p)
      | None => Fail (ExitCall 1)
      end
  end.

(** [fuel] bounds the height. *)
Definition climb_turn (root : stat) (up : nat -> level) (st : stat * file_name * nat) : res (stat * file_name * nat + file_name) :=
  let '(dot_sb, p, height) := st in
  if SAME_INODE dot_sb root then Ok (inr p)
  else
    let* (dot_sb, p) := find_dir_entry dot_sb p (up height) in
    Ok (inl (dot_sb, p, S height)).

Definition robust_getcwd (fuel : nat) (root_dev_ino dot_stat : option stat) (up : nat -> level) (p : file_name) : res file_name :=
  match root_dev_ino, dot_stat with
  | Some root, Some dot_sb =>
      let* p := loop fuel (climb_turn root up) (dot_sb, p, 1%nat) in
      let* c := rdu (buf p) (start p) in
      if c =? 0 then file_name_prepend p [] else Ok p
  | _, _ => Fail (ExitCall 1)
  end.

(** What is printed before the newline. *)
Definition pwd_main (fuel : nat) (logical : bool) (pwd : option (list Z)) (stat_wd : option stat)
    (getcwd : option (list Z)) (root_dev_ino dot_stat : option stat) (up : nat -> level) : res (list Z) :=
  let* l := if logical then logical_getcwd pwd stat_wd dot_stat else Ok None in
  match l, getcwd with
  | Some wd, _ => Ok wd
  | None, Some wd => Ok wd
  | None, None =>
      let* p := file_name_init in
      let* p := robust_getcwd fuel root_dev_ino dot_stat up p in
      file_name_string p
  end.

(** ** Growing to the left *)

Lemma memcpy_at_ok a old b bs : zlen old = zlen bs -> memcpy_at (a ++ old ++ b) (zlen a) bs = Ok (a ++ bs ++ b).
Proof.
  intros Hl. unfold memcpy_at. rewrite !zlen_app. pose proof (zlen_nonneg a). pose proof (zlen_nonneg b).
  rewrite (proj2 (Z.leb_le 0 (zlen a))), (proj2 (Z.leb_le (zlen a + zlen bs) _)) by lia. cbn [andb demand bind]. do 2 f_equal.
  - unfold zlen. by rewrite Nat2Z.id, take_app_length.
  - f_equal. rewrite <- Hl, <- zlen_app, app_assoc. unfold zlen. by rewrite Nat2Z.id, drop_app_length.
Qed.

Lemma slice_ok a b : slice (a ++ b) (zlen a) (zlen b) = Ok b.
Proof.
  unfold slice. rewrite zlen_app. pose proof (zlen_nonneg a). pose proof (zlen_nonneg b).
  rewrite (proj2 (Z.leb_le 0 (zlen a))), (proj2 (Z.leb_le 0 (zlen b))), (proj2 (Z.leb_le (zlen a + zlen b) _)) by lia. cbn [andb demand bind].
  unfold zlen. rewrite !Nat2Z.id, drop_app_length. by rewrite firstn_all.
Qed.

(** The file name is [s], and the buffer not larger than needed. *)
Definition named (p : file_name) (s : list Z) : Prop :=
  exists junk, buf p = junk ++ map Some (cstr s) /\ start p = zlen junk /\ zlen (buf p) <= 8192 + 4 * zlen s.

Lemma named_init : exists p, file_name_init = Ok p /\ named p [].
Proof.
  unfold file_name_init. change (Z.min (2 * PATH_MAX) (32 * 1024)) with 8192.
  assert (zlen (uninit 8192) = 8192) as Hu by (apply zlen_replicate; lia).
  destruct (zlen_split 8191 (uninit 8192)) as (a & b & E & Ha & Hb); [lia|]. rewrite Hu in Hb.
  destruct b as [|x [|y b]]; [done| |rewrite !zlen_cons in Hb; pose proof (zlen_nonneg b); lia].
  cbv zeta. rewrite E, wr_middle by lia. cbn [bind]. eexists. split; [done|]. exists a. cbn [buf start].
  split_and!; [done|lia|]. rewrite zlen_snoc. change (zlen (@nil Z)) with 0. lia.
Qed.

(** Enough room to the left. *)
Lemma named_room p s n : named p s -> 0 <= n -> zlen s + n < 2 ^ 60 ->
  exists p', (if start p <? 1 + n then
      let half := u64 (zlen (buf p) + 1 + n) in
      let* q := xnmalloc 2 half in
      let* used := slice (buf p) (start p) (zlen (buf p) - start p) in
      let* q := memcpy_at q (2 * half - (zlen (buf p) - start p)) used in
      Ok (FileName q (2 * half - (zlen (buf p) - start p)))
    else Ok p) = Ok p' /\
  exists junk, buf p' = junk ++ map Some (cstr s) /\ start p' = zlen junk /\ 1 + n <= zlen junk /\ zlen (buf p') <= 8192 + 4 * (zlen s + n + 1).
Proof.
  intros (junk & E & Es & Hl) Hn Hmax. rewrite Es. destruct (Z.ltb_spec (zlen junk) (1 + n)) as [Hlt|Hge].
  2:{ exists p. split; [done|]. exists junk. split_and!; try done; lia. }
  set (used := map Some (cstr s)) in *. assert (zlen used = zlen s + 1) as Hu by (unfold used; by rewrite zlen_map, zlen_cstr).
  pose proof (zlen_nonneg junk). pose proof (zlen_nonneg s). rewrite E, zlen_app, Hu in *.
  unfold u64. rewrite Z.mod_small by lia. cbv zeta. set (half := zlen junk + (zlen s + 1) + 1 + n).
  unfold xnmalloc. rewrite (proj2 (Z.eqb_neq half 0)) by lia.
  assert (2 <= SIZE_MAX / half) as H2 by (apply Z.div_le_lower_bound; unfold SIZE_MAX; lia).
  rewrite (proj2 (Z.ltb_ge (SIZE_MAX / half) 2) H2). cbn [negb demand bind]. unfold u64. rewrite Z.mod_small by lia.
  replace (zlen junk + (zlen s + 1) - zlen junk) with (zlen used) by lia. rewrite slice_ok. cbn [bind].
  destruct (zlen_split (2 * half - zlen used) (uninit (2 * half))) as (a & b & Eq & Ha & Hb).
  { unfold uninit. rewrite zlen_replicate; lia. }
  rewrite Eq. rewrite <- Ha. replace (a ++ b) with (a ++ b ++ []) by by rewrite app_nil_r.
  rewrite memcpy_at_ok by (unfold uninit in Hb; rewrite zlen_replicate in Hb; lia). cbn [bind]. eexists. split; [done|].
  exists a. cbn [buf start]. rewrite app_nil_r. split_and!; [done|done|lia|]. rewrite zlen_app. lia.
Qed.

Lemma prepend_ok p s name : named p s -> zlen s + zlen name < 2 ^ 60 -> exists p', file_name_prepend p name = Ok p' /\ named p' (slash :: name ++ s).
Proof.
  intros Hp Hmax. pose proof (zlen_nonneg name). unfold file_name_prepend.
  destruct (named_room p s (zlen name) Hp) as (p1 & E & junk & E1 & Es & Hj & Hl); [lia|lia|]. cbv zeta in E |- *. rewrite E. cbn [bind]. rewrite E1, Es.
  destruct (zlen_split (zlen junk - (1 + zlen name)) junk) as (a & b & -> & Ha & Hb); [lia|]. rewrite zlen_app in *.
  destruct b as [|x b]; [change (zlen (@nil (option Z))) with 0 in *; lia|]. rewrite zlen_cons in *. rewrite <- Ha.
  rewrite <- !app_assoc. cbn [app]. rewrite wr_middle by done. cbn [bind].
  rewrite <- (zlen_snoc (Some slash) a). replace (a ++ Some slash :: b ++ map Some (cstr s)) with ((a ++ [Some slash]) ++ b ++ map Some (cstr s)) by by rewrite <- app_assoc.
  rewrite memcpy_at_ok by (rewrite zlen_map; lia). cbn [bind]. eexists. split; [done|]. exists a. cbn [buf start]. split_and!; [|done|].
  - rewrite <- app_assoc. unfold cstr. cbn [map app]. by rewrite !map_app, <- !app_assoc.
  - rewrite E1, !zlen_app, !zlen_cons, zlen_app in *. rewrite !zlen_map in *. change (zlen (@nil (option Z))) with 0 in *. lia.
Qed.

Lemma named_string p s : named p s -> nul_free s -> file_name_string p = Ok s.
Proof.
  intros (junk & E & Es & _) Hs. unfold file_name_string. rewrite E, Es. unfold zlen. rewrite Nat2Z.id, drop_app_length. unfold cstr. clear E Es.
  induction Hs as [|c s Hc _ IH]; [done|]. cbn [app map string_of]. rewrite (proj2 (Z.eqb_neq c 0) Hc), IH. done.
Qed.

Lemma named_first p s : named p s -> rdu (buf p) (start p) = Ok (head_char s).
Proof.
  intros (junk & E & Es & _). rewrite E, Es. destruct s as [|c s]; apply rdu_middle; done.
Qed.

(** ** The climb *)

(** An entry of the parent directory is the directory [d]: by its number, or by
    its own attributes where the parent is on another device. *)
Definition is_entry (d parent : stat) (e : dirent) : Prop :=
  if st_dev parent =? st_dev d then d_ino e = st_ino d
  else exists st, lstat_of e = Some st /\ SAME_INODE st d = true.

(** The path of a directory: the names up to the root, the innermost last. *)
Inductive located (root : stat) (up : nat -> level) : nat -> stat -> list (list Z) -> Prop :=
| located_root k d : SAME_INODE d root = true -> located root up k d []
| located_below k d l parent pre e post names :
    SAME_INODE d root = false -> up k = l -> opens l = true -> enters l = true -> closes l = true -> parent_stat l = Some parent ->
    listing l = pre ++ e :: post -> Forall (fun e => d_ino e <> NOT_AN_INODE_NUMBER) (pre ++ [e]) ->
    Forall (fun e => dot_or_dotdot (d_name e) = true \/ ~ is_entry d parent e) pre ->
    dot_or_dotdot (d_name e) = false -> is_entry d parent e ->
    located root up (S k) parent names -> located root up k d (names ++ [d_name e]).

Definition path_of (names : list (list Z)) : list Z := concat (map (fun n => slash :: n) names).

Lemma path_of_snoc names n : path_of (names ++ [n]) = path_of names ++ slash :: n.
Proof. unfold path_of. rewrite map_app, concat_app. cbn [map concat]. by rewrite app_nil_r. Qed.

(** The test of one entry. *)
Lemma scan_step d parent e es :
  d_ino e <> NOT_AN_INODE_NUMBER -> 
  scan_entries d (negb (st_dev parent =? st_dev d)) (e :: es) =
    if dot_or_dotdot (d_name e) then scan_entries d (negb (st_dev parent =? st_dev d)) es
    else if st_dev parent =? st_dev d then
      if d_ino e =? st_ino d then Some (d_name e) else scan_entries d (negb (st_dev parent =? st_dev d)) es
    else match lstat_of e with
         | Some st => if SAME_INODE st d then Some (d_name e) else scan_entries d (negb (st_dev parent =? st_dev d)) es
         | None => scan_entries d (negb (st_dev parent =? st_dev d)) es
         end.
Proof.
  intros He. cbn [scan_entries]. destruct (dot_or_dotdot (d_name e)); [done|]. rewrite (proj2 (Z.eqb_neq _ _) He).
  destruct (st_dev parent =? st_dev d); cbn [negb orb]; [by destruct (d_ino e =? st_ino d)|].
  destruct (lstat_of e) as [st|]; [|done]. unfold SAME_INODE. destruct (st_ino st =? st_ino d); cbn [negb andb]; [|done].
  destruct (Z.eqb_spec (st_dev st) (st_dev d)) as [->|Hne]; [by rewrite bool_decide_eq_true_2|].
  rewrite bool_decide_eq_false_2; [done|]. congruence.
Qed.

Lemma scan_finds d parent pre e post :
  Forall (fun e => d_ino e <> NOT_AN_INODE_NUMBER) (pre ++ [e]) ->
  Forall (fun e => dot_or_dotdot (d_name e) = true \/ ~ is_entry d parent e) pre -> dot_or_dotdot (d_name e) = false -> is_entry d parent e ->
  scan_entries d (negb (st_dev parent =? st_dev d)) (pre ++ e :: post) = Some (d_name e).
Proof.
  intros Hi Hp He Hd. induction Hp as [|e' pre Hp _ IH].
  - apply Forall_cons in Hi as [Hi _]. cbn [app]. rewrite scan_step, He by done. unfold is_entry in Hd. destruct (st_dev parent =? st_dev d).
    + by rewrite Hd, Z.eqb_refl.
    + destruct Hd as (st & -> & Hs). by rewrite Hs.
  - cbn [app] in Hi |- *. apply Forall_cons in Hi as [Hi1 Hi]. specialize (IH Hi). rewrite scan_step, IH by done.
    destruct (dot_or_dotdot (d_name e')); [done|]. destruct Hp as [Hp|Hp]; [done|]. unfold is_entry in Hp. destruct (st_dev parent =? st_dev d).
    + by rewrite (proj2 (Z.eqb_neq _ _) Hp).
    + destruct (lstat_of e') as [st|]; [|done]. destruct (SAME_INODE st d) eqn:E; [|done]. exfalso. apply Hp. by exists st.
Qed.

Lemma climb_ok root up k d names : located root up k d names -> forall fuel p s,
  named p s -> zlen (path_of names) + zlen s < 2 ^ 60 -> (length names < fuel)%nat ->
  exists p', loop fuel (climb_turn root up) (d, p, k) = Ok p' /\ named p' (path_of names ++ s).
Proof.
  induction 1 as [k d Hr|k d l parent pre e post names Hr Hl Ho He Hc Hp Hls Hi Hpre Hdot Hent _ IH]; intros fuel p s Hs Hmax Hf;
    (destruct fuel as [|fuel]; [lia|]); rewrite loop_step; cbn [climb_turn]; rewrite Hr.
  - by exists p.
  - rewrite path_of_snoc, zlen_app, zlen_cons in Hmax. rewrite length_app in Hf. simpl in Hf. pose proof (zlen_nonneg (path_of names)). pose proof (zlen_nonneg s).
    unfold find_dir_entry. rewrite Hl, Ho, He, Hp. cbn [demand bind]. rewrite Hls, (scan_finds _ _ _ _ _ Hi Hpre Hdot Hent).
    destruct (prepend_ok p s (d_name e) Hs) as (p1 & -> & Hp1); [lia|]. cbn [bind]. rewrite Hc. cbn [demand bind].
    destruct (IH fuel p1 (slash :: d_name e ++ s) Hp1) as (p2 & -> & Hp2); [rewrite zlen_cons, zlen_app; lia|lia|]. exists p2. split; [done|].
    rewrite path_of_snoc, <- app_assoc. done.
Qed.

(** ** $PWD *)

(** The components of a path. *)
Fixpoint components (s : list Z) : list (list Z) :=
  match s with
  | [] => [[]]
  | c :: s => if c =? slash then [] :: components s else match components s with l :: ls => (c :: l) :: ls | [] => [[c]] end
  end.

Definition dotty (n : list Z) : Prop := n = [dot] \/ n = [dot; dot].

(** No component after the first is "." or "..". *)
Definition clean (s : list Z) : Prop := Forall (fun n => ~ dotty n) (tail (components s)).

Definition first_component (s : list Z) : list Z := match components s with n :: _ => n | [] => [] end.

Lemma components_cons c s : c <> slash -> components (c :: s) = (c :: first_component s) :: tail (components s).
Proof. intros Hc. unfold first_component. cbn [components]. rewrite (proj2 (Z.eqb_neq _ _) Hc). by destruct (components s). Qed.

Lemma components_nonempty s : components s = first_component s :: tail (components s).
Proof.
  unfold first_component. destruct (components s) eqn:E; [|done]. destruct s as [|c s]; [done|]. cbn [components] in E.
  destruct (c =? slash); [done|]. by destruct (components s).
Qed.

Lemma clean_slash t : clean (slash :: t) <-> ~ dotty (first_component t) /\ clean t.
Proof.
  unfold clean. change (components (slash :: t)) with ([] :: components t). cbn [tail]. rewrite (components_nonempty t) at 1. by rewrite Forall_cons.
Qed.

Lemma clean_cons c t : c <> slash -> clean (c :: t) <-> clean t.
Proof. intros Hc. unfold clean. by rewrite components_cons. Qed.

Lemma first_component_head t n : first_component t = n -> dotty n -> head_char t = dot.
Proof.
  intros <- Hd. destruct t as [|c t]; [by destruct Hd|]. unfold first_component in Hd. cbn [components head_char] in *.
  destruct (c =? slash); [by destruct Hd|]. destruct (components t); destruct Hd as [[=]|[=]]; done.
Qed.

(** The test of the code on what follows "/.". *)
Lemma dot_component_ok t : nul_free t -> head_char t = dot -> dot_component (slash :: t) = true <-> dotty (first_component t).
Proof.
  intros Hn Hh. destruct t as [|c t]; [done|]. cbn [head_char] in Hh. subst c. apply Forall_cons in Hn as [_ Hn].
  unfold dot_component, dotty. cbn [drop]. unfold first_component. rewrite (components_cons dot t) by done.
  destruct t as [|c t]; [by split; [left|]|]. apply Forall_cons in Hn as [Hc Hn]. cbn [head_char drop].
  rewrite (proj2 (Z.eqb_neq c 0) Hc). cbn [orb]. destruct (Z.eqb_spec c slash) as [->|Hs].
  { split; [by left|done]. }
  cbn [orb]. unfold first_component at 1 2. rewrite (components_cons c t) by done. destruct (Z.eqb_spec c dot) as [->|Hd].
  - destruct t as [|c' t]; [by split; [right|]|]. apply Forall_cons in Hn as [Hc' _]. cbn [drop head_char andb].
    rewrite (proj2 (Z.eqb_neq c' 0) Hc'). cbn [orb]. destruct (Z.eqb_spec c' slash) as [->|Hs']; [by split; [right|]|].
    unfold first_component. rewrite (components_cons c' t) by done. naive_solver.
  - cbn [andb]. naive_solver.
Qed.

Lemma find_slash_dot_ok s : 
  match find_slash_dot s with
  | None => clean s
  | Some p => exists pre t, s = pre ++ p /\ p = slash :: t /\ head_char t = dot /\ (clean s <-> clean p)
  end.
Proof.
  induction s as [|c s IH]; [by apply Forall_nil|]. cbn [find_slash_dot]. destruct (Z.eqb_spec c slash) as [->|Hc]; cbn [andb].
  - destruct (Z.eqb_spec (head_char s) dot) as [Hd|Hd]; [by exists [], s|].
    assert (~ dotty (first_component s)) as Hnd by (intros H; apply Hd; by apply (first_component_head s _ eq_refl)).
    destruct (find_slash_dot s) as [p|]; [|by apply clean_slash].
    destruct IH as (pre & t & -> & -> & Ht & Hcl). exists (slash :: pre), t. split_and!; try done. rewrite clean_slash, Hcl. tauto.
  - destruct (find_slash_dot s) as [p|]; [|by apply clean_cons].
    destruct IH as (pre & t & -> & -> & Ht & Hcl). exists (c :: pre), t. split_and!; try done. by rewrite clean_cons.
Qed.

Lemma check_loop : forall fuel s, nul_free s -> (length s < fuel)%nat -> exists b, loop fuel check_turn s = Ok b /\ (b = true <-> clean s).
Proof.
  induction fuel as [|fuel IH]; intros s Hn Hf; [lia|]. rewrite loop_step. unfold check_turn at 1. pose proof (find_slash_dot_ok s) as H.
  destruct (find_slash_dot s) as [p|]; [|cbn [bind]; by exists true]. destruct H as (pre & t & -> & -> & Ht & Hcl).
  apply Forall_app in Hn as [_ Hn]. apply Forall_cons in Hn as [_ Hn]. rewrite length_app in Hf. cbn [length] in Hf.
  pose proof (dot_component_ok t Hn Ht) as Hd. rewrite clean_slash in Hcl. destruct (dot_component (slash :: t)); cbn [bind tail].
  - exists false. split; [done|]. rewrite Hcl. split; [done|]. intros [H _]. exfalso. by apply H, Hd.
  - destruct (IH t Hn ltac:(lia)) as (b & -> & Hb). exists b. split; [done|]. rewrite Hb, Hcl. split; [|tauto]. intros H. split; [|done].
    intros H'. by apply Hd in H'.
Qed.

Lemma logical_ok pwd stat_wd d : (forall wd, pwd = Some wd -> nul_free wd) ->
  exists r, logical_getcwd pwd stat_wd (Some d) = Ok r /\
    match r with
    | Some out => exists st, pwd = Some out /\ head_char out = slash /\ clean out /\ stat_wd = Some st /\ SAME_INODE st d = true
    | None => forall wd st, pwd = Some wd -> stat_wd = Some st -> head_char wd = slash -> clean wd -> SAME_INODE st d = false
    end.
Proof.
  intros Hpwd. destruct pwd as [wd|]; [|by exists None]. specialize (Hpwd wd eq_refl). cbn [logical_getcwd].
  destruct (Z.eqb_spec (head_char wd) slash) as [Eh|Eh]; cbn [negb].
  2:{ exists None. split; [done|]. by intros ? st [= <-] _ ?. }
  destruct (check_loop (S (length wd)) wd Hpwd ltac:(lia)) as (b & -> & Hb). cbn [bind].
  destruct b; [|exists None; split; [done|]; intros ? st [= <-] _ _ Hc; by apply Hb in Hc].
  destruct stat_wd as [st|]; [|by exists None].
  destruct (SAME_INODE st d) eqn:Est; eexists; (split; [done|]).
  - exists st. split_and!; try done. by apply Hb.
  - by intros ? st' [= <-] [= <-] _ _.
Qed.

(** pwd prints the working directory: with -L the value of $PWD when it is
    absolute, has no component "." or "..", and is the directory "." by its
    attributes; otherwise, when getcwd fails, the names found by climbing to the
    root, joined by slashes, however long they are, or "/" for the root itself. *)
Theorem pwd_correct fuel root d up names pwd stat_wd :
  located root up 1 d names -> Forall nul_free names -> zlen (path_of names) < 2 ^ 59 -> (length names < fuel)%nat ->
  (forall wd, pwd = Some wd -> nul_free wd) ->
  pwd_main fuel false pwd stat_wd None (Some root) (Some d) up = Ok (if decide (names = []) then [slash] else path_of names) /\
  exists out, pwd_main fuel true pwd stat_wd None (Some root) (Some d) up = Ok out /\
    ((exists st, pwd = Some out /\ head_char out = slash /\ clean out /\ stat_wd = Some st /\ SAME_INODE st d = true) \/
     ((forall wd st, pwd = Some wd -> stat_wd = Some st -> head_char wd = slash -> clean wd -> SAME_INODE st d = false) /\
      out = if decide (names = []) then [slash] else path_of names)).
Proof.
  intros Hloc Hn Hmax Hf Hpwd.
  assert (exists p, file_name_init = Ok p /\ exists p', robust_getcwd fuel (Some root) (Some d) up p = Ok p' /\
    file_name_string p' = Ok (if decide (names = []) then [slash] else path_of names)) as (p & Ei & p' & Er & Es).
  { destruct named_init as (p & -> & Hp). exists p. split; [done|]. cbn [robust_getcwd].
    destruct (climb_ok _ _ _ _ _ Hloc fuel p [] Hp) as (p1 & -> & Hp1); [change (zlen (@nil Z)) with 0; lia|done|]. cbn [bind].
    rewrite app_nil_r in Hp1. rewrite (named_first _ _ Hp1). cbn [bind].
    assert (nul_free (path_of names)) as Hnp. { unfold path_of. clear -Hn. induction Hn as [|n ns Hn _ IH]; [constructor|]. cbn. constructor; [done|]. apply Forall_app. by split. }
    destruct names as [|n names].
    - cbn. destruct (prepend_ok p1 [] [] Hp1) as (p2 & -> & Hp2); [done|]. exists p2. split; [done|]. apply (named_string _ [slash] Hp2). by repeat constructor.
    - cbn [path_of map concat head_char Z.eqb]. exists p1. split; [done|]. by apply named_string. }
  assert (pwd_main fuel false pwd stat_wd None (Some root) (Some d) up = Ok (if decide (names = []) then [slash] else path_of names)) as Hphys.
  { unfold pwd_main. cbn [bind]. rewrite Ei. cbn [bind]. rewrite Er. done. }
  split; [done|]. set (phys := if decide (names = []) then [slash] else path_of names) in *.
  destruct (logical_ok pwd stat_wd d Hpwd) as ([wd|] & El & Hl); unfold pwd_main in *; rewrite El; cbn [bind] in *.
  - exists wd. split; [done|by left].
  - exists phys. split; [done|by right].
Qed.

(** A directory /a/b, found by climbing. *)
Definition example_up (k : nat) : level :=
  match k with
  | 1%nat => Level true true (Some (Stat 5 1)) [Dirent [dot] 5 None; Dirent (bytes "x") 8 None; Dirent (bytes "b") 7 None] true
  | _ => Level true true (Some (Stat 2 1)) [Dirent (bytes "a") 5 None] true
  end.

Lemma pwd_correct_witness :
  pwd_main 3 false None None None (Some (Stat 2 1)) (Some (Stat 7 1)) example_up = Ok (path_of [bytes "a"; bytes "b"]) /\
  exists out, pwd_main 3 true None None None (Some (Stat 2 1)) (Some (Stat 7 1)) example_up = Ok out /\
    ((exists st, None = Some out /\ head_char out = slash /\ clean out /\ None = Some st /\ SAME_INODE st (Stat 7 1) = true) \/
     ((forall wd st, None = Some wd -> None = Some st -> head_char wd = slash -> clean wd -> SAME_INODE st (Stat 7 1) = false) /\
      out = path_of [bytes "a"; bytes "b"])).
Proof.
  assert (located (Stat 2 1) example_up 2 (Stat 5 1) ([] ++ [bytes "a"])) as H2.
  { eapply (located_below _ _ 2 (Stat 5 1) (example_up 2) (Stat 2 1) [] (Dirent (bytes "a") 5 None) []); try done; [by repeat constructor|]. by apply located_root. }
  assert (located (Stat 2 1) example_up 1 (Stat 7 1) ([bytes "a"] ++ [bytes "b"])) as H1.
  { eapply (located_below _ _ 1 (Stat 7 1) (example_up 1) (Stat 5 1) [Dirent [dot] 5 None; Dirent (bytes "x") 8 None] (Dirent (bytes "b") 7 None) []);
      try done; [by repeat constructor|]. constructor; [by left|]. constructor; [by right|constructor]. }
  apply (pwd_correct 3 (Stat 2 1) (Stat 7 1) example_up [bytes "a"; bytes "b"] None None H1); [by repeat constructor|done|simpl; lia|done].
Defined.
