(* ===== verification/Isaac.v ===== *)
(** * Random bytes: utils/coreutils/lib/rand-isaac.c and the ISAAC side of randread.c

    The generator with its state of 259 words, its seeding, and readisaac, which
    hands out its words as bytes (least significant first, as on x86).  All words
    are 32 bits wide. *)

From S2P Require Import Prelude Arrays.
Open Scope Z_scope.

Definition ISAAC_LOG : Z := 8.
Definition ISAAC_WORDS : Z := 256.
Definition ISAAC_BYTES : Z := 1024.

Record isaac_state := Isaac { mm : list Z; iv : list Z; sa : Z; sb : Z; sc : Z }.

(** ** Refilling *)

(** The word of [mm] at the byte offset [x & (ISAAC_WORDS - 1) * 4]. *)
Definition ind (mm : list Z) (x : Z) : res Z := rd mm (Z.land x ((ISAAC_WORDS - 1) * 4) / 4).

(** The argument [mix] of the macro: [a << k] or [a >> k]. *)
Inductive shift := Left (k : Z) | Right (k : Z).
Definition shifted (sh : shift) (a : Z) : Z :=
  match sh with Left k => u32 (Z.shiftl a k) | Right k => Z.shiftr a k end.

(** [a], [b], [s->mm] and the output. *)
Definition vars : Type := Z * Z * list Z * list Z.

Definition isaac_step (mix : shift) (m off : Z) (v : vars) : res vars :=
  let '(a, b, mm, r) := v in
  let* far := rd mm (m + off) in
  let a := u32 (Z.lxor a (shifted mix a) + far) in
  let* x := rd mm m in
  let* w := ind mm x in
  let y := u32 (w + a + b) in
  let* mm := wr mm m y in
  let* w := ind mm (Z.shiftr y ISAAC_LOG) in
  let b := u32 (w + x) in
  let* r := wr r m b in
  Ok (a, b, mm, r).

(** One turn of a do loop: four steps; the loop ends at the word [limit]. *)
Definition four_steps (off limit : Z) (st : Z * vars) : res (Z * vars + vars) :=
  let '(m, v) := st in
  let* v := isaac_step (Left 13) m off v in
  let* v := isaac_step (Right 6) (m + 1) off v in
  let* v := isaac_step (Left 2) (m + 2) off v in
  let* v := isaac_step (Right 16) (m + 3) off v in
  let m := m + 4 in
  if m <? limit then Ok (inl (m, v)) else Ok (inr v).

Definition isaac_refill (s : isaac_state) (r : list Z) : res (isaac_state * list Z) :=
  let c := u32 (sc s + 1) in
  let v := (sa s, u32 (sb s + c), mm s, r) in
  let* v := loop 32 (four_steps (ISAAC_WORDS / 2) (ISAAC_WORDS / 2)) (0, v) in
  let* (a, b, mm, r) := loop 32 (four_steps (Z.quot (- ISAAC_WORDS) 2) ISAAC_WORDS) (ISAAC_WORDS / 2, v) in
  Ok (Isaac mm (iv s) a b c, r).

(** ** Seeding *)

(** The assignments of the macro mix to its eight variables, by number:
    [v += w], [v ^= w << k] and [v ^= w >> k]. *)
Inductive assign := Add (v w : nat) | Xor (v w : nat) (sh : shift).

Definition do_assign (t : list Z) (x : assign) : list Z :=
  match x with
  | Add v w => <[v := u32 (t !!! v + t !!! w)]> t
  | Xor v w sh => <[v := Z.lxor (t !!! v) (shifted sh (t !!! w))]> t
  end.

Definition mix_assigns : list assign :=
  [Xor 0 1 (Left 11); Add 3 0;
   Add 1 2; Xor 1 2 (Right 2); Add 4 1;
   Add 2 3; Xor 2 3 (Right 8); Add 5 2;
   Add 3 4; Xor 3 4 (Right 16); Add 6 3;
   Add 4 5; Xor 4 5 (Right 10); Add 7 4;
   Add 5 6; Xor 5 6 (Right 4); Add 0 5;
   Add 6 7; Xor 6 7 (Right 8); Add 1 6;
   Add 7 0; Xor 7 0 (Right 9); Add 2 7;
   Add 0 1].

Definition mix (t : list Z) : list Z := fold_left do_assign mix_assigns t.

(** [a += seed[i]; b += seed[i + 1]; ...] *)
Fixpoint add_seed (t : list Z) (seed : list Z) (i : Z) : res (list Z) :=
  match t with
  | [] => Ok []
  | a :: t => let* w := rd seed i in let* t := add_seed t seed (i + 1) in Ok (u32 (a + w) :: t)
  end.

(** [s->mm[i] = a; s->mm[i + 1] = b; ...] *)
Fixpoint put_words (t : list Z) (mm : list Z) (i : Z) : res (list Z) :=
  match t with
  | [] => Ok mm
  | a :: t => let* mm := wr mm i a in put_words t mm (i + 1)
  end.

(** The variables a..h, the counter and [s->mm], which is also the seed in
    every call. *)
Definition mix_turn (st : list Z * Z * list Z) : res (list Z * Z * list Z) :=
  let '(t, i, mm) := st in
  let* t := add_seed t mm i in
  let t := mix t in
  let* mm := put_words t mm i in
  Ok (t, i + 8, mm).

Definition isaac_mix (s : isaac_state) : res isaac_state :=
  let* (t, _, mm) := while 33 (fun '(_, i, _) => Ok (i <? ISAAC_WORDS)) mix_turn (iv s, 0, mm s) in
  Ok (Isaac mm t (sa s) (sb s) (sc s)).

(** [((unsigned char * )s->mm)[j] ^= b] *)
Definition xor_byte (mm : list Z) (j b : Z) : res (list Z) :=
  let* w := rd mm (j / 4) in
  wr mm (j / 4) (Z.lxor w (Z.shiftl b (8 * (j mod 4)))).

Fixpoint xor_bytes (mm : list Z) (p : Z) (buf : list Z) : res (list Z) :=
  match buf with
  | [] => Ok mm
  | b :: buf => let* mm := xor_byte mm p b in xor_bytes mm (p + 1) buf
  end.

Definition with_mm (s : isaac_state) (mm : list Z) (c : Z) : isaac_state := Isaac mm (iv s) (sa s) (sb s) c.

(** A full buffer; the state is [s], [buf] and [avail]. *)
Definition full_buffer (st : isaac_state * list Z * Z) : res (isaac_state * list Z * Z) :=
  let '(s, buf, avail) := st in
  let* m := xor_bytes (mm s) (sc s) (take (Z.to_nat avail) buf) in
  let* s := isaac_mix (with_mm s m (sc s)) in
  Ok (with_mm s (mm s) 0, drop (Z.to_nat avail) buf, ISAAC_BYTES).

Definition isaac_seed_data (s : isaac_state) (buf : list Z) : res isaac_state :=
  let* (s, buf, _) := while (S (S (length buf))) (fun '(_, buf, avail) => Ok (avail <? zlen buf)) full_buffer (s, buf, ISAAC_BYTES - sc s) in
  let* m := xor_bytes (mm s) (sc s) buf in
  Ok (with_mm s m (zlen buf)).

Definition initial_iv : list Z :=
  [0x1367df5a; 0x95d90059; 0xc3163e4b; 0x0f421ad8; 0xd92a4a78; 0xa51a3c49; 0xc4efea1b; 0x30609119].

Definition isaac_seed_start : isaac_state := Isaac (replicate 256 0) initial_iv 0 0 0.

Definition isaac_seed_finish (s : isaac_state) : res isaac_state :=
  let* s := isaac_mix s in
  let* s := isaac_mix s in
  Ok (with_mm s (mm s) 0).

(** The bytes of a word in memory. *)
Fixpoint le_bytes (n : nat) (w : Z) : list Z :=
  match n with O => [] | S n => w mod 256 :: le_bytes n (w / 256) end.

(** The process, user and group numbers have 32 bits, the time has 64. *)
Definition isaac_seed (pid ppid uid gid time : Z) : res isaac_state :=
  let s := isaac_seed_start in
  let* s := isaac_seed_data s (le_bytes 4 pid) in
  let* s := isaac_seed_data s (le_bytes 4 ppid) in
  let* s := isaac_seed_data s (le_bytes 4 uid) in
  let* s := isaac_seed_data s (le_bytes 4 gid) in
  let* s := isaac_seed_data s (le_bytes 8 time) in
  isaac_seed_finish s.

(** Bob Jenkins's mix shifts left in three of the places. *)
Definition jenkins_assigns : list assign :=
  [Xor 0 1 (Left 11); Add 3 0;
   Add 1 2; Xor 1 2 (Right 2); Add 4 1;
   Add 2 3; Xor 2 3 (Left 8); Add 5 2;
   Add 3 4; Xor 3 4 (Right 16); Add 6 3;
   Add 4 5; Xor 4 5 (Left 10); Add 7 4;
   Add 5 6; Xor 5 6 (Right 4); Add 0 5;
   Add 6 7; Xor 6 7 (Left 8); Add 1 6;
   Add 7 0; Xor 7 0 (Right 9); Add 2 7;
   Add 0 1].

(** The initial vector is the golden ratio mixed four times, as its comment
    says, but by that mix and not by the one of the file. *)
Lemma initial_iv_mixed :
  let golden := replicate 8 0x9e3779b9 in
  initial_iv = Nat.iter 4 (fun t => fold_left do_assign jenkins_assigns t) golden /\
  initial_iv <> Nat.iter 4 mix golden.
Proof. split; [vm_compute; reflexivity|]. intros E. vm_compute in E. discriminate E. Qed.

(** ** Words *)

Definition word (z : Z) : Prop := 0 <= z < 4294967296.

Lemma word_u32 z : word (u32 z).
Proof. apply Z.mod_pos_bound. lia. Qed.

Lemma u32_word z : word z -> u32 z = z.
Proof. apply Z.mod_small. Qed.

Lemma u32_bits z i : Z.testbit (u32 z) i = (i <? 32) && Z.testbit z i.
Proof.
  unfold u32. change 4294967296 with (2 ^ 32). destruct (Z.ltb_spec i 32); [|destruct (Z.leb_spec 0 i); [by apply Z.mod_pow2_bits_high|lia]].
  destruct (Z.leb_spec 0 i); [by apply Z.mod_pow2_bits_low|by rewrite !Z.testbit_neg_r].
Qed.

Lemma word_bits z i : word z -> 32 <= i -> Z.testbit z i = false.
Proof. intros Hz Hi. rewrite <- (u32_word z Hz), u32_bits. by rewrite (proj2 (Z.ltb_ge i 32)). Qed.

Lemma bits_word z : 0 <= z -> (forall i, 32 <= i -> Z.testbit z i = false) -> word z.
Proof.
  intros Hz Hb. assert (u32 z = z) as E; [|rewrite <- E; apply word_u32].
  apply Z.bits_inj. intros i. rewrite u32_bits. destruct (Z.ltb_spec i 32); [done|]. by rewrite Hb.
Qed.

Lemma word_lxor a b : word a -> word b -> word (Z.lxor a b).
Proof.
  intros Ha Hb. apply bits_word; [apply Z.lxor_nonneg; unfold word in *; lia|].
  intros i Hi. by rewrite Z.lxor_spec, !word_bits.
Qed.

Definition shift_ok (sh : shift) : Prop := match sh with Left k | Right k => 0 < k < 32 end.

Lemma word_shifted sh a : shift_ok sh -> word a -> word (shifted sh a).
Proof.
  intros Hk Ha. destruct sh as [k|k]; cbn in *; [apply word_u32|]. apply bits_word; [apply Z.shiftr_nonneg; unfold word in *; lia|].
  intros i Hi. rewrite Z.shiftr_spec by lia. apply word_bits; [done|lia].
Qed.

Lemma word_ext a b : word a -> word b -> (forall i, 0 <= i < 32 -> Z.testbit a i = Z.testbit b i) -> a = b.
Proof.
  intros Ha Hb H. apply Z.bits_inj. intros i. destruct (Z.ltb_spec i 0); [by rewrite !Z.testbit_neg_r|].
  destruct (Z.ltb_spec i 32); [by apply H|]. by rewrite !word_bits.
Qed.

(** [u32 (a + b)] is undone by subtraction. *)
Lemma u32_add_sub a b : word a -> u32 (u32 (a + b) - b) = a.
Proof. intros Ha. unfold u32 at 1 2. rewrite Zminus_mod_idemp_l, Z.add_simpl_r. by apply u32_word. Qed.

(** ** An exclusive or with a shift of the word itself *)

(** Solving [v = a ^ shifted a] for [a]: each round gains a bit. *)
Definition unxor (sh : shift) (v : Z) : Z := Nat.iter 32 (fun x => Z.lxor v (shifted sh x)) 0.

Definition known (sh : shift) (n i : Z) : Prop := match sh with Left _ => i < n | Right _ => 32 - n <= i end.

Lemma unxor_round sh a x n : shift_ok sh -> word a -> word x ->
  (forall i, 0 <= i < 32 -> known sh n i -> Z.testbit x i = Z.testbit a i) ->
  forall i, 0 <= i < 32 -> known sh (n + 1) i -> Z.testbit (Z.lxor (Z.lxor a (shifted sh a)) (shifted sh x)) i = Z.testbit a i.
Proof.
  intros Hk Ha Hx H i Hi Hn. rewrite !Z.lxor_spec.
  assert (Z.testbit (shifted sh x) i = Z.testbit (shifted sh a) i) as ->; [|by destruct (Z.testbit a i), (Z.testbit (shifted sh a) i)].
  destruct sh as [k|k]; cbn in *.
  - rewrite !u32_bits, !Z.shiftl_spec by lia. destruct (Z.ltb_spec (i - k) 0); [by rewrite !Z.testbit_neg_r by lia|]. by rewrite H by lia.
  - rewrite !Z.shiftr_spec by lia. destruct (Z.ltb_spec (i + k) 32); [by rewrite H by lia|]. by rewrite !word_bits by (done || lia).
Qed.

Lemma unxor_ok sh a : shift_ok sh -> word a -> unxor sh (Z.lxor a (shifted sh a)) = a.
Proof.
  intros Hk Ha. unfold unxor. set (v := Z.lxor a (shifted sh a)).
  assert (word v) as Hv by (by apply word_lxor, word_shifted).
  assert (forall n, word (Nat.iter n (fun x => Z.lxor v (shifted sh x)) 0) /\
    forall i, 0 <= i < 32 -> known sh (Z.of_nat n) i -> Z.testbit (Nat.iter n (fun x => Z.lxor v (shifted sh x)) 0) i = Z.testbit a i) as H.
  { induction n as [|n [IHw IH]]; [split; [unfold word; cbn; lia|destruct sh; cbn [known]; lia]|]. rewrite Nat.iter_succ. split.
    - by apply word_lxor, word_shifted.
    - intros i Hi Hn. apply (unxor_round sh a _ (Z.of_nat n)); try done. replace (Z.of_nat n + 1) with (Z.of_nat (S n)) by lia. done. }
  destruct (H 32%nat) as [Hw Hb]. apply word_ext; [done|done|]. intros i Hi. apply Hb; [done|]. destruct sh; cbn [known]; lia.
Qed.

(** ** Refilling can be undone *)

Definition words (n : Z) (l : list Z) : Prop := zlen l = n /\ Forall word l.

Lemma words_get n l i : words n l -> 0 <= i < n -> word l.[i].
Proof. intros [Hl Hw] Hi. apply Forall_aget_1; [done|lia]. Qed.

Lemma words_upd n l i v : words n l -> word v -> words n (upd l i v).
Proof. intros [Hl Hw] Hv. split; [by rewrite zlen_upd|]. unfold upd. by apply Forall_insert. Qed.

Lemma ind_range x : 0 <= Z.land x ((ISAAC_WORDS - 1) * 4) / 4 < 256.
Proof.
  change ((ISAAC_WORDS - 1) * 4) with (Z.land 1020 (Z.ones 10)). rewrite Z.land_assoc, Z.land_ones by lia.
  pose proof (Z.mod_pos_bound (Z.land x 1020) (2 ^ 10) ltac:(lia)). change (2 ^ 10) with 1024 in *. div_lia.
Qed.

(** The value that the macro ind gives. *)
Definition ind_val (mm : list Z) (x : Z) : Z := mm.[Z.land x ((ISAAC_WORDS - 1) * 4) / 4].

Lemma ind_ok l x : words 256 l -> ind l x = Ok (ind_val l x) /\ word (ind_val l x).
Proof.
  intros H. pose proof (ind_range x). unfold ind, ind_val. destruct H as [Hl Hw]. split; [apply rd_Ok; lia|apply Forall_aget_1; [done|lia]].
Qed.

(** The step backwards. *)
Definition unstep (mix : shift) (m off : Z) (v : Z * Z * list Z) : Z * Z * list Z :=
  let '(a, b, mm) := v in
  let y := mm.[m] in
  let x := u32 (b - ind_val mm (Z.shiftr y ISAAC_LOG)) in
  let mm := upd mm m x in
  let b := u32 (y - (ind_val mm x + a)) in
  (unxor mix (u32 (a - mm.[m + off])), b, mm).

Definition good (v : Z * Z * list Z) : Prop := let '(a, b, mm) := v in word a /\ word b /\ words 256 mm.

(** The step as a function. *)
Definition next (mix : shift) (m off : Z) (v : Z * Z * list Z) : Z * Z * list Z :=
  let '(a, b, mm) := v in
  let a := u32 (Z.lxor a (shifted mix a) + mm.[m + off]) in
  let x := mm.[m] in
  let y := u32 (ind_val mm x + a + b) in
  let mm := upd mm m y in
  (a, u32 (ind_val mm (Z.shiftr y ISAAC_LOG) + x), mm).

Definition with_out (v : Z * Z * list Z) (r : list Z) : vars := (v, r).
Definition out_word (v : Z * Z * list Z) : Z := v.1.2.

Definition place_ok (m off : Z) : Prop := 0 <= m < 256 /\ 0 <= m + off < 256 /\ off <> 0.

Lemma next_good mix m off v : place_ok m off -> good v -> good (next mix m off v).
Proof.
  destruct v as [[a b] l]. intros (Hm & Hoff & Hne) (Ha & Hb & Hl).
  split_and!; [apply word_u32|apply word_u32|]. apply words_upd; [done|apply word_u32].
Qed.

Lemma isaac_step_ok mix m off v pre w post :
  place_ok m off -> good v -> zlen pre = m ->
  isaac_step mix m off (with_out v (pre ++ w :: post)) = Ok (with_out (next mix m off v) (pre ++ out_word (next mix m off v) :: post)).
Proof.
  destruct v as [[a b] l]. intros (Hm & Hoff & Hne) (Ha & Hb & Hl) Hr. unfold isaac_step, with_out.
  assert (zlen l = 256) as HL by apply Hl. rewrite !rd_Ok by lia. cbn [bind].
  destruct (ind_ok l l.[m] Hl) as [-> _]. cbn [bind]. rewrite wr_Ok by lia. cbn [bind].
  match goal with |- context [upd l m ?y] => destruct (ind_ok (upd l m y) (Z.shiftr y ISAAC_LOG)) as [-> _]; [apply words_upd; [done|apply word_u32]|] end.
  cbn [bind]. by rewrite wr_middle.
Qed.

Lemma unstep_next mix m off v : shift_ok mix -> place_ok m off -> good v -> unstep mix m off (next mix m off v) = v.
Proof.
  destruct v as [[a b] l]. intros Hk (Hm & Hoff & Hne) (Ha & Hb & Hl). assert (zlen l = 256) as HL by apply Hl.
  unfold next. set (far := l.[m + off]). set (x := l.[m]). set (a' := u32 (_ + far)). set (y := u32 (_ + b)). set (b' := u32 (_ + x)).
  assert (word x) as Hx by (by apply (words_get 256)). unfold unstep. cbv zeta. rewrite aget_upd_eq by lia.
  assert (u32 (b' - ind_val (upd l m y) (Z.shiftr y ISAAC_LOG)) = x) as ->.
  { unfold b'. rewrite (Z.add_comm (ind_val _ _)). by apply u32_add_sub. }
  assert (upd (upd l m y) m x = l) as -> by (rewrite upd_upd_eq; apply upd_aget).
  assert (u32 (y - (ind_val l x + a')) = b) as -> by (unfold y; rewrite (Z.add_comm (ind_val l x + a')); by apply u32_add_sub).
  fold far. assert (u32 (a' - far) = Z.lxor a (shifted mix a)) as -> by (unfold a'; by apply u32_add_sub, word_lxor, word_shifted).
  by rewrite unxor_ok.
Qed.

(** *** The whole schedule of steps *)

Definition step_at : Type := shift * Z * Z.
Definition step_ok (x : step_at) : Prop := let '(mix, m, off) := x in shift_ok mix /\ place_ok m off.

Fixpoint run (sch : list step_at) (v : Z * Z * list Z) : Z * Z * list Z * list Z :=
  match sch with
  | [] => (v, [])
  | (mix, m, off) :: sch => let v := next mix m off v in let '(v', out) := run sch v in (v', out_word v :: out)
  end.

Fixpoint unrun (sch : list step_at) (v : Z * Z * list Z) : Z * Z * list Z :=
  match sch with [] => v | (mix, m, off) :: sch => unstep mix m off (unrun sch v) end.

Fixpoint turns (n : nat) (off m : Z) : list step_at :=
  match n with
  | O => []
  | S n => [(Left 13, m, off); (Right 6, m + 1, off); (Left 2, m + 2, off); (Right 16, m + 3, off)] ++ turns n off (m + 4)
  end.

Lemma run_app s1 s2 v : run (s1 ++ s2) v = let '(v1, o1) := run s1 v in let '(v2, o2) := run s2 v1 in (v2, o1 ++ o2).
Proof.
  revert v. induction s1 as [|[[mix m] off] s1 IH]; intros v; cbn [app run]; [by destruct (run s2 v)|].
  rewrite IH. destruct (run s1 _) as [v1 o1], (run s2 v1). done.
Qed.

Lemma run_good sch v : Forall step_ok sch -> good v ->
  good (run sch v).1 /\ zlen (run sch v).2 = zlen sch /\ Forall word (run sch v).2 /\ unrun sch (run sch v).1 = v.
Proof.
  intros H. revert v. induction H as [|[[mix m] off] sch [Hk Hp] _ IH]; intros v Hv; [done|]. cbn [run unrun].
  pose proof (next_good mix m off v Hp Hv) as Hn. destruct (IH _ Hn) as (H1 & H2 & H3 & H4). destruct (run sch _) as [v' out]. cbn [fst snd] in *.
  split_and!; [done|rewrite !zlen_cons; lia|constructor; [|done]|rewrite H4; by apply unstep_next].
  unfold out_word. destruct (next mix m off v) as [[? ?] ?]. by destruct Hn as (_ & ? & _).
Qed.

Lemma turns_ok n off m : 0 <= m -> m + 4 * Z.of_nat n <= 256 -> 0 <= m + off -> m + off + 4 * Z.of_nat n <= 256 -> off <> 0 -> Forall step_ok (turns n off m).
Proof.
  revert m. induction n as [|n IH]; intros m H1 H2 H3 H4 H5; [constructor|]. cbn [turns app].
  repeat (constructor; [split; [cbn; lia|split_and!; lia]|]). apply IH; lia.
Qed.

Lemma zlen_turns n off m : zlen (turns n off m) = 4 * Z.of_nat n.
Proof. revert m. induction n as [|n IH]; intros m; [done|]. cbn [turns]. rewrite zlen_app, IH. change (zlen [_; _; _; _]) with 4. lia. Qed.

(** Four steps of the code. *)
Lemma four_steps_ok off limit m v pre w0 w1 w2 w3 post :
  Forall step_ok (turns 1 off m) -> good v -> zlen pre = m ->
  exists v' out, run (turns 1 off m) v = (v', out) /\
  four_steps off limit (m, with_out v (pre ++ w0 :: w1 :: w2 :: w3 :: post)) =
    Ok (if m + 4 <? limit then inl (m + 4, with_out v' ((pre ++ out) ++ post)) else inr (with_out v' ((pre ++ out) ++ post))).
Proof.
  intros Hs Hv Hpre. cbn [turns app] in *. rewrite !Forall_cons in Hs. destruct Hs as ([K0 P0] & [K1 P1] & [K2 P2] & [K3 P3] & _).
  pose proof (next_good (Left 13) m off v P0 Hv) as G0. pose proof (next_good (Right 6) _ off _ P1 G0) as G1. pose proof (next_good (Left 2) _ off _ P2 G1) as G2.
  cbn [run]. eexists _, _. split; [done|]. unfold four_steps.
  rewrite isaac_step_ok by done. cbn [bind]. rewrite (cons_middle _ pre), app_assoc, isaac_step_ok by (done || rewrite zlen_snoc; lia). cbn [bind].
  rewrite (cons_middle _ (pre ++ _)), app_assoc, isaac_step_ok by (done || rewrite !zlen_snoc; lia). cbn [bind].
  rewrite (cons_middle _ ((pre ++ _) ++ _)), app_assoc, isaac_step_ok by (done || rewrite !zlen_snoc; lia). cbn [bind].
  rewrite <- !app_assoc. cbn [app]. by destruct (m + 4 <? limit).
Qed.

Lemma split4 (l : list Z) n : 4 * (n + 1) <= zlen l -> 0 <= n -> exists w0 w1 w2 w3 post, l = w0 :: w1 :: w2 :: w3 :: post /\ zlen post = zlen l - 4.
Proof.
  destruct l as [|w0 [|w1 [|w2 [|w3 post]]]]; cbn [zlen length]; intros; try (unfold zlen in *; cbn [length] in *; lia).
  exists w0, w1, w2, w3, post. split; [done|]. unfold zlen. cbn [length]. lia.
Qed.

Lemma refill_loop off limit n : forall m v pre old,
  (0 < n)%nat -> limit = m + 4 * Z.of_nat n -> Forall step_ok (turns n off m) -> good v -> zlen pre = m -> 4 * Z.of_nat n <= zlen old ->
  loop n (four_steps off limit) (m, with_out v (pre ++ old)) =
    Ok (with_out (run (turns n off m) v).1 (pre ++ (run (turns n off m) v).2 ++ drop (4 * n) old)).
Proof.
  induction n as [|n IH]; intros m v pre old Hn Hl Hs Hv Hpre Hold; [lia|]. cbn [loop].
  destruct (split4 old (Z.of_nat n)) as (w0 & w1 & w2 & w3 & post & -> & Hpost); [lia|lia|].
  change (turns (S n) off m) with (turns 1 off m ++ turns n off (m + 4)) in *. apply Forall_app in Hs as [Hs1 Hs2].
  destruct (four_steps_ok off limit m v pre w0 w1 w2 w3 post Hs1 Hv Hpre) as (v' & out & Er & ->). cbn [bind].
  destruct (run_good (turns 1 off m) v Hs1 Hv) as (Hg & Hlen & _ & _). rewrite run_app, Er in *. cbn [fst snd] in *. change (zlen (turns 1 off m)) with 4 in Hlen.
  destruct n as [|n].
  - cbn [turns run fst snd]. rewrite (proj2 (Z.ltb_ge (m + 4) limit)) by lia. rewrite app_nil_r. cbn [drop Nat.mul Nat.add]. by rewrite <- app_assoc.
  - rewrite (proj2 (Z.ltb_lt (m + 4) limit)) by lia. rewrite IH; [|lia|lia|done|done|rewrite zlen_app; lia|lia].
    destruct (run (turns (S n) off (m + 4)) v') as [v2 o2]. cbn [fst snd]. rewrite <- !app_assoc.
    by replace (4 * S (S n))%nat with (4 + 4 * S n)%nat by lia.
Qed.

(** The generator's state: 256 words and three more, and the eight words of seeding. *)
Definition state_ok (s : isaac_state) : Prop :=
  words 256 (mm s) /\ words 8 (iv s) /\ word (sa s) /\ word (sb s) /\ word (sc s).

Definition schedule : list step_at := turns 32 128 0 ++ turns 32 (-128) 128.

(** The words that a refill delivers, and the state it leaves. *)
Definition refill_fn (s : isaac_state) : isaac_state * list Z :=
  let c := u32 (sc s + 1) in
  let '(a, b, m, out) := run schedule (sa s, u32 (sb s + c), mm s) in
  (Isaac m (iv s) a b c, out).

Definition unrefill (s : isaac_state) : isaac_state :=
  let '(a, b, m) := unrun schedule (sa s, sb s, mm s) in
  Isaac m (iv s) a (u32 (b - sc s)) (u32 (sc s - 1)).

Lemma schedule_ok : Forall step_ok schedule.
Proof. apply Forall_app. split; apply turns_ok; lia. Qed.

Lemma isaac_refill_run s r : state_ok s -> zlen r = 256 -> isaac_refill s r = Ok (refill_fn s).
Proof.
  intros (Hm & Hiv & Ha & Hb & Hc) Hr. unfold isaac_refill, refill_fn. cbv zeta. set (c := u32 (sc s + 1)).
  set (v := (sa s, u32 (sb s + c), mm s)). change (v, r) with (with_out v ([] ++ r)).
  pose proof schedule_ok as Hs. apply Forall_app in Hs as [Hs1 Hs2].
  assert (good v) as Hv by (split_and!; [done|apply word_u32|done]).
  change (ISAAC_WORDS / 2) with 128. change (Z.quot (- ISAAC_WORDS) 2) with (-128). change ISAAC_WORDS with 256.
  rewrite refill_loop by (done || lia). cbn [bind]. destruct (run_good _ v Hs1 Hv) as (Hg & Hlen & _ & _). rewrite zlen_turns in Hlen.
  unfold schedule. rewrite run_app. destruct (run (turns 32 128 0) v) as [v1 o1]. cbn [fst snd app] in *.
  rewrite refill_loop; [|lia|lia|done|done|lia|unfold zlen in *; rewrite length_drop; lia].
  destruct (run_good _ v1 Hs2 Hg) as (Hg2 & Hlen2 & _ & _). rewrite zlen_turns in Hlen2. cbn [bind].
  destruct (run (turns 32 (-128) 128) v1) as [[[a b] m] o2]. cbn [fst snd with_out bind] in *. do 2 f_equal.
  by rewrite drop_drop, (drop_ge r), app_nil_r by (unfold zlen in *; lia).
Qed.

Lemma refill_fn_ok s : state_ok s -> state_ok (refill_fn s).1 /\ words 256 (refill_fn s).2 /\ unrefill (refill_fn s).1 = s.
Proof.
  intros (Hm & Hiv & Ha & Hb & Hc). unfold refill_fn. cbv zeta. set (c := u32 (sc s + 1)). set (v := (sa s, u32 (sb s + c), mm s)).
  assert (good v) as Hv by (split_and!; [done|apply word_u32|done]).
  destruct (run_good schedule v schedule_ok Hv) as (Hg & Hlen & Hw & Hun). destruct (run schedule v) as [[[a b] m] out]. cbn [fst snd] in *.
  destruct Hg as (Ga & Gb & Gm). split; [exact (conj Gm (conj Hiv (conj Ga (conj Gb (word_u32 _)))))|]. split; [split; [exact Hlen|exact Hw]|].
  unfold unrefill. cbn [sa sb mm sc iv]. rewrite Hun. unfold v, c. rewrite !u32_add_sub by assumption. destruct s; reflexivity.
Qed.

(** ** Mixing can be undone *)

Definition undo_assign (t : list Z) (x : assign) : list Z :=
  match x with
  | Add v w => <[v := u32 (t !!! v - t !!! w)]> t
  | Xor v w sh => <[v := Z.lxor (t !!! v) (shifted sh (t !!! w))]> t
  end.

Definition assign_ok (x : assign) : Prop :=
  match x with
  | Add v w => (v < 8)%nat /\ (w < 8)%nat /\ v <> w
  | Xor v w sh => (v < 8)%nat /\ (w < 8)%nat /\ v <> w /\ shift_ok sh
  end.

Lemma words_lookup n l (i : nat) : words n l -> Z.of_nat i < n -> word (l !!! i).
Proof. intros H Hi. pose proof (words_get n l (Z.of_nat i) H ltac:(lia)) as Hw. unfold aget in Hw. by rewrite Nat2Z.id in Hw. Qed.

Lemma words_insert n l (i : nat) v : words n l -> word v -> words n (<[i := v]> l).
Proof. intros H Hv. pose proof (words_upd n l (Z.of_nat i) v H Hv) as Hw. unfold upd in Hw. by rewrite Nat2Z.id in Hw. Qed.

Lemma do_assign_ok t x : words 8 t -> assign_ok x -> words 8 (do_assign t x) /\ undo_assign (do_assign t x) x = t.
Proof.
  intros Ht Hx. assert (length t = 8%nat) as HL by (destruct Ht; unfold zlen in *; lia).
  destruct x as [v w|v w sh]; cbn [do_assign undo_assign].
  - destruct Hx as (Hv & Hw & Hne). split; [apply words_insert; [done|apply word_u32]|].
    rewrite list_lookup_total_insert_eq, list_lookup_total_insert_ne, list_insert_insert_eq by lia.
    rewrite u32_add_sub by (apply (words_lookup 8); [done|lia]). apply list_insert_id, list_lookup_lookup_total_lt. lia.
  - destruct Hx as (Hv & Hw & Hne & Hsh). split; [apply words_insert; [done|]; apply word_lxor; [|apply word_shifted; [done|]]; apply (words_lookup 8); done || lia|].
    rewrite list_lookup_total_insert_eq, list_lookup_total_insert_ne, list_insert_insert_eq by lia.
    rewrite Z.lxor_assoc, Z.lxor_nilpotent, Z.lxor_0_r. apply list_insert_id, list_lookup_lookup_total_lt. lia.
Qed.

Lemma do_assigns_ok l t : Forall assign_ok l -> words 8 t ->
  words 8 (fold_left do_assign l t) /\ fold_right (fun x t => undo_assign t x) (fold_left do_assign l t) l = t.
Proof.
  intros H. revert t. induction H as [|x l Hx _ IH]; intros t Ht; [done|]. cbn [fold_left fold_right].
  destruct (do_assign_ok t x Ht Hx) as [Hw Hu]. destruct (IH _ Hw) as [H1 H2]. split; [done|]. by rewrite H2.
Qed.

Definition unmix (t : list Z) : list Z := fold_right (fun x t => undo_assign t x) t mix_assigns.

Lemma mix_ok t : words 8 t -> words 8 (mix t) /\ unmix (mix t) = t.
Proof. apply do_assigns_ok. unfold mix_assigns. repeat (constructor; [cbn; lia|]). constructor. Qed.

#[local] Opaque mix unmix.

(** *** A pass over the buffer *)

Definition adds (t l : list Z) : list Z := zip_with (fun a w => u32 (a + w)) t l.
Definition subs (t l : list Z) : list Z := zip_with (fun a w => u32 (a - w)) t l.

Lemma adds_words n t l : words n t -> words n l -> words n (adds t l).
Proof.
  intros [Ht _] [Hl _]. split; [unfold zlen, adds in *; rewrite length_zip_with; lia|]. unfold adds. clear. revert l.
  induction t as [|a t IH]; intros [|w l]; cbn [zip_with]; constructor; [apply word_u32|apply IH].
Qed.

Lemma subs_adds n t l : words n t -> words n l -> subs (adds t l) t = l.
Proof.
  intros [Ht _] [Hl Hw]. assert (length t = length l) as E by (unfold zlen in *; lia). clear Ht Hl. revert t E.
  induction Hw as [|w l Hw _ IH]; intros [|a t] E; try done. cbn [adds subs zip_with] in *. injection E as E.
  f_equal; [|by apply IH]. rewrite (Z.add_comm a). by apply u32_add_sub.
Qed.

(** [n] blocks of eight words. *)
Fixpoint mixed (n : nat) (t l : list Z) : list Z :=
  match n with O => [] | S n => let t := mix (adds t (take 8 l)) in t ++ mixed n t (drop 8 l) end.
Fixpoint mixed_last (n : nat) (t l : list Z) : list Z :=
  match n with O => t | S n => mixed_last n (mix (adds t (take 8 l))) (drop 8 l) end.
Fixpoint unmixed (n : nat) (t l : list Z) : list Z :=
  match n with O => [] | S n => subs (unmix (take 8 l)) t ++ unmixed n (take 8 l) (drop 8 l) end.

Lemma words_app n m l1 l2 : words n l1 -> words m l2 -> words (n + m) (l1 ++ l2).
Proof. intros [? ?] [? ?]. split; [rewrite zlen_app; lia|by apply Forall_app]. Qed.

Lemma words_split n (k : nat) l : words n l -> Z.of_nat k <= n -> words (Z.of_nat k) (take k l) /\ words (n - Z.of_nat k) (drop k l).
Proof.
  intros [Hl Hw] Hk. unfold words, zlen in *. rewrite length_take_le, length_drop by lia.
  split; (split; [lia|]); [by apply Forall_take|by apply Forall_drop].
Qed.

Lemma block_ok n t l : words 8 t -> words (8 * Z.of_nat (S n)) l ->
  words 8 (mix (adds t (take 8 l))) /\ words (8 * Z.of_nat n) (drop 8 l) /\ subs (unmix (mix (adds t (take 8 l)))) t = take 8 l.
Proof.
  intros Ht Hl. destruct (words_split _ 8 l Hl ltac:(lia)) as [H1 H2]. destruct (mix_ok _ (adds_words 8 _ _ Ht H1)) as [Hm Hu].
  split_and!; [done|by replace (8 * Z.of_nat n) with (8 * Z.of_nat (S n) - Z.of_nat 8) by lia|]. rewrite Hu. by apply (subs_adds 8).
Qed.

Lemma mixed_ok n : forall t l, words 8 t -> words (8 * Z.of_nat n) l ->
  words (8 * Z.of_nat n) (mixed n t l) /\ words 8 (mixed_last n t l) /\ unmixed n t (mixed n t l) = l.
Proof.
  induction n as [|n IH]; intros t l Ht Hl; [destruct Hl as [Hl _]; destruct l; [done|unfold zlen in Hl; cbn in Hl; lia]|].
  destruct (block_ok n t l Ht Hl) as (H1 & H2 & H3). cbn [mixed mixed_last unmixed]. destruct (IH _ _ H1 H2) as (I1 & I2 & I3).
  split_and!; [replace (8 * Z.of_nat (S n)) with (8 + 8 * Z.of_nat n) by lia; by apply words_app|done|].
  assert (length (mix (adds t (take 8 l))) = 8%nat) as HL by (destruct H1; unfold zlen in *; lia).
  rewrite take_app_length', drop_app_length' by done. rewrite H3, I3. apply take_drop.
Qed.

(** The blocks after the first do not need the variables a pass starts with. *)
Lemma mixed_inj n t t' l l' : words 8 t -> words 8 t' -> words (8 * Z.of_nat (S n)) l -> words (8 * Z.of_nat (S n)) l' ->
  mixed (S n) t l = mixed (S n) t' l' -> drop 8 l = drop 8 l' /\ (t = t' -> l = l').
Proof.
  intros Ht Ht' Hl Hl' E. cbn [mixed] in E. destruct (block_ok n t l Ht Hl) as (H1 & H2 & H3), (block_ok n t' l' Ht' Hl') as (H1' & H2' & H3').
  apply app_inj_1 in E as [E1 E2]; [|destruct H1, H1'; unfold zlen in *; lia]. rewrite <- E1 in *.
  destruct (mixed_ok n _ _ H1 H2) as (_ & _ & I). destruct (mixed_ok n _ _ H1 H2') as (_ & _ & I'). rewrite E2, I' in I.
  split; [done|]. intros <-. rewrite <- (take_drop 8 l), <- (take_drop 8 l'). by rewrite <- H3, <- H3', I.
Qed.

Lemma mixed_last_drop n : forall t l, words 8 t -> words (8 * Z.of_nat (S n)) l -> mixed_last (S n) t l = drop (8 * n) (mixed (S n) t l).
Proof.
  induction n as [|n IH]; intros t l Ht Hl; destruct (block_ok _ t l Ht Hl) as (H1 & H2 & _).
  - cbn [mixed mixed_last Nat.mul drop]. by rewrite app_nil_r.
  - change (mixed (S (S n)) t l) with (mix (adds t (take 8 l)) ++ mixed (S n) (mix (adds t (take 8 l))) (drop 8 l)).
    change (mixed_last (S (S n)) t l) with (mixed_last (S n) (mix (adds t (take 8 l))) (drop 8 l)). rewrite IH by done.
    rewrite drop_app_ge by (destruct H1; unfold zlen in *; lia). f_equal. destruct H1. unfold zlen in *. lia.
Qed.

Lemma add_seed_ok t : forall blk pre post i, length blk = length t -> zlen pre = i -> add_seed t (pre ++ blk ++ post) i = Ok (adds t blk).
Proof.
  induction t as [|a t IH]; intros [|w blk] pre post i Hl Hi; try done. cbn [add_seed app]. rewrite rd_middle by done. cbn [bind].
  rewrite (cons_middle w pre), app_assoc, IH; [done|cbn in Hl; lia|rewrite zlen_snoc; lia].
Qed.

Lemma put_words_ok t : forall blk pre post i, length blk = length t -> zlen pre = i -> put_words t (pre ++ blk ++ post) i = Ok (pre ++ t ++ post).
Proof.
  induction t as [|a t IH]; intros [|w blk] pre post i Hl Hi; try done. cbn [put_words app]. rewrite wr_middle by done. cbn [bind].
  rewrite (cons_middle a pre), app_assoc, IH; [by rewrite <- app_assoc|cbn in Hl; lia|rewrite zlen_snoc; lia].
Qed.

Lemma mix_loop n : forall t l pre, words 8 t -> words (8 * Z.of_nat n) l -> zlen pre + 8 * Z.of_nat n = 256 ->
  while (S n) (fun '(_, i, _) => Ok (i <? ISAAC_WORDS)) mix_turn (t, zlen pre, pre ++ l) = Ok (mixed_last n t l, 256, pre ++ mixed n t l).
Proof.
  induction n as [|n IH]; intros t l pre Ht Hl Hp; rewrite while_step; cbn [bind].
  - rewrite (proj2 (Z.ltb_ge _ _)) by (unfold ISAAC_WORDS; lia). cbn [mixed mixed_last]. destruct Hl as [Hl _]. destruct l; [|unfold zlen in Hl; cbn in Hl; lia].
    do 3 f_equal. lia.
  - rewrite (proj2 (Z.ltb_lt _ _)) by (unfold ISAAC_WORDS; lia). destruct (block_ok n t l Ht Hl) as (H1 & H2 & _).
    destruct (words_split _ 8 l Hl ltac:(lia)) as [[Hb _] _]. unfold mix_turn. cbn [mixed mixed_last].
    set (t' := mix (adds t (take 8 l))) in *. destruct Ht as [Ht _]. destruct H1 as [Ht' Hw'].
    rewrite <- (take_drop 8 l) at 1. rewrite add_seed_ok by (done || unfold zlen in *; lia). cbn [bind]. fold t'.
    rewrite <- (take_drop 8 l) at 1. rewrite put_words_ok by (done || unfold zlen in *; lia). cbn [bind].
    rewrite app_assoc. replace (zlen pre + 8) with (zlen (pre ++ t')) by (rewrite zlen_app; lia).
    rewrite IH; [by rewrite <- app_assoc|done|done|rewrite zlen_app; lia].
Qed.

#[local] Opaque mixed mixed_last.

Lemma isaac_mix_ok s : state_ok s -> isaac_mix s = Ok (Isaac (mixed 32 (iv s) (mm s)) (mixed_last 32 (iv s) (mm s)) (sa s) (sb s) (sc s)).
Proof. intros (Hm & Hiv & _). unfold isaac_mix. assert (zlen (A:=Z) [] = 0) as E_zero by done. pose proof (mix_loop 32 (iv s) (mm s) [] Hiv Hm ltac:(done)) as E. rewrite !app_nil_l in E. rewrite E_zero in E. rewrite E. reflexivity. Qed.

Lemma isaac_mix_state s s' : state_ok s -> isaac_mix s = Ok s' -> state_ok s'.
Proof.
  intros Hs. rewrite isaac_mix_ok by done. intros [= <-]. destruct Hs as (Hm & Hiv & Ha & Hb & Hc).
  destruct (mixed_ok 32 (iv s) (mm s) Hiv Hm) as (H1 & H2 & _). exact (conj H1 (conj H2 (conj Ha (conj Hb Hc)))).
Qed.

Lemma seed_finish_total s : state_ok s -> exists s', isaac_seed_finish s = Ok s' /\ state_ok s'.
Proof.
  intros Hs. unfold isaac_seed_finish. destruct (isaac_mix s) as [s1|] eqn:E1; [|by rewrite isaac_mix_ok in E1].
  pose proof (isaac_mix_state s s1 Hs E1) as Hs1. cbn [bind]. destruct (isaac_mix s1) as [s2|] eqn:E2; [|by rewrite isaac_mix_ok in E2].
  pose proof (isaac_mix_state s1 s2 Hs1 E2) as (Hm & Hiv & Ha & Hb & Hc). eexists. split; [done|]. split_and!; try done.
Qed.

Lemma ok_mm (s s' : isaac_state) : Ok s = Ok s' -> mm s = mm s'.
Proof. congruence. Qed.

(** The buffer can be recovered from the state after seeding. *)
Lemma seed_finish_inj s s' r : state_ok s -> state_ok s' -> iv s = iv s' ->
  isaac_seed_finish s = Ok r -> isaac_seed_finish s' = Ok r -> mm s = mm s'.
Proof.
  intros Hs Hs' Hiv E E'. unfold isaac_seed_finish in *.
  rewrite (isaac_mix_ok s Hs) in E. rewrite (isaac_mix_ok s' Hs') in E'. cbn [bind] in *.
  pose proof (isaac_mix_state s _ Hs (isaac_mix_ok s Hs)) as H1. pose proof (isaac_mix_state s' _ Hs' (isaac_mix_ok s' Hs')) as H1'.
  rewrite isaac_mix_ok in E, E' by done. cbn [bind with_mm mm iv sa sb sc] in *.
  destruct Hs as (Hm & Hi & _), Hs' as (Hm' & Hi' & _), H1 as (M1 & I1 & _), H1' as (M1' & I1' & _). cbn [mm iv] in *.
  rewrite <- E' in E. apply ok_mm in E. cbn [mm] in E.
  destruct (mixed_inj 31 _ _ _ _ I1 I1' M1 M1' E) as [Hd Hl]. apply (mixed_inj 31 (iv s) (iv s') (mm s) (mm s')); try done. apply Hl.
  rewrite !(mixed_last_drop 31) by done. replace (8 * 31)%nat with (8 + 240)%nat by done. by rewrite <- !drop_drop, Hd.
Qed.

(** *** What a seed contributes *)

Lemma lxor_byte_high w k b : 0 <= k -> 0 <= w -> 0 <= b < 256 -> Z.lxor (Z.shiftl b k) (Z.shiftl w (k + 8)) = Z.shiftl (b + 256 * w) k.
Proof.
  intros Hk Hw Hb. rewrite (Z.add_comm k 8), <- Z.shiftl_shiftl, <- Z.shiftl_lxor by lia. f_equal. rewrite <- Z.add_nocarry_lxor.
  - rewrite (Z.shiftl_mul_pow2 w) by lia. lia.
  - apply Z.bits_inj. intros i. rewrite Z.land_spec, Z.bits_0. destruct (Z.ltb_spec i 8).
    + rewrite (Z.shiftl_spec_low w) by done. apply andb_false_r.
    + assert (b = b mod 2 ^ 8) as -> by (symmetry; apply Z.mod_small; lia). by rewrite Z.mod_pow2_bits_high.
Qed.

(** The bytes of a word at a word boundary. *)
Lemma xor_word l (k : Z) w rest : 0 <= k < zlen l -> word w -> xor_bytes l (4 * k) (le_bytes 4 w ++ rest) = xor_bytes (upd l k (Z.lxor l.[k] w)) (4 * k + 4) rest.
Proof.
  intros Hk Hw. unfold word in Hw. cbn [le_bytes app xor_bytes]. unfold xor_byte.
  assert (forall d, 0 <= d < 4 -> (4 * k + d) / 4 = k /\ (4 * k + d) mod 4 = d) as Hd by (intros d ?; div_lia).
  replace (4 * k + 1 + 1 + 1 + 1) with (4 * k + 4) by lia. replace (4 * k + 1 + 1 + 1) with (4 * k + 3) by lia. replace (4 * k + 1 + 1) with (4 * k + 2) by lia.
  replace (4 * k / 4) with k by div_lia. replace ((4 * k) mod 4) with 0 by div_lia.
  destruct (Hd 1 ltac:(lia)) as [-> ->], (Hd 2 ltac:(lia)) as [-> ->], (Hd 3 ltac:(lia)) as [-> ->].
  rewrite rd_Ok by lia. cbn [bind]. rewrite wr_Ok by lia. cbn [bind].
  do 3 (rewrite rd_Ok, aget_upd_eq by (rewrite ?zlen_upd; lia); cbn [bind]; rewrite wr_Ok, upd_upd_eq by (rewrite ?zlen_upd; lia); cbn [bind]).
  do 2 f_equal. rewrite !Z.lxor_assoc. f_equal. rewrite !Z.div_div by lia. change (8 * 0) with 0. change (8 * 1) with 8. change (8 * 2) with 16. change (8 * 3) with 24.
  set (b0 := w mod 256). set (b1 := (w / 256) mod 256). set (b2 := (w / (256 * 256)) mod 256). set (b3 := (w / (256 * 256 * 256)) mod 256).
  assert (0 <= b0 < 256 /\ 0 <= b1 < 256 /\ 0 <= b2 < 256 /\ 0 <= b3 < 256 /\ w = b0 + 256 * (b1 + 256 * (b2 + 256 * b3))) as (H0 & H1 & H2 & H3 & E) by (unfold b0, b1, b2, b3; div_lia).
  pose proof (lxor_byte_high b3 16 b2 ltac:(lia) ltac:(lia) H2) as E1. pose proof (lxor_byte_high (b2 + 256 * b3) 8 b1 ltac:(lia) ltac:(lia) H1) as E2.
  pose proof (lxor_byte_high (b1 + 256 * (b2 + 256 * b3)) 0 b0 ltac:(lia) ltac:(lia) H0) as E3.
  change (16 + 8) with 24 in E1. change (8 + 8) with 16 in E2. change (0 + 8) with 8 in E3. rewrite E1, E2, E3, Z.shiftl_0_r. done.
Qed.

Lemma seed_small s buf : zlen buf <= ISAAC_BYTES - sc s ->
  isaac_seed_data s buf = let* m := xor_bytes (mm s) (sc s) buf in Ok (with_mm s m (zlen buf)).
Proof.
  intros H. unfold isaac_seed_data. rewrite while_step. cbn [bind]. by rewrite (proj2 (Z.ltb_ge _ _)).
Qed.

Lemma seed_word s k w : sc s = 4 * k -> 0 <= k < 255 -> zlen (mm s) = 256 -> word w ->
  isaac_seed_data s (le_bytes 4 w) = Ok (with_mm s (upd (mm s) k (Z.lxor (mm s).[k] w)) 4).
Proof.
  intros Hc Hk Hl Hw. assert (zlen (le_bytes 4 w) = 4) as H4 by done. rewrite seed_small by (unfold ISAAC_BYTES; lia). rewrite Hc, H4.
  rewrite <- (app_nil_r (le_bytes 4 w)) at 1. rewrite xor_word by (done || lia). done.
Qed.

Lemma le_bytes_8 t : 0 <= t < 18446744073709551616 -> le_bytes 8 t = le_bytes 4 (u32 t) ++ le_bytes 4 (t / 4294967296).
Proof.
  intros Ht. cbn [le_bytes app]. unfold u32. rewrite !Z.div_div by lia. cbn [Z.mul Pos.mul].
  repeat (f_equal; try div_lia).
Qed.

(** The buffer after seeding: three words are touched. *)
Definition seed_buffer (pid mixed_ids hi : Z) : list Z := pid :: mixed_ids :: hi :: replicate 253 0.

Lemma isaac_seed_buffer pid ppid uid gid t :
  word pid -> word ppid -> word uid -> word gid -> 0 <= t < 18446744073709551616 ->
  isaac_seed pid ppid uid gid t =
  isaac_seed_finish (Isaac (seed_buffer pid (Z.lxor (Z.lxor (Z.lxor ppid uid) gid) (u32 t)) (t / 4294967296)) initial_iv 0 0 8).
Proof.
  intros Hp Hq Hu Hg Ht. unfold isaac_seed. cbv zeta.
  rewrite (seed_word isaac_seed_start 0) by done. cbn [bind].
  rewrite (seed_word _ 1) by done. cbn [bind]. rewrite (seed_word _ 1) by done. cbn [bind]. rewrite (seed_word _ 1) by done. cbn [bind].
  rewrite seed_small by done. rewrite (le_bytes_8 t Ht) at 1. cbn [sc with_mm mm iv sa sb].
  change 4 with (4 * 1) at 1. rewrite xor_word by (done || apply word_u32).
  assert (word (t / 4294967296)) as Hhi by (unfold word; div_lia).
  rewrite <- (app_nil_r (le_bytes 4 (t / _))). change (4 * 1 + 4) with (4 * 2). rewrite xor_word by done. cbn [bind xor_bytes].
  unfold isaac_seed_start. cbn [mm iv sa sb with_mm]. f_equal.
Qed.

Lemma seed_buffer_ok a b c : word a -> word b -> word c -> state_ok (Isaac (seed_buffer a b c) initial_iv 0 0 8).
Proof.
  intros Ha Hb Hc. assert (word 0) as H0 by (unfold word; lia).
  split_and!; [split; [done|]|split; [done|]|done|done|unfold word; cbn; lia].
  - cbn [mm]. unfold seed_buffer. do 3 (constructor; [done|]). by apply Forall_replicate.
  - cbn [iv]. unfold initial_iv. repeat (constructor; [unfold word; lia|]). constructor.
Qed.

(** Seeding keeps the process number and the upper half of the time, but the
    parent, the user, the group and the lower half of the time are only used in
    their exclusive or: two sets of values give the same generator exactly when
    these three agree.  Seeding always returns a well-formed state. *)
Theorem isaac_seed_collisions pid ppid uid gid t pid' ppid' uid' gid' t' :
  Forall word [pid; ppid; uid; gid; pid'; ppid'; uid'; gid'] -> 0 <= t < 18446744073709551616 -> 0 <= t' < 18446744073709551616 ->
  (exists s, isaac_seed pid ppid uid gid t = Ok s /\ state_ok s) /\
  (isaac_seed pid ppid uid gid t = isaac_seed pid' ppid' uid' gid' t' <->
   pid = pid' /\ t / 4294967296 = t' / 4294967296 /\
   Z.lxor (Z.lxor (Z.lxor ppid uid) gid) (u32 t) = Z.lxor (Z.lxor (Z.lxor ppid' uid') gid') (u32 t')).
Proof.
  rewrite !Forall_cons. intros (Hp & Hq & Hu & Hg & Hp' & Hq' & Hu' & Hg' & _) Ht Ht'. rewrite !isaac_seed_buffer by done.
  set (x := Z.lxor _ (u32 t)). set (x' := Z.lxor _ (u32 t')).
  assert (word x) as Hx by (by repeat apply word_lxor; try apply word_u32). assert (word x') as Hx' by (by repeat apply word_lxor; try apply word_u32).
  assert (word (t / 4294967296)) as Hh by (unfold word; div_lia). assert (word (t' / 4294967296)) as Hh' by (unfold word; div_lia).
  pose proof (seed_buffer_ok _ _ _ Hp Hx Hh) as Hs. pose proof (seed_buffer_ok _ _ _ Hp' Hx' Hh') as Hs'.
  destruct (seed_finish_total _ Hs) as (s & E & Hok). split; [exists s; exact (conj E Hok)|]. rewrite E. split.
  - intros E'. symmetry in E'. pose proof (seed_finish_inj _ _ s Hs Hs' eq_refl E E') as H. cbn [mm] in H. clear - H. unfold seed_buffer in H. injection H as -> -> ->. exact (conj eq_refl (conj eq_refl eq_refl)).
  - intros (-> & Eh & Ex). rewrite Eh, Ex in E. symmetry. exact E.
Qed.

Lemma isaac_seed_collisions_witness :
  (exists s, isaac_seed 7 1 1000 100 5 = Ok s /\ state_ok s) /\
  (isaac_seed 7 1 1000 100 5 = isaac_seed 7 1000 1 100 5 <->
   7 = 7 /\ 5 / 4294967296 = 5 / 4294967296 /\
   Z.lxor (Z.lxor (Z.lxor 1 1000) 100) (u32 5) = Z.lxor (Z.lxor (Z.lxor 1000 1) 100) (u32 5)).
Proof.
  apply (isaac_seed_collisions 7 1 1000 100 5 7 1000 1 100 5); [|lia|lia].
  repeat (constructor; [unfold word; lia|]). constructor.
Defined.

(** ** Bytes on demand *)

(** struct isaac: the number of bytes still in the buffer, the generator and the
    buffer. *)
Record isaac := Source { buffered : Z; state : isaac_state; data : list Z }.

Definition word_bytes (ws : list Z) : list Z := flat_map (le_bytes 4) ws.

(** [memcpy(p, isaac->data.b + from, n)]: the bytes copied. *)
Definition copy_bytes (ws : list Z) (from n : Z) : res (list Z) :=
  let* _ := demand ((0 <=? from) && (0 <=? n) && (from + n <=? ISAAC_BYTES)) OutOfBounds in
  Ok (take (Z.to_nat n) (drop (Z.to_nat from) (word_bytes ws))).

(** The destination is aligned: whole buffers go there directly, over the words
    [old].  [inr] is the return in the loop. *)
Definition direct_turn (old : list Z) (st : Z * isaac_state * list Z) : res (Z * isaac_state * list Z + (Z * isaac_state * list Z + isaac_state * list Z)) :=
  let '(size, g, out) := st in
  if ISAAC_BYTES <=? size then
    let* (g, ws) := isaac_refill g old in
    let out := out ++ word_bytes ws in
    let size := size - ISAAC_BYTES in
    if size =? 0 then Ok (inr (inr (g, out))) else Ok (inl (size, g, out))
  else Ok (inr (inl (size, g, out))).

(** The for loop: [inbytes], [p], [size], the generator with its buffer, and what
    has been stored. *)
Definition read_turn (old : list Z) (st : Z * Z * Z * isaac_state * list Z * list Z) : res (Z * Z * Z * isaac_state * list Z * list Z + isaac * list Z) :=
  let '(inbytes, p, size, g, dat, out) := st in
  if size <=? inbytes then
    let* bs := copy_bytes dat (ISAAC_BYTES - inbytes) size in
    Ok (inr (Source (inbytes - size) g dat, out ++ bs))
  else
    let* bs := copy_bytes dat (ISAAC_BYTES - inbytes) inbytes in
    let out := out ++ bs in
    let size := size - inbytes in
    let p := p + inbytes in
    let* r := (if p mod 4 =? 0 then loop (S (Z.to_nat size)) (direct_turn old) (size, g, out) else Ok (inl (size, g, out))) in
    match r with
    | inr (g, out) => Ok (inr (Source 0 g dat, out))
    | inl (size', g, out) =>
        let* (g, dat) := isaac_refill g dat in
        Ok (inl (ISAAC_BYTES, p + (size - size'), size', g, dat, out))
    end.

(** The bytes stored at the address [p]. *)
Definition readisaac (s : isaac) (p size : Z) (old : list Z) : res (isaac * list Z) :=
  loop (Z.to_nat size + 2) (read_turn old) (buffered s, p, size, state s, data s, []).

(** randread_new without a file, and randread on the result. *)
Definition randread_new_isaac (pid ppid uid gid time : Z) (data : list Z) : res isaac :=
  let* g := isaac_seed pid ppid uid gid time in
  Ok (Source 0 g data).

(** *** The stream *)

Fixpoint refills (n : nat) (g : isaac_state) : isaac_state * list Z :=
  match n with
  | O => (g, [])
  | S n => let '(g1, ws) := refill_fn g in let '(g2, bs) := refills n g1 in (g2, word_bytes ws ++ bs)
  end.

Definition pending (s : isaac) : list Z := drop (Z.to_nat (ISAAC_BYTES - buffered s)) (word_bytes (data s)).

Definition source_ok (s : isaac) : Prop := 0 <= buffered s <= ISAAC_BYTES /\ state_ok (state s) /\ zlen (data s) = 256.

#[local] Opaque refill_fn.

Lemma zlen_word_bytes ws : zlen (word_bytes ws) = 4 * zlen ws.
Proof. induction ws as [|w ws IH]; [done|]. unfold word_bytes in *. cbn [flat_map]. rewrite zlen_app, IH, zlen_cons. change (zlen (le_bytes 4 w)) with 4. lia. Qed.

Lemma refill_ok g r : state_ok g -> zlen r = 256 ->
  exists g' ws, isaac_refill g r = Ok (g', ws) /\ refill_fn g = (g', ws) /\ state_ok g' /\ zlen ws = 256.
Proof.
  intros Hg Hr. rewrite isaac_refill_run by done. destruct (refill_fn_ok g Hg) as (H1 & [H2 _] & _).
  destruct (refill_fn g) as [g' ws]. exists g', ws. exact (conj eq_refl (conj eq_refl (conj H1 H2))).
Qed.

Lemma refills_add n m g : refills (n + m) g = let '(g1, b1) := refills n g in let '(g2, b2) := refills m g1 in (g2, b1 ++ b2).
Proof.
  revert g. induction n as [|n IH]; intros g; cbn [Nat.add refills]; [by destruct (refills m g)|].
  destruct (refill_fn g) as [g1 ws]. rewrite IH. destruct (refills n g1) as [g2 b2], (refills m g2) as [g3 b3]. by rewrite app_assoc.
Qed.

Lemma refills_ok n : forall g, state_ok g -> state_ok (refills n g).1 /\ zlen (refills n g).2 = 1024 * Z.of_nat n.
Proof.
  induction n as [|n IH]; intros g Hg; [done|]. cbn [refills]. destruct (refill_fn_ok g Hg) as (H1 & [H2 _] & _).
  destruct (refill_fn g) as [g1 ws]. cbn [fst snd] in *. destruct (IH g1 H1) as [I1 I2]. destruct (refills n g1) as [g2 b]. cbn [fst snd] in *.
  split; [done|]. rewrite zlen_app, zlen_word_bytes. lia.
Qed.

(** Whole buffers: [k] refills. *)
Lemma direct_ok old : zlen old = 256 -> forall fuel size g out, state_ok g -> (Z.to_nat size < fuel)%nat -> 0 < size ->
  exists k, let '(g', bs) := refills k g in
  if size =? 1024 * Z.of_nat k then (0 < k)%nat /\ loop fuel (direct_turn old) (size, g, out) = Ok (inr (g', out ++ bs))
  else 0 < size - 1024 * Z.of_nat k < 1024 /\ loop fuel (direct_turn old) (size, g, out) = Ok (inl (size - 1024 * Z.of_nat k, g', out ++ bs)).
Proof.
  intros Hold. induction fuel as [|fuel IH]; intros size g out Hg Hf Hs; [lia|]. cbn [loop]. unfold direct_turn at 1 3. unfold ISAAC_BYTES.
  destruct (Z.leb_spec 1024 size) as [Hbig|Hsmall]; cbn [bind].
  - destruct (refill_ok g old Hg Hold) as (g1 & ws & -> & Ef & Hg1 & _). cbn [bind]. destruct (Z.eqb_spec (size - 1024) 0) as [E0|E0]; cbn [bind].
    + exists 1%nat. cbn [refills]. rewrite Ef. rewrite (proj2 (Z.eqb_eq _ _)) by lia. clear Ef. rewrite app_nil_r. split; [lia|done].
    + destruct (IH (size - 1024) g1 (out ++ word_bytes ws) Hg1 ltac:(lia) ltac:(lia)) as (k & Hk). exists (S k). cbn [refills]. rewrite Ef. clear Ef.
      destruct (refills k g1) as [g2 bs]. rewrite <- app_assoc in Hk.
      destruct (Z.eqb_spec (size - 1024) (1024 * Z.of_nat k)), (Z.eqb_spec size (1024 * Z.of_nat (S k))); try lia.
      * destruct Hk as [? ->]. split; [lia|]. done.
      * destruct Hk as [? ->]. split; [lia|]. by replace (size - 1024 - 1024 * Z.of_nat k) with (size - 1024 * Z.of_nat (S k)) by lia.
  - exists 0%nat. cbn [refills]. rewrite (proj2 (Z.eqb_neq _ _)), app_nil_r by lia. replace (size - 1024 * Z.of_nat 0) with size by lia. split; [lia|done].
Qed.

(** What a read has to deliver: [k] refills, of which [bs] goes out. *)
Definition delivers (s : isaac) (size : Z) (bs : list Z) (s' : isaac) : Prop :=
  source_ok s' /\ zlen bs = size /\
  exists k bks, refills k (state s) = (state s', bks) /\ pending s ++ bks = bs ++ pending s' /\ (k = 0%nat \/ buffered s' < ISAAC_BYTES).

Lemma zlen_pending s : source_ok s -> zlen (pending s) = buffered s.
Proof.
  intros (Hb & _ & Hd). pose proof (zlen_word_bytes (data s)). unfold pending, ISAAC_BYTES, zlen in *. rewrite length_drop. lia.
Qed.

Lemma copy_ok s n : source_ok s -> 0 <= n <= buffered s ->
  copy_bytes (data s) (ISAAC_BYTES - buffered s) n = Ok (take (Z.to_nat n) (pending s)).
Proof.
  intros (Hb & _ & Hd) Hn. unfold copy_bytes, ISAAC_BYTES in *. by rewrite !(proj2 (Z.leb_le _ _)) by lia.
Qed.

Lemma delivers_intro s size bs s' k bks :
  source_ok s' -> zlen bs = size -> refills k (state s) = (state s', bks) -> pending s ++ bks = bs ++ pending s' -> (k = 0%nat \/ buffered s' < ISAAC_BYTES) ->
  delivers s size bs s'.
Proof.
  intros H1 H2 H3 H4 H5. exact (conj H1 (conj H2 (ex_intro _ k (ex_intro _ bks (conj H3 (conj H4 H5)))))).
Qed.

(** A copy, [k1] refills and one into the buffer, and the rest of the loop. *)
Lemma delivers_refill s size1 size2 k1 g1 b1 g2 ws bs2 s' :
  source_ok s -> refills k1 (state s) = (g1, b1) -> size1 - size2 = zlen b1 -> refill_fn g1 = (g2, ws) -> zlen ws = 256 -> 0 < size2 ->
  delivers (Source ISAAC_BYTES g2 ws) size2 bs2 s' -> delivers s (buffered s + size1) (pending s ++ b1 ++ bs2) s'.
Proof.
  intros Hs E1 Hsz Er Hws Hpos (Hok & Hl & k & bks & Ek & Hp & Hk).
  apply (delivers_intro s _ _ s' (k1 + S k) (b1 ++ word_bytes ws ++ bks)); [done| | | |].
  - rewrite !zlen_app, zlen_pending by done. lia.
  - rewrite refills_add, E1. cbn [refills]. rewrite Er. cbn [state] in Ek. by rewrite Ek.
  - change (pending (Source ISAAC_BYTES g2 ws)) with (word_bytes ws) in Hp. rewrite <- !app_assoc. f_equal. f_equal. exact Hp.
  - right. destruct Hk as [->|Hk]; [|done]. injection Ek as _ <-. rewrite app_nil_r in Hp.
    change (pending (Source ISAAC_BYTES g2 ws)) with (word_bytes ws) in Hp. apply (f_equal zlen) in Hp.
    rewrite zlen_app, zlen_word_bytes, zlen_pending in Hp by done. unfold ISAAC_BYTES. lia.
Qed.

Lemma readisaac_loop (old : list Z) : zlen old = 256 -> forall fuel s p size out, source_ok s -> 0 <= size ->
  (Z.to_nat size + (if (buffered s =? 0)%Z then 2 else 1) <= fuel)%nat ->
  exists s' bs, loop fuel (read_turn old) (buffered s, p, size, state s, data s, out) = Ok (s', out ++ bs) /\ delivers s size bs s'.
Proof.
  intros Hold. induction fuel as [|fuel IH]; intros s p size out Hs Hsz Hf; [destruct (buffered s =? 0); lia|]. cbn [loop]. unfold read_turn at 1.
  pose proof Hs as (Hb & Hg & Hd). pose proof (zlen_pending s Hs) as Hlp. destruct (Z.leb_spec size (buffered s)) as [Hle|Hgt].
  { rewrite copy_ok by (done || lia). cbn [bind]. eexists _, _. split; [done|]. apply (delivers_intro _ _ _ _ 0 []); [| |done| |by left].
    - split_and!; cbn [buffered state data]; [lia|lia|done|done].
    - unfold zlen in *. rewrite length_take_le; lia.
    - rewrite app_nil_r. unfold pending at 3. cbn [buffered data]. unfold ISAAC_BYTES in *.
      replace (Z.to_nat (1024 - (buffered s - size))) with (Z.to_nat (1024 - buffered s) + Z.to_nat size)%nat by lia.
      rewrite <- drop_drop. symmetry. apply take_drop. }
  rewrite copy_ok by (done || lia). cbn [bind]. rewrite take_ge by (unfold zlen in *; lia). set (size1 := size - buffered s).
  assert (forall k1 g1 b1, refills k1 (state s) = (g1, b1) -> 0 < size1 - zlen b1 -> exists s' bs,
    (let* x := (let* (g, dat) := isaac_refill g1 (data s) in Ok (inl (ISAAC_BYTES, p + buffered s + (size1 - (size1 - zlen b1)), size1 - zlen b1, g, dat, (out ++ pending s) ++ b1))) in
     match x with inl s' => loop fuel (read_turn old) s' | inr r => Ok r end) = Ok (s', out ++ bs) /\ delivers s size bs s') as Hrest.
  { intros k1 g1 b1 E1 Hpos. destruct (refills_ok k1 (state s) Hg) as [Hg1 _]. rewrite E1 in Hg1. cbn [fst] in Hg1.
    destruct (refill_ok g1 (data s) Hg1 Hd) as (g2 & ws & -> & Er & Hg2 & Hws). cbn [bind].
    destruct (IH (Source ISAAC_BYTES g2 ws) (p + buffered s + (size1 - (size1 - zlen b1))) (size1 - zlen b1) ((out ++ pending s) ++ b1)) as (s' & bs & E & Hdel).
    - split_and!; cbn [buffered state data]; [unfold ISAAC_BYTES; lia|unfold ISAAC_BYTES; lia|done|done].
    - lia.
    - cbn [buffered]. change (ISAAC_BYTES =? 0) with false. cbv iota. pose proof (zlen_nonneg b1). destruct (Z.eqb_spec (buffered s) 0); lia.
    - cbn [buffered state data] in E. rewrite E. exists s', (pending s ++ b1 ++ bs). split; [by rewrite <- !app_assoc|].
      assert (size = buffered s + size1) as Esz by (unfold size1; lia). rewrite Esz.
      exact (delivers_refill s size1 (size1 - zlen b1) k1 g1 b1 g2 ws bs s' Hs E1 ltac:(lia) Er Hws Hpos Hdel). }
  destruct ((p + buffered s) mod 4 =? 0); cbn [bind]; [|specialize (Hrest 0%nat (state s) [] eq_refl); change (zlen []) with 0 in Hrest; rewrite !Z.sub_0_r, app_nil_r in Hrest; apply Hrest; lia].
  destruct (direct_ok old Hold (S (Z.to_nat size1)) size1 (state s) (out ++ pending s) Hg ltac:(lia) ltac:(lia)) as (k1 & Hk).
  destruct (refills_ok k1 (state s) Hg) as [Hg1 Hl1]. destruct (refills k1 (state s)) as [g1 b1] eqn:E1. cbn [fst snd] in Hg1, Hl1.
  destruct (Z.eqb_spec size1 (1024 * Z.of_nat k1)) as [Ek|Ek]; destruct Hk as [Hk ->]; cbn [bind].
  - exists (Source 0 g1 (data s)), (pending s ++ b1). split; [by rewrite <- app_assoc|]. pose proof (zlen_word_bytes (data s)) as Hwb.
    apply (delivers_intro _ _ _ _ k1 b1); [split_and!; cbn; unfold ISAAC_BYTES; try lia; done|rewrite zlen_app; lia|done| |by right].
    unfold pending at 3. cbn [buffered data]. rewrite (drop_ge (word_bytes _)), app_nil_r by (unfold ISAAC_BYTES, zlen in *; lia). done.
  - replace (1024 * Z.of_nat k1) with (zlen b1) in * by lia. apply (Hrest k1 g1 b1); [exact E1|lia].
Qed.

Lemma refills_length k g g' b : state_ok g -> refills k g = (g', b) -> zlen b = 1024 * Z.of_nat k.
Proof. intros Hg E. destruct (refills_ok k g Hg) as [_ H]. by rewrite E in H. Qed.

Lemma delivers_trans s n b s1 m b' s2 : source_ok s -> delivers s n b s1 -> delivers s1 m b' s2 -> delivers s (n + m) (b ++ b') s2.
Proof.
  intros Hs (H1 & Hn & k & bk & E1 & P1 & K1) (H2 & Hm & k' & bk' & E2 & P2 & K2).
  apply (delivers_intro _ _ _ _ (k + k') (bk ++ bk')); [done|rewrite zlen_app; lia| | |].
  - by rewrite refills_add, E1, E2.
  - by rewrite app_assoc, P1, <- !app_assoc, P2.
  - destruct K2 as [->|K2]; [|by right]. destruct K1 as [->|K1]; [by left|]. right. cbn in E2. injection E2 as _ <-. rewrite app_nil_r in P2.
    apply (f_equal zlen) in P2. rewrite zlen_app, !zlen_pending in P2 by done. pose proof (zlen_nonneg b'). lia.
Qed.

(** The bytes do not depend on how they were delivered. *)
Lemma delivers_det s n b s' b' s'' : source_ok s -> delivers s n b s' -> delivers s n b' s'' -> b = b' /\ state s' = state s'' /\ pending s' = pending s''.
Proof.
  intros Hs (H1 & Hn & k & bk & E1 & P1 & K1) (H2 & Hn' & k' & bk' & E2 & P2 & K2).
  pose proof Hs as (_ & Hg & _). pose proof (refills_length _ _ _ _ Hg E1) as L1. pose proof (refills_length _ _ _ _ Hg E2) as L2.
  assert (k = k') as <-.
  { pose proof (f_equal zlen P1) as Z1. pose proof (f_equal zlen P2) as Z2. rewrite !zlen_app, !zlen_pending in Z1, Z2 by done.
    destruct H1 as (B1 & _), H2 as (B2 & _). unfold ISAAC_BYTES in *. destruct K1 as [->|K1], K2 as [->|K2]; lia. }
  rewrite E1 in E2. injection E2 as Est <-. rewrite P1 in P2. apply app_inj_1 in P2 as [-> ->]; [done|unfold zlen in *; lia].
Qed.

(** A sequence of requests: the address, the size and the words at the address. *)
Fixpoint read_all (s : isaac) (reqs : list (Z * Z * list Z)) : res (isaac * list Z) :=
  match reqs with
  | [] => Ok (s, [])
  | (p, size, old) :: reqs =>
      let* (s, bs) := readisaac s p size old in
      let* (s, bs') := read_all s reqs in
      Ok (s, bs ++ bs')
  end.

Definition total (reqs : list (Z * Z * list Z)) : Z := foldr (fun '(_, size, _) n => size + n) 0 reqs.

Definition request_ok (q : Z * Z * list Z) : Prop := let '(_, size, old) := q in 0 <= size /\ zlen old = 256.

Lemma read_all_delivers reqs : Forall request_ok reqs -> forall s, source_ok s ->
  exists s' bs, read_all s reqs = Ok (s', bs) /\ delivers s (total reqs) bs s'.
Proof.
  induction 1 as [|[[p size] old] reqs [Hsz Hold] _ IH]; intros s Hs; cbn [read_all total foldr].
  - exists s, []. split; [done|]. apply (delivers_intro _ _ _ _ 0 []); [done|done|done|by rewrite app_nil_r|by left].
  - unfold readisaac. destruct (readisaac_loop old Hold (Z.to_nat size + 2) s p size [] Hs Hsz) as (s1 & b1 & -> & D1); [destruct (buffered s =? 0); lia|].
    cbn [bind app]. destruct D1 as [Hs1 D1]. destruct (IH s1 Hs1) as (s2 & b2 & -> & D2). cbn [bind].
    exists s2, (b1 ++ b2). split; [done|]. by apply (delivers_trans s size b1 s1).
Qed.

(** readisaac hands out the stream of ISAAC words: for every sequence of
    requests, whatever their addresses (aligned destinations are filled
    directly) and whatever the memory there holds, it returns, each byte comes
    from what was pending and then from consecutive refills, the rest of the
    last refill stays pending, and no refill is made before it is needed.  So
    one request for as many bytes gives the same bytes and leaves the same
    generator. *)
Theorem isaac_stream s reqs p old :
  source_ok s -> Forall request_ok reqs -> zlen old = 256 ->
  exists s' bs, read_all s reqs = Ok (s', bs) /\ delivers s (total reqs) bs s' /\
  exists s'', readisaac s p (total reqs) old = Ok (s'', bs) /\ state s'' = state s' /\ pending s'' = pending s'.
Proof.
  intros Hs Hr Hold. destruct (read_all_delivers reqs Hr s Hs) as (s' & bs & E & D). exists s', bs. split; [done|]. split; [done|].
  assert (0 <= total reqs) as Ht by (clear - Hr; induction Hr as [|[[? ?] ?] ? [? ?]]; cbn [total foldr] in *; [lia|]; unfold total in *; lia).
  destruct (read_all_delivers [(p, total reqs, old)]) with (s := s) as (s'' & bs' & E' & D'); [by constructor|done|].
  cbn [total foldr] in D'. rewrite Z.add_0_r in D'. destruct (delivers_det _ _ _ _ _ _ Hs D' D) as (-> & Est & Ep).
  cbn [read_all] in E'. exists s''. destruct (readisaac s p (total reqs) old) as [[s1 b1]|]; cbn [bind] in E'; [|done].
  injection E' as -> E'. rewrite app_nil_r in E'. subst b1. done.
Qed.

(** C25. isaac_refill permutes the states: on every well-formed state it returns, its
    256 words and its new state are 32 bits wide whatever the output array held,
    and the old state can be computed back from the new one, so that no two
    states have the same successor. *)
Theorem isaac_refill_permutes s r :
  state_ok s -> zlen r = 256 ->
  exists s' ws, isaac_refill s r = Ok (s', ws) /\ state_ok s' /\ words 256 ws /\ unrefill s' = s.
Proof.
  intros Hs Hr. destruct (refill_fn_ok s Hs) as (H1 & H2 & H3). rewrite (isaac_refill_run s r Hs Hr).
  destruct (refill_fn s) as [s' ws]. exists s', ws. exact (conj eq_refl (conj H1 (conj H2 H3))).
Qed.

Lemma start_ok : state_ok isaac_seed_start.
Proof.
  assert (word 0) as H0 by (unfold word; lia). split; [split; [done|by apply Forall_replicate]|].
  split; [split; [done|]|done]. cbn [iv isaac_seed_start]. unfold initial_iv. repeat (constructor; [unfold word; lia|]). constructor.
Qed.

Lemma isaac_refill_permutes_witness :
  exists s' ws, isaac_refill isaac_seed_start (replicate 256 7) = Ok (s', ws) /\ state_ok s' /\ words 256 ws /\ unrefill s' = isaac_seed_start.
Proof. apply (isaac_refill_permutes isaac_seed_start (replicate 256 7)); [apply start_ok|reflexivity]. Defined.

Lemma isaac_stream_witness :
  let s := Source 0 isaac_seed_start (replicate 256 0) in
  let old := replicate 256 0 in
  let reqs := [(4, 3, old); (7, 1500, old); (8, 2048, old)] in
  exists s' bs, read_all s reqs = Ok (s', bs) /\ delivers s (total reqs) bs s' /\
  exists s'', readisaac s 0 (total reqs) old = Ok (s'', bs) /\ state s'' = state s' /\ pending s'' = pending s'.
Proof.
  apply (isaac_stream (Source 0 isaac_seed_start (replicate 256 0)) [(4, 3, replicate 256 0); (7, 1500, replicate 256 0); (8, 2048, replicate 256 0)] 0 (replicate 256 0)).
  - split; [cbn; unfold ISAAC_BYTES; lia|]. split; [apply start_ok|reflexivity].
  - repeat (constructor; [split; [lia|reflexivity]|]). constructor.
  - reflexivity.
Defined.
