(* ===== verification/Obstack.v ===== *)
(** * Object stacks: utils/coreutils/lib/obstack.c and obstack.h

    The chunks are blocks of memory, addressed by number; a pointer into the
    current chunk is an offset from its start.  What the two files use but do not
    define is an argument: the allocation function, __PTR_ALIGN as [align], and
    the size of COPYING_UNIT.  The class [GrowingObject] is what the clients of an
    object stack rely on. *)

From S2P Require Import Prelude Arrays.
Open Scope Z_scope.

(** struct _obstack_chunk: its contents start at offset 16; the field [chunk_bytes] is the whole block. *)
Record obstack_chunk := Chunk { prev : option Z; limit : Z; chunk_bytes : list (option Z) }.
Definition CONTENTS : Z := 16.

Record obstack := Obstack {
  chunk_size : Z; chunk : Z; object_base : Z; next_free : Z; chunk_limit : Z;
  alignment_mask : Z; maybe_empty_object : bool }.

Definition heap : Type := gmap Z obstack_chunk.

(** For the union of uintmax_t, long double and a pointer on x86-64. *)
Definition DEFAULT_ALIGNMENT : Z := 16.
Definition DEFAULT_ROUNDING : Z := 16.

(** Room that GNU malloc needs. *)
Definition extra : Z :=
  Z.land (Z.land (12 + DEFAULT_ROUNDING - 1) (Z.lnot (DEFAULT_ROUNDING - 1)) + 4 + DEFAULT_ROUNDING - 1) (Z.lnot (DEFAULT_ROUNDING - 1)).

Section obstack.
Variables (chunkfun : heap -> Z -> option Z) (align : Z -> Z -> Z) (unit_size : Z).

(** CALL_CHUNKFUN: when it gives nothing, obstack_alloc_failed_handler ends the
    program. *)
Definition call_chunkfun (hp : heap) (size : Z) : res Z :=
  match chunkfun hp size with Some b => Ok b | None => Fail (ExitCall 1) end.

Definition obstack_begin (hp : heap) (size alignment : Z) : res (heap * obstack) :=
  let alignment := if alignment =? 0 then DEFAULT_ALIGNMENT else alignment in
  let size := if size =? 0 then 4096 - extra else size in
  let* b := call_chunkfun hp size in
  let base := align CONTENTS (alignment - 1) in
  Ok (<[b := Chunk None size (uninit size)]> hp, Obstack size b base base size (alignment - 1) false).

(** [((COPYING_UNIT * )to)[i] = ((COPYING_UNIT * )from)[i]] *)
Definition copy_unit (src : list (option Z)) (from to : Z) (i : Z) (dst : list (option Z)) : res (list (option Z)) :=
  for_up 0 unit_size (fun j dst => let* x := rd src (from + i * unit_size + j) in wr dst (to + i * unit_size + j) x) dst.

Definition copy_byte (src : list (option Z)) (from to : Z) (i : Z) (dst : list (option Z)) : res (list (option Z)) :=
  let* x := rd src (from + i) in wr dst (to + i) x.

Definition move_object (mask obj_size : Z) (src : list (option Z)) (from to : Z) (dst : list (option Z)) : res (list (option Z)) :=
  let* (dst, already) :=
    if DEFAULT_ALIGNMENT <=? mask + 1 then
      let* dst := for_down (obj_size / unit_size - 1) 0 (copy_unit src from to) dst in
      Ok (dst, obj_size / unit_size * unit_size)
    else Ok (dst, 0) in
  for_up already obj_size (copy_byte src from to) dst.

Definition load (hp : heap) (b : Z) : res obstack_chunk :=
  match hp !! b with Some c => Ok c | None => Fail Dangling end.

Definition obstack_newchunk (hp : heap) (h : obstack) (length : Z) : res (heap * obstack) :=
  let old_chunk := chunk h in
  let obj_size := next_free h - object_base h in
  let* n := long (obj_size + length) in
  let* n := long (n + Z.shiftr obj_size 3) in
  let* n := long (n + alignment_mask h) in
  let* new_size := long (n + 100) in
  let new_size := if new_size <? chunk_size h then chunk_size h else new_size in
  let* new_chunk := call_chunkfun hp new_size in
  let base := align CONTENTS (alignment_mask h) in
  let* old := load hp old_chunk in
  let* cells := move_object (alignment_mask h) obj_size (chunk_bytes old) (object_base h) base (uninit new_size) in
  let only := negb (maybe_empty_object h) && (object_base h =? align CONTENTS (alignment_mask h)) in
  let hp := <[new_chunk := Chunk (if only then prev old else Some old_chunk) new_size cells]> hp in
  let hp := if only then delete old_chunk hp else hp in
  Ok (hp, Obstack (chunk_size h) new_chunk base (base + obj_size) new_size (alignment_mask h) false).

(** obstack_1grow_fast: [*next_free++ = c] *)
Definition obstack_1grow_fast (hp : heap) (h : obstack) (c : Z) : res (heap * obstack) :=
  let* k := load hp (chunk h) in
  let* cells := wr (chunk_bytes k) (next_free h) (Some c) in
  Ok (<[chunk h := Chunk (prev k) (limit k) cells]> hp,
      Obstack (chunk_size h) (chunk h) (object_base h) (next_free h + 1) (chunk_limit h) (alignment_mask h) (maybe_empty_object h)).

Definition obstack_1grow (hp : heap) (h : obstack) (c : Z) : res (heap * obstack) :=
  let* (hp, h) := if chunk_limit h <? next_free h + 1 then obstack_newchunk hp h 1 else Ok (hp, h) in
  obstack_1grow_fast hp h c.

(** obstack_object_size, converted to unsigned. *)
Definition obstack_object_size (h : obstack) : Z := u32 (next_free h - object_base h).

(** ** The object *)

(** The chunk that holds the object, and the bytes of the object. *)
Definition obstack_ok (hp : heap) (h : obstack) (obj : list Z) : Prop :=
  exists k pre junk, hp !! chunk h = Some k /\ chunk_bytes k = pre ++ map Some obj ++ junk /\
    zlen pre = object_base h /\ next_free h = object_base h + zlen obj /\ zlen (chunk_bytes k) = chunk_limit h /\
    0 <= alignment_mask h <= 4096.

Context (Halign : forall p mask, 0 <= mask -> p <= align p mask <= p + mask).
Context (Hunit : 0 < unit_size).
Context (Hsupply : forall hp n, exists b, chunkfun hp n = Some b /\ hp !! b = None).

(** The cells [lo] to [hi] of the object have been moved. *)
Definition moved (src : list (option Z)) (from to n lo hi : Z) (dst : list (option Z)) : Prop :=
  zlen dst = n /\ forall j, lo <= j < hi -> dst.[to + j] = src.[from + j].

Lemma moved_put src from to n lo hi dst j :
  moved src from to n lo hi dst -> 0 <= to + j < n -> 0 <= to + lo -> moved src from to n lo hi (upd dst (to + j) src.[from + j]).
Proof.
  intros [Hl Hm] Hj Hlo. split; [by rewrite zlen_upd|]. intros i Hi. destruct (decide (i = j)) as [->|Hne]; [by rewrite aget_upd_eq by lia|].
  rewrite aget_upd_ne by lia. by apply Hm.
Qed.

Lemma moved_last src from to n lo hi dst :
  moved src from to n lo hi dst -> 0 <= to + hi < n -> 0 <= to + lo -> moved src from to n lo (hi + 1) (upd dst (to + hi) src.[from + hi]).
Proof.
  intros H Hj Hlo. destruct (moved_put src from to n lo hi dst hi H Hj Hlo) as [Hl Hm]. split; [done|]. intros i Hi.
  destruct (decide (i = hi)) as [->|Hne]; [|apply Hm; lia]. destruct H as [H _]. by rewrite aget_upd_eq by lia.
Qed.

Lemma copy_unit_ok src from to n i hi dst :
  0 <= from -> 0 <= to -> 0 <= i -> (i + 1) * unit_size <= hi -> from + hi <= zlen src -> to + hi <= n ->
  moved src from to n ((i + 1) * unit_size) hi dst -> wp (copy_unit src from to i dst) (moved src from to n (i * unit_size) hi).
Proof.
  intros Hf Ht Hi Hh Hs Hn Hm. unfold copy_unit.
  apply (wp_for_up (fun j d => moved src from to n ((i + 1) * unit_size) hi d /\ moved src from to n (i * unit_size) (i * unit_size + j) d)).
  - split; [done|]. destruct Hm as [Hl _]. split; [done|]. lia.
  - intros j d Hj [M1 M2]. assert (0 <= i * unit_size) by nia. assert (i * unit_size + unit_size = (i + 1) * unit_size) by lia.
    apply wp_bind, wp_rd; [lia|]. destruct M1 as [Hl M1]. apply wp_wr; [lia|]. split.
    + rewrite <- !Z.add_assoc. apply moved_put; [done|lia|lia].
    + replace (i * unit_size + (j + 1)) with (i * unit_size + j + 1) by lia. rewrite <- !(Z.add_assoc _ (i * unit_size)). apply moved_last; [done|lia|lia].
  - intros d [[Hl M1] [_ M2]]. split; [done|]. rewrite Z.max_r in M2 by lia. intros j Hj. destruct (Z.ltb_spec j ((i + 1) * unit_size)); [apply M2; lia|apply M1; lia].
Qed.

Lemma move_object_ok mask obj_size src from to dst :
  0 <= obj_size -> 0 <= from -> 0 <= to -> from + obj_size <= zlen src -> to + obj_size <= zlen dst ->
  wp (move_object mask obj_size src from to dst) (moved src from to (zlen dst) 0 obj_size).
Proof.
  intros Ho Hf Ht Hs Hd. unfold move_object. apply wp_bind. set (q := obj_size / unit_size).
  assert (0 <= q /\ q * unit_size <= obj_size) as [Hq Hq'] by (unfold q; split; [by apply Z.div_pos|rewrite Z.mul_comm; by apply Z.mul_div_le]).
  assert (0 <= q * unit_size) as Hq0 by nia.
  assert (forall lo d, 0 <= lo <= obj_size -> moved src from to (zlen dst) 0 lo d -> wp (for_up lo obj_size (copy_byte src from to) d) (moved src from to (zlen dst) 0 obj_size)) as Hbytes.
  { intros lo d Hlo Hm. apply (wp_for_up (fun i d => moved src from to (zlen dst) 0 i d)); [done| |].
    - intros i d' Hi M. unfold copy_byte. apply wp_bind, wp_rd; [lia|]. apply wp_wr; [destruct M; lia|]. apply moved_last; [done|lia|lia].
    - intros d' M. by rewrite Z.max_r in M by lia. }
  destruct (DEFAULT_ALIGNMENT <=? mask + 1).
  - apply wp_bind. apply (wp_for_down (fun i d => moved src from to (zlen dst) ((i + 1) * unit_size) (q * unit_size) d)).
    + split; [done|]. lia.
    + intros i d Hi M. replace (i - 1 + 1) with i by lia. apply copy_unit_ok; try lia; [nia|done].
    + intros d M. apply wp_Ok, Hbytes; [lia|]. rewrite Z.min_r in M by lia. by replace ((0 - 1 + 1) * unit_size) with 0 in M by lia.
  - apply wp_Ok, Hbytes; [lia|]. split; [done|]. lia.
Qed.

(** A slice of a block, from its cells. *)
Lemma slice_cells (l : list (option Z)) (b : Z) (obj : list Z) :
  0 <= b -> b + zlen obj <= zlen l -> (forall j, 0 <= j < zlen obj -> l.[b + j] = Some obj.[j]) ->
  exists pre junk, l = pre ++ map Some obj ++ junk /\ zlen pre = b.
Proof.
  intros Hb Hl Hj. destruct (zlen_split b l) as (pre & rest & -> & Hpre & Hrest); [pose proof (zlen_nonneg obj); lia|].
  rewrite zlen_app in *. destruct (zlen_split (zlen obj) rest) as (mid & junk & -> & Hmid & _); [pose proof (zlen_nonneg obj); lia|].
  exists pre, junk. split; [|done]. f_equal. f_equal. apply aget_ext; [by rewrite zlen_map|]. intros i Hi. rewrite Hmid in Hi.
  rewrite aget_map by lia. rewrite <- Hj by lia. rewrite aget_app_r, aget_app_l by lia. f_equal. lia.
Qed.

Lemma slice_get (pre : list (option Z)) (obj : list Z) junk j : 0 <= j < zlen obj -> (pre ++ map Some obj ++ junk).[zlen pre + j] = Some obj.[j].
Proof.
  intros Hj. rewrite aget_app_r by lia. replace (zlen pre + j - zlen pre) with j by lia.
  rewrite aget_app_l by (rewrite zlen_map; lia). by rewrite aget_map.
Qed.

(** A new chunk holds the object, with room for one more byte. *)
Lemma obstack_newchunk_ok hp h obj :
  obstack_ok hp h obj -> zlen obj < 2 ^ 60 ->
  wp (obstack_newchunk hp h 1) (fun '(hp', h') => obstack_ok hp' h' obj /\ next_free h' + 1 <= chunk_limit h').
Proof.
  intros (k & pre & junk & Hk & Hb & Hpre & Hnf & Hlim & Hmask) Hlen. unfold obstack_newchunk. cbv zeta.
  rewrite Hnf. replace (object_base h + zlen obj - object_base h) with (zlen obj) by lia.
  pose proof (zlen_nonneg obj) as Ho. pose proof (zlen_nonneg pre) as Hp0. assert (0 <= Z.shiftr (zlen obj) 3 <= zlen obj) as Hsh by (rewrite Z.shiftr_div_pow2 by lia; change (2 ^ 3) with 8; div_lia).
  change (2 ^ 60) with 1152921504606846976 in Hlen.
  do 4 (apply wp_bind, wp_long; [unfold is_long, LONG_MIN, LONG_MAX; lia|]).
  set (n := zlen obj + 1 + Z.shiftr (zlen obj) 3 + alignment_mask h + 100). set (size := if n <? chunk_size h then chunk_size h else n).
  assert (n <= size) as Hsize by (unfold size; destruct (Z.ltb_spec n (chunk_size h)); lia).
  unfold call_chunkfun. destruct (Hsupply hp size) as (b & -> & Hfresh). apply wp_bind, wp_Ok.
  unfold load. rewrite Hk. apply wp_bind, wp_Ok. apply wp_bind. pose proof (Halign CONTENTS (alignment_mask h) ltac:(lia)) as Ha.
  set (base := align CONTENTS (alignment_mask h)) in *. unfold CONTENTS in Ha.
  assert (zlen (uninit size) = size) as Hu by (apply zlen_replicate; lia).
  eapply wp_mono; [apply move_object_ok; [lia|lia|lia| |lia]|].
  { rewrite Hb, !zlen_app, zlen_map. pose proof (zlen_nonneg junk). lia. }
  intros cells [Hc Hm]. apply wp_Ok. split; [|cbn [next_free chunk_limit]; unfold n in *; lia].
  destruct (slice_cells cells base obj) as (pre' & junk' & Hcells & Hpre'); [lia|lia| |].
  { intros j Hj. rewrite Hm by lia. rewrite Hb, <- Hpre. by apply slice_get. }
  assert (b <> chunk h) as Hne by (intros ->; congruence). set (only := negb (maybe_empty_object h) && (object_base h =? base)).
  exists (Chunk (if only then prev k else Some (chunk h)) size cells), pre', junk'. cbn [chunk_bytes chunk object_base next_free chunk_limit alignment_mask].
  split_and!; [|done|done|done|lia|lia|lia].
  clearbody only. destruct only; [etransitivity; [by apply lookup_delete_ne|]|]; apply lookup_insert_eq.
Qed.

(** One more byte. *)
Lemma obstack_1grow_ok hp h obj c :
  obstack_ok hp h obj -> zlen obj < 2 ^ 60 -> wp (obstack_1grow hp h c) (fun '(hp', h') => obstack_ok hp' h' (obj ++ [c])).
Proof.
  intros Hok Hlen. unfold obstack_1grow. apply wp_bind.
  assert (wp (if chunk_limit h <? next_free h + 1 then obstack_newchunk hp h 1 else Ok (hp, h))
    (fun '(hp', h') => obstack_ok hp' h' obj /\ next_free h' + 1 <= chunk_limit h')) as Hw.
  { destruct (Z.ltb_spec (chunk_limit h) (next_free h + 1)); [by apply obstack_newchunk_ok|]. by apply wp_Ok. }
  eapply wp_mono; [exact Hw|]. intros [hp' h'] [(k & pre & junk & Hk & Hb & Hpre & Hnf & Hlim & Hmask) Hroom]. unfold obstack_1grow_fast, load. rewrite Hk.
  apply wp_bind, wp_Ok. destruct junk as [|x junk].
  { rewrite Hb, app_nil_r, zlen_app, zlen_map in Hlim. lia. }
  rewrite Hb, app_assoc, (wr_middle (pre ++ map Some obj)) by (rewrite zlen_app, zlen_map; lia). apply wp_bind, wp_Ok, wp_Ok.
  exists (Chunk (prev k) (limit k) (pre ++ map Some (obj ++ [c]) ++ junk)), pre, junk. cbn [chunk object_base next_free chunk_limit alignment_mask chunk_bytes].
  assert ((pre ++ map Some obj) ++ Some c :: junk = pre ++ map Some (obj ++ [c]) ++ junk) as -> by (by rewrite map_app, <- !app_assoc).
  split_and!; [apply lookup_insert_eq|done|done|rewrite zlen_snoc; lia| |lia|lia].
  rewrite <- Hlim, Hb, !zlen_app, !zlen_cons, !zlen_map, zlen_snoc. lia.
Qed.

Lemma obstack_init_ok hp : wp (obstack_begin hp 0 0) (fun '(hp', h') => obstack_ok hp' h' []).
Proof.
  unfold obstack_begin. cbn [Z.eqb]. change (4096 - extra) with 4064. unfold call_chunkfun.
  destruct (Hsupply hp 4064) as (b & -> & _). apply wp_bind, wp_Ok, wp_Ok. pose proof (Halign CONTENTS (DEFAULT_ALIGNMENT - 1) ltac:(done)) as Ha.
  change (DEFAULT_ALIGNMENT - 1) with 15 in *. set (base := align CONTENTS 15) in *. unfold CONTENTS in Ha.
  destruct (slice_cells (uninit 4064) base []) as (pre & junk & Hc & Hpre); [lia|change (zlen (uninit 4064)) with 4064; change (zlen []) with 0; lia|change (zlen []) with 0; lia|].
  eexists (Chunk None 4064 (uninit 4064)), pre, junk. cbn [chunk_bytes chunk object_base next_free chunk_limit alignment_mask]. split_and!; [apply lookup_insert_eq|done|done|change (zlen []) with 0; lia|done|done|done].
Qed.
End obstack.

(** ** What a client relies on *)

(** A state with one growing object; [object_of s obj]: the object holds [obj];
    [read_object s n]: its first [n] bytes. *)
Class GrowingObject (S : Type) := {
  grow1 : S -> Z -> res S;
  object_size : S -> Z;
  read_object : S -> Z -> res (list Z);
  object_of : S -> list Z -> Prop;
  grow1_ok : forall s obj c, object_of s obj -> zlen obj < 2 ^ 60 -> wp (grow1 s c) (fun s' => object_of s' (obj ++ [c]));
  object_size_ok : forall s obj, object_of s obj -> object_size s = u32 (zlen obj);
  read_object_ok : forall s obj n, object_of s obj -> 0 <= n <= zlen obj -> read_object s n = Ok (take (Z.to_nat n) obj)
}.

(** Growing by several bytes. *)
Fixpoint grow {S} `{GrowingObject S} (s : S) (cs : list Z) : res S :=
  match cs with [] => Ok s | c :: cs => let* s := grow1 s c in grow s cs end.

Lemma object_grow_ok {S} `{GrowingObject S} cs : forall (s : S) obj, object_of s obj -> zlen obj + zlen cs <= 2 ^ 60 -> wp (grow s cs) (fun s' => object_of s' (obj ++ cs)).
Proof.
  induction cs as [|c cs IH]; intros s obj Hs Hl; cbn [grow]; [rewrite app_nil_r; by apply wp_Ok|]. rewrite zlen_cons in Hl. pose proof (zlen_nonneg cs).
  apply wp_bind. eapply wp_mono; [apply grow1_ok; [done|lia]|]. intros s' Hs'. rewrite (cons_middle c obj), app_assoc. apply IH; [done|]. rewrite zlen_snoc. lia.
Qed.

Lemma grow_app {S} `{GrowingObject S} (s : S) a b : grow s (a ++ b) = let* s := grow s a in grow s b.
Proof. revert s. induction a as [|c a IH]; intros s; [done|]. cbn [app grow]. rewrite bind_assoc. destruct (grow1 s c); cbn [bind]; [apply IH|done]. Qed.

Section instance.
Context (chunkfun : heap -> Z -> option Z) (align : Z -> Z -> Z) (unit_size : Z).
Context (Halign : forall p mask, 0 <= mask -> p <= align p mask <= p + mask).
Context (Hunit : 0 < unit_size).
Context (Hsupply : forall hp n, exists b, chunkfun hp n = Some b /\ hp !! b = None).

Lemma obstack_grows (s : heap * obstack) obj c :
  obstack_ok s.1 s.2 obj -> zlen obj < 2 ^ 60 ->
  wp (obstack_1grow chunkfun align unit_size s.1 s.2 c) (fun s' => obstack_ok s'.1 s'.2 (obj ++ [c])).
Proof.
  intros Hs Hl. eapply wp_mono; [by apply obstack_1grow_ok|]. by intros [hp h].
Qed.

Lemma obstack_size (s : heap * obstack) obj : obstack_ok s.1 s.2 obj -> obstack_object_size s.2 = u32 (zlen obj).
Proof. intros (k & pre & junk & Hk & Hb & Hpre & Hnf & Hlim & Hmask). unfold obstack_object_size. rewrite Hnf. f_equal. lia. Qed.

(** The bytes that a pointer to the object leads to. *)
Definition obstack_read (s : heap * obstack) (n : Z) : res (list Z) :=
  let* k := load s.1 (chunk s.2) in
  let* _ := demand (object_base s.2 + n <=? zlen (chunk_bytes k)) OutOfBounds in
  contents (take (Z.to_nat n) (drop (Z.to_nat (object_base s.2)) (chunk_bytes k))).

Lemma obstack_read_ok (s : heap * obstack) obj n : obstack_ok s.1 s.2 obj -> 0 <= n <= zlen obj -> obstack_read s n = Ok (take (Z.to_nat n) obj).
Proof.
  intros (k & pre & junk & Hk & Hb & Hpre & Hnf & Hlim & Hmask) Hn. unfold obstack_read, load. rewrite Hk. cbn [bind].
  rewrite Hb, !zlen_app, zlen_map. pose proof (zlen_nonneg junk). unfold demand. rewrite (proj2 (Z.leb_le _ _)) by lia. cbn [bind].
  rewrite <- Hpre. unfold zlen in *. rewrite Nat2Z.id, drop_app_length, take_app_le, <- fmap_take by (rewrite length_map; lia). apply contents_Some.
Qed.

#[export] Instance obstack_object : GrowingObject (heap * obstack) := {
  grow1 s c := obstack_1grow chunkfun align unit_size s.1 s.2 c;
  object_size s := obstack_object_size s.2;
  read_object := obstack_read;
  object_of s obj := obstack_ok s.1 s.2 obj;
  grow1_ok := obstack_grows;
  object_size_ok := obstack_size;
  read_object_ok := obstack_read_ok }.
End instance.

(** C26. An object stack holds what was put into it: for every allocation function
    that gives fresh chunks, every way of aligning and every copying unit,
    starting an object stack and growing its object by any bytes (up to 2^60)
    returns; each byte is stored inside the current chunk, chunks that are too
    small are replaced by larger ones to which the object is moved intact, and
    the bytes from object_base to next_free are the ones that were put in. *)
Theorem obstack_holds_object chunkfun align unit_size hp cs :
  (forall p mask, 0 <= mask -> p <= align p mask <= p + mask) -> 0 < unit_size ->
  (forall hp n, exists b, chunkfun hp n = Some b /\ hp !! b = None) -> zlen cs <= 2 ^ 60 ->
  wp (let* (hp, h) := obstack_begin chunkfun align hp 0 0 in
      foldl (fun r c => let* (hp, h) := r in obstack_1grow chunkfun align unit_size hp h c) (Ok (hp, h)) cs)
    (fun '(hp, h) => obstack_ok hp h cs /\ obstack_object_size h = u32 (zlen cs)).
Proof.
  intros Ha Hu Hs Hl. apply wp_bind. eapply wp_mono; [by apply obstack_init_ok|]. intros [hp0 h0] H0.
  assert (forall cs r, foldl (fun r c => let* (hp, h) := r in obstack_1grow chunkfun align unit_size hp h c) r cs =
    let* s := r in @grow _ (obstack_object chunkfun align unit_size Ha Hu Hs) s cs) as Hfold.
  { clear. induction cs as [|c cs IH]; intros r; cbn [foldl grow]; [symmetry; apply bind_Ok_r|]. rewrite IH, bind_assoc. by destruct r as [[hp h]|]. }
  rewrite Hfold. cbn [bind]. eapply wp_mono; [eapply (@object_grow_ok _ (obstack_object chunkfun align unit_size Ha Hu Hs)); [exact H0|change (zlen []) with 0; lia]|].
  intros [hp1 h1] (k & pre & junk & Hk & Hb & Hpre & Hnf & Hlim & Hmask). split; [by exists k, pre, junk|].
  unfold obstack_object_size. cbn [fst snd] in *. rewrite Hnf. cbn [app]. f_equal. lia.
Qed.

(** A supply of fresh chunks. *)
Definition fresh_chunk (hp : heap) (n : Z) : option Z := Some (fresh (dom hp)).

Lemma fresh_chunk_ok hp n : exists b, fresh_chunk hp n = Some b /\ hp !! b = None.
Proof. exists (fresh (dom hp)). split; [done|]. apply not_elem_of_dom, is_fresh. Qed.

Lemma obstack_holds_object_witness :
  let cs := replicate 5000 65 in
  wp (let* (hp, h) := obstack_begin fresh_chunk Z.add ∅ 0 0 in
      foldl (fun r c => let* (hp, h) := r in obstack_1grow fresh_chunk Z.add 8 hp h c) (Ok (hp, h)) cs)
    (fun '(hp, h) => obstack_ok hp h cs /\ obstack_object_size h = u32 (zlen cs)).
Proof.
  apply (obstack_holds_object fresh_chunk Z.add 8 ∅ (replicate 5000 65)); [lia|lia|apply fresh_chunk_ok|].
  change (zlen (replicate 5000 65)) with 5000. lia.
Defined.

(** A refused chunk ends the program. *)
Lemma newchunk_refused align unit_size hp h :
  obstack_ok hp h [] -> obstack_newchunk (fun _ _ => None) align unit_size hp h 1 = Fail (ExitCall 1).
Proof.
  intros (k & pre & junk & _ & _ & _ & Hnf & _ & Hmask). unfold obstack_newchunk. cbv zeta. rewrite Hnf. change (zlen []) with 0.
  replace (object_base h + 0 - object_base h) with 0 by lia. change (0 + 1) with 1. change (Z.shiftr 0 3) with 0. unfold long.
  do 4 (rewrite !(proj2 (Z.leb_le _ _)) by (unfold LONG_MIN, LONG_MAX; lia); cbn [andb bind]). done.
Qed.
