(* ===== verification/Dircolors.v ===== *)
(** * Colours for ls: utils/coreutils/src/dircolors.c and dircolors.h

    dircolors reads lines "KEYWORD argument" and prints a shell command that sets
    a variable to their translation, which it gathers in an object stack
    ([GrowingObject] of Obstack.v).  C strings are NUL-free lists; a pointer into
    one is an index into [cstr] of it. *)

From S2P Require Import Prelude Arrays CStrings FileNames Obstack.
Open Scope Z_scope.

(** ** Words of a line *)






(** ** Comparison without case *)




(** ** Keywords *)





(** ** Quoting *)

Section dircolors.
Context {S : Type} `{GrowingObject S}.



(** ** The lines of a file *)









(** ** Files *)






(** ** The command *)

Inductive Shell_syntax := SHELL_SYNTAX_BOURNE | SHELL_SYNTAX_C | SHELL_SYNTAX_UNKNOWN.

#[global] Instance syntax_eq_dec : EqDecision Shell_syntax.
Proof. solve_decision. Defined.




End dircolors.

(** ** The words of a line, as lists *)



















(** ** Words without case *)








(** ** What a line says *)




(** *** Sections *)









(** ** The text of an entry *)



Section gathering.
Context {S : Type} `{GrowingObject S}.
Implicit Types (s : S).














End gathering.

(** ** Lines of a file *)








(** ** The output determines the entries

    Inverses of the two layers of append_quoted. *)







(** *** The two layers of quoting *)











(** *** Splitting *)







(** *** Injectivity *)






(** ** Properties *)



Lemma example_align p mask : 0 <= mask -> p <= p + mask <= p + mask.
Proof. lia. Qed.

#[local] Instance example_stack : GrowingObject (heap * obstack) := obstack_object fresh_chunk Z.add 8 example_align eq_refl fresh_chunk_ok.

