(* ===== verification/Savewd.v ===== *)
(** * The saved working directory: utils/coreutils/lib/savewd.c

    The state machine that lets a command work in other directories and come
    back, with the system calls on an explicit state: the working directory, the
    open directories, and the answers the system gives.  Directories are numbers;
    what a name leads to is an argument.  The class [WdClient] is what
    savewd_process_files asks of its callback; the callback of mkdir meets it in
    MkDirs.v. *)

From S2P Require Import Prelude Arrays CStrings FileNames.
Open Scope Z_scope.

(** ** The system *)

(** Each call takes the next answer: 0 is success, a failure is an errno, and
    for fork the process number.  After the answers all calls succeed. *)
Record world := World { cwd : Z; open_dirs : gmap Z Z; answers : list Z }.

Definition choose (w : world) : Z * world :=
  match answers w with [] => (0, w) | a :: l => (a, World (cwd w) (open_dirs w) l) end.

Definition EBADF : Z := 9.
Definition EACCES : Z := 13.
Definition ESTALE : Z := 116.

(** ** The object *)

(** struct savewd: the states with the member of [val] each of them uses. *)
Inductive savewd :=
  | INITIAL_STATE
  | FD_STATE (fd : Z)
  | FD_POST_CHDIR_STATE (fd : Z)
  | FORKING_STATE (child : Z)
  | ERROR_STATE (errnum : Z)
  | FINAL_STATE.

Definition SAVEWD_CHDIR_NOFOLLOW : Z := 1.
Definition SAVEWD_CHDIR_READABLE : Z := 2.
Definition SAVEWD_CHDIR_SKIP_READABLE : Z := 4.
Definition option_set (options flag : Z) : bool := negb (Z.land options flag =? 0).

(** How a process ends inside these functions. *)
Inductive ended := Exited (code : Z) | Signaled (sig : Z).

Section savewd.
Variable resolve : Z -> list Z -> Z.

(** A new descriptor for a directory, or an errno. *)
Definition open_dir (w : world) (dir : Z) : (Z + Z) * world :=
  let '(a, w) := choose w in
  if a =? 0 then let fd := Z.of_nat (fresh (set_map Z.to_nat (dom (open_dirs w)) : gset nat)) in (inl fd, World (cwd w) (<[fd := dir]> (open_dirs w)) (answers w))
  else (inr a, w).

Definition chdir (w : world) (dir : list Z) : Z * world :=
  let '(a, w) := choose w in
  if a =? 0 then (0, World (resolve (cwd w) dir) (open_dirs w) (answers w)) else (a, w).

(** 0 or an errno. *)
Definition fchdir (w : world) (fd : Z) : Z * world :=
  let '(a, w) := choose w in
  if a =? 0 then match open_dirs w !! fd with Some d => (0, World d (open_dirs w) (answers w)) | None => (EBADF, w) end else (a, w).

Definition close (w : world) (fd : Z) : world := World (cwd w) (delete fd (open_dirs w)) (answers w).

Definition savewd_finish (wd : savewd) (w : world) : res (savewd * world) :=
  match wd with
  | INITIAL_STATE | ERROR_STATE _ => Ok (FINAL_STATE, w)
  | FD_STATE fd | FD_POST_CHDIR_STATE fd => Ok (FINAL_STATE, close w fd)
  | FORKING_STATE child => let* _ := demand (child <? 0) AssertFail in Ok (FINAL_STATE, w)
  | FINAL_STATE => Fail AssertFail
  end.

(** The case FORKING_STATE. *)
Definition save_forking (child : Z) (w : world) : savewd * world * bool :=
  if child <? 0 then
    let '(pid, w) := choose w in
    if pid =? 0 then (FORKING_STATE 0, w, false)
    else if 0 <? pid then (FORKING_STATE pid, w, true)
    else (ERROR_STATE (- pid), w, false)
  else (FORKING_STATE child, w, false).

(** True: a child does the work. *)
Definition savewd_save (wd : savewd) (w : world) : savewd * world * bool :=
  match wd with
  | INITIAL_STATE =>
      let '(r, w) := open_dir w (cwd w) in
      match r with
      | inl fd => (FD_STATE fd, w, false)
      | inr e => if negb (e =? EACCES) && negb (e =? ESTALE) then (ERROR_STATE e, w, false) else save_forking (-1) w
      end
  | FORKING_STATE child => save_forking child w
  | wd => (wd, w, false)
  end.

(** After a successful chdir. *)
Definition post_chdir (wd : savewd) : res savewd :=
  match wd with
  | FD_STATE fd => Ok (FD_POST_CHDIR_STATE fd)
  | ERROR_STATE _ | FD_POST_CHDIR_STATE _ | FINAL_STATE => Ok wd
  | FORKING_STATE child => let* _ := demand (child =? 0) AssertFail in Ok wd
  | INITIAL_STATE => Fail AssertFail
  end.

(** [open_result]: whether it is given; its descriptor is the last component of
    the result, after 0, -1, or -2 in the parent of a child that does the work. *)
Definition savewd_chdir (wd : savewd) (dir : list Z) (options : Z) (open_result : bool) (w : world) : res (savewd * world * Z * Z) :=
  let* (fd, result, w) :=
    if open_result || option_set options SAVEWD_CHDIR_NOFOLLOW then
      let '(r, w) := open_dir w (resolve (cwd w) dir) in
      match r with
      | inl fd => Ok (fd, 0, w)
      | inr e => Ok (-1, (if negb (e =? EACCES) || option_set options SAVEWD_CHDIR_READABLE then -1 else 0), w)
      end
    else Ok (-1, 0, w) in
  let* (wd, w, result, open_result) :=
    if (result =? 0) && negb ((0 <=? fd) && option_set options SAVEWD_CHDIR_SKIP_READABLE) then
      let '(wd, w, delegated) := savewd_save wd w in
      if delegated then Ok (wd, w, -2, false)
      else
        let '(e, w) := (if fd <? 0 then chdir w dir else fchdir w fd) in
        if e =? 0 then let* wd := post_chdir wd in Ok (wd, w, 0, open_result) else Ok (wd, w, -1, open_result)
    else Ok (wd, w, result, open_result) in
  Ok (wd, (if (0 <=? fd) && negb open_result then close w fd else w), result, fd).

(** [while (waitpid(child, &child_status, 0) < 0)]: waiting for an existing child
    fails only when it is interrupted.  The answer after that is the status of the
    child: below 256 an exit code, otherwise 256 plus a signal. *)
Definition wait_turn (w : world) : res (world + Z * world) :=
  let '(a, w) := choose w in
  if a =? 0 then let '(status, w) := choose w in Ok (inr (status, w)) else Ok (inl w).

(** The return value, or the end of the process. *)
Definition savewd_restore (wd : savewd) (status : Z) (w : world) : res (savewd * world * Z + ended) :=
  match wd with
  | INITIAL_STATE | FD_STATE _ => Ok (inl (wd, w, 0))
  | FD_POST_CHDIR_STATE fd =>
      let '(e, w) := fchdir w fd in
      if e =? 0 then Ok (inl (FD_STATE fd, w, 0)) else Ok (inl (ERROR_STATE e, close w fd, -1))
  | ERROR_STATE _ => Ok (inl (wd, w, -1))
  | FORKING_STATE child =>
      if child =? 0 then Ok (inr (Exited status))
      else if 0 <? child then
        let* (child_status, w) := loop (S (length (answers w))) wait_turn w in
        if child_status <? 256 then Ok (inl (FORKING_STATE (-1), w, child_status)) else Ok (inr (Signaled (child_status - 256)))
      else Ok (inl (wd, w, 0))
  | FINAL_STATE => Fail AssertFail
  end.

Definition savewd_delegating (wd : savewd) : bool := match wd with FORKING_STATE child => 0 <? child | _ => false end.

(** ** Acting on files *)

Definition IS_ABSOLUTE (file : list Z) : bool := ISSLASH (head_char file).

(** What happens: the callback is called for a file, in a directory, or a child is
    left to do that, or the directory is restored, with this result. *)
Inductive event := Acted (file : list Z) (dir : Z) | Delegated (file : list Z) | Restored (result : Z).

Variable act : list Z -> savewd -> world -> res (Z * savewd * world).

(** The largest index of a relative name, or -1. *)
Fixpoint last_relative (files : list (list Z)) : Z :=
  match files with
  | [] => -1
  | f :: files => let n := last_relative files in if 0 <=? n then n + 1 else if IS_ABSOLUTE f then -1 else 0
  end.

Record progress := Progress { p_wd : savewd; p_world : world; p_status : Z; p_events : list event }.

Definition act_on (file : list Z) (p : progress) : res progress :=
  let* (s, wd, w) := act file (p_wd p) (p_world p) in
  Ok (Progress wd w (if p_status p <? s then s else p_status p) (p_events p ++ [Acted file (cwd (p_world p))])).

Definition head_of (files : list (list Z)) : list Z := match files with f :: _ => f | [] => [] end.

(** [for (; i < last_relative; i++)] over the [n] first files. *)
Fixpoint first_files (n : nat) (files : list (list Z)) (p : progress) : res (progress * list (list Z) + ended * list event) :=
  match n, files with
  | S n, file :: files =>
      let* p := (if savewd_delegating (p_wd p) then Ok (Progress (p_wd p) (p_world p) (p_status p) (p_events p ++ [Delegated file])) else act_on file p) in
      let* r := (if IS_ABSOLUTE (head_of files) then Ok (inl p)
                 else
                   let* r := savewd_restore (p_wd p) (p_status p) (p_world p) in
                   match r with
                   | inl (wd, w, r) => Ok (inl (Progress wd w (if p_status p <? r then r else p_status p) (p_events p ++ [Restored r])))
                   | inr e => Ok (inr (e, p_events p))
                   end) in
      match r with inl p => first_files n files p | inr e => Ok (inr e) end
  | _, _ => Ok (inl (p, files))
  end.

Fixpoint other_files (files : list (list Z)) (p : progress) : res progress :=
  match files with [] => Ok p | file :: files => let* p := act_on file p in other_files files p end.

(** The exit status, or the end of the process before that, with the events. *)
Definition savewd_process_files (files : list (list Z)) (w : world) : res (Z * list event + ended * list event) :=
  let* r := first_files (Z.to_nat (last_relative files)) files (Progress INITIAL_STATE w 0 []) in
  match r with
  | inr e => Ok (inr e)
  | inl (p, rest) =>
      let* (wd, w) := savewd_finish (p_wd p) (p_world p) in
      let* p := other_files rest (Progress wd w (p_status p) (p_events p)) in
      Ok (inl (p_status p, p_events p))
  end.
End savewd.

(** ** The invariant *)

(** Where the process is, when it started in the directory [d0]. *)
Definition located (d0 : Z) (wd : savewd) (w : world) : Prop :=
  match wd with
  | INITIAL_STATE => cwd w = d0
  | FD_STATE fd => open_dirs w !! fd = Some d0 /\ cwd w = d0
  | FD_POST_CHDIR_STATE fd => open_dirs w !! fd = Some d0
  | FORKING_STATE child => child = 0 \/ cwd w = d0
  | ERROR_STATE _ | FINAL_STATE => True
  end.

(** The states in which the process is where it started. *)
Definition at_home (wd : savewd) : Prop :=
  match wd with INITIAL_STATE | FD_STATE _ => True | FORKING_STATE child => child < 0 | ERROR_STATE _ | FD_POST_CHDIR_STATE _ | FINAL_STATE => False end.

Lemma choose_same w : cwd (choose w).2 = cwd w /\ open_dirs (choose w).2 = open_dirs w.
Proof. unfold choose. by destruct (answers w). Qed.

Ltac choose_answer w := let H1 := fresh in let H2 := fresh in destruct (choose_same w) as [H1 H2]; destruct (choose w) as [? ?]; cbn [fst snd] in H1, H2.

Lemma open_dir_spec w dir : match open_dir w dir with
  | (inl fd, w') => 0 <= fd /\ open_dirs w !! fd = None /\ open_dirs w' = <[fd := dir]> (open_dirs w) /\ cwd w' = cwd w
  | (inr e, w') => open_dirs w' = open_dirs w /\ cwd w' = cwd w
  end.
Proof.
  unfold open_dir. choose_answer w. destruct (_ =? 0); [|done]. cbn [open_dirs cwd]. set (n := fresh _).
  assert (open_dirs w0 !! Z.of_nat n = None) as Hn.
  { apply not_elem_of_dom. intros Hin. apply (is_fresh (set_map Z.to_nat (dom (open_dirs w0)) : gset nat)). apply elem_of_map. exists (Z.of_nat n). by rewrite Nat2Z.id. }
  rewrite <- H0. split_and!; [lia|done|done|done].
Qed.

Lemma chdir_dirs resolve w dir : open_dirs (chdir resolve w dir).2 = open_dirs w.
Proof. unfold chdir. choose_answer w. by destruct (_ =? 0). Qed.

Lemma fchdir_spec w fd : open_dirs (fchdir w fd).2 = open_dirs w /\ ((fchdir w fd).1 = 0 -> open_dirs w !! fd = Some (cwd (fchdir w fd).2)).
Proof.
  unfold fchdir. choose_answer w. destruct (Z.eqb_spec z 0) as [E|E]; [|done]. rewrite <- H0. destruct (open_dirs w0 !! fd); [done|]. cbn. split; [done|]. unfold EBADF. lia.
Qed.

Definition saved_fd (wd : savewd) : option Z := match wd with FD_STATE fd | FD_POST_CHDIR_STATE fd => Some fd | _ => None end.

(** The descriptors that were open stay what they were. *)
Definition keeps (w w' : world) : Prop := open_dirs w ⊆ open_dirs w'.

(** The saved descriptor is the old one or a new one. *)
Definition fresh_save (wd : savewd) (w : world) (wd' : savewd) : Prop :=
  saved_fd wd' = saved_fd wd \/ forall fd, saved_fd wd' = Some fd -> open_dirs w !! fd = None.

Lemma save_forking_spec d0 child w : cwd w = d0 \/ child = 0 -> child <= 0 ->
  let '(wd', w', delegated) := save_forking child w in
  located d0 wd' w' /\ delegated = savewd_delegating wd' /\ open_dirs w' = open_dirs w /\ cwd w' = cwd w /\ saved_fd wd' = None /\
  match wd' with FORKING_STATE c => 0 <= c | ERROR_STATE _ => True | _ => False end.
Proof.
  intros Hc Hle. unfold save_forking. destruct (Z.ltb_spec child 0); [|assert (child = 0) as -> by lia; cbn; split_and!; auto; lia].
  destruct Hc as [Hc|]; [|lia]. choose_answer w. destruct (Z.eqb_spec z 0) as [->|]; [cbn; split_and!; auto; lia|].
  destruct (Z.ltb_spec 0 z) as [Hz|]; [|cbn; split_and!; auto]. cbn [located savewd_delegating saved_fd]. rewrite (proj2 (Z.ltb_lt 0 z)) by lia.
  split_and!; auto; [right; congruence|lia].
Qed.

(** After saving, the state is one in which chdir may be called, or a child does
    the work. *)
Lemma savewd_save_spec d0 wd w : located d0 wd w -> savewd_delegating wd = false ->
  let '(wd', w', delegated) := savewd_save wd w in
  located d0 wd' w' /\ delegated = savewd_delegating wd' /\ cwd w' = cwd w /\ keeps w w' /\ fresh_save wd w wd' /\
  match wd' with INITIAL_STATE => False | FORKING_STATE c => 0 <= c | _ => True end.
Proof.
  intros HI Hd. unfold keeps, fresh_save.
  destruct wd as [|fd|fd|child|e|]; cbn [savewd_save located savewd_delegating saved_fd] in *; try (destruct_and?; split_and!; auto; done).
  - pose proof (open_dir_spec w (cwd w)) as Ho. destruct (open_dir w (cwd w)) as [[fd|e] w1].
    + destruct Ho as (Hfd & Hn & Hdirs & Hc). cbn [located saved_fd savewd_delegating]. rewrite Hdirs, Hc.
      split_and!; [rewrite lookup_insert_eq; by f_equal|done|done|done|by apply insert_subseteq|right; by intros ? [= <-]|done].
    + destruct Ho as [Hdirs Hc]. destruct (negb (e =? EACCES) && negb (e =? ESTALE)); [cbn; rewrite Hdirs, Hc; split_and!; auto|].
      pose proof (save_forking_spec d0 (-1) w1 (or_introl (eq_trans Hc HI)) ltac:(lia)) as Hf. destruct (save_forking (-1) w1) as [[wd' w'] del].
      destruct Hf as (H1 & H2 & H3 & H4 & H5 & H6). rewrite H3, Hdirs, H5. split_and!; [done|done|congruence|done|by left|by destruct wd'].
  - pose proof (save_forking_spec d0 child w ltac:(tauto) ltac:(lia)) as Hf. destruct (save_forking child w) as [[wd' w'] del].
    destruct Hf as (H1 & H2 & H3 & H4 & H5 & H6). rewrite H3, H5. split_and!; [done|done|done|done|by left|by destruct wd'].
Qed.

(** Closing a descriptor other than the saved one. *)
Lemma located_close d0 wd w fd : located d0 wd w -> saved_fd wd <> Some fd -> located d0 wd (close w fd).
Proof.
  intros HI Hne. destruct wd as [|fd'|fd'|child|e|]; cbn [located close cwd open_dirs saved_fd] in *; try done;
    [destruct HI as [HI HI']; split; [|done]|]; (etransitivity; [apply lookup_delete_ne; congruence|done]).
Qed.

(** A successful chdir of any kind. *)
Lemma located_moved d0 wd w w' : located d0 wd w -> open_dirs w' = open_dirs w ->
  match wd with INITIAL_STATE => False | FORKING_STATE c => 0 <= c | _ => True end -> savewd_delegating wd = false ->
  wp (post_chdir wd) (fun wd' => located d0 wd' w' /\ savewd_delegating wd' = false /\ saved_fd wd' = saved_fd wd).
Proof.
  intros HI Hdirs Hk Hd. destruct wd as [|fd|fd|child|e|]; cbn [post_chdir located savewd_delegating saved_fd] in *; try done; try (apply wp_Ok; cbn; rewrite ?Hdirs; tauto).
  assert (child = 0) as -> by lia. cbn. auto.
Qed.

Lemma located_failed d0 wd w w' : located d0 wd w -> open_dirs w' = open_dirs w -> cwd w' = cwd w -> located d0 wd w'.
Proof. intros HI H1 H2. destruct wd; cbn [located] in *; rewrite ?H1, ?H2; done. Qed.

Lemma keeps_located d0 wd w w' : located d0 wd w -> keeps w w' -> cwd w' = cwd w -> located d0 wd w'.
Proof.
  intros HI Hk Hc. unfold keeps in Hk. destruct wd as [|fd|fd|child|e|]; cbn [located] in *; rewrite ?Hc; try done; [destruct HI; split; [|done]|]; by eapply lookup_weaken.
Qed.

(** What the part after the descriptor leaves. *)
Definition chdir_done (d0 : Z) (wd : savewd) (w : world) (r : savewd * world * Z * bool) : Prop :=
  let '(wd', w', result, _) := r in
  located d0 wd' w' /\ savewd_delegating wd' = (result =? -2) /\ fresh_save wd w wd'.

Lemma savewd_chdir_moves resolve d0 wd w fd dir open_result :
  located d0 wd w -> savewd_delegating wd = false ->
  wp (let '(wd, w, delegated) := savewd_save wd w in
      if delegated then Ok (wd, w, -2, false)
      else
        let '(e, w) := (if fd <? 0 then chdir resolve w dir else fchdir w fd) in
        if e =? 0 then let* wd := post_chdir wd in Ok (wd, w, 0, open_result) else Ok (wd, w, -1, open_result))
    (chdir_done d0 wd w).
Proof.
  intros HI Hd. pose proof (savewd_save_spec d0 wd w HI Hd) as Hs. destruct (savewd_save wd w) as [[wd1 w1] del].
  destruct Hs as (H1 & H2 & H3 & H4 & H5 & H6). destruct del; [apply wp_Ok; split_and!; [done|by rewrite <- H2|done]|].
  assert (exists e w2, (if fd <? 0 then chdir resolve w1 dir else fchdir w1 fd) = (e, w2) /\ open_dirs w2 = open_dirs w1 /\ (e <> 0 -> cwd w2 = cwd w1)) as (e & w2 & -> & Hdirs & Hfail).
  { destruct (fd <? 0).
    - unfold chdir. choose_answer w1. destruct (Z.eqb_spec z 0); eexists _, _; (split; [done|]); done.
    - unfold fchdir. choose_answer w1. destruct (Z.eqb_spec z 0); [destruct (open_dirs w0 !! fd)|]; eexists _, _; (split; [done|]); done. }
  destruct (Z.eqb_spec e 0) as [->|He].
  - apply wp_bind. eapply wp_mono; [by apply (located_moved d0 wd1 w1 w2)|]. intros wd2 (L1 & L2 & L3). apply wp_Ok. split_and!; [done|done|]. unfold fresh_save in *. by rewrite L3.
  - apply wp_Ok. split_and!; [by apply (located_failed d0 wd1 w1 w2); auto|by rewrite <- H2|done].
Qed.

(** savewd_chdir keeps the invariant, and its result tells whether a child does the
    work. *)
Lemma savewd_chdir_ok resolve d0 wd w dir options open_result :
  located d0 wd w -> savewd_delegating wd = false ->
  wp (savewd_chdir resolve wd dir options open_result w) (fun '(wd', w', result, fd) => located d0 wd' w' /\ savewd_delegating wd' = (result =? -2) /\ (0 <= fd -> saved_fd wd' <> Some fd)).
Proof.
  intros HI Hd. unfold savewd_chdir. apply wp_bind.
  assert (wp (if open_result || option_set options SAVEWD_CHDIR_NOFOLLOW then
      let '(r, w) := open_dir w (resolve (cwd w) dir) in
      match r with inl fd => Ok (fd, 0, w) | inr e => Ok (-1, (if negb (e =? EACCES) || option_set options SAVEWD_CHDIR_READABLE then -1 else 0), w) end
    else Ok (-1, 0, w)) (fun '(fd, result, w1) => located d0 wd w1 /\ (result = 0 \/ result = -1) /\ (0 <= fd -> saved_fd wd <> Some fd /\ is_Some (open_dirs w1 !! fd)))) as Hopen.
  { destruct (open_result || _); [|apply wp_Ok; split_and!; auto; lia]. pose proof (open_dir_spec w (resolve (cwd w) dir)) as Ho.
    destruct (open_dir w _) as [[fd|e] w1].
    - destruct Ho as (Hfd & Hn & Hdirs & Hc). apply wp_Ok. split_and!; [|auto|].
      + apply (keeps_located d0 wd w); [done| |done]. unfold keeps. rewrite Hdirs. by apply insert_subseteq.
      + intros _. split; [|rewrite Hdirs, lookup_insert_eq; by eexists]. intros E. destruct wd; cbn in *; try done; injection E as ->; destruct_and?; congruence.
    - destruct Ho as [Hdirs Hc]. apply wp_Ok. split_and!; [by apply (located_failed d0 wd w)| |lia]. destruct (negb (e =? EACCES) || _); auto. }
  eapply wp_mono; [exact Hopen|]. intros [[fd result] w1] (H1 & Hr & Hfd). apply wp_bind.
  assert (wp (if (result =? 0) && negb ((0 <=? fd) && option_set options SAVEWD_CHDIR_SKIP_READABLE) then
      let '(wd, w1, delegated) := savewd_save wd w1 in
      if delegated then Ok (wd, w1, -2, false)
      else
        let '(e, w1) := (if fd <? 0 then chdir resolve w1 dir else fchdir w1 fd) in
        if e =? 0 then let* wd := post_chdir wd in Ok (wd, w1, 0, open_result) else Ok (wd, w1, -1, open_result)
    else Ok (wd, w1, result, open_result)) (chdir_done d0 wd w1)) as Hmove.
  { destruct ((result =? 0) && _); [by apply savewd_chdir_moves|]. apply wp_Ok. split_and!; [done| |by left]. rewrite Hd. by destruct Hr as [-> | ->]. }
  eapply wp_mono; [exact Hmove|]. intros [[[wd2 w2] result2] or2] (L1 & L2 & L3). apply wp_Ok.
  assert (0 <= fd -> saved_fd wd2 <> Some fd) as Hother.
  { intros Hge. destruct (Hfd Hge) as [Hne [d Hopened]]. destruct L3 as [-> |Hfresh]; [done|]. intros E. apply Hfresh in E. congruence. }
  split_and!; [|done|done]. destruct (Z.leb_spec 0 fd) as [Hge|]; [|done]. destruct or2; [done|]. cbn [andb negb]. apply located_close; auto.
Qed.

(** Restoring: the process is at home, or in the error state. *)
Lemma wait_loop d0 : forall fuel w, cwd w = d0 -> (length (answers w) < fuel)%nat -> wp (loop fuel wait_turn w) (fun '(_, w') => cwd w' = d0).
Proof.
  induction fuel as [|fuel IH]; intros w Hc Hf; [lia|]. cbn [loop]. apply wp_bind. unfold wait_turn. destruct (choose_same w) as [Hc1 _].
  assert ((choose w).1 <> 0 -> (length (answers (choose w).2) < length (answers w))%nat) as Hlen by (unfold choose; destruct (answers w); cbn; [done|lia]).
  destruct (choose w) as [a w1]. cbn [fst snd] in *. destruct (Z.eqb_spec a 0) as [->|Ha].
  - destruct (choose_same w1) as [Hc2 _]. destruct (choose w1) as [s w2]. cbn [fst snd] in *. apply wp_Ok, wp_Ok. congruence.
  - apply wp_Ok, IH; [congruence|]. specialize (Hlen Ha). lia.
Qed.

Lemma savewd_restore_ok d0 wd status w : located d0 wd w -> wd <> FINAL_STATE ->
  wp (savewd_restore wd status w) (fun r => match r with inl (wd', w', r') => located d0 wd' w' /\ (at_home wd' \/ (exists e, wd' = ERROR_STATE e) /\ r' = -1) | inr _ => True end).
Proof.
  intros HI Hf. destruct wd as [|fd|fd|child|e|]; cbn [savewd_restore]; try done.
  - apply wp_Ok. split; [done|by left].
  - apply wp_Ok. split; [done|by left].
  - destruct (fchdir_spec w fd) as [H1 H2]. destruct (fchdir w fd) as [e w1]. cbn [fst snd located] in *. destruct (Z.eqb_spec e 0) as [->|He]; apply wp_Ok.
    + cbn [located at_home]. rewrite H1. specialize (H2 eq_refl). rewrite HI in H2. injection H2 as H2. split; [by split; [exact HI|]|by left].
    + split; [done|]. right. split; [by exists e|done].
  - destruct (Z.eqb_spec child 0); [done|]. cbn [located] in HI. destruct HI as [?|HI]; [done|]. destruct (Z.ltb_spec 0 child).
    + apply wp_bind. eapply wp_mono; [apply (wait_loop d0); [done|lia]|]. intros [st w1] Hc. destruct (st <? 256); apply wp_Ok; [|done].
      split; [by right|]. left. cbn. lia.
    + apply wp_Ok. split; [by right|]. left. cbn. lia.
  - apply wp_Ok. split; [done|]. right. split; [by exists e|done].
Qed.

(** ** Callbacks *)

Definition is_final (wd : savewd) : bool := match wd with FINAL_STATE => true | _ => false end.

Lemma savewd_save_final wd w : is_final (savewd_save wd w).1.1 = is_final wd.
Proof.
  assert (forall c w, is_final (save_forking c w).1.1 = false) as Hf.
  { intros c w1. unfold save_forking. destruct (c <? 0); [|done]. destruct (choose w1) as [a ?]. destruct (a =? 0); [done|]. by destruct (0 <? a). }
  destruct wd; cbn [savewd_save]; try done; try apply Hf. destruct (open_dir w (cwd w)) as [[fd|e] w1]; [done|].
  destruct (negb (e =? EACCES) && _); [done|apply Hf].
Qed.

Lemma savewd_chdir_final resolve wd dir options o w wd' w' r fd' : savewd_chdir resolve wd dir options o w = Ok (wd', w', r, fd') -> is_final wd' = is_final wd.
Proof.
  unfold savewd_chdir. intros E. apply bind_Ok_inv in E as ([[fd result] w1] & _ & E). apply bind_Ok_inv in E as ([[[wd2 w2] r2] o2] & E2 & E).
  injection E as <- _ _ _. destruct ((result =? 0) && _); [|by injection E2 as <-]. pose proof (savewd_save_final wd w1) as Hs.
  destruct (savewd_save wd w1) as [[wd1 w3] del]. cbn [fst] in Hs. rewrite <- Hs. destruct del; [by injection E2 as <-|].
  destruct (if fd <? 0 then _ else _) as [e w4]. destruct (e =? 0); [|by injection E2 as <-]. apply bind_Ok_inv in E2 as (wd3 & E3 & E2). injection E2 as <- _ _ _.
  destruct wd1; cbn [post_chdir] in E3; try done; try (by injection E3 as <-). apply bind_Ok_inv in E3 as (? & _ & E3). by injection E3 as <-.
Qed.

(** What savewd_process_files needs of the callback: it returns, it changes the
    working directory through the saved one only, and does not finish it. *)
Class WdClient (act : list Z -> savewd -> world -> res (Z * savewd * world)) :=
  wd_client : forall d0 f wd w, located d0 wd w -> savewd_delegating wd = false ->
    wp (act f wd w) (fun '(_, wd', w') => located d0 wd' w' /\ is_final wd' = is_final wd).

(** ** All files *)

Definition file_of (e : event) : option (list Z) := match e with Acted f _ | Delegated f => Some f | Restored _ => None end.

(** A relative name is acted on in the directory [d0], unless restoring it has
    failed before. *)
Definition safe_events (d0 : Z) (evs : list event) : Prop :=
  forall pre f dir post, evs = pre ++ Acted f dir :: post -> IS_ABSOLUTE f = false -> dir = d0 \/ Restored (-1) ∈ pre.

Lemma safe_snoc d0 evs e : safe_events d0 evs ->
  (forall f dir, e = Acted f dir -> IS_ABSOLUTE f = false -> dir = d0 \/ Restored (-1) ∈ evs) -> safe_events d0 (evs ++ [e]).
Proof.
  intros Hs He pre f dir post E Hf. destruct (exists_last_or post) as [->|(post' & x & ->)].
  - apply app_inj_2 in E as [-> [= ->]]; [|done]. by apply (He f dir).
  - rewrite app_comm_cons, app_assoc in E. apply app_inj_2 in E as [-> _]; [|done]. by apply (Hs pre f dir post').
Qed.

(** The process is at home, or restoring has failed. *)
Definition ready (p : progress) : Prop := at_home (p_wd p) \/ (exists e, p_wd p = ERROR_STATE e) /\ Restored (-1) ∈ p_events p.

(** Between two files of the first loop. *)
Definition loop_ok (d0 : Z) (done : list (list Z)) (files : list (list Z)) (p : progress) : Prop :=
  located d0 (p_wd p) (p_world p) /\ is_final (p_wd p) = false /\ safe_events d0 (p_events p) /\ omap file_of (p_events p) = done /\
  (IS_ABSOLUTE (head_of files) = false -> ready p).

Lemma at_home_cwd d0 wd w : located d0 wd w -> at_home wd -> cwd w = d0.
Proof. destruct wd; cbn; try done; [tauto|]. intros [->|?]; [lia|done]. Qed.

Lemma ready_here d0 p : located d0 (p_wd p) (p_world p) -> ready p -> cwd (p_world p) = d0 \/ Restored (-1) ∈ p_events p.
Proof. intros HI [Hh|[_ Hr]]; [left; by eapply at_home_cwd|by right]. Qed.

Section files.
Context (act : list Z -> savewd -> world -> res (Z * savewd * world)) `{WdClient act}.

Lemma act_on_ok d0 file p : located d0 (p_wd p) (p_world p) -> savewd_delegating (p_wd p) = false ->
  wp (act_on act file p) (fun p' => located d0 (p_wd p') (p_world p') /\ is_final (p_wd p') = is_final (p_wd p) /\ p_events p' = p_events p ++ [Acted file (cwd (p_world p))]).
Proof. intros HI Hd. unfold act_on. apply wp_bind. eapply wp_mono; [by apply (wd_client d0)|]. intros [[s wd'] w'] [H1 H2]. by apply wp_Ok. Qed.

(** Acting or delegating. *)
Lemma first_act_ok d0 done file files p : loop_ok d0 done (file :: files) p ->
  wp (if savewd_delegating (p_wd p) then Ok (Progress (p_wd p) (p_world p) (p_status p) (p_events p ++ [Delegated file])) else act_on act file p)
    (fun p' => located d0 (p_wd p') (p_world p') /\ is_final (p_wd p') = false /\ safe_events d0 (p_events p') /\ omap file_of (p_events p') = done ++ [file]).
Proof.
  intros (HI & Hf & Hs & Hd & Hr). destruct (savewd_delegating (p_wd p)) eqn:Edel.
  - apply wp_Ok. cbn [p_wd p_world p_events]. split_and!; [done|done|by apply safe_snoc|by rewrite omap_app, Hd].
  - eapply wp_mono; [by apply (act_on_ok d0)|]. intros p' (H1 & H2 & ->). split_and!; [done|congruence| |by rewrite omap_app, Hd].
    apply safe_snoc; [done|]. intros f dir [= <- <-] Hrel. apply ready_here; [done|by apply Hr].
Qed.

Lemma first_files_ok d0 n : forall done files p, loop_ok d0 done files p -> (n <= length files)%nat ->
  wp (first_files act n files p) (fun r => match r with
    | inl (p', rest) => rest = drop n files /\ loop_ok d0 (done ++ take n files) rest p'
    | inr (_, evs) => safe_events d0 evs /\ omap file_of evs `prefix_of` done ++ files
    end).
Proof.
  induction n as [|n IH]; intros done files p Hp Hn.
  { destruct files; (apply wp_Ok; cbn [drop take]; by rewrite app_nil_r). }
  destruct files as [|file files]; cbn [length] in Hn; [lia|]. cbn [first_files]. apply wp_bind. eapply wp_mono; [by apply (first_act_ok d0 done file files)|].
  intros p1 (H1 & H2 & H3 & H4). apply wp_bind.
  assert (wp (if IS_ABSOLUTE (head_of files) then Ok (inl p1)
      else let* r := savewd_restore (p_wd p1) (p_status p1) (p_world p1) in
           match r with
           | inl (wd, w, r) => Ok (inl (Progress wd w (if p_status p1 <? r then r else p_status p1) (p_events p1 ++ [Restored r])))
           | inr e => Ok (inr (e, p_events p1))
           end) (fun r => match r with inl p2 => loop_ok d0 (done ++ [file]) files p2 | inr (_, evs) => evs = p_events p1 end)) as Hstep.
  { destruct (IS_ABSOLUTE (head_of files)) eqn:Ea; [apply wp_Ok; split_and!; auto; intros ?; congruence|]. apply wp_bind. eapply wp_mono; [apply (savewd_restore_ok d0); [done|intros E; by rewrite E in H2]|].
    intros [[[wd w] r]|e]; [|intros _; by apply wp_Ok]. intros [L1 L2]. apply wp_Ok. split_and!; cbn [p_wd p_world p_events].
    - done.
    - destruct L2 as [L2|[[e ->] _]]; [by destruct wd|done].
    - by apply safe_snoc.
    - by rewrite omap_app, H4, app_nil_r.
    - intros _. unfold ready. cbn [p_wd p_events]. destruct L2 as [L2|[L2 ->]]; [by left|right]. split; [done|]. apply elem_of_app. right. by apply list_elem_of_singleton. }
  eapply wp_mono; [exact Hstep|]. intros [p2|[e evs]].
  - intros Hp2. eapply wp_mono; [apply (IH _ _ _ Hp2); lia|]. intros [[p3 rest]|[e evs]]; rewrite <- app_assoc; done.
  - intros ->. apply wp_Ok. split; [done|]. rewrite H4. exists files. by rewrite <- app_assoc.
Qed.

Lemma other_files_ok d0 files : forall p, p_wd p = FINAL_STATE -> safe_events d0 (p_events p) -> Forall (fun f => IS_ABSOLUTE f = true) files ->
  wp (other_files act files p) (fun p' => safe_events d0 (p_events p') /\ omap file_of (p_events p') = omap file_of (p_events p) ++ files).
Proof.
  induction files as [|f files IH]; intros p Hw Hs Ha; cbn [other_files]; [apply wp_Ok; by rewrite app_nil_r|]. apply Forall_cons in Ha as [Hf Ha]. apply wp_bind.
  eapply wp_mono; [apply (act_on_ok d0); by rewrite Hw|]. intros p' (_ & Hfin & Hev). eapply wp_mono; [apply IH; [|rewrite Hev; apply safe_snoc; [done|]|done]|].
  - rewrite Hw in Hfin. by destruct (p_wd p').
  - intros ? ? [= -> _] ?. congruence.
  - intros p'' [H1 H2]. split; [done|]. by rewrite H2, Hev, omap_app, <- app_assoc.
Qed.
End files.

Lemma last_relative_spec files :
  last_relative files = -1 /\ Forall (fun f => IS_ABSOLUTE f = true) files \/
  exists pre f post, files = pre ++ f :: post /\ last_relative files = zlen pre /\ IS_ABSOLUTE f = false /\ Forall (fun f => IS_ABSOLUTE f = true) post.
Proof.
  induction files as [|g files [[E Ha]|(pre & f & post & -> & E & Hf & Ha)]]; [by left| |].
  - cbn [last_relative]. rewrite E. cbn [Z.leb Z.compare]. destruct (IS_ABSOLUTE g) eqn:Eg; [left; split; [done|by constructor]|].
    right. exists [], g, files. by split_and!.
  - right. cbn [last_relative]. rewrite E. pose proof (zlen_nonneg pre). rewrite (proj2 (Z.leb_le 0 _)) by done. exists (g :: pre), f, post. by rewrite zlen_cons.
Qed.

(** savewd_process_files acts on every file in the directory the process
    started in: for every callback that moves only through the saved working
    directory, every list of names and all answers of the system (failing opens,
    chdirs and forks included) no assertion fails, every name is acted on or
    left to a child exactly once and in order, and a relative name is acted on
    in the starting directory unless restoring it has failed and said so. *)
Lemma process_files_at_home act `{WdClient act} files w :
  wp (savewd_process_files act files w) (fun r => match r with
    | inl (_, evs) => safe_events (cwd w) evs /\ omap file_of evs = files
    | inr (_, evs) => safe_events (cwd w) evs /\ omap file_of evs `prefix_of` files
    end).
Proof.
  unfold savewd_process_files. destruct (last_relative_spec files) as [[E Ha]|(pre & f & post & Ef & E & Hf & Ha)]; rewrite E.
  - assert (first_files act (Z.to_nat (-1)) files (Progress INITIAL_STATE w 0 []) = Ok (inl (Progress INITIAL_STATE w 0 [], files))) as -> by (by destruct files).
    cbn [bind savewd_finish p_wd p_world p_status p_events]. apply wp_bind. eapply wp_mono; [apply (other_files_ok act (cwd w)); [done|by intros []|done]|].
    intros p' [H1 H2]. by apply wp_Ok.
  - apply wp_bind. assert (loop_ok (cwd w) [] files (Progress INITIAL_STATE w 0 [])) as H0 by (split_and!; cbn; try done; [by intros [] | by left]).
    unfold zlen. rewrite Nat2Z.id. eapply wp_mono; [apply (first_files_ok act (cwd w) _ [] files _ H0); rewrite Ef, length_app; lia|].
    intros [[p rest]|[e evs]]; [|by intros He; apply wp_Ok]. rewrite Ef at 1 2. rewrite drop_app_length, take_app_length. intros (-> & HI & Hfin & Hs & Hd & Hr). cbn [app head_of] in *.
    specialize (Hr Hf). apply wp_bind.
    assert (wp (savewd_finish (p_wd p) (p_world p)) (fun '(wd, w') => wd = FINAL_STATE /\ cwd w' = cwd (p_world p))) as Hfinish.
    { destruct Hr as [Hh|[[e ->] _]]; [|by apply wp_Ok]. destruct (p_wd p) as [|fd|fd|child|e|]; cbn [savewd_finish at_home] in *; try done.
      by rewrite (proj2 (Z.ltb_lt child 0)) by done. }
    eapply wp_mono; [exact Hfinish|]. intros [wd w'] [-> Hcwd]. cbn [other_files]. apply wp_bind, wp_bind.
    eapply wp_mono; [by apply (act_on_ok act (cwd w))|]. cbn [p_wd p_world p_status p_events]. intros p' (_ & Hfin' & Hev).
    eapply wp_mono; [apply (other_files_ok act (cwd w)); [by destruct (p_wd p')| |done]|].
    + rewrite Hev. apply safe_snoc; [done|]. intros f' dir [= <- <-] _. rewrite Hcwd. by apply ready_here.
    + intros p'' [H1 H2]. apply wp_Ok. split; [done|]. by rewrite H2, Hev, omap_app, Hd, Ef, <- app_assoc.
Qed.
