(* ===== verification/MkDirs.v ===== *)
(** * Making directories: utils/coreutils/lib/mkancesdirs.c, mkdir-p.c, dirchownmod.c
    and utils/coreutils/src/mkdir.c

    The scan of a file name that makes its ancestors, the making of the last
    directory, and the callback of mkdir, over the saved working directory of
    Savewd.v.  System calls take their answers from the [world]. *)

From S2P Require Import Prelude Arrays CStrings ModeChange FileNames Savewd.
Open Scope Z_scope.
Open Scope code_scope.

Definition ENOENT : Z := 2.
Definition ENOTDIR : Z := 20.

(** ** mkancesdirs.c *)

(** The variables of the scan; [sep] may be NULL. *)
Record scan_state := Scan { sc_file : list Z; sc_p : Z; sc_sep : option Z; sc_component : Z; sc_made : bool; sc_wd : savewd; sc_world : world }.

Section mkancesdirs.
Variable resolve : Z -> list Z -> Z.

(** The callback: the name so far, the component; -1, 0 or 1. *)
Variable make_dir : list Z -> list Z -> world -> Z * world.

(** The component [name] that is not ".": made_dir, the object, the world and the
    result of savewd_chdir. *)
Definition enter_component (file_so_far name : list Z) (made : bool) (wd : savewd) (w : world) : res (bool * savewd * world * Z) :=
  let '(made, readable, w) :=
    if bool_decide (name = bytes "..") then (false, 0, w)
    else
      let '(r, w) := make_dir file_so_far name w in
      if r =? -1 then (made, 0, w)
      else if r =? 0 then (true, SAVEWD_CHDIR_READABLE, w)
      else if r =? 1 then (true, 0, w)
      else (made, 0, w) in
  let options := if made then Z.lor readable SAVEWD_CHDIR_NOFOLLOW else readable in
  let* (wd, w, r, _) := savewd_chdir resolve wd name options false w in
  Ok (made, wd, w, r).

(** One turn of [while ((c = *p++))]; the result is the file, the object, the world
    and what is returned. *)
Definition ancestor_turn (s : scan_state) : res (scan_state + list Z * savewd * world * Z) :=
  let '(Scan file p sep component made wd w) := s in
  let* c := rd file p in
  let p := p + 1 in
  if c =? 0 then Ok (inr (file, wd, w, component))
  else
    let* d := rd file p in
    if ISSLASH d then Ok (inl (Scan file p (if negb (ISSLASH c) then Some p else sep) component made wd w))
    else if ISSLASH c && negb (d =? 0) then
      match sep with
      | None => Ok (inl (Scan file p sep component made wd w))
      | Some e =>
          let* first := rd file component in
          if (e - component =? 1) && (first =? ch ".") then Ok (inl (Scan file p sep p made wd w))
          else
            let* file := wr file e 0 in
            let name := take (Z.to_nat (e - component)) (drop (Z.to_nat component) file) in
            let* (made, wd, w, r) := enter_component (take (Z.to_nat e) file) name made wd w in
            let* file := (if negb (r =? -1) then wr file e (ch "/") else Ok file) in
            if negb (r =? 0) then Ok (inr (file, wd, w, r)) else Ok (inl (Scan file p sep p made wd w))
      end
    else Ok (inl (Scan file p sep component made wd w)).

Definition mkancesdirs (file : list Z) (wd : savewd) (w : world) : res (list Z * savewd * world * Z) :=
  loop (S (length file)) ancestor_turn (Scan file 0 None 0 false wd w).
End mkancesdirs.

(** ** dirchownmod.c *)

(** An id that is not to be changed: [(uid_t) -1]. *)
Definition NO_ID : Z := 4294967295.

Definition bits (mode mask : Z) : bool := negb (mode .& mask =? 0).

(** The answers to stat after its success: the mode, 0 for a directory, the owner
    and the group. *)
Record stat_info := Stat { st_mode : Z; st_isdir : bool; st_uid : Z; st_gid : Z }.
Definition stat_call (w : world) : option stat_info * world :=
  let '(e, w) := choose w in
  if e =? 0 then
    let '(m, w) := choose w in let '(d, w) := choose w in let '(u, w) := choose w in let '(g, w) := choose w in
    (Some (Stat m (d =? 0) u g), w)
  else (None, w).

(** The call of chown, when it is made: its result, the bits it leaves
    indeterminate. *)
Definition change_owner (st : stat_info) (owner group : Z) (w : world) : Z * Z * world :=
  if (negb (owner =? NO_ID) && negb (owner =? st_uid st)) || (negb (group =? NO_ID) && negb (group =? st_gid st)) then
    let '(e, w) := choose w in
    if e =? 0 then (0, (if bits (st_mode st) X_ALL then st_mode st .& (S_ISUID .| S_ISGID) else 0), w) else (-1, 0, w)
  else (0, 0, w).

(** [chmod] is the list of modes that were set (HAVE_FCHMOD is 0). *)
Definition dirchownmod (fd owner group mode mode_bits : Z) (w : world) : Z * list Z * world :=
  let '(st, w) := stat_call w in
  let '(result, chmods, w) :=
    match st with
    | None => (-1, [], w)
    | Some st =>
        if negb (st_isdir st) then (-1, [], w)
        else
          let '(result, indeterminate, w) := change_owner st owner group w in
          if (result =? 0) && bits (Z.lxor (st_mode st) mode .| indeterminate) mode_bits then
            let chmod_mode := mode .| (st_mode st .& CHMOD_MODE_BITS .& compl mode_bits) in
            let '(e, w) := choose w in
            if e =? 0 then (0, [chmod_mode], w) else (-1, [], w)
          else (result, [], w)
    end in
  if 0 <=? fd then
    let '(e, w) := (if result =? 0 then choose w else (0, w)) in
    (if e =? 0 then result else -1, chmods, close w fd)
  else (result, chmods, w).

(** ** mkdir-p.c *)

Definition savewd_errno (wd : savewd) : Z := match wd with ERROR_STATE e => e | _ => 0 end.

Section mkdir.
Variable resolve : Z -> list Z -> Z.

(** After a mkdir that gave [mkdir_errno], when the mode has to be set. *)
Definition set_new_mode (wd : savewd) (name : list Z) (options mkdir_errno mode mode_bits owner group : Z) (w : world) : res (bool * savewd * world) :=
  let* (wd, w, chdir_result, fd) := savewd_chdir resolve wd name options true w in
  if chdir_result <? -1 then Ok (true, wd, w)
  else
    let chdir_ok := chdir_result =? 0 in
    let unexpected := (mkdir_errno =? 0) && ((negb chdir_ok && bits mode S_IXUSR) || ((fd <? 0) && bits mode S_IRUSR)) in
    if unexpected then Ok (false, wd, if 0 <=? fd then close w fd else w)
    else
      let '(r, _, w) := dirchownmod fd owner group mode mode_bits w in
      Ok (r =? 0, wd, w).

(** [mkdir(name, mode)]: 0 or an errno. *)
Definition mkdir_call (name : list Z) (mode : Z) (w : world) : Z * world := choose w.

(** The directory itself, in the directory of its parent. *)
Definition make_last (ancestors : bool) (wd : savewd) (name : list Z) (mode mode_bits owner group : Z) (preserve_existing : bool) (w : world) : res (bool * savewd * world) :=
  let keep_owner := (owner =? NO_ID) && (group =? NO_ID) in
  let keep_special := (mode_bits .& (S_ISUID .| S_ISGID)) .| (mode .& S_ISVTX) =? 0 in
  let mkdir_mode :=
    if negb keep_owner then mode .& compl (S_IRWXG .| S_IRWXO)
    else if negb keep_special then mode .& compl (S_IWGRP .| S_IWOTH)
    else mode in
  let '(e, w) := mkdir_call name mkdir_mode w in
  let made := e =? 0 in
  let preserve_existing := if made then keep_owner && keep_special else preserve_existing in
  let options := if made then SAVEWD_CHDIR_NOFOLLOW .| (if bits mode S_IRUSR then SAVEWD_CHDIR_READABLE else 0) else 0 in
  if preserve_existing then
    if made then Ok (true, wd, w)
    else if negb (e =? ENOENT) && ancestors then
      let '(st, w) := stat_call w in
      Ok (match st with Some st => st_isdir st | None => false end, wd, w)
    else Ok (false, wd, w)
  else set_new_mode wd name options e mode mode_bits owner group w.

(** [make_ancestor]: NULL or the callback. *)
Definition make_dir_parents (dir : list Z) (wd : savewd) (make_ancestor : option (list Z -> list Z -> world -> Z * world)) (mode mode_bits owner group : Z)
    (preserve_existing : bool) (w : world) : res (bool * savewd * world) :=
  if (if IS_ABSOLUTE dir then 0 else savewd_errno wd) =? 0 then
    let* (wd, w, prefix_len) :=
      match make_ancestor with
      | Some f => let* (_, wd, w, n) := mkancesdirs resolve f (cstr dir) wd w in Ok (wd, w, n)
      | None => Ok (wd, w, 0)
      end in
    if prefix_len <? -1 then Ok (true, wd, w)
    else if prefix_len <? 0 then Ok (false, wd, w)
    else make_last (match make_ancestor with Some _ => true | None => false end) wd (drop (Z.to_nat prefix_len) dir) mode mode_bits owner group preserve_existing w
  else Ok (false, wd, w).

(** ** mkdir.c *)

Record mkdir_options := Options { parents : bool; ancestor_mode : Z; dir_mode : Z; dir_mode_bits : Z }.

Definition make_ancestor (o : mkdir_options) (dir component : list Z) (w : world) : Z * world :=
  let '(e, w) := mkdir_call component (ancestor_mode o) w in
  if e =? 0 then ((if bits (ancestor_mode o) S_IRUSR then 0 else 1), w) else (-1, w).

Definition process_dir (o : mkdir_options) (dir : list Z) (wd : savewd) (w : world) : res (Z * savewd * world) :=
  let* (ok, wd, w) := make_dir_parents dir wd (if parents o then Some (make_ancestor o) else None) (dir_mode o) (dir_mode_bits o) NO_ID NO_ID true w in
  Ok (if ok then 0 else 1, wd, w).

(** The options from -p, -m and the umask; [None]: an invalid mode. *)
Definition mkdir_modes (p : bool) (specified_mode : option (list Z)) (umask_value : Z) : res (option mkdir_options) :=
  if p || (match specified_mode with Some _ => true | None => false end) then
    let ancestor := (S_IRWXUGO .& compl umask_value) .| (S_IWUSR .| S_IXUSR) in
    match specified_mode with
    | Some m =>
        let* change := mode_compile true (cstr m) in
        match change with
        | None => Ok None
        | Some change => let* (mode, bits) := mode_adjust S_IRWXUGO true umask_value change in Ok (Some (Options p ancestor mode bits))
        end
    | None => Ok (Some (Options p ancestor (S_IRWXUGO .& compl umask_value) 0))
    end
  else Ok (Some (Options p 0 S_IRWXUGO 0)).

Definition mkdir_main (p : bool) (specified_mode : option (list Z)) (umask_value : Z) (operands : list (list Z)) (w : world) : res (Z * list event + ended * list event) :=
  match operands with
  | [] => Ok (inl (1, []))
  | _ =>
      let* o := mkdir_modes p specified_mode umask_value in
      match o with
      | None => Ok (inl (1, []))
      | Some o => savewd_process_files (process_dir o) operands w
      end
  end.
End mkdir.

(** ** The ancestors of a name *)

Section ancestors.
Variables (resolve : Z -> list Z -> Z) (make_dir : list Z -> list Z -> world -> Z * world).
Let turn := ancestor_turn resolve make_dir.

(** A name after its first component: runs of slashes and components. *)
Definition tail_of (rest : list (nat * list Z)) : list Z := flat_map (fun '(k, x) => slashes k ++ x) rest.

(** Entering the components one after the other, with the name so far; the result
    of the first chdir that is not 0. *)
Fixpoint enter_all (sofar x : list Z) (rest : list (nat * list Z)) (made : bool) (wd : savewd) (w : world) : res (savewd * world * Z) :=
  match rest with
  | [] => Ok (wd, w, 0)
  | (k, y) :: rest =>
      if bool_decide (x = bytes ".") then enter_all ((sofar ++ x) ++ slashes k) y rest made wd w
      else
        let* (made, wd, w, r) := enter_component resolve make_dir (sofar ++ x) x made wd w in
        if r =? 0 then enter_all ((sofar ++ x) ++ slashes k) y rest made wd w else Ok (wd, w, r)
  end.

(** Where the last component starts. *)
Fixpoint last_offset (sofar x : list Z) (rest : list (nat * list Z)) : Z :=
  match rest with [] => zlen sofar | (k, y) :: rest => last_offset ((sofar ++ x) ++ slashes k) y rest end.

Definition plain (c : Z) : Prop := c <> 0 /\ ISSLASH c = false.

Lemma turn_plain pre c d post sep comp made wd w : plain c -> ISSLASH d = false ->
  turn (Scan (pre ++ c :: d :: post) (zlen pre) sep comp made wd w) = Ok (inl (Scan (pre ++ c :: d :: post) (zlen (pre ++ [c])) sep comp made wd w)).
Proof.
  intros [Hc Hs] Hd. unfold turn, ancestor_turn. rewrite rd_middle by done. cbn [bind]. rewrite (proj2 (Z.eqb_neq c 0) Hc).
  rewrite (cons_middle c pre), app_assoc, rd_middle by (rewrite zlen_snoc; lia). cbn [bind]. rewrite Hd, Hs. cbn [andb]. by rewrite zlen_snoc.
Qed.

Lemma turn_sep pre c post sep comp made wd w : plain c ->
  turn (Scan (pre ++ c :: slashes 1 ++ post) (zlen pre) sep comp made wd w) =
  Ok (inl (Scan (pre ++ c :: slashes 1 ++ post) (zlen (pre ++ [c])) (Some (zlen (pre ++ [c]))) comp made wd w)).
Proof.
  intros [Hc Hs]. unfold turn, ancestor_turn. rewrite rd_middle by done. cbn [bind]. rewrite (proj2 (Z.eqb_neq c 0) Hc).
  rewrite (cons_middle c pre), app_assoc. cbn [slashes replicate app]. rewrite rd_middle by (rewrite zlen_snoc; lia). cbn [bind]. change (ISSLASH DIRECTORY_SEPARATOR) with true.
  rewrite Hs. cbn [negb]. by rewrite zlen_snoc.
Qed.

Lemma turn_slash pre post sep comp made wd w :
  turn (Scan (pre ++ slashes 2 ++ post) (zlen pre) sep comp made wd w) = Ok (inl (Scan (pre ++ slashes 2 ++ post) (zlen (pre ++ slashes 1)) sep comp made wd w)).
Proof.
  unfold turn, ancestor_turn. cbn [slashes replicate app]. rewrite rd_middle by done. cbn [bind]. change (DIRECTORY_SEPARATOR =? 0) with false. cbv iota.
  rewrite (cons_middle _ pre), app_assoc, rd_middle by (rewrite zlen_snoc; lia). cbn [bind]. change (ISSLASH DIRECTORY_SEPARATOR) with true. cbn [negb]. by rewrite zlen_snoc.
Qed.

(** Inside a component, to the slash after it. *)
Lemma scan_component_sep x : forall pre post sep comp made wd w fuel, x <> [] -> Forall plain x ->
  loop (length x + fuel) turn (Scan (pre ++ x ++ slashes 1 ++ post) (zlen pre) sep comp made wd w) =
  loop fuel turn (Scan (pre ++ x ++ slashes 1 ++ post) (zlen (pre ++ x)) (Some (zlen (pre ++ x))) comp made wd w).
Proof.
  induction x as [|c x IH]; intros pre post sep comp made wd w fuel Hne Hx; [done|]. apply Forall_cons in Hx as [Hc Hx]. cbn [length Nat.add app].
  destruct x as [|d x]; cbn [length Nat.add app loop].
  - by rewrite turn_sep.
  - rewrite turn_plain by (done || by apply Forall_cons in Hx as [[_ ?] _]). cbn [bind].
    specialize (IH (pre ++ [c]) post sep comp made wd w fuel ltac:(done) Hx). rewrite <- !app_assoc in IH. cbn [app length Nat.add loop] in IH. exact IH.
Qed.

(** Through a run of slashes. *)
Lemma scan_slash_run k : forall pre post sep comp made wd w fuel,
  loop (k + fuel) turn (Scan (pre ++ slashes (S k) ++ post) (zlen pre) sep comp made wd w) =
  loop fuel turn (Scan (pre ++ slashes (S k) ++ post) (zlen (pre ++ slashes k)) sep comp made wd w).
Proof.
  induction k as [|k IH]; intros pre post sep comp made wd w fuel; [cbn [Nat.add slashes replicate]; by rewrite app_nil_r|].
  cbn [Nat.add loop]. change (slashes (S (S k)) ++ post) with (slashes 2 ++ slashes k ++ post). rewrite turn_slash. cbn [bind].
  specialize (IH (pre ++ slashes 1) post sep comp made wd w fuel). rewrite <- !app_assoc in IH. exact IH.
Qed.

(** The last slash before the next component: the component is entered. *)
Lemma turn_enter pre x k d post made wd w : x <> [] -> plain d ->
  let file := pre ++ x ++ slashes (S k) ++ d :: post in
  let next := zlen ((pre ++ x) ++ slashes (S k)) in
  turn (Scan file (zlen ((pre ++ x) ++ slashes k)) (Some (zlen (pre ++ x))) (zlen pre) made wd w) =
  if bool_decide (x = bytes ".") then Ok (inl (Scan file next (Some (zlen (pre ++ x))) next made wd w))
  else
    let* (made, wd, w, r) := enter_component resolve make_dir (pre ++ x) x made wd w in
    if r =? 0 then Ok (inl (Scan file next (Some (zlen (pre ++ x))) next made wd w))
    else Ok (inr (if r =? -1 then pre ++ x ++ 0 :: slashes k ++ d :: post else file, wd, w, r)).
Proof.
  intros Hne [Hd Hds] file next. unfold turn, ancestor_turn.
  assert (file = ((pre ++ x) ++ slashes k) ++ DIRECTORY_SEPARATOR :: d :: post) as E1.
  { unfold file. change (S k) with (1 + k)%nat. rewrite Nat.add_comm. unfold slashes. rewrite replicate_add. cbn [replicate]. by rewrite <- !app_assoc. }
  rewrite E1 at 1. rewrite rd_middle by done. cbn [bind]. change (DIRECTORY_SEPARATOR =? 0) with false. cbv iota.
  assert (next = zlen ((pre ++ x) ++ slashes k) + 1) as En.
  { unfold next. rewrite !zlen_app, !zlen_slashes. lia. }
  rewrite <- En. assert (file = (((pre ++ x) ++ slashes k) ++ [DIRECTORY_SEPARATOR]) ++ d :: post) as E2 by (rewrite E1; by rewrite <- !app_assoc).
  rewrite E2 at 1. rewrite rd_middle by (rewrite zlen_snoc; lia). cbn [bind]. rewrite Hds. change (ISSLASH DIRECTORY_SEPARATOR) with true.
  rewrite (proj2 (Z.eqb_neq d 0) Hd). cbn [andb negb]. destruct x as [|c x]; [done|].
  assert (file = pre ++ c :: (x ++ slashes (S k) ++ d :: post)) as E3 by (unfold file; by rewrite <- app_comm_cons).
  rewrite E3 at 1. rewrite rd_middle by done. cbn [bind].
  assert (((zlen (pre ++ c :: x) - zlen pre =? 1) && (c =? ch ".")) = bool_decide (c :: x = bytes ".")) as ->.
  { rewrite zlen_app, zlen_cons. pose proof (zlen_nonneg x). change (bytes ".") with [46]. destruct x as [|y x].
    - change (zlen []) with 0. replace (zlen pre + (0 + 1) - zlen pre) with 1 by lia. cbn [Z.eqb Pos.eqb andb]. destruct (Z.eqb_spec c 46) as [->|]; [done|]. symmetry. apply bool_decide_eq_false. congruence.
    - rewrite zlen_cons in *. pose proof (zlen_nonneg x). rewrite (proj2 (Z.eqb_neq _ 1)) by lia. symmetry. by apply bool_decide_eq_false. }
  case_bool_decide; [done|]. set (X := c :: x) in *. assert (file = (pre ++ X) ++ DIRECTORY_SEPARATOR :: slashes k ++ d :: post) as E4 by (unfold file; cbn [slashes replicate]; by rewrite <- !app_assoc).
  rewrite E4 at 1. rewrite wr_middle by done. cbn [bind].
  assert (take (Z.to_nat (zlen (pre ++ X) - zlen pre)) (drop (Z.to_nat (zlen pre)) ((pre ++ X) ++ 0 :: slashes k ++ d :: post)) = X) as ->.
  { rewrite zlen_app. unfold zlen. rewrite Nat2Z.id. replace (Z.to_nat (Z.of_nat (length pre) + Z.of_nat (length X) - Z.of_nat (length pre))) with (length X) by lia.
    by rewrite <- app_assoc, drop_app_length, take_app_length. }
  assert (take (Z.to_nat (zlen (pre ++ X))) ((pre ++ X) ++ 0 :: slashes k ++ d :: post) = pre ++ X) as -> by (unfold zlen; by rewrite Nat2Z.id, take_app_length).
  destruct (enter_component resolve make_dir (pre ++ X) X made wd w) as [[[[made' wd'] w'] r]|]; cbn [bind]; [|done].
  destruct (Z.eqb_spec r (-1)) as [->|Hr]; cbn [negb bind]; [by rewrite <- app_assoc|].
  rewrite wr_middle by done. cbn [bind]. change (ch "/") with DIRECTORY_SEPARATOR. rewrite <- E4. by destruct (r =? 0).
Qed.

(** The last component: nothing more is entered. *)
Lemma scan_last x t : forall pre sep comp made wd w fuel, Forall plain x -> x <> [] -> (length x + t < fuel)%nat ->
  loop fuel turn (Scan (pre ++ cstr (x ++ slashes t)) (zlen pre) sep comp made wd w) = Ok (pre ++ cstr (x ++ slashes t), wd, w, comp).
Proof.
  assert (forall t pre sep made wd w comp fuel, (t < fuel)%nat ->
    loop fuel turn (Scan (pre ++ cstr (slashes t)) (zlen pre) sep comp made wd w) = Ok (pre ++ cstr (slashes t), wd, w, comp)) as Hsl.
  { clear. induction t as [|t IH]; intros pre sep made wd w comp fuel Hf; destruct fuel as [|fuel]; try lia; cbn [loop].
    - unfold turn, ancestor_turn. unfold cstr. cbn [slashes replicate app]. rewrite rd_middle by done. done.
    - destruct t as [|t].
      + unfold turn at 1, ancestor_turn. unfold cstr. cbn [slashes replicate app]. rewrite rd_middle by done. cbn [bind]. change (DIRECTORY_SEPARATOR =? 0) with false. cbv iota.
        rewrite (cons_middle _ pre), app_assoc, rd_middle by (rewrite zlen_snoc; lia). cbn [bind]. change (ISSLASH 0) with false. rewrite andb_false_r. cbn [bind].
        replace (zlen pre + 1) with (zlen (pre ++ [DIRECTORY_SEPARATOR])) by (by rewrite zlen_snoc). change [0] with (cstr (slashes 0)). rewrite IH by lia. done.
      + change (cstr (slashes (S (S t)))) with (slashes 2 ++ cstr (slashes t)). rewrite turn_slash. cbn [bind].
        specialize (IH (pre ++ slashes 1) sep made wd w comp fuel ltac:(lia)). rewrite <- app_assoc in IH. exact IH. }
  induction x as [|c x IH]; intros pre sep comp made wd w fuel Hx Hne Hf; [done|]. apply Forall_cons in Hx as [Hc Hx]. cbn [length] in Hf. destruct fuel as [|fuel]; [lia|].
  destruct x as [|d x].
  - cbn [app]. destruct t as [|t].
    + cbn [loop]. unfold turn at 1, ancestor_turn, cstr. cbn [slashes replicate app]. rewrite rd_middle by done. cbn [bind]. destruct Hc as [Hc0 Hcs]. rewrite (proj2 (Z.eqb_neq c 0) Hc0).
      rewrite (cons_middle c pre), app_assoc, rd_middle by (rewrite zlen_snoc; lia). cbn [bind]. change (ISSLASH 0) with false. rewrite Hcs. cbn [andb bind].
      replace (zlen pre + 1) with (zlen (pre ++ [c])) by (by rewrite zlen_snoc). change [0] with (cstr (slashes 0)). apply Hsl. lia.
    + change (cstr (c :: slashes (S t))) with (c :: slashes 1 ++ cstr (slashes t)). cbn [loop]. rewrite turn_sep by done. cbn [bind].
      specialize (Hsl (S t) (pre ++ [c]) (Some (zlen (pre ++ [c]))) made wd w comp fuel ltac:(lia)). rewrite <- app_assoc in Hsl. exact Hsl.
  - cbn [loop app]. change (cstr (c :: d :: x ++ slashes t)) with (c :: d :: cstr (x ++ slashes t)). rewrite turn_plain by (done || by apply Forall_cons in Hx as [[_ ?] _]). cbn [bind].
    specialize (IH (pre ++ [c]) sep comp made wd w fuel Hx ltac:(done)). rewrite <- app_assoc in IH. apply IH. cbn [length] in *. lia.
Qed.

Definition component (x : list Z) : Prop := x <> [] /\ Forall plain x.
Definition rest_ok (rest : list (nat * list Z)) : Prop := Forall (fun '(k, y) => (0 < k)%nat /\ component y) rest.

Lemma tail_of_cons k y rest : tail_of ((k, y) :: rest) = (slashes k ++ y) ++ tail_of rest.
Proof. done. Qed.

Lemma ancestors_loop rest : forall sofar lead x t made wd w sep fuel,
  component x -> rest_ok rest -> (length x + length (tail_of rest) + t < fuel)%nat ->
  let file := sofar ++ lead ++ cstr (x ++ tail_of rest ++ slashes t) in
  let run := loop fuel turn (Scan file (zlen (sofar ++ lead)) sep (zlen sofar) made wd w) in
  match enter_all sofar (lead ++ x) rest made wd w with
  | Ok (wd', w', r) => exists file', run = Ok (file', wd', w', if r =? 0 then last_offset sofar (lead ++ x) rest else r) /\ (r <> -1 -> file' = file)
  | Fail f => run = Fail f
  end.
Proof.
  induction rest as [|[k y] rest IH]; intros sofar lead x t made wd w sep fuel [Hne Hx] Hrest Hf file run.
  { cbn [enter_all last_offset]. exists file. split; [|done]. subst run file. cbn [tail_of flat_map app]. rewrite app_assoc. apply scan_last; [done|done|]. cbn [tail_of flat_map length] in Hf. lia. }
  apply Forall_cons in Hrest as [[Hk [Hyne Hy]] Hrest]. destruct k as [|k]; [lia|]. rewrite tail_of_cons in *. rewrite !length_app, length_slashes in Hf.
  destruct y as [|d y]; [done|]. apply Forall_cons in Hy as [Hd Hy]. set (end_ := cstr (y ++ tail_of rest ++ slashes t)).
  assert (file = (sofar ++ lead) ++ x ++ slashes 1 ++ slashes k ++ d :: end_) as E1.
  { subst file end_. unfold cstr. change (slashes (S k)) with (slashes 1 ++ slashes k). by simplify_list_eq. }
  assert (file = ((sofar ++ lead) ++ x) ++ slashes (S k) ++ d :: end_) as E2 by (rewrite E1; by rewrite <- !app_assoc).
  assert (file = sofar ++ (lead ++ x) ++ slashes (S k) ++ d :: end_) as E3 by (rewrite E2; by rewrite <- !app_assoc).
  assert (run = let* r := turn (Scan file (zlen ((sofar ++ lead ++ x) ++ slashes k)) (Some (zlen (sofar ++ lead ++ x))) (zlen sofar) made wd w) in
    match r with inl s => loop (fuel - length x - k - 1) turn s | inr b => Ok b end) as ->.
  { subst run. replace fuel with (length x + (k + S (fuel - length x - k - 1)))%nat at 1 by lia. rewrite E1, scan_component_sep, <- E1 by done.
    rewrite E2, scan_slash_run, <- E2, <- (app_assoc sofar lead x). reflexivity. }
  rewrite E3, turn_enter by (by destruct lead, x || done). rewrite <- E3. clear E1 E2. cbn [enter_all last_offset].
  assert (forall made wd w, let run := loop (fuel - length x - k - 1) turn (Scan file
      (zlen ((sofar ++ lead ++ x) ++ slashes (S k))) (Some (zlen (sofar ++ lead ++ x))) (zlen ((sofar ++ lead ++ x) ++ slashes (S k))) made wd w) in
    match enter_all ((sofar ++ lead ++ x) ++ slashes (S k)) (d :: y) rest made wd w with
    | Ok (wd', w', r) => exists file', run = Ok (file', wd', w', if r =? 0 then last_offset ((sofar ++ lead ++ x) ++ slashes (S k)) (d :: y) rest else r) /\ (r <> -1 -> file' = file)
    | Fail f => run = Fail f
    end) as Hnext.
  { intros made1 wd1 w1. specialize (IH ((sofar ++ lead ++ x) ++ slashes (S k)) [] (d :: y) t made1 wd1 w1 (Some (zlen (sofar ++ lead ++ x))) (fuel - length x - k - 1)%nat).
    assert (((sofar ++ lead ++ x) ++ slashes (S k)) ++ [] ++ cstr ((d :: y) ++ tail_of rest ++ slashes t) = file) as E4 by (rewrite E3; subst end_; unfold cstr; by simplify_list_eq).
    cbv zeta in IH. rewrite E4, app_nil_r in IH. apply IH; [split; [done|by constructor]|done|cbn [length] in *; lia]. }
  case_bool_decide; cbn [bind]; [apply Hnext|].
  destruct (enter_component resolve make_dir (sofar ++ lead ++ x) (lead ++ x) made wd w) as [[[[made1 wd1] w1] r1]|f]; cbn [bind]; [|done].
  destruct (Z.eqb_spec r1 0) as [->|Hr1]; cbn [bind]; [apply Hnext|]. rewrite (proj2 (Z.eqb_neq r1 0) Hr1). eexists. split; [done|]. intros Hr. by rewrite (proj2 (Z.eqb_neq r1 (-1)) Hr).
Qed.

(** Leading slashes belong to the first component. *)
Lemma scan_lead j x t made wd w fuel : component x -> forall pre,
  loop (j + fuel) turn (Scan (pre ++ slashes j ++ cstr (x ++ t)) (zlen pre) None 0 made wd w) =
  loop fuel turn (Scan (pre ++ slashes j ++ cstr (x ++ t)) (zlen (pre ++ slashes j)) None 0 made wd w).
Proof.
  intros [Hne Hx]. destruct x as [|d x]; [done|]. apply Forall_cons in Hx as [[Hd Hds] _]. induction j as [|j IH]; intros pre; [cbn [slashes replicate Nat.add]; by rewrite app_nil_r|].
  cbn [Nat.add loop]. destruct j as [|j].
  - unfold turn at 1, ancestor_turn, cstr. cbn [slashes replicate app]. rewrite rd_middle by done. cbn [bind]. change (DIRECTORY_SEPARATOR =? 0) with false. cbv iota.
    rewrite (cons_middle _ pre), app_assoc, rd_middle by (rewrite zlen_snoc; lia). cbn [bind]. rewrite Hds, (proj2 (Z.eqb_neq d 0) Hd). change (ISSLASH DIRECTORY_SEPARATOR) with true. cbn [andb negb bind Nat.add].
    by rewrite zlen_snoc.
  - change (slashes (S (S j)) ++ cstr ((d :: x) ++ t)) with (slashes 2 ++ slashes j ++ cstr ((d :: x) ++ t)). rewrite turn_slash. cbn [bind].
    specialize (IH (pre ++ slashes 1)). rewrite <- !app_assoc in IH. exact IH.
Qed.
End ancestors.

(** ** The callback of mkdir keeps the working directory *)

Section client.
Variables (resolve : Z -> list Z -> Z) (make_dir : list Z -> list Z -> world -> Z * world) (d0 : Z).

(** Nothing but the answers changes. *)
Definition same_dirs (w w' : world) : Prop := cwd w' = cwd w /\ open_dirs w' = open_dirs w.
Hypothesis make_dir_same : forall f c w, same_dirs w (make_dir f c w).2.

Lemma located_same wd w w' : same_dirs w w' -> located d0 wd w -> located d0 wd w'.
Proof. intros [H1 H2]. destruct wd; cbn [located]; rewrite ?H1, ?H2; done. Qed.

(** After a step from [wd]: delegating is as said. *)
Definition stays (fin deleg : bool) (wd : savewd) (w : world) : Prop :=
  located d0 wd w /\ savewd_delegating wd = deleg /\ is_final wd = fin.

Lemma chdir_stays fin wd w dir options o : stays fin false wd w ->
  wp (savewd_chdir resolve wd dir options o w) (fun '(wd', w', r, fd) => stays fin (r =? -2) wd' w' /\ (0 <= fd -> saved_fd wd' <> Some fd)).
Proof.
  intros (HI & Hd & Hf). pose proof (savewd_chdir_ok resolve d0 wd w dir options o HI Hd) as Hw. pose proof (savewd_chdir_final resolve wd dir options o w) as Hfin.
  destruct (savewd_chdir resolve wd dir options o w) as [[[[wd' w'] r] fd]|]; [|done]. destruct Hw as (H1 & H2 & H3). specialize (Hfin _ _ _ _ eq_refl).
  split; [|done]. split_and!; [done|done|congruence].
Qed.

Lemma enter_component_stays fin sofar name made wd w : stays fin false wd w ->
  wp (enter_component resolve make_dir sofar name made wd w) (fun '(_, wd', w', r) => stays fin (r =? -2) wd' w').
Proof.
  intros Hs. unfold enter_component. destruct (if bool_decide _ then _ else _) as [[made' readable] w1] eqn:E.
  assert (stays fin false wd w1) as Hs1.
  { destruct (bool_decide _); [by injection E as _ _ <-|]. pose proof (make_dir_same sofar name w) as Hm. destruct (make_dir sofar name w) as [r w2]. cbn [snd] in Hm.
    assert (w2 = w1) as -> by (destruct (r =? -1), (r =? 0), (r =? 1); by injection E as _ _ <-).
    destruct Hs as (H1 & H2 & H3). split_and!; [by eapply located_same|done|done]. }
  apply wp_bind. eapply wp_mono; [by apply chdir_stays|]. intros [[[wd' w'] r] fd] [H _]. by apply wp_Ok.
Qed.

(** The scan of a string of [n] bytes. *)
Definition scan_ok (fin : bool) (n : Z) (s : scan_state) : Prop :=
  zlen (sc_file s) = n + 1 /\ (sc_file s).[n] = 0 /\ 0 <= sc_p s <= n /\ 0 <= sc_component s <= sc_p s /\
  (forall e, sc_sep s = Some e -> 0 <= e < n) /\ stays fin false (sc_wd s) (sc_world s).

Lemma ancestor_turn_ok fin n s : scan_ok fin n s ->
  wp (ancestor_turn resolve make_dir s) (fun x => match x with
    | inl s' => scan_ok fin n s' /\ n - sc_p s' < n - sc_p s
    | inr (_, wd', w', r) => (exists b, stays fin b wd' w') /\ (0 <= r -> stays fin false wd' w')
    end).
Proof.
  destruct s as [file p sep comp made wd w]. intros (Hlen & Hnul & Hp & Hcomp & Hsep & Hs). cbn [sc_file sc_p sc_sep sc_component sc_wd sc_world] in *. unfold ancestor_turn.
  apply wp_bind, wp_rd; [lia|]. destruct (Z.eqb_spec file.[p] 0) as [Ec|Ec]; [apply wp_Ok; by eauto|].
  assert (p <> n) by (intros ->; done). apply wp_bind, wp_rd; [lia|].
  assert (forall sep comp, (forall e, sep = Some e -> 0 <= e < n) -> 0 <= comp <= p + 1 -> scan_ok fin n (Scan file (p + 1) sep comp made wd w) /\ n - (p + 1) < n - p) as Hgo
    by (intros; split; [split_and!; cbn; try done; lia|lia]).
  destruct (ISSLASH file.[p + 1]) eqn:Ed.
  { apply wp_Ok, Hgo; [|lia]. destruct (negb (ISSLASH file.[p])); [|done]. intros e [= <-]. split; [lia|]. assert (p + 1 <> n); [|lia]. intros E. by rewrite E, Hnul in Ed. }
  destruct (ISSLASH file.[p] && negb (file.[p + 1] =? 0)); [|apply wp_Ok, Hgo; [done|lia]].
  destruct sep as [e|]; [|apply wp_Ok, Hgo; [done|lia]]. pose proof (Hsep e eq_refl) as He. apply wp_bind, wp_rd; [lia|]. destruct ((e - comp =? 1) && _); [apply wp_Ok, Hgo; [done|lia]|].
  apply wp_bind, wp_wr; [lia|]. apply wp_bind. eapply wp_mono; [by apply (enter_component_stays fin)|]. intros [[[made1 wd1] w1] r] Hs1.
  assert (forall v, zlen (upd (upd file e 0) e v) = n + 1 /\ (upd (upd file e 0) e v).[n] = 0) as Hupd by (intros v; by rewrite !zlen_upd, !aget_upd_ne by lia).
  apply wp_bind. destruct (Z.eqb_spec r (-1)) as [->|Hr].
  { apply wp_Ok. cbn [negb Z.eqb]. apply wp_Ok. split; [by eexists|lia]. }
  apply wp_wr; [rewrite zlen_upd; lia|]. destruct (Z.eqb_spec r 0) as [->|Hr0].
  - apply wp_Ok. split; [|cbn [sc_p]; lia]. destruct (Hupd (ch "/")). split_and!; cbn [sc_file sc_p sc_sep sc_component sc_wd sc_world]; try done; lia.
  - apply wp_Ok. split; [by eexists|]. intros ?. rewrite (proj2 (Z.eqb_neq r (-2))) in Hs1 by lia. done.
Qed.

Lemma mkancesdirs_stays fin dir wd w : stays fin false wd w ->
  wp (mkancesdirs resolve make_dir (cstr dir) wd w) (fun '(_, wd', w', r) => (exists b, stays fin b wd' w') /\ (0 <= r -> stays fin false wd' w')).
Proof.
  intros Hs. unfold mkancesdirs. pose proof (zlen_nonneg dir) as Hz. assert (zlen (cstr dir) = zlen dir + 1) as El by (unfold cstr; by rewrite zlen_snoc).
  apply (wp_loop (scan_ok fin (zlen dir)) (fun s => zlen dir - sc_p s)).
  - split_and!; cbn; try done; try lia. unfold cstr. by rewrite aget_middle.
  - cbn [sc_p]. unfold zlen in *. lia.
  - intros s (_ & _ & ? & _). lia.
  - intros s Hok. eapply wp_mono; [by apply ancestor_turn_ok|]. by intros [?|[[[? ?] ?] ?]].
Qed.

(** *** The last directory *)

Lemma same_trans w w1 w2 : same_dirs w w1 -> same_dirs w1 w2 -> same_dirs w w2.
Proof. intros [] []. split; congruence. Qed.

Lemma stat_call_same w : same_dirs w (stat_call w).2.
Proof.
  unfold stat_call. pose proof (choose_same w) as H. destruct (choose w) as [e w1]. destruct (e =? 0); [|done].
  eapply same_trans; [exact H|]. clear. do 4 (match goal with |- context [choose ?v] => pose proof (choose_same v); destruct (choose v) as [? ?] end). cbn [fst snd] in *. 
  repeat (eapply same_trans; [eassumption|]). done.
Qed.

Lemma dirchownmod_stays fin wd w fd owner group mode mode_bits : stays fin false wd w -> (0 <= fd -> saved_fd wd <> Some fd) ->
  stays fin false wd (dirchownmod fd owner group mode mode_bits w).2.
Proof.
  intros Hs Hfd. unfold dirchownmod. destruct (stat_call w) as [st w1] eqn:E1.
  destruct (match st with None => _ | Some _ => _ end) as [[result chmods] w2] eqn:E2.
  assert (same_dirs w w2) as Hw.
  { pose proof (stat_call_same w) as H1. rewrite E1 in H1. cbn [snd] in H1. destruct st as [st|]; [|by injection E2 as _ _ <-]. destruct (negb (st_isdir st)); [by injection E2 as _ _ <-|].
    destruct (change_owner st owner group w1) as [[r ind] w3] eqn:E3. assert (same_dirs w w3) as H3.
    { eapply same_trans; [exact H1|]. unfold change_owner in E3. destruct (_ || _); [|by injection E3 as _ _ <-]. pose proof (choose_same w1) as H. destruct (choose w1) as [e w4].
      destruct (e =? 0); by injection E3 as _ _ <-. }
    destruct (_ && _); [|by injection E2 as _ _ <-]. pose proof (choose_same w3) as H. destruct (choose w3) as [e w4].
    eapply same_trans; [exact H3|]. destruct (e =? 0); by injection E2 as _ _ <-. }
  destruct Hs as (H1 & H2 & H3). destruct (Z.leb_spec 0 fd) as [H|H]; [|split_and!; [by eapply located_same|done|done]].
  assert (same_dirs w2 (if result =? 0 then choose w2 else (0, w2)).2) as H4 by (destruct (result =? 0); [apply choose_same|done]).
  destruct (if result =? 0 then _ else _) as [e w3]. cbn [snd] in H4 |- *. split_and!; [|done|done]. apply located_close; [|by apply Hfd]. eapply located_same; [|done]. by eapply same_trans.
Qed.

Lemma set_new_mode_stays fin wd w name options e mode mode_bits owner group : stays fin false wd w ->
  wp (set_new_mode resolve wd name options e mode mode_bits owner group w) (fun '(_, wd', w') => exists b, stays fin b wd' w').
Proof.
  intros Hs. unfold set_new_mode. apply wp_bind. eapply wp_mono; [by apply (chdir_stays fin)|]. intros [[[wd1 w1] r] fd] [H1 H2].
  destruct (Z.ltb_spec r (-1)) as [Hr|Hr]; [apply wp_Ok; by eexists|]. rewrite (proj2 (Z.eqb_neq r (-2))) in H1 by lia. destruct (_ && _).
  - apply wp_Ok. exists false. destruct (Z.leb_spec 0 fd); [|done]. destruct H1 as (? & ? & ?). split_and!; [by apply located_close; [|apply H2]|done|done].
  - pose proof (dirchownmod_stays fin wd1 w1 fd owner group mode mode_bits H1 H2) as H. destruct (dirchownmod _ _ _ _ _ _) as [[r2 ?] w2]. apply wp_Ok. by exists false.
Qed.

Lemma make_last_stays fin ancestors wd w name mode mode_bits owner group preserve : stays fin false wd w ->
  wp (make_last resolve ancestors wd name mode mode_bits owner group preserve w) (fun '(_, wd', w') => exists b, stays fin b wd' w').
Proof.
  intros Hs. unfold make_last, mkdir_call. pose proof (choose_same w) as Hw. destruct (choose w) as [e w1]. cbn [snd] in Hw.
  assert (stays fin false wd w1) as H1 by (destruct Hs as (? & ? & ?); split_and!; [by eapply located_same|done|done]).
  destruct (if e =? 0 then _ else preserve); [|by apply set_new_mode_stays]. destruct (e =? 0); [apply wp_Ok; by eexists|]. destruct (_ && ancestors); [|apply wp_Ok; by eexists].
  pose proof (stat_call_same w1) as H. destruct (stat_call w1) as [st w2]. cbn [snd] in H. apply wp_Ok. exists false. destruct H1 as (? & ? & ?). split_and!; [by eapply located_same|done|done].
Qed.
End client.

#[export] Instance mkdir_client resolve o : WdClient (process_dir resolve o).
Proof.
  intros d0 dir wd w HI Hd. assert (stays d0 (is_final wd) false wd w) as Hs by done. revert Hs. generalize (is_final wd) as fin. intros fin Hs. clear HI Hd.
  unfold process_dir, make_dir_parents. apply wp_bind. destruct (_ =? 0); [|apply wp_Ok, wp_Ok; by destruct Hs as (? & ? & ?)].
  assert (wp (match (if parents o then Some (make_ancestor o) else None) with
      | Some f => let* (_, wd, w, n) := mkancesdirs resolve f (cstr dir) wd w in Ok (wd, w, n)
      | None => Ok (wd, w, 0)
      end) (fun '(wd', w', r) => (exists b, stays d0 fin b wd' w') /\ (0 <= r -> stays d0 fin false wd' w'))) as Hanc.
  { destruct (parents o); [|apply wp_Ok; by eauto]. apply wp_bind. eapply wp_mono; [apply (mkancesdirs_stays resolve (make_ancestor o) d0); [|exact Hs]|].
    - intros f c w1. unfold make_ancestor, mkdir_call. pose proof (choose_same w1) as H. destruct (choose w1) as [e w2]. by destruct (e =? 0).
    - intros [[[? ?] ?] ?] H. by apply wp_Ok. }
  apply wp_bind. eapply wp_mono; [exact Hanc|]. intros [[wd1 w1] r] [[b Hb] H1].
  destruct (Z.ltb_spec r (-1)); [apply wp_Ok, wp_Ok; by destruct Hb as (? & ? & ?)|]. destruct (Z.ltb_spec r 0) as [|Hr]; [apply wp_Ok, wp_Ok; by destruct Hb as (? & ? & ?)|].
  eapply wp_mono; [by apply (make_last_stays resolve d0 fin _ _ _), H1|]. intros [[? ?] ?] [? (? & ? & ?)]. by apply wp_Ok.
Qed.

(** mkancesdirs, a scan with pointers that cuts the name with temporary NULs,
    enters the ancestors of a name one by one: for a name made of leading
    slashes, components, runs of slashes and trailing slashes, every callback and
    every state of the system, the calls of the callback and of savewd_chdir are
    those for the components before the last one, in order, up to the first that
    does not return 0 ("." is skipped, ".." is entered without being made); it
    returns that result, or the offset of the last component, and unless the
    result is -1 the name is left as it was. *)
Theorem mkancesdirs_enters resolve make_dir (j : nat) x rest (t : nat) wd w :
  component x -> rest_ok rest ->
  let name := slashes j ++ x ++ tail_of rest ++ slashes t in
  match enter_all resolve make_dir [] (slashes j ++ x) rest false wd w with
  | Ok (wd', w', r) => exists file', mkancesdirs resolve make_dir (cstr name) wd w = Ok (file', wd', w', if r =? 0 then last_offset [] (slashes j ++ x) rest else r) /\ (r <> -1 -> file' = cstr name)
  | Fail f => mkancesdirs resolve make_dir (cstr name) wd w = Fail f
  end.
Proof.
  intros Hx Hrest name. unfold mkancesdirs. assert (cstr name = [] ++ slashes j ++ cstr (x ++ tail_of rest ++ slashes t)) as E by (unfold name, cstr; cbn [app]; by rewrite <- !app_assoc).
  assert (S (length (cstr name)) = j + (length x + length (tail_of rest) + t + 2))%nat as ->.
  { rewrite E. unfold cstr. cbn [app]. rewrite !length_app, !length_slashes. cbn [length]. lia. }
  pose proof (scan_lead resolve make_dir j x (tail_of rest ++ slashes t) false wd w (length x + length (tail_of rest) + t + 2) Hx []) as Hlead. rewrite <- E in Hlead.
  change (zlen []) with 0 in Hlead. rewrite Hlead, E.
  exact (ancestors_loop resolve make_dir rest [] (slashes j) x t false wd w None (length x + length (tail_of rest) + t + 2) Hx Hrest ltac:(lia)).
Qed.

Definition example_resolve (dir : Z) (name : list Z) : Z := dir * 10 + zlen name.
Definition example_options : mkdir_options := Options true 493 493 4095.

Lemma mkancesdirs_enters_witness :
  let name := slashes 2 ++ bytes "a" ++ tail_of [(1%nat, bytes "."); (2%nat, bytes "bc"); (1%nat, bytes ".."); (1%nat, bytes "d")] ++ slashes 1 in
  name = bytes "//a/.//bc/../d/" /\
  enter_all example_resolve (make_ancestor example_options) [] (bytes "//a") [(1%nat, bytes "."); (2%nat, bytes "bc"); (1%nat, bytes ".."); (1%nat, bytes "d")] false INITIAL_STATE (World 1 ∅ []) =
    Ok (FD_POST_CHDIR_STATE 1, World 1322 {[1 := 1]} [], 0) /\
  exists file', mkancesdirs example_resolve (make_ancestor example_options) (cstr name) INITIAL_STATE (World 1 ∅ []) = Ok (file', FD_POST_CHDIR_STATE 1, World 1322 {[1 := 1]} [], 13).
Proof.
  pose proof (mkancesdirs_enters example_resolve (make_ancestor example_options) 2 (bytes "a") [(1%nat, bytes "."); (2%nat, bytes "bc"); (1%nat, bytes ".."); (1%nat, bytes "d")] 1 INITIAL_STATE (World 1 ∅ [])) as H.
  split; [reflexivity|]. split; [vm_compute; reflexivity|].
  match type of H with ?P -> ?Q -> _ => assert P as Hx; [split; [done|]; repeat constructor; done|]; assert Q as Hr end.
  { repeat constructor; try lia; try done. }
  specialize (H Hx Hr). cbv zeta in H.
  match type of H with match ?e with _ => _ end => assert (e = Ok (FD_POST_CHDIR_STATE 1, World 1322 {[1 := 1]} [], 0)) as E; [vm_compute; reflexivity|rewrite E in H] end.
  destruct H as (file' & H & _). exists file'. rewrite H. reflexivity.
Defined.

(** C17. mkdir acts on its operands in the directory it was started in: for all
    modes that are accepted, with and without -p, every list of operands and all
    answers of the system (failing mkdir, open, stat, chmod, chdir and fork calls
    included) no assertion of the saved working directory fails and no byte of a
    name is accessed out of bounds, every operand is processed or left to a
    child exactly once and in order, and a relative operand is processed in the
    starting directory unless going back to it has failed before; when the
    process ends early, as a child or by a signal, this holds for the operands
    until then. *)
Theorem mkdir_at_home resolve p mode um o operands w : mkdir_modes p mode um = Ok (Some o) -> operands <> [] ->
  wp (mkdir_main resolve p mode um operands w) (fun r => match r with
    | inl (_, evs) => safe_events (cwd w) evs /\ omap file_of evs = operands
    | inr (_, evs) => safe_events (cwd w) evs /\ omap file_of evs `prefix_of` operands
    end).
Proof. intros Ho Hne. unfold mkdir_main. rewrite Ho. destruct operands; [done|]. apply process_files_at_home, mkdir_client. Qed.

Lemma mkdir_at_home_witness :
  let w := World 1 ∅ [0; 0; 0; 0; 17; 0; 0; 0; 0; 0; 17] in
  mkdir_modes true (Some (bytes "755")) 18 = Ok (Some (Options true 493 493 1023)) /\
  wp (mkdir_main example_resolve true (Some (bytes "755")) 18 [bytes "x/y"; bytes "/etc"; bytes "z"] w) (fun r => match r with
    | inl (_, evs) => safe_events (cwd w) evs /\ omap file_of evs = [bytes "x/y"; bytes "/etc"; bytes "z"]
    | inr (_, evs) => safe_events (cwd w) evs /\ omap file_of evs `prefix_of` [bytes "x/y"; bytes "/etc"; bytes "z"]
    end).
Proof.
  assert (mkdir_modes true (Some (bytes "755")) 18 = Ok (Some (Options true 493 493 1023))) as E by (vm_compute; reflexivity).
  split; [exact E|]. by apply (mkdir_at_home example_resolve true (Some (bytes "755")) 18 _ _ _ E).
Defined.
