(* ===== verification/Canonicalize.v ===== *)
(** * Canonical names: utils/coreutils/lib/canonicalize.c, areadlink-with-size.c,
    xgetcwd.c and utils/coreutils/src/readlink.c

    The canonical absolute name of a file, as the code builds it: a buffer that
    grows, with a pointer behind its text, and the name that is read, which a
    symbolic link replaces.  The file system is an argument: what lstat, readlink
    and getcwd answer.  DOUBLE_SLASH_IS_DISTINCT_ROOT is 0.  The set of links that
    were seen is the one of FileSet.v. *)

From S2P Require Import Prelude Arrays CStrings Heap HashSizes GnuHash FileNames FileSet.
Open Scope Z_scope.

Definition PATH_MAX : Z := 4096.
Definition SSIZE_MAX : Z := 2 ^ 63 - 1.
Definition ENOENT : Z := 2.
Definition ENOMEM : Z := 12.
Definition ENOTDIR : Z := 20.
Definition ELOOP : Z := 40.

Inductive canonicalize_mode_t := CAN_EXISTING | CAN_ALL_BUT_LAST | CAN_MISSING.

#[export] Instance canonicalize_mode_eq_dec : EqDecision canonicalize_mode_t.
Proof. solve_decision. Defined.

(** The kinds of files the code tells apart, and what it reads of struct stat. *)
Inductive file_kind := Directory | Symlink | Other.
Record file_stat := FileStat { f_kind : file_kind; f_ino : Z; f_dev : Z; f_size : Z }.

(** The answers of the system; [inr] is an errno. *)
Record system := System { lstat : list Z -> file_stat + Z; readlink : list Z -> list Z + Z; getcwd : list Z + Z }.

(** ** areadlink-with-size.c *)

Section canonicalize.
Context (sys : system) (size_ok : Z -> bool) (malloc_ok : nat -> bool).

(** One turn of [while (1)] with a buffer of this size; [size_ok] says which sizes
    malloc grants, and NULL is returned with ENOMEM. *)
Definition readlink_turn (file : list Z) (buf_size : Z) : res (Z + option (list Z)) :=
  if negb (size_ok buf_size) then Ok (inr None)
  else
    let r := match readlink sys file with inl target => Z.min (zlen target) buf_size | inr _ => -1 end in
    let link_length := r mod 2 ^ 64 in
    if link_length <? buf_size then Ok (inr (match readlink sys file with inl target => Some (take (Z.to_nat link_length) target) | inr _ => None end))
    else if buf_size <=? SSIZE_MAX / 2 then Ok (inl (buf_size * 2))
    else if buf_size <? SSIZE_MAX then Ok (inl SSIZE_MAX)
    else Ok (inr None).

Definition areadlink_with_size (file : list Z) (size : Z) : res (option (list Z)) :=
  let initial_limit := 1024 + 1 in
  let buf_size := if size <? initial_limit then size + 1 else initial_limit in
  loop 65 (readlink_turn file) buf_size.

(** ** canonicalize.c *)

(** The string in a buffer. *)
Fixpoint string_in (b : list (option Z)) : res (list Z) :=
  match b with
  | [] => Fail OutOfBounds
  | None :: _ => Fail Uninit
  | Some c :: b => if c =? 0 then Ok [] else let* s := string_in b in Ok (c :: s)
  end.

(** The set of links: the table, the triples and the memory of its entries. *)
Definition seen_set : Type := option Hash_table * triples * heap hash_entry.

Definition seen_triple (ht : seen_set) (filename : list Z) (st : file_stat) : res (bool * seen_set) :=
  let '(t, m, h) := ht in
  let* (t, h) :=
    match t with
    | Some t => Ok (Some t, h)
    | None =>
        let* (t, h) := hash_initialize malloc_ok 64 7 None h in
        let* _ := demand (match t with Some _ => true | None => false end) (ExitCall 1) in
        Ok (t, h)
    end in
  let* seen := seen_file t filename (f_ino st) (f_dev st) m h in
  if seen then Ok (true, (t, m, h))
  else let* (t, m, h) := record_file malloc_ok 64 t filename (f_ino st) (f_dev st) m h in Ok (false, (t, m, h)).

(** The variables of the main loop.  [w_name] is the string that is read, [w_end]
    the position in it; [w_extra] is extra_len, which is not 0 when the name is in
    extra_buf. *)
Record walk_state := Walk { w_name : list Z; w_end : Z; w_rname : list (option Z); w_dest : Z; w_limit : Z; w_seen : seen_set; w_extra : Z }.

Definition moved (s : walk_state) (e : Z) (rname : list (option Z)) (dest limit : Z) : walk_state :=
  Walk (w_name s) e rname dest limit (w_seen s) (w_extra s).

Definition find_end (name : list Z) (start : Z) : res Z :=
  while (S (length name)) (fun e => let* c := rd name e in Ok (negb (c =? 0) && negb (c =? ch "/"))) (fun e => Ok (e + 1)) start.

(** [if (dest > rname + 1) while ((--dest)[-1] != '/');] *)
Definition back_up (rname : list (option Z)) (dest : Z) : res Z :=
  if 1 <? dest then
    loop (Z.to_nat dest) (fun dest => let* c := rdu rname (dest - 2) in Ok (if c =? ch "/" then inr (dest - 1) else inl (dest - 1))) dest
  else Ok dest.

(** The component of [n] bytes at [start] is put behind the text. *)
Definition append_component (name : list Z) (start n : Z) (rname : list (option Z)) (dest limit : Z) : res (list (option Z) * Z * Z) :=
  let* c := rdu rname (dest - 1) in
  let* (rname, dest) := (if negb (c =? ch "/") then let* rname := wr rname dest (Some (ch "/")) in Ok (rname, dest + 1) else Ok (rname, dest)) in
  let '(rname, limit) :=
    if limit <=? dest + n then
      let new_size := limit + (if PATH_MAX <? n + 1 then n + 1 else PATH_MAX) in
      (resize (Z.to_nat new_size) None rname, new_size)
    else (rname, limit) in
  let* rname := mempcpy rname dest name start n in
  let* rname := wr rname (dest + n) (Some 0) in
  Ok (rname, dest + n, limit).

(** The name after a link: its value, and what is left of the name.  When extra_buf
    is moved, what is left of the name is in the old block. *)
Definition follow_link (s : walk_state) (buf : list Z) (rname : list (option Z)) (dest limit : Z) (seen : seen_set) (e : Z) : res walk_state :=
  let* len := strlen (w_name s) e in
  let need := zlen buf + len + 1 in
  let* extra :=
    if w_extra s =? 0 then Ok (if PATH_MAX <? need then need else PATH_MAX)
    else if w_extra s <? need then Fail Dangling
    else Ok (w_extra s) in
  let name := buf ++ drop (Z.to_nat e) (w_name s) in
  let* dest := (if head_char buf =? ch "/" then Ok 1 else back_up rname dest) in
  Ok (Walk name 0 rname dest limit seen extra).

(** A component that is not "." or "..".  errno is ENOMEM whenever areadlink_with_size returns
    NULL: malloc has failed, or the function itself has set it after the last size.  A
    readlink that fails returns -1, which as a size_t is not below the size of the buffer, so that the loop
    goes on and the error of readlink is never the one that is reported. *)
Definition enter_name (can_mode : canonicalize_mode_t) (s : walk_state) (start e : Z) : res (walk_state + Z) :=
  let* (rname, dest, limit) := append_component (w_name s) start (e - start) (w_rname s) (w_dest s) (w_limit s) in
  let next := moved s e rname dest limit in
  let* file := string_in rname in
  let* c := rd (w_name s) e in
  let* after := skip_slashes (w_name s) e in
  let* more := rd (w_name s) after in
  let at_file st :=
    match st with
    | Some (FileStat Symlink ino dev size) =>
        let* whole := string_in (map Some (w_name s)) in
        let* (seen_before, seen) := seen_triple (w_seen s) whole (FileStat Symlink ino dev size) in
        let next := Walk (w_name s) e rname dest limit seen (w_extra s) in
        if seen_before then
          if decide (can_mode = CAN_MISSING) then Ok (inl next) else Ok (inr ELOOP)
        else
          let* buf := areadlink_with_size file size in
          match buf with
          | None => if bool_decide (can_mode = CAN_EXISTING) && negb (ENOMEM =? ENOENT) then Ok (inl next) else Ok (inr ENOMEM)
          | Some buf => let* s := follow_link s buf rname dest limit seen e in Ok (inl s)
          end
    | Some (FileStat Directory _ _ _) => Ok (inl next)
    | _ => if negb (c =? 0) && bool_decide (can_mode <> CAN_MISSING) then Ok (inr ENOTDIR) else Ok (inl next)
    end in
  match lstat sys file with
  | inr saved_errno =>
      match can_mode with
      | CAN_EXISTING => Ok (inr saved_errno)
      | CAN_ALL_BUT_LAST => if negb (more =? 0) || negb (saved_errno =? ENOENT) then Ok (inr saved_errno) else Ok (inl next)
      | CAN_MISSING => at_file None
      end
  | inl st => at_file (Some st)
  end.

(** After the loop. *)
Definition finish (rname : list (option Z)) (dest : Z) : res (list Z) :=
  let* dest := (if 1 <? dest then let* c := rdu rname (dest - 1) in Ok (if c =? ch "/" then dest - 1 else dest) else Ok dest) in
  let* rname := wr rname dest (Some 0) in
  string_in (take (Z.to_nat (dest + 1)) rname).

(** One turn of [for (start = name; *start; start = end)]; the result is the name
    or an errno, with the set of links. *)
Definition canonicalize_turn (can_mode : canonicalize_mode_t) (s : walk_state) : res (walk_state + (list Z + Z) * seen_set) :=
  let finished s := let* r := finish (w_rname s) (w_dest s) in Ok (inr (inl r, w_seen s)) in
  let* c := rd (w_name s) (w_end s) in
  if c =? 0 then finished s
  else
    let* start := skip_slashes (w_name s) (w_end s) in
    let* e := find_end (w_name s) start in
    let component := take (Z.to_nat (e - start)) (drop (Z.to_nat start) (w_name s)) in
    if e - start =? 0 then finished s
    else if bool_decide (component = bytes ".") then Ok (inl (moved s e (w_rname s) (w_dest s) (w_limit s)))
    else if bool_decide (component = bytes "..") then
      let* dest := back_up (w_rname s) (w_dest s) in
      Ok (inl (moved s e (w_rname s) dest (w_limit s)))
    else
      let* r := enter_name can_mode s start e in
      Ok (match r with inl s => inl s | inr errno => inr (inr errno, w_seen s) end).

(** The buffer at the start: [None] is the NULL of xgetcwd. *)
Definition first_name (name : list Z) : res (list (option Z) * Z * Z + Z) :=
  if negb (head_char name =? ch "/") then
    match getcwd sys with
    | inr e => let* _ := demand (negb (e =? ENOMEM)) (ExitCall 1) in Ok (inr e)
    | inl cwd =>
        let dest := zlen cwd in
        let rname := map Some (cstr cwd) in
        if dest <? PATH_MAX then Ok (inl (resize (Z.to_nat PATH_MAX) None rname, dest, PATH_MAX)) else Ok (inl (rname, dest, dest))
    end
  else Ok (inl (Some (ch "/") :: replicate (Z.to_nat (PATH_MAX - 1)) None, 1, PATH_MAX)).

(** [fuel] bounds the turns of the main loop. *)
Definition canonicalize_filename_mode (fuel : nat) (name : list Z) (can_mode : canonicalize_mode_t) : res (list Z + Z) :=
  if bool_decide (name = []) then Ok (inr ENOENT)
  else
    let* r := first_name name in
    match r with
    | inr e => Ok (inr e)
    | inl (rname, dest, limit) =>
        let* (r, (t, _, h)) := loop fuel (canonicalize_turn can_mode) (Walk (cstr name) 0 rname dest limit (None, ∅, Heap ∅ 0) 0) in
        let* _ := match t with Some t => hash_free true t h | None => Ok (h, []) end in
        Ok r
    end.

(** ** readlink.c *)

(** The output and the exit status. *)
Definition readlink_main (fuel : nat) (can_mode : option canonicalize_mode_t) (no_newline : bool) (operands : list (list Z)) : res (list Z * Z) :=
  match operands with
  | [fname] =>
      let* value :=
        match can_mode with
        | Some mode => let* r := canonicalize_filename_mode fuel fname mode in Ok (match r with inl v => Some v | inr _ => None end)
        | None => areadlink_with_size fname 63
        end in
      Ok (match value with Some v => (v ++ (if no_newline then [] else [10]), 0) | None => ([], 1) end)
  | _ => Ok ([], 1)
  end.
End canonicalize.

(** ** Reading a name *)

(** A component with whether anything follows it. *)
Definition emit (c : list Z) (followed : bool) (l : list (list Z * bool)) : list (list Z * bool) :=
  match c with [] => l | _ => (c, followed) :: l end.
Fixpoint split_name (cur s : list Z) : list (list Z * bool) :=
  match s with
  | [] => emit cur false []
  | a :: s => if ISSLASH a then emit cur true (split_name [] s) else split_name (cur ++ [a]) s
  end.

Lemma split_slashes k s : split_name [] (slashes k ++ s) = split_name [] s.
Proof. induction k as [|k IH]; [done|]. rewrite slashes_cons. exact IH. Qed.

Lemma split_run c : forall cur s, no_slash c -> split_name cur (c ++ s) = split_name (cur ++ c) s.
Proof.
  induction c as [|a c IH]; intros cur s Hc; [by rewrite app_nil_r|]. apply Forall_cons in Hc as [Ha Hc]. cbn [app split_name].
  rewrite Ha, IH by done. by rewrite <- app_assoc.
Qed.

(** What follows a component. *)
Definition at_end (s : list Z) : Prop := s = [] \/ exists s', s = DIRECTORY_SEPARATOR :: s'.

Lemma split_component c s : c <> [] -> no_slash c -> at_end s ->
  split_name [] (c ++ s) = (c, negb (head_char s =? 0)) :: split_name [] s.
Proof.
  intros Hne Hc Hs. rewrite split_run by done. cbn [app]. destruct Hs as [->|[s' ->]]; by destruct c.
Qed.

Lemma name_parts s : exists k c s', s = slashes k ++ c ++ s' /\ no_slash c /\ at_end s' /\ (c = [] -> s' = []).
Proof.
  induction s as [|a s (k & c & s' & -> & Hc & Hs & He)]; [exists 0%nat, [], []; repeat split; [constructor|by left]|].
  destruct (ISSLASH a) eqn:Ea.
  - apply Z.eqb_eq in Ea as ->. by exists (S k), c, s'.
  - destruct k as [|k].
    + exists 0%nat, (a :: c), s'. repeat split; [by constructor|done|done].
    + exists 0%nat, [a], (slashes (S k) ++ c ++ s'). repeat split; [by repeat constructor|right; by eexists|done].
Qed.

(** A scan over bytes of one kind. *)
Lemma while_run (f : Z -> bool) mid : forall pre post fuel, Forall (fun c => f c = true) mid -> f (head_char post) = false -> (length mid < fuel)%nat ->
  while fuel (fun p => let* c := rd (cstr (pre ++ mid ++ post)) p in Ok (f c)) (fun p => Ok (p + 1)) (zlen pre) = Ok (zlen (pre ++ mid)).
Proof.
  induction mid as [|c mid IH]; intros pre post fuel Hm Hp Hf; (destruct fuel as [|fuel]; [cbn [length] in Hf; lia|]); unfold while; cbn [loop].
  - rewrite rd_cstr by done. cbn [bind app]. rewrite Hp, app_nil_r. done.
  - apply Forall_cons in Hm as [Hc Hm]. rewrite rd_cstr by done. cbn [bind head_char app]. rewrite Hc. cbn [bind].
    specialize (IH (pre ++ [c]) post fuel Hm Hp ltac:(cbn [length] in *; lia)). rewrite <- !app_assoc, zlen_snoc in IH. exact IH.
Qed.

Lemma skip_here pre k s : match s with c :: _ => ISSLASH c = false | [] => True end ->
  skip_slashes (cstr (pre ++ slashes k ++ s)) (zlen pre) = Ok (zlen (pre ++ slashes k)).
Proof.
  intros Hs. unfold skip_slashes. apply while_run; [by apply Forall_replicate|by destruct s|].
  unfold cstr. rewrite !length_app. lia.
Qed.

Lemma find_end_here pre c s : nul_free c -> no_slash c -> at_end s ->
  find_end (cstr (pre ++ c ++ s)) (zlen pre) = Ok (zlen (pre ++ c)).
Proof.
  intros Hn Hc Hs. unfold find_end. apply (while_run (fun c => negb (c =? 0) && negb (c =? ch "/"))).
  - unfold nul_free, no_slash in *. rewrite Forall_forall in *. intros x Hx. specialize (Hn x Hx). specialize (Hc x Hx). cbn beta in *. unfold ISSLASH, DIRECTORY_SEPARATOR in Hc. rewrite Hc. by rewrite (proj2 (Z.eqb_neq x 0)).
  - by destruct Hs as [->|[s' ->]].
  - unfold cstr. rewrite !length_app. lia.
Qed.

(** ** The name that is built *)

(** Each component after a slash; the root is one slash. *)
Definition raw_text (stack : list (list Z)) : list Z := flat_map (fun c => DIRECTORY_SEPARATOR :: c) stack.
Definition path_text (stack : list (list Z)) : list Z := match stack with [] => [DIRECTORY_SEPARATOR] | _ => raw_text stack end.

(** A component of a canonical name. *)
Definition proper (c : list Z) : Prop := c <> [] /\ no_slash c /\ nul_free c /\ c <> bytes "." /\ c <> bytes "..".

(** The text for a stack of components, with or without a slash behind it. *)
Definition text_of (stack : list (list Z)) (t : list Z) : Prop := t = path_text stack \/ t = raw_text stack ++ slashes 1.

Lemma raw_snoc stack c : raw_text (stack ++ [c]) = (raw_text stack ++ slashes 1) ++ c.
Proof. unfold raw_text. rewrite flat_map_app. cbn [flat_map]. rewrite app_nil_r, <- app_assoc. done. Qed.

Lemma path_snoc stack c : path_text (stack ++ [c]) = (raw_text stack ++ slashes 1) ++ c.
Proof. rewrite <- raw_snoc. by destruct stack. Qed.

(** The text ends in a slash, or it is the text of a stack that is not empty. *)
Lemma text_cases stack t : text_of stack t -> t = raw_text stack ++ slashes 1 \/ stack <> [] /\ t = raw_text stack.
Proof. intros [ -> | -> ]; [|by left]. destruct stack as [|c stack]; [by left|by right]. Qed.

Lemma raw_nul_free stack : Forall proper stack -> nul_free (raw_text stack).
Proof.
  induction 1 as [|c stack (_ & _ & Hn & _) _ IH]; [by constructor|]. unfold raw_text. cbn [flat_map]. constructor; [done|]. apply Forall_app. by split.
Qed.

(** The last byte of the text of a stack is not a slash. *)
Lemma raw_last stack : stack <> [] -> Forall proper stack -> exists u x, raw_text stack = u ++ [x] /\ ISSLASH x = false.
Proof.
  intros Hne Hs. destruct stack as [|c stack _] using rev_ind; [done|]. apply Forall_app in Hs as [_ [(Hc & Hc' & _) _]%Forall_cons].
  destruct (exists_last Hc) as (c' & x & ->). apply Forall_app in Hc' as [_ [Hx _]%Forall_cons]. exists ((raw_text stack ++ slashes 1) ++ c'), x. split; [|done]. by rewrite raw_snoc, app_assoc.
Qed.

(** The buffer with the text [t]; [short]: the name that is read is not long. *)
Definition buffer (t : list Z) (rname : list (option Z)) (limit : Z) (short : Prop) : Prop :=
  exists rest, rname = map Some t ++ rest /\ zlen t <= limit /\ zlen t < zlen rname /\ limit <= zlen rname /\ (zlen t < limit \/ short).

Lemma zlen_map_some (t : list Z) : zlen (map Some t) = zlen t.
Proof. unfold zlen. by rewrite length_map. Qed.

Lemma rdu_text t x u rest i : zlen t = i -> rdu (map Some (t ++ x :: u) ++ rest) i = Ok x.
Proof. intros <-. rewrite map_app, <- app_assoc. cbn [map app]. apply rdu_middle, zlen_map_some. Qed.

Lemma string_in_text t rest : nul_free t -> string_in (map Some t ++ Some 0 :: rest) = Ok t.
Proof.
  induction 1 as [|c t Hc _ IH]; [done|]. cbn [map app string_in]. rewrite (proj2 (Z.eqb_neq c 0) Hc), IH. done.
Qed.

(** *** Going back *)

Lemma back_loop c : forall u x rest fuel, no_slash c -> (length c < fuel)%nat ->
  loop fuel (fun dest => let* c := rdu (map Some ((u ++ slashes 1) ++ c ++ [x]) ++ rest) (dest - 2) in Ok (if c =? ch "/" then inr (dest - 1) else inl (dest - 1))) (zlen ((u ++ slashes 1) ++ c ++ [x])) =
  Ok (zlen (u ++ slashes 1)).
Proof.
  induction c as [|y c IH] using rev_ind; intros u x rest fuel Hc Hf; (destruct fuel as [|fuel]; [rewrite ?length_app in Hf; cbn [length] in Hf; lia|]); cbn [loop].
  - cbn [app]. rewrite !zlen_snoc. replace (zlen (u ++ slashes 1) + 1 - 2) with (zlen u) by (rewrite zlen_app; change (zlen (slashes 1)) with 1; lia).
    rewrite <- app_assoc. cbn [slashes replicate app]. rewrite rdu_text by done. cbn [bind]. change (DIRECTORY_SEPARATOR =? ch "/") with true. cbv iota. cbn [bind]. f_equal. lia.
  - apply Forall_app in Hc as [Hc [Hy _]%Forall_cons]. rewrite length_app in Hf. cbn [length] in Hf.
    assert (zlen ((u ++ slashes 1) ++ (c ++ [y]) ++ [x]) - 2 = zlen ((u ++ slashes 1) ++ c)) as E by (rewrite !zlen_app; change (zlen [x]) with 1; change (zlen [y]) with 1; lia).
    rewrite E. assert ((u ++ slashes 1) ++ (c ++ [y]) ++ [x] = ((u ++ slashes 1) ++ c) ++ y :: [x]) as E2 by (by rewrite <- !app_assoc). rewrite E2 at 1. rewrite rdu_text by done. cbn [bind].
    unfold ISSLASH, DIRECTORY_SEPARATOR in Hy. rewrite Hy. cbn [bind].
    assert (map Some ((u ++ slashes 1) ++ (c ++ [y]) ++ [x]) ++ rest = map Some ((u ++ slashes 1) ++ c ++ [y]) ++ Some x :: rest) as E3 by (by rewrite !map_app, <- !app_assoc).
    rewrite E3. replace (zlen ((u ++ slashes 1) ++ (c ++ [y]) ++ [x]) - 1) with (zlen ((u ++ slashes 1) ++ c ++ [y])) by (rewrite !zlen_app; change (zlen [x]) with 1; lia).
    apply IH; [done|lia].
Qed.

(** Backing up takes the last component away. *)
Lemma back_up_ok stack t rname limit short : Forall proper stack -> text_of stack t -> buffer t rname limit short ->
  exists t', back_up rname (zlen t) = Ok (zlen t') /\ text_of (removelast stack) t' /\ buffer t' rname limit short.
Proof.
  intros Hs Ht Hb. destruct stack as [|c stack _] using rev_ind.
  { assert (t = [DIRECTORY_SEPARATOR]) as -> by (by destruct Ht as [ -> | -> ]). exists [DIRECTORY_SEPARATOR]. split; [done|]. split; [by left|done]. }
  rewrite removelast_last. apply Forall_app in Hs as [_ [(Hc & Hc' & _) _]%Forall_cons].
  assert (exists c' x, t = (raw_text stack ++ slashes 1) ++ c' ++ [x] /\ no_slash c') as (c' & x & -> & Hns).
  { destruct (exists_last Hc) as (c0 & x & ->). pose proof Hc' as [Hc0 _]%Forall_app. destruct (text_cases _ _ Ht) as [->|[_ ->]]; rewrite raw_snoc; [|by exists c0, x].
    exists (c0 ++ [x]), DIRECTORY_SEPARATOR. split; [by rewrite <- !app_assoc|done]. }
  exists (raw_text stack ++ slashes 1). destruct Hb as (rest & -> & H1 & H2 & H3 & H4). split; [|split; [by right|]].
  - unfold back_up. assert (1 < zlen ((raw_text stack ++ slashes 1) ++ c' ++ [x])) as Hlt.
    { rewrite !zlen_app. change (zlen (slashes 1)) with 1. change (zlen [x]) with 1. pose proof (zlen_nonneg (raw_text stack)). pose proof (zlen_nonneg c'). lia. }
    rewrite (proj2 (Z.ltb_lt _ _) Hlt). apply back_loop; [done|]. unfold zlen. rewrite !length_app. cbn [length slashes replicate]. lia.
  - exists (map Some (c' ++ [x]) ++ rest). rewrite !map_app, <- !app_assoc. split; [done|]. unfold zlen in *. rewrite ?length_app, ?length_map, ?length_app in *. cbn [length] in *.
    split_and!; [lia|lia|lia|left; lia].
Qed.

(** *** Putting a component behind the text *)

Lemma append_slash stack t rname limit short : Forall proper stack -> text_of stack t -> buffer t rname limit short ->
  exists t1 rest, t1 = raw_text stack ++ slashes 1 /\ zlen t1 <= zlen t + 1 /\
  (let* c := rdu rname (zlen t - 1) in
   if negb (c =? ch "/") then let* rname := wr rname (zlen t) (Some (ch "/")) in Ok (rname, zlen t + 1) else Ok (rname, zlen t)) =
  Ok (map Some t1 ++ rest, zlen t1) /\ zlen (map Some t1 ++ rest) = zlen rname.
Proof.
  intros Hs Ht (rest & -> & H1 & H2 & H3 & H4). exists (raw_text stack ++ slashes 1). pose proof (text_cases _ _ Ht) as Ht'. change (slashes 1) with [DIRECTORY_SEPARATOR] in *. destruct Ht' as [->|[Hne ->]].
  - exists rest. split; [done|]. split; [lia|]. rewrite zlen_snoc. replace (zlen (raw_text stack) + 1 - 1) with (zlen (raw_text stack)) by lia.
    rewrite rdu_text by done. done.
  - destruct (raw_last stack Hne Hs) as (u & x & Eu & Hx). destruct rest as [|r rest].
    { rewrite app_nil_r, zlen_map_some in H2. lia. }
    exists rest. split; [done|]. split; [rewrite zlen_snoc; lia|]. rewrite Eu, zlen_snoc. replace (zlen u + 1 - 1) with (zlen u) by lia. rewrite rdu_text by done. cbn [bind].
    unfold ISSLASH, DIRECTORY_SEPARATOR in Hx. rewrite Hx. cbn [negb]. rewrite wr_middle by (rewrite zlen_map_some, zlen_snoc; lia). cbn [bind]. split.
    + by rewrite (map_app _ (u ++ [x])), <- app_assoc, !zlen_snoc.
    + unfold zlen. repeat (rewrite length_app || rewrite length_map || cbn [length]). lia.
Qed.

Lemma append_component_ok stack t pre c post rname limit (short : Prop) : Forall proper stack -> proper c -> text_of stack t -> buffer t rname limit short -> (short -> zlen c < PATH_MAX - 1) ->
  exists rname' limit', append_component (cstr (pre ++ c ++ post)) (zlen pre) (zlen c) rname (zlen t) limit = Ok (rname', zlen (path_text (stack ++ [c])), limit') /\
    buffer (path_text (stack ++ [c])) rname' limit' short /\ string_in rname' = Ok (path_text (stack ++ [c])).
Proof.
  intros Hs Hc Ht Hb Hshort. unfold append_component. destruct (append_slash _ _ _ _ _ Hs Ht Hb) as (t1 & rest & Et & Hle & E & Hlen).
  destruct Hb as (rest0 & Er & H1 & H2 & H3 & H4). destruct (rdu rname (zlen t - 1)) as [c0|]; [|done]. cbn [bind] in E |- *. rewrite E. cbn [bind]. clear E c0. pose proof (zlen_nonneg c) as Hcn.
  set (grown := if limit <=? zlen t1 + zlen c then _ else _).
  assert (exists rest' limit', grown = (map Some t1 ++ rest', limit') /\ zlen t1 + zlen c < limit' /\ limit' <= zlen t1 + zlen rest') as (rest' & limit' & -> & G1 & G2).
  { subst grown. rewrite zlen_app, zlen_map_some in Hlen. destruct (Z.leb_spec limit (zlen t1 + zlen c)) as [Hg|Hg]; [|exists rest, limit; split; [done|lia]].
    set (new := limit + _). assert (zlen t1 + zlen c < new) as Hnew by (subst new; unfold PATH_MAX in *; destruct (Z.ltb_spec 4096 (zlen c + 1)); destruct H4 as [H4|H4%Hshort]; lia).
    pose proof (zlen_nonneg t1). exists (resize (Z.to_nat new - length t1) None rest), new. split; [|split; [done|unfold zlen in *; rewrite length_resize; lia]].
    rewrite resize_app_ge by (rewrite length_map; unfold zlen in *; lia). by rewrite length_map. }
  assert (cstr (pre ++ c ++ post) = pre ++ c ++ cstr post) as -> by (unfold cstr; by rewrite <- !app_assoc).
  rewrite mempcpy_ok by (unfold zlen in *; lia). cbn [bind]. destruct (drop (length c) rest') as [|r rest''] eqn:Ed.
  { apply (f_equal length) in Ed. rewrite length_drop in Ed. cbn [length] in Ed. unfold zlen in *. lia. }
  rewrite wr_middle by (by rewrite zlen_map_some, zlen_app). cbn [bind].
  assert (t1 ++ c = path_text (stack ++ [c])) as Ep by (by rewrite path_snoc, Et). rewrite <- zlen_app, Ep. eexists _, _. split; [reflexivity|]. split.
  - exists (Some 0 :: rest''). apply (f_equal length) in Ed. rewrite length_drop in Ed. cbn [length] in Ed.
    rewrite <- Ep, !zlen_app, zlen_cons, zlen_map_some, zlen_app. unfold zlen in *. split_and!; [done|lia|lia|lia|lia].
  - apply string_in_text. rewrite path_snoc. destruct Hc as (_ & _ & Hc & _). apply Forall_app; split; [apply Forall_app; split; [by apply raw_nul_free|by repeat constructor]|done].
Qed.

(** When the working directory has PATH_MAX bytes or more, the limit is set to the
    end of its text although a slash is put behind it: a component of PATH_MAX - 1
    bytes or more is written one byte beyond the buffer. *)
Lemma append_overruns stack pre c post : stack <> [] -> Forall proper stack -> PATH_MAX - 1 <= zlen c ->
  append_component (cstr (pre ++ c ++ post)) (zlen pre) (zlen c) (map Some (cstr (raw_text stack))) (zlen (raw_text stack)) (zlen (raw_text stack)) = Fail OutOfBounds.
Proof.
  intros Hne Hs Hc. unfold append_component. assert (map Some (cstr (raw_text stack)) = map Some (raw_text stack) ++ [Some 0]) as Em by (unfold cstr; by rewrite map_app).
  assert (buffer (raw_text stack) (map Some (cstr (raw_text stack))) (zlen (raw_text stack)) True) as Hb.
  { exists [Some 0]. rewrite Em, zlen_snoc, zlen_map_some. split_and!; auto; lia. }
  destruct (append_slash stack (raw_text stack) _ _ _ Hs ltac:(left; by destruct stack) Hb) as (t1 & rest & Et & _ & E & Hlen).
  destruct (rdu _ (zlen (raw_text stack) - 1)) as [c0|]; [|done]. cbn [bind] in E |- *. rewrite E. cbn [bind]. clear E c0.
  assert (zlen t1 = zlen (raw_text stack) + 1) as Hz by (rewrite Et, zlen_app; done). unfold PATH_MAX in *. pose proof (zlen_nonneg (raw_text stack)).
  rewrite (proj2 (Z.leb_le _ _)) by lia. set (new := zlen (raw_text stack) + _). assert (new = zlen t1 + zlen c) as Hnew by (subst new; destruct (Z.ltb_spec 4096 (zlen c + 1)); lia). clearbody new.
  rewrite resize_app_ge by (rewrite length_map; unfold zlen in *; lia). rewrite length_map.
  assert (cstr (pre ++ c ++ post) = pre ++ c ++ cstr post) as -> by (unfold cstr; by rewrite <- !app_assoc).
  rewrite mempcpy_ok by (rewrite length_resize; unfold zlen in *; lia). cbn [bind]. rewrite drop_ge by (rewrite length_resize; unfold zlen in *; lia).
  rewrite app_nil_r. unfold wr, in_range. rewrite zlen_map_some, zlen_app, Z.ltb_irrefl, andb_false_r. done.
Qed.

Lemma finish_ok stack t rname limit short : Forall proper stack -> text_of stack t -> buffer t rname limit short -> finish rname (zlen t) = Ok (path_text stack).
Proof.
  intros Hs Ht (rest & -> & H1 & H2 & _). unfold finish.
  assert (nul_free (path_text stack)) as Hn by (destruct stack; [by repeat constructor|by apply raw_nul_free]).
  assert (exists rest', map Some t ++ rest = map Some (path_text stack) ++ rest' /\ rest' <> [] /\
    (if 1 <? zlen t then let* c := rdu (map Some t ++ rest) (zlen t - 1) in Ok (if c =? ch "/" then zlen t - 1 else zlen t) else Ok (zlen t)) = Ok (zlen (path_text stack))) as (rest' & -> & Hne & ->).
  { assert (rest <> []) as Hr by (intros ->; rewrite app_nil_r, zlen_map_some in H2; lia). destruct stack as [|c stack].
    { assert (t = [DIRECTORY_SEPARATOR]) as -> by (by destruct Ht as [ -> | -> ]). by exists rest. }
    change (path_text (c :: stack)) with (raw_text (c :: stack)) in *. destruct (raw_last (c :: stack) ltac:(done) Hs) as (u & x & Eu & Hx). pose proof (zlen_nonneg u).
    unfold ISSLASH, DIRECTORY_SEPARATOR in Hx. destruct Ht as [ -> | -> ].
    - change (path_text (c :: stack)) with (raw_text (c :: stack)) in *. exists rest. split; [done|]. split; [done|]. rewrite Eu, zlen_snoc. destruct (Z.ltb_spec 1 (zlen u + 1)); [|done].
      replace (zlen u + 1 - 1) with (zlen u) by lia. rewrite rdu_text by done. cbn [bind]. by rewrite Hx.
    - exists (Some DIRECTORY_SEPARATOR :: rest). change (slashes 1) with [DIRECTORY_SEPARATOR]. split; [by rewrite map_app, <- app_assoc|]. split; [done|]. rewrite zlen_snoc, Eu, zlen_snoc.
      rewrite (proj2 (Z.ltb_lt 1 _)) by lia. rewrite rdu_text by (rewrite zlen_snoc; lia). cbn [bind]. change (DIRECTORY_SEPARATOR =? ch "/") with true. cbv iota. f_equal. lia. }
  cbn [bind]. destruct rest' as [|r rest']; [done|]. rewrite wr_middle by apply zlen_map_some. cbn [bind].
  rewrite cons_middle, app_assoc, take_app_le by (rewrite length_app, length_map; unfold zlen; cbn [length]; lia).
  rewrite firstn_all2 by (rewrite length_app, length_map; unfold zlen; cbn [length]; lia). by apply string_in_text.
Qed.

(** *** The first link *)

(** The set of links, when there is memory for it. *)
Lemma initialize_7 malloc_ok h : exists t h', hash_initialize malloc_ok 64 7 None h = Ok (t, h') /\
  forall t', t = Some t' -> n_buckets t' = 11 /\ bucket t' = replicate 11 (Entry 0 None).
Proof.
  assert (compute_bucket_size 64 7 (tuning_of DefaultTuning) = Ok 11) as E by (vm_compute; reflexivity).
  unfold hash_initialize, request, malloc. destruct (malloc_ok (calls h)); [|by eexists _, _]. cbv beta iota delta [is_null].
  match goal with |- context [check_tuning ?x] => destruct (check_tuning x) as [ok p] eqn:Ec end. assert (ok = true) as -> by (vm_compute in Ec; congruence).
  cbn [negb]. rewrite E. cbn [bind]. change (11 =? 0) with false. cbv iota. destruct (malloc_ok _); cbv beta iota delta [is_null].
  - eexists _, _. split; [done|]. by intros ? [= <-].
  - erewrite free_Ok by (cbn [cells]; apply lookup_insert_eq). by eexists _, _.
Qed.

Lemma seen_triple_faults malloc_ok m h filename st :
  exists f, seen_triple malloc_ok (None, m, h) filename st = Fail f /\ (f = NullDeref \/ f = ExitCall 1).
Proof.
  unfold seen_triple. destruct (initialize_7 malloc_ok h) as ([t|] & h' & -> & Ht); [|exists (ExitCall 1); split; [done|by right]].
  destruct (Ht t eq_refl) as [En Eb]. cbn [bind demand]. exists NullDeref. split; [|by left].
  destruct (first_record_faults malloc_ok 64 t filename (f_ino st) (f_dev st) m h') as [Hr Hs]; [by rewrite En|by rewrite En, Eb|rewrite Eb; by repeat constructor|].
  rewrite Hs. cbn [bind]. by rewrite Hr.
Qed.

(** ** The walk along a name *)

Section walk.
Context (sys : system) (can_mode : canonicalize_mode_t).

(** How the walk ends: at a file, at an error, or at a symbolic link. *)
Inductive outcome := Reached (stack : list (list Z)) | Refused (errno : Z) | AtLink (file : list Z).

(** From the directory [stack], the components of the name one by one. *)
Fixpoint resolve_path (stack : list (list Z)) (name : list (list Z * bool)) : outcome :=
  match name with
  | [] => Reached stack
  | (c, followed) :: rest =>
      if bool_decide (c = bytes ".") then resolve_path stack rest
      else if bool_decide (c = bytes "..") then resolve_path (removelast stack) rest
      else
        let file := stack ++ [c] in
        match lstat sys (path_text file), can_mode with
        | inr e, CAN_EXISTING => Refused e
        | inr e, CAN_ALL_BUT_LAST => if bool_decide (rest = []) && (e =? ENOENT) then resolve_path file rest else Refused e
        | inr e, CAN_MISSING => resolve_path file rest
        | inl st, _ =>
            match f_kind st with
            | Symlink => AtLink (path_text file)
            | Directory => resolve_path file rest
            | Other => if followed && bool_decide (can_mode <> CAN_MISSING) then Refused ENOTDIR else resolve_path file rest
            end
        end
  end.
End walk.

Section loop.
Context (sys : system) (size_ok : Z -> bool) (malloc_ok : nat -> bool) (can_mode : canonicalize_mode_t).

Definition no_links : seen_set := (None, ∅, Heap ∅ 0).

(** What the code makes of the outcome. *)
Definition delivers (o : outcome) (r : res ((list Z + Z) * seen_set)) : Prop :=
  match o with
  | Reached stack => Forall proper stack /\ r = Ok (inl (path_text stack), no_links)
  | Refused e => r = Ok (inr e, no_links)
  | AtLink _ => exists f, r = Fail f /\ (f = NullDeref \/ f = ExitCall 1)
  end.

(** The state of the loop behind [pre], with [post] to come. *)
Definition at_name (pre post t : list Z) (rname : list (option Z)) (limit : Z) : walk_state := Walk (cstr (pre ++ post)) (zlen pre) rname (zlen t) limit no_links 0.

Lemma head_spec s : nul_free s -> (head_char s =? 0) = bool_decide (s = []).
Proof. destruct 1 as [|c s Hc _]; [done|]. cbn [head_char]. rewrite (proj2 (Z.eqb_neq c 0) Hc). symmetry. by apply bool_decide_eq_false. Qed.

(** After the slashes nothing is left when there are no more components. *)
Lemma more_spec pre s : nul_free s ->
  exists a m, skip_slashes (cstr (pre ++ s)) (zlen pre) = Ok a /\ rd (cstr (pre ++ s)) a = Ok m /\ (m =? 0) = bool_decide (split_name [] s = []).
Proof.
  intros Hs. destruct (leading_split s) as (s' & E & Hh). revert E. generalize (leading s) as k. intros k ->.
  exists (zlen (pre ++ slashes k)), (head_char s'). split; [by apply skip_here|]. split; [rewrite app_assoc; by apply rd_cstr|].
  apply Forall_app in Hs as [_ Hs]. rewrite head_spec, split_slashes by done.
  apply bool_decide_ext. split; [by intros ->|]. destruct s' as [|a s']; [done|]. cbn [split_name]. rewrite Hh. intros Es. exfalso.
  assert (forall s cur, cur <> [] -> split_name cur s <> []) as Hx; [|by apply (Hx s' [a])]. clear. induction s as [|b s IH]; intros cur Hc; cbn [split_name]; [by destruct cur|].
  destruct (ISSLASH b); [by destruct cur|]. apply IH. by destruct cur.
Qed.

Context (short : Prop).

Lemma enter_name_ok stack t pre c post p0 rname limit : Forall proper stack -> proper c -> nul_free (pre ++ post) -> text_of stack t -> buffer t rname limit short -> (short -> zlen c < PATH_MAX - 1) ->
  let r := enter_name sys size_ok malloc_ok can_mode (Walk (cstr (pre ++ c ++ post)) p0 rname (zlen t) limit no_links 0) (zlen pre) (zlen (pre ++ c)) in
  exists rname' limit', buffer (path_text (stack ++ [c])) rname' limit' short /\
  let next := at_name (pre ++ c) post (path_text (stack ++ [c])) rname' limit' in
  match lstat sys (path_text (stack ++ [c])), can_mode with
  | inr e, CAN_EXISTING => r = Ok (inr e)
  | inr e, CAN_ALL_BUT_LAST => r = if bool_decide (split_name [] post = []) && (e =? ENOENT) then Ok (inl next) else Ok (inr e)
  | inr e, CAN_MISSING => r = Ok (inl next)
  | inl st, _ =>
      match f_kind st with
      | Symlink => exists f, r = Fail f /\ (f = NullDeref \/ f = ExitCall 1)
      | Directory => r = Ok (inl next)
      | Other => r = if negb (head_char post =? 0) && bool_decide (can_mode <> CAN_MISSING) then Ok (inr ENOTDIR) else Ok (inl next)
      end
  end.
Proof.
  intros Hs Hc Hn Ht Hb Hshort. destruct (append_component_ok stack t pre c post rname limit short Hs Hc Ht Hb Hshort) as (rname' & limit' & Ea & Hb' & Est).
  apply Forall_app in Hn as [Hpre Hpost]. cbv zeta. exists rname', limit'. split; [done|]. unfold enter_name. cbn [w_name w_rname w_dest w_limit w_seen w_extra].
  replace (zlen (pre ++ c) - zlen pre) with (zlen c) by (rewrite zlen_app; lia). rewrite Ea. cbn [bind]. rewrite Est. cbn [bind].
  assert (cstr (pre ++ c ++ post) = cstr ((pre ++ c) ++ post)) as En by (by rewrite <- app_assoc). unfold moved, at_name. cbn [w_name w_seen w_extra]. rewrite <- En.
  rewrite En, rd_cstr, <- En by done. cbn [bind]. destruct (more_spec (pre ++ c) post Hpost) as (a & m & E1 & E2 & E3). rewrite <- En in E1, E2. rewrite E1. cbn [bind]. rewrite E2. cbn [bind].
  destruct (lstat sys (path_text (stack ++ [c]))) as [[kind ino dev size]|e].
  - cbn [f_kind]. destruct kind; [done| |by destruct (_ && _)].
    assert (string_in (map Some (cstr (pre ++ c ++ post))) = Ok (pre ++ c ++ post)) as ->.
    { unfold cstr. rewrite map_app. apply string_in_text. destruct Hc as (_ & _ & Hc & _). apply Forall_app. split; [done|]. by apply Forall_app. }
    cbn [bind]. destruct (seen_triple_faults malloc_ok ∅ (Heap ∅ 0) (pre ++ c ++ post) (FileStat Symlink ino dev size)) as (f & Ef & Hf). unfold no_links. rewrite Ef. cbn [bind]. by exists f.
  - destruct can_mode; [done| |].
    + rewrite E3. destruct (bool_decide _), (e =? ENOENT); done.
    + rewrite bool_decide_eq_false_2 by (intros H; by apply H). by rewrite andb_false_r.
Qed.

(** The whole loop. *)
Lemma canonicalize_loop fuel : forall pre post stack t rname limit, (length post < fuel)%nat ->
  Forall proper stack -> text_of stack t -> nul_free (pre ++ post) -> buffer t rname limit short -> (short -> zlen post < PATH_MAX - 1) ->
  delivers (resolve_path sys can_mode stack (split_name [] post)) (loop fuel (canonicalize_turn sys size_ok malloc_ok can_mode) (at_name pre post t rname limit)).
Proof.
  induction fuel as [|fuel IH]; intros pre post stack t rname limit Hf Hs Ht Hn Hb Hshort; [lia|]. cbn [loop].
  unfold canonicalize_turn at 1. unfold at_name. cbn [w_name w_end w_rname w_dest w_limit w_seen].
  assert (bind (finish rname (zlen t)) (fun r => Ok (inr (inl r, no_links)) : res (walk_state + (list Z + Z) * seen_set)) = Ok (inr (inl (path_text stack), no_links))) as Hfin by (by rewrite (finish_ok stack t rname limit short)).
  pose proof Hn as [Hpre Hpost]%Forall_app. rewrite rd_cstr by done. cbn [bind]. rewrite head_spec by done. case_bool_decide as Ee.
  { subst post. rewrite Hfin. done. }
  destruct (name_parts post) as (k & c & post' & -> & Hc & Hat & Hcn). rewrite split_slashes.
  assert (match c ++ post' with a :: _ => ISSLASH a = false | [] => True end) as Hh by (destruct c as [|a c]; [by rewrite (Hcn eq_refl)|by apply Forall_cons in Hc as [? _]]).
  rewrite skip_here by done. cbn [bind]. rewrite app_assoc. apply Forall_app in Hpost as [Hpk [Hcz Hpost']%Forall_app]. rewrite find_end_here by done. cbn [bind].
  assert (zlen ((pre ++ slashes k) ++ c) - zlen (pre ++ slashes k) = zlen c) as -> by (rewrite (zlen_app _ c); lia).
  assert (take (Z.to_nat (zlen c)) (drop (Z.to_nat (zlen (pre ++ slashes k))) (cstr ((pre ++ slashes k) ++ c ++ post'))) = c) as ->.
  { unfold cstr, zlen. rewrite !Nat2Z.id, <- app_assoc, drop_app_length, <- app_assoc, take_app_length. done. }
  destruct (decide (c = [])) as [->|Hne].
  { change (zlen [] =? 0) with true. cbv iota. rewrite Hfin. cbn [bind]. rewrite (Hcn eq_refl). done. }
  rewrite (proj2 (Z.eqb_neq (zlen c) 0)) by (destruct c; [done|]; rewrite zlen_cons; pose proof (zlen_nonneg c); lia). rewrite split_component by done. cbn [resolve_path].
  assert (length post' < fuel)%nat as Hf' by (rewrite !length_app in Hf; destruct c; [done|cbn [length] in Hf; lia]).
  assert (zlen c <= zlen (slashes k ++ c ++ post') /\ zlen post' <= zlen (slashes k ++ c ++ post')) as [Hl1 Hl2].
  { rewrite !zlen_app. pose proof (zlen_nonneg c). pose proof (zlen_nonneg post'). pose proof (zlen_nonneg (slashes k)). lia. }
  assert (nul_free (((pre ++ slashes k) ++ c) ++ post')) as Hn' by (by rewrite <- !app_assoc).
  assert (forall stack t rname limit, Forall proper stack -> text_of stack t -> buffer t rname limit short ->
    delivers (resolve_path sys can_mode stack (split_name [] post')) (loop fuel (canonicalize_turn sys size_ok malloc_ok can_mode) (at_name ((pre ++ slashes k) ++ c) post' t rname limit))) as Hgo.
  { intros. apply IH; auto. intros Hsh. specialize (Hshort Hsh). lia. }
  unfold moved. cbn [w_name w_seen w_extra]. rewrite (app_assoc (pre ++ slashes k) c post').
  case_bool_decide as Edot; [cbn [bind]; by apply Hgo|]. case_bool_decide as Edd.
  { destruct (back_up_ok stack t rname limit short Hs Ht Hb) as (t' & -> & Ht' & Hb'). cbn [bind]. apply Hgo; [|done|done]. destruct stack as [|c0 stack0 _] using rev_ind; [done|]. rewrite removelast_last. by apply Forall_app in Hs as [? _]. }
  assert (proper c) as Hp by done. 
  rewrite <- (app_assoc (pre ++ slashes k) c post').
  destruct (enter_name_ok stack t (pre ++ slashes k) c post' (zlen pre) rname limit Hs Hp) as (rname' & limit' & Hb' & He); [|done|done| |].
  { rewrite <- app_assoc. by repeat (apply Forall_app; split). }
  { intros Hsh. specialize (Hshort Hsh). lia. }
  assert (Forall proper (stack ++ [c])) as Hs' by (apply Forall_app; split; [done|by constructor]).
  specialize (Hgo (stack ++ [c]) (path_text (stack ++ [c])) rname' limit' Hs' (or_introl eq_refl) Hb'). cbn [w_seen].
  destruct (lstat sys (path_text (stack ++ [c]))) as [st|e].
  - destruct (f_kind st).
    + rewrite He. exact Hgo.
    + destruct He as (f & -> & Hf1). by exists f.
    + rewrite He. destruct (_ && _); [done|exact Hgo].
  - destruct can_mode; rewrite He; [done| |exact Hgo]. destruct (_ && _); [exact Hgo|done].
Qed.
End loop.

(** ** The whole function *)

(** Where the walk starts: the root, or the working directory. *)
Definition start_of (name : list Z) (cwd : list (list Z)) : list (list Z) := if head_char name =? ch "/" then [] else cwd.

Definition canonical_outcome (sys : system) (can_mode : canonicalize_mode_t) (cwd : list (list Z)) (name : list Z) : outcome :=
  match name with [] => Refused ENOENT | _ => resolve_path sys can_mode (start_of name cwd) (split_name [] name) end.

(** The working directory, and names short enough for the buffer. *)
Definition at_directory (sys : system) (cwd : list (list Z)) (name : list Z) : Prop :=
  getcwd sys = inl (path_text cwd) /\ Forall proper cwd /\ (zlen (path_text cwd) < PATH_MAX \/ zlen name < PATH_MAX - 1).

Lemma first_name_ok sys cwd name : at_directory sys cwd name ->
  exists rname t limit, first_name sys name = Ok (inl (rname, zlen t, limit)) /\ text_of (start_of name cwd) t /\ Forall proper (start_of name cwd) /\ buffer t rname limit (zlen name < PATH_MAX - 1).
Proof.
  intros (Hcwd & Hp & Hs). unfold first_name, start_of. destruct (head_char name =? ch "/"); cbn [negb].
  - exists (map Some [DIRECTORY_SEPARATOR] ++ replicate (Z.to_nat (PATH_MAX - 1)) None), [DIRECTORY_SEPARATOR], PATH_MAX. split; [done|]. split; [by left|]. split; [done|].
    eexists. split; [reflexivity|]. unfold zlen. rewrite length_app, length_replicate. unfold PATH_MAX. cbn [length map]. lia.
  - rewrite Hcwd. unfold cstr. rewrite map_app. cbn [map]. destruct (Z.ltb_spec (zlen (path_text cwd)) PATH_MAX) as [Hl|Hl].
    + eexists _, (path_text cwd), _. split; [reflexivity|]. split; [by left|]. split; [done|]. pose proof (zlen_nonneg (path_text cwd)).
      assert (length (map Some (path_text cwd)) <= Z.to_nat PATH_MAX)%nat by (rewrite length_map; unfold zlen in *; lia). rewrite resize_app_ge by done. eexists. split; [reflexivity|].
      unfold zlen in *. rewrite length_app, length_resize, length_map in *. lia.
    + eexists _, (path_text cwd), _. split; [reflexivity|]. split; [by left|]. split; [done|]. eexists. split; [reflexivity|].
      unfold zlen in *. rewrite length_app, length_map. cbn [length]. split_and!; lia.
Qed.

Lemma canonicalize_ok sys size_ok malloc_ok name can_mode cwd fuel : nul_free name -> (length name < fuel)%nat -> at_directory sys cwd name ->
  let r := canonicalize_filename_mode sys size_ok malloc_ok fuel name can_mode in
  match canonical_outcome sys can_mode cwd name with
  | Reached stack => Forall proper stack /\ r = Ok (inl (path_text stack))
  | Refused e => r = Ok (inr e)
  | AtLink _ => exists f, r = Fail f /\ (f = NullDeref \/ f = ExitCall 1)
  end.
Proof.
  intros Hn Hf Hd. unfold canonicalize_filename_mode, canonical_outcome. destruct name as [|c name]; [done|]. rewrite bool_decide_eq_false_2 by done. set (nm := c :: name) in *.
  destruct (first_name_ok _ _ _ Hd) as (rname & t & limit & -> & Ht & Hp & Hb). cbn [bind].
  pose proof (canonicalize_loop sys size_ok malloc_ok can_mode _ fuel [] nm _ t rname limit Hf Hp Ht Hn Hb (fun H => H)) as H. unfold at_name in H. cbn [app] in H. change (zlen []) with 0 in H.
  fold no_links. destruct (resolve_path sys can_mode (start_of nm cwd) (split_name [] nm)); cbn [delivers] in H.
  - destruct H as [Hs ->]. done.
  - by rewrite H.
  - destruct H as (f & -> & Hx). by exists f.
Qed.

(** ** The value of a link *)

(** With enough memory the whole value of a link is read, whatever size lstat
    reported; when readlink fails, its errno is lost: the code tries larger buffers
    until memory is exhausted and gives ENOMEM. *)
Lemma areadlink_reads sys size_ok file size : 0 <= size ->
  match readlink sys file with
  | inl target => (forall n, size_ok n = true) -> zlen target < SSIZE_MAX -> areadlink_with_size sys size_ok file size = Ok (Some target)
  | inr _ => areadlink_with_size sys size_ok file size = Ok None
  end.
Proof.
  intros Hsize. unfold areadlink_with_size. set (b0 := if size <? 1024 + 1 then _ else _).
  assert (1 <= b0 <= SSIZE_MAX) as Hb0 by (subst b0; unfold SSIZE_MAX; destruct (Z.ltb_spec size (1024 + 1)); lia). clearbody b0.
  assert (forall Q, (forall b, 1 <= b <= SSIZE_MAX -> wp (readlink_turn sys size_ok file b) (fun x => match x with inl b' => b' = (if b <=? SSIZE_MAX / 2 then b * 2 else SSIZE_MAX) /\ b < SSIZE_MAX | inr r => Q r end)) ->
    wp (loop 65 (readlink_turn sys size_ok file) b0) Q) as Hloop.
  { intros Q Hturn. apply (wp_loop (fun b => 1 <= b <= SSIZE_MAX) (fun b => if b <=? SSIZE_MAX / 2 then 64 - Z.log2 b else if b <? SSIZE_MAX then 1 else 0)).
    - done.
    - pose proof (Z.log2_nonneg b0). destruct (b0 <=? _); [lia|]. destruct (b0 <? _); lia.
    - intros b Hb. destruct (Z.leb_spec b (SSIZE_MAX / 2)) as [Hle|]; [|destruct (b <? _); lia]. pose proof (Z.log2_le_mono b (2 ^ 62) ltac:(change (SSIZE_MAX / 2) with (2 ^ 62 - 1) in Hle; lia)) as Hl.
      rewrite Z.log2_pow2 in Hl by lia. lia.
    - intros b Hb. eapply wp_mono; [by apply Hturn|]. intros [b'|r]; [|done]. change (SSIZE_MAX / 2) with (2 ^ 62 - 1) in *. unfold SSIZE_MAX in *. intros [-> Hlt].
      destruct (Z.leb_spec b (2 ^ 62 - 1)) as [Hle|Hle].
      + split; [lia|]. assert (Z.log2 (b * 2) = Z.succ (Z.log2 b)) as -> by (rewrite Z.mul_comm; apply Z.log2_double; lia).
        assert (Z.log2 b < 62) by (apply Z.log2_lt_pow2; lia). destruct (Z.leb_spec (b * 2) (2 ^ 62 - 1)); [lia|]. destruct (b * 2 <? _); lia.
      + split; [lia|]. rewrite (proj2 (Z.leb_gt _ _)) by lia. rewrite Z.ltb_irrefl. rewrite (proj2 (Z.ltb_lt b _)) by lia. lia. }
  destruct (readlink sys file) as [target|e] eqn:Er.
  - intros Hok Hlen. specialize (Hloop (fun r => r = Some target)). apply wp_exists in Hloop as (r & -> & ->); [done|]. intros b Hb. unfold readlink_turn. rewrite Hok, Er. cbn [negb].
    pose proof (zlen_nonneg target). rewrite Z.mod_small by (unfold SSIZE_MAX in *; lia). destruct (Z.ltb_spec (Z.min (zlen target) b) b) as [Hlt|Hge].
    + apply wp_Ok. f_equal. rewrite Z.min_l by lia. apply firstn_all2. unfold zlen. lia.
    + destruct (Z.leb_spec b (SSIZE_MAX / 2)) as [Hle|Hle]; [apply wp_Ok; split; [done|change (SSIZE_MAX / 2) with (2 ^ 62 - 1) in Hle; unfold SSIZE_MAX; lia]|].
      destruct (Z.ltb_spec b SSIZE_MAX); [by apply wp_Ok|]. lia.
  - specialize (Hloop (fun r => r = None)). apply wp_exists in Hloop as (r & -> & ->); [done|]. intros b Hb. unfold readlink_turn. destruct (size_ok b); cbn [negb]; [|by apply wp_Ok]. rewrite Er.
    change (-1 mod 2 ^ 64) with (2 ^ 64 - 1). rewrite (proj2 (Z.ltb_ge _ b)) by (unfold SSIZE_MAX in *; lia).
    destruct (Z.leb_spec b (SSIZE_MAX / 2)) as [Hle|Hle]; [apply wp_Ok; split; [done|change (SSIZE_MAX / 2) with (2 ^ 62 - 1) in Hle; unfold SSIZE_MAX; lia]|].
    destruct (Z.ltb_spec b SSIZE_MAX); [by apply wp_Ok|by apply wp_Ok].
Qed.

(** ** Canonical names stay as they are *)

(** The files on the way to [stack] are directories; the last one may be another
    kind of file when [leaf] says so. *)
Definition on_disk (sys : system) (leaf : Prop) (stack : list (list Z)) : Prop :=
  forall pre c suf, stack = pre ++ c :: suf -> exists st, lstat sys (path_text (pre ++ [c])) = inl st /\ (f_kind st = Directory \/ leaf /\ suf = [] /\ f_kind st = Other).

Lemma on_disk_snoc sys leaf stack c : on_disk sys False stack ->
  (exists st, lstat sys (path_text (stack ++ [c])) = inl st /\ (f_kind st = Directory \/ leaf /\ f_kind st = Other)) -> on_disk sys leaf (stack ++ [c]).
Proof.
  intros Hd (st & Est & Hk) pre x suf E. destruct (exists_last_or suf) as [->|(suf' & y & ->)].
  - apply app_inj_2 in E as [-> [= ->]]; [|done]. exists st. split; [done|]. tauto.
  - rewrite app_comm_cons, app_assoc in E. apply app_inj_2 in E as [-> _]; [|done]. destruct (Hd pre x suf' eq_refl) as (st' & ? & [?|[[] _]]). exists st'. auto.
Qed.

(** Only the last component may have nothing behind it. *)
Fixpoint flags_ok (l : list (list Z * bool)) : Prop :=
  match l with [] => True | (_, followed) :: rest => (followed = false -> rest = []) /\ flags_ok rest end.

Lemma split_flags s : forall cur, flags_ok (split_name cur s).
Proof.
  induction s as [|a s IH]; intros cur; cbn [split_name]; [by destruct cur|]. destruct (ISSLASH a); [|apply IH]. destruct cur; [apply IH|]. split; [done|apply IH].
Qed.

Lemma resolve_on_disk sys l : forall stack st, flags_ok l -> on_disk sys False stack ->
  resolve_path sys CAN_EXISTING stack l = Reached st -> on_disk sys True st.
Proof.
  induction l as [|[c followed] l IH]; intros stack st Hfl Hd E; cbn [resolve_path] in E.
  { injection E as <-. intros pre x suf Ex. destruct (Hd pre x suf Ex) as (s & ? & [?|[[] _]]). exists s. auto. }
  destruct Hfl as [Hfl Hrest]. case_bool_decide; [by eapply IH|]. case_bool_decide.
  { eapply IH; [done| |done]. intros pre x suf Ex. destruct stack as [|y stack _] using rev_ind; [by destruct pre|]. rewrite removelast_last in Ex. subst.
    destruct (Hd pre x (suf ++ [y])) as (s & ? & [?|[[] _]]); [by rewrite <- app_assoc|]. exists s. auto. }
  destruct (lstat sys (path_text (stack ++ [c]))) as [s|e] eqn:Es; [|done]. destruct (f_kind s) eqn:Ek; [|done|].
  - eapply IH; [done| |done]. apply on_disk_snoc; [done|]. eauto.
  - rewrite bool_decide_eq_true_2, andb_true_r in E by done. destruct followed; [done|]. rewrite Hfl in E by done. injection E as <-. apply on_disk_snoc; [done|]. eauto.
Qed.

Lemma resolve_again sys suf : forall pre, Forall proper (pre ++ suf) -> on_disk sys True (pre ++ suf) ->
  resolve_path sys CAN_EXISTING pre (split_name [] (raw_text suf)) = Reached (pre ++ suf).
Proof.
  induction suf as [|c suf IH]; intros pre Hp Hd; [by rewrite app_nil_r|]. unfold raw_text. cbn [flat_map app]. fold (raw_text suf).
  pose proof Hp as [_ [(Hne & Hns & Hnf & H1 & H2) Hsuf]%Forall_cons]%Forall_app.
  change (DIRECTORY_SEPARATOR :: c ++ raw_text suf) with (slashes 1 ++ c ++ raw_text suf). rewrite split_slashes, split_component; [|done|done|].
  2: { destruct suf as [|d suf]; [by left|right; by eexists]. }
  cbn [resolve_path]. rewrite !bool_decide_eq_false_2 by done. destruct (Hd pre c suf eq_refl) as (st & -> & Hk).
  specialize (IH (pre ++ [c])). rewrite <- app_assoc in IH. cbn [app] in IH. specialize (IH Hp Hd). destruct Hk as [->|(_ & -> & ->)]; [done|]. done.
Qed.

(** C23. canonicalize_filename_mode gives the canonical name: for every name and file
    system, its buffer with the growing text, the scan and the backing up over
    slashes compute the walk along the components of the name, where "." stays,
    ".." leaves the last component (not above the root), a missing file ends the
    walk as the mode says and a file that is no directory must be the last.  The
    result is the text of proper components: no ".", "..", empty or slashed
    one.  Where the walk meets a symbolic link, the function does not return: it
    faults, or leaves the program when memory is exhausted. *)
Theorem canonicalize_walks sys size_ok malloc_ok name can_mode cwd fuel : nul_free name -> (length name < fuel)%nat -> at_directory sys cwd name ->
  let r := canonicalize_filename_mode sys size_ok malloc_ok fuel name can_mode in
  match canonical_outcome sys can_mode cwd name with
  | Reached stack => Forall proper stack /\ r = Ok (inl (path_text stack))
  | Refused e => r = Ok (inr e)
  | AtLink _ => exists f, r = Fail f /\ (f = NullDeref \/ f = ExitCall 1)
  end.
Proof. apply canonicalize_ok. Qed.

(** Canonical names are fixed points: what readlink -e prints for a name, given
    to readlink -e again, is printed again, in any working directory and for every
    file system that does not change in between. *)
Theorem readlink_idempotent sys size_ok malloc_ok name cwd cwd' r fuel fuel' : nul_free name -> (length name < fuel)%nat -> (length r < fuel')%nat ->
  at_directory sys cwd name -> on_disk sys False cwd -> at_directory sys cwd' r ->
  readlink_main sys size_ok malloc_ok fuel (Some CAN_EXISTING) true [name] = Ok (r, 0) ->
  readlink_main sys size_ok malloc_ok fuel' (Some CAN_EXISTING) true [r] = Ok (r, 0).
Proof.
  intros Hn Hf Hf' Hd Hcwd Hd' E. cbn [readlink_main] in *. pose proof (canonicalize_ok sys size_ok malloc_ok name CAN_EXISTING cwd fuel Hn Hf Hd) as H.
  destruct (canonical_outcome sys CAN_EXISTING cwd name) as [stack|e|file] eqn:Eo.
  2: { rewrite H in E. cbn [bind] in E. done. }
  2: { destruct H as (f & H & _). rewrite H in E. done. }
  destruct H as [Hp H]. rewrite H in E. cbn [bind] in E. rewrite app_nil_r in E. injection E as <-.
  assert (on_disk sys True stack) as Hdisk.
  { unfold canonical_outcome in Eo. destruct name as [|c name]; [done|]. eapply resolve_on_disk; [apply split_flags| |exact Eo]. unfold start_of. destruct (_ =? _); [by intros [|? ?] ? ?|done]. }
  assert (nul_free (path_text stack)) as Hnf by (destruct stack; [by repeat constructor|by apply raw_nul_free]).
  pose proof (canonicalize_ok sys size_ok malloc_ok (path_text stack) CAN_EXISTING cwd' fuel' Hnf Hf' Hd') as H'.
  assert (canonical_outcome sys CAN_EXISTING cwd' (path_text stack) = Reached stack) as Eo'.
  { destruct stack as [|c stack]; [done|]. apply (resolve_again sys (c :: stack) []); done. }
  rewrite Eo' in H'. destruct H' as [_ ->]. cbn [bind]. by rewrite app_nil_r.
Qed.

(** An example: a small file system, in the directory /home/u. *)
Definition example_lstat (p : list Z) : file_stat + Z :=
  if bool_decide (p ∈ [bytes "/usr"; bytes "/usr/lib"; bytes "/home"; bytes "/home/u"]) then inl (FileStat Directory 1 1 0)
  else if bool_decide (p = bytes "/usr/f") then inl (FileStat Other 2 1 0)
  else if bool_decide (p = bytes "/ln") then inl (FileStat Symlink 3 1 3) else inr ENOENT.
Definition example_system : system := System example_lstat (fun _ => inl (bytes "usr")) (inl (bytes "/home/u")).
Definition example_cwd : list (list Z) := [bytes "home"; bytes "u"].

Lemma example_directory name : zlen name < 10 -> at_directory example_system example_cwd name.
Proof. intros H. split; [done|]. split; [|by left]. repeat constructor; done. Qed.

Lemma canonicalize_walks_witness :
  let name := bytes "../../usr//lib/./../f" in
  canonical_outcome example_system CAN_EXISTING example_cwd name = Reached [bytes "usr"; bytes "f"] /\
  canonicalize_filename_mode example_system (fun _ => true) (fun _ => true) 30 name CAN_EXISTING = Ok (inl (bytes "/usr/f")).
Proof.
  intros name. assert (canonical_outcome example_system CAN_EXISTING example_cwd name = Reached [bytes "usr"; bytes "f"]) as E by (vm_compute; reflexivity).
  split; [exact E|]. pose proof (canonicalize_walks example_system (fun _ => true) (fun _ => true) name CAN_EXISTING example_cwd 30) as H. rewrite E in H.
  apply H; [by repeat constructor|vm_compute; lia|]. split; [done|]. split; [|by left]. repeat constructor; done.
Defined.

Lemma readlink_idempotent_witness :
  readlink_main example_system (fun _ => true) (fun _ => true) 30 (Some CAN_EXISTING) true [bytes "./../u/"] = Ok (bytes "/home/u", 0) /\
  readlink_main example_system (fun _ => true) (fun _ => true) 30 (Some CAN_EXISTING) true [bytes "/home/u"] = Ok (bytes "/home/u", 0).
Proof.
  assert (readlink_main example_system (fun _ => true) (fun _ => true) 30 (Some CAN_EXISTING) true [bytes "./../u/"] = Ok (bytes "/home/u", 0)) as E by (vm_compute; reflexivity).
  split; [exact E|]. apply (readlink_idempotent example_system (fun _ => true) (fun _ => true) (bytes "./../u/") example_cwd example_cwd (bytes "/home/u") 30 30).
  - by repeat constructor.
  - vm_compute. lia.
  - vm_compute. lia.
  - by apply example_directory.
  - intros pre c suf Ex. destruct pre as [|p [|q pre]]; [|injection Ex as <- <- <-|by destruct pre].
    + injection Ex as <- <-. eexists. split; [vm_compute; reflexivity|by left].
    + eexists. split; [vm_compute; reflexivity|by left].
  - by apply example_directory.
  - exact E.
Defined.
