(* ===== verification/MkTemp.v ===== *)
(** * Temporary files: utils/coreutils/lib/tempname.c and utils/coreutils/src/mktemp.c

    Names made from a template with random letters, tried until one is free, and
    the command that prepares the template.  The random numbers are those of
    RandInt.v, the joining of names is that of FileNames.v.  The file system is the
    set of names that exist, with the names for which the system gives another
    error. *)

From S2P Require Import Prelude Arrays CStrings RandInt FileNames.
Open Scope Z_scope.

Definition ENOENT : Z := 2.
Definition EEXIST : Z := 17.
Definition EINVAL : Z := 22.

(** ** tempname.c *)

Inductive temp_kind := GT_FILE | GT_DIR | GT_NOCREATE.

#[export] Instance temp_kind_eq_dec : EqDecision temp_kind.
Proof. solve_decision. Defined.

Abbreviation names := (gset (list Z)).

(** The leading X's of a string. *)
Fixpoint count_X (s : list Z) : Z := match s with c :: s => if c =? ch "X" then count_X s + 1 else 0 | [] => 0 end.

Definition check_x_suffix (s : list Z) (len : Z) : bool := len <=? count_X s.

Definition letters : list Z := bytes "abcdefghijklmnopqrstuvwxyzABCDEFGHIJKLMNOPQRSTUVWXYZ0123456789".

(** [TMP_MAX] and [ATTEMPTS_MIN] are the same number. *)
Definition attempts : Z := 238328.

Section tempname.
Context (denied : list Z -> option Z).

(** [open] with O_CREAT and O_EXCL, or [mkdir]: an errno, or the new file. *)
Definition create (file : list Z) (fs : names) : Z + names :=
  match denied file with
  | Some e => inl e
  | None => if bool_decide (file ∈ fs) then inl EEXIST else inr ({[file]} ∪ fs)
  end.

(** [lstat]: an errno when the file is not there. *)
Definition lookup_name (file : list Z) (fs : names) : option Z :=
  match denied file with Some e => Some e | None => if bool_decide (file ∈ fs) then None else Some ENOENT end.

(** [XXXXXX[i] = letters[randint_genmax(rand_src, sizeof letters - 2)]] *)
Definition put_letter (start i : Z) (st : list Z * randint_source) : res (list Z * randint_source) :=
  let '(tmpl, src) := st in
  let* (r, src) := randint_genmax src 61 in
  let* c := rd (cstr letters) r in
  let* tmpl := wr tmpl (start + i) c in
  Ok (tmpl, src).

(** The result: the descriptor or -1, errno, the buffer and the names that exist.
    A new descriptor is 3. *)
Definition temp_result : Type := Z * Z * list Z * names.

Definition attempt_turn (kind : temp_kind) (start x_suffix_len : Z) (fs : names) (st : Z * list Z * randint_source) : res (Z * list Z * randint_source + temp_result) :=
  let '(count, tmpl, src) := st in
  if count <? attempts then
    let* (tmpl, src) := for_up 0 x_suffix_len (put_letter start) (tmpl, src) in
    let file := removelast tmpl in
    match kind with
    | GT_NOCREATE =>
        Ok (match lookup_name file fs with
            | Some e => if e =? ENOENT then inr (0, 0, tmpl, fs) else inr (-1, e, tmpl, fs)
            | None => inl (count + 1, tmpl, src)
            end)
    | _ =>
        Ok (match create file fs with
            | inr fs => inr ((if decide (kind = GT_FILE) then 3 else 0), 0, tmpl, fs)
            | inl e => if negb (e =? EEXIST) then inr (-1, e, tmpl, fs) else inl (count + 1, tmpl, src)
            end)
    end
  else Ok (inr (-1, EEXIST, tmpl, fs)).

(** [tmpl] is a C string; [random]: the random bytes, [None] when the source cannot
    be opened. *)
Definition gen_tempname_len (tmpl : list Z) (suffixlen : Z) (kind : temp_kind) (x_suffix_len : Z) (random : option (list Z)) (fs : names) : res temp_result :=
  let* len := strlen tmpl 0 in
  if (len <? x_suffix_len + suffixlen) || negb (check_x_suffix (drop (Z.to_nat (len - x_suffix_len - suffixlen)) tmpl) x_suffix_len) then Ok (-1, EINVAL, tmpl, fs)
  else
    match random with
    | None => Ok (-1, ENOENT, tmpl, fs)
    | Some bs => loop (S (Z.to_nat attempts)) (attempt_turn kind (len - x_suffix_len - suffixlen) x_suffix_len fs) (0, tmpl, randint_new bs)
    end.

(** ** mktemp.c *)

(** [for (; len && s[len - 1] == 'X'; len--) ++n;] *)
Definition X_before (s : list Z) (st : Z * Z) : res bool :=
  let '(len, _) := st in if len =? 0 then Ok false else let* c := rd s (len - 1) in Ok (c =? ch "X").
Definition count_consecutive_X_s (s : list Z) (len : Z) : res Z :=
  let* (_, n) := while (S (Z.to_nat len)) (X_before s) (fun '(len, n) => Ok (len - 1, n + 1)) (len, 0) in
  Ok n.

(** The options after getopt. *)
Record mktemp_options := MkOptions { dest_dir_arg : option (list Z); use_dest_dir : bool; deprecated_t_option : bool; create_directory : bool; dry_run : bool; suffix_arg : option (list Z) }.

Definition default_template : list Z := bytes "tmp.XXXXXXXXXX".

(** [strrchr(s, 'X') + 1], or the end of the string. *)
Fixpoint after_last_X (s : list Z) : option Z :=
  match s with
  | [] => None
  | c :: s => match after_last_X s with Some i => Some (i + 1) | None => if c =? ch "X" then Some 1 else None end
  end.

(** The template with its suffix, and where the suffix starts; [None]: an error. *)
Definition split_template (o : mktemp_options) (template : list Z) : option (list Z * Z) :=
  match suffix_arg o with
  | Some suffix => if bool_decide (last template = Some (ch "X")) then Some (template ++ suffix, zlen template) else None
  | None => Some (template, match after_last_X template with Some i => i | None => zlen template end)
  end.

(** [env && *env ? env : other] *)
Definition or_else (a : option (list Z)) (other : list Z) : list Z := match a with Some (c :: s) => c :: s | _ => other end.

Definition dest_dir_of (o : mktemp_options) (TMPDIR : option (list Z)) : list Z :=
  if deprecated_t_option o then or_else TMPDIR (match dest_dir_arg o with Some d => d | None => bytes "/tmp" end)
  else or_else (dest_dir_arg o) (or_else TMPDIR (bytes "/tmp")).

(** The directory and the check of the template; [None]: an error. *)
Definition destination (o : mktemp_options) (TMPDIR : option (list Z)) (template : list Z) : res (option (list Z)) :=
  if deprecated_t_option o then
    let* base := last_component (cstr template) 0 in
    Ok (if negb (base =? 0) then None else Some (dest_dir_of o TMPDIR))
  else
    let* absolute := IS_ABSOLUTE_FILE_NAME (cstr template) 0 in
    Ok (if absolute then None else Some (dest_dir_of o TMPDIR)).

(** After gen_tempname_len: the output, the exit status and the names that exist.
    [close_ok], [stdout_ok], [remove_ok]: whether closing the file, closing the standard
    output and removing the file succeed.  With -u the standard output is closed by
    maybe_close_stdout at the exit, which ends with status 1 as well when that fails. *)
Definition report (o : mktemp_options) (close_ok stdout_ok remove_ok : bool) (r : temp_result) : list Z * Z * names :=
  let '(fd, _, dest_name, fs) := r in
  let ok := if create_directory o then fd =? 0 else negb (fd <? 0) && (dry_run o || close_ok) in
  if negb ok then ([], 1, fs)
  else if negb stdout_ok then ([], 1, if negb (dry_run o) && remove_ok then fs ∖ {[removelast dest_name]} else fs)
  else (removelast dest_name ++ [10], 0, fs).

(** With the template, and whether it goes to a directory. *)
Definition mktemp_run (o : mktemp_options) (TMPDIR : option (list Z)) (use_dir : bool) (template : list Z) (random : option (list Z)) (close_ok stdout_ok remove_ok : bool) (fs : names)
    : res (list Z * Z * names) :=
  let failure := Ok ([], 1, fs) in
  match split_template o template with
  | None => failure
  | Some (template, suffix) =>
      let suffix_len := zlen template - suffix in
      let* base := last_component (drop (Z.to_nat suffix) (cstr template)) 0 in
      if negb (suffix_len =? 0) && negb (base =? 0) then failure
      else
        let* x_count := count_consecutive_X_s (cstr template) suffix in
        if x_count <? 3 then failure
        else
          let* full :=
            if use_dir then
              let* d := destination o TMPDIR template in
              match d with
              | None => Ok None
              | Some d => let* (r, _) := file_name_concat true (cstr d) (cstr template) in Ok (Some r)
              end
            else Ok (Some (cstr template)) in
          match full with
          | None => failure
          | Some dest_name =>
              let kind := if dry_run o then GT_NOCREATE else if create_directory o then GT_DIR else GT_FILE in
              let* r := gen_tempname_len dest_name suffix_len kind x_count random fs in
              Ok (report o close_ok stdout_ok remove_ok r)
          end
  end.

Definition mktemp_main (o : mktemp_options) (TMPDIR : option (list Z)) (operands : list (list Z)) (random : option (list Z)) (close_ok stdout_ok remove_ok : bool) (fs : names) : res (list Z * Z * names) :=
  match operands with
  | [] => mktemp_run o TMPDIR true default_template random close_ok stdout_ok remove_ok fs
  | [template] => mktemp_run o TMPDIR (use_dest_dir o) template random close_ok stdout_ok remove_ok fs
  | _ => Ok ([], 1, fs)
  end.
End tempname.

(** ** Loops that may stop with a fault *)

Lemma runs_for_up {S} (I : Z -> S -> Prop) hi (body : Z -> S -> res S) s F (Q : S -> Prop) : 0 <= hi -> I 0 s ->
  (forall i s, 0 <= i < hi -> I i s -> runs (body i s) F (I (i + 1))) -> (forall s, I hi s -> Q s) -> runs (for_up 0 hi body s) F Q.
Proof.
  intros Hhi HI Hb HQ. unfold for_up. rewrite Z.sub_0_r.
  assert (forall n i s, I i s -> 0 <= i -> i + Z.of_nat n = hi -> runs (for_n n i body s) F Q) as H; [|apply H; [done|lia|lia]].
  clear s HI. induction n as [|n IH]; intros i s HI Hi E; cbn [for_n].
  - apply HQ. by replace hi with i by lia.
  - apply runs_bind. eapply runs_mono; [apply Hb; [lia|done]|done|]. intros s' HI'. apply IH; [done|lia|lia].
Qed.

Lemma runs_loop {S R} (I : S -> Prop) (m : S -> Z) fuel (body : S -> res (S + R)) s F (Q : R -> Prop) : I s -> m s < Z.of_nat fuel -> (forall s, I s -> 0 <= m s) ->
  (forall s, I s -> runs (body s) F (fun x => match x with inl s' => I s' /\ m s' < m s | inr r => Q r end)) -> runs (loop fuel body s) F Q.
Proof.
  intros HI Hm Hpos Hb. revert s HI Hm. induction fuel as [|fuel IH]; intros s HI Hm; [specialize (Hpos s HI); lia|]. cbn [loop]. apply runs_bind.
  eapply runs_mono; [by apply Hb|done|]. intros [s'|r]; [intros [HI' Hm']; apply IH; [done|lia]|done].
Qed.

(** ** Random letters *)

Definition source_ok (s : randint_source) : Prop := 0 <= randnum s <= randmax s /\ randmax s < 2 ^ 64 /\ Forall RandInt.byte (source s).
Definition letter (c : Z) : Prop := c ∈ letters.

Lemma letter_at r : 0 <= r <= 61 -> exists c, rd (cstr letters) r = Ok c /\ letter c.
Proof.
  intros Hr. exists ((cstr letters).[r]). split; [apply rd_Ok; assert (zlen (cstr letters) = 63) as -> by (vm_compute; reflexivity); lia|].
  assert (forallb (fun r => bool_decide ((cstr letters).[r] ∈ letters)) (seqZ 0 62) = true) as H by (vm_compute; reflexivity).
  rewrite forallb_forall in H. apply (bool_decide_eq_true_1 ((cstr letters).[r] ∈ letters)), H. apply list_elem_of_In, elem_of_seqZ. lia.
Qed.

Lemma letters_put p xs s src : source_ok src ->
  runs (for_up 0 (zlen xs) (put_letter (zlen p)) (cstr (p ++ xs ++ s), src)) (eq (ExitCall 1))
    (fun '(t, src') => exists ls, t = cstr (p ++ ls ++ s) /\ length ls = length xs /\ Forall letter ls /\ source_ok src').
Proof.
  intros Hsrc. apply (runs_for_up (fun i '(t, src') => exists ls rest, t = cstr (p ++ (ls ++ rest) ++ s) /\ zlen ls = i /\ (length ls + length rest = length xs)%nat /\ Forall letter ls /\ source_ok src')).
  - apply zlen_nonneg.
  - by exists [], xs.
  - intros i [t src'] Hi (ls & rest & -> & Hl & Hlen & Hls & (H1 & H2 & H3)). unfold put_letter. destruct src' as [bs x m]. cbn [source randnum randmax] in *.
    apply runs_bind. eapply runs_mono; [apply (randint_in_range 61 bs x m); [lia|done|done|done]|done|]. intros [r [bs' x' m']] (Hr & Hx & Hm & used & Hu). cbn [source randnum randmax] in *.
    destruct (letter_at r Hr) as (c & -> & Hc). cbn [bind]. destruct rest as [|y rest]; [cbn [length] in *; unfold zlen in *; lia|].
    assert (cstr (p ++ (ls ++ y :: rest) ++ s) = (p ++ ls) ++ y :: cstr (rest ++ s)) as -> by (unfold cstr; by rewrite <- !app_assoc).
    rewrite wr_middle by (rewrite zlen_app; lia). cbn [bind runs]. exists (ls ++ [c]), rest. split; [unfold cstr; by rewrite <- !app_assoc|]. split; [rewrite zlen_snoc; lia|].
    split; [rewrite length_app; cbn [length] in *; lia|]. split; [apply Forall_app; split; [done|by constructor]|]. split; [done|]. split; [done|]. rewrite Hu in H3. by apply Forall_app in H3 as [_ ?].
  - intros [t src'] (ls & rest & -> & Hl & Hlen & Hls & Hs). destruct rest as [|y rest]; [|cbn [length] in *; unfold zlen in *; lia]. exists ls. rewrite app_nil_r. split_and!; [done|cbn [length] in Hlen; lia|done|done].
Qed.

(** ** A name that is free *)

Section free.
Context (denied : list Z -> option Z).

(** What is left behind: the new name, or nothing. *)
Definition after (kind : temp_kind) (file : list Z) (fs : names) : names := if decide (kind = GT_NOCREATE) then fs else {[file]} ∪ fs.

(** The result for a template with the parts [p], [n] X's and [s]. *)
Definition temp_ok (kind : temp_kind) (p : list Z) (n : nat) (s : list Z) (fs : names) (r : temp_result) : Prop :=
  let '(fd, _, tmpl, fs') := r in
  (fd = -1 /\ fs' = fs) \/
  exists ls, length ls = n /\ Forall letter ls /\ tmpl = cstr (p ++ ls ++ s) /\ ~ (p ++ ls ++ s ∈ fs) /\ fs' = after kind (p ++ ls ++ s) fs /\ fd = (if decide (kind = GT_FILE) then 3 else 0).

Lemma attempts_ok kind p n s fs bs : (forall file, denied file = Some ENOENT -> file ∉ fs) -> Forall RandInt.byte bs ->
  runs (loop (S (Z.to_nat attempts)) (attempt_turn denied kind (zlen p) (Z.of_nat n) fs) (0, cstr (p ++ replicate n (ch "X") ++ s), randint_new bs)) (eq (ExitCall 1)) (temp_ok kind p n s fs).
Proof.
  intros Hden Hbs. apply (runs_loop (fun '(count, t, src) => 0 <= count <= attempts /\ source_ok src /\ exists xs, length xs = n /\ t = cstr (p ++ xs ++ s)) (fun '(count, _, _) => attempts - count)).
  - split; [unfold attempts; lia|]. split; [split; [cbn; lia|]; split; [cbn; lia|done]|]. exists (replicate n (ch "X")). by rewrite length_replicate.
  - unfold attempts. lia.
  - intros [[count t] src] (? & _). lia.
  - intros [[count t] src] (Hc & Hsrc & xs & Hxs & ->). unfold attempt_turn. destruct (Z.ltb_spec count attempts) as [Hlt|Hge]; [|by left].
    apply runs_bind. replace (Z.of_nat n) with (zlen xs) by (unfold zlen; lia). eapply runs_mono; [by apply letters_put|done|]. intros [t' src'] (ls & -> & Hl & Hls & Hsrc').
    set (file := p ++ ls ++ s). assert (removelast (cstr file) = file) as -> by apply removelast_last.
    assert ((0 <= count + 1 <= attempts /\ source_ok src' /\ exists xs, length xs = n /\ cstr file = cstr (p ++ xs ++ s)) /\ attempts - (count + 1) < attempts - count) as Hnext.
    { split; [|lia]. split; [lia|]. split; [done|]. exists ls. split; [lia|done]. }
    assert (length ls = n) as Hn by lia. 
    destruct kind; cbn [runs]; unfold create, lookup_name; (destruct (denied file) as [e|] eqn:Ed; [|destruct (bool_decide_reflect (file ∈ fs)) as [Hin|Hin]]).
    1, 4: destruct (Z.eqb_spec e EEXIST) as [->|He]; [exact Hnext|by left].
    1, 3: exact Hnext.
    1, 2: right; exists ls; split_and!; done.
    + destruct (Z.eqb_spec e ENOENT) as [->|He]; [|by left]. right. exists ls. split_and!; try done. by apply Hden.
    + exact Hnext.
    + right. exists ls. by split_and!.
Qed.

Lemma count_X_run n s : Z.of_nat n <= count_X (replicate n (ch "X") ++ s).
Proof.
  assert (0 <= count_X s) as Hs by (induction s as [|c s IH]; cbn [count_X]; [done|]; destruct (_ =? _); lia).
  induction n as [|n IH]; [done|]. cbn [replicate app count_X]. change (ch "X" =? ch "X") with true. cbv iota. lia.
Qed.

Lemma gen_tempname_ok kind p n s fs random : nul_free (p ++ replicate n (ch "X") ++ s) ->
  (forall file, denied file = Some ENOENT -> file ∉ fs) -> (forall bs, random = Some bs -> Forall RandInt.byte bs) ->
  runs (gen_tempname_len denied (cstr (p ++ replicate n (ch "X") ++ s)) (zlen s) kind (Z.of_nat n) random fs) (eq (ExitCall 1)) (temp_ok kind p n s fs).
Proof.
  intros Hn Hden Hrand. unfold gen_tempname_len. pose proof (strlen_cstr [] _ Hn) as E. cbn [app] in E. change (zlen []) with 0 in E. rewrite E. cbn [bind]. clear E.
  assert (zlen (p ++ replicate n (ch "X") ++ s) = zlen p + Z.of_nat n + zlen s) as Hl by (rewrite !zlen_app; unfold zlen; rewrite length_replicate; lia). rewrite Hl.
  pose proof (zlen_nonneg p). rewrite (proj2 (Z.ltb_ge _ _)) by lia. replace (zlen p + Z.of_nat n + zlen s - Z.of_nat n - zlen s) with (zlen p) by lia.
  assert (drop (Z.to_nat (zlen p)) (cstr (p ++ replicate n (ch "X") ++ s)) = replicate n (ch "X") ++ cstr s) as ->.
  { unfold cstr, zlen. rewrite Nat2Z.id, <- !app_assoc, drop_app_length. done. }
  unfold check_x_suffix. rewrite (proj2 (Z.leb_le _ _)) by apply count_X_run. cbn [orb negb]. destruct random as [bs|]; [|by left].
  apply attempts_ok; [done|by apply Hrand].
Qed.
End free.

(** ** The template *)

(** The X's before the end of [u]. *)
Lemma X_run u : exists p n, u = p ++ replicate n (ch "X") /\ last p <> Some (ch "X").
Proof.
  induction u as [|c u IH] using rev_ind; [by exists [], 0%nat|]. destruct (decide (c = ch "X")) as [->|Hc].
  - destruct IH as (p & n & -> & Hp). exists p, (S n). split; [|done]. by rewrite <- app_assoc, <- replicate_cons_app.
  - exists (u ++ [c]), 0%nat. rewrite app_nil_r, last_snoc. split; [done|congruence].
Qed.

Lemma count_loop p n : last p <> Some (ch "X") -> forall v k fuel, (length p + n < fuel)%nat ->
  while fuel (X_before (p ++ replicate n (ch "X") ++ v)) (fun '(len, n) => Ok (len - 1, n + 1)) (zlen (p ++ replicate n (ch "X")), k) = Ok (zlen p, k + Z.of_nat n).
Proof.
  intros Hp. induction n as [|n IH]; intros v k fuel Hf; (destruct fuel as [|fuel]; [lia|]); rewrite while_step; unfold X_before at 1.
  - cbn [replicate app] in *. rewrite app_nil_r. destruct (exists_last_or p) as [->|(q & c & ->)]; [cbn; by rewrite Z.add_0_r|].
    rewrite last_snoc in Hp. rewrite zlen_snoc. pose proof (zlen_nonneg q). rewrite (proj2 (Z.eqb_neq _ 0)) by lia. replace (zlen q + 1 - 1) with (zlen q) by lia.
    rewrite <- app_assoc. cbn [app]. rewrite rd_middle by done. cbn [bind]. rewrite (proj2 (Z.eqb_neq c _)) by congruence. by rewrite Z.add_0_r.
  - assert (p ++ replicate (S n) (ch "X") ++ v = p ++ replicate n (ch "X") ++ ch "X" :: v) as -> by (change (replicate (S n) (ch "X")) with (ch "X" :: replicate n (ch "X")); by rewrite replicate_cons_app, <- app_assoc).
    assert (zlen (p ++ replicate (S n) (ch "X")) = zlen (p ++ replicate n (ch "X")) + 1) as -> by (unfold zlen; rewrite !length_app, !length_replicate; lia).
    pose proof (zlen_nonneg (p ++ replicate n (ch "X"))). rewrite (proj2 (Z.eqb_neq _ 0)) by lia.
    replace (zlen (p ++ replicate n (ch "X")) + 1 - 1) with (zlen (p ++ replicate n (ch "X"))) by lia. rewrite app_assoc, rd_middle, <- app_assoc by done. cbn [bind].
    change (ch "X" =? ch "X") with true. cbv iota. rewrite IH by lia. f_equal. f_equal. lia.
Qed.

Lemma count_consecutive_ok p n v : last p <> Some (ch "X") ->
  count_consecutive_X_s (p ++ replicate n (ch "X") ++ v) (zlen (p ++ replicate n (ch "X"))) = Ok (Z.of_nat n).
Proof.
  intros Hp. unfold count_consecutive_X_s. rewrite count_loop; [done|done|]. unfold zlen. rewrite length_app, length_replicate. lia.
Qed.

(** *** The suffix and the directory *)

Lemma one_component s : nul_free s -> last_component (cstr s) 0 = Ok 0 -> exists comp k, s = comp ++ slashes k /\ no_slash comp /\ (comp = [] -> k = 0%nat).
Proof.
  intros Hn E. destruct (parts_exist s) as [[k ->]|(dir & comp & k & Hp)].
  - rewrite last_component_root in E. exists [], k. split; [done|]. split; [by constructor|]. injection E. lia.
  - rewrite (last_component_parts s dir comp k Hn Hp) in E. injection E as E. destruct Hp as [-> _ Hc Hne]. destruct dir as [|c dir]; [|rewrite zlen_cons in E; pose proof (zlen_nonneg dir); lia]. by exists comp, k.
Qed.

(** [D] is what stands before the name in the directory [d]. *)
Definition joined_dir (d D : list Z) : Prop := exists x j, d = x ++ slashes j /\ ends_open x /\ D = joint x j.

Lemma concat_relative d t : nul_free d -> nul_free t -> match t with c :: _ => ISSLASH c = false | [] => True end ->
  exists D off, file_name_concat true (cstr d) (cstr t) = Ok (cstr (D ++ t), off) /\ joined_dir d D.
Proof.
  intros Hd Ht Hh. destruct (trailing_split d) as (x & j & Ed & Hx). eexists (joint x j), _. unfold file_name_concat. rewrite (concat_ok d x j t 0 t Hd Ed Hx Ht); [|done|done]. cbn [bind]. split; [done|].
  by exists x, j.
Qed.

Lemma after_last_X_range s : match after_last_X s with Some i => 0 <= i <= zlen s /\ ch "X" ∉ drop (Z.to_nat i) s | None => ch "X" ∉ s end.
Proof.
  induction s as [|c s IH]; cbn [after_last_X]; [apply not_elem_of_nil|]. destruct (after_last_X s) as [i|].
  - destruct IH as [Hi Hx]. rewrite zlen_cons. split; [lia|]. by replace (Z.to_nat (i + 1)) with (S (Z.to_nat i)) by lia.
  - pose proof (zlen_nonneg s). destruct (Z.eqb_spec c (ch "X")) as [->|Hc]; [rewrite zlen_cons; split; [lia|done]|]. apply not_elem_of_cons. by split.
Qed.

(** The template that is used, with the suffix. *)
Definition full_template (o : mktemp_options) (u : list Z) : list Z := u ++ match suffix_arg o with Some s => s | None => [] end.

Lemma split_template_ok o u t q : split_template o u = Some (t, q) ->
  t = full_template o u /\ 0 <= q <= zlen t /\ match suffix_arg o with Some s => drop (Z.to_nat q) t = s | None => ch "X" ∉ drop (Z.to_nat q) t end.
Proof.
  unfold split_template, full_template. pose proof (zlen_nonneg u). destruct (suffix_arg o) as [s|].
  - case_bool_decide; [|done]. intros [= <- <-]. split; [done|]. pose proof (zlen_nonneg s). rewrite zlen_app. split; [lia|]. unfold zlen. by rewrite Nat2Z.id, drop_app_length.
  - rewrite app_nil_r. pose proof (after_last_X_range u) as Hr. destruct (after_last_X u) as [i|]; intros [= <- <-]; (split; [done|]); [done|]. split; [lia|].
    rewrite drop_ge by (unfold zlen; lia). apply not_elem_of_nil.
Qed.

(** A name mktemp may give for these options, in a directory or not. *)
Definition matches_template (o : mktemp_options) (TMPDIR : option (list Z)) (use_dir : bool) (template file : list Z) : Prop :=
  exists D p ls s, file = D ++ p ++ ls ++ s /\ full_template o template = p ++ replicate (length ls) (ch "X") ++ s /\
    3 <= zlen ls /\ Forall letter ls /\ last p <> Some (ch "X") /\
    (exists comp k, s = comp ++ slashes k /\ no_slash comp) /\ match suffix_arg o with Some sfx => s = sfx | None => ch "X" ∉ s end /\
    (if use_dir then joined_dir (dest_dir_of o TMPDIR) D else D = []).

Definition texts_ok (o : mktemp_options) (TMPDIR : option (list Z)) : Prop :=
  (forall s, suffix_arg o = Some s -> nul_free s) /\ (forall d, dest_dir_arg o = Some d -> nul_free d) /\ (forall d, TMPDIR = Some d -> nul_free d).

Lemma dest_dir_nul_free o TMPDIR : texts_ok o TMPDIR -> nul_free (dest_dir_of o TMPDIR).
Proof.
  intros (_ & H1 & H2). assert (forall a b, (forall d, a = Some d -> nul_free d) -> nul_free b -> nul_free (or_else a b)) as Hor.
  { intros [[|c a]|] b Ha Hb; cbn [or_else]; [done|by apply Ha|done]. }
  assert (nul_free (bytes "/tmp")) as Ht by (by repeat constructor). unfold dest_dir_of. destruct (deprecated_t_option o); apply Hor; auto. destruct (dest_dir_arg o); auto.
Qed.

(** Where the file goes. *)
Lemma destination_ok o TMPDIR t (use : bool) : texts_ok o TMPDIR -> nul_free t ->
  wp (if use then
        let* d := destination o TMPDIR t in
        match d with
        | None => Ok None
        | Some d => let* (r, _) := file_name_concat true (cstr d) (cstr t) in Ok (Some r)
        end
      else Ok (Some (cstr t)))
    (fun full => match full with None => True | Some r => exists D, r = cstr (D ++ t) /\ nul_free D /\ if use then joined_dir (dest_dir_of o TMPDIR) D else D = [] end).
Proof.
  intros Hok Ht. destruct use; [|apply wp_Ok; exists []; split; [done|by split; [constructor|]]]. apply wp_bind.
  assert (wp (destination o TMPDIR t) (fun d => match d with None => True | Some d => d = dest_dir_of o TMPDIR /\ match t with c :: _ => ISSLASH c = false | [] => True end end)) as Hd.
  { unfold destination. destruct (deprecated_t_option o).
    - assert (exists b, last_component (cstr t) 0 = Ok b) as [b Eb].
      { destruct (parts_exist t) as [[k ->]|(dir & comp & k & Hp)]; [rewrite last_component_root; by eexists|rewrite (last_component_parts t dir comp k Ht Hp); by eexists]. }
      rewrite Eb. cbn [bind]. destruct (Z.eqb_spec b 0) as [->|]; [|done]. apply wp_Ok. split; [done|]. destruct (one_component t Ht Eb) as (comp & k & -> & Hc & Hk). destruct comp as [|c comp]; [by rewrite Hk|by apply Forall_cons in Hc as [? _]].
    - unfold IS_ABSOLUTE_FILE_NAME. rewrite rd_cstr_first. cbn [bind]. destruct (ISSLASH (head_char t)) eqn:E; [done|]. apply wp_Ok. split; [done|]. by destruct t. }
  eapply wp_mono; [exact Hd|]. intros [d|]; [|intros _; by apply wp_Ok]. intros [-> Hh]. pose proof (dest_dir_nul_free o TMPDIR Hok) as Hdn.
  destruct (concat_relative _ t Hdn Ht Hh) as (D & off & -> & HD). cbn [bind]. apply wp_Ok. exists D. split; [done|]. split; [|done].
  destruct HD as (x & j & Ed & _ & ->). rewrite Ed in Hdn. apply Forall_app in Hdn as [Hx Hj]. destruct x; [done|]. apply Forall_app. split; [done|]. by repeat constructor.
Qed.

(** What a run may end with. *)
Definition fresh_or_failed (o : mktemp_options) (TMPDIR : option (list Z)) (use_dir : bool) (template : list Z) (close_ok remove_ok : bool) (fs : names) (r : list Z * Z * names) : Prop :=
  let '(out, status, fs') := r in
  status = 1 /\ out = [] /\ (fs' = fs \/ (close_ok = false \/ remove_ok = false) /\ exists file, matches_template o TMPDIR use_dir template file /\ (file ∉ fs) /\ fs' = {[file]} ∪ fs) \/
  status = 0 /\ exists file, matches_template o TMPDIR use_dir template file /\ out = file ++ [10] /\ (file ∉ fs) /\ fs' = if dry_run o then fs else {[file]} ∪ fs.

Lemma report_ok o TMPDIR use_dir template close_ok stdout_ok remove_ok fs p n s r :
  (forall ls, length ls = n -> Forall letter ls -> matches_template o TMPDIR use_dir template (p ++ ls ++ s)) ->
  temp_ok (if dry_run o then GT_NOCREATE else if create_directory o then GT_DIR else GT_FILE) p n s fs r ->
  fresh_or_failed o TMPDIR use_dir template close_ok remove_ok fs (report o close_ok stdout_ok remove_ok r).
Proof.
  intros Hm. destruct r as [[[fd e] tmpl] fs']. intros [[-> ->]|(ls & Hn & Hls & -> & Hfree & -> & ->)]; unfold report.
  { destruct (create_directory o); left; by auto. }
  specialize (Hm ls Hn Hls). assert (removelast (cstr (p ++ ls ++ s)) = p ++ ls ++ s) as -> by apply removelast_last. set (file := p ++ ls ++ s) in *.
  assert (({[file]} ∪ fs) ∖ {[file]} = fs) as Hdel by set_solver. unfold after.
  destruct (dry_run o) eqn:Ed.
  { rewrite decide_False, decide_True by done. destruct (create_directory o), stdout_ok; cbn [negb andb]; (right; rewrite Ed; by eauto 10) || (left; by auto). }
  destruct (create_directory o).
  - rewrite !decide_False by done. cbn [negb andb orb Z.eqb]. destruct stdout_ok; cbn [negb]; [right; rewrite Ed; by eauto 10|left; destruct remove_ok; cbn [andb]; rewrite ?Hdel; by eauto 10].
  - rewrite decide_True, decide_False by done. change (3 <? 0) with false. cbn [negb andb orb]. destruct close_ok; cbn [negb]; [|left; by eauto 10].
    destruct stdout_ok; cbn [negb]; [right; rewrite Ed; by eauto 10|left; destruct remove_ok; cbn [andb]; rewrite ?Hdel; by eauto 10].
Qed.

Lemma mktemp_run_ok denied o TMPDIR use_dir template random close_ok stdout_ok remove_ok fs : texts_ok o TMPDIR -> nul_free template ->
  (forall file, denied file = Some ENOENT -> file ∉ fs) -> (forall bs, random = Some bs -> Forall RandInt.byte bs) ->
  runs (mktemp_run denied o TMPDIR use_dir template random close_ok stdout_ok remove_ok fs) (eq (ExitCall 1)) (fresh_or_failed o TMPDIR use_dir template close_ok remove_ok fs).
Proof.
  intros Hok Htn Hden Hrand. unfold mktemp_run. assert (fresh_or_failed o TMPDIR use_dir template close_ok remove_ok fs ([], 1, fs)) as Hfail by (left; by auto).
  destruct (split_template o template) as [[t q]|] eqn:Es; [|done]. destruct (split_template_ok _ _ _ _ Es) as (Et & Hq & Hsfx).
  assert (nul_free t) as Hn. { rewrite Et. apply Forall_app. split; [done|]. destruct Hok as (H & _). destruct (suffix_arg o); [by apply H|constructor]. }
  pose proof (take_drop (Z.to_nat q) t) as Etd. remember (drop (Z.to_nat q) t) as s eqn:Edrop. destruct (X_run (take (Z.to_nat q) t)) as (p & n & Ep & Hp). rewrite Ep in Etd.
  assert (q = zlen (p ++ replicate n (ch "X"))) as Eq by (rewrite <- Ep; unfold zlen in *; rewrite length_take; lia). rewrite <- app_assoc in Etd.
  assert (drop (Z.to_nat q) (cstr t) = cstr s) as ->.
  { unfold cstr. rewrite drop_app_le by (unfold zlen in *; lia). by rewrite Edrop. }
  assert (nul_free s) as Hns by (rewrite <- Etd in Hn; apply Forall_app in Hn as [_ [_ ?]%Forall_app]; done).
  assert (zlen t - q = zlen s) as -> by (rewrite <- Etd, Eq, !zlen_app; lia).
  assert (exists b, last_component (cstr s) 0 = Ok b) as [b Eb].
  { destruct (parts_exist s) as [[k ->]|(dir & comp & k & Hpp)]; [rewrite last_component_root; by eexists|rewrite (last_component_parts s dir comp k Hns Hpp); by eexists]. }
  rewrite Eb. cbn [bind]. destruct (negb (zlen s =? 0) && negb (b =? 0)) eqn:Eslash; [done|].
  assert (exists comp k, s = comp ++ slashes k /\ no_slash comp) as Hsl.
  { destruct (Z.eqb_spec b 0) as [->|]; [destruct (one_component s Hns Eb) as (comp & k & ? & ? & _); eauto|]. destruct (Z.eqb_spec (zlen s) 0) as [Ez|]; [|done].
    destruct s; [|rewrite zlen_cons in Ez; pose proof (zlen_nonneg s); lia]. exists [], 0%nat. by split; [|constructor]. }
  assert (cstr t = p ++ replicate n (ch "X") ++ cstr s) as Ec by (rewrite <- Etd; unfold cstr; by rewrite <- !app_assoc).
  rewrite Ec, Eq, count_consecutive_ok, <- Ec by done. cbn [bind]. destruct (Z.ltb_spec (Z.of_nat n) 3) as [|Hn3]; [done|].
  apply runs_bind, wp_runs. eapply wp_mono; [by apply (destination_ok o TMPDIR t use_dir)|]. intros [full|]; [|done]. intros (D & -> & HDn & HD). apply runs_bind.
  assert (D ++ t = (D ++ p) ++ replicate n (ch "X") ++ s) as Ef by (by rewrite <- Etd, <- app_assoc). rewrite Ef.
  eapply runs_mono; [apply gen_tempname_ok; [|done|done]|done|].
  - rewrite <- Ef. apply Forall_app. by split.
  - intros r Hr. cbn [runs]. eapply report_ok; [|exact Hr]. intros ls Hl Hls. exists D, p, ls, s. split; [by rewrite <- app_assoc|]. split; [by rewrite <- Et, Hl|].
    split; [unfold zlen; lia|]. split_and!; done.
Qed.

(** C22. mktemp gives a new name that matches its template: for all options,
    operands, environments, file systems and random bytes, when it succeeds it
    prints a name made from the template by replacing its run of at least three X's
    by letters and digits, behind the chosen directory; that name did not exist,
    and exists afterwards unless -u was given.  When it fails it prints nothing and
    no file is left behind, except a new one that could not be closed, or not removed after
    the standard output has failed.  It stops
    otherwise only when the source of random bytes ends. *)
Theorem mktemp_makes_fresh denied o TMPDIR operands random close_ok stdout_ok remove_ok fs :
  texts_ok o TMPDIR -> Forall nul_free operands -> (forall file, denied file = Some ENOENT -> file ∉ fs) -> (forall bs, random = Some bs -> Forall RandInt.byte bs) ->
  runs (mktemp_main denied o TMPDIR operands random close_ok stdout_ok remove_ok fs) (eq (ExitCall 1))
    (match operands with
     | [] => fresh_or_failed o TMPDIR true default_template close_ok remove_ok fs
     | [template] => fresh_or_failed o TMPDIR (use_dest_dir o) template close_ok remove_ok fs
     | _ => eq ([], 1, fs)
     end).
Proof.
  intros Hok Hops Hden Hrand. unfold mktemp_main. destruct operands as [|t [|t' operands]]; [|apply Forall_cons in Hops as [Ht _]|done].
  - apply mktemp_run_ok; [done|by repeat constructor|done|done].
  - by apply mktemp_run_ok.
Qed.

Lemma mktemp_makes_fresh_witness :
  let o := MkOptions None true false false false (Some (bytes ".c")) in
  let taken : names := {[bytes "/var/abXYab.c"]} in
  mktemp_main (fun _ => None) o (Some (bytes "/var/")) [bytes "abXXXX"] (Some [0; 25; 50; 100; 200; 7; 9; 0; 1; 2; 3; 4; 5; 6; 7; 8]) true true true taken =
    Ok (bytes "/var/abazYa.c" ++ [10], 0, {[bytes "/var/abazYa.c"]} ∪ taken) /\
  fresh_or_failed o (Some (bytes "/var/")) true (bytes "abXXXX") true true taken (bytes "/var/abazYa.c" ++ [10], 0, {[bytes "/var/abazYa.c"]} ∪ taken).
Proof.
  intros o taken.
  assert (mktemp_main (fun _ => None) o (Some (bytes "/var/")) [bytes "abXXXX"] (Some [0; 25; 50; 100; 200; 7; 9; 0; 1; 2; 3; 4; 5; 6; 7; 8]) true true true taken =
    Ok (bytes "/var/abazYa.c" ++ [10], 0, {[bytes "/var/abazYa.c"]} ∪ taken)) as E by (vm_compute; reflexivity).
  split; [exact E|].
  pose proof (mktemp_makes_fresh (fun _ => None) o (Some (bytes "/var/")) [bytes "abXXXX"] (Some [0; 25; 50; 100; 200; 7; 9; 0; 1; 2; 3; 4; 5; 6; 7; 8]) true true true taken) as H.
  rewrite E in H. apply H; clear.
  - split_and!; cbn; [intros s [= <-]|done|intros d [= <-]]; by repeat constructor.
  - by repeat constructor.
  - done.
  - intros bs [= <-]. repeat constructor; done.
Defined.
