(* ===== verification/Permutations.v ===== *)
(** * Permutations in order: misc/lexicographicPermutations.c

    All arrangements of the characters of a string, printed one after the other by
    a next-permutation step.  Characters are numbers (char, as the code compares
    them), a string is the list of its characters; qsort of the standard library is
    a sort by the comparison. *)

From Stdlib Require Import Factorial.
From stdpp Require Import sorting list_monad.
From S2P Require Import Prelude Arrays.
Open Scope Z_scope.

(** [qsort(str, strSize, sizeof(char), compare)] *)
Definition qsort (str : list Z) : list Z := merge_sort Z.le str.

(** [for (i = strSize - 2; i >= 0 && str[i] >= str[i+1]; --i){}] *)
Definition find_i (str : list Z) : res Z :=
  while (S (length str)) (fun i => if 0 <=? i then let* a := rd str i in let* b := rd str (i + 1) in Ok (b <=? a) else Ok false) (fun i => Ok (i - 1)) (zlen str - 2).

(** [for(k=j; k<strSize && str[k]; k++) if (str[k] > str[i] && str[k] < str[j]) j = k;] *)
Definition find_j (str : list Z) (i : Z) : res Z :=
  let* (j, _) := while (S (length str))
    (fun '(_, k) => if k <? zlen str then let* c := rd str k in Ok (negb (c =? 0)) else Ok false)
    (fun '(j, k) =>
      let* c := rd str k in
      let* a := rd str i in
      let* b := rd str j in
      Ok (if (a <? c) && (c <? b) then k else j, k + 1)) (i + 1, i + 1) in
  Ok j.

(** One turn of the loop after the printing: the next string, or none. *)
Definition next_permutation (str : list Z) : res (option (list Z)) :=
  let* i := find_i str in
  if 0 <=? i then
    let* j := find_j str i in
    let* str := swap str i j in
    Ok (Some (take (Z.to_nat (i + 1)) str ++ qsort (drop (Z.to_nat (i + 1)) str)))
  else Ok None.

(** The lines that are printed. *)
Definition print_turn (st : list Z * list (list Z)) : res (list Z * list (list Z) + list (list Z)) :=
  let '(str, out) := st in
  let out := out ++ [str] in
  let* r := next_permutation str in
  Ok (match r with Some str => inl (str, out) | None => inr out end).

Definition PrintSortedPermutations (str : list Z) : res (list (list Z)) :=
  loop (S (fact (length str))) print_turn (qsort str, []).

(** [char str[n]; scanf("%s", str);] *)
Definition main (n : Z) (input : list Z) : res (list (list Z)) :=
  let* _ := vla n in
  let* _ := demand (zlen input + 1 <=? n) OutOfBounds in
  PrintSortedPermutations input.

(** ** The order of strings *)

Fixpoint before (p q : list Z) : Prop :=
  match p, q with
  | [], _ :: _ => True
  | x :: p, y :: q => x < y \/ x = y /\ before p q
  | _, [] => False
  end.

Definition upto (p q : list Z) : Prop := p = q \/ before p q.

Lemma before_trans p : forall q r, before p q -> before q r -> before p r.
Proof.
  induction p as [|x p IH]; intros [|y q] [|z r] H1 H2; cbn in *; try done. destruct H1 as [H1|[-> H1]], H2 as [H2|[-> H2]]; [left; lia|left; lia|left; lia|right; eauto].
Qed.

Lemma before_irrefl p : ~ before p p.
Proof. induction p as [|x p IH]; intros H; cbn in H; [done|]. destruct H as [?|[_ ?]]; [lia|auto]. Qed.

Lemma before_total p : forall q, before p q \/ p = q \/ before q p.
Proof.
  induction p as [|x p IH]; intros [|y q]; cbn; auto. destruct (Z.lt_total x y) as [?|[->|?]]; auto. destruct (IH q) as [?|[->|?]]; auto.
Qed.

Lemma before_prefix a : forall p q, before (a ++ p) (a ++ q) <-> before p q.
Proof. induction a as [|x a IH]; intros p q; [done|]. cbn. rewrite IH. split; [intros [?|[_ ?]]; [lia|done]|auto]. Qed.

Definition noninc : list Z -> Prop := StronglySorted Z.ge.

(** A string in descending order is the last of its arrangements, one in ascending
    order the first. *)
Lemma noninc_last t : noninc t -> forall r, t ≡ₚ r -> upto r t.
Proof.
  intros Ht r Hp. revert r Hp. induction Ht as [|x t Ht IH Hx]; intros r Hp; [by apply Permutation_nil in Hp as ->; left|].
  destruct r as [|y r]; [by apply Permutation_sym, Permutation_nil in Hp|].
  assert (y <= x) as Hy. { assert (y ∈ x :: t) as Hin by (rewrite Hp; by left). apply elem_of_cons in Hin as [->|Hin]; [lia|]. rewrite Forall_forall in Hx. specialize (Hx y Hin). lia. }
  destruct (decide (y = x)) as [->|Hne]; [|right; left; lia]. apply Permutation_cons_inv in Hp. destruct (IH r Hp) as [->|Hb]; [by left|]. right. cbn. auto.
Qed.

Lemma qsort_perm s : qsort s ≡ₚ s.
Proof. apply merge_sort_Permutation. Qed.

Lemma sorted_first s r : s ≡ₚ r -> upto (qsort s) r.
Proof.
  intros Hp. assert (StronglySorted Z.le (qsort s)) as Hs by (apply StronglySorted_merge_sort; apply _).
  assert (qsort s ≡ₚ r) as Hq by (rewrite qsort_perm; done). clear Hp. revert r Hq. induction Hs as [|x t Ht IH Hx]; intros r Hp; [by apply Permutation_nil in Hp as ->; left|].
  destruct r as [|y r]; [by apply Permutation_sym, Permutation_nil in Hp|].
  assert (x <= y) as Hy. { assert (y ∈ x :: t) as Hin by (rewrite Hp; by left). apply elem_of_cons in Hin as [->|Hin]; [lia|]. rewrite Forall_forall in Hx. by apply Hx. }
  destruct (decide (x = y)) as [->|Hne]; [|right; left; lia]. apply Permutation_cons_inv in Hp. destruct (IH r Hp) as [->|Hb]; [by left|]. right. cbn. auto.
Qed.

(** ** The step *)

(** The string before the step: the rightmost [x] that is smaller than what
    follows it, then a tail in descending order; [z] is the smallest of the tail
    that is larger than [x]. *)
Record ascent (str a : list Z) (x : Z) (t : list Z) : Prop := Ascent {
  ascent_eq : str = a ++ x :: t;
  ascent_tail : noninc t;
  ascent_up : exists y t', t = y :: t' /\ x < y }.

Lemma noninc_cons x y t : noninc (y :: t) -> y <= x -> noninc (x :: y :: t).
Proof.
  intros Ht Hy. constructor; [done|]. apply StronglySorted_inv in Ht as [_ Ht]. constructor; [lia|]. eapply Forall_impl; [exact Ht|]. cbn. lia.
Qed.

Lemma find_i_ok str : wp (find_i str) (fun i => i < 0 /\ noninc str \/ exists a x t, ascent str a x t /\ i = zlen a).
Proof.
  unfold find_i. destruct (exists_last_or str) as [->|(b & z & ->)]; [left; split; [done|constructor]|].
  apply (wp_while (fun i => exists b' y t, b ++ [z] = b' ++ y :: t /\ noninc (y :: t) /\ i = zlen b' - 1) (fun i => i + 1)).
  - exists b, z, []. split; [done|]. split; [repeat constructor|]. rewrite zlen_snoc. lia.
  - rewrite zlen_snoc. unfold zlen. rewrite length_app. lia.
  - intros i (b' & y & t & _ & _ & ->). pose proof (zlen_nonneg b'). lia.
  - intros i (b' & y & t & E & Ht & ->). destruct (exists_last_or b') as [->|(b1 & x & ->)].
    + cbn. left. split; [done|]. by rewrite E.
    + rewrite zlen_snoc. pose proof (zlen_nonneg b1). replace (zlen b1 + 1 - 1) with (zlen b1) by lia. rewrite (proj2 (Z.leb_le 0 _)) by lia. rewrite E.
      rewrite <- app_assoc. cbn [app]. rewrite rd_middle by done. cbn [bind]. rewrite (cons_middle x b1), app_assoc, rd_middle by (rewrite zlen_snoc; lia). cbn [bind wp].
      destruct (Z.leb_spec y x) as [Hyx|Hyx].
      * split; [|lia]. exists b1, x, (y :: t). split; [by rewrite <- app_assoc|]. split; [by apply noninc_cons|lia].
      * right. exists b1, x, (y :: t). split; [|done]. split; [by rewrite <- app_assoc|done|eauto].
Qed.

Lemma find_j_ok str a x t : ascent str a x t -> Forall (fun c => c <> 0) str ->
  wp (find_j str (zlen a)) (fun j => exists t1 z t2, t = t1 ++ z :: t2 /\ j = zlen a + 1 + zlen t1 /\ x < z /\ forall w, w ∈ t -> x < w -> z <= w).
Proof.
  intros [-> Ht (y & t' & -> & Hxy)] Hnz. unfold find_j. set (str := a ++ x :: y :: t') in *.
  assert (zlen str = zlen a + 2 + zlen t') as Hl by (unfold str; rewrite zlen_app, !zlen_cons; lia). pose proof (zlen_nonneg a) as Ha. pose proof (zlen_nonneg t') as Ht'.
  assert (str.[zlen a] = x) as Ex by apply aget_middle. assert (str.[zlen a + 1] = y) as Ey.
  { unfold str. rewrite (cons_middle x a), app_assoc. replace (zlen a + 1) with (zlen (a ++ [x])) by (by rewrite zlen_snoc). apply aget_middle. }
  apply wp_bind. apply (wp_while (fun '(j, k) => zlen a + 1 <= j < zlen str /\ zlen a + 1 <= k <= zlen str /\ x < str.[j] /\ forall m, zlen a + 1 <= m < k -> x < str.[m] -> str.[j] <= str.[m]) (fun '(_, k) => zlen str - k)).
  - split_and!; [lia|lia|lia|lia|by rewrite Ey|]. intros m Hm. lia.
  - unfold zlen in *. lia.
  - intros [j k] (_ & ? & _). lia.
  - intros [j k] (Hj & Hk & Hxj & Hmin). destruct (Z.ltb_spec k (zlen str)) as [Hlt|Hge].
    + apply wp_bind, wp_rd; [lia|]. apply wp_Ok. assert (str.[k] <> 0) as Hz by (apply (Forall_aget_1 _ _ _ Hnz); lia). rewrite (proj2 (Z.eqb_neq _ 0) Hz). cbn [negb].
      apply wp_bind, wp_rd; [lia|]. apply wp_bind, wp_rd; [lia|]. apply wp_bind, wp_rd; [lia|]. apply wp_Ok. rewrite Ex. split; [|lia].
      destruct (Z.ltb_spec x str.[k]), (Z.ltb_spec str.[k] str.[j]); cbn [andb]; (split_and!; [lia|lia|lia|lia|done|]); intros m Hm Hxm;
        (destruct (decide (m = k)) as [->|]; [lia|]); specialize (Hmin m ltac:(lia) Hxm); lia.
    + apply wp_Ok. apply wp_Ok. assert (k = zlen str) as -> by lia.
      set (n := Z.to_nat (j - zlen a - 1)). assert (n < length (y :: t'))%nat as Hn by (unfold n, zlen in *; cbn [length]; lia).
      destruct (lookup_lt_is_Some_2 (y :: t') n Hn) as [z Ez]. exists (take n (y :: t')), z, (drop (S n) (y :: t')).
      assert (forall m w, (y :: t') !! m = Some w -> str.[zlen a + 1 + Z.of_nat m] = w) as Hget.
      { intros m w E. unfold aget, str. apply list_lookup_total_correct. rewrite lookup_app_r by (unfold zlen; lia). replace (Z.to_nat (zlen a + 1 + Z.of_nat m) - length a)%nat with (S m) by (unfold zlen; lia). done. }
      assert (str.[j] = z) as Ezj by (rewrite <- (Hget n z Ez); f_equal; unfold n; lia). split; [by rewrite take_drop_middle|]. split; [unfold zlen; rewrite length_take; unfold zlen in *; lia|]. split; [by rewrite <- Ezj|].
      intros w Hw Hxw. apply list_elem_of_lookup in Hw as [m Em]. rewrite <- Ezj, <- (Hget m w Em). apply Hmin; [|by rewrite (Hget m w Em)]. apply lookup_lt_Some in Em. unfold zlen in *. cbn [length] in *. lia.
Qed.

Lemma swap_ascent (a : list Z) x t1 z t2 : swap (a ++ x :: t1 ++ z :: t2) (zlen a) (zlen a + 1 + zlen t1) = Ok (a ++ z :: t1 ++ x :: t2).
Proof.
  unfold swap. rewrite rd_middle by done. cbn [bind].
  assert (forall w, a ++ w :: t1 ++ z :: t2 = (a ++ w :: t1) ++ z :: t2) as E by (intros w; by rewrite <- app_assoc).
  rewrite E, rd_middle by (rewrite zlen_app, zlen_cons; lia). cbn [bind]. rewrite <- E, wr_middle by done. cbn [bind]. rewrite E, wr_middle by (rewrite zlen_app, zlen_cons; lia). by rewrite <- app_assoc.
Qed.

(** The step gives the next string in the order. *)
Lemma next_in_order a x t1 z t2 r : noninc (t1 ++ z :: t2) -> x < z -> (forall w, w ∈ t1 ++ z :: t2 -> x < w -> z <= w) ->
  a ++ x :: t1 ++ z :: t2 ≡ₚ r -> before (a ++ x :: t1 ++ z :: t2) r -> upto (a ++ z :: qsort (t1 ++ x :: t2)) r.
Proof.
  intros Ht Hxz Hmin. revert r. induction a as [|c a IH]; intros r Hp Hb.
  - cbn [app] in *. destruct r as [|w r]; [done|]. cbn [before] in Hb. destruct Hb as [Hxw|[-> Hb]].
    + assert (w ∈ t1 ++ z :: t2) as Hw. { assert (w ∈ x :: t1 ++ z :: t2) as Hin by (rewrite Hp; by left). apply elem_of_cons in Hin as [->|]; [lia|done]. }
      specialize (Hmin w Hw Hxw). destruct (decide (w = z)) as [->|]; [|right; left; lia].
      assert (t1 ++ x :: t2 ≡ₚ r) as Hr.
      { apply (Permutation_cons_inv (a := z)). rewrite <- Hp, <- !Permutation_middle. apply perm_swap. }
      destruct (sorted_first _ _ Hr) as [->|?]; [by left|right; right; by split].
    + apply Permutation_cons_inv in Hp. destruct (noninc_last _ Ht r Hp) as [->|Hb']; exfalso; [by eapply before_irrefl|]. eapply before_irrefl, before_trans; [exact Hb|exact Hb'].
  - cbn [app] in *. destruct r as [|w r]; [done|]. cbn [before] in Hb. destruct Hb as [?|[-> Hb]]; [right; by left|]. apply Permutation_cons_inv in Hp. destruct (IH r Hp Hb) as [->|?]; [by left|right; right; by split].
Qed.

Lemma next_permutation_ok str : Forall (fun c => c <> 0) str ->
  wp (next_permutation str) (fun o => match o with
    | None => forall r, str ≡ₚ r -> upto r str
    | Some q => str ≡ₚ q /\ before str q /\ forall r, str ≡ₚ r -> before str r -> upto q r
    end).
Proof.
  intros Hnz. unfold next_permutation. apply wp_bind. eapply wp_mono; [apply find_i_ok|]. intros i [[Hi Hn]|(a & x & t & Ha & ->)].
  { rewrite (proj2 (Z.leb_gt 0 i)) by lia. apply wp_Ok. by apply noninc_last. }
  rewrite (proj2 (Z.leb_le 0 _)) by apply zlen_nonneg. apply wp_bind. eapply wp_mono; [by apply (find_j_ok str a x t)|]. intros j (t1 & z & t2 & -> & -> & Hxz & Hmin). destruct Ha as [-> Ht _].
  rewrite swap_ascent. cbn [bind]. apply wp_Ok.
  assert (Z.to_nat (zlen a + 1) = length (a ++ [z])) as -> by (unfold zlen; rewrite length_app; cbn [length]; lia). 
  assert (a ++ z :: t1 ++ x :: t2 = (a ++ [z]) ++ t1 ++ x :: t2) as -> by (by rewrite <- app_assoc). rewrite take_app_length, drop_app_length, <- app_assoc. cbn [app].
  split; [|split].
  - apply Permutation_app_head. rewrite qsort_perm, <- !Permutation_middle. apply perm_swap.
  - apply before_prefix. left. done.
  - intros r Hp Hb. by apply (next_in_order a x t1 z t2).
Qed.

(** ** All of them *)

Lemma count_permutations (l : list Z) : length (permutations l) = fact (length l).
Proof.
  assert (forall (x : Z) l, length (interleave x l) = S (length l)) as Hint 
    by (intros x l0; induction l0 as [|y l0 IH]; [done|]; cbn [interleave length]; by rewrite length_fmap, IH).
  induction l as [|x l IH]; [done|]. cbn [permutations]. assert (forall ls : list (list Z), Forall (fun l' => length l' = length l) ls -> length (ls ≫= interleave x) = (length ls * S (length l))%nat) as Hb.
  { induction 1 as [|l' ls Hl _ IHls]; [done|]. rewrite bind_cons, length_app, IHls, Hint, Hl. cbn [length]. lia. }
  rewrite Hb, IH; [cbn [length fact]; lia|]. apply Forall_forall. intros l' Hl. apply permutations_Permutation in Hl. by rewrite Hl.
Qed.

(** The lines printed so far, when [str] is next: in strictly ascending order and
    all that come before [str]. *)
Definition listed (s str : list Z) (out : list (list Z)) : Prop :=
  s ≡ₚ str /\ StronglySorted before out /\ Forall (fun p => s ≡ₚ p /\ before p str) out /\ forall r, s ≡ₚ r -> before r str -> r ∈ out.

Lemma ascending_nodup out : StronglySorted before out -> NoDup out.
Proof.
  induction 1 as [|p out _ IH Hp]; constructor; [|done]. intros Hin. rewrite Forall_forall in Hp. by apply (before_irrefl p), Hp.
Qed.

Lemma ascending_snoc out str : StronglySorted before out -> Forall (fun p => before p str) out -> StronglySorted before (out ++ [str]).
Proof.
  induction 1 as [|p out _ IH Hp]; intros Hs; cbn [app]; [repeat constructor|]. apply Forall_cons in Hs as [H1 H2]. constructor; [by apply IH|]. apply Forall_app. split; [done|by repeat constructor].
Qed.

(** There are no more lines than arrangements. *)
Lemma listed_short s str out : listed s str out -> (length out < fact (length s))%nat.
Proof.
  intros (Hs & Ho & Hf & _). assert (NoDup (out ++ [str])) as Hnd by (apply ascending_nodup, ascending_snoc; [done|]; eapply Forall_impl; [exact Hf|]; by intros p [_ ?]).
  rewrite <- count_permutations. assert (length (out ++ [str]) <= length (permutations s))%nat as Hl; [|rewrite length_app in Hl; cbn [length] in Hl; lia].
  apply submseteq_length, NoDup_submseteq; [done|]. intros p Hp. apply permutations_Permutation. apply elem_of_app in Hp as [Hp|Hp]; [rewrite Forall_forall in Hf; by apply Hf in Hp as [? _]|].
  by apply list_elem_of_singleton in Hp as ->.
Qed.

(** C14. PrintSortedPermutations prints every arrangement of the characters exactly
    once and in ascending order: it returns for every string, the lines are
    strictly ascending in the lexicographic order of char, and a line is printed if
    and only if it is a permutation of the string (equal characters do not lead to
    equal lines). *)
Theorem all_permutations_in_order str : Forall (fun c => c <> 0) str ->
  wp (PrintSortedPermutations str) (fun out => StronglySorted before out /\ forall r, r ∈ out <-> str ≡ₚ r).
Proof.
  intros Hnz. unfold PrintSortedPermutations.
  apply (wp_loop (fun '(p, out) => listed str p out) (fun '(_, out) => Z.of_nat (fact (length str)) - zlen out)).
  - split; [symmetry; apply qsort_perm|]. split; [constructor|]. split; [constructor|]. intros r Hr Hb. exfalso. destruct (sorted_first str r Hr) as [<-|Hb']; [by eapply before_irrefl|]. eapply before_irrefl, before_trans; eauto.
  - change (zlen []) with 0. lia.
  - intros [p out] Hl%listed_short. unfold zlen. lia.
  - intros [p out] (Hp & Ho & Hf & Hall). unfold print_turn. apply wp_bind. eapply wp_mono; [apply next_permutation_ok; by rewrite <- Hp|].
    assert (StronglySorted before (out ++ [p])) as Ho' by (apply ascending_snoc; [done|]; eapply Forall_impl; [exact Hf|]; by intros q [_ ?]).
    intros [q|]; intros Hq; apply wp_Ok.
    + destruct Hq as (Hpq & Hb & Hnext). split; [|rewrite zlen_snoc; lia]. split; [by rewrite Hp|]. split; [done|]. split.
      * apply Forall_app. split; [|by repeat constructor]. eapply Forall_impl; [exact Hf|]. intros r [H1 H2]. split; [done|]. by eapply before_trans.
      * intros r Hr Hrq. destruct (before_total r p) as [H|[->|H]]; apply elem_of_app; [left; by apply Hall|right; by apply list_elem_of_singleton|].
        exfalso. assert (p ≡ₚ r) as Hpr by (by rewrite <- Hp). destruct (Hnext r Hpr H) as [->|H']; [by eapply before_irrefl|]. eapply before_irrefl, before_trans; eauto.
    + split; [done|]. intros r. rewrite elem_of_app, list_elem_of_singleton. split.
      * intros [Hin| ->]; [|done]. rewrite Forall_forall in Hf. by apply Hf in Hin as [? _].
      * intros Hr. assert (p ≡ₚ r) as Hpr by (by rewrite <- Hp). destruct (Hq r Hpr) as [->|H]; [by right|left; by apply Hall].
Qed.

Lemma all_permutations_in_order_witness :
  PrintSortedPermutations [98; 97; 98] = Ok [[97; 98; 98]; [98; 97; 98]; [98; 98; 97]] /\
  forall r, r ∈ [[97; 98; 98]; [98; 97; 98]; [98; 98; 97]] <-> [98; 97; 98] ≡ₚ r.
Proof.
  assert (PrintSortedPermutations [98; 97; 98] = Ok [[97; 98; 98]; [98; 97; 98]; [98; 98; 97]]) as E by (vm_compute; reflexivity).
  split; [exact E|]. pose proof (all_permutations_in_order [98; 97; 98]) as H. rewrite E in H. apply H. by repeat constructor.
Defined.

(** The array has room for the characters that were announced, but not for the
    terminator. *)
Lemma announced_size_overruns str : str <> [] -> main (zlen str) str = Fail OutOfBounds.
Proof.
  intros Hne. unfold main, vla, demand. assert (0 < zlen str) as H by (destruct str; [done|]; rewrite zlen_cons; pose proof (zlen_nonneg str); lia).
  rewrite (proj2 (Z.ltb_lt _ _) H). cbn [bind]. by rewrite (proj2 (Z.leb_gt _ _)) by lia.
Qed.
