(* ===== verification/Digits.v ===== *)
(** * Programs on decimal digits: misc/isArmstrong.c, strongNumber.c, palindrome.c

    Each takes the digits of an int one by one with % and /.  The answer of a
    program is a boolean: which of its two messages it prints. *)

From S2P Require Import Prelude Arrays.
Open Scope Z_scope.

(** [while (n != 0)] with [i = n % 10] and [n = n / 10]; an int has ten digits. *)
Definition digit_turn (body : Z -> Z -> res Z) (st : Z * Z) : res (Z * Z + Z) :=
  let '(n, acc) := st in
  if n =? 0 then Ok (inr acc)
  else
    let* acc := body (Z.rem n 10) acc in
    Ok (inl (Z.quot n 10, acc)).
Definition over_digits (body : Z -> Z -> res Z) (n acc : Z) : res Z := loop 11 (digit_turn body) (n, acc).

(** isArmstrong.c *)
Definition armstrong (n : Z) : res bool :=
  let* sum := over_digits (fun i sum => let* c := int (i * i) in let* c := int (c * i) in int (sum + c)) n 0 in
  Ok (sum =? n).

(** strongNumber.c: [while (a > 0)], and the factorial of a digit. *)
Definition digit_factorial (b : Z) : res Z := for_up 1 (b + 1) (fun i fact => int (fact * i)) 1.
Definition strng (a : Z) : res bool :=
  let* sum := (if 0 <? a then over_digits (fun b sum => let* f := digit_factorial b in int (sum + f)) a 0 else Ok 0) in
  Ok (sum =? a).

(** palindrome.c *)
Definition palindrome (n : Z) : res bool :=
  let* reversedInteger := over_digits (fun remainder r => let* r := int (r * 10) in int (r + remainder)) n 0 in
  Ok (n =? reversedInteger).

(** ** Digits *)

(** The number with these digits, the last one first. *)
Fixpoint value (ds : list Z) : Z := match ds with [] => 0 | d :: ds => d + 10 * value ds end.
Definition digit (d : Z) : Prop := 0 <= d <= 9.

(** No leading zero. *)
Definition numeral (ds : list Z) : Prop := Forall digit ds /\ last ds <> Some 0.

Lemma value_nonneg ds : Forall digit ds -> 0 <= value ds.
Proof. induction 1 as [|d ds [? ?] _ IH]; cbn [value]; lia. Qed.

Lemma numeral_tail d ds : numeral (d :: ds) -> digit d /\ numeral ds /\ value (d :: ds) <> 0.
Proof.
  intros [Hd Hl]. apply Forall_cons in Hd as [Hd Hds]. split; [done|]. split; [split; [done|]; destruct ds; [done|by rewrite last_cons_cons in Hl]|]. cbn [value].
  pose proof (value_nonneg ds Hds). destruct Hd. destruct ds as [|e ds]; [cbn in *; assert (d <> 0) by congruence; lia|].
  enough (value (e :: ds) <> 0) by lia. rewrite last_cons_cons in Hl. clear - Hl Hds. revert e Hl Hds. induction ds as [|f ds IH]; intros e Hl Hds; apply Forall_cons in Hds as [[? ?] Hds]; cbn [value].
  - cbn in Hl. assert (e <> 0) by congruence. lia.
  - rewrite last_cons_cons in Hl. specialize (IH f Hl Hds). pose proof (value_nonneg (f :: ds) Hds). cbn [value] in *. lia.
Qed.

(** Every number from 0 on has one. *)
Lemma numeral_exists n : 0 <= n -> exists ds, numeral ds /\ value ds = n.
Proof.
  intros Hn. assert (forall k n, 0 <= n < 10 ^ Z.of_nat k -> exists ds, numeral ds /\ value ds = n) as H.
  { clear. induction k as [|k IH]; intros n Hn; [exists []; split; [split; [constructor|done]|cbn in *; lia]|].
    destruct (decide (n = 0)) as [->|Hz]; [exists []; split; [split; [constructor|done]|done]|].
    assert (0 <= n / 10 < 10 ^ Z.of_nat k) as Hq. { split; [apply Z.div_pos; lia|]. apply Z.div_lt_upper_bound; [lia|]. rewrite Nat2Z.inj_succ, Z.pow_succ_r in Hn by lia. lia. }
    destruct (IH _ Hq) as (ds & [Hd Hl] & Hv). exists (n mod 10 :: ds). pose proof (Z.mod_pos_bound n 10 ltac:(lia)). pose proof (Z.div_mod n 10 ltac:(lia)). split; [|cbn [value]; lia].
    split; [constructor; [unfold digit; lia|done]|]. destruct ds as [|e ds]; [cbn in *; intros [= E]; lia|by rewrite last_cons_cons]. }
  destruct (decide (n = 0)) as [->|]; [exists []; split; [split; [constructor|done]|done]|]. apply (H (S (Z.to_nat (Z.log2 n)))). split; [done|].
  eapply Z.lt_le_trans; [apply Z.log2_spec; lia|]. rewrite Nat2Z.inj_succ, Z2Nat.id by apply Z.log2_nonneg. apply Z.pow_le_mono_l. lia.
Qed.

(** The loop is a fold over the digits. *)
Fixpoint fold_digits (body : Z -> Z -> res Z) (ds : list Z) (acc : Z) : res Z :=
  match ds with [] => Ok acc | d :: ds => let* acc := body d acc in fold_digits body ds acc end.

Lemma over_digits_fold body ds : forall acc fuel, numeral ds -> (length ds < fuel)%nat ->
  loop fuel (digit_turn body) (value ds, acc) = fold_digits body ds acc.
Proof.
  induction ds as [|d ds IH]; intros acc fuel Hn Hf; (destruct fuel as [|fuel]; [cbn [length] in Hf; lia|]); [done|]. apply numeral_tail in Hn as (Hd & Hds & Hz). cbn [loop]. unfold digit_turn at 1.
  rewrite (proj2 (Z.eqb_neq _ 0) Hz). pose proof (value_nonneg ds (proj1 Hds)). unfold digit in Hd. cbn [value fold_digits].
  assert (Z.rem (d + 10 * value ds) 10 = d) as -> by (rewrite Z.rem_mod_nonneg by lia; symmetry; apply (Z.mod_unique _ _ (value ds)); lia).
  assert (Z.quot (d + 10 * value ds) 10 = value ds) as -> by (rewrite Z.quot_div_nonneg by lia; symmetry; apply (Z.div_unique _ _ _ d); lia).
  destruct (body d acc) as [acc'|]; cbn [bind]; [|done]. apply IH; [done|cbn [length] in Hf; lia].
Qed.

Lemma numeral_length ds : numeral ds -> value ds <= INT_MAX -> (length ds <= 10)%nat.
Proof.
  intros Hn Hv. assert (forall ds, numeral ds -> ds <> [] -> 10 ^ (zlen ds - 1) <= value ds) as H.
  { clear. induction ds as [|d ds IH]; intros Hn Hne; [done|]. pose proof (numeral_tail _ _ Hn) as (Hd & Hds & Hz). unfold digit in Hd. destruct ds as [|e ds]; [change (10 ^ (zlen [d] - 1)) with 1; cbn [value] in *; lia|].
    specialize (IH Hds ltac:(done)). rewrite zlen_cons. replace (zlen (e :: ds) + 1 - 1) with (Z.succ (zlen (e :: ds) - 1)) by lia.
    rewrite Z.pow_succ_r by (rewrite zlen_cons; pose proof (zlen_nonneg ds); lia). change (value (d :: e :: ds)) with (d + 10 * value (e :: ds)). lia. }
  destruct ds as [|d ds]; [cbn; lia|]. specialize (H _ Hn ltac:(done)). destruct (decide (length (d :: ds) <= 10)%nat) as [|Hl]; [done|]. exfalso.
  assert (10 ^ 10 <= 10 ^ (zlen (d :: ds) - 1)) by (apply Z.pow_le_mono_r; unfold zlen; lia). unfold INT_MAX in Hv. lia.
Qed.

(** ** The three programs *)

Fixpoint factorial (n : nat) : Z := match n with O => 1 | S m => Z.of_nat n * factorial m end.

Definition cube_sum (ds : list Z) : Z := foldr (fun d s => d * d * d + s) 0 ds.
Definition factorial_sum (ds : list Z) : Z := foldr (fun d s => factorial (Z.to_nat d) + s) 0 ds.

(** A sum of terms for the digits, each below a bound. *)
Lemma fold_sum (body : Z -> Z -> res Z) (term : Z -> Z) bound ds : 0 <= bound ->
  (forall d acc, digit d -> 0 <= acc -> acc + term d <= INT_MAX -> body d acc = Ok (acc + term d)) -> (forall d, digit d -> 0 <= term d <= bound) ->
  Forall digit ds -> forall acc, 0 <= acc -> acc + bound * zlen ds <= INT_MAX -> fold_digits body ds acc = Ok (acc + foldr (fun d s => term d + s) 0 ds).
Proof.
  intros Hb Hbody Hterm. induction 1 as [|d ds Hd Hds IH]; intros acc Hacc Hmax; cbn [fold_digits foldr]; [by rewrite Z.add_0_r|]. rewrite zlen_cons in Hmax. specialize (Hterm d Hd).
  pose proof (zlen_nonneg ds). rewrite Hbody by (done || nia). cbn [bind]. rewrite IH by nia. f_equal. lia.
Qed.

Lemma digit_cases d (P : Z -> Prop) : digit d -> Forall P [0; 1; 2; 3; 4; 5; 6; 7; 8; 9] -> P d.
Proof.
  intros [H1 H2] HP. rewrite Forall_forall in HP. apply HP. apply list_elem_of_In. assert (d = 0 \/ d = 1 \/ d = 2 \/ d = 3 \/ d = 4 \/ d = 5 \/ d = 6 \/ d = 7 \/ d = 8 \/ d = 9) by lia. cbn. naive_solver.
Qed.

Lemma cube_term d : digit d -> 0 <= d * d * d <= 729.
Proof. intros Hd. apply (digit_cases d (fun d => 0 <= d * d * d <= 729) Hd). repeat constructor; done. Qed.

Lemma factorial_term d : digit d -> digit_factorial d = Ok (factorial (Z.to_nat d)) /\ 0 <= factorial (Z.to_nat d) <= 362880.
Proof. intros Hd. apply (digit_cases d (fun d => digit_factorial d = Ok (factorial (Z.to_nat d)) /\ 0 <= factorial (Z.to_nat d) <= 362880) Hd). repeat constructor; vm_compute; done. Qed.

Lemma armstrong_ok ds : numeral ds -> value ds <= INT_MAX -> armstrong (value ds) = Ok (cube_sum ds =? value ds).
Proof.
  intros Hn Hv. pose proof (numeral_length ds Hn Hv) as Hl. unfold armstrong, over_digits. rewrite over_digits_fold by (done || lia).
  rewrite (fold_sum _ (fun d => d * d * d) 729); [done|lia| |apply cube_term|by destruct Hn|done|unfold INT_MAX, zlen; lia].
  intros d acc Hd Hacc Hmax. pose proof (cube_term d Hd). unfold digit in Hd. rewrite int_Ok by (unfold is_int, INT_MIN, INT_MAX; nia). cbn [bind]. rewrite int_Ok by (unfold is_int, INT_MIN, INT_MAX; nia). cbn [bind].
  apply int_Ok. unfold is_int, INT_MIN in *. lia.
Qed.

Lemma strng_ok ds : numeral ds -> value ds <= INT_MAX -> strng (value ds) = Ok (factorial_sum ds =? value ds).
Proof.
  intros Hn Hv. pose proof (numeral_length ds Hn Hv) as Hl. pose proof (value_nonneg ds (proj1 Hn)) as Hp. unfold strng. destruct (Z.ltb_spec 0 (value ds)) as [H|H].
  2: { destruct ds as [|d ds]; [done|]. apply numeral_tail in Hn as (_ & _ & Hz). lia. }
  unfold over_digits. rewrite over_digits_fold by (done || lia).
  rewrite (fold_sum _ (fun d => factorial (Z.to_nat d)) 362880); [done|lia| |apply factorial_term|by destruct Hn|done|unfold INT_MAX, zlen; lia].
  intros d acc Hd Hacc Hmax. destruct (factorial_term d Hd) as [-> Hr]. cbn [bind]. apply int_Ok. unfold is_int, INT_MIN in *. lia.
Qed.

Lemma value_app ds : forall es, value (ds ++ es) = value ds + 10 ^ zlen ds * value es.
Proof.
  induction ds as [|d ds IH]; intros es; [cbn [app value]; change (10 ^ zlen []) with 1; lia|]. cbn [app value]. rewrite IH, zlen_cons, Z.add_1_r, Z.pow_succ_r by apply zlen_nonneg. lia.
Qed.

Lemma value_inj ds : forall es, Forall digit ds -> Forall digit es -> length ds = length es -> value ds = value es -> ds = es.
Proof.
  induction ds as [|d ds IH]; intros [|e es] Hd He Hl Hv; try done. apply Forall_cons in Hd as [Hd Hds]. apply Forall_cons in He as [He Hes]. unfold digit in *. cbn [value] in Hv.
  assert (d = e) as -> by lia. f_equal. apply IH; [done|done|by injection Hl|lia].
Qed.

(** The reversed number, as the loop builds it. *)
Lemma reverse_fold ds : Forall digit ds -> forall rs, Forall digit rs -> value rs <= INT_MAX ->
  fold_digits (fun remainder r => let* r := int (r * 10) in int (r + remainder)) ds (value rs) =
  if value (reverse ds ++ rs) <=? INT_MAX then Ok (value (reverse ds ++ rs)) else Fail IntOverflow.
Proof.
  induction 1 as [|d ds Hd Hds IH]; intros rs Hrs Hv; [cbn [reverse rev_append app fold_digits]; by rewrite (proj2 (Z.leb_le _ _)) by done|]. cbn [fold_digits]. unfold digit in Hd.
  pose proof (value_nonneg rs Hrs) as Hr. assert (value rs * 10 + d = value (d :: rs)) as E by (cbn [value]; lia). rewrite reverse_cons, <- app_assoc. cbn [app].
  assert (value (d :: rs) <= value (reverse ds ++ d :: rs)) as Hle.
  { rewrite value_app. assert (0 <= value (reverse ds)) by (apply value_nonneg; by apply Forall_reverse). assert (1 <= 10 ^ zlen (reverse ds)) by (apply (Z.pow_le_mono_r 10 0); [lia|apply zlen_nonneg]). assert (0 <= value (d :: rs)) by (cbn [value]; lia). nia. }
  unfold int at 1. destruct (Z.leb_spec INT_MIN (value rs * 10)); [|unfold INT_MIN in *; lia]. destruct (Z.leb_spec (value rs * 10) INT_MAX) as [H10|H10]; cbn [andb bind].
  2: { rewrite (proj2 (Z.leb_gt _ _)) by lia. done. }
  rewrite E. unfold int at 1. rewrite (proj2 (Z.leb_le INT_MIN _)) by (unfold INT_MIN in *; lia). destruct (Z.leb_spec (value (d :: rs)) INT_MAX); cbn [andb bind]; [|by rewrite (proj2 (Z.leb_gt _ _)) by lia].
  apply IH; [by constructor|done].
Qed.

Lemma palindrome_ok ds : numeral ds -> value ds <= INT_MAX ->
  palindrome (value ds) = if value (reverse ds) <=? INT_MAX then Ok (bool_decide (ds = reverse ds)) else Fail IntOverflow.
Proof.
  intros Hn Hv. pose proof (numeral_length ds Hn Hv) as Hl. unfold palindrome, over_digits. rewrite over_digits_fold by (done || lia). destruct Hn as [Hd _].
  change 0 with (value []) at 1. rewrite (reverse_fold ds Hd []) by (constructor || done). rewrite app_nil_r. destruct (value (reverse ds) <=? INT_MAX); cbn [bind]; [|done]. f_equal.
  destruct (Z.eqb_spec (value ds) (value (reverse ds))) as [E|E]; symmetry; [apply bool_decide_eq_true|apply bool_decide_eq_false; congruence].
  apply value_inj; [done|by apply Forall_reverse|by rewrite length_reverse|done].
Qed.

(** The digit programs decide what their messages say, for every int from 0 on
    with the digits [ds] (each such number has exactly these, see numeral_exists):
    isArmstrong whether the cubes of the digits add up to the number, strongNumber
    whether their factorials do, palindrome whether the digits read the same
    backwards, unless the reversed number is no int, where the code overflows. *)
Theorem digit_programs_decide n : 0 <= n <= INT_MAX -> exists ds, numeral ds /\ value ds = n /\
  armstrong n = Ok (cube_sum ds =? n) /\ strng n = Ok (factorial_sum ds =? n) /\
  palindrome n = if value (reverse ds) <=? INT_MAX then Ok (bool_decide (ds = reverse ds)) else Fail IntOverflow.
Proof.
  intros [Hn Hm]. destruct (numeral_exists n Hn) as (ds & Hds & <-). exists ds. split; [done|]. split; [done|]. split; [by apply armstrong_ok|]. split; [by apply strng_ok|by apply palindrome_ok].
Qed.

Lemma digit_programs_decide_witness :
  armstrong 153 = Ok true /\ strng 145 = Ok true /\ palindrome 1221 = Ok true /\ palindrome 1999999999 = Fail IntOverflow /\
  exists ds, numeral ds /\ value ds = 153 /\ armstrong 153 = Ok (cube_sum ds =? 153) /\ strng 153 = Ok (factorial_sum ds =? 153) /\
    palindrome 153 = if value (reverse ds) <=? INT_MAX then Ok (bool_decide (ds = reverse ds)) else Fail IntOverflow.
Proof. split; [vm_compute; reflexivity|]. split; [vm_compute; reflexivity|]. split; [vm_compute; reflexivity|]. split; [vm_compute; reflexivity|]. apply (digit_programs_decide 153). unfold INT_MAX. lia. Defined.
