(* ===== verification/Exercism.v ===== *)
(** * String exercises: exercism/isogram/isogram.c, rna-transcription/rna_transcription.c
    and word-count/word_count.c

    Strings are C strings; the rows of word_list are cells that hold a string or
    nothing yet. *)

From S2P Require Import Prelude Arrays CStrings.
Open Scope Z_scope.

(** ** isogram.c *)

(** The inner loop: a character that is there again ends both loops. *)
Definition repeated (phrase : list Z) (len i : Z) : res bool :=
  let* current_char := rd phrase i in
  let* r := for_exit (i + 1) len (fun j (_ : unit) => let* c := rd phrase j in Ok (if current_char =? c then inr false else inl tt)) tt in
  Ok (match r with inr _ => true | inl _ => false end).

Definition is_isogram (phrase : list Z) : res bool :=
  let* len := strlen phrase 0 in
  let* r := for_exit 0 len (fun i (_ : unit) => let* b := repeated phrase len i in Ok (if b then inr false else inl tt)) tt in
  Ok (match r with inr status => status | inl _ => true end).

(** ** rna_transcription.c *)

(** Other characters leave the cell as malloc gave it. *)
Definition complement (c : Z) : option Z :=
  if c =? ch "G" then Some (ch "C") else if c =? ch "C" then Some (ch "G") else if c =? ch "T" then Some (ch "A") else if c =? ch "A" then Some (ch "U") else None.

Definition to_rna (s : list Z) : res (list (option Z)) :=
  let* len := strlen s 0 in
  for_up 0 len (fun i ans => let* c := rd s i in match complement c with Some x => wr ans i (Some x) | None => Ok ans end) (uninit len).

(** ** word_count.c *)

Definition MAX_WORDS : Z := 20.
Definition MAX_WORD_LENGTH : Z := 50.
Definition EXCESSIVE_LENGTH_WORD : Z := -1.
Definition EXCESSIVE_NUMBER_OF_WORDS : Z := -2.

(** [strcpy(word_list[i], s)] *)
Definition store_word (rows : list (option (list Z))) (i : Z) (s : list Z) : res (list (option (list Z))) :=
  let* _ := demand (zlen s + 1 <=? MAX_WORD_LENGTH) OutOfBounds in
  wr rows i (Some s).

(** The string at [p]. *)
Definition string_at (input : list Z) (p : Z) : res (list Z) :=
  let* n := strlen input p in Ok (take (Z.to_nat n) (drop (Z.to_nat p) input)).

Record counter := Counter { c_input : list Z; c_index : Z; c_p_str : Z; c_index_list : Z; c_count_all : Z; c_rows : list (option (list Z)) }.

(** One turn of [while (input[index] && loop)]; an error code ends the loop, as
    loop = 0 does at the next test. *)
Definition word_turn (s : counter) : res (counter + (counter + Z)) :=
  let '(Counter input index p_str index_list count_all rows) := s in
  let* c := rd input index in
  if c =? 0 then Ok (inr (inl s))
  else if c =? ch " " then
    let* input := wr input index 0 in
    let* word := string_at input p_str in
    if zlen word <=? MAX_WORD_LENGTH then
      if index_list <=? MAX_WORDS then
        let* rows := store_word rows index_list word in
        Ok (inl (Counter input (index + 1) (index + 1) (index_list + 1) (count_all + 1) rows))
      else Ok (inr (inr EXCESSIVE_NUMBER_OF_WORDS))
    else Ok (inr (inr EXCESSIVE_LENGTH_WORD))
  else Ok (inl (Counter input (index + 1) p_str index_list count_all rows)).

(** [for (i = 0; i <= index_list; i++) if (strcmp(word_list[i],words->text) == 0) words->count++;] *)
Definition count_equal (rows : list (option (list Z))) (index_list : Z) (text : list Z) : res Z :=
  for_up 0 (index_list + 1) (fun i n =>
    let* r := rd rows i in
    match r with Some w => Ok (if bool_decide (w = text) then n + 1 else n) | None => Fail Uninit end) 0.

(** The return value and words->count, for the word in words->text. *)
Definition word_count (input_text text : list Z) : res (Z * Z) :=
  let* _ := demand (zlen input_text + 1 <=? 1000) OutOfBounds in
  let* r := loop (S (S (length input_text))) word_turn (Counter (cstr input_text) 0 0 0 0 (replicate (Z.to_nat MAX_WORDS) None)) in
  match r with
  | inr code => Ok (code, 0)
  | inl (Counter input _ p_str index_list count_all rows) =>
      let* word := string_at input p_str in
      let* rows := store_word rows index_list word in
      let* n := count_equal rows index_list text in
      Ok (count_all + 1, n)
  end.

(** ** Isograms *)

Lemma repeated_ok pre c post : nul_free (pre ++ c :: post) -> repeated (cstr (pre ++ c :: post)) (zlen (pre ++ c :: post)) (zlen pre) = Ok (bool_decide (c ∈ post)).
Proof.
  intros Hn. unfold repeated. rewrite rd_cstr_mid by done. cbn [bind].
  assert (wp (for_exit (zlen pre + 1) (zlen (pre ++ c :: post)) (fun j (_ : unit) => let* d := rd (cstr (pre ++ c :: post)) j in Ok (if c =? d then inr false else inl tt)) tt)
    (fun r => match r with inr _ => c ∈ post | inl _ => c ∉ post end)) as H.
  { assert (zlen (pre ++ c :: post) = zlen pre + 1 + zlen post) as Hl by (rewrite zlen_app, zlen_cons; lia). pose proof (zlen_nonneg post). pose proof (zlen_nonneg pre).
    assert (forall j, zlen pre + 1 <= j < zlen pre + 1 + zlen post -> (cstr (pre ++ c :: post)).[j] = post.[j - zlen pre - 1]) as Hget.
    { intros j Hj. unfold aget, cstr. rewrite !list_lookup_total_alt. f_equal. rewrite <- app_assoc, lookup_app_r by (unfold zlen in *; lia). cbn [app]. replace (Z.to_nat j - length pre)%nat with (S (Z.to_nat (j - zlen pre - 1))) by (unfold zlen in *; lia).
      change ((c :: post ++ [0]) !! S (Z.to_nat (j - zlen pre - 1))) with ((post ++ [0]) !! Z.to_nat (j - zlen pre - 1)). rewrite lookup_app_l by (unfold zlen in *; lia). done. }
    apply (wp_for_exit (fun j _ => forall m, zlen pre + 1 <= m < j -> post.[m - zlen pre - 1] <> c)).
    - intros m Hm. lia.
    - intros j [] Hj HI. apply wp_bind, wp_rd; [rewrite zlen_cstr; lia|]. apply wp_Ok. rewrite Hget by lia. destruct (Z.eqb_spec c post.[j - zlen pre - 1]) as [E|E].
      + rewrite E at 1. apply aget_elem. lia.
      + intros m Hm. destruct (decide (m = j)) as [->|]; [congruence|apply HI; lia].
    - intros [] HI Hin. apply elem_aget in Hin as (k & Hk & Ek). apply (HI (zlen pre + 1 + k)); [lia|]. by replace (zlen pre + 1 + k - zlen pre - 1) with k by lia. }
  destruct (for_exit _ _ _ tt) as [r|]; [|done]. cbn [wp bind] in *. f_equal. destruct r; symmetry; [by apply bool_decide_eq_false|by apply bool_decide_eq_true].
Qed.

Lemma is_isogram_ok s : nul_free s -> is_isogram (cstr s) = Ok (bool_decide (NoDup s)).
Proof.
  intros Hn. unfold is_isogram. pose proof (strlen_cstr [] s Hn) as E. cbn [app] in E. change (zlen []) with 0 in E. rewrite E. cbn [bind]. clear E.
  assert (forall post pre, s = pre ++ post -> (forall c, c ∈ pre -> c ∉ post) -> NoDup pre ->
    exists r, for_exit_n (length post) (zlen pre) (fun i (_ : unit) => let* b := repeated (cstr s) (zlen s) i in Ok (if b then inr false else inl tt)) tt = Ok r /\
      match r with inr b => b = false /\ ~ NoDup s | inl _ => NoDup s end) as H.
  { induction post as [|c post IH]; intros pre -> Hd Hp; cbn [length for_exit_n]; [exists (inl tt); by rewrite app_nil_r|]. rewrite repeated_ok by done. cbn [bind]. case_bool_decide as Hc; cbn [bind].
    - exists (inr false). split; [done|]. split; [done|]. rewrite NoDup_app, NoDup_cons. tauto.
    - specialize (IH (pre ++ [c])). rewrite <- app_assoc, zlen_snoc in IH. apply IH; [done| |].
      + intros d [Hin|Hin]%elem_of_app Hpost; [by eapply Hd; [exact Hin|right]|]. by apply list_elem_of_singleton in Hin as ->.
      + apply NoDup_app. split; [done|]. split; [|apply NoDup_singleton]. intros d Hin Hs%list_elem_of_singleton. subst. by apply (Hd c Hin); left. }
  destruct (H s [] eq_refl) as (r & Er & Hr); [by intros c ?%not_elem_of_nil|constructor|]. unfold for_exit. rewrite Z.sub_0_r. unfold zlen at 1. rewrite Nat2Z.id. change (zlen []) with 0 in Er. rewrite Er. cbn [bind].
  f_equal. symmetry. destruct r as [[]|b]; [by apply bool_decide_eq_true|]. destruct Hr as [-> Hr]. by apply bool_decide_eq_false.
Qed.

(** ** Words *)

(** The words of a text: what stands between single spaces. *)
Fixpoint split_words (cur s : list Z) : list (list Z) :=
  match s with [] => [cur] | c :: s => if c =? ch " " then cur :: split_words [] s else split_words (cur ++ [c]) s end.

(** The loop on words: all but the last one are stored; a code, or what is stored
    with the last word. *)
Fixpoint scan_words (stored ws : list (list Z)) : res (Z + list (list Z) * list Z) :=
  match ws with
  | [] => Ok (inr (stored, []))
  | [w] => Ok (inr (stored, w))
  | w :: ws =>
      if zlen w <=? MAX_WORD_LENGTH then
        if (zlen w <? MAX_WORD_LENGTH) && (zlen stored <? MAX_WORDS) then scan_words (stored ++ [w]) ws else Fail OutOfBounds
      else Ok (inl EXCESSIVE_LENGTH_WORD)
  end.

Definition rows_of (stored : list (list Z)) : list (option (list Z)) := map Some stored ++ replicate (20 - length stored) None.

Lemma store_word_ok stored w : (length stored <= 20)%nat ->
  store_word (rows_of stored) (zlen stored) w = if (zlen w <? MAX_WORD_LENGTH) && (zlen stored <? MAX_WORDS) then Ok (rows_of (stored ++ [w])) else Fail OutOfBounds.
Proof.
  intros Hl. unfold store_word, demand, MAX_WORD_LENGTH, MAX_WORDS. destruct (Z.ltb_spec (zlen w) 50); [|by rewrite (proj2 (Z.leb_gt _ _)) by lia]. rewrite (proj2 (Z.leb_le _ _)) by lia. cbn [andb bind].
  assert (zlen (map (@Some (list Z)) stored) = zlen stored) as Hm by (unfold zlen; by rewrite length_map). unfold rows_of. destruct (Z.ltb_spec (zlen stored) 20) as [H20|H20].
  - replace (20 - length stored)%nat with (S (20 - length (stored ++ [w]))) by (rewrite length_app; cbn [length]; unfold zlen in *; lia). cbn [replicate]. rewrite wr_middle by done. by rewrite map_app, <- app_assoc.
  - replace (20 - length stored)%nat with 0%nat by (unfold zlen in *; lia). rewrite app_nil_r. unfold wr, in_range. by rewrite Hm, Z.ltb_irrefl, andb_false_r.
Qed.

Lemma string_at_word pre w post : nul_free w -> string_at (pre ++ w ++ 0 :: post) (zlen pre) = Ok w.
Proof.
  intros Hw. unfold string_at, strlen, demand. pose proof (zlen_nonneg pre). pose proof (zlen_nonneg w). pose proof (zlen_nonneg post).
  rewrite (proj2 (Z.leb_le 0 _)), (proj2 (Z.leb_le _ _)) by (rewrite ?zlen_app, ?zlen_cons; lia). cbn [andb bind]. unfold zlen. rewrite Nat2Z.id, drop_app_length.
  assert (strlen_from (w ++ 0 :: post) = Ok (Z.of_nat (length w))) as ->.
  { clear -Hw. induction Hw as [|c w Hc _ IH]; [done|]. cbn [app strlen_from]. rewrite (proj2 (Z.eqb_neq c 0) Hc), IH. cbn [bind length]. f_equal. lia. }
  cbn [bind]. by rewrite Nat2Z.id, take_app_length.
Qed.

Lemma turn_end pre cur p il n rows : word_turn (Counter (pre ++ cur ++ cstr []) (zlen (pre ++ cur)) p il n rows) = Ok (inr (inl (Counter (pre ++ cur ++ cstr []) (zlen (pre ++ cur)) p il n rows))).
Proof. unfold word_turn, cstr. cbn [app]. rewrite app_assoc, rd_middle by done. done. Qed.

Lemma turn_char pre cur c rest p il n rows : c <> 0 -> c <> ch " " ->
  word_turn (Counter (pre ++ cur ++ cstr (c :: rest)) (zlen (pre ++ cur)) p il n rows) = Ok (inl (Counter (pre ++ (cur ++ [c]) ++ cstr rest) (zlen (pre ++ cur ++ [c])) p il n rows)).
Proof.
  intros Hc Hs. assert (pre ++ cur ++ cstr (c :: rest) = (pre ++ cur) ++ c :: cstr rest) as E by (unfold cstr; by rewrite <- app_assoc). unfold word_turn. rewrite E, rd_middle by done. cbn [bind].
  rewrite (proj2 (Z.eqb_neq c 0) Hc), (proj2 (Z.eqb_neq c _) Hs). f_equal. f_equal. f_equal; [by rewrite <- !app_assoc|by rewrite app_assoc, zlen_snoc].
Qed.

Lemma turn_space pre cur rest stored : nul_free cur -> (length stored <= 20)%nat ->
  word_turn (Counter (pre ++ cur ++ cstr (ch " " :: rest)) (zlen (pre ++ cur)) (zlen pre) (zlen stored) (zlen stored) (rows_of stored)) =
  if zlen cur <=? MAX_WORD_LENGTH then
    if (zlen cur <? MAX_WORD_LENGTH) && (zlen stored <? MAX_WORDS) then
      Ok (inl (Counter ((pre ++ cur ++ [0]) ++ [] ++ cstr rest) (zlen ((pre ++ cur ++ [0]) ++ [])) (zlen (pre ++ cur ++ [0])) (zlen (stored ++ [cur])) (zlen (stored ++ [cur])) (rows_of (stored ++ [cur]))))
    else Fail OutOfBounds
  else Ok (inr (inr EXCESSIVE_LENGTH_WORD)).
Proof.
  intros Hcur Hst. assert (pre ++ cur ++ cstr (ch " " :: rest) = (pre ++ cur) ++ ch " " :: cstr rest) as E by (unfold cstr; by rewrite <- app_assoc). unfold word_turn. rewrite E, rd_middle by done. cbn [bind].
  change (ch " " =? 0) with false. change (ch " " =? ch " ") with true. cbv iota. rewrite wr_middle by done. cbn [bind]. rewrite <- app_assoc, string_at_word by done. cbn [bind].
  destruct (zlen cur <=? MAX_WORD_LENGTH); [|done]. rewrite (proj2 (Z.leb_le (zlen stored) MAX_WORDS)) by (unfold MAX_WORDS, zlen; lia). rewrite store_word_ok by done.
  destruct (_ && _); cbn [bind]; [|done]. rewrite app_nil_r, (app_assoc pre cur [0]), !zlen_snoc. by rewrite <- !app_assoc.
Qed.

Lemma scan_cons stored w ws : ws <> [] -> scan_words stored (w :: ws) =
  if zlen w <=? MAX_WORD_LENGTH then
    if (zlen w <? MAX_WORD_LENGTH) && (zlen stored <? MAX_WORDS) then scan_words (stored ++ [w]) ws else Fail OutOfBounds
  else Ok (inl EXCESSIVE_LENGTH_WORD).
Proof. by destruct ws. Qed.

Lemma split_words_some s : forall cur, split_words cur s <> [].
Proof. induction s as [|d s IH]; intros cur; cbn [split_words]; [done|]. by destruct (d =? ch " "). Qed.

Lemma words_loop rest : forall pre cur stored fuel, nul_free cur -> nul_free rest -> (length stored <= 20)%nat -> (length rest < fuel)%nat ->
  let run := loop fuel word_turn (Counter (pre ++ cur ++ cstr rest) (zlen (pre ++ cur)) (zlen pre) (zlen stored) (zlen stored) (rows_of stored)) in
  match scan_words stored (split_words cur rest) with
  | Ok (inl code) => run = Ok (inr code)
  | Ok (inr (stored', w)) => (length stored' <= 20)%nat /\ nul_free w /\ exists pre' index, run = Ok (inl (Counter (pre' ++ cstr w) index (zlen pre') (zlen stored') (zlen stored') (rows_of stored')))
  | Fail f => run = Fail f
  end.
Proof.
  induction rest as [|c rest IH]; intros pre cur stored fuel Hcur Hrest Hst Hf run; (destruct fuel as [|fuel]; [cbn [length] in Hf; lia|]); cbn [split_words]; subst run; cbn [loop].
  - rewrite turn_end. cbn [bind scan_words]. split; [done|]. split; [done|]. eexists pre, _. reflexivity.
  - apply Forall_cons in Hrest as [Hc Hrest]. cbn [length] in Hf. destruct (Z.eqb_spec c (ch " ")) as [->|Hs].
    + rewrite turn_space by done. rewrite scan_cons by apply split_words_some. destruct (zlen cur <=? MAX_WORD_LENGTH); [|done].
      destruct ((zlen cur <? MAX_WORD_LENGTH) && (zlen stored <? MAX_WORDS)) eqn:E20; [|done]. cbn [bind]. apply IH; [constructor|done| |lia].
      rewrite length_app. cbn [length]. apply andb_true_iff in E20 as [_ E20%Z.ltb_lt]. unfold zlen, MAX_WORDS in E20. lia.
    + rewrite turn_char by done. cbn [bind]. apply IH; [apply Forall_app; split; [done|by repeat constructor]|done|done|lia].
Qed.

Definition occurrences (text : list Z) (ws : list (list Z)) : Z := zlen (filter (fun w => w = text) ws).

Lemma count_equal_ok ws text : (length ws <= 20)%nat -> count_equal (rows_of ws) (zlen ws - 1) text = Ok (occurrences text ws).
Proof.
  intros Hl. unfold count_equal, for_up. replace (zlen ws - 1 + 1 - 0) with (zlen ws) by lia. unfold zlen at 1. rewrite Nat2Z.id.
  assert (forall post pre n, ws = pre ++ post -> for_n (length post) (zlen pre) (fun i n => let* r := rd (rows_of ws) i in
    match r with Some w => Ok (if bool_decide (w = text) then n + 1 else n) | None => Fail Uninit end) n = Ok (n + occurrences text post)) as H; [|exact (H ws [] 0 eq_refl)].
  induction post as [|w post IH]; intros pre n ->; cbn [length for_n]; [by rewrite Z.add_0_r|].
  unfold rows_of at 1. rewrite map_app, <- app_assoc. cbn [map app]. rewrite rd_middle by (unfold zlen; by rewrite length_map). cbn [bind]. specialize (IH (pre ++ [w])). rewrite <- app_assoc, zlen_snoc in IH. cbn [app] in IH. rewrite IH by done.
  f_equal. unfold occurrences. rewrite filter_cons. case_bool_decide; [rewrite decide_True, zlen_cons by done; lia|by rewrite decide_False by done].
Qed.

(** What scanning gives. *)
Lemma scan_fits ws : forall stored, ws <> [] -> Forall (fun w => zlen w < MAX_WORD_LENGTH) ws -> zlen stored + zlen ws <= MAX_WORDS ->
  exists pre w, ws = pre ++ [w] /\ scan_words stored ws = Ok (inr (stored ++ pre, w)).
Proof.
  induction ws as [|w ws IH]; intros stored Hne Hf Hl; [done|]. apply Forall_cons in Hf as [Hw Hf]. destruct ws as [|v ws]; [exists [], w; by rewrite app_nil_r|].
  rewrite scan_cons by done. rewrite zlen_cons in Hl. pose proof (zlen_nonneg (v :: ws)). assert (0 < zlen (v :: ws)) by (rewrite zlen_cons; pose proof (zlen_nonneg ws); lia).
  rewrite (proj2 (Z.leb_le _ _)), (proj2 (Z.ltb_lt _ _)), (proj2 (Z.ltb_lt (zlen stored) _)) by lia. cbn [andb]. destruct (IH (stored ++ [w]) ltac:(done) Hf) as (pre & u & E & Es); [rewrite zlen_snoc; lia|].
  exists (w :: pre), u. split; [by rewrite E|]. rewrite Es. by rewrite <- app_assoc.
Qed.

Lemma scan_long pre w ws : forall stored, Forall (fun w => zlen w < MAX_WORD_LENGTH) pre -> zlen stored + zlen pre <= MAX_WORDS -> MAX_WORD_LENGTH < zlen w -> ws <> [] ->
  scan_words stored (pre ++ w :: ws) = Ok (inl EXCESSIVE_LENGTH_WORD).
Proof.
  induction pre as [|v pre IH]; intros stored Hf Hl Hw Hne.
  - cbn [app]. rewrite scan_cons by done. by rewrite (proj2 (Z.leb_gt _ _)) by lia.
  - apply Forall_cons in Hf as [Hv Hf]. rewrite zlen_cons in Hl. pose proof (zlen_nonneg pre). cbn [app]. rewrite scan_cons by (by destruct pre).
    rewrite (proj2 (Z.leb_le _ _)), (proj2 (Z.ltb_lt _ _)), (proj2 (Z.ltb_lt (zlen stored) _)) by lia. cbn [andb]. apply IH; [done|rewrite zlen_snoc; lia|done|done].
Qed.

Lemma scan_many ws : forall stored, Forall (fun w => zlen w < MAX_WORD_LENGTH) ws -> zlen stored <= MAX_WORDS -> MAX_WORDS + 1 < zlen stored + zlen ws -> scan_words stored ws = Fail OutOfBounds.
Proof.
  induction ws as [|w ws IH]; intros stored Hf Hs Hl; [change (zlen []) with 0 in Hl; lia|]. apply Forall_cons in Hf as [Hw Hf]. rewrite zlen_cons in Hl. destruct ws as [|v ws]; [change (zlen []) with 0 in Hl; lia|].
  rewrite scan_cons by done. rewrite (proj2 (Z.leb_le _ _)), (proj2 (Z.ltb_lt _ _)) by lia. cbn [andb]. destruct (Z.ltb_spec (zlen stored) MAX_WORDS); [|done]. apply IH; [done|rewrite zlen_snoc; lia|rewrite zlen_snoc; lia].
Qed.

Lemma word_count_scan text target : nul_free text -> zlen text < 1000 ->
  word_count text target =
  let* r := scan_words [] (split_words [] text) in
  match r with
  | inl code => Ok (code, 0)
  | inr (stored, w) => if (zlen w <? MAX_WORD_LENGTH) && (zlen stored <? MAX_WORDS) then Ok (zlen (stored ++ [w]), occurrences target (stored ++ [w])) else Fail OutOfBounds
  end.
Proof.
  intros Hn Hl. unfold word_count, demand. rewrite (proj2 (Z.leb_le _ _)) by lia. cbn [bind]. pose proof (words_loop text [] [] [] (S (S (length text))) ltac:(constructor) Hn ltac:(cbn; lia) ltac:(lia)) as H.
  cbv zeta in H. cbn [app] in H. change (zlen []) with 0 in H. change (rows_of []) with (replicate (Z.to_nat MAX_WORDS) (@None (list Z))) in H. cbn [app] in H.
  destruct (scan_words [] (split_words [] text)) as [[code|[stored w]]|f]; [by rewrite H| |by rewrite H]. destruct H as (Hst & Hw & pre & index & ->). cbn [bind].
  change (pre ++ cstr w) with (pre ++ w ++ 0 :: []). rewrite string_at_word by done. cbn [bind]. rewrite store_word_ok by done. destruct ((zlen w <? MAX_WORD_LENGTH) && (zlen stored <? MAX_WORDS)) eqn:E; [|done]. cbn [bind].
  pose proof (count_equal_ok (stored ++ [w]) target) as Hc. rewrite zlen_snoc in Hc. replace (zlen stored + 1 - 1) with (zlen stored) in Hc by lia. rewrite zlen_snoc, Hc; [done|].
  rewrite length_app. cbn [length]. apply andb_true_iff in E as [_ E%Z.ltb_lt]. unfold zlen, MAX_WORDS in E. lia.
Qed.

(** word_count counts words: for a text of less than 1000 characters whose words
    (what stands between single spaces) are at most 20 and shorter than 50, it
    returns their number and counts the occurrences of the wanted one.  A word
    longer than 50 that is not the last gives the error code -1, when the words
    before it fit.  With 22 words or more the code for too many words is never
    returned: the array of words is overrun. *)
Theorem word_count_correct text target : nul_free text -> zlen text < 1000 ->
  let ws := split_words [] text in
  (Forall (fun w => zlen w < MAX_WORD_LENGTH) ws -> zlen ws <= MAX_WORDS -> word_count text target = Ok (zlen ws, occurrences target ws)) /\
  (forall pre w post, ws = pre ++ w :: post -> post <> [] -> Forall (fun w => zlen w < MAX_WORD_LENGTH) pre -> zlen pre <= MAX_WORDS -> MAX_WORD_LENGTH < zlen w ->
    word_count text target = Ok (EXCESSIVE_LENGTH_WORD, 0)) /\
  (Forall (fun w => zlen w < MAX_WORD_LENGTH) ws -> MAX_WORDS + 1 < zlen ws -> word_count text target = Fail OutOfBounds).
Proof.
  intros Hn Hl ws. pose proof (word_count_scan text target Hn Hl) as Hs. fold ws in Hs. rewrite Hs. split_and!.
  - intros Hf Hz. destruct (scan_fits ws [] (split_words_some text []) Hf) as (pre & w & E & ->); [change (zlen []) with 0; lia|]. cbn [bind app]. rewrite E in *. apply Forall_app in Hf as [_ [Hw _]%Forall_cons].
    rewrite zlen_snoc in Hz. rewrite (proj2 (Z.ltb_lt _ _)), (proj2 (Z.ltb_lt _ _)) by lia. done.
  - intros pre w post E Hne Hf Hz Hw. rewrite E, scan_long; [done|done|change (zlen []) with 0; lia|done|done].
  - intros Hf Hz. rewrite scan_many; [done|done|done|change (zlen []) with 0; lia].
Qed.

Lemma word_count_correct_witness :
  split_words [] (bytes "to be or not to be") = [bytes "to"; bytes "be"; bytes "or"; bytes "not"; bytes "to"; bytes "be"] /\
  word_count (bytes "to be or not to be") (bytes "be") = Ok (6, 2).
Proof.
  assert (split_words [] (bytes "to be or not to be") = [bytes "to"; bytes "be"; bytes "or"; bytes "not"; bytes "to"; bytes "be"]) as E by (vm_compute; reflexivity).
  split; [exact E|]. destruct (word_count_correct (bytes "to be or not to be") (bytes "be")) as (H & _); [by repeat constructor|vm_compute; reflexivity|].
  rewrite E in H. rewrite H; [vm_compute; reflexivity|repeat constructor|vm_compute; discriminate].
Defined.

(** The result of to_rna is as long as the strand: it has no terminator. *)
Lemma to_rna_unterminated s : nul_free s -> wp (to_rna (cstr s)) (fun ans => zlen ans = zlen s).
Proof.
  intros Hn. unfold to_rna. pose proof (strlen_cstr [] s Hn) as E. cbn [app] in E. change (zlen []) with 0 in E. rewrite E. cbn [bind]. pose proof (zlen_nonneg s).
  apply (wp_for_up (fun _ ans => zlen ans = zlen s)); [unfold uninit, zlen; rewrite length_replicate; lia| |done]. intros i ans Hi Ha. apply wp_bind, wp_rd; [rewrite zlen_cstr; lia|].
  destruct (complement _); [apply wp_wr; [lia|by rewrite zlen_upd]|by apply wp_Ok].
Qed.
