(* ===== verification/Rmdir.v ===== *)
(** * Removing directories: utils/coreutils/src/rmdir.c

    The command after its options, over the file names of FileNames.v.  What the
    system answers to rmdir is an argument: it may depend on the name and on the
    attempts so far. *)

From S2P Require Import Prelude Arrays CStrings FileNames.
Open Scope Z_scope.

Definition EPERM : Z := 1.
Definition EACCES : Z := 13.
Definition EBUSY : Z := 16.
Definition EEXIST : Z := 17.
Definition EROFS : Z := 30.
Definition ENOTEMPTY : Z := 39.

Definition errno_rmdir_non_empty (error_number : Z) : bool := (error_number =? ENOTEMPTY) || (error_number =? EEXIST).

Definition errno_may_be_empty (error_number : Z) : bool :=
  (error_number =? EACCES) || (error_number =? EPERM) || (error_number =? EROFS) || (error_number =? EEXIST) || (error_number =? EBUSY).

(** [strrchr(s, '/')] *)
Fixpoint last_slash (s : list Z) : option Z :=
  match s with
  | [] => None
  | c :: s => match last_slash s with Some i => Some (i + 1) | None => if ISSLASH c then Some 0 else None end
  end.

Section rmdir.
(** 0 or an errno; [is_empty_dir] of is-empty-dir, which is not part of the
    sources. *)
Context (rmdir : list (list Z) -> list Z -> Z) (is_empty_dir : list (list Z) -> list Z -> bool) (ignore_fail_on_non_empty : bool).

Definition ignorable_failure (error_number : Z) (attempts : list (list Z)) (dir : list Z) : bool :=
  ignore_fail_on_non_empty && (errno_rmdir_non_empty error_number || (errno_may_be_empty error_number && is_empty_dir attempts dir)).

(** One turn of [while (1)]: the buffer with the name, and the names that were
    tried. *)
Definition parent_turn (st : list Z * list (list Z)) : res (list Z * list (list Z) + bool * list (list Z)) :=
  let '(dir, attempts) := st in
  let* s := text dir in
  match last_slash s with
  | None => Ok (inr (true, attempts))
  | Some slash =>
      let* slash := while (S (Z.to_nat slash)) (fun p => if 0 <? p then let* c := rd dir p in Ok (ISSLASH c) else Ok false) (fun p => Ok (p - 1)) slash in
      let* dir := wr dir (slash + 1) 0 in
      let* name := text dir in
      let e := rmdir attempts name in
      let attempts := attempts ++ [name] in
      Ok (if e =? 0 then inl (dir, attempts) else inr (ignorable_failure e attempts name, attempts))
  end.

Definition remove_parent (dir : list Z) (attempts : list (list Z)) : res (bool * list (list Z)) :=
  let* (_, dir) := strip_trailing_slashes dir in
  loop (S (S (length dir))) parent_turn (dir, attempts).

(** The operands: whether all went well, and the names that were tried. *)
Fixpoint rmdir_operands (remove_empty_parents : bool) (operands : list (list Z)) (ok : bool) (attempts : list (list Z)) : res (bool * list (list Z)) :=
  match operands with
  | [] => Ok (ok, attempts)
  | dir :: operands =>
      let e := rmdir attempts dir in
      let attempts := attempts ++ [dir] in
      if negb (e =? 0) then
        if ignorable_failure e attempts dir then rmdir_operands remove_empty_parents operands ok attempts
        else rmdir_operands remove_empty_parents operands false attempts
      else if remove_empty_parents then
        let* (r, attempts) := remove_parent (cstr dir) attempts in
        rmdir_operands remove_empty_parents operands (ok && r) attempts
      else rmdir_operands remove_empty_parents operands ok attempts
  end.

(** The exit status, with the names that were tried. *)
Definition rmdir_main (remove_empty_parents : bool) (operands : list (list Z)) : res (Z * list (list Z)) :=
  match operands with
  | [] => Ok (1, [])
  | _ =>
      let* (ok, attempts) := rmdir_operands remove_empty_parents operands true [] in
      Ok ((if ok : bool then 0 else 1), attempts)
  end.

(** ** What it should do *)

(** What dirname prints for a name. *)
Definition dirname_of (s : list Z) : list Z := match dirname_main (cstr s) with Ok d => d | Fail _ => [] end.

(** Going up from a name without trailing slashes: the directory dirname gives is
    removed, and so on, until a failure or a name without a slash. *)
Fixpoint climb (n : nat) (attempts : list (list Z)) (s : list Z) : bool * list (list Z) :=
  match n with
  | O => (true, attempts)
  | S n =>
      match last_slash s with
      | None => (true, attempts)
      | Some _ =>
          let d := dirname_of s in
          let e := rmdir attempts d in
          let attempts := attempts ++ [d] in
          if e =? 0 then climb n attempts d else (ignorable_failure e attempts d, attempts)
      end
  end.

(** The name without its trailing slashes; the root stays. *)
Definition strip (s : list Z) : list Z := match strip_trailing_slashes (cstr s) with Ok (_, t) => match text t with Ok t => t | Fail _ => [] end | Fail _ => [] end.

Fixpoint climb_all (remove_empty_parents : bool) (operands : list (list Z)) (ok : bool) (attempts : list (list Z)) : bool * list (list Z) :=
  match operands with
  | [] => (ok, attempts)
  | dir :: operands =>
      let e := rmdir attempts dir in
      let attempts := attempts ++ [dir] in
      if e =? 0 then
        if remove_empty_parents then let '(r, attempts) := climb (S (length dir)) attempts (strip dir) in climb_all remove_empty_parents operands (ok && r) attempts
        else climb_all remove_empty_parents operands ok attempts
      else climb_all remove_empty_parents operands (ok && ignorable_failure e attempts dir) attempts
  end.

(** *** Slashes *)

Lemma last_slash_none s : no_slash s -> last_slash s = None.
Proof. induction 1 as [|c s Hc _ IH]; cbn [last_slash]; [done|]. by rewrite IH, Hc. Qed.

Lemma last_slash_at u comp : no_slash comp -> last_slash (u ++ DIRECTORY_SEPARATOR :: comp) = Some (zlen u).
Proof.
  intros Hc. induction u as [|c u IH]; cbn [app last_slash]; [by rewrite last_slash_none|]. rewrite IH, zlen_cons. done.
Qed.

Lemma text_buffer s junk : nul_free s -> text (s ++ 0 :: junk) = Ok s.
Proof. intros Hs. rewrite <- (text_ok s junk Hs). unfold cstr. by rewrite <- app_assoc. Qed.

(** The scan back over a run of slashes. *)
Lemma back_slashes x j : ends_open x -> forall rest fuel, (j + Nat.min 1 (length x) < fuel)%nat ->
  while fuel (fun p => if 0 <? p then let* c := rd (x ++ slashes (S j) ++ rest) p in Ok (ISSLASH c) else Ok false) (fun p => Ok (p - 1)) (zlen x + Z.of_nat j) =
  Ok (match x with [] => 0 | _ => zlen x - 1 end).
Proof.
  intros Hx. induction j as [|j IH]; intros rest fuel Hf; (destruct fuel as [|fuel]; [lia|]); rewrite while_step.
  - rewrite Z.add_0_r. destruct x as [|c x]; [done|]. pose proof (zlen_nonneg x). cbn [length Nat.min] in Hf. rewrite (proj2 (Z.ltb_lt 0 _)) by (rewrite zlen_cons; lia). change (slashes 1 ++ rest) with (DIRECTORY_SEPARATOR :: rest).
    rewrite (rd_middle (c :: x)) by done. cbn [bind]. change (ISSLASH DIRECTORY_SEPARATOR) with true. cbv iota.
    destruct fuel as [|fuel]; [lia|]. cbn [bind]. rewrite while_step. destruct (exists_last_or (c :: x)) as [?|(y & z & Ey)]; [done|]. rewrite Ey in *. unfold ends_open in Hx. rewrite last_snoc in Hx.
    rewrite zlen_snoc. replace (zlen y + 1 - 1) with (zlen y) by lia.
    assert ((if 0 <? zlen y then let* c := rd ((y ++ [z]) ++ DIRECTORY_SEPARATOR :: rest) (zlen y) in Ok (ISSLASH c) else Ok false) = Ok false) as ->.
    { destruct (0 <? zlen y); [|done]. rewrite <- app_assoc. cbn [app]. rewrite rd_middle by done. cbn [bind]. by rewrite Hx. }
    cbn [bind]. by destruct y.
  - pose proof (zlen_nonneg x). rewrite (proj2 (Z.ltb_lt 0 _)) by lia.
    assert (x ++ slashes (S (S j)) ++ rest = (x ++ slashes (S j)) ++ DIRECTORY_SEPARATOR :: rest) as E by (rewrite slashes_snoc; by rewrite <- !app_assoc).
    rewrite E at 1. rewrite rd_middle by (rewrite zlen_app, zlen_slashes; lia). cbn [bind]. change (ISSLASH DIRECTORY_SEPARATOR) with true. cbv iota. cbn [bind].
    replace (zlen x + Z.of_nat (S j) - 1) with (zlen x + Z.of_nat j) by lia. rewrite E, <- app_assoc. apply IH. lia.
Qed.

(** Names as they are during the climb. *)
Inductive climbing : list Z -> Prop :=
  | climbing_root : climbing (slashes 1)
  | climbing_one comp : no_slash comp -> comp <> [] -> climbing comp
  | climbing_in x j comp : ends_open x -> no_slash comp -> comp <> [] -> climbing (x ++ slashes (S j) ++ comp).

Lemma climbing_open x : ends_open x -> x <> [] -> climbing x.
Proof.
  intros Hx Hne. destruct (parts_exist x) as [[k ->]|(dir & comp & k & [-> Hd Hc Hs])].
  - destruct k as [|k]; [done|]. unfold ends_open in Hx. rewrite slashes_snoc in Hx. change (slashes 1) with [DIRECTORY_SEPARATOR] in Hx. rewrite last_snoc in Hx. done.
  - assert (k = 0%nat) as ->. { destruct k as [|k]; [done|]. unfold ends_open in Hx. rewrite slashes_snoc, !app_assoc in Hx. change (slashes 1) with [DIRECTORY_SEPARATOR] in Hx. rewrite last_snoc in Hx. done. }
    cbn [slashes replicate]. rewrite app_nil_r. destruct Hd as [->|[d' ->]]; [by apply climbing_one|]. destruct (trailing_split d') as (y & j & -> & Hy).
    assert (((y ++ slashes j) ++ slashes 1) ++ comp = y ++ slashes (S j) ++ comp) as -> by (rewrite (slashes_snoc j); by rewrite <- !app_assoc). by apply climbing_in.
Qed.

(** One turn is one step of the climb. *)
Lemma turn_climbs s junk attempts : climbing s -> nul_free s ->
  match last_slash s with
  | None => parent_turn (s ++ 0 :: junk, attempts) = Ok (inr (true, attempts))
  | Some _ =>
      let d := dirname_of s in
      climbing d /\ nul_free d /\ (d = slashes 1 \/ (length d < length s)%nat) /\
      exists junk', parent_turn (s ++ 0 :: junk, attempts) =
        Ok (if rmdir attempts d =? 0 then inl (d ++ 0 :: junk', attempts ++ [d]) else inr (ignorable_failure (rmdir attempts d) (attempts ++ [d]) d, attempts ++ [d]))
  end.
Proof.
  intros Hs Hn. unfold parent_turn. rewrite text_buffer by done. cbn [bind]. destruct Hs as [|comp Hc Hne|x j comp Hx Hc Hne].
  - cbn [last_slash slashes replicate]. cbv zeta. assert (dirname_of [DIRECTORY_SEPARATOR] = slashes 1) as -> by (vm_compute; reflexivity). split; [constructor|]. split; [done|]. split; [by left|]. exists junk.
    change (ISSLASH DIRECTORY_SEPARATOR) with true. cbv iota. rewrite while_step. cbn [Z.ltb Z.compare bind Z.add]. rewrite (wr_middle [DIRECTORY_SEPARATOR]) by done. cbn [bind]. by rewrite (text_buffer (slashes 1)).
  - by rewrite last_slash_none.
  - assert (x ++ slashes (S j) ++ comp = (x ++ slashes j) ++ DIRECTORY_SEPARATOR :: comp) as E by (rewrite (slashes_snoc j); by rewrite <- !app_assoc). 
    assert (last_slash (x ++ slashes (S j) ++ comp) = Some (zlen (x ++ slashes j))) as El by (rewrite E; by apply last_slash_at). rewrite El.
    assert (parts (x ++ slashes (S j) ++ comp) (x ++ slashes (S j)) comp 0) as Hp by (split; [by rewrite app_nil_r, <- app_assoc|right; exists (x ++ slashes j); by rewrite (slashes_snoc j), app_assoc|done|done]).
    assert (dirname_of (x ++ slashes (S j) ++ comp) = match x with [] => slashes 1 | _ => x end) as Ed.
    { unfold dirname_of. rewrite (dirname_parts _ _ comp 0 x (S j) Hn Hp eq_refl Hx). by destruct x. }
    cbv zeta. rewrite Ed. set (d := match x with [] => slashes 1 | _ => x end) in *. apply Forall_app in Hn as [Hxn Hrn].
    assert (nul_free d) as Hdn by (destruct x; [by repeat constructor|done]).
    split; [destruct x; [constructor|by apply climbing_open]|]. split; [done|]. split. { destruct x as [|c x]; [by left|right]. subst d. rewrite !length_app, length_slashes. lia. }
    rewrite zlen_app, zlen_slashes. rewrite <- !app_assoc. rewrite back_slashes; [|done|]. 2: { destruct x; unfold zlen; cbn [length Nat.min]; lia. }
    cbn [bind]. assert (exists junk', wr (x ++ slashes (S j) ++ comp ++ 0 :: junk) (match x with [] => 0 | _ => zlen x - 1 end + 1) 0 = Ok (d ++ 0 :: junk')) as [junk' ->].
    { subst d. destruct x as [|c x].
      - destruct j as [|j]; cbn [slashes replicate app]; [destruct comp as [|c comp]; [done|]|]; eexists; (rewrite (cons_middle DIRECTORY_SEPARATOR []) || idtac); by apply (wr_middle [DIRECTORY_SEPARATOR]).
      - replace (zlen (c :: x) - 1 + 1) with (zlen (c :: x)) by lia. cbn [slashes replicate app]. eexists. by apply (wr_middle (c :: x)). }
    cbn [bind]. rewrite text_buffer by done. cbn [bind]. by exists junk'.
Qed.

(** The trailing slashes are cut off. *)
Lemma strip_climbing name : nul_free name -> name <> [] ->
  exists b junk, strip_trailing_slashes (cstr name) = Ok (b, strip name ++ 0 :: junk) /\ climbing (strip name) /\ nul_free (strip name) /\ (length (strip name) <= length name)%nat.
Proof.
  intros Hn Hne.
  assert (exists s b junk, strip_trailing_slashes (cstr name) = Ok (b, s ++ 0 :: junk) /\ climbing s /\ nul_free s /\ (length s <= length name)%nat) as (s & b & junk & E & Hc & Hs & Hl).
  { unfold strip_trailing_slashes. destruct (parts_exist name) as [[k ->]|(dir & comp & k & Hp)].
    - destruct k as [|k]; [done|]. rewrite last_component_root. cbn [bind]. rewrite (rd_cstr_end (slashes (S k))) by apply zlen_slashes. cbn [bind]. change (0 =? 0) with true. cbv iota. rewrite base_len_root.
      cbn [bind Nat.min]. replace (0 + Z.of_nat (S (Nat.min k 0))) with 1 by lia. exists (slashes 1). rewrite slashes_cons. rewrite (rd_cstr [DIRECTORY_SEPARATOR] (slashes k)) by done. cbn [bind].
      assert (exists junk, wr (cstr (DIRECTORY_SEPARATOR :: slashes k)) 1 0 = Ok ([DIRECTORY_SEPARATOR] ++ 0 :: junk)) as [junk ->].
      { destruct k as [|k]; eexists; by apply (wr_middle [DIRECTORY_SEPARATOR]). }
      cbn [bind]. eexists _, _. split; [reflexivity|]. split; [constructor|]. split; [by repeat constructor|]. cbn [length]. rewrite length_slashes. lia.
    - rewrite (last_component_parts _ _ _ _ Hn Hp). cbn [bind]. pose proof (base_len_parts _ _ _ _ Hn Hp) as Hb. destruct Hp as [-> Hd Hc Hs].
      assert (nul_free dir /\ nul_free comp) as [Hdn Hcn] by (apply Forall_app in Hn as [? [? _]%Forall_app]; done).
      assert (exists c, rd (cstr (dir ++ comp ++ slashes k)) (zlen dir) = Ok c /\ c <> 0) as (c & -> & Hc0). { rewrite rd_cstr by done. destruct comp as [|c comp]; [done|]. apply Forall_cons in Hcn as [? _]. by exists c. }
      cbn [bind]. rewrite (proj2 (Z.eqb_neq c 0) Hc0), Hb. cbn [bind]. rewrite app_assoc, <- zlen_app, rd_cstr by done. cbn [bind]. exists (dir ++ comp).
      assert (exists junk, wr (cstr ((dir ++ comp) ++ slashes k)) (zlen (dir ++ comp)) 0 = Ok ((dir ++ comp) ++ 0 :: junk)) as [junk ->].
      { unfold cstr. rewrite <- app_assoc. destruct k as [|k]; cbn [slashes replicate app]; eexists; by apply wr_middle. }
      cbn [bind]. eexists _, _. split; [reflexivity|]. split; [|split; [by apply Forall_app|rewrite !length_app; lia]]. apply climbing_open; [|by destruct dir, comp]. unfold ends_open.
      destruct (exists_last_or comp) as [->|(y & z & ->)]; [done|]. rewrite app_assoc, last_snoc. by apply Forall_app in Hc as [_ [? _]%Forall_cons]. }
  assert (strip name = s) as -> by (unfold strip; rewrite E; by rewrite text_buffer). by exists b, junk.
Qed.

Hypothesis root_stays : forall attempts, rmdir attempts (slashes 1) <> 0.

Lemma climb_loop n : forall s junk attempts fuel, climbing s -> nul_free s -> (length s < n)%nat -> (length s < fuel)%nat ->
  loop fuel parent_turn (s ++ 0 :: junk, attempts) = Ok (climb n attempts s).
Proof.
  induction n as [|n IH]; intros s junk attempts fuel Hc Hn Hl Hf; [lia|]. destruct fuel as [|fuel]; [lia|]. cbn [loop climb]. pose proof (turn_climbs s junk attempts Hc Hn) as Ht.
  destruct (last_slash s); [|by rewrite Ht]. cbv zeta in Ht. destruct Ht as (Hd & Hdn & Hlen & junk' & ->). cbn [bind]. cbv zeta. destruct (Z.eqb_spec (rmdir attempts (dirname_of s)) 0) as [E0|]; [|done].
  apply IH; [done|done| |]; (destruct Hlen as [Er|]; [rewrite Er in E0; by apply root_stays in E0|lia]).
Qed.

Lemma remove_parent_climbs name attempts : nul_free name -> name <> [] -> remove_parent (cstr name) attempts = Ok (climb (S (length name)) attempts (strip name)).
Proof.
  intros Hn Hne. destruct (strip_climbing name Hn Hne) as (b & junk & E & Hc & Hs & Hl). unfold remove_parent. rewrite E. cbn [bind]. apply climb_loop; [done|done|lia|rewrite length_app; cbn [length]; lia].
Qed.

Lemma operands_climb p operands : forall ok attempts, Forall (fun d => nul_free d /\ d <> []) operands -> rmdir_operands p operands ok attempts = Ok (climb_all p operands ok attempts).
Proof.
  induction operands as [|d operands IH]; intros ok attempts Ho; cbn [rmdir_operands climb_all]; [done|]. apply Forall_cons in Ho as [[Hn Hne] Ho]. cbv zeta. destruct (rmdir attempts d =? 0); cbn [negb].
  - destruct p; [|by apply IH]. rewrite remove_parent_climbs by done. destruct (climb _ _ _) as [r at']. cbn [bind]. by apply IH.
  - destruct (ignorable_failure _ _ _); [rewrite andb_true_r|rewrite andb_false_r]; by apply IH.
Qed.
End rmdir.

(** With --ignore-fail-on-non-empty a refusal for want of permission is forgiven
    exactly when the directory is empty, the opposite of what the option says. *)
Lemma empty_refusal_forgiven rmdir is_empty_dir p dir : rmdir [] dir = EACCES ->
  rmdir_main rmdir is_empty_dir true p [dir] = Ok ((if is_empty_dir [dir] dir then 0 else 1), [dir]).
Proof. intros E. unfold rmdir_main. cbn [rmdir_operands app]. rewrite E. cbv zeta. unfold ignorable_failure. cbn. by destruct (is_empty_dir _ _). Qed.

(** rmdir -p goes up by dirname: for all operands and all answers of the system
    (the root directory is never removed) the in-place cutting of the name at its
    slashes tries to remove exactly the operand, then what dirname gives for it,
    and so on, until a name without a slash or the first failure; a failure is
    forgiven only as --ignore-fail-on-non-empty says, and the exit status is 0 if
    and only if nothing else failed. *)
Theorem rmdir_climbs rmdir is_empty_dir ignore p operands : (forall attempts, rmdir attempts (slashes 1) <> 0) ->
  Forall (fun d => nul_free d /\ d <> []) operands -> operands <> [] ->
  rmdir_main rmdir is_empty_dir ignore p operands =
  Ok (let '(ok, attempts) := climb_all rmdir is_empty_dir ignore p operands true [] in ((if ok then 0 else 1), attempts)).
Proof.
  intros Hroot Ho Hne. unfold rmdir_main. destruct operands as [|d operands]; [done|]. rewrite operands_climb by done. cbn [bind]. by destruct (climb_all _ _ _ _ _ _ _).
Qed.

(** An example: rmdir -p of a//b/c/ and /d, where the directory a is not empty. *)
Definition example_rmdir (attempts : list (list Z)) (name : list Z) : Z := if bool_decide (name = bytes "a") then ENOTEMPTY else if bool_decide (name = slashes 1) then EBUSY else 0.

Lemma rmdir_climbs_witness :
  climb_all example_rmdir (fun _ _ => false) false true [bytes "a//b/c/"; bytes "/d"] true [] =
    (false, [bytes "a//b/c/"; bytes "a//b"; bytes "a"; bytes "/d"; bytes "/"]) /\
  rmdir_main example_rmdir (fun _ _ => false) false true [bytes "a//b/c/"; bytes "/d"] = Ok (1, [bytes "a//b/c/"; bytes "a//b"; bytes "a"; bytes "/d"; bytes "/"]).
Proof.
  assert (climb_all example_rmdir (fun _ _ => false) false true [bytes "a//b/c/"; bytes "/d"] true [] =
    (false, [bytes "a//b/c/"; bytes "a//b"; bytes "a"; bytes "/d"; bytes "/"])) as E by (vm_compute; reflexivity).
  split; [exact E|]. rewrite (rmdir_climbs example_rmdir (fun _ _ => false) false true); [by rewrite E|intros attempts; vm_compute; discriminate| |done].
  constructor; [split; [by repeat constructor|done]|]. constructor; [split; [by repeat constructor|done]|constructor].
Defined.
