(* ===== verification/Tee.v ===== *)
(** * Copying to several files: utils/coreutils/src/tee.c

    tee_files over a small file system, and main after its options.  What the
    system accepts of a write, which writes meet a pipe without a reader, what SIGPIPE
    does then, which files can be opened and closed and what the reads answer are
    arguments; a file that is named twice is opened twice, and different names are
    different files. *)

From S2P Require Import Prelude Arrays CStrings.
Open Scope Z_scope.

(** ** Streams *)

(** BUFSIZ of <stdio.h>. *)
Definition BUFSIZ : Z := 8192.

(** What [read] answers; without more answers the input is at its end. *)
Inductive answer := Interrupted | ReadError | Data (bs : list Z).

(** Standard output and the contents of the files. *)
Record system := System { output : list Z; fs : gmap (list Z) (list Z) }.

(** A stream: standard output, or a file with its offset. *)
Inductive stream := Stdout | Opened (name : list Z) (pos : nat).

(** A cell of [descriptors]. *)
Inductive cell := Garbage | Null | Handle (f : stream).
#[export] Instance cell_inhabited : Inhabited cell := populate Garbage.

(** What a signal does. *)
Inductive disposition := SIG_DFL | SIG_IGN.
#[export] Instance disposition_eq_dec : EqDecision disposition.
Proof. solve_decision. Defined.

(** The end of a process that SIGPIPE kills, with the status a shell shows. *)
Definition killed_by_SIGPIPE : fault := ExitCall 141.

(** The bytes of a write at an offset; a gap is filled with zeros. *)
Definition put (c : list Z) (pos : nat) (bs : list Z) : list Z :=
  take pos c ++ replicate (pos - length c) 0 ++ bs ++ drop (pos + length bs) c.

Section tee.
(** [can_open i name] and [can_close i]: whether [fopen] and [fclose] of the
    stream number [i] succeed; [accepted i s bs]: how many of the bytes reach the
    stream before an error; [broken i s bs]: whether that error is EPIPE.  tee
    leaves SIGPIPE as it finds it. *)
Context (append : bool) (sigpipe : disposition) (can_open : Z -> list Z -> bool) (accepted : Z -> system -> list Z -> nat) (broken : Z -> system -> list Z -> bool) (can_close : Z -> bool).

Definition fopen (i : Z) (name : list Z) (s : system) : cell * system :=
  if can_open i name then
    (Handle (Opened name 0), System (output s) (<[name := if append then default [] (fs s !! name) else []]> (fs s)))
  else (Null, s).

(** A write to an unbuffered stream: whether all was written, the stream and the system. *)
Definition deliver (i : Z) (bs : list Z) (f : stream) (s : system) : bool * stream * system :=
  let n := Nat.min (length bs) (accepted i s bs) in
  let ok := bool_decide (n = length bs) in
  match f with
  | Stdout => (ok, f, System (output s ++ take n bs) (fs s))
  | Opened name pos =>
      let c := default [] (fs s !! name) in
      if append then (ok, f, System (output s) (<[name := c ++ take n bs]> (fs s)))
      else (ok, Opened name (pos + n), System (output s) (<[name := put c pos (take n bs)]> (fs s)))
  end.

(** [fwrite(buffer, n, 1, stream)]: a write to a pipe without a reader raises SIGPIPE, and
    fails only if that is ignored. *)
Definition fwrite (i : Z) (bs : list Z) (f : stream) (s : system) : res (bool * stream * system) :=
  let '(ok, f, s') := deliver i bs f s in
  if negb ok && broken i s bs && bool_decide (sigpipe = SIG_DFL) then Fail killed_by_SIGPIPE else Ok (ok, f, s').

(** ** tee_files *)

Definition name_at (files : list (option (list Z))) (i : Z) : res (list Z) :=
  let* f := rd files i in match f with Some name => Ok name | None => Fail NullDeref end.

Definition is_dash (name : list Z) : bool := bool_decide (name = bytes "-").

(** The names move up one place. *)
Definition shift_files (nfiles : Z) (files : list (option (list Z))) : res (list (option (list Z))) :=
  let* files := for_down nfiles 1 (fun i files => let* f := rd files (i - 1) in wr files i f) files in
  wr files 0 (Some (bytes "standard output")).

Record tee_state := TeeState { descriptors : list cell; sys : system; ok : bool }.

Definition open_turn (files : list (option (list Z))) (i : Z) (st : tee_state) : res tee_state :=
  let* name := name_at files i in
  let '(d, s) := if is_dash name then (Handle Stdout, sys st) else fopen i name (sys st) in
  let* ds := wr (descriptors st) i d in
  Ok (TeeState ds s (match d with Null => false | _ => ok st end)).

Definition write_turn (buffer : list Z) (i : Z) (st : tee_state) : res tee_state :=
  let* d := rd (descriptors st) i in
  match d with
  | Garbage => Fail Uninit
  | Null => Ok st
  | Handle f =>
      let* (written, f, s) := fwrite i buffer f (sys st) in
      if written : bool then let* ds := wr (descriptors st) i (Handle f) in Ok (TeeState ds s (ok st))
      else let* ds := wr (descriptors st) i Null in Ok (TeeState ds s false)
  end.

(** One turn of [while (1)]; the answers that are left are part of the state, and
    a long answer is read in pieces.  It leaves with whether the last read
    failed. *)
Definition copy_turn (nfiles : Z) (x : list answer * tee_state) : res (list answer * tee_state + bool * tee_state) :=
  let '(answers, st) := x in
  match answers with
  | Interrupted :: answers => Ok (inl (answers, st))
  | ReadError :: _ => Ok (inr (true, st))
  | [] | Data [] :: _ => Ok (inr (false, st))
  | Data bs :: answers =>
      let buffer := take (Z.to_nat BUFSIZ) bs in
      let rest := drop (Z.to_nat BUFSIZ) bs in
      let answers := match rest with [] => answers | _ => Data rest :: answers end in
      let* st := for_up 0 (nfiles + 1) (write_turn buffer) st in
      Ok (inl (answers, st))
  end.

Definition close_turn (files : list (option (list Z))) (i : Z) (st : tee_state) : res tee_state :=
  let* name := name_at files i in
  if is_dash name then Ok st
  else
    let* d := rd (descriptors st) i in
    match d with
    | Garbage => Fail Uninit
    | Null => Ok st
    | Handle _ => Ok (TeeState (descriptors st) (sys st) (can_close i && ok st))
    end.

(** The number of reads is bounded by the answers and their bytes. *)
Definition reads_left (answers : list answer) : nat := sum_list_with (fun a => match a with Data bs => S (length bs) | _ => 1%nat end) answers.

Definition tee_files (nfiles : Z) (files : list (option (list Z))) (answers : list answer) (s : system) : res (bool * system) :=
  let* files := shift_files nfiles files in
  let* ds := wr (replicate (Z.to_nat (nfiles + 1)) Garbage) 0 (Handle Stdout) in
  let* st := for_up 1 (nfiles + 1) (open_turn files) (TeeState ds s true) in
  let* (failed, st) := loop (S (reads_left answers)) (copy_turn nfiles) (answers, st) in
  let st := if failed : bool then TeeState (descriptors st) (sys st) false else st in
  let* st := for_up 1 (nfiles + 1) (close_turn files) st in
  Ok (ok st, sys st).

(** main after its options: the exit status, how SIGINT is handled during the copy,
    and the system.  [close(STDIN_FILENO)] may fail. *)
Definition tee_main (ignore_interrupts stdin_closes : bool) (operands : list (list Z)) (answers : list answer) (sigint : disposition) (s : system) :
    res (Z * disposition * system) :=
  let sigint := if ignore_interrupts then SIG_DFL else sigint in
  let* (ok, s) := tee_files (zlen operands) (map Some operands ++ [None]) answers s in
  Ok ((if stdin_closes && ok then 0 else 1), sigint, s).

(** ** The same without arrays *)

(** The pieces that are read, and whether the input came to its end. *)
Fixpoint blocks (n : nat) (bs : list Z) : list (list Z) :=
  match n, bs with
  | S n, _ :: _ => take (Z.to_nat BUFSIZ) bs :: blocks n (drop (Z.to_nat BUFSIZ) bs)
  | _, _ => []
  end.

Fixpoint received (answers : list answer) : list (list Z) * bool :=
  match answers with
  | [] | Data [] :: _ => ([], true)
  | Interrupted :: answers => received answers
  | ReadError :: _ => ([], false)
  | Data bs :: answers => let '(cs, fine) := received answers in (blocks (length bs) bs ++ cs, fine)
  end.

Fixpoint open_all (i : Z) (names : list (list Z)) (s : system) (ok : bool) : list cell * system * bool :=
  match names with
  | [] => ([], s, ok)
  | name :: names =>
      let '(d, s) := if is_dash name then (Handle Stdout, s) else fopen i name s in
      let '(ds, s, ok) := open_all (i + 1) names s (match d with Null => false | _ => ok end) in
      (d :: ds, s, ok)
  end.

Definition write_cell (i : Z) (buffer : list Z) (d : cell) (s : system) (ok : bool) : cell * system * bool :=
  match d with
  | Handle f => let '(written, f, s) := deliver i buffer f s in if written : bool then (Handle f, s, ok) else (Null, s, false)
  | _ => (d, s, ok)
  end.

Fixpoint write_all (i : Z) (buffer : list Z) (ds : list cell) (s : system) (ok : bool) : list cell * system * bool :=
  match ds with
  | [] => ([], s, ok)
  | d :: ds =>
      let '(d, s, ok) := write_cell i buffer d s ok in
      let '(ds, s, ok) := write_all (i + 1) buffer ds s ok in
      (d :: ds, s, ok)
  end.

Fixpoint copy_all (chunks : list (list Z)) (ds : list cell) (s : system) (ok : bool) : list cell * system * bool :=
  match chunks with
  | [] => (ds, s, ok)
  | c :: chunks => let '(ds, s, ok) := write_all 0 c ds s ok in copy_all chunks ds s ok
  end.

Fixpoint close_all (i : Z) (names : list (list Z)) (ds : list cell) (ok : bool) : bool :=
  match names, ds with
  | name :: names, d :: ds => close_all (i + 1) names ds (if is_dash name then ok else match d with Handle _ => can_close i && ok | _ => ok end)
  | _, _ => ok
  end.

Definition tee_run (names : list (list Z)) (answers : list answer) (s : system) : bool * system :=
  let '(ds, s, ok) := open_all 1 names s true in
  let '(chunks, fine) := received answers in
  let '(ds, s, ok) := copy_all chunks (Handle Stdout :: ds) s ok in
  (close_all 1 names (tail ds) (ok && fine), s).

Definition set_up (d : cell) : Prop := d <> Garbage.

Lemma shift_loop (xs : list (option (list Z))) : forall y post, for_down_n (length xs) (zlen xs) (fun i files => let* f := rd files (i - 1) in wr files i f) (xs ++ y :: post) =
  Ok (match xs with [] => y | x :: _ => x end :: xs ++ post).
Proof.
  induction xs as [|x xs IH] using rev_ind; intros y post; [done|]. rewrite length_app. cbn [length]. rewrite Nat.add_1_r. cbn [for_down_n]. rewrite zlen_snoc. replace (zlen xs + 1 - 1) with (zlen xs) by lia.
  rewrite <- !app_assoc. cbn [app]. rewrite rd_middle by done. cbn [bind]. rewrite (cons_middle x xs), app_assoc, (wr_middle (xs ++ [x])) by apply zlen_snoc. cbn [bind].
  rewrite <- app_assoc. cbn [app]. rewrite IH. by destruct xs.
Qed.

Lemma shift_files_ok names : shift_files (zlen names) (map Some names ++ [None]) = Ok (map Some (bytes "standard output" :: names)).
Proof.
  unfold shift_files, for_down. replace (Z.to_nat (zlen names - 1 + 1)) with (length (map Some names)) by (rewrite length_map; unfold zlen; lia). rewrite <- (zlen_map Some names). rewrite shift_loop. cbn [bind]. rewrite app_nil_r.
  by apply (wr_middle []).
Qed.

Lemma name_at_ok pre name post i : zlen pre = i -> name_at (map Some (pre ++ name :: post)) i = Ok name.
Proof. intros H. unfold name_at. rewrite map_app. cbn [map]. by rewrite rd_middle by (rewrite zlen_map; done). Qed.

Lemma open_loop names : forall pre ds s b, zlen pre = zlen ds ->
  for_n (length names) (zlen ds) (open_turn (map Some (pre ++ names))) (TeeState (ds ++ replicate (length names) Garbage) s b) =
  Ok (let '(ds', s, b) := open_all (zlen ds) names s b in TeeState (ds ++ ds') s b).
Proof.
  induction names as [|name names IH]; intros pre ds s b Hl; cbn [length for_n open_all replicate]; [by rewrite app_nil_r|]. 
  assert (open_turn (map Some (pre ++ name :: names)) (zlen ds) (TeeState (ds ++ Garbage :: replicate (length names) Garbage) s b) =
    Ok (let '(d, s) := if is_dash name then (Handle Stdout, s) else fopen (zlen ds) name s in TeeState ((ds ++ [d]) ++ replicate (length names) Garbage) s (match d with Null => false | _ => b end))) as ->.
  { unfold open_turn. rewrite name_at_ok by done. cbn [bind sys descriptors ok]. destruct (if is_dash name then _ else _) as [d s']. rewrite wr_middle by done. cbn [bind]. by rewrite <- app_assoc. }
  cbn [bind]. destruct (if is_dash name then _ else _) as [d s']. rewrite (cons_middle name pre names), app_assoc.
  rewrite <- (zlen_snoc d ds), IH by (rewrite !zlen_snoc; lia). destruct (open_all _ _ _ _) as [[ds' s''] ok']. by rewrite <- app_assoc.
Qed.

(** A write to the stream number [i] can meet a pipe without a reader. *)
Definition breaks (i : Z) : Prop := exists s bs, (accepted i s bs < length bs)%nat /\ broken i s bs = true.

(** SIGPIPE can kill tee at one of the streams [lo] to [hi - 1]. *)
Definition can_die (lo hi : Z) : Prop := sigpipe = SIG_DFL /\ exists i, lo <= i < hi /\ breaks i.

Lemma fwrite_or_dies i bs f s : (fwrite i bs f s = Fail killed_by_SIGPIPE /\ sigpipe = SIG_DFL /\ breaks i) \/ fwrite i bs f s = Ok (deliver i bs f s).
Proof.
  unfold fwrite. assert ((deliver i bs f s).1.1 = bool_decide (Nat.min (length bs) (accepted i s bs) = length bs)) as E by (unfold deliver; destruct f; [done|by destruct append]).
  destruct (deliver i bs f s) as [[ok f'] s']. cbn [fst] in E. subst ok. case_bool_decide as Hm; cbn [negb andb]; [by right|]. destruct (broken i s bs) eqn:Eb; [|by right]. case_bool_decide as Hs; [|by right].
  left. split; [done|]. split; [done|]. exists s, bs. split; [lia|done].
Qed.

Lemma write_loop buffer todo : forall ds s b, Forall set_up todo ->
  let r := for_n (length todo) (zlen ds) (write_turn buffer) (TeeState (ds ++ todo) s b) in
  (r = Fail killed_by_SIGPIPE /\ can_die (zlen ds) (zlen ds + zlen todo)) \/
  r = Ok (let '(ds', s, b) := write_all (zlen ds) buffer todo s b in TeeState (ds ++ ds') s b).
Proof.
  induction todo as [|d todo IH]; intros ds s b Hg r; subst r; cbn [length for_n write_all]; [by right|]. apply Forall_cons in Hg as [Hd Hg]. rewrite zlen_cons.
  assert ((write_turn buffer (zlen ds) (TeeState (ds ++ d :: todo) s b) = Fail killed_by_SIGPIPE /\ sigpipe = SIG_DFL /\ breaks (zlen ds)) \/ write_turn buffer (zlen ds) (TeeState (ds ++ d :: todo) s b) = Ok (let '(d', s, b) := write_cell (zlen ds) buffer d s b in TeeState ((ds ++ [d']) ++ todo) s b)) as [(-> & Hs & Hb)| ->].
  { unfold write_turn, write_cell. cbn [descriptors sys ok]. rewrite rd_middle by done. cbn [bind]. destruct d as [| |f]; [done|right; by rewrite <- app_assoc|]. destruct (fwrite_or_dies (zlen ds) buffer f s) as [[-> H]| ->]; [by left|right]. cbn [bind]. destruct (deliver _ _ _ _) as [[[|] f'] s']; rewrite wr_middle by done; cbn [bind]; by rewrite <- app_assoc. }
  { left. split; [done|]. split; [done|]. exists (zlen ds). split; [pose proof (zlen_nonneg todo); lia|done]. }
  cbn [bind]. destruct (write_cell _ _ _ _ _) as [[d' s'] b']. rewrite <- (zlen_snoc d' ds). specialize (IH (ds ++ [d']) s' b' Hg). cbv zeta in IH. destruct IH as [[-> (Hs & i & Hi & Hb)]| ->].
  - left. split; [done|]. split; [done|]. exists i. rewrite zlen_snoc in Hi. split; [lia|done].
  - right. destruct (write_all _ _ _ _ _) as [[ds' s''] b'']. by rewrite <- app_assoc.
Qed.

Lemma write_all_set_up buffer todo : forall i s b, Forall set_up todo -> Forall set_up (write_all i buffer todo s b).1.1 /\ length (write_all i buffer todo s b).1.1 = length todo.
Proof.
  induction todo as [|d todo IH]; intros i s b Hg; cbn [write_all]; [done|]. apply Forall_cons in Hg as [Hd Hg].
  assert (set_up (write_cell i buffer d s b).1.1) as Hw by (unfold write_cell; destruct d; [done|done|]; by destruct (deliver _ _ _ _) as [[[|] ?] ?]).
  destruct (write_cell _ _ _ _ _) as [[d' s'] b']. destruct (IH (i + 1) s' b' Hg) as [H1 H2]. destruct (write_all _ _ _ _ _) as [[ds' s''] b'']. cbn [fst length] in *. split; [by constructor|lia].
Qed.

Lemma open_all_set_up names : forall i s b, Forall set_up (open_all i names s b).1.1 /\ length (open_all i names s b).1.1 = length names.
Proof.
  induction names as [|name names IH]; intros i s b; cbn [open_all]; [done|].
  assert (set_up (if is_dash name then (Handle Stdout, s) else fopen i name s).1) as Hw by (unfold fopen; destruct (is_dash name); [done|]; by destruct (can_open i name)).
  destruct (if is_dash name then _ else _) as [d s']. destruct (IH (i + 1) s' (match d with Null => false | _ => b end)) as [H1 H2]. destruct (open_all _ _ _ _) as [[ds' s''] b'']. cbn [fst length] in *. split; [by constructor|lia].
Qed.

Lemma rest_shorter (c : Z) bs : (length (drop (Z.to_nat BUFSIZ) (c :: bs)) <= length bs)%nat.
Proof. rewrite length_drop. cbn [length]. assert (0 < Z.to_nat BUFSIZ)%nat by (unfold BUFSIZ; lia). lia. Qed.

Lemma blocks_enough : forall n xs, (length xs <= n)%nat -> blocks n xs = blocks (length xs) xs.
Proof.
  induction n as [n IH] using lt_wf_ind. intros xs Hl. destruct xs as [|x xs]; [by destruct n|]. destruct n as [|n]; [cbn [length] in Hl; lia|]. cbn [blocks length] in *.
  pose proof (rest_shorter x xs). rewrite (IH n) by lia. f_equal. by rewrite (IH (length xs)) by lia.
Qed.

(** The answers that are left after a read of bytes. *)
Lemma received_step bs answers : bs <> [] ->
  let rest := drop (Z.to_nat BUFSIZ) bs in
  let answers' := match rest with [] => answers | _ => Data rest :: answers end in
  received (Data bs :: answers) = (take (Z.to_nat BUFSIZ) bs :: (received answers').1, (received answers').2) /\ (reads_left answers' < reads_left (Data bs :: answers))%nat.
Proof.
  intros Hne rest answers'. destruct bs as [|c bs]; [done|]. split.
  - cbn [received length]. destruct (received answers) as [cs fine] eqn:E. subst answers'. cbn [blocks]. destruct rest as [|c' r] eqn:Er; subst rest; rewrite Er.
    + rewrite E. by destruct (length bs).
    + cbn [received]. rewrite E. cbn [fst snd app]. rewrite (blocks_enough (length bs)); [done|]. rewrite <- Er. apply rest_shorter.
  - subst answers'. unfold reads_left. assert (length rest <= length bs)%nat as Hl by apply rest_shorter.
    destruct rest; cbn [sum_list_with length] in *; lia.
Qed.

#[local] Opaque BUFSIZ.

Lemma copy_loop n : forall answers ds s b fuel, n = length ds -> Forall set_up ds -> (reads_left answers < fuel)%nat ->
  (loop fuel (copy_turn (Z.of_nat n - 1)) (answers, TeeState ds s b) = Fail killed_by_SIGPIPE /\ can_die 0 (Z.of_nat n)) \/
  loop fuel (copy_turn (Z.of_nat n - 1)) (answers, TeeState ds s b) =
  Ok (negb (received answers).2, let '(ds, s, b) := copy_all (received answers).1 ds s b in TeeState ds s b).
Proof.
  intros answers. remember (reads_left answers) as m eqn:Em. revert answers Em. induction m as [m IH] using lt_wf_ind. intros answers -> ds s b fuel Hn Hds Hf.
  destruct fuel as [|fuel]; [lia|]. cbn [loop]. destruct answers as [|a answers]; [by right|]. destruct a as [| |bs]; [|by right|].
  - cbn [copy_turn bind received]. apply (IH (reads_left answers)); [unfold reads_left; cbn [sum_list_with]; lia|done|done|done|]. unfold reads_left in *. cbn [sum_list_with] in Hf. lia.
  - destruct bs as [|c bs]; [by right|]. destruct (received_step (c :: bs) answers) as [-> Hlt]; [done|]. cbn [copy_turn]. cbv zeta in Hlt. set (answers' := match drop _ _ with [] => _ | _ => _ end) in *.
    unfold for_up. replace (Z.to_nat (Z.of_nat n - 1 + 1 - 0)) with (length ds) by lia. pose proof (write_loop (take (Z.to_nat BUFSIZ) (c :: bs)) ds [] s b Hds) as Hw. cbv zeta in Hw. change (zlen []) with 0 in Hw. cbn [app] in Hw. destruct Hw as [[-> Hk]| ->].
    { left. split; [done|]. subst n. exact Hk. }
    cbn [bind fst snd copy_all].
    destruct (write_all_set_up (take (Z.to_nat BUFSIZ) (c :: bs)) ds 0 s b Hds) as [Hs Hl]. destruct (write_all _ _ _ _ _) as [[ds' s'] b']. cbn [fst snd] in *.
    apply (IH (reads_left answers')); [done|done|lia|done|lia].
Qed.

Lemma close_loop names : forall pre done ds s b, zlen pre = zlen done -> length names = length ds -> Forall set_up ds ->
  for_n (length names) (zlen done) (close_turn (map Some (pre ++ names))) (TeeState (done ++ ds) s b) = Ok (TeeState (done ++ ds) s (close_all (zlen done) names ds b)).
Proof.
  induction names as [|name names IH]; intros pre done ds s b Hl Hn Hds; [by destruct ds|]. destruct ds as [|d ds]; [done|]. apply Forall_cons in Hds as [Hd Hds]. cbn [length for_n close_all].
  assert (close_turn (map Some (pre ++ name :: names)) (zlen done) (TeeState (done ++ d :: ds) s b) =
    Ok (TeeState ((done ++ [d]) ++ ds) s (if is_dash name then b else match d with Handle _ => can_close (zlen done) && b | _ => b end))) as ->.
  { unfold close_turn. rewrite name_at_ok by done. cbn [bind descriptors sys ok]. rewrite <- app_assoc. cbn [app]. destruct (is_dash name); [done|]. rewrite rd_middle by done. cbn [bind]. by destruct d. }
  cbn [bind]. rewrite (cons_middle name pre names), app_assoc. rewrite <- (zlen_snoc d done), IH; [by rewrite <- app_assoc|rewrite !zlen_snoc; lia|cbn [length] in Hn; lia|done].
Qed.

Lemma copy_all_set_up chunks : forall ds s b, Forall set_up ds -> Forall set_up (copy_all chunks ds s b).1.1 /\ length (copy_all chunks ds s b).1.1 = length ds.
Proof.
  induction chunks as [|c chunks IH]; intros ds s b Hds; cbn [copy_all]; [done|]. destruct (write_all_set_up c ds 0 s b Hds) as [Hs Hl]. destruct (write_all _ _ _ _ _) as [[ds' s'] b']. cbn [fst] in *.
  destruct (IH ds' s' b' Hs) as [? ?]. split; [done|lia].
Qed.

(** tee_files is the same without its arrays, unless SIGPIPE kills it. *)
Lemma tee_files_run names answers s :
  (tee_files (zlen names) (map Some names ++ [None]) answers s = Fail killed_by_SIGPIPE /\ can_die 0 (zlen names + 1)) \/
  tee_files (zlen names) (map Some names ++ [None]) answers s = Ok (tee_run names answers s).
Proof.
  unfold tee_files, tee_run. rewrite shift_files_ok. cbn [bind]. replace (Z.to_nat (zlen names + 1)) with (S (length names)) by (unfold zlen; lia). cbn [replicate].
  pose proof (wr_middle [] Garbage (replicate (length names) Garbage) 0 (Handle Stdout) eq_refl) as Hw. cbn [app] in Hw. rewrite Hw. clear Hw. cbn [bind].
  unfold for_up. replace (Z.to_nat (zlen names + 1 - 1)) with (length names) by (unfold zlen; lia).
  pose proof (open_loop names [bytes "standard output"] [Handle Stdout] s true eq_refl) as Ho. cbn [app] in Ho. change (zlen [Handle Stdout]) with 1 in Ho. rewrite Ho. clear Ho. cbn [bind].
  destruct (open_all_set_up names 1 s true) as [Hs Hl]. destruct (open_all 1 names s true) as [[ds s1] b1]. cbn [fst] in *.
  replace (zlen names) with (Z.of_nat (S (length names)) - 1) by (unfold zlen; lia). destruct (copy_loop (S (length names)) answers (Handle Stdout :: ds) s1 b1 (S (reads_left answers))) as [[-> Hk]| ->]; [cbn [length]; lia|by constructor|lia| |right; cbn [bind]].
  { left. split; [done|]. replace (Z.of_nat (S (length names)) - 1 + 1) with (Z.of_nat (S (length names))) by lia. done. }
  destruct (received answers) as [chunks fine]. cbn [fst snd]. destruct (copy_all_set_up chunks (Handle Stdout :: ds) s1 b1) as [Hs2 Hl2]; [by constructor|].
  destruct (copy_all _ _ _ _) as [[ds2 s2] b2]. cbn [fst snd] in *. destruct ds2 as [|d ds2]; [done|]. apply Forall_cons in Hs2 as [_ Hs2]. cbn [length] in Hl2.
  pose proof (close_loop names [bytes "standard output"] [d] ds2 s2 (b2 && fine) eq_refl ltac:(lia) Hs2) as Hc. cbn [app] in Hc. change (zlen [d]) with 1 in Hc.
  destruct fine; cbn [negb]; rewrite ?andb_true_r, ?andb_false_r in *; cbn [descriptors sys] in *; by rewrite Hc.
Qed.

(** *** Files that are not written *)

Definition target (d : cell) : option (list Z) := match d with Handle (Opened name _) => Some name | _ => None end.
Definition aims_at (ds : list cell) (name : list Z) : Prop := exists d, d ∈ ds /\ target d = Some name.

Lemma write_cell_frame i bs d s b name : target d <> Some name -> fs (write_cell i bs d s b).1.2 !! name = fs s !! name.
Proof.
  intros Ht. unfold write_cell, deliver. destruct d as [| |[|n pos]]; [done|done| |]; cbn [target] in Ht.
  - by destruct (bool_decide _).
  - destruct append; destruct (bool_decide _); cbn [fst snd fs]; rewrite lookup_insert_ne by congruence; done.
Qed.

Lemma write_cell_target i bs d s b : target (write_cell i bs d s b).1.1 = None \/ target (write_cell i bs d s b).1.1 = target d.
Proof. unfold write_cell, deliver. destruct d as [| |[|n pos]]; [by left|by left| |]; [|destruct append]; destruct (bool_decide _); cbn; auto. Qed.

Lemma write_all_frame bs ds name : forall i s b, ~ aims_at ds name -> fs (write_all i bs ds s b).1.2 !! name = fs s !! name /\ ~ aims_at (write_all i bs ds s b).1.1 name.
Proof.
  induction ds as [|d ds IH]; intros i s b Hn; cbn [write_all]; [done|].
  assert (target d <> Some name) as Ht by (intros E; apply Hn; exists d; split; [by left|done]). assert (~ aims_at ds name) as Hn' by (intros (d' & ? & ?); apply Hn; exists d'; split; [by right|done]).
  pose proof (write_cell_frame i bs d s b name Ht) as Hf. pose proof (write_cell_target i bs d s b) as Hd. destruct (write_cell _ _ _ _ _) as [[d' s'] b']. cbn [fst snd] in *.
  destruct (IH (i + 1) s' b' Hn') as [H1 H2]. destruct (write_all _ _ _ _ _) as [[ds' s''] b'']. cbn [fst snd] in *. split; [congruence|]. intros (x & Hx & Ex). apply elem_of_cons in Hx as [->|Hx]; [destruct Hd; congruence|]. apply H2. by exists x.
Qed.

Lemma copy_all_frame chunks name : forall ds s b, ~ aims_at ds name -> fs (copy_all chunks ds s b).1.2 !! name = fs s !! name.
Proof.
  induction chunks as [|c chunks IH]; intros ds s b Hn; cbn [copy_all]; [done|]. destruct (write_all_frame c ds name 0 s b Hn) as [H1 H2]. destruct (write_all _ _ _ _ _) as [[ds' s'] b']. cbn [fst snd] in *. rewrite IH by done. done.
Qed.

(** *** Opening *)

(** The stream of an operand that could be opened. *)
Definition handle_of (name : list Z) : cell := Handle (if is_dash name then Stdout else Opened name 0).
Definition opens (i : Z) (name : list Z) : bool := is_dash name || can_open i name.

(** What a file holds after the opening. *)
Definition emptied (c : option (list Z)) : list Z := if append then default [] c else [].

Lemma open_all_lookup names : forall i s b k name, names !! k = Some name ->
  (open_all i names s b).1.1 !! k = Some (if opens (i + Z.of_nat k) name then handle_of name else Null).
Proof.
  induction names as [|n names IH]; intros i s b k name Hk; [done|]. cbn [open_all].
  assert ((if is_dash n then (Handle Stdout, s) else fopen i n s).1 = if opens i n then handle_of n else Null) as Hd by (unfold opens, handle_of, fopen; destruct (is_dash n); [done|]; by destruct (can_open i n)).
  destruct (if is_dash n then _ else _) as [d s']. cbn [fst] in Hd. destruct k as [|k]; cbn in Hk.
  - simplify_eq. destruct (open_all _ _ _ _) as [[ds' s''] b'']. cbn. by rewrite Z.add_0_r.
  - specialize (IH (i + 1) s' (match d with Null => false | _ => b end) k name Hk). destruct (open_all _ _ _ _) as [[ds' s''] b'']. cbn [fst lookup list_lookup] in *. etransitivity; [exact IH|]. by replace (i + 1 + Z.of_nat k) with (i + Z.of_nat (S k)) by lia.
Qed.

Lemma open_all_fs names name : forall i s b, fs (open_all i names s b).1.2 !! name = fs s !! name \/ fs (open_all i names s b).1.2 !! name = Some (emptied (fs s !! name)).
Proof.
  induction names as [|n names IH]; intros i s b; cbn [open_all]; [by left|].
  assert (fs (if is_dash n then (Handle Stdout, s) else fopen i n s).2 !! name = fs s !! name \/ fs (if is_dash n then (Handle Stdout, s) else fopen i n s).2 !! name = Some (emptied (fs s !! name))) as Hd.
  { unfold fopen. destruct (is_dash n); [by left|]. destruct (can_open i n); [|by left]. cbn [snd fs]. destruct (decide (n = name)) as [->|]; [right; by rewrite lookup_insert_eq|left; by rewrite lookup_insert_ne]. }
  destruct (if is_dash n then _ else _) as [d s']. cbn [snd] in Hd. specialize (IH (i + 1) s' (match d with Null => false | _ => b end)). destruct (open_all _ _ _ _) as [[ds' s''] b'']. cbn [fst snd] in *.
  destruct IH as [->| ->]; [done|]. right. unfold emptied in *. destruct Hd as [->| ->]; [done|]. by destruct append.
Qed.

Lemma open_all_opened names : forall i s b k name, names !! k = Some name -> is_dash name = false -> can_open (i + Z.of_nat k) name = true ->
  fs (open_all i names s b).1.2 !! name = Some (emptied (fs s !! name)).
Proof.
  induction names as [|n names IH]; intros i s b k name Hk Hd Ho; [done|]. cbn [open_all]. destruct k as [|k]; cbn in Hk.
  - simplify_eq. rewrite Z.add_0_r in Ho. rewrite Hd. unfold fopen. rewrite Ho. pose proof (open_all_fs names name (i + 1) (System (output s) (<[name := emptied (fs s !! name)]> (fs s))) b) as Hf.
    change (if append then default [] (fs s !! name) else []) with (emptied (fs s !! name)). destruct (open_all _ _ _ _) as [[ds' s''] b'']. cbn [fst snd fs] in *. rewrite lookup_insert_eq in Hf.
    destruct Hf as [->| ->]; [done|]. unfold emptied. by destruct append.
  - pose proof (open_all_fs [n] name i s b) as Hf. cbn [open_all] in Hf. destruct (if is_dash n then _ else _) as [d s']. cbn [fst snd] in Hf.
    replace (i + Z.of_nat (S k)) with (i + 1 + Z.of_nat k) in Ho by lia. specialize (IH (i + 1) s' (match d with Null => false | _ => b end) k name Hk Hd Ho). destruct (open_all _ _ _ _) as [[ds' s''] b'']. cbn [fst snd] in *.
    rewrite IH. destruct Hf as [->| ->]; [done|]. unfold emptied. by destruct append.
Qed.

Lemma open_all_frame names name : forall i s b, name ∉ names -> fs (open_all i names s b).1.2 !! name = fs s !! name.
Proof.
  induction names as [|n names IH]; intros i s b Hn; cbn [open_all]; [done|]. apply not_elem_of_cons in Hn as [Hne Hn].
  assert (fs (if is_dash n then (Handle Stdout, s) else fopen i n s).2 !! name = fs s !! name) as Hd.
  { unfold fopen. destruct (is_dash n); [done|]. destruct (can_open i n); [|done]. cbn [snd fs]. by rewrite lookup_insert_ne. }
  destruct (if is_dash n then _ else _) as [d s']. cbn [snd] in Hd. specialize (IH (i + 1) s' (match d with Null => false | _ => b end) Hn). destruct (open_all _ _ _ _) as [[ds' s''] b'']. cbn [fst snd] in *. congruence.
Qed.

Lemma open_all_output names : forall i s b, output (open_all i names s b).1.2 = output s.
Proof.
  induction names as [|n names IH]; intros i s b; cbn [open_all]; [done|].
  assert (output (if is_dash n then (Handle Stdout, s) else fopen i n s).2 = output s) as Hd by (unfold fopen; destruct (is_dash n); [done|]; by destruct (can_open i n)).
  destruct (if is_dash n then _ else _) as [d s']. cbn [snd] in Hd. specialize (IH (i + 1) s' (match d with Null => false | _ => b end)). destruct (open_all _ _ _ _) as [[ds' s''] b'']. cbn [fst snd] in *. congruence.
Qed.

(** *** Truncated files hold a beginning of the input *)

Definition holds_to (T : list Z) (q : nat) (s : system) (name : list Z) : Prop := exists c, fs s !! name = Some c /\ c `prefix_of` T /\ (q <= length c)%nat.
Definition cell_at (T : list Z) (q : nat) (s : system) (d : cell) : Prop := match d with Handle (Opened name pos) => pos = q /\ holds_to T q s name | _ => True end.

Lemma put_prefix inp bs rest c n : c `prefix_of` inp ++ bs ++ rest -> (length inp <= length c)%nat -> (n <= length bs)%nat ->
  put c (length inp) (take n bs) `prefix_of` inp ++ bs ++ rest /\ length (put c (length inp) (take n bs)) = Nat.max (length c) (length inp + n).
Proof.
  intros [k E] Hl Hn. unfold put. replace (length inp - length c)%nat with 0%nat by lia. cbn [replicate app]. rewrite length_take, Nat.min_l by lia.
  assert (take (length inp) c = inp) as -> by (rewrite <- (take_app_le c k) by done; rewrite <- E; by apply take_app_length').
  split; [|rewrite !length_app, length_take, length_drop; lia].
  apply prefix_app. destruct (Nat.le_gt_cases (length c) (length inp + n)) as [Hc|Hc].
  - rewrite drop_ge, app_nil_r by done. apply prefix_app_r. exists (drop n bs). by rewrite take_drop.
  - assert (drop (length inp + n) c ++ k = drop n (bs ++ rest)) as Ed. { rewrite <- drop_app_le by lia. rewrite <- E, drop_app_ge by lia. f_equal. lia. }
    exists k. rewrite <- app_assoc, Ed, drop_app_le, app_assoc, take_drop by lia. done.
Qed.

Lemma holds_to_weaken T q q' s name : (q' <= q)%nat -> holds_to T q s name -> holds_to T q' s name.
Proof. intros ? (c & ? & ? & ?). exists c. split; [done|]. split; [done|lia]. Qed.

Section truncating.
Hypothesis truncates : append = false.

Lemma write_cell_prefix inp bs rest i d s b : let T := inp ++ bs ++ rest in let r := write_cell i bs d s b in cell_at T (length inp) s d ->
  cell_at T (length (inp ++ bs)) r.1.2 r.1.1 /\ (forall name q, holds_to T q s name -> holds_to T q r.1.2 name).
Proof.
  intros T r. subst r. unfold write_cell, deliver. rewrite truncates. destruct d as [| |[|n pos]]; [done|done| |].
  - intros _. by destruct (bool_decide _).
  - cbn [cell_at]. intros (-> & c & Ec & Hp & Hl). rewrite Ec. cbn [default]. set (m := Nat.min (length bs) (accepted i s bs)). destruct (put_prefix inp bs rest c m Hp Hl) as [Hp' Hl']; [lia|].
    set (s' := System (output s) (<[n := put c (length inp) (take m bs)]> (fs s))).
    assert (holds_to T (length inp + m) s' n) as Hn. { exists (put c (length inp) (take m bs)). split; [apply lookup_insert_eq|]. split; [done|]. rewrite Hl'. lia. }
    assert (forall name q, holds_to T q s name -> holds_to T q s' name) as Hmono.
    { intros name q (c' & Ec' & Hpc & Hlc). destruct (decide (n = name)) as [<-|Hne]; [|exists c'; split; [by cbn [s' fs]; rewrite lookup_insert_ne|done]].
      rewrite Ec in Ec'. injection Ec' as <-. exists (put c (length inp) (take m bs)). split; [apply lookup_insert_eq|]. split; [done|lia]. }
    case_bool_decide as Hm; cbn [fst snd cell_at]; [|done]. rewrite length_app, <- Hm. done.
Qed.

Lemma write_all_prefix inp bs rest ds : let T := inp ++ bs ++ rest in forall i s b, let r := write_all i bs ds s b in Forall (cell_at T (length inp) s) ds ->
  Forall (cell_at T (length (inp ++ bs)) r.1.2) r.1.1 /\ (forall name q, holds_to T q s name -> holds_to T q r.1.2 name).
Proof.
  intros T. assert (forall q s s' d, (forall name q, holds_to T q s name -> holds_to T q s' name) -> cell_at T q s d -> cell_at T q s' d) as Hc.
  { intros q s s' d Hm. destruct d as [| |[|n pos]]; cbn [cell_at]; [done|done|done|]. intros [? ?]. auto. }
  induction ds as [|d ds IH]; intros i s b r; subst r; cbn [write_all]; [done|]. intros [Hd Hds]%Forall_cons. pose proof (write_cell_prefix inp bs rest i d s b Hd) as [H1 H2]. fold T in H1, H2.
  destruct (write_cell _ _ _ _ _) as [[d' s'] b']. cbn [fst snd] in *. specialize (IH (i + 1) s' b'). cbv zeta in IH. destruct IH as [H3 H4]; [eapply Forall_impl; [exact Hds|]; intros x; by apply Hc|].
  destruct (write_all _ _ _ _ _) as [[ds' s''] b'']. cbn [fst snd] in *. split; [constructor; [by apply (Hc _ s')|done]|auto].
Qed.

Lemma copy_all_prefix chunks : forall inp ds s b, let T := inp ++ concat chunks in let r := copy_all chunks ds s b in Forall (cell_at T (length inp) s) ds ->
  Forall (cell_at T (length T) r.1.2) r.1.1 /\ (forall name q, holds_to T q s name -> holds_to T q r.1.2 name).
Proof.
  induction chunks as [|c chunks IH]; intros inp ds s b T r; subst T r; cbn [copy_all concat]; intros Hds; [by rewrite app_nil_r in *|].
  pose proof (write_all_prefix inp c (concat chunks) ds 0 s b Hds) as [H1 H2]. destruct (write_all _ _ _ _ _) as [[ds' s'] b']. cbn [fst snd] in *. specialize (IH (inp ++ c) ds' s' b'). cbv zeta in IH. rewrite <- app_assoc in IH.
  destruct (IH H1) as [H3 H4]. split; [done|auto].
Qed.
End truncating.

(** *** Streams that accept everything *)

Definition accepts (i : Z) : Prop := forall s bs, (length bs <= accepted i s bs)%nat.

(** Where a stream leads: [None] is standard output. *)
Definition sink (d : cell) : option (option (list Z)) := match d with Handle Stdout => Some None | Handle (Opened name _) => Some (Some name) | _ => None end.

Lemma write_cell_accepts i bs d s b : accepts i -> sink (write_cell i bs d s b).1.1 = sink d /\ (write_cell i bs d s b).2 = b.
Proof.
  intros Ha. unfold write_cell, deliver. destruct d as [| |[|n pos]]; [done|done| |]; rewrite (bool_decide_eq_true_2 (Nat.min _ _ = _)) by (pose proof (Ha s bs); lia); [done|]. by destruct append.
Qed.

Lemma write_all_keeps bs ds : forall i s b k d, ds !! k = Some d -> accepts (i + Z.of_nat k) -> exists d', (write_all i bs ds s b).1.1 !! k = Some d' /\ sink d' = sink d.
Proof.
  induction ds as [|x ds IH]; intros i s b k d Hk Ha; [done|]. cbn [write_all]. destruct k as [|k]; cbn in Hk.
  - simplify_eq. rewrite Z.add_0_r in Ha. destruct (write_cell_accepts i bs d s b Ha) as [Hs _]. destruct (write_cell _ _ _ _ _) as [[d' s'] b']. destruct (write_all _ _ _ _ _) as [[ds' s''] b'']. by exists d'.
  - destruct (write_cell _ _ _ _ _) as [[d' s'] b']. replace (i + Z.of_nat (S k)) with (i + 1 + Z.of_nat k) in Ha by lia. specialize (IH (i + 1) s' b' k d Hk Ha). by destruct (write_all _ _ _ _ _) as [[ds' s''] b''].
Qed.

Lemma copy_all_keeps chunks k : accepts (Z.of_nat k) -> forall ds s b d, ds !! k = Some d -> exists d', (copy_all chunks ds s b).1.1 !! k = Some d' /\ sink d' = sink d.
Proof.
  intros Ha. induction chunks as [|c chunks IH]; intros ds s b d Hk; cbn [copy_all]; [by exists d|]. destruct (write_all_keeps c ds 0 s b k d Hk) as (d1 & Hk1 & E1); [by rewrite Z.add_0_l|].
  destruct (write_all _ _ _ _ _) as [[ds' s'] b']. destruct (IH ds' s' b' d1 Hk1) as (d2 & Hk2 & E2). exists d2. split; [done|congruence].
Qed.

Lemma write_all_accepts bs ds : forall i s b, (forall k, (k < length ds)%nat -> accepts (i + Z.of_nat k)) ->
  (write_all i bs ds s b).2 = b /\ length (write_all i bs ds s b).1.1 = length ds.
Proof.
  induction ds as [|x ds IH]; intros i s b Ha; cbn [write_all]; [done|]. cbn [length] in Ha. destruct (write_cell_accepts i bs x s b) as [_ Hb]; [rewrite <- (Z.add_0_r i); apply (Ha 0%nat); lia|].
  destruct (write_cell _ _ _ _ _) as [[d' s'] b']. destruct (IH (i + 1) s' b') as [H1 H2]. { intros k Hk. replace (i + 1 + Z.of_nat k) with (i + Z.of_nat (S k)) by lia. apply Ha. lia. }
  destruct (write_all _ _ _ _ _) as [[ds' s''] b'']. cbn [fst snd length] in *. split; congruence.
Qed.

Lemma copy_all_accepts chunks : forall ds s b, (forall k, (k < length ds)%nat -> accepts (Z.of_nat k)) -> (copy_all chunks ds s b).2 = b.
Proof.
  induction chunks as [|c chunks IH]; intros ds s b Ha; cbn [copy_all]; [done|]. destruct (write_all_accepts c ds 0 s b) as [H1 H2]; [exact Ha|].
  destruct (write_all _ _ _ _ _) as [[ds' s'] b']. cbn [fst snd] in *. rewrite IH; [done|by rewrite H2].
Qed.

Lemma open_all_true names : forall i s b, (open_all i names s b).2 = true <-> b = true /\ (forall k name, names !! k = Some name -> opens (i + Z.of_nat k) name = true).
Proof.
  induction names as [|n names IH]; intros i s b; cbn [open_all]; [cbn [snd]; split; [by intros ->|by intros [-> _]]|].
  assert (forall b, (match (if is_dash n then (Handle Stdout, s) else fopen i n s).1 with Null => false | _ => b end) = opens i n && b) as Hd.
  { intros b'. unfold opens, fopen. destruct (is_dash n); [done|]. by destruct (can_open i n). }
  destruct (if is_dash n then _ else _) as [d s']. cbn [fst] in Hd. rewrite Hd. specialize (IH (i + 1) s' (opens i n && b)). destruct (open_all _ _ _ _) as [[ds' s''] b'']. cbn [snd] in *. rewrite IH, andb_true_iff. split.
  - intros [[Ho ->] Hk]. split; [done|]. intros [|k] name Hn; cbn in Hn; [simplify_eq; by rewrite Z.add_0_r|]. replace (i + Z.of_nat (S k)) with (i + 1 + Z.of_nat k) by lia. by apply Hk.
  - intros [-> Hk]. split; [split; [|done]; rewrite <- (Z.add_0_r i); by apply (Hk 0%nat)|]. intros k name Hn. replace (i + 1 + Z.of_nat k) with (i + Z.of_nat (S k)) by lia. by apply Hk.
Qed.

Lemma close_all_true names : forall i ds b, close_all i names ds b = true -> b = true.
Proof.
  induction names as [|n names IH]; intros i ds b; cbn [close_all]; [done|]. destruct ds as [|d ds]; [done|]. intros H%IH. destruct (is_dash n); [done|]. destruct d; [done|done|]. by apply andb_true_iff in H as [_ ?].
Qed.

Lemma close_all_closes names : forall i ds b, (forall k name, names !! k = Some name -> is_dash name = false -> can_close (i + Z.of_nat k) = true) -> close_all i names ds b = b.
Proof.
  induction names as [|n names IH]; intros i ds b Hc; cbn [close_all]; [done|]. destruct ds as [|d ds]; [done|]. rewrite IH.
  - destruct (is_dash n) eqn:En; [done|]. destruct d; [done|done|]. specialize (Hc 0%nat n eq_refl En). rewrite Z.add_0_r in Hc. by rewrite Hc.
  - intros k name Hk Hd. replace (i + 1 + Z.of_nat k) with (i + Z.of_nat (S k)) by lia. by apply (Hc (S k) name).
Qed.

(** *** Runs without a failure *)

Definition rep (k : nat) (bs : list Z) : list Z := concat (replicate k bs).
Definition times (x : option (list Z)) (ds : list cell) : nat := length (filter (fun y => y = Some x) (sink <$> ds)).
Definition content (x : option (list Z)) (s : system) : list Z := match x with None => output s | Some name => default [] (fs s !! name) end.

Lemma write_cell_success i bs d s b x : (write_cell i bs d s b).2 = true -> append = true \/ x = None ->
  b = true /\ sink (write_cell i bs d s b).1.1 = sink d /\ content x (write_cell i bs d s b).1.2 = content x s ++ rep (if decide (sink d = Some x) then 1 else 0) bs.
Proof.
  intros Hb Hx. unfold write_cell, deliver in *. destruct d as [| |[|n pos]].
  1, 2: split; [done|]; split; [done|]; rewrite decide_False by done; cbn; by rewrite app_nil_r.
  all: set (m := Nat.min _ _) in *; destruct (bool_decide_reflect (m = length bs)) as [Hm|]; [|by destruct append].
  - split; [done|]. split; [done|]. cbn [fst snd sink]. rewrite Hm, firstn_all. destruct x as [name|]; cbn [content output fs]; [rewrite decide_False by done; cbn; by rewrite app_nil_r|rewrite decide_True by done; unfold rep; cbn; by rewrite app_nil_r].
  - destruct append.
    + split; [done|]. split; [done|]. cbn [fst snd sink]. rewrite Hm, firstn_all. destruct x as [name|]; cbn [content output fs]; [|rewrite decide_False by done; cbn; by rewrite app_nil_r].
      destruct (decide (n = name)) as [->|]; [rewrite decide_True by done; rewrite lookup_insert_eq; unfold rep; cbn; by rewrite app_nil_r|rewrite decide_False by congruence; rewrite lookup_insert_ne by done; cbn; by rewrite app_nil_r].
    + destruct Hx as [?| ->]; [done|]. split; [done|]. split; [done|]. rewrite decide_False by done. cbn. by rewrite app_nil_r.
Qed.

Lemma rep_add j k bs : rep (j + k) bs = rep j bs ++ rep k bs.
Proof. unfold rep. by rewrite replicate_add, concat_app. Qed.

Lemma write_all_success bs ds x : forall i s b, (write_all i bs ds s b).2 = true -> append = true \/ x = None ->
  b = true /\ sink <$> (write_all i bs ds s b).1.1 = sink <$> ds /\ content x (write_all i bs ds s b).1.2 = content x s ++ rep (times x ds) bs.
Proof.
  induction ds as [|d ds IH]; intros i s b Hb Hx; cbn [write_all] in *; [cbn; by rewrite app_nil_r|].
  pose proof (write_cell_success i bs d s b x) as Hc. destruct (write_cell _ _ _ _ _) as [[d' s'] b']. specialize (IH (i + 1) s' b'). destruct (write_all _ _ _ _ _) as [[ds' s''] b'']. cbn [fst snd] in *.
  destruct (IH Hb Hx) as (-> & Hs & ->). destruct (Hc eq_refl Hx) as (-> & Hd & ->). split; [done|]. split; [cbn [fmap list_fmap]; rewrite Hd; f_equal; exact Hs|]. rewrite <- app_assoc, <- rep_add. f_equal. f_equal.
  unfold times. cbn [fmap list_fmap]. rewrite filter_cons. by destruct (decide (sink d = Some x)).
Qed.

Lemma copy_all_success chunks x : forall ds s b, (copy_all chunks ds s b).2 = true -> append = true \/ x = None ->
  b = true /\ sink <$> (copy_all chunks ds s b).1.1 = sink <$> ds /\ content x (copy_all chunks ds s b).1.2 = content x s ++ concat (map (rep (times x ds)) chunks).
Proof.
  induction chunks as [|c chunks IH]; intros ds s b Hb Hx; cbn [copy_all] in *; [cbn; by rewrite app_nil_r|].
  pose proof (write_all_success c ds x 0 s b) as Hc. destruct (write_all _ _ _ _ _) as [[ds' s'] b']. cbn [fst snd] in *. destruct (IH ds' s' b' Hb Hx) as (-> & Hs & ->). destruct (Hc eq_refl Hx) as (-> & Hd & ->).
  split; [done|]. split; [congruence|]. cbn [map concat]. rewrite <- app_assoc. unfold times. by rewrite Hd.
Qed.

Lemma write_all_some bs ds name : forall i s b, is_Some (fs s !! name) -> is_Some (fs (write_all i bs ds s b).1.2 !! name).
Proof.
  induction ds as [|d ds IH]; intros i s b Hs; cbn [write_all]; [done|].
  assert (is_Some (fs (write_cell i bs d s b).1.2 !! name)) as Hc.
  { destruct (decide (target d = Some name)) as [Ht|]; [|by rewrite write_cell_frame]. destruct d as [| |[|n pos]]; [done|done|done|]. cbn in Ht. simplify_eq. unfold write_cell, deliver.
    destruct append; destruct (bool_decide _); cbn [fst snd fs]; rewrite lookup_insert_eq; by eexists. }
  destruct (write_cell _ _ _ _ _) as [[d' s'] b']. specialize (IH (i + 1) s' b' Hc). by destruct (write_all _ _ _ _ _) as [[ds' s''] b''].
Qed.

Lemma copy_all_some chunks name : forall ds s b, is_Some (fs s !! name) -> is_Some (fs (copy_all chunks ds s b).1.2 !! name).
Proof.
  induction chunks as [|c chunks IH]; intros ds s b Hs; cbn [copy_all]; [done|]. pose proof (write_all_some c ds name 0 s b Hs). destruct (write_all _ _ _ _ _) as [[ds' s'] b']. by apply IH.
Qed.

Definition count (name : list Z) (names : list (list Z)) : nat := length (filter (fun n => n = name) names).

Lemma sink_handle n : sink (handle_of n) = Some (if is_dash n then None else Some n).
Proof. unfold handle_of. by destruct (is_dash n). Qed.

Lemma times_cons x d ds : times x (d :: ds) = ((if decide (sink d = Some x) then 1 else 0) + times x ds)%nat.
Proof. unfold times. cbn [fmap list_fmap]. rewrite filter_cons. by destruct (decide (sink d = Some x)). Qed.

Lemma count_cons name n names : count name (n :: names) = ((if decide (n = name) then 1 else 0) + count name names)%nat.
Proof. unfold count. rewrite filter_cons. by destruct (decide (n = name)). Qed.

Lemma times_handles names x : times x (map handle_of names) = match x with None => count (bytes "-") names | Some name => if is_dash name then 0%nat else count name names end.
Proof.
  induction names as [|n names IH]; cbn [map]; [destruct x as [name|]; [by destruct (is_dash name)|done]|]. rewrite times_cons, sink_handle, IH. unfold is_dash. destruct x as [name|]; rewrite count_cons.
  - repeat case_bool_decide; repeat case_decide; naive_solver.
  - repeat case_bool_decide; repeat case_decide; naive_solver.
Qed.

Lemma open_all_handles names i s : (open_all i names s true).2 = true -> (open_all i names s true).1.1 = map handle_of names.
Proof.
  intros [_ Ho]%open_all_true. apply list_eq. intros k. destruct (names !! k) as [name|] eqn:Hk.
  - rewrite (open_all_lookup names i s true k name Hk), (Ho k name Hk), list_lookup_fmap, Hk. done.
  - rewrite list_lookup_fmap, Hk. apply lookup_ge_None. rewrite (proj2 (open_all_set_up names i s true)). by apply lookup_ge_None.
Qed.

(** The bytes up to the end of the input. *)
Fixpoint input (answers : list answer) : list Z :=
  match answers with
  | Interrupted :: answers => input answers
  | Data (c :: bs) :: answers => c :: bs ++ input answers
  | _ => []
  end.

Lemma received_input answers : concat (received answers).1 = input answers.
Proof.
  assert (forall n bs, (length bs <= n)%nat -> concat (blocks n bs) = bs) as Hb.
  { induction n as [|n IH]; intros bs Hl; (destruct bs as [|c bs]; [done|]); [cbn [length] in Hl; lia|]. cbn [blocks concat]. rewrite IH; [apply take_drop|]. pose proof (rest_shorter c bs). cbn [length] in Hl. lia. }
  induction answers as [|a answers IH]; [done|]. destruct a as [| |[|c bs]]; [done|done|done|]. cbn [received input]. destruct (received answers) as [cs fine]. cbn [fst] in *. rewrite concat_app, Hb, IH by done. done.
Qed.

(** *** The whole run *)

Lemma tee_run_frame names answers s name : name ∉ names -> fs (tee_run names answers s).2 !! name = fs s !! name.
Proof.
  intros Hn. unfold tee_run. pose proof (open_all_frame names name 1 s true Hn) as Hf. pose proof (fun k n => open_all_lookup names 1 s true k n) as Hl. pose proof (proj2 (open_all_set_up names 1 s true)) as Hlen.
  destruct (open_all _ _ _ _) as [[ds s1] b1]. cbn [fst snd] in *. destruct (received answers) as [chunks fine]. assert (~ aims_at (Handle Stdout :: ds) name) as Ha.
  { intros (d & Hd & Ht). apply elem_of_cons in Hd as [->|Hd]; [done|]. apply list_elem_of_lookup in Hd as [k Hk]. assert (is_Some (names !! k)) as [n Hkn] by (apply lookup_lt_is_Some; rewrite <- Hlen; by eapply lookup_lt_Some).
    rewrite (Hl k n Hkn) in Hk. injection Hk as <-. unfold handle_of in Ht. destruct (opens _ n); [|done]. destruct (is_dash n); [done|]. cbn in Ht. simplify_eq. apply Hn. by eapply list_elem_of_lookup_2. }
  pose proof (copy_all_frame chunks name (Handle Stdout :: ds) s1 b1 Ha) as Hc. destruct (copy_all _ _ _ _) as [[ds2 s2] b2]. cbn [fst snd] in *. congruence.
Qed.

Lemma opened_at_start T names s : append = false -> Forall (cell_at T 0 (open_all 1 names s true).1.2) (open_all 1 names s true).1.1.
Proof.
  intros Ht. apply Forall_lookup. intros k d Hd. assert (is_Some (names !! k)) as [n Hk] by (apply lookup_lt_is_Some; rewrite <- (proj2 (open_all_set_up names 1 s true)); by eapply lookup_lt_Some).
  rewrite (open_all_lookup names 1 s true k n Hk) in Hd. injection Hd as <-. unfold opens, handle_of. destruct (is_dash n) eqn:En; [done|]. cbn [orb]. destruct (can_open _ n) eqn:Eo; [|done]. cbn [cell_at]. split; [done|].
  exists []. rewrite (open_all_opened names 1 s true k n Hk En Eo). unfold emptied. rewrite Ht. split; [done|]. split; [apply prefix_nil|lia].
Qed.

Lemma tee_run_truncated names answers s k name : append = false -> names !! k = Some name -> is_dash name = false -> can_open (1 + Z.of_nat k) name = true ->
  exists c, fs (tee_run names answers s).2 !! name = Some c /\ c `prefix_of` input answers /\ (accepts (1 + Z.of_nat k) \/ (tee_run names answers s).1 = true -> c = input answers).
Proof.
  intros Ht Hk Hd Ho. unfold tee_run. rewrite <- received_input. pose proof (opened_at_start (concat (received answers).1) names s Ht) as Hs. pose proof (open_all_lookup names 1 s true k name Hk) as Hl. pose proof (open_all_opened names 1 s true k name Hk Hd Ho) as Hf.
  unfold opens in Hl. rewrite Ho, orb_true_r in Hl. destruct (open_all _ _ _ _) as [[ds s1] b1]. destruct (received answers) as [chunks fine]. cbn [fst snd] in *.
  pose proof (copy_all_prefix Ht chunks [] (Handle Stdout :: ds) s1 b1) as Hc. cbv zeta in Hc. cbn [app length] in Hc. destruct Hc as [H1 H2]; [by constructor|].
  pose proof (copy_all_keeps chunks (S k)) as Hkeep. replace (Z.of_nat (S k)) with (1 + Z.of_nat k) in Hkeep by lia. assert (accepts (1 + Z.of_nat k) \/ close_all 1 names (tail (copy_all chunks (Handle Stdout :: ds) s1 b1).1.1) ((copy_all chunks (Handle Stdout :: ds) s1 b1).2 && fine) = true -> exists d', (copy_all chunks (Handle Stdout :: ds) s1 b1).1.1 !! S k = Some d' /\ sink d' = sink (handle_of name)) as Hk'.
  { intros [Ha|[Hb _]%close_all_true%andb_true_iff]; [by apply Hkeep|]. destruct (copy_all_success chunks None _ _ _ Hb (or_intror eq_refl)) as (_ & Hs' & _). assert ((sink <$> (copy_all chunks (Handle Stdout :: ds) s1 b1).1.1) !! S k = Some (sink (handle_of name))) as Hs2 by (rewrite Hs', list_lookup_fmap; change ((Handle Stdout :: ds) !! S k) with (ds !! k); by rewrite Hl).
    by apply list_lookup_fmap_Some in Hs2 as (d' & -> & ->); exists d'. }
  destruct (copy_all _ _ _ _) as [[ds2 s2] b2]. cbn [fst snd] in *. destruct (H2 name 0%nat) as (c & Ec & Hp & _). { exists []. rewrite Hf. unfold emptied. rewrite Ht. split; [done|]. split; [apply prefix_nil|lia]. }
  exists c. split; [done|]. split; [done|]. intros Ha. destruct (Hk' Ha) as (d' & Hd' & Es). rewrite Forall_lookup in H1. specialize (H1 _ _ Hd'). unfold handle_of in Es. rewrite Hd in Es. destruct d' as [| |[|n pos]]; [done|done|done|]. cbn in Es. simplify_eq.
  cbn [cell_at] in H1. destruct H1 as [_ (c' & Ec' & _ & Hlen)]. simplify_eq. apply prefix_length_eq; [done|done].
Qed.

Lemma tee_run_success names answers s : (tee_run names answers s).1 = true ->
  (forall k name, names !! k = Some name -> opens (1 + Z.of_nat k) name = true) /\ (received answers).2 = true /\
  forall x, append = true \/ x = None -> content x (tee_run names answers s).2 = content x s ++ concat (map (rep (times x (Handle Stdout :: map handle_of names))) (received answers).1).
Proof.
  unfold tee_run. intros Hf. pose proof (proj1 (open_all_true names 1 s true)) as Ho. pose proof (open_all_handles names 1 s) as Hh. pose proof (open_all_output names 1 s true) as Hout. pose proof (fun n => open_all_fs names n 1 s true) as Hfs.
  destruct (open_all _ _ _ _) as [[ds s1] b1]. destruct (received answers) as [chunks fine]. cbn [fst snd] in *.
  assert (forall x, (copy_all chunks (Handle Stdout :: ds) s1 b1).2 = true -> append = true \/ x = None -> _) as Hc by (intros x; apply (copy_all_success chunks x (Handle Stdout :: ds) s1 b1)).
  destruct (copy_all _ _ _ _) as [[ds2 s2] b2]. cbn [fst snd] in *. apply close_all_true, andb_true_iff in Hf as [-> ->]. destruct (Hc None eq_refl (or_intror eq_refl)) as [-> _]. split; [by apply Ho|]. split; [done|].
  intros x Hx. destruct (Hc x eq_refl Hx) as (_ & _ & ->). rewrite (Hh eq_refl). f_equal. destruct x as [name|]; cbn [content]; [|done]. destruct Hx as [Ha|]; [|done]. destruct (Hfs name) as [->| ->]; [done|]. unfold emptied. by rewrite Ha.
Qed.

Lemma tee_run_fine names answers s : (forall k name, names !! k = Some name -> is_dash name = false -> can_open (1 + Z.of_nat k) name = true /\ can_close (1 + Z.of_nat k) = true) ->
  (forall k, (k <= length names)%nat -> accepts (Z.of_nat k)) -> (received answers).2 = true -> (tee_run names answers s).1 = true.
Proof.
  intros Hn Ha Hr. unfold tee_run. assert ((open_all 1 names s true).2 = true) as Hb.
  { apply open_all_true. split; [done|]. intros k name Hk. unfold opens. destruct (is_dash name) eqn:Ed; [done|]. by apply Hn. }
  pose proof (proj2 (open_all_set_up names 1 s true)) as Hl. destruct (open_all _ _ _ _) as [[ds s1] b1]. cbn [fst snd] in Hb, Hl. destruct (received answers) as [chunks fine]. cbn [snd] in Hr.
  pose proof (copy_all_accepts chunks (Handle Stdout :: ds) s1 b1) as Hcp. destruct (copy_all _ _ _ _) as [[ds2 s2] b2]. cbn [fst snd length] in *. rewrite close_all_closes by (intros k name Hk Hd; by apply (Hn k name)). rewrite Hcp; [by subst|]. intros k Hk. apply Ha. lia.
Qed.

Lemma tee_run_some names answers s k name : names !! k = Some name -> is_dash name = false -> can_open (1 + Z.of_nat k) name = true -> is_Some (fs (tee_run names answers s).2 !! name).
Proof.
  intros Hk Hd Ho. unfold tee_run. pose proof (open_all_opened names 1 s true k name Hk Hd Ho) as Hf. destruct (open_all _ _ _ _) as [[ds s1] b1]. destruct (received answers) as [chunks fine].
  pose proof (copy_all_some chunks name (Handle Stdout :: ds) s1 b1) as Hc. destruct (copy_all _ _ _ _) as [[ds2 s2] b2]. cbn [fst snd] in *. apply Hc. rewrite Hf. by eexists.
Qed.
End tee.

(** C27. tee copies its input to every destination.  For all operands, all answers to its reads and
    all failures of the system, tee_files either is killed by SIGPIPE, which needs that SIGPIPE has its
    default action and that one of the streams is a pipe without a reader, or returns; then it touched no
    other file.  A truncated file then holds a beginning of the input, and all of it if its own stream accepts
    every write, whatever errors the other destinations had and even if it is named twice.  When it reports
    success every operand was opened, the reads came to the end of the input and everything was
    written: every truncated file is the input, standard output has got it once and once more for each
    operand -, piece by piece, and an appended file once for each time it is named.  If all operands can be
    opened and closed, all streams accept every write and no read fails, it reports success.  Of the moment
    at which SIGPIPE kills it nothing is said.  Different names are different files, and the memory for
    the descriptors is there. *)
Theorem tee_copies append sigpipe can_open accepted broken can_close names answers s :
  let run := tee_files append sigpipe can_open accepted broken can_close (zlen names) (map Some names ++ [None]) answers s in
  (run = Fail killed_by_SIGPIPE /\ sigpipe = SIG_DFL /\ exists i, 0 <= i <= zlen names /\ breaks accepted broken i) \/
  exists fine s', run = Ok (fine, s') /\
  (forall name, name ∉ names -> fs s' !! name = fs s !! name) /\
  (append = false -> forall k name, names !! k = Some name -> name <> bytes "-" -> can_open (1 + Z.of_nat k) name = true ->
    exists c, fs s' !! name = Some c /\ c `prefix_of` input answers /\ (accepts accepted (1 + Z.of_nat k) -> c = input answers)) /\
  (fine = true ->
    (received answers).2 = true /\ (forall k name, names !! k = Some name -> name <> bytes "-" -> can_open (1 + Z.of_nat k) name = true) /\
    output s' = output s ++ concat (map (rep (S (count (bytes "-") names))) (received answers).1) /\
    (append = false -> forall name, name ∈ names -> name <> bytes "-" -> fs s' !! name = Some (input answers)) /\
    (append = true -> forall name, name ∈ names -> name <> bytes "-" -> fs s' !! name = Some (default [] (fs s !! name) ++ concat (map (rep (count name names)) (received answers).1)))) /\
  ((forall k name, names !! k = Some name -> name <> bytes "-" -> can_open (1 + Z.of_nat k) name = true /\ can_close (1 + Z.of_nat k) = true) ->
   (forall k, (k <= length names)%nat -> accepts accepted (Z.of_nat k)) -> (received answers).2 = true -> fine = true).
Proof.
  intros run. subst run. destruct (tee_files_run append sigpipe can_open accepted broken can_close names answers s) as [(-> & Hs & i & Hi & Hb)| ->]; [left; split; [done|]; split; [done|]; exists i; split; [lia|done]|right].
  assert (forall name, name <> bytes "-" <-> is_dash name = false) as Hdash by (intros name; unfold is_dash; by rewrite bool_decide_eq_false).
  pose proof (tee_run_frame append can_open accepted can_close names answers s) as H1. pose proof (tee_run_truncated append can_open accepted can_close names answers s) as H2.
  pose proof (tee_run_success append can_open accepted can_close names answers s) as H3. pose proof (tee_run_fine append can_open accepted can_close names answers s) as H4. pose proof (tee_run_some append can_open accepted can_close names answers s) as H5.
  destruct (tee_run _ _ _ _ _ _ _) as [fine s']. cbn [fst snd] in *. exists fine, s'. split; [done|]. split; [done|]. split; [|split].
  - intros Ha k name Hk Hd%Hdash Ho. destruct (H2 k name Ha Hk Hd Ho) as (c & ? & ? & ?). exists c. auto.
  - intros Hf. destruct (H3 Hf) as (Ho & Hr & Hc). assert (forall k name, names !! k = Some name -> is_dash name = false -> can_open (1 + Z.of_nat k) name = true) as Ho' by (intros k name Hk Hd; specialize (Ho k name Hk); unfold opens in Ho; by rewrite Hd in Ho).
    split; [done|]. split; [intros k name Hk Hd%Hdash; by apply Ho'|]. split; [specialize (Hc None (or_intror eq_refl)); rewrite times_cons, times_handles in Hc; exact Hc|]. split.
    + intros Ha name [k Hk]%list_elem_of_lookup Hd%Hdash. destruct (H2 k name Ha Hk Hd (Ho' k name Hk Hd)) as (c & -> & _ & ->); auto.
    + intros Ha name [k Hk]%list_elem_of_lookup Hd%Hdash. specialize (Hc (Some name) (or_introl Ha)). rewrite times_cons, times_handles, Hd in Hc. cbn [sink] in Hc. rewrite decide_False in Hc by done. cbn [content Nat.add] in Hc.
      destruct (H5 k name Hk Hd (Ho' k name Hk Hd)) as [c Ec]. rewrite Ec in *. cbn [default from_option id] in Hc. by subst c.
  - intros Hn Ha Hr. apply H4; [|done|done]. intros k name Hk Hd%Hdash. by apply (Hn k name).
Qed.

(** With -i an interrupt ends tee, even if it was ignored before. *)
Lemma tee_i_takes_default append sigpipe can_open accepted broken can_close stdin_closes operands answers sigint s r :
  tee_main append sigpipe can_open accepted broken can_close true stdin_closes operands answers sigint s = Ok r -> r.1.2 = SIG_DFL.
Proof.
  unfold tee_main. destruct (tee_files_run append sigpipe can_open accepted broken can_close operands answers s) as [[-> _]| ->]; [done|]. cbn [bind]. destruct (tee_run _ _ _ _ _ _ _) as [fine s']. by intros [= <-].
Qed.

(** A pipe without a reader: with SIGPIPE ignored the file gets the rest, otherwise tee dies. *)
Example tee_broken_pipe sigpipe :
  tee_files false sigpipe (fun _ _ => true) (fun i s bs => if i =? 0 then 0%nat else length bs) (fun i _ _ => i =? 0) (fun _ => true) 1
    [Some (bytes "log"); None] [Data (bytes "ab")] (System [] ∅) =
  match sigpipe with SIG_DFL => Fail killed_by_SIGPIPE | SIG_IGN => Ok (false, System [] {[bytes "log" := bytes "ab"]}) end.
Proof. destruct sigpipe; vm_compute; reflexivity. Qed.

(** A run: a file that refuses after three bytes does not disturb the others. *)
Example tee_example :
  tee_files false SIG_DFL (fun _ _ => true) (fun i s bs => if i =? 1 then (3 - length (default [] (fs s !! bytes "full")))%nat else length bs) (fun _ _ _ => false) (fun _ => true) 3
    [Some (bytes "full"); Some (bytes "-"); Some (bytes "log"); None] [Data (bytes "ab"); Interrupted; Data (bytes "cd")] (System [] ∅) =
  Ok (false, System (bytes "ababcdcd") {[bytes "full" := bytes "abc"; bytes "log" := bytes "abcd"]}).
Proof. vm_compute. reflexivity. Qed.
