(* ===== verification/Kill.v ===== *)
(** * Sending and listing signals: utils/coreutils/src/kill.c

    The command after its options, over the conversions of Signals.v.  What the
    system answers to kill and the descriptions of strsignal are arguments. *)

From S2P Require Import Prelude Arrays CStrings XStrtol Signals.
Open Scope Z_scope.

Definition SIGTERM : Z := 15.

(** [%*d] and [%-*s] *)
Definition pad_left (width : Z) (s : list Z) : list Z := replicate (Z.to_nat (width - zlen s)) 32 ++ s.
Definition pad_right (width : Z) (s : list Z) : list Z := s ++ replicate (Z.to_nat (width - zlen s)) 32.

Section kill.
(** [strsignal]; [kill calls pid signum]: whether the call succeeds after the calls
    so far. *)
Context (strsignal : Z -> option (list Z)) (kill : list (Z * Z) -> Z -> Z -> bool).

Definition print_table_row (num_width signum name_width : Z) (signame : list Z) : list Z :=
  let description := strsignal signum in
  pad_left num_width (decimal signum) ++ bytes " " ++ pad_right name_width signame ++ bytes " " ++ default (bytes "?") description.

(** The name that [operand2sig] stores comes with its number. *)
Definition operand_signal (operand : list Z) : res (option (Z * list Z)) :=
  let* signum := operand2sig operand in
  if signum <? 0 then Ok None
  else match sig2str signum with Some signame => Ok (Some (signum, signame)) | None => Fail Uninit end.

(** The width of the numbers, and of the names. *)
Definition number_width : res Z :=
  let* (_, num_width) := while 10 (fun '(signum, _) => Ok (signum <=? Z.quot SIGNUM_BOUND 10)) (fun '(signum, num_width) => Ok (signum * 10, u32 (num_width + 1))) (1, 1) in
  Ok num_width.

Definition names_width : res Z :=
  for_up 1 (SIGNUM_BOUND + 1) (fun signum name_width =>
    match sig2str signum with Some signame => let len := zlen signame in Ok (if name_width <? len then u32 len else name_width) | None => Ok name_width end) 0.

(** The operands, each printed in one way. *)
Fixpoint list_operands (row : list Z -> Z -> list Z -> list Z) (argv : list (list Z)) (status : Z) (lines : list (list Z)) : res (Z * list (list Z)) :=
  match argv with
  | [] => Ok (status, lines)
  | arg :: argv =>
      let* r := operand_signal arg in
      match r with
      | None => list_operands row argv 1 lines
      | Some (signum, signame) => list_operands row argv status (lines ++ [row arg signum signame])
      end
  end.

(** All signals. *)
Definition list_all (row : Z -> list Z -> list Z) : res (list (list Z)) :=
  for_up 1 (SIGNUM_BOUND + 1) (fun signum lines => Ok (match sig2str signum with Some signame => lines ++ [row signum signame] | None => lines end)) [].

(** The exit status and the lines; [argv] may be NULL. *)
Definition list_signals (table : bool) (argv : option (list (list Z))) : res (Z * list (list Z)) :=
  if table then
    let* num_width := number_width in
    let* name_width := names_width in
    match argv with
    | Some argv => list_operands (fun _ signum signame => print_table_row num_width signum name_width signame) argv 0 []
    | None => let* lines := list_all (fun signum signame => print_table_row num_width signum name_width signame) in Ok (0, lines)
    end
  else
    match argv with
    | Some argv => list_operands (fun arg signum signame => if ISDIGIT (head_char arg) then signame else decimal signum) argv 0 []
    | None => let* lines := list_all (fun _ signame => signame) in Ok (0, lines)
    end.

(** The process id of an operand, a pid_t of 32 bits; [None] is an invalid one. *)
Definition read_pid (arg : list Z) : res (option Z) :=
  let* (n, endp, e) := strtol t_long arg 10 in
  let pid := s32 n in
  let* c := rd (cstr arg) endp in
  Ok (if (match e with E_RANGE => true | E_OK => false end) || negb (pid =? n) || (endp =? 0) || negb (c =? 0) then None else Some pid).

(** The exit status and the calls of kill.  The first operand is there. *)
Fixpoint send_signals (signum : Z) (argv : list (list Z)) (status : Z) (calls : list (Z * Z)) : res (Z * list (Z * Z)) :=
  match argv with
  | [] => Fail NullDeref
  | arg :: argv =>
      let* r := read_pid arg in
      let '(status, calls) :=
        match r with
        | None => (1, calls)
        | Some pid => ((if kill calls pid signum then status else 1), calls ++ [(pid, signum)])
        end in
      match argv with [] => Ok (status, calls) | _ => send_signals signum argv status calls end
  end.

(** main after its options ([signum] is -1 if no signal was given): the exit
    status, the lines of standard output and the calls of kill. *)
Definition kill_main (signum : Z) (list_ table : bool) (operands : list (list Z)) : res (Z * list (list Z) * list (Z * Z)) :=
  if (0 <=? signum) && list_ then Ok (1, [], [])
  else
    let signum := if signum <? 0 then SIGTERM else signum in
    if negb list_ && bool_decide (operands = []) then Ok (1, [], [])
    else if list_ then let* (status, lines) := list_signals table (match operands with [] => None | _ => Some operands end) in Ok (status, lines, [])
    else let* (status, calls) := send_signals signum operands 0 [] in Ok (status, [], calls).

(** ** Process ids *)

(** A decimal number with blanks and a sign before it and nothing after it, in the
    range of an int. *)
Definition pid_of (s : list Z) : option Z :=
  let '(neg, ds, _) := read_sign (skip_spaces s).1 in
  let v := signed_value neg (dec 0 ds) in
  if negb (bool_decide (ds = [])) && forallb decimal_char ds && (INT_MIN <=? v) && (v <=? INT_MAX) then Some v else None.

Lemma strtol_parts s sp neg sg s1 ds rest : s = sp ++ s1 -> skip_spaces s = (s1, zlen sp) -> s1 = sg ++ ds ++ rest -> read_sign s1 = (neg, ds ++ rest, zlen sg) ->
  Forall is_decimal ds -> no_decimal (head_char rest) ->
  strtol t_long s 10 = Ok (if zlen ds =? 0 then (0, 0, E_OK)
    else (clamp t_long (signed_value neg (dec 0 ds)), zlen (sp ++ sg ++ ds), if in_type t_long (signed_value neg (dec 0 ds)) then E_OK else E_RANGE)).
Proof.
  intros Es Hsp E1 Hsg Hds Hrest. unfold strtol, demand. cbn [negb Z.eqb Pos.eqb bind]. rewrite Hsp, Hsg. change (read_prefix 10 ?x) with (10, x, 0). cbv iota. rewrite digits_value_dec by done.
  destruct (zlen ds =? 0); [done|]. cbn [TYPE_SIGNED t_long]. fold (signed_value neg (dec 0 ds)). set (v := signed_value neg (dec 0 ds)). rewrite !zlen_app. unfold in_type, clamp. cbn [T_MINIMUM T_MAXIMUM t_long].
  destruct (Z.ltb_spec v LONG_MIN), (Z.ltb_spec LONG_MAX v), (Z.leb_spec LONG_MIN v), (Z.leb_spec v LONG_MAX); try (unfold LONG_MIN, LONG_MAX in *; lia); cbn [andb]; do 3 f_equal; unfold LONG_MIN, LONG_MAX in *; lia.
Qed.

Lemma read_sign_split s : exists sg, s = sg ++ (read_sign s).1.2 /\ (read_sign s).2 = zlen sg.
Proof. destruct s as [|c s]; [by exists []|]. cbn [read_sign]. destruct (c =? ch "-"); [by exists [c]|]. destruct (c =? ch "+"); [by exists [c]|by exists []]. Qed.

Lemma read_pid_ok arg : nul_free arg -> read_pid arg = Ok (pid_of arg).
Proof.
  intros Hn. unfold read_pid, pid_of. destruct (skip_spaces_split arg) as (sp & Es & Hsp). destruct (skip_spaces arg) as [s1 n1] eqn:E1. cbn [fst snd] in *. subst n1.
  destruct (read_sign_split s1) as (sg & Eg & Hg). destruct (read_sign s1) as [[neg s2] n2] eqn:E2. cbn [fst snd] in *. subst n2. destruct (split_decimals s2) as (ds & rest & -> & Hds & Hr).
  rewrite (strtol_parts arg sp neg sg s1 ds rest) by done. cbn [bind]. rewrite forallb_decimals by done.
  assert (rest <> [] -> forallb decimal_char rest = false /\ head_char rest <> 0) as Hrest.
  { intros Hne. subst s1. rewrite Es in Hn. apply Forall_app in Hn as [_ [_ [_ Hn]%Forall_app]%Forall_app]. destruct rest as [|c rest]; [done|]. apply Forall_cons in Hn as [Hc _]. split; [|done].
    cbn [forallb]. rewrite decimal_char_digit. unfold no_decimal in Hr. cbn [head_char] in Hr. by rewrite Hr. }
  pose proof (zlen_nonneg sp). pose proof (zlen_nonneg sg). destruct ds as [|d ds].
  - change (zlen [] =? 0) with true. cbv iota. cbn [app bind]. rewrite rd_cstr_first. cbn [bind]. change (0 =? 0) with true. rewrite orb_true_r. cbn [orb].
    destruct rest as [|c rest]; [done|]. destruct (Hrest ltac:(done)) as [-> _]. by rewrite andb_false_r.
  - pose proof (zlen_nonneg ds). rewrite zlen_cons, (proj2 (Z.eqb_neq (zlen ds + 1) 0)) by lia. cbn [bind].
    assert (rd (cstr arg) (zlen (sp ++ sg ++ d :: ds)) = Ok (head_char rest)) as ->. { rewrite Es, Eg. replace (sp ++ sg ++ (d :: ds) ++ rest) with ((sp ++ sg ++ d :: ds) ++ rest) by (by rewrite <- !app_assoc). by apply rd_cstr. }
    cbn [bind]. rewrite (proj2 (Z.eqb_neq (zlen (sp ++ sg ++ d :: ds)) 0)) by (rewrite !zlen_app, zlen_cons; lia). rewrite orb_false_r.
    destruct rest as [|c rest]; [|destruct (Hrest ltac:(done)) as [-> Hc0]; rewrite (proj2 (Z.eqb_neq _ 0) Hc0), orb_true_r, andb_false_r; done].
    change (head_char [] =? 0) with true. cbn [negb forallb]. rewrite orb_false_r, app_nil_r, andb_true_r. rewrite bool_decide_eq_false_2 by done. cbn [negb andb]. set (v := signed_value neg (dec 0 (d :: ds))).
    destruct (in_type t_long v) eqn:Ev.
    + rewrite clamp_in by done. cbn [orb]. unfold s32. destruct (Z.leb_spec INT_MIN v), (Z.leb_spec v INT_MAX); cbn [andb]; unfold INT_MIN, INT_MAX in *.
      * rewrite Z.mod_small by lia. rewrite (proj2 (Z.eqb_eq _ v)) by lia. cbn [negb]. f_equal. f_equal. lia.
      * rewrite (proj2 (Z.eqb_neq _ v)); [done|]. pose proof (Z.mod_pos_bound (v + 2147483648) 4294967296). lia.
      * rewrite (proj2 (Z.eqb_neq _ v)); [done|]. pose proof (Z.mod_pos_bound (v + 2147483648) 4294967296). lia.
      * lia.
    + cbn [orb]. apply in_type_false in Ev. cbn [T_MINIMUM T_MAXIMUM t_long] in Ev. unfold LONG_MIN, LONG_MAX, INT_MIN, INT_MAX in *. destruct (Z.leb_spec (-2147483648) v), (Z.leb_spec v 2147483647); cbn [andb]; [lia|done|done|done].
Qed.

(** ** Sending *)

Lemma send_signals_ok signum argv : forall status calls, argv <> [] -> Forall nul_free argv ->
  let sent := map (fun pid => (pid, signum)) (omap pid_of argv) in
  exists status', send_signals signum argv status calls = Ok (status', calls ++ sent) /\ (status' = status \/ status' = 1) /\
  (status <> 1 -> status' = status <-> Forall (fun arg => pid_of arg <> None) argv /\ forall k pid, omap pid_of argv !! k = Some pid -> kill (calls ++ take k sent) pid signum = true).
Proof.
  induction argv as [|arg argv IH]; intros status calls Hne Hn sent; [done|]. apply Forall_cons in Hn as [Ha Hn]. cbn [send_signals]. rewrite read_pid_ok by done. cbn [bind]. subst sent.
  set (st1 := match pid_of arg with Some pid => if kill calls pid signum then status else 1 | None => 1 end). set (c1 := calls ++ match pid_of arg with Some pid => [(pid, signum)] | None => [] end).
  assert (match pid_of arg with Some pid => ((if kill calls pid signum then status else 1), calls ++ [(pid, signum)]) | None => (1, calls) end = (st1, c1)) as -> by (unfold st1, c1; destruct (pid_of arg); [done|by rewrite app_nil_r]).
  assert (st1 = status \/ st1 = 1) as Hst by (unfold st1; destruct (pid_of arg); [destruct (kill _ _ _)|]; auto).
  assert (exists status', (match argv with [] => Ok (st1, c1) | _ => send_signals signum argv st1 c1 end) = Ok (status', c1 ++ map (fun pid => (pid, signum)) (omap pid_of argv)) /\ (status' = st1 \/ status' = 1) /\
    (st1 <> 1 -> status' = st1 <-> Forall (fun arg => pid_of arg <> None) argv /\ forall k pid, omap pid_of argv !! k = Some pid -> kill (c1 ++ take k (map (fun pid => (pid, signum)) (omap pid_of argv))) pid signum = true)) as (status' & -> & Hs1 & Hs2).
  { destruct argv as [|a argv]; [|by apply IH]. exists st1. cbn. rewrite app_nil_r. split; [done|]. split; [by left|]. intros _. split; [|done]. intros _. split; [constructor|]. by intros []. }
  exists status'. split; [unfold c1; cbn; rewrite <- app_assoc; by destruct (pid_of arg)|]. split; [destruct Hs1 as [-> | ->]; [exact Hst|by right]|]. intros Hs. unfold st1, c1 in *. cbn. destruct (pid_of arg) as [pid|] eqn:Ep; cbn.
  - destruct (kill calls pid signum) eqn:Ek.
    + rewrite (Hs2 Hs). rewrite Forall_cons. split.
      * intros [HF Hk]. split; [split; [congruence|done]|]. intros [|k] p Hp; cbn in Hp |- *; [simplify_eq; by rewrite app_nil_r|]. specialize (Hk k p Hp). by rewrite <- app_assoc in Hk.
      * intros [[_ HF] Hk]. split; [done|]. intros k p Hp. specialize (Hk (S k) p Hp). cbn in Hk. by rewrite <- app_assoc.
    + split; [intros ->; destruct Hs1; done|]. intros [_ Hk]. specialize (Hk 0%nat pid eq_refl). cbn in Hk. rewrite app_nil_r in Hk. congruence.
  - split; [intros ->; by destruct Hs1|]. intros [[Hc _]%Forall_cons _]. congruence.
Qed.

(** ** Listing *)

Definition name_of (n : Z) : list Z := default [] (sig2str n).

Lemma strtol_end s : exists n endp e, strtol t_long s 10 = Ok (n, endp, e) /\ 0 <= endp <= zlen s.
Proof.
  destruct (skip_spaces_split s) as (sp & Es & Hsp). destruct (skip_spaces s) as [s1 n1] eqn:E1. cbn [fst snd] in *. subst n1.
  destruct (read_sign_split s1) as (sg & Eg & Hg). destruct (read_sign s1) as [[neg s2] n2] eqn:E2. cbn [fst snd] in *. subst n2. destruct (split_decimals s2) as (ds & rest & -> & Hds & Hr).
  rewrite (strtol_parts s sp neg sg s1 ds rest) by done. destruct (zlen ds =? 0); do 3 eexists; (split; [reflexivity|]); [pose proof (zlen_nonneg s); lia|].
  rewrite Es, Eg, !zlen_app. pose proof (zlen_nonneg sp). pose proof (zlen_nonneg sg). pose proof (zlen_nonneg ds). pose proof (zlen_nonneg rest). lia.
Qed.

Lemma rd_cstr_total s i : 0 <= i <= zlen s -> exists c, rd (cstr s) i = Ok c.
Proof. intros Hi. rewrite rd_Ok by (rewrite zlen_cstr; lia). by eexists. Qed.

Lemma whole_number_total s : exists r, whole_number s = Ok r.
Proof. unfold whole_number. destruct (strtol_end s) as (n & endp & e & -> & He). cbn [bind]. destruct (rd_cstr_total s endp He) as [c ->]. by eexists. Qed.

Lemma str2sig_total s : exists r, str2sig s = Ok r.
Proof.
  unfold str2sig, str2signum. destruct (whole_number_total s) as [[? ?] E1], (whole_number_total (drop 5 s)) as [[? ?] E2]. rewrite E1, E2. cbn [bind].
  destruct (ISDIGIT _); [by eexists|]. destruct (name_lookup _ _); [by eexists|]. destruct (_ && _); [by eexists|]. destruct (_ && _); by eexists.
Qed.

(** An operand is refused or stands for a signal that has a name. *)
Lemma operand_signal_total s : exists r, operand_signal s = Ok r /\ forall n name, r = Some (n, name) -> sig2str n = Some name.
Proof.
  assert (exists n, operand2sig s = Ok n /\ (n = -1 \/ 0 <= n /\ is_Some (sig2str n))) as (n & E & Hn).
  { unfold operand2sig. assert (forall m, exists n, Ok (if m <? 0 then -1 else match sig2str m with Some _ => m | None => -1 end) = Ok n /\ (n = -1 \/ 0 <= n /\ is_Some (sig2str n))) as Hm.
    { intros m. eexists. split; [reflexivity|]. destruct (Z.ltb_spec m 0); [by left|]. destruct (sig2str m) eqn:E; [right|by left]. split; [done|]. by rewrite E. }
    destruct (ISDIGIT (head_char s)).
    - destruct (strtol_end s) as (n & endp & e & -> & He). cbn [bind]. destruct (rd_cstr_total s endp He) as [c ->]. cbn [bind]. apply Hm.
    - destruct (str2sig_total (map upcase s)) as [[r n] ->], (str2sig_total (drop 3 (map upcase s))) as [[r' n'] E']. cbn [bind]. destruct (r =? 0); cbn [bind]; [apply Hm|]. destruct (bool_decide _); cbn [bind]; [|apply Hm]. rewrite E'. cbn [bind]. apply Hm. }
  unfold operand_signal. rewrite E. cbn [bind]. destruct Hn as [-> |[H0 [name Hs]]]; [by exists None|]. rewrite (proj2 (Z.ltb_ge n 0)), Hs by done. eexists. split; [done|]. by intros ? ? [= <- <-].
Qed.

(** One signal in both directions. *)
Definition both_ways (n : Z) : bool :=
  match sig2str n with
  | None => true
  | Some name => bool_decide (operand2sig name = Ok n) && bool_decide (operand2sig (decimal n) = Ok n) && negb (ISDIGIT (head_char name)) && ISDIGIT (head_char (decimal n)) && (zlen name <=? 8) && (zlen (decimal n) <=? 2)
  end.

Lemma both_ways_all n name : sig2str n = Some name ->
  operand_signal name = Ok (Some (n, name)) /\ operand_signal (decimal n) = Ok (Some (n, name)) /\ ISDIGIT (head_char name) = false /\ ISDIGIT (head_char (decimal n)) = true /\ zlen name <= 8 /\ zlen (decimal n) <= 2.
Proof.
  intros E. pose proof (sig2str_range n name E) as Hr. assert (forallb both_ways (seqZ 0 65) = true) as H by (vm_compute; reflexivity). rewrite forallb_forall in H. specialize (H n). unfold both_ways in H. rewrite E in H.
  assert (In n (seqZ 0 65)) as Hin by (apply list_elem_of_In, elem_of_seqZ; lia). specialize (H Hin). rewrite !andb_true_iff, !bool_decide_eq_true, negb_true_iff, !Z.leb_le in H. destruct H as (((((H1 & H2) & H3) & H4) & H5) & H6).
  unfold operand_signal. rewrite H1, H2. cbn [bind]. rewrite (proj2 (Z.ltb_ge n 0)), E by lia. done.
Qed.

Lemma list_operands_ok row f ns : forall status lines, (forall n, n ∈ ns -> exists name, sig2str n = Some name /\ operand_signal (f n) = Ok (Some (n, name))) ->
  list_operands row (map f ns) status lines = Ok (status, lines ++ map (fun n => row (f n) n (name_of n)) ns).
Proof.
  induction ns as [|n ns IH]; intros status lines Hns; cbn [map list_operands]; [by rewrite app_nil_r|]. destruct (Hns n) as (name & E & ->); [by left|]. cbn [bind]. rewrite IH by (intros m Hm; apply Hns; by right).
  assert (name_of n = name) as -> by (unfold name_of; by rewrite E). by rewrite <- app_assoc.
Qed.

(** The rows of a table. *)
Definition row_at (column : Z) (line : list Z) : Prop := exists n pre, is_Some (sig2str n) /\ line = pre ++ default (bytes "?") (strsignal n) /\ zlen pre = column.

Lemma table_row_at n name : sig2str n = Some name -> row_at 12 (print_table_row 2 n 8 name).
Proof.
  intros E. destruct (both_ways_all n name E) as (_ & _ & _ & _ & H1 & H2). exists n. unfold print_table_row, pad_left, pad_right. eexists. split; [by rewrite E|]. split; [by rewrite !app_assoc|]. rewrite !zlen_app.
  rewrite !(zlen_replicate _ 32) by lia. change (zlen (bytes " ")) with 1. lia.
Qed.

Lemma list_operands_rows row argv : (forall arg n name, sig2str n = Some name -> row_at 12 (row arg n name)) -> forall status lines, Forall (row_at 12) lines ->
  exists status' lines', list_operands row argv status lines = Ok (status', lines') /\ Forall (row_at 12) lines'.
Proof.
  intros Hrow. induction argv as [|arg argv IH]; intros status lines Hl; cbn [list_operands]; [by exists status, lines|]. destruct (operand_signal_total arg) as (r & -> & Hr). cbn [bind]. destruct r as [[n name]|]; [|by apply IH].
  apply IH, Forall_app. split; [done|]. constructor; [|constructor]. by apply Hrow, Hr.
Qed.

Lemma list_all_rows : exists lines, list_all (fun signum signame => print_table_row 2 signum 8 signame) = Ok lines /\ Forall (row_at 12) lines.
Proof.
  unfold list_all. apply wp_exists. apply (wp_for_up (fun _ lines => Forall (row_at 12) lines)); [constructor| |done].
  intros n lines _ Hl. cbn. destruct (sig2str n) as [name|] eqn:E; [|done]. apply Forall_app. split; [done|]. constructor; [by apply table_row_at|constructor].
Qed.
End kill.

(** kill sends its signal, SIGTERM if none is given, to exactly the operands that are
    decimal numbers in the range of an int, in their order, and goes on after a
    failure; its exit status is 0 if and only if all operands were such numbers and
    all calls succeeded.  kill -l lists the names of the signals 1..31 and 34..64,
    and turns names into numbers and numbers into names, one line each; in the table
    of kill -t all descriptions start in the same column, whatever the operands. *)
Theorem kill_correct strsignal kill :
  (forall signum operands, operands <> [] -> Forall nul_free operands ->
    let sig := if signum <? 0 then SIGTERM else signum in
    exists status, kill_main strsignal kill signum false false operands = Ok (status, [], map (fun pid => (pid, sig)) (omap pid_of operands)) /\ (status = 0 \/ status = 1) /\
    (status = 0 <-> Forall (fun arg => pid_of arg <> None) operands /\
      forall k pid, omap pid_of operands !! k = Some pid -> kill (map (fun pid => (pid, sig)) (take k (omap pid_of operands))) pid sig = true)) /\
  kill_main strsignal kill (-1) true false [] = Ok (0, map name_of (seqZ 1 31 ++ seqZ 34 31), []) /\
  (forall ns, ns <> [] -> Forall (fun n => 0 <= n <= 31 \/ 34 <= n <= 64) ns ->
    kill_main strsignal kill (-1) true false (map name_of ns) = Ok (0, map decimal ns, []) /\
    kill_main strsignal kill (-1) true false (map decimal ns) = Ok (0, map name_of ns, [])) /\
  (forall operands, exists status lines, kill_main strsignal kill (-1) true true operands = Ok (status, lines, []) /\ Forall (row_at strsignal 12) lines).
Proof.
  split_and!.
  - intros signum operands Hne Hn sig. unfold kill_main. rewrite andb_false_r. cbn [negb andb]. rewrite bool_decide_eq_false_2 by done. destruct (send_signals_ok kill sig operands 0 [] Hne Hn) as (status & E & Hs & Hiff).
    fold sig. rewrite E. cbn [bind app]. exists status. split; [done|]. split; [done|]. rewrite Hiff by done. cbn [app]. split; intros [HF Hk]; (split; [done|]); intros k pid Hp; specialize (Hk k pid Hp); by rewrite ?firstn_map in *.
  - vm_compute. reflexivity.
  - intros ns Hne Hns. assert (forall n, n ∈ ns -> exists name, sig2str n = Some name) as Hsig.
    { intros n Hin. rewrite Forall_forall in Hns. specialize (Hns n Hin). pose proof (number_ok_all n ltac:(lia)) as Hok. unfold number_ok in Hok. destruct (sig2str n) as [name|]; [by exists name|]. lia. }
    assert (forall f, map f ns <> []) as Hmap by (intros f; by destruct ns).
    assert (forall f, kill_main strsignal kill (-1) true false (map f ns) = let* (status, lines) := list_operands (fun arg signum signame => if ISDIGIT (head_char arg) then signame else decimal signum) (map f ns) 0 [] in Ok (status, lines, [])) as Hm by (intros f; by destruct ns).
    rewrite !Hm. split.
    + rewrite (list_operands_ok _ name_of) by (intros n Hin; destruct (Hsig n Hin) as [name E]; exists name; split; [done|]; unfold name_of; rewrite E; by apply both_ways_all). cbn [bind app]. do 3 f_equal. apply map_ext_in. intros n Hin%list_elem_of_In.
      destruct (Hsig n Hin) as [name E]. unfold name_of. rewrite E. cbn [default from_option id]. destruct (both_ways_all n name E) as (_ & _ & -> & _). done.
    + rewrite (list_operands_ok _ decimal) by (intros n Hin; destruct (Hsig n Hin) as [name E]; exists name; split; [done|]; by apply both_ways_all). cbn [bind app]. do 3 f_equal. apply map_ext_in. intros n Hin%list_elem_of_In.
      destruct (Hsig n Hin) as [name E]. destruct (both_ways_all n name E) as (_ & _ & _ & -> & _). done.
  - intros operands. unfold kill_main, list_signals. cbn [Z.leb andb negb Z.compare]. replace number_width with (Ok 2 : res Z) by (vm_compute; reflexivity). replace names_width with (Ok 8 : res Z) by (vm_compute; reflexivity). cbn [bind].
    destruct operands as [|o operands].
    + destruct (list_all_rows strsignal) as (lines & -> & Hl). by exists 0, lines.
    + destruct (list_operands_rows strsignal (fun _ signum signame => print_table_row strsignal 2 signum 8 signame) (o :: operands)) with (status := 0) (lines := @nil (list Z)) as (status & lines & -> & Hl); [|constructor|by exists status, lines].
      intros _ n name. apply table_row_at.
Qed.
