(* ===== verification/FtsCycle.v ===== *)
(** * Directory cycles: utils/coreutils/lib/fts-cycle.c and cycle-check.c

    How a tree walk notices that it is in a cycle of directories: lazily, by
    comparing with one remembered directory, or tightly, with a hash table of the
    directories it is in.  The memory of the records Active_dir is a map from
    addresses, as in FileSet.v; entries of the walk are their addresses. *)

From S2P Require Import Prelude Arrays Heap HashSizes GnuHash.
Open Scope Z_scope.

Record dev_ino := DevIno { st_ino : Z; st_dev : Z }.
#[export] Instance dev_ino_eq_dec : EqDecision dev_ino.
Proof. solve_decision. Defined.

Definition SAME_INODE (a b : dev_ino) : bool := (st_ino a =? st_ino b) && (st_dev a =? st_dev b).

(** ** The lazy check *)

Record cycle_check_state := CycleState { recorded : dev_ino; chdir_counter : Z; magic : Z }.

(** CC_MAGIC of cycle-check.c and of fts-cycle.c, which differ. *)
Definition CC_MAGIC_init : Z := 9827862.
Definition CC_MAGIC : Z := 9828862.

Definition cycle_check_init (state : cycle_check_state) : cycle_check_state := CycleState (recorded state) 0 CC_MAGIC_init.

Definition is_zero_or_power_of_two (i : Z) : bool := Z.land i (u64 (i - 1)) =? 0.

(** [ndebug]: whether NDEBUG is defined, which takes away the assertion. *)
Definition cycle_check (ndebug : bool) (state : cycle_check_state) (sb : dev_ino) : res (bool * cycle_check_state) :=
  let* _ := demand (ndebug || (magic state =? CC_MAGIC)) AssertFail in
  if negb (chdir_counter state =? 0) && SAME_INODE sb (recorded state) then Ok (true, state)
  else
    let counter := u64 (chdir_counter state + 1) in
    let state := CycleState (recorded state) counter (magic state) in
    if is_zero_or_power_of_two counter then
      if counter =? 0 then Ok (true, state) else Ok (false, CycleState (DevIno (st_ino sb) (st_dev sb)) counter (magic state))
    else Ok (false, state).

(** The macro of fts-cycle.h. *)
Definition CYCLE_CHECK_REFLECT_CHDIR_UP (state : cycle_check_state) (sb_dir sb_subdir : dev_ino) : res cycle_check_state :=
  let* _ := demand (negb (chdir_counter state =? 0)) Aborted in
  Ok (if SAME_INODE (recorded state) sb_subdir then CycleState (DevIno (st_ino sb_subdir) (st_dev sb_subdir)) (chdir_counter state) (magic state) else state).

(** ** Both checks *)

Record Active_dir := ActiveDir { ad_dir : dev_ino; fts_ent : Z }.
Abbreviation dirs := (gmap Z Active_dir).

(** A read through a pointer to a record. *)
Definition ad_deref (m : dirs) (p : Z) : res Active_dir :=
  if p =? 0 then Fail NullDeref else match m !! p with Some a => Ok a | None => Fail Dangling end.

Definition AD_compare (m : dirs) (x y : Z) : res bool :=
  let* ax := ad_deref m x in
  let* ay := ad_deref m y in
  Ok ((st_ino (ad_dir ax) =? st_ino (ad_dir ay)) && (st_dev (ad_dir ax) =? st_dev (ad_dir ay))).

Definition AD_hash (m : dirs) (x table_size : Z) : res Z :=
  let* ax := ad_deref m x in
  let* _ := demand (negb (table_size =? 0)) DivByZero in
  Ok (u64 (st_ino (ad_dir ax)) mod table_size).

(** The union [fts_cycle], by the options of the walk. *)
Inductive fts_cycle := Tight (ht : Hash_table) | Lazy (state : cycle_check_state).

(** The memory: the records and the heap of the table. *)
Record memory := Memory { records : dirs; table_heap : heap hash_entry }.

(** An address that is not in use. *)
Definition ad_address (m : dirs) : Z := fresh ({[0]} ∪ dom m : gset Z).

(** A directory of the walk: its address, its device and inode, and its parent
    with its level. *)
Record FTSENT := Ent { ent : Z; fts_statp : dev_ino; fts_parent : option (dev_ino * Z) }.

Section fts.
Context (ndebug : bool) (malloc_ok : nat -> bool) (prime_fuel : nat).

Definition HT_INITIAL_SIZE : Z := 31.

(** [None] is the result false; [garbage] is what malloc returns in the record. *)
Definition setup_dir (tight : bool) (garbage : cycle_check_state) (m : memory) : res (option fts_cycle * memory) :=
  if tight then
    let* (ht, h) := hash_initialize malloc_ok prime_fuel HT_INITIAL_SIZE None (table_heap m) in
    Ok (match ht with Some ht => Some (Tight ht) | None => None end, Memory (records m) h)
  else
    let '(state, h) := request malloc_ok (table_heap m) in
    let m := Memory (records m) h in
    Ok (if negb (is_null state) then Some (Lazy (cycle_check_init garbage)) else None, m).

(** The result, the walk, the memory, and the new [fts_cycle] of the entry, which
    makes its [fts_info] FTS_DC. *)
Definition enter_dir (fts : fts_cycle) (e : FTSENT) (m : memory) : res (bool * fts_cycle * memory * option Z) :=
  match fts with
  | Tight ht =>
      let '(ok, h) := (malloc_ok (calls (table_heap m)), Heap (cells (table_heap m)) (S (calls (table_heap m)))) in
      if negb ok then Ok (false, fts, Memory (records m) h, None)
      else
        let ad := ad_address (records m) in
        let rs := <[ad := ActiveDir (fts_statp e) (ent e)]> (records m) in
        let* (ad_from_table, ht, h) := hash_insert malloc_ok prime_fuel (AD_hash rs) (AD_compare rs) ht ad h in
        if negb (ad_from_table =? ad) then
          let rs := delete ad rs in
          if ad_from_table =? 0 then Ok (false, Tight ht, Memory rs h, None)
          else let* a := ad_deref rs ad_from_table in Ok (true, Tight ht, Memory rs h, Some (fts_ent a))
        else Ok (true, Tight ht, Memory rs h, None)
  | Lazy state =>
      let* (found, state) := cycle_check ndebug state (fts_statp e) in
      Ok (true, Lazy state, m, if found : bool then Some (ent e) else None)
  end.

Definition leave_dir (fts : fts_cycle) (e : FTSENT) (m : memory) : res (fts_cycle * memory) :=
  match fts with
  | Tight ht =>
      let obj := ad_address (records m) in
      let rs := <[obj := ActiveDir (fts_statp e) 0]> (records m) in
      let* (found, ht, h) := hash_delete malloc_ok prime_fuel (AD_hash rs) (AD_compare rs) ht obj (table_heap m) in
      let* _ := demand (negb (found =? 0)) Aborted in
      Ok (Tight ht, Memory (delete found (records m)) h)
  | Lazy state =>
      match fts_parent e with
      | Some (parent, level) => if 0 <=? level then let* state := CYCLE_CHECK_REFLECT_CHDIR_UP state parent (fts_statp e) in Ok (Lazy state, m) else Ok (fts, m)
      | None => Ok (fts, m)
      end
  end.

(** Without the call [free] of the state, which has no effect here; the table's
    entries are freed with it. *)
Definition free_dir (fts : fts_cycle) (m : memory) : res memory :=
  match fts with
  | Tight ht => let* (h, freed) := hash_free true ht (table_heap m) in Ok (Memory (foldr delete (records m) freed) h)
  | Lazy _ => Ok m
  end.
End fts.

(** ** The lazy check finds cycles *)

(** Going down the directories [f i], [f (i + 1)], ..., at most [n] of them: the
    number of the first one at which a cycle is reported. *)
Fixpoint descend (ndebug : bool) (n : nat) (f : nat -> dev_ino) (i : nat) (state : cycle_check_state) : res (option nat) :=
  match n with
  | O => Ok None
  | S n =>
      let* (found, state) := cycle_check ndebug state (f i) in
      if found : bool then Ok (Some i) else descend ndebug n f (S i) state
  end.

Lemma SAME_INODE_spec a b : SAME_INODE a b = true <-> a = b.
Proof. unfold SAME_INODE. destruct a, b. cbn. rewrite andb_true_iff, !Z.eqb_eq. split; [intros []; congruence|by intros [= -> ->]]. Qed.

Lemma power_test n : (0 < n)%nat -> Z.of_nat n < 2 ^ 64 -> is_zero_or_power_of_two (Z.of_nat n) = true <-> n = (2 ^ Nat.log2 n)%nat.
Proof.
  intros Hn Hb. unfold is_zero_or_power_of_two, u64. rewrite Z.mod_small by (change (2 ^ 64) with 18446744073709551616 in Hb; lia). rewrite Z.eqb_eq. pose proof (Nat.log2_spec n Hn) as [H1 H2].
  assert (forall k, Z.of_nat (2 ^ k)%nat = 2 ^ Z.of_nat k) as Hp by (intros k; by rewrite Nat2Z.inj_pow). set (k := Nat.log2 n) in *. split.
  - intros H0. destruct (Nat.eq_dec n (2 ^ k)%nat) as [|Hne]; [done|]. exfalso.
    assert (forall z, 2 ^ Z.of_nat k <= z < 2 ^ (Z.of_nat k + 1) -> Z.testbit z (Z.of_nat k) = true) as Ht.
    { intros z Hz. rewrite <- (Z.log2_unique z (Z.of_nat k)) by lia. apply Z.bit_log2. pose proof (Z.pow_pos_nonneg 2 (Z.of_nat k)). lia. }
    assert (2 ^ (Z.of_nat k + 1) = Z.of_nat (2 ^ S k)%nat) as E by (rewrite Hp; f_equal; lia).
    assert (Z.testbit (Z.land (Z.of_nat n) (Z.of_nat n - 1)) (Z.of_nat k) = true) as Hl by (rewrite Z.land_spec, !Ht by (rewrite E, <- Hp; lia); done). by rewrite H0, Z.bits_0 in Hl.
  - clearbody k. intros ->. rewrite Hp. rewrite Z.sub_1_r, <- Z.ones_equiv, Z.land_ones, Z.mod_same; [done|pose proof (Z.pow_pos_nonneg 2 (Z.of_nat k)); lia|lia].
Qed.

Section descent.
Context (f : nat -> dev_ino) (garbage : cycle_check_state).

(** The state before the directory number [i], without assertions. *)
Definition state_at (i : nat) : cycle_check_state := CycleState (match i with O => recorded garbage | _ => f (2 ^ Nat.log2 i - 1)%nat end) (Z.of_nat i) CC_MAGIC_init.
Definition alarm (i : nat) : bool := match i with O => false | _ => SAME_INODE (f i) (f (2 ^ Nat.log2 i - 1)%nat) end.

Lemma cycle_check_step i : Z.of_nat (S i) < 2 ^ 64 -> cycle_check true (state_at i) (f i) = Ok (if alarm i then (true, state_at i) else (false, state_at (S i))).
Proof.
  intros Hb. unfold cycle_check. cbn [state_at magic chdir_counter recorded orb demand bind].
  assert (negb (Z.of_nat i =? 0) && SAME_INODE (f i) (match i with O => recorded garbage | _ => f (2 ^ Nat.log2 i - 1)%nat end) = alarm i) as -> by (destruct i; [done|]; rewrite (proj2 (Z.eqb_neq _ 0)) by lia; done).
  destruct (alarm i); [done|]. replace (u64 (Z.of_nat i + 1)) with (Z.of_nat (S i)) by (unfold u64; rewrite Z.mod_small; change (2 ^ 64) with 18446744073709551616 in Hb; lia).
  pose proof (power_test (S i) ltac:(lia) Hb) as Hp. rewrite (proj2 (Z.eqb_neq (Z.of_nat (S i)) 0)) by lia. destruct (is_zero_or_power_of_two (Z.of_nat (S i))).
  - f_equal. f_equal. unfold state_at. f_equal. rewrite <- (proj1 Hp eq_refl). replace (S i - 1)%nat with i by lia. by destruct (f i).
  - f_equal. f_equal. unfold state_at. f_equal. assert (i <> 0%nat) as Hi by (intros ->; by specialize (proj2 Hp eq_refl)).
    assert (Nat.log2 (S i) = Nat.log2 i) as ->; [|by destruct i]. destruct (Nat.log2_succ_or i) as [E|]; [|done]. apply Nat.log2_eq_succ_is_pow2 in E as [b Eb].
    rewrite Eb in Hp. rewrite Nat.log2_pow2 in Hp by lia. by specialize (proj2 Hp eq_refl).
Qed.

Lemma descend_alarm n : forall i, Z.of_nat (i + n) < 2 ^ 64 ->
  exists r, descend true n f i (state_at i) = Ok r /\ match r with Some k => (i <= k < i + n)%nat /\ alarm k = true | None => forall k, (i <= k < i + n)%nat -> alarm k = false end.
Proof.
  induction n as [|n IH]; intros i Hb; cbn [descend]; [exists None; split; [done|lia]|]. rewrite cycle_check_step by lia. cbn [bind]. destruct (alarm i) eqn:Ea; [exists (Some i); split; [done|]; split; [lia|done]|].
  destruct (IH (S i)) as (r & -> & Hr); [lia|]. exists r. split; [done|]. destruct r as [k|]; [destruct Hr; split; [lia|done]|]. intros k Hk. destruct (Nat.eq_dec k i) as [->|]; [done|]. apply Hr. lia.
Qed.

Lemma alarm_cycle m l : (0 < l)%nat -> (forall n, (m <= n)%nat -> f (n + l) = f n) -> let N := Nat.max (m + 1) l in exists k, (k < 3 * N)%nat /\ alarm k = true.
Proof.
  intros Hl Hf N. set (b := Nat.log2_up N). assert (N <= 2 ^ b /\ 2 ^ b < 2 * N)%nat as [H1 H2].
  { subst b. destruct (Nat.eq_dec N 1%nat) as [->|]; [cbn; lia|]. pose proof (Nat.log2_up_spec N ltac:(lia)) as [Ha Hb]. split; [done|]. assert (0 < Nat.log2_up N)%nat as Hp by (apply Nat.log2_up_pos; lia).
    rewrite <- (Nat.succ_pred_pos _ Hp), Nat.pow_succ_r'. lia. }
  exists (2 ^ b - 1 + l)%nat. split; [lia|]. unfold alarm. assert (Nat.log2 (2 ^ b - 1 + l) = b) as -> by (apply Nat.log2_unique; [lia|rewrite Nat.pow_succ_r'; lia]). destruct (2 ^ b - 1 + l)%nat eqn:E; [lia|]. rewrite <- E. apply SAME_INODE_spec, Hf. lia.
Qed.
End descent.

(** C24. What the lazy check does from the state that cycle_check_init makes, whatever memory malloc gave for it.  Compiled with NDEBUG it is a
    sound and complete detector of cycles, for
    fewer than 2^64 directories: going down a
    sequence of directories it reports only a directory that was passed before, so
    nothing on a path of distinct directories, and when the sequence runs into a
    cycle of length [l] after [m] directories it reports within 3 * max(m + 1, l)
    steps.  With assertions it stops the program at the first directory of every walk, because the two
    files have different magic numbers. *)
Theorem cycle_check_detects f garbage n : let state := cycle_check_init garbage in Z.of_nat n < 2 ^ 64 ->
  descend false (S n) f 0 state = Fail AssertFail /\
  exists r, descend true n f 0 state = Ok r /\
  (forall k, r = Some k -> (k < n)%nat /\ exists j, (j < k)%nat /\ f j = f k) /\
  (forall m l, (0 < l)%nat -> (forall i, (m <= i)%nat -> f (i + l)%nat = f i) -> (3 * Nat.max (m + 1) l <= n)%nat -> exists k, r = Some k).
Proof.
  intros state Hn. split; [done|]. destruct (descend_alarm f garbage n 0) as (r & E & Hr); [done|]. exists r. split; [exact E|]. split.
  - intros k ->. destruct Hr as [Hk Ha]. split; [lia|]. destruct k as [|k]; [done|]. exists (2 ^ Nat.log2 (S k) - 1)%nat. pose proof (Nat.log2_spec (S k) ltac:(lia)). split; [lia|]. symmetry. by apply SAME_INODE_spec.
  - intros m l Hl Hf H3. destruct (alarm_cycle f m l Hl Hf) as (k & Hk & Ha). destruct r as [k'|]; [by exists k'|]. rewrite Hr in Ha; [done|lia].
Qed.

(** A path of three directories into a cycle of two. *)
Definition rho (i : nat) : dev_ino := DevIno (if decide (i < 3)%nat then Z.of_nat i else 100 + Z.of_nat (i mod 2)) 1.

Definition unset : cycle_check_state := CycleState (DevIno 0 0) 0 0.

Lemma cycle_check_detects_witness : descend true 12 rho 0 (cycle_check_init unset) = Ok (Some 5%nat) /\
  descend false 13 rho 0 (cycle_check_init unset) = Fail AssertFail /\ exists k, descend true 12 rho 0 (cycle_check_init unset) = Ok (Some k).
Proof.
  split; [vm_compute; reflexivity|]. destruct (cycle_check_detects rho unset 12) as (Ea & r & E & _ & H); [done|]. split; [exact Ea|]. destruct (H 3%nat 2%nat) as [k Hk]; [lia| |cbn; lia|exists k; by rewrite <- Hk].
  intros i Hi. unfold rho. rewrite !decide_False by lia. by rewrite <- Nat.Div0.add_mod_idemp_r, Nat.add_0_r.
Defined.

(** ** What the walk does with it *)

Lemma ad_address_ok m : ad_address m <> 0 /\ m !! ad_address m = None.
Proof. pose proof (is_fresh ({[0]} ∪ dom m : gset Z)) as Hf. fold (ad_address m) in Hf. split; [set_solver|]. apply not_elem_of_dom. set_solver. Qed.

Lemma initialize_empty malloc_ok prime_fuel candidate tn h t h' : 0 <= candidate -> hash_initialize malloc_ok prime_fuel candidate tn h = Ok (Some t, h') ->
  0 < n_buckets t /\ zlen (bucket t) = n_buckets t /\ Forall (fun b => data b = 0) (bucket t).
Proof.
  intros Hc (n & p & ls & lb & En & Hn0 & ->)%initialize_made. pose proof (compute_bucket_size_nonneg _ _ _ _ Hc En) as Hn. cbn [n_buckets bucket].
  split; [lia|]. split; [by rewrite zlen_replicate by lia|]. by apply Forall_replicate.
Qed.

(** Neither check survives its first directory, the lazy one if there are assertions: the two files disagree on the magic
    number, so that the assertion fails, and AD_compare reads through the NULL of an
    empty bucket; only if malloc fails does enter_dir return (false). *)
Theorem first_directory_faults malloc_ok prime_fuel tight garbage m fts m' e :
  setup_dir malloc_ok prime_fuel tight garbage m = Ok (Some fts, m') ->
  enter_dir false malloc_ok prime_fuel fts e m' =
  if tight then if malloc_ok (calls (table_heap m')) then Fail NullDeref else Ok (false, fts, Memory (records m') (Heap (cells (table_heap m')) (S (calls (table_heap m')))), None)
  else Fail AssertFail.
Proof.
  unfold setup_dir. destruct tight.
  - intros ([[t|] h] & Ei & E)%bind_Ok_inv; [|done]. injection E as <- <-. apply initialize_empty in Ei as (Hn & Hl & He); [|done]. cbn [enter_dir table_heap records]. destruct (malloc_ok (calls h)); [|done]. cbn [negb].
    set (rs := <[ad_address (records m) := ActiveDir (fts_statp e) (ent e)]> (records m)). destruct (ad_address_ok (records m)) as [H0 _].
    assert (ad_deref rs (ad_address (records m)) = Ok (ActiveDir (fts_statp e) (ent e))) as Hd by (unfold ad_deref; rewrite (proj2 (Z.eqb_neq _ _) H0); subst rs; by rewrite lookup_insert_eq).
    rewrite (insert_empty_faults _ _ _ _ _ _ _ (u64 (st_ino (fts_statp e)) mod n_buckets t) NullDeref); [done|done| | |done|done|].
    + unfold AD_hash. rewrite Hd. cbn [bind ad_dir]. rewrite (proj2 (Z.eqb_neq (n_buckets t) 0)) by lia. done.
    + by apply Z.mod_pos_bound.
    + unfold AD_compare. by rewrite Hd.
  - destruct (request _ _) as [[|] h]; [|done]. by intros [= <- <-].
Qed.

Lemma first_directory_faults_witness :
  let m := Memory ∅ (Heap ∅ 0) in
  (exists fts m', setup_dir (fun _ => true) 40 true (CycleState (DevIno 0 0) 0 0) m = Ok (Some fts, m') /\ enter_dir false (fun _ => true) 40 fts (Ent 8 (DevIno 2 1) None) m' = Fail NullDeref) /\
  exists fts m', setup_dir (fun _ => true) 40 false (CycleState (DevIno 0 0) 0 0) m = Ok (Some fts, m') /\ enter_dir false (fun _ => true) 40 fts (Ent 8 (DevIno 2 1) None) m' = Fail AssertFail.
Proof.
  intros m. split; do 2 eexists; (split; [vm_compute; reflexivity|]).
  - by rewrite (first_directory_faults (fun _ => true) 40 true (CycleState (DevIno 0 0) 0 0) m) by (vm_compute; reflexivity).
  - by rewrite (first_directory_faults (fun _ => true) 40 false (CycleState (DevIno 0 0) 0 0) m) by (vm_compute; reflexivity).
Defined.

(** Going up changes nothing: the macro stores the directory that is left instead of
    its parent. *)
Lemma reflect_is_idle state parent sub : chdir_counter state <> 0 -> CYCLE_CHECK_REFLECT_CHDIR_UP state parent sub = Ok state.
Proof.
  intros Hc. unfold CYCLE_CHECK_REFLECT_CHDIR_UP. rewrite (proj2 (Z.eqb_neq _ _) Hc). cbn [negb demand bind]. destruct (SAME_INODE (recorded state) sub) eqn:E; [|done]. apply SAME_INODE_spec in E. subst. by destruct state as [[] ? ?].
Qed.
