(* ===== verification/Subsequence.v ===== *)
(** * Non-decreasing subsequences: algorithms/c/misc/LongestSubSequence.c

    The recursion of longestSub on arrays that realloc makes; a loop that copies
    the result reuses the counter of the loop around it. *)

From S2P Require Import Prelude Arrays.
Open Scope Z_scope.

(** The elements from [from] on that are at least [x]. *)
Definition collect (ARRAY : list Z) (from x : Z) : res (list Z) :=
  for_up from (zlen ARRAY) (fun j T => let* v := rd ARRAY j in Ok (if x <=? v then T ++ [v] else T)) [].

(** [LONGEST_SUB] gets room for one more than [T], then [x] and the elements of
    [T]. *)
Definition extend (LONGEST_SUB : list (option Z)) (x : Z) (T : list Z) : res (list (option Z)) :=
  let n := zlen T + 1 in
  let L := take (Z.to_nat n) (LONGEST_SUB ++ uninit n) in
  let* L := wr L 0 (Some x) in
  for_up 1 n (fun i L => let* v := rd T (i - 1) in wr L i (Some v)) L.

(** One turn of the first loop, with its counter: when the longest subsequence is
    replaced, the copying leaves the counter at its length. *)
Definition pivot_turn (rec : list Z -> res (list Z)) (ARRAY : list Z) (PIVOT : Z) (st : Z * list (option Z)) : res (Z * list (option Z)) :=
  let '(i, LONGEST_SUB) := st in
  let* x := rd ARRAY i in
  if x <? PIVOT then
    let* T := collect ARRAY (i + 1) x in
    let* T := rec T in
    if zlen LONGEST_SUB <? zlen T + 1 then
      let* L := extend LONGEST_SUB x T in
      Ok (zlen T + 1 + 1, L)
    else Ok (i + 1, LONGEST_SUB)
  else Ok (i + 1, LONGEST_SUB).

Definition turns (n : nat) : nat := S ((n + 2) * (n + 2)).

Fixpoint longestSub (fuel : nat) (ARRAY : list Z) : res (list Z) :=
  match fuel with
  | O => Fail NoFuel
  | S fuel =>
      if zlen ARRAY <=? 1 then Ok ARRAY
      else
        let* PIVOT := rd ARRAY 0 in
        let* (_, LONGEST_SUB) := while (turns (length ARRAY)) (fun '(i, _) => Ok (i <? zlen ARRAY)) (pivot_turn (longestSub fuel) ARRAY PIVOT) (1, []) in
        let* T := collect ARRAY 1 PIVOT in
        let* T := longestSub fuel T in
        let* LONGEST_SUB := if zlen LONGEST_SUB <? zlen T + 1 then extend LONGEST_SUB PIVOT T else Ok LONGEST_SUB in
        contents LONGEST_SUB
  end.

(** The array of main. *)
Definition EXAMPLE : list Z := [18; 2; 15; 4; 30; 0; 11; 12].

Definition longest_main : res (list Z) := longestSub (S (length EXAMPLE)) EXAMPLE.

(** ** Results are non-decreasing subsequences *)

Lemma collect_ok ARRAY pre post x : ARRAY = pre ++ post -> collect ARRAY (zlen pre) x = Ok (filter (fun v => x <= v) post).
Proof.
  intros ->. unfold collect, for_up. replace (Z.to_nat (zlen (pre ++ post) - zlen pre)) with (length post) by (rewrite zlen_app; unfold zlen; lia).
  assert (forall T, for_n (length post) (zlen pre) (fun j T => let* v := rd (pre ++ post) j in Ok (if x <=? v then T ++ [v] else T)) T = Ok (T ++ filter (fun v => x <= v) post)) as H; [|apply (H [])].
  revert pre. induction post as [|v post IH]; intros pre T; cbn [length for_n]; [by rewrite app_nil_r|]. rewrite rd_middle by done. cbn [bind]. rewrite (cons_middle v pre post), app_assoc, <- (zlen_snoc v pre), IH. rewrite filter_cons.
  destruct (Z.leb_spec x v); [rewrite decide_True by lia; by rewrite <- app_assoc|by rewrite decide_False by lia].
Qed.

Lemma extend_ok L x T : extend L x T = Ok (map Some (x :: T)).
Proof.
  unfold extend. pose proof (zlen_nonneg T) as Hz. assert (exists c cs, take (Z.to_nat (zlen T + 1)) (L ++ uninit (zlen T + 1)) = c :: cs /\ length cs = length T) as (c & cs & -> & Hl).
  { assert (length (take (Z.to_nat (zlen T + 1)) (L ++ uninit (zlen T + 1))) = S (length T)) as Hl by (rewrite length_take, length_app; unfold uninit; rewrite length_replicate; unfold zlen; lia).
    destruct (take _ _) as [|c cs]; [done|]. exists c, cs. split; [done|]. cbn in Hl. lia. }
  rewrite (wr_Ok (c :: cs) 0) by (rewrite zlen_cons; pose proof (zlen_nonneg cs); lia). cbn [bind]. change (upd (c :: cs) 0 (Some x)) with (map Some [x] ++ cs). unfold for_up. replace (Z.to_nat (zlen T + 1 - 1)) with (length cs) by (rewrite Hl; unfold zlen; lia).
  assert (forall pre todo cs, length cs = length todo -> for_n (length cs) (zlen pre + 1) (fun i L => let* v := rd (pre ++ todo) (i - 1) in wr L i (Some v)) (map Some (x :: pre) ++ cs) = Ok (map Some (x :: pre ++ todo))) as H; [|apply (H [] T cs Hl)].
  clear. intros pre todo. revert pre. induction todo as [|v todo IH]; intros pre cs Hl; (destruct cs as [|c cs]; [|]); try done; [by rewrite !app_nil_r|]. cbn [length for_n]. replace (zlen pre + 1 - 1) with (zlen pre) by lia. rewrite rd_middle by done. cbn [bind].
  rewrite wr_middle by (rewrite zlen_map, zlen_cons; done). cbn [bind]. injection Hl as Hl. rewrite <- (zlen_snoc v pre). specialize (IH (pre ++ [v]) cs Hl). rewrite <- app_assoc in IH. cbn [app] in IH. rewrite <- IH. f_equal. cbn [map app]. by rewrite map_app, <- app_assoc.
Qed.

(** A non-decreasing subsequence, not empty if the array is not. *)
Definition ascends_in (ARRAY r : list Z) : Prop := r `sublist_of` ARRAY /\ Sorted Z.le r /\ (ARRAY <> [] -> r <> []).

Lemma sublist_filter (P : Z -> Prop) `{forall x, Decision (P x)} xs : filter P xs `sublist_of` xs.
Proof. induction xs as [|x xs IH]; [constructor|]. rewrite filter_cons. destruct (decide (P x)); by constructor. Qed.

Lemma ascends_cons pre x post T : ascends_in (filter (fun v => x <= v) post) T -> (x :: T) `sublist_of` pre ++ x :: post /\ Sorted Z.le (x :: T).
Proof.
  intros (Hs & Ho & _). split.
  - apply sublist_inserts_l, sublist_skip. etransitivity; [exact Hs|apply sublist_filter; intros; apply _].
  - constructor; [done|]. destruct T as [|v T]; constructor. assert (v ∈ filter (fun v => x <= v) post) as Hv by (eapply elem_of_submseteq; [left|by apply sublist_submseteq]). by apply list_elem_of_filter in Hv as [? _].
Qed.

Lemma longestSub_ascends fuel : forall ARRAY, (length ARRAY < fuel)%nat -> wp (longestSub fuel ARRAY) (ascends_in ARRAY).
Proof.
  induction fuel as [|fuel IH]; intros ARRAY Hf; [lia|]. cbn [longestSub]. destruct (Z.leb_spec (zlen ARRAY) 1) as [H1|H1].
  - destruct ARRAY as [|x [|y xs]]; [split; [constructor|by split; [constructor|]]|split; [reflexivity|by split; [repeat constructor|]]|]. rewrite !zlen_cons in H1. pose proof (zlen_nonneg xs). lia.
  - destruct ARRAY as [|PIVOT ARRAY']; [done|]. set (ARRAY := PIVOT :: ARRAY') in *. change (rd ARRAY 0) with (rd ([] ++ PIVOT :: ARRAY') 0). rewrite rd_middle by done. cbn [bind]. apply wp_bind.
    apply (wp_while (fun '(i, L) => 1 <= i <= zlen ARRAY + 1 /\ exists r, L = map Some r /\ r `sublist_of` ARRAY /\ Sorted Z.le r) (fun '(i, L) => (zlen ARRAY - zlen L) * (zlen ARRAY + 2) + (zlen ARRAY + 1 - i))).
    + split; [lia|]. exists []. split; [done|]. split; [apply sublist_nil_l|constructor].
    + unfold turns. change (zlen (@nil (option Z))) with 0. unfold zlen. nia.
    + intros [i L] (Hi & r & -> & Hr & _). rewrite zlen_map. apply sublist_length in Hr. unfold zlen in *. nia.
    + intros [i L] (Hi & r & -> & Hr & Ho). cbn [wp]. destruct (Z.ltb_spec i (zlen ARRAY)) as [Hlt|].
      * unfold pivot_turn. destruct (zlen_split i ARRAY ltac:(lia)) as (pre & post & Ea & Hp & Hq). destruct post as [|x post]; [change (zlen (@nil Z)) with 0 in Hq; lia|]. rewrite Ea at 1. rewrite rd_middle by done. cbn [bind].
        assert (1 <= i + 1 <= zlen ARRAY + 1 /\ (exists r0, map Some r = map Some r0 /\ r0 `sublist_of` ARRAY /\ Sorted Z.le r0)) as Hstay by (split; [lia|by exists r]).
        destruct (x <? PIVOT); [|cbn [wp]; split; [exact Hstay|lia]].
        replace (i + 1) with (zlen (pre ++ [x])) by (rewrite zlen_snoc; lia). rewrite (collect_ok ARRAY (pre ++ [x]) post) by (by rewrite <- app_assoc). cbn [bind]. apply wp_bind. eapply wp_mono.
        { apply IH. pose proof (length_filter (fun v => x <= v) post) as Hs. assert (length ARRAY = length pre + S (length post))%nat as El by (rewrite Ea, length_app; done). lia. }
        intros T HT. destruct (ascends_cons pre x post T HT) as [Hsub Hord]. rewrite <- Ea in Hsub. rewrite zlen_map. destruct (Z.ltb_spec (zlen r) (zlen T + 1)) as [Hlong|].
        -- rewrite extend_ok. cbn [bind wp]. pose proof (sublist_length _ _ Hsub) as Hlen. pose proof (zlen_nonneg T). assert (zlen T + 1 <= zlen ARRAY) as Hle by (unfold zlen in *; cbn [length] in Hlen; lia).
           split; [split; [lia|]; by exists (x :: T)|]. rewrite zlen_map, zlen_cons. nia.
        -- cbn [wp]. rewrite zlen_snoc. split; [rewrite Hp; exact Hstay|]. rewrite zlen_map. lia.
      * cbn [bind]. rewrite (collect_ok ARRAY [PIVOT] ARRAY') by done. cbn [bind]. apply wp_bind. eapply wp_mono.
        { apply IH. pose proof (length_filter (fun v => PIVOT <= v) ARRAY'). subst ARRAY. cbn [length] in Hf. lia. }
        intros T HT. destruct (ascends_cons [] PIVOT ARRAY' T HT) as [Hsub Hord]. rewrite zlen_map. destruct (Z.ltb_spec (zlen r) (zlen T + 1)) as [|Hlong].
        -- rewrite extend_ok. cbn [bind]. rewrite contents_Some. split; [exact Hsub|]. by split.
        -- cbn [bind]. rewrite contents_Some. split; [done|]. split; [done|]. intros _ ->. pose proof (zlen_nonneg T). change (zlen (@nil Z)) with 0 in Hlong. lia.
Qed.

(** longestSub returns for every array, with a non-decreasing subsequence that is not
    empty unless the array is. *)
Theorem longestSub_sound ARRAY : exists r, longestSub (S (length ARRAY)) ARRAY = Ok r /\ r `sublist_of` ARRAY /\ Sorted Z.le r /\ (ARRAY <> [] -> r <> []).
Proof. apply wp_exists, longestSub_ascends. lia. Qed.

(** On the array of main it is a longest one; here it is not, since the counter that
    the copying moved skips the element that starts the longest one. *)
Lemma longest_main_result : longest_main = Ok [2; 4; 11; 12].
Proof. vm_compute. reflexivity. Qed.

Lemma longestSub_misses : longestSub 6 [2; 1; 0; 0; 1] = Ok [1; 1] /\ [0; 0; 1] `sublist_of` [2; 1; 0; 0; 1] /\ Sorted Z.le [0; 0; 1].
Proof. split; [vm_compute; reflexivity|]. split; [repeat constructor|repeat constructor]; lia. Qed.
