(* ===== verification/Environment.v ===== *)
(** * The environment: utils/coreutils/src/printenv.c and env.c

    Both commands after their options.  The environment is the list of its strings;
    putenv and unsetenv are those of the C library with enough memory. *)

From S2P Require Import Prelude Arrays CStrings.
Open Scope Z_scope.

Definition terminator (nul : bool) : Z := if nul then 0 else 10.

(** ** printenv *)

(** The comparison of an entry with an operand, from [ep] and [ap] on: what is
    printed. *)
Fixpoint match_entry (ep ap : list Z) : option (list Z) :=
  match ep, ap with
  | c :: ep, d :: ap =>
      if c =? d then if (head_char ep =? ch "=") && (head_char ap =? 0) then Some (drop 1 ep) else match_entry ep ap
      else None
  | _, _ => None
  end.

(** One operand: whether something matched, and the output. *)
Definition print_variable (nul : bool) (environ : list (list Z)) (arg : list Z) : bool * list Z :=
  if bool_decide (ch "=" ∈ arg) then (false, [])
  else
    fold_left (fun '(matched, out) entry => match match_entry entry arg with Some v => (true, out ++ v ++ [terminator nul]) | None => (matched, out) end) environ (false, []).

(** The exit status and the output. *)
Definition printenv_main (nul : bool) (environ operands : list (list Z)) : Z * list Z :=
  match operands with
  | [] => (0, concat (map (fun e => e ++ [terminator nul]) environ))
  | _ =>
      let '(matches, out) := fold_left (fun '(matches, out) arg => let '(matched, o) := print_variable nul environ arg in (matches + (if matched : bool then 1 else 0), out ++ o)) operands (0, []) in
      ((if matches =? zlen operands then 0 else 1), out)
  end.

(** ** env *)

(** The name in front of the first equals sign. *)
Fixpoint name_part (s : list Z) : list Z := match s with [] => [] | c :: s => if c =? ch "=" then [] else c :: name_part s end.

Definition has_name (name entry : list Z) : bool := bool_decide (ch "=" ∈ entry) && bool_decide (name_part entry = name).

(** The first entry with the same name is replaced, or the string is added. *)
Fixpoint putenv (s : list Z) (environ : list (list Z)) : list (list Z) :=
  match environ with
  | [] => [s]
  | e :: environ => if has_name (name_part s) e then s :: environ else e :: putenv s environ
  end.

Definition unsetenv (name : list Z) (environ : list (list Z)) : option (list (list Z)) :=
  if bool_decide (name = []) || bool_decide (ch "=" ∈ name) then None else Some (filter (fun e => has_name name e = false) environ).

Inductive env_result :=
  | Canceled (* EXIT_CANCELED *)
  | Printed (out : list Z)
  | Executed (command : list Z) (args environ : list (list Z)).

(** [while (optind < argc && strchr (argv[optind], '='))] *)
Fixpoint assign (operands environ : list (list Z)) : list (list Z) * list (list Z) :=
  match operands with
  | o :: rest => if bool_decide (ch "=" ∈ o) then assign rest (putenv o environ) else (operands, environ)
  | [] => ([], environ)
  end.

(** [strncmp(argv[optind], "-", 1)] *)
Definition differs_from_dash (o : list Z) : bool := negb (head_char o =? ch "-").

Fixpoint unset_all (names environ : list (list Z)) : option (list (list Z)) :=
  match names with
  | [] => Some environ
  | n :: names => match unsetenv n environ with Some environ => unset_all names environ | None => None end
  end.

(** What env does up to the call of execvp. *)
Definition env_main (ignore_environment nul : bool) (unset operands environ : list (list Z)) : env_result :=
  let skip := match operands with o :: _ => differs_from_dash o | [] => false end in
  let ignore_environment := ignore_environment || skip in
  let environ := if ignore_environment then [] else environ in
  match unset_all unset environ with
  | None => Canceled
  | Some environ =>
      let operands := if skip then drop 1 operands else operands in
      match assign operands environ with
      | ([], environ) => Printed (concat (map (fun e => e ++ [terminator nul]) environ))
      | (command :: args, environ) => if nul then Canceled else Executed command (command :: args) environ
      end
  end.

(** ** printenv prints the values *)

Lemma match_entry_spec ap : forall ep v, ap <> [] -> nul_free ap -> match_entry ep ap = Some v <-> ep = ap ++ ch "=" :: v.
Proof.
  induction ap as [|d ap IH]; intros ep v Hne Hn; [done|]. apply Forall_cons in Hn as [Hd Hn]. destruct ep as [|c ep]; cbn [match_entry app]; [done|]. destruct (Z.eqb_spec c d) as [->|Hcd]; [|split; [done|congruence]].
  assert (forall x y : list Z, d :: x = d :: y <-> x = y) as -> by (intros x y; split; [by intros [=]|by intros ->]).
  destruct ap as [|a ap].
  - cbn [head_char app]. rewrite andb_true_r. destruct ep as [|e ep]; cbn [head_char]; [done|]. destruct (Z.eqb_spec e (ch "=")) as [->|He]; cbn [drop match_entry]; rewrite ?drop_0; [split; [by intros [= ->]|by intros [= ->]]|split; [done|intros [= E _]; by rewrite E in He]].
  - apply Forall_cons in Hn as [Ha Hn]. cbn [head_char]. rewrite (proj2 (Z.eqb_neq a 0) Ha), andb_false_r. apply IH; [done|by constructor].
Qed.

(** The value of a variable in an entry. *)
Definition value_in (name entry : list Z) : option (list Z) :=
  if bool_decide (name = []) || bool_decide (ch "=" ∈ name) then None
  else if bool_decide (take (length name) entry = name) && bool_decide (entry !! length name = Some (ch "=")) then Some (drop (S (length name)) entry) else None.

Lemma value_in_spec name entry v : name <> [] -> ch "=" ∉ name -> value_in name entry = Some v <-> entry = name ++ ch "=" :: v.
Proof.
  intros H1 H2. unfold value_in. rewrite !bool_decide_eq_false_2 by done. cbn [orb]. split.
  - destruct (bool_decide_reflect (take (length name) entry = name)) as [Ht|]; [|done]. destruct (bool_decide_reflect (entry !! length name = Some (ch "="))) as [Hl|]; [|done]. cbn [andb]. intros [= <-].
    rewrite <- Ht at 1. by rewrite <- (take_drop_middle entry (length name) (ch "=") Hl) at 1.
  - intros ->. rewrite take_app_length, list_lookup_middle by done. rewrite !bool_decide_eq_true_2 by done. cbn [andb]. f_equal. rewrite drop_app_ge by lia. by replace (S (length name) - length name)%nat with 1%nat by lia.
Qed.

Lemma match_value name entry : nul_free name -> ch "=" ∉ name -> match_entry entry name = value_in name entry.
Proof.
  intros Hn He. destruct (decide (name = [])) as [->|Hne]; [by destruct entry|]. apply option_eq. intros v. by rewrite match_entry_spec, value_in_spec.
Qed.

Definition lines (nul : bool) (vs : list (list Z)) : list Z := concat (map (fun v => v ++ [terminator nul]) vs).

Lemma print_variable_ok nul environ arg : nul_free arg ->
  print_variable nul environ arg = (negb (bool_decide (omap (value_in arg) environ = [])), lines nul (omap (value_in arg) environ)).
Proof.
  intros Hn. unfold print_variable. destruct (bool_decide_reflect (ch "=" ∈ arg)) as [He|He].
  - assert (omap (value_in arg) environ = []) as ->; [|done]. induction environ as [|e environ IH]; [done|]. cbn. unfold value_in at 1. by rewrite (bool_decide_eq_true_2 (_ ∈ arg)), orb_true_r.
  - assert (forall matched out, fold_left (fun '(matched, out) entry => match match_entry entry arg with Some v => (true, out ++ v ++ [terminator nul]) | None => (matched, out) end) environ (matched, out) =
      (matched || negb (bool_decide (omap (value_in arg) environ = [])), out ++ lines nul (omap (value_in arg) environ))) as H; [|apply H].
    induction environ as [|e environ IH]; intros matched out; cbn [fold_left]; [cbn; by rewrite orb_false_r, app_nil_r|]. rewrite match_value by done. cbn. destruct (value_in arg e) as [v|]; rewrite IH; [|done]. cbn [orb].
    rewrite (bool_decide_eq_false_2 (_ :: _ = [])) by done. cbn [negb]. rewrite orb_true_r. f_equal. unfold lines. cbn [map concat]. by rewrite <- !app_assoc.
Qed.

(** printenv prints, for its operands in turn, the values of all entries with that
    name; the exit status is 0 if and only if every operand is set. *)
Theorem printenv_correct nul environ operands : operands <> [] -> Forall nul_free operands ->
  exists status, printenv_main nul environ operands = (status, concat (map (fun arg => lines nul (omap (value_in arg) environ)) operands)) /\
  (status = 0 \/ status = 1) /\ (status = 0 <-> Forall (fun arg => omap (value_in arg) environ <> []) operands).
Proof.
  intros Hne Hn.
  assert (forall ops n out, Forall nul_free ops -> exists k, fold_left (fun '(matches, out) arg => let '(matched, o) := print_variable nul environ arg in (matches + (if matched : bool then 1 else 0), out ++ o)) ops (n, out) =
    (n + k, out ++ concat (map (fun arg => lines nul (omap (value_in arg) environ)) ops)) /\ k <= zlen ops /\ (k = zlen ops <-> Forall (fun arg => omap (value_in arg) environ <> []) ops)) as H.
  { clear. induction ops as [|o ops IH]; intros n out Hn; [exists 0; cbn; rewrite app_nil_r, Z.add_0_r; split; [done|]; split; [apply zlen_nonneg|by split]|]. apply Forall_cons in Hn as [Ho Hn]. cbn [fold_left]. rewrite print_variable_ok by done.
    destruct (IH (n + (if negb (bool_decide (omap (value_in o) environ = [])) then 1 else 0)) (out ++ lines nul (omap (value_in o) environ)) Hn) as (k & -> & Hk & Hiff). exists ((if negb (bool_decide (omap (value_in o) environ = [])) then 1 else 0) + k).
    cbn [map concat]. rewrite <- app_assoc, Z.add_assoc, zlen_cons, Forall_cons, <- Hiff. split; [done|]. destruct (bool_decide_reflect (omap (value_in o) environ = [])) as [E|E]; cbn [negb]; (split; [lia|]); split; [lia|by intros []|split; [done|lia]|intros [_ ->]; lia]. }
  destruct (H operands 0 [] Hn) as (k & E & Hk & Hiff). destruct operands as [|o operands]; [done|]. unfold printenv_main. rewrite E. rewrite Z.add_0_l. eexists. split; [done|]. rewrite <- Hiff. destruct (Z.eqb_spec k (zlen (o :: operands))) as [Ek|Ek]; (split; [by auto|]); split; done.
Qed.

Lemma printenv_correct_witness :
  let environ := [bytes "HOME=/root"; bytes "A=1=2"; bytes "AB=3"] in
  exists status, printenv_main false environ [bytes "A"; bytes "HOM"] = (status, bytes "1=2" ++ [10]) /\ status = 1.
Proof.
  intros environ. destruct (printenv_correct false environ [bytes "A"; bytes "HOM"]) as (status & E & Hs & Hiff); [done|by repeat constructor|]. exists status. split; [exact E|].
  destruct Hs as [H0|]; [|done]. apply Hiff in H0. apply Forall_cons in H0 as [_ [H0 _]%Forall_cons]. by exfalso; apply H0.
Defined.

(** ** What env sets, and what it runs *)

Definition entry_of (name : list Z) (environ : list (list Z)) : option (list Z) := head (filter (fun e => has_name name e = true) environ).

Lemma entry_of_cons name e environ : entry_of name (e :: environ) = if has_name name e then Some e else entry_of name environ.
Proof. unfold entry_of. rewrite filter_cons. destruct (decide (has_name name e = true)) as [->|H]; [done|]. by rewrite (not_true_is_false _ H). Qed.

Lemma putenv_entry s name environ : ch "=" ∈ s -> entry_of name (putenv s environ) = if bool_decide (name_part s = name) then Some s else entry_of name environ.
Proof.
  intros Hs. assert (forall n, has_name n s = bool_decide (name_part s = n)) as Hh by (intros n; unfold has_name; by rewrite bool_decide_eq_true_2 by done).
  induction environ as [|e environ IH]; cbn [putenv]; [by rewrite entry_of_cons, Hh|]. destruct (has_name (name_part s) e) eqn:E.
  - rewrite !entry_of_cons, Hh. destruct (bool_decide_reflect (name_part s = name)) as [|Hne]; [done|]. assert (has_name name e = false) as ->; [|done].
    unfold has_name in *. apply andb_true_iff in E as [-> E]. apply bool_decide_eq_true in E. cbn [andb]. apply bool_decide_eq_false. congruence.
  - rewrite !entry_of_cons, IH. destruct (bool_decide_reflect (name_part s = name)) as [<-|]; [by rewrite E|done].
Qed.

Lemma assign_app settings rest environ : Forall (fun s => ch "=" ∈ s) settings -> assign (settings ++ rest) environ = assign rest (fold_left (fun env s => putenv s env) settings environ).
Proof. intros H. revert environ. induction H as [|s settings Hs _ IH]; intros environ; [done|]. cbn [app assign fold_left]. by rewrite bool_decide_eq_true_2. Qed.

Lemma settings_entry settings name : Forall (fun s => ch "=" ∈ s) settings -> forall environ,
  entry_of name (fold_left (fun env s => putenv s env) settings environ) = match last (filter (fun s => name_part s = name) settings) with Some s => Some s | None => entry_of name environ end.
Proof.
  induction settings as [|s settings IH] using rev_ind; intros H environ; [done|]. apply Forall_app in H as [H [Hs _]%Forall_cons]. rewrite fold_left_app, filter_app. cbn [fold_left]. rewrite putenv_entry, IH by done. rewrite filter_cons, filter_nil.
  destruct (bool_decide_reflect (name_part s = name)) as [E|E]; [rewrite decide_True by done; by rewrite last_snoc|rewrite decide_False by done; by rewrite app_nil_r].
Qed.

(** env runs its command in the environment it was asked for, but after a word that is
    not part of the usage: the first operand is always lost unless it begins with a
    dash, and losing it empties the environment.  So for all words [w], settings and
    commands, [env w NAME=VALUE... COMMAND] runs COMMAND in an environment in which
    exactly the last setting of each name holds. *)
Theorem env_runs w settings command args environ nul :
  differs_from_dash w = true -> Forall (fun s => ch "=" ∈ s) settings -> ch "=" ∉ command ->
  env_main false nul [] [w] environ = Printed [] /\
  exists environ', env_main false false [] (w :: settings ++ command :: args) environ = Executed command (command :: args) environ' /\
  forall name, entry_of name environ' = last (filter (fun s => name_part s = name) settings).
Proof.
  intros Hw Hs Hc. unfold env_main. rewrite Hw. cbn [orb unset_all drop assign map concat]. split; [done|]. rewrite drop_0, assign_app by done. cbn [assign]. rewrite bool_decide_eq_false_2 by done. eexists. split; [done|].
  intros name. rewrite settings_entry by done. by destruct (last _).
Qed.

Lemma env_runs_witness :
  env_main false false [] [bytes "true"] [bytes "A=1"] = Printed [] /\
  exists environ', env_main false false [] [bytes "x"; bytes "A=2"; bytes "A=3"; bytes "sh"] [bytes "B=1"] = Executed (bytes "sh") [bytes "sh"] environ' /\ entry_of (bytes "A") environ' = Some (bytes "A=3").
Proof.
  split.
  - apply (env_runs (bytes "true") [] (bytes "sh") []); [done|constructor|]. by apply (bool_decide_eq_false_1 (_ ∈ _)); vm_compute.
  - destruct (env_runs (bytes "x") [bytes "A=2"; bytes "A=3"] (bytes "sh") [] [bytes "B=1"] false) as [_ (environ' & E & H)]; [done| | |].
    + constructor; [|constructor; [|constructor]]; apply (bool_decide_eq_true_1 (_ ∈ _)); vm_compute; reflexivity.
    + by apply (bool_decide_eq_false_1 (_ ∈ _)); vm_compute.
    + exists environ'. split; [exact E|]. rewrite H. vm_compute. reflexivity.
Defined.

(** The documented way to start with an empty environment runs the word - instead. *)
Lemma env_dash_is_command settings environ : env_main false false [] (bytes "-" :: settings) environ = Executed (bytes "-") (bytes "-" :: settings) environ.
Proof. unfold env_main. cbn. done. Qed.
