(* ===== verification/Bmp.v ===== *)
(** * BMP files: term-autotest/jpg_bmp.c

    The two conversions without libjpeg: what a decoded image becomes as a BMP
    file, and which rows a BMP file hands to the encoder.  The decoder's scan lines
    are an argument.  (tools/jpeg/jpt_bmp.c and bmp_jpg.c hold the same code.) *)

From S2P Require Import Prelude Arrays CStrings.
Open Scope Z_scope.

(** A little-endian number of [n] bytes, as x86 stores it. *)
Fixpoint le (n : nat) (v : Z) : list Z := match n with O => [] | S n => v mod 256 :: le n (v / 256) end.

(** The 14 and the 40 bytes of the packed structs. *)
Record bmp_fileheader := FileHeader { bfType : Z; bfSize : Z; bfReverved1 : Z; bfReverved2 : Z; bfOffBits : Z }.
Record bmp_infoheader := InfoHeader {
  biSize : Z; biWidth : Z; biHeight : Z; biPlanes : Z; biBitCount : Z; biCompression : Z; biSizeImage : Z;
  biXPelsPerMeter : Z; biYPelsPerMeter : Z; biClrUsed : Z; biClrImportant : Z }.

Definition fileheader_bytes (h : bmp_fileheader) : list Z := le 2 (bfType h) ++ le 4 (bfSize h) ++ le 2 (bfReverved1 h) ++ le 2 (bfReverved2 h) ++ le 4 (bfOffBits h).
Definition infoheader_bytes (h : bmp_infoheader) : list Z :=
  le 4 (biSize h) ++ le 4 (biWidth h) ++ le 4 (biHeight h) ++ le 2 (biPlanes h) ++ le 2 (biBitCount h) ++ le 4 (biCompression h) ++ le 4 (biSizeImage h) ++
  le 4 (biXPelsPerMeter h) ++ le 4 (biYPelsPerMeter h) ++ le 4 (biClrUsed h) ++ le 4 (biClrImportant h).

(** What the code reads of the decompressor. *)
Record jpeg_info := JpegInfo { output_width : Z; output_height : Z; output_components : Z }.

Definition u16 (z : Z) : Z := z mod 65536.

(** ** From an image to a file *)

Definition palette_turn (st : Z * Z * list Z) : res (Z * Z * list Z) :=
  let '(i, j, platte) := st in
  let* platte := wr platte i j in
  let* platte := wr platte (i + 1) j in
  let* platte := wr platte (i + 2) j in
  let* platte := wr platte (i + 3) 0 in
  Ok (i + 4, u8 (j + 1), platte).

Definition palette : res (list Z) :=
  let* (_, platte) := while 257 (fun '(i, _, _) => Ok (i <? 1024)) palette_turn (0, 0, replicate 1024 0) in
  Ok platte.

(** The bytes that are written; [headersize] is not set for other depths. *)
Definition write_bmp_header (cinfo : jpeg_info) : res (list Z) :=
  let width := output_width cinfo in
  let height := output_height cinfo in
  let depth := u16 (output_components cinfo) in
  let* headersize := if depth =? 1 then Ok (14 + 40 + 256 * 4) else if depth =? 3 then Ok (14 + 40) else Fail Uninit in
  let bmpsize := u32 (u32 (u32 (u32 (width * depth) + 3) / 4 * 4) * height) in
  let filesize := u32 (headersize + bmpsize) in
  let bfh := FileHeader 19778 filesize 0 0 headersize in
  let bih := InfoHeader 40 width height 1 (u16 (depth * 8)) 0 bmpsize 39361 39361 0 0 in
  let* platte := if depth =? 1 then palette else Ok [] in
  Ok (fileheader_bytes bfh ++ infoheader_bytes bih ++ platte).

(** One pixel of a row: [point] is an offset into [src_buff]. *)
Definition pixel_turn (depth point : Z) (src_buff : list Z) (st : Z * list Z) : res (Z * list Z) :=
  let '(j, dst) := st in
  let* dst := if depth =? 1 then let* v := rd src_buff (point + j) in wr dst j v else Ok dst in
  let* dst :=
    if depth =? 3 then
      let* v := rd src_buff (point + (j + 0)) in
      let* dst := wr dst (j + 2) v in
      let* v := rd src_buff (point + (j + 1)) in
      let* dst := wr dst (j + 1) v in
      let* v := rd src_buff (point + (j + 2)) in
      wr dst (j + 0) v
    else Ok dst in
  Ok (u32 (j + depth), dst).

Definition row_turn (width depth : Z) (src_buff : list Z) (_ : Z) (st : Z * list Z * list Z) : res (Z * list Z * list Z) :=
  let '(point, dst, out) := st in
  let* (_, dst) := while (S (Z.to_nat (u32 (width * depth)))) (fun '(j, _) => Ok (j <? u32 (width * depth))) (pixel_turn depth point src_buff) (0, dst) in
  Ok (point - u32 (width * depth), dst, out ++ dst).

Definition write_bmp_data (cinfo : jpeg_info) (src_buff : list Z) : res (list Z) :=
  let width := output_width cinfo in
  let height := output_height cinfo in
  let depth := u16 (output_components cinfo) in
  let bmpwidth := u32 (width * depth) in
  let bufwidth := u32 (u32 (bmpwidth + 3) / 4 * 4) in
  let dst_width_buff := replicate (Z.to_nat bufwidth) 0 in
  let point := u32 (bmpwidth * u32 (height - 1)) in
  let* (_, out) := for_up 0 height (row_turn width depth src_buff) (point, dst_width_buff, []) in
  Ok out.

(** A scan line is stored at an offset. *)
Definition put_line (buf : list Z) (point : Z) (line : list Z) : res (list Z) :=
  let* _ := demand ((0 <=? point) && (point + zlen line <=? zlen buf)) OutOfBounds in
  Ok (take (Z.to_nat point) buf ++ line ++ drop (Z.to_nat (point + zlen line)) buf).

(** The file that analyse_jpeg writes; [scanlines k] is what jpeg_read_scanlines
    stores as line [k]. *)
Definition analyse_jpeg (cinfo : jpeg_info) (scanlines : Z -> list Z) : res (list Z) :=
  let width := output_width cinfo in
  let height := output_height cinfo in
  let depth := u16 (output_components cinfo) in
  let src_buff := replicate (Z.to_nat (u32 (width * height * depth))) 0 in
  let* (src_buff, _) := for_up 0 height (fun k '(buf, point) => let* buf := put_line buf point (scanlines k) in Ok (buf, point + u32 (width * depth))) (src_buff, 0) in
  let* header := write_bmp_header cinfo in
  let* data := write_bmp_data cinfo src_buff in
  Ok (header ++ data).

(** The result and the file: the input and the output may not open. *)
Definition process_jpg_bmp (in_opens out_opens : bool) (cinfo : jpeg_info) (scanlines : Z -> list Z) : res (Z * option (list Z)) :=
  if negb in_opens then Ok (-1, None)
  else if negb out_opens then Ok (-1, None)
  else let* file := analyse_jpeg cinfo scanlines in Ok (0, Some file).

(** ** From a file to rows *)

Definition IMG_W : Z := 1920.
Definition IMG_H : Z := 1080.
Definition IMG_COLOR : Z := 3.

Section rows.
Context (W H : Z).

(** One pixel: the line, and the index into the data. *)
Definition line_turn (data : list (option Z)) (j : Z) (st : list (option Z) * Z) : res (list (option Z) * Z) :=
  let '(lineData, rgb_index) := st in
  let* v := rdu data rgb_index in
  let* lineData := wr lineData (j * 3 + 2) (Some v) in
  let* v := rdu data (rgb_index + 1) in
  let* lineData := wr lineData (j * 3 + 1) (Some v) in
  let* v := rdu data (rgb_index + 2) in
  let* lineData := wr lineData (j * 3 + 0) (Some v) in
  Ok (lineData, rgb_index + 3).

Definition lines_turn (data : list (option Z)) (i : Z) (st : list (option (list (option Z))) * Z) : res (list (option (list (option Z))) * Z) :=
  let '(row_pointer, rgb_index) := st in
  let* (lineData, rgb_index) := for_up 0 W (line_turn data) (uninit (W * IMG_COLOR), rgb_index) in
  let* row_pointer := wr row_pointer (H - i - 1) (Some lineData) in
  Ok (row_pointer, rgb_index).

(** The rows through the pointers, as jpeg_write_scanlines reads them. *)
Definition scanlines_of (row_pointer : list (option (list (option Z)))) : res (list (list Z)) :=
  for_up 0 H (fun i rows =>
    let* p := rd row_pointer i in
    match p with Some line => let* line := contents line in Ok (rows ++ [line]) | None => Fail Uninit end) [].

(** [malloc(IMG_H*IMG_W*IMG_COLOR)] has room for that many bytes of pointers. *)
Definition bmp_rows (data : list (option Z)) : res (list (list Z)) :=
  let* (row_pointer, _) := for_up 0 H (lines_turn data) (replicate (Z.to_nat (H * W * IMG_COLOR / 8)) None, 0) in
  scanlines_of row_pointer.
End rows.

(** [fseek(fd, 54, SEEK_SET)] and [fread]: what is missing in the file stays
    uninitialised. *)
Definition read_pixels (file : list Z) (sizeImage : Z) : list (option Z) :=
  let got := take (Z.to_nat sizeImage) (drop 54 file) in
  map Some got ++ replicate (Z.to_nat sizeImage - length got) None.

(** The result, and the rows that the encoder gets: the file may not open or not be
    read, and the output may not open. *)
Definition process_bmp_jpg (file : option (list Z)) (read_error out_opens : bool) : res (Z * option (list (list Z))) :=
  match file with
  | None => Ok (-1, None)
  | Some file =>
      let sizeImage := IMG_W * IMG_H * IMG_COLOR in
      let data := read_pixels file sizeImage in
      if (zlen (drop 54 file) <? sizeImage) && read_error then Ok (-1, None)
      else if negb out_opens then Ok (-1, None)
      else let* rows := bmp_rows IMG_W IMG_H data in Ok (0, Some rows)
  end.

(** ** Pixels *)

Definition rgb (p : Z * Z * Z) : list Z := let '(r, g, b) := p in [r; g; b].
Definition bgr (p : Z * Z * Z) : list Z := let '(r, g, b) := p in [b; g; r].

Definition flat (f : Z * Z * Z -> list Z) (px : list (Z * Z * Z)) : list Z := concat (map f px).

Lemma zlen_flat f px : (forall p, length (f p) = 3%nat) -> zlen (flat f px) = 3 * zlen px.
Proof. intros Hf. induction px as [|p px IH]; [done|]. unfold flat in *. cbn [map concat]. rewrite zlen_app, zlen_cons, IH. unfold zlen at 1. rewrite Hf. lia. Qed.

Lemma zlen_rgb px : zlen (flat rgb px) = 3 * zlen px.
Proof. apply zlen_flat. by intros [[??]?]. Qed.

Lemma zlen_bgr px : zlen (flat bgr px) = 3 * zlen px.
Proof. apply zlen_flat. by intros [[??]?]. Qed.

Lemma flat_snoc f px p : flat f (px ++ [p]) = flat f px ++ f p.
Proof. unfold flat. rewrite map_app, concat_app. cbn. by rewrite app_nil_r. Qed.

Lemma rd_app3 {A} `{Inhabited A} (a : list A) x y z b i : zlen a = i -> rd (a ++ x :: y :: z :: b) i = Ok x /\ rd (a ++ x :: y :: z :: b) (i + 1) = Ok y /\ rd (a ++ x :: y :: z :: b) (i + 2) = Ok z.
Proof.
  intros <-. split; [by apply rd_middle|]. split.
  - rewrite (cons_middle x a), app_assoc. apply rd_middle. by rewrite zlen_snoc.
  - replace (a ++ x :: y :: z :: b) with ((a ++ [x; y]) ++ z :: b) by by rewrite <- app_assoc. apply rd_middle. by rewrite zlen_app.
Qed.

Lemma wr_app3 {A} (a : list A) x y z b i v : zlen a = i ->
  wr (a ++ x :: y :: z :: b) i v = Ok (a ++ v :: y :: z :: b) /\ wr (a ++ x :: y :: z :: b) (i + 1) v = Ok (a ++ x :: v :: z :: b) /\ wr (a ++ x :: y :: z :: b) (i + 2) v = Ok (a ++ x :: y :: v :: b).
Proof.
  intros <-. split; [by apply wr_middle|]. split.
  - replace (a ++ x :: y :: z :: b) with ((a ++ [x]) ++ y :: z :: b) by by rewrite <- app_assoc. rewrite wr_middle by (by rewrite zlen_snoc). by rewrite <- app_assoc.
  - replace (a ++ x :: y :: z :: b) with ((a ++ [x; y]) ++ z :: b) by by rewrite <- app_assoc. rewrite wr_middle by (by rewrite zlen_app). by rewrite <- app_assoc.
Qed.

Lemma u32_id z : 0 <= z < 4294967296 -> u32 z = z.
Proof. apply Z.mod_small. Qed.

Lemma triple_split {A} n (old : list A) : length old = (3 * S n)%nat -> exists x y z old', old = x :: y :: z :: old' /\ length old' = (3 * n)%nat.
Proof. intros Hl. destruct old as [|x [|y [|z old]]]; cbn [length] in Hl; try lia. exists x, y, z, old. split; [done|lia]. Qed.

(** A row of colour pixels. *)
Lemma row_rgb pre post pad B todo : forall have old fuel, B = 3 * (zlen have + zlen todo) -> B < 4294967293 -> length old = (3 * length todo)%nat -> (length todo < fuel)%nat ->
  while fuel (fun '(j, _) => Ok (j <? B)) (pixel_turn 3 (zlen pre) (pre ++ flat rgb have ++ flat rgb todo ++ post)) (3 * zlen have, flat bgr have ++ old ++ pad) =
  Ok (B, flat bgr (have ++ todo) ++ pad).
Proof.
  induction todo as [|[[r g] b] todo IH]; intros have old fuel HB Hlt Hold Hf; (destruct fuel as [|fuel]; [lia|]); rewrite while_step; pose proof (zlen_nonneg have).
  - destruct old; [|done]. change (zlen []) with 0 in HB. cbn [bind]. rewrite (proj2 (Z.ltb_ge _ _)) by lia. rewrite app_nil_r. cbn [app]. do 2 f_equal. lia.
  - pose proof (zlen_nonneg todo). rewrite zlen_cons in HB. cbn [bind]. rewrite (proj2 (Z.ltb_lt _ _)) by lia. cbn [length] in Hold. destruct (triple_split _ _ Hold) as (x & y & z & old' & -> & Hold'). clear Hold.
    assert (pre ++ flat rgb have ++ flat rgb ((r, g, b) :: todo) ++ post = (pre ++ flat rgb have) ++ r :: g :: b :: flat rgb todo ++ post) as Es by (unfold flat; cbn; by rewrite <- !app_assoc).
    destruct (rd_app3 (pre ++ flat rgb have) r g b (flat rgb todo ++ post) (zlen pre + 3 * zlen have)) as (R0 & R1 & R2); [by rewrite zlen_app, zlen_rgb|]. rewrite <- Es in R0, R1, R2.
    unfold pixel_turn at 1. cbn [Z.eqb Pos.eqb bind]. rewrite !Z.add_0_r, !Z.add_assoc, R0. cbn [bind]. cbn [app].
    rewrite (proj2 (proj2 (wr_app3 (flat bgr have) x y z (old' ++ pad) (3 * zlen have) r (zlen_bgr _)))). cbn [bind]. rewrite R1. cbn [bind].
    rewrite (proj1 (proj2 (wr_app3 (flat bgr have) x y r (old' ++ pad) (3 * zlen have) g (zlen_bgr _)))). cbn [bind]. rewrite R2. cbn [bind].
    rewrite (proj1 (wr_app3 (flat bgr have) x g r (old' ++ pad) (3 * zlen have) b (zlen_bgr _))). cbn [bind]. rewrite u32_id by lia.
    assert (flat rgb have ++ flat rgb ((r, g, b) :: todo) ++ post = flat rgb (have ++ [(r, g, b)]) ++ flat rgb todo ++ post) as -> by (rewrite flat_snoc, <- app_assoc; done).
    specialize (IH (have ++ [(r, g, b)]) old' fuel). rewrite zlen_snoc in IH. replace (3 * zlen have + 3) with (3 * (zlen have + 1)) by lia. rewrite (flat_snoc bgr), <- (app_assoc (flat bgr have)) in IH. cbn [app bgr] in IH.
    rewrite IH; [by rewrite <- app_assoc|lia|done|done|cbn [length] in Hf; lia].
Qed.

(** A row of grey pixels. *)
Lemma row_grey pre post pad B todo : forall have old fuel, B = zlen have + zlen todo -> B < 4294967295 -> length old = length todo -> (length todo < fuel)%nat ->
  while fuel (fun '(j, _) => Ok (j <? B)) (pixel_turn 1 (zlen pre) (pre ++ have ++ todo ++ post)) (zlen have, have ++ old ++ pad) = Ok (B, have ++ todo ++ pad).
Proof.
  induction todo as [|v todo IH]; intros have old fuel HB Hlt Hold Hf; (destruct fuel as [|fuel]; [lia|]); rewrite while_step; pose proof (zlen_nonneg have).
  - destruct old; [|done]. change (zlen []) with 0 in HB. cbn [bind]. rewrite (proj2 (Z.ltb_ge _ _)) by lia. cbn [app]. do 2 f_equal. lia.
  - pose proof (zlen_nonneg todo). rewrite zlen_cons in HB. cbn [bind]. rewrite (proj2 (Z.ltb_lt _ _)) by lia. destruct old as [|x old]; [done|]. unfold pixel_turn at 1. cbn [Z.eqb Pos.eqb bind].
    assert (rd (pre ++ have ++ (v :: todo) ++ post) (zlen pre + zlen have) = Ok v) as -> by (rewrite app_assoc; apply rd_middle; by rewrite zlen_app). cbn [bind]. cbn [app]. rewrite (wr_middle have) by done. cbn [bind]. rewrite u32_id by lia.
    specialize (IH (have ++ [v]) old fuel). rewrite zlen_snoc in IH. rewrite <- !app_assoc in IH. cbn [app] in IH. apply IH; [lia|done|by injection Hold|cbn [length] in Hf; lia].
Qed.

(** *** The rows of a file *)

Section rows_of_a_file.
Context (width depth B : Z) (pad : list Z) (enc : list Z -> list Z).
Hypothesis HB : u32 (width * depth) = B.

Definition encodes (row : list Z) : Prop := length (enc row) = length row /\ forall pre post old, length old = length row ->
  exists j, while (S (Z.to_nat B)) (fun '(j, _) => Ok (j <? B)) (pixel_turn depth (zlen pre) (pre ++ row ++ post)) (0, old ++ pad) = Ok (j, enc row ++ pad).

Lemma rows_loop front : Forall encodes front -> Forall (fun row => zlen row = B) front -> forall post old out i, zlen old = B ->
  exists p dst, for_n (length front) i (row_turn width depth (concat front ++ post)) (zlen (concat front) - B, old ++ pad, out) = Ok (p, dst, out ++ concat (map (fun row => enc row ++ pad) (reverse front))).
Proof.
  induction front as [|row front IH] using rev_ind; intros He Hl post old out i Ho; [do 2 eexists; cbn; by rewrite app_nil_r|]. apply Forall_app in He as [He [Her _]%Forall_cons], Hl as [Hl [Hlr _]%Forall_cons].
  rewrite length_app, Nat.add_1_r. cbn [for_n]. rewrite concat_app. cbn [concat]. rewrite app_nil_r, <- !app_assoc, zlen_app, Hlr. replace (zlen (concat front) + B - B) with (zlen (concat front)) by lia.
  unfold row_turn at 1. rewrite HB. destruct Her as [Hel Her]. destruct (Her (concat front) post old) as [j ->]; [unfold zlen in *; lia|]. cbn [bind].
  destruct (IH He Hl (row ++ post) (enc row) (out ++ enc row ++ pad) (i + 1)) as (p & dst & ->); [unfold zlen; rewrite Hel; exact Hlr|]. exists p, dst. rewrite reverse_app. cbn [reverse app]. change (reverse [row]) with [row]. cbn [app map concat]. by rewrite <- !app_assoc.
Qed.
End rows_of_a_file.

(** The scan lines one below the other. *)
Lemma bmp_scan_loop scanlines B n : forall i have, 0 <= B -> (forall k, Z.of_nat i <= k < Z.of_nat (i + n) -> zlen (scanlines k) = B) ->
  for_n n (Z.of_nat i) (fun k '(buf, point) => let* buf := put_line buf point (scanlines k) in Ok (buf, point + B)) (have ++ replicate (Z.to_nat (Z.of_nat n * B)) 0, zlen have) =
  Ok (have ++ concat (map (fun k => scanlines (Z.of_nat k)) (seq i n)), zlen have + Z.of_nat n * B).
Proof.
  induction n as [|n IH]; intros i have HB Hs; cbn [for_n seq map concat]; [by rewrite !Z.add_0_r|].
  assert (zlen (scanlines (Z.of_nat i)) = B) as Hl by (apply Hs; lia). pose proof (zlen_nonneg have).
  assert (put_line (have ++ replicate (Z.to_nat (Z.of_nat (S n) * B)) 0) (zlen have) (scanlines (Z.of_nat i)) = Ok ((have ++ scanlines (Z.of_nat i)) ++ replicate (Z.to_nat (Z.of_nat n * B)) 0)) as ->.
  { unfold put_line. rewrite zlen_app, zlen_replicate, Hl by lia. rewrite (proj2 (Z.leb_le _ _)), (proj2 (Z.leb_le _ _)) by lia. cbn [andb demand bind]. f_equal.
    rewrite take_app_length' by (unfold zlen; lia). rewrite <- app_assoc. f_equal. f_equal. rewrite drop_app_ge by (unfold zlen in *; lia). rewrite drop_replicate. f_equal. unfold zlen in *. lia. }
  cbn [bind]. replace (Z.of_nat i + 1) with (Z.of_nat (S i)) by lia. replace (zlen have + B) with (zlen (have ++ scanlines (Z.of_nat i))) by (rewrite zlen_app; lia). rewrite IH; [|done|intros k Hk; apply Hs; lia]. rewrite <- app_assoc, zlen_app. do 2 f_equal. lia.
Qed.

Fixpoint swap_rgb (row : list Z) : list Z := match row with r :: g :: b :: row => b :: g :: r :: swap_rgb row | _ => row end.

Lemma swap_flat px : swap_rgb (flat rgb px) = flat bgr px.
Proof. induction px as [|[[r g] b] px IH]; [done|]. unfold flat in *. cbn. by rewrite IH. Qed.

Lemma encodes_rgb px w pad : zlen px = w -> w * 3 < 4294967293 -> encodes 3 (w * 3) pad swap_rgb (flat rgb px).
Proof.
  intros <- Hb. split; [rewrite swap_flat; pose proof (zlen_rgb px); pose proof (zlen_bgr px); unfold zlen in *; lia|]. intros pre post old Ho. exists (zlen px * 3).
  pose proof (row_rgb pre post pad (zlen px * 3) px [] old (S (Z.to_nat (zlen px * 3)))) as Hr. cbn [app flat map concat] in Hr. change (3 * zlen []) with 0 in Hr. rewrite swap_flat.
  apply Hr; [change (zlen []) with 0; lia|done| |unfold zlen; lia]. rewrite Ho. pose proof (zlen_rgb px). unfold zlen in *. lia.
Qed.

Lemma encodes_grey row pad : zlen row < 4294967295 -> encodes 1 (zlen row) pad id row.
Proof.
  intros Hb. split; [done|]. intros pre post old Ho. exists (zlen row). pose proof (row_grey pre post pad (zlen row) row [] old (S (Z.to_nat (zlen row)))) as Hr. cbn [app] in Hr. change (zlen []) with 0 in Hr. apply Hr; [done|done|done|unfold zlen; lia].
Qed.

(** *** The whole file *)

Definition stride (bmpwidth : Z) : Z := (bmpwidth + 3) / 4 * 4.
Definition padding (bmpwidth : Z) : list Z := replicate (Z.to_nat (stride bmpwidth - bmpwidth)) 0.

Lemma stride_bounds n : 0 <= n -> n <= stride n < n + 4.
Proof. intros Hn. unfold stride. pose proof (Z.div_mod (n + 3) 4). pose proof (Z.mod_pos_bound (n + 3) 4). lia. Qed.

(** An image that fits the 32-bit sizes. *)
Record fits (w h d : Z) : Prop := { fits_w : 0 < w; fits_h : 0 < h; fits_d : d = 1 \/ d = 3; fits_size : 1078 + stride (w * d) * h < 4294967296 }.

Lemma fits_width w h d : fits w h d -> 0 < w * d < 4294967000.
Proof. intros [Hw Hh Hd Hs]. assert (0 < w * d) as H0 by (destruct Hd as [-> | ->]; lia). pose proof (stride_bounds (w * d)). nia. Qed.

Lemma write_bmp_data_ok w h d enc rows : fits w h d -> zlen rows = h -> Forall (fun row => zlen row = w * d) rows -> Forall (encodes d (w * d) (padding (w * d)) enc) rows ->
  write_bmp_data (JpegInfo w h d) (concat rows) = Ok (concat (map (fun row => enc row ++ padding (w * d)) (reverse rows))).
Proof.
  intros Hf Hh Hl He. pose proof (fits_width _ _ _ Hf) as Hw. pose proof (stride_bounds (w * d)) as Hst. destruct Hf as [Hw0 Hh0 Hd Hs]. unfold write_bmp_data. cbn [output_width output_height output_components].
  assert (u16 d = d) as -> by (unfold u16; destruct Hd as [-> | ->]; done). assert (u32 (w * d) = w * d) as Eb by (apply u32_id; lia). rewrite Eb, (u32_id (w * d + 3)) by lia. fold (stride (w * d)). rewrite (u32_id (stride (w * d))) by lia.
  rewrite (u32_id (h - 1)) by nia. rewrite (u32_id (w * d * (h - 1))) by nia.
  assert (replicate (Z.to_nat (stride (w * d))) 0 = replicate (Z.to_nat (w * d)) 0 ++ padding (w * d)) as -> by (unfold padding; rewrite <- replicate_add; f_equal; lia).
  assert (zlen (concat rows) = w * d * h) as Ec. { clear -Hl Hh. subst h. induction Hl as [|row rows Hr _ IH]; [change (0 = w * d * 0); lia|]. cbn [concat]. rewrite zlen_app, zlen_cons, IH, Hr. lia. }
  unfold for_up. replace (Z.to_nat (h - 0)) with (length rows) by (unfold zlen in Hh; lia). replace (w * d * (h - 1)) with (zlen (concat rows) - w * d) by lia.
  destruct (rows_loop w d (w * d) (padding (w * d)) enc Eb rows He Hl [] (replicate (Z.to_nat (w * d)) 0) [] 0) as (p & dst & E); [by rewrite zlen_replicate by lia|]. rewrite app_nil_r in E. rewrite E. done.
Qed.

Definition header_bytes (w h d : Z) : list Z :=
  let headersize := if d =? 1 then 1078 else 54 in
  let bmpsize := stride (w * d) * h in
  fileheader_bytes (FileHeader 19778 (headersize + bmpsize) 0 0 headersize) ++ infoheader_bytes (InfoHeader 40 w h 1 (d * 8) 0 bmpsize 39361 39361 0 0) ++
  (if d =? 1 then concat (map (fun j => [j; j; j; 0]) (seqZ 0 256)) else []).

Lemma palette_ok : palette = Ok (concat (map (fun j => [j; j; j; 0]) (seqZ 0 256))).
Proof. vm_compute. reflexivity. Qed.

Lemma write_bmp_header_ok w h d : fits w h d -> write_bmp_header (JpegInfo w h d) = Ok (header_bytes w h d).
Proof.
  intros Hf. pose proof (fits_width _ _ _ Hf) as Hw. pose proof (stride_bounds (w * d)) as Hst. destruct Hf as [Hw0 Hh0 Hd Hs]. unfold write_bmp_header, header_bytes. cbn [output_width output_height output_components].
  assert (u16 d = d) as -> by (unfold u16; destruct Hd as [-> | ->]; done). rewrite (u32_id (w * d)), (u32_id (w * d + 3)) by lia. fold (stride (w * d)). rewrite (u32_id (stride (w * d))) by lia. rewrite (u32_id (stride (w * d) * h)) by nia.
  destruct Hd as [-> | ->]; cbn [Z.eqb Pos.eqb bind]; rewrite u32_id by nia; [by rewrite palette_ok|done].
Qed.

Lemma analyse_jpeg_ok w h d enc scanlines : fits w h d -> (forall k, 0 <= k < h -> zlen (scanlines k) = w * d) ->
  let rows := map (fun k => scanlines (Z.of_nat k)) (seq 0 (Z.to_nat h)) in
  Forall (encodes d (w * d) (padding (w * d)) enc) rows ->
  analyse_jpeg (JpegInfo w h d) scanlines = Ok (header_bytes w h d ++ concat (map (fun row => enc row ++ padding (w * d)) (reverse rows))).
Proof.
  intros Hf Hs rows He. pose proof (fits_width _ _ _ Hf) as Hw. pose proof (stride_bounds (w * d)) as Hst. pose proof Hf as [Hw0 Hh0 Hd Hsz]. unfold analyse_jpeg. cbn [output_width output_height output_components].
  assert (u16 d = d) as -> by (unfold u16; destruct Hd as [-> | ->]; done). rewrite (u32_id (w * d)) by lia. replace (w * h * d) with (Z.of_nat (Z.to_nat h) * (w * d)) by lia. rewrite (u32_id (Z.of_nat (Z.to_nat h) * (w * d))) by nia.
  unfold for_up. rewrite Z.sub_0_r. pose proof (bmp_scan_loop scanlines (w * d) (Z.to_nat h) 0 []) as Hsc. cbn [app] in Hsc. change (zlen []) with 0 in Hsc. change (Z.of_nat 0) with 0 in Hsc. rewrite Hsc; [|lia|intros k Hk; apply Hs; lia]. cbn [bind].
  rewrite write_bmp_header_ok by done. cbn [bind]. fold rows. rewrite (write_bmp_data_ok w h d enc rows); [done|done| | |done].
  - unfold rows, zlen. rewrite length_map, length_seq. lia.
  - unfold rows. apply Forall_map, Forall_forall. intros k Hk%elem_of_seq. apply Hs. lia.
Qed.

(** ** The format *)

(** A reader of BMP files: a field of the headers, and a pixel. *)
Fixpoint un_le (bs : list Z) : Z := match bs with [] => 0 | b :: bs => b + 256 * un_le bs end.
Definition field (file : list Z) (offset n : nat) : Z := un_le (take n (drop offset file)).

Definition bmp_pixel (file : list Z) (x y : Z) : Z * Z * Z :=
  let width := field file 18 4 in
  let bits := field file 28 2 in
  let row := field file 10 4 + (field file 22 4 - 1 - y) * ((width * bits + 31) / 32 * 4) in
  if bits =? 24 then (file.[row + 3 * x + 2], file.[row + 3 * x + 1], file.[row + 3 * x])
  else let v := file.[row + x] in (file.[54 + 4 * v + 2], file.[54 + 4 * v + 1], file.[54 + 4 * v]).

Lemma un_le_le n v : 0 <= v < 256 ^ Z.of_nat n -> un_le (le n v) = v.
Proof.
  revert v. induction n as [|n IH]; intros v Hv; cbn [le un_le]; [cbn in Hv; lia|]. rewrite Nat2Z.inj_succ, Z.pow_succ_r in Hv by lia.
  rewrite IH; [pose proof (Z.div_mod v 256); lia|]. split; [apply Z.div_pos; lia|apply Z.div_lt_upper_bound; lia].
Qed.

Definition header_size (d : Z) : Z := if d =? 1 then 1078 else 54.

Lemma zlen_header w h d : d = 1 \/ d = 3 -> zlen (header_bytes w h d) = header_size d.
Proof. by intros [-> | ->]. Qed.

(** The fields of the headers. *)
Lemma header_fields w h d rest : fits w h d -> let file := header_bytes w h d ++ rest in
  take 2 file = bytes "BM" /\ field file 2 4 = header_size d + stride (w * d) * h /\ field file 10 4 = header_size d /\ field file 18 4 = w /\ field file 22 4 = h /\ field file 28 2 = 8 * d.
Proof.
  intros Hf file. pose proof (fits_width _ _ _ Hf) as Hw. pose proof (stride_bounds (w * d)) as Hst. destruct Hf as [Hw0 Hh0 Hd Hs]. assert (header_size d <= 1078 /\ 0 <= header_size d) as [? ?] by (unfold header_size; destruct (d =? 1); lia).
  assert (forall v, 0 <= v < 4294967296 -> un_le (le 4 v) = v) as H4 by (intros v Hv; apply un_le_le; change (256 ^ Z.of_nat 4) with 4294967296; lia).
  assert (1 <= stride (w * d)) by lia. assert (h < 4294967296) by nia. assert (w < 4294967296) by (destruct Hd as [-> | ->]; lia).
  split; [done|]. split; [|split; [|split; [|split]]].
  - change (field file 2 4) with (un_le (le 4 (header_size d + stride (w * d) * h))). apply H4. lia.
  - change (field file 10 4) with (un_le (le 4 (header_size d))). apply H4. lia.
  - change (field file 18 4) with (un_le (le 4 w)). apply H4. lia.
  - change (field file 22 4) with (un_le (le 4 h)). apply H4. lia.
  - change (field file 28 2) with (un_le (le 2 (d * 8))). rewrite un_le_le; [lia|]. change (256 ^ Z.of_nat 2) with 65536. lia.
Qed.

Lemma bmp_aget_reverse {A} `{Inhabited A} (xs : list A) i : 0 <= i < zlen xs -> (reverse xs).[zlen xs - 1 - i] = xs.[i].
Proof.
  intros Hi. unfold aget, zlen in *. rewrite !list_lookup_total_alt, reverse_lookup by lia. do 2 f_equal. lia.
Qed.

(** The cell [j] of the row of the image with number [y]. *)
Lemma file_cell header (f : list Z -> list Z) rows st y j : Forall (fun row => zlen (f row) = st) rows -> 0 <= y < zlen rows -> 0 <= j < st ->
  (header ++ concat (map f (reverse rows))).[zlen header + (zlen rows - 1 - y) * st + j] = (f rows.[y]).[j].
Proof.
  intros Hl Hy Hj. rewrite aget_app_r by nia. replace (zlen header + (zlen rows - 1 - y) * st + j - zlen header) with ((zlen rows - 1 - y) * st + j) by lia.
  destruct (aget_concat (map f (reverse rows)) st (zlen rows - 1 - y) j) as [_ ->]; [|rewrite zlen_map, zlen_reverse; lia|done|].
  - apply Forall_map, Forall_forall. intros row Hr. rewrite Forall_forall in Hl. apply Hl. by apply elem_of_reverse.
  - rewrite aget_map by (rewrite zlen_reverse; lia). by rewrite bmp_aget_reverse.
Qed.

Lemma stride_bits n : (n * 8 + 31) / 32 * 4 = stride n.
Proof. unfold stride. change 32 with (8 * 4). rewrite <- Z.div_div by lia. replace ((n * 8 + 31) / 8) with (n + 3); [done|]. apply (Z.div_unique _ 8 _ 7); lia. Qed.

Lemma flat_cell px pad x c : 0 <= x < zlen px -> 0 <= c < 3 -> (flat bgr px ++ pad).[3 * x + c] = (bgr px.[x]).[c].
Proof.
  intros Hx Hc. rewrite aget_app_l by (rewrite zlen_bgr; lia). unfold flat. replace (3 * x + c) with (x * 3 + c) by lia.
  destruct (aget_concat (map bgr px) 3 x c) as [_ ->]; [|by rewrite zlen_map|done|by rewrite aget_map]. apply Forall_map, Forall_forall. by intros [[??]?] _.
Qed.

Lemma zlen_padded n row : 0 <= n -> zlen row = n -> zlen (row ++ padding n) = stride n.
Proof. intros Hn <-. unfold padding. pose proof (stride_bounds (zlen row)). rewrite zlen_app, zlen_replicate; lia. Qed.

Lemma palette_cell w h rest v c : 0 <= v < 256 -> 0 <= c < 3 -> (header_bytes w h 1 ++ rest).[54 + 4 * v + c] = v.
Proof.
  intros Hv Hc. unfold header_bytes. cbn [Z.eqb Pos.eqb]. rewrite <- !app_assoc, app_assoc. set (hd := fileheader_bytes _ ++ infoheader_bytes _). assert (zlen hd = 54) as Hl by done. clearbody hd.
  rewrite aget_app_r by lia. rewrite Hl. replace (54 + 4 * v + c - 54) with (v * 4 + c) by lia.
  assert (zlen (seqZ 0 256) = 256) as Hz by done. destruct (aget_concat (map (fun j => [j; j; j; 0]) (seqZ 0 256)) 4 v c) as [Hb E]; [apply Forall_map, Forall_forall; done|rewrite zlen_map; lia|lia|]. rewrite aget_app_l, E, aget_map by lia.
  assert ((seqZ 0 256).[v] = v) as -> by (unfold aget; rewrite list_lookup_total_alt, lookup_seqZ_lt by lia; cbn; lia).
  assert (c = 0 \/ c = 1 \/ c = 2) as [-> |[-> | ->]] by lia; done.
Qed.

Lemma bmp_file w h d enc scan : fits w h d -> (forall k, 0 <= k < h -> zlen (scan k) = w * d /\ encodes d (w * d) (padding (w * d)) enc (scan k)) ->
  exists rest, let file := header_bytes w h d ++ rest in
  process_jpg_bmp true true (JpegInfo w h d) scan = Ok (0, Some file) /\ field file 2 4 = zlen file /\
  forall y j, 0 <= y < h -> 0 <= j < stride (w * d) -> file.[field file 10 4 + (field file 22 4 - 1 - y) * ((field file 18 4 * field file 28 2 + 31) / 32 * 4) + j] = (enc (scan y) ++ padding (w * d)).[j].
Proof.
  intros Hf Hs. set (rows := map (fun k => scan (Z.of_nat k)) (seq 0 (Z.to_nat h))). set (f := fun row => enc row ++ padding (w * d)). exists (concat (map f (reverse rows))). intros file.
  pose proof (fits_width _ _ _ Hf) as Hw. destruct (header_fields w h d (concat (map f (reverse rows))) Hf) as (_ & E2 & E10 & E18 & E22 & E28). fold file in E2, E10, E18, E22, E28. pose proof Hf as [Hw0 Hh0 Hd Hsz].
  assert (zlen rows = h) as Hr by (unfold rows, zlen; rewrite length_map, length_seq; lia).
  assert (Forall (fun row => zlen (f row) = stride (w * d)) rows) as Hl.
  { unfold rows. apply Forall_map, Forall_forall. intros k Hk%elem_of_seq. destruct (Hs (Z.of_nat k)) as [Hz [He _]]; [lia|]. unfold f. apply zlen_padded; [lia|]. unfold zlen in *. lia. }
  assert (forall y, 0 <= y < h -> rows.[y] = scan y) as Hrow.
  { intros y Hy. unfold rows. unfold aget. rewrite list_lookup_total_alt, list_lookup_fmap, lookup_seq_lt by lia. cbn. f_equal. lia. }
  split_and!.
  - unfold process_jpg_bmp. cbn [negb]. rewrite (analyse_jpeg_ok w h d enc scan); [done|done|intros k Hk; by apply Hs|]. apply Forall_map, Forall_forall. intros k Hk%elem_of_seq. apply Hs. lia.
  - rewrite E2. unfold file. rewrite zlen_app, zlen_header by done. f_equal.
    assert (forall rs, Forall (fun row => zlen (f row) = stride (w * d)) rs -> zlen (concat (map f rs)) = stride (w * d) * zlen rs) as Hc.
    { clear. intros rs H. induction H as [|r rs Hr _ IH]; [change (0 = stride (w * d) * 0); lia|]. cbn [map concat]. rewrite zlen_app, zlen_cons, IH, Hr. lia. }
    rewrite Hc, zlen_reverse, Hr; [done|]. by apply Forall_reverse.
  - intros y j Hy Hj. rewrite E10, E18, E22, E28. replace (w * (8 * d) + 31) with (w * d * 8 + 31) by lia. rewrite stride_bits. rewrite <- (Hrow y Hy). pose proof (file_cell (header_bytes w h d) f rows (stride (w * d)) y j Hl ltac:(lia) Hj) as Hc. rewrite zlen_header, Hr in Hc by done. exact Hc.
Qed.

(** C28. The BMP files are right: for every colour or grey image whose file has less
    than 2^32 bytes process_jpg_bmp writes a file with the signature BM, its own
    size, and the width and height of the image in its headers, in which a reader
    that follows the headers (rows from the bottom up, padded to four bytes, blue
    first, or through the palette) finds every pixel of the image. *)
Theorem bmp_holds_image w h :
  (forall rows : list (list (Z * Z * Z)), fits w h 3 -> zlen rows = h -> Forall (fun row => zlen row = w) rows ->
    exists file, process_jpg_bmp true true (JpegInfo w h 3) (fun k => flat rgb rows.[k]) = Ok (0, Some file) /\
    take 2 file = bytes "BM" /\ field file 2 4 = zlen file /\ field file 18 4 = w /\ field file 22 4 = h /\
    forall x y, 0 <= x < w -> 0 <= y < h -> bmp_pixel file x y = rows.[y].[x]) /\
  (forall rows : list (list Z), fits w h 1 -> zlen rows = h -> Forall (fun row => zlen row = w /\ Forall byte row) rows ->
    exists file, process_jpg_bmp true true (JpegInfo w h 1) (fun k => rows.[k]) = Ok (0, Some file) /\
    take 2 file = bytes "BM" /\ field file 2 4 = zlen file /\ field file 18 4 = w /\ field file 22 4 = h /\
    forall x y, 0 <= x < w -> 0 <= y < h -> bmp_pixel file x y = (rows.[y].[x], rows.[y].[x], rows.[y].[x])).
Proof.
  split.
  - intros rows Hf Hr Hl. assert (forall k, 0 <= k < h -> zlen rows.[k] = w) as Hk by (intros k Hk; apply (Forall_aget_1 _ _ _ Hl); lia). pose proof (fits_width _ _ _ Hf) as Hw.
    destruct (bmp_file w h 3 swap_rgb (fun k => flat rgb rows.[k]) Hf) as (rest & Ep & E2 & Hcell).
    { intros k Hkr. split; [rewrite zlen_rgb, Hk by done; lia|]. apply encodes_rgb; [by apply Hk|lia]. }
    destruct (header_fields w h 3 rest Hf) as (EB & _ & E10 & E18 & E22 & E28). cbv zeta in *. set (file := header_bytes w h 3 ++ rest) in *. exists file. split_and!; [done|done|done|done|done|].
    intros x y Hx Hy. pose proof (stride_bounds (w * 3)) as Hst. unfold bmp_pixel. rewrite E28 in Hcell |- *. change (8 * 3 =? 24) with true. cbv iota zeta.
    assert (forall c, 0 <= c < 3 -> file.[field file 10 4 + (field file 22 4 - 1 - y) * ((field file 18 4 * (8 * 3) + 31) / 32 * 4) + 3 * x + c] = (bgr rows.[y].[x]).[c]) as Hpx.
    { intros c Hc. rewrite <- Z.add_assoc, Hcell by lia. rewrite swap_flat. apply flat_cell; [rewrite Hk by done; lia|done]. }
    pose proof (Hpx 0 ltac:(lia)) as P0. rewrite Z.add_0_r in P0. rewrite P0, (Hpx 1), (Hpx 2) by lia. by destruct rows.[y].[x] as [[r g] b].
  - intros rows Hf Hr Hl. assert (forall k, 0 <= k < h -> zlen rows.[k] = w /\ Forall byte rows.[k]) as Hk by (intros k Hk; apply (Forall_aget_1 _ _ _ Hl); lia). pose proof (fits_width _ _ _ Hf) as Hw.
    destruct (bmp_file w h 1 id (fun k => rows.[k]) Hf) as (rest & Ep & E2 & Hcell).
    { intros k Hkr. destruct (Hk k Hkr) as [Ew _]. cbv beta. assert (w * 1 = zlen rows.[k]) as E1 by lia. rewrite E1 in Hw |- *. split; [done|]. apply encodes_grey. lia. }
    destruct (header_fields w h 1 rest Hf) as (EB & _ & E10 & E18 & E22 & E28). cbv zeta in *. pose proof (fun v c => palette_cell w h rest v c) as Hpal. set (file := header_bytes w h 1 ++ rest) in *. exists file. split_and!; [done|done|done|done|done|].
    intros x y Hx Hy. pose proof (stride_bounds (w * 1)) as Hst. destruct (Hk y Hy) as [Ew Hby]. unfold bmp_pixel. rewrite E28 in Hcell |- *. change (8 * 1 =? 24) with false. cbv iota zeta. rewrite (Hcell y x) by lia. unfold id. rewrite aget_app_l by lia.
    assert (byte rows.[y].[x]) as Hv by (apply (Forall_aget_1 _ _ _ Hby); lia). unfold byte in Hv. rewrite (Hpal _ 1 Hv), (Hpal _ 2 Hv) by lia. pose proof (Hpal _ 0 Hv ltac:(lia)) as P0. rewrite Z.add_0_r in P0. by rewrite P0.
Qed.

(** ** There and back *)

Lemma bmp_line_loop data pre post todo : forall have old j, data = pre ++ map Some (flat bgr have) ++ map Some (flat bgr todo) ++ post -> zlen have = j -> length old = (3 * length todo)%nat ->
  for_n (length todo) j (line_turn data) (map Some (flat rgb have) ++ old, zlen pre + 3 * zlen have) = Ok (map Some (flat rgb (have ++ todo)), zlen pre + 3 * (zlen have + zlen todo)).
Proof.
  induction todo as [|[[r g] b] todo IH]; intros have old j Ed Hj Hold; cbn [length for_n].
  - destruct old; [|done]. rewrite !app_nil_r. by rewrite Z.add_0_r.
  - destruct (triple_split _ _ Hold) as (x & y & z & old' & -> & Hold').
    assert (data = (pre ++ map Some (flat bgr have)) ++ Some b :: Some g :: Some r :: map Some (flat bgr todo) ++ post) as Es by (rewrite Ed; unfold flat; cbn; by rewrite <- !app_assoc).
    destruct (rd_app3 (pre ++ map Some (flat bgr have)) (Some b) (Some g) (Some r) (map Some (flat bgr todo) ++ post) (zlen pre + 3 * zlen have)) as (R0 & R1 & R2); [by rewrite zlen_app, zlen_map, zlen_bgr|]. rewrite <- Es in R0, R1, R2.
    assert (zlen (map Some (flat rgb have)) = j * 3) as Hz by (rewrite zlen_map, zlen_rgb; lia).
    unfold line_turn at 1, rdu. rewrite R0. cbn [bind]. rewrite (proj2 (proj2 (wr_app3 (map Some (flat rgb have)) x y z old' (j * 3) (Some b) Hz))). cbn [bind]. rewrite R1. cbn [bind].
    rewrite (proj1 (proj2 (wr_app3 (map Some (flat rgb have)) x y (Some b) old' (j * 3) (Some g) Hz))). cbn [bind]. rewrite R2. cbn [bind]. rewrite Z.add_0_r, (proj1 (wr_app3 (map Some (flat rgb have)) x (Some g) (Some b) old' (j * 3) (Some r) Hz)). cbn [bind].
    specialize (IH (have ++ [(r, g, b)]) old' (j + 1)). rewrite !flat_snoc, !map_app, zlen_snoc in IH. rewrite <- !app_assoc in IH. cbn [app map rgb bgr] in IH.
    replace (zlen pre + 3 * zlen have + 3) with (zlen pre + 3 * (zlen have + 1)) by lia. rewrite IH; [|by rewrite Es, <- !app_assoc|lia|done]. rewrite zlen_cons. do 2 f_equal. lia.
Qed.

Definition line_of (px : list (Z * Z * Z)) : option (list (option Z)) := Some (map Some (flat rgb px)).

Lemma lines_loop W H data post todo : 0 <= W -> Forall (fun px => zlen px = W) todo -> forall pre free rest i, data = pre ++ map Some (concat (map (flat bgr) todo)) ++ post -> length free = length todo -> H - i = zlen free ->
  exists k, for_n (length todo) i (lines_turn W H data) (free ++ rest, zlen pre) = Ok (map line_of (reverse todo) ++ rest, k).
Proof.
  intros HW. induction 1 as [|px todo Hpx Htodo IH]; intros pre free rest i Ed Hf Hi; cbn [length for_n]; [destruct free; [|done]; by eexists|].
  destruct (exists_last_or free) as [->|(free' & c & ->)]; [done|]. rewrite length_app in Hf. cbn [length] in Hf. rewrite zlen_snoc in Hi.
  unfold lines_turn at 1, for_up. replace (Z.to_nat (W - 0)) with (length px) by (unfold zlen in Hpx; lia).
  pose proof (bmp_line_loop data pre (map Some (concat (map (flat bgr) todo)) ++ post) px [] (uninit (W * IMG_COLOR)) 0) as Hline. cbn [flat map concat app] in Hline. change (zlen []) with 0 in Hline. rewrite Z.mul_0_r, Z.add_0_r, Z.add_0_l in Hline.
  rewrite Hline; [|rewrite Ed; cbn [map concat]; by rewrite map_app, <- app_assoc|done|unfold uninit, IMG_COLOR; rewrite length_replicate; unfold zlen in Hpx; lia]. cbn [bind].
  rewrite <- app_assoc. cbn [app]. rewrite (wr_middle free') by lia. cbn [bind].
  destruct (IH (pre ++ map Some (flat bgr px)) free' (line_of px :: rest) (i + 1)) as [k Hk]; [rewrite Ed; cbn [map concat]; by rewrite map_app, <- !app_assoc|lia|lia|]. rewrite zlen_app, zlen_map, zlen_bgr in Hk. exists k. etransitivity; [exact Hk|]. by rewrite reverse_cons, map_app, <- app_assoc.
Qed.

Lemma scanlines_loop rest todo : forall pre rows i, zlen pre = i ->
  for_n (length todo) i (fun i rows => let* p := rd (pre ++ map line_of todo ++ rest) i in match p with Some line => let* line := contents line in Ok (rows ++ [line]) | None => Fail Uninit end) rows =
  Ok (rows ++ map (flat rgb) todo).
Proof.
  induction todo as [|px todo IH]; intros pre rows i Hi; cbn [length for_n]; [by rewrite app_nil_r|]. cbn [map app]. rewrite (rd_middle pre) by done. cbn [bind line_of]. rewrite contents_Some. cbn [bind].
  specialize (IH (pre ++ [line_of px]) (rows ++ [flat rgb px]) (i + 1)). rewrite <- !app_assoc in IH. cbn [app] in IH. apply IH. rewrite zlen_snoc. lia.
Qed.

Lemma bmp_rows_ok W H rows : 0 <= W -> 0 <= H <= H * W * 3 / 8 -> zlen rows = H -> Forall (fun px => zlen px = W) rows ->
  bmp_rows W H (map Some (concat (map (flat bgr) (reverse rows)))) = Ok (map (flat rgb) rows).
Proof.
  intros HW HH Hr Hl. unfold bmp_rows, for_up. rewrite Z.sub_0_r. replace (Z.to_nat H) with (length (reverse rows)) at 1 by (rewrite length_reverse; unfold zlen in Hr; lia).
  assert (replicate (Z.to_nat (H * W * IMG_COLOR / 8)) (@None (list (option Z))) = replicate (length rows) None ++ replicate (Z.to_nat (H * W * IMG_COLOR / 8) - length rows) None) as -> by (rewrite <- replicate_add; f_equal; unfold IMG_COLOR, zlen in *; lia).
  destruct (lines_loop W H (map Some (concat (map (flat bgr) (reverse rows)))) [] (reverse rows) HW) with (pre := @nil (option Z)) (free := replicate (length rows) (@None (list (option Z)))) (rest := replicate (Z.to_nat (H * W * IMG_COLOR / 8) - length rows) (@None (list (option Z)))) (i := 0) as [k E].
  - by apply Forall_reverse.
  - cbn [app]. by rewrite app_nil_r.
  - by rewrite length_replicate, length_reverse.
  - unfold zlen in *. rewrite length_replicate. lia.
  - change (zlen []) with 0 in E. rewrite E. cbn [bind]. rewrite reverse_involutive. unfold scanlines_of, for_up. replace (Z.to_nat (H - 0)) with (length rows) by (unfold zlen in Hr; lia). by apply (scanlines_loop _ rows [] [] 0).
Qed.

(** C29. A colour image of 1920 by 1080 pixels survives the way through a BMP file:
    the rows that process_bmp_jpg hands to the encoder, read from the file that
    process_jpg_bmp wrote for a decoded image, are the rows of that image, in their
    order. *)
Theorem bmp_roundtrip (rows : list (list (Z * Z * Z))) : zlen rows = IMG_H -> Forall (fun row => zlen row = IMG_W) rows ->
  exists file, process_jpg_bmp true true (JpegInfo IMG_W IMG_H IMG_COLOR) (fun k => flat rgb rows.[k]) = Ok (0, Some file) /\
  process_bmp_jpg (Some file) false true = Ok (0, Some (map (flat rgb) rows)).
Proof.
  intros Hr Hl. assert (fits IMG_W IMG_H IMG_COLOR) as Hf by (split; [done|done|by right|done]). assert (forall k, 0 <= k < IMG_H -> zlen rows.[k] = IMG_W) as Hk by (intros k Hk; apply (Forall_aget_1 _ _ _ Hl); lia).
  set (scan := fun k => flat rgb rows.[k]). set (f := fun row => swap_rgb row ++ padding (IMG_W * IMG_COLOR)).
  assert (map (fun k => scan (Z.of_nat k)) (seq 0 (Z.to_nat IMG_H)) = map (flat rgb) rows) as Es.
  { apply list_eq. intros k. rewrite !list_lookup_fmap. destruct (decide (k < Z.to_nat IMG_H)%nat) as [Hlt|Hge].
    - rewrite lookup_seq_lt by done. cbn. destruct (lookup_lt_is_Some_2 rows k) as [row Erow]; [unfold zlen in Hr; lia|]. rewrite Erow. cbn. unfold scan, aget. rewrite Nat2Z.id, list_lookup_total_alt, Erow. done.
    - rewrite lookup_seq_ge, (lookup_ge_None_2 rows) by (unfold zlen in Hr; lia). done. }
  unfold process_jpg_bmp. cbn [negb]. rewrite (analyse_jpeg_ok IMG_W IMG_H IMG_COLOR swap_rgb scan Hf); [|intros k Hkr; unfold scan; rewrite zlen_rgb, Hk by done; done|].
  2: { rewrite Es. apply Forall_map. eapply Forall_impl; [exact Hl|]. intros row Hrow. by apply encodes_rgb. }
  rewrite Es. cbn [bind]. eexists. split; [reflexivity|].
  assert (concat (map f (reverse (map (flat rgb) rows))) = concat (map (flat bgr) (reverse rows))) as Ed.
  { rewrite <- fmap_reverse, map_map. f_equal. apply map_ext_in. intros row _. unfold f. rewrite swap_flat. change (padding (IMG_W * IMG_COLOR)) with (@nil Z). apply app_nil_r. }
  fold f. rewrite Ed. set (data := concat (map (flat bgr) (reverse rows))). assert (zlen data = IMG_W * IMG_H * IMG_COLOR) as Hz.
  { clear -Hr Hl. assert (forall rs, Forall (fun row => zlen row = IMG_W) rs -> zlen (concat (map (flat bgr) rs)) = IMG_W * zlen rs * IMG_COLOR) as H.
    { clear. intros rs H. induction H as [|r rs Hr _ IH]; [done|]. cbn [map concat]. rewrite zlen_app, zlen_bgr, zlen_cons, IH, Hr. unfold IMG_COLOR. lia. }
    unfold data. rewrite H, zlen_reverse, Hr; [done|]. by apply Forall_reverse. }
  unfold process_bmp_jpg. rewrite andb_false_r. cbn [negb]. assert (drop 54 (header_bytes IMG_W IMG_H IMG_COLOR ++ data) = data) as Edrop by (apply drop_app_length'; done).
  assert (read_pixels (header_bytes IMG_W IMG_H IMG_COLOR ++ data) (IMG_W * IMG_H * IMG_COLOR) = map Some data) as ->.
  { unfold read_pixels. rewrite Edrop, <- Hz. unfold zlen. rewrite Nat2Z.id, firstn_all, Nat.sub_diag. cbn [replicate]. apply app_nil_r. }
  unfold data. rewrite (bmp_rows_ok IMG_W IMG_H rows); [done|done|done|done|done].
Qed.

Lemma bmp_roundtrip_witness : exists file,
  process_jpg_bmp true true (JpegInfo IMG_W IMG_H IMG_COLOR) (fun k => flat rgb (replicate (Z.to_nat IMG_H) (replicate (Z.to_nat IMG_W) (1, 2, 3))).[k]) = Ok (0, Some file) /\
  process_bmp_jpg (Some file) false true = Ok (0, Some (map (flat rgb) (replicate (Z.to_nat IMG_H) (replicate (Z.to_nat IMG_W) (1, 2, 3))))).
Proof. apply (bmp_roundtrip (replicate (Z.to_nat IMG_H) (replicate (Z.to_nat IMG_W) (1, 2, 3)))); [by apply zlen_replicate|apply Forall_replicate; by apply zlen_replicate]. Defined.

(** A small image: two rows of three pixels, whose rows are padded. *)
Example bmp_example : exists file,
  process_jpg_bmp true true (JpegInfo 3 2 3) (fun k => if k =? 0 then [1; 2; 3; 4; 5; 6; 7; 8; 9] else [10; 11; 12; 13; 14; 15; 16; 17; 18]) = Ok (0, Some file) /\ zlen file = 78 /\
  drop 54 file = [12; 11; 10; 15; 14; 13; 18; 17; 16; 0; 0; 0; 3; 2; 1; 6; 5; 4; 9; 8; 7; 0; 0; 0] /\ bmp_pixel file 2 0 = (7, 8, 9).
Proof. eexists. split; [vm_compute; reflexivity|]. by vm_compute. Qed.

(** A BMP file that is too short is not refused: the encoder would get what was in
    the memory. *)
Lemma short_file_is_used file : (length file <= 54)%nat -> process_bmp_jpg (Some file) false true = Fail Uninit.
Proof.
  intros Hl. unfold process_bmp_jpg. rewrite andb_false_r. cbn [negb]. unfold read_pixels. rewrite drop_ge by done. rewrite take_nil. cbn [map app length]. rewrite Nat.sub_0_r.
  assert (exists n, Z.to_nat (IMG_W * IMG_H * IMG_COLOR) = S n) as [n ->] by (exists (Z.to_nat (IMG_W * IMG_H * IMG_COLOR - 1)); unfold IMG_W, IMG_H, IMG_COLOR; lia). cbn [replicate]. set (data := None :: replicate n None).
  assert (rdu data 0 = Fail Uninit) as Hd by (unfold rdu; pose proof (rd_middle [] None (replicate n None) 0 eq_refl : rd data 0 = Ok None) as ->; done). unfold bmp_rows, for_up.
  assert (exists k, Z.to_nat (IMG_H - 0) = S k) as [k ->] by (exists (Z.to_nat (IMG_H - 1)); unfold IMG_H; lia). cbn [for_n]. unfold lines_turn at 1, for_up.
  assert (exists k, Z.to_nat (IMG_W - 0) = S k) as [k' ->] by (exists (Z.to_nat (IMG_W - 1)); unfold IMG_W; lia). cbn [for_n]. unfold line_turn at 1. by rewrite Hd.
Qed.
