(* ===== verification/EchoKernel.v ===== *)
(** * The echo server in the kernel: os_lesson/echo/k_server/server.c

    A table of ten clients, each with a mode; messages are sent back in upper case,
    in lower case or as they are, and a file of /proc sets the modes.  The handlers
    run one after another here: those of two clients, which the code
    interleaves between its uses of the mutex, are not mixed.  toupper and tolower of the kernel
    are arguments, its sscanf and simple_strtol are as documented, for white space of ASCII; the
    messages it prints are unread out. *)

From S2P Require Import Prelude Arrays CStrings XStrtol.
Open Scope Z_scope.

Definition BUF_SIZE : Z := 1024.
Definition CLIENTS : Z := 10.
Definition PROCFS_MAX_SIZE : Z := 1024.
Definition QUIT : list Z := bytes "quit".
Definition UPPER : list Z := bytes "upper".
Definition LOWER : list Z := bytes "lower".

(** The field [client_cnt] of the struct is never used. *)
Record server_info := ServerInfo { client_id : Z; mode : list Z }.
#[export] Instance server_info_inhabited : Inhabited server_info := populate (ServerInfo 0 []).

Record server := Server {
  info : list server_info;
  char_cnt : Z;
  client_cnt : Z;
  len_check : bool;
  procfs_buffer_size : Z;
  gMode : list Z;
  procfs_buffer : list Z }.

Definition set_info (i : list server_info) (s : server) : server := Server i (char_cnt s) (client_cnt s) (len_check s) (procfs_buffer_size s) (gMode s) (procfs_buffer s).
Definition set_chars (n : Z) (s : server) : server := Server (info s) n (client_cnt s) (len_check s) (procfs_buffer_size s) (gMode s) (procfs_buffer s).
Definition set_clients (n : Z) (s : server) : server := Server (info s) (char_cnt s) n (len_check s) (procfs_buffer_size s) (gMode s) (procfs_buffer s).
Definition set_check (b : bool) (s : server) : server := Server (info s) (char_cnt s) (client_cnt s) b (procfs_buffer_size s) (gMode s) (procfs_buffer s).
Definition set_mode (m : list Z) (s : server) : server := Server (info s) (char_cnt s) (client_cnt s) (len_check s) (procfs_buffer_size s) m (procfs_buffer s).
Definition set_buffer (n : Z) (b : list Z) (s : server) : server := Server (info s) (char_cnt s) (client_cnt s) (len_check s) n (gMode s) b.

(** [memcpy(dst, src, n)], and [strncpy] with the length of the source. *)
Definition copy (dst src : list Z) (n : Z) : res (list Z) := for_up 0 n (fun i dst => let* c := rd src i in wr dst i c) dst.

(** [strncmp(buf, word, sizeof(word) - 1) == 0] *)
Definition starts_with (buf word : list Z) : bool := bool_decide (take (length word) buf = word).

(** server_init *)
Definition server_init : res server :=
  let* gMode := copy (replicate 10 0) (cstr UPPER) (zlen (cstr UPPER)) in
  Ok (Server (replicate (Z.to_nat CLIENTS) (ServerInfo 0 (replicate 10 0))) 0 0 true 0 gMode (replicate (Z.to_nat PROCFS_MAX_SIZE) 0)).

(** The result, the mode in [val] and the server. *)
Definition find_clinet (id : Z) (val : list Z) (s : server) : res (Z * list Z * server) :=
  if client_cnt s =? CLIENTS - 1 then Ok (2, val, s)
  else
    let* r := for_exit 0 CLIENTS (fun i _ =>
      let* e := rd (info s) i in
      if client_id e =? id then
        let* n := strlen (mode e) 0 in
        let* val := copy val (mode e) n in
        Ok (inr val)
      else Ok (inl tt)) tt in
    match r with
    | inr val => Ok (1, val, s)
    | inl _ =>
        let* e := rd (info s) (client_cnt s) in
        let* n := strlen (gMode s) 0 in
        let* m := copy (mode e) (gMode s) n in
        let* i := wr (info s) (client_cnt s) (ServerInfo id m) in
        let* n := strlen m 0 in
        let* val := copy val m n in
        Ok (0, val, set_clients (client_cnt s + 1) (set_info i s))
    end.

Definition update_clinet (id : Z) (val : server_info) (s : server) : res server :=
  if client_cnt s =? CLIENTS - 1 then Ok s
  else
    let* r := for_exit 0 CLIENTS (fun i _ =>
      let* e := rd (info s) i in
      if client_id e =? id then
        let* n := strlen (mode val) 0 in
        let* m := copy (mode e) (mode val) n in
        let* l := wr (info s) i (ServerInfo (client_id val) m) in
        Ok (inr l)
      else Ok (inl tt)) tt in
    match r with inr l => Ok (set_info l s) | inl _ => Ok s end.

Section server.
Context (toupper tolower : Z -> Z).

Definition upper_process (data : list Z) (len : Z) : res (list Z) := for_up 0 len (fun i data => let* c := rd data i in wr data i (toupper c)) data.
Definition lower_process (data : list Z) (len : Z) : res (list Z) := for_up 0 len (fun i data => let* c := rd data i in wr data i (tolower c)) data.
Definition normal_process (data : list Z) (len : Z) : res (list Z) := for_up 0 len (fun _ data => Ok data) data.

(** The reply to the client, if there is one: [nlmsg_new] may fail. *)
Definition nl_recv_msg (pid : Z) (data : list Z) (skb_ok : bool) (s : server) : res (option (list Z) * server) :=
  let* (r, m, s) := find_clinet pid (replicate 10 0) s in
  if r =? 2 then Ok (None, s)
  else
    let* msg_size := strlen data 0 in
    let* msg := copy (replicate (Z.to_nat BUF_SIZE) 0) data msg_size in
    let* (msg, s) :=
      if starts_with msg QUIT then
        let* s := update_clinet pid (ServerInfo 0 m) s in
        Ok (msg, set_clients (client_cnt s - 1) s)
      else
        let* n := strlen msg 0 in
        let* msg :=
          if starts_with m UPPER then upper_process msg n
          else if starts_with m LOWER then lower_process msg n
          else normal_process msg n in
        let* n := strlen msg 0 in
        Ok (msg, set_chars (s32 (char_cnt s + (n - 1))) s) in
    if negb skb_ok then Ok (None, s)
    else Ok (Some (take (Z.to_nat msg_size) msg), s).
End server.

(** ** The files of /proc *)

(** Words of [sscanf(s, "mode %s %s", ...)]. *)
Fixpoint word (s : list Z) : list Z * list Z :=
  match s with
  | c :: s' => if isspace (u8 c) then ([], s) else let '(w, r) := word s' in (c :: w, r)
  | [] => ([], [])
  end.

Definition next_word (s : list Z) : option (list Z * list Z) :=
  match (skip_spaces s).1 with [] => None | s => Some (word s) end.

Definition scan_mode (s : list Z) : list (list Z) :=
  if starts_with s (bytes "mode") then
    match next_word (drop 4 s) with
    | None => []
    | Some (w1, s) => match next_word s with None => [w1] | Some (w2, _) => [w1; w2] end
    end
  else [].

(** A word in a buffer of ten bytes. *)
Definition word_buffer (w : list Z) : res (list Z) := copy (replicate 10 0) (cstr w) (zlen (cstr w)).

(** simple_strtol of the kernel, base ten. *)
Definition simple_strtol (s : list Z) : Z :=
  match s with c :: s' => if c =? ch "-" then - (digits_value 10 0 s').1 else (digits_value 10 0 s).1 | [] => 0 end.

(** The bytes before the terminator. *)
Fixpoint string_of (s : list Z) : res (list Z) :=
  match s with
  | [] => Fail OutOfBounds
  | c :: s => if c =? 0 then Ok [] else let* t := string_of s in Ok (c :: t)
  end.

(** What copy_from_user stores for [size] bytes of which the last [unread] cannot be read. *)
Definition from_user (buf : list Z) (size unread : Z) : list Z := take (Z.to_nat (size - unread)) buf ++ replicate (Z.to_nat unread) 0.

(** The result and the server; [unread] is what copy_from_user returns. *)
Definition procfile_write (buf : list Z) (size unread : Z) (s : server) : res (Z * server) :=
  let size := if PROCFS_MAX_SIZE <? size then PROCFS_MAX_SIZE else size in
  let* b := copy (procfs_buffer s) (from_user buf size unread) size in
  let s := set_buffer size b s in
  if negb (unread =? 0) then Ok (-14, s)
  else
    let* line := string_of b in
    match scan_mode line with
    | [w1; w2] =>
        let* key_tag := word_buffer w1 in
        let* mode_buf := word_buffer w2 in
        let* c := rd key_tag 0 in
        if c =? ch "0" then
          let* n := strlen mode_buf 0 in
          let* m := copy (gMode s) mode_buf n in
          Ok (size, set_mode m s)
        else
          let* key := string_of key_tag in
          let pid := s32 (simple_strtol key) in
          let* (r, m, s) := find_clinet pid (replicate 10 0) s in
          if r =? 1 then
            let* n := strlen mode_buf 0 in
            let* m := copy m mode_buf n in
            let* s := update_clinet pid (ServerInfo pid m) s in
            Ok (size, s)
          else Ok (size, s)
    | [w1] => let* _ := word_buffer w1 in Ok (size, s)
    | _ => Ok (size, s)
    end.

(** What is copied to the reader; the file ends at every second read. *)
Definition procfile_read (s : server) : Z * list Z * server :=
  if len_check s then (procfs_buffer_size s, take (Z.to_nat (procfs_buffer_size s)) (procfs_buffer s), set_check false s)
  else (0, [], set_check true s).

(** The file of the server's state ends with the same flag. *)
Definition procfile_info_read (s : server) : res (list piece * server) :=
  if len_check s then
    let* m := string_of (gMode s) in
    Ok ([PStr "Server info:\nGlobal mode: "] ++ map PChar m ++ [PStr "\nCharacters: "; PInt (char_cnt s); PStr "\nClients: "; PInt (client_cnt s); PStr "\n"], set_check false s)
  else Ok ([], set_check true s).

(** ** Buffers *)

(** A buffer of [n] bytes whose last one is 0. *)
Definition ends_zero (n : nat) (m : list Z) : Prop := length m = n /\ last m = Some 0.

Lemma copy_prefix a s r : (length s <= length a)%nat -> copy a (s ++ r) (zlen s) = Ok (s ++ drop (length s) a).
Proof.
  intros Hl. unfold copy, for_up. rewrite Z.sub_0_r. unfold zlen. rewrite Nat2Z.id.
  assert (forall have todo a, (length todo <= length a)%nat -> for_n (length todo) (zlen have) (fun i dst => let* c := rd (have ++ todo ++ r) i in wr dst i c) (have ++ a) = Ok (have ++ todo ++ drop (length todo) a)) as H; [|apply (H [] s a Hl)].
  clear. intros have todo. revert have. induction todo as [|c todo IH]; intros have a Hl; cbn [length for_n app drop]; [done|]. destruct a as [|x a]; [cbn in Hl; lia|]. rewrite rd_middle by done. cbn [bind]. rewrite wr_middle by done. cbn [bind drop].
  specialize (IH (have ++ [c]) a). rewrite zlen_snoc, <- !app_assoc in IH. cbn [app] in IH. apply IH. cbn in Hl. lia.
Qed.

Lemma ends_zero_text n m : ends_zero n m -> exists t r, m = t ++ 0 :: r /\ nul_free t /\ (length t < n)%nat.
Proof.
  intros [Hl Hz]. revert n Hl Hz. induction m as [|c m IH]; intros n Hl Hz; [done|]. destruct (Z.eq_dec c 0) as [->|Hc]; [exists [], m; split; [done|split; [constructor|cbn in *; lia]]|].
  destruct m as [|c' m]; [cbn in Hz; congruence|]. destruct (IH (length (c' :: m))) as (t & r & E & Ht & Hlt); [done|exact Hz|]. rewrite E. exists (c :: t), r. split; [done|]. split; [by constructor|]. cbn [length] in *. lia.
Qed.

Lemma strlen_text t r : nul_free t -> strlen (t ++ 0 :: r) 0 = Ok (zlen t).
Proof.
  intros Ht. unfold strlen. cbn [Z.leb Z.compare andb]. rewrite (proj2 (Z.leb_le _ _)) by apply zlen_nonneg. cbn [demand bind]. change (Z.to_nat 0) with 0%nat. rewrite drop_0.
  induction Ht as [|c t Hc _ IH]; [done|]. cbn [app strlen_from]. rewrite (proj2 (Z.eqb_neq c 0) Hc), IH. cbn. f_equal. rewrite zlen_cons. lia.
Qed.

Lemma string_of_text t r : nul_free t -> string_of (t ++ 0 :: r) = Ok t.
Proof. induction 1 as [|c t Hc _ IH]; [done|]. cbn [app string_of]. by rewrite (proj2 (Z.eqb_neq c 0) Hc), IH. Qed.

Lemma overlay_ends n (m t : list Z) : ends_zero n m -> (length t < n)%nat -> ends_zero n (t ++ drop (length t) m).
Proof.
  intros [Hl Hz] Ht. split; [rewrite length_app, length_drop; lia|]. rewrite last_app. replace (last (drop (length t) m)) with (last m); [by rewrite Hz|]. rewrite !last_lookup, lookup_drop, length_drop. f_equal. lia.
Qed.

(** A mode is copied over another one. *)
Lemma copy_mode n m src : ends_zero n m -> ends_zero n src -> exists t r, src = t ++ 0 :: r /\ nul_free t /\ strlen src 0 = Ok (zlen t) /\ copy m src (zlen t) = Ok (t ++ drop (length t) m) /\ ends_zero n (t ++ drop (length t) m).
Proof.
  intros Hm Hs. destruct (ends_zero_text n src Hs) as (t & r & -> & Ht & Hl). exists t, r. split; [done|]. split; [done|]. split; [by apply strlen_text|]. split; [apply copy_prefix; destruct Hm; lia|]. by apply overlay_ends.
Qed.

Lemma zeros_end n : ends_zero (S n) (replicate (S n) 0).
Proof. split; [apply length_replicate|]. rewrite replicate_S_end. by rewrite last_snoc. Qed.

(** ** The table *)

(** The clients of a table: an entry of client 0 is free. *)
Definition clients (l : list server_info) : list Z := filter (fun id => id <> 0) (map client_id l).
Definition known (s : server) : list Z := clients (info s).
#[local] Arguments clients : simpl never.
#[local] Arguments known / s.

Record table_ok (s : server) : Prop := {
  ok_length : length (info s) = 10%nat;
  ok_modes : Forall (fun e => ends_zero 10 (mode e)) (info s);
  ok_gmode : ends_zero 10 (gMode s);
  ok_buffer : ends_zero 1024 (procfs_buffer s);
  ok_distinct : NoDup (known s);
  ok_count : zlen (known s) <= client_cnt s <= 9 }.

(** The search of both functions. *)
Lemma search_ok {R} (g : Z -> server_info -> res (unit + R)) id l : (forall i e, g i e <> Ok (inl tt)) -> forall k pre, zlen pre = k ->
  for_exit_n (length l) k (fun i _ => let* e := rd (pre ++ l) i in if client_id e =? id then g i e else Ok (inl tt)) tt =
  match list_find (fun e => client_id e = id) l with
  | Some (i, e) => g (k + Z.of_nat i) e
  | None => Ok (inl tt)
  end.
Proof.
  intros Hg. induction l as [|e l IH]; intros k pre Hk; cbn [length for_exit_n list_find]; [done|]. rewrite rd_middle by done. cbn [bind]. destruct (Z.eqb_spec (client_id e) id) as [E|E].
  - rewrite decide_True by done. rewrite Z.add_0_r. specialize (Hg k e). by destruct (g k e) as [[[]|]|].
  - rewrite decide_False by done. cbn [bind]. specialize (IH (k + 1) (pre ++ [e])). rewrite <- app_assoc in IH. cbn [app] in IH. rewrite IH by (rewrite zlen_snoc; lia).
    destruct (list_find (fun e => client_id e = id) l) as [[i e']|]; cbn; [|done]. by replace (k + 1 + Z.of_nat i) with (k + Z.of_nat (S i)) by lia.
Qed.

Lemma list_find_split {A} (P : A -> Prop) `{forall x, Decision (P x)} l i e : list_find P l = Some (i, e) -> exists pre post, l = pre ++ e :: post /\ zlen pre = Z.of_nat i /\ P e /\ Forall (fun x => ~ P x) pre.
Proof.
  rewrite list_find_Some. intros (Hi & He & Hp). exists (take i l), (drop (S i) l). rewrite take_drop_middle by done. split; [done|]. apply lookup_lt_Some in Hi as Hlt. split; [unfold zlen; rewrite length_take; lia|]. split; [done|].
  apply Forall_lookup. intros j x Hx. apply lookup_take_Some in Hx as [Hx Hj]. by apply (Hp j).
Qed.

Lemma find_step id val s : length (info s) = 10%nat -> client_cnt s <> 9 ->
  find_clinet id val s =
  match list_find (fun e => client_id e = id) (info s) with
  | Some (_, e) => let* n := strlen (mode e) 0 in let* val := copy val (mode e) n in Ok (1, val, s)
  | None =>
      let* e := rd (info s) (client_cnt s) in
      let* n := strlen (gMode s) 0 in
      let* m := copy (mode e) (gMode s) n in
      let* i := wr (info s) (client_cnt s) (ServerInfo id m) in
      let* n := strlen m 0 in
      let* val := copy val m n in
      Ok (0, val, set_clients (client_cnt s + 1) (set_info i s))
  end.
Proof.
  intros Hl Hc. unfold find_clinet. change (CLIENTS - 1) with 9. rewrite (proj2 (Z.eqb_neq _ _) Hc). unfold for_exit. change (Z.to_nat (CLIENTS - 0)) with 10%nat. rewrite <- Hl.
  rewrite (search_ok (fun _ e => let* n := strlen (mode e) 0 in let* val := copy val (mode e) n in Ok (inr val)) id (info s)) with (pre := []).
  - destruct (list_find _ _) as [[i e]|]; [|done]. by destruct (strlen _ _); [cbn; destruct (copy _ _ _)|].
  - intros i e. by destruct (strlen _ _); [cbn; destruct (copy _ _ _)|].
  - done.
Qed.

Lemma update_step id val s : length (info s) = 10%nat -> client_cnt s <> 9 ->
  update_clinet id val s =
  match list_find (fun e => client_id e = id) (info s) with
  | Some (i, e) =>
      let* n := strlen (mode val) 0 in
      let* m := copy (mode e) (mode val) n in
      let* l := wr (info s) (Z.of_nat i) (ServerInfo (client_id val) m) in
      Ok (set_info l s)
  | None => Ok s
  end.
Proof.
  intros Hl Hc. unfold update_clinet. change (CLIENTS - 1) with 9. rewrite (proj2 (Z.eqb_neq _ _) Hc). unfold for_exit. change (Z.to_nat (CLIENTS - 0)) with 10%nat. rewrite <- Hl.
  rewrite (search_ok (fun i e => let* n := strlen (mode val) 0 in let* m := copy (mode e) (mode val) n in let* l := wr (info s) i (ServerInfo (client_id val) m) in Ok (inr l)) id (info s)) with (pre := []).
  - destruct (list_find _ _) as [[i e]|]; [|done]. by destruct (strlen _ _); [cbn; destruct (copy _ _ _); [cbn; destruct (wr _ _ _)|]|].
  - intros i e. by destruct (strlen _ _); [cbn; destruct (copy _ _ _); [cbn; destruct (wr _ _ _)|]|].
  - done.
Qed.

Definition weight (e : server_info) : Z := if client_id e =? 0 then 0 else 1.

Lemma clients_split pre e post : clients (pre ++ e :: post) = clients pre ++ (if client_id e =? 0 then [] else [client_id e]) ++ clients post.
Proof. unfold clients. rewrite map_app. cbn [map]. rewrite filter_app, filter_cons. destruct (Z.eqb_spec (client_id e) 0) as [E|E]; [by rewrite decide_False by auto|by rewrite decide_True]. Qed.

Lemma replace_count pre e e' post : zlen (clients (pre ++ e' :: post)) = zlen (clients (pre ++ e :: post)) - weight e + weight e'.
Proof. rewrite !clients_split, !zlen_app. unfold weight. destruct (client_id e =? 0), (client_id e' =? 0); unfold zlen; cbn [length]; lia. Qed.

Lemma replace_distinct pre e e' post : NoDup (clients (pre ++ e :: post)) -> client_id e' = 0 \/ client_id e' = client_id e \/ client_id e' ∉ clients (pre ++ e :: post) -> NoDup (clients (pre ++ e' :: post)).
Proof.
  rewrite !clients_split. intros Hd Hc. assert (NoDup (clients pre ++ clients post)) as H0.
  { revert Hd. destruct (client_id e =? 0); [done|]. cbn [app]. by rewrite <- Permutation_middle, NoDup_cons; intros []. }
  destruct (Z.eqb_spec (client_id e') 0) as [E|E]; [done|]. destruct Hc as [?|[Hc|Hc]]; [done| |].
  - rewrite Hc in *. by rewrite (proj2 (Z.eqb_neq _ _) E) in Hd.
  - cbn [app]. rewrite <- Permutation_middle. apply NoDup_cons. split; [|done]. revert Hc. rewrite !elem_of_app. tauto.
Qed.

Lemma in_clients l id : id <> 0 -> id ∈ clients l <-> is_Some (list_find (fun e => client_id e = id) l).
Proof.
  intros Hid. unfold clients. rewrite list_elem_of_filter, list_elem_of_fmap. split.
  - intros (_ & e & -> & He). by apply (list_find_elem_of _ _ e).
  - intros [[i e] H]. apply list_find_Some in H as (Hi & <- & _). split; [done|]. exists e. split; [done|]. by apply list_elem_of_lookup_2 in Hi.
Qed.

(** There is always a free entry. *)
Lemma clients_room l : list_find (fun e => client_id e = 0) l = None -> zlen (clients l) = zlen l.
Proof.
  intros H. apply list_find_None in H. unfold clients. induction H as [|e l He _ IH]; [done|]. cbn [map]. rewrite filter_cons, decide_True by done. by rewrite !zlen_cons, IH.
Qed.

Lemma table_replace s pre e e' post n : table_ok s -> info s = pre ++ e :: post -> ends_zero 10 (mode e') ->
  client_id e' = 0 \/ client_id e' = client_id e \/ client_id e' ∉ known s ->
  zlen (known s) - weight e + weight e' <= n <= 9 -> table_ok (set_clients n (set_info (pre ++ e' :: post) s)).
Proof.
  intros [Hl Hm Hg Hb Hd Hc] E He Hid Hn. unfold known in *. rewrite E in *. split; cbn; [rewrite <- Hl, !length_app; cbn; lia| |done|done| |].
  - apply Forall_app in Hm as [Hm1 Hm2]. apply Forall_cons in Hm2 as [_ Hm2]. apply Forall_app. split; [done|by constructor].
  - by apply (replace_distinct pre e).
  - rewrite (replace_count pre e). lia.
Qed.

Lemma table_split s i : table_ok s -> 0 <= i < 10 -> exists pre e post, info s = pre ++ e :: post /\ zlen pre = i /\ ends_zero 10 (mode e).
Proof.
  intros Hs Hi. destruct (lookup_lt_is_Some_2 (info s) (Z.to_nat i)) as [e He]; [rewrite (ok_length s Hs); lia|]. exists (take (Z.to_nat i) (info s)), e, (drop (S (Z.to_nat i)) (info s)). rewrite take_drop_middle by done. split; [done|]. split.
  - unfold zlen. rewrite length_take, (ok_length s Hs). lia.
  - exact (proj1 (Forall_lookup _ _) (ok_modes s Hs) _ _ He).
Qed.

Lemma weight_0 e : client_id e = 0 -> weight e = 0.
Proof. unfold weight. by intros ->. Qed.

Lemma weight_1 e : client_id e <> 0 -> weight e = 1.
Proof. unfold weight. intros H. by rewrite (proj2 (Z.eqb_neq _ _) H). Qed.

Lemma weight_bound e : 0 <= weight e <= 1.
Proof. unfold weight. destruct (_ =? _); lia. Qed.

(** find_clinet is done and the table is as it should be; the count grows with a new client. *)
Lemma find_clinet_ok id s : table_ok s -> wp (find_clinet id (replicate 10 0) s) (fun '(r, m, s') =>
  table_ok s' /\ ends_zero 10 m /\ gMode s' = gMode s /\
  (r <> 2 -> id <> 0 -> id ∈ known s' /\ (client_cnt s <> 9 /\ client_cnt s' = client_cnt s /\ id ∈ known s \/ client_cnt s' = client_cnt s + 1 /\ id ∉ known s))).
Proof.
  intros Hs. pose proof (zeros_end 9) as Hz. destruct (Z.eq_dec (client_cnt s) 9) as [H9|H9].
  { unfold find_clinet. change (CLIENTS - 1) with 9. rewrite (proj2 (Z.eqb_eq _ _) H9). cbn. by split_and!. }
  rewrite find_step by (apply Hs || done). destruct (list_find _ _) as [[i e]|] eqn:E.
  - pose proof (list_find_split _ _ _ _ E) as (pre & post & Ei & _ & Hid & _). destruct (copy_mode 10 (replicate 10 0) (mode e)) as (t & r & _ & _ & -> & Hc & He); [done| |].
    { pose proof (ok_modes s Hs) as Hm. rewrite Ei in Hm. apply Forall_app in Hm as [_ Hm]. by apply Forall_cons in Hm as [Hm _]. }
    cbn [bind]. rewrite Hc. cbn. split_and!; try done. intros _ Hid0. assert (id ∈ known s) by (apply in_clients; [done|by rewrite E]). tauto.
  - pose proof (ok_count s Hs) as Hcnt. pose proof (zlen_nonneg (known s)) as Hk. destruct (table_split s (client_cnt s) Hs) as (pre & e & post & Ei & Hp & Hem); [lia|]. rewrite Ei. rewrite rd_middle by done. cbn [bind].
    destruct (copy_mode 10 (mode e) (gMode s) Hem (ok_gmode s Hs)) as (t & r & _ & _ & -> & Hc & He). cbn [bind]. rewrite Hc. cbn [bind]. rewrite wr_middle by done. cbn [bind]. destruct (copy_mode 10 (replicate 10 0) _ Hz He) as (t' & r' & _ & _ & -> & Hc' & He'). cbn [bind]. rewrite Hc'. cbn [bind].
    assert (id <> 0) as Hid0. { intros ->. apply clients_room in E. unfold known, zlen in *. rewrite (ok_length s Hs) in E. lia. }
    assert (id ∉ known s) as Hnew. { unfold known. rewrite in_clients by done. rewrite E. by intros []. }
    cbn. split_and!; try done; [|intros _ _; split; [|by right; split]].
    + apply (table_replace s pre e (ServerInfo id _) post); [done..|right; by right|]. rewrite (weight_1 (ServerInfo id _)) by done. pose proof (weight_bound e). lia.
    + unfold known. cbn. rewrite clients_split. cbn. rewrite (proj2 (Z.eqb_neq _ _) Hid0). set_solver.
Qed.

Lemma update_clinet_ok id e s : table_ok s -> ends_zero 10 (mode e) -> client_id e = id \/ client_id e = 0 -> wp (update_clinet id e s) (fun s' =>
  table_ok s' /\ client_cnt s' = client_cnt s /\ (client_cnt s <> 9 -> client_id e = 0 -> id ∈ known s -> zlen (known s') = zlen (known s) - 1)).
Proof.
  intros Hs He Hid. destruct (Z.eq_dec (client_cnt s) 9) as [H9|H9].
  { unfold update_clinet. change (CLIENTS - 1) with 9. rewrite (proj2 (Z.eqb_eq _ _) H9). cbn. by split_and!. }
  assert (id ∈ known s -> id <> 0) as Hk0 by (unfold known, clients; rewrite list_elem_of_filter; tauto).
  rewrite update_step by (apply Hs || done). destruct (list_find _ _) as [[i e0]|] eqn:E.
  - pose proof (list_find_split _ _ _ _ E) as (pre & post & Ei & Hp & Hid0 & _). destruct (copy_mode 10 (mode e0) (mode e)) as (t & r & _ & _ & -> & Hc & Ht); [|done|].
    { pose proof (ok_modes s Hs) as Hm. rewrite Ei in Hm. apply Forall_app in Hm as [_ Hm]. by apply Forall_cons in Hm as [Hm _]. }
    cbn [bind]. rewrite Hc. cbn [bind]. rewrite Ei, wr_middle by done. cbn. pose proof (ok_count s Hs). split_and!; [|done|].
    + change (set_info ?l s) with (set_clients (client_cnt s) (set_info l s)). apply (table_replace s pre e0); [done..| |].
      * cbn. rewrite Hid0. tauto.
      * assert (weight (ServerInfo (client_id e) (t ++ drop (length t) (mode e0))) <= weight e0); [|lia]. destruct Hid as [Hid|Hid]; unfold weight; cbn; rewrite Hid; [rewrite Hid0; lia|]. cbn. apply weight_bound.
    + intros _ H0 Hk. unfold known. cbn. rewrite Ei, (replace_count pre e0). rewrite (weight_0 (ServerInfo _ _)) by done. rewrite weight_1; [lia|]. rewrite Hid0. by apply Hk0.
  - cbn. split_and!; try done. intros _ _ Hk. exfalso. apply Hk0 in Hk as Hk'. unfold known in Hk. rewrite in_clients in Hk by done. rewrite E in Hk. by destruct Hk.
Qed.

(** ** Messages *)

Lemma starts_with_pad t n w : nul_free w -> starts_with (t ++ replicate n 0) w = starts_with t w.
Proof.
  intros Hw. unfold starts_with. apply bool_decide_ext. destruct (decide (length w <= length t)%nat) as [H|H]; [by rewrite take_app_le|]. rewrite take_app_ge, take_replicate by lia. split; intros E.
  - exfalso. destruct (Nat.min (length w - length t) n) as [|k] eqn:Ek; [|rewrite <- E in Hw; apply Forall_app in Hw as [_ Hw]; inversion Hw; done]. rewrite app_nil_r in E. rewrite <- E in H. lia.
  - apply (f_equal length) in E. rewrite length_take in E. lia.
Qed.

Lemma quit_nul_free : nul_free QUIT.
Proof. repeat constructor; done. Qed.
Lemma upper_nul_free : nul_free UPPER.
Proof. repeat constructor; done. Qed.
Lemma lower_nul_free : nul_free LOWER.
Proof. repeat constructor; done. Qed.

Lemma process_ok (f : Z -> Z) t r : for_up 0 (zlen t) (fun i data => let* c := rd data i in wr data i (f c)) (t ++ r) = Ok (map f t ++ r).
Proof.
  unfold for_up. rewrite Z.sub_0_r. unfold zlen. rewrite Nat2Z.id.
  assert (forall have todo, for_n (length todo) (zlen have) (fun i data => let* c := rd data i in wr data i (f c)) (have ++ todo ++ r) = Ok (have ++ map f todo ++ r)) as H; [|apply (H [] t)].
  clear. intros have todo. revert have. induction todo as [|c todo IH]; intros have; cbn [length for_n app map]; [done|]. rewrite rd_middle by done. cbn [bind]. rewrite wr_middle by done. cbn [bind].
  specialize (IH (have ++ [f c])). rewrite zlen_snoc, <- !app_assoc in IH. exact IH.
Qed.

Lemma nothing_ok {A} (a : A) n : for_up 0 n (fun _ a => Ok a) a = Ok a.
Proof. unfold for_up. generalize 0 at 2. induction (Z.to_nat _) as [|k IH]; intros i; [done|]. cbn. apply IH. Qed.

(** ** Words *)

Lemma word_ok s w r : word s = (w, r) -> s = w ++ r.
Proof. revert w r. induction s as [|c s IH]; intros w r; cbn [word]; [by intros [= <- <-]|]. destruct (isspace (u8 c)); [by intros [= <- <-]|]. destruct (word s) as [w' r'] eqn:E. intros [= <- <-]. cbn. by rewrite <- (IH _ _ eq_refl). Qed.

Lemma next_word_nul_free s w r : nul_free s -> next_word s = Some (w, r) -> nul_free w /\ nul_free r.
Proof.
  intros Hs. unfold next_word. destruct (skip_spaces_split s) as (sp & E & _). rewrite E in Hs. apply Forall_app in Hs as [_ Hs]. destruct ((skip_spaces s).1) as [|c s'] eqn:E'; [done|]. intros [= Ew]. apply (word_ok (c :: s')) in Ew. rewrite Ew in Hs. by apply Forall_app in Hs.
Qed.

Lemma scan_nul_free s : nul_free s -> Forall nul_free (scan_mode s).
Proof.
  intros Hs. unfold scan_mode. destruct (starts_with _ _); [|constructor]. assert (nul_free (drop 4 s)) as H by by apply Forall_drop. destruct (next_word (drop 4 s)) as [[w1 r]|] eqn:E1; [|constructor]. apply next_word_nul_free in E1 as [H1 Hr]; [|done].
  destruct (next_word r) as [[w2 r']|] eqn:E2; [|by repeat constructor]. apply next_word_nul_free in E2 as [H2 _]; [|done]. by repeat constructor.
Qed.

Definition pad (t : list Z) : list Z := t ++ replicate (10 - length t) 0.

Lemma pad_end t : nul_free t -> (length t <= 9)%nat -> ends_zero 10 (pad t).
Proof. intros Ht Hl. unfold pad. pose proof (overlay_ends 10 (replicate 10 0) t (zeros_end 9)) as H. rewrite drop_replicate in H. apply H. lia. Qed.

Lemma word_buffer_ok w : (length w <= 9)%nat -> word_buffer w = Ok (pad w).
Proof.
  intros Hl. unfold word_buffer. rewrite <- (app_nil_r (cstr w)) at 1. rewrite copy_prefix by (unfold cstr; rewrite length_app; cbn; lia). unfold pad, cstr. rewrite <- app_assoc, drop_replicate. do 2 f_equal. rewrite length_app. cbn [length].
  replace (10 - length w)%nat with (S (10 - (length w + 1))) by lia. done.
Qed.

Section messages.
Context (toupper tolower : Z -> Z).
Hypothesis toupper_nonzero : forall c, c <> 0 -> toupper c <> 0.
Hypothesis tolower_nonzero : forall c, c <> 0 -> tolower c <> 0.

(** What a mode does to a message. *)
Definition effect (m : list Z) (text : list Z) : list Z :=
  if starts_with m UPPER then map toupper text else if starts_with m LOWER then map tolower text else text.

Lemma effect_length m t : length (effect m t) = length t.
Proof. unfold effect. repeat case_match; by rewrite ?length_map. Qed.

Lemma effect_nul_free m t : nul_free t -> nul_free (effect m t).
Proof.
  intros Ht. unfold effect. repeat case_match; try done; apply Forall_map; (eapply Forall_impl; [exact Ht|]); cbn; auto.
Qed.

Lemma effect_ok m t r : (if starts_with m UPPER then upper_process toupper (t ++ r) (zlen t) else if starts_with m LOWER then lower_process tolower (t ++ r) (zlen t) else normal_process (t ++ r) (zlen t)) = Ok (effect m t ++ r).
Proof. unfold effect. destruct (starts_with m UPPER); [apply process_ok|]. destruct (starts_with m LOWER); [apply process_ok|apply nothing_ok]. Qed.

Lemma message_step pid t skb_ok s : nul_free t -> zlen t <= 1023 ->
  nl_recv_msg toupper tolower pid (cstr t) skb_ok s =
  let* (r, m, s) := find_clinet pid (replicate 10 0) s in
  if r =? 2 then Ok (None, s)
  else if starts_with t QUIT then let* s := update_clinet pid (ServerInfo 0 m) s in Ok (if skb_ok then Some t else None, set_clients (client_cnt s - 1) s)
  else Ok (if skb_ok then Some (effect m t) else None, set_chars (s32 (char_cnt s + (zlen t - 1))) s).
Proof.
  intros Ht Hl. unfold nl_recv_msg. destruct (find_clinet _ _ _) as [[[r m] s']|]; [|done]. cbn [bind]. destruct (r =? 2); [done|].
  unfold cstr. rewrite strlen_text by done. cbn [bind]. rewrite copy_prefix by (rewrite length_replicate; unfold zlen in Hl; change (Z.to_nat BUF_SIZE) with 1024%nat; lia). cbn [bind]. rewrite drop_replicate.
  change (Z.to_nat BUF_SIZE) with 1024%nat. rewrite starts_with_pad by apply quit_nul_free. unfold zlen in *. destruct (1024 - length t)%nat as [|k] eqn:Ek; [lia|].
  destruct (starts_with t QUIT).
  - destruct (update_clinet _ _ _); [|done]. cbn [bind]. destruct skb_ok; [|done]. cbn [negb]. by rewrite Nat2Z.id, take_app_length.
  - cbn [replicate]. rewrite strlen_text by done. cbn [bind]. rewrite effect_ok. cbn [bind]. rewrite strlen_text by by apply effect_nul_free. cbn [bind]. unfold zlen. rewrite Nat2Z.id, effect_length. destruct skb_ok; [|done]. cbn [negb]. by rewrite take_app_length' by by rewrite effect_length.
Qed.

Lemma message_ok pid t skb_ok s : table_ok s -> nul_free t -> zlen t <= 1023 ->
  (starts_with t QUIT = true -> pid ∈ known s \/ pid <> 0 /\ client_cnt s < 8) ->
  wp (nl_recv_msg toupper tolower pid (cstr t) skb_ok s) (fun '(_, s') => table_ok s').
Proof.
  intros Hs Ht Hl Hq. rewrite message_step by done. apply wp_bind. eapply wp_mono; [by apply find_clinet_ok|]. intros [[r m] s'] (Hs' & Hm & _ & Hk). destruct (Z.eqb_spec r 2) as [E|E]; [done|].
  destruct (starts_with t QUIT) eqn:Eq; [|cbn; by destruct Hs'].
  specialize (Hq eq_refl). assert (pid <> 0) as Hp by (destruct Hq as [Hq|[Hq _]]; [apply list_elem_of_filter in Hq; tauto|done]). destruct (Hk E Hp) as [Hin Hcnt].
  assert (client_cnt s' <> 9) as H9.
  { destruct Hcnt as [(Hc & -> & _)|[Hc Hn]]; [done|]. destruct Hq as [Hq|[_ Hq]]; [done|lia]. }
  apply wp_bind. eapply wp_mono; [apply (update_clinet_ok pid (ServerInfo 0 m)); [done|done|by right]|]. intros s'' (Hs'' & Hc & Hn). cbn. specialize (Hn H9 eq_refl Hin).
  destruct Hs''. split; cbn in *; try done. pose proof (ok_count s' Hs'). cbn in *. lia.
Qed.

Lemma from_user_length buf unread : 0 <= unread <= zlen buf -> length (from_user buf (zlen buf) unread) = length buf.
Proof. intros Hl. unfold from_user, zlen in *. rewrite length_app, length_take, length_replicate. lia. Qed.

Lemma from_user_all buf : from_user buf (zlen buf) 0 = buf.
Proof. unfold from_user, zlen. rewrite Z.sub_0_r, Nat2Z.id, take_ge, app_nil_r; done. Qed.

(** What the buffer holds after copy_from_user. *)
Lemma store_ok (b buf : list Z) unread : ends_zero 1024 b -> zlen buf <= 1023 -> 0 <= unread <= zlen buf ->
  copy b (from_user buf (zlen buf) unread) (zlen buf) = Ok (from_user buf (zlen buf) unread ++ drop (length buf) b) /\
  ends_zero 1024 (from_user buf (zlen buf) unread ++ drop (length buf) b).
Proof.
  intros Hb Hl Hleft. pose proof (from_user_length buf unread Hleft) as Hf. unfold zlen in *. set (x := from_user _ _ _) in *. rewrite <- Hf. split; [|apply overlay_ends; [done|lia]].
  change (Z.of_nat (length x)) with (zlen x). rewrite <- (app_nil_r x) at 1. apply copy_prefix. destruct Hb. lia.
Qed.

Lemma configure_ok buf unread s : table_ok s -> zlen buf <= 1023 -> 0 <= unread <= zlen buf ->
  (unread = 0 -> forall line, string_of (buf ++ drop (length buf) (procfs_buffer s)) = Ok line -> Forall (fun w => zlen w <= 9) (scan_mode line)) ->
  wp (procfile_write buf (zlen buf) unread s) (fun '(_, s') => table_ok s').
Proof.
  intros Hs Hl Hleft Hw. unfold procfile_write. rewrite (proj2 (Z.ltb_ge _ _)) by (unfold PROCFS_MAX_SIZE; lia). pose proof (ok_buffer s Hs) as Hb.
  destruct (store_ok _ _ _ Hb Hl Hleft) as [-> Hend]. cbn [bind]. destruct (Z.eqb_spec unread 0) as [->|]; cbn [negb]; [|destruct Hs; by split]. rewrite from_user_all in *. unfold zlen in Hl. specialize (Hw eq_refl).
  destruct (ends_zero_text 1024 (buf ++ drop (length buf) (procfs_buffer s))) as (line & r & E & Hline & _); [apply overlay_ends; [done|lia]|]. assert (string_of (buf ++ drop (length buf) (procfs_buffer s)) = Ok line) as El by (rewrite E; by apply string_of_text). rewrite El. cbn [bind].
  specialize (Hw line El). pose proof (scan_nul_free line Hline) as Hn.
  assert (table_ok (set_buffer (zlen buf) (buf ++ drop (length buf) (procfs_buffer s)) s)) as Hs1. { destruct Hs. by split. }
  destruct (scan_mode line) as [|w1 [|w2 [|? ?]]]; [done| | |done].
  - apply Forall_cons in Hw as [Hw _]. unfold zlen in Hw. rewrite word_buffer_ok by lia. done.
  - apply Forall_cons in Hw as [Hw1 Hw]. apply Forall_cons in Hw as [Hw2 _]. apply Forall_cons in Hn as [Hn1 Hn]. apply Forall_cons in Hn as [Hn2 _]. unfold zlen in Hw1, Hw2. rewrite !word_buffer_ok by lia. cbn [bind].
    assert (ends_zero 10 (pad w1) /\ ends_zero 10 (pad w2)) as [He1 He2] by (split; apply pad_end; done || lia).
    rewrite rd_Ok by (unfold zlen; rewrite (proj1 He1); lia). cbn [bind]. revert Hs1. set (s1 := set_buffer _ _ s). intros Hs1. destruct (_ =? _).
    + destruct (copy_mode 10 (gMode s1) (pad w2) (ok_gmode _ Hs1) He2) as (t & r' & _ & _ & -> & Hc & Ht). cbn [bind]. rewrite Hc. cbn. by destruct Hs1.
    + destruct (ends_zero_text _ _ He1) as (k & rk & Ek & Hk & _). rewrite Ek, string_of_text by done. cbn [bind]. apply wp_bind. eapply wp_mono; [by apply find_clinet_ok|]. intros [[q m] s2] (Hs2 & Hm & _). destruct (q =? 1); [|done].
      destruct (copy_mode 10 m (pad w2) Hm He2) as (t & r' & _ & _ & -> & Hc & Ht). cbn [bind]. rewrite Hc. cbn [bind]. apply wp_bind. eapply wp_mono; [apply update_clinet_ok; [done|done|by left]|]. by intros s3 (? & _).
Qed.

(** ** Requests *)

Inductive request :=
  | Message (pid : Z) (text : list Z) (skb_ok : bool)
  | Configure (buf : list Z) (unread : Z)
  | ReadConfig
  | ReadState.

Inductive reply :=
  | Dropped
  | Echoed (text : list Z)
  | Written (n : Z)
  | Config (n : Z) (text : list Z)
  | State (ps : list piece).

(** The handlers the module registers; whether there is memory for the reply and what
    copy_from_user returns come with the requests. *)
Definition handle (r : request) (s : server) : res (reply * server) :=
  match r with
  | Message pid text skb_ok =>
      let* (o, s) := nl_recv_msg toupper tolower pid (cstr text) skb_ok s in
      Ok (match o with Some t => Echoed t | None => Dropped end, s)
  | Configure buf unread => let* (n, s) := procfile_write buf (zlen buf) unread s in Ok (Written n, s)
  | ReadConfig => let '(n, text, s) := procfile_read s in Ok (Config n text, s)
  | ReadState => let* (ps, s) := procfile_info_read s in Ok (State ps, s)
  end.

(** The text of a message and a configuration fit their buffers, and so do the
    words of the configuration; a client that is not in the table says quit
    only while there is room for two more. *)
Definition polite (s : server) (r : request) : Prop :=
  match r with
  | Message pid text _ => nul_free text /\ zlen text <= 1023 /\ (starts_with text QUIT = true -> pid ∈ known s \/ pid <> 0 /\ client_cnt s < 8)
  | Configure buf unread => zlen buf <= 1023 /\ 0 <= unread <= zlen buf /\ (unread = 0 -> forall line, string_of (buf ++ drop (length buf) (procfs_buffer s)) = Ok line -> Forall (fun w => zlen w <= 9) (scan_mode line))
  | _ => True
  end.

(** The states of the module. *)
Inductive reachable : server -> Prop :=
  | reach_init s : server_init = Ok s -> reachable s
  | reach_step s r a s' : reachable s -> polite s r -> handle r s = Ok (a, s') -> reachable s'.

Lemma server_init_ok s : server_init = Ok s -> table_ok s.
Proof.
  intros [= <-]. split; cbn [info gMode procfs_buffer client_cnt]; [done|repeat (constructor; [done|]); constructor|done|apply (zeros_end 1023)|unfold known; cbn|unfold known; cbn]; vm_compute; [constructor|done].
Qed.

Lemma handle_ok r s : table_ok s -> polite s r -> wp (handle r s) (fun '(_, s') => table_ok s').
Proof.
  intros Hs. destruct r as [pid text ok|buf unread| |]; cbn [polite handle].
  - intros (Ht & Hl & Hq). apply wp_bind. eapply wp_mono; [by apply message_ok|]. by intros [? ?].
  - intros (Hl & Hleft & Hw). apply wp_bind. eapply wp_mono; [by apply configure_ok|]. by intros [? ?].
  - intros _. unfold procfile_read. destruct (len_check s); by destruct Hs.
  - intros _. unfold procfile_info_read. destruct (len_check s); [|by destruct Hs]. destruct (ends_zero_text _ _ (ok_gmode s Hs)) as (m & r & -> & Hm & _). rewrite string_of_text by done. cbn. by destruct Hs.
Qed.

(** C6. In every state the module reaches, its table has ten entries whose
    modes are terminated, no client is in it twice, and there are at most as
    many clients as the counter says, which is at most nine; whatever polite request comes
    next is handled without a fault: no access is outside the table, a mode, a message or the
    buffers of the configuration. *)
Theorem echo_server_safe s : reachable s -> table_ok s /\ forall r, polite s r -> exists a s', handle r s = Ok (a, s').
Proof.
  intros Hr. assert (table_ok s) as Hs.
  { induction Hr as [s Hi|s r a s' _ IH Hp E]; [by apply server_init_ok|]. pose proof (handle_ok r s IH Hp) as H. by rewrite E in H. }
  split; [done|]. intros r Hp. pose proof (handle_ok r s Hs Hp) as H. destruct (handle r s) as [[a s']|]; [by exists a, s'|done].
Qed.

(** ** What clients see *)

(** The mode of every client, the mode of new clients, the number of characters,
    the last configuration and whether the next read of a file is not the end. *)
Record echo := Echo { modes : gmap Z (list Z); global : list Z; chars : Z; last_config : list Z; fresh : bool }.

(** A mode written over another one. *)
Definition overlay (w t : list Z) : list Z := w ++ drop (length w) t.

Definition with_modes (ms : gmap Z (list Z)) (a : echo) : echo := Echo ms (global a) (chars a) (last_config a) (fresh a).

Definition echo_step (r : request) (a : echo) : reply * echo :=
  match r with
  | Message pid text skb_ok =>
      if bool_decide (size (modes a) = 9%nat) then (Dropped, a)
      else
        let m := default (global a) (modes a !! pid) in
        (if skb_ok then Echoed (effect m text) else Dropped, Echo (<[pid := m]> (modes a)) (global a) (s32 (chars a + (zlen text - 1))) (last_config a) (fresh a))
  | Configure buf unread =>
      let a := Echo (modes a) (global a) (chars a) (from_user buf (zlen buf) unread) (fresh a) in
      if negb (unread =? 0) then (Written (-14), a) else
      (Written (zlen buf),
        match scan_mode buf with
        | [key; m] =>
            if head_char key =? ch "0" then Echo (modes a) (overlay m (global a)) (chars a) (last_config a) (fresh a)
            else
              let pid := s32 (simple_strtol key) in
              if bool_decide (size (modes a) = 9%nat) then a
              else with_modes (<[pid := match modes a !! pid with Some t => overlay m t | None => global a end]> (modes a)) a
        | _ => a
        end)
  | ReadConfig =>
      if fresh a then (Config (zlen (last_config a)) (last_config a), Echo (modes a) (global a) (chars a) (last_config a) false)
      else (Config 0 [], Echo (modes a) (global a) (chars a) (last_config a) true)
  | ReadState =>
      if fresh a then
        (State ([PStr "Server info:\nGlobal mode: "] ++ map PChar (global a) ++ [PStr "\nCharacters: "; PInt (chars a); PStr "\nClients: "; PInt (Z.of_nat (size (modes a))); PStr "\n"]),
          Echo (modes a) (global a) (chars a) (last_config a) false)
      else (State [], Echo (modes a) (global a) (chars a) (last_config a) true)
  end.

Fixpoint serve (rs : list request) (s : server) : res (list reply * server) :=
  match rs with
  | [] => Ok ([], s)
  | r :: rs => let* (a, s) := handle r s in let* (l, s) := serve rs s in Ok (a :: l, s)
  end.

Fixpoint echoes (rs : list request) (a : echo) : list reply :=
  match rs with [] => [] | r :: rs => let '(o, a) := echo_step r a in o :: echoes rs a end.

(** *** The table of the server and the map *)

Definition short (t : list Z) : Prop := nul_free t /\ (length t <= 9)%nat.
Definition entry (c : Z * list Z) : server_info := ServerInfo c.1 (pad c.2).
Definition empty_entry : server_info := ServerInfo 0 (pad []).

Record table (s : server) (a : echo) (cl : list (Z * list Z)) : Prop := {
  t_info : info s = map entry cl ++ replicate (10 - length cl) empty_entry;
  t_length : (length cl <= 9)%nat;
  t_distinct : NoDup cl.*1;
  t_nonzero : 0 ∉ cl.*1;
  t_short : Forall short cl.*2;
  t_modes : modes a = list_to_map cl;
  t_count : client_cnt s = zlen cl }.

Record globals (s : server) (a : echo) : Prop := {
  g_mode : gMode s = pad (global a);
  g_short : short (global a);
  g_chars : char_cnt s = chars a;
  g_fresh : len_check s = fresh a;
  g_buffer : ends_zero 1024 (procfs_buffer s);
  g_size : procfs_buffer_size s = zlen (last_config a);
  g_config : take (length (last_config a)) (procfs_buffer s) = last_config a }.

Definition sim (s : server) (a : echo) : Prop := globals s a /\ exists cl, table s a cl.

Lemma overlay_short w t : short w -> short t -> short (overlay w t).
Proof. intros [Hw Lw] [Ht Lt]. unfold overlay. split; [apply Forall_app; split; [done|by apply Forall_drop]|]. rewrite length_app, length_drop. lia. Qed.

Lemma copy_pad w t : short w -> short t -> strlen (pad w) 0 = Ok (zlen w) /\ copy (pad t) (pad w) (zlen w) = Ok (pad (overlay w t)).
Proof.
  intros [Hw Lw] [Ht Lt]. split.
  - unfold pad. destruct (10 - length w)%nat eqn:E; [lia|]. by apply strlen_text.
  - unfold pad at 2. rewrite copy_prefix by (unfold pad; rewrite length_app, length_replicate; lia). unfold pad, overlay. rewrite <- app_assoc, drop_app, drop_replicate, length_app, length_drop. do 4 f_equal. lia.
Qed.

Lemma overlay_nil t : overlay t [] = t.
Proof. unfold overlay. by rewrite drop_nil, app_nil_r. Qed.

Lemma short_nil : short [].
Proof. split; [constructor|cbn; lia]. Qed.

Lemma pad_nil : replicate 10 0 = pad [].
Proof. done. Qed.

Lemma overlay_twice w t : overlay (overlay w t) t = overlay w t.
Proof. unfold overlay at 1. rewrite (drop_ge t); [apply app_nil_r|]. unfold overlay. rewrite length_app, length_drop. lia. Qed.

Lemma table_full s a cl : table s a cl -> size (modes a) = length cl.
Proof. intros Ht. rewrite (t_modes _ _ _ Ht). apply map_size_list_to_map, Ht. Qed.

Lemma table_info s a cl : table s a cl -> length (info s) = 10%nat.
Proof. intros Ht. rewrite (t_info _ _ _ Ht), length_app, length_map, length_replicate. pose proof (t_length _ _ _ Ht). lia. Qed.

Lemma table_find s a cl id : table s a cl -> id <> 0 ->
  match modes a !! id with
  | Some t => exists pre post, cl = pre ++ (id, t) :: post /\ list_find (fun e => client_id e = id) (info s) = Some (length pre, entry (id, t))
  | None => ~ id ∈ (cl.*1) /\ list_find (fun e => client_id e = id) (info s) = None
  end.
Proof.
  intros Ht Hid. rewrite (t_info _ _ _ Ht), (t_modes _ _ _ Ht). destruct ((list_to_map cl : gmap Z (list Z)) !! id) as [t|] eqn:E.
  - apply elem_of_list_to_map_2 in E. apply list_elem_of_split in E as (pre & post & ->). exists pre, post. split; [done|]. pose proof (t_distinct _ _ _ Ht) as Hd. rewrite fmap_app in Hd. cbn in Hd. apply NoDup_app in Hd as (_ & Hd & _).
    apply list_find_Some. rewrite map_app, <- app_assoc. cbn [map app]. split; [rewrite lookup_app_r by (rewrite length_map; lia); by rewrite length_map, Nat.sub_diag|]. split; [done|]. intros j y Hj Hlt. rewrite lookup_app_l in Hj by (by rewrite length_map). apply list_lookup_fmap_Some in Hj as ([k u] & -> & Hk). cbn. intros ->.
    apply (Hd id); [apply list_elem_of_fmap; exists (id, u); split; [done|by eapply list_elem_of_lookup_2]|left].
  - apply not_elem_of_list_to_map_2 in E. split; [done|]. apply list_find_None, Forall_app. split; [|by apply Forall_replicate; cbn; auto].
    apply Forall_map, Forall_forall. intros [k u] Hk. cbn. intros ->. apply E, list_elem_of_fmap. by exists (id, u).
Qed.

Lemma sim_full s a id val : sim s a -> size (modes a) = 9%nat -> find_clinet id val s = Ok (2, val, s).
Proof. intros [_ [cl Ht]] H9. rewrite (table_full _ _ _ Ht) in H9. unfold find_clinet. rewrite (t_count _ _ _ Ht). unfold zlen. by rewrite H9. Qed.

Lemma globals_table s a l n ms : globals s a -> globals (set_clients n (set_info l s)) (with_modes ms a).
Proof. by intros []. Qed.

Lemma sim_find s a id : sim s a -> id <> 0 -> size (modes a) <> 9%nat ->
  exists s', find_clinet id (replicate 10 0) s = Ok (match modes a !! id with Some _ => 1 | None => 0 end, pad (default (global a) (modes a !! id)), s') /\
  sim s' (with_modes (<[id := default (global a) (modes a !! id)]> (modes a)) a) /\ (is_Some (modes a !! id) -> s' = s).
Proof.
  intros [Hg [cl Ht]] Hid Hn. pose proof (table_full _ _ _ Ht) as Hf. pose proof (t_length _ _ _ Ht) as Hlt. rewrite find_step by ((by eapply table_info) || (rewrite (t_count _ _ _ Ht); unfold zlen; lia)).
  pose proof (table_find s a cl id Ht Hid) as H. destruct (modes a !! id) as [t|] eqn:E; cbn [from_option Datatypes.id].
  - destruct H as (pre & post & Ecl & ->). assert (short t) as Hst. { pose proof (t_short _ _ _ Ht) as Hs. rewrite Ecl, fmap_app in Hs. apply Forall_app in Hs as [_ Hs]. by apply Forall_cons in Hs as [Hs _]. }
    destruct (copy_pad t [] Hst short_nil) as [E1 E2]. cbn [mode entry snd]. rewrite E1. cbn [bind]. rewrite pad_nil, E2, overlay_nil. exists s. split; [done|]. split; [|done]. rewrite insert_id by done. destruct a. by split; [|exists cl].
  - destruct H as [Hnew ->]. pose proof (t_info _ _ _ Ht) as Ei. destruct (10 - length cl)%nat as [|k] eqn:Ek; [lia|]. cbn [replicate] in Ei. rewrite Ei. pose proof (t_count _ _ _ Ht) as Ec.
    assert (zlen (map entry cl) = client_cnt s) as Hz by (rewrite Ec; unfold zlen; by rewrite length_map). rewrite rd_middle by done. cbn [bind]. rewrite (g_mode _ _ Hg). destruct (copy_pad (global a) [] (g_short _ _ Hg) short_nil) as [E1 E2]. rewrite E1. cbn [bind mode empty_entry]. rewrite E2, overlay_nil. cbn [bind]. rewrite wr_middle by done. cbn [bind]. rewrite E1. cbn [bind]. rewrite pad_nil, E2, overlay_nil.
    eexists. split; [done|]. split; [|by intros []]. split; [by apply globals_table|]. exists (cl ++ [(id, global a)]). split; cbn.
    + rewrite map_app, <- app_assoc, length_app. cbn. do 2 f_equal. f_equal. lia.
    + rewrite length_app. cbn. lia.
    + rewrite fmap_app. cbn. apply NoDup_app. split; [apply Ht|]. split; [|apply NoDup_singleton]. intros x Hx Hx'. apply list_elem_of_singleton in Hx' as ->. done.
    + rewrite fmap_app, elem_of_app. cbn. rewrite list_elem_of_singleton. intros [H|H]; [by apply (t_nonzero _ _ _ Ht)|done].
    + rewrite fmap_app. apply Forall_app. split; [apply Ht|]. constructor; [apply Hg|constructor].
    + rewrite (t_modes _ _ _ Ht). by rewrite list_to_map_snoc.
    + rewrite Ec, zlen_snoc. done.
Qed.

Lemma modes_replace (pre post : list (Z * list Z)) id t t' : NoDup (pre ++ (id, t) :: post).*1 ->
  (list_to_map (pre ++ (id, t') :: post) : gmap Z (list Z)) = <[id := t']> (list_to_map (pre ++ (id, t) :: post)).
Proof.
  intros Hd. assert (NoDup (pre ++ (id, t') :: post).*1) as Hd' by (by rewrite fmap_app in Hd |- *). rewrite (list_to_map_proper _ ((id, t') :: pre ++ post) Hd') by by rewrite Permutation_middle. rewrite (list_to_map_proper _ ((id, t) :: pre ++ post) Hd) by by rewrite Permutation_middle. cbn. by rewrite insert_insert_eq.
Qed.

Lemma sim_update s a id t w : sim s a -> id <> 0 -> size (modes a) <> 9%nat -> modes a !! id = Some t -> short w ->
  exists s', update_clinet id (ServerInfo id (pad (overlay w t))) s = Ok s' /\ sim s' (with_modes (<[id := overlay w t]> (modes a)) a).
Proof.
  intros [Hg [cl Ht]] Hid Hn E Hw. pose proof (table_full _ _ _ Ht) as Hf. pose proof (t_length _ _ _ Ht) as Hlt. rewrite update_step by ((by eapply table_info) || (rewrite (t_count _ _ _ Ht); unfold zlen; lia)).
  pose proof (table_find s a cl id Ht Hid) as H. rewrite E in H. destruct H as (pre & post & -> & ->). destruct Ht as [Hi _ Hd H0 Hs Hm Hc].
  assert (Forall short pre.*2 /\ short t /\ Forall short post.*2) as (Hs1 & Hst & Hs2). { rewrite fmap_app in Hs. apply Forall_app in Hs as [? Hs]. by apply Forall_cons in Hs as [? ?]. }
  destruct (copy_pad (overlay w t) t (overlay_short _ _ Hw Hst) Hst) as [E1 E2]. cbn [mode client_id entry fst snd]. rewrite E1. cbn [bind]. rewrite E2, overlay_twice. cbn [bind].
  rewrite Hi, map_app, <- app_assoc. cbn [map app]. rewrite wr_middle by (unfold zlen; by rewrite length_map). cbn [bind]. eexists. split; [done|]. split; [by destruct Hg|]. exists (pre ++ (id, overlay w t) :: post). split; cbn.
  - rewrite map_app, <- app_assoc, !length_app. done.
  - rewrite length_app in *. done.
  - by rewrite fmap_app in Hd |- *.
  - by rewrite fmap_app in H0 |- *.
  - rewrite fmap_app. apply Forall_app. split; [done|]. constructor; [by apply overlay_short|done].
  - rewrite Hm. symmetry. rewrite (modes_replace pre post id t); done.
  - rewrite Hc. unfold zlen. by rewrite !length_app.
Qed.

(** *** Configurations of two words *)

Definition is_word (w : list Z) : Prop := w <> [] /\ short w /\ Forall (fun c => isspace (u8 c) = false) w.
Definition config_line (key m : list Z) : list Z := bytes "mode " ++ key ++ [32] ++ m ++ [10].

Lemma word_stops w c r : Forall (fun c => isspace (u8 c) = false) w -> isspace (u8 c) = true -> word (w ++ c :: r) = (w, c :: r).
Proof. intros Hw Hc. induction Hw as [|x w Hx _ IH]; cbn [app word]; [by rewrite Hc|]. by rewrite Hx, IH. Qed.

Lemma next_word_ok w c r : is_word w -> isspace (u8 c) = true -> next_word (32 :: w ++ c :: r) = Some (w, c :: r).
Proof.
  intros (Hne & _ & Hw) Hc. unfold next_word. cbn [skip_spaces]. change (isspace (u8 32)) with true. cbv iota. destruct w as [|x w]; [done|]. apply Forall_cons in Hw as Hx. destruct Hx as [Hx _]. cbn [app skip_spaces]. rewrite Hx. cbn [fst].
  f_equal. by apply (word_stops (x :: w)).
Qed.

Lemma scan_config key m r : is_word key -> is_word m -> scan_mode (config_line key m ++ r) = [key; m].
Proof.
  intros Hk Hm. unfold scan_mode, config_line. change (bytes "mode ") with (bytes "mode" ++ [32]). rewrite <- !app_assoc. unfold starts_with. rewrite take_app_length, bool_decide_true by done. rewrite (drop_app_length' _ _ 4) by done. cbn [app].
  rewrite next_word_ok by done. by rewrite next_word_ok.
Qed.

(** Requests of the abstract server: messages of at most 1023 bytes, none of them NUL, that do not
    say quit, from clients whose identity is not 0; configurations that are lines
    of two words of at most nine characters, whose client, if it is not the global mode, is not 0; and
    configurations of at most 1023 bytes that cannot be read to their end. *)
Definition plain (r : request) : Prop :=
  match r with
  | Message pid text _ => pid <> 0 /\ nul_free text /\ zlen text <= 1023 /\ starts_with text QUIT = false
  | Configure buf unread =>
      unread = 0 /\ (exists key m, buf = config_line key m /\ is_word key /\ is_word m /\ (head_char key <> ch "0" -> s32 (simple_strtol key) <> 0)) \/
      0 < unread <= zlen buf /\ zlen buf <= 1023
  | _ => True
  end.

Lemma bind_pair {A B C} (x : res (A * B)) y z (f : A * B -> res C) : x = Ok (y, z) -> bind x f = f (y, z).
Proof. by intros ->. Qed.

Lemma sim_chars s a n : sim s a -> sim (set_chars n s) (Echo (modes a) (global a) n (last_config a) (fresh a)).
Proof. intros [[] [cl []]]. split; [by split|]. exists cl. by split. Qed.

Lemma effect_pad m t : effect (pad m) t = effect m t.
Proof. unfold effect, pad. by rewrite !starts_with_pad by (apply upper_nul_free || apply lower_nul_free). Qed.

Definition simulated (r : request) (s : server) (a : echo) : Prop :=
  exists s', handle r s = Ok ((echo_step r a).1, s') /\ sim s' (echo_step r a).2.

Lemma sim_message s a pid text ok : sim s a -> plain (Message pid text ok) -> simulated (Message pid text ok) s a.
Proof.
  intros Hs (Hid & Ht & Hl & Hq). unfold simulated. cbn [handle echo_step]. rewrite message_step by done. destruct (decide (size (modes a) = 9%nat)) as [H9|H9].
  - rewrite (sim_full _ _ _ _ Hs H9), bool_decide_true by done. by exists s.
  - destruct (sim_find s a pid Hs Hid H9) as (s' & -> & Hs' & _). rewrite bool_decide_false by done. cbn [bind]. rewrite Hq, effect_pad. pose proof (g_chars _ _ (proj1 Hs')) as Hc. cbn [with_modes chars] in Hc. apply (sim_chars _ _ (s32 (char_cnt s' + (zlen text - 1)))) in Hs'. rewrite Hc in Hs' |- *.
    destruct (modes a !! pid); cbn [bind Z.eqb from_option Datatypes.id]; destruct ok; eexists; done.
Qed.

Lemma pad_head w : is_word w -> rd (pad w) 0 = Ok (head_char w).
Proof. intros (Hne & _). unfold pad. destruct w as [|c w]; [done|]. by apply (rd_middle []). Qed.

Lemma sim_buffer s a buf unread : sim s a -> zlen buf <= 1023 -> 0 <= unread <= zlen buf ->
  sim (set_buffer (zlen buf) (from_user buf (zlen buf) unread ++ drop (length buf) (procfs_buffer s)) s) (Echo (modes a) (global a) (chars a) (from_user buf (zlen buf) unread) (fresh a)).
Proof.
  intros [[] [cl []]] Hl Hleft. pose proof (from_user_length buf unread Hleft) as Hf. split; [split; cbn; try done|exists cl; by split]; [by apply store_ok|unfold zlen at 1 2; by rewrite Hf|]. by rewrite take_app_length.
Qed.

Lemma sim_global s a w : sim s a -> short w -> sim (set_mode (pad (overlay w (global a))) s) (Echo (modes a) (overlay w (global a)) (chars a) (last_config a) (fresh a)).
Proof. intros [[] [cl []]] Hw. split; [split; cbn; try done; by apply overlay_short|exists cl; by split]. Qed.

Lemma sim_unread s a buf unread : sim s a -> 0 < unread <= zlen buf -> zlen buf <= 1023 -> simulated (Configure buf unread) s a.
Proof.
  intros Hs Hleft Hl. unfold simulated. cbn [handle echo_step]. unfold procfile_write. rewrite (proj2 (Z.ltb_ge _ _)) by (unfold PROCFS_MAX_SIZE; lia).
  destruct (store_ok (procfs_buffer s) buf unread) as [-> _]; [by destruct Hs as [[] _]|done|lia|]. cbn [bind]. rewrite (proj2 (Z.eqb_neq unread 0)) by lia. cbn [negb bind fst snd]. eexists. split; [done|]. apply sim_buffer; [done|done|lia].
Qed.

Lemma sim_configure s a buf unread : sim s a -> plain (Configure buf unread) -> simulated (Configure buf unread) s a.
Proof.
  intros Hs [(-> & key & m & -> & Hk & Hm & Hp)|[Hleft Hl]]; [|by apply sim_unread]. unfold simulated. cbn [handle echo_step]. pose proof (scan_config key m [] Hk Hm) as Esc. rewrite app_nil_r in Esc. rewrite Esc.
  pose proof Hk as (_ & [Hkn Hkl] & _). pose proof Hm as (_ & Hms & _). assert (zlen (config_line key m) <= 1023) as Hl by (unfold zlen, config_line; rewrite !length_app; destruct Hms as [_ Hml]; cbn; lia).
  assert (forall r, scan_mode (config_line key m ++ r) = [key; m]) as Esc' by (intros; by apply scan_config). assert (nul_free (config_line key m)) as Hnf. { unfold config_line, nul_free. rewrite !Forall_app. split_and!; try done; [repeat constructor; done|by repeat constructor|apply Hms|by repeat constructor]. }
  revert Hl Esc' Hnf. generalize (config_line key m) as buf. intros buf Hl Esc' Hnf. unfold procfile_write. rewrite (proj2 (Z.ltb_ge _ _)) by (unfold PROCFS_MAX_SIZE; lia). pose proof (g_buffer _ _ (proj1 Hs)) as Hb. pose proof (zlen_nonneg buf) as Hpos. pose proof (sim_buffer s a buf 0 Hs Hl ltac:(lia)) as Hs1.
  destruct (store_ok (procfs_buffer s) buf 0 Hb Hl ltac:(lia)) as [-> _]. rewrite from_user_all in *. unfold zlen in Hl. change (negb (0 =? 0)) with false. cbv iota.
  cbn [bind]. assert (exists r, string_of (buf ++ drop (length buf) (procfs_buffer s)) = Ok (buf ++ r)) as [r ->].
  { destruct (ends_zero_text (1024 - length buf) (drop (length buf) (procfs_buffer s))) as (t & r & E & Ht & _).
    - destruct Hb as [Hb1 Hb2]. split; [rewrite length_drop; lia|]. rewrite <- Hb2, !last_lookup, lookup_drop, length_drop. f_equal. lia.
    - exists t. rewrite E, app_assoc. apply string_of_text, Forall_app. done. }
  cbn [bind]. rewrite Esc', !word_buffer_ok by (done || apply Hms). cbn [bind]. rewrite pad_head by done. cbn [bind]. revert Hs1. set (s1 := set_buffer _ _ s). set (a1 := Echo _ _ _ _ _). intros Hs1.
  destruct (Z.eqb_spec (head_char key) (ch "0")) as [E0|E0].
  - destruct (copy_pad m (global a) Hms (g_short _ _ (proj1 Hs))) as [E1 E2]. rewrite E1. cbn [bind]. rewrite (g_mode _ _ (proj1 Hs1)). change (global a1) with (global a). rewrite E2. cbn [bind fst snd]. eexists. split; [done|]. exact (sim_global s1 a1 m Hs1 Hms).
  - assert (string_of (pad key) = Ok key) as ->. { unfold pad. destruct (10 - length key)%nat eqn:E; [lia|]. by apply string_of_text. }
    cbn [bind]. specialize (Hp E0). set (pid := s32 (simple_strtol key)) in *. change (modes a) with (modes a1). destruct (decide (size (modes a1) = 9%nat)) as [H9|H9].
    + rewrite (sim_full _ _ _ _ Hs1 H9), bool_decide_true by done. cbn. by eexists.
    + rewrite bool_decide_false by done. destruct (sim_find s1 a1 pid Hs1 Hp H9) as (s' & -> & Hs' & Hsame). cbn [bind fst snd]. destruct (modes a1 !! pid) as [t|] eqn:E; cbn [Z.eqb from_option Datatypes.id Pos.eqb] in *.
      * rewrite (Hsame (ex_intro _ t eq_refl)). assert (short t) as Hst. { destruct Hs1 as [_ [cl Ht]]. pose proof (t_short _ _ _ Ht) as H. rewrite (t_modes _ _ _ Ht) in E. apply elem_of_list_to_map_2 in E. apply (proj1 (Forall_forall _ _) H). apply list_elem_of_fmap. by exists (pid, t). }
        destruct (copy_pad m t Hms Hst) as [E1 E2]. rewrite E1. cbn [bind]. rewrite E2. cbn [bind]. destruct (sim_update s1 a1 pid t m Hs1 Hp H9 E Hms) as (s2 & -> & Hs2). cbn. by eexists.
      * cbn. by eexists.
Qed.

Lemma sim_check s a b : sim s a -> sim (set_check b s) (Echo (modes a) (global a) (chars a) (last_config a) b).
Proof. intros [[] [cl []]]. split; [by split|]. exists cl. by split. Qed.

Lemma sim_step r s a : sim s a -> plain r -> simulated r s a.
Proof.
  intros Hs Hp. destruct r as [pid text ok|buf unread| |]; [by apply sim_message|by apply sim_configure| |]; pose proof Hs as [[Hm Hsm Hc Hf Hb Hsz Hcf] [cl Ht]]; unfold simulated; cbn [handle echo_step].
  - unfold procfile_read. rewrite Hf. destruct (fresh a); (eexists; split; [|by apply sim_check]); [|done]. rewrite Hsz. unfold zlen. by rewrite Nat2Z.id, Hcf.
  - unfold procfile_info_read. rewrite Hf. destruct (fresh a); (eexists; split; [|by apply sim_check]); [|done]. destruct Hsm as [Hn Hl].
    assert (string_of (gMode s) = Ok (global a)) as ->. { rewrite Hm. unfold pad. destruct (10 - length (global a))%nat eqn:E; [lia|]. by apply string_of_text. }
    cbn [bind]. by rewrite Hc, (t_count _ _ _ Ht), (table_full _ _ _ Ht).
Qed.

Definition echo_init : echo := Echo ∅ UPPER 0 [] true.

Lemma init_sim : exists s, server_init = Ok s /\ sim s echo_init.
Proof.
  eexists. split; [done|]. split; [split; try done|exists []; split; try done; cbn; try lia].
  - split; [apply upper_nul_free|cbn; lia].
  - constructor.
  - set_solver.
Qed.

(** C5. The module is an echo server for [plain] requests, of clients whose identity is not 0: messages of at most 1023 bytes without NUL that do not
    start with quit, configurations that are a line of two words of at most
    nine characters, configurations of at most 1023 bytes that copy_from_user cannot read to their end, and reads of its two files.  In whatever order they come, none of these
    fails, and every one is answered as by a map from clients to
    modes.  A message comes back in the mode of its sender, which is the global mode
    of the time the client was first heard of until a configuration changes it, or is
    not answered if there is no memory for the reply; a
    configuration for an unknown client makes it known; a mode is written over the
    old one, whose longer tail stays; with nine clients every message
    is dropped; the files show the last configuration, and the
    global mode, the characters and the number of clients, and end at every
    second read.  Longer messages and words do fail, as [long_message] and [long_word] show. *)
Theorem echo_server_refines rs : Forall plain rs -> exists s s', server_init = Ok s /\ serve rs s = Ok (echoes rs echo_init, s').
Proof.
  intros Hrs. destruct init_sim as (s & -> & Hs). exists s. enough (exists s', serve rs s = Ok (echoes rs echo_init, s')) as [s' H] by by exists s'.
  revert s Hs. generalize echo_init. induction Hrs as [|r rs Hr _ IH]; intros a s Hs; [by exists s|]. cbn [serve echoes]. destruct (sim_step r s a Hs Hr) as (s1 & -> & Hs1). cbn [bind]. destruct (echo_step r a) as [o a']. destruct (IH a' s1 Hs1) as [s' E]. cbn [fst snd] in *. rewrite E. by exists s'.
Qed.
End messages.

(** The letters of ASCII. *)
Definition ascii_upper (c : Z) : Z := if (97 <=? c) && (c <=? 122) then c - 32 else c.
Definition ascii_lower (c : Z) : Z := if (65 <=? c) && (c <=? 90) then c + 32 else c.

Lemma ascii_upper_nonzero c : c <> 0 -> ascii_upper c <> 0.
Proof. unfold ascii_upper. destruct (_ && _) eqn:E; lia. Qed.

Lemma ascii_lower_nonzero c : c <> 0 -> ascii_lower c <> 0.
Proof. unfold ascii_lower. destruct (_ && _) eqn:E; lia. Qed.

(** Requests for which there is memory and whose bytes can be read. *)
Definition message (pid : Z) (text : list Z) : request := Message pid text true.
Definition configure (buf : list Z) : request := Configure buf 0.

Definition some_requests : list request :=
  [message 7 (bytes "hello"); configure (config_line (bytes "7") (bytes "lower")); message 7 (bytes "HeLLo");
   configure (config_line (bytes "0") (bytes "normal")); Configure (bytes "mode") 4; Message 7 (bytes "x") false; message 8 (bytes "As is"); ReadConfig].

Lemma is_word_dec w : forallb (fun c => negb (c =? 0) && negb (isspace (u8 c))) w && negb (zlen w =? 0) && (zlen w <=? 9) = true -> is_word w.
Proof.
  rewrite !andb_true_iff, negb_true_iff, Z.eqb_neq, Z.leb_le, forallb_forall. intros [[H Hn] Hl]. split; [by intros ->|]. split; [split; [|unfold zlen in Hl; lia]|]; apply Forall_forall; intros c Hc; specialize (H c (proj1 (list_elem_of_In _ _) Hc)); rewrite andb_true_iff, !negb_true_iff, Z.eqb_neq in H; tauto.
Qed.

Lemma plain_message pid t ok : negb (pid =? 0) && forallb (fun c => negb (c =? 0)) t && (zlen t <=? 1023) && negb (starts_with t QUIT) = true -> plain (Message pid t ok).
Proof.
  rewrite !andb_true_iff, !negb_true_iff, Z.eqb_neq, Z.leb_le, forallb_forall. intros [[[Hp H] Hl] Hq]. split; [done|]. split; [|done].
  apply Forall_forall. intros c Hc. specialize (H c (proj1 (list_elem_of_In _ _) Hc)). by rewrite negb_true_iff, Z.eqb_neq in H.
Qed.

Lemma plain_configure key m : is_word key -> is_word m -> (head_char key =? ch "0") || negb (s32 (simple_strtol key) =? 0) = true -> plain (configure (config_line key m)).
Proof. intros Hk Hm H. left. split; [done|]. exists key, m. split; [done|]. split; [done|]. split; [done|]. rewrite orb_true_iff, negb_true_iff, Z.eqb_eq, Z.eqb_neq in H. tauto. Qed.

Lemma some_requests_plain : Forall plain some_requests.
Proof.
  unfold some_requests. repeat (apply Forall_cons; split; [first [by apply plain_message|apply plain_configure; [by apply is_word_dec|by apply is_word_dec|by vm_compute]|exact I|by right]|]). constructor.
Qed.

Lemma echo_server_refines_witness : Forall plain some_requests /\
  exists s s', server_init = Ok s /\ serve ascii_upper ascii_lower some_requests s =
    Ok ([Echoed (bytes "HELLO"); Written 13; Echoed (bytes "hello"); Written 14; Written (-14); Dropped; Echoed (bytes "As is"); Config 4 (replicate 4 0)], s').
Proof.
  split; [exact some_requests_plain|]. assert (echoes ascii_upper ascii_lower some_requests echo_init = [Echoed (bytes "HELLO"); Written 13; Echoed (bytes "hello"); Written 14; Written (-14); Dropped; Echoed (bytes "As is"); Config 4 (replicate 4 0)]) as E by (vm_compute; reflexivity).
  rewrite <- E. exact (echo_server_refines ascii_upper ascii_lower ascii_upper_nonzero ascii_lower_nonzero some_requests some_requests_plain).
Defined.

Definition started : server := match server_init with Ok s => s | Fail _ => Server [] 0 0 true 0 [] [] end.
Definition next (r : request) (s : server) : server := match handle ascii_upper ascii_lower r s with Ok (_, s) => s | Fail _ => s end.

(** A client has been heard of and has quit. *)
Definition after_quit : server := next (message 7 QUIT) (next (message 7 (bytes "hello")) started).

Lemma next_reachable r s : reachable ascii_upper ascii_lower s -> polite s r -> reachable ascii_upper ascii_lower (next r s).
Proof. intros Hs Hp. unfold next. destruct (handle _ _ r s) as [[a s']|] eqn:E; [by apply (reach_step _ _ s r a)|done]. Qed.

Lemma echo_server_safe_witness : client_cnt after_quit = 0 /\ table_ok after_quit /\ forall r, polite after_quit r -> exists a s', handle ascii_upper ascii_lower r after_quit = Ok (a, s').
Proof.
  split; [vm_compute; reflexivity|]. apply (echo_server_safe ascii_upper ascii_lower ascii_upper_nonzero ascii_lower_nonzero).
  unfold after_quit. apply next_reachable; [apply next_reachable; [by apply reach_init|]|].
  - split; [repeat constructor; done|]. split; [by vm_compute|]. assert (starts_with (bytes "hello") QUIT = false) as -> by (vm_compute; reflexivity). done.
  - split; [apply quit_nul_free|]. split; [by vm_compute|]. intros _. left. apply (bool_decide_eq_true_1 _). vm_compute. reflexivity.
Defined.

(** ** What goes wrong *)

(** With nine clients the module answers nothing any more: not even a quit of one of them. *)
Lemma full_forever toupper tolower s ms : client_cnt s = 9 -> serve toupper tolower (map (fun '(pid, t) => message pid t) ms) s = Ok (map (fun _ => Dropped) ms, s).
Proof.
  intros H9. induction ms as [|[pid t] ms IH]; [done|]. cbn [map serve]. unfold message at 1. cbn [handle]. unfold nl_recv_msg, find_clinet. change (CLIENTS - 1) with 9. rewrite (proj2 (Z.eqb_eq _ _) H9). cbn [bind Z.eqb Pos.eqb]. by rewrite IH.
Qed.

Definition from_start (rs : list request) : res (list reply * server) := let* s := server_init in serve ascii_upper ascii_lower rs s.

(** A client that comes after another one has quit takes the entry of a third one. *)
Lemma quit_loses_a_client :
  (let* (_, s) := from_start [message 1 (bytes "a"); message 2 (bytes "b"); message 3 (bytes "c"); message 1 QUIT; message 4 (bytes "d")] in Ok (known s)) = Ok [2; 4].
Proof. vm_compute. reflexivity. Qed.

(** Nine clients, of which the ninth says nothing but quit, quit: the next
    client is written before the table. *)
Lemma quits_leave_the_table : from_start
  (map (fun pid => message pid (bytes "a")) (seqZ 1 8) ++ map (fun pid => message pid QUIT) ([9] ++ seqZ 1 9) ++ [message 10 (bytes "a")]) = Fail OutOfBounds.
Proof. vm_compute. reflexivity. Qed.

(** A configuration of 1024 bytes has no terminator. *)
Lemma long_configuration : from_start [configure (replicate 1024 65)] = Fail OutOfBounds.
Proof. vm_compute. reflexivity. Qed.

(** A word of more than nine characters does not fit its buffer. *)
Lemma long_word : from_start [configure (config_line (bytes "1") (bytes "lowercases"))] = Fail OutOfBounds.
Proof. vm_compute. reflexivity. Qed.

(** A message of 1024 characters has no terminator in its buffer. *)
Lemma long_message : from_start [message 1 (replicate 1024 65)] = Fail OutOfBounds.
Proof. vm_compute. reflexivity. Qed.

(** What an earlier configuration unread in the buffer is the second word of a line with one. *)
Lemma stale_word :
  (let* (l, _) := from_start [message 5 (bytes "a"); configure (config_line (bytes "0") (bytes "lower")); configure (bytes "mode 5" ++ [10]); message 5 (bytes "Abc")] in Ok (last l)) = Ok (Some (Echoed (bytes "abc"))).
Proof. vm_compute. reflexivity. Qed.
