(* ===== verification/Groups.v ===== *)
(** * Groups of a user: mgetgroups.c, getugroups.c and group-list.c of
    utils/coreutils/lib, and the commands groups and id

    The group database, the password database and the groups of the process are
    arguments, and so are getgrouplist, getgroups and the answers of the allocator; numbers and names
    are printed as pieces.  The commands are modelled after their options. *)

From S2P Require Import Prelude Arrays CStrings HashSizes.
Open Scope Z_scope.

(** [(gid_t) -1] *)
Definition NO_GID : Z := 4294967295.

Definition ENOMEM : Z := 12.
Definition ENOSYS : Z := 38.

(** ** getugroups.c *)

(** An entry of the group database: its number and its members. *)
Definition group : Type := Z * list (list Z).

(** [for(n = 0; n < count; ++n) if(grouplist && grouplist[n] == gid) break;] *)
Definition on_list (grouplist : option (list (option Z))) (count gid : Z) : res bool :=
  match grouplist with
  | None => Ok false
  | Some l =>
      let* r := for_exit 0 count (fun n _ => let* g := rdu l n in if g =? gid then Ok (inr tt) else Ok (inl tt)) tt in
      Ok (match r with inr _ => true | inl _ => false end)
  end.

Definition put_group (grouplist : option (list (option Z))) (count gid : Z) : res (option (list (option Z))) :=
  match grouplist with
  | None => Fail NullDeref
  | Some l => let* l := wr l count (Some gid) in Ok (Some l)
  end.

(** The members of one group; the loops end early when the list is full. *)
Fixpoint members_turn (maxcount : Z) (username : list Z) (gr_gid : Z) (gr_mem : list (list Z)) (st : Z * option (list (option Z))) : res ((Z * option (list (option Z))) + (Z * option (list (option Z)))) :=
  match gr_mem with
  | [] => Ok (inl st)
  | cp :: gr_mem =>
      let '(count, grouplist) := st in
      if bool_decide (username = cp) then
        let* found := on_list grouplist count gr_gid in
        if found then members_turn maxcount username gr_gid gr_mem st
        else if negb (maxcount =? 0) && (count >=? maxcount) then Ok (inr st)
        else
          let* grouplist := if negb (maxcount =? 0) then put_group grouplist count gr_gid else Ok grouplist in
          if count =? INT_MAX then Ok (inr (count, grouplist))
          else members_turn maxcount username gr_gid gr_mem (count + 1, grouplist)
      else members_turn maxcount username gr_gid gr_mem st
  end.

Fixpoint groups_turn (maxcount : Z) (username : list Z) (db : list group) (st : Z * option (list (option Z))) : res ((Z * option (list (option Z))) + (Z * option (list (option Z)))) :=
  match db with
  | [] => Ok (inl st)
  | (gr_gid, gr_mem) :: db =>
      let* r := members_turn maxcount username gr_gid gr_mem st in
      match r with inl st => groups_turn maxcount username db st | inr st => Ok (inr st) end
  end.

(** The result and the list; [failed]: getgrent stops with an error. *)
Definition getugroups (db : list group) (failed : bool) (maxcount : Z) (grouplist : option (list (option Z))) (username : list Z) (gid : Z) : res (Z * option (list (option Z))) :=
  let* st :=
    if negb (gid =? NO_GID) then
      let* grouplist := if negb (maxcount =? 0) then put_group grouplist 0 gid else Ok grouplist in
      Ok (1, grouplist)
    else Ok (0, grouplist) in
  let* r := groups_turn maxcount username db st in
  match r with
  | inl (count, grouplist) => Ok (if failed then -1 else count, grouplist)
  | inr (count, grouplist) => Ok (count, grouplist)
  end.

(** ** mgetgroups.c *)

Section system.
Context (alloc : Z -> bool).
(** The result, the new value of [*ngroups], and the groups that are stored. *)
Context (getgrouplist : list Z -> Z -> Z -> Z * Z * list Z).
(** The groups of the process, or errno. *)
Context (getgroups : Z -> Z + (Z * list Z)).

Definition realloc_groupbuf (g : list (option Z)) (num : Z) : option (list (option Z)) :=
  if xalloc_oversized (u64 num) 4 then None
  else if alloc (u64 num * 4) then Some (take (Z.to_nat (u64 num)) g ++ replicate (Z.to_nat (u64 num) - length g) None)
  else None.

(** What a function of the system stores from index [i] on. *)
Definition stored (g : list (option Z)) (i : Z) (l : list Z) : res (list (option Z)) :=
  let* _ := demand (i + zlen l <=? zlen g) OutOfBounds in
  Ok (take (Z.to_nat i) g ++ map Some l ++ drop (Z.to_nat (i + zlen l)) g).

(** The error number, or the number of groups and the buffer. *)
Definition gresult : Type := Z + (Z * list (option Z)).

(** One turn of the loop for a user. *)
Definition user_turn (username : list Z) (gid : Z) (st : Z * list (option Z)) : res ((Z * list (option Z)) + gresult) :=
  let '(max_n_groups, g) := st in
  let last_n_groups := max_n_groups in
  let '(ng, max_n_groups, l) := getgrouplist username gid max_n_groups in
  let* g := stored g 0 l in
  let* max_n_groups := if (ng <? 0) && (last_n_groups =? max_n_groups) then int (max_n_groups * 2) else Ok max_n_groups in
  match realloc_groupbuf g max_n_groups with
  | None => Ok (inr (inl ENOMEM))
  | Some h => if ng >=? 0 then Ok (inr (inr (max_n_groups, h))) else Ok (inl (max_n_groups, h))
  end.

(** One turn of the pass over duplicates: [g] is an index. *)
Definition reduce_turn (first next : Z) (st : Z * Z * list (option Z)) : res (Z * Z * list (option Z)) :=
  let '(g, ng, buf) := st in
  let* v := rdu buf next in
  let* w := rdu buf g in
  if (v =? first) || (v =? w) then Ok (g, ng - 1, buf)
  else let* buf := wr buf (g + 1) (Some v) in Ok (g + 1, ng, buf).

Definition reduce (ng : Z) (buf : list (option Z)) : res (Z * list (option Z)) :=
  if 1 <? ng then
    let* first := rdu buf 0 in
    let* (_, ng', buf) := for_up 1 ng (reduce_turn first) (0, ng, buf) in
    Ok (ng', buf)
  else Ok (ng, buf).

Definition mgetgroups (username : option (list Z)) (gid : Z) : res gresult :=
  match username with
  | Some username =>
      match realloc_groupbuf [] 10 with
      | None => Ok (inl ENOMEM)
      | Some g => loop 64 (user_turn username gid) (10, g)
      end
  | None =>
      let extra := if gid =? NO_GID then 0 else 1 in
      match getgroups 0 with
      | inl errno =>
          if errno =? ENOSYS then
            match realloc_groupbuf [] 1 with
            | Some g => let* g := wr g 0 (Some gid) in Ok (inr (extra, g))
            | None => Ok (inl ENOMEM)
            end
          else Ok (inl errno)
      | inr (n, _) =>
          let* max_n_groups := int (n + extra) in
          match realloc_groupbuf [] max_n_groups with
          | None => Ok (inl ENOMEM)
          | Some g =>
              match getgroups (max_n_groups - extra) with
              | inl errno => Ok (inl errno)
              | inr (ng, l) =>
                  let* g := stored g extra l in
                  let* (ng, g) := if negb (gid =? NO_GID) then let* g := wr g 0 (Some gid) in Ok (ng + 1, g) else Ok (ng, g) in
                  let* (ng, g) := reduce ng g in
                  Ok (inr (ng, g))
              end
          end
      end
  end.

(** xalloc_die *)
Definition xgetgroups (username : option (list Z)) (gid : Z) : res gresult :=
  let* r := mgetgroups username gid in
  match r with inl errno => if errno =? ENOMEM then Fail (ExitCall 1) else Ok r | inr _ => Ok r end.

(** ** group-list.c *)

(** The name of a group, and the entry of a user: name and group. *)
Context (getgrgid : Z -> option (list Z)) (getpwuid : Z -> option (list Z * Z)).

Definition print_name (s : list Z) : list piece := map PChar s.

(** Whether it went well, and what is printed. *)
Definition print_group (gid : Z) (use_names : bool) : bool * list piece :=
  let grp := if use_names then getgrgid gid else None in
  (negb use_names || bool_decide (is_Some grp), match grp with None => [PInt gid] | Some name => print_name name end).

(** The loop over the groups of the list. *)
Definition group_turn (groups : list (option Z)) (rgid egid : Z) (use_names : bool) (i : Z) (st : bool * list piece) : res (bool * list piece) :=
  let '(ok, out) := st in
  let* g := rdu groups i in
  if negb (g =? rgid) && negb (g =? egid) then
    let '(good, o) := print_group g use_names in
    Ok (ok && good, out ++ [PChar 32] ++ o)
  else Ok (ok, out).

Definition print_group_list (username : option (list Z)) (ruid rgid egid : Z) (use_names : bool) : res (bool * list piece) :=
  let pwd := getpwuid ruid in
  let ok := bool_decide (is_Some pwd) in
  let '(good, out) := print_group rgid use_names in
  let ok := ok && good in
  let '(ok, out) :=
    if negb (egid =? rgid) then let '(good, o) := print_group egid use_names in (ok && good, out ++ [PChar 32] ++ o)
    else (ok, out) in
  let* r := xgetgroups username (match pwd with Some (_, g) => g | None => NO_GID end) in
  match r with
  | inl _ => Ok (false, out)
  | inr (n_groups, groups) => for_up 0 n_groups (group_turn groups rgid egid use_names) (ok, out)
  end.

(** ** groups.c *)

Context (getpwnam : list Z -> option (Z * Z)).

(** The exit status and the output, for the real and effective ids of the process and the operands. *)
Fixpoint groups_users (operands : list (list Z)) (ok : bool) (out : list piece) : res (Z * list piece) :=
  match operands with
  | [] => Ok ((if ok then 0 else 1), out)
  | name :: operands =>
      match getpwnam name with
      | None => Ok (1, out)
      | Some (uid, gid) =>
          let* (good, o) := print_group_list (Some name) uid gid gid true in
          groups_users operands (ok && good) (out ++ print_name name ++ [PStr " : "] ++ o ++ [PChar 10])
      end
  end.

Definition groups_main (getuid getgid getegid : Z) (operands : list (list Z)) : res (Z * list piece) :=
  match operands with
  | [] => let* (good, o) := print_group_list None getuid getgid getegid true in Ok ((if good then 0 else 1), o ++ [PChar 10])
  | _ => groups_users operands true []
  end.

(** ** id.c *)

Record id_options := IdOptions { just_context : bool; just_group : bool; just_group_list : bool; just_user : bool; use_real : bool; use_name : bool }.

Definition print_user (uid : Z) (use_name : bool) : bool * list piece :=
  let pwd := if use_name then getpwuid uid else None in
  (negb use_name || bool_decide (is_Some pwd), match pwd with None => [PInt uid] | Some (name, _) => print_name name end).

(** [(%s)], when there is a name. *)
Definition in_parens (name : option (list Z)) : list piece := match name with Some s => [PChar 40] ++ print_name s ++ [PChar 41] | None => [] end.

Definition full_turn (groups : list (option Z)) (i : Z) (out : list piece) : res (list piece) :=
  let* g := rdu groups i in
  Ok (out ++ (if 0 <? i then [PChar 44] else []) ++ [PInt g] ++ in_parens (getgrgid g)).

(** [shown] is the context, if it is to be shown: POSIXLY_CORRECT is not set. *)
Definition print_full_info (username : option (list Z)) (ruid euid rgid egid : Z) (shown : option (list Z)) : res (bool * list piece) :=
  let pwd := getpwuid ruid in
  let out := [PStr "uid="; PInt ruid] ++ in_parens (fst <$> pwd) ++ [PStr " gid="; PInt rgid] ++ in_parens (getgrgid rgid) in
  let '(pwd, out) :=
    if negb (euid =? ruid) then let pwd := getpwuid euid in (pwd, out ++ [PStr " euid="; PInt euid] ++ in_parens (fst <$> pwd))
    else (pwd, out) in
  let out := if negb (egid =? rgid) then out ++ [PStr " egid="; PInt egid] ++ in_parens (getgrgid egid) else out in
  let* r := xgetgroups username (match pwd with Some (_, g) => g | None => NO_GID end) in
  match r with
  | inl _ => Ok (false, out)
  | inr (n_groups, groups) =>
      let out := if 0 <? n_groups then out ++ [PStr " groups="] else out in
      let* out := for_up 0 n_groups (full_turn groups) out in
      Ok (true, out ++ match shown with Some c => [PStr " context="] ++ print_name c | None => [] end)
  end.

Definition one (b : bool) : Z := if b then 1 else 0.

(** The ids of the process. *)
Record process := Process { getuid : Z; geteuid : Z; getgid : Z; getegid : Z }.

(** The exit status and the output; [selinux]: the kernel has it, and the context of the process if it can be had. *)
Definition id_main (o : id_options) (selinux : option (option (list Z))) (posix : bool) (p : process) (operands : list (list Z)) : res (Z * list piece) :=
  if just_context o && bool_decide (selinux = None) then Ok (1, [])
  else if 1 <? zlen operands then Ok (1, [])
  else if (zlen operands =? 1) && just_context o then Ok (1, [])
  else
    let context := match selinux, operands with Some c, [] => c | _, _ => None end in
    if bool_decide (operands = []) && bool_decide (is_Some selinux) && bool_decide (context = None) && just_context o then Ok (1, [])
    else if 1 <? one (just_user o) + one (just_group o) + one (just_group_list o) + one (just_context o) then Ok (1, [])
    else if (one (just_user o) + one (just_group o) + one (just_group_list o) =? 0) && (use_real o || use_name o) then Ok (1, [])
    else
      let ids := match operands with
        | name :: _ => match getpwnam name with Some (uid, gid) => Some (uid, uid, gid, gid) | None => None end
        | [] => Some (getuid p, geteuid p, getgid p, geteuid p)
        end in
      match ids with
      | None => Ok (1, [])
      | Some (ruid, euid, rgid, egid) =>
          let* (ok, out) :=
            if just_user o then Ok (print_user (if use_real o then ruid else euid) (use_name o))
            else if just_group o then Ok (print_group (if use_real o then rgid else egid) (use_name o))
            else if just_group_list o then print_group_list (head operands) ruid rgid egid (use_name o)
            else if just_context o then match context with Some c => Ok (true, print_name c) | None => Fail NullDeref end
            else print_full_info (head operands) ruid euid rgid egid (if posix then None else context) in
          Ok ((if ok then 0 else 1), out ++ [PChar 10])
      end.
End system.

(** ** The groups of a user in the database *)

(** A group once for every time the user is among its members. *)
Definition listed (username : list Z) (g : group) : list Z := map (fun _ => g.1) (filter (fun cp => username = cp) g.2).
Definition memberships (username : list Z) (db : list group) : list Z := concat (map (listed username) db).

(** New groups are added at the end. *)
Definition add_new (l : list Z) (g : Z) : list Z := if bool_decide (g ∈ l) then l else l ++ [g].
Definition distinct (start l : list Z) : list Z := fold_left add_new l start.
Definition starting (gid : Z) : list Z := if gid =? NO_GID then [] else [gid].

Lemma starting_elem gid x : x ∈ starting gid <-> x = gid /\ gid <> NO_GID.
Proof. unfold starting. destruct (Z.eqb_spec gid NO_GID); [rewrite elem_of_nil|rewrite list_elem_of_singleton]; tauto. Qed.

Lemma distinct_cons start g l : distinct start (g :: l) = distinct (add_new start g) l.
Proof. done. Qed.

Lemma distinct_NoDup l : forall start, NoDup start -> NoDup (distinct start l).
Proof.
  induction l as [|g l IH]; intros start Hs; [done|]. rewrite distinct_cons. apply IH. unfold add_new. destruct (bool_decide_reflect (g ∈ start)) as [H|H]; [done|]. apply NoDup_app. split; [done|]. split; [|apply NoDup_singleton]. intros x Hx Hx'. apply list_elem_of_singleton in Hx' as ->. done.
Qed.

Lemma distinct_elem l x : forall start, x ∈ distinct start l <-> x ∈ start \/ x ∈ l.
Proof.
  induction l as [|g l IH]; intros start; [cbn; set_solver|]. rewrite distinct_cons, IH. unfold add_new. destruct (bool_decide_reflect (g ∈ start)) as [H|H]; set_solver.
Qed.

Lemma distinct_length l : forall start, zlen start <= zlen (distinct start l) <= zlen start + zlen l.
Proof.
  induction l as [|g l IH]; intros start; [unfold zlen; cbn; lia|]. rewrite distinct_cons, zlen_cons. specialize (IH (add_new start g)). assert (zlen start <= zlen (add_new start g) <= zlen start + 1); [|lia]. unfold add_new. destruct (bool_decide (g ∈ start)); [lia|]. rewrite zlen_snoc. lia.
Qed.

Lemma memberships_elem username db g : g ∈ memberships username db <-> exists mem, (g, mem) ∈ db /\ username ∈ mem.
Proof.
  unfold memberships. rewrite list_elem_of_In, in_concat. split.
  - intros (l & Hl & Hg). apply list_elem_of_In, list_elem_of_fmap in Hl as ([h mem] & -> & Hm). apply list_elem_of_In, list_elem_of_fmap in Hg as (cp & -> & Hc). apply list_elem_of_filter in Hc as [-> Hc]. by exists mem.
  - intros (mem & Hm & Hu). exists (listed username (g, mem)). split; [apply list_elem_of_In, list_elem_of_fmap; by exists (g, mem)|]. apply list_elem_of_In, list_elem_of_fmap. exists username. split; [done|]. by apply list_elem_of_filter.
Qed.

(** Counting: no list is given. *)
Lemma members_count username gid mem : forall count, 0 <= count -> count + zlen (listed username (gid, mem)) <= INT_MAX ->
  members_turn 0 username gid mem (count, None) = Ok (inl (count + zlen (listed username (gid, mem)), None)).
Proof.
  unfold listed. cbn [fst snd]. induction mem as [|cp mem IH]; intros count Hc Hm; cbn [members_turn]; [unfold zlen; cbn; do 3 f_equal; lia|]. rewrite filter_cons in *. destruct (bool_decide_reflect (username = cp)) as [E|E].
  - rewrite decide_True in * by done. cbn [map] in *. rewrite zlen_cons in *. pose proof (zlen_nonneg (map (fun _ : list Z => gid) (filter (fun cp => username = cp) mem))). cbn [on_list bind Z.eqb negb andb]. rewrite (proj2 (Z.eqb_neq _ _)) by lia. rewrite IH by lia. do 3 f_equal. lia.
  - rewrite decide_False in * by done. by apply IH.
Qed.

Lemma groups_count username db : forall count, 0 <= count -> count + zlen (memberships username db) <= INT_MAX ->
  groups_turn 0 username db (count, None) = Ok (inl (count + zlen (memberships username db), None)).
Proof.
  induction db as [|[gid mem] db IH]; intros count Hc Hm; cbn [groups_turn]; [unfold memberships, zlen; cbn; do 3 f_equal; lia|].
  change (memberships username ((gid, mem) :: db)) with (listed username (gid, mem) ++ memberships username db) in *. rewrite zlen_app in *. pose proof (zlen_nonneg (memberships username db)). pose proof (zlen_nonneg (listed username (gid, mem))). rewrite members_count by lia. cbn [bind]. rewrite IH by lia. do 3 f_equal. lia.
Qed.

(** The list holds [l] and has room. *)
Lemma on_list_ok l rest gid : on_list (Some (map Some l ++ rest)) (zlen l) gid = Ok (bool_decide (gid ∈ l)).
Proof.
  cbn [on_list]. unfold for_exit. rewrite Z.sub_0_r. unfold zlen. rewrite Nat2Z.id.
  assert (forall todo pre, for_exit_n (length todo) (zlen pre) (fun n (_ : unit) => let* g := rdu (map Some pre ++ map Some todo ++ rest) n in if g =? gid then Ok (inr tt) else Ok (inl tt)) tt = Ok (if bool_decide (gid ∈ todo) then inr tt else inl tt)) as H.
  { induction todo as [|g todo IH]; intros pre; cbn [length for_exit_n map app]; [by rewrite bool_decide_false by set_solver|]. rewrite rdu_middle by (unfold zlen; by rewrite length_map). cbn [bind]. destruct (Z.eqb_spec g gid) as [->|E]; [by rewrite bool_decide_true by left|]. specialize (IH (pre ++ [g])). rewrite zlen_snoc, map_app, <- app_assoc in IH. cbn in IH. cbn [bind]. rewrite IH. by replace (bool_decide (gid ∈ g :: todo)) with (bool_decide (gid ∈ todo)) by (apply bool_decide_ext; set_solver). }
  specialize (H l []). cbn [map app] in H. change (zlen []) with 0 in H. rewrite H. cbn. by destruct (bool_decide (gid ∈ l)).
Qed.

Lemma put_group_ok l x rest gid : put_group (Some (map Some l ++ x :: rest)) (zlen l) gid = Ok (Some (map Some (l ++ [gid]) ++ rest)).
Proof. cbn [put_group]. rewrite wr_middle by (unfold zlen; by rewrite length_map). cbn. by rewrite map_app, <- app_assoc. Qed.

(** Filling: the list has room for all groups. *)
Lemma members_fill username gid mem maxcount : 0 < maxcount <= INT_MAX -> forall l rest,
  zlen l + zlen rest = maxcount -> zlen (distinct l (listed username (gid, mem))) <= maxcount ->
  exists rest', members_turn maxcount username gid mem (zlen l, Some (map Some l ++ rest)) =
    Ok (inl (zlen (distinct l (listed username (gid, mem))), Some (map Some (distinct l (listed username (gid, mem))) ++ rest'))) /\
  zlen (distinct l (listed username (gid, mem))) + zlen rest' = maxcount.
Proof.
  unfold listed. cbn [fst snd]. intros Hmax. induction mem as [|cp mem IH]; intros l rest Hl Hd; cbn [members_turn]; [by exists rest|]. rewrite filter_cons in *. destruct (bool_decide_reflect (username = cp)) as [E|E]; [|rewrite decide_False in * by done; by apply IH].
  rewrite decide_True in * by done. cbn [map] in *. rewrite distinct_cons in *. rewrite on_list_ok. cbn [bind]. unfold add_new in *. destruct (bool_decide_reflect (gid ∈ l)) as [H|H]; [by apply IH|].
  pose proof (distinct_length (map (fun _ : list Z => gid) (filter (fun cp => username = cp) mem)) (l ++ [gid])) as [Hlen _]. rewrite zlen_snoc in Hlen. rewrite (proj2 (Z.eqb_neq maxcount 0)) by lia. cbn [negb andb]. rewrite Z.geb_leb, (proj2 (Z.leb_gt _ _)) by lia.
  destruct rest as [|x rest]; [change (zlen []) with 0 in Hl; lia|]. rewrite put_group_ok. cbn [bind]. rewrite zlen_cons in Hl. rewrite (proj2 (Z.eqb_neq (zlen l) INT_MAX)) by lia. rewrite <- zlen_snoc with (x := gid). apply IH; [rewrite zlen_snoc; lia|done].
Qed.

Lemma groups_fill username db maxcount : 0 < maxcount <= INT_MAX -> forall l rest,
  zlen l + zlen rest = maxcount -> zlen (distinct l (memberships username db)) <= maxcount ->
  exists rest', groups_turn maxcount username db (zlen l, Some (map Some l ++ rest)) =
    Ok (inl (zlen (distinct l (memberships username db)), Some (map Some (distinct l (memberships username db)) ++ rest'))).
Proof.
  intros Hmax. induction db as [|[gid mem] db IH]; intros l rest Hl Hd; cbn [groups_turn]; [by exists rest|]. change (memberships username ((gid, mem) :: db)) with (listed username (gid, mem) ++ memberships username db) in *. assert (forall a b, distinct l (a ++ b) = distinct (distinct l a) b) as E by (intros; apply fold_left_app). rewrite E in *.
  pose proof (distinct_length (memberships username db) (distinct l (listed username (gid, mem)))) as [Hlen _]. destruct (members_fill username gid mem maxcount Hmax l rest Hl ltac:(lia)) as (rest' & -> & Hr). cbn [bind]. by apply (IH _ rest').
Qed.

(** getugroups finds the groups of a user: called without a list it returns a
    number of groups that is enough, and called with a list that is long
    enough it stores the given group first and then every group that has the user as a
    member, each of them once and no other one, and returns their number. *)
Theorem getugroups_lists db username gid : zlen (starting gid) + zlen (memberships username db) <= INT_MAX ->
  let groups := distinct (starting gid) (memberships username db) in
  let enough := zlen (starting gid) + zlen (memberships username db) in
  getugroups db false 0 None username gid = Ok (enough, None) /\ zlen groups <= enough /\
  NoDup groups /\ (forall g, g ∈ groups <-> g = gid /\ gid <> NO_GID \/ exists mem, (g, mem) ∈ db /\ username ∈ mem) /\
  forall buf, zlen groups <= zlen buf <= INT_MAX -> 0 < zlen buf ->
  exists rest, getugroups db false (zlen buf) (Some buf) username gid = Ok (zlen groups, Some (map Some groups ++ rest)).
Proof.
  intros Hmax groups enough. unfold getugroups. pose proof (zlen_nonneg (memberships username db)) as Hm. split_and!.
  - unfold enough. unfold starting in *. destruct (gid =? NO_GID); cbn [negb bind Z.eqb]; rewrite groups_count; done.
  - unfold groups, enough. apply distinct_length.
  - apply distinct_NoDup. unfold starting. destruct (gid =? NO_GID); [constructor|apply NoDup_singleton].
  - intros g. unfold groups. by rewrite distinct_elem, memberships_elem, starting_elem.
  - intros buf Hb Hb0. assert (exists rest, (let* st := if negb (gid =? NO_GID) then let* grouplist := if negb (zlen buf =? 0) then put_group (Some buf) 0 gid else Ok (Some buf) in Ok (1, grouplist) else Ok (0, Some buf) in Ok st) = Ok (zlen (starting gid), Some (map Some (starting gid) ++ rest)) /\ zlen (starting gid) + zlen rest = zlen buf) as (rest & E & Hr).
    { rewrite (proj2 (Z.eqb_neq (zlen buf) 0)) by lia. unfold starting. destruct (gid =? NO_GID); cbn [negb]; [by exists buf|]. destruct buf as [|x buf]; [done|]. exists buf. split; [done|]. by rewrite !zlen_cons, Z.add_comm. }
    rewrite bind_Ok_r in E. rewrite E. cbn [bind]. destruct (groups_fill username db (zlen buf) ltac:(lia) (starting gid) rest Hr ltac:(fold groups; lia)) as (rest' & ->). cbn. by exists rest'.
Qed.

(** ** The pass over duplicates *)

(** What is kept after [first], when [prev] was kept last. *)
Fixpoint squeeze (first prev : Z) (l : list Z) : list Z :=
  match l with
  | [] => []
  | v :: l => if (v =? first) || (v =? prev) then squeeze first prev l else v :: squeeze first v l
  end.

Definition squeezed (l : list Z) : list Z := match l with [] => [] | first :: l => first :: squeeze first first l end.

Lemma squeeze_first first l : forall prev, first ∉ squeeze first prev l.
Proof.
  induction l as [|v l IH]; intros prev; cbn [squeeze]; [set_solver|]. destruct (Z.eqb_spec v first) as [->|E]; cbn [orb]; [apply IH|]. destruct (v =? prev); [apply IH|]. specialize (IH v). set_solver.
Qed.

Lemma squeeze_elem first l x : forall prev, x = first \/ x = prev \/ x ∈ squeeze first prev l <-> x = first \/ x = prev \/ x ∈ l.
Proof.
  induction l as [|v l IH]; intros prev; cbn [squeeze]; [done|]. destruct (Z.eqb_spec v first) as [->|E]; cbn [orb]; [specialize (IH prev); set_solver|]. destruct (Z.eqb_spec v prev) as [->|E']; [specialize (IH prev); set_solver|]. specialize (IH v). set_solver.
Qed.

(** No two neighbours are equal. *)
Fixpoint no_repeats (prev : Z) (l : list Z) : Prop := match l with [] => True | v :: l => v <> prev /\ no_repeats v l end.

Lemma squeeze_no_repeats first l : forall prev, no_repeats prev (squeeze first prev l).
Proof.
  induction l as [|v l IH]; intros prev; cbn [squeeze]; [done|]. destruct (v =? first); cbn [orb]; [apply IH|]. destruct (Z.eqb_spec v prev) as [->|E]; [apply IH|]. by split.
Qed.

Lemma reduce_loop first n todo : forall k0 prev junk rest, exists junk',
  for_n (length todo) (zlen k0 + 1 + zlen junk) (reduce_turn first) (zlen k0, n, map Some (k0 ++ [prev]) ++ junk ++ map Some todo ++ rest) =
  Ok (zlen k0 + zlen (squeeze first prev todo), n - zlen todo + zlen (squeeze first prev todo), map Some (k0 ++ [prev] ++ squeeze first prev todo) ++ junk').
Proof.
  revert n. induction todo as [|v todo IH]; intros n k0 prev junk rest; cbn [length for_n squeeze].
  { exists (junk ++ rest). change (zlen []) with 0. rewrite Z.add_0_r, Z.sub_0_r, Z.add_0_r, app_nil_r. done. }
  unfold reduce_turn at 1. assert (zlen (map Some (k0 ++ [prev]) ++ junk) = zlen k0 + 1 + zlen junk) as Hz by (rewrite zlen_app; unfold zlen; rewrite length_map, length_app; cbn; lia).
  cbn [map app]. rewrite (app_assoc _ junk), rdu_middle by done. cbn [bind]. rewrite map_app. cbn [map]. rewrite <- !app_assoc. cbn [app]. rewrite rdu_middle by (unfold zlen; by rewrite length_map). cbn [bind].
  destruct ((v =? first) || (v =? prev)) eqn:E.
  - cbn [bind]. destruct (IH (n - 1) k0 prev (junk ++ [Some v]) rest) as (junk' & H). exists junk'. rewrite zlen_snoc, map_app, <- !app_assoc in H. cbn [map app] in H. rewrite Z.add_assoc in H. rewrite H. rewrite zlen_cons. do 3 f_equal. lia.
  - assert (exists junk2, wr (map Some k0 ++ Some prev :: junk ++ Some v :: map Some todo ++ rest) (zlen k0 + 1) (Some v) = Ok (map Some (k0 ++ [prev; v]) ++ junk2 ++ map Some todo ++ rest) /\ zlen junk2 = zlen junk) as (junk2 & -> & Hj).
    { assert (zlen (map Some k0 ++ [Some prev]) = zlen k0 + 1) as Hk by (rewrite zlen_snoc; unfold zlen; by rewrite length_map). rewrite map_app. cbn [map]. assert (forall y X, map Some k0 ++ Some prev :: y :: X = (map Some k0 ++ [Some prev]) ++ y :: X) as Ha by (intros; by rewrite <- app_assoc). destruct junk as [|x junk]; cbn [app].
      - exists []. rewrite Ha, wr_middle by done. split; [by rewrite <- !app_assoc|done].
      - exists (junk ++ [Some v]). rewrite Ha, wr_middle by done. split; [by rewrite <- !app_assoc|]. by rewrite zlen_snoc, zlen_cons. }
    cbn [bind]. destruct (IH n (k0 ++ [prev]) v junk2 rest) as (junk' & H). exists junk'. rewrite zlen_snoc, <- !app_assoc, Hj in H. cbn [app] in H. replace (zlen k0 + 1 + zlen junk + 1) with (zlen k0 + 1 + 1 + zlen junk) by lia. rewrite H. rewrite !zlen_cons. f_equal. f_equal. f_equal; lia.
Qed.

Lemma reduce_ok l rest : exists rest', reduce (zlen l) (map Some l ++ rest) = Ok (zlen (squeezed l), map Some (squeezed l) ++ rest').
Proof.
  unfold reduce. destruct l as [|first [|v l]]; [by exists rest|by exists rest|]. rewrite (proj2 (Z.ltb_lt _ _)) by (rewrite !zlen_cons; pose proof (zlen_nonneg l); lia). cbn [map app]. change (rdu (Some first :: ?X) 0) with (@Ok Z first). cbn [bind]. unfold for_up.
  replace (Z.to_nat (zlen (first :: v :: l) - 1)) with (length (v :: l)) by (unfold zlen; cbn [length]; lia). destruct (reduce_loop first (zlen (first :: v :: l)) (v :: l) [] first [] rest) as (junk & H). change (zlen []) with 0 in H. cbn [app map] in H. change (0 + 1 + 0) with 1 in H. exists junk.
  rewrite H. cbn [bind squeezed app]. rewrite !zlen_cons. f_equal. f_equal. lia.
Qed.

(** ** mgetgroups *)

Section lists.
Context (alloc : Z -> bool) (getgrouplist : list Z -> Z -> Z -> Z * Z * list Z) (getgroups : Z -> Z + (Z * list Z)).

Lemma realloc_ok g num : 0 <= num <= INT_MAX -> realloc_groupbuf alloc g num = if alloc (num * 4) then Some (take (Z.to_nat num) g ++ replicate (Z.to_nat num - length g) None) else None.
Proof.
  intros Hn. unfold realloc_groupbuf, xalloc_oversized, u64. rewrite Z.mod_small by code_lia. rewrite (proj2 (Z.ltb_ge _ _)); [done|]. change (SIZE_MAX / 4) with 4611686018427387903. code_lia.
Qed.

(** getgroups with a size of 0 returns the number of groups, and with a size that is enough
    it stores them. *)
Definition process_groups (l : list Z) : Prop := getgroups 0 = inr (zlen l, []) /\ forall n, 0 < n -> zlen l <= n -> getgroups n = inr (zlen l, l).

Lemma process_groups_exact l : process_groups l -> getgroups (zlen l) = inr (zlen l, l).
Proof. intros [H0 H]. destruct l as [|x l]; [done|]. apply H; [rewrite zlen_cons; pose proof (zlen_nonneg l); lia|done]. Qed.

Lemma mgetgroups_process gid l : process_groups l -> zlen l < INT_MAX ->
  exists rest, mgetgroups alloc getgrouplist getgroups None gid =
    Ok (if alloc (zlen (starting gid ++ l) * 4) then inr (zlen (squeezed (starting gid ++ l)), map Some (squeezed (starting gid ++ l)) ++ rest) else inl ENOMEM).
Proof.
  intros Hg Hl. unfold mgetgroups. pose proof (zlen_nonneg l) as Hl0. rewrite (proj1 Hg). assert (zlen (starting gid ++ l) = zlen l + (if gid =? NO_GID then 0 else 1)) as Hz by (rewrite zlen_app; unfold starting; destruct (gid =? NO_GID); unfold zlen; cbn; lia).
  rewrite int_Ok by (destruct (gid =? NO_GID); code_lia). cbn [bind]. rewrite realloc_ok by (destruct (gid =? NO_GID); code_lia). rewrite Hz. destruct (alloc _); [|by exists []].
  rewrite Z.add_simpl_r, (process_groups_exact l Hg). rewrite take_nil. cbn [app length]. rewrite Nat.sub_0_r. unfold stored. assert (forall n, 0 <= n -> zlen (replicate (Z.to_nat n) (@None Z)) = n) as Hrep by (intros; unfold zlen; rewrite length_replicate; lia). rewrite Hrep by (destruct (gid =? NO_GID); lia).
  destruct (reduce_ok (starting gid ++ l) []) as (rest & Hr). rewrite app_nil_r in Hr. unfold starting in *. destruct (gid =? NO_GID) eqn:E.
  - rewrite Z.add_0_l, Z.add_0_r, (proj2 (Z.leb_le _ _)) by lia. cbn [demand bind negb app Z.to_nat take]. rewrite drop_ge by (rewrite length_replicate; lia). rewrite app_nil_r. cbn [app] in Hr. change (Z.to_nat 0) with 0%nat. rewrite take_0. cbn [app]. rewrite Hr. cbn. by exists rest.
  - rewrite Z.add_comm, (proj2 (Z.leb_le _ _)) by lia. cbn [demand bind negb]. replace (Z.to_nat (zlen l + 1)) with (S (Z.to_nat (zlen l))) by lia. rewrite drop_ge by (rewrite length_replicate; lia). change (Z.to_nat 1) with 1%nat. cbn [replicate take]. rewrite take_0, app_nil_r. cbn [app]. pose proof (wr_middle [] (@None Z) (map Some l) 0 (Some gid) eq_refl) as Hw. cbn [app] in Hw. rewrite Hw. cbn [bind]. cbn [app] in Hr. rewrite zlen_cons in Hr. cbn [map] in Hr. rewrite Hr. cbn. by exists rest.
Qed.

(** getgrouplist stores the groups if there is room for them; if not it asks for
    the right number, or leaves the number as it is. *)
Definition user_groups (username : list Z) (gid : Z) (l : list Z) : Prop := forall n, 0 <= n ->
  (zlen l <= n -> exists ng, 0 <= ng /\ getgrouplist username gid n = (ng, zlen l, l)) /\
  (n < zlen l -> exists n' some, getgrouplist username gid n = (-1, n', some) /\ zlen some <= n /\ (n' = zlen l \/ n' = n)).

Lemma stored_ok g l : zlen l <= zlen g -> stored g 0 l = Ok (map Some l ++ drop (length l) g).
Proof. intros H. unfold stored. rewrite Z.add_0_l, (proj2 (Z.leb_le _ _)) by done. cbn [demand bind]. change (Z.to_nat 0) with 0%nat. rewrite take_0. unfold zlen. by rewrite Nat2Z.id. Qed.

Lemma mgetgroups_user username gid l : (forall n, alloc n = true) -> user_groups username gid l -> 0 < zlen l <= 1073741824 ->
  mgetgroups alloc getgrouplist getgroups (Some username) gid = Ok (inr (zlen l, map Some l)).
Proof.
  intros Ha Hu Hl. enough (wp (mgetgroups alloc getgrouplist getgroups (Some username) gid) (fun r => r = inr (zlen l, map Some l))) as H by (destruct (mgetgroups _ _ _ _ _); [by rewrite H|done]). unfold mgetgroups. rewrite realloc_ok, Ha by code_lia.
  apply (wp_loop_idx (fun k '(n, g) => zlen g = n /\ 10 <= n <= INT_MAX /\ (zlen l <= n \/ 2147483648 <= n * 2 ^ Z.of_nat k)) 28); [|lia|].
  { rewrite take_nil. split; [done|]. split; [code_lia|]. right. done. }
  intros k [n g] (Hg & Hn & Hk). unfold user_turn. destruct (Hu n ltac:(lia)) as [Hfits Hmore]. destruct (Z.le_gt_cases (zlen l) n) as [Hle|Hgt].
  - destruct (Hfits Hle) as (ng & Hng & ->). rewrite stored_ok by lia. cbn [bind]. rewrite (proj2 (Z.ltb_ge ng 0)) by lia. cbn [andb bind]. rewrite realloc_ok, Ha by code_lia. rewrite Z.geb_leb, (proj2 (Z.leb_le 0 ng)) by lia. cbn.
    unfold zlen in *. rewrite Nat2Z.id, length_app, length_map, take_app_length' by (by rewrite length_map). replace (length l - _)%nat with 0%nat by lia. cbn. by rewrite app_nil_r.
  - destruct (Hmore Hgt) as (n' & some & -> & Hs & Hn'). rewrite stored_ok by lia. cbn [bind]. change (-1 <? 0) with true. cbn [andb]. destruct k as [|k]; [change (2 ^ Z.of_nat 0) with 1 in Hk; code_lia|]. rewrite Nat2Z.inj_succ, Z.pow_succ_r in Hk by lia.
    assert (forall m, 10 <= m <= INT_MAX -> forall h, realloc_groupbuf alloc h m = Some (take (Z.to_nat m) h ++ replicate (Z.to_nat m - length h) None) /\ zlen (take (Z.to_nat m) h ++ replicate (Z.to_nat m - length h) None) = m) as Hre.
    { intros m Hm h. rewrite realloc_ok, Ha by lia. split; [done|]. unfold zlen. rewrite length_app, length_take, length_replicate. lia. }
    destruct (Z.eqb_spec n n') as [<-|E].
    + rewrite int_Ok by code_lia. cbn [bind]. destruct (Hre (n * 2) ltac:(code_lia) (map Some some ++ drop (length some) g)) as [-> Hz]. change (-1 >=? 0) with false. cbn [wp]. exists k. split; [lia|]. split; [done|]. split; [code_lia|]. right. lia.
    + destruct Hn' as [ -> |]; [|done]. cbn [bind]. destruct (Hre (zlen l) ltac:(code_lia) (map Some some ++ drop (length some) g)) as [-> Hz]. change (-1 >=? 0) with false. cbn [wp]. exists k. split; [lia|]. split; [done|]. split; [code_lia|]. by left.
Qed.
End lists.

Lemma squeezed_elem l x : x ∈ squeezed l <-> x ∈ l.
Proof. destruct l as [|first l]; [done|]. cbn [squeezed]. pose proof (squeeze_elem first l x first) as H. set_solver. Qed.

(** C36. mgetgroups returns the groups of the system: for the process, the given
    group first and then those of getgroups, where the pass over the list loses none of
    them, leaves no two equal neighbours and the first group only at the front;
    for a user, the list of getgrouplist, also if
    that function never tells how much room it needs: doubling the buffer ends.  Assumed:
    the allocations succeed, getgroups and getgrouplist answer as documented, the process
    has fewer than INT_MAX groups and the user at most 2^30. *)
Theorem mgetgroups_lists alloc getgrouplist getgroups gid l username ul :
  (forall n, alloc n = true) -> process_groups getgroups l -> zlen l < INT_MAX -> user_groups getgrouplist username gid ul -> 0 < zlen ul <= 1073741824 ->
  (exists r rest, mgetgroups alloc getgrouplist getgroups None gid = Ok (inr (zlen r, map Some r ++ rest)) /\
    (forall x, x ∈ r <-> x = gid /\ gid <> NO_GID \/ x ∈ l) /\ (gid <> NO_GID -> head r = Some gid) /\
    match r with [] => True | first :: r => no_repeats first r /\ first ∉ r end) /\
  mgetgroups alloc getgrouplist getgroups (Some username) gid = Ok (inr (zlen ul, map Some ul)).
Proof.
  intros Ha Hp Hl Hu Hul. split; [|by apply mgetgroups_user]. destruct (mgetgroups_process alloc getgrouplist getgroups gid l Hp Hl) as (rest & E). rewrite Ha in E. exists (squeezed (starting gid ++ l)), rest. split; [done|]. split_and!.
  - intros x. by rewrite squeezed_elem, elem_of_app, starting_elem.
  - intros H. unfold starting. by rewrite (proj2 (Z.eqb_neq _ _) H).
  - destruct (starting gid ++ l) as [|first r]; [done|]. cbn [squeezed]. split; [apply squeeze_no_repeats|apply squeeze_first].
Qed.

(** A system with the groups 4, 24 and 4 again, whose getgrouplist never says how many groups there are. *)
Definition some_getgroups (n : Z) : Z + (Z * list Z) := if n =? 0 then inr (3, []) else if 3 <=? n then inr (3, [4; 24; 4]) else inl 22.
Definition some_getgrouplist (l : list Z) (username : list Z) (gid n : Z) : Z * Z * list Z := if zlen l <=? n then (0, zlen l, l) else (-1, n, []).

Lemma some_getgroups_ok : process_groups some_getgroups [4; 24; 4].
Proof. split; [done|]. intros n Hn Hl. change (zlen [4; 24; 4]) with 3 in *. unfold some_getgroups. rewrite (proj2 (Z.eqb_neq n 0)), (proj2 (Z.leb_le 3 n)) by lia. done. Qed.

Lemma some_getgrouplist_ok l username gid : user_groups (some_getgrouplist l) username gid l.
Proof.
  intros n Hn. unfold some_getgrouplist. split; intros H.
  - rewrite (proj2 (Z.leb_le _ _)) by done. by exists 0.
  - rewrite (proj2 (Z.leb_gt _ _)) by done. exists n, []. split; [done|]. split; [done|by right].
Qed.

Lemma mgetgroups_lists_witness :
  (exists r rest, mgetgroups (fun _ => true) (some_getgrouplist (seqZ 100 50)) some_getgroups None 4 = Ok (inr (zlen r, map Some r ++ rest)) /\
    (forall x, x ∈ r <-> x = 4 /\ 4 <> NO_GID \/ x ∈ [4; 24; 4]) /\ (4 <> NO_GID -> head r = Some 4) /\
    match r with [] => True | first :: r => no_repeats first r /\ first ∉ r end) /\
  mgetgroups (fun _ => true) (some_getgrouplist (seqZ 100 50)) some_getgroups (Some (bytes "ann")) 4 = Ok (inr (zlen (seqZ 100 50), map Some (seqZ 100 50))).
Proof.
  apply (mgetgroups_lists (fun _ => true) (some_getgrouplist (seqZ 100 50)) some_getgroups 4 [4; 24; 4] (bytes "ann") (seqZ 100 50)); [reflexivity|exact some_getgroups_ok|vm_compute; reflexivity|exact (some_getgrouplist_ok (seqZ 100 50) (bytes "ann") 4)|].
  change (zlen (seqZ 100 50)) with 50. lia.
Defined.

Lemma getugroups_lists_witness :
  let db := [(24, [bytes "ann"; bytes "bob"]); (100, [bytes "bob"]); (4, [bytes "ann"; bytes "ann"])] in
  let groups := distinct (starting 100) (memberships (bytes "ann") db) in
  let enough := zlen (starting 100) + zlen (memberships (bytes "ann") db) in
  groups = [100; 24; 4] /\ enough = 4 /\ getugroups db false 0 None (bytes "ann") 100 = Ok (enough, None) /\ zlen groups <= enough /\
  NoDup groups /\ (forall g, g ∈ groups <-> g = 100 /\ 100 <> NO_GID \/ exists mem, (g, mem) ∈ db /\ bytes "ann" ∈ mem) /\
  forall buf, zlen groups <= zlen buf <= INT_MAX -> 0 < zlen buf ->
  exists rest, getugroups db false (zlen buf) (Some buf) (bytes "ann") 100 = Ok (zlen groups, Some (map Some groups ++ rest)).
Proof.
  intros db groups enough. split; [vm_compute; reflexivity|]. split; [vm_compute; reflexivity|]. apply (getugroups_lists db (bytes "ann") 100). vm_compute. discriminate.
Defined.

(** ** The commands *)

Section printing.
Context (alloc : Z -> bool) (getgrouplist : list Z -> Z -> Z -> Z * Z * list Z) (getgroups : Z -> Z + (Z * list Z)).
Context (getgrgid : Z -> option (list Z)) (getpwuid : Z -> option (list Z * Z)) (getpwnam : list Z -> option (Z * Z)).














End printing.

(** *** A small system *)

Definition some_getgrgid (g : Z) : option (list Z) := if g =? 4 then Some (bytes "adm") else if g =? 24 then Some (bytes "cdrom") else if g =? 100 then Some (bytes "users") else None.
Definition some_getpwuid (uid : Z) : option (list Z * Z) := if uid =? 7 then Some (bytes "ann", 100) else None.
Definition some_getpwnam (name : list Z) : option (Z * Z) := if bool_decide (name = bytes "ann") then Some (7, 100) else None.
(** Two names of the user number 7, with the groups 100 and 24; getgrouplist gives the group it is given. *)
Definition two_names (name : list Z) : option (Z * Z) := if bool_decide (name = bytes "ann") then Some (7, 100) else if bool_decide (name = bytes "bob") then Some (7, 24) else None.
Definition own_grouplist (username : list Z) (gid n : Z) : Z * Z * list Z := if 1 <=? n then (1, 1, [gid]) else (-1, 1, []).




(** *** What goes wrong *)

(** A name is shown with the group of another name of the same number: 100 is the group of ann, not of bob. *)
Lemma shared_number_group :
  groups_main (fun _ => true) own_grouplist some_getgroups some_getgrgid some_getpwuid two_names 7 100 4 [bytes "bob"] =
  Ok (0, print_name (bytes "bob") ++ [PStr " : "] ++ print_name (bytes "cdrom") ++ [PChar 32] ++ print_name (bytes "users") ++ [PChar 10]).
Proof. vm_compute. reflexivity. Qed.

(** id takes the effective user for the effective group: a process of the groups 100 with the effective user 0 is shown with group 0. *)
Lemma id_shows_user_as_group :
  id_main (fun _ => true) (some_getgrouplist []) some_getgroups some_getgrgid some_getpwuid some_getpwnam (IdOptions false true false false false false) None false (Process 7 0 100 100) [] = Ok (0, [PInt 0; PChar 10]).
Proof. vm_compute. reflexivity. Qed.

(** Groups that are neither first nor next to each other are printed twice. *)
Lemma groups_prints_twice :
  print_group_list (fun _ => true) (some_getgrouplist [4; 24; 4]) some_getgroups some_getgrgid some_getpwuid (Some (bytes "ann")) 7 100 100 false = Ok (true, [PInt 100; PChar 32; PInt 4; PChar 32; PInt 24; PChar 32; PInt 4]).
Proof. vm_compute. reflexivity. Qed.
