(* ===== verification/Users.v ===== *)
(** * Who is logged in: utils/coreutils/lib/readutmp.c and src/users.c

    The entries of the utmp file, what kill says of a process, and qsort of the C
    library are arguments. *)

From S2P Require Import Prelude Arrays CStrings Stdio.
From Stdlib Require Import Sorting.Sorted.
Open Scope Z_scope.

Definition UT_NAMESIZE : Z := 32.
Definition USER_PROCESS : Z := 7.
Definition READ_UTMP_CHECK_PIDS : Z := 1.
Definition READ_UTMP_USER_PROCESS : Z := 2.

(** The fields that are used; the name is not always terminated. *)
Record utmp := Utmp { ut_user : list Z; ut_type : Z; ut_pid : Z }.
#[export] Instance utmp_inhabited : Inhabited utmp := populate (Utmp [] 0 0).

(** UT_TYPE_NOT_DEFINED is 0. *)
Definition IS_USER_PROCESS (u : utmp) : res bool :=
  let* c := rd (ut_user u) 0 in
  Ok (negb (c =? 0) && (ut_type u =? USER_PROCESS)).

(** ** readutmp.c *)

(** [strncpy] of at most [n] characters. *)
Fixpoint strncpy (n : nat) (src : list Z) : res (list Z) :=
  match n with
  | O => Ok []
  | S n =>
      match src with
      | [] => Fail OutOfBounds
      | c :: src => if c =? 0 then Ok (replicate (S n) 0) else let* t := strncpy n src in Ok (c :: t)
      end
  end.

(** The buffer with the name. *)
Definition extract_trimmed_name (ut : utmp) : res (list Z) :=
  let* name := strncpy (Z.to_nat UT_NAMESIZE) (ut_user ut) in
  let* trimmed_name := wr (name ++ [0]) UT_NAMESIZE 0 in
  let* p := strlen trimmed_name 0 in
  let* (_, trimmed_name) :=
    while 33 (fun '(p, t) => if 0 <? p then let* c := rd t (p - 1) in Ok (c =? 32) else Ok false)
      (fun '(p, t) => let* t := wr t (p - 1) 0 in Ok (p - 1, t)) (p, trimmed_name) in
  Ok trimmed_name.

Section users.
(** [kill(pid, 0)] does not say that there is no such process. *)
Context (alive : Z -> bool).

Definition desirable_utmp_entry (u : utmp) (options : Z) : res bool :=
  let* user_proc := IS_USER_PROCESS u in
  if negb (Z.land options READ_UTMP_USER_PROCESS =? 0) && negb user_proc then Ok false
  else if negb (Z.land options READ_UTMP_CHECK_PIDS =? 0) && user_proc && ((ut_pid u <=? 0) || negb (alive (ut_pid u))) then Ok false
  else Ok true.

(** The entries read so far: their number, the room for them, the block, and the
    output. *)
Record reading := Reading { n_read : Z; n_alloc : Z; block_of : option (list (option utmp)); count : Z; printed : list piece }.

(** [x2nrealloc(utmp, &n_alloc, sizeof *utmp)]: an entry has 384 bytes. *)
Definition more_room (st : reading) : res reading :=
  let* n := x2nrealloc_count (match block_of st with None => true | Some _ => false end) (n_alloc st) 384 in
  let old := match block_of st with None => [] | Some b => b end in
  Ok (Reading (n_read st) n (Some (take (Z.to_nat n) old ++ replicate (Z.to_nat n - length old) None)) (count st) (printed st)).

Definition read_turn (options : Z) (u : utmp) (st : reading) : res reading :=
  let st := Reading (n_read st) (n_alloc st) (block_of st) (count st) (printed st ++ [PStr "count = "; PInt (count st); PStr "\n"]) in
  let* good := desirable_utmp_entry u options in
  let* st :=
    if good then
      let* st := if n_read st =? n_alloc st then more_room st else Ok st in
      match block_of st with
      | None => Fail NullDeref
      | Some b => let* b := wr b (n_read st) (Some u) in Ok (Reading (n_read st + 1) (n_alloc st) (Some b) (count st) (printed st))
      end
    else Ok st in
  let* count := int (count st + 1) in
  Ok (Reading (n_read st) (n_alloc st) (block_of st) count (printed st)).

Fixpoint read_loop (options : Z) (entries : list utmp) (st : reading) : res reading :=
  match entries with
  | [] => Ok st
  | u :: entries => let* st := read_turn options u st in read_loop options entries st
  end.

(** The entries of the file; [*n_entries] and [*utmp_buf] are fields of the result. *)
Definition read_utmp (entries : list utmp) (options : Z) : res reading :=
  read_loop options entries (Reading 0 0 None 1 []).

(** ** users.c *)

(** strcmp, of the texts. *)
Fixpoint userid_compare (a b : list Z) : Z :=
  match a, b with
  | [], [] => 0
  | [], _ => -1
  | _, [] => 1
  | x :: a, y :: b => if x =? y then userid_compare a b else x - y
  end.

Context (qsort : (list Z -> list Z -> Z) -> list (list Z) -> list (list Z)).

(** The text of a string in a buffer. *)
Fixpoint text_of (s : list Z) : res (list Z) :=
  match s with
  | [] => Fail OutOfBounds
  | c :: s => if c =? 0 then Ok [] else let* t := text_of s in Ok (c :: t)
  end.

(** One turn of the loop over the entries. *)
Definition name_turn (this : list (option utmp)) (i : Z) (st : list (option (list Z)) * Z) : res (list (option (list Z)) * Z) :=
  let '(u, n_entries) := st in
  let* e := rd this i in
  match e with
  | None => Fail Uninit
  | Some ut =>
      let* user := IS_USER_PROCESS ut in
      if user then
        let* trimmed_name := extract_trimmed_name ut in
        let* name := text_of trimmed_name in
        let* u := wr u n_entries (Some name) in
        Ok (u, n_entries + 1)
      else Ok (u, n_entries)
  end.

Fixpoint all_names (u : list (option (list Z))) : res (list (list Z)) :=
  match u with
  | [] => Ok []
  | Some name :: u => let* l := all_names u in Ok (name :: l)
  | None :: _ => Fail Uninit
  end.

Definition print_turn (u : list (list Z)) (n_entries : Z) (i : Z) (out : list piece) : res (list piece) :=
  let c := if i <? u64 (n_entries - 1) then 32 else 10 in
  let* name := rd u i in
  Ok (out ++ map PChar name ++ [PChar c]).

Definition list_entries_users (n : Z) (this : list (option utmp)) (out : list piece) : res (list piece) :=
  let* (u, n_entries) := for_up 0 n (name_turn this) (replicate (Z.to_nat n) None, 0) in
  let* names := all_names (take (Z.to_nat n_entries) u) in
  let u := qsort userid_compare names in
  for_up 0 n_entries (print_turn u n_entries) out.

Definition users (entries : list utmp) (options : Z) : res (list piece) :=
  let* r := read_utmp entries options in
  list_entries_users (n_read r) (match block_of r with Some b => b | None => [] end) (printed r).

(** The exit status and the output; [files name] are the entries of a file. *)
Definition users_main (UTMP_FILE : list utmp) (files : list Z -> list utmp) (operands : list (list Z)) : res (Z * list piece) :=
  match operands with
  | [] => let* out := users UTMP_FILE READ_UTMP_CHECK_PIDS in Ok (0, out)
  | [file] => let* out := users (files file) 0 in Ok (0, out)
  | _ => Ok (1, [])
  end.
End users.

(** ** Names *)

(** The characters of the field before a terminator, and without the blanks at the end. *)
Fixpoint field_text (s : list Z) : list Z := match s with [] => [] | c :: s => if c =? 0 then [] else c :: field_text s end.
Fixpoint rstrip (s : list Z) : list Z :=
  match s with
  | [] => []
  | c :: s => match rstrip s with [] => if c =? 32 then [] else [c] | t => c :: t end
  end.

Lemma field_text_nul_free s : nul_free (field_text s).
Proof. induction s as [|c s IH]; cbn [field_text]; [constructor|]. destruct (Z.eqb_spec c 0); [constructor|by constructor]. Qed.

Lemma field_text_length s : (length (field_text s) <= length s)%nat.
Proof. induction s as [|c s IH]; cbn [field_text]; [done|]. destruct (c =? 0); cbn [length]; lia. Qed.

Lemma rstrip_snoc_blank s : rstrip (s ++ [32]) = rstrip s.
Proof. induction s as [|c s IH]; [done|]. cbn [app rstrip]. by rewrite IH. Qed.

Lemma rstrip_snoc s c : c <> 32 -> rstrip (s ++ [c]) = s ++ [c].
Proof. intros Hc. induction s as [|d s IH]; cbn [app rstrip]; [by rewrite (proj2 (Z.eqb_neq _ _) Hc)|]. rewrite IH. by destruct s. Qed.

Lemma rstrip_nul_free s : nul_free s -> nul_free (rstrip s).
Proof. induction 1 as [|c s Hc _ IH]; cbn [rstrip]; [constructor|]. destruct (rstrip s); [|by constructor]. destruct (c =? 32); [constructor|by repeat constructor]. Qed.

Lemma strncpy_ok n : forall s, length s = n -> strncpy n s = Ok (field_text s ++ replicate (n - length (field_text s)) 0).
Proof.
  induction n as [|n IH]; intros [|c s] Hl; try done. injection Hl as Hl. cbn [strncpy field_text]. destruct (Z.eqb_spec c 0) as [->|E]; [done|]. rewrite (IH s Hl). done.
Qed.

Lemma text_of_ok t rest : nul_free t -> text_of (t ++ 0 :: rest) = Ok t.
Proof. induction 1 as [|c t Hc _ IH]; [done|]. cbn [app text_of]. by rewrite (proj2 (Z.eqb_neq _ _) Hc), IH. Qed.

Lemma strlen_field t k : nul_free t -> strlen (t ++ replicate (S k) 0) 0 = Ok (zlen t).
Proof.
  intros Ht. unfold strlen. cbn [Z.leb Z.compare andb]. rewrite (proj2 (Z.leb_le _ _)) by apply zlen_nonneg. cbn [demand bind]. change (Z.to_nat 0) with 0%nat. rewrite drop_0.
  induction Ht as [|c t Hc _ IH]; [done|]. cbn [app strlen_from]. rewrite (proj2 (Z.eqb_neq c 0) Hc), IH. cbn. f_equal. rewrite zlen_cons. lia.
Qed.

Lemma trim_loop t : forall fuel k, (length t < fuel)%nat -> exists p m,
  while fuel (fun '(p, t) => if 0 <? p then let* c := rd t (p - 1) in Ok (c =? 32) else Ok false)
    (fun '(p, t) => let* t := wr t (p - 1) 0 in Ok (p - 1, t)) (zlen t, t ++ replicate (S k) 0) = Ok (p, rstrip t ++ replicate (S m) 0).
Proof.
  induction t as [|c t IH] using rev_ind; intros fuel k Hf; (destruct fuel as [|fuel]; [lia|]); unfold while; cbn [loop]; [by exists 0, k|]. rewrite length_app in Hf. cbn in Hf. rewrite zlen_snoc. pose proof (zlen_nonneg t). rewrite (proj2 (Z.ltb_lt 0 _)) by lia. rewrite Z.add_simpl_r, <- app_assoc. cbn [app]. rewrite rd_middle by done. cbn [bind]. destruct (Z.eqb_spec c 32) as [->|E].
  - rewrite wr_middle by done. cbn [bind]. rewrite rstrip_snoc_blank. apply (IH fuel (S k)). lia.
  - rewrite rstrip_snoc by done. exists (zlen t + 1), k. by rewrite <- app_assoc.
Qed.

Lemma trimmed_name_ok u : length (ut_user u) = 32%nat -> exists m, extract_trimmed_name u = Ok (rstrip (field_text (ut_user u)) ++ replicate (S m) 0).
Proof.
  intros Hl. unfold extract_trimmed_name. change (Z.to_nat UT_NAMESIZE) with 32%nat. rewrite strncpy_ok by done. cbn [bind]. pose proof (field_text_length (ut_user u)) as Hf. pose proof (field_text_nul_free (ut_user u)) as Hn. set (t := field_text (ut_user u)) in *.
  rewrite wr_middle by (unfold zlen, UT_NAMESIZE; rewrite length_app, length_replicate; lia). cbn [bind]. assert (forall k, replicate k 0 ++ [0] = replicate (S k) 0) as Hr by (intros; by rewrite replicate_S_end). rewrite <- app_assoc, Hr. rewrite strlen_field by done. cbn [bind].
  destruct (trim_loop t 33 (32 - length t) ltac:(lia)) as (p & m & E). rewrite E. cbn. by exists m.
Qed.

(** ** The order of names *)

Lemma compare_total a : forall b, userid_compare a b <= 0 \/ userid_compare b a <= 0.
Proof. induction a as [|x a IH]; intros [|y b]; cbn [userid_compare]; try lia. destruct (Z.eqb_spec x y) as [->|E]; [rewrite Z.eqb_refl; apply IH|]. rewrite (proj2 (Z.eqb_neq y x)) by auto. lia. Qed.

Lemma compare_trans a : forall b c, userid_compare a b <= 0 -> userid_compare b c <= 0 -> userid_compare a c <= 0.
Proof.
  induction a as [|x a IH]; intros [|y b] [|z c]; cbn [userid_compare]; try lia. destruct (Z.eqb_spec x y), (Z.eqb_spec y z), (Z.eqb_spec x z); try lia. subst. apply IH.
Qed.

(** qsort orders an array by a comparison that is total and transitive. *)
Definition qsort_sorts (qsort : (list Z -> list Z -> Z) -> list (list Z) -> list (list Z)) : Prop :=
  forall cmp l, (forall a b, cmp a b <= 0 \/ cmp b a <= 0) -> (forall a b c, cmp a b <= 0 -> cmp b c <= 0 -> cmp a c <= 0) ->
  Permutation (qsort cmp l) l /\ StronglySorted (fun a b => cmp a b <= 0) (qsort cmp l).

(** ** The entries that are read *)

Definition user_process (u : utmp) : bool := negb ((ut_user u).[0] =? 0) && (ut_type u =? USER_PROCESS).

Lemma user_process_ok u : length (ut_user u) = 32%nat -> IS_USER_PROCESS u = Ok (user_process u).
Proof. intros Hl. unfold IS_USER_PROCESS. rewrite rd_Ok by (unfold zlen; lia). done. Qed.

(** What a file that is not named shows: processes that run; a named one, all. *)
Definition wanted (options : Z) (u : utmp) : bool :=
  (Z.land options READ_UTMP_USER_PROCESS =? 0) || user_process u.

Definition stale (alive : Z -> bool) (u : utmp) : bool := user_process u && ((ut_pid u <=? 0) || negb (alive (ut_pid u))).

Definition desired (alive : Z -> bool) (options : Z) (u : utmp) : bool :=
  wanted options u && ((Z.land options READ_UTMP_CHECK_PIDS =? 0) || negb (stale alive u)).

Lemma desired_ok alive options u : length (ut_user u) = 32%nat -> desirable_utmp_entry alive u options = Ok (desired alive options u).
Proof.
  intros Hl. unfold desirable_utmp_entry, desired, wanted, stale. rewrite user_process_ok by done. cbn [bind]. destruct (Z.land options READ_UTMP_USER_PROCESS =? 0), (user_process u), (Z.land options READ_UTMP_CHECK_PIDS =? 0), (ut_pid u <=? 0), (alive (ut_pid u)); done.
Qed.

(** The block holds the entries that were kept. *)
Definition kept_ok (kept : list utmp) (st : reading) : Prop :=
  n_read st = zlen kept /\ zlen kept <= n_alloc st /\
  match block_of st with
  | None => kept = [] /\ n_alloc st = 0
  | Some b => exists rest, b = map Some kept ++ rest /\ zlen b = n_alloc st /\ 0 < n_alloc st
  end.

Lemma more_room_ok kept st : kept_ok kept st -> n_read st = n_alloc st -> zlen kept <= INT_MAX ->
  exists n rest x, more_room st = Ok (Reading (n_read st) n (Some (map Some kept ++ x :: rest)) (count st) (printed st)) /\ zlen kept < n /\ zlen (map Some kept ++ x :: rest) = n.
Proof.
  intros (Hn & Ha & Hb) E Hmax. unfold more_room. pose proof (zlen_nonneg kept) as H0. destruct (block_of st) as [b|] eqn:Eb.
  - destruct Hb as (rest & -> & Hz & Hpos). unfold x2nrealloc_count. rewrite (proj2 (Z.leb_gt _ _)) by (change (SIZE_MAX / 3 * 2 / 384) with 32025597350190193; code_lia). cbn [bind]. unfold u64. rewrite Z.mod_small by (assert (0 <= (n_alloc st + 1) / 2 <= n_alloc st) by (split; [apply Z.div_pos; lia|apply Z.div_le_upper_bound; lia]); code_lia).
    assert (rest = []) as -> by (destruct rest as [|y rest]; [done|]; unfold zlen in *; rewrite length_app, length_map in Hz; cbn in Hz; lia). rewrite app_nil_r in *. assert (1 <= (n_alloc st + 1) / 2) as H1 by (apply Z.div_le_lower_bound; lia). set (n := n_alloc st + (n_alloc st + 1) / 2) in *.
    assert (exists k, (Z.to_nat n - length (map Some kept) = S k)%nat) as [k Ek]. { exists (pred (Z.to_nat n - length (map Some kept))). unfold zlen in *. lia. }
    rewrite take_ge by (unfold zlen in *; lia). rewrite Ek. exists n, (replicate k None), None. split; [done|]. split; [lia|]. unfold zlen in *. rewrite length_app. cbn [length]. rewrite length_replicate. lia.
  - destruct Hb as [-> Hz]. rewrite Hz. change (x2nrealloc_count true 0 384) with (@Ok Z 1). cbn [bind]. exists 1, [], None. split; [done|]. split; [done|done].
Qed.

Definition counts (c : Z) (n : nat) : list piece := concat (map (fun i => [PStr "count = "; PInt i; PStr "\n"]) (seqZ c (Z.of_nat n))).

Lemma read_loop_ok alive options entries : Forall (fun u => length (ut_user u) = 32%nat) entries -> forall kept st,
  kept_ok kept st -> zlen kept + zlen entries <= INT_MAX -> 0 <= count st -> count st + zlen entries <= INT_MAX ->
  exists st', read_loop alive options entries st = Ok st' /\ kept_ok (kept ++ filter (fun u => desired alive options u) entries) st' /\
  printed st' = printed st ++ counts (count st) (length entries).
Proof.
  induction 1 as [|u entries Hu _ IH]; intros kept st Hk Hmax Hc0 Hc; cbn [read_loop].
  { exists st. unfold counts. cbn. by rewrite !app_nil_r. }
  rewrite zlen_cons in *. pose proof (zlen_nonneg entries). pose proof (zlen_nonneg kept). set (out := printed st ++ [PStr "count = "; PInt (count st); PStr "\n"]).
  assert (exists st1, read_turn alive options u st = Ok st1 /\ kept_ok (kept ++ if desired alive options u then [u] else []) st1 /\ count st1 = count st + 1 /\ printed st1 = out) as (st1 & -> & Hk1 & Ec & Eo).
  { unfold read_turn. rewrite desired_ok by done. fold out. cbn [bind n_read n_alloc block_of count printed]. set (st0 := Reading (n_read st) (n_alloc st) (block_of st) (count st) out). assert (kept_ok kept st0) as Hk0 by done. destruct (desired alive options u).
    - assert (exists st2 x rest, (if n_read st =? n_alloc st then more_room st0 else Ok st0) = Ok st2 /\ block_of st2 = Some (map Some kept ++ x :: rest) /\ n_read st2 = zlen kept /\ zlen (map Some kept ++ x :: rest) = n_alloc st2 /\ zlen kept < n_alloc st2 /\ count st2 = count st /\ printed st2 = out) as (st2 & x & rest & -> & Eb & En & Ez & Hlt & Ec2 & Eo2).
      { destruct (Z.eqb_spec (n_read st) (n_alloc st)) as [E|E].
        - destruct (more_room_ok kept st0 Hk0 E ltac:(lia)) as (n & rest & x & -> & Hn & Hz). eexists _, x, rest. split; [done|]. cbn. destruct Hk as [En _]. by split_and!.
        - destruct Hk as (En & Ha & Hb). destruct (block_of st) as [b|] eqn:Eb; [|destruct Hb as [-> Hb]; rewrite Hb, En in E; done]. destruct Hb as (rest & -> & Hz & Hpos). destruct rest as [|x rest]; [unfold zlen in *; rewrite app_nil_r, length_map in Hz; lia|]. exists st0, x, rest. split; [done|]. cbn. split_and!; try done. lia. }
      cbn [bind]. rewrite Eb, En. rewrite wr_middle by (unfold zlen; by rewrite length_map). cbn [bind count n_read n_alloc block_of printed]. rewrite Ec2, int_Ok by code_lia. cbn [bind]. eexists. split; [done|]. cbn [n_read n_alloc block_of count printed]. split_and!; [|done|done]. unfold kept_ok. cbn [n_read n_alloc block_of]. rewrite zlen_snoc. split; [done|]. split; [lia|]. exists rest. rewrite map_app, <- app_assoc. split; [done|]. split; [|lia].
      rewrite <- Ez. unfold zlen. by rewrite !length_app.
    - rewrite app_nil_r. cbn [bind]. change (count st0) with (count st). rewrite int_Ok by code_lia. cbn [bind]. eexists. split; [done|]. split; [|done]. exact Hk. }
  destruct (IH _ st1 Hk1) as (st' & E & Hk' & Ep); [|lia|lia|].
  - destruct (desired alive options u); [rewrite zlen_snoc; lia|rewrite app_nil_r; lia].
  - exists st'. cbn [bind]. split; [done|]. split.
    + rewrite filter_cons. destruct (desired alive options u); [by rewrite <- app_assoc in Hk'|by rewrite app_nil_r in Hk'].
    + rewrite Ep, Eo, Ec. unfold out, counts. rewrite <- app_assoc. f_equal. cbn [length]. rewrite (seqZ_cons (count st)) by lia. cbn [map concat]. do 3 f_equal. f_equal. f_equal; lia.
Qed.

(** ** Printing *)

Definition login_name (u : utmp) : list Z := rstrip (field_text (ut_user u)).
Definition names_of (l : list utmp) : list (list Z) := map login_name (filter (fun u => user_process u) l).

Lemma names_loop n rest l : Forall (fun u => length (ut_user u) = 32%nat) l -> forall pre names,
  (length names + length l <= n)%nat ->
  for_n (length l) (zlen pre) (name_turn (map Some (pre ++ l) ++ rest)) (map Some names ++ replicate (n - length names) None, zlen names) =
  Ok (map Some (names ++ names_of l) ++ replicate (n - length (names ++ names_of l)) None, zlen (names ++ names_of l)).
Proof.
  induction 1 as [|u l Hu _ IH]; intros pre names Hn; cbn [length for_n]; [unfold names_of; cbn; by rewrite !app_nil_r|]. cbn in Hn. unfold name_turn at 1. rewrite map_app, <- app_assoc. cbn [map app]. rewrite rd_middle by (unfold zlen; by rewrite length_map). cbn [bind]. rewrite user_process_ok by done. cbn [bind].
  specialize (IH (pre ++ [u])). rewrite zlen_snoc, <- app_assoc in IH. cbn [app] in IH. rewrite map_app, <- app_assoc in IH. cbn [map app] in IH. unfold names_of. rewrite filter_cons. destruct (user_process u) eqn:E.
  - destruct (trimmed_name_ok u Hu) as (m & ->). cbn [bind replicate]. rewrite text_of_ok by apply rstrip_nul_free, field_text_nul_free. cbn [bind]. destruct (n - length names)%nat as [|k] eqn:Ek; [lia|]. cbn [replicate]. rewrite wr_middle by (unfold zlen; by rewrite length_map). cbn [bind]. specialize (IH (names ++ [login_name u])). rewrite zlen_snoc, length_app in IH. cbn [length] in IH. replace (n - (length names + 1))%nat with k in IH by lia. rewrite map_app, <- app_assoc in IH. cbn [map app] in IH. unfold login_name in IH at 1. rewrite IH by lia. rewrite <- !app_assoc. done.
  - cbn [bind]. apply IH. lia.
Qed.

Lemma all_names_ok l : all_names (map Some l) = Ok l.
Proof. induction l as [|x l IH]; [done|]. cbn [map all_names]. by rewrite IH. Qed.

Fixpoint line (names : list (list Z)) : list piece :=
  match names with
  | [] => []
  | [name] => map PChar name ++ [PChar 10]
  | name :: names => map PChar name ++ [PChar 32] ++ line names
  end.

Lemma print_loop n l : n <= INT_MAX -> forall pre out, zlen pre + zlen l = n ->
  for_n (length l) (zlen pre) (print_turn (pre ++ l) n) out = Ok (out ++ line l).
Proof.
  intros Hn. induction l as [|name l IH]; intros pre out Hl; cbn [length for_n]; [by rewrite app_nil_r|]. rewrite zlen_cons in Hl. pose proof (zlen_nonneg pre). pose proof (zlen_nonneg l). unfold print_turn at 1. rewrite rd_middle by done. cbn [bind]. unfold u64. rewrite Z.mod_small by code_lia.
  specialize (IH (pre ++ [name])). rewrite zlen_snoc, <- app_assoc in IH. cbn [app] in IH. rewrite IH by lia. rewrite <- !app_assoc. destruct l as [|name' l]; cbn [line].
  - change (zlen []) with 0 in Hl. rewrite (proj2 (Z.ltb_ge _ _)) by lia. by rewrite app_nil_r.
  - rewrite zlen_cons in Hl. pose proof (zlen_nonneg l). rewrite (proj2 (Z.ltb_lt _ _)) by lia. done.
Qed.

Lemma entries_shown qsort l rest out : qsort_sorts qsort -> Forall (fun u => length (ut_user u) = 32%nat) l -> zlen l <= INT_MAX ->
  list_entries_users qsort (zlen l) (map Some l ++ rest) out = Ok (out ++ line (qsort userid_compare (names_of l))).
Proof.
  intros Hq Hl Hmax. unfold list_entries_users, for_up. rewrite Z.sub_0_r. unfold zlen at 1 2. rewrite Nat2Z.id. pose proof (names_loop (length l) rest l Hl [] [] ltac:(cbn; lia)) as H. cbn [length app map] in H. rewrite Nat.sub_0_r in H. change (zlen []) with 0 in H. rewrite H. cbn [bind].
  rewrite Z.sub_0_r. unfold zlen at 1 2. rewrite Nat2Z.id, take_app_length' by by rewrite length_map. rewrite all_names_ok. cbn [bind]. destruct (Hq userid_compare (names_of l) compare_total compare_trans) as [Hp _]. rewrite <- (Permutation_length Hp). apply (print_loop _ _) with (pre := []).
  - assert (length (names_of l) <= length l)%nat by (unfold names_of; rewrite length_map; apply length_filter). apply Permutation_length in Hp. unfold zlen in *. lia.
  - unfold zlen. cbn. by rewrite (Permutation_length Hp).
Qed.

Definition ordered (names : list (list Z)) : Prop := StronglySorted (fun a b => userid_compare a b <= 0) names.

(** The users of processes that run. *)
Definition running (alive : Z -> bool) (u : utmp) : bool := user_process u && (0 <? ut_pid u) && alive (ut_pid u).

Lemma names_running alive (l : list utmp) : names_of (filter (fun u => desired alive READ_UTMP_CHECK_PIDS u) l) = map login_name (filter (fun u => running alive u) l).
Proof.
  unfold names_of. f_equal. rewrite list_filter_filter. apply list_filter_iff. intros u. unfold desired, wanted, stale, running. change (Z.land READ_UTMP_CHECK_PIDS READ_UTMP_USER_PROCESS =? 0) with true. change (Z.land READ_UTMP_CHECK_PIDS READ_UTMP_CHECK_PIDS =? 0) with false.
  destruct (user_process u), (alive (ut_pid u)), (Z.leb_spec (ut_pid u) 0), (Z.ltb_spec 0 (ut_pid u)); cbn; try lia; tauto.
Qed.

Lemma desired_all alive (l : list utmp) : filter (fun u => desired alive 0 u) l = l.
Proof. induction l as [|u l IH]; [done|]. rewrite filter_cons, decide_True by done. by rewrite IH. Qed.

Lemma users_ok alive qsort entries options : qsort_sorts qsort -> Forall (fun u => length (ut_user u) = 32%nat) entries -> zlen entries < INT_MAX ->
  exists names, Permutation names (names_of (filter (fun u => desired alive options u) entries)) /\ ordered names /\
  users alive qsort entries options = Ok (counts 1 (length entries) ++ line names).
Proof.
  intros Hq Hl Hmax. unfold users, read_utmp. destruct (read_loop_ok alive options entries Hl [] (Reading 0 0 None 1 [])) as (st & -> & (Hn & _ & Hb) & Hp); [done|change (zlen []) with 0; lia|done|cbn [count]; lia|]. cbn [bind app count printed] in *. rewrite Hn, Hp.
  set (kept := filter (fun u => desired alive options u) entries) in *. exists (qsort userid_compare (names_of kept)). destruct (Hq userid_compare (names_of kept) compare_total compare_trans) as [H1 H2]. split; [done|]. split; [done|].
  assert (exists rest, match block_of st with Some b => b | None => [] end = map Some kept ++ rest) as [rest ->]. { destruct (block_of st) as [b|]; [destruct Hb as (rest & -> & _); by exists rest|]. destruct Hb as [-> _]. by exists []. }
  apply entries_shown; [done| |].
  - apply Forall_forall. intros u Hu. apply list_elem_of_filter in Hu as [_ Hu]. exact (proj1 (Forall_forall _ _) Hl u Hu).
  - assert (length kept <= length entries)%nat by apply length_filter. unfold zlen in *. lia.
Qed.

(** users lists who is logged in: without an operand the login names of the
    entries of processes that exist, with a file those of all processes of users in it,
    in both cases each name as often as it has entries, without the blanks at its end, in the order of strcmp, with blanks between them and the end of
    the line after the last one.  (Before them it prints the number of every entry it read.) *)
Theorem users_correct alive qsort entries utmp_file files file :
  qsort_sorts qsort -> Forall (fun u => length (ut_user u) = 32%nat) entries -> zlen entries < INT_MAX ->
  (exists names, Permutation names (map login_name (filter (fun u => running alive u) entries)) /\ ordered names /\
    users_main alive qsort entries files [] = Ok (0, counts 1 (length entries) ++ line names)) /\
  (files file = entries ->
    exists names, Permutation names (map login_name (filter (fun u => user_process u) entries)) /\ ordered names /\
    users_main alive qsort utmp_file files [file] = Ok (0, counts 1 (length entries) ++ line names)).
Proof.
  intros Hq Hl Hmax. split.
  - destruct (users_ok alive qsort entries READ_UTMP_CHECK_PIDS Hq Hl Hmax) as (names & Hp & Hs & E). rewrite names_running in Hp. exists names. cbn [users_main]. by rewrite E.
  - intros Hf. destruct (users_ok alive qsort entries 0 Hq Hl Hmax) as (names & Hp & Hs & E). rewrite desired_all in Hp. exists names. cbn [users_main]. by rewrite Hf, E.
Qed.

(** *** An example *)

Definition insert_by (cmp : list Z -> list Z -> Z) (x : list Z) : list (list Z) -> list (list Z) :=
  fix insert l := match l with [] => [x] | y :: l => if cmp x y <=? 0 then x :: y :: l else y :: insert l end.
Definition some_qsort (cmp : list Z -> list Z -> Z) (l : list (list Z)) : list (list Z) := foldr (insert_by cmp) [] l.

Lemma insert_by_perm cmp x l : Permutation (insert_by cmp x l) (x :: l).
Proof. induction l as [|y l IH]; [done|]. cbn [insert_by]. destruct (cmp x y <=? 0); [done|]. by rewrite IH, Permutation_swap. Qed.

Lemma some_qsort_sorts : qsort_sorts some_qsort.
Proof.
  intros cmp l Ht Htr. induction l as [|x l [IHp IHs]]; [by repeat constructor|]. change (some_qsort cmp (x :: l)) with (insert_by cmp x (some_qsort cmp l)). split; [by rewrite insert_by_perm, IHp|]. clear IHp. induction IHs as [|y m Hs IH Hy]; [by repeat constructor|]. cbn [insert_by]. destruct (Z.leb_spec (cmp x y) 0) as [H|H].
  - constructor; [by constructor|]. constructor; [done|]. eapply Forall_impl; [exact Hy|]. cbn. intros z. by apply Htr.
  - constructor; [done|]. rewrite insert_by_perm. constructor; [|done]. destruct (Ht x y); [lia|done].
Qed.

Definition entry_of (name : list Z) (pid : Z) : utmp := Utmp (name ++ replicate (32 - length name) 32) USER_PROCESS pid.

Lemma users_correct_witness :
  let entries := [entry_of (bytes "bob") 20; entry_of (bytes "ann") 21; entry_of (bytes "old") 22; entry_of (bytes "bob") 23] in
  (exists names, Permutation names (map login_name (filter (fun u => running (fun pid => negb (pid =? 22)) u) entries)) /\ ordered names /\
    users_main (fun pid => negb (pid =? 22)) some_qsort entries (fun _ => entries) [] = Ok (0, counts 1 4 ++ line names)) /\
  (exists names, Permutation names [bytes "bob"; bytes "ann"; bytes "old"; bytes "bob"] /\ ordered names /\
    users_main (fun pid => negb (pid =? 22)) some_qsort [] (fun _ => entries) [bytes "wtmp"] = Ok (0, counts 1 4 ++ line names)).
Proof.
  intros entries. destruct (users_correct (fun pid => negb (pid =? 22)) some_qsort entries [] (fun _ => entries) (bytes "wtmp") some_qsort_sorts) as [H1 H2].
  - repeat constructor.
  - vm_compute. reflexivity.
  - split; [exact H1|]. exact (H2 eq_refl).
Defined.
