(* ===== verification/Chown.v ===== *)
(** * Changing owners: utils/coreutils/lib/chown-core.c and xfts.c, src/chown.c and chgrp.c

    Other processes may move files while the program runs: which file a name
    leads to is an argument that depends on the time, the number of system calls so
    far, and so are the failures of calls.  The entries that fts_read returns
    are an argument; messages are values. *)

From S2P Require Import Prelude Arrays CStrings XStrtol UserSpec.
Open Scope Z_scope.

(** [(uid_t) -1] and [(gid_t) -1] *)
Definition NO_ID : Z := 4294967295.

Definition EACCES : Z := 13.
Definition ENOENT : Z := 2.
Definition ENOTDIR : Z := 20.
Definition EOPNOTSUPP : Z := 95.

Inductive kind := Regular | Directory | Symlink | Special.
#[export] Instance kind_eq_dec : EqDecision kind.
Proof. solve_decision. Defined.

(** The device and inode numbers of a file, and its owner and group. *)
Definition inode : Type := Z * Z.
Record owner := Owner { o_uid : Z; o_gid : Z }.
Record stat := Stat { st_file : inode; st_owner : owner; st_kind : kind }.

Definition SAME_INODE (a b : inode) : bool := (a.2 =? b.2) && (a.1 =? b.1).

(** The number of system calls so far, the owners of all files, the number of open
    descriptors. *)
Record world := World { clock : nat; owners : inode -> owner; opened : Z }.

Definition tick (w : world) : world := World (S (clock w)) (owners w) (opened w).

(** chown leaves what is -1. *)
Definition new_owner (uid gid : Z) (o : owner) : owner := Owner (if uid =? NO_ID then o_uid o else uid) (if gid =? NO_ID then o_gid o else gid).
Definition give (k : inode) (uid gid : Z) (w : world) : world :=
  World (clock w) (fun k' => if bool_decide (k' = k) then new_owner uid gid (owners w k') else owners w k') (opened w).

Inductive RCH_status := RC_ok | RC_excluded | RC_inode_changed | RC_do_ordinary_chown | RC_error.
#[export] Instance RCH_status_eq_dec : EqDecision RCH_status.
Proof. solve_decision. Defined.

Inductive Changed_status := CH_NOT_APPLIED | CH_SUCCEEDED | CH_FAILED | CH_NO_CHANGE_REQUESTED.
Inductive Verbosity := V_high | V_changes_only | V_off.
#[export] Instance Verbosity_eq_dec : EqDecision Verbosity.
Proof. solve_decision. Defined.

Record Chown_option := ChownOption {
  verbosity : Verbosity; recurse : bool; root_dev_ino : option inode; affect_symlink_referent : bool; force_silent : bool;
  user_name : option (list Z); group_name : option (list Z) }.

Definition chopt_init : Chown_option := ChownOption V_off false None true false None None.

(** What fts_read says of an entry. *)
Inductive info := FTS_D | FTS_DC | FTS_DP | FTS_DNR | FTS_NS | FTS_ERR | FTS_other.
#[export] Instance info_eq_dec : EqDecision info.
Proof. solve_decision. Defined.

(** The stat buffer may not be filled: that of an FTS_NSOK, one of the [FTS_other], is not. *)
Record FTSENT := Ftsent { fts_path : list Z; fts_accpath : list Z; fts_info : info; fts_level : Z; fts_number : Z; fts_statp : option stat }.

Definition FTSENT_IS_DIRECTORY (e : FTSENT) : bool := match fts_info e with FTS_D | FTS_DC | FTS_DP | FTS_DNR => true | _ => false end.

(** Messages on the standard error. *)
Inductive complaint := Cannot_access | Error_of_entry | Cannot_read_directory | Circular | Cannot_dereference | Changing_ownership | Changing_group | Dangerous_root | Read_failed | Close_failed.

(** What the caller tells fts: nothing, FTS_SKIP, FTS_AGAIN with [fts_number] set, or FTS_SKIP and the next entry is read. *)
Inductive told := Nothing | Skip | Again | Skip_next.

(** ** describe_change *)

Definition spec_text (user group : option (list Z)) : list Z :=
  match user, group with
  | Some u, Some g => u ++ [ch ":"] ++ g
  | Some u, None => u
  | None, Some g => g
  | None, None => []
  end.

Definition show (before : string) (file : list Z) (between : string) (spec : list Z) : list piece :=
  [PStr before] ++ map PChar file ++ [PStr between] ++ map PChar spec ++ [PStr "\n"].

Definition describe_change (file : list Z) (changed : Changed_status) (user group : option (list Z)) : list piece :=
  let spec := spec_text user group in
  match changed with
  | CH_NOT_APPLIED => show "neither symbolic link " file " nor referent has been changed" []
  | CH_SUCCEEDED =>
      match user, group with
      | Some _, _ => show "changed ownership of " file " to " spec
      | None, Some _ => show "changed group of " file " to " spec
      | None, None => show "no change to ownership of " file "" []
      end
  | CH_FAILED =>
      match user, group with
      | Some _, _ => show "failed to change ownership of " file " to " spec
      | None, Some _ => show "failed to change group of " file " to " spec
      | None, None => show "failed to change ownership of " file "" []
      end
  | CH_NO_CHANGE_REQUESTED =>
      match user, group with
      | Some _, _ => show "ownership of " file " retained as " spec
      | None, Some _ => show "group of " file " retained as " spec
      | None, None => show "ownership of " file " retained" []
      end
  end.

Section system.
(** Where a name leads at a time, following a symbolic link at its end and not; the kind of every file. *)
Context (follow nofollow : nat -> list Z -> option inode) (kind_of : inode -> kind).
(** Failures of calls at a time: open for reading or writing, chown, fstat and close. *)
Context (open_fails : nat -> inode -> bool -> option Z) (chown_fails : nat -> inode -> option Z) (fstat_fails close_fails : nat -> bool).

Definition stat_of (w : world) (k : inode) : stat := Stat k (owners w k) (kind_of k).

(** The descriptor or errno. *)
Definition openat (file : list Z) (writing directory : bool) (w : world) : (inode + Z) * world :=
  match follow (clock w) file with
  | None => (inr ENOENT, tick w)
  | Some k =>
      if directory && negb (bool_decide (kind_of k = Directory)) then (inr ENOTDIR, tick w)
      else match open_fails (clock w) k writing with
           | Some e => (inr e, tick w)
           | None => (inl k, tick (World (clock w) (owners w) (opened w + 1)))
           end
  end.

Definition close (w : world) : bool * world := (negb (close_fails (clock w)), tick (World (clock w) (owners w) (opened w - 1))).

Definition fstat (fd : inode) (w : world) : option stat * world := (if fstat_fails (clock w) then None else Some (stat_of w fd), tick w).

(** errno, or 0. *)
Definition fchown (fd : inode) (uid gid : Z) (w : world) : Z * world :=
  match chown_fails (clock w) fd with Some e => (e, tick w) | None => (0, tick (give fd uid gid w)) end.

Definition chown_name (names : nat -> list Z -> option inode) (file : list Z) (uid gid : Z) (w : world) : Z * world :=
  match names (clock w) file with None => (ENOENT, tick w) | Some k => fchown k uid gid w end.
Definition chownat := chown_name follow.
Definition lchownat := chown_name nofollow.

(** [fstatat(fd, file, &stat_buf, 0)] *)
Definition fstatat (file : list Z) (w : world) : option stat * world :=
  (match follow (clock w) file with Some k => if fstat_fails (clock w) then None else Some (stat_of w k) | None => None end, tick w).

Definition required_ok (required_uid required_gid : Z) (o : owner) : bool :=
  ((required_uid =? NO_ID) || (required_uid =? o_uid o)) && ((required_gid =? NO_ID) || (required_gid =? o_gid o)).

(** From the descriptor on. *)
Definition restricted_fd (fd orig : inode) (uid gid required_uid required_gid : Z) (w : world) : RCH_status * world :=
  let '(st, w) := fstat fd w in
  let finish (status : RCH_status) (w : world) := let '(_, w) := close w in (status, w) in
  match st with
  | None => finish RC_error w
  | Some st =>
      if negb (SAME_INODE orig (st_file st)) then finish RC_inode_changed w
      else if required_ok required_uid required_gid (st_owner st) then
        let '(e, w) := fchown fd uid gid w in
        if e =? 0 then let '(ok, w) := close w in ((if ok then RC_ok else RC_error), w)
        else finish RC_error w
      else finish RC_ok w
  end.

(** The file is opened for reading, or else for writing. *)
Definition restricted_open (directory : bool) (file : list Z) (orig_st : stat) (uid gid required_uid required_gid : Z) (w : world) : RCH_status * world :=
  let '(r, w) := openat file false directory w in
  match r with
  | inl fd => restricted_fd fd (st_file orig_st) uid gid required_uid required_gid w
  | inr errno =>
      if (errno =? EACCES) && bool_decide (st_kind orig_st = Regular) then
        let '(r, w) := openat file true directory w in
        match r with
        | inl fd => restricted_fd fd (st_file orig_st) uid gid required_uid required_gid w
        | inr errno => ((if errno =? EACCES then RC_do_ordinary_chown else RC_error), w)
        end
      else ((if errno =? EACCES then RC_do_ordinary_chown else RC_error), w)
  end.

Definition restricted_chown (file : list Z) (orig_st : stat) (uid gid required_uid required_gid : Z) (w : world) : RCH_status * world :=
  if (required_uid =? NO_ID) && (required_gid =? NO_ID) then (RC_do_ordinary_chown, w)
  else
    match st_kind orig_st with
    | Regular => restricted_open false file orig_st uid gid required_uid required_gid w
    | Directory => restricted_open true file orig_st uid gid required_uid required_gid w
    | _ => (RC_do_ordinary_chown, w)
    end.

(** ** change_file_owner *)

Definition ROOT_DEV_INO_CHECK (root : option inode) (k : inode) : bool := match root with Some r => SAME_INODE k r | None => false end.

(** xfts.c: the options of the walk. *)
Record walk := Walk { physical : bool; comfollow : bool }.
Definition cycle_warning_required (fts : walk) (ent : FTSENT) : bool :=
  (physical fts && negb (comfollow fts)) || (physical fts && comfollow fts && negb (fts_level ent =? 0)).

(** What a call returns and tells, and what it writes. *)
Record outcome := Outcome { result : bool; telling : told; after : world; said : list piece; complaints : list complaint }.

Definition complain (chopt : Chown_option) (c : complaint) : list complaint := if force_silent chopt then [] else [c].

(** The changing itself: [ok], [do_chown], [symlink_changed] and errors. *)
Definition do_change (file : list Z) (file_stats : stat) (uid gid required_uid required_gid : Z) (chopt : Chown_option) (w : world) : res (bool * bool * bool * world) :=
  if negb (affect_symlink_referent chopt) then
    let '(e, w) := lchownat file uid gid w in
    if (e =? 0) then Ok (true, true, true, w) else if e =? EOPNOTSUPP then Ok (true, true, false, w) else Ok (false, true, true, w)
  else
    let '(err, w) := restricted_chown file file_stats uid gid required_uid required_gid w in
    match err with
    | RC_ok => Ok (true, true, true, w)
    | RC_do_ordinary_chown => let '(e, w) := chownat file uid gid w in Ok (e =? 0, true, true, w)
    | RC_error => Ok (false, true, true, w)
    | RC_inode_changed | RC_excluded => Ok (false, false, true, w)
    end.

(** [(u == -1 || u == file_stats->st_uid) && (g == -1 || g == file_stats->st_gid)]: the buffer is read only
    for an id that is not -1. *)
Definition owned_by (u g : Z) (file_stats : option stat) : res bool :=
  let* a := if u =? NO_ID then Ok true else match file_stats with Some st => Ok (u =? o_uid (st_owner st)) | None => Fail Uninit end in
  if negb a then Ok false
  else if g =? NO_ID then Ok true else match file_stats with Some st => Ok (g =? o_gid (st_owner st)) | None => Fail Uninit end.

(** The part after the switch; [ok] is false after an error of the entry. *)
Definition change_entry (ent : FTSENT) (ok : bool) (before : list complaint) (uid gid required_uid required_gid : Z) (chopt : Chown_option) (w : world) : res outcome :=
  let file := fts_accpath ent in
  let* (ok, do_chown, file_stats, w, errs) :=
    if negb ok then Ok (false, false, None, w, before)
    else if (required_uid =? NO_ID) && (required_gid =? NO_ID) && bool_decide (verbosity chopt = V_off) && bool_decide (root_dev_ino chopt = None) && negb (affect_symlink_referent chopt) then
      Ok (true, true, fts_statp ent, w, before)
    else
      let* is_link :=
        if affect_symlink_referent chopt then match fts_statp ent with Some st => Ok (bool_decide (st_kind st = Symlink)) | None => Fail Uninit end
        else Ok false in
      if is_link : bool then
        let '(r, w) := fstatat file w in
        match r with
        | None => Ok (false, false, None, w, before ++ complain chopt Cannot_dereference)
        | Some st => let* do_chown := owned_by required_uid required_gid (Some st) in Ok (true, do_chown, Some st, w, before)
        end
      else let* do_chown := owned_by required_uid required_gid (fts_statp ent) in Ok (true, do_chown, fts_statp ent, w, before) in
  let* at_root :=
    if ok && FTSENT_IS_DIRECTORY ent && bool_decide (is_Some (root_dev_ino chopt)) then
      match file_stats with Some st => Ok (ROOT_DEV_INO_CHECK (root_dev_ino chopt) (st_file st)) | None => Fail Uninit end
    else Ok false in
  if at_root : bool then Ok (Outcome false Nothing w [] (errs ++ [Dangerous_root]))
  else
    let* (ok, do_chown, symlink_changed, w) :=
      if do_chown : bool then
        match file_stats with
        | Some st => do_change file st uid gid required_uid required_gid chopt w
        | None => if affect_symlink_referent chopt then Fail Uninit else do_change file (Stat (0, 0) (Owner 0 0) Special) uid gid required_uid required_gid chopt w
        end
      else Ok (ok, false, true, w) in
    let errs := if do_chown && negb ok then errs ++ complain chopt (if negb (uid =? NO_ID) then Changing_ownership else Changing_group) else errs in
    let* out :=
      if negb (bool_decide (verbosity chopt = V_off)) then
        let* changed :=
          if do_chown && ok && symlink_changed then let* same := owned_by uid gid file_stats in Ok (negb same) else Ok false in
        if changed || bool_decide (verbosity chopt = V_high) then
          Ok (describe_change (fts_path ent)
                (if negb ok then CH_FAILED else if negb symlink_changed then CH_NOT_APPLIED else if negb changed then CH_NO_CHANGE_REQUESTED else CH_SUCCEEDED)
                (user_name chopt) (group_name chopt))
        else Ok []
      else Ok [] in
    Ok (Outcome ok (if negb (recurse chopt) then Skip else Nothing) w out errs).

Definition change_file_owner (fts : walk) (ent : FTSENT) (uid gid required_uid required_gid : Z) (chopt : Chown_option) (w : world) : res outcome :=
  let go ok errs := change_entry ent ok errs uid gid required_uid required_gid chopt w in
  match fts_info ent with
  | FTS_D =>
      if recurse chopt then
        let* at_root := match root_dev_ino chopt, fts_statp ent with
          | None, _ => Ok false
          | Some r, Some st => Ok (ROOT_DEV_INO_CHECK (Some r) (st_file st))
          | Some _, None => Fail Uninit
          end in
        if at_root : bool then Ok (Outcome false Skip_next w [] [Dangerous_root]) else Ok (Outcome true Nothing w [] [])
      else go true []
  | FTS_DP => if negb (recurse chopt) then Ok (Outcome true Nothing w [] []) else go true []
  | FTS_NS =>
      if (fts_level ent =? 0) && (fts_number ent =? 0) then Ok (Outcome true Again w [] [])
      else go false (complain chopt Cannot_access)
  | FTS_ERR => go false (complain chopt Error_of_entry)
  | FTS_DNR => go false (complain chopt Cannot_read_directory)
  | FTS_DC => if cycle_warning_required fts ent then Ok (Outcome false Nothing w [] [Circular]) else go true []
  | FTS_other => go true []
  end.

(** ** chown_files *)

(** [failed]: fts_read ends with an error; the results of all calls are put together. *)
Fixpoint chown_loop (fts : walk) (entries : list FTSENT) (failed : bool) (uid gid required_uid required_gid : Z) (chopt : Chown_option) (ok : bool) (w : world) (out : list piece) (errs : list complaint) : res (bool * world * list piece * list complaint) :=
  let finish ok w out errs := Ok (ok && negb failed, w, out, errs ++ if failed then complain chopt Read_failed else []) in
  match entries with
  | [] => finish ok w out errs
  | ent :: entries =>
      let* o := change_file_owner fts ent uid gid required_uid required_gid chopt w in
      let ok := ok && result o in
      let w := after o in
      let out := out ++ said o in
      let errs := errs ++ complaints o in
      match telling o, entries with
      | Skip_next, [] => finish ok w out errs
      | Skip_next, _ :: entries => chown_loop fts entries failed uid gid required_uid required_gid chopt ok w out errs
      | _, _ => chown_loop fts entries failed uid gid required_uid required_gid chopt ok w out errs
      end
  end.

Definition chown_files (fts : walk) (entries : list FTSENT) (failed closed : bool) (uid gid required_uid required_gid : Z) (chopt : Chown_option) (w : world) : res (bool * world * list piece * list complaint) :=
  let* (ok, w, out, errs) := chown_loop fts entries failed uid gid required_uid required_gid chopt true w [] [] in
  Ok (ok && closed, w, out, errs ++ if closed then [] else [Close_failed]).

(** ** chown.c and chgrp.c *)

(** The databases of users and groups, the root directory, and what fts_read returns for a list of files. *)
Context (getpwnam : list Z -> option (Z * Z)) (getgrnam : list Z -> option Z) (getgrgid getpwuid : Z -> option (list Z)) (lstat_root : option inode).
Context (walked : list (list Z) -> walk -> list FTSENT).

(** The options: [dereference] is 1, 0 or -1; [reference] is the result of stat for the file of --reference. *)
Record options := Options { bit_flags : walk; dereference : Z; preserve_root : bool; reference : option (option owner); from : option (list Z); base : Chown_option }.

Definition FTS_PHYSICAL : walk := Walk true false.
Definition is_physical (b : walk) : bool := physical b && negb (comfollow b).

(** [bit_flags] and [dereference] after the options, or an error. *)
Definition settle (o : options) : option (walk * Z) :=
  if recurse (base o) then
    if is_physical (bit_flags o) then if dereference o =? 1 then None else Some (bit_flags o, 0)
    else Some (bit_flags o, dereference o)
  else Some (FTS_PHYSICAL, dereference o).

Definition set_names (c : Chown_option) (affect : bool) (root : option inode) (u g : option (list Z)) : Chown_option :=
  ChownOption (verbosity c) (recurse c) root affect (force_silent c) u g.

(** The common end: [None] is an exit with status 1 before anything is done. *)
Definition run_files (o : options) (flags : walk) (deref : Z) (files : list (list Z)) (uid gid required_uid required_gid : Z) (u g : option (list Z)) (failed closed : bool) (w : world) : res (option (Z * world * list piece * list complaint)) :=
  let root := if recurse (base o) && preserve_root o then lstat_root else None in
  if recurse (base o) && preserve_root o && bool_decide (lstat_root = None) then Ok None
  else
    let* (ok, w, out, errs) := chown_files flags (walked files flags) failed closed uid gid required_uid required_gid (set_names (base o) (negb (deref =? 0)) root u g) w in
    Ok (Some ((if ok then 0 else 1), w, out, errs)).

Definition chown_main (o : options) (operands : list (list Z)) (failed closed : bool) (w : world) : res (option (Z * world * list piece * list complaint)) :=
  let* req := match from o with
    | None => Ok (Some (NO_ID, NO_ID))
    | Some spec => let* r := parse_user_spec getpwnam getgrnam getgrgid spec NO_ID NO_ID in Ok match r with inl i => Some (UserSpec.uid i, UserSpec.gid i) | inr _ => None end
    end in
  match req, settle o with
  | Some (required_uid, required_gid), Some (flags, deref) =>
      match reference o, operands with
      | Some ref, _ :: _ =>
          match ref with
          | None => Ok None
          | Some r =>
              let* u := group_label getpwuid (o_uid r) in
              let* g := group_label getgrgid (o_gid r) in
              run_files o flags deref operands (o_uid r) (o_gid r) required_uid required_gid (Some u) (Some g) failed closed w
          end
      | None, spec :: ((_ :: _) as files) =>
          let* r := parse_user_spec getpwnam getgrnam getgrgid spec NO_ID NO_ID in
          match r with
          | inr _ => Ok None
          | inl i =>
              let u := match username i, groupname i with None, Some _ => Some [] | u, _ => u end in
              run_files o flags deref files (UserSpec.uid i) (UserSpec.gid i) required_uid required_gid u (groupname i) failed closed w
          end
      | _, _ => Ok None
      end
  | _, _ => Ok None
  end.

Definition GID_T_MAX : Z := 4294967295.

Definition parse_group (name : list Z) : res (option Z) :=
  if head_char name =? 0 then Ok (Some NO_ID)
  else
    match getgrnam name with
    | Some g => Ok (Some g)
    | None =>
        let* (err, v, _) := xstrtol t_ulong name 10 (Some []) in
        Ok match v with Some tmp => if (err =? LONGINT_OK) && (tmp <=? GID_T_MAX) then Some tmp else None | None => None end
    end.

Definition chgrp_main (o : options) (operands : list (list Z)) (failed closed : bool) (w : world) : res (option (Z * world * list piece * list complaint)) :=
  match settle o with
  | None => Ok None
  | Some (flags, deref) =>
      match reference o, operands with
      | Some ref, _ :: _ =>
          match ref with
          | None => Ok None
          | Some r => let* g := group_label getgrgid (o_gid r) in run_files o flags deref operands NO_ID (o_gid r) NO_ID NO_ID None (Some g) failed closed w
          end
      | None, name :: ((_ :: _) as files) =>
          let* g := parse_group name in
          match g with
          | None => Ok None
          | Some gid => run_files o flags deref files NO_ID gid NO_ID NO_ID None (if head_char name =? 0 then None else Some name) failed closed w
          end
      | _, _ => Ok None
      end
  end.
End system.

(** ** What a chown changes *)

(** Only files for which it was right change, and descriptors are closed. *)
Definition harmless (right : inode -> owner -> Prop) (w w' : world) : Prop := opened w' = opened w /\ forall k, owners w' k = owners w k \/ right k (owners w k).

Lemma harmless_refl right w : harmless right w w.
Proof. split; [done|]. by left. Qed.

Lemma harmless_tick right w : harmless right w (tick w).
Proof. split; [done|]. by left. Qed.

Lemma harmless_trans right w1 w2 w3 : harmless right w1 w2 -> harmless right w2 w3 -> harmless right w1 w3.
Proof.
  intros [E1 H1] [E2 H2]. split; [congruence|]. intros k. destruct (H1 k) as [Ek|]; [|by right]. destruct (H2 k) as [Ek'|Hk]; [left; congruence|]. right. by rewrite <- Ek.
Qed.

Lemma owned_by_filled u g st : owned_by u g (Some st) = Ok (required_ok u g (st_owner st)).
Proof. unfold owned_by, required_ok. destruct (u =? NO_ID), (g =? NO_ID); cbn; try done; by destruct (u =? o_uid (st_owner st)). Qed.

Lemma same_inode_eq a b : SAME_INODE a b = true <-> a = b.
Proof. unfold SAME_INODE. destruct a, b. cbn. rewrite andb_true_iff, !Z.eqb_eq. split; [by intros [-> ->]|by intros [= -> ->]]. Qed.

Section safety.
Context (follow nofollow : nat -> list Z -> option inode) (kind_of : inode -> kind).
Context (open_fails : nat -> inode -> bool -> option Z) (chown_fails : nat -> inode -> option Z) (fstat_fails close_fails : nat -> bool).

(** With a descriptor: nothing changes, or the file that was looked at, which has the right owner, gets the new one. *)
Lemma restricted_fd_ok fd orig uid gid ru rg w :
  let '(status, w') := restricted_fd kind_of chown_fails fstat_fails close_fails fd orig uid gid ru rg w in
  opened w' = opened w - 1 /\ status <> RC_do_ordinary_chown /\ status <> RC_excluded /\
  ((forall k, owners w' k = owners w k) \/
   fd = orig /\ required_ok ru rg (owners w orig) = true /\ forall k, owners w' k = owners (give orig uid gid w) k).
Proof.
  unfold restricted_fd, fstat. destruct (fstat_fails (clock w)); [by cbn; split_and!; auto|]. cbn [st_file stat_of st_owner]. destruct (SAME_INODE orig fd) eqn:E; cbn [negb]; [|by cbn; split_and!; auto]. apply same_inode_eq in E as ->.
  change (owners (tick w) fd) with (owners w fd). destruct (required_ok ru rg (owners w fd)) eqn:R; [|by cbn; split_and!; auto]. unfold fchown. destruct (chown_fails (clock (tick w)) fd) as [e|]; cbn [Z.eqb].
  - destruct (e =? 0); cbn; split_and!; auto; by destruct (close_fails _).
  - cbn. split_and!; auto; by destruct (close_fails _).
Qed.

Lemma openat_ok file writing directory w :
  let '(r, w') := openat follow kind_of open_fails file writing directory w in
  (forall k, owners w' k = owners w k) /\
  match r with
  | inl fd => opened w' = opened w + 1
  | inr e => opened w' = opened w /\ (e = EACCES -> exists t k, open_fails t k writing = Some EACCES)
  end.
Proof.
  unfold openat. destruct (follow (clock w) file) as [k|]; [|by split]. destruct (directory && _); [by split|]. destruct (open_fails (clock w) k writing) as [e|] eqn:E; [|by split]. split; [done|]. split; [done|]. intros ->. by exists (clock w), k.
Qed.

(** What restricted_chown can do. *)
Definition restricted (orig : inode) (uid gid ru rg : Z) (w : world) (r : RCH_status * world) : Prop :=
  let '(status, w') := r in
  opened w' = opened w /\ status <> RC_excluded /\ (status = RC_do_ordinary_chown -> exists t k wr, open_fails t k wr = Some EACCES) /\
  ((forall k, owners w' k = owners w k) \/
   required_ok ru rg (owners w orig) = true /\ forall k, owners w' k = owners (give orig uid gid w) k).

Lemma restricted_after_open fd orig uid gid ru rg w w1 : (forall k, owners w1 k = owners w k) -> opened w1 = opened w + 1 ->
  restricted orig uid gid ru rg w (restricted_fd kind_of chown_fails fstat_fails close_fails fd orig uid gid ru rg w1).
Proof.
  intros Eo En. pose proof (restricted_fd_ok fd orig uid gid ru rg w1) as H. destruct (restricted_fd _ _ _ _ _ _ _ _ _ _ _) as [status w']. destruct H as (H1 & H2 & H3 & H4). split; [lia|]. split; [done|]. split; [done|]. destruct H4 as [H4|(-> & Hr & H4)]; [left; intros k; by rewrite H4|]. right. rewrite <- Eo. split; [done|]. intros k. rewrite H4. cbn. by rewrite !Eo.
Qed.

Lemma restricted_chown_ok file st uid gid ru rg w : (ru =? NO_ID) && (rg =? NO_ID) = false -> st_kind st = Regular \/ st_kind st = Directory ->
  restricted (st_file st) uid gid ru rg w (restricted_chown follow kind_of open_fails chown_fails fstat_fails close_fails file st uid gid ru rg w).
Proof.
  intros Hr Hk. unfold restricted_chown. rewrite Hr. assert (forall directory, restricted (st_file st) uid gid ru rg w (restricted_open follow kind_of open_fails chown_fails fstat_fails close_fails directory file st uid gid ru rg w)) as H; [|by destruct Hk as [-> | ->]].
  unfold restricted_open.
  intros directory. pose proof (openat_ok file false directory w) as H1. destruct (openat _ _ _ file false directory w) as [[fd|e] w1].
  - destruct H1 as [Eo En]. by apply restricted_after_open.
  - destruct H1 as (Eo & En & Ha). destruct (Z.eqb_spec e EACCES) as [->|E]; cbn [andb]; [|by split_and!; auto]. destruct (Ha eq_refl) as (t & k & Hf). destruct (bool_decide (st_kind st = Regular)); [|split_and!; auto; by exists t, k, false].
    pose proof (openat_ok file true directory w1) as H2. destruct (openat _ _ _ file true directory w1) as [[fd|e] w2].
    + destruct H2 as [Eo2 En2]. apply restricted_after_open; [intros; by rewrite Eo2|lia].
    + destruct H2 as (Eo2 & En2 & _). split; [lia|]. split; [by destruct (e =? EACCES)|]. split; [intros _; by exists t, k, false|]. left. intros. by rewrite Eo2.
Qed.

(** C19. Changing only files of a given owner is safe against other processes that move
    files: for a regular file or a directory, whatever the name leads to at each of the
    system calls and whichever of them fail, restricted_chown
    changes nothing at all but the file that stat saw, and only if that one has the
    required owner and group; it closes what it opens, and it asks for the
    unsafe chown only after a denied access. *)
Theorem restricted_chown_safe file st uid gid required_uid required_gid w :
  (required_uid =? NO_ID) && (required_gid =? NO_ID) = false -> st_kind st = Regular \/ st_kind st = Directory ->
  let '(status, w') := restricted_chown follow kind_of open_fails chown_fails fstat_fails close_fails file st uid gid required_uid required_gid w in
  opened w' = opened w /\ (status = RC_do_ordinary_chown -> exists t k writing, open_fails t k writing = Some EACCES) /\
  forall k, owners w' k <> owners w k -> k = st_file st /\ required_ok required_uid required_gid (owners w k) = true /\ owners w' k = new_owner uid gid (owners w k).
Proof.
  intros Hr Hk. pose proof (restricted_chown_ok file st uid gid required_uid required_gid w Hr Hk) as H. destruct (restricted_chown _ _ _ _ _ _ _ _ _ _ _ _ _) as [status w']. destruct H as (H1 & _ & H2 & H3). split; [done|]. split; [done|]. intros k Hne. destruct H3 as [H3|[H3 H4]]; [by rewrite H3 in Hne|]. specialize (H4 k). cbn in H4. destruct (bool_decide_reflect (k = st_file st)) as [E|E]; [|done]. subst k. done.
Qed.

(** What every entry of a kind keeps, the walk keeps. *)
Lemma chown_loop_rule (P : FTSENT -> Prop) (R : world -> world -> Prop) uid gid ru rg chopt fts failed entries ok w out errs :
  (forall w, R w w) -> (forall w1 w2 w3, R w1 w2 -> R w2 w3 -> R w1 w3) ->
  (forall e w, P e -> wp (change_file_owner follow nofollow kind_of open_fails chown_fails fstat_fails close_fails fts e uid gid ru rg chopt w) (fun o => R w (after o))) ->
  Forall P entries ->
  wp (chown_loop follow nofollow kind_of open_fails chown_fails fstat_fails close_fails fts entries failed uid gid ru rg chopt ok w out errs) (fun '(_, w', _, _) => R w w').
Proof.
  intros Hrefl Htrans Hstep. revert ok w out errs. induction entries as [entries IH] using (induction_ltof1 _ (@length FTSENT)). unfold ltof in IH. intros ok w out errs He. destruct entries as [|e entries]; [apply Hrefl|]. apply Forall_cons in He as [He Hes]. cbn [chown_loop]. apply wp_bind. eapply wp_mono; [by apply Hstep|]. intros o Ho.
  assert (forall es out' errs', (length es <= length entries)%nat -> Forall P es -> wp (chown_loop follow nofollow kind_of open_fails chown_fails fstat_fails close_fails fts es failed uid gid ru rg chopt (ok && result o) (after o) out' errs') (fun '(_, w', _, _) => R w w')) as Hgo.
  { intros es out' errs' Hlen Hs. eapply wp_mono; [apply IH; [cbn; lia|done]|]. intros [[[? w'] ?] ?] Hw. by apply (Htrans w (after o)). }
  destruct (telling o); try (by apply Hgo). destruct entries as [|e' entries]; [by cbn|]. apply Hgo; [cbn; lia|]. by apply Forall_cons in Hes as [_ Hes].
Qed.

(** *** A whole walk with --from *)

Section from.
Context (uid gid ru rg : Z) (chopt : Chown_option) (all : list FTSENT).
Hypothesis restrict : (ru =? NO_ID) && (rg =? NO_ID) = false.
Hypothesis dereferencing : affect_symlink_referent chopt = true.
(** The superuser is denied no access. *)
Hypothesis access : forall t k writing, open_fails t k writing <> Some EACCES.

Definition openable (k : kind) : Prop := k = Regular \/ k = Directory.

(** An entry that is neither a regular file nor a directory, or is a symbolic link that leads to such a file at some time. *)
Definition special_entry (e : FTSENT) : Prop :=
  exists st, fts_statp e = Some st /\ if bool_decide (st_kind st = Symlink) then exists t k, follow t (fts_accpath e) = Some k /\ ~ openable (kind_of k) else ~ openable (st_kind st).

(** A file to which the name of such an entry leads at some time. *)
Definition exposed (k : inode) : Prop := exists e t, e ∈ all /\ special_entry e /\ follow t (fts_accpath e) = Some k.

Definition right (k : inode) (o : owner) : Prop := required_ok ru rg o = true \/ exposed k.

Lemma do_change_safe e st w : e ∈ all -> openable (st_kind st) \/ special_entry e ->
  wp (do_change follow nofollow kind_of open_fails chown_fails fstat_fails close_fails (fts_accpath e) st uid gid ru rg chopt w) (fun '(_, _, _, w') => harmless right w w').
Proof.
  intros Hin Hk. unfold do_change. rewrite dereferencing. cbn [negb]. assert (openable (st_kind st) \/ (~ openable (st_kind st) /\ special_entry e)) as [Ho|[Ho He]].
  { destruct Hk as [Hk|Hk]; [by left|]. unfold openable. destruct (st_kind st); auto; right; (split; [by intros []|done]). }
  - pose proof (restricted_chown_ok (fts_accpath e) st uid gid ru rg w restrict Ho) as H. destruct (restricted_chown _ _ _ _ _ _ _ _ _ _ _ _ _) as [status w']. destruct H as (H1 & _ & H2 & H3).
    assert (harmless right w w') as Hw. { split; [done|]. intros k. destruct H3 as [H3|[H3 H4]]; [by left|]. rewrite H4. cbn. destruct (bool_decide_reflect (k = st_file st)) as [E|E]; [right; left; subst k; exact H3|by left]. }
    destruct status; try exact Hw. destruct (H2 eq_refl) as (t & k & wr & Hf). by apply access in Hf.
  - assert (restricted_chown follow kind_of open_fails chown_fails fstat_fails close_fails (fts_accpath e) st uid gid ru rg w = (RC_do_ordinary_chown, w)) as ->.
    { unfold restricted_chown. rewrite restrict. unfold openable in Ho. destruct (st_kind st); naive_solver. }
    unfold chownat, chown_name. destruct (follow (clock w) (fts_accpath e)) as [k|] eqn:Ef; [|apply harmless_tick]. unfold fchown. destruct (chown_fails (clock w) k); [apply harmless_tick|]. cbn.
    split; [done|]. intros k'. cbn. destruct (bool_decide_reflect (k' = k)) as [->|]; [|by left]. right. right. by exists e, (clock w).
Qed.

(** The entries have been looked at: fts does so without FTS_NOSTAT, unless it reports an error. *)
Definition seen (e : FTSENT) : Prop := e ∈ all /\ match fts_info e with FTS_NS | FTS_ERR | FTS_DNR => True | _ => is_Some (fts_statp e) end.

Lemma change_entry_safe e ok errs w : e ∈ all -> (ok = true -> is_Some (fts_statp e)) ->
  wp (change_entry follow nofollow kind_of open_fails chown_fails fstat_fails close_fails e ok errs uid gid ru rg chopt w) (fun o => harmless right w (after o)).
Proof.
  intros Hin He. unfold change_entry. rewrite restrict, dereferencing. cbn [andb].
  apply wp_bind. apply (wp_mono _ (fun '(ok', do_chown, st, w', _) => harmless right w w' /\ (ok' = true -> exists s, st = Some s) /\ (do_chown = true -> exists s, st = Some s /\ (openable (st_kind s) \/ special_entry e)))).
  { destruct ok; cbn [negb]; [|by split; [apply harmless_refl|]]. destruct (He eq_refl) as [st Est]. rewrite Est. cbn [bind]. destruct (bool_decide (st_kind st = Symlink)) eqn:E.
    - unfold fstatat. destruct (follow (clock w) (fts_accpath e)) as [k|] eqn:Ef; [|by split; [apply harmless_tick|]]. destruct (fstat_fails (clock w)); [by split; [apply harmless_tick|]|]. rewrite owned_by_filled. cbn. split; [apply harmless_tick|]. split; [by eauto|]. intros _. eexists. split; [done|]. cbn.
      assert (openable (kind_of k) \/ ~ openable (kind_of k)) as [?|Hno] by (unfold openable; destruct (kind_of k); auto; right; by intros []); [by left|]. right. exists st. split; [done|]. rewrite E. by exists (clock w), k.
    - rewrite owned_by_filled. cbn. split; [apply harmless_refl|]. split; [by eauto|]. intros _. exists st. split; [done|].
      assert (openable (st_kind st) \/ ~ openable (st_kind st)) as [?|Hno] by (unfold openable; destruct (st_kind st); auto; right; by intros []); [by left|]. right. exists st. split; [done|]. by rewrite E. }
  intros [[[[ok' do_chown] st] w1] errs1] (Hw & Hst & Hch). apply wp_bind. apply (wp_mono _ (fun _ => True)); [destruct ok'; [|done]; destruct (Hst eq_refl) as [s ->]; cbn; by repeat case_match|]. intros [] _; [done|].
  apply wp_bind. apply (wp_mono _ (fun '(ok2, do2, sc, w') => harmless right w w' /\ (do2 = true -> do_chown = true))).
  { destruct do_chown; [|done]. destruct (Hch eq_refl) as (s & -> & Hk). eapply wp_mono; [by apply do_change_safe|]. intros [[[ok2 do2] sc] w2] H2. split; [by apply (harmless_trans right w w1)|done]. }
  intros [[[ok2 do2] sc] w2] [H2 Hd]. apply wp_bind. apply (wp_mono _ (fun _ => True)); [|done]. destruct (negb _); [|done]. apply wp_bind. apply (wp_mono _ (fun _ => True)); [|by intros changed _; destruct (_ || _)].
  destruct do2; cbn [andb]; [|done]. destruct (Hch (Hd eq_refl)) as (s & -> & _). destruct (ok2 && sc); [|done]. by rewrite owned_by_filled.
Qed.

Lemma change_file_owner_safe fts e w : seen e ->
  wp (change_file_owner follow nofollow kind_of open_fails chown_fails fstat_fails close_fails fts e uid gid ru rg chopt w) (fun o => harmless right w (after o)).
Proof.
  intros [Hin He]. unfold change_file_owner. destruct (fts_info e).
  - destruct (recurse chopt); [|by apply change_entry_safe]. destruct He as [st ->]. apply wp_bind. apply (wp_mono _ (fun _ => True)); [by destruct (root_dev_ino chopt)|]. intros [] _; apply harmless_refl.
  - destruct (cycle_warning_required fts e); [apply harmless_refl|by apply change_entry_safe].
  - destruct (negb (recurse chopt)); [apply harmless_refl|by apply change_entry_safe].
  - by apply change_entry_safe.
  - destruct ((fts_level e =? 0) && (fts_number e =? 0)); [apply harmless_refl|by apply change_entry_safe].
  - by apply change_entry_safe.
  - by apply change_entry_safe.
Qed.

Lemma chown_loop_safe fts failed entries ok w out errs : Forall seen entries ->
  wp (chown_loop follow nofollow kind_of open_fails chown_fails fstat_fails close_fails fts entries failed uid gid ru rg chopt ok w out errs) (fun '(_, w', _, _) => harmless right w w').
Proof.
  apply (chown_loop_rule seen (harmless right)); [apply harmless_refl|apply harmless_trans|intros; by apply change_file_owner_safe].
Qed.

(** C18. chown --from, run by the superuser, who is denied no access, with --dereference, on entries that fts has looked at: it ends,
    no descriptor stays open, and whatever other processes do to the names while it walks and whichever system calls fail, every
    file whose owner or group has changed had the required ones when it began, or is one to which
    the name of an entry led that is not a regular file or a directory (or a symbolic link to such a one).  For those chown
    uses the name once more, and that race is real, as [fifo_race] shows. *)
Theorem chown_from_safe fts failed closed w : Forall seen all ->
  exists ok w' out errs, chown_files follow nofollow kind_of open_fails chown_fails fstat_fails close_fails fts all failed closed uid gid ru rg chopt w = Ok (ok, w', out, errs) /\
  opened w' = opened w /\ forall k, owners w' k <> owners w k -> required_ok ru rg (owners w k) = true \/ exposed k.
Proof.
  intros He. pose proof (chown_loop_safe fts failed all true w [] [] He) as H. unfold chown_files. destruct (chown_loop _ _ _ _ _ _ _ _ _ _ _ _ _ _ _ _ _ _ _) as [[[[ok w'] out] errs]|]; [|done]. cbn in *. destruct H as [H1 H2]. do 4 eexists. split; [done|]. split; [done|]. intros k Hk. by destruct (H2 k).
Qed.
End from.

(** *** The root directory *)

Section root.
Context (uid gid ru rg : Z) (chopt : Chown_option) (r : inode).
Hypothesis recursive : recurse chopt = true.
Hypothesis preserved : root_dev_ino chopt = Some r.
Hypothesis links_too : affect_symlink_referent chopt = false.

(** What the walk has to say of an entry: the stat buffer is filled for directories and, without FTS_NOSTAT, for all entries; a name
    that leads to the root directory is that of a directory, and the buffer says that it is the root directory. *)
Definition nostat : bool := (ru =? NO_ID) && (rg =? NO_ID) && negb (affect_symlink_referent chopt) && bool_decide (verbosity chopt = V_off).

Definition true_entry (e : FTSENT) : Prop :=
  match fts_info e with FTS_NS | FTS_ERR | FTS_DNR => True | FTS_other => nostat = false -> is_Some (fts_statp e) | _ => is_Some (fts_statp e) end /\
  forall t, nofollow t (fts_accpath e) = Some r -> FTSENT_IS_DIRECTORY e = true /\ exists st, fts_statp e = Some st /\ st_file st = r.

Lemma owned_by_ok u g st : ((u =? NO_ID) && (g =? NO_ID) = false -> is_Some st) -> wp (owned_by u g st) (fun _ => True).
Proof.
  intros H. destruct st as [st|]; [by rewrite owned_by_filled|]. unfold owned_by. destruct (u =? NO_ID); [|by destruct (H eq_refl)]. destruct (g =? NO_ID); [done|by destruct (H eq_refl)].
Qed.

Lemma change_entry_root e ok errs w : (ok = true -> (FTSENT_IS_DIRECTORY e = true \/ nostat = false) -> is_Some (fts_statp e)) -> true_entry e ->
  wp (change_entry follow nofollow kind_of open_fails chown_fails fstat_fails close_fails e ok errs uid gid ru rg chopt w) (fun o => owners (after o) r = owners w r).
Proof.
  intros Hs [_ Ht]. unfold change_entry. unfold nostat in Hs. rewrite preserved, links_too in *. rewrite (bool_decide_false (Some r = None)) by done. rewrite andb_false_r. cbn [andb negb].
  destruct ok; cbn [negb].
  2: { cbn [bind andb]. destruct (negb (bool_decide (verbosity chopt = V_off))); [|done]. cbn. by destruct (bool_decide (verbosity chopt = V_high)). }
  cbn [bind]. specialize (Hs eq_refl). apply wp_bind. apply (wp_mono _ (fun '(ok', _, st, w', _) => ok' = true /\ st = fts_statp e /\ w' = w)).
  { apply wp_bind. eapply wp_mono; [apply owned_by_ok|done]. intros Hne. apply Hs. right. by rewrite Hne. }
  intros [[[[ok' do_chown] st] w1] errs1] (-> & -> & ->). cbn [andb]. rewrite (bool_decide_true (is_Some (Some r))), andb_true_r by done.
  apply wp_bind. apply (wp_mono _ (fun at_root => at_root = false -> forall t, nofollow t (fts_accpath e) <> Some r)).
  { destruct (FTSENT_IS_DIRECTORY e) eqn:Ed.
    - destruct (Hs (or_introl eq_refl)) as [st Es]. rewrite Es. cbn. intros Hr t Hf. destruct (Ht t Hf) as (_ & st' & Es' & <-). rewrite Es in Es'. injection Es' as <-. by rewrite (proj2 (same_inode_eq _ _) eq_refl) in Hr.
    - intros _ t Hf. by destruct (Ht t Hf). }
  intros [] Hno; [done|]. specialize (Hno eq_refl). apply wp_bind. apply (wp_mono _ (fun '(_, _, _, w') => owners w' r = owners w r)).
  - assert (forall st, wp (do_change follow nofollow kind_of open_fails chown_fails fstat_fails close_fails (fts_accpath e) st uid gid ru rg chopt w) (fun '(_, _, _, w') => owners w' r = owners w r)) as Hdo.
    { intros st. unfold do_change, lchownat, chown_name. rewrite links_too. cbn [negb]. specialize (Hno (clock w)). destruct (nofollow (clock w) (fts_accpath e)) as [k|]; [|done]. unfold fchown. destruct (chown_fails (clock w) k) as [err|]; [by repeat case_match|]. cbn. by rewrite bool_decide_false by congruence. }
    destruct do_chown; [|done]. destruct (fts_statp e); apply Hdo.
  - intros [[[ok2 do2] sc] w2] Hw2. apply wp_bind. apply (wp_mono _ (fun _ => True)); [|done]. destruct (bool_decide (verbosity chopt = V_off)) eqn:Ev; [done|]. cbn [negb]. apply wp_bind. apply (wp_mono _ (fun _ => True)); [|intros changed _; by destruct (_ || _)].
    destruct (do2 && ok2 && sc); [|done]. apply wp_bind. eapply wp_mono; [apply owned_by_ok|done]. intros _. apply Hs. right. by rewrite !andb_false_r.
Qed.

Lemma change_file_owner_root fts e w : true_entry e ->
  wp (change_file_owner follow nofollow kind_of open_fails chown_fails fstat_fails close_fails fts e uid gid ru rg chopt w) (fun o => owners (after o) r = owners w r).
Proof.
  intros He. pose proof (change_entry_root e) as Hc. pose proof (proj1 He) as Hs. unfold change_file_owner. unfold FTSENT_IS_DIRECTORY in Hc. destruct (fts_info e).
  - rewrite recursive, preserved. destruct Hs as [st ->]. cbn. by destruct (SAME_INODE _ _).
  - destruct (cycle_warning_required fts e); [done|by apply Hc].
  - rewrite recursive. by apply Hc.
  - by apply Hc.
  - destruct ((fts_level e =? 0) && (fts_number e =? 0)); [done|by apply Hc].
  - by apply Hc.
  - apply Hc; [|done]. intros _ [?|Hn]; [done|by apply Hs].
Qed.

Lemma chown_loop_root fts failed entries ok w out errs : Forall true_entry entries ->
  wp (chown_loop follow nofollow kind_of open_fails chown_fails fstat_fails close_fails fts entries failed uid gid ru rg chopt ok w out errs) (fun '(_, w', _, _) => owners w' r = owners w r).
Proof.
  apply (chown_loop_rule true_entry (fun w w' => owners w' r = owners w r)); [done|congruence|intros; by apply change_file_owner_root].
Qed.
End root.

(** C20. --preserve-root keeps the root directory: chown -R and chgrp -R without -H or -L, for
    whatever ids and failures of calls, end and leave its owner
    and group as they are, for every walk that tells the truth: its directories have a filled stat buffer, and so have its other entries unless FTS_NOSTAT lets fts leave it empty; and if at some time
    the name of an entry leads to the root directory, the entry is a directory and its buffer says so. *)
Theorem chown_preserves_root lstat_root walked o files uid gid ru rg u g failed closed w r :
  recurse (base o) = true -> preserve_root o = true -> is_physical (bit_flags o) = true -> dereference o <> 1 -> lstat_root = Some r ->
  Forall (true_entry ru rg (set_names (base o) false (Some r) u g) r) (walked files (bit_flags o)) ->
  settle o = Some (bit_flags o, 0) /\
  exists status w' out errs, run_files follow nofollow kind_of open_fails chown_fails fstat_fails close_fails lstat_root walked o (bit_flags o) 0 files uid gid ru rg u g failed closed w = Ok (Some (status, w', out, errs)) /\ owners w' r = owners w r.
Proof.
  intros Hr Hp Hf Hd -> He. split; [unfold settle; by rewrite Hr, Hf, (proj2 (Z.eqb_neq _ _) Hd)|]. unfold run_files. rewrite Hr, Hp. cbn [andb]. rewrite bool_decide_false by done. set (chopt := set_names (base o) (negb (0 =? 0)) (Some r) u g).
  pose proof (chown_loop_root uid gid ru rg chopt r Hr eq_refl eq_refl (bit_flags o) failed (walked files (bit_flags o)) true w [] [] He) as H. unfold chown_files. destruct (chown_loop _ _ _ _ _ _ _ _ _ _ _ _ _ _ _ _ _ _ _) as [[[[ok w'] out] errs]|]; [|done]. cbn in *. do 4 eexists. split; [done|exact H].
Qed.
End safety.

(** ** An attack *)

(** The file (0, 1) of the user 5 and other files of the user 9; the name leads to
    another file at the first call, when the file has just been looked at. *)
Definition moved (t : nat) (f : list Z) : option inode := if (t =? 0)%nat then Some (0, 2) else Some (0, 1).
Definition some_world : world := World 0 (fun k => if bool_decide (k = (0, 1)) then Owner 5 5 else Owner 9 9) 3.
Definition looked : stat := Stat (0, 1) (Owner 5 5) Regular.
Definition some_entry : FTSENT := Ftsent (bytes "f") (bytes "f") FTS_other 0 0 (Some looked).
Definition loud : Chown_option := ChownOption V_high false None true false (Some (bytes "7")) None.

Lemma restricted_chown_safe_witness :
  let '(status, w') := restricted_chown moved (fun _ => Regular) (fun _ _ _ => None) (fun _ _ => None) (fun _ => false) (fun _ => false) (bytes "f") looked 7 NO_ID 5 NO_ID some_world in
  opened w' = opened some_world /\ (status = RC_do_ordinary_chown -> exists t k writing, (fun (_ : nat) (_ : inode) (_ : bool) => @None Z) t k writing = Some EACCES) /\
  forall k, owners w' k <> owners some_world k -> k = (0, 1) /\ required_ok 5 NO_ID (owners some_world k) = true /\ owners w' k = new_owner 7 NO_ID (owners some_world k).
Proof.
  apply (restricted_chown_safe moved (fun _ => Regular) (fun _ _ _ => None) (fun _ _ => None) (fun _ => false) (fun _ => false) (bytes "f") looked 7 NO_ID 5 NO_ID some_world); [vm_compute; reflexivity|left; reflexivity].
Defined.

Lemma chown_from_safe_witness :
  exists ok w' out errs, chown_files moved (fun _ _ => None) (fun _ => Regular) (fun _ _ _ => None) (fun _ _ => None) (fun _ => false) (fun _ => false) FTS_PHYSICAL [some_entry] false true 7 NO_ID 5 NO_ID loud some_world = Ok (ok, w', out, errs) /\
  opened w' = opened some_world /\ forall k, owners w' k <> owners some_world k -> required_ok 5 NO_ID (owners some_world k) = true \/ exposed moved (fun _ => Regular) [some_entry] k.
Proof.
  apply (chown_from_safe moved (fun _ _ => None) (fun _ => Regular) (fun _ _ _ => None) (fun _ _ => None) (fun _ => false) (fun _ => false) 7 NO_ID 5 NO_ID loud [some_entry]).
  - vm_compute. reflexivity.
  - reflexivity.
  - discriminate.
  - constructor; [|constructor]. split; [left|exists looked; reflexivity].
Defined.

(** No file is exposed there, so that nothing of the user 9 changes. *)
Lemma nothing_exposed k : ~ exposed moved (fun _ => Regular) [some_entry] k.
Proof. intros (e & t & He & (st & Est & Hs) & _). apply list_elem_of_singleton in He as ->. injection Est as <-. apply Hs. by left. Qed.

Definition root_entry (i : info) : FTSENT := Ftsent (bytes "/") (bytes "/") i 0 0 (Some (Stat (0, 2) (Owner 9 9) Directory)).
Definition root_names (t : nat) (f : list Z) : option inode := if bool_decide (f = bytes "/") then Some (0, 2) else Some (0, 1).
(** A file that fts has not looked at. *)
Definition unseen_entry : FTSENT := Ftsent (bytes "g") (bytes "g") FTS_other 1 0 None.
Definition root_options : options := Options FTS_PHYSICAL (-1) true None None (ChownOption V_off true None true false None None).

Lemma chown_preserves_root_witness :
  settle root_options = Some (FTS_PHYSICAL, 0) /\
  exists status w' out errs, run_files root_names root_names (fun _ => Regular) (fun _ _ _ => None) (fun _ _ => None) (fun _ => false) (fun _ => false) (Some (0, 2)) (fun _ _ => [unseen_entry; root_entry FTS_D; root_entry FTS_DP]) root_options FTS_PHYSICAL 0 [bytes "f"; bytes "/"] 7 NO_ID NO_ID NO_ID None None false true some_world = Ok (Some (status, w', out, errs)) /\ owners w' (0, 2) = owners some_world (0, 2).
Proof.
  apply (chown_preserves_root root_names root_names (fun _ => Regular) (fun _ _ _ => None) (fun _ _ => None) (fun _ => false) (fun _ => false) (Some (0, 2)) (fun _ _ => [unseen_entry; root_entry FTS_D; root_entry FTS_DP]) root_options [bytes "f"; bytes "/"] 7 NO_ID NO_ID NO_ID None None false true some_world (0, 2)); try reflexivity; [discriminate|].
  constructor; [split; [intros H; vm_compute in H; discriminate H|discriminate]|].
  repeat (constructor; [split; [eexists; reflexivity|]|]); [intros _ _; split; [reflexivity|eexists; split; reflexivity]|intros _ _; split; [reflexivity|eexists; split; reflexivity]|constructor].
Defined.

(** ** What goes wrong *)

(** A file whose owner changed after it was looked at is left alone, but the status is that of success. *)
Lemma excluded_is_success :
  match change_file_owner (fun _ _ => Some (0, 1)) (fun _ _ => Some (0, 1)) (fun _ => Regular) (fun _ _ _ => None) (fun _ _ => None) (fun _ => false) (fun _ => false) FTS_PHYSICAL some_entry 7 NO_ID 5 NO_ID loud (World 0 (fun _ => Owner 9 9) 3) with
  | Ok o => result o = true /\ owners (after o) (0, 1) = Owner 9 9 /\ said o = show "changed ownership of " (bytes "f") " to " (bytes "7")
  | Fail _ => False
  end.
Proof. vm_compute. done. Qed.

(** A FIFO of the user 5 that was replaced, after it was looked at, by a name of another user's file: that one is given away. *)
Lemma fifo_race :
  match change_file_owner moved (fun _ _ => None) (fun _ => Regular) (fun _ _ _ => None) (fun _ _ => None) (fun _ => false) (fun _ => false) FTS_PHYSICAL
          (Ftsent (bytes "f") (bytes "f") FTS_other 0 0 (Some (Stat (0, 1) (Owner 5 5) Special))) 7 NO_ID 5 NO_ID loud some_world with
  | Ok o => owners some_world (0, 2) = Owner 9 9 /\ owners (after o) (0, 2) = Owner 7 9
  | Fail _ => False
  end.
Proof. vm_compute. done. Qed.

(** A file that was replaced is left alone, without a message on the standard error. *)
Lemma replaced_is_silent :
  match change_file_owner moved (fun _ _ => None) (fun _ => Regular) (fun _ _ _ => None) (fun _ _ => None) (fun _ => false) (fun _ => false) FTS_PHYSICAL some_entry 7 NO_ID 5 NO_ID (ChownOption V_off false None true false None None) some_world with
  | Ok o => result o = false /\ complaints o = [] /\ said o = []
  | Fail _ => False
  end.
Proof. vm_compute. done. Qed.

(** chgrp takes 2^32 - 1 as a group, which means no change, and succeeds. *)
Lemma chgrp_minus_one : parse_group (fun _ => None) (bytes "4294967295") = Ok (Some NO_ID).
Proof. vm_compute. reflexivity. Qed.
