(* ===== verification/Remove.v ===== *)
(** * Removing files: utils/coreutils/lib/remove.c, yesno.c, euidaccess-stat.c, file-type.c and
    src/rm.c

    The entries that fts_read returns, the answers of the system and rpmatch of the
    C library are arguments.  What happens is a trace: questions with their
    answers, removals and errors. *)

From S2P Require Import Prelude Arrays CStrings.
Open Scope Z_scope.

Definition EACCES : Z := 13.
Definition ENOENT : Z := 2.
Definition ENOTDIR : Z := 20.
Definition EROFS : Z := 30.
Definition PATH_MAX : Z := 4096.

Inductive rm_interactive := RMI_ALWAYS | RMI_SOMETIMES | RMI_NEVER.
#[export] Instance rm_interactive_eq_dec : EqDecision rm_interactive.
Proof. solve_decision. Defined.

Inductive RM_status := RM_OK | RM_USER_DECLINED | RM_ERROR | RM_NONEMPTY_DIR.
#[export] Instance RM_status_eq_dec : EqDecision RM_status.
Proof. solve_decision. Defined.

Definition VALID_STATUS (s : RM_status) : bool := match s with RM_NONEMPTY_DIR => false | _ => true end.
Definition UPDATE_STATUS (s new : RM_status) : RM_status :=
  if bool_decide (new = RM_ERROR) || (bool_decide (new = RM_USER_DECLINED) && bool_decide (s = RM_OK)) then new else s.

Record rm_options := RmOptions {
  ignore_missing_files : bool; interactive : rm_interactive; one_file_system : bool; recursive : bool; root_dev_ino : option (Z * Z);
  stdin_tty : bool; verbose : bool }.

Definition rm_option_init (isatty : bool) : rm_options := RmOptions false RMI_SOMETIMES false false None isatty false.

(** The file types of stat, with the size of a regular file. *)
Inductive filetype := S_IFREG (size : Z) | S_IFDIR | S_IFBLK | S_IFCHR | S_IFIFO | S_IFLNK | S_IFSOCK | S_other.
Record stat := Stat { st_type : filetype; st_mode : Z; st_uid : Z; st_gid : Z }.

Definition is_link (st : stat) : bool := match st_type st with S_IFLNK => true | _ => false end.
Definition is_directory (st : stat) : bool := match st_type st with S_IFDIR => true | _ => false end.

(** file-type.c; S_TYPEISMQ and the like are 0. *)
Definition file_type (st : stat) : string :=
  match st_type st with
  | S_IFREG size => if size =? 0 then "regular empty file" else "regular file"
  | S_IFDIR => "directory"
  | S_IFBLK => "block special file"
  | S_IFCHR => "character special file"
  | S_IFIFO => "fifo"
  | S_IFLNK => "symbolic link"
  | S_IFSOCK => "socket"
  | S_other => "weird file"
  end.

(** euidaccess-stat.c: the constants have their traditional values. *)
Definition euidaccess_stat (euid egid : Z) (group_member : Z -> bool) (st : stat) (mode : Z) : bool :=
  let mode := Z.land mode 7 in
  if mode =? 0 then true
  else if (euid =? 0) && ((Z.land mode 1 =? 0) || negb (Z.land (st_mode st) 73 =? 0)) then true
  else
    let granted := st_mode st in
    let granted :=
      if euid =? st_uid st then Z.shiftr granted 6
      else if (egid =? st_gid st) || group_member (st_gid st) then Z.shiftr granted 3
      else granted in
    Z.land mode (Z.lnot granted) =? 0.

(** What fts_read says of an entry. *)
Inductive info := FTS_D | FTS_F | FTS_NS | FTS_SL | FTS_SLNONE | FTS_DP | FTS_DNR | FTS_NSOK | FTS_DEFAULT | FTS_DC | FTS_ERR | FTS_unexpected.
#[export] Instance info_eq_dec : EqDecision info.
Proof. solve_decision. Defined.

(** The walk when it hands out an entry: the directory that [fts_accpath] is relative to, the
    device of the operand, and the number of entries read before, which tells one moment from another. *)
Record FTS := Fts { fts_cwd_fd : Z; fts_dev : Z; fts_reads : nat }.

(** An entry: its identity, those of the directories it is in, nearest first, up to the
    operand, and the device of its stat buffer. *)
Record FTSENT := Ftsent { fts_id : nat; fts_parents : list nat; fts_path : list Z; fts_accpath : list Z; fts_info : info; fts_level : Z; fts_st_dev : Z }.

Inductive question := Descend (protected : bool) | Remove (protected : bool) (type : string).
Inductive event :=
  | Asked (id : nat) (q : question) (yes : bool)
  | Removed (id : nat)
  | Told (path : list Z) (directory : bool)
  | Cannot_remove (id : nat)
  | Warned (id : nat).

(** The lines of the standard input, [fts_number] of the entries, and the trace. *)
Record state := State { input : list (list Z); numbers : nat -> Z; trace : list event }.

Definition log (e : event) (s : state) : state := State (input s) (numbers s) (trace s ++ [e]).

Section remove.
Context (rpmatch : list Z -> Z).
(** The effective ids and the groups of the process. *)
Context (geteuid getegid : Z) (group_member : Z -> bool) (openat_needs_fchdir : bool).
(** The system: errno or the status; errno or 0; whether a directory is empty.  What it answers
    depends on the moment of the call, on the directory and on the name; [lstatat] is the call after
    unlinkat, which may answer otherwise than [fstatat] did before it. *)
Context (fstatat : nat -> Z -> list Z -> Z + stat) (faccessat : nat -> Z -> list Z -> Z) (euidaccess : nat -> list Z -> Z).
Context (is_empty_dir : nat -> Z -> list Z -> bool) (unlinkat : nat -> Z -> list Z -> bool -> Z) (lstatat : nat -> Z -> list Z -> Z + stat).

(** ** yesno.c *)

Definition yesno (s : state) : bool * state :=
  match input s with
  | [] => (false, s)
  | line :: rest => (0 <? rpmatch (take (length line - 1) line), State rest (numbers s) (trace s))
  end.

(** ** remove.c *)

(** The status, from the buffer if it is there. *)
Definition cache_fstatat (fts : FTS) (file : list Z) (buf : option (Z + stat)) : Z + stat :=
  match buf with Some r => r | None => fstatat (fts_reads fts) (fts_cwd_fd fts) file end.

Definition can_write_any_file : bool := geteuid =? 0.

(** 1, 0 or -1, and the buffer. *)
Definition write_protected_non_symlink (fts : FTS) (file full_name : list Z) : Z * option (Z + stat) :=
  if can_write_any_file then (0, None)
  else
    let r := cache_fstatat fts file None in
    match r with
    | inl _ => (-1, Some r)
    | inr st =>
        if is_link st then (0, Some r)
        else if negb openat_needs_fchdir && (faccessat (fts_reads fts) (fts_cwd_fd fts) file =? 0) then (0, Some r)
        else if Z.min PATH_MAX 8192 <=? zlen full_name then ((if euidaccess_stat geteuid getegid group_member st 2 then 0 else 1), Some r)
        else if euidaccess (fts_reads fts) full_name =? 0 then (0, Some r)
        else if euidaccess (fts_reads fts) full_name =? EACCES then (1, Some r)
        else (-1, Some r)
    end.

Inductive dirent := DT_DIR | DT_LNK | DT_UNKNOWN.

(** The type of the entry, or no answer. *)
Definition find_type (fts : FTS) (dirent_type : dirent) (filename : list Z) (sbuf : option (Z + stat)) : option dirent * option (Z + stat) :=
  match dirent_type with
  | DT_UNKNOWN =>
      let r := cache_fstatat fts filename sbuf in
      (match r with inr st => Some (if is_link st then DT_LNK else if is_directory st then DT_DIR else DT_UNKNOWN) | inl _ => None end, Some r)
  | d => (Some d, sbuf)
  end.

(** The status, whether the directory is known to be empty, and the state.  [descend]: the
    action is PA_DESCEND_INTO_DIR and there is an [is_empty_p]. *)
Definition prompt (fts : FTS) (ent : FTSENT) (is_dir : bool) (x : rm_options) (descend : bool) (s : state) : RM_status * bool * state :=
  let filename := fts_accpath ent in
  let error := (RM_ERROR, false, log (Cannot_remove (fts_id ent)) s) in
  if negb (numbers s (fts_id ent) =? 0) then (RM_USER_DECLINED, false, s)
  else if bool_decide (interactive x = RMI_NEVER) then (RM_OK, false, s)
  else
    let '(write_protected, sbuf) :=
      if negb (ignore_missing_files x) && (bool_decide (interactive x = RMI_ALWAYS) || stdin_tty x) then write_protected_non_symlink fts filename (fts_path ent)
      else (0, None) in
    if negb (write_protected =? 0) || bool_decide (interactive x = RMI_ALWAYS) then
      if write_protected <? 0 then error
      else
        let '(found, sbuf) := find_type fts (if is_dir then DT_DIR else DT_UNKNOWN) filename sbuf in
        match found with
        | None => error
        | Some dirent_type =>
            let is_link := match dirent_type with DT_LNK => true | _ => false end in
            let is_directory := match dirent_type with DT_DIR => true | _ => false end in
            if is_link && negb (bool_decide (interactive x = RMI_ALWAYS)) then (RM_OK, false, s)
            else if is_directory && negb (recursive x) then error
            else
              let is_empty := descend && is_empty_dir (fts_reads fts) (fts_cwd_fd fts) filename in
              let protected := negb (write_protected =? 0) in
              let ask (q : question) :=
                let '(yes, s) := yesno s in
                ((if yes then RM_OK else RM_USER_DECLINED), is_empty, log (Asked (fts_id ent) q yes) s) in
              if is_directory && descend && negb is_empty then ask (Descend protected)
              else match cache_fstatat fts filename sbuf with
                   | inl _ => (RM_ERROR, is_empty, log (Cannot_remove (fts_id ent)) s)
                   | inr st => ask (Remove protected (file_type st))
                   end
        end
    else (RM_OK, false, s).

(** [for(p = ent->fts_parent; ...) { if(p->fts_number) break; p->fts_number = 1; }] *)
Fixpoint mark (parents : list nat) (numbers : nat -> Z) : nat -> Z :=
  match parents with
  | [] => numbers
  | p :: parents => if negb (numbers p =? 0) then numbers else mark parents (fun i => if (i =? p)%nat then 1 else numbers i)
  end.
Definition mark_ancestor_dirs (ent : FTSENT) (s : state) : state := State (input s) (mark (fts_parents ent) (numbers s)) (trace s).

Definition nonexistent_file_errno (errnum : Z) : bool := (errnum =? ENOENT) || (errnum =? ENOTDIR).
Definition ignorable_missing (x : rm_options) (errnum : Z) : bool := ignore_missing_files x && nonexistent_file_errno errnum.

(** errno after unlinkat failed: a missing file of a read-only file system is missing. *)
Definition unlink_errno (fts : FTS) (ent : FTSENT) (e : Z) : Z :=
  if e =? EROFS then match lstatat (fts_reads fts) (fts_cwd_fd fts) (fts_accpath ent) with inl n => if n =? ENOENT then ENOENT else EROFS | inr _ => EROFS end else e.

Definition excise (fts : FTS) (ent : FTSENT) (x : rm_options) (is_dir : bool) (s : state) : RM_status * state :=
  let e := unlinkat (fts_reads fts) (fts_cwd_fd fts) (fts_accpath ent) is_dir in
  if e =? 0 then
    let s := log (Removed (fts_id ent)) s in
    (RM_OK, if verbose x then log (Told (fts_path ent) is_dir) s else s)
  else if ignorable_missing x (unlink_errno fts ent e) then (RM_OK, s)
  else (RM_ERROR, mark_ancestor_dirs ent (log (Cannot_remove (fts_id ent)) s)).

(** The status, the number of entries that fts_skip_tree reads, and the state.  For an operand that is a directory the code after
    the test for "." and ".." is never reached. *)
Definition rm_fts (fts : FTS) (ent : FTSENT) (x : rm_options) (s : state) : res (RM_status * nat * state) :=
  match fts_info ent with
  | FTS_D =>
      if negb (recursive x) then Ok (RM_ERROR, 1%nat, mark_ancestor_dirs ent (log (Cannot_remove (fts_id ent)) s))
      else if fts_level ent =? 0 then Ok (RM_ERROR, 1%nat, log (Cannot_remove (fts_id ent)) s)
      else
        let '(status, is_empty, s) := prompt fts ent true x true s in
        let '(status, skips, s) :=
          if bool_decide (status = RM_OK) && is_empty then let '(status, s) := excise fts ent x true s in (status, 1%nat, s) else (status, 0%nat, s) in
        if negb (bool_decide (status = RM_OK)) then Ok (status, S skips, mark_ancestor_dirs ent s) else Ok (status, skips, s)
  | FTS_F | FTS_NS | FTS_SL | FTS_SLNONE | FTS_DP | FTS_DNR | FTS_NSOK | FTS_DEFAULT =>
      if bool_decide (fts_info ent = FTS_DP) && one_file_system x && (0 <? fts_level ent) && negb (fts_st_dev ent =? fts_dev fts) then
        Ok (RM_ERROR, 0%nat, log (Warned (fts_id ent)) (mark_ancestor_dirs ent s))
      else
        let is_dir := bool_decide (fts_info ent = FTS_DP) || bool_decide (fts_info ent = FTS_DNR) in
        let '(status, _, s) := prompt fts ent is_dir x false s in
        if negb (bool_decide (status = RM_OK)) then Ok (status, 0%nat, s)
        else let '(status, s) := excise fts ent x is_dir s in Ok (status, 0%nat, s)
  | FTS_DC | FTS_ERR => Ok (RM_ERROR, 1%nat, log (Warned (fts_id ent)) s)
  | FTS_unexpected => Fail Aborted
  end.

(** [skips] entries are read and not used. *)
Fixpoint rm_loop (skips : nat) (entries : list (FTSENT * FTS)) (x : rm_options) (rm_status : RM_status) (s : state) : res (RM_status * state) :=
  match entries with
  | [] => Ok (rm_status, s)
  | (ent, fts) :: entries =>
      match skips with
      | S skips => rm_loop skips entries x rm_status s
      | O =>
          let* (status, skips, s) := rm_fts fts ent x s in
          let* _ := demand (VALID_STATUS status) AssertFail in
          rm_loop skips entries x (UPDATE_STATUS rm_status status) s
      end
  end.

(** [failed] and [closed]: how fts_read and fts_close end. *)
Definition rm (entries : list (FTSENT * FTS)) (failed closed : bool) (x : rm_options) (s : state) : res (RM_status * state) :=
  let* (status, s) := rm_loop 0 entries x RM_OK s in
  Ok ((if failed || negb closed then RM_ERROR else status), s).

(** ** rm.c, after the options *)

(** The exit status; [walked] are the entries of the files. *)
Definition rm_main (x : rm_options) (preserve_root prompt_once : bool) (lstat_root : option (Z * Z)) (files : list (list Z)) (walked : list (FTSENT * FTS)) (failed closed : bool) (s : state) : res (Z * state) :=
  match files with
  | [] => Ok ((if ignore_missing_files x then 0 else 1), s)
  | _ =>
      if recursive x && preserve_root && bool_decide (lstat_root = None) then Ok (1, s)
      else
        let x := RmOptions (ignore_missing_files x) (interactive x) (one_file_system x) (recursive x) (if recursive x && preserve_root then lstat_root else None) (stdin_tty x) (verbose x) in
        let '(go, s) := if prompt_once && (recursive x || (3 <? zlen files)) then yesno s else (true, s) in
        if negb go then Ok (0, s)
        else
          let* (status, s) := rm walked failed closed x s in
          let* _ := demand (VALID_STATUS status) AssertFail in
          Ok ((if bool_decide (status = RM_ERROR) then 1 else 0), s)
  end.
End remove.

(** ** Nothing is removed without consent *)

(** Every removal follows at once the question whether to remove the same entry, answered with
    yes; leave to descend into a directory is no leave to remove it. *)
Definition consent (tr : list event) : Prop :=
  forall pre id post, tr = pre ++ Removed id :: post -> exists protected type, last pre = Some (Asked id (Remove protected type) true).

Definition allowed (id : nat) (tr : list event) : Prop := exists protected type, last tr = Some (Asked id (Remove protected type) true).

Definition quiet (e : event) : Prop := match e with Removed _ => False | _ => True end.

Lemma consent_snoc tr e : consent tr -> quiet e -> consent (tr ++ [e]).
Proof.
  intros Hc He pre id post E. destruct post as [|x post] using rev_ind; [|rewrite (app_comm_cons post), app_assoc in E].
  - apply app_inj_tail in E as [_ ->]. done.
  - apply app_inj_tail in E as [E _]. by apply (Hc pre id post).
Qed.

Lemma consent_removed tr id : consent tr -> allowed id tr -> consent (tr ++ [Removed id]).
Proof.
  intros Hc Hl pre id' post E. destruct post as [|x post] using rev_ind; [|rewrite (app_comm_cons post), app_assoc in E].
  - by apply app_inj_tail in E as [-> [= ->]].
  - apply app_inj_tail in E as [E _]. by apply (Hc pre id' post).
Qed.

Section consent.
Context (rpmatch : list Z -> Z) (geteuid getegid : Z) (group_member : Z -> bool) (openat_needs_fchdir : bool).
Context (fstatat : nat -> Z -> list Z -> Z + stat) (faccessat : nat -> Z -> list Z -> Z) (euidaccess : nat -> list Z -> Z).
Context (is_empty_dir : nat -> Z -> list Z -> bool) (unlinkat : nat -> Z -> list Z -> bool -> Z) (lstatat : nat -> Z -> list Z -> Z + stat).
Context (x : rm_options).

Let ask := prompt rpmatch geteuid getegid group_member openat_needs_fchdir fstatat faccessat euidaccess is_empty_dir.
Let cut := excise unlinkat lstatat.

Lemma yesno_trace s : trace (yesno rpmatch s).2 = trace s.
Proof. unfold yesno. by destruct (input s). Qed.

Lemma prompt_asks fts ent is_dir descend s : interactive x = RMI_ALWAYS -> consent (trace s) ->
  let '(status, is_empty, s') := ask fts ent is_dir x descend s in
  consent (trace s') /\ VALID_STATUS status = true /\ (status = RM_OK -> descend = false \/ is_empty = true -> allowed (fts_id ent) (trace s')).
Proof.
  intros Hi Hc. unfold ask, prompt. rewrite Hi. rewrite (bool_decide_false (RMI_ALWAYS = RMI_NEVER)), (bool_decide_true (RMI_ALWAYS = RMI_ALWAYS)) by done. cbn [orb negb andb]. rewrite andb_true_r. destruct (negb (numbers s (fts_id ent) =? 0)); [done|].
  assert (consent (trace (log (Cannot_remove (fts_id ent)) s))) as Herr by by apply consent_snoc.
  destruct (if negb (ignore_missing_files x) then _ else _) as [wp sbuf]. rewrite orb_true_r. destruct (wp <? 0); [done|]. destruct (find_type _ _ _ _ _) as [[d|] sbuf']; [|done].
  rewrite andb_false_r. cbv zeta. destruct (match d with DT_DIR => true | _ => false end && negb (recursive x)); [done|].
  set (e := descend && _). pose proof (yesno_trace s) as Ht. destruct (yesno rpmatch s) as [yes s1]. cbn [snd] in Ht.
  assert (forall q, consent (trace (log (Asked (fts_id ent) q yes) s1))) as Hask by (intros q; cbn [trace log]; rewrite Ht; by apply consent_snoc).
  destruct (match d with DT_DIR => true | _ => false end && descend && negb e) eqn:Ed.
  - split; [apply Hask|]. split; [by destruct yes|]. intros _ [->| ->]; by rewrite ?andb_false_r in Ed.
  - destruct (cache_fstatat _ _ _ _); [done|]. split; [apply Hask|]. destruct yes; [|done]. split; [done|]. intros _ _. do 2 eexists. cbn [trace log]. by rewrite last_snoc.
Qed.

Lemma excise_consent fts ent is_dir s : consent (trace s) -> allowed (fts_id ent) (trace s) ->
  let '(status, s') := cut fts ent x is_dir s in consent (trace s') /\ VALID_STATUS status = true.
Proof.
  intros Hc Hl. unfold cut, excise. destruct (_ =? 0).
  - split; [|done]. destruct (verbose x); [apply consent_snoc; [|done]|]; by apply consent_removed.
  - destruct (ignorable_missing _ _); [done|]. split; [|done]. by apply consent_snoc.
Qed.

Lemma rm_fts_consent fts ent s : interactive x = RMI_ALWAYS -> fts_info ent <> FTS_unexpected -> consent (trace s) ->
  wp (rm_fts rpmatch geteuid getegid group_member openat_needs_fchdir fstatat faccessat euidaccess is_empty_dir unlinkat lstatat fts ent x s) (fun '(status, _, s') => consent (trace s') /\ VALID_STATUS status = true).
Proof.
  intros Hi Hu Hc. assert (forall is_dir, wp (let '(status, _, s) := ask fts ent is_dir x false s in if negb (bool_decide (status = RM_OK)) then Ok (status, 0%nat, s) else let '(status, s) := cut fts ent x is_dir s in Ok (status, 0%nat, s)) (fun '(status, _, s') => consent (trace s') /\ VALID_STATUS status = true)) as Hfile.
  { intros is_dir. pose proof (prompt_asks fts ent is_dir false s Hi Hc) as H. destruct (ask fts ent is_dir x false s) as [[status e] s1]. destruct H as (H1 & H2 & H3). destruct (bool_decide_reflect (status = RM_OK)) as [E|E]; cbn [negb]; [|done]. pose proof (excise_consent fts ent is_dir s1 H1 (H3 E (or_introl eq_refl))) as H. by destruct (cut fts ent x is_dir s1). }
  unfold rm_fts. destruct (fts_info ent) eqn:Einfo; try done; try (destruct (_ && _ && _ && _); [split; [by apply consent_snoc|done]|apply Hfile]); try (split; [by apply consent_snoc|done]).
  destruct (negb (recursive x)); [split; [by apply consent_snoc|done]|]. destruct (fts_level ent =? 0); [split; [by apply consent_snoc|done]|].
  pose proof (prompt_asks fts ent true true s Hi Hc) as H. fold ask cut. destruct (ask fts ent true x true s) as [[status e] s1]. destruct H as (H1 & H2 & H3). destruct (bool_decide_reflect (status = RM_OK)) as [E|E]; cbn [andb negb].
  - destruct e; cbn [andb]; [|subst status; by cbn]. pose proof (excise_consent fts ent true s1 H1 (H3 E (or_intror eq_refl))) as H. destruct (cut fts ent x true s1) as [status' s2]. by destruct (negb _).
  - by rewrite bool_decide_false by done.
Qed.

(** C21. rm -i asks first: for every walk, whatever the system answers to each call at its
    moment, directory and name, and for every input, nothing is removed unless the event before is the
    question whether to remove that very entry, answered with yes; a yes to the question whether to
    descend into a directory does not count.  And rm returns.  Assumed: -i (RMI_ALWAYS), and that
    fts_read returns no entry of a kind that rm_fts does not know, for which it calls abort. *)
Theorem rm_asks_first entries failed closed s : interactive x = RMI_ALWAYS -> Forall (fun e => fts_info e.1 <> FTS_unexpected) entries -> consent (trace s) ->
  exists status s', rm rpmatch geteuid getegid group_member openat_needs_fchdir fstatat faccessat euidaccess is_empty_dir unlinkat lstatat entries failed closed x s = Ok (status, s') /\ consent (trace s').
Proof.
  intros Hi He Hc. unfold rm. enough (forall skips status, wp (rm_loop rpmatch geteuid getegid group_member openat_needs_fchdir fstatat faccessat euidaccess is_empty_dir unlinkat lstatat skips entries x status s) (fun '(_, s') => consent (trace s'))) as H.
  { specialize (H 0%nat RM_OK). destruct (rm_loop _ _ _ _ _ _ _ _ _ _ _ _ _ _ _ _) as [[status s']|]; [|done]. cbn [bind]. do 2 eexists. split; [done|exact H]. }
  revert s Hc. induction He as [|[e d] entries Hu _ IH]; intros s Hc skips status; [by cbn|]. cbn [rm_loop]. destruct skips as [|skips]; [|by apply IH]. apply wp_bind. eapply wp_mono; [by apply rm_fts_consent|]. intros [[st sk] s1] [H1 H2]. rewrite H2. cbn [demand bind]. by apply IH.
Qed.

(** ** rm -f *)

Definition removed (tr : list event) : list nat := omap (fun e => match e with Removed id => Some id | _ => None end) tr.

Lemma removed_app a b : removed (a ++ b) = removed a ++ removed b.
Proof. apply omap_app. Qed.

Definition is_plain (i : info) : bool := match i with FTS_F | FTS_NS | FTS_SL | FTS_SLNONE | FTS_NSOK | FTS_DEFAULT => true | _ => false end.

(** An operand that is not a directory. *)
Definition file_entry (s : state) (e : FTSENT * FTS) : Prop :=
  fts_parents e.1 = [] /\ numbers s (fts_id e.1) = 0 /\ is_plain (fts_info e.1) = true.

Definition unlink (e : FTSENT * FTS) : Z := unlinkat (fts_reads e.2) (fts_cwd_fd e.2) (fts_accpath e.1) false.
Definition unlinks (e : FTSENT * FTS) : bool := unlink e =? 0.
Definition settled (e : FTSENT * FTS) : bool := unlinks e || ignorable_missing x (unlink_errno lstatat e.2 e.1 (unlink e)).

Let run := rm_fts rpmatch geteuid getegid group_member openat_needs_fchdir fstatat faccessat euidaccess is_empty_dir unlinkat lstatat.

Lemma force_step e s : interactive x = RMI_NEVER -> file_entry s e ->
  exists s', run e.2 e.1 x s = Ok ((if settled e then RM_OK else RM_ERROR), 0%nat, s') /\ numbers s' = numbers s /\ removed (trace s') = removed (trace s) ++ (if unlinks e then [fts_id e.1] else []).
Proof.
  intros Hi (Hp & Hn & Hk). unfold run, rm_fts. assert (forall is_dir, prompt rpmatch geteuid getegid group_member openat_needs_fchdir fstatat faccessat euidaccess is_empty_dir e.2 e.1 is_dir x false s = (RM_OK, false, s)) as Hask by (intros; unfold prompt; rewrite Hn, Hi; done).
  assert (exists s', excise unlinkat lstatat e.2 e.1 x false s = ((if settled e then RM_OK else RM_ERROR), s') /\ numbers s' = numbers s /\ removed (trace s') = removed (trace s) ++ (if unlinks e then [fts_id e.1] else [])) as (s' & Hex & H1 & H2).
  { unfold excise, settled, unlinks. fold (unlink e). destruct (unlink e =? 0); cbn [orb].
    - eexists. split; [done|]. destruct (verbose x); cbn [log trace numbers]; rewrite ?removed_app; cbn; by rewrite ?app_nil_r.
    - destruct (ignorable_missing _ _); [exists s; by rewrite app_nil_r|]. eexists. split; [done|]. cbn [mark_ancestor_dirs log trace numbers]. rewrite Hp, removed_app. cbn. by rewrite app_nil_r. }
  exists s'. split; [|done]. destruct (fts_info e.1) eqn:E; try discriminate Hk; rewrite (bool_decide_false (_ = FTS_DP)) by done; cbn [andb orb]; rewrite (bool_decide_false (_ = FTS_DNR)) by done; rewrite Hask, bool_decide_true by done; cbn [negb]; by rewrite Hex.
Qed.

(** rm -f on files: it asks nothing, unlinks every operand it can, in their
    order, and the status is an error if and only if one of them could neither be
    unlinked nor is missing. *)
Theorem rm_force_correct entries s : interactive x = RMI_NEVER -> Forall (file_entry s) entries ->
  exists s', rm rpmatch geteuid getegid group_member openat_needs_fchdir fstatat faccessat euidaccess is_empty_dir unlinkat lstatat entries false true x s =
    Ok ((if forallb settled entries then RM_OK else RM_ERROR), s') /\
  removed (trace s') = removed (trace s) ++ map (fun e => fts_id e.1) (filter (fun e => unlinks e) entries).
Proof.
  intros Hi He. unfold rm. enough (forall status, status = RM_OK \/ status = RM_ERROR -> exists s', rm_loop rpmatch geteuid getegid group_member openat_needs_fchdir fstatat faccessat euidaccess is_empty_dir unlinkat lstatat 0 entries x status s = Ok ((if forallb settled entries then status else RM_ERROR), s') /\ removed (trace s') = removed (trace s) ++ map (fun e => fts_id e.1) (filter (fun e => unlinks e) entries)) as H.
  { destruct (H RM_OK (or_introl eq_refl)) as (s' & -> & Hr). exists s'. by split. }
  revert s He. induction entries as [|e entries IH]; intros s He status Hs; [exists s; by rewrite app_nil_r|]. apply Forall_cons in He as [He Hes]. destruct (force_step e s Hi He) as (s1 & E & Hn & Hr). destruct e as [ent dev]. cbn [rm_loop fst snd] in *. unfold run in E. rewrite E. cbn [bind].
  assert (Forall (file_entry s1) entries) as Hes1 by (eapply Forall_impl; [exact Hes|]; intros e' (? & ? & ?); split_and!; [done|by rewrite Hn|done]).
  set (status1 := if settled (ent, dev) then RM_OK else RM_ERROR). assert (VALID_STATUS status1 = true) as -> by (unfold status1; by destruct (settled _)). cbn [demand bind].
  assert (UPDATE_STATUS status status1 = if settled (ent, dev) then status else RM_ERROR) as -> by (unfold status1; destruct Hs as [-> | ->]; by destruct (settled _)).
  destruct (IH s1 Hes1 (if settled (ent, dev) then status else RM_ERROR)) as (s' & E' & Hr'); [destruct (settled _); auto|]. exists s'. rewrite E'. split.
  - cbn [forallb]. by destruct (settled _), (forallb settled entries).
  - rewrite Hr', Hr, filter_cons. destruct (unlinks (ent, dev)) eqn:Eu; cbn [map fst]; [rewrite decide_True by (first [exact I|by rewrite Eu]); by rewrite <- app_assoc|rewrite decide_False by (first [by intros []|by rewrite Eu]); by rewrite app_nil_r].
Qed.

(** ** What goes wrong *)

(** An operand that is a directory is never removed, and neither is what it holds: a semicolon ends the test for "." and "..". *)
Lemma directory_operand_refused fts ent s : fts_info ent = FTS_D -> fts_level ent = 0 -> recursive x = true ->
  run fts ent x s = Ok (RM_ERROR, 1%nat, log (Cannot_remove (fts_id ent)) s).
Proof. intros Hi Hl Hr. unfold run, rm_fts. by rewrite Hi, Hl, Hr. Qed.
End consent.

(** ** Examples *)

Definition yes_lines (line : list Z) : Z := if head_char line =? ch "y" then 1 else 0.
Definition some_stat (moment : nat) (fd : Z) (f : list Z) : Z + stat := inr (Stat (if bool_decide (f = bytes "a" \/ f = bytes "d") then S_IFDIR else S_IFREG 3) 420 7 7).
Definition some_unlink (moment : nat) (fd : Z) (f : list Z) (d : bool) : Z := if bool_decide (f = bytes "gone") then ENOENT else 0.
Definition file_ent (i : nat) (name : list Z) : FTSENT * FTS := (Ftsent i [] name name FTS_F 0 0, Fts 3 0 i).
(** A directory a with the file b and the empty directory d, in the directory of the operand. *)
Definition some_tree : list (FTSENT * FTS) :=
  [(Ftsent 1 [0%nat] (bytes "o/a") (bytes "a") FTS_D 1 0, Fts 3 0 1); (Ftsent 2 [1%nat; 0%nat] (bytes "o/a/b") (bytes "b") FTS_F 2 0, Fts 4 0 2);
   (Ftsent 3 [1%nat; 0%nat] (bytes "o/a/d") (bytes "d") FTS_D 2 0, Fts 4 0 3); (Ftsent 3 [1%nat; 0%nat] (bytes "o/a/d") (bytes "d") FTS_DP 2 0, Fts 4 0 4);
   (Ftsent 1 [0%nat] (bytes "o/a") (bytes "a") FTS_DP 1 0, Fts 3 0 5)].
Definition only_d (moment : nat) (fd : Z) (f : list Z) : bool := bool_decide (f = bytes "d").
Definition start (lines : list (list Z)) : state := State lines (fun _ => 0) [].
Definition asking : rm_options := RmOptions false RMI_ALWAYS false true None true false.
Definition forced : rm_options := RmOptions true RMI_NEVER false false None true false.
Definition rm_here (entries : list (FTSENT * FTS)) (x : rm_options) (s : state) : res (RM_status * state) :=
  rm yes_lines 7 7 (fun _ => false) false some_stat (fun _ _ _ => 0) (fun _ _ => 0) only_d some_unlink some_stat entries false true x s.
Definition answers (l : list string) : list (list Z) := map (fun a => bytes a ++ [10]) l.

Lemma rm_asks_first_witness : exists status s', rm_here some_tree asking (start (answers ["y"; "y"; "y"; "n"])) = Ok (status, s') /\ consent (trace s').
Proof.
  apply (rm_asks_first yes_lines 7 7 (fun _ => false) false some_stat (fun _ _ _ => 0) (fun _ _ => 0) only_d some_unlink some_stat asking some_tree false true (start (answers ["y"; "y"; "y"; "n"]))).
  - reflexivity.
  - repeat constructor; discriminate.
  - intros pre id post E. destruct pre; discriminate.
Defined.

Lemma rm_force_correct_witness : exists s', rm_here [file_ent 1 (bytes "a"); file_ent 2 (bytes "gone")] forced (start []) = Ok (RM_OK, s') /\ removed (trace s') = [1%nat].
Proof.
  apply (rm_force_correct yes_lines 7 7 (fun _ => false) false some_stat (fun _ _ _ => 0) (fun _ _ => 0) only_d some_unlink some_stat forced [file_ent 1 (bytes "a"); file_ent 2 (bytes "gone")] (start [])).
  - reflexivity.
  - repeat constructor.
Defined.

(** The questions of a walk: to descend, to remove the file, to remove the empty directory, and to
    remove the directory itself, which is declined. *)
Example rm_answers :
  (let* (status, s) := rm_here some_tree asking (start (answers ["y"; "y"; "y"; "n"])) in Ok (status, trace s)) =
  Ok (RM_USER_DECLINED,
      [Asked 1 (Descend false) true; Asked 2 (Remove false "regular file") true; Removed 2; Asked 3 (Remove false "directory") true; Removed 3;
       Asked 1 (Remove false "directory") false]).
Proof. vm_compute. reflexivity. Qed.

(** ** Permission bits *)

Lemma granted_bits mode g : (Z.land (Z.land mode 7) (Z.lnot g) =? 0) = forallb (fun b => negb (Z.testbit mode b) || Z.testbit g b) [0; 1; 2].
Proof.
  apply eq_true_iff_eq. rewrite Z.eqb_eq, forallb_forall. split.
  - intros E b Hb. apply (f_equal (fun z => Z.testbit z b)) in E. assert (0 <= b) by (repeat destruct Hb as [<-|Hb]; try done; lia). rewrite !Z.land_spec, Z.lnot_spec, Z.bits_0 in E by done. assert (Z.testbit 7 b = true) as E7 by (repeat destruct Hb as [<-|Hb]; done). rewrite E7 in E. by destruct (Z.testbit mode b), (Z.testbit g b).
  - intros H. apply Z.bits_inj'. intros n Hn. rewrite !Z.land_spec, Z.lnot_spec, Z.bits_0 by done. destruct (Z.lt_ge_cases n 3) as [Hlt|Hge].
    + specialize (H n). assert (In n [0; 1; 2]) as Hin by (assert (n = 0 \/ n = 1 \/ n = 2) as [ -> |[ -> | -> ]] by lia; cbn; auto). specialize (H Hin). by destruct (Z.testbit mode n), (Z.testbit 7 n), (Z.testbit g n).
    + rewrite (Z.bits_above_log2 7 n) by (cbn; lia). by rewrite andb_false_r.
Qed.

(** Without the powers of the superuser the bits of the one class the process is in decide. *)
Lemma euidaccess_bits euid egid member st mode : euid <> 0 ->
  euidaccess_stat euid egid member st mode =
  forallb (fun b => negb (Z.testbit mode b) || Z.testbit (Z.shiftr (st_mode st) (if euid =? st_uid st then 6 else if (egid =? st_gid st) || member (st_gid st) then 3 else 0)) b) [0; 1; 2].
Proof.
  intros He. unfold euidaccess_stat. rewrite (proj2 (Z.eqb_neq _ _) He). cbn [andb]. rewrite <- granted_bits.
  destruct (Z.eqb_spec (Z.land mode 7) 0) as [->|_]; [by rewrite Z.land_0_l|]. destruct (euid =? st_uid st); [done|]. destruct (_ || _); [done|]. by rewrite Z.shiftr_0_r.
Qed.

(** An empty directory that cannot be removed makes fts_skip_tree run twice: the
    entry after it is read and forgotten. *)
Lemma skips_twice :
  match rm_fts yes_lines 7 7 (fun _ => false) false some_stat (fun _ _ _ => 0) (fun _ _ => 0) (fun _ _ _ => true) (fun _ _ _ _ => EACCES) some_stat (Fts 3 0 0) (Ftsent 2 [1%nat] (bytes "d/e") (bytes "e") FTS_D 1 0) (RmOptions false RMI_ALWAYS false true None true false) (start [bytes "y" ++ [10]]) with
  | Ok (status, skips, _) => status = RM_ERROR /\ skips = 2%nat
  | Fail _ => False
  end.
Proof. vm_compute. done. Qed.
