(* ===== verification/MsgQueue.v ===== *)
(** * Two processes and a message queue: os_lesson/exp_1/main.c

    The parent sends random changes through a POSIX message queue and applies them to
    its own table; the child receives them and applies them to its table.
    Both are machines with a program counter whose steps interleave;
    SIGTERM may arrive at any time.  After fork the processes share nothing but the
    queue, so that each has the variables it uses.  signal of glibc restarts
    mq_receive and wait after the handler.  The machines start after both calls of
    signal, with a queue that mq_open has made, so empty; the calls of the queue do
    not fail, and mq_unlink takes away its name only. *)

From S2P Require Import Prelude Arrays.
Open Scope Z_scope.

Definition MAXSIZE : Z := 10.

Record MsgType := Msg { index : Z; op : Z }.

(** [if (msg.op == 0) table[msg.index] -= 1; else if (msg.op == 1) ... += 1; else printf] *)
Definition apply_op (m : MsgType) (table : list Z) : res (list Z) :=
  if op m =? 0 then let* v := rd table (index m) in let* v := int (v - 1) in wr table (index m) v
  else if op m =? 1 then let* v := rd table (index m) in let* v := int (v + 1) in wr table (index m) v
  else Ok table.

Inductive parent_pc := P_send | P_count (m : MsgType) | P_check | P_wait | P_done.
Inductive child_pc := C_check | C_receive | C_apply (m : MsgType) | C_done.

Record state := State {
  queue : list MsgType;
  parent : parent_pc; iExtFlag : bool; localDatebase : list Z;
  child : child_pc; iExtFlag_c : bool; shareDatabase : list Z; msgCnt : Z }.

Definition start : state := State [] P_send false (replicate (Z.to_nat MAXSIZE) 0) C_check false (replicate (Z.to_nat MAXSIZE) 0) 0.

Section steps.
(** The queue holds at most [mq_maxmsg] messages. *)
Context (mq_maxmsg : Z).

(** A step of the parent; [r1] and [r2] are what rand returns.  No result: the process is blocked or has ended. *)
Definition parent_step (r1 r2 : Z) (s : state) : option (res state) :=
  match parent s with
  | P_send =>
      let m := Msg (Z.rem r1 10) (Z.rem r2 2) in
      if zlen (queue s) <? mq_maxmsg then Some (Ok (State (queue s ++ [m]) (P_count m) (iExtFlag s) (localDatebase s) (child s) (iExtFlag_c s) (shareDatabase s) (msgCnt s)))
      else None
  | P_count m =>
      Some (let* t := apply_op m (localDatebase s) in
            Ok (State (queue s) P_check (iExtFlag s) t (child s) (iExtFlag_c s) (shareDatabase s) (msgCnt s)))
  | P_check =>
      if iExtFlag s then (* prints its table, unlinks the queue, kill(0, SIGTERM) *)
        Some (Ok (State (queue s) P_wait true (localDatebase s) (child s) true (shareDatabase s) (msgCnt s)))
      else Some (Ok (State (queue s) P_send (iExtFlag s) (localDatebase s) (child s) (iExtFlag_c s) (shareDatabase s) (msgCnt s)))
  | P_wait =>
      match child s with
      | C_done => Some (Ok (State (queue s) P_done (iExtFlag s) (localDatebase s) (child s) (iExtFlag_c s) (shareDatabase s) (msgCnt s)))
      | _ => None
      end
  | P_done => None
  end.

Definition child_step (s : state) : option (res state) :=
  match child s with
  | C_check =>
      let pc := if iExtFlag_c s then C_done else C_receive in
      Some (Ok (State (queue s) (parent s) (iExtFlag s) (localDatebase s) pc (iExtFlag_c s) (shareDatabase s) (msgCnt s)))
  | C_receive =>
      match queue s with
      | [] => None
      | m :: q => Some (Ok (State q (parent s) (iExtFlag s) (localDatebase s) (C_apply m) (iExtFlag_c s) (shareDatabase s) (msgCnt s)))
      end
  | C_apply m =>
      Some (let* t := apply_op m (shareDatabase s) in
            let* n := int (msgCnt s + 1) in
            Ok (State (queue s) (parent s) (iExtFlag s) (localDatebase s) C_check (iExtFlag_c s) t n))
  | C_done => None
  end.

(** SIGTERM from outside: the handlers. *)
Definition parten_process (s : state) : state := State (queue s) (parent s) true (localDatebase s) (child s) (iExtFlag_c s) (shareDatabase s) (msgCnt s).
Definition child_process (s : state) : state := State (queue s) (parent s) (iExtFlag s) (localDatebase s) (child s) true (shareDatabase s) (msgCnt s).

Inductive choice := Parent (r1 r2 : Z) | Child | Signal_parent | Signal_child.

Definition step (c : choice) (s : state) : option (res state) :=
  match c with
  | Parent r1 r2 => parent_step r1 r2 s
  | Child => child_step s
  | Signal_parent => Some (Ok (parten_process s))
  | Signal_child => Some (Ok (child_process s))
  end.

(** The states after a number of steps; rand is not negative. *)
Inductive reaches : nat -> state -> Prop :=
  | reaches_start : reaches 0 start
  | reaches_step n c s s' : reaches n s -> (forall r1 r2, c = Parent r1 r2 -> 0 <= r1 /\ 0 <= r2) -> step c s = Some (Ok s') -> reaches (S n) s'.
End steps.

(** ** The tables agree up to the messages on their way *)

(** What a message does to cell [i]. *)
Definition effect (i : Z) (m : MsgType) : Z := if index m =? i then if op m =? 0 then -1 else 1 else 0.
Definition effects (i : Z) (ms : list MsgType) : Z := foldr (fun m z => effect i m + z) 0 ms.
#[local] Arguments effects : simpl never.

(** The messages that were sent and not counted yet by the parent, and those received and not applied yet by the child. *)
Definition to_count (s : state) : list MsgType := match parent s with P_count m => [m] | _ => [] end.
Definition to_apply (s : state) : list MsgType := match child s with C_apply m => [m] | _ => [] end.

Definition good_msg (m : MsgType) : Prop := 0 <= index m < MAXSIZE /\ (op m = 0 \/ op m = 1).

Record consistent (n : nat) (s : state) : Prop := {
  c_local : zlen (localDatebase s) = MAXSIZE;
  c_share : zlen (shareDatabase s) = MAXSIZE;
  c_msgs : Forall good_msg (to_count s ++ to_apply s ++ queue s);
  c_agree : forall i, 0 <= i < MAXSIZE -> (localDatebase s).[i] + effects i (to_count s) = (shareDatabase s).[i] + effects i (to_apply s) + effects i (queue s);
  c_small : forall i, 0 <= i < MAXSIZE -> - Z.of_nat n <= (localDatebase s).[i] <= Z.of_nat n /\ - Z.of_nat n <= (shareDatabase s).[i] <= Z.of_nat n;
  c_count : 0 <= msgCnt s <= Z.of_nat n }.

Lemma effects_app i a b : effects i (a ++ b) = effects i a + effects i b.
Proof. induction a as [|m a IH]; [done|]. unfold effects in *. cbn. lia. Qed.

(** Applying a message to a table of small numbers. *)
Lemma apply_op_ok m table n : good_msg m -> zlen table = MAXSIZE -> n < INT_MAX -> (forall i, 0 <= i < MAXSIZE -> - n <= table.[i] <= n) ->
  exists table', apply_op m table = Ok table' /\ zlen table' = MAXSIZE /\ forall i, 0 <= i < MAXSIZE -> table'.[i] = table.[i] + effect i m.
Proof.
  intros [Hi Ho] Hl Hn Ht. unfold apply_op. rewrite (rd_Ok table (index m)) by lia. specialize (Ht _ Hi) as Hv.
  assert (forall v, exists table', wr table (index m) v = Ok table' /\ zlen table' = MAXSIZE /\ forall i, 0 <= i < MAXSIZE -> table'.[i] = if index m =? i then v else table.[i]) as Hw.
  { intros v. exists (upd table (index m) v). rewrite wr_Ok by lia. split; [done|]. split; [by rewrite zlen_upd|]. intros i Hr. destruct (Z.eqb_spec (index m) i) as [->|E]; [by rewrite aget_upd_eq by lia|by rewrite aget_upd_ne by lia]. }
  destruct Ho as [E|E]; rewrite E; cbn [Z.eqb bind].
  - rewrite int_Ok by code_lia. cbn [bind]. destruct (Hw (table.[index m] - 1)) as (t & -> & Hz & Hg). exists t. split; [done|]. split; [done|]. intros i Hr. rewrite Hg by done. unfold effect. rewrite E. destruct (Z.eqb_spec (index m) i) as [->|]; cbn; lia.
  - rewrite int_Ok by code_lia. cbn [bind]. destruct (Hw (table.[index m] + 1)) as (t & -> & Hz & Hg). exists t. split; [done|]. split; [done|]. intros i Hr. rewrite Hg by done. unfold effect. rewrite E. destruct (Z.eqb_spec (index m) i) as [->|]; cbn; lia.
Qed.

Lemma small_more n s : (forall i, 0 <= i < MAXSIZE -> - Z.of_nat n <= (localDatebase s).[i] <= Z.of_nat n /\ - Z.of_nat n <= (shareDatabase s).[i] <= Z.of_nat n) ->
  forall i, 0 <= i < MAXSIZE -> - Z.of_nat (S n) <= (localDatebase s).[i] <= Z.of_nat (S n) /\ - Z.of_nat (S n) <= (shareDatabase s).[i] <= Z.of_nat (S n).
Proof. intros H i Hi. specialize (H i Hi). lia. Qed.

Lemma effect_bound i m : -1 <= effect i m <= 1.
Proof. unfold effect. repeat case_match; lia. Qed.

Lemma effects_one i m : effects i [m] = effect i m.
Proof. unfold effects. cbn. lia. Qed.

Lemma effects_cons i m ms : effects i (m :: ms) = effect i m + effects i ms.
Proof. done. Qed.

(** One step from a consistent state: it does not fault, and the new state is consistent. *)
Definition goes_well (n : nat) (o : option (res state)) : Prop := match o with None => True | Some r => wp r (consistent (S n)) end.

Lemma parent_step_ok mq n r1 r2 s : consistent n s -> Z.of_nat n < INT_MAX -> 0 <= r1 -> 0 <= r2 -> goes_well n (parent_step mq r1 r2 s).
Proof.
  intros [Hl Hs Hm Ha Hb Hc] Hn Hr1 Hr2. pose proof (small_more n s Hb) as Hb'. unfold parent_step, to_count in *. destruct (parent s) as [|m| | |] eqn:Ep.
  - destruct (_ <? mq); [|done]. set (m := Msg (Z.rem r1 10) (Z.rem r2 2)). cbn [app] in Hm. apply Forall_app in Hm as [Hm1 Hm2].
    assert (good_msg m) as Hg. { split; cbn; [change MAXSIZE with 10; apply Z.rem_bound_pos; lia|]. pose proof (Z.rem_bound_pos r2 2 Hr2 ltac:(lia)). lia. }
    split; cbn; try done; [|intros i Hi|lia].
    + constructor; [done|]. apply Forall_app. split; [done|]. apply Forall_app. split; [done|by constructor].
    + specialize (Ha i Hi). rewrite effects_app, !effects_one. change (effects i []) with 0 in Ha. change (to_apply _) with (to_apply s). lia.
  - inversion_clear Hm as [|? ? Hg Hm']. destruct (apply_op_ok m (localDatebase s) (Z.of_nat n) Hg Hl Hn ltac:(intros i Hi; apply Hb, Hi)) as (t & -> & Hz & Ht). cbn [goes_well bind wp]. split; cbn; try done; [intros i Hi|intros i Hi|lia].
    + specialize (Ha i Hi). rewrite Ht by done. rewrite effects_one in Ha. change (to_apply _) with (to_apply s). change (effects i []) with 0. lia.
    + specialize (Hb i Hi). rewrite Ht by done. pose proof (effect_bound i m). lia.
  - destruct (iExtFlag s); (split; cbn; [done|done|exact Hm|exact Ha|exact Hb'|lia]).
  - destruct (child s) eqn:Ech; try done. unfold to_apply in Hm, Ha. rewrite Ech in Hm, Ha. cbn. split; unfold to_apply, to_count; cbn; try rewrite Ech; [done|done|exact Hm|exact Ha|exact Hb'|lia].
  - done.
Qed.

Lemma child_step_ok n s : consistent n s -> Z.of_nat n < INT_MAX -> goes_well n (child_step s).
Proof.
  intros [Hl Hs Hm Ha Hb Hc] Hn. pose proof (small_more n s Hb) as Hb'. unfold child_step, to_apply in *. destruct (child s) as [| |m|] eqn:Ech.
  - split; unfold to_apply; cbn; try done; [by destruct (iExtFlag_c s)|by destruct (iExtFlag_c s)|lia].
  - destruct (queue s) as [|m q] eqn:Eq; [done|]. split; cbn; try done; [|lia]. intros i Hi. specialize (Ha i Hi). change (to_count _) with (to_count s). rewrite effects_cons in Ha. rewrite effects_one. change (effects i []) with 0 in Ha. lia.
  - apply Forall_app in Hm as [Hm1 Hm2]. apply Forall_cons in Hm2 as [Hg Hm2]. destruct (apply_op_ok m (shareDatabase s) (Z.of_nat n) Hg Hs Hn ltac:(intros i Hi; apply Hb, Hi)) as (t & -> & Hz & Ht). cbn [goes_well bind]. rewrite int_Ok by code_lia. cbn [bind wp]. split; cbn; try done; [by apply Forall_app|intros i Hi|intros i Hi|lia].
    + specialize (Ha i Hi). rewrite Ht by done. rewrite effects_one in Ha. change (to_count _) with (to_count s). change (effects i []) with 0. lia.
    + specialize (Hb i Hi). rewrite Ht by done. pose proof (effect_bound i m). lia.
  - done.
Qed.

Lemma start_consistent : consistent 0 start.
Proof.
  assert (forall i, 0 <= i < MAXSIZE -> (replicate (Z.to_nat MAXSIZE) 0).[i] = 0) as H by (intros; by apply aget_replicate).
  split; [done|done|constructor|intros i Hi|intros i Hi|done]; change (localDatebase start) with (replicate (Z.to_nat MAXSIZE) 0); change (shareDatabase start) with (replicate (Z.to_nat MAXSIZE) 0); rewrite (H i Hi); done.
Qed.

Lemma step_ok mq n c s : consistent n s -> Z.of_nat n < INT_MAX -> (forall r1 r2, c = Parent r1 r2 -> 0 <= r1 /\ 0 <= r2) -> goes_well n (step mq c s).
Proof.
  intros Hs Hn Hc. destruct c as [r1 r2| | |]; cbn [step].
  - destruct (Hc r1 r2 eq_refl). by apply parent_step_ok.
  - by apply child_step_ok.
  - destruct Hs as [Hl Hsh Hm Ha Hb Hcn]. split; cbn; [done|done|exact Hm|exact Ha|by apply small_more|lia].
  - destruct Hs as [Hl Hsh Hm Ha Hb Hcn]. split; cbn; [done|done|exact Hm|exact Ha|by apply small_more|lia].
Qed.

(** C3. The two tables agree up to the messages that are on their way: in every state the
    processes reach, in whatever order they run and whenever signals arrive, each cell of
    the parent's table, with the message it has sent and not counted yet, is that
    cell of the child's table with the message it has received and the messages in the queue; so if
    nothing is on its way the tables are equal.  No access is outside the tables and no
    counter overflows in less than 2^31 - 1 steps. *)
Theorem tables_agree mq n s : reaches mq n s -> Z.of_nat n < INT_MAX ->
  (forall i, 0 <= i < MAXSIZE -> (localDatebase s).[i] + effects i (to_count s) = (shareDatabase s).[i] + effects i (to_apply s) + effects i (queue s)) /\
  (to_count s = [] -> to_apply s = [] -> queue s = [] -> localDatebase s = shareDatabase s) /\
  forall c, (forall r1 r2, c = Parent r1 r2 -> 0 <= r1 /\ 0 <= r2) -> step mq c s = None \/ exists s', step mq c s = Some (Ok s').
Proof.
  intros Hr Hn. assert (consistent n s) as Hs.
  { induction Hr as [|n c s s' Hr IH Hc E]; [exact start_consistent|]. pose proof (step_ok mq n c s (IH ltac:(lia)) ltac:(lia) Hc) as H. rewrite E in H. exact H. }
  split_and!.
  - apply Hs.
  - intros E1 E2 E3. apply aget_ext; [by rewrite (c_local n s Hs), (c_share n s Hs)|]. intros i Hi. rewrite (c_local n s Hs) in Hi. pose proof (c_agree n s Hs i Hi) as H. rewrite E1, E2, E3 in H. change (effects i []) with 0 in H. lia.
  - intros c Hc. pose proof (step_ok mq n c s Hs Hn Hc) as H. destruct (step mq c s) as [[s'|]|]; [right; by exists s'|done|by left].
Qed.

(** ** What goes wrong *)

Fixpoint run (mq : Z) (cs : list choice) (s : state) : option (res state) :=
  match cs with
  | [] => Some (Ok s)
  | c :: cs => match step mq c s with Some (Ok s) => run mq cs s | r => r end
  end.

(** A message is counted by both, and the parent is told to end. *)
Definition ending : list choice :=
  [Parent 3 1; Parent 0 0; Child; Child; Child; Child; Signal_parent; Parent 0 0].

(** The parent waits for the child, which waits for a message that nobody sends: it was
    told to end, but looks at its flag only after the next message. *)
Lemma ending_hangs : exists s, run 10 ending start = Some (Ok s) /\ parent s = P_wait /\ iExtFlag_c s = true /\ (forall r1 r2, parent_step 10 r1 r2 s = None) /\ child_step s = None.
Proof. eexists. split; [vm_compute; reflexivity|]. done. Qed.

Lemma run_reaches mq cs : Forall (fun c => forall r1 r2, c = Parent r1 r2 -> 0 <= r1 /\ 0 <= r2) cs -> forall n s s', reaches mq n s -> run mq cs s = Some (Ok s') -> reaches mq (n + length cs) s'.
Proof.
  induction 1 as [|c cs Hc _ IH]; intros n s s' Hr; cbn [run length]; [intros [= <-]; by rewrite Nat.add_0_r|]. destruct (step mq c s) as [[s1|]|] eqn:E; try done. intros E'. rewrite <- Nat.add_succ_comm. apply (IH (S n) s1); [|done]. by apply (reaches_step mq n c s).
Qed.

Lemma tables_agree_witness : exists s, reaches 10 8 s /\
  (forall i, 0 <= i < MAXSIZE -> (localDatebase s).[i] + effects i (to_count s) = (shareDatabase s).[i] + effects i (to_apply s) + effects i (queue s)) /\
  (to_count s = [] -> to_apply s = [] -> queue s = [] -> localDatebase s = shareDatabase s) /\
  forall c, (forall r1 r2, c = Parent r1 r2 -> 0 <= r1 /\ 0 <= r2) -> step 10 c s = None \/ exists s', step 10 c s = Some (Ok s').
Proof.
  destruct ending_hangs as (s & E & _). assert (reaches 10 8 s) as Hr.
  { apply (run_reaches 10 ending) with (n := 0%nat) (s := start); [|constructor|exact E]. repeat (constructor; [intros r1 r2 [= <- <-] || (intros r1 r2 Hx; discriminate Hx); lia|]). constructor. }
  exists s. split; [exact Hr|]. apply (tables_agree 10 8 s Hr). vm_compute. reflexivity.
Defined.

(** The child ends with messages of the queue not applied, and the tables differ. *)
Lemma ending_loses_messages : exists s, run 10 [Parent 3 1; Parent 0 0; Signal_parent; Parent 0 0; Child; Parent 0 0] start = Some (Ok s) /\ parent s = P_done /\ child s = C_done /\ localDatebase s <> shareDatabase s.
Proof. eexists. split; [vm_compute; reflexivity|]. done. Qed.
